(* ===== verification/_CoqProject ===== *)
-Q . S2P
Prelude.v
MediaResult.v
CheckedArithmetic.v
Model.v
Graph.v
Topology.v
Validation.v
Ring.v
Queue.v
QueueStorage.v
BlockingQueue.v
SpscRingQueue.v
QueueClients.v
TsCrc.v
TsPes.v
TsPacket.v
TsParser.v
TsPublication.v
TsFraming.v
TsRoundTrip.v
TsPsi.v
TsSections.v
TsPsiRoundTrip.v
TsInventory.v
TsPacketizer.v
TsContinuity.v
CreditLedger.v
CreditInvariant.v
CreditWakeup.v
TimeBase.v
CanonicalTime.v
DemuxClock.v
DemuxClockSafety.v
SyncStateMachine.v
SyncGeneration.v
SyncGenerationSafety.v
RtpWire.v
RtpReorder.v
VideoNal.v
RtpVideo.v
RtpVideoRoundTrip.v
RtpVideoBounds.v
RtpVideoSafety.v
Utf8Text.v
Rtcp.v
RtcpGrammar.v
RtcpRoundTrip.v
RtcpTracker.v
RtcpSchedule.v
RtpClock.v
RtpClockGroup.v
AudioGrid.v
AvSyncPlan.v
AudioDrift.v
AudioDriftSafety.v
VideoSync.v
AvSyncPlanner.v
AvSyncContract.v
AvSyncPlanned.v
TsOutputClock.v
TsEmission.v
TsSourceClock.v
TsClockRoundTrip.v
TsEvidence.v
