(* ===== verification/Prelude.v ===== *)
(** * MediaTranscode: a verified model of the media graph runtime

    MediaTranscode ([src/src/internal/graph]) moves media buffers through a
    graph of processing nodes.  A planner describes a job, builders assemble a
    [MediaGraph], the graph is validated and ordered, and a runtime connects
    its nodes with bounded queues and runs them.  At the borders the program
    reads and writes MPEG transport streams and RTP.  This library models the
    parts of that system that are pure logic, at the width of the C++ integers,
    and proves what each of them promises.

    ** Parts and files

    - [MediaResult] models [include/media_transcode/Result.h]: [ErrorInfo],
      [Result<T>] and [Status], with a monad for [if (!r) return r;] and one
      ([StateResult]) for calls that change state also when they fail.
    - [CheckedArithmetic] models [utils/MediaCheckedArithmetic.{h,cpp}]: the
      128-bit product and quotient in 32-bit limbs, and the scalings built on
      them.
    - [Model] holds the data of [model/] and of [core/MediaEdge.h]:
      enumerations, descriptors, policies with their defaults, the payload
      credit plan with its checks.
    - [Graph] models [core/MediaGraph.cpp] with ports, nodes, edges and options
      (Module [MediaGraph]): every method is a function on the record of the
      members, with the wrapping 32-bit identifier counters.
    - [Topology] models [core/MediaGraphTopology.cpp]: Kahn's order, sources,
      sinks and levels.  [Validation] models [core/MediaGraphValidation.cpp]:
      every issue [validate] reports.
    - [Ring], [Queue], [QueueStorage], [BlockingQueue], [SpscRingQueue] and
      [QueueClients] model [runtime/queue/] and the part of
      [runtime/buffer/MediaBuffer.cpp] queues look at.  [Queue] states the
      contract of [MediaQueue] as a bounded FIFO and the class both
      implementations are instances of; [QueueClients] holds the factory, the
      registry and the inspector, and the theorems proved against the class.
    - The [Ts] files model the transport stream code of [protocol/mpegts/]:
      [TsCrc] and [TsPes] (CRC, timestamp fields, PES headers), [TsPacket]
      ([MediaTsTransportPacketBuilder]), [TsParser] ([MediaTsPacketParser] and
      its two sink interfaces), [TsPsi] (mux plan, PAT and PMT serialiser),
      [TsSections] ([MediaTsPsiSectionAssembler], an instance of the parser's
      sink class), [TsPacketizer] ([MediaTsTransportPacketizer]: continuity
      counters, cursors, commit tokens, the reservation ledger),
      [TsOutputClock] ([MediaTsOutputClockGenerator]) and [TsEmission] (the
      datagram emission plan and [MediaTsDatagramEmissionSchedule]),
      [TsSourceClock] ([MediaTsProgramClockTracker], [MediaTsSourceClockMapper])
      and [TsEvidence] ([MediaTsEvidenceTimeline], [MediaTsClockProjection] and
      the method of [nodes/demux/MpegTsDemuxNode.cpp] that drives them).
      [TsPublication] (what a packet's first bytes decide), [TsFraming],
      [TsRoundTrip], [TsPsiRoundTrip], [TsInventory], [TsContinuity] and
      [TsClockRoundTrip] hold no code of the program but the theorems across
      these parts.
    - [CreditLedger] models [runtime/resource/MediaGraphPayloadCreditLedger]
      and [MediaGraphPayloadReservation]: accounts, leases, waiters and
      admissions, over the credit plan of [Model].  [CreditInvariant] and
      [CreditWakeup] hold its theorems.
    - [TimeBase] models [time/MediaRunningTime.h] and
      [time/MediaTimestampUnwrapper]; [CanonicalTime] the shared NTP epoch,
      [time/MediaCanonicalTimeMapper] and [sync/MediaAvSyncError.h];
      [DemuxClock] models [time/MediaDemuxTimestampClockMapper], which puts
      both streams of a source on one canonical time line through two
      canonical mappers; its theorems are in [DemuxClockSafety].
    - [SyncStateMachine] models [sync/MediaAvSyncStateMachine].
      [SyncGeneration] models the generation transitions of [sync/]: the
      coordinator, the participant group over the class
      [MediaAvGenerationPurgeTarget] of its children, and the epoch transition
      service that permits output; its theorems are in [SyncGenerationSafety].
    - [RtpWire] models the RTP side of [protocol/rtp/]: output timestamps, the
      packet parser, the datagram rewriter and composer, MPEG-TS over RTP;
      [RtpReorder] models [MediaRtpReorderBuffer] on the parsed packets.
    - [VideoNal] models the H.264 and HEVC byte structure the RTP code rests on:
      the start-code scanner of [MediaAnnexBAccessUnitScanner], the access-unit
      validator and the NAL header rules.  [RtpVideo] models the packetizer
      ([DeterministicVideoRtpPacketizer]) and the two depacketizers with their
      shared assembler, up to the packet object handed on.
      [RtpVideoRoundTrip], [RtpVideoBounds] and [RtpVideoSafety] hold their
      theorems.
    - The [Rtcp] files model the control side: [Utf8Text] the text validator of
      CNAME values; [Rtcp] the report generator, the composition policy, the wire
      geometry and the compound parser, with its theorems in [RtcpGrammar] and
      [RtcpRoundTrip]; [RtcpTracker] [MediaRtcpSenderReportTracker];
      [RtcpSchedule] the reporting policy and [MediaRtcpSenderReportSchedule].
      [RtpClock] models the packet timestamp aligner and the ageing of clock
      observations, [RtpClockGroup] [MediaRtpClockGroupValidator], which locks
      the two streams of a source to one epoch.
    - The A/V synchronisation files: [AvSyncPlan] the plan's records and the
      checks of [planner/avsync/MediaAvSyncPlanValidator]; [AvSyncPlanner] the
      planners that fill a plan and compute the correction timing; [AudioGrid]
      the sample grid and the check of the lead; [AudioDrift] the quantiser of
      the correction windows and [sync/MediaAudioDriftServo], with theorems in
      [AudioDriftSafety]; [VideoSync] [sync/MediaVideoSyncController].
      [AvSyncContract] and [AvSyncPlanned] compose them: what a validated plan
      guarantees its users, and which requests get one.

    ** State, errors, integers, loops

    A C++ object is a [Record] of its members and a method a function on it.
    Unsigned integers are [Z] with the wrap-around written out ([u8] to [u64]
    below); [size_t] has 64 bits.  Failing calls return [Result] and keep the
    state they had reached.  Interfaces (virtual classes) are type classes or
    records of methods on a state of the implementation, so that theorems hold
    for every implementation.  Blocking calls return [Waiting] where the code
    waits on a condition variable; threads are interleavings of whole critical
    sections (each method holds the mutex of the queue).  [MediaSpscRingQueue]'s
    [pop] releases it between [tryPop] and its tests of the flags: the two are
    the definitions [tryPop] and [popTests] of [SpscRingQueue], and [pop] is
    their composition when no other call comes in between.

    Loops that are not structural take fuel.  [Topology.drainFuel] is twice the
    number of nodes, since a key enters the ready list at most twice
    ([drain_terminates]); [TsParser.pushFuel] is twice the pending bytes plus
    two, since an iteration consumes a byte or locks the stride
    ([pushLoop_total], and [push_refines_scan] says the result is never the
    out-of-fuel one); [TsSections.consume] gives the length of its input
    ([consumeLoop_fuel]); [TsPacket.payloadLoop] gives the number of bytes,
    each packet carrying at least one ([payload_shape] accounts for all of
    them); the binary searches of [CheckedArithmetic] give 64 halvings;
    [CreditLedger.promoteAll] gives one round more than there are waiters, each
    round but the last granting one ([retention_promotion_terminates]);
    [RtpReorder.drainLoop] gives the number of pending packets, each turn
    erasing one ([drainLoop_spec]).  The loops of [Rtcp] give the number of
    bytes, each item and packet taking at least one ([rtcp_parse_iff] is about
    the result with that fuel).  The loops of [VideoNal] and [RtpVideo] give
    one unit per byte or per NAL unit of their input, each turn consuming one.

    Objects shared between owners (accounts, leases, reservations, cursors) are
    entries of a finite map under an address, and ownership is a question asked
    of the map; a wake handle or a callback is the record of its calls.  A mutex
    that stays locked in a reservation object is a flag, and the calls that
    would wait for it do nothing while it is set.

    ** What the theorems show

    - Graph: any sequence of fewer than 2^32 - 1 calls keeps the graph well
      formed; [validate] accepts exactly the graphs of a declarative predicate;
      [build] succeeds exactly on acyclic graphs, its order respects every edge
      and its levels are longest paths.
    - Queues: both implementations refine one bounded FIFO for every policy on
      every sequence of non-blocking calls, agree with each other, and unblock
      on close; one loop that does not is proved to spin.  Under every
      interleaving of blocking calls the blocking queue keeps order, bound and
      liveness, and what is missing of what was sent is counted as dropped
      (nothing, under the blocking policy); an execution shows the ring queue's
      [pop] report an end of stream with a buffer queued.
    - Arithmetic: the limb arithmetic is exact, the scalings are the exact
      ceilings or the documented errors.
    - Transport streams: the framing loop implements a reference scan, with and
      without an incremental sink, and does not depend on how the stream is cut;
      with an incremental sink the latter holds for streams that keep their
      sync bytes, and an example shows why only for those.  Packets, clocks, PES headers and
      program tables written by the mux side are read back unchanged by the
      demux side; every published inventory is consistent; sections stay
      well-formed while calls succeed, and one error path that leaves them
      ill-formed is shown.

    - Transport packetizer: under every schedule of cursors and tokens that does
      not commit past a waiting reserved series, the committed packets are
      continuous for the parser; poisoning is final; two executions show where
      the reservation ledger falls short.
    - Transport output: committed timestamps and clock samples are exact times
      of one affine map in order and without gap; committed datagrams lie on one
      timeline, completed access units have committed exactly their wire bytes
      within their windows, and an accepted access unit can always be completed.
    - Transport clocks: the receiving tracker's calibrations lie on a time line
      that never goes back; the timing the output clock writes is recovered by
      the tracker and the mapper up to rounding; the bounded evidence timeline
      and clock projection answer what unbounded ones would while the reader
      stays within the planned regression.  Reordered presentation times and a
      packet that jumps over unreplayed evidence are shown to be refused.
    - Payload credit: conservation of bytes and objects over all schedules, the
      hard bounds, no lost wake-up while handles live, and an execution in which
      a dead handle strands a waiter; the promotion loop ends in any case, and
      at a fixpoint when all handles live.
    - Time: unwrapping inverts wrapping, NTP and RTP timestamps are exact or an
      error, the canonical mapper is its affine map, and the demux clock keeps
      both streams on one offset per generation, in order, with every visible
      change announced.
    - Synchronisation: start-up phases are reached in order; output is permitted
      for a generation only after every planned participant acknowledged the
      transition to it; a failure closes the output for good; a participant
      purges every planned child.
    - RTP: a composed datagram parses to the planned packet, transport packets
      survive the encapsulation, and the reorder buffer delivers in order,
      reports every hole and loses nothing.
    - RTP video: the scanner finds exactly the start-code separated units; what
      the packetizer emits for an access unit is reassembled to it byte for
      byte; the planned number of datagrams is exceeded at most by the number of
      fragmented NAL units less two per access unit (and one access unit that
      exceeds it is shown), the window counting one more byte per NAL unit when
      the length fields have one byte; whatever the
      input, an emitted access unit consists of well-formed units; after a loss
      the next complete access unit is recovered.
    - RTCP: the compound parser accepts exactly the datagrams of a declarative
      RFC 3550 grammar; generated reports are read back and have the planned
      size, one class of CNAME lengths excepted; clock evidence is about one
      source and within the planned ages; reports keep their spacing and their
      lateness under every schedule; the calibrations of a locked group were
      observed with matching evidence that is still fresh, and a group generation
      has one epoch and one pair of sources; a timestamp is aligned to the
      nearest cycle.
    - A/V control: the servo follows its control law over the integers without
      overflow and within its limits, and the correction windows add up exactly;
      the video controller settles frames in order and within its recovery
      budget; a validated plan always yields a video controller; the planner's
      plan for separate RTP streams is valid exactly when its two hashed
      identifiers differ, the lead is above 40 ms and gap, rate and branch mode
      are within the limits of the validator, and its correction timing yields a
      servo except for one-sample resampler blocks.

    ** Not modelled, and the plan

    FFmpeg-bound nodes, sockets, threads, file access, logging text and the
    command line are outside: they are calls into libraries or the operating
    system, as are the readings of the steady and master clocks.  Allocation
    failure is not modelled; [av_new_packet] is a parameter of the
    depacketizers.  The RTP source clock estimator fits a line in [long double], and enumerations hold their
    enumerators only.  Planned, in this order: the reacquisition and
    startup coordinators on top of [SyncGeneration]; the MPEG-TS output branch of
    the synchronisation planner; the audio depacketizers; the batch writer and
    mux session on top of [TsPacketizer], [TsOutputClock] and [TsEmission]; the
    input session and its packet provenance on top of [TsParser], [TsSections]
    and [TsEvidence]; SDP; the runtime channels; the planner's matching of capabilities.

    This file holds the machine integers, the lemmas on bit fields and the
    loops over vectors that the components share. *)

From Stdlib Require Export Sorted.
From stdpp Require Export base tactics option list list_numbers numbers strings.

Local Open Scope Z_scope.

(** ** Machine integers

    A [w]-bit unsigned integer of the C++ code is a [Z]; every operation that
    may leave the range is wrapped explicitly with one of these functions. *)

Definition u8 (z : Z) : Z := z mod 2 ^ 8.
Definition u16 (z : Z) : Z := z mod 2 ^ 16.
Definition u32 (z : Z) : Z := z mod 2 ^ 32.
Definition u64 (z : Z) : Z := z mod 2 ^ 64.

(** Signed integers: overflow is undefined in C++; where the code does not test
    for it the model wraps, and a theorem shows that it does not happen. *)
Definition i32 (z : Z) : Z := (z + 2 ^ 31) mod 2 ^ 32 - 2 ^ 31.
Definition i64 (z : Z) : Z := (z + 2 ^ 63) mod 2 ^ 64 - 2 ^ 63.

Definition is_u (w z : Z) : Prop := 0 <= z < 2 ^ w.
Definition is_i (w z : Z) : Prop := - 2 ^ (w - 1) <= z < 2 ^ (w - 1).

Definition uint32_max : Z := 2 ^ 32 - 1.
Definition uint64_max : Z := 2 ^ 64 - 1.
Definition int64_max : Z := 2 ^ 63 - 1.
Definition int64_min : Z := - 2 ^ 63.
Definition int32_max : Z := 2 ^ 31 - 1.
Definition int32_min : Z := - 2 ^ 31.

(** Unfolds the range abbreviations and the powers of two they mention, so
    that [lia] sees numerals only. *)
Ltac ranges :=
  unfold is_u, is_i, u8, u16, u32, u64,
    uint32_max, uint64_max, int64_max, int64_min, int32_max, int32_min in *;
  repeat match goal with
  | |- context [2 ^ ?w] => is_ground w; let v := eval vm_compute in (2 ^ w) in
      change (2 ^ w) with v
  | H : context [2 ^ ?w] |- _ => is_ground w; let v := eval vm_compute in (2 ^ w) in
      change (2 ^ w) with v in H
  end.

Lemma i64_small z : is_i 64 z -> i64 z = z.
Proof. intros H. unfold i64. rewrite Z.mod_small; ranges; lia. Qed.

Lemma i32_small z : is_i 32 z -> i32 z = z.
Proof. intros H. unfold i32. rewrite Z.mod_small; ranges; lia. Qed.

(** ** Bit fields

    Fields are packed with [|] and unpacked with [>>] and [&]; on disjoint
    fields these are addition, division and remainder, which [lia] decides. *)

Lemma testbit_low_zero a n i : 0 <= i < n -> a mod 2 ^ n = 0 -> Z.testbit a i = false.
Proof.
  intros Hi Ha. rewrite <- (Z.mod_pow2_bits_low a n i) by lia.
  rewrite Ha. apply Z.testbit_0_l.
Qed.

Lemma testbit_high_zero b n i : 0 <= b < 2 ^ n -> n <= i -> Z.testbit b i = false.
Proof.
  intros Hb Hi. destruct (decide (0 <= n)).
  - rewrite <- (Z.mod_small b (2 ^ n)) by lia. by apply Z.mod_pow2_bits_high.
  - rewrite Z.pow_neg_r in Hb by lia. lia.
Qed.

Lemma lor_disjoint a b n :
  0 <= n -> 0 <= b < 2 ^ n -> a mod 2 ^ n = 0 -> Z.lor a b = a + b.
Proof.
  intros Hn Hb Ha.
  assert (Hland : Z.land a b = 0).
  { apply Z.bits_inj'. intros i Hi. rewrite Z.land_spec, Z.testbit_0_l.
    destruct (decide (i < n)).
    - by rewrite (testbit_low_zero a n) by lia.
    - rewrite (testbit_high_zero b n) by lia. apply andb_false_r. }
  rewrite Z.add_nocarry_lxor by done. by rewrite Z.lxor_lor.
Qed.

Lemma lor_shiftl_add a b n :
  0 <= n -> 0 <= b < 2 ^ n -> Z.lor (Z.shiftl a n) b = a * 2 ^ n + b.
Proof.
  intros Hn Hb. rewrite Z.shiftl_mul_pow2 by done.
  apply (lor_disjoint _ _ n); [done.. |]. apply Z.mod_mul.
  apply Z.pow_nonzero; lia.
Qed.

Lemma shiftr_div a n : 0 <= n -> Z.shiftr a n = a / 2 ^ n.
Proof. apply Z.shiftr_div_pow2. Qed.

Lemma shiftl_mul a n : 0 <= n -> Z.shiftl a n = a * 2 ^ n.
Proof. apply Z.shiftl_mul_pow2. Qed.

(** [x & (2^n - 1)]. *)
Lemma land_mask a n : 0 <= n -> Z.land a (2 ^ n - 1) = a mod 2 ^ n.
Proof. intros. rewrite <- Z.land_ones by done. by rewrite Z.ones_equiv. Qed.

(** A linear goal that mentions quotients or remainders by numerals. *)
Ltac divmod := ranges; Z.to_euclidean_division_equations; lia.

(** A property of a bounded integer, checked by evaluation. *)
Lemma forallb_below (P : Z -> bool) n z :
  forallb P (seqZ 0 n) = true -> 0 <= z < n -> P z = true.
Proof.
  intros H Hz. apply (proj1 (forallb_forall _ _) H). apply list_elem_of_In, elem_of_seqZ. lia.
Qed.

(** ** Loops over vectors *)

(** A range-based [for] loop that returns a pointer to the first match. *)
Fixpoint findFirst {A} (p : A -> bool) (l : list A) : option A :=
  match l with
  | [] => None
  | x :: l' => if p x then Some x else findFirst p l'
  end.

(** The write through the pointer that loop returned. *)
Fixpoint updateFirst {A} (p : A -> bool) (f : A -> A) (l : list A) : list A :=
  match l with
  | [] => []
  | x :: l' => if p x then f x :: l' else x :: updateFirst p f l'
  end.

Lemma findFirst_Some {A} (p : A -> bool) l x :
  findFirst p l = Some x -> x ∈ l /\ p x = true.
Proof.
  induction l as [| y l IH]; simpl; [done |].
  destruct (p y) eqn:Hp; intros H; [simplify_eq; split; [left | done] |].
  destruct (IH H). split; [by right | done].
Qed.

Lemma findFirst_None {A} (p : A -> bool) l :
  findFirst p l = None <-> Forall (fun x => p x = false) l.
Proof.
  induction l as [| y l IH]; simpl; [by split; [constructor |] |].
  rewrite Forall_cons, <- IH. destruct (p y); intuition discriminate.
Qed.

(** An element with a key of its own is what the loop finds. *)
Lemma findFirst_unique {A} (k : A -> Z) l x :
  NoDup (k <$> l) -> x ∈ l -> findFirst (fun y => k y =? k x) l = Some x.
Proof.
  induction l as [| y l IH]; intros Hnd Hx; [by apply not_elem_of_nil in Hx |].
  simpl in *. apply NoDup_cons in Hnd as [Hy Hnd].
  apply elem_of_cons in Hx as [-> | Hx]; [by rewrite Z.eqb_refl |].
  destruct (Z.eqb_spec (k y) (k x)) as [E | _]; [| by apply IH].
  destruct Hy. rewrite E. by apply list_elem_of_fmap_2.
Qed.

(** Where the update lands. *)
Lemma updateFirst_split {A} (p : A -> bool) f l x :
  findFirst p l = Some x ->
  exists l1 l2, l = l1 ++ x :: l2 /\ updateFirst p f l = l1 ++ f x :: l2.
Proof.
  induction l as [| y l IH]; simpl; [done |].
  destruct (p y); intros H.
  - simplify_eq. by exists [], l.
  - destruct (IH H) as (l1 & l2 & -> & ->). by exists (y :: l1), l2.
Qed.

Lemma updateFirst_fmap {A B} (k : A -> B) (p : A -> bool) f l :
  (forall x, k (f x) = k x) -> k <$> updateFirst p f l = k <$> l.
Proof.
  intros Hk. induction l as [| x l IH]; simpl; [done |].
  destruct (p x); rewrite !fmap_cons; [by rewrite Hk | by rewrite IH].
Qed.

Lemma filter_sublist {A} (p : A -> bool) l : List.filter p l `sublist_of` l.
Proof. induction l as [| x l IH]; simpl; [done |]. destruct (p x); by constructor. Qed.

Lemma sorted_snoc l x : StronglySorted Z.le l -> (forall y, last l = Some y -> y <= x) -> StronglySorted Z.le (l ++ [x]).
Proof.
  induction 1 as [| y l Hs IH Hf]; intros Hl; cbn; [by repeat constructor |]. constructor.
  - apply IH. intros z Hz. apply Hl. destruct l; [done |]. exact Hz.
  - apply Forall_app. split; [done |]. apply Forall_singleton.
    destruct l as [| z l _] using rev_ind; [by apply Hl |]. apply Forall_app in Hf as [_ Hz]. rewrite Forall_singleton in Hz.
    etrans; [exact Hz |]. apply Hl. change (y :: l ++ [z]) with ((y :: l) ++ [z]). apply last_snoc.
Qed.

Lemma NoDup_snoc {A} (l : list A) x : NoDup (l ++ [x]) <-> NoDup l /\ x ∉ l.
Proof.
  rewrite <- Permutation_cons_append, NoDup_cons. tauto.
Qed.

Lemma NoDup_snoc_fmap {A B} (k : A -> B) l x :
  NoDup (k <$> l) -> k x ∉ k <$> l -> NoDup (k <$> (l ++ [x])).
Proof.
  intros Hnd Hx. rewrite fmap_app. by apply NoDup_snoc.
Qed.
