(* ===== verification/MediaResult.v ===== *)
(** * [media::Result] and [media::ErrorInfo]

    Models [include/media_transcode/Result.h], the error type every component
    returns.  A [Result] owns either a value or an [ErrorInfo]; the constructor
    [failure] never stores an error whose code says "no error". *)

From S2P Require Import Prelude.

Local Open Scope Z_scope.

Inductive ErrorCode :=
  | ErrNone | ErrInvalidArgument | ErrNotInitialized | ErrAllocationFailed
  | ErrUnsupported | ErrFFmpegFailure | ErrIoFailure | ErrHardwareUnavailable
  | ErrInternalError | ErrCancelled | ErrWouldBlock.

#[export] Instance ErrorCode_eq_dec : EqDecision ErrorCode.
Proof. solve_decision. Defined.

Record ErrorInfo := mkErrorInfo {
  errCode : ErrorCode;
  nativeCode : Z;
  message : string;
}.

#[export] Instance ErrorInfo_eq_dec : EqDecision ErrorInfo.
Proof. solve_decision. Defined.

Definition ErrorInfo_ok (e : ErrorInfo) : bool := bool_decide (errCode e = ErrNone).

Definition invalidArgument (m : string) : ErrorInfo := mkErrorInfo ErrInvalidArgument 0 m.
Definition notInitialized (m : string) : ErrorInfo := mkErrorInfo ErrNotInitialized 0 m.
Definition allocationFailed (m : string) : ErrorInfo := mkErrorInfo ErrAllocationFailed 0 m.
Definition unsupported (m : string) : ErrorInfo := mkErrorInfo ErrUnsupported 0 m.
Definition internalError (m : string) : ErrorInfo := mkErrorInfo ErrInternalError 0 m.
Definition cancelled (m : string) : ErrorInfo := mkErrorInfo ErrCancelled 0 m.
Definition wouldBlock (m : string) : ErrorInfo := mkErrorInfo ErrWouldBlock 0 m.

Inductive Result (A : Type) :=
  | Success (value : A)
  | Failure (error : ErrorInfo).
Arguments Success {A} value.
Arguments Failure {A} error.

Notation Status := (Result unit).

(** [Result::failure] replaces an error that reports success. *)
Definition failure {A} (e : ErrorInfo) : Result A :=
  if ErrorInfo_ok e then Failure (internalError "unknown error") else Failure e.

Definition resultOk {A} (r : Result A) : bool :=
  match r with Success _ => true | Failure _ => false end.

(** Sequencing as the code writes it: [if (!r) return failure(r.error());]. *)
Definition bindResult {A B} (r : Result A) (k : A -> Result B) : Result B :=
  match r with
  | Success a => k a
  | Failure e => failure e
  end.

Declare Scope result_scope.
Delimit Scope result_scope with result.
Notation "'let*' x ':=' r 'in' k" := (bindResult r (fun x => k))
  (at level 200, x pattern, r at level 100, k at level 200) : result_scope.

(** The invariant of every constructed [Result]: an error never carries the
    code [None]. *)
Definition resultSound {A} (r : Result A) : Prop :=
  match r with Success _ => True | Failure e => errCode e <> ErrNone end.

Lemma failure_sound {A} (e : ErrorInfo) : resultSound (failure (A := A) e).
Proof. unfold failure, ErrorInfo_ok. case_bool_decide; simpl; done. Qed.

Lemma failure_not {A} (e : ErrorInfo) (a : A) : failure e = Success a -> False.
Proof. unfold failure. by destruct (ErrorInfo_ok e). Qed.

Lemma failure_id {A} (e : ErrorInfo) :
  errCode e <> ErrNone -> failure (A := A) e = Failure e.
Proof. intros. unfold failure, ErrorInfo_ok. by rewrite bool_decide_eq_false_2. Qed.

Lemma bindResult_success {A B} (r : Result A) (k : A -> Result B) b :
  bindResult r k = Success b <-> exists a, r = Success a /\ k a = Success b.
Proof.
  destruct r as [a | e]; simpl.
  - split; [eauto | intros (? & [= ->] & ?); done].
  - split.
    + unfold failure. destruct (ErrorInfo_ok e); done.
    + intros (? & ? & ?); done.
Qed.

(** ** Stateful calls

    A call that can fail after it changed the state: the status and the state
    it leaves behind, in both cases. *)
Definition StateResult (St A : Type) : Type := St -> Result A * St.

Definition retState {St A} (a : A) : StateResult St A := fun st => (Success a, st).
Definition failState {St A} (e : ErrorInfo) : StateResult St A := fun st => (failure e, st).
Definition getState {St} : StateResult St St := fun st => (Success st, st).
Definition modifyState {St} (f : St -> St) : StateResult St unit := fun st => (Success tt, f st).
Definition liftResult {St A} (r : Result A) : StateResult St A := fun st => (r, st).

(** [if (!status) return status;] *)
Definition bindState {St A B} (m : StateResult St A) (k : A -> StateResult St B) :
    StateResult St B :=
  fun st => match m st with
            | (Success a, st') => k a st'
            | (Failure e, st') => (Failure e, st')
            end.

Notation "'let!' x ':=' m 'in' k" := (bindState m (fun x => k))
  (at level 200, x pattern, m at level 100, k at level 200) : result_scope.

Lemma bindState_success {St A B} (m : StateResult St A) (k : A -> StateResult St B) st a st' :
  m st = (Success a, st') -> bindState m k st = k a st'.
Proof. intros E. unfold bindState. by rewrite E. Qed.

Lemma bindState_failure {St A B} (m : StateResult St A) (k : A -> StateResult St B) st e st' :
  m st = (Failure e, st') -> bindState m k st = (Failure e, st').
Proof. intros E. unfold bindState. by rewrite E. Qed.

Lemma bindState_inv {St A B} (m : StateResult St A) (k : A -> StateResult St B) st b st' :
  bindState m k st = (Success b, st') ->
  exists a st1, m st = (Success a, st1) /\ k a st1 = (Success b, st').
Proof. unfold bindState. destruct (m st) as [[a | e] st1]; [eauto | done]. Qed.
