(* ===== verification/CheckedArithmetic.v ===== *)
(** * Checked 64-bit and 128-bit arithmetic

    Models [src/internal/graph/utils/MediaCheckedArithmetic.{h,cpp}]: the
    planner's overflow-checked additions and multiplications, the 128-bit
    product built from 32-bit limbs, the division of a 128-bit number by a
    32-bit one, and the two binary searches that compute exact ceilings without
    128-bit division. *)

From S2P Require Import Prelude MediaResult.

Local Open Scope Z_scope.

Module MediaCheckedArithmetic.

Definition NanosecondsPerSecond : Z := 1000000000.

Definition invalid (fact detail : string) : ErrorInfo :=
  invalidArgument (fact +:+ " " +:+ detail).

Record MediaUInt128 := mkUInt128 { high : Z; low : Z }.

(** [operator>=] *)
Definition ge128 (l r : MediaUInt128) : bool :=
  (high r <? high l) || ((high l =? high r) && (low r <=? low l)).

Definition multiplyWide (left right : Z) : MediaUInt128 :=
  let leftLow := u32 left in
  let leftHigh := Z.shiftr left 32 in
  let rightLow := u32 right in
  let rightHigh := Z.shiftr right 32 in
  let lowProduct := u64 (leftLow * rightLow) in
  let firstCross := u64 (u64 (leftHigh * rightLow) + Z.shiftr lowProduct 32) in
  let secondCross := u64 (u64 (leftLow * rightHigh) + u32 firstCross) in
  mkUInt128
    (u64 (u64 (u64 (leftHigh * rightHigh) + Z.shiftr firstCross 32)
          + Z.shiftr secondCross 32))
    (u64 (u64 (Z.shiftl secondCross 32) + u32 lowProduct)).

(** One iteration of the loop of [divideWideBy32]; [keep] is the code's
    [index >= 2]. *)
Definition divideStep (divisor : Z) (acc : Z * Z) (limb : Z) (keep : bool) : Z * Z :=
  let '(remainder, quotient) := acc in
  let partial := Z.lor (u64 (Z.shiftl remainder 32)) limb in
  let quotientLimb := u32 (partial / divisor) in
  (partial mod divisor,
   if keep then Z.lor (u64 (Z.shiftl quotient 32)) quotientLimb else quotient).

Definition divideWideBy32 (dividend : MediaUInt128) (divisor : Z) : Z :=
  let limb0 := u32 (Z.shiftr (high dividend) 32) in
  let limb1 := u32 (high dividend) in
  let limb2 := u32 (Z.shiftr (low dividend) 32) in
  let limb3 := u32 (low dividend) in
  snd (divideStep divisor
        (divideStep divisor
          (divideStep divisor
            (divideStep divisor (0, 0) limb0 false) limb1 false) limb2 true)
        limb3 true).

Definition add (left right : Z) (fact : string) : Result Z :=
  if uint64_max - left <? right
  then failure (invalid fact "is not representable")
  else Success (u64 (left + right)).

Definition multiply (left right : Z) (fact : string) : Result Z :=
  if negb (left =? 0) && (uint64_max / left <? right)
  then failure (invalid fact "is not representable")
  else Success (u64 (left * right)).

(** The binary-search loop both ceilings run:
    [while (first < last) { middle = first + (last - first) / 2; ... }].
    The state after the loop is returned; 64 units of fuel are enough for any
    64-bit interval (see [searchLoop_exits]). *)
Fixpoint searchLoop (fuel : nat) (enough : Z -> bool) (first last : Z) : Z * Z :=
  match fuel with
  | O => (first, last)
  | S fuel' =>
      if first <? last then
        let middle := first + (last - first) / 2 in
        if enough middle
        then searchLoop fuel' enough first middle
        else searchLoop fuel' enough (middle + 1) last
      else (first, last)
  end.

Definition searchFuel : nat := 64.

Definition ceilScale (value numerator denominator : Z) (fact : string) : Result Z :=
  if (numerator =? 0) || (denominator =? 0)
  then failure (invalid fact "has an invalid ratio")
  else
    let product := multiplyWide value numerator in
    let maximumProduct := multiplyWide uint64_max denominator in
    if negb (ge128 maximumProduct product)
    then failure (invalid fact "is not representable")
    else Success (fst (searchLoop searchFuel
                         (fun middle => ge128 (multiplyWide middle denominator) product)
                         0 uint64_max)).

Definition bytesForResidence (rate residenceNanoseconds : Z) (fact : string) : Result Z :=
  if (rate =? 0) || (residenceNanoseconds <=? 0)
  then failure (invalid fact "requires a positive rate and residence")
  else
    let nanoseconds := residenceNanoseconds in
    let seconds := nanoseconds / NanosecondsPerSecond in
    let remainder := nanoseconds mod NanosecondsPerSecond in
    let whole := multiply rate seconds fact in
    if remainder =? 0 then whole
    else
      let fraction := ceilScale rate remainder NanosecondsPerSecond fact in
      match whole, fraction with
      | Success w, Success f => add w f fact
      | Failure _, _ => whole
      | _, _ => fraction
      end.

Definition ceilDurationNanoseconds (bytes bytesPerSecond : Z) (fact : string) : Result Z :=
  if (bytes =? 0) || (bytesPerSecond =? 0)
  then failure (invalid fact "requires positive bytes and rate")
  else
    let required := multiplyWide bytes NanosecondsPerSecond in
    let maximum := multiplyWide int64_max bytesPerSecond in
    if negb (ge128 maximum required)
    then failure (invalid fact "is not representable")
    else Success (fst (searchLoop searchFuel
                         (fun middle => ge128 (multiplyWide middle bytesPerSecond) required)
                         1 int64_max)).

(** ** Reference definitions *)

(** The integer a [MediaUInt128] denotes. *)
Definition value128 (v : MediaUInt128) : Z := high v * 2 ^ 64 + low v.

(** Exact ceiling of [n / d]. *)
Definition ceilDiv (n d : Z) : Z := (n + d - 1) / d.

(** ** Lemmas *)

Lemma u64_small z : is_u 64 z -> u64 z = z.
Proof. intros. unfold u64. by rewrite Z.mod_small. Qed.

Lemma split32 z : is_u 64 z ->
  exists l h, u32 z = l /\ Z.shiftr z 32 = h /\ z = h * 2 ^ 32 + l /\
    0 <= l < 2 ^ 32 /\ 0 <= h < 2 ^ 32.
Proof.
  intros Hz. exists (z mod 2 ^ 32), (z / 2 ^ 32).
  rewrite Z.shiftr_div_pow2 by lia. ranges.
  repeat split; Z.to_euclidean_division_equations; lia.
Qed.

(** The limb algorithm is the exact product. *)
Lemma multiplyWide_value left right :
  is_u 64 left -> is_u 64 right ->
  value128 (multiplyWide left right) = left * right /\
  is_u 64 (high (multiplyWide left right)) /\ is_u 64 (low (multiplyWide left right)).
Proof.
  intros Hl Hr.
  destruct (split32 left Hl) as (ll & lh & El & Eh & -> & Bll & Blh).
  destruct (split32 right Hr) as (rl & rh & El' & Eh' & -> & Brl & Brh).
  unfold multiplyWide, value128. rewrite El, Eh, El', Eh'. clear El Eh El' Eh'. simpl.
  assert (0 <= ll * rl <= (2 ^ 32 - 1) * (2 ^ 32 - 1)) by nia.
  assert (0 <= lh * rl <= (2 ^ 32 - 1) * (2 ^ 32 - 1)) by nia.
  assert (0 <= ll * rh <= (2 ^ 32 - 1) * (2 ^ 32 - 1)) by nia.
  assert (0 <= lh * rh <= (2 ^ 32 - 1) * (2 ^ 32 - 1)) by nia.
  replace ((lh * 2 ^ 32 + ll) * (rh * 2 ^ 32 + rl))
    with (lh * rh * 2 ^ 64 + (lh * rl + ll * rh) * 2 ^ 32 + ll * rl) by ring.
  generalize dependent (ll * rl). generalize dependent (lh * rl).
  generalize dependent (ll * rh). generalize dependent (lh * rh).
  intros hh Hhh lr Hlr hl Hhl p Hp. clear Hl Hr Bll Blh Brl Brh ll lh rl rh.
  rewrite !Z.shiftr_div_pow2, Z.shiftl_mul_pow2 by lia.
  ranges. rewrite !(Z.mod_small p), !(Z.mod_small hl), !(Z.mod_small lr),
    !(Z.mod_small hh) by lia.
  Z.to_euclidean_division_equations. lia.
Qed.

Lemma ge128_spec l r :
  is_u 64 (low l) -> is_u 64 (low r) ->
  ge128 l r = bool_decide (value128 r <= value128 l).
Proof.
  intros. unfold ge128, value128. ranges. case_bool_decide; lia.
Qed.

Lemma ge128_product a b c d :
  is_u 64 a -> is_u 64 b -> is_u 64 c -> is_u 64 d ->
  ge128 (multiplyWide a b) (multiplyWide c d) = bool_decide (c * d <= a * b).
Proof.
  intros Ha Hb Hc Hd.
  destruct (multiplyWide_value a b Ha Hb) as (Eab & _ & Lab).
  destruct (multiplyWide_value c d Hc Hd) as (Ecd & _ & Lcd).
  rewrite ge128_spec by done. by rewrite Eab, Ecd.
Qed.

(** One long-division step: the running remainder stays below the divisor and
    the emitted limb is the exact quotient digit. *)
Lemma divideStep_spec divisor remainder quotient limb keep :
  0 < divisor < 2 ^ 32 -> 0 <= remainder < divisor -> is_u 32 limb ->
  is_u 32 quotient ->
  divideStep divisor (remainder, quotient) limb keep =
    ((remainder * 2 ^ 32 + limb) mod divisor,
     if keep then quotient * 2 ^ 32 + (remainder * 2 ^ 32 + limb) / divisor
     else quotient) /\
  is_u 32 ((remainder * 2 ^ 32 + limb) / divisor).
Proof.
  intros Hd Hr Hl Hq. unfold divideStep.
  assert (Hsh : forall z, is_u 32 z -> u64 (Z.shiftl z 32) = z * 2 ^ 32)
    by (intros; rewrite shiftl_mul by lia; apply u64_small; ranges; lia).
  rewrite !Hsh by (ranges; lia).
  rewrite (lor_disjoint (remainder * 2 ^ 32) limb 32)
    by (first [done | ranges; lia | apply Z.mod_mul; lia]).
  assert (Hdig : is_u 32 ((remainder * 2 ^ 32 + limb) / divisor)).
  { unfold is_u in *. split; [apply Z.div_pos; lia |].
    apply Z.div_lt_upper_bound; nia. }
  split; [| done]. f_equal. destruct keep; [| done].
  assert (Hu : u32 ((remainder * 2 ^ 32 + limb) / divisor)
               = (remainder * 2 ^ 32 + limb) / divisor) by (by apply Z.mod_small).
  rewrite Hu. apply (lor_disjoint _ _ 32); [lia | done | apply Z.mod_mul; lia].
Qed.

(** Gluing four quotient digits. *)
Lemma long_division d l0 l1 l2 l3 :
  0 < d ->
  let B := 2 ^ 32 in
  let r1 := l0 mod d in
  let r2 := (r1 * B + l1) mod d in
  let r3 := (r2 * B + l2) mod d in
  (((l0 * B + l1) * B + l2) * B + l3) / d =
    ((l0 / d * B + (r1 * B + l1) / d) * B + (r2 * B + l2) / d) * B
    + (r3 * B + l3) / d.
Proof.
  intros Hd B r1 r2 r3. symmetry.
  apply (Z.div_unique_pos _ _ _ ((r3 * B + l3) mod d)); [by apply Z.mod_pos_bound |].
  assert (l0 = d * (l0 / d) + r1) by (apply Z.div_mod; lia).
  assert (r1 * B + l1 = d * ((r1 * B + l1) / d) + r2) by (apply Z.div_mod; lia).
  assert (r2 * B + l2 = d * ((r2 * B + l2) / d) + r3) by (apply Z.div_mod; lia).
  pose proof (Z.div_mod (r3 * B + l3) d ltac:(lia)).
  clearbody r1 r2 r3 B. nia.
Qed.

Lemma divideWideBy32_value dividend divisor :
  is_u 64 (high dividend) -> is_u 64 (low dividend) -> 0 < divisor < 2 ^ 32 ->
  divideWideBy32 dividend divisor = u64 (value128 dividend / divisor).
Proof.
  intros Hh Hl Hd. unfold divideWideBy32, value128.
  destruct (split32 _ Hh) as (l1 & l0 & E1 & E0 & Eh & B1 & B0).
  destruct (split32 _ Hl) as (l3 & l2 & E3 & E2 & El & B3 & B2).
  rewrite E0, E1, E2, E3, Eh, El.
  replace (u32 l0) with l0 by (symmetry; by apply Z.mod_small).
  replace (u32 l2) with l2 by (symmetry; by apply Z.mod_small).
  pose proof (Z.mod_pos_bound l0 divisor ltac:(lia)).
  destruct (divideStep_spec divisor 0 0 l0 false) as (S0 & _); [ranges; lia.. |].
  rewrite S0, Z.mul_0_l, Z.add_0_l.
  destruct (divideStep_spec divisor (l0 mod divisor) 0 l1 false) as (S1 & _);
    [ranges; lia.. |]. rewrite S1.
  set (r2 := (l0 mod divisor * 2 ^ 32 + l1) mod divisor).
  assert (0 <= r2 < divisor) by (apply Z.mod_pos_bound; lia).
  destruct (divideStep_spec divisor r2 0 l2 true) as (S2 & Q2); [ranges; lia.. |].
  rewrite S2. set (r3 := (r2 * 2 ^ 32 + l2) mod divisor).
  assert (0 <= r3 < divisor) by (apply Z.mod_pos_bound; lia).
  destruct (divideStep_spec divisor r3 (0 * 2 ^ 32 + (r2 * 2 ^ 32 + l2) / divisor) l3 true)
    as (S3 & Q3); [ranges; lia.. |]. rewrite S3. simpl snd.
  replace ((l0 * 2 ^ 32 + l1) * 2 ^ 64 + (l2 * 2 ^ 32 + l3))
    with (((l0 * 2 ^ 32 + l1) * 2 ^ 32 + l2) * 2 ^ 32 + l3) by ring.
  rewrite long_division by lia. fold r2. fold r3. unfold u64.
  set (q2 := (r2 * 2 ^ 32 + l2) / divisor) in *.
  set (q3 := (r3 * 2 ^ 32 + l3) / divisor) in *.
  set (q := l0 / divisor * 2 ^ 32 + _).
  replace ((q * 2 ^ 32 + q2) * 2 ^ 32 + q3) with (q2 * 2 ^ 32 + q3 + q * 2 ^ 64) by ring.
  rewrite Z.mod_add by done. rewrite Z.mod_small; ranges; lia.
Qed.

(** *** The binary search *)

Section search.
Context (enough : Z -> bool).
Hypothesis enough_mono : forall x y, x <= y -> enough x = true -> enough y = true.

(** [k] units of fuel close any interval shorter than [2^k]. *)
Lemma searchLoop_exits k first last :
  first <= last < first + 2 ^ Z.of_nat k ->
  let '(f, l) := searchLoop k enough first last in f = l.
Proof.
  revert first last. induction k as [| k IH]; intros first last Hr.
  - simpl in *. lia.
  - rewrite Nat2Z.inj_succ, Z.pow_succ_r in Hr by lia. simpl.
    destruct (Z.ltb_spec first last); [| simpl; lia].
    destruct (enough _); apply IH; divmod.
Qed.

(** The loop keeps [last] sufficient and everything below [first]
    insufficient. *)
Lemma searchLoop_invariant k first last lo :
  lo <= first <= last -> enough last = true ->
  (forall x, lo <= x < first -> enough x = false) ->
  let '(f, l) := searchLoop k enough first last in
  f <= l /\ enough l = true /\ lo <= f <= l /\
  (forall x, lo <= x < f -> enough x = false) /\ l <= last.
Proof.
  revert first last. induction k as [| k IH]; intros first last Hr Hl Hf; simpl.
  - repeat split; auto; lia.
  - destruct (Z.ltb_spec first last); [| repeat split; auto; lia].
    set (m := first + (last - first) / 2).
    assert (first <= m < last) by (unfold m; divmod).
    destruct (enough m) eqn:Em.
    + specialize (IH first m ltac:(lia) Em Hf).
      destruct (searchLoop k enough first m) as [f l]. intuition lia.
    + apply IH; [lia | done |]. intros x Hx.
      destruct (decide (x < first)); [apply Hf; lia |].
      destruct (enough x) eqn:Ex; [| done].
      rewrite (enough_mono x m) in Em; [done | lia | done].
Qed.
End search.

(** The least [x >= lo] with [n <= x * d] is the ceiling of [n / d]. *)
Lemma search_ceil lo hi n d :
  0 < d -> 0 <= lo <= hi -> hi < lo + 2 ^ 64 -> lo * d - d < n <= hi * d ->
  fst (searchLoop searchFuel (fun m => bool_decide (n <= m * d)) lo hi) = ceilDiv n d.
Proof.
  intros Hd Hlo Hhi Hn.
  pose proof (searchLoop_exits (fun m => bool_decide (n <= m * d)) searchFuel lo hi) as Hex.
  pose proof (searchLoop_invariant (fun m => bool_decide (n <= m * d))) as Hinv.
  specialize (Hinv ltac:(intros x y Hxy; rewrite !bool_decide_eq_true; nia)
                searchFuel lo hi lo ltac:(lia) ltac:(rewrite bool_decide_eq_true; lia)
                ltac:(intros; lia)).
  destruct (searchLoop _ _ lo hi) as [f l]. simpl fst.
  specialize (Hex ltac:(unfold searchFuel; simpl; lia)). subst l.
  destruct Hinv as (_ & Hf & Hr & Hbelow & _).
  rewrite bool_decide_eq_true in Hf. unfold ceilDiv.
  assert ((f - 1) * d < n).
  { destruct (decide (f = lo)) as [-> |]; [lia |].
    specialize (Hbelow (f - 1) ltac:(lia)). rewrite bool_decide_eq_false in Hbelow. lia. }
  apply Z.div_unique_pos with (n + d - 1 - f * d); lia.
Qed.

Lemma searchLoop_ext k p q first last :
  (forall x, first <= x <= last -> p x = q x) ->
  searchLoop k p first last = searchLoop k q first last.
Proof.
  revert first last. induction k as [| k IH]; intros first last Hpq; simpl; [done |].
  destruct (Z.ltb_spec first last); [| done].
  assert (first <= first + (last - first) / 2 < last) by divmod.
  rewrite <- Hpq by lia. destruct (p _); apply IH; intros; apply Hpq; lia.
Qed.

(** The two ceilings, before the failure branches are put around them. *)
Lemma search_wide lo hi a b d :
  is_u 64 a -> is_u 64 b -> 0 < d < 2 ^ 64 -> 0 <= lo <= hi -> hi < 2 ^ 64 ->
  lo * d - d < a * b <= hi * d ->
  fst (searchLoop searchFuel (fun m => ge128 (multiplyWide m d) (multiplyWide a b)) lo hi)
  = ceilDiv (a * b) d.
Proof.
  intros Ha Hb Hd Hlo Hhi Hn. rewrite <- (search_ceil lo hi (a * b) d) by lia.
  f_equal. apply searchLoop_ext. intros x Hx. apply ge128_product; ranges; lia.
Qed.

Lemma ceilDiv_le n d m : 0 < d -> (ceilDiv n d <= m <-> n <= m * d).
Proof.
  intros Hd. unfold ceilDiv. split; intros H.
  - pose proof (Z.mod_pos_bound (n + d - 1) d Hd).
    pose proof (Z.div_mod (n + d - 1) d ltac:(lia)).
    pose proof (Z.mul_le_mono_nonneg_l _ _ d ltac:(lia) H). lia.
  - apply Z.lt_succ_r. apply Z.div_lt_upper_bound; nia.
Qed.

Lemma ceilDiv_nonneg n d : 0 <= n -> 0 < d -> 0 <= ceilDiv n d.
Proof. intros. unfold ceilDiv. apply Z.div_pos; lia. Qed.

(** ** Properties *)

(** The outcome every checked operation has: the exact integer when it is
    representable, the documented error otherwise. *)
Definition checked (maximum exact : Z) (fact : string) : Result Z :=
  if bool_decide (exact <= maximum) then Success exact
  else Failure (invalid fact "is not representable").

Lemma add_checked left right fact :
  is_u 64 left -> is_u 64 right ->
  add left right fact = checked uint64_max (left + right) fact.
Proof.
  intros Hl Hr. unfold add, checked. case_bool_decide as Hc.
  - destruct (Z.ltb_spec (uint64_max - left) right); [lia |].
    by rewrite u64_small by (ranges; lia).
  - destruct (Z.ltb_spec (uint64_max - left) right); [done | lia].
Qed.

Lemma multiply_checked left right fact :
  is_u 64 left -> is_u 64 right ->
  multiply left right fact = checked uint64_max (left * right) fact.
Proof.
  intros Hl Hr. unfold multiply, checked.
  destruct (Z.eqb_spec left 0) as [-> | Hn]; simpl.
  { done. }
  pose proof (Z.mod_pos_bound uint64_max left ltac:(ranges; lia)).
  pose proof (Z.div_mod uint64_max left Hn).
  destruct (Z.ltb_spec (uint64_max / left) right).
  - rewrite bool_decide_eq_false_2; [done |]. ranges. nia.
  - rewrite bool_decide_eq_true_2 by (ranges; nia). f_equal.
    apply u64_small. ranges. nia.
Qed.

(** the 32-bit-limb product is the exact 128-bit product of two 64-bit
    numbers: none of its partial sums wraps, and both halves are 64-bit. *)
Theorem multiplyWide_exact left right :
  is_u 64 left -> is_u 64 right ->
  let w := multiplyWide left right in
  high w * 2 ^ 64 + low w = left * right /\ is_u 64 (high w) /\ is_u 64 (low w).
Proof. intros Hl Hr. apply multiplyWide_value; done. Qed.

Lemma multiplyWide_exact_witness :
  let w := multiplyWide uint64_max 4294967297 in
  high w * 2 ^ 64 + low w = uint64_max * 4294967297 /\
  is_u 64 (high w) /\ is_u 64 (low w).
Proof. apply (multiplyWide_exact uint64_max 4294967297); ranges; lia. Defined.

(** dividing the 128-bit product of two 64-bit numbers by a 32-bit divisor
    yields the low 64 bits of the exact quotient. *)
Theorem divideWideBy32_multiplyWide left right divisor :
  is_u 64 left -> is_u 64 right -> 0 < divisor < 2 ^ 32 ->
  divideWideBy32 (multiplyWide left right) divisor = u64 (left * right / divisor).
Proof.
  intros Hl Hr Hd.
  destruct (multiplyWide_value left right Hl Hr) as (E & Hh & Hlo).
  rewrite divideWideBy32_value by done. by rewrite E.
Qed.

Lemma divideWideBy32_multiplyWide_witness :
  divideWideBy32 (multiplyWide 123456789012345 90000) 1000000000 = 11111111011.
Proof.
  rewrite (divideWideBy32_multiplyWide 123456789012345 90000 1000000000)
    by (ranges; lia). reflexivity.
Defined.

(** [ceilScale], before it is stated as a property. *)
Lemma ceilScale_exact value numerator denominator fact :
  is_u 64 value -> is_u 64 numerator -> is_u 64 denominator ->
  ceilScale value numerator denominator fact =
    if (numerator =? 0) || (denominator =? 0)
    then Failure (invalid fact "has an invalid ratio")
    else checked uint64_max (ceilDiv (value * numerator) denominator) fact.
Proof.
  intros Hv Hn Hd. unfold ceilScale, checked.
  destruct ((numerator =? 0) || (denominator =? 0)) eqn:Hg; [reflexivity |].
  assert (Hmax : is_u 64 uint64_max) by (ranges; lia).
  rewrite ge128_product by done.
  rewrite (bool_decide_ext _ _ (ceilDiv_le (value * numerator) denominator uint64_max
             ltac:(ranges; lia))).
  case_bool_decide; cbn [negb]; [| reflexivity].
  f_equal. apply search_wide; ranges; nia.
Qed.

(** [ceilScale] returns the exact ceiling of [value * numerator /
    denominator] when it fits 64 bits and the error "is not representable"
    when it does not: the binary search terminates on the right value. *)
Theorem ceilScale_checked value numerator denominator fact :
  is_u 64 value -> is_u 64 numerator -> is_u 64 denominator ->
  ceilScale value numerator denominator fact =
    if (numerator =? 0) || (denominator =? 0)
    then Failure (invalid fact "has an invalid ratio")
    else checked uint64_max (ceilDiv (value * numerator) denominator) fact.
Proof. intros. by apply ceilScale_exact. Qed.

Lemma ceilScale_checked_witness :
  ceilScale 7000000001 90000 1000000000 "ticks" = Success 630001.
Proof.
  rewrite (ceilScale_checked 7000000001 90000 1000000000 "ticks") by (ranges; lia).
  reflexivity.
Defined.

(** Splitting off whole seconds commutes with the ceiling. *)
Lemma ceilDiv_split rate seconds remainder d :
  0 < d -> ceilDiv (rate * (d * seconds + remainder)) d
           = rate * seconds + ceilDiv (rate * remainder) d.
Proof.
  intros Hd. unfold ceilDiv.
  replace (rate * (d * seconds + remainder) + d - 1)
    with ((rate * remainder + d - 1) + rate * seconds * d) by ring.
  rewrite Z.div_add by lia. lia.
Qed.

Lemma ceilDiv_exact n d : 0 < d -> ceilDiv (n * d) d = n.
Proof.
  intros. unfold ceilDiv. replace (n * d + d - 1) with (d - 1 + n * d) by ring.
  rewrite Z.div_add, Z.div_small by lia. lia.
Qed.

(** A checked sum whose first summand was already checked. *)
Lemma checked_sum w f fact :
  0 <= f -> (match checked uint64_max w fact with
             | Success w' => checked uint64_max (w' + f) fact
             | Failure e => Failure e
             end) = checked uint64_max (w + f) fact.
Proof.
  intros. unfold checked at 1. case_bool_decide; [done |].
  unfold checked. by rewrite bool_decide_eq_false_2 by lia.
Qed.

(** splitting a residence into whole seconds and a fraction loses nothing:
    [bytesForResidence] is the exact ceiling of [rate * nanoseconds / 10^9] or
    the error, never a wrapped value. *)
Theorem bytesForResidence_exact rate residence fact :
  is_u 64 rate -> is_i 64 residence ->
  bytesForResidence rate residence fact =
    if (rate =? 0) || (residence <=? 0)
    then Failure (invalid fact "requires a positive rate and residence")
    else checked uint64_max (ceilDiv (rate * residence) NanosecondsPerSecond) fact.
Proof.
  intros Hr Hres. unfold bytesForResidence.
  destruct ((rate =? 0) || (residence <=? 0)) eqn:Hg; [reflexivity |].
  pose proof (Z.div_mod residence NanosecondsPerSecond ltac:(done)) as Hdm.
  pose proof (Z.mod_pos_bound residence NanosecondsPerSecond ltac:(done)) as Hm.
  set (s := residence / NanosecondsPerSecond) in *.
  set (r := residence mod NanosecondsPerSecond) in *.
  assert (Hs : is_u 64 s) by (unfold s, NanosecondsPerSecond; divmod).
  replace (rate * residence) with (rate * (NanosecondsPerSecond * s + r)) by lia.
  rewrite ceilDiv_split by done.
  rewrite multiply_checked by done.
  destruct (Z.eqb_spec r 0) as [-> | Hr0].
  - rewrite Z.mul_0_r. change (ceilDiv 0 NanosecondsPerSecond) with 0.
    by rewrite Z.add_0_r.
  - unfold NanosecondsPerSecond in *.
    assert (Hf : 0 <= ceilDiv (rate * r) 1000000000 <= uint64_max).
    { split; [apply ceilDiv_nonneg; ranges; nia |]. apply ceilDiv_le; ranges; nia. }
    rewrite ceilScale_exact by (ranges; lia).
    rewrite (proj2 (Z.eqb_neq r 0)) by done. simpl.
    rewrite <- checked_sum by lia. unfold checked at 2.
    rewrite bool_decide_eq_true_2 by lia.
    destruct (checked uint64_max (rate * s) fact) as [w |] eqn:Hw; [| done].
    apply add_checked; [| ranges; lia].
    unfold checked in Hw. case_bool_decide; simplify_eq. ranges. nia.
Qed.

Lemma bytesForResidence_exact_witness :
  bytesForResidence 6250000 100000001 "wire residence" = Success 625001.
Proof.
  rewrite (bytesForResidence_exact 6250000 100000001 "wire residence") by (ranges; lia).
  reflexivity.
Defined.

(** [ceilDurationNanoseconds] is the exact ceiling of [bytes * 10^9 / rate]
    when it fits a signed 64-bit duration, and the error otherwise. *)
Theorem ceilDurationNanoseconds_exact bytes rate fact :
  is_u 64 bytes -> is_u 64 rate ->
  ceilDurationNanoseconds bytes rate fact =
    if (bytes =? 0) || (rate =? 0)
    then Failure (invalid fact "requires positive bytes and rate")
    else checked int64_max (ceilDiv (bytes * NanosecondsPerSecond) rate) fact.
Proof.
  intros Hb Hr. unfold ceilDurationNanoseconds, checked.
  destruct ((bytes =? 0) || (rate =? 0)) eqn:Hg; [reflexivity |].
  rewrite ge128_product by (unfold NanosecondsPerSecond; ranges; lia).
  rewrite (bool_decide_ext _ _ (ceilDiv_le (bytes * NanosecondsPerSecond) rate int64_max
             ltac:(ranges; lia))).
  case_bool_decide; cbn [negb]; [| reflexivity].
  f_equal. apply search_wide; unfold NanosecondsPerSecond in *; ranges; nia.
Qed.

Lemma ceilDurationNanoseconds_exact_witness :
  ceilDurationNanoseconds 1500 6250000 "serialization" = Success 240000.
Proof.
  rewrite (ceilDurationNanoseconds_exact 1500 6250000 "serialization") by (ranges; lia).
  reflexivity.
Defined.

End MediaCheckedArithmetic.
