(* ===== verification/Model.v ===== *)
(** * Shared data model of the graph

    Models the headers of [src/internal/graph/model] that the graph core, the
    queues and the credit ledger use: the enumerations, the stream, time and
    hardware descriptors, and the queue, buffer, drop and back-pressure
    policies, each with the source's default values; and
    [core/MediaNodeId.h], the 32-bit identifiers.  Enumerators carry a short
    prefix because Rocq constructors share one name space. *)

From S2P Require Import Prelude MediaResult.

Local Open Scope Z_scope.

(** ** Identifiers ([core/MediaNodeId.h])

    [MediaNodeId], [MediaPortId] and [MediaEdgeId] are three structs with one
    [uint32_t]; the all-ones value is the invalid identifier. *)

Abbreviation MediaNodeId := Z (only parsing).
Abbreviation MediaPortId := Z (only parsing).
Abbreviation MediaEdgeId := Z (only parsing).

Definition invalidId : Z := uint32_max.
Definition idValid (id : Z) : bool := negb (id =? invalidId).

(** [std::string::empty]. *)
Definition strEmpty (s : string) : bool :=
  match s with EmptyString => true | String _ _ => false end.

(** ** Enumerations *)

Inductive MediaStreamKind :=
  | Stream_Unknown | Stream_Video | Stream_Audio | Stream_Subtitle | Stream_Data
  | Stream_Attachment | Stream_Control | Stream_Metadata | Stream_Any.

#[export] Instance MediaStreamKind_eq_dec : EqDecision MediaStreamKind.
Proof. solve_decision. Defined.

Inductive MediaEdgeKind :=
  | Edge_Unknown | Edge_InputPacket | Edge_RawFrame | Edge_HardwareFrame
  | Edge_SoftwareFrame | Edge_DecoderConfig | Edge_EncoderConfig
  | Edge_StreamConfig | Edge_EncodedPacket | Edge_CopiedPacket | Edge_MuxedPacket
  | Edge_Metadata | Edge_Control | Edge_Event | Edge_ScheduledDatagramBatch.

#[export] Instance MediaEdgeKind_eq_dec : EqDecision MediaEdgeKind.
Proof. solve_decision. Defined.

Inductive MediaPayloadKind :=
  | Payload_Unknown | Payload_FormatContext | Payload_StreamDescriptor
  | Payload_CodecContext | Payload_CodecParameters | Payload_Packet | Payload_Frame
  | Payload_TimeDescriptor | Payload_HardwareDescriptor
  | Payload_AudioLayoutDescriptor | Payload_VideoFormatDescriptor
  | Payload_ControlSignal | Payload_GraphEvent | Payload_DiagnosticRecord
  | Payload_OutputByteSink | Payload_ProjectMpegTsRuntimePlan
  | Payload_TsAccessUnit | Payload_ScheduledDatagramBatch
  | Payload_WireDatagramBatch | Payload_ScheduledWireDatagramBatch
  | Payload_DatagramShapingPlan | Payload_DatagramTransportPlan
  | Payload_MpegTsProtocolDatagramBatch.

#[export] Instance MediaPayloadKind_eq_dec : EqDecision MediaPayloadKind.
Proof. solve_decision. Defined.

Inductive MediaHardwareDeviceKind :=
  | Device_Unknown | Device_None | Device_D3D11VA | Device_QSV | Device_CUDA
  | Device_VAAPI | Device_DRMPrime | Device_RKMPP | Device_VideoToolbox
  | Device_MediaCodec.

#[export] Instance MediaHardwareDeviceKind_eq_dec : EqDecision MediaHardwareDeviceKind.
Proof. solve_decision. Defined.

Inductive MediaHardwareFrameKind :=
  | FrameMem_Unknown | FrameMem_Software | FrameMem_Hardware
  | FrameMem_HardwareMapped.

#[export] Instance MediaHardwareFrameKind_eq_dec : EqDecision MediaHardwareFrameKind.
Proof. solve_decision. Defined.

Inductive MediaHardwareTransferDirection :=
  | Transfer_Unknown | Transfer_None | Transfer_Upload | Transfer_Download
  | Transfer_Map | Transfer_Unmap.

#[export] Instance MediaHardwareTransferDirection_eq_dec : EqDecision MediaHardwareTransferDirection.
Proof. solve_decision. Defined.

Inductive MediaCodecDomain :=
  | CodecDomain_Unknown | CodecDomain_Video | CodecDomain_Audio
  | CodecDomain_Subtitle | CodecDomain_Data.

#[export] Instance MediaCodecDomain_eq_dec : EqDecision MediaCodecDomain.
Proof. solve_decision. Defined.

Inductive MediaCodecOperation :=
  | CodecOp_Unknown | CodecOp_Decode | CodecOp_Encode | CodecOp_Copy | CodecOp_Mux
  | CodecOp_Demux.

#[export] Instance MediaCodecOperation_eq_dec : EqDecision MediaCodecOperation.
Proof. solve_decision. Defined.

Inductive MediaSampleFormatKind :=
  | SampleFormat_Unknown | SampleFormat_Packed | SampleFormat_Planar.

#[export] Instance MediaSampleFormatKind_eq_dec : EqDecision MediaSampleFormatKind.
Proof. solve_decision. Defined.

Inductive MediaQueueMode :=
  | QueueMode_Unknown | QueueMode_Direct | QueueMode_Blocking | QueueMode_SpscRing
  | QueueMode_MpscRing.

#[export] Instance MediaQueueMode_eq_dec : EqDecision MediaQueueMode.
Proof. solve_decision. Defined.

Inductive MediaQueueOverflowPolicy :=
  | Overflow_BlockProducer | Overflow_DropNewest | Overflow_DropOldest
  | Overflow_DropNonKeyFrame | Overflow_Abort.

#[export] Instance MediaQueueOverflowPolicy_eq_dec : EqDecision MediaQueueOverflowPolicy.
Proof. solve_decision. Defined.

Inductive MediaQueueOrderingPolicy :=
  | Ordering_Fifo | Ordering_Timestamp | Ordering_Priority.

#[export] Instance MediaQueueOrderingPolicy_eq_dec : EqDecision MediaQueueOrderingPolicy.
Proof. solve_decision. Defined.

Inductive MediaQueueStorageMode :=
  | Storage_Unknown | Storage_Deque | Storage_AtomicPrepared.

#[export] Instance MediaQueueStorageMode_eq_dec : EqDecision MediaQueueStorageMode.
Proof. solve_decision. Defined.

Inductive MediaBackpressureMode :=
  | Backpressure_None | Backpressure_Block | Backpressure_Drop
  | Backpressure_Adaptive | Backpressure_Abort.

#[export] Instance MediaBackpressureMode_eq_dec : EqDecision MediaBackpressureMode.
Proof. solve_decision. Defined.

Inductive MediaDropMode :=
  | DropMode_None | DropMode_DropNewest | DropMode_DropOldest
  | DropMode_DropNonKeyFrame | DropMode_DropUntilKeyFrame | DropMode_DropLateFrame
  | DropMode_Custom.

#[export] Instance MediaDropMode_eq_dec : EqDecision MediaDropMode.
Proof. solve_decision. Defined.

Inductive MediaDropTarget :=
  | DropTarget_Any | DropTarget_Packet | DropTarget_Frame | DropTarget_VideoOnly
  | DropTarget_AudioOnly | DropTarget_NonKeyVideoOnly.

#[export] Instance MediaDropTarget_eq_dec : EqDecision MediaDropTarget.
Proof. solve_decision. Defined.

Inductive MediaBufferOwnership :=
  | Ownership_Unknown | Ownership_MoveOnly | Ownership_SharedRef
  | Ownership_Borrowed.

#[export] Instance MediaBufferOwnership_eq_dec : EqDecision MediaBufferOwnership.
Proof. solve_decision. Defined.

Inductive MediaBufferPoolMode :=
  | Pool_None | Pool_PerChannel | Pool_PerNode | Pool_SharedGraphPool.

#[export] Instance MediaBufferPoolMode_eq_dec : EqDecision MediaBufferPoolMode.
Proof. solve_decision. Defined.

Inductive MediaBufferLifetime :=
  | Lifetime_Unknown | Lifetime_SingleConsumer | Lifetime_MultiConsumer
  | Lifetime_UntilFlush | Lifetime_UntilGraphStop.

#[export] Instance MediaBufferLifetime_eq_dec : EqDecision MediaBufferLifetime.
Proof. solve_decision. Defined.

Inductive MediaGraphPayloadCreditMode :=
  | CreditMode_NonRealtimeNotApplicable | CreditMode_RealtimeRequired.

#[export] Instance MediaGraphPayloadCreditMode_eq_dec : EqDecision MediaGraphPayloadCreditMode.
Proof. solve_decision. Defined.

Inductive MediaGraphPayloadCreditIntegration :=
  | Integration_Incomplete | Integration_Complete.

#[export] Instance MediaGraphPayloadCreditIntegration_eq_dec : EqDecision MediaGraphPayloadCreditIntegration.
Proof. solve_decision. Defined.

Inductive MediaGraphPayloadAllocationAccounting :=
  | Accounting_EngineManagedBytesAndObject
  | Accounting_ObservedOnlyExternalBytesAndEngineManagedObject.

#[export] Instance MediaGraphPayloadAllocationAccounting_eq_dec : EqDecision MediaGraphPayloadAllocationAccounting.
Proof. solve_decision. Defined.

Inductive MediaFrameCreditAllocationScope :=
  | CreditScope_EngineLogicalBytes | CreditScope_ExternalDeviceObservedOnly.

#[export] Instance MediaFrameCreditAllocationScope_eq_dec : EqDecision MediaFrameCreditAllocationScope.
Proof. solve_decision. Defined.

(** [MediaNodeKind] fixes the numeric value of every enumerator ("new node kinds
    must only append values"). *)
Inductive MediaNodeKind :=
  | Node_Unknown | Node_FileInput | Node_RealtimeInput | Node_ReservedNodeKind3
  | Node_Demux | Node_StreamSplit | Node_PacketFanout | Node_FrameRoute
  | Node_VideoDecode | Node_VideoTimestamp | Node_HardwareTransfer
  | Node_VideoFrameRate | Node_VideoFilter | Node_VideoEncode
  | Node_ReservedNodeKind14 | Node_ReservedNodeKind15 | Node_ReservedNodeKind16
  | Node_AudioDecode | Node_AudioResample | Node_AudioEncode
  | Node_ReservedNodeKind20 | Node_ReservedNodeKind21 | Node_PacketMerge
  | Node_FileMux | Node_RtpMux | Node_FileOutput | Node_RtpOutput | Node_SdpWriter
  | Node_EofBarrier | Node_Flush | Node_Finalize | Node_ControlSignal
  | Node_CodecResolver | Node_MetadataProbe | Node_DebugDump | Node_TraceProbe
  | Node_ReservedNodeKind36 | Node_AudioCodecResolver | Node_PacketSourceConfig
  | Node_PacketNormalize | Node_RawRtpInput | Node_ReservedNodeKind41
  | Node_PacketStartGate | Node_RtpClockGroup | Node_MpegTsDemux
  | Node_AvStartupCoordinator | Node_AvOutputScheduler | Node_PlaybackEpochBinder
  | Node_CanonicalInput | Node_AvBoundReleaseExtractor | Node_AudioStartupTrim
  | Node_RtpPacketClockBinder | Node_RtpClockSnapshotFanout | Node_LockedPacketGate
  | Node_ReservedNodeKind54 | Node_RtpSourceClockStateAdapter | Node_AvStartupClock
  | Node_ActivatedStartupReleaseSequencer | Node_SourceClockStateFanout
  | Node_AudioDriftController | Node_EncodedAudioCanonicalizer
  | Node_ScheduledOutputRouter | Node_ScheduledRtpSender | Node_RtpSdpPublisher
  | Node_ProjectMpegTsPlanSource | Node_ScheduledTsAccessUnitAdapter
  | Node_DemuxPacketClockBinder | Node_MpegTsRtpSdpPublisher
  | Node_VideoOutputScheduler | Node_ScheduledDatagramSender | Node_DatagramShaper
  | Node_RtpDatagramMaterializer | Node_MpegTsDatagramMaterializer
  | Node_DatagramTransportPlanSource | Node_VideoOutputFanout
  | Node_EncodedVideoOutputFanout.

Definition nodeKindValue (k : MediaNodeKind) : nat :=
  match k with
  | Node_Unknown => 0 | Node_FileInput => 1 | Node_RealtimeInput => 2
  | Node_ReservedNodeKind3 => 3 | Node_Demux => 4 | Node_StreamSplit => 5
  | Node_PacketFanout => 6 | Node_FrameRoute => 7 | Node_VideoDecode => 8
  | Node_VideoTimestamp => 9 | Node_HardwareTransfer => 10 | Node_VideoFrameRate => 11
  | Node_VideoFilter => 12 | Node_VideoEncode => 13 | Node_ReservedNodeKind14 => 14
  | Node_ReservedNodeKind15 => 15 | Node_ReservedNodeKind16 => 16
  | Node_AudioDecode => 17 | Node_AudioResample => 18 | Node_AudioEncode => 19
  | Node_ReservedNodeKind20 => 20 | Node_ReservedNodeKind21 => 21
  | Node_PacketMerge => 22 | Node_FileMux => 23 | Node_RtpMux => 24
  | Node_FileOutput => 25 | Node_RtpOutput => 26 | Node_SdpWriter => 27
  | Node_EofBarrier => 28 | Node_Flush => 29 | Node_Finalize => 30
  | Node_ControlSignal => 31 | Node_CodecResolver => 32 | Node_MetadataProbe => 33
  | Node_DebugDump => 34 | Node_TraceProbe => 35 | Node_ReservedNodeKind36 => 36
  | Node_AudioCodecResolver => 37 | Node_PacketSourceConfig => 38
  | Node_PacketNormalize => 39 | Node_RawRtpInput => 40 | Node_ReservedNodeKind41 => 41
  | Node_PacketStartGate => 42 | Node_RtpClockGroup => 43 | Node_MpegTsDemux => 44
  | Node_AvStartupCoordinator => 45 | Node_AvOutputScheduler => 46
  | Node_PlaybackEpochBinder => 47 | Node_CanonicalInput => 48
  | Node_AvBoundReleaseExtractor => 49 | Node_AudioStartupTrim => 50
  | Node_RtpPacketClockBinder => 51 | Node_RtpClockSnapshotFanout => 52
  | Node_LockedPacketGate => 53 | Node_ReservedNodeKind54 => 54
  | Node_RtpSourceClockStateAdapter => 55 | Node_AvStartupClock => 56
  | Node_ActivatedStartupReleaseSequencer => 57 | Node_SourceClockStateFanout => 58
  | Node_AudioDriftController => 59 | Node_EncodedAudioCanonicalizer => 60
  | Node_ScheduledOutputRouter => 61 | Node_ScheduledRtpSender => 62
  | Node_RtpSdpPublisher => 63 | Node_ProjectMpegTsPlanSource => 64
  | Node_ScheduledTsAccessUnitAdapter => 65 | Node_DemuxPacketClockBinder => 66
  | Node_MpegTsRtpSdpPublisher => 67 | Node_VideoOutputScheduler => 68
  | Node_ScheduledDatagramSender => 69 | Node_DatagramShaper => 70
  | Node_RtpDatagramMaterializer => 71 | Node_MpegTsDatagramMaterializer => 72
  | Node_DatagramTransportPlanSource => 73 | Node_VideoOutputFanout => 74
  | Node_EncodedVideoOutputFanout => 75
  end%nat.

Definition allNodeKinds : list MediaNodeKind :=
  [Node_Unknown; Node_FileInput; Node_RealtimeInput; Node_ReservedNodeKind3;
   Node_Demux; Node_StreamSplit; Node_PacketFanout; Node_FrameRoute;
   Node_VideoDecode; Node_VideoTimestamp; Node_HardwareTransfer;
   Node_VideoFrameRate; Node_VideoFilter; Node_VideoEncode;
   Node_ReservedNodeKind14; Node_ReservedNodeKind15; Node_ReservedNodeKind16;
   Node_AudioDecode; Node_AudioResample; Node_AudioEncode;
   Node_ReservedNodeKind20; Node_ReservedNodeKind21; Node_PacketMerge;
   Node_FileMux; Node_RtpMux; Node_FileOutput; Node_RtpOutput; Node_SdpWriter;
   Node_EofBarrier; Node_Flush; Node_Finalize; Node_ControlSignal;
   Node_CodecResolver; Node_MetadataProbe; Node_DebugDump; Node_TraceProbe;
   Node_ReservedNodeKind36; Node_AudioCodecResolver; Node_PacketSourceConfig;
   Node_PacketNormalize; Node_RawRtpInput; Node_ReservedNodeKind41;
   Node_PacketStartGate; Node_RtpClockGroup; Node_MpegTsDemux;
   Node_AvStartupCoordinator; Node_AvOutputScheduler; Node_PlaybackEpochBinder;
   Node_CanonicalInput; Node_AvBoundReleaseExtractor; Node_AudioStartupTrim;
   Node_RtpPacketClockBinder; Node_RtpClockSnapshotFanout; Node_LockedPacketGate;
   Node_ReservedNodeKind54; Node_RtpSourceClockStateAdapter; Node_AvStartupClock;
   Node_ActivatedStartupReleaseSequencer; Node_SourceClockStateFanout;
   Node_AudioDriftController; Node_EncodedAudioCanonicalizer;
   Node_ScheduledOutputRouter; Node_ScheduledRtpSender; Node_RtpSdpPublisher;
   Node_ProjectMpegTsPlanSource; Node_ScheduledTsAccessUnitAdapter;
   Node_DemuxPacketClockBinder; Node_MpegTsRtpSdpPublisher;
   Node_VideoOutputScheduler; Node_ScheduledDatagramSender; Node_DatagramShaper;
   Node_RtpDatagramMaterializer; Node_MpegTsDatagramMaterializer;
   Node_DatagramTransportPlanSource; Node_VideoOutputFanout;
   Node_EncodedVideoOutputFanout].

Lemma nodeKind_of_value k : allNodeKinds !! nodeKindValue k = Some k.
Proof. by destruct k. Qed.

#[export] Instance MediaNodeKind_eq_dec : EqDecision MediaNodeKind.
Proof.
  intros k1 k2. destruct (decide (nodeKindValue k1 = nodeKindValue k2)) as [E | E].
  - left. pose proof (nodeKind_of_value k1) as H1. pose proof (nodeKind_of_value k2) as H2.
    rewrite E in H1. congruence.
  - right. congruence.
Defined.

(** ** Scalars ([MediaGraphTypes.h]) *)

Definition invalidMediaStreamIndex : Z := -1.
Definition invalidMediaTimeValue : Z := int64_min.

Record MediaRational := mkRational { num : Z; den : Z }.
Definition defaultRational : MediaRational := mkRational 0 1.
Definition Rational_isValid (r : MediaRational) : bool := negb (den r =? 0).
Definition Rational_isKnown (r : MediaRational) : bool :=
  negb (num r =? 0) && negb (den r =? 0).

Record MediaSize := mkSize { width : Z; height : Z }.
Definition defaultSize : MediaSize := mkSize 0 0.
Definition Size_isValid (s : MediaSize) : bool := (0 <? width s) && (0 <? height s).

(** ** Descriptors *)

Record MediaTimestampRange := mkTimestampRange { rangeStart : Z; rangeEnd : Z }.
Definition defaultTimestampRange : MediaTimestampRange :=
  mkTimestampRange invalidMediaTimeValue invalidMediaTimeValue.

Record MediaTimeDescriptor := mkTimeDescriptor {
  timeBase : MediaRational;
  timeFrameRate : MediaRational;
  timeRange : MediaTimestampRange;
  startTime : Z;
  duration : Z;
  ptsOffset : Z;
  monotonicPtsRequired : bool;
  allowNegativeStartTime : bool;
  realtimeClockDriven : bool;
}.
Definition defaultTimeDescriptor : MediaTimeDescriptor :=
  mkTimeDescriptor defaultRational defaultRational defaultTimestampRange
    invalidMediaTimeValue 0 0 true false false.
Definition hasKnownTimeBase (t : MediaTimeDescriptor) : bool := Rational_isKnown (timeBase t).
Definition hasKnownFrameRate (t : MediaTimeDescriptor) : bool :=
  Rational_isKnown (timeFrameRate t).

Record MediaHardwareDescriptor := mkHardwareDescriptor {
  deviceKind : MediaHardwareDeviceKind;
  frameKind : MediaHardwareFrameKind;
  transferDirection : MediaHardwareTransferDirection;
  deviceName : string;
  hwPixelFormat : string;
  surfacePixelFormat : string;
  framesContextName : string;
  hwSize : MediaSize;
  hwZeroCopyPreferred : bool;
  requiresHardwareDeviceContext : bool;
  requiresHardwareFramesContext : bool;
}.
Definition defaultHardwareDescriptor : MediaHardwareDescriptor :=
  mkHardwareDescriptor Device_Unknown FrameMem_Unknown Transfer_Unknown
    "" "" "" "" defaultSize true false false.

Record MediaCodecDescriptor := mkCodecDescriptor {
  codecDomain : MediaCodecDomain;
  codecOperation : MediaCodecOperation;
  codecName : string;
  codecLongName : string;
  codecProfile : string;
  codecBitrate : Z;
  codecLevel : Z;
  lossless : bool;
  passthrough : bool;
}.
Definition defaultCodecDescriptor : MediaCodecDescriptor :=
  mkCodecDescriptor CodecDomain_Unknown CodecOp_Unknown "" "" "" 0 0 false false.

Record MediaVideoFormatDescriptor := mkVideoFormat {
  videoSize : MediaSize;
  videoPixelFormat : string;
  colorSpace : string;
  colorRange : string;
  colorPrimaries : string;
  colorTransfer : string;
  sampleAspectRatio : MediaRational;
  videoFrameRate : MediaRational;
}.
Definition defaultVideoFormat : MediaVideoFormatDescriptor :=
  mkVideoFormat defaultSize "" "" "" "" "" defaultRational defaultRational.
Definition hasKnownSize (v : MediaVideoFormatDescriptor) : bool := Size_isValid (videoSize v).

Record MediaAudioFormatDescriptor := mkAudioFormat {
  sampleRate : Z;
  channels : Z;
  channelLayout : string;
  sampleFormat : string;
  sampleFormatKind : MediaSampleFormatKind;
}.
Definition defaultAudioFormat : MediaAudioFormatDescriptor :=
  mkAudioFormat 0 0 "" "" SampleFormat_Unknown.
Definition hasKnownLayout (a : MediaAudioFormatDescriptor) : bool :=
  (0 <? sampleRate a) && (0 <? channels a).

Record MediaFormatDescriptor := mkFormatDescriptor {
  formatStreamKind : MediaStreamKind;
  streamIndex : Z;
  formatCodec : MediaCodecDescriptor;
  formatVideo : MediaVideoFormatDescriptor;
  formatAudio : MediaAudioFormatDescriptor;
  formatTime : MediaTimeDescriptor;
  formatHardware : MediaHardwareDescriptor;
  formatIsInput : bool;
  formatIsOutput : bool;
  formatIsRealtime : bool;
}.
(** The default descriptor, with the stream kind [addPort] stores in it. *)
Definition formatForStream (kind : MediaStreamKind) : MediaFormatDescriptor :=
  mkFormatDescriptor kind invalidMediaStreamIndex defaultCodecDescriptor
    defaultVideoFormat defaultAudioFormat defaultTimeDescriptor
    defaultHardwareDescriptor false false false.
Definition hasStreamIndex (f : MediaFormatDescriptor) : bool :=
  negb (streamIndex f =? invalidMediaStreamIndex).

(** ** Policies *)

Record MediaBackpressurePolicy := mkBackpressurePolicy {
  backpressureMode : MediaBackpressureMode;
  lowWatermark : Z;
  highWatermark : Z;
  criticalWatermark : Z;
  propagateUpstream : bool;
  reportMetrics : bool;
  realtimePriority : bool;
}.
Definition defaultBackpressurePolicy : MediaBackpressurePolicy :=
  mkBackpressurePolicy Backpressure_Block 0 0 0 true true false.

Record MediaDropPolicy := mkDropPolicy {
  dropMode : MediaDropMode;
  dropTarget : MediaDropTarget;
  maxDropCountPerBurst : Z;
  preserveKeyFrames : bool;
  preserveAudioContinuity : bool;
  emitDropDiagnostics : bool;
}.
Definition defaultDropPolicy : MediaDropPolicy :=
  mkDropPolicy DropMode_None DropTarget_Any 0 true true true.

(** [capacity] is a [std::size_t]. *)
Record MediaQueuePolicy := mkQueuePolicy {
  queueMode : MediaQueueMode;
  overflowPolicy : MediaQueueOverflowPolicy;
  orderingPolicy : MediaQueueOrderingPolicy;
  storageMode : MediaQueueStorageMode;
  capacity : Z;
  reserveCapacity : Z;
  queueDropPolicy : MediaDropPolicy;
  queueBackpressurePolicy : MediaBackpressurePolicy;
  bounded : bool;
  preserveOrdering : bool;
  allowFlushControlBypass : bool;
  collectMetrics : bool;
}.
Definition defaultQueuePolicy : MediaQueuePolicy :=
  mkQueuePolicy QueueMode_Blocking Overflow_BlockProducer Ordering_Fifo
    Storage_Unknown 16 0 defaultDropPolicy defaultBackpressurePolicy
    true true true true.
Definition isBoundedQueue (p : MediaQueuePolicy) : bool := bounded p && (0 <? capacity p).

Record MediaMemoryBudget := mkMemoryBudget {
  maxBytes : Z;
  softLimitBytes : Z;
  budgetReservedBytes : Z;
  maxBuffers : Z;
  preallocatedBuffers : Z;
  enforceHardLimit : bool;
  allowDynamicGrowth : bool;
}.
Definition defaultMemoryBudget : MediaMemoryBudget :=
  mkMemoryBudget 0 0 0 0 0 false true.

Record MediaBufferPolicy := mkBufferPolicy {
  bufferOwnership : MediaBufferOwnership;
  poolMode : MediaBufferPoolMode;
  bufferLifetime : MediaBufferLifetime;
  memoryKind : MediaHardwareFrameKind;
  memoryBudget : MediaMemoryBudget;
  sharedAllocationGroup : string;
  allowPoolReuse : bool;
  requireWritable : bool;
  bufferZeroCopyPreferred : bool;
  allowHardwareFrames : bool;
  bufferAllowSoftwareTransfer : bool;
}.
Definition defaultBufferPolicy : MediaBufferPolicy :=
  mkBufferPolicy Ownership_SharedRef Pool_PerChannel Lifetime_SingleConsumer
    FrameMem_Unknown defaultMemoryBudget "" true false true true true.

(** [core/MediaEdge.h], [MediaEdgePolicy]. *)
Record MediaEdgePolicy := mkEdgePolicy {
  queuePolicy : MediaQueuePolicy;
  bufferPolicy : MediaBufferPolicy;
  backpressurePolicy : MediaBackpressurePolicy;
}.
Definition defaultEdgePolicy : MediaEdgePolicy :=
  mkEdgePolicy defaultQueuePolicy defaultBufferPolicy defaultBackpressurePolicy.

(** [MediaAtomicOutputPolicyContract::accepts]. *)
Definition atomicOutputAccepts (p : MediaEdgePolicy) : bool :=
  let q := queuePolicy p in
  bounded q && (0 <? capacity q) &&
  bool_decide (storageMode q = Storage_AtomicPrepared) &&
  bool_decide (overflowPolicy q = Overflow_BlockProducer) &&
  bool_decide (orderingPolicy q = Ordering_Fifo) &&
  preserveOrdering q.

(** ** Payload credit plan ([MediaGraphPayloadCreditPlan.h]) *)

Record MediaFrameCreditContract := mkFrameCredit {
  allocationScope : MediaFrameCreditAllocationScope;
  maximumLogicalBytes : Z;
  maximumObjectsPerAllocation : Z;
  frameAuthority : string;
}.
Definition FrameCredit_valid (c : MediaFrameCreditContract) : bool :=
  (0 <? maximumLogicalBytes c) && (maximumObjectsPerAllocation c =? 1) &&
  negb (strEmpty (frameAuthority c)).

Record MediaGraphPayloadProducerStrategy := mkProducerStrategy {
  producerNodeId : Z;
  producerStreamKind : MediaStreamKind;
  producerPayloadKind : MediaPayloadKind;
  accounting : MediaGraphPayloadAllocationAccounting;
  frameCredit : option MediaFrameCreditContract;
  maximumReservationBytes : Z;
  runtimeIntegrated : bool;
  producerAuthority : string;
}.
Definition Producer_valid (p : MediaGraphPayloadProducerStrategy) : bool :=
  let frameContractValid :=
    if bool_decide (producerPayloadKind p = Payload_Frame) then
      match frameCredit p with
      | Some c =>
          FrameCredit_valid c &&
          (maximumLogicalBytes c =? maximumReservationBytes p) &&
          bool_decide (accounting p =
            if bool_decide (allocationScope c = CreditScope_EngineLogicalBytes)
            then Accounting_EngineManagedBytesAndObject
            else Accounting_ObservedOnlyExternalBytesAndEngineManagedObject)
      | None => false
      end
    else bool_decide (frameCredit p = None) in
  idValid (producerNodeId p) &&
  bool_decide (producerStreamKind p <> Stream_Unknown) &&
  bool_decide (producerPayloadKind p <> Payload_Unknown) &&
  frameContractValid && (0 <? maximumReservationBytes p) &&
  negb (strEmpty (producerAuthority p)).
Definition Producer_maximumReservedBytes (p : MediaGraphPayloadProducerStrategy) : Z :=
  if bool_decide (accounting p = Accounting_EngineManagedBytesAndObject)
  then maximumReservationBytes p else 0.

Record MediaGraphPayloadProducerRequirement := mkProducerRequirement {
  missingNodeId : Z;
  missingStreamKind : MediaStreamKind;
  missingPayloadKind : MediaPayloadKind;
  missingAuthority : string;
}.
Definition Requirement_valid (r : MediaGraphPayloadProducerRequirement) : bool :=
  idValid (missingNodeId r) &&
  bool_decide (missingStreamKind r <> Stream_Unknown) &&
  bool_decide (missingPayloadKind r <> Payload_Unknown) &&
  negb (strEmpty (missingAuthority r)).

Record MediaGraphPayloadCreditPlan := mkCreditPlan {
  maximumBytes : Z;
  maximumObjects : Z;
  maximumUnitBytes : Z;
  producerStrategyVersion : Z;
  integration : MediaGraphPayloadCreditIntegration;
  planAuthority : string;
  producers : list MediaGraphPayloadProducerStrategy;
  missingProducers : list MediaGraphPayloadProducerRequirement;
}.

(** [std::vector::empty]. *)
Definition isNil {A} (l : list A) : bool := match l with [] => true | _ => false end.

Definition isStructurallyValid (p : MediaGraphPayloadCreditPlan) : bool :=
  if (maximumBytes p =? 0) || (maximumObjects p =? 0) || (maximumUnitBytes p =? 0) ||
     (producerStrategyVersion p =? 0) || strEmpty (planAuthority p) ||
     (isNil (producers p) && isNil (missingProducers p))
  then false
  else forallb Producer_valid (producers p) &&
       forallb Requirement_valid (missingProducers p).

Definition sameProducer (a b : MediaGraphPayloadProducerStrategy) : bool :=
  (producerNodeId a =? producerNodeId b) &&
  bool_decide (producerStreamKind a = producerStreamKind b) &&
  bool_decide (producerPayloadKind a = producerPayloadKind b).

(** The index loop of [isCompleteAndValid]; [previous] are the producers at
    smaller indices. *)
Fixpoint producersComplete (unitBytes : Z) (previous : list MediaGraphPayloadProducerStrategy)
    (rest : list MediaGraphPayloadProducerStrategy) : bool :=
  match rest with
  | [] => true
  | p :: rest' =>
      if negb (Producer_valid p) || (unitBytes <? Producer_maximumReservedBytes p) ||
         negb (runtimeIntegrated p) then false
      else if existsb (fun q => sameProducer q p) previous then false
      else producersComplete unitBytes (previous ++ [p]) rest'
  end.

Definition isCompleteAndValid (p : MediaGraphPayloadCreditPlan) : bool :=
  if negb (isStructurallyValid p) ||
     bool_decide (integration p <> Integration_Complete) ||
     negb (isNil (missingProducers p))
  then false
  else producersComplete (maximumUnitBytes p) [] (producers p).

(** ** Lemmas *)

Lemma idValid_spec id : idValid id = true <-> id <> invalidId.
Proof. unfold idValid. destruct (Z.eqb_spec id invalidId); naive_solver. Qed.

Lemma strEmpty_spec s : strEmpty s = true <-> s = EmptyString.
Proof. by destruct s. Qed.

(** The key the credit ledger finds a producer by. *)
Definition producerKey (p : MediaGraphPayloadProducerStrategy) :
    Z * MediaStreamKind * MediaPayloadKind :=
  (producerNodeId p, producerStreamKind p, producerPayloadKind p).

Lemma sameProducer_spec a b : sameProducer a b = true <-> producerKey a = producerKey b.
Proof.
  unfold sameProducer, producerKey.
  rewrite !andb_true_iff, Z.eqb_eq, !bool_decide_eq_true. intuition congruence.
Qed.

Lemma producersComplete_sound unitBytes previous rest :
  NoDup (producerKey <$> previous) ->
  producersComplete unitBytes previous rest = true ->
  NoDup (producerKey <$> (previous ++ rest)) /\
  Forall (fun p => Producer_valid p = true /\ runtimeIntegrated p = true /\
            Producer_maximumReservedBytes p <= unitBytes) rest.
Proof.
  revert previous. induction rest as [| p rest IH]; intros previous Hnd; simpl.
  { rewrite app_nil_r. auto. }
  destruct (Producer_valid p) eqn:Hv; [| done].
  destruct (Z.ltb_spec unitBytes (Producer_maximumReservedBytes p)); [done |].
  destruct (runtimeIntegrated p) eqn:Hi; [simpl | done].
  destruct (existsb _ previous) eqn:Hex; [done |]. intros Hc.
  assert (Hnd' : NoDup (producerKey <$> (previous ++ [p]))).
  { rewrite fmap_app. apply NoDup_app. split; [done |]. split; [| apply NoDup_singleton].
    intros k Hk ->%list_elem_of_singleton.
    apply list_elem_of_fmap in Hk as (q & Hq & Hin).
    assert (existsb (fun q => sameProducer q p) previous = true) as Hex'; [| congruence].
    apply existsb_exists. exists q. split; [by apply list_elem_of_In |].
    by apply sameProducer_spec. }
  destruct (IH _ Hnd' Hc) as [Hall HF].
  rewrite <- app_assoc in Hall. split; [done |]. by constructor.
Qed.
