(* ===== verification/Graph.v ===== *)
(** * The media graph

    Models [src/internal/graph/core/]: [MediaPort.h], [MediaNode.h],
    [MediaEdge.h], [MediaNodeOptions.{h,cpp}] and [MediaGraph.{h,cpp}].  The
    graph is the record of its vectors and its three 32-bit identifier
    counters; a method that mutates it is a function that returns the new graph
    with the method's result, and a pointer returned by a [find] method is the
    element found, updates through it changing the first match. *)

From stdpp Require Import gmap.
From S2P Require Import Prelude MediaResult Model.

Local Open Scope Z_scope.

Module MediaGraph.

(** ** Ports, nodes, edges *)

Inductive MediaPortDirection := Dir_Unknown | Dir_Input | Dir_Output.

#[export] Instance MediaPortDirection_eq_dec : EqDecision MediaPortDirection.
Proof. solve_decision. Defined.

Record MediaPort := mkPort {
  portId : Z;
  portNodeId : Z;
  portName : string;
  direction : MediaPortDirection;
  portStreamKind : MediaStreamKind;
  portEdgeKind : MediaEdgeKind;
  portPayloadKind : MediaPayloadKind;
  portFormat : MediaFormatDescriptor;
  portTime : MediaTimeDescriptor;
  portHardware : MediaHardwareDescriptor;
  portRequired : bool;
  portMultiple : bool;
}.

Definition isInput (p : MediaPort) : bool := bool_decide (direction p = Dir_Input).
Definition isOutput (p : MediaPort) : bool := bool_decide (direction p = Dir_Output).

Definition hasFormatDescriptor (p : MediaPort) : bool :=
  let f := portFormat p in
  bool_decide (formatStreamKind f <> Stream_Unknown) || hasStreamIndex f ||
  hasKnownSize (formatVideo f) || hasKnownLayout (formatAudio f) ||
  negb (strEmpty (codecName (formatCodec f))).

Definition hasTimeDescriptor (p : MediaPort) : bool :=
  let t := portTime p in
  hasKnownTimeBase t || hasKnownFrameRate t ||
  negb (startTime t =? invalidMediaTimeValue) || (0 <? duration t).

Definition hasHardwareDescriptor (p : MediaPort) : bool :=
  let h := portHardware p in
  bool_decide (deviceKind h <> Device_Unknown) ||
  bool_decide (frameKind h <> FrameMem_Unknown) ||
  negb (strEmpty (deviceName h)) || negb (strEmpty (hwPixelFormat h)).

(** [MediaPort::accepts]: [down] is the receiving port. *)
Definition accepts (down upstream : MediaPort) : bool :=
  if negb (isInput down) || negb (isOutput upstream) then false
  else
    let streamMatches :=
      bool_decide (portStreamKind down = Stream_Any) ||
      bool_decide (portStreamKind upstream = Stream_Any) ||
      bool_decide (portStreamKind down = portStreamKind upstream) in
    let edgeMatches :=
      bool_decide (portEdgeKind down = Edge_Unknown) ||
      bool_decide (portEdgeKind upstream = Edge_Unknown) ||
      bool_decide (portEdgeKind down = portEdgeKind upstream) in
    let payloadMatches :=
      bool_decide (portPayloadKind down = Payload_Unknown) ||
      bool_decide (portPayloadKind upstream = Payload_Unknown) ||
      bool_decide (portPayloadKind down = portPayloadKind upstream) in
    streamMatches && edgeMatches && payloadMatches.

(** [MediaNodeOptions] is an [unordered_map<string, string>]. *)
Abbreviation MediaNodeOptions := (gmap string string).

Definition Options_set (key value : string) (o : MediaNodeOptions) : MediaNodeOptions :=
  if strEmpty key then o else <[key := value]> o.
Definition Options_has (key : string) (o : MediaNodeOptions) : bool :=
  bool_decide (is_Some (o !! key)).
Definition Options_value (key missingValue : string) (o : MediaNodeOptions) : string :=
  default missingValue (o !! key).

Record MediaNode := mkNode {
  nodeId : Z;
  nodeKind : MediaNodeKind;
  nodeName : string;
  diagnosticName : string;
  nodeOptions : MediaNodeOptions;
  inputPorts : list MediaPort;
  outputPorts : list MediaPort;
  nodeRequired : bool;
}.

Definition Node_isValid (n : MediaNode) : bool :=
  idValid (nodeId n) && bool_decide (nodeKind n <> Node_Unknown) &&
  negb (strEmpty (nodeName n)).

Record MediaEdgeEndpoint := mkEndpoint { endNodeId : Z; endPortId : Z }.

Definition Endpoint_isValid (e : MediaEdgeEndpoint) : bool :=
  idValid (endNodeId e) && idValid (endPortId e).

Record MediaEdge := mkEdge {
  edgeId : Z;
  edgeName : string;
  edgeFrom : MediaEdgeEndpoint;
  edgeTo : MediaEdgeEndpoint;
  edgeStreamKind : MediaStreamKind;
  edgeEdgeKind : MediaEdgeKind;
  edgePayloadKind : MediaPayloadKind;
  edgeFormat : MediaFormatDescriptor;
  edgeTime : MediaTimeDescriptor;
  edgeHardware : MediaHardwareDescriptor;
  edgePolicy : MediaEdgePolicy;
  edgeRequired : bool;
}.

Definition Edge_isValid (e : MediaEdge) : bool :=
  idValid (edgeId e) && Endpoint_isValid (edgeFrom e) && Endpoint_isValid (edgeTo e).

(** ** The graph *)

Record MediaGraph := mkGraph {
  nodes : list MediaNode;
  edges : list MediaEdge;
  payloadCreditPlan : option MediaGraphPayloadCreditPlan;
  payloadCreditMode : option MediaGraphPayloadCreditMode;
  nextNodeId : Z;
  nextPortId : Z;
  nextEdgeId : Z;
}.

Definition emptyGraph : MediaGraph := mkGraph [] [] None None 1 1 1.

(** [clear] resets the vectors, the plan, the mode and the counters. *)
Definition clear (g : MediaGraph) : MediaGraph := mkGraph [] [] None None 1 1 1.

(** *** Lookups *)

Definition findNode (id : Z) (g : MediaGraph) : option MediaNode :=
  if idValid id then findFirst (fun n => nodeId n =? id) (nodes g) else None.

Definition findEdge (id : Z) (g : MediaGraph) : option MediaEdge :=
  if idValid id then findFirst (fun e => edgeId e =? id) (edges g) else None.

Fixpoint findPortIn (id : Z) (ns : list MediaNode) : option MediaPort :=
  match ns with
  | [] => None
  | n :: ns' =>
      match findFirst (fun p => portId p =? id) (inputPorts n) with
      | Some p => Some p
      | None =>
          match findFirst (fun p => portId p =? id) (outputPorts n) with
          | Some p => Some p
          | None => findPortIn id ns'
          end
      end
  end.

Definition findPort (id : Z) (g : MediaGraph) : option MediaPort :=
  if idValid id then findPortIn id (nodes g) else None.

Definition Node_findInputPort (name : string) (n : MediaNode) : option MediaPort :=
  findFirst (fun p => String.eqb (portName p) name) (inputPorts n).
Definition Node_findOutputPort (name : string) (n : MediaNode) : option MediaPort :=
  findFirst (fun p => String.eqb (portName p) name) (outputPorts n).

Definition findInputPort (id : Z) (name : string) (g : MediaGraph) : option MediaPort :=
  match findNode id g with
  | Some n => Node_findInputPort name n
  | None => None
  end.
Definition findOutputPort (id : Z) (name : string) (g : MediaGraph) : option MediaPort :=
  match findNode id g with
  | Some n => Node_findOutputPort name n
  | None => None
  end.

Definition empty (g : MediaGraph) : bool := isNil (nodes g).
Definition nodeCount (g : MediaGraph) : nat := length (nodes g).
Definition edgeCount (g : MediaGraph) : nat := length (edges g).

(** *** Functional updates of the records *)

Definition setNodes (ns : list MediaNode) (g : MediaGraph) : MediaGraph :=
  mkGraph ns (edges g) (payloadCreditPlan g) (payloadCreditMode g)
    (nextNodeId g) (nextPortId g) (nextEdgeId g).
Definition setEdges (es : list MediaEdge) (g : MediaGraph) : MediaGraph :=
  mkGraph (nodes g) es (payloadCreditPlan g) (payloadCreditMode g)
    (nextNodeId g) (nextPortId g) (nextEdgeId g).
Definition setCredit (plan : option MediaGraphPayloadCreditPlan)
    (mode : option MediaGraphPayloadCreditMode) (g : MediaGraph) : MediaGraph :=
  mkGraph (nodes g) (edges g) plan mode (nextNodeId g) (nextPortId g) (nextEdgeId g).

Definition withOptions (o : MediaNodeOptions) (n : MediaNode) : MediaNode :=
  mkNode (nodeId n) (nodeKind n) (nodeName n) (diagnosticName n) o
    (inputPorts n) (outputPorts n) (nodeRequired n).
Definition withPorts (ins outs : list MediaPort) (n : MediaNode) : MediaNode :=
  mkNode (nodeId n) (nodeKind n) (nodeName n) (diagnosticName n) (nodeOptions n)
    ins outs (nodeRequired n).
Definition withFormat (f : MediaFormatDescriptor) (p : MediaPort) : MediaPort :=
  mkPort (portId p) (portNodeId p) (portName p) (direction p) (portStreamKind p)
    (portEdgeKind p) (portPayloadKind p) f (portTime p) (portHardware p)
    (portRequired p) (portMultiple p).
Definition withTime (t : MediaTimeDescriptor) (p : MediaPort) : MediaPort :=
  mkPort (portId p) (portNodeId p) (portName p) (direction p) (portStreamKind p)
    (portEdgeKind p) (portPayloadKind p) (portFormat p) t (portHardware p)
    (portRequired p) (portMultiple p).
Definition withHardware (h : MediaHardwareDescriptor) (p : MediaPort) : MediaPort :=
  mkPort (portId p) (portNodeId p) (portName p) (direction p) (portStreamKind p)
    (portEdgeKind p) (portPayloadKind p) (portFormat p) (portTime p) h
    (portRequired p) (portMultiple p).
Definition withPolicy (pol : MediaEdgePolicy) (e : MediaEdge) : MediaEdge :=
  mkEdge (edgeId e) (edgeName e) (edgeFrom e) (edgeTo e) (edgeStreamKind e)
    (edgeEdgeKind e) (edgePayloadKind e) (edgeFormat e) (edgeTime e)
    (edgeHardware e) pol (edgeRequired e).

(** *** Mutators *)

Definition eraseProducers (selected : Z -> bool) (p : MediaGraphPayloadCreditPlan) :
    MediaGraphPayloadCreditPlan :=
  mkCreditPlan (maximumBytes p) (maximumObjects p) (maximumUnitBytes p)
    (producerStrategyVersion p) (integration p) (planAuthority p)
    (List.filter (fun q => negb (selected (producerNodeId q))) (producers p))
    (missingProducers p).

Definition removeNodes (ids : list Z) (g : MediaGraph) : MediaGraph :=
  let selected id := existsb (fun x => x =? id) ids in
  mkGraph
    (List.filter (fun n => negb (selected (nodeId n))) (nodes g))
    (List.filter (fun e => negb (selected (endNodeId (edgeFrom e)) ||
                                 selected (endNodeId (edgeTo e)))) (edges g))
    (eraseProducers selected <$> payloadCreditPlan g)
    (payloadCreditMode g) (nextNodeId g) (nextPortId g) (nextEdgeId g).

Definition setPayloadCreditPlan (plan : MediaGraphPayloadCreditPlan) (g : MediaGraph) :
    MediaGraph * bool :=
  if bool_decide (is_Some (payloadCreditPlan g)) ||
     match payloadCreditMode g with
     | Some m => bool_decide (m <> CreditMode_RealtimeRequired)
     | None => false
     end || negb (isStructurallyValid plan)
  then (g, false)
  else (setCredit (Some plan) (Some CreditMode_RealtimeRequired) g, true).

Definition replacePayloadCreditPlan (plan : MediaGraphPayloadCreditPlan) (g : MediaGraph) :
    MediaGraph * bool :=
  if negb (bool_decide (payloadCreditMode g = Some CreditMode_RealtimeRequired)) ||
     negb (bool_decide (is_Some (payloadCreditPlan g))) || negb (isCompleteAndValid plan)
  then (g, false)
  else (setCredit (Some plan) (payloadCreditMode g) g, true).

Definition setPayloadCreditMode (mode : MediaGraphPayloadCreditMode) (g : MediaGraph) :
    MediaGraph * bool :=
  if bool_decide (is_Some (payloadCreditMode g)) ||
     (bool_decide (mode = CreditMode_NonRealtimeNotApplicable) &&
      bool_decide (is_Some (payloadCreditPlan g)))
  then (g, false)
  else (setCredit (payloadCreditPlan g) (Some mode) g, true).

Definition addNode (kind : MediaNodeKind) (name diagnostic : string) (g : MediaGraph) :
    MediaGraph * Z :=
  if bool_decide (kind = Node_Unknown) || strEmpty name then (g, invalidId)
  else
    let node := mkNode (nextNodeId g) kind name diagnostic ∅ [] [] true in
    (mkGraph (nodes g ++ [node]) (edges g) (payloadCreditPlan g) (payloadCreditMode g)
       (u32 (nextNodeId g + 1)) (nextPortId g) (nextEdgeId g), nextNodeId g).

Definition updateNode (id : Z) (f : MediaNode -> MediaNode) (g : MediaGraph) : MediaGraph :=
  setNodes (updateFirst (fun n => nodeId n =? id) f (nodes g)) g.

Definition setNodeOption (id : Z) (key value : string) (g : MediaGraph) : MediaGraph * bool :=
  match findNode id g with
  | None => (g, false)
  | Some node =>
      if strEmpty key then (g, false)
      else (updateNode id (fun n => withOptions (Options_set key value (nodeOptions n)) n) g, true)
  end.

Definition setNodeOptions (id : Z) (o : MediaNodeOptions) (g : MediaGraph) :
    MediaGraph * bool :=
  match findNode id g with
  | None => (g, false)
  | Some _ => (updateNode id (withOptions o) g, true)
  end.

Definition addPort (id : Z) (name : string) (dir : MediaPortDirection)
    (stream : MediaStreamKind) (edge : MediaEdgeKind) (payload : MediaPayloadKind)
    (required multiple : bool) (g : MediaGraph) : MediaGraph * Z :=
  if negb (idValid id) || strEmpty name || bool_decide (dir = Dir_Unknown)
  then (g, invalidId)
  else
    match findNode id g with
    | None => (g, invalidId)
    | Some _ =>
        let port := mkPort (nextPortId g) id name dir stream edge payload
                      (formatForStream stream) defaultTimeDescriptor
                      defaultHardwareDescriptor required multiple in
        let push n :=
          if bool_decide (dir = Dir_Input)
          then withPorts (inputPorts n ++ [port]) (outputPorts n) n
          else withPorts (inputPorts n) (outputPorts n ++ [port]) n in
        let g' := updateNode id push g in
        (mkGraph (nodes g') (edges g') (payloadCreditPlan g') (payloadCreditMode g')
           (nextNodeId g') (u32 (nextPortId g + 1)) (nextEdgeId g'), nextPortId g)
    end.

Definition addInputPort (id : Z) (name : string) (stream : MediaStreamKind)
    (edge : MediaEdgeKind) (payload : MediaPayloadKind) (required multiple : bool)
    (g : MediaGraph) : MediaGraph * Z :=
  addPort id name Dir_Input stream edge payload required multiple g.
Definition addOutputPort (id : Z) (name : string) (stream : MediaStreamKind)
    (edge : MediaEdgeKind) (payload : MediaPayloadKind) (required multiple : bool)
    (g : MediaGraph) : MediaGraph * Z :=
  addPort id name Dir_Output stream edge payload required multiple g.

Definition hasPortId (id : Z) (ps : list MediaPort) : bool :=
  existsb (fun p => portId p =? id) ps.

(** The write through the pointer [findPort] returned: input ports of a node
    are scanned before its output ports. *)
Fixpoint updatePortIn (id : Z) (f : MediaPort -> MediaPort) (ns : list MediaNode) :
    list MediaNode :=
  match ns with
  | [] => []
  | n :: ns' =>
      if hasPortId id (inputPorts n)
      then withPorts (updateFirst (fun p => portId p =? id) f (inputPorts n)) (outputPorts n) n :: ns'
      else if hasPortId id (outputPorts n)
      then withPorts (inputPorts n) (updateFirst (fun p => portId p =? id) f (outputPorts n)) n :: ns'
      else n :: updatePortIn id f ns'
  end.

Definition setPort (id : Z) (f : MediaPort -> MediaPort) (g : MediaGraph) : MediaGraph * bool :=
  match findPort id g with
  | None => (g, false)
  | Some _ => (setNodes (updatePortIn id f (nodes g)) g, true)
  end.

Definition setPortFormatDescriptor (id : Z) (d : MediaFormatDescriptor) (g : MediaGraph) :
    MediaGraph * bool := setPort id (withFormat d) g.
Definition setPortTimeDescriptor (id : Z) (d : MediaTimeDescriptor) (g : MediaGraph) :
    MediaGraph * bool := setPort id (withTime d) g.
Definition setPortHardwareDescriptor (id : Z) (d : MediaHardwareDescriptor) (g : MediaGraph) :
    MediaGraph * bool := setPort id (withHardware d) g.

Definition chooseEdgeKind (from to : MediaPort) : MediaEdgeKind :=
  if bool_decide (portEdgeKind from <> Edge_Unknown) then portEdgeKind from
  else portEdgeKind to.
Definition chooseStreamKind (from to : MediaPort) : MediaStreamKind :=
  if bool_decide (portStreamKind from <> Stream_Any) &&
     bool_decide (portStreamKind from <> Stream_Unknown)
  then portStreamKind from else portStreamKind to.
Definition choosePayloadKind (from to : MediaPort) : MediaPayloadKind :=
  if bool_decide (portPayloadKind from <> Payload_Unknown) then portPayloadKind from
  else portPayloadKind to.
Definition chooseFormatDescriptor (from to : MediaPort) : MediaFormatDescriptor :=
  if hasFormatDescriptor from then portFormat from else portFormat to.
Definition chooseTimeDescriptor (from to : MediaPort) : MediaTimeDescriptor :=
  if hasTimeDescriptor from then portTime from else portTime to.
Definition chooseHardwareDescriptor (from to : MediaPort) : MediaHardwareDescriptor :=
  if hasHardwareDescriptor from then portHardware from else portHardware to.

(** [connect] with an explicit policy. *)
Definition connectWith (fromNode : Z) (fromPort : string) (toNode : Z) (toPort : string)
    (name : string) (policy : MediaEdgePolicy) (required : bool) (g : MediaGraph) :
    MediaGraph * Z :=
  match findOutputPort fromNode fromPort g, findInputPort toNode toPort g with
  | Some from, Some to =>
      if negb (accepts to from) then (g, invalidId)
      else
        let edge := mkEdge (nextEdgeId g) name
          (mkEndpoint fromNode (portId from)) (mkEndpoint toNode (portId to))
          (chooseStreamKind from to) (chooseEdgeKind from to) (choosePayloadKind from to)
          (chooseFormatDescriptor from to) (chooseTimeDescriptor from to)
          (chooseHardwareDescriptor from to) policy required in
        (mkGraph (nodes g) (edges g ++ [edge]) (payloadCreditPlan g) (payloadCreditMode g)
           (nextNodeId g) (nextPortId g) (u32 (nextEdgeId g + 1)), nextEdgeId g)
  | _, _ => (g, invalidId)
  end.

(** [connect] without a policy passes [MediaEdgePolicy{}]. *)
Definition connect (fromNode : Z) (fromPort : string) (toNode : Z) (toPort : string)
    (name : string) (required : bool) (g : MediaGraph) : MediaGraph * Z :=
  connectWith fromNode fromPort toNode toPort name defaultEdgePolicy required g.

Definition setEdgePolicy (id : Z) (policy : MediaEdgePolicy) (g : MediaGraph) :
    MediaGraph * bool :=
  match findEdge id g with
  | None => (g, false)
  | Some _ => (setEdges (updateFirst (fun e => edgeId e =? id) (withPolicy policy) (edges g)) g, true)
  end.

(** ** Calls as data *)

Inductive GraphOp :=
  | Op_clear
  | Op_removeNodes (ids : list Z)
  | Op_addNode (kind : MediaNodeKind) (name diagnostic : string)
  | Op_setNodeOption (id : Z) (key value : string)
  | Op_setNodeOptions (id : Z) (o : MediaNodeOptions)
  | Op_addInputPort (id : Z) (name : string) (stream : MediaStreamKind)
      (edge : MediaEdgeKind) (payload : MediaPayloadKind) (required multiple : bool)
  | Op_addOutputPort (id : Z) (name : string) (stream : MediaStreamKind)
      (edge : MediaEdgeKind) (payload : MediaPayloadKind) (required multiple : bool)
  | Op_setPortFormat (id : Z) (d : MediaFormatDescriptor)
  | Op_setPortTime (id : Z) (d : MediaTimeDescriptor)
  | Op_setPortHardware (id : Z) (d : MediaHardwareDescriptor)
  | Op_connect (fromNode : Z) (fromPort : string) (toNode : Z) (toPort name : string)
      (required : bool)
  | Op_connectWith (fromNode : Z) (fromPort : string) (toNode : Z) (toPort name : string)
      (policy : MediaEdgePolicy) (required : bool)
  | Op_setEdgePolicy (id : Z) (policy : MediaEdgePolicy)
  | Op_setPayloadCreditPlan (plan : MediaGraphPayloadCreditPlan)
  | Op_replacePayloadCreditPlan (plan : MediaGraphPayloadCreditPlan)
  | Op_setPayloadCreditMode (mode : MediaGraphPayloadCreditMode).

Definition runOp (op : GraphOp) (g : MediaGraph) : MediaGraph :=
  match op with
  | Op_clear => clear g
  | Op_removeNodes ids => removeNodes ids g
  | Op_addNode k n d => (addNode k n d g).1
  | Op_setNodeOption i k v => (setNodeOption i k v g).1
  | Op_setNodeOptions i o => (setNodeOptions i o g).1
  | Op_addInputPort i n s e p r m => (addInputPort i n s e p r m g).1
  | Op_addOutputPort i n s e p r m => (addOutputPort i n s e p r m g).1
  | Op_setPortFormat i d => (setPortFormatDescriptor i d g).1
  | Op_setPortTime i d => (setPortTimeDescriptor i d g).1
  | Op_setPortHardware i d => (setPortHardwareDescriptor i d g).1
  | Op_connect a b c d n r => (connect a b c d n r g).1
  | Op_connectWith a b c d n pol r => (connectWith a b c d n pol r g).1
  | Op_setEdgePolicy i pol => (setEdgePolicy i pol g).1
  | Op_setPayloadCreditPlan p => (setPayloadCreditPlan p g).1
  | Op_replacePayloadCreditPlan p => (replacePayloadCreditPlan p g).1
  | Op_setPayloadCreditMode m => (setPayloadCreditMode m g).1
  end.

Definition runOps (ops : list GraphOp) (g : MediaGraph) : MediaGraph :=
  foldl (fun g op => runOp op g) g ops.

(** ** The well-formedness invariant *)

Definition nodePorts (n : MediaNode) : list MediaPort := inputPorts n ++ outputPorts n.
Definition graphPorts (g : MediaGraph) : list MediaPort := nodes g ≫= nodePorts.

(** A port a node owns: identified, named, in the right vector. *)
Definition portOk (limit owner : Z) (dir : MediaPortDirection) (p : MediaPort) : Prop :=
  1 <= portId p < limit /\ portNodeId p = owner /\ portName p <> EmptyString /\
  direction p = dir.

Definition nodeOk (nodeLimit portLimit : Z) (n : MediaNode) : Prop :=
  1 <= nodeId n < nodeLimit /\ nodeKind n <> Node_Unknown /\ nodeName n <> EmptyString /\
  Forall (portOk portLimit (nodeId n) Dir_Input) (inputPorts n) /\
  Forall (portOk portLimit (nodeId n) Dir_Output) (outputPorts n).

(** The endpoint names an existing port of an existing node. *)
Definition endpointPort (ports : MediaNode -> list MediaPort) (e : MediaEdgeEndpoint)
    (g : MediaGraph) (p : MediaPort) : Prop :=
  exists n, n ∈ nodes g /\ nodeId n = endNodeId e /\ p ∈ ports n /\ portId p = endPortId e.

Definition edgeOk (g : MediaGraph) (e : MediaEdge) : Prop :=
  1 <= edgeId e < nextEdgeId g /\
  exists from to,
    endpointPort outputPorts (edgeFrom e) g from /\
    endpointPort inputPorts (edgeTo e) g to /\
    accepts to from = true.

Record Wf (g : MediaGraph) : Prop := mkWf {
  wf_counters : 1 <= nextNodeId g <= invalidId /\ 1 <= nextPortId g <= invalidId /\
                1 <= nextEdgeId g <= invalidId;
  wf_node_ids : NoDup (nodeId <$> nodes g);
  wf_nodes : Forall (nodeOk (nextNodeId g) (nextPortId g)) (nodes g);
  wf_port_ids : NoDup (portId <$> graphPorts g);
  wf_edge_ids : NoDup (edgeId <$> edges g);
  wf_edges : Forall (edgeOk g) (edges g);
}.

(** What the invariant reads of a port and of a node. *)
Definition portSkel (p : MediaPort) :=
  (portId p, portNodeId p, portName p, direction p,
   (portStreamKind p, portEdgeKind p, portPayloadKind p)).
Definition nodeSkel (n : MediaNode) :=
  (nodeId n, nodeKind n, nodeName n,
   (portSkel <$> inputPorts n, portSkel <$> outputPorts n)).

(** ** Lemmas: lookups in a well-formed graph *)

Lemma findNode_elem g id n : findNode id g = Some n -> n ∈ nodes g /\ nodeId n = id.
Proof.
  unfold findNode. destruct (idValid id); [| done]. intros [? ?%Z.eqb_eq]%findFirst_Some.
  done.
Qed.

Lemma findNode_wf g n : Wf g -> n ∈ nodes g -> findNode (nodeId n) g = Some n.
Proof.
  intros Hwf Hn. unfold findNode.
  assert (Hv : idValid (nodeId n) = true).
  { pose proof (wf_nodes g Hwf) as HF. rewrite Forall_forall in HF.
    specialize (HF n Hn) as (Hid & _). pose proof (wf_counters g Hwf).
    apply idValid_spec. lia. }
  rewrite Hv. apply findFirst_unique; [apply Hwf | done].
Qed.

Lemma findFirst_port_none (id : Z) ps :
  findFirst (fun p => portId p =? id) ps = None <-> id ∉ portId <$> ps.
Proof.
  rewrite findFirst_None, Forall_forall, list_elem_of_fmap. split.
  - intros H (p & -> & Hp). specialize (H p Hp). simpl in H. lia.
  - intros H p Hp. apply Z.eqb_neq. intros <-. apply H. eauto.
Qed.

Lemma findPortIn_unique ns p :
  NoDup (portId <$> (ns ≫= nodePorts)) -> p ∈ ns ≫= nodePorts ->
  findPortIn (portId p) ns = Some p.
Proof.
  induction ns as [| n ns IH]; intros Hnd Hp; [by apply not_elem_of_nil in Hp |].
  simpl in *. rewrite fmap_app in Hnd. apply NoDup_app in Hnd as (Hnd1 & Hdisj & Hnd2).
  unfold nodePorts in Hnd1. rewrite fmap_app in Hnd1.
  apply NoDup_app in Hnd1 as (Hin & Hio & Hout).
  apply elem_of_app in Hp as [Hp | Hp].
  - apply elem_of_app in Hp as [Hp | Hp].
    + by rewrite (findFirst_unique portId).
    + rewrite (proj2 (findFirst_port_none _ _)).
      * by rewrite (findFirst_unique portId).
      * intros Hx. apply (Hio _ Hx). by apply list_elem_of_fmap_2.
  - assert (Hn : portId p ∉ portId <$> nodePorts n).
    { intros Hx. apply (Hdisj _ Hx). by apply list_elem_of_fmap_2. }
    unfold nodePorts in Hn. rewrite fmap_app, not_elem_of_app in Hn.
    destruct Hn as [H1 H2].
    rewrite (proj2 (findFirst_port_none _ _) H1), (proj2 (findFirst_port_none _ _) H2).
    by apply IH.
Qed.

Lemma graphPorts_ok g p : Wf g -> p ∈ graphPorts g ->
  1 <= portId p < nextPortId g /\ exists n, n ∈ nodes g /\ p ∈ nodePorts n /\
  portNodeId p = nodeId n /\ portName p <> EmptyString.
Proof.
  intros Hwf (n & Hp & Hn)%list_elem_of_bind.
  pose proof (wf_nodes g Hwf) as HF. rewrite Forall_forall in HF.
  destruct (HF n Hn) as (_ & _ & _ & Hi & Ho). rewrite Forall_forall in Hi, Ho.
  pose proof Hp as Hp'. apply elem_of_app in Hp' as [Hp' | Hp'];
    [destruct (Hi p Hp') as (? & ? & ? & ?) | destruct (Ho p Hp') as (? & ? & ? & ?)]; eauto 10.
Qed.

Lemma findPort_wf g p : Wf g -> p ∈ graphPorts g -> findPort (portId p) g = Some p.
Proof.
  intros Hwf Hp. unfold findPort.
  destruct (graphPorts_ok g p Hwf Hp) as [Hid _]. pose proof (wf_counters g Hwf).
  rewrite (proj2 (idValid_spec _)) by lia. by apply findPortIn_unique; [apply Hwf |].
Qed.

Lemma endpointPort_in ports e g p :
  (forall n, ports n ⊆ nodePorts n) -> endpointPort ports e g p -> p ∈ graphPorts g.
Proof.
  intros Hsub (n & Hn & _ & Hp & _). apply list_elem_of_bind. exists n. split; [| done].
  by apply Hsub.
Qed.

Lemma inputPorts_sub n : inputPorts n ⊆ nodePorts n.
Proof. intros p Hp. apply elem_of_app. by left. Qed.
Lemma outputPorts_sub n : outputPorts n ⊆ nodePorts n.
Proof. intros p Hp. apply elem_of_app. by right. Qed.

(** ** Lemmas: updates that leave the skeleton alone *)

Definition edgeSkel (e : MediaEdge) := (edgeId e, edgeFrom e, edgeTo e).

(** The two graphs differ only in options, descriptors, policies and credit. *)
Definition sameSkeleton (g g' : MediaGraph) : Prop :=
  nodeSkel <$> nodes g' = nodeSkel <$> nodes g /\
  edgeSkel <$> edges g' = edgeSkel <$> edges g /\
  (nextNodeId g', nextPortId g', nextEdgeId g') = (nextNodeId g, nextPortId g, nextEdgeId g).

Lemma fmap_eq_elem {A B} (f : A -> B) (l l' : list A) x :
  f <$> l' = f <$> l -> x ∈ l -> exists x', x' ∈ l' /\ f x' = f x.
Proof.
  intros E Hx. apply (list_elem_of_fmap_2 f) in Hx. rewrite <- E in Hx.
  apply list_elem_of_fmap in Hx as (x' & ? & ?). eauto.
Qed.

Lemma fmap_factor {A B C} (f : A -> B) (h : B -> C) (k : A -> C) (l l' : list A) :
  (forall x, k x = h (f x)) -> f <$> l' = f <$> l -> k <$> l' = k <$> l.
Proof.
  intros Hk E.
  assert (forall m : list A, k <$> m = h <$> (f <$> m)) as Hm.
  { intros m. rewrite <- list_fmap_compose. by apply list_fmap_ext. }
  by rewrite !Hm, E.
Qed.

Lemma Forall_factor {A B} (f : A -> B) (P : A -> Prop) (l l' : list A) :
  (forall x y, f x = f y -> P x -> P y) -> f <$> l' = f <$> l -> Forall P l -> Forall P l'.
Proof.
  intros HP E. rewrite !Forall_forall. intros H x Hx.
  destruct (fmap_eq_elem f l' l x (eq_sym E) Hx) as (y & Hy & Ey). eauto.
Qed.

Lemma portOk_skel limit owner dir p q :
  portSkel p = portSkel q -> portOk limit owner dir p -> portOk limit owner dir q.
Proof. unfold portSkel, portOk. intros [= E1 E2 E3 E4 _ _ _]. rewrite E1, E2, E3, E4. done. Qed.

Lemma nodeOk_skel l1 l2 n m : nodeSkel n = nodeSkel m -> nodeOk l1 l2 n -> nodeOk l1 l2 m.
Proof.
  unfold nodeSkel, nodeOk. intros [= E1 E2 E3 E4 E5]. rewrite E1, E2, E3.
  intros (? & ? & ? & Hi & Ho). do 3 (split; [done |]). split;
    (eapply (Forall_factor portSkel); [| symmetry; eassumption | eassumption]);
    intros p q; apply portOk_skel.
Qed.

Lemma accepts_skel p q p' q' :
  portSkel p = portSkel p' -> portSkel q = portSkel q' -> accepts p q = accepts p' q'.
Proof.
  unfold portSkel, accepts, isInput, isOutput.
  intros [= _ _ _ E1 E2 E3 E4] [= _ _ _ F1 F2 F3 F4].
  by rewrite E1, E2, E3, E4, F1, F2, F3, F4.
Qed.

Lemma portIds_skel ns ns' :
  nodeSkel <$> ns' = nodeSkel <$> ns ->
  portId <$> (ns' ≫= nodePorts) = portId <$> (ns ≫= nodePorts).
Proof.
  revert ns'. induction ns as [| n ns IH]; intros [| n' ns']; simpl; try done.
  intros H. injection H as E1 E2 E3 E4 E5 Etl. rewrite !fmap_app. f_equal; [| by apply IH].
  unfold nodePorts. rewrite !fmap_app.
  f_equal; eapply (fmap_factor portSkel (fun s => s.1.1.1.1)); done.
Qed.

(** Ports of [ports] survive a skeleton-preserving update. *)
Lemma endpointPort_skel ports e g g' p :
  (forall n m, nodeSkel n = nodeSkel m -> portSkel <$> ports m = portSkel <$> ports n) ->
  nodeSkel <$> nodes g' = nodeSkel <$> nodes g ->
  endpointPort ports e g p ->
  exists p', endpointPort ports e g' p' /\ portSkel p' = portSkel p.
Proof.
  intros Hports E (n & Hn & Eid & Hp & Epid).
  destruct (fmap_eq_elem nodeSkel (nodes g) (nodes g') n E Hn) as (n' & Hn' & En).
  destruct (fmap_eq_elem portSkel (ports n) (ports n') p) as (p' & Hp' & Ep);
    [by apply Hports | done |].
  exists p'. split; [| done]. exists n'. repeat split; try done.
  - injection En. congruence.
  - injection Ep. congruence.
Qed.

Lemma edgeOk_skel g g' e e' :
  sameSkeleton g g' -> edgeSkel e = edgeSkel e' -> edgeOk g e -> edgeOk g' e'.
Proof.
  intros (En & _ & Ec) [= Eid Ef Et] (Hid & from & to & Hf & Ht & Hacc).
  injection Ec as _ _ Ece. unfold edgeOk. rewrite Ece, <- Eid, <- Ef, <- Et. split; [done |].
  destruct (endpointPort_skel outputPorts _ g g' from ltac:(by intros n m [= ]) En Hf)
    as (from' & Hf' & Efrom).
  destruct (endpointPort_skel inputPorts _ g g' to ltac:(by intros n m [= ]) En Ht)
    as (to' & Ht' & Eto).
  exists from', to'. repeat split; try done. by rewrite (accepts_skel _ _ to from).
Qed.

Lemma Wf_skel g g' : sameSkeleton g g' -> Wf g -> Wf g'.
Proof.
  intros HS [Hc Hn HN Hp He HE]. pose proof HS as (En & Ee & Ec).
  injection Ec as Ec1 Ec2 Ec3. constructor.
  - by rewrite Ec1, Ec2, Ec3.
  - by rewrite (fmap_factor nodeSkel (fun s => s.1.1.1) nodeId (nodes g)).
  - rewrite Ec1, Ec2. eapply (Forall_factor nodeSkel); [| exact En | exact HN].
    intros n m. apply nodeOk_skel.
  - unfold graphPorts. by rewrite (portIds_skel (nodes g)).
  - by rewrite (fmap_factor edgeSkel (fun s => s.1.1) edgeId (edges g)).
  - eapply (Forall_factor edgeSkel); [| exact Ee |].
    + intros e e' E H. eapply (edgeOk_skel g'); [| exact E | exact H]. done.
    + eapply Forall_impl; [exact HE |]. intros e. by apply (edgeOk_skel g).
Qed.

Lemma sameSkeleton_refl g : sameSkeleton g g.
Proof. done. Qed.

(** ** Lemmas: every operation preserves the invariant *)

Lemma setNodeOption_skel id key value g : sameSkeleton g (setNodeOption id key value g).1.
Proof.
  unfold setNodeOption. destruct (findNode id g); [| done]. destruct (strEmpty key); [done |].
  split; [| done]. by apply updateFirst_fmap.
Qed.

Lemma setNodeOptions_skel id o g : sameSkeleton g (setNodeOptions id o g).1.
Proof.
  unfold setNodeOptions. destruct (findNode id g); [| done].
  split; [| done]. by apply updateFirst_fmap.
Qed.

Lemma updatePortIn_skel id f ns :
  (forall p, portSkel (f p) = portSkel p) ->
  nodeSkel <$> updatePortIn id f ns = nodeSkel <$> ns.
Proof.
  intros Hf. induction ns as [| n ns IH]; simpl; [done |].
  destruct (hasPortId id (inputPorts n)); [| destruct (hasPortId id (outputPorts n))];
    rewrite !fmap_cons; f_equal; try done;
    unfold nodeSkel; simpl; by rewrite updateFirst_fmap.
Qed.

Lemma setPort_skel id f g :
  (forall p, portSkel (f p) = portSkel p) -> sameSkeleton g (setPort id f g).1.
Proof.
  intros Hf. unfold setPort. destruct (findPort id g); [| done].
  split; [| done]. by apply updatePortIn_skel.
Qed.

Lemma setEdgePolicy_skel id pol g : sameSkeleton g (setEdgePolicy id pol g).1.
Proof.
  unfold setEdgePolicy. destruct (findEdge id g); [| done].
  split; [done |]. split; [| done]. by apply updateFirst_fmap.
Qed.

Lemma credit_skel plan mode (b : bool) g :
  sameSkeleton g (if b then (g, false) else (setCredit plan mode g, true)).1.
Proof. by destruct b. Qed.

Lemma Wf_empty : Wf emptyGraph.
Proof. by constructor; simpl; try constructor. Qed.

(** Edges stay attached when nodes only gain ports and nodes are only added. *)
Definition nodesGrow (g g' : MediaGraph) : Prop :=
  forall n, n ∈ nodes g -> exists n', n' ∈ nodes g' /\ nodeId n' = nodeId n /\
    inputPorts n ⊆ inputPorts n' /\ outputPorts n ⊆ outputPorts n'.

Lemma edgeOk_grow g g' e :
  nodesGrow g g' -> nextEdgeId g <= nextEdgeId g' -> edgeOk g e -> edgeOk g' e.
Proof.
  intros Hg Hle (Hid & from & to & (nf & Hnf & ? & Hf & ?) & (nt & Hnt & ? & Ht & ?) & Hacc).
  destruct (Hg nf Hnf) as (nf' & ? & ? & _ & Ho). destruct (Hg nt Hnt) as (nt' & ? & ? & Hi & _).
  split; [lia |]. exists from, to. repeat split; try done.
  - exists nf'. repeat split; [done | congruence | by apply Ho | done].
  - exists nt'. repeat split; [done | congruence | by apply Hi | done].
Qed.

Lemma nodesGrow_sub g g' : nodes g ⊆ nodes g' -> nodesGrow g g'.
Proof. intros Hs n Hn. exists n. split; [by apply Hs | done]. Qed.

Lemma nodeOk_mono l1 l2 l1' l2' n : l1 <= l1' -> l2 <= l2' -> nodeOk l1 l2 n -> nodeOk l1' l2' n.
Proof.
  intros ? ? (? & ? & ? & Hi & Ho). split; [lia |]. do 2 (split; [done |]).
  split; (eapply Forall_impl; [eassumption |]); intros p (? & ? & ? & ?);
    (split; [lia | done]).
Qed.

Lemma fresh_key {A} (k : A -> Z) (l : list A) limit :
  Forall (fun x => k x < limit) l -> limit ∉ k <$> l.
Proof.
  rewrite Forall_forall. intros H (x & E & Hx)%list_elem_of_fmap.
  specialize (H x Hx). simpl in H. lia.
Qed.

Lemma u32_succ z : 1 <= z < invalidId -> u32 (z + 1) = z + 1.
Proof. unfold u32, invalidId, uint32_max. intros. apply Z.mod_small. lia. Qed.

Lemma Wf_addNode kind name diag g :
  nextNodeId g < invalidId -> Wf g -> Wf (addNode kind name diag g).1.
Proof.
  intros Hlt Hwf. pose proof Hwf as [Hc Hn HN Hp He HE]. unfold addNode.
  destruct (bool_decide (kind = Node_Unknown)) eqn:Hk; [done |].
  destruct (strEmpty name) eqn:Hs; [done |]. simpl.
  apply bool_decide_eq_false in Hk.
  constructor; simpl; rewrite ?u32_succ by lia.
  - lia.
  - apply NoDup_snoc_fmap; [done |]. apply fresh_key.
    eapply Forall_impl; [exact HN |]. intros n (? & _). simpl. lia.
  - apply Forall_app. split.
    + eapply Forall_impl; [exact HN |]. intros n. apply nodeOk_mono; lia.
    + constructor; [| done]. split; [simpl; lia |].
      repeat split; try done; try constructor. simpl. by destruct name.
  - unfold graphPorts. simpl. rewrite bind_app. simpl. by rewrite app_nil_r.
  - done.
  - eapply Forall_impl; [exact HE |]. intros e. apply edgeOk_grow; [| simpl; lia].
    apply nodesGrow_sub. simpl. set_solver.
Qed.

Lemma Wf_removeNodes ids g : Wf g -> Wf (removeNodes ids g).
Proof.
  intros [Hc Hn HN Hp He HE]. unfold removeNodes.
  set (sel := fun id => existsb (fun x => x =? id) ids).
  set (fn := fun n => negb (sel (nodeId n))).
  pose proof (filter_sublist fn (nodes g)) as Hsn.
  constructor; simpl; try done.
  - eapply sublist_NoDup; [exact Hn |]. by apply fmap_sublist.
  - rewrite Forall_forall in *. intros n Hin. apply HN.
    apply list_elem_of_In, filter_In in Hin as [Hin _]. by apply list_elem_of_In.
  - eapply sublist_NoDup; [exact Hp |]. apply fmap_sublist. by apply bind_sublist.
  - eapply sublist_NoDup; [exact He |]. apply fmap_sublist. apply filter_sublist.
  - rewrite Forall_forall in *. intros e Hin.
    apply list_elem_of_In, filter_In in Hin as [Hin Hsel]. apply list_elem_of_In in Hin.
    apply negb_true_iff, orb_false_iff in Hsel as [Hsf Hst].
    destruct (HE e Hin) as (Hid & from & to & (nf & Hnf & Ef & Hf & Epf) & (nt & Hnt & Et & Ht & Ept) & Hacc).
    assert (Hkeep : forall n, n ∈ nodes g -> sel (nodeId n) = false ->
                    n ∈ List.filter fn (nodes g)).
    { intros n Hin' Hs. apply list_elem_of_In, filter_In. split; [by apply list_elem_of_In |].
      unfold fn. by rewrite Hs. }
    split; [done |]. exists from, to. split; [| split; [| done]].
    + exists nf. repeat split; try done. apply Hkeep; [done |]. by rewrite Ef.
    + exists nt. repeat split; try done. apply Hkeep; [done |]. by rewrite Et.
Qed.

Lemma Wf_connectWith a b c d name pol req g :
  nextEdgeId g < invalidId -> Wf g -> Wf (connectWith a b c d name pol req g).1.
Proof.
  intros Hlt Hwf. pose proof Hwf as [Hc Hn HN Hp He HE]. unfold connectWith.
  destruct (findOutputPort a b g) as [from |] eqn:Hf; [| done].
  destruct (findInputPort c d g) as [to |] eqn:Ht; [| done].
  destruct (accepts to from) eqn:Hacc; [simpl | done].
  unfold findOutputPort, findInputPort in *.
  destruct (findNode a g) as [na |] eqn:Hna; [| done].
  destruct (findNode c g) as [nc |] eqn:Hnc; [| done].
  apply findNode_elem in Hna as [Hna Ea]. apply findNode_elem in Hnc as [Hnc Ec].
  apply findFirst_Some in Hf as [Hf _]. apply findFirst_Some in Ht as [Ht _].
  constructor; simpl; rewrite ?u32_succ by lia; try done.
  - lia.
  - apply NoDup_snoc_fmap; [done |]. apply fresh_key.
    eapply Forall_impl; [exact HE |]. intros e (? & _). simpl. lia.
  - apply Forall_app. split.
    + eapply Forall_impl; [exact HE |]. intros e. apply edgeOk_grow;
        [by apply nodesGrow_sub | simpl; lia].
    + constructor; [| done]. split; simpl; [lia |].
      exists from, to. split; [by exists na |]. split; [by exists nc | done].
Qed.

(** A node found by its identifier splits the node vector. *)
Lemma findNode_split id g n :
  findNode id g = Some n ->
  exists l1 l2, nodes g = l1 ++ n :: l2 /\ nodeId n = id /\
    forall f, nodes (updateNode id f g) = l1 ++ f n :: l2.
Proof.
  intros Hf. destruct (findNode_elem g id n Hf) as [_ Hid].
  unfold findNode in Hf. destruct (idValid id); [| done]. unfold updateNode. simpl.
  revert Hf. induction (nodes g) as [| m ns IH]; simpl; [done |].
  destruct (nodeId m =? id); intros H.
  - simplify_eq. by exists [], ns.
  - destruct (IH H) as (l1 & l2 & -> & _ & Hu). exists (m :: l1), l2.
    split; [done |]. split; [done |]. intros f. by rewrite Hu.
Qed.

(** [n'] is [n] with [port] appended to the vector of its direction. *)
Definition gainsPort (n n' : MediaNode) (port : MediaPort) : Prop :=
  nodeId n' = nodeId n /\ nodeKind n' = nodeKind n /\ nodeName n' = nodeName n /\
  (direction port = Dir_Input /\ inputPorts n' = inputPorts n ++ [port] /\
     outputPorts n' = outputPorts n \/
   direction port = Dir_Output /\ inputPorts n' = inputPorts n /\
     outputPorts n' = outputPorts n ++ [port]).

Lemma gainsPort_ok l1 l2 n n' port :
  gainsPort n n' port -> portOk (l2 + 1) (nodeId n) (direction port) port ->
  nodeOk l1 l2 n -> nodeOk l1 (l2 + 1) n'.
Proof.
  intros (E1 & E2 & E3 & Hd) Hport Hok.
  apply (nodeOk_mono l1 l2 l1 (l2 + 1)) in Hok as (? & ? & ? & Hi & Ho); [| lia..].
  unfold nodeOk. rewrite E1, E2, E3. do 3 (split; [done |]).
  destruct Hd as [(Ed & -> & ->) | (Ed & -> & ->)]; rewrite Ed in Hport;
    split; try apply Forall_app; auto.
Qed.

Lemma gainsPort_perm n n' port :
  gainsPort n n' port -> nodePorts n' ≡ₚ port :: nodePorts n.
Proof.
  intros (_ & _ & _ & [(_ & Hi & Ho) | (_ & Hi & Ho)]); unfold nodePorts; rewrite Hi, Ho.
  - rewrite <- app_assoc. simpl. by rewrite <- Permutation_middle.
  - rewrite app_assoc. apply Permutation_sym, Permutation_cons_append.
Qed.

Lemma gainsPort_sub n n' port :
  gainsPort n n' port -> inputPorts n ⊆ inputPorts n' /\ outputPorts n ⊆ outputPorts n'.
Proof.
  intros (_ & _ & _ & [(_ & -> & ->) | (_ & -> & ->)]); set_solver.
Qed.

Lemma Wf_gainPort g g' l1 l2 n n' port :
  nodes g = l1 ++ n :: l2 -> nodes g' = l1 ++ n' :: l2 -> edges g' = edges g ->
  nextNodeId g' = nextNodeId g -> nextPortId g' = nextPortId g + 1 ->
  nextEdgeId g' = nextEdgeId g ->
  gainsPort n n' port -> portId port = nextPortId g ->
  portOk (nextPortId g + 1) (nodeId n) (direction port) port ->
  nextPortId g < invalidId -> Wf g -> Wf g'.
Proof.
  intros En En' Ee C1 C2 C3 Hgain Hpid Hport Hlt Hwf.
  pose proof Hwf as [Hc Hn HN Hp He HE].
  assert (Hfresh : nextPortId g ∉ portId <$> graphPorts g).
  { apply fresh_key. apply Forall_forall. intros p Hin.
    destruct (graphPorts_ok g p Hwf Hin) as [? _]. simpl. lia. }
  constructor.
  - rewrite C1, C2, C3. lia.
  - rewrite En' , fmap_app, fmap_cons. destruct Hgain as (E & _).
    rewrite E. by rewrite En, fmap_app, fmap_cons in Hn.
  - rewrite En', C1, C2. rewrite En in HN. apply Forall_app in HN as [HN1 HN2].
    apply Forall_cons in HN2 as [Hok HN2]. apply Forall_app. split; [| constructor].
    + eapply Forall_impl; [exact HN1 |]. intros m. apply nodeOk_mono; lia.
    + by eapply gainsPort_ok.
    + eapply Forall_impl; [exact HN2 |]. intros m. apply nodeOk_mono; lia.
  - assert (Hperm : graphPorts g' ≡ₚ port :: graphPorts g).
    { unfold graphPorts. rewrite En, En', !bind_app. simpl.
      rewrite (gainsPort_perm _ _ _ Hgain). simpl. by rewrite <- Permutation_middle. }
    rewrite Hperm, fmap_cons, Hpid. by constructor.
  - by rewrite Ee.
  - rewrite Ee. eapply Forall_impl; [exact HE |]. intros e. apply edgeOk_grow; [| lia].
    intros m Hm. rewrite En in Hm. rewrite En'.
    apply elem_of_app in Hm as [Hm | Hm].
    + exists m. split; [| done]. apply elem_of_app. by left.
    + apply elem_of_cons in Hm as [-> | Hm].
      * exists n'. destruct (gainsPort_sub _ _ _ Hgain), Hgain as (? & _). set_solver.
      * exists m. split; [| done]. apply elem_of_app. right. by right.
Qed.

Lemma Wf_addPort id name dir stream edge payload req mult g :
  nextPortId g < invalidId -> Wf g ->
  Wf (addPort id name dir stream edge payload req mult g).1.
Proof.
  intros Hlt Hwf. pose proof (wf_counters g Hwf) as Hc. unfold addPort.
  destruct (idValid id); [| done]. destruct (strEmpty name) eqn:Hs; [done |].
  destruct (bool_decide (dir = Dir_Unknown)) eqn:Hd; [done |].
  apply bool_decide_eq_false in Hd. simpl.
  destruct (findNode id g) as [n |] eqn:Hf; [| done].
  destruct (findNode_split id g n Hf) as (l1 & l2 & E & Hid & Hu).
  set (port := mkPort (nextPortId g) id name dir stream edge payload _ _ _ req mult).
  eapply (Wf_gainPort g _ l1 l2 n _ port); try exact Hwf; try exact E; simpl; try done.
  - apply Hu.
  - apply u32_succ. lia.
  - unfold gainsPort. destruct dir; [done | |]; simpl; auto 10.
  - unfold portOk, port. simpl. split; [lia |]. split; [done |]. split; [by destruct name | done].
Qed.

Definition countersAtMost (k : Z) (g : MediaGraph) : Prop :=
  nextNodeId g <= k /\ nextPortId g <= k /\ nextEdgeId g <= k.

Lemma sameSkeleton_counters g g' k :
  sameSkeleton g g' -> countersAtMost k g -> countersAtMost (k + 1) g'.
Proof.
  intros (_ & _ & Ec) (? & ? & ?). injection Ec as ? ? ?. unfold countersAtMost. lia.
Qed.

Create HintDb graph_skel.
#[export] Hint Resolve setNodeOption_skel setNodeOptions_skel setEdgePolicy_skel : graph_skel.
#[export] Hint Extern 1 (sameSkeleton _ _) =>
  first [ unfold setPortFormatDescriptor | unfold setPortTimeDescriptor
        | unfold setPortHardwareDescriptor ]; by apply setPort_skel : graph_skel.
#[export] Hint Extern 1 (sameSkeleton _ _) =>
  first [ unfold setPayloadCreditPlan | unfold replacePayloadCreditPlan
        | unfold setPayloadCreditMode ]; apply credit_skel : graph_skel.

(** An operation is either skeleton-preserving or one of the four that change
    the shape of the graph. *)
Lemma runOp_wf op g k :
  1 <= k < invalidId -> countersAtMost k g -> Wf g ->
  Wf (runOp op g) /\ countersAtMost (k + 1) (runOp op g).
Proof.
  intros Hk Hcount Hwf. pose proof Hcount as (K1 & K2 & K3).
  pose proof (wf_counters g Hwf) as Hc.
  assert (Hskel : forall g', sameSkeleton g g' -> Wf g' /\ countersAtMost (k + 1) g').
  { intros g' HS. split; [by eapply Wf_skel | by eapply sameSkeleton_counters]. }
  assert (Hport : forall i n dr s e p r m,
    Wf (addPort i n dr s e p r m g).1 /\ countersAtMost (k + 1) (addPort i n dr s e p r m g).1).
  { intros. split; [apply Wf_addPort; [lia | done] |]. unfold addPort, countersAtMost.
    destruct (_ || _); [simpl; lia |]. destruct (findNode i g); simpl; [rewrite u32_succ; lia | lia]. }
  assert (Hconn : forall a b c d n pol r,
    Wf (connectWith a b c d n pol r g).1 /\ countersAtMost (k + 1) (connectWith a b c d n pol r g).1).
  { intros. split; [apply Wf_connectWith; [lia | done] |]. unfold connectWith, countersAtMost.
    destruct (findOutputPort a b g), (findInputPort c d g); simpl; try lia.
    destruct (negb _); simpl; [lia | rewrite u32_succ; lia]. }
  destruct op; simpl; try apply Hport; try apply Hconn; try (apply Hskel; by eauto with graph_skel).
  - split; [apply Wf_empty | unfold countersAtMost; simpl; lia].
  - split; [by apply Wf_removeNodes | unfold countersAtMost; simpl; lia].
  - split; [apply Wf_addNode; [lia | done] |]. unfold addNode, countersAtMost.
    destruct (_ || _); simpl; [lia | rewrite u32_succ; lia].
Qed.

Lemma runOps_wf ops g k :
  1 <= k -> k + Z.of_nat (length ops) <= invalidId -> countersAtMost k g -> Wf g ->
  Wf (runOps ops g).
Proof.
  revert g k. induction ops as [| op ops IH]; intros g k Hk Hlen Hc Hwf; [done |].
  simpl in *. destruct (runOp_wf op g k) as [Hwf' Hc']; [lia | done | done |].
  apply (IH _ (k + 1)); [lia | lia | done | done].
Qed.

(** ** Properties *)

(** C37: every graph that fewer than 2^32 - 2 calls of the public interface
    build is well formed: identifiers are unique and valid, every port belongs
    to its node and sits in the vector of its direction, and every edge
    connects an existing output port to an existing input port that accepts
    it. *)
Theorem runOps_preserve_wf ops :
  Z.of_nat (length ops) < invalidId -> Wf (runOps ops emptyGraph).
Proof.
  intros Hlen. apply (runOps_wf ops emptyGraph 1); [lia | lia | | apply Wf_empty].
  unfold countersAtMost. simpl. lia.
Qed.

(** Two nodes, one edge, then the first node removed. *)
Definition demoOps : list GraphOp :=
  [Op_addNode Node_FileInput "in" ""; Op_addNode Node_FileOutput "out" "";
   Op_addOutputPort 1 "p" Stream_Video Edge_InputPacket Payload_Packet true false;
   Op_addInputPort 2 "q" Stream_Any Edge_Unknown Payload_Unknown true false;
   Op_connect 1 "p" 2 "q" "e" true].

Lemma runOps_preserve_wf_witness :
  Wf (runOps demoOps emptyGraph) /\ length (edges (runOps demoOps emptyGraph)) = 1%nat.
Proof.
  split; [apply (runOps_preserve_wf demoOps); vm_compute; reflexivity | vm_compute; reflexivity].
Defined.

(** A stored plan comes with the realtime mode. *)
Definition creditOk (g : MediaGraph) : Prop :=
  is_Some (payloadCreditPlan g) -> payloadCreditMode g = Some CreditMode_RealtimeRequired.

Lemma runOp_creditOk op g : creditOk g -> creditOk (runOp op g).
Proof.
  unfold creditOk. intros Hg.
  destruct op; simpl; unfold addNode, setNodeOption, setNodeOptions, addInputPort,
    addOutputPort, addPort, setPortFormatDescriptor, setPortTimeDescriptor,
    setPortHardwareDescriptor, setPort, connect, connectWith, setEdgePolicy,
    setPayloadCreditPlan, replacePayloadCreditPlan, setPayloadCreditMode;
    repeat case_match; simpl; try done;
    try (intros Hp; specialize (Hg Hp); congruence).
  - rewrite fmap_is_Some. done.
  - intros _. apply orb_false_iff in H as [H _]. apply orb_false_iff in H as [H _].
    by apply negb_false_iff, bool_decide_eq_true in H.
  - intros Hp. exfalso. apply orb_false_iff in H as [H _]. apply bool_decide_eq_false in H.
    rewrite Hg in H by done. destruct H. eauto.
Qed.

(** a credit plan is stored only in the realtime mode: whatever sequence of
    calls built the graph, a present plan implies
    [MediaGraphPayloadCreditMode::RealtimeRequired]. *)
Theorem credit_plan_implies_realtime ops plan :
  payloadCreditPlan (runOps ops emptyGraph) = Some plan ->
  payloadCreditMode (runOps ops emptyGraph) = Some CreditMode_RealtimeRequired.
Proof.
  intros Hp.
  enough (Hinv : forall g, creditOk g -> creditOk (runOps ops g)).
  { apply Hinv; [by intros [? ?] | by rewrite Hp]. }
  clear. induction ops as [| op ops IH]; intros g Hg; [done |].
  apply IH. by apply runOp_creditOk.
Qed.

Definition demoPlan : MediaGraphPayloadCreditPlan :=
  mkCreditPlan 1000 10 100 1 Integration_Incomplete "planner" []
    [mkProducerRequirement 1 Stream_Video Payload_Packet "decoder"].

Lemma credit_plan_implies_realtime_witness :
  payloadCreditMode (runOps [Op_setPayloadCreditPlan demoPlan;
                             Op_setPayloadCreditMode CreditMode_NonRealtimeNotApplicable]
                       emptyGraph) = Some CreditMode_RealtimeRequired.
Proof. apply (credit_plan_implies_realtime _ demoPlan). vm_compute. reflexivity. Defined.

(** [connect] creates an edge exactly when both named ports exist and the
    input port accepts the output port; otherwise it returns the invalid
    identifier and leaves the graph untouched.  A created edge is found under
    the returned identifier, with the policy given. *)
Theorem connectWith_spec a b c d name pol req g :
  Wf g -> nextEdgeId g < invalidId ->
  let (g', id) := connectWith a b c d name pol req g in
  match findOutputPort a b g, findInputPort c d g with
  | Some from, Some to =>
      if accepts to from
      then exists e, findEdge id g' = Some e /\ findEdge id g = None /\
             edgeFrom e = mkEndpoint a (portId from) /\
             edgeTo e = mkEndpoint c (portId to) /\ edgePolicy e = pol /\
             edges g' = edges g ++ [e]
      else g' = g /\ id = invalidId
  | _, _ => g' = g /\ id = invalidId
  end.
Proof.
  intros Hwf Hlt. pose proof (Wf_connectWith a b c d name pol req g Hlt Hwf) as Hwf'.
  pose proof (wf_counters g Hwf) as Hc. unfold connectWith in *.
  destruct (findOutputPort a b g) as [from |]; [| done].
  destruct (findInputPort c d g) as [to |]; [| done].
  destruct (accepts to from); [| done]. simpl in *.
  set (e := mkEdge _ _ _ _ _ _ _ _ _ _ _ _) in *. exists e.
  assert (Hv : idValid (nextEdgeId g) = true) by (apply idValid_spec; lia).
  unfold findEdge. rewrite Hv. simpl. repeat split.
  - apply (findFirst_unique edgeId _ e); [apply Hwf' | set_solver].
  - apply findFirst_None. eapply Forall_impl; [apply Hwf |].
    intros e' (? & _). apply Z.eqb_neq. lia.
Qed.

Lemma connectWith_spec_witness :
  let g := runOps (take 4 demoOps) emptyGraph in
  exists e, findEdge 1 (connectWith 1 "p" 2 "q" "e" defaultEdgePolicy true g).1 = Some e /\
    edgeFrom e = mkEndpoint 1 1 /\ edgeTo e = mkEndpoint 2 2.
Proof.
  intros g.
  assert (Hwf : Wf g) by (apply (runOps_wf (take 4 demoOps) emptyGraph 1);
    [lia | vm_compute; discriminate | unfold countersAtMost; simpl; lia | apply Wf_empty]).
  pose proof (connectWith_spec 1 "p" 2 "q" "e" defaultEdgePolicy true g Hwf
                ltac:(vm_compute; reflexivity)) as H.
  vm_compute in H. destruct H as (e & H1 & _ & H2 & H3 & _).
  exists e. split; [exact H1 | split; [exact H2 | exact H3]].
Defined.

(** [removeNodes] removes exactly the selected nodes and every edge that
    touches one of them, keeps all others, and leaves no edge dangling. *)
Theorem removeNodes_spec ids g :
  Wf g ->
  let g' := removeNodes ids g in
  (forall n, n ∈ nodes g' <-> n ∈ nodes g /\ nodeId n ∉ ids) /\
  (forall e, e ∈ edges g' <-> e ∈ edges g /\ endNodeId (edgeFrom e) ∉ ids /\
                              endNodeId (edgeTo e) ∉ ids) /\
  Wf g'.
Proof.
  intros Hwf. cbv zeta.
  assert (Hsel : forall id, existsb (fun x => x =? id) ids = false <-> id ∉ ids).
  { intros id. rewrite <- not_true_iff_false, existsb_exists.
    setoid_rewrite Z.eqb_eq. setoid_rewrite <- list_elem_of_In. naive_solver. }
  split; [| split; [| by apply Wf_removeNodes]].
  - intros n. unfold removeNodes. simpl.
    rewrite list_elem_of_In, filter_In, negb_true_iff, Hsel, <- list_elem_of_In. done.
  - intros e. unfold removeNodes. simpl.
    rewrite list_elem_of_In, filter_In, negb_true_iff, orb_false_iff, !Hsel,
      <- list_elem_of_In. done.
Qed.

Lemma removeNodes_spec_witness :
  let g := runOps demoOps emptyGraph in
  Wf (removeNodes [1] g) /\ edges (removeNodes [1] g) = [].
Proof.
  intros g.
  assert (Hwf : Wf g) by (apply (runOps_wf demoOps emptyGraph 1);
    [lia | vm_compute; discriminate | unfold countersAtMost; simpl; lia | apply Wf_empty]).
  pose proof (removeNodes_spec [1] g Hwf) as (_ & _ & H).
  split; [exact H | vm_compute; reflexivity].
Defined.

End MediaGraph.
