(* ===== verification/Topology.v ===== *)
(** * Topological order of a media graph

    Models [src/internal/graph/core/MediaGraphTopology.{h,cpp}]: Kahn's
    algorithm over the node identifiers, with the level (longest distance from
    a source) of every node.  The [std::unordered_map]s are [gmap]s, the
    [std::deque] a list.  The properties say that [build] succeeds exactly on
    acyclic graphs, that its order lists every node once with every edge going
    forward, and that its levels are longest path lengths. *)

From stdpp Require Import gmap.
From S2P Require Import Prelude MediaResult Model Graph.
Import MediaGraph.

Local Open Scope Z_scope.

Module MediaGraphTopology.

Record MediaGraphTopologyResult := mkTopology {
  order : list Z;
  sources : list Z;
  sinks : list Z;
  levels : list (list Z);
}.

Record TopologyState := mkState {
  indegree : gmap Z Z;
  outdegree : gmap Z Z;
  adjacency : gmap Z (list Z);
  ids : gmap Z Z;
}.

(** The first loop of [buildState]. *)
Definition addNodeKey (st : TopologyState) (n : MediaNode) : TopologyState :=
  if negb (idValid (nodeId n)) then st
  else
    let key := nodeId n in
    mkState (<[key := 0]> (indegree st)) (<[key := 0]> (outdegree st))
      (adjacency st) (<[key := nodeId n]> (ids st)).

(** The second loop of [buildState]; [operator[]] creates missing entries. *)
Definition addEdgeArc (st : TopologyState) (e : MediaEdge) : TopologyState :=
  if negb (Edge_isValid e) then st
  else
    let from := endNodeId (edgeFrom e) in
    let to := endNodeId (edgeTo e) in
    match ids st !! from, ids st !! to with
    | Some _, Some _ =>
        mkState
          (<[to := default 0 (indegree st !! to) + 1]> (indegree st))
          (<[from := default 0 (outdegree st !! from) + 1]> (outdegree st))
          (<[from := default [] (adjacency st !! from) ++ [to]]> (adjacency st))
          (ids st)
    | _, _ => st
    end.

Definition buildState (g : MediaGraph) : TopologyState :=
  foldl addEdgeArc (foldl addNodeKey (mkState ∅ ∅ ∅ ∅) (nodes g)) (edges g).

(** [pushInitialSources] and [appendSinks]: the valid nodes whose degree entry
    is zero, in node order.  The keys pushed to [ready] and to
    [result.sources] are the same. *)
Definition zeroDegree (degree : gmap Z Z) (g : MediaGraph) : list Z :=
  List.filter
    (fun id => idValid id && match degree !! id with Some d => d =? 0 | None => false end)
    (nodeId <$> nodes g).

Definition pushInitialSources (g : MediaGraph) (st : TopologyState) : list Z :=
  zeroDegree (indegree st) g.
Definition appendSinks (g : MediaGraph) (st : TopologyState) : list Z :=
  zeroDegree (outdegree st) g.

(** State of the main loop. *)
Record LoopState := mkLoop {
  remaining : gmap Z Z;
  nodeLevels : gmap Z Z;
  ready : list Z;
  visited : list Z;
}.

(** Body of [for (NodeKey next : adjacencyIt->second)]. *)
Definition relax (current : Z) (ls : LoopState) (next : Z) : LoopState :=
  match remaining ls !! next with
  | None => ls
  | Some d =>
      let level := Z.max (default 0 (nodeLevels ls !! next))
                         (default 0 (nodeLevels ls !! current) + 1) in
      mkLoop (<[next := d - 1]> (remaining ls)) (<[next := level]> (nodeLevels ls))
        (if d - 1 =? 0 then ready ls ++ [next] else ready ls) (visited ls)
  end.

(** Body of [while (!ready.empty())]. *)
Definition visit (st : TopologyState) (ls : LoopState) (current : Z) (rest : list Z) : LoopState :=
  let ls := mkLoop (remaining ls) (nodeLevels ls) rest (visited ls) in
  match ids st !! current with
  | None => ls
  | Some id =>
      let ls := mkLoop (remaining ls) (nodeLevels ls) (ready ls) (visited ls ++ [id]) in
      match adjacency st !! current with
      | None => ls
      | Some nexts => foldl (relax current) ls nexts
      end
  end.

Fixpoint drain (fuel : nat) (st : TopologyState) (ls : LoopState) : LoopState :=
  match fuel with
  | O => ls
  | S fuel' =>
      match ready ls with
      | [] => ls
      | current :: rest => drain fuel' st (visit st ls current rest)
      end
  end.

(** Every key enters [ready] once as a source and at most once more when its
    in-degree reaches zero, so this many iterations empty it
    (see [drain_terminates]). *)
Definition drainFuel (g : MediaGraph) : nat := 2 * length (nodes g).

(** [appendLevels]. *)
Definition maxLevel (nodeLevels : gmap Z Z) : Z :=
  map_fold (fun _ level m => Z.max m level) 0 nodeLevels.

Definition appendLevels (nodeLevels : gmap Z Z) (order : list Z) : list (list Z) :=
  foldl (fun acc id =>
           match nodeLevels !! id with
           | None => acc
           | Some level => alter (fun l => l ++ [id]) (Z.to_nat level) acc
           end)
    (replicate (Z.to_nat (maxLevel nodeLevels + 1)) []) order.

Definition initialLoop (g : MediaGraph) (st : TopologyState) : LoopState :=
  mkLoop (indegree st) ((fun _ => 0) <$> ids st) (pushInitialSources g st) [].

Definition build (g : MediaGraph) : Result MediaGraphTopologyResult :=
  let st := buildState g in
  let ls := drain (drainFuel g) st (initialLoop g st) in
  if negb (Nat.eqb (length (visited ls)) (size (ids st)))
  then failure (invalidArgument "MediaGraphTopology build failed: graph is cyclic")
  else Success (mkTopology (visited ls) (pushInitialSources g st) (appendSinks g st)
                  (appendLevels (nodeLevels ls) (visited ls))).

(** ** Specification *)

(** The vertices and the arcs of the graph the algorithm sees. *)
Definition keys (g : MediaGraph) : list Z := List.filter idValid (nodeId <$> nodes g).

Definition edgeArc (ks : list Z) (e : MediaEdge) : option (Z * Z) :=
  if Edge_isValid e && bool_decide (endNodeId (edgeFrom e) ∈ ks) &&
     bool_decide (endNodeId (edgeTo e) ∈ ks)
  then Some (endNodeId (edgeFrom e), endNodeId (edgeTo e)) else None.

Definition arcs (g : MediaGraph) : list (Z * Z) := omap (edgeArc (keys g)) (edges g).

Definition arc (g : MediaGraph) (a b : Z) : Prop := (a, b) ∈ arcs g.

Definition acyclic (g : MediaGraph) : Prop := forall x, ~ tc (arc g) x x.

(** The longest path that ends in [k] has [n] arcs. *)
Definition longestTo (g : MediaGraph) (k : Z) (n : nat) : Prop :=
  (exists x, nsteps (arc g) n x k) /\ (forall m x, nsteps (arc g) m x k -> (m <= n)%nat).

(** [a] stands before [b] in [l]. *)
Definition before (a b : Z) (l : list Z) : Prop :=
  exists l1 l2 l3, l = l1 ++ a :: l2 ++ b :: l3.

(** Arcs into [k] from nodes not listed in [ord]; occurrences of [k]. *)
Definition missing (A : list (Z * Z)) (ord : list Z) (k : Z) : nat :=
  length (filter (fun p => p.2 = k /\ p.1 ∉ ord) A).
Definition occurrences (k : Z) (l : list Z) : nat := length (filter (fun x => x = k) l).
Definition targets (A : list (Z * Z)) (k : Z) : list Z :=
  (filter (fun p => p.1 = k) A).*2.

(** ** Lemmas: what [buildState] computes *)

Lemma ids_nodes ns k :
  let st := foldl addNodeKey (mkState ∅ ∅ ∅ ∅) ns in
  let ks := List.filter idValid (nodeId <$> ns) in
  ids st !! k = (if decide (k ∈ ks) then Some k else None) /\
  indegree st !! k = (if decide (k ∈ ks) then Some 0 else None) /\
  outdegree st !! k = (if decide (k ∈ ks) then Some 0 else None) /\
  adjacency st = ∅.
Proof.
  induction ns as [| n ns IH] using rev_ind.
  { simpl. by rewrite !lookup_empty. }
  cbv zeta in *. rewrite foldl_snoc, fmap_app, List.filter_app. simpl.
  revert IH. generalize (foldl addNodeKey (mkState ∅ ∅ ∅ ∅) ns). intros st (I1 & I2 & I3 & I4).
  unfold addNodeKey. destruct (idValid (nodeId n)); simpl; [| by rewrite app_nil_r].
  rewrite I4, !lookup_insert, I1, I2, I3.
  repeat split; repeat case_decide; set_solver.
Qed.

Lemma missing_snoc_arc A p k :
  missing (A ++ [p]) [] k = (missing A [] k + if decide (p.2 = k) then 1 else 0)%nat.
Proof.
  unfold missing. rewrite filter_app, length_app, filter_cons, filter_nil.
  repeat case_decide; simpl; set_solver.
Qed.

Lemma targets_snoc A p k :
  targets (A ++ [p]) k = targets A k ++ (if decide (p.1 = k) then [p.2] else []).
Proof.
  unfold targets. rewrite filter_app, fmap_app, filter_cons, filter_nil.
  by case_decide.
Qed.

(** Invariant of the edge loop. *)
Definition stateSpec (ks : list Z) (A : list (Z * Z)) (st : TopologyState) : Prop :=
  (forall k, ids st !! k = if decide (k ∈ ks) then Some k else None) /\
  (forall k, indegree st !! k =
     if decide (k ∈ ks) then Some (Z.of_nat (missing A [] k)) else None) /\
  (forall k, outdegree st !! k =
     if decide (k ∈ ks) then Some (Z.of_nat (length (targets A k))) else None) /\
  (forall k, default [] (adjacency st !! k) = targets A k).

Lemma addEdgeArc_spec ks A st e :
  stateSpec ks A st ->
  stateSpec ks (A ++ omap (edgeArc ks) [e]) (addEdgeArc st e).
Proof.
  intros (S1 & S2 & S3 & S4). simpl. unfold edgeArc, addEdgeArc.
  set (a := endNodeId (edgeFrom e)). set (b := endNodeId (edgeTo e)).
  destruct (Edge_isValid e); simpl; [| by rewrite app_nil_r].
  rewrite (S1 a), (S1 b).
  destruct (decide (a ∈ ks)) as [Ha | Ha];
    [| rewrite (bool_decide_eq_false_2 (a ∈ ks)) by done; simpl; by rewrite app_nil_r].
  destruct (decide (b ∈ ks)) as [Hb | Hb];
    [| rewrite (bool_decide_eq_false_2 (b ∈ ks)), andb_false_r by done; simpl;
       by rewrite app_nil_r].
  rewrite !bool_decide_eq_true_2 by done. simpl.
  split; [done |]. rewrite S4, (S2 b), (S3 a), !decide_True by done. simpl.
  split; [| split].
  - intros k. rewrite lookup_insert, missing_snoc_arc. simpl.
    destruct (decide (b = k)) as [<- |].
    + rewrite decide_True by done. f_equal. lia.
    + rewrite S2. destruct (decide (k ∈ ks)); [f_equal; lia | done].
  - intros k. rewrite lookup_insert, targets_snoc, length_app. simpl.
    destruct (decide (a = k)) as [<- |]; simpl.
    + rewrite decide_True by done. f_equal. lia.
    + rewrite S3. destruct (decide (k ∈ ks)); [f_equal; lia | done].
  - intros k. rewrite lookup_insert, targets_snoc. simpl.
    destruct (decide (a = k)) as [<- |]; [done |]. by rewrite app_nil_r.
Qed.

Lemma buildState_spec g : stateSpec (keys g) (arcs g) (buildState g).
Proof.
  unfold buildState, arcs, keys.
  set (ks := List.filter idValid (nodeId <$> nodes g)).
  set (st0 := foldl addNodeKey _ (nodes g)).
  assert (H0 : stateSpec ks [] st0).
  { pose proof (ids_nodes (nodes g)) as Hn. fold ks st0 in Hn.
    split; [apply Hn |]. split; [apply Hn |]. split; [apply Hn |].
    intros k. destruct (Hn k) as (_ & _ & _ & ->). by rewrite lookup_empty. }
  assert (Hfold : forall es A st, stateSpec ks A st ->
            stateSpec ks (A ++ omap (edgeArc ks) es) (foldl addEdgeArc st es)).
  { induction es as [| e es IH]; intros A st HA; simpl; [by rewrite app_nil_r |].
    replace (A ++ _) with ((A ++ omap (edgeArc ks) [e]) ++ omap (edgeArc ks) es).
    - by apply IH, addEdgeArc_spec.
    - simpl. destruct (edgeArc ks e); simpl; by rewrite <- ?app_assoc, ?app_nil_r. }
  apply (Hfold _ [] st0 H0).
Qed.

Lemma arcs_keys g a b : (a, b) ∈ arcs g -> a ∈ keys g /\ b ∈ keys g.
Proof.
  unfold arcs. intros (e & _ & He)%list_elem_of_omap. unfold edgeArc in He.
  destruct (_ && _) eqn:E in He; [| done]. simplify_eq.
  apply andb_true_iff in E as [[_ E1]%andb_true_iff E2].
  by apply bool_decide_eq_true in E1, E2.
Qed.

(** ** Lemmas: counting *)

Lemma occurrences_cons k x l :
  occurrences k (x :: l) = ((if decide (x = k) then 1 else 0) + occurrences k l)%nat.
Proof. unfold occurrences. rewrite filter_cons. by case_decide. Qed.

Lemma occurrences_zero k l : occurrences k l = 0%nat <-> k ∉ l.
Proof.
  induction l as [| x l IH]; [set_solver |].
  rewrite occurrences_cons, elem_of_cons. case_decide; naive_solver lia.
Qed.

Lemma missing_zero A ord k :
  missing A ord k = 0%nat <-> forall a, (a, k) ∈ A -> a ∈ ord.
Proof.
  unfold missing. rewrite length_zero_iff_nil. split.
  - intros H a Ha. destruct (decide (a ∈ ord)); [done |]. exfalso.
    assert ((a, k) ∈ filter (fun p => p.2 = k /\ p.1 ∉ ord) A) as Hin
      by (by apply list_elem_of_filter).
    rewrite H in Hin. by apply not_elem_of_nil in Hin.
  - intros H. destruct (filter _ A) as [| [a b] l] eqn:E; [done |]. exfalso.
    assert ((a, b) ∈ filter (fun p => p.2 = k /\ p.1 ∉ ord) A) as Hin
      by (rewrite E; left).
    apply list_elem_of_filter in Hin as [[? Hn] Hin]. simpl in *. subst. auto.
Qed.

(** Visiting [cur] removes exactly its outgoing arcs from the counts. *)
Lemma missing_visit A ord cur k :
  cur ∉ ord ->
  missing A ord k = (missing A (ord ++ [cur]) k + occurrences k (targets A cur))%nat.
Proof.
  intros Hc. unfold missing, occurrences, targets.
  induction A as [| [a b] A IH]; simpl; [done |].
  assert (Hm : a ∉ ord ++ [cur] <-> a ∉ ord /\ a <> cur) by set_solver.
  rewrite !filter_cons. simpl.
  destruct (decide (a = cur)) as [-> | Ha].
  - rewrite fmap_cons, filter_cons. simpl. destruct (decide (b = k)).
    + rewrite decide_True, decide_False by tauto. simpl. lia.
    + by rewrite !decide_False by tauto.
  - destruct (decide (b = k /\ a ∉ ord)).
    + rewrite decide_True by tauto. simpl. lia.
    + by rewrite decide_False by tauto.
Qed.

(** ** The loop invariant *)

Section kahn.
Context (K : list Z) (A : list (Z * Z)) (st : TopologyState).
Hypothesis K_nodup : NoDup K.
Hypothesis A_keys : forall a b, (a, b) ∈ A -> a ∈ K /\ b ∈ K.
Hypothesis st_spec : stateSpec K A st.

Definition level (ls : LoopState) (k : Z) : Z := default 0 (nodeLevels ls !! k).

(** Every arc into a listed node comes from an earlier one. *)
Definition closed (ord : list Z) : Prop :=
  forall l1 b l2, ord = l1 ++ b :: l2 -> forall a, (a, b) ∈ A -> a ∈ l1.

(** The invariant while the arcs of [cur] to [rest] are still to be relaxed;
    between two iterations [rest] is empty. *)
Record Inv (cur : Z) (rest : list Z) (ls : LoopState) : Prop := mkInv {
  inv_remaining : forall k, remaining ls !! k =
    if decide (k ∈ K) then Some (Z.of_nat (missing A (visited ls) k + occurrences k rest))
    else None;
  inv_nodup : NoDup (ready ls ++ visited ls);
  inv_keys : forall k, k ∈ ready ls ++ visited ls -> k ∈ K;
  inv_ready : forall k, k ∈ K ->
    (k ∈ ready ls ++ visited ls <-> (missing A (visited ls) k + occurrences k rest)%nat = 0%nat);
  inv_closed : closed (visited ls);
  inv_levels_dom : forall k, is_Some (nodeLevels ls !! k) <-> k ∈ K;
  inv_level_arc : forall a b, (a, b) ∈ A -> a ∈ visited ls -> a <> cur \/ b ∉ rest ->
    level ls a + 1 <= level ls b;
  inv_level_min : forall b, 0 <= level ls b /\
    (level ls b = 0 \/ exists a, (a, b) ∈ A /\ a ∈ visited ls /\ level ls b = level ls a + 1);
}.

Lemma closed_snoc ord cur :
  closed ord -> (forall a, (a, cur) ∈ A -> a ∈ ord) -> closed (ord ++ [cur]).
Proof.
  intros Hcl Hcur l1 b l2 E a Ha.
  destruct l2 as [| y l2 _] using rev_ind.
  - apply app_inj_tail in E as [-> ->]. auto.
  - rewrite app_comm_cons, app_assoc in E. apply app_inj_tail in E as [-> _]. eauto.
Qed.

Lemma relax_unfold cur b rest ls :
  Inv cur (b :: rest) ls -> b ∈ K ->
  let d := Z.of_nat (missing A (visited ls) b + occurrences b rest) in
  relax cur ls b =
    mkLoop (<[b := d]> (remaining ls))
      (<[b := Z.max (level ls b) (level ls cur + 1)]> (nodeLevels ls))
      (if d =? 0 then ready ls ++ [b] else ready ls) (visited ls) /\
  b ∉ ready ls ++ visited ls.
Proof.
  intros [Hr _ _ Hrd _ _ _ _] Hb d. unfold relax. rewrite Hr, decide_True by done.
  rewrite occurrences_cons, decide_True by done. split.
  - replace (Z.of_nat _ - 1) with d by (unfold d; lia). done.
  - rewrite (Hrd b Hb), occurrences_cons, decide_True by done. lia.
Qed.

(** Levels after one relaxation: only [b] moves, and only upwards. *)
Lemma relax_levels cur b rest ls ls' :
  Inv cur (b :: rest) ls -> cur ∈ visited ls -> (cur, b) ∈ A -> b ∉ visited ls ->
  visited ls' = visited ls ->
  nodeLevels ls' = <[b := Z.max (level ls b) (level ls cur + 1)]> (nodeLevels ls) ->
  (forall a c, (a, c) ∈ A -> a ∈ visited ls' -> a <> cur \/ c ∉ rest ->
     level ls' a + 1 <= level ls' c) /\
  (forall c, 0 <= level ls' c /\
     (level ls' c = 0 \/
      exists a, (a, c) ∈ A /\ a ∈ visited ls' /\ level ls' c = level ls' a + 1)).
Proof.
  intros [_ _ _ _ _ _ Harc Hmin] Hcur Hab Hb Ev El. rewrite Ev.
  assert (Hlv : forall k, level ls' k =
     if decide (b = k) then Z.max (level ls b) (level ls cur + 1) else level ls k).
  { intros k. unfold level. rewrite El, lookup_insert. by case_decide. }
  assert (Hne : forall a, a ∈ visited ls -> level ls' a = level ls a).
  { intros a Ha. rewrite Hlv. case_decide; [congruence | done]. }
  split.
  - intros a c Hac Ha Hor. rewrite (Hne a Ha), Hlv. case_decide as Hc.
    + subst c. destruct (decide (a = cur)) as [-> | Hn]; [lia |].
      specialize (Harc a b Hac Ha (or_introl Hn)). lia.
    + apply Harc; [done | done |]. destruct Hor; [by left | right; set_solver].
  - intros c. rewrite Hlv. destruct (Hmin c) as [H0 Hor]. case_decide as Hc.
    + subst c. destruct (Hmin cur) as [Hc0 _]. split; [lia |].
      destruct (Z.max_spec (level ls b) (level ls cur + 1)) as [[_ ->] | [_ ->]].
      * right. exists cur. by rewrite (Hne cur).
      * destruct Hor as [-> | (a & ? & Ha & ?)]; [by left |].
        right. exists a. by rewrite (Hne a).
    + split; [done |]. destruct Hor as [-> | (a & ? & Ha & ?)]; [by left |].
      right. exists a. by rewrite (Hne a).
Qed.

Lemma relax_inv cur b rest ls :
  Inv cur (b :: rest) ls -> cur ∈ visited ls -> (cur, b) ∈ A ->
  Inv cur rest (relax cur ls b) /\ visited (relax cur ls b) = visited ls.
Proof.
  intros HI Hcur Hab. destruct (A_keys cur b Hab) as [_ HbK].
  destruct (relax_unfold cur b rest ls HI HbK) as [E Hb].
  set (d := Z.of_nat _) in E.
  rewrite not_elem_of_app in Hb. destruct Hb as [Hb1 Hb2].
  assert (Hlev := relax_levels cur b rest ls (relax cur ls b) HI Hcur Hab Hb2
                    ltac:(by rewrite E) ltac:(by rewrite E)).
  destruct HI as [Hr Hnd Hk Hrd Hcl Hdom _ _]. rewrite E in *. simpl in *. split; [| done].
  assert (Hready : forall k, k ∈ (if d =? 0 then ready ls ++ [b] else ready ls) <->
            k ∈ ready ls \/ (k = b /\ d = 0)).
  { intros k. destruct (Z.eqb_spec d 0); set_solver. }
  constructor; simpl; try done; try apply Hlev.
  - intros k. rewrite lookup_insert, Hr, occurrences_cons.
    destruct (decide (b = k)) as [<- |]; [by rewrite decide_True by done | done].
  - destruct (d =? 0); [| done]. rewrite <- app_assoc. simpl.
    rewrite <- Permutation_middle. constructor; [set_solver | done].
  - intros k. rewrite elem_of_app, Hready. set_solver.
  - intros k HkK. rewrite elem_of_app, Hready. specialize (Hrd k HkK).
    rewrite elem_of_app, occurrences_cons in Hrd.
    destruct (decide (b = k)) as [<- | Hne]; [| rewrite <- Hrd; naive_solver].
    unfold d. split; [intros [[?|[_ ?]]|?] | intros]; [done | lia | done | left; right].
    split; [done | lia].
  - intros k. rewrite lookup_insert_is_Some, <- Hdom.
    split; [intros [<- | [_ ?]]; [by apply Hdom | done] |].
    intros ?. destruct (decide (b = k)); [by left | by right].
Qed.

Lemma relax_fold cur rest ls :
  Inv cur rest ls -> cur ∈ visited ls -> (forall b, b ∈ rest -> (cur, b) ∈ A) ->
  Inv cur [] (foldl (relax cur) ls rest) /\
  visited (foldl (relax cur) ls rest) = visited ls.
Proof.
  revert ls. induction rest as [| b rest IH]; intros ls HI Hcur Hrest; [done |]. simpl.
  destruct (relax_inv cur b rest ls HI Hcur ltac:(apply Hrest; left)) as [HI' Hv].
  rewrite <- Hv. apply IH; [done | by rewrite Hv |]. intros. apply Hrest. by right.
Qed.

Lemma Inv_nil_cur cur cur' ls : Inv cur [] ls -> Inv cur' [] ls.
Proof.
  intros [H1 H2 H3 H4 H5 H6 H7 H8]. constructor; try done.
  intros a b Hab Ha _. apply H7; [done | done |]. right. set_solver.
Qed.

(** One iteration of the [while] loop keeps the invariant. *)
Lemma visit_inv ls cur rest :
  Inv 0 [] ls -> ready ls = cur :: rest ->
  Inv 0 [] (visit st ls cur rest) /\
  visited (visit st ls cur rest) = visited ls ++ [cur].
Proof.
  intros [Hr Hnd Hk Hrd Hcl Hdom Harc Hmin] Erd. rewrite Erd in *. simpl in *.
  apply NoDup_cons in Hnd as [Hcur Hnd].
  assert (HcK : cur ∈ K) by (apply Hk; left).
  assert (Hv : cur ∉ visited ls) by set_solver.
  assert (Hm : missing A (visited ls) cur = 0%nat).
  { pose proof (proj1 (Hrd cur HcK) ltac:(left)). lia. }
  destruct st_spec as (S1 & _ & _ & S4).
  unfold visit. rewrite S1, decide_True by done. simpl.
  set (ls1 := mkLoop (remaining ls) (nodeLevels ls) rest (visited ls ++ [cur])).
  assert (HI : Inv cur (targets A cur) ls1).
  { assert (Hperm : rest ++ visited ls ++ [cur] ≡ₚ cur :: rest ++ visited ls)
      by (rewrite app_assoc; symmetry; apply Permutation_cons_append).
    constructor; simpl; try done.
    - intros k. rewrite Hr, (missing_visit A (visited ls) cur k Hv).
      unfold occurrences at 2. simpl. by rewrite Nat.add_0_r.
    - rewrite Hperm. by constructor.
    - intros k. rewrite Hperm. apply Hk.
    - intros k HkK. rewrite Hperm, (Hrd k HkK), (missing_visit A (visited ls) cur k Hv).
      unfold occurrences at 2. simpl. by rewrite Nat.add_0_r.
    - apply closed_snoc; [done |]. by apply missing_zero.
    - intros a b Hab Ha Hor. unfold ls1, level in *. simpl in *.
      apply Harc; [done | | right; set_solver].
      apply elem_of_app in Ha as [Ha | ->%list_elem_of_singleton]; [done |].
      destruct Hor as [? | Hor]; [done |]. destruct Hor. unfold targets.
      apply list_elem_of_fmap. exists (cur, b). split; [done |]. by apply list_elem_of_filter.
    - intros b. destruct (Hmin b) as [? [? | (a & ? & ? & ?)]]; (split; [done |]);
        [by left | right; exists a; set_solver]. }
  assert (Htargets : forall b, b ∈ targets A cur -> (cur, b) ∈ A).
  { unfold targets. intros b ([a c] & -> & [Ha Hin]%list_elem_of_filter)%list_elem_of_fmap.
    simpl in *. by subst. }
  specialize (S4 cur). destruct (adjacency st !! cur) as [nexts |]; simpl in S4; subst.
  - destruct (relax_fold cur (targets A cur) ls1 HI ltac:(simpl; set_solver) Htargets)
      as [HI' Hvis]. split; [by eapply Inv_nil_cur | done].
  - rewrite <- S4 in HI. split; [by eapply Inv_nil_cur | done].
Qed.

Lemma visited_length ls : Inv 0 [] ls -> (length (visited ls) <= length K)%nat.
Proof.
  intros [_ Hnd Hk _ _ _ _ _]. apply NoDup_app in Hnd as (_ & _ & Hnd).
  apply submseteq_length, NoDup_submseteq; [done |]. intros k Hin. apply Hk. set_solver.
Qed.

Lemma drain_inv fuel ls : Inv 0 [] ls -> Inv 0 [] (drain fuel st ls).
Proof.
  revert ls. induction fuel as [| fuel IH]; intros ls HI; simpl; [done |].
  destruct (ready ls) as [| cur rest] eqn:E; [done |].
  apply IH. by apply visit_inv.
Qed.

(** When nothing is ready, the order is complete or the unvisited nodes
    contain a cycle. *)
Lemma unvisited_pred ls k :
  Inv 0 [] ls -> ready ls = [] -> k ∈ K -> k ∉ visited ls ->
  exists a, (a, k) ∈ A /\ a ∈ K /\ a ∉ visited ls.
Proof.
  intros [_ _ _ Hrd _ _ _ _] E Hk Hv. specialize (Hrd k Hk). rewrite E in Hrd. simpl in Hrd.
  destruct (filter (fun p => p.2 = k /\ p.1 ∉ visited ls) A) as [| [a b] l] eqn:Ef.
  - exfalso. apply Hv, Hrd. unfold missing. by rewrite Ef.
  - assert (Hin : (a, b) ∈ filter (fun p => p.2 = k /\ p.1 ∉ visited ls) A)
      by (rewrite Ef; left).
    apply list_elem_of_filter in Hin as [[Hb Ha] Hin]. simpl in *. subst.
    exists a. split; [done |]. split; [by apply (A_keys a k) | done].
Qed.

Lemma visited_complete ls :
  Inv 0 [] ls -> length (visited ls) = length K -> visited ls ≡ₚ K.
Proof.
  intros [_ Hnd Hk _ _ _ _ _] El. apply NoDup_app in Hnd as (_ & _ & Hnd).
  apply submseteq_length_Permutation; [| lia].
  apply NoDup_submseteq; [done |]. intros k Hin. apply Hk. set_solver.
Qed.
End kahn.

(** ** Lemmas: cycles *)

Section cycles.
Context (E : Z -> Z -> Prop).

Fixpoint path (p : list Z) : Prop :=
  match p with
  | x :: (y :: _) as p' => E x y /\ path p'
  | _ => True
  end.

Lemma path_reach x p y : path (x :: p) -> y ∈ x :: p -> rtc E x y.
Proof.
  revert x. induction p as [| z p IH]; intros x Hp Hy.
  - apply list_elem_of_singleton in Hy as ->. constructor.
  - destruct Hp as [Hxz Hp]. apply elem_of_cons in Hy as [-> | Hy]; [constructor |].
    eapply rtc_l; [exact Hxz | by apply IH].
Qed.

(** A finite non-empty set closed under predecessors contains a cycle. *)
Lemma pred_closed_cycle (P : Z -> Prop) (X : list Z) x0 :
  (forall x, P x -> x ∈ X) -> (forall x, P x -> exists y, P y /\ E y x) -> P x0 ->
  exists x, tc E x x.
Proof.
  intros HX Hpred Hx0.
  enough (H : forall n, (exists x, tc E x x) \/
            exists p, length p = S n /\ path p /\ NoDup p /\ Forall P p).
  { destruct (H (length X)) as [? | (p & Hl & _ & Hnd & HP)]; [done |].
    exfalso. assert (p ⊆+ X) as Hs.
    { apply NoDup_submseteq; [done |]. rewrite Forall_forall in HP. auto. }
    apply submseteq_length in Hs. lia. }
  induction n as [| n IH].
  - right. exists [x0]. repeat split; [apply NoDup_singleton | by constructor].
  - destruct IH as [? | (p & Hl & Hp & Hnd & HP)]; [by left |].
    destruct p as [| x p]; [done |]. apply Forall_cons in HP as [Hx HP].
    destruct (Hpred x Hx) as (y & Hy & Hyx).
    destruct (decide (y ∈ x :: p)) as [Hin | Hin].
    + left. exists y. eapply tc_rtc_r; [by apply tc_once | by eapply path_reach].
    + right. exists (y :: x :: p). simpl in *. repeat split; auto; try lia.
      by constructor.
Qed.
End cycles.

(** A closed order admits no cycle. *)
Lemma closed_reach A ord : closed A ord ->
  forall a b, tc (fun a b => (a, b) ∈ A) a b ->
  forall l1 l2, ord = l1 ++ b :: l2 -> a ∈ l1.
Proof.
  intros Hcl a b H. induction H as [a b Hab | a c b Hac Hcb IH]; intros l1 l2 Eo.
  - by eapply Hcl.
  - specialize (IH l1 l2 Eo). apply list_elem_of_split in IH as (m1 & m2 & ->).
    rewrite <- app_assoc in Eo. simpl in Eo.
    apply elem_of_app. left. by eapply Hcl.
Qed.

(** ** Lemmas: termination on every graph *)

Definition positive (m : gmap Z Z) : nat := size (filter (fun kv : Z * Z => 0 < kv.2) m).

Lemma positive_insert_fresh (m : gmap Z Z) (k v : Z) :
  m !! k = None ->
  positive (<[k := v]> m) = (positive m + (if decide (0 < v)%Z then 1 else 0))%nat.
Proof.
  intros Hm. unfold positive. case_decide as Hv.
  - rewrite map_filter_insert_True by done. rewrite map_size_insert_None; [lia |].
    apply map_lookup_filter_None. by left.
  - rewrite map_filter_insert_False by done. rewrite delete_id by done. lia.
Qed.

Lemma positive_insert (m : gmap Z Z) (k d v : Z) :
  m !! k = Some d ->
  (positive (<[k := v]> m) + (if decide (0 < d)%Z then 1 else 0) =
   positive m + if decide (0 < v)%Z then 1 else 0)%nat.
Proof.
  intros Hm.
  rewrite <- (insert_id m k d Hm) at 2. rewrite <- !(insert_delete_eq m).
  rewrite !positive_insert_fresh by apply lookup_delete_eq. lia.
Qed.

(** Pending work: what is queued plus what may still be queued. *)
Definition work (ls : LoopState) : nat := length (ready ls) + positive (remaining ls).

Lemma relax_work cur ls next : (work (relax cur ls next) <= work ls)%nat.
Proof.
  unfold relax, work. destruct (remaining ls !! next) as [d |] eqn:E; [| done]. simpl.
  pose proof (positive_insert _ next d (d - 1) E) as H.
  destruct (Z.eqb_spec (d - 1) 0); rewrite ?length_app; simpl; repeat case_decide; lia.
Qed.

Lemma relax_fold_work cur nexts ls : (work (foldl (relax cur) ls nexts) <= work ls)%nat.
Proof.
  revert ls. induction nexts as [| n nexts IH]; intros ls; simpl; [done |].
  etransitivity; [apply IH | apply relax_work].
Qed.

Lemma visit_work st ls cur rest :
  ready ls = cur :: rest -> (work (visit st ls cur rest) < work ls)%nat.
Proof.
  intros E. unfold visit. set (ls0 := mkLoop _ _ rest _).
  assert (H0 : (work ls0 < work ls)%nat) by (unfold work, ls0; rewrite E; simpl; lia).
  destruct (ids st !! cur); [| done]. destruct (adjacency st !! cur); [| exact H0].
  eapply Nat.le_lt_trans; [apply relax_fold_work | exact H0].
Qed.

Lemma drain_terminates fuel st ls : (work ls <= fuel)%nat -> ready (drain fuel st ls) = [].
Proof.
  revert ls. induction fuel as [| fuel IH]; intros ls Hw; simpl.
  - unfold work in Hw. destruct (ready ls); [done | simpl in Hw; lia].
  - destruct (ready ls) as [| cur rest] eqn:E; [done |].
    apply IH. pose proof (visit_work st ls cur rest E). lia.
Qed.

Lemma positive_le_dom (m : gmap Z Z) (ks : list Z) :
  (forall k, is_Some (m !! k) -> k ∈ ks) -> (positive m <= length ks)%nat.
Proof.
  intros H. unfold positive. rewrite <- size_dom.
  unfold size, set_size. simpl. apply submseteq_length, NoDup_submseteq.
  { apply NoDup_elements. }
  intros k Hk. apply elem_of_elements, elem_of_dom in Hk as [v Hk].
  apply map_lookup_filter_Some in Hk as [Hk _]. eauto.
Qed.

Lemma filter_length_le {B} (p : B -> bool) l : (length (List.filter p l) <= length l)%nat.
Proof. apply sublist_length, filter_sublist. Qed.

Lemma initial_work g : (work (initialLoop g (buildState g)) <= drainFuel g)%nat.
Proof.
  unfold work, drainFuel, initialLoop, pushInitialSources, zeroDegree. simpl.
  pose proof (buildState_spec g) as (_ & S2 & _).
  pose proof (positive_le_dom (indegree (buildState g)) (keys g)) as Hp.
  specialize (Hp ltac:(intros k; rewrite S2; case_decide; [done | by intros [? ?]])).
  pose proof (filter_length_le idValid (nodeId <$> nodes g)) as Hk. fold (keys g) in Hk.
  rewrite length_fmap in Hk.
  match goal with |- (length (List.filter ?p _) + _ <= _)%nat =>
    pose proof (filter_length_le p (nodeId <$> nodes g)) as Hf end.
  rewrite length_fmap in Hf. lia.
Qed.

(** The loop state [build] ends in. *)
Definition finalLoop (g : MediaGraph) : LoopState :=
  drain (drainFuel g) (buildState g) (initialLoop g (buildState g)).

Lemma finalLoop_ready g : ready (finalLoop g) = [].
Proof. apply drain_terminates, initial_work. Qed.

Lemma ids_size g : NoDup (keys g) -> size (ids (buildState g)) = length (keys g).
Proof.
  intros Hnd. pose proof (buildState_spec g) as (S1 & _).
  rewrite <- size_dom. replace (dom (ids (buildState g))) with (list_to_set (keys g) : gset Z).
  - by apply size_list_to_set.
  - apply set_eq. intros k. rewrite elem_of_list_to_set, elem_of_dom, S1.
    case_decide; split; [by eexists | done | done | by intros [? ?]].
Qed.

(** The initial ready list: the nodes without incoming arcs. *)
Lemma zeroDegree_missing g :
  zeroDegree (indegree (buildState g)) g =
  List.filter (fun k => Nat.eqb (missing (arcs g) [] k) 0) (keys g).
Proof.
  pose proof (buildState_spec g) as (_ & S2 & _). unfold zeroDegree.
  assert (H : forall l, (forall x, x ∈ List.filter idValid l -> x ∈ keys g) ->
    List.filter (fun id => idValid id && match indegree (buildState g) !! id with
                   | Some d => d =? 0 | None => false end) l =
    List.filter (fun k => Nat.eqb (missing (arcs g) [] k) 0) (List.filter idValid l)).
  { induction l as [| x l IH]; intros Hl; simpl in *; [done |].
    destruct (idValid x) eqn:Ex; simpl in *; [| by apply IH].
    rewrite S2, decide_True by (apply Hl; left).
    rewrite IH by (intros; apply Hl; by right).
    destruct (Nat.eqb_spec (missing (arcs g) [] x) 0) as [-> | Hne]; [done |].
    destruct (Z.eqb_spec (Z.of_nat (missing (arcs g) [] x)) 0); [lia | done]. }
  by apply H.
Qed.

Lemma initial_inv g :
  NoDup (keys g) -> Inv (keys g) (arcs g) 0 [] (initialLoop g (buildState g)).
Proof.
  intros Hnd. pose proof (buildState_spec g) as (S1 & S2 & _).
  unfold initialLoop, pushInitialSources. rewrite zeroDegree_missing.
  assert (Hlev : forall k, level (mkLoop ∅ ((fun _ => 0) <$> ids (buildState g)) [] []) k = 0).
  { intros k. unfold level. simpl. rewrite lookup_fmap.
    by destruct (ids (buildState g) !! k). }
  constructor; simpl.
  - intros k. rewrite S2. unfold occurrences. simpl. by rewrite Nat.add_0_r.
  - rewrite app_nil_r. eapply sublist_NoDup; [exact Hnd | apply filter_sublist].
  - intros k. rewrite app_nil_r. intros Hk.
    apply list_elem_of_In, filter_In in Hk. apply list_elem_of_In, Hk.
  - intros k Hk. rewrite app_nil_r, list_elem_of_In, filter_In, Nat.eqb_eq.
    rewrite list_elem_of_In in Hk. unfold occurrences. simpl. rewrite Nat.add_0_r. tauto.
  - intros l1 b l2 E. by destruct l1.
  - intros k. rewrite lookup_fmap, S1. case_decide; simpl; split; naive_solver.
  - intros a b _ Ha. by apply not_elem_of_nil in Ha.
  - intros b. change (level _ b) with
      (level (mkLoop ∅ ((fun _ => 0) <$> ids (buildState g)) [] []) b).
    rewrite Hlev. split; [done | by left].
Qed.

Lemma final_inv g : NoDup (keys g) -> Inv (keys g) (arcs g) 0 [] (finalLoop g).
Proof.
  intros Hnd. apply drain_inv; eauto using arcs_keys, buildState_spec, initial_inv.
Qed.

(** [build] in terms of the final loop state. *)
Lemma build_cases g :
  NoDup (keys g) ->
  let ls := finalLoop g in
  (length (visited ls) = length (keys g) /\
   build g = Success (mkTopology (visited ls) (pushInitialSources g (buildState g))
     (appendSinks g (buildState g)) (appendLevels (nodeLevels ls) (visited ls)))) \/
  (length (visited ls) <> length (keys g) /\ resultOk (build g) = false).
Proof.
  intros Hnd ls. unfold build. fold (finalLoop g). fold ls. rewrite ids_size by done.
  destruct (Nat.eqb_spec (length (visited ls)) (length (keys g))); simpl; auto.
Qed.

Lemma build_success g t :
  NoDup (keys g) -> build g = Success t ->
  order t = visited (finalLoop g) /\ order t ≡ₚ keys g /\
  levels t = appendLevels (nodeLevels (finalLoop g)) (order t).
Proof.
  intros Hnd Hb. destruct (build_cases g Hnd) as [[El E] | [_ E]]; rewrite Hb in E; [| done].
  simplify_eq. simpl. split; [done |]. split; [| done].
  eapply visited_complete; eauto using arcs_keys, buildState_spec, final_inv.
Qed.

(** A key the loop never reaches lies on or behind a cycle. *)
Lemma incomplete_cycle g :
  NoDup (keys g) -> length (visited (finalLoop g)) <> length (keys g) -> ~ acyclic g.
Proof.
  intros Hnd Hne Hac. pose proof (final_inv g Hnd) as HI.
  assert (exists k, k ∈ keys g /\ k ∉ visited (finalLoop g)) as (k & Hk & Hv).
  { destruct (decide (Forall (fun k => k ∈ visited (finalLoop g)) (keys g))) as [Hall | Hno].
    - exfalso. apply Hne, Nat.le_antisymm.
      + eapply visited_length; eauto using arcs_keys, buildState_spec.
      + apply submseteq_length, NoDup_submseteq; [done |]. by rewrite Forall_forall in Hall.
    - apply not_Forall_Exists in Hno; [| apply _]. by apply Exists_exists in Hno. }
  destruct (pred_closed_cycle (arc g)
              (fun x => x ∈ keys g /\ x ∉ visited (finalLoop g)) (keys g) k) as [x Hx].
  - by intros x [? _].
  - intros x [Hx Hxv].
    destruct (unvisited_pred _ _ (arcs_keys g) _ x HI (finalLoop_ready g) Hx Hxv)
      as (a & ? & ? & ?). by exists a.
  - done.
  - by apply (Hac x).
Qed.

(** A complete order witnesses acyclicity. *)
Lemma complete_acyclic g :
  NoDup (keys g) -> length (visited (finalLoop g)) = length (keys g) -> acyclic g.
Proof.
  intros Hnd El x Hx. pose proof (final_inv g Hnd) as HI.
  assert (Hp : visited (finalLoop g) ≡ₚ keys g)
    by (eapply visited_complete; eauto using arcs_keys, buildState_spec).
  assert (Hin : x ∈ visited (finalLoop g)).
  { rewrite Hp. assert (exists y, arc g x y) as [y Hy] by (inversion Hx; eauto).
    apply (arcs_keys g x y Hy). }
  apply list_elem_of_split in Hin as (l1 & l2 & E).
  pose proof (closed_reach _ _ (inv_closed _ _ _ _ _ HI) x x Hx l1 l2 E) as Hl1.
  pose proof (inv_nodup _ _ _ _ _ HI) as Hn. apply NoDup_app in Hn as (_ & _ & Hn).
  rewrite E in Hn. apply NoDup_app in Hn as (_ & Hn & _). apply (Hn x Hl1). left.
Qed.

Lemma build_ok_acyclic g : NoDup (keys g) -> resultOk (build g) = true <-> acyclic g.
Proof.
  intros Hnd. destruct (build_cases g Hnd) as [[El ->] | [Hne ->]]; split; try done.
  - intros _. by apply complete_acyclic.
  - intros Hac. exfalso. by eapply incomplete_cycle.
Qed.

(** ** Lemmas: [appendLevels] *)

Lemma maxLevel_ge (m : gmap Z Z) (k v : Z) : m !! k = Some v -> v <= maxLevel m.
Proof.
  revert k v. unfold maxLevel.
  apply (map_fold_weak_ind (fun r (m : gmap Z Z) => forall k v, m !! k = Some v -> v <= r)).
  - intros k v. by rewrite lookup_empty.
  - intros i x m' r Hi IH k v. rewrite lookup_insert. case_decide; intros; simplify_eq; [lia |].
    pose proof (IH k v ltac:(done)). lia.
Qed.

Lemma appendLevels_lookup (m : gmap Z Z) (ord : list Z) (i : nat) :
  (forall k v, m !! k = Some v -> 0 <= v) ->
  (i < Z.to_nat (maxLevel m + 1))%nat ->
  appendLevels m ord !! i = Some (filter (fun k => m !! k = Some (Z.of_nat i)) ord).
Proof.
  intros Hpos Hi. unfold appendLevels. induction ord as [| k ord IH] using rev_ind.
  { simpl. by apply lookup_replicate_2. }
  rewrite foldl_snoc, filter_app, filter_cons, filter_nil.
  destruct (m !! k) as [v |] eqn:E.
  - specialize (Hpos k v E). rewrite list_lookup_alter.
    destruct (decide (Some v = Some (Z.of_nat i))) as [Hv | Hv]; simplify_eq.
    + rewrite Nat2Z.id, decide_True by done. by rewrite IH.
    + rewrite decide_False by (intros <-; apply Hv; f_equal; lia).
      by rewrite IH, app_nil_r.
  - by rewrite decide_False, app_nil_r by done.
Qed.

Lemma appendLevels_length (m : gmap Z Z) (ord : list Z) :
  length (appendLevels m ord) = Z.to_nat (maxLevel m + 1).
Proof.
  unfold appendLevels. induction ord as [| k ord IH] using rev_ind.
  { apply length_replicate. }
  rewrite foldl_snoc. destruct (m !! k); [by rewrite length_alter | done].
Qed.

(** ** Lemmas: levels as longest paths *)

Section longest.
Context (R : Z -> Z -> Prop) (lv : Z -> Z).
Hypothesis lv_arc : forall a b, R a b -> lv a + 1 <= lv b.
Hypothesis lv_min : forall b, 0 <= lv b /\ (lv b = 0 \/ exists a, R a b /\ lv b = lv a + 1).

Lemma nsteps_level m x k : nsteps R m x k -> lv x + Z.of_nat m <= lv k.
Proof.
  intros H. induction H as [| m x y k Hxy _ IH]; [lia |].
  pose proof (lv_arc x y Hxy). lia.
Qed.

Lemma level_path n k : lv k = Z.of_nat n -> exists x, nsteps R n x k.
Proof.
  revert k. induction n as [| n IH]; intros k Hk; [exists k; constructor |].
  destruct (lv_min k) as [_ [? | (a & Ha & Ea)]]; [lia |].
  destruct (IH a ltac:(lia)) as [x Hx]. exists x. by eapply nsteps_r.
Qed.

Lemma level_longest k n :
  lv k = Z.of_nat n <->
  (exists x, nsteps R n x k) /\ (forall m x, nsteps R m x k -> (m <= n)%nat).
Proof.
  destruct (lv_min k) as [H0 _]. split.
  - intros E. split; [by apply level_path |]. intros m x Hm.
    pose proof (nsteps_level m x k Hm). destruct (lv_min x) as [? _]. lia.
  - intros [[x Hx] Hmax]. pose proof (nsteps_level n x k Hx). destruct (lv_min x) as [? _].
    destruct (level_path (Z.to_nat (lv k)) k ltac:(lia)) as [y Hy].
    pose proof (Hmax _ y Hy). lia.
Qed.
End longest.

Lemma final_levels g :
  NoDup (keys g) -> visited (finalLoop g) ≡ₚ keys g ->
  (forall a b, arc g a b -> level (finalLoop g) a + 1 <= level (finalLoop g) b) /\
  (forall b, 0 <= level (finalLoop g) b /\ (level (finalLoop g) b = 0 \/
     exists a, arc g a b /\ level (finalLoop g) b = level (finalLoop g) a + 1)).
Proof.
  intros Hnd Hp. destruct (final_inv g Hnd) as [_ _ _ _ _ _ Harc Hmin]. split.
  - intros a b Hab. apply Harc; [done | | right; set_solver].
    rewrite Hp. apply (arcs_keys g a b Hab).
  - intros b. destruct (Hmin b) as [? Hor]. split; [done |]. naive_solver.
Qed.

(** ** Lemmas: sources and sinks *)

Lemma zeroDegree_elem (degree : gmap Z Z) g (count : Z -> nat) k :
  (forall k, degree !! k = if decide (k ∈ keys g) then Some (Z.of_nat (count k)) else None) ->
  k ∈ zeroDegree degree g <-> k ∈ keys g /\ count k = 0%nat.
Proof.
  intros Hd. unfold zeroDegree, keys in *.
  rewrite !list_elem_of_In, !filter_In, andb_true_iff, Hd.
  case_decide as H; rewrite list_elem_of_In, filter_In in H; [| naive_solver].
  rewrite Z.eqb_eq. naive_solver lia.
Qed.

Lemma sources_spec g k :
  k ∈ pushInitialSources g (buildState g) <-> k ∈ keys g /\ forall a, ~ arc g a k.
Proof.
  pose proof (buildState_spec g) as (_ & S2 & _).
  unfold pushInitialSources. rewrite (zeroDegree_elem _ g _ k S2), missing_zero.
  unfold arc. set_solver.
Qed.

Lemma targets_elem A k b : b ∈ targets A k <-> (k, b) ∈ A.
Proof.
  unfold targets. rewrite list_elem_of_fmap. split.
  - intros ([a c] & -> & [Ha Hin]%list_elem_of_filter). simpl in *. by subst.
  - intros H. exists (k, b). split; [done |]. by apply list_elem_of_filter.
Qed.

Lemma sinks_spec g k :
  k ∈ appendSinks g (buildState g) <-> k ∈ keys g /\ forall b, ~ arc g k b.
Proof.
  pose proof (buildState_spec g) as (_ & _ & S3 & _).
  unfold appendSinks. rewrite (zeroDegree_elem _ g _ k S3), length_zero_iff_nil.
  unfold arc. setoid_rewrite <- targets_elem.
  split; intros [? H]; (split; [done |]); [rewrite H; set_solver |].
  destruct (targets (arcs g) k) as [| b l]; [done |]. destruct (H b). left.
Qed.

(** A triangle 1 -> 2 -> 3 with the shortcut 1 -> 3, and the same graph with a
    back edge. *)
Definition triangleOps : list GraphOp :=
  [Op_addNode Node_FileInput "in" ""; Op_addNode Node_VideoFilter "mid" "";
   Op_addNode Node_FileOutput "out" "";
   Op_addOutputPort 1 "o" Stream_Audio Edge_InputPacket Payload_Packet true true;
   Op_addInputPort 2 "i" Stream_Any Edge_Unknown Payload_Unknown true true;
   Op_addOutputPort 2 "o" Stream_Audio Edge_InputPacket Payload_Packet true true;
   Op_addInputPort 3 "i" Stream_Any Edge_Unknown Payload_Unknown true true;
   Op_connect 2 "o" 3 "i" "" true; Op_connect 1 "o" 3 "i" "" true;
   Op_connect 1 "o" 2 "i" "" true].

Definition triangle : MediaGraph := runOps triangleOps emptyGraph.
Definition looped : MediaGraph :=
  runOps [Op_addInputPort 1 "i" Stream_Any Edge_Unknown Payload_Unknown true true;
          Op_connect 2 "o" 1 "i" "" true] triangle.

Lemma Wf_keys g : Wf g -> NoDup (keys g).
Proof. intros H. eapply sublist_NoDup; [apply H | apply filter_sublist]. Qed.

Lemma triangle_keys : NoDup (keys triangle).
Proof. apply (bool_decide_unpack _). vm_compute. exact I. Qed.

Lemma looped_keys : NoDup (keys looped).
Proof. apply (bool_decide_unpack _). vm_compute. exact I. Qed.

(** ** Properties *)

(** C30: [MediaGraphTopology::build] decides acyclicity: on a graph whose valid
    node ids are distinct its loop runs until nothing is ready, and it succeeds
    exactly when the valid edges between its nodes form no cycle. *)
Theorem build_iff_acyclic g :
  NoDup (keys g) ->
  ready (finalLoop g) = [] /\ (resultOk (build g) = true <-> acyclic g).
Proof.
  intros Hnd. split; [apply finalLoop_ready | by apply build_ok_acyclic].
Qed.

Lemma build_iff_acyclic_witness : acyclic triangle /\ ~ acyclic looped.
Proof.
  split.
  - apply (build_iff_acyclic triangle triangle_keys). vm_compute. reflexivity.
  - intros H. apply (build_iff_acyclic looped looped_keys) in H. vm_compute in H. discriminate.
Defined.

(** When [build] succeeds, its order lists every valid node exactly once,
    every edge leads from an earlier to a later node of it, the sources are
    the nodes without incoming edges, and the sinks those without outgoing
    ones. *)
Theorem build_order g t :
  NoDup (keys g) -> build g = Success t ->
  order t ≡ₚ keys g /\
  (forall a b, arc g a b -> before a b (order t)) /\
  (forall k, k ∈ sources t <-> k ∈ keys g /\ forall a, ~ arc g a k) /\
  (forall k, k ∈ sinks t <-> k ∈ keys g /\ forall b, ~ arc g k b).
Proof.
  intros Hnd Hb. destruct (build_success g t Hnd Hb) as (Ho & Hp & _).
  split; [done |]. split; [| split].
  - intros a b Hab. destruct (arcs_keys g a b Hab) as [_ Hbk]. rewrite <- Hp in Hbk.
    apply list_elem_of_split in Hbk as (l1 & l2 & E).
    pose proof (final_inv g Hnd) as HI. rewrite Ho in E.
    pose proof (inv_closed _ _ _ _ _ HI l1 b l2 E a Hab) as Ha.
    apply list_elem_of_split in Ha as (m1 & m2 & ->).
    exists m1, m2, l2. by rewrite Ho, E, <- app_assoc.
  - intros k. replace (sources t) with (pushInitialSources g (buildState g))
      by (destruct (build_cases g Hnd) as [[_ E] | [_ E]]; rewrite Hb in E; by simplify_eq).
    apply sources_spec.
  - intros k. replace (sinks t) with (appendSinks g (buildState g))
      by (destruct (build_cases g Hnd) as [[_ E] | [_ E]]; rewrite Hb in E; by simplify_eq).
    apply sinks_spec.
Qed.

Lemma build_order_witness :
  exists t, build triangle = Success t /\ order t = [1; 2; 3] /\ before 1 2 (order t).
Proof.
  eexists. split; [vm_compute; reflexivity |]. split; [reflexivity |].
  eapply (build_order triangle); [apply triangle_keys | vm_compute; reflexivity |].
  vm_compute. repeat constructor.
Defined.

(** When [build] succeeds, a node stands in [levels\[n\]] exactly when the
    longest path that ends in it has [n] edges; each level keeps the order of
    the topological order. *)
Theorem build_levels g t :
  NoDup (keys g) -> build g = Success t ->
  (forall n l, levels t !! n = Some l -> l `sublist_of` order t) /\
  (forall k n, k ∈ keys g -> (k ∈ default [] (levels t !! n) <-> longestTo g k n)).
Proof.
  intros Hnd Hb. destruct (build_success g t Hnd Hb) as (Ho & Hp & ->).
  set (m := nodeLevels (finalLoop g)).
  destruct (final_levels g Hnd ltac:(by rewrite <- Ho)) as [Harc Hmin].
  assert (Hdom : forall k, k ∈ keys g -> m !! k = Some (level (finalLoop g) k)).
  { intros k Hk. apply (inv_levels_dom _ _ _ _ _ (final_inv g Hnd)) in Hk as [v Hv].
    unfold level. fold m in Hv |- *. by rewrite Hv. }
  assert (Hpos : forall k v, m !! k = Some v -> 0 <= v).
  { intros k v E. destruct (Hmin k) as [H _]. unfold level in H. fold m in H.
    by rewrite E in H. }
  split.
  - intros n l Hl. pose proof (lookup_lt_Some _ _ _ Hl) as Hlt.
    rewrite appendLevels_length in Hlt. rewrite (appendLevels_lookup m _ n Hpos Hlt) in Hl.
    simplify_eq. apply sublist_filter.
  - intros k n Hk. unfold longestTo. rewrite <- (level_longest (arc g) _ Harc Hmin k n).
    destruct (decide (n < Z.to_nat (maxLevel m + 1))%nat) as [Hlt | Hge].
    + rewrite (appendLevels_lookup m _ n Hpos Hlt). simpl.
      rewrite list_elem_of_filter, Hdom, Hp by done.
      split; [intros [E _]; by injection E | intros ->; done].
    + rewrite lookup_ge_None_2 by (rewrite appendLevels_length; lia). simpl.
      split; [by intros ?%not_elem_of_nil |]. intros E.
      pose proof (maxLevel_ge m k _ (Hdom k Hk)). lia.
Qed.

Lemma build_levels_witness :
  exists t, build triangle = Success t /\ levels t = [[1]; [2]; [3]] /\ longestTo triangle 3 2.
Proof.
  eexists. split; [vm_compute; reflexivity |]. split; [reflexivity |].
  eapply (build_levels triangle); [apply triangle_keys | vm_compute; reflexivity | |];
    vm_compute; repeat constructor.
Defined.

End MediaGraphTopology.
