(* ===== verification/Validation.v ===== *)
(** * Static validation of a media graph

    Models [src/internal/graph/core/MediaGraphValidation.{h,cpp}] and
    [MediaGraphError.h].  [validate] scans nodes, edges, required ports and the
    topology, appending issues to a report.  The [unordered_map<_, bool>]s that
    are read and then set to [true] are sets, the usage counters finite maps.
    The properties characterise the graphs whose report has no error. *)

From stdpp Require Import gmap.
From S2P Require Import Prelude MediaResult Model Graph Topology.
Import MediaGraph MediaGraphTopology.

Local Open Scope Z_scope.

Module MediaGraphValidation.

(** ** Issues and the report *)

Inductive MediaGraphErrorCode :=
  | Code_None | Code_InvalidNode | Code_InvalidPort | Code_InvalidEdge
  | Code_MissingNode | Code_MissingPort | Code_DuplicateId | Code_DuplicatePortName
  | Code_PortDirectionMismatch | Code_PortTypeMismatch | Code_RequiredInputMissing
  | Code_RequiredOutputUnused | Code_InputMultiplicityViolation
  | Code_OutputMultiplicityViolation | Code_CycleDetected | Code_InvalidPolicy
  | Code_InvalidDescriptor.

Inductive MediaGraphValidationSeverity := Severity_Info | Severity_Warning | Severity_Error.

#[export] Instance MediaGraphErrorCode_eq_dec : EqDecision MediaGraphErrorCode.
Proof. solve_decision. Defined.
#[export] Instance MediaGraphValidationSeverity_eq_dec : EqDecision MediaGraphValidationSeverity.
Proof. solve_decision. Defined.

Record MediaGraphValidationIssue := mkIssue {
  severity : MediaGraphValidationSeverity;
  code : MediaGraphErrorCode;
  message : string;
  issueNodeId : Z;
  issuePortId : Z;
  issueEdgeId : Z;
}.

(** [MediaGraphValidationReport] is its vector of issues. *)
Abbreviation MediaGraphValidationReport := (list MediaGraphValidationIssue).

Definition isErrorIssue (i : MediaGraphValidationIssue) : bool :=
  bool_decide (severity i = Severity_Error).
Definition isWarningIssue (i : MediaGraphValidationIssue) : bool :=
  bool_decide (severity i = Severity_Warning).

Definition ok (r : MediaGraphValidationReport) : bool := negb (existsb isErrorIssue r).
Definition hasErrors (r : MediaGraphValidationReport) : bool := negb (ok r).
Definition errorCount (r : MediaGraphValidationReport) : nat :=
  length (List.filter isErrorIssue r).
Definition warningCount (r : MediaGraphValidationReport) : nat :=
  length (List.filter isWarningIssue r).

Definition addIssue (sev : MediaGraphValidationSeverity) (c : MediaGraphErrorCode)
    (msg : string) (node port edge : Z) (r : MediaGraphValidationReport) :
    MediaGraphValidationReport :=
  r ++ [mkIssue sev c msg node port edge].

(** [if (cond) { addIssue(report, Error, ...); }]. *)
Definition errorIf (cond : bool) (c : MediaGraphErrorCode) (msg : string)
    (node port edge : Z) (r : MediaGraphValidationReport) : MediaGraphValidationReport :=
  if cond then addIssue Severity_Error c msg node port edge r else r.
Definition warnIf (cond : bool) (c : MediaGraphErrorCode) (msg : string)
    (node port edge : Z) (r : MediaGraphValidationReport) : MediaGraphValidationReport :=
  if cond then addIssue Severity_Warning c msg node port edge r else r.

(** ** Checks *)

Definition validateAcyclic (g : MediaGraph) (r : MediaGraphValidationReport) :
    MediaGraphValidationReport :=
  errorIf (negb (resultOk (build g))) Code_CycleDetected "Cycle detected in media DAG"
    invalidId invalidId invalidId r.

Definition timeInvalid (t : MediaTimeDescriptor) : bool :=
  negb (Rational_isValid (timeBase t)) || negb (Rational_isValid (timeFrameRate t)).

Definition streamKindDiffers (p : MediaPort) : bool :=
  let k := formatStreamKind (portFormat p) in
  bool_decide (k <> Stream_Unknown) && bool_decide (k <> Stream_Any) &&
  bool_decide (portStreamKind p <> Stream_Any) &&
  bool_decide (portStreamKind p <> Stream_Unknown) && bool_decide (k <> portStreamKind p).

Definition validatePortDescriptors (n : MediaNode) (p : MediaPort)
    (r : MediaGraphValidationReport) : MediaGraphValidationReport :=
  let r := warnIf (streamKindDiffers p) Code_InvalidDescriptor
             "Port format descriptor stream kind differs from port stream kind"
             (nodeId n) (portId p) invalidId r in
  errorIf (timeInvalid (portTime p)) Code_InvalidDescriptor
    "Port time descriptor contains invalid rational" (nodeId n) (portId p) invalidId r.

Definition validateEdgePolicy (e : MediaEdge) (r : MediaGraphValidationReport) :
    MediaGraphValidationReport :=
  let q := queuePolicy (edgePolicy e) in
  let r := errorIf (bool_decide (queueMode q = QueueMode_Unknown)) Code_InvalidPolicy
             "Edge queue policy mode is unknown" invalidId invalidId (edgeId e) r in
  let r := errorIf (bool_decide (queueMode q <> QueueMode_SpscRing) &&
                    bool_decide (storageMode q = Storage_Unknown)) Code_InvalidPolicy
             "Blocking edge queue storage mode is unknown" invalidId invalidId (edgeId e) r in
  let r := errorIf (bounded q && bool_decide (queueMode q <> QueueMode_Direct) &&
                    (capacity q =? 0)) Code_InvalidPolicy
             "Bounded edge queue policy requires capacity > 0" invalidId invalidId (edgeId e) r in
  errorIf (timeInvalid (edgeTime e)) Code_InvalidDescriptor
    "Edge time descriptor contains invalid rational" invalidId invalidId (edgeId e) r.

(** ** The node loop *)

(** [report], [portSeen] and the name map of the port loop at hand. *)
Record PortScan := mkPortScan {
  ps_report : MediaGraphValidationReport;
  ps_seen : gset Z;
  ps_names : gset string;
}.

(** Texts of the two port loops. *)
Definition invalidPortMessage (input : bool) : string :=
  if input then "Invalid input port detected" else "Invalid output port detected".
Definition duplicateNameMessage (input : bool) : string :=
  if input then "Duplicate input port name detected"
  else "Duplicate output port name detected".

Definition portInvalid (input : bool) (n : MediaNode) (p : MediaPort) : bool :=
  negb (idValid (portId p)) || negb (portNodeId p =? nodeId n) ||
  negb (if input then isInput p else isOutput p) || strEmpty (portName p).

Definition scanPort (input : bool) (n : MediaNode) (s : PortScan) (p : MediaPort) : PortScan :=
  let r := errorIf (portInvalid input n p) Code_InvalidPort (invalidPortMessage input)
             (nodeId n) (portId p) invalidId (ps_report s) in
  let r := errorIf (bool_decide (portId p ∈ ps_seen s)) Code_DuplicateId
             "Duplicate port id detected" (nodeId n) (portId p) invalidId r in
  let r := errorIf (bool_decide (portName p ∈ ps_names s)) Code_DuplicatePortName
             (duplicateNameMessage input) (nodeId n) (portId p) invalidId r in
  mkPortScan (validatePortDescriptors n p r)
    ({[portId p]} ∪ ps_seen s) ({[portName p]} ∪ ps_names s).

(** [report], [nodeSeen], [portSeen]. *)
Record NodeScan := mkNodeScan {
  ns_report : MediaGraphValidationReport;
  ns_nodes : gset Z;
  ns_ports : gset Z;
}.

Definition scanNode (s : NodeScan) (n : MediaNode) : NodeScan :=
  if negb (Node_isValid n)
  then mkNodeScan (addIssue Severity_Error Code_InvalidNode "Invalid node detected"
                     (nodeId n) invalidId invalidId (ns_report s)) (ns_nodes s) (ns_ports s)
  else
    let r := errorIf (bool_decide (nodeId n ∈ ns_nodes s)) Code_DuplicateId
               "Duplicate node id detected" (nodeId n) invalidId invalidId (ns_report s) in
    let ins := foldl (scanPort true n) (mkPortScan r (ns_ports s) ∅) (inputPorts n) in
    let outs := foldl (scanPort false n) (mkPortScan (ps_report ins) (ps_seen ins) ∅)
                  (outputPorts n) in
    mkNodeScan (ps_report outs) ({[nodeId n]} ∪ ns_nodes s) (ps_seen outs).

(** ** The edge loop *)

Record EdgeScan := mkEdgeScan {
  es_report : MediaGraphValidationReport;
  es_inputUsage : gmap Z Z;
  es_outputUsage : gmap Z Z;
  es_atomic : gmap Z bool;
  es_seen : gset Z;
}.

Definition withReport (r : MediaGraphValidationReport) (s : EdgeScan) : EdgeScan :=
  mkEdgeScan r (es_inputUsage s) (es_outputUsage s) (es_atomic s) (es_seen s).

(** [map\[key\]] on a counter. *)
Definition usage (m : gmap Z Z) (k : Z) : Z := default 0 (m !! k).

(** The checks of an edge whose two ports were found. *)
Definition scanEdgePorts (e : MediaEdge) (from to : MediaPort) (s : EdgeScan) : EdgeScan :=
  let r := errorIf (negb (isOutput from) || negb (isInput to)) Code_PortDirectionMismatch
             "Edge direction invalid" (endNodeId (edgeFrom e)) (endPortId (edgeFrom e))
             (edgeId e) (es_report s) in
  let r := errorIf (negb (portNodeId from =? endNodeId (edgeFrom e)) ||
                    negb (portNodeId to =? endNodeId (edgeTo e))) Code_PortDirectionMismatch
             "Edge port-node mismatch" invalidId invalidId (edgeId e) r in
  let r := errorIf (negb (accepts to from)) Code_PortTypeMismatch
             "Port type mismatch" (endNodeId (edgeTo e)) (endPortId (edgeTo e)) (edgeId e) r in
  let outU := <[portId from := usage (es_outputUsage s) (portId from) + 1]> (es_outputUsage s) in
  let inU := <[portId to := usage (es_inputUsage s) (portId to) + 1]> (es_inputUsage s) in
  let atomicOutput := atomicOutputAccepts (edgePolicy e) in
  let first := default atomicOutput (es_atomic s !! portId from) in
  let atomics := <[portId from := first]> (es_atomic s) in
  let r := errorIf (negb (Bool.eqb first atomicOutput)) Code_InvalidPolicy
             "Output fan-out cannot mix atomic and non-atomic policies"
             (endNodeId (edgeFrom e)) (endPortId (edgeFrom e)) (edgeId e) r in
  let r := errorIf (negb (portMultiple to) && (1 <? usage inU (portId to)))
             Code_InputMultiplicityViolation
             "Input port used multiple times but multiple=false"
             (endNodeId (edgeTo e)) (endPortId (edgeTo e)) (edgeId e) r in
  let r := errorIf (negb (portMultiple from) && (1 <? usage outU (portId from)))
             Code_OutputMultiplicityViolation
             "Output port used multiple times but multiple=false"
             (endNodeId (edgeFrom e)) (endPortId (edgeFrom e)) (edgeId e) r in
  mkEdgeScan (validateEdgePolicy e r) inU outU atomics (es_seen s).

Definition scanEdge (g : MediaGraph) (s : EdgeScan) (e : MediaEdge) : EdgeScan :=
  if negb (Edge_isValid e)
  then withReport (addIssue Severity_Error Code_InvalidEdge "Invalid edge detected"
                     invalidId invalidId (edgeId e) (es_report s)) s
  else
    let r := errorIf (bool_decide (edgeId e ∈ es_seen s)) Code_DuplicateId
               "Duplicate edge id detected" invalidId invalidId (edgeId e) (es_report s) in
    let s := mkEdgeScan r (es_inputUsage s) (es_outputUsage s) (es_atomic s)
               ({[edgeId e]} ∪ es_seen s) in
    match findNode (endNodeId (edgeFrom e)) g, findNode (endNodeId (edgeTo e)) g with
    | Some _, Some _ =>
        match findPort (endPortId (edgeFrom e)) g, findPort (endPortId (edgeTo e)) g with
        | Some from, Some to => scanEdgePorts e from to s
        | _, _ =>
            withReport (addIssue Severity_Error Code_MissingPort
              "Edge references missing port" invalidId invalidId (edgeId e) (es_report s)) s
        end
    | _, _ =>
        withReport (addIssue Severity_Error Code_MissingNode
          "Edge references missing node" invalidId invalidId (edgeId e) (es_report s)) s
    end.

(** ** Required ports *)

Definition scanRequired (s : EdgeScan) (r : MediaGraphValidationReport) (n : MediaNode) :
    MediaGraphValidationReport :=
  let r := foldl (fun r p =>
             errorIf (portRequired p && (usage (es_inputUsage s) (portId p) =? 0))
               Code_RequiredInputMissing "Required input port not connected"
               (nodeId n) (portId p) invalidId r) r (inputPorts n) in
  foldl (fun r p =>
    warnIf (portRequired p && (usage (es_outputUsage s) (portId p) =? 0))
      Code_RequiredOutputUnused "Required output port has no consumers"
      (nodeId n) (portId p) invalidId r) r (outputPorts n).

Definition nodeScan (g : MediaGraph) : NodeScan :=
  foldl scanNode (mkNodeScan [] ∅ ∅) (nodes g).
Definition edgeScan (g : MediaGraph) (r : MediaGraphValidationReport) : EdgeScan :=
  foldl (scanEdge g) (mkEdgeScan r ∅ ∅ ∅ ∅) (edges g).

Definition validate (g : MediaGraph) : MediaGraphValidationReport :=
  let s := edgeScan g (ns_report (nodeScan g)) in
  validateAcyclic g (foldl (scanRequired s) (es_report s) (nodes g)).

(** ** Specification: the graphs a report without errors admits *)

Definition portValid (dir : MediaPortDirection) (n : MediaNode) (p : MediaPort) : Prop :=
  portId p <> invalidId /\ portNodeId p = nodeId n /\ direction p = dir /\
  portName p <> EmptyString /\ timeInvalid (portTime p) = false.

(** A node seen on its own. *)
Definition nodeValid (n : MediaNode) : Prop :=
  Node_isValid n = true /\
  Forall (portValid Dir_Input n) (inputPorts n) /\
  Forall (portValid Dir_Output n) (outputPorts n) /\
  NoDup (portName <$> inputPorts n) /\ NoDup (portName <$> outputPorts n).

Definition policyValid (e : MediaEdge) : Prop :=
  let q := queuePolicy (edgePolicy e) in
  queueMode q <> QueueMode_Unknown /\
  (queueMode q <> QueueMode_SpscRing -> storageMode q <> Storage_Unknown) /\
  (bounded q = true -> queueMode q <> QueueMode_Direct -> capacity q <> 0) /\
  timeInvalid (edgeTime e) = false.

(** Edges into, and out of, a port. *)
Definition inUse (es : list MediaEdge) (id : Z) : nat :=
  length (filter (fun e => endPortId (edgeTo e) = id) es).
Definition outUse (es : list MediaEdge) (id : Z) : nat :=
  length (filter (fun e => endPortId (edgeFrom e) = id) es).

(** An edge whose endpoints are a matching pair of ports of the graph; [es] are
    the edges that count for the multiplicity. *)
Definition edgeValid (g : MediaGraph) (e : MediaEdge) (from to : MediaPort) : Prop :=
  Edge_isValid e = true /\
  is_Some (findNode (endNodeId (edgeFrom e)) g) /\
  is_Some (findNode (endNodeId (edgeTo e)) g) /\
  findPort (endPortId (edgeFrom e)) g = Some from /\
  findPort (endPortId (edgeTo e)) g = Some to /\
  portNodeId from = endNodeId (edgeFrom e) /\ portNodeId to = endNodeId (edgeTo e) /\
  accepts to from = true /\ policyValid e.

Definition multiplicityOk (g : MediaGraph) (es : list MediaEdge) (e : MediaEdge) : Prop :=
  (forall p, findPort (endPortId (edgeTo e)) g = Some p -> portMultiple p = false ->
     (inUse es (endPortId (edgeTo e)) <= 1)%nat) /\
  (forall p, findPort (endPortId (edgeFrom e)) g = Some p -> portMultiple p = false ->
     (outUse es (endPortId (edgeFrom e)) <= 1)%nat).

(** Edges that leave one port agree on atomic delivery. *)
Definition atomicUniform (es : list MediaEdge) : Prop :=
  forall e1 e2, e1 ∈ es -> e2 ∈ es -> endPortId (edgeFrom e1) = endPortId (edgeFrom e2) ->
  atomicOutputAccepts (edgePolicy e1) = atomicOutputAccepts (edgePolicy e2).

Definition edgesValid (g : MediaGraph) (es : list MediaEdge) : Prop :=
  (forall e, e ∈ es -> exists from to, edgeValid g e from to) /\
  NoDup (edgeId <$> es) /\ (forall e, e ∈ es -> multiplicityOk g es e) /\ atomicUniform es.

Definition requiredConnected (g : MediaGraph) : Prop :=
  forall n p, n ∈ nodes g -> p ∈ inputPorts n -> portRequired p = true ->
  exists e, e ∈ edges g /\ endPortId (edgeTo e) = portId p.

Record ValidGraph (g : MediaGraph) : Prop := mkValidGraph {
  vg_nodes : Forall nodeValid (nodes g);
  vg_node_ids : NoDup (nodeId <$> nodes g);
  vg_port_ids : NoDup (portId <$> graphPorts g);
  vg_edges : edgesValid g (edges g);
  vg_required : requiredConnected g;
  vg_acyclic : acyclic g;
}.

(** ** Lemmas: the report *)

Lemma ok_app r i : ok (r ++ [i]) = ok r && negb (isErrorIssue i).
Proof. unfold ok. rewrite existsb_app. simpl. by rewrite orb_false_r, negb_orb. Qed.

Lemma ok_errorIf b c m n p e r : ok (errorIf b c m n p e r) = ok r && negb b.
Proof. unfold errorIf, addIssue. destruct b; [apply ok_app | by rewrite andb_true_r]. Qed.

Lemma ok_warnIf b c m n p e r : ok (warnIf b c m n p e r) = ok r.
Proof.
  unfold warnIf, addIssue. destruct b; [| done]. rewrite ok_app. apply andb_true_r.
Qed.

Lemma ok_error c m n p e r : ok (addIssue Severity_Error c m n p e r) = false.
Proof. unfold addIssue. rewrite ok_app. apply andb_false_r. Qed.

Lemma strEmpty_false s : strEmpty s = false <-> s <> EmptyString.
Proof. by destruct s. Qed.

#[local] Hint Rewrite ok_errorIf ok_warnIf ok_error : report.

(** ** Lemmas: ports and nodes *)

Definition loopDir (input : bool) : MediaPortDirection :=
  if input then Dir_Input else Dir_Output.

Lemma portInvalid_spec input n p :
  portInvalid input n p = false /\ timeInvalid (portTime p) = false <->
  portValid (loopDir input) n p.
Proof.
  unfold portInvalid, portValid, idValid, loopDir, isInput, isOutput.
  rewrite !orb_false_iff, !negb_false_iff, negb_true_iff, Z.eqb_neq, Z.eqb_eq, strEmpty_false.
  destruct input; rewrite bool_decide_eq_true; tauto.
Qed.

Lemma scanPort_ok input n s p :
  ok (ps_report (scanPort input n s p)) = true <->
  ok (ps_report s) = true /\ portValid (loopDir input) n p /\
  portId p ∉ ps_seen s /\ portName p ∉ ps_names s.
Proof.
  unfold scanPort, validatePortDescriptors. cbn [ps_report]. autorewrite with report.
  rewrite !andb_true_iff, !negb_true_iff, !bool_decide_eq_false, <- portInvalid_spec. tauto.
Qed.

Lemma scanPorts_seen input n ps s :
  ps_seen (foldl (scanPort input n) s ps) = list_to_set (portId <$> ps) ∪ ps_seen s.
Proof.
  revert s. induction ps as [| p ps IH]; intros s; simpl; [set_solver |].
  rewrite IH. simpl. set_solver.
Qed.

(** A list of values that avoids a set. *)
Definition avoids {A} `{Countable A} (l : list A) (s : gset A) : Prop :=
  forall x, x ∈ l -> x ∉ s.

Section avoids.
Context {A} `{Countable A}.
Implicit Types (l : list A) (s : gset A) (a : A).

Lemma avoids_nil s : avoids [] s <-> True.
Proof. unfold avoids. set_solver. Qed.
Lemma avoids_cons a l s : avoids (a :: l) s <-> a ∉ s /\ avoids l s.
Proof. unfold avoids. set_solver. Qed.
Lemma avoids_add a l s : avoids l ({[a]} ∪ s) <-> a ∉ l /\ avoids l s.
Proof. unfold avoids. set_solver. Qed.
Lemma avoids_app l1 l2 s : avoids (l1 ++ l2) s <-> avoids l1 s /\ avoids l2 s.
Proof. unfold avoids. set_solver. Qed.
Lemma avoids_union l l' s :
  avoids l (list_to_set l' ∪ s) <-> (forall x, x ∈ l' -> x ∉ l) /\ avoids l s.
Proof. unfold avoids. set_solver. Qed.
Lemma avoids_list l l' : avoids l (list_to_set l') <-> forall x, x ∈ l' -> x ∉ l.
Proof. unfold avoids. set_solver. Qed.
Lemma avoids_empty l : avoids l ∅ <-> True.
Proof. unfold avoids. set_solver. Qed.
End avoids.

Lemma scanPorts_ok input n ps s :
  ok (ps_report (foldl (scanPort input n) s ps)) = true <->
  ok (ps_report s) = true /\ Forall (portValid (loopDir input) n) ps /\
  NoDup (portId <$> ps) /\ avoids (portId <$> ps) (ps_seen s) /\
  NoDup (portName <$> ps) /\ avoids (portName <$> ps) (ps_names s).
Proof.
  revert s. induction ps as [| p ps IH]; intros s; simpl.
  { rewrite Forall_nil, !avoids_nil. pose proof (NoDup_nil_2 (A := string)).
    pose proof (NoDup_nil_2 (A := Z)). tauto. }
  rewrite IH, scanPort_ok, Forall_cons, !NoDup_cons, !avoids_cons.
  unfold scanPort. cbn [ps_seen ps_names]. rewrite !avoids_add. tauto.
Qed.

Lemma scanNode_ok s n :
  ok (ns_report (scanNode s n)) = true <->
  ok (ns_report s) = true /\ nodeValid n /\ nodeId n ∉ ns_nodes s /\
  NoDup (portId <$> nodePorts n) /\
  avoids (portId <$> nodePorts n) (ns_ports s).
Proof.
  unfold scanNode, nodeValid. destruct (Node_isValid n); simpl.
  2:{ rewrite ok_error. naive_solver. }
  rewrite scanPorts_ok. cbn [ps_report ps_seen ps_names].
  rewrite scanPorts_ok. cbn [ps_report ps_seen ps_names].
  rewrite ok_errorIf, andb_true_iff, negb_true_iff, bool_decide_eq_false, scanPorts_seen.
  cbn [ps_seen loopDir]. unfold nodePorts.
  rewrite fmap_app, NoDup_app, avoids_app, avoids_union, !avoids_empty. tauto.
Qed.

Lemma scanNode_valid s n :
  Node_isValid n = true ->
  ns_nodes (scanNode s n) = {[nodeId n]} ∪ ns_nodes s /\
  ns_ports (scanNode s n) = list_to_set (portId <$> nodePorts n) ∪ ns_ports s.
Proof.
  intros Hn. unfold scanNode. rewrite Hn. simpl. split; [done |].
  rewrite !scanPorts_seen. simpl.
  unfold nodePorts. rewrite fmap_app, list_to_set_app_L. set_solver.
Qed.

Definition nodesValid (ns : list MediaNode) : Prop :=
  Forall nodeValid ns /\ NoDup (nodeId <$> ns) /\ NoDup (portId <$> (ns ≫= nodePorts)).

Lemma scanNodes_ok ns :
  let s := foldl scanNode (mkNodeScan [] ∅ ∅) ns in
  (ok (ns_report s) = true <-> nodesValid ns) /\
  (nodesValid ns -> ns_nodes s = list_to_set (nodeId <$> ns) /\
     ns_ports s = list_to_set (portId <$> (ns ≫= nodePorts))).
Proof.
  induction ns as [| n ns IH] using rev_ind; cbv zeta.
  { simpl. unfold nodesValid. simpl. rewrite Forall_nil. split; [| done].
    split; [| done]. intros _. repeat split; constructor. }
  rewrite foldl_snoc. revert IH. cbv zeta. set (s := foldl _ _ ns). intros [IH1 IH2].
  assert (E : nodesValid (ns ++ [n]) <->
    nodesValid ns /\ nodeValid n /\ nodeId n ∉ (list_to_set (nodeId <$> ns) : gset Z) /\
    NoDup (portId <$> nodePorts n) /\
    avoids (portId <$> nodePorts n) (list_to_set (portId <$> (ns ≫= nodePorts)))).
  { unfold nodesValid. rewrite Forall_app, Forall_singleton, fmap_app, bind_app. simpl.
    rewrite app_nil_r, fmap_app, NoDup_snoc, NoDup_app, avoids_list, elem_of_list_to_set.
    tauto. }
  rewrite scanNode_ok, E, IH1. split.
  - split; intros (Hns & Hrest); (split; [done |]);
      destruct (IH2 Hns) as [Es Ep]; [by rewrite <- Es, <- Ep | by rewrite Es, Ep].
  - intros (Hns & Hn & _). destruct (IH2 Hns) as [Es Ep].
    destruct (scanNode_valid s n (proj1 Hn)) as [-> ->]. rewrite Es, Ep.
    rewrite fmap_app, bind_app, fmap_app, !list_to_set_app_L. simpl. rewrite app_nil_r.
    rewrite (right_id_L ∅ (∪)). split; apply (comm_L (∪)).
Qed.

(** ** Lemmas: edges *)

Lemma policyValid_spec e r :
  ok (validateEdgePolicy e r) = true <-> ok r = true /\ policyValid e.
Proof.
  unfold validateEdgePolicy, policyValid. autorewrite with report.
  rewrite !andb_true_iff, !negb_true_iff, !andb_false_iff, !bool_decide_eq_false, Z.eqb_neq.
  set (q := queuePolicy (edgePolicy e)).
  destruct (bounded q), (decide (queueMode q = QueueMode_SpscRing)),
    (decide (queueMode q = QueueMode_Direct)), (decide (capacity q = 0)),
    (decide (storageMode q = Storage_Unknown)); intuition congruence.
Qed.

Lemma usage_insert m (k v j : Z) :
  usage (<[k := v]> m) j = if decide (k = j) then v else usage m j.
Proof. unfold usage. rewrite lookup_insert. by case_decide. Qed.

Lemma accepts_dir to from : accepts to from = true -> isInput to = true /\ isOutput from = true.
Proof. unfold accepts. by destruct (isInput to), (isOutput from). Qed.

Lemma scanEdgePorts_ok e from to s :
  ok (es_report (scanEdgePorts e from to s)) = true <->
  ok (es_report s) = true /\
  portNodeId from = endNodeId (edgeFrom e) /\ portNodeId to = endNodeId (edgeTo e) /\
  accepts to from = true /\ policyValid e /\
  default (atomicOutputAccepts (edgePolicy e)) (es_atomic s !! portId from) =
    atomicOutputAccepts (edgePolicy e) /\
  (portMultiple to = false -> usage (es_inputUsage s) (portId to) <= 0) /\
  (portMultiple from = false -> usage (es_outputUsage s) (portId from) <= 0).
Proof.
  unfold scanEdgePorts. cbn [es_report]. rewrite policyValid_spec. autorewrite with report.
  rewrite !usage_insert, !decide_True by done.
  rewrite !andb_true_iff, !negb_true_iff, !orb_false_iff, !andb_false_iff, !negb_false_iff,
    !Z.eqb_eq, !Z.ltb_ge, Bool.eqb_true_iff.
  pose proof (accepts_dir to from) as Hd.
  assert (Hle : forall u, u + 1 <= 1 <-> u <= 0) by lia. rewrite !Hle.
  destruct (portMultiple to), (portMultiple from); intuition congruence.
Qed.

Lemma findPort_id id g p : findPort id g = Some p -> portId p = id.
Proof.
  unfold findPort. destruct (idValid id); [| done].
  induction (nodes g) as [| n ns IH]; simpl; [done |].
  destruct (findFirst _ (inputPorts n)) as [q |] eqn:E1.
  { intros [= ->]. apply findFirst_Some in E1 as [_ E1]. by apply Z.eqb_eq. }
  destruct (findFirst _ (outputPorts n)) as [q |] eqn:E2; [| done].
  intros [= ->]. apply findFirst_Some in E2 as [_ E2]. by apply Z.eqb_eq.
Qed.

Lemma inUse_snoc es e k :
  inUse (es ++ [e]) k = (inUse es k + if decide (endPortId (edgeTo e) = k) then 1 else 0)%nat.
Proof.
  unfold inUse. rewrite filter_app, length_app, filter_cons, filter_nil. by case_decide.
Qed.

Lemma outUse_snoc es e k :
  outUse (es ++ [e]) k = (outUse es k + if decide (endPortId (edgeFrom e) = k) then 1 else 0)%nat.
Proof.
  unfold outUse. rewrite filter_app, length_app, filter_cons, filter_nil. by case_decide.
Qed.

(** What the edge loop checks of the edge at hand against the earlier ones. *)
Definition edgeFits (g : MediaGraph) (es : list MediaEdge) (e : MediaEdge)
    (from to : MediaPort) : Prop :=
  edgeValid g e from to /\ edgeId e ∉ edgeId <$> es /\
  (portMultiple to = false -> inUse es (portId to) = 0%nat) /\
  (portMultiple from = false -> outUse es (portId from) = 0%nat) /\
  (forall e', e' ∈ es -> endPortId (edgeFrom e') = portId from ->
     atomicOutputAccepts (edgePolicy e') = atomicOutputAccepts (edgePolicy e)).

Lemma edgesValid_snoc g es e :
  edgesValid g (es ++ [e]) <->
  edgesValid g es /\ exists from to, edgeFits g es e from to.
Proof.
  unfold edgesValid, edgeFits, multiplicityOk. rewrite fmap_app. simpl. rewrite NoDup_snoc.
  setoid_rewrite inUse_snoc. setoid_rewrite outUse_snoc. split.
  - intros (Hv & [Hnd Hfresh] & Hm & Hat). split.
    + split; [set_solver |]. split; [done |]. split.
      * intros e' He'. destruct (Hm e' ltac:(set_solver)) as [H1 H2].
        split; intros p Hp Hmul; [specialize (H1 p Hp Hmul) | specialize (H2 p Hp Hmul)]; lia.
      * intros e1 e2 ??. apply Hat; set_solver.
    + destruct (Hv e ltac:(set_solver)) as (from & to & He). exists from, to.
      destruct (Hm e ltac:(set_solver)) as [H1 H2].
      destruct He as (? & ? & ? & Hf & Ht & Hrest).
      rewrite (findPort_id _ _ _ Hf), (findPort_id _ _ _ Ht).
      split; [done |]. split; [done |]. split; [| split].
      * intros Hmul. specialize (H1 to Ht Hmul). rewrite decide_True in H1 by done. lia.
      * intros Hmul. specialize (H2 from Hf Hmul). rewrite decide_True in H2 by done. lia.
      * intros e' ??. apply Hat; set_solver.
  - intros ((Hv & Hnd & Hm & Hat) & from & to & He & Hfresh & H1 & H2 & H3).
    pose proof He as (_ & _ & _ & Hf & Ht & _).
    rewrite (findPort_id _ _ _ Hf) in H2, H3. rewrite (findPort_id _ _ _ Ht) in H1.
    split; [set_solver |]. split; [done |]. split.
    + intros e' He'. apply elem_of_app in He' as [He' | ->%list_elem_of_singleton].
      * destruct (Hm e' He') as [M1 M2]. split; intros p Hp Hmul.
        -- specialize (M1 p Hp Hmul). case_decide as E; [| lia]. rewrite <- E in *.
           simplify_eq. rewrite H1 by done. lia.
        -- specialize (M2 p Hp Hmul). case_decide as E; [| lia]. rewrite <- E in *.
           simplify_eq. rewrite H2 by done. lia.
      * split; intros p Hp Hmul; simplify_eq; rewrite ?H1, ?H2, decide_True by done; lia.
    + intros e1 e2 I1 I2 E. apply elem_of_app in I1 as [I1 | ->%list_elem_of_singleton];
        apply elem_of_app in I2 as [I2 | ->%list_elem_of_singleton]; auto.
      symmetry. auto.
Qed.

(** What the maps of the edge loop hold after the edges [es]. *)
Record EdgeMaps (es : list MediaEdge) (s : EdgeScan) : Prop := mkEdgeMaps {
  em_in : forall k, usage (es_inputUsage s) k = Z.of_nat (inUse es k);
  em_out : forall k, usage (es_outputUsage s) k = Z.of_nat (outUse es k);
  em_atomic : forall k b, es_atomic s !! k = Some b ->
    exists e, e ∈ es /\ endPortId (edgeFrom e) = k /\ atomicOutputAccepts (edgePolicy e) = b;
  em_atomic_dom : forall e, e ∈ es -> is_Some (es_atomic s !! endPortId (edgeFrom e));
  em_seen : es_seen s = list_to_set (edgeId <$> es);
}.

(** The atomic flag remembered for a port agrees with the edge at hand exactly
    when the earlier edges of the port do. *)
Lemma atomic_agrees es s from b :
  atomicUniform es -> EdgeMaps es s ->
  default b (es_atomic s !! from) = b <->
  (forall e', e' ∈ es -> endPortId (edgeFrom e') = from ->
     atomicOutputAccepts (edgePolicy e') = b).
Proof.
  intros Hu [_ _ Ha Hd _]. split.
  - intros Hb e' He' <-. destruct (Hd e' He') as [b' Hb']. rewrite Hb' in Hb. simpl in Hb.
    subst. destruct (Ha _ _ Hb') as (e & He & Ef & <-). by apply Hu.
  - intros H. destruct (es_atomic s !! from) as [b' |] eqn:E; [| done]. simpl.
    destruct (Ha _ _ E) as (e & He & Ef & <-). by apply H.
Qed.

Lemma scanEdge_ok g es s e :
  edgesValid g es -> EdgeMaps es s ->
  ok (es_report (scanEdge g s e)) = true <->
  ok (es_report s) = true /\ exists from to, edgeFits g es e from to.
Proof.
  intros (_ & _ & _ & Hu) HM. unfold scanEdge.
  destruct (Edge_isValid e) eqn:Ev; cbn [negb].
  2:{ cbn [withReport es_report]. rewrite ok_error. split; [done |]. intros (_ & from & to & (He & _) & _). congruence. }
  destruct (findNode (endNodeId (edgeFrom e)) g) as [n1 |] eqn:E1; cbn [withReport es_report].
  2:{ rewrite ok_error. split; [done |]. intros (_ & ? & ? & (_ & [? ?] & _) & _). congruence. }
  destruct (findNode (endNodeId (edgeTo e)) g) as [n2 |] eqn:E2; cbn [withReport es_report].
  2:{ rewrite ok_error. split; [done |]. intros (_ & ? & ? & (_ & _ & [? ?] & _) & _). congruence. }
  destruct (findPort (endPortId (edgeFrom e)) g) as [from |] eqn:E3; cbn [withReport es_report].
  2:{ rewrite ok_error. split; [done |]. intros (_ & ? & ? & (_ & _ & _ & ? & _) & _). congruence. }
  destruct (findPort (endPortId (edgeTo e)) g) as [to |] eqn:E4; cbn [withReport es_report].
  2:{ rewrite ok_error. split; [done |].
      intros (_ & ? & ? & (_ & _ & _ & _ & ? & _) & _). congruence. }
  rewrite scanEdgePorts_ok. cbn [es_report es_atomic es_inputUsage es_outputUsage].
  rewrite ok_errorIf, andb_true_iff, negb_true_iff, bool_decide_eq_false.
  rewrite (em_seen _ _ HM), elem_of_list_to_set, (em_in _ _ HM), (em_out _ _ HM).
  rewrite (atomic_agrees es s (portId from) _ Hu HM). unfold edgeFits, edgeValid.
  rewrite Ev, E1, E2, E3, E4.
  assert (Hz : forall n, Z.of_nat n <= 0 <-> n = 0%nat) by lia. rewrite !Hz.
  split; [intros ((? & ?) & ? & ? & ? & ? & ? & ? & ?) |
          intros (? & f & t & (_ & _ & _ & Ef & Et & ? & ? & ? & ?) & ? & ? & ? & ?)].
  - split; [done |]. exists from, to. split_and!; eauto.
  - injection Ef as <-. injection Et as <-. tauto.
Qed.

Lemma scanEdge_maps g es s e from to :
  EdgeMaps es s -> edgeFits g es e from to -> EdgeMaps (es ++ [e]) (scanEdge g s e).
Proof.
  intros [Hi Ho Ha Hd Hs] (He & _). destruct He as (Ev & [n1 E1] & [n2 E2] & E3 & E4 & _).
  unfold scanEdge. rewrite Ev, E1, E2, E3, E4. simpl.
  pose proof (findPort_id _ _ _ E3) as Pf. pose proof (findPort_id _ _ _ E4) as Pt.
  unfold scanEdgePorts. constructor; simpl.
  - intros k. rewrite usage_insert, inUse_snoc, !Hi, Pt. case_decide; subst; lia.
  - intros k. rewrite usage_insert, outUse_snoc, !Ho, Pf. case_decide; subst; lia.
  - intros k b. rewrite lookup_insert, Pf. case_decide as Ek.
    + intros [= <-]. destruct (es_atomic s !! endPortId (edgeFrom e)) as [b' |] eqn:E; simpl.
      * destruct (Ha _ _ E) as (e0 & ? & ? & ?). exists e0. set_solver.
      * exists e. set_solver.
    + intros Hb. destruct (Ha _ _ Hb) as (e0 & ? & ? & ?). exists e0. set_solver.
  - intros e0 He0. rewrite lookup_insert_is_Some, Pf.
    destruct (decide (endPortId (edgeFrom e) = endPortId (edgeFrom e0))); [by left | right].
    apply elem_of_app in He0 as [He0 | ->%list_elem_of_singleton]; [by auto | done].
  - rewrite fmap_app, list_to_set_app_L, Hs. simpl. rewrite (right_id_L ∅ (∪)).
    apply (comm_L (∪)).
Qed.

(** An error stays in the report. *)
Lemma scanEdge_mono g s e :
  ok (es_report (scanEdge g s e)) = true -> ok (es_report s) = true.
Proof.
  unfold scanEdge.
  repeat (case_match; cbn [negb withReport es_report]; rewrite ?ok_error; try done).
  rewrite scanEdgePorts_ok. cbn [es_report]. rewrite ok_errorIf, andb_true_iff. tauto.
Qed.

Lemma scanEdges_ok g r es :
  let s := foldl (scanEdge g) (mkEdgeScan r ∅ ∅ ∅ ∅) es in
  (ok (es_report s) = true -> ok r = true /\ edgesValid g es) /\
  (edgesValid g es -> EdgeMaps es s /\ (ok r = true -> ok (es_report s) = true)).
Proof.
  induction es as [| e es IH] using rev_ind; cbv zeta.
  { simpl. split.
    - intros Hr. split; [done |]. unfold edgesValid, atomicUniform.
      pose proof (NoDup_nil_2 (A := Z)). set_solver.
    - intros _. split; [| done]. constructor; simpl; try set_solver. }
  rewrite foldl_snoc. revert IH. cbv zeta. set (s := foldl _ _ es). intros [IH1 IH2]. split.
  - intros Hok. assert (Hs : ok (es_report s) = true) by (by eapply scanEdge_mono).
    destruct (IH1 Hs) as [Hr Hes]. destruct (IH2 Hes) as [HM _]. split; [done |].
    apply edgesValid_snoc. split; [done |]. by apply (scanEdge_ok g es s e Hes HM).
  - intros (Hes & from & to & Hfit)%edgesValid_snoc. destruct (IH2 Hes) as [HM Hs].
    split; [by eapply scanEdge_maps |]. intros Hr. apply (scanEdge_ok g es s e Hes HM). eauto.
Qed.

(** ** Lemmas: required ports *)

Lemma foldl_errorIf {A} (cond : A -> bool) c m (n p e : A -> Z) (l : list A) r :
  ok (foldl (fun r x => errorIf (cond x) c m (n x) (p x) (e x) r) r l) = true <->
  ok r = true /\ Forall (fun x => cond x = false) l.
Proof.
  revert r. induction l as [| x l IH]; intros r; simpl; [rewrite Forall_nil; tauto |].
  rewrite IH, ok_errorIf, Forall_cons, andb_true_iff, negb_true_iff. tauto.
Qed.

Lemma foldl_warnIf {A} (cond : A -> bool) c m (n p e : A -> Z) (l : list A) r :
  ok (foldl (fun r x => warnIf (cond x) c m (n x) (p x) (e x) r) r l) = ok r.
Proof.
  revert r. induction l as [| x l IH]; intros r; simpl; [done |].
  by rewrite IH, ok_warnIf.
Qed.

Lemma scanRequired_ok s ns r :
  ok (foldl (scanRequired s) r ns) = true <->
  ok r = true /\ forall n p, n ∈ ns -> p ∈ inputPorts n -> portRequired p = true ->
    usage (es_inputUsage s) (portId p) <> 0.
Proof.
  revert r. induction ns as [| n ns IH]; intros r; simpl; [set_solver |].
  rewrite IH. unfold scanRequired at 1.
  rewrite (foldl_warnIf _ _ _ (fun _ => nodeId n) portId (fun _ => invalidId)).
  rewrite (foldl_errorIf _ _ _ (fun _ => nodeId n) portId (fun _ => invalidId)), Forall_forall.
  setoid_rewrite andb_false_iff. setoid_rewrite Z.eqb_neq. setoid_rewrite elem_of_cons.
  split.
  - intros [[Hr Hn] Hns]. split; [done |]. intros n' p [-> | Hin] Hp Hreq; [| by eapply Hns].
    destruct (Hn p Hp); [congruence | done].
  - intros [Hr H]. split; [split; [done |] |]; [| by eauto].
    intros p Hp. destruct (portRequired p) eqn:E; [right | by left]. eapply H; eauto.
Qed.

Lemma inUse_pos es k : inUse es k <> 0%nat <-> exists e, e ∈ es /\ endPortId (edgeTo e) = k.
Proof.
  unfold inUse. rewrite length_zero_iff_nil. split.
  - intros H. destruct (filter _ es) as [| e l] eqn:E; [done |].
    assert (Hin : e ∈ filter (fun e => endPortId (edgeTo e) = k) es) by (rewrite E; left).
    apply list_elem_of_filter in Hin as [? ?]. eauto.
  - intros (e & He & Ek) Hnil.
    assert (Hin : e ∈ filter (fun e => endPortId (edgeTo e) = k) es)
      by (by apply list_elem_of_filter).
    rewrite Hnil in Hin. by apply not_elem_of_nil in Hin.
Qed.

Lemma nodesValid_keys g : nodesValid (nodes g) -> NoDup (keys g).
Proof.
  intros (_ & Hnd & _). eapply sublist_NoDup; [exact Hnd | apply filter_sublist].
Qed.

(** The four passes together. *)
Lemma ok_validate g :
  ok (validate g) = true <->
  nodesValid (nodes g) /\ edgesValid g (edges g) /\ requiredConnected g /\
  resultOk (build g) = true.
Proof.
  unfold validate, edgeScan, nodeScan, validateAcyclic.
  destruct (scanNodes_ok (nodes g)) as [HN _]. set (r := ns_report _) in *.
  destruct (scanEdges_ok g r (edges g)) as [HE1 HE2]. set (s := foldl (scanEdge g) _ _) in *.
  rewrite ok_errorIf, andb_true_iff, negb_involutive, scanRequired_ok.
  assert (Hreq : EdgeMaps (edges g) s -> (forall n p, n ∈ nodes g -> p ∈ inputPorts n ->
     portRequired p = true -> usage (es_inputUsage s) (portId p) <> 0) <-> requiredConnected g).
  { intros HM. unfold requiredConnected. setoid_rewrite (em_in _ _ HM).
    setoid_rewrite <- inUse_pos. split; intros H n p ???; specialize (H n p); naive_solver lia. }
  split.
  - intros [[Hs Hr] Hac]. destruct (HE1 Hs) as [Hn He]. destruct (HE2 He) as [HM _].
    apply HN in Hn. by rewrite Hreq in Hr.
  - intros (Hn & He & Hr & Hac). destruct (HE2 He) as [HM Hs].
    rewrite Hreq by done. split; [split; [apply Hs, HN, Hn | done] | done].
Qed.

(** ** Lemmas: graphs built through the interface *)

(** What validation still checks of a graph the interface built. *)
Record PolicyValid (g : MediaGraph) : Prop := mkPolicyValid {
  pv_names : forall n, n ∈ nodes g ->
    NoDup (portName <$> inputPorts n) /\ NoDup (portName <$> outputPorts n);
  pv_times : forall p, p ∈ graphPorts g -> timeInvalid (portTime p) = false;
  pv_policies : forall e, e ∈ edges g -> policyValid e /\ multiplicityOk g (edges g) e;
  pv_atomic : atomicUniform (edges g);
  pv_required : requiredConnected g;
  pv_acyclic : acyclic g;
}.

Lemma idValid_bound id limit : 1 <= id < limit -> limit <= invalidId -> id <> invalidId.
Proof. lia. Qed.

Lemma Wf_nodesValid g :
  Wf g -> (forall n, n ∈ nodes g ->
    NoDup (portName <$> inputPorts n) /\ NoDup (portName <$> outputPorts n)) ->
  (forall p, p ∈ graphPorts g -> timeInvalid (portTime p) = false) ->
  nodesValid (nodes g).
Proof.
  intros Hwf Hnames Htimes. split; [| split; apply Hwf].
  apply Forall_forall. intros n Hn. destruct (Hnames n Hn) as [N1 N2].
  pose proof (proj1 (Forall_forall _ _) (wf_nodes g Hwf) n Hn) as (Hid & Hk & Hnm & Hi & Ho).
  destruct (wf_counters g Hwf) as (C1 & C2 & _).
  assert (Hports : forall dir p, p ∈ nodePorts n -> portOk (nextPortId g) (nodeId n) dir p ->
            portValid dir n p).
  { intros dir p Hp (? & ? & ? & ?). split_and!; try done; [lia |].
    apply Htimes. unfold graphPorts. apply list_elem_of_bind. eauto. }
  rewrite Forall_forall in Hi, Ho. split; [| split_and!; try done; apply Forall_forall].
  - unfold Node_isValid, idValid. rewrite !andb_true_iff, !negb_true_iff, Z.eqb_neq,
      bool_decide_eq_true, strEmpty_false. split_and!; try done. lia.
  - intros p Hp. apply Hports; [by apply inputPorts_sub | by apply Hi].
  - intros p Hp. apply Hports; [by apply outputPorts_sub | by apply Ho].
Qed.

Lemma Wf_edgeValid g e :
  Wf g -> e ∈ edges g -> policyValid e -> exists from to, edgeValid g e from to.
Proof.
  intros Hwf He Hpol.
  pose proof (proj1 (Forall_forall _ _) (wf_edges g Hwf) e He) as (Hid & from & to & Hf & Ht & Ha).
  exists from, to. destruct (wf_counters g Hwf) as (C1 & C2 & C3).
  destruct Hf as (n1 & Hn1 & En1 & Hp1 & Ep1). destruct Ht as (n2 & Hn2 & En2 & Hp2 & Ep2).
  assert (I1 : from ∈ graphPorts g).
  { apply list_elem_of_bind. exists n1. split; [by apply outputPorts_sub | done]. }
  assert (I2 : to ∈ graphPorts g).
  { apply list_elem_of_bind. exists n2. split; [by apply inputPorts_sub | done]. }
  pose proof (proj1 (Forall_forall _ _) (wf_nodes g Hwf) n1 Hn1) as (B1 & _ & _ & _ & O1).
  pose proof (proj1 (Forall_forall _ _) (wf_nodes g Hwf) n2 Hn2) as (B2 & _ & _ & O2 & _).
  pose proof (proj1 (Forall_forall _ _) O1 from Hp1) as (P1 & F1 & _).
  pose proof (proj1 (Forall_forall _ _) O2 to Hp2) as (P2 & F2 & _).
  unfold edgeValid. rewrite <- En1, <- En2, <- Ep1, <- Ep2.
  rewrite !findNode_wf, !findPort_wf by done. split_and!; eauto.
  unfold Edge_isValid, Endpoint_isValid, idValid.
  rewrite !andb_true_iff, !negb_true_iff, !Z.eqb_neq. lia.
Qed.

(** ** Properties *)

(** C10: [MediaGraphValidation::validate] reports no error exactly on the valid
    graphs: nodes, ports and edges with distinct valid identifiers; per node
    distinct port names in each direction; time descriptors with non-zero
    denominators; edges between existing ports of the named nodes that accept
    each other, with a usable queue policy, within the multiplicity of both
    ports and uniform in atomic delivery per output port; every required input
    connected; and no cycle. *)
Theorem validate_iff g : ok (validate g) = true <-> ValidGraph g.
Proof.
  rewrite ok_validate. split.
  - intros (Hn & ? & ? & Hac). pose proof Hn as (? & ? & ?). constructor; try done.
    apply build_ok_acyclic; [by apply nodesValid_keys | done].
  - intros [H1 H2 H3 H4 H5 H6]. split_and!; try done.
    apply build_ok_acyclic; [by apply nodesValid_keys | done].
Qed.

(** A graph without errors: the triangle with a usable policy on each edge. *)
Definition demoPolicy : MediaEdgePolicy :=
  mkEdgePolicy (mkQueuePolicy QueueMode_SpscRing Overflow_BlockProducer Ordering_Fifo
    Storage_Unknown 16 0 defaultDropPolicy defaultBackpressurePolicy true true true true)
    defaultBufferPolicy defaultBackpressurePolicy.
Definition validTriangle : MediaGraph :=
  runOps [Op_setEdgePolicy 1 demoPolicy; Op_setEdgePolicy 2 demoPolicy;
          Op_setEdgePolicy 3 demoPolicy] triangle.

(** On a well-formed graph, hence on every graph the interface of
    [MediaGraph] builds, validation can only fail for what the interface does
    not enforce: port names, time descriptors, queue policies, multiplicities,
    uniform atomic delivery, required inputs and cycles. *)
Theorem validate_wf g : Wf g -> (ok (validate g) = true <-> PolicyValid g).
Proof.
  intros Hwf. rewrite ok_validate. pose proof (Wf_keys g Hwf) as Hk. split.
  - intros ((Hn & _) & (He & _ & Hm & Hat) & Hr & Hac). rewrite Forall_forall in Hn.
    constructor; try done; [| | | by apply build_ok_acyclic].
    + intros n Hin. by destruct (Hn n Hin) as (_ & _ & _ & ? & ?).
    + intros p (n & Hp & Hin)%list_elem_of_bind.
      destruct (Hn n Hin) as (_ & Hi & Ho & _). rewrite Forall_forall in Hi, Ho.
      apply elem_of_app in Hp as [Hp | Hp]; [by apply Hi | by apply Ho].
    + intros e Hin. destruct (He e Hin) as (from & to & Hv). split; [apply Hv | by apply Hm].
  - intros [H1 H2 H3 H4 H5 H6]. split_and!; [by apply Wf_nodesValid | | done |].
    + split_and!; [| apply Hwf | |]; try done.
      * intros e Hin. apply Wf_edgeValid; [done | done | by apply H3].
      * intros e Hin. by apply H3.
    + by apply build_ok_acyclic.
Qed.

Lemma validate_wf_witness : PolicyValid validTriangle /\ Wf validTriangle.
Proof.
  assert (Hwf : Wf validTriangle).
  { apply (runOps_wf _ triangle 5);
      [lia | vm_compute; discriminate | vm_compute; intuition congruence |].
    apply (runOps_wf triangleOps emptyGraph 1);
      [lia | vm_compute; discriminate | unfold countersAtMost; simpl; lia | apply Wf_empty]. }
  split; [| exact Hwf]. apply (validate_wf validTriangle Hwf). vm_compute. reflexivity.
Defined.

(** An edge created by [connect] without a policy keeps the default queue
    policy, whose storage mode is unknown, so the graph then always fails
    validation. *)
Theorem connect_default_invalid a b c d name req g :
  (connect a b c d name req g).2 <> invalidId ->
  ok (validate (connect a b c d name req g).1) = false.
Proof.
  intros Hid. apply not_true_is_false. rewrite ok_validate. intros (_ & (He & _) & _).
  unfold connect, connectWith in *.
  destruct (findOutputPort a b g) as [from |]; [| done].
  destruct (findInputPort c d g) as [to |]; [| done].
  destruct (accepts to from); [| done]. simpl in *.
  match type of He with forall e, e ∈ edges g ++ [?x] -> _ =>
    destruct (He x ltac:(set_solver)) as (f & t & Hv) end.
  destruct Hv as (_ & _ & _ & _ & _ & _ & _ & _ & _ & Hs & _). by apply Hs.
Qed.

Lemma connect_default_invalid_witness :
  ok (validate (connect 1 "o" 2 "i" "again" true validTriangle).1) = false.
Proof. apply connect_default_invalid. vm_compute. discriminate. Defined.

End MediaGraphValidation.
