(* ===== verification/Ring.v ===== *)
(** * Ring buffers

    Shared by the two ring storages of [src/internal/graph/runtime/queue/]
    ([MediaBlockingQueueStorage] and [MediaSpscRingQueue]): a vector of
    references, a head index and a window of occupied slots that wraps around.
    [ringHolds ring head cs] says that the window starting at [head] holds the
    references [cs] in order and that every other slot is null. *)

From S2P Require Import Prelude.
From stdpp Require Import list_misc.

(** Moving a later element one place down and deleting its old place is
    deleting the place it moved to. *)
Lemma delete_move {A} (l : list A) i x y :
  l !! S i = Some x -> delete (S i) (<[i := x]> (<[S i := y]> l)) = delete i l.
Proof.
  revert i. induction l as [| a l IH]; intros [| i] H; simpl in *; try done.
  - destruct l as [| b l]; simpl in *; [done | congruence].
  - f_equal. by apply IH.
Qed.

(** Likewise for an earlier element moved one place up. *)
Lemma delete_move_up {A} (l : list A) i x y :
  l !! i = Some x -> S i < length l ->
  delete i (<[S i := x]> (<[i := y]> l)) = delete (S i) l.
Proof.
  revert i. induction l as [| a l IH]; intros [| i] H Hl; simpl in *; try done.
  - destruct l as [| b l]; simpl in *; [lia | congruence].
  - f_equal. apply IH; [done | lia].
Qed.

Section ring.
Context {A : Type}.
Implicit Types (ring cs : list (option A)) (x : option A) (h i : nat).

(** The slot [i] places after [h]. *)
Definition slot (h i len : nat) : nat := (h + i) mod len.

Definition ringHolds ring h cs : Prop :=
  h < length ring /\ length cs <= length ring /\
  rotate h ring = cs ++ replicate (length ring - length cs) None.

Lemma slot_rotate h i len : len <> 0 -> slot h i len = rotate_nat_add h i len.
Proof.
  intros Hl. unfold slot, rotate_nat_add.
  rewrite <- Nat2Z.inj_add, <- Nat2Z.inj_mod, Nat2Z.id. done.
Qed.

Lemma slot_lt h i len : 0 < len -> slot h i len < len.
Proof. intros. apply Nat.mod_upper_bound. lia. Qed.

Lemma slot_0 h len : h < len -> slot h 0 len = h.
Proof. intros. unfold slot. rewrite Nat.add_0_r. by apply Nat.mod_small. Qed.

Lemma slot_slot h i j len : 0 < len -> slot (slot h i len) j len = slot h (i + j) len.
Proof. intros. unfold slot. rewrite Nat.Div0.add_mod_idemp_l. f_equal. lia. Qed.

Lemma slot_inj h i j len : i < len -> j < len -> slot h i len = slot h j len -> i = j.
Proof.
  intros Hi Hj E. unfold slot in E.
  pose proof (Nat.div_mod_eq (h + i) len). pose proof (Nat.div_mod_eq (h + j) len).
  destruct (Nat.lt_trichotomy ((h + i) / len) ((h + j) / len)) as [Hq | [Hq | Hq]].
  - assert (len * S ((h + i) / len) <= len * ((h + j) / len)) by (apply Nat.mul_le_mono_l; lia).
    lia.
  - rewrite Hq in *. lia.
  - assert (len * S ((h + j) / len) <= len * ((h + i) / len)) by (apply Nat.mul_le_mono_l; lia).
    lia.
Qed.

Lemma rotate_lookup ring h i :
  i < length ring -> ring !! slot h i (length ring) = rotate h ring !! i.
Proof. intros. rewrite lookup_rotate_r, slot_rotate by lia. done. Qed.

Lemma rotate_update ring h i x :
  i < length ring -> rotate h (<[slot h i (length ring) := x]> ring) = <[i := x]> (rotate h ring).
Proof. intros. rewrite slot_rotate by lia. by apply rotate_insert_l. Qed.

(** Moving the head by one takes the first slot of the view to its end. *)
Lemma rotate_succ ring h x l :
  rotate h ring = x :: l -> rotate (slot h 1 (length ring)) ring = l ++ [x].
Proof.
  intros E. pose proof (length_rotate ring h) as Hl. rewrite E in Hl. simpl in Hl.
  apply list_eq_same_length with (length ring);
    [rewrite length_app; simpl; lia | by rewrite length_rotate |].
  intros i y z Hi. rewrite <- rotate_lookup, slot_slot by lia.
  destruct (decide (S i = length ring)) as [Hlast | Hne].
  - replace (slot h (1 + i) (length ring)) with (slot h 0 (length ring)).
    + rewrite rotate_lookup, E by lia. rewrite lookup_app_r by lia.
      replace (i - length l) with 0 by lia. simpl. congruence.
    + unfold slot. replace (h + (1 + i)) with (h + 0 + 1 * length ring) by lia.
      by rewrite Nat.Div0.mod_add.
  - rewrite rotate_lookup, E by lia. simpl. rewrite lookup_app_l by lia. congruence.
Qed.

(** The slot before, as the code computes it. *)
Lemma slot_pred h i len :
  0 < len ->
  (if slot h (S i) len =? 0 then len - 1 else slot h (S i) len - 1) = slot h i len.
Proof.
  intros Hl. unfold slot. rewrite Nat.add_succ_r.
  pose proof (Nat.mod_upper_bound (h + i) len ltac:(lia)) as Hb.
  rewrite <- Nat.add_1_r, <- (Nat.Div0.add_mod_idemp_l (h + i) 1 len).
  set (m := (h + i) mod len) in *.
  destruct (decide (m + 1 = len)) as [E | E].
  - rewrite E, Nat.Div0.mod_same. simpl. lia.
  - rewrite (Nat.mod_small (m + 1)) by lia. destruct (Nat.eqb_spec (m + 1) 0); lia.
Qed.

(** ** Reading and writing the window *)

Lemma ring_lookup ring h cs i :
  ringHolds ring h cs -> i < length cs -> ring !! slot h i (length ring) = cs !! i.
Proof. intros (? & ? & E) ?. rewrite rotate_lookup, E, lookup_app_l by lia. done. Qed.

Lemma ring_head ring h x cs : ringHolds ring h (x :: cs) -> ring !! h = Some x.
Proof.
  intros H. pose proof H as (? & _). pose proof (ring_lookup _ _ _ 0 H ltac:(simpl; lia)) as E.
  by rewrite slot_0 in E.
Qed.

Lemma ring_update ring h cs i x :
  ringHolds ring h cs -> i < length cs ->
  ringHolds (<[slot h i (length ring) := x]> ring) h (<[i := x]> cs).
Proof.
  intros (? & ? & E) ?. split; [by rewrite length_insert |].
  split; [by rewrite !length_insert |].
  rewrite rotate_update, E, insert_app_l, !length_insert by lia. done.
Qed.

(** [ring\[to\] = std::move(ring\[from\])]; the moved-from slot is null. *)
Definition moveSlot (to from : nat) ring : list (option A) :=
  <[to := ring !!! from]> (<[from := None]> ring).

Lemma length_moveSlot to from ring : length (moveSlot to from ring) = length ring.
Proof. unfold moveSlot. by rewrite !length_insert. Qed.

Lemma ring_move ring h cs i j x :
  ringHolds ring h cs -> cs !! j = Some x -> i < length cs ->
  ringHolds (moveSlot (slot h i (length ring)) (slot h j (length ring)) ring) h
    (<[i := x]> (<[j := None]> cs)).
Proof.
  intros Hr Hx Hi. assert (Hj : j < length cs) by (by eapply lookup_lt_Some). unfold moveSlot.
  erewrite list_lookup_total_correct by (rewrite (ring_lookup _ _ cs); [exact Hx | done | lia]).
  apply (ring_update _ _ _ j None) in Hr; [| lia].
  apply (ring_update _ _ _ i x) in Hr; [| rewrite length_insert; lia].
  by rewrite length_insert in Hr.
Qed.

(** A null reference at the end of the window is a free slot. *)
Lemma ring_none_end ring h cs :
  ringHolds ring h (cs ++ [None]) <-> ringHolds ring h cs /\ length cs < length ring.
Proof.
  unfold ringHolds. rewrite length_app. simpl. split.
  - intros (? & ? & E). split_and!; try lia. rewrite E, <- app_assoc. f_equal.
    replace (length ring - length cs) with (S (length ring - (length cs + 1))) by lia. done.
  - intros ((? & ? & E) & ?). split_and!; try lia. rewrite E, <- app_assoc. f_equal.
    replace (length ring - length cs) with (S (length ring - (length cs + 1))) by lia. done.
Qed.

Lemma ring_push ring h cs x :
  ringHolds ring h cs -> length cs < length ring ->
  ringHolds (<[slot h (length cs) (length ring) := x]> ring) h (cs ++ [x]).
Proof.
  intros H Hlt. assert (H' : ringHolds ring h (cs ++ [None])) by (by apply ring_none_end).
  apply (ring_update _ _ _ (length cs) x) in H'; [| rewrite length_app; simpl; lia].
  by rewrite insert_app_r_alt, Nat.sub_diag in H' by lia.
Qed.

(** A null reference at the front can be left behind by moving the head. *)
Lemma ring_none_front ring h cs :
  ringHolds ring h (None :: cs) -> ringHolds ring (slot h 1 (length ring)) cs.
Proof.
  intros (? & Hl & E). simpl in *. split; [apply slot_lt; lia |]. split; [lia |].
  rewrite (rotate_succ _ _ _ _ E), <- app_assoc. f_equal.
  rewrite <- replicate_cons_app. f_equal.
  replace (length ring - length cs) with (S (length ring - S (length cs))) by lia. done.
Qed.

Lemma ring_pop ring h x cs :
  ringHolds ring h (x :: cs) ->
  ringHolds (<[h := None]> ring) (slot h 1 (length ring)) cs.
Proof.
  intros H. pose proof H as (? & _). apply (ring_update _ _ _ 0 None) in H; [| simpl; lia].
  simpl in H. rewrite slot_0 in H by lia. apply ring_none_front in H.
  by rewrite length_insert in H.
Qed.

(** An empty ring is all null, whatever its head. *)
Lemma ring_nil ring h h' : ringHolds ring h [] -> h' < length ring -> ringHolds ring h' [].
Proof.
  intros (Hh & _ & E) Hh'. simpl in *. rewrite Nat.sub_0_r in E. split; [done |].
  split; [simpl; lia |]. simpl. rewrite Nat.sub_0_r.
  assert (ring = replicate (length ring) None) as ->.
  { symmetry. apply replicate_as_elem_of. split; [done |]. intros y Hy.
    rewrite <- (elem_of_rotate _ h), E in Hy. by apply elem_of_replicate in Hy as [? _]. }
  by rewrite rotate_replicate, length_replicate.
Qed.

Lemma ring_nones ring h n : ringHolds ring h (replicate n None) -> ringHolds ring h [].
Proof.
  induction n as [| n IH]; [done |]. rewrite replicate_S_end.
  intros [H _]%ring_none_end. auto.
Qed.

Lemma ring_fresh n : 0 < n -> ringHolds (replicate n None) 0 [].
Proof.
  intros. split_and!; rewrite ?length_replicate; simpl; [lia | lia |].
  by rewrite rotate_replicate, Nat.sub_0_r.
Qed.
End ring.
