(* ===== verification/Queue.v ===== *)
(** * Media buffers and the queue interface

    Models [runtime/buffer/MediaBuffer.{h,cpp}] (the flags a queue looks at),
    [runtime/queue/MediaQueueMetrics.h] and [runtime/queue/MediaQueue.h].  A
    [MediaBufferRef] is an option, [None] the null pointer.  The interface
    [MediaQueue] is a class: its operations, an invariant, an abstract view as
    a bounded FIFO, and the laws by which an implementation refines it.  The
    properties of clients are proved against the class; [BlockingQueue.v] and
    [SpscRingQueue.v] hold the two instances. *)

From S2P Require Import Prelude MediaResult Model.

Local Open Scope Z_scope.

(** ** Buffers *)

Module MediaBufferModel.

Definition Flag_None : Z := 0.
Definition Flag_Eof : Z := Z.shiftl 1 0.
Definition Flag_Flush : Z := Z.shiftl 1 1.
Definition Flag_KeyFrame : Z := Z.shiftl 1 2.
Definition Flag_Discontinuity : Z := Z.shiftl 1 3.
Definition Flag_Corrupt : Z := Z.shiftl 1 4.
Definition Flag_Dropped : Z := Z.shiftl 1 5.
Definition Flag_HardwareBacked : Z := Z.shiftl 1 6.

Definition hasFlag (flags flag : Z) : bool := negb (Z.land flags flag =? 0).

(** [bufferId] tells one buffer object from another. *)
Record MediaBuffer := mkBuffer {
  bufferId : Z;
  bufferStreamKind : MediaStreamKind;
  bufferPayloadKind : MediaPayloadKind;
  pts : Z;
  dts : Z;
  bufferDuration : Z;
  flags : Z;
}.

Definition isEof (b : MediaBuffer) : bool := hasFlag (flags b) Flag_Eof.
Definition isFlush (b : MediaBuffer) : bool := hasFlag (flags b) Flag_Flush.
Definition isKeyFrame (b : MediaBuffer) : bool := hasFlag (flags b) Flag_KeyFrame.

Definition setFlags (f : Z) (b : MediaBuffer) : MediaBuffer :=
  mkBuffer (bufferId b) (bufferStreamKind b) (bufferPayloadKind b) (pts b) (dts b)
    (bufferDuration b) f.
Definition addFlags (f : Z) (b : MediaBuffer) : MediaBuffer := setFlags (Z.lor (flags b) f) b.

Abbreviation MediaBufferRef := (option MediaBuffer).

(** A plain buffer: number [id], a key frame or not. *)
Definition demoBuffer (id : Z) (key : bool) : MediaBuffer :=
  mkBuffer id Stream_Video Payload_Packet id id 1 (if key then Flag_KeyFrame else Flag_None).
End MediaBufferModel.

Import MediaBufferModel.

(** ** Metrics and outcomes *)

Record MediaQueueMetrics := mkMetrics {
  pushed : Z;
  popped : Z;
  dropped : Z;
  blockedPushes : Z;
  failedPushes : Z;
  failedPops : Z;
  blockedProducers : Z;
  blockedConsumers : Z;
  currentSize : Z;
  peakSize : Z;
}.

Definition zeroMetrics : MediaQueueMetrics := mkMetrics 0 0 0 0 0 0 0 0 0 0.

(** The increments; every counter is a 64-bit atomic. *)
Definition countPushed (n : Z) (m : MediaQueueMetrics) : MediaQueueMetrics :=
  mkMetrics (u64 (pushed m + n)) (popped m) (dropped m) (blockedPushes m) (failedPushes m)
    (failedPops m) (blockedProducers m) (blockedConsumers m) (currentSize m) (peakSize m).
Definition countPopped (m : MediaQueueMetrics) : MediaQueueMetrics :=
  mkMetrics (pushed m) (u64 (popped m + 1)) (dropped m) (blockedPushes m) (failedPushes m)
    (failedPops m) (blockedProducers m) (blockedConsumers m) (currentSize m) (peakSize m).
Definition countDropped (m : MediaQueueMetrics) : MediaQueueMetrics :=
  mkMetrics (pushed m) (popped m) (u64 (dropped m + 1)) (blockedPushes m) (failedPushes m)
    (failedPops m) (blockedProducers m) (blockedConsumers m) (currentSize m) (peakSize m).
Definition countBlockedPush (m : MediaQueueMetrics) : MediaQueueMetrics :=
  mkMetrics (pushed m) (popped m) (dropped m) (u64 (blockedPushes m + 1)) (failedPushes m)
    (failedPops m) (blockedProducers m) (blockedConsumers m) (currentSize m) (peakSize m).
Definition countFailedPush (m : MediaQueueMetrics) : MediaQueueMetrics :=
  mkMetrics (pushed m) (popped m) (dropped m) (blockedPushes m) (u64 (failedPushes m + 1))
    (failedPops m) (blockedProducers m) (blockedConsumers m) (currentSize m) (peakSize m).
Definition countFailedPop (m : MediaQueueMetrics) : MediaQueueMetrics :=
  mkMetrics (pushed m) (popped m) (dropped m) (blockedPushes m) (failedPushes m)
    (u64 (failedPops m + 1)) (blockedProducers m) (blockedConsumers m) (currentSize m) (peakSize m).
Definition addBlockedProducers (n : Z) (m : MediaQueueMetrics) : MediaQueueMetrics :=
  mkMetrics (pushed m) (popped m) (dropped m) (blockedPushes m) (failedPushes m)
    (failedPops m) (u64 (blockedProducers m + n)) (blockedConsumers m) (currentSize m) (peakSize m).
Definition addBlockedConsumers (n : Z) (m : MediaQueueMetrics) : MediaQueueMetrics :=
  mkMetrics (pushed m) (popped m) (dropped m) (blockedPushes m) (failedPushes m)
    (failedPops m) (blockedProducers m) (u64 (blockedConsumers m + n)) (currentSize m) (peakSize m).

(** [updateSizeMetrics] and [updateSizeMetricsLocked]. *)
Definition updateSize (current : nat) (m : MediaQueueMetrics) : MediaQueueMetrics :=
  mkMetrics (pushed m) (popped m) (dropped m) (blockedPushes m) (failedPushes m)
    (failedPops m) (blockedProducers m) (blockedConsumers m) (Z.of_nat current)
    (if peakSize m <? Z.of_nat current then Z.of_nat current else peakSize m).

Inductive MediaQueuePushOutcome :=
  | Push_Accepted | Push_Dropped | Push_WouldBlock | Push_Closed | Push_Aborted.

#[export] Instance MediaQueuePushOutcome_eq_dec : EqDecision MediaQueuePushOutcome.
Proof. solve_decision. Defined.

(** The buffers behind a list of references. *)
Fixpoint catRefs (l : list MediaBufferRef) : list MediaBuffer :=
  match l with
  | [] => []
  | Some b :: l' => b :: catRefs l'
  | None :: l' => catRefs l'
  end.

Lemma catRefs_Some (l : list MediaBuffer) : catRefs (Some <$> l) = l.
Proof. induction l as [| b l IH]; [done |]. rewrite fmap_cons. simpl. by f_equal. Qed.

(** ** Specification: a bounded FIFO *)

Record Fifo := mkFifo {
  items : list MediaBuffer;
  fifoClosed : bool;
  fifoAborted : bool;
  fifoPushed : Z;
  fifoPopped : Z;
  fifoDropped : Z;
}.

Definition emptyFifo : Fifo := mkFifo [] false false 0 0 0.

Definition withItems (l : list MediaBuffer) (f : Fifo) : Fifo :=
  mkFifo l (fifoClosed f) (fifoAborted f) (fifoPushed f) (fifoPopped f) (fifoDropped f).
Definition fifoDrop (f : Fifo) : Fifo :=
  mkFifo (items f) (fifoClosed f) (fifoAborted f) (fifoPushed f) (fifoPopped f)
    (u64 (fifoDropped f + 1)).
Definition fifoAccept (b : MediaBuffer) (f : Fifo) : Fifo :=
  mkFifo (items f ++ [b]) (fifoClosed f) (fifoAborted f) (u64 (fifoPushed f + 1))
    (fifoPopped f) (fifoDropped f).

(** [None]: no limit. *)
Definition fifoFull (limit : option nat) (f : Fifo) : bool :=
  match limit with
  | Some n => (n <=? length (items f))%nat
  | None => false
  end.

(** Offset of the oldest queued buffer that is not a key frame. *)
Fixpoint firstNonKey (l : list MediaBuffer) : option nat :=
  match l with
  | [] => None
  | b :: l' => if isKeyFrame b then S <$> firstNonKey l' else Some O
  end.

Definition fifoPush (overflow : MediaQueueOverflowPolicy) (limit : option nat)
    (ref : MediaBufferRef) (f : Fifo) : Fifo * MediaQueuePushOutcome :=
  match ref with
  | None => (f, Push_WouldBlock)
  | Some b =>
      if fifoAborted f then (f, Push_Aborted)
      else if fifoClosed f then (f, Push_Closed)
      else if negb (fifoFull limit f) then (fifoAccept b f, Push_Accepted)
      else
        match overflow with
        | Overflow_BlockProducer => (f, Push_WouldBlock)
        | Overflow_DropNewest => (fifoDrop f, Push_Dropped)
        | Overflow_DropOldest =>
            (fifoAccept b (fifoDrop (withItems (tail (items f)) f)), Push_Accepted)
        | Overflow_DropNonKeyFrame =>
            if isKeyFrame b then
              match firstNonKey (items f) with
              | Some i => (fifoAccept b (fifoDrop (withItems (delete i (items f)) f)), Push_Accepted)
              | None => (f, Push_WouldBlock)
              end
            else (fifoDrop f, Push_Dropped)
        | Overflow_Abort =>
            (mkFifo (items f) true true (fifoPushed f) (fifoPopped f) (fifoDropped f), Push_Aborted)
        end
  end.

Definition fifoTryPop (f : Fifo) : Fifo * MediaBufferRef :=
  match items f with
  | [] => (f, None)
  | b :: l => (mkFifo l (fifoClosed f) (fifoAborted f) (fifoPushed f) (u64 (fifoPopped f + 1))
                 (fifoDropped f), Some b)
  end.

Definition fifoClose (f : Fifo) : Fifo :=
  mkFifo (items f) true (fifoAborted f) (fifoPushed f) (fifoPopped f) (fifoDropped f).
Definition fifoAbort (f : Fifo) : Fifo :=
  mkFifo (items f) true true (fifoPushed f) (fifoPopped f) (fifoDropped f).
Definition fifoClear (f : Fifo) : Fifo := withItems [] f.

(** ** The interface *)

Class MediaQueue (Q : Type) := {
  queueOverflow : Q -> MediaQueueOverflowPolicy;
  queueLimit : Q -> option nat;
  queuePushOutcome : MediaBufferRef -> Q -> Q * MediaQueuePushOutcome;
  queueTryPop : Q -> Q * MediaBufferRef;
  queueClose : Q -> Q;
  queueAbort : Q -> Q;
  queueClear : Q -> Q;
  queueSize : Q -> nat;
  queueClosed : Q -> bool;
  queueAborted : Q -> bool;
  queueMetrics : Q -> MediaQueueMetrics;
  queueView : Q -> Fifo;
  queueOk : Q -> Prop;
}.

(** What an implementation promises. *)
Class MediaQueueLaws (Q : Type) `{MediaQueue Q} : Prop := {
  push_refines ref q : queueOk q ->
    let '(q', out) := queuePushOutcome ref q in
    queueOk q' /\ (queueView q', out) = fifoPush (queueOverflow q) (queueLimit q) ref (queueView q) /\
    queueOverflow q' = queueOverflow q /\ queueLimit q' = queueLimit q;
  tryPop_refines q : queueOk q ->
    let '(q', out) := queueTryPop q in
    queueOk q' /\ (queueView q', out) = fifoTryPop (queueView q) /\
    queueOverflow q' = queueOverflow q /\ queueLimit q' = queueLimit q;
  close_refines q : queueOk q ->
    queueOk (queueClose q) /\ queueView (queueClose q) = fifoClose (queueView q) /\
    queueOverflow (queueClose q) = queueOverflow q /\ queueLimit (queueClose q) = queueLimit q;
  abort_refines q : queueOk q ->
    queueOk (queueAbort q) /\ queueView (queueAbort q) = fifoAbort (queueView q) /\
    queueOverflow (queueAbort q) = queueOverflow q /\ queueLimit (queueAbort q) = queueLimit q;
  clear_refines q : queueOk q ->
    queueOk (queueClear q) /\ queueView (queueClear q) = fifoClear (queueView q) /\
    queueOverflow (queueClear q) = queueOverflow q /\ queueLimit (queueClear q) = queueLimit q;
  size_refines q : queueOk q -> queueSize q = length (items (queueView q));
  bound_refines q n : queueOk q -> queueLimit q = Some n ->
    (0 < n)%nat /\ (length (items (queueView q)) <= n)%nat;
}.

(** ** Runs of non-blocking calls *)

Inductive QueueOp :=
  | Op_push (ref : MediaBufferRef)
  | Op_tryPop
  | Op_close
  | Op_abort
  | Op_clear.

Inductive QueueResult :=
  | Res_push (out : MediaQueuePushOutcome)
  | Res_pop (ref : MediaBufferRef)
  | Res_unit.

Section client.
Context {Q : Type} `{HQ : MediaQueue Q}.

Definition runQueueOp (op : QueueOp) (q : Q) : Q * QueueResult :=
  match op with
  | Op_push ref => let '(q', out) := queuePushOutcome ref q in (q', Res_push out)
  | Op_tryPop => let '(q', out) := queueTryPop q in (q', Res_pop out)
  | Op_close => (queueClose q, Res_unit)
  | Op_abort => (queueAbort q, Res_unit)
  | Op_clear => (queueClear q, Res_unit)
  end.

Fixpoint runQueue (ops : list QueueOp) (q : Q) : Q * list QueueResult :=
  match ops with
  | [] => (q, [])
  | op :: ops' =>
      let '(q1, r) := runQueueOp op q in
      let '(q2, rs) := runQueue ops' q1 in (q2, r :: rs)
  end.
End client.

Definition runFifoOp (overflow : MediaQueueOverflowPolicy) (limit : option nat)
    (op : QueueOp) (f : Fifo) : Fifo * QueueResult :=
  match op with
  | Op_push ref => let '(f', out) := fifoPush overflow limit ref f in (f', Res_push out)
  | Op_tryPop => let '(f', out) := fifoTryPop f in (f', Res_pop out)
  | Op_close => (fifoClose f, Res_unit)
  | Op_abort => (fifoAbort f, Res_unit)
  | Op_clear => (fifoClear f, Res_unit)
  end.

Fixpoint runFifo (overflow : MediaQueueOverflowPolicy) (limit : option nat)
    (ops : list QueueOp) (f : Fifo) : Fifo * list QueueResult :=
  match ops with
  | [] => (f, [])
  | op :: ops' =>
      let '(f1, r) := runFifoOp overflow limit op f in
      let '(f2, rs) := runFifo overflow limit ops' f1 in (f2, r :: rs)
  end.

(** The buffers a run accepted, and those it handed out. *)
Fixpoint accepted (ops : list QueueOp) (rs : list QueueResult) : list MediaBuffer :=
  match ops, rs with
  | Op_push (Some b) :: ops', Res_push Push_Accepted :: rs' => b :: accepted ops' rs'
  | _ :: ops', _ :: rs' => accepted ops' rs'
  | _, _ => []
  end.
Fixpoint delivered (rs : list QueueResult) : list MediaBuffer :=
  match rs with
  | [] => []
  | Res_pop (Some b) :: rs' => b :: delivered rs'
  | _ :: rs' => delivered rs'
  end.

(** ** Lemmas: clients of the interface *)

Section client_lemmas.
Context {Q : Type} `{HL : MediaQueueLaws Q}.

Lemma runQueueOp_refines op q :
  queueOk q ->
  let '(q', r) := runQueueOp op q in
  queueOk q' /\ (queueView q', r) = runFifoOp (queueOverflow q) (queueLimit q) op (queueView q) /\
  queueOverflow q' = queueOverflow q /\ queueLimit q' = queueLimit q.
Proof.
  intros Hq. destruct op as [ref | | | |]; simpl.
  - pose proof (push_refines ref q Hq) as Hp. destruct (queuePushOutcome ref q) as [q' out].
    destruct Hp as (? & E & ? & ?). rewrite <- E. done.
  - pose proof (tryPop_refines q Hq) as Hp. destruct (queueTryPop q) as [q' out].
    destruct Hp as (? & E & ? & ?). rewrite <- E. done.
  - destruct (close_refines q Hq) as (? & -> & ? & ?). done.
  - destruct (abort_refines q Hq) as (? & -> & ? & ?). done.
  - destruct (clear_refines q Hq) as (? & -> & ? & ?). done.
Qed.

Lemma runQueue_refines ops q :
  queueOk q ->
  let '(q', rs) := runQueue ops q in
  queueOk q' /\ (queueView q', rs) = runFifo (queueOverflow q) (queueLimit q) ops (queueView q) /\
  queueOverflow q' = queueOverflow q /\ queueLimit q' = queueLimit q.
Proof.
  revert q. induction ops as [| op ops IH]; intros q Hq; simpl; [done |].
  pose proof (runQueueOp_refines op q Hq) as Hop.
  destruct (runQueueOp op q) as [q1 r]. destruct Hop as (Hq1 & E & Ho & Hl).
  rewrite <- E. specialize (IH q1 Hq1). destruct (runQueue ops q1) as [q2 rs].
  destruct IH as (? & E2 & Ho2 & Hl2). rewrite <- Ho, <- Hl, <- E2, Ho2, Hl2. done.
Qed.
End client_lemmas.

(** ** Lemmas: the abstract queue *)

(** Policies that never evict a queued buffer. *)
Definition evicts (overflow : MediaQueueOverflowPolicy) : bool :=
  match overflow with Overflow_DropOldest | Overflow_DropNonKeyFrame => true | _ => false end.

Definition isClear (op : QueueOp) : bool := match op with Op_clear => true | _ => false end.

Lemma firstNonKey_spec l i :
  firstNonKey l = Some i <->
  (exists b, l !! i = Some b /\ isKeyFrame b = false) /\
  (forall j b, (j < i)%nat -> l !! j = Some b -> isKeyFrame b = true).
Proof.
  revert i. induction l as [| b l IH]; intros i; simpl.
  { split; [done | intros [(b & ? & _) _]; by rewrite lookup_nil in *]. }
  destruct (isKeyFrame b) eqn:E.
  - rewrite fmap_Some. split.
    + intros (k & Hk & ->). apply IH in Hk as [Hk1 Hk2]. split; [done |].
      intros [| j] b' Hj Hb; simpl in *; [congruence | eapply Hk2; [| done]; lia].
    + intros [(b' & Hb & Hf) Hall]. destruct i as [| i]; simpl in *; [congruence |].
      exists i. split; [| done]. apply IH. split; [eauto |].
      intros j b'' Hj Hb''. apply (Hall (S j)); [lia | done].
  - split.
    + intros [= <-]. split; [eauto | intros; lia].
    + intros [_ Hall]. destruct i as [| i]; [done |].
      specialize (Hall O b ltac:(lia) eq_refl). congruence.
Qed.

Lemma firstNonKey_None l : firstNonKey l = None <-> Forall (fun b => isKeyFrame b = true) l.
Proof.
  induction l as [| b l IH]; simpl; [by rewrite Forall_nil |].
  rewrite Forall_cons, <- IH. destruct (isKeyFrame b); [| naive_solver].
  rewrite fmap_None. naive_solver.
Qed.

(** One call: what leaves and stays was queued or just accepted, in order. *)
Lemma runFifoOp_order overflow limit op f :
  let '(f', r) := runFifoOp overflow limit op f in
  delivered [r] ++ items f' `sublist_of` items f ++ accepted [op] [r].
Proof.
  destruct op as [[b |] | | | |]; simpl; rewrite ?app_nil_r; try done.
  - unfold fifoPush. repeat case_match; simplify_eq; simpl; rewrite ?app_nil_r; try done.
    + apply sublist_app; [| done]. destruct (items f); [done |]. by constructor.
    + apply sublist_app; [apply sublist_delete | done].
  - unfold fifoTryPop. destruct (items f) eqn:E; simpl; by rewrite ?E.
  - apply sublist_nil_l.
Qed.

Lemma runFifoOp_lossless overflow limit op f :
  evicts overflow = false -> isClear op = false ->
  let '(f', r) := runFifoOp overflow limit op f in
  delivered [r] ++ items f' = items f ++ accepted [op] [r].
Proof.
  intros Hev Hcl. destruct op as [[b |] | | | |]; simpl; rewrite ?app_nil_r; try done.
  - unfold fifoPush. repeat case_match; simplify_eq; simpl; by rewrite ?app_nil_r.
  - unfold fifoTryPop. destruct (items f) eqn:E; simpl; by rewrite ?E.
Qed.

Lemma delivered_cons r rs : delivered (r :: rs) = delivered [r] ++ delivered rs.
Proof. by destruct r as [| [|] |]. Qed.
Lemma accepted_cons op ops r rs :
  accepted (op :: ops) (r :: rs) = accepted [op] [r] ++ accepted ops rs.
Proof. by destruct op as [[|] | | | |], r as [[] | |]. Qed.

Lemma runFifo_order overflow limit ops f :
  let '(f', rs) := runFifo overflow limit ops f in
  delivered rs ++ items f' `sublist_of` items f ++ accepted ops rs.
Proof.
  revert f. induction ops as [| op ops IH]; intros f; cbn [runFifo]; [by rewrite app_nil_r |].
  pose proof (runFifoOp_order overflow limit op f) as H1.
  destruct (runFifoOp overflow limit op f) as [f1 r]. specialize (IH f1).
  destruct (runFifo overflow limit ops f1) as [f2 rs].
  rewrite delivered_cons, accepted_cons, app_assoc, <- app_assoc.
  etransitivity; [apply sublist_app; [reflexivity | exact IH] |].
  rewrite app_assoc. by apply sublist_app.
Qed.

Lemma runFifo_lossless overflow limit ops f :
  evicts overflow = false -> Forall (fun op => isClear op = false) ops ->
  let '(f', rs) := runFifo overflow limit ops f in
  delivered rs ++ items f' = items f ++ accepted ops rs.
Proof.
  intros Hev. revert f. induction ops as [| op ops IH]; intros f Hops; cbn [runFifo]; [by rewrite app_nil_r |].
  apply Forall_cons in Hops as [Hop Hops].
  pose proof (runFifoOp_lossless overflow limit op f Hev Hop) as H1.
  destruct (runFifoOp overflow limit op f) as [f1 r]. specialize (IH f1 Hops).
  destruct (runFifo overflow limit ops f1) as [f2 rs].
  by rewrite delivered_cons, accepted_cons, app_assoc, <- H1, <- !app_assoc, IH.
Qed.

(** The counters of accepted and delivered buffers are exact modulo 2^64. *)
Lemma runFifo_counts overflow limit ops f :
  let '(f', rs) := runFifo overflow limit ops f in
  u64 (fifoPushed f') = u64 (fifoPushed f + Z.of_nat (length (accepted ops rs))) /\
  u64 (fifoPopped f') = u64 (fifoPopped f + Z.of_nat (length (delivered rs))).
Proof.
  revert f. induction ops as [| op ops IH]; intros f; cbn [runFifo]; [simpl; by rewrite !Z.add_0_r |].
  assert (H1 : let '(f1, r) := runFifoOp overflow limit op f in
    u64 (fifoPushed f1) = u64 (fifoPushed f + Z.of_nat (length (accepted [op] [r]))) /\
    u64 (fifoPopped f1) = u64 (fifoPopped f + Z.of_nat (length (delivered [r])))).
  { destruct op as [[b |] | | | |]; simpl; rewrite ?Z.add_0_r; try done.
    - unfold fifoPush. repeat case_match; simplify_eq; simpl; rewrite ?Z.add_0_r;
        (split; [| done]); try done; unfold u64; apply Z.mod_mod; lia.
    - unfold fifoTryPop. destruct (items f); simpl; rewrite ?Z.add_0_r; split; try done.
      unfold u64. apply Z.mod_mod. lia. }
  destruct (runFifoOp overflow limit op f) as [f1 r]. specialize (IH f1).
  destruct (runFifo overflow limit ops f1) as [f2 rs].
  rewrite delivered_cons, accepted_cons, !length_app, !Nat2Z.inj_add, !Z.add_assoc.
  destruct IH as [-> ->], H1 as [H1 H2]. unfold u64 in *.
  rewrite <- (Z.add_mod_idemp_l (fifoPushed f1)), H1 by lia.
  rewrite <- (Z.add_mod_idemp_l (fifoPopped f1)), H2 by lia.
  by rewrite !Z.add_mod_idemp_l by lia.
Qed.
