(* ===== verification/QueueStorage.v ===== *)
(** * Storage of the blocking queue

    Models [runtime/queue/MediaBlockingQueueStorage.{h,cpp}]: a [std::deque] or
    a preallocated ring, chosen by the policy, and the two-phase
    prepare/publish of an atomic output.  A vector access outside the vector is
    undefined in the source; the model reads null there, and the lemmas state
    the calls under which it does not happen.  The properties say that both
    storages implement the same list, and that a prepared push is all or
    nothing. *)

From S2P Require Import Prelude MediaResult Model Ring Queue.
Import MediaBufferModel.

Local Open Scope Z_scope.

Module MediaBlockingQueueStorage.

(** The preparation allocator: whether reserving a capacity succeeds, [false]
    being a thrown [std::bad_alloc]. *)
Abbreviation PreparationAllocator := (nat -> bool).

(** [reserveWithDefaultAllocator] calls [std::vector::reserve], which succeeds
    as long as the process has the memory. *)
Definition reserveWithDefaultAllocator (memory : nat -> bool) : PreparationAllocator := memory.

Record Storage := mkStorage {
  s_mode : MediaQueueStorageMode;
  s_allocator : PreparationAllocator;
  s_deque : list MediaBufferRef;
  s_ring : list MediaBufferRef;
  s_ringHead : nat;
  s_ringSize : nat;
}.

(** The constructor; a failure is the exception it throws. *)
Definition create (policy : MediaQueuePolicy) (allocator : option PreparationAllocator) :
    Result Storage :=
  match allocator with
  | None => failure (invalidArgument "Blocking queue storage requires a preparation allocator")
  | Some a =>
      match storageMode policy with
      | Storage_AtomicPrepared =>
          if negb (isBoundedQueue policy)
          then failure (invalidArgument "Atomic prepared queue storage requires bounded capacity")
          else Success (mkStorage (storageMode policy) a []
                          (replicate (Z.to_nat (capacity policy)) None) 0 0)
      | Storage_Deque => Success (mkStorage (storageMode policy) a [] [] 0 0)
      | Storage_Unknown =>
          failure (invalidArgument "Blocking queue storage mode must be planner-configured")
      end
  end.

Definition isDeque (s : Storage) : bool :=
  match s_mode s with Storage_Deque => true | _ => false end.
Definition supportsPreparedPush (s : Storage) : bool :=
  match s_mode s with Storage_AtomicPrepared => true | _ => false end.
Definition valid (s : Storage) : bool := isDeque s || supportsPreparedPush s.

Definition ringIndex (offset : nat) (s : Storage) : nat :=
  slot (s_ringHead s) offset (length (s_ring s)).

Definition withRing (ring : list MediaBufferRef) (head size : nat) (s : Storage) : Storage :=
  mkStorage (s_mode s) (s_allocator s) (s_deque s) ring head size.
Definition withDeque (d : list MediaBufferRef) (s : Storage) : Storage :=
  mkStorage (s_mode s) (s_allocator s) d (s_ring s) (s_ringHead s) (s_ringSize s).

Definition size (s : Storage) : nat := if isDeque s then length (s_deque s) else s_ringSize s.
Definition empty (s : Storage) : bool := Nat.eqb (size s) 0.

Definition front (s : Storage) : MediaBufferRef :=
  if isDeque s then s_deque s !!! 0%nat else s_ring s !!! s_ringHead s.
Definition at_ (offset : nat) (s : Storage) : MediaBufferRef :=
  if isDeque s then s_deque s !!! offset else s_ring s !!! ringIndex offset s.

Definition pushBackPrepared (b : MediaBufferRef) (s : Storage) : Storage :=
  withRing (<[ringIndex (s_ringSize s) s := b]> (s_ring s)) (s_ringHead s)
    (S (s_ringSize s)) s.

Definition pushBack (b : MediaBufferRef) (s : Storage) : Storage :=
  if isDeque s then withDeque (s_deque s ++ [b]) s else pushBackPrepared b s.

(** [if (m_ringSize == 0) m_ringHead = 0]. *)
Definition normalizeHead (s : Storage) : Storage :=
  if Nat.eqb (s_ringSize s) 0 then withRing (s_ring s) 0 (s_ringSize s) s else s.

Definition popFront (s : Storage) : Storage :=
  if isDeque s then withDeque (tail (s_deque s)) s
  else normalizeHead
         (withRing (<[s_ringHead s := None]> (s_ring s)) (ringIndex 1 s) (pred (s_ringSize s)) s).

(** The shifting loop of [erase], from [index], [n] moves. *)
Fixpoint shiftDown (n index : nat) (s : Storage) : Storage :=
  match n with
  | O => s
  | S n' =>
      shiftDown n' (S index)
        (withRing (moveSlot (ringIndex index s) (ringIndex (S index) s) (s_ring s))
           (s_ringHead s) (s_ringSize s) s)
  end.

Definition erase (offset : nat) (s : Storage) : Storage :=
  if isDeque s then withDeque (delete offset (s_deque s)) s
  else
    let s := shiftDown (s_ringSize s - 1 - offset) offset s in
    normalizeHead
      (withRing (<[ringIndex (s_ringSize s - 1) s := None]> (s_ring s)) (s_ringHead s)
         (pred (s_ringSize s)) s).

Definition clear (s : Storage) : Storage :=
  if isDeque s then withDeque [] s
  else
    withRing (foldl (fun ring offset => <[ringIndex offset s := None]> ring) (s_ring s)
                (seq 0 (s_ringSize s))) 0 0 s.

(** ** Prepared pushes *)

Record PreparedPush := mkPrepared { m_buffers : list MediaBufferRef }.

Definition Prepared_size (p : PreparedPush) : nat := length (m_buffers p).

Definition hasNull (buffers : list MediaBufferRef) : bool :=
  existsb (fun b => negb (bool_decide (is_Some b))) buffers.

Definition replace (buffers : list MediaBufferRef) (p : PreparedPush) :
    PreparedPush * Result unit :=
  if negb (Nat.eqb (length buffers) (length (m_buffers p)))
  then (p, failure (invalidArgument "Prepared output replacement changed reserved capacity"))
  else if hasNull buffers
  then (p, failure (invalidArgument "Prepared output replacement rejects null buffers"))
  else (mkPrepared buffers, Success tt).

Definition prepare (buffers : list MediaBufferRef) (s : Storage) : Result PreparedPush :=
  if negb (supportsPreparedPush s)
  then failure (invalidArgument "Atomic output requires planner-configured prepared storage")
  else if negb (s_allocator s (length buffers))
  then failure (internalError "Prepared output storage allocation failed")
  else if hasNull buffers
  then failure (invalidArgument "Prepared output rejects null buffers")
  else Success (mkPrepared buffers).

(** Returns the storage and the emptied preparation. *)
Definition publish (p : PreparedPush) (s : Storage) : Storage * PreparedPush :=
  (foldl (fun s b => pushBackPrepared b s) s (m_buffers p), mkPrepared []).

(** ** Specification *)

(** The references a storage holds, oldest first. *)
Definition contents (s : Storage) : list MediaBufferRef :=
  if isDeque s then s_deque s
  else (fun i => s_ring s !!! ringIndex i s) <$> seq 0 (s_ringSize s).

(** The representation relation. *)
Definition holds (s : Storage) (cs : list MediaBufferRef) : Prop :=
  match s_mode s with
  | Storage_Deque => s_deque s = cs
  | Storage_AtomicPrepared => ringHolds (s_ring s) (s_ringHead s) cs /\ s_ringSize s = length cs
  | Storage_Unknown => False
  end.

(** Room for [n] more references. *)
Definition room (n : nat) (s : Storage) : Prop :=
  s_mode s = Storage_Deque \/ (size s + n <= length (s_ring s))%nat.

(** ** Lemmas *)

Ltac by_mode s :=
  unfold room, holds, contents, empty, size, front, at_, pushBack, popFront, erase, clear,
    isDeque in *; destruct (s_mode s) eqn:?; simpl in *; try done.

Lemma holds_contents s cs : holds s cs -> contents s = cs.
Proof.
  intros H. by_mode s. destruct H as [H Hs]. rewrite Hs.
  apply list_eq. intros i. rewrite list_lookup_fmap.
  destruct (decide (i < length cs)%nat) as [Hi | Hi].
  - rewrite lookup_seq_lt by done. simpl. unfold ringIndex.
    destruct (lookup_lt_is_Some_2 cs i Hi) as [x Hx]. rewrite Hx. f_equal.
    apply list_lookup_total_correct. by rewrite (ring_lookup _ _ cs).
  - rewrite lookup_seq_ge, lookup_ge_None_2 by lia. done.
Qed.

Lemma holds_size s cs : holds s cs -> size s = length cs.
Proof. intros H. by_mode s; [by subst | by destruct H]. Qed.

Lemma holds_front s x cs : holds s (x :: cs) -> front s = x.
Proof.
  intros H. by_mode s; [by rewrite H |]. destruct H as [H _].
  by apply list_lookup_total_correct, (ring_head _ _ _ cs).
Qed.

Lemma holds_at s cs i : holds s cs -> (i < length cs)%nat -> at_ i s = cs !!! i.
Proof.
  intros H Hi. by_mode s; [by rewrite H |]. destruct H as [H _].
  unfold ringIndex. rewrite !list_lookup_total_alt. by rewrite (ring_lookup _ _ cs).
Qed.

Lemma holds_pushBack s cs b :
  holds s cs -> room 1 s -> holds (pushBack b s) (cs ++ [b]).
Proof.
  intros H Hr. by_mode s; rewrite ?Heqm.
  - by subst.
  - destruct H as [H Hs]. destruct Hr as [? | Hr]; [done |]. unfold ringIndex. rewrite Hs.
    split; [apply ring_push; [done | lia] | rewrite length_app; simpl; lia].
Qed.

Lemma holds_ring s cs :
  holds s cs -> isDeque s = false ->
  s_mode s = Storage_AtomicPrepared /\ ringHolds (s_ring s) (s_ringHead s) cs /\
  s_ringSize s = length cs.
Proof. intros H E. by_mode s. Qed.

Lemma ring_holds s cs :
  s_mode s = Storage_AtomicPrepared -> ringHolds (s_ring s) (s_ringHead s) cs ->
  s_ringSize s = length cs -> holds s cs.
Proof. intros Em ??. unfold holds. by rewrite Em. Qed.

Lemma deque_holds s cs :
  holds s cs -> isDeque s = true -> s_mode s = Storage_Deque /\ s_deque s = cs.
Proof. intros H E. by_mode s. Qed.

Lemma holds_deque s cs : s_mode s = Storage_Deque -> s_deque s = cs -> holds s cs.
Proof. intros Em ?. unfold holds. by rewrite Em. Qed.

Lemma holds_normalize s cs :
  s_mode s = Storage_AtomicPrepared -> ringHolds (s_ring s) (s_ringHead s) cs ->
  s_ringSize s = length cs -> holds (normalizeHead s) cs.
Proof.
  intros Em H Hs. unfold normalizeHead.
  destruct (Nat.eqb_spec (s_ringSize s) 0) as [E |]; apply ring_holds; try done.
  simpl. destruct cs; [| simpl in *; lia]. eapply ring_nil; [done |]. destruct H as [? _]. lia.
Qed.

Lemma holds_popFront s x cs : holds s (x :: cs) -> holds (popFront s) cs.
Proof.
  intros H. unfold popFront. destruct (isDeque s) eqn:E.
  - destruct (deque_holds _ _ H E) as [? Hd]. apply holds_deque; [done |]. simpl. by rewrite Hd.
  - destruct (holds_ring _ _ H E) as (? & Hr & Hs). apply holds_normalize; simpl in *; [done | | lia].
    apply (ring_pop _ _ x cs Hr).
Qed.

(** [n] moves carry the slot at [index] to [index + n]: the others close up. *)
Lemma shiftDown_holds n index s cs :
  s_mode s = Storage_AtomicPrepared -> ringHolds (s_ring s) (s_ringHead s) cs ->
  s_ringSize s = length cs -> (index + n < length cs)%nat ->
  let s' := shiftDown n index s in
  s_mode s' = Storage_AtomicPrepared /\ s_ringHead s' = s_ringHead s /\
  s_ringSize s' = s_ringSize s /\ length (s_ring s') = length (s_ring s) /\
  exists cs', ringHolds (s_ring s') (s_ringHead s) cs' /\ length cs' = length cs /\
    delete (index + n)%nat cs' = delete index cs.
Proof.
  revert index s cs. induction n as [| n IH]; intros index s cs Em Hr Hs Hn; simpl.
  { rewrite Nat.add_0_r. eauto 10. }
  set (s1 := withRing _ _ _ s).
  destruct (lookup_lt_is_Some_2 cs (S index) ltac:(lia)) as [x Hx].
  assert (Hr1 : ringHolds (s_ring s1) (s_ringHead s1)
                  (<[index := x]> (<[S index := None]> cs))).
  { unfold s1, ringIndex. simpl. apply ring_move; [done | done | lia]. }
  destruct (IH (S index) s1 _ Em Hr1) as (? & ? & ? & Hl & cs' & Hcs & Hlen & Hdel);
    [by rewrite !length_insert | rewrite !length_insert; lia |].
  split_and!; try done.
  { rewrite Hl. unfold s1, moveSlot. simpl. by rewrite !length_insert. }
  exists cs'. split_and!; [done | by rewrite Hlen, !length_insert |].
  replace (index + S n)%nat with (S index + n)%nat by lia. rewrite Hdel.
  apply delete_move; [done].
Qed.

Lemma holds_erase s cs offset :
  holds s cs -> (offset < length cs)%nat -> holds (erase offset s) (delete offset cs).
Proof.
  intros H Ho. unfold erase. destruct (isDeque s) eqn:E.
  { destruct (deque_holds _ _ H E) as [? Hd]. apply holds_deque; [done |]. simpl. by rewrite Hd. }
  destruct (holds_ring _ _ H E) as (Em & Hr & Hs).
  destruct (shiftDown_holds (s_ringSize s - 1 - offset) offset s cs Em Hr Hs ltac:(lia))
    as (Em' & Hh & Hs' & Hl & cs' & Hr' & Hlen & Hdel).
  set (s' := shiftDown _ _ _) in *.
  replace (offset + (s_ringSize s - 1 - offset))%nat with (length cs' - 1)%nat in Hdel by lia.
  destruct (exists_last (l := cs')) as (cs0 & y & ->); [intros ->; simpl in *; lia |].
  rewrite length_app in *. simpl in *.
  replace (length cs0 + 1 - 1)%nat with (length cs0) in Hdel by lia.
  rewrite delete_middle, app_nil_r in Hdel. rewrite <- Hdel.
  apply holds_normalize; simpl; [done | | rewrite Hs', Hs; lia].
  unfold ringIndex. rewrite Hs', Hs, Hh, <- Hlen.
  replace (length cs0 + 1 - 1)%nat with (length cs0) by lia.
  apply (ring_update _ _ _ (length cs0) None) in Hr'; [| rewrite length_app; simpl; lia].
  rewrite insert_app_r_alt, Nat.sub_diag in Hr' by lia. simpl in Hr'.
  by apply ring_none_end in Hr' as [? _].
Qed.

Lemma clear_window s cs k :
  ringHolds (s_ring s) (s_ringHead s) cs -> (k <= length cs)%nat ->
  let ring := foldl (fun ring offset => <[ringIndex offset s := None]> ring) (s_ring s) (seq 0 k) in
  length ring = length (s_ring s) /\
  ringHolds ring (s_ringHead s) (replicate k None ++ drop k cs).
Proof.
  intros H. induction k as [| k IH]; intros Hk; cbv zeta in *; [done |].
  rewrite seq_S, foldl_snoc. destruct (IH ltac:(lia)) as [Hl Hh].
  set (ring := foldl _ _ _) in *. split; [by rewrite length_insert |].
  destruct (lookup_lt_is_Some_2 cs k ltac:(lia)) as [x Hx].
  rewrite (drop_S _ _ _ Hx) in Hh. rewrite Nat.add_0_l. unfold ringIndex. rewrite <- Hl.
  apply (ring_update _ _ _ k None) in Hh;
    [| rewrite length_app, length_replicate; simpl; lia].
  rewrite insert_app_r_alt, length_replicate, Nat.sub_diag in Hh
    by (rewrite length_replicate; lia).
  simpl in Hh. by rewrite replicate_S_end, <- app_assoc.
Qed.

Lemma holds_clear s cs : holds s cs -> holds (clear s) [].
Proof.
  intros H. unfold clear. destruct (isDeque s) eqn:E.
  { destruct (deque_holds _ _ H E) as [? Hd]. by apply holds_deque. }
  destruct (holds_ring _ _ H E) as (Em & Hr & Hs).
  destruct (clear_window s cs (length cs) Hr ltac:(lia)) as [Hl Hh].
  rewrite drop_all, app_nil_r in Hh. apply ring_nones in Hh. rewrite <- Hs in *.
  apply ring_holds; [done | | done]. simpl. eapply ring_nil; [done |].
  rewrite Hl. destruct Hr as [? _]. lia.
Qed.

Lemma holds_publish p s cs :
  holds s cs -> isDeque s = false -> room (length (m_buffers p)) s ->
  holds (publish p s).1 (cs ++ m_buffers p).
Proof.
  unfold publish. simpl. revert s cs.
  induction (m_buffers p) as [| b bs IH]; intros s cs H E Hr; simpl in *; [by rewrite app_nil_r |].
  destruct (holds_ring _ _ H E) as (Em & HR & Hs).
  destruct Hr as [? | Hr]; [congruence |].
  replace (cs ++ b :: bs) with ((cs ++ [b]) ++ bs) by by rewrite <- app_assoc.
  pose proof (holds_size _ _ H) as Hsz.
  assert (H1 : holds (pushBack b s) (cs ++ [b])) by (apply holds_pushBack; [done | right; lia]).
  unfold pushBack in H1. rewrite E in H1. apply IH; [done | done |]. right.
  rewrite (holds_size _ _ H1), length_app. unfold pushBackPrepared. simpl.
  rewrite length_insert. lia.
Qed.

Lemma create_holds policy a s :
  0 <= capacity policy -> create policy (Some a) = Success s -> holds s [] /\
  (s_mode s = Storage_Deque \/ length (s_ring s) = Z.to_nat (capacity policy)).
Proof.
  intros Hc. unfold create, isBoundedQueue. destruct (storageMode policy) eqn:Em; [done | |].
  - intros [= <-]. split; [done | by left].
  - destruct (bounded policy && (0 <? capacity policy)) eqn:Eb; [| done].
    apply andb_true_iff in Eb as [_ Hpos%Z.ltb_lt]. intros [= <-]. split.
    + apply ring_holds; [done | | done]. simpl. apply ring_fresh. lia.
    + right. simpl. by rewrite length_replicate.
Qed.

(** ** Runs of storage calls *)

Inductive StorageOp :=
  | S_pushBack (b : MediaBufferRef)
  | S_popFront
  | S_erase (offset : nat)
  | S_clear
  | S_publish (p : PreparedPush).

Definition runStorageOp (op : StorageOp) (s : Storage) : Storage :=
  match op with
  | S_pushBack b => pushBack b s
  | S_popFront => popFront s
  | S_erase i => erase i s
  | S_clear => clear s
  | S_publish p => (publish p s).1
  end.

(** The same calls on the list of references. *)
Definition runListOp (op : StorageOp) (cs : list MediaBufferRef) : list MediaBufferRef :=
  match op with
  | S_pushBack b => cs ++ [b]
  | S_popFront => tail cs
  | S_erase i => delete i cs
  | S_clear => []
  | S_publish p => cs ++ m_buffers p
  end.

(** The calls the queue makes: within the capacity of a ring ([None] for a
    deque), on a non-empty storage, inside the window; preparations are
    published to rings only. *)
Definition allowed (ringCapacity : option nat) (op : StorageOp) (cs : list MediaBufferRef) : bool :=
  match op with
  | S_pushBack _ => match ringCapacity with Some n => (length cs <? n)%nat | None => true end
  | S_popFront => (0 <? length cs)%nat
  | S_erase i => (i <? length cs)%nat
  | S_clear => true
  | S_publish p =>
      match ringCapacity with
      | Some n => (length cs + length (m_buffers p) <=? n)%nat
      | None => false
      end
  end.

Fixpoint allowedRun (c : option nat) (ops : list StorageOp) (cs : list MediaBufferRef) : bool :=
  match ops with
  | [] => true
  | op :: ops' => allowed c op cs && allowedRun c ops' (runListOp op cs)
  end.

Definition ringCapacity (s : Storage) : option nat :=
  if isDeque s then None else Some (length (s_ring s)).

Lemma shiftDown_ring n i s :
  s_mode (shiftDown n i s) = s_mode s /\ length (s_ring (shiftDown n i s)) = length (s_ring s).
Proof.
  revert i s. induction n as [| n IH]; intros i s; simpl; [done |].
  destruct (IH (S i) (withRing (moveSlot (ringIndex i s) (ringIndex (S i) s) (s_ring s))
     (s_ringHead s) (s_ringSize s) s)) as [-> ->]. simpl. unfold moveSlot.
  by rewrite !length_insert.
Qed.

Lemma fold_insert_length {A} (f : nat -> nat) (x : A) (l : list nat) ring :
  length (foldl (fun ring i => <[f i := x]> ring) ring l) = length ring.
Proof. revert ring. induction l as [| i l IH]; intros ring; simpl; [done |].
  by rewrite IH, length_insert. Qed.

(** No call changes the mode or the size of the ring. *)
Lemma runStorageOp_capacity op s : ringCapacity (runStorageOp op s) = ringCapacity s.
Proof.
  assert (Hn : forall s, s_mode (normalizeHead s) = s_mode s /\ s_ring (normalizeHead s) = s_ring s).
  { intros s'. unfold normalizeHead. by case_match. }
  assert (Hp : forall bs s, s_mode (foldl (fun s b => pushBackPrepared b s) s bs) = s_mode s /\
            length (s_ring (foldl (fun s b => pushBackPrepared b s) s bs)) = length (s_ring s)).
  { induction bs as [| b bs IH]; intros s'; simpl; [done |].
    destruct (IH (pushBackPrepared b s')) as [-> ->]. simpl. by rewrite length_insert. }
  unfold ringCapacity, runStorageOp, pushBack, popFront, erase, clear, publish, isDeque.
  destruct op; simpl; rewrite ?(proj1 (Hp _ _)), ?(proj2 (Hp _ _));
    destruct (s_mode s) eqn:E; simpl;
    rewrite ?(proj1 (Hn _)), ?(proj2 (Hn _)); simpl; rewrite ?length_insert,
      ?(proj1 (shiftDown_ring _ _ _)), ?(proj2 (shiftDown_ring _ _ _)), ?fold_insert_length, ?E; done.
Qed.

Lemma runStorageOp_holds op s cs :
  holds s cs -> allowed (ringCapacity s) op cs = true ->
  holds (runStorageOp op s) (runListOp op cs).
Proof.
  intros H Ha. pose proof (holds_size _ _ H) as Hs. unfold ringCapacity in Ha.
  destruct op as [b | | i | | p]; simpl in *.
  - apply holds_pushBack; [done |]. destruct (isDeque s) eqn:E.
    + left. by destruct (deque_holds _ _ H E).
    + right. apply Nat.ltb_lt in Ha. lia.
  - apply Nat.ltb_lt in Ha. destruct cs as [| x cs]; simpl in *; [lia |].
    by apply (holds_popFront _ x).
  - apply Nat.ltb_lt in Ha. by apply holds_erase.
  - by apply (holds_clear _ cs).
  - destruct (isDeque s) eqn:E; [done |]. apply Nat.leb_le in Ha.
    apply holds_publish; [done | done |]. right. lia.
Qed.

(** ** Properties *)

(** A storage created from a policy, whether deque or ring, behaves as one
    list under every run of calls its queue makes: its contents, its size,
    its front and every indexed read are those of the list. *)
Theorem storage_refines_list policy a s ops :
  0 <= capacity policy -> create policy (Some a) = Success s ->
  allowedRun (ringCapacity s) ops [] = true ->
  let s' := foldl (fun s op => runStorageOp op s) s ops in
  let cs := foldl (fun cs op => runListOp op cs) [] ops in
  contents s' = cs /\ size s' = length cs /\
  (forall x rest, cs = x :: rest -> front s' = x) /\
  (forall i, (i < length cs)%nat -> at_ i s' = cs !!! i).
Proof.
  intros Hc Hcr Hal. destruct (create_holds _ _ _ Hc Hcr) as [H0 _].
  assert (Hrun : forall ops s cs, holds s cs -> allowedRun (ringCapacity s) ops cs = true ->
     holds (foldl (fun s op => runStorageOp op s) s ops)
           (foldl (fun cs op => runListOp op cs) cs ops)).
  { clear. induction ops as [| op ops IH]; intros s cs H Ha; simpl in *; [done |].
    apply andb_true_iff in Ha as [Ha1 Ha2].
    apply IH; [by apply runStorageOp_holds |]. by rewrite runStorageOp_capacity. }
  specialize (Hrun ops s [] H0 Hal). cbv zeta.
  split_and!; eauto using holds_contents, holds_size, holds_at.
  intros x rest E. rewrite E in Hrun. by eapply holds_front.
Qed.

Definition ringPolicy (cap : Z) : MediaQueuePolicy :=
  mkQueuePolicy QueueMode_Blocking Overflow_DropNonKeyFrame Ordering_Fifo
    Storage_AtomicPrepared cap 0 defaultDropPolicy defaultBackpressurePolicy true true true true.

Lemma storage_refines_list_witness :
  let b i := Some (demoBuffer i false) in
  exists s, create (ringPolicy 3) (Some (fun _ => true)) = Success s /\
    contents (foldl (fun s op => runStorageOp op s) s
      [S_pushBack (b 1); S_pushBack (b 2); S_popFront; S_pushBack (b 3); S_pushBack (b 4);
       S_erase 1; S_publish (mkPrepared [b 5])]) = [b 2; b 4; b 5].
Proof.
  intros b. eexists. split; [reflexivity |].
  eapply (storage_refines_list (ringPolicy 3) (fun _ => true));
    [vm_compute; discriminate | reflexivity | vm_compute; reflexivity].
Defined.

(** A prepared push is all or nothing: preparing changes no storage and
    succeeds only on a ring, with memory and without a null buffer; publishing
    what was prepared appends all of it in order and empties the preparation. *)
Theorem prepared_push_atomic s cs bs p :
  holds s cs -> (size s + length bs <= length (s_ring s))%nat ->
  prepare bs s = Success p ->
  isDeque s = false /\ s_allocator s (length bs) = true /\ Forall is_Some bs /\
  contents (publish p s).1 = contents s ++ bs /\ m_buffers (publish p s).2 = [].
Proof.
  intros H Hroom. unfold prepare. destruct (supportsPreparedPush s) eqn:Es; [| done].
  destruct (s_allocator s (length bs)); [| done]. destruct (hasNull bs) eqn:En; [done |].
  cbn [negb]. intros [= <-].
  assert (Ed : isDeque s = false) by (unfold supportsPreparedPush, isDeque in *; by destruct (s_mode s)).
  split_and!; try done.
  - apply Forall_forall. intros x Hx. destruct x; [done |]. exfalso.
    apply not_true_iff_false in En. apply En, existsb_exists. exists None.
    split; [by apply list_elem_of_In | done].
  - pose proof (holds_publish (mkPrepared bs) s cs H Ed (or_intror Hroom)) as Hp.
    by rewrite (holds_contents _ _ Hp), (holds_contents _ _ H).
Qed.

Lemma prepared_push_atomic_witness :
  let b i := Some (demoBuffer i true) in
  exists s p, create (ringPolicy 2) (Some (fun n => (n <? 5)%nat)) = Success s /\
    prepare [b 1; b 2] s = Success p /\ contents (publish p s).1 = [b 1; b 2].
Proof.
  intros b. do 2 eexists. split; [reflexivity |]. split; [reflexivity |].
  refine (proj1 (proj2 (proj2 (proj2 (prepared_push_atomic _ [] [b 1; b 2] _ _ _ _)))));
    [| vm_compute; lia | reflexivity].
  apply (create_holds (ringPolicy 2) (fun n => (n <? 5)%nat));
    [vm_compute; discriminate | reflexivity].
Defined.

End MediaBlockingQueueStorage.
