(* ===== verification/BlockingQueue.v ===== *)
(** * The mutex-protected queue

    Models [runtime/queue/MediaBlockingQueue.{h,cpp}].  Every method holds the
    mutex, so the code between two waits is one atomic function of the queue.
    A blocking call is such a segment that ends by returning or by waiting on a
    condition variable; a waiting thread runs its next segment once its wait
    predicate holds.  [notify] calls have no effect in the model: a waiting
    thread is enabled whenever its predicate holds.  The properties say that
    the queue refines the bounded FIFO of [Queue.v], what the blocking calls do
    under every interleaving, and that closing unblocks every thread, with the
    one exception the code has. *)

From stdpp Require Import relations.
From S2P Require Import Prelude MediaResult Model Ring Queue QueueStorage.
Import MediaBufferModel.

Local Open Scope Z_scope.
Local Open Scope result_scope.

Module MediaBlockingQueue.
Import MediaBlockingQueueStorage.

Record BlockingQueue := mkBlockingQueue {
  bq_policy : MediaQueuePolicy;
  bq_storage : Storage;
  bq_closed : bool;
  bq_aborted : bool;
  bq_metrics : MediaQueueMetrics;
}.

(** The constructor; [memory] is the allocator behind [std::vector]. *)
Definition create (memory : nat -> bool) (policy : MediaQueuePolicy) : Result BlockingQueue :=
  let* s := MediaBlockingQueueStorage.create policy (Some (reserveWithDefaultAllocator memory)) in
  Success (mkBlockingQueue policy s false false zeroMetrics).

Definition withStorage (s : Storage) (q : BlockingQueue) : BlockingQueue :=
  mkBlockingQueue (bq_policy q) s (bq_closed q) (bq_aborted q) (bq_metrics q).
Definition withMetrics (f : MediaQueueMetrics -> MediaQueueMetrics) (q : BlockingQueue) :
    BlockingQueue :=
  mkBlockingQueue (bq_policy q) (bq_storage q) (bq_closed q) (bq_aborted q) (f (bq_metrics q)).
Definition withState (closed aborted : bool) (q : BlockingQueue) : BlockingQueue :=
  mkBlockingQueue (bq_policy q) (bq_storage q) closed aborted (bq_metrics q).

Definition overflow (q : BlockingQueue) : MediaQueueOverflowPolicy := overflowPolicy (bq_policy q).

Definition overflowPolicyDropsIncoming (policy : MediaQueuePolicy) (b : MediaBuffer) : bool :=
  bool_decide (overflowPolicy policy = Overflow_DropNewest) ||
  (bool_decide (overflowPolicy policy = Overflow_DropNonKeyFrame) && negb (isKeyFrame b)).

Definition fullLocked (q : BlockingQueue) : bool :=
  isBoundedQueue (bq_policy q) && (capacity (bq_policy q) <=? Z.of_nat (size (bq_storage q))).

Definition updateSizeMetricsLocked (q : BlockingQueue) : BlockingQueue :=
  withMetrics (updateSize (size (bq_storage q))) q.

(** The search for a queued buffer that is not a key frame. *)
Fixpoint scanNonKey (n index : nat) (s : Storage) : option nat :=
  match n with
  | O => None
  | S n' =>
      match at_ index s with
      | Some b => if negb (isKeyFrame b) then Some index else scanNonKey n' (S index) s
      | None => scanNonKey n' (S index) s
      end
  end.

Definition eraseFirstNonKey (q : BlockingQueue) : BlockingQueue :=
  match scanNonKey (size (bq_storage q)) 0 (bq_storage q) with
  | Some index =>
      updateSizeMetricsLocked
        (withMetrics countDropped (withStorage (erase index (bq_storage q)) q))
  | None => q
  end.

Definition dropFront (q : BlockingQueue) : BlockingQueue :=
  updateSizeMetricsLocked (withMetrics countDropped (withStorage (popFront (bq_storage q)) q)).

(** The common end of [push] and [pushOutcome]. *)
Definition enqueue (b : MediaBuffer) (q : BlockingQueue) : BlockingQueue :=
  updateSizeMetricsLocked
    (withMetrics (countPushed 1) (withStorage (pushBack (Some b) (bq_storage q)) q)).

(** ** Non-blocking calls *)

Definition pushOutcome (ref : MediaBufferRef) (q : BlockingQueue) :
    BlockingQueue * MediaQueuePushOutcome :=
  match ref with
  | None => (q, Push_WouldBlock)
  | Some b =>
      if bq_aborted q then (withMetrics countFailedPush q, Push_Aborted)
      else if bq_closed q then (withMetrics countFailedPush q, Push_Closed)
      else if fullLocked q then
        match overflow q with
        | Overflow_DropNewest => (withMetrics countDropped q, Push_Dropped)
        | Overflow_DropNonKeyFrame =>
            if negb (isKeyFrame b) then (withMetrics countDropped q, Push_Dropped)
            else
              let q := eraseFirstNonKey q in
              if fullLocked q then (q, Push_WouldBlock) else (enqueue b q, Push_Accepted)
        | Overflow_DropOldest => (enqueue b (dropFront q), Push_Accepted)
        | Overflow_Abort => (withMetrics countFailedPush (withState true true q), Push_Aborted)
        | Overflow_BlockProducer => (q, Push_WouldBlock)
        end
      else (enqueue b q, Push_Accepted)
  end.

(** [out = std::move(m_storage.front()); popFront(); ...]. *)
Definition dequeue (q : BlockingQueue) : BlockingQueue * MediaBufferRef :=
  let out := front (bq_storage q) in
  (updateSizeMetricsLocked (withMetrics countPopped (withStorage (popFront (bq_storage q)) q)), out).

Definition tryPop (q : BlockingQueue) : BlockingQueue * MediaBufferRef :=
  if empty (bq_storage q) then (q, None) else dequeue q.

Definition close (q : BlockingQueue) : BlockingQueue := withState true (bq_aborted q) q.
Definition abort (q : BlockingQueue) : BlockingQueue := withState true true q.
Definition clear (q : BlockingQueue) : BlockingQueue :=
  updateSizeMetricsLocked (withStorage (MediaBlockingQueueStorage.clear (bq_storage q)) q).

(** Prepared pushes, with the lock held by the transaction. *)
Definition preparePush (buffers : list MediaBufferRef) (q : BlockingQueue) : Result PreparedPush :=
  prepare buffers (bq_storage q).
Definition publishPreparedLocked (p : PreparedPush) (q : BlockingQueue) :
    BlockingQueue * PreparedPush :=
  let count := Z.of_nat (Prepared_size p) in
  let '(s, p) := publish p (bq_storage q) in
  (updateSizeMetricsLocked (withMetrics (countPushed count) (withStorage s q)), p).

(** ** Blocking calls *)

(** How a segment ends; [Spinning] is the model's fuel running out. *)
Inductive Progress (R : Type) :=
  | Returned (r : R)
  | Waiting
  | Spinning.

Arguments Returned {R} r.
Arguments Waiting {R}.
Arguments Spinning {R}.

Definition handleOverflowLocked (b : MediaBuffer) (q : BlockingQueue) :
    BlockingQueue * Result unit :=
  match overflow q with
  | Overflow_DropNewest => (withMetrics countDropped q, Success tt)
  | Overflow_DropOldest =>
      (if negb (empty (bq_storage q)) then dropFront q else q, Success tt)
  | Overflow_DropNonKeyFrame =>
      if negb (isKeyFrame b) then (withMetrics countDropped q, Success tt)
      else (eraseFirstNonKey q, Success tt)
  | Overflow_Abort =>
      (withMetrics countFailedPush (withState true true q),
       failure (internalError "MediaBlockingQueue aborted by overflow policy"))
  | Overflow_BlockProducer => (q, Success tt)
  end.

Definition pushAborted : Result unit :=
  failure (internalError "MediaBlockingQueue push failed: queue aborted").
Definition pushClosed : Result unit :=
  failure (cancelled "MediaBlockingQueue push interrupted: queue closed").

(** Wait predicate of [m_notFull]. *)
Definition notFullReady (q : BlockingQueue) : bool :=
  negb (fullLocked q) || bq_closed q || bq_aborted q.

(** After the loop of [push]. *)
Definition pushTail (b : MediaBuffer) (q : BlockingQueue) : BlockingQueue * Progress (Result unit) :=
  if fullLocked q
  then (withMetrics countFailedPush q,
        Returned (failure (internalError "MediaBlockingQueue push failed: queue full")))
  else (enqueue b q, Returned (Success tt)).

(** The loop of [push].  The checks of [m_aborted] and [m_closed] follow a wait
    of the blocking policy; the wait of the key-frame policy is followed by
    [continue]. *)
Fixpoint pushLoop (fuel : nat) (b : MediaBuffer) (q : BlockingQueue) :
    BlockingQueue * Progress (Result unit) :=
  match fuel with
  | O => (q, Spinning)
  | S fuel' =>
      let recheck q :=
        if bq_aborted q then (withMetrics countFailedPush q, Returned pushAborted)
        else if bq_closed q then (withMetrics countFailedPush q, Returned pushClosed)
        else pushLoop fuel' b q in
      if negb (fullLocked q) then pushTail b q
      else if bool_decide (overflow q <> Overflow_BlockProducer) then
        let '(q, status) := handleOverflowLocked b q in
        if negb (resultOk status) || negb (fullLocked q) then pushTail b q
        else if overflowPolicyDropsIncoming (bq_policy q) b then (q, Returned (Success tt))
        else if bool_decide (overflow q = Overflow_DropNonKeyFrame) && isKeyFrame b then
          let q := withMetrics countBlockedPush q in
          if notFullReady q then pushLoop fuel' b q else (q, Waiting)
        else recheck q
      else
        let q := withMetrics countBlockedPush q in
        if notFullReady q then recheck q else (q, Waiting)
  end.

(** A call of [push], up to its return or first wait. *)
Definition push (fuel : nat) (ref : MediaBufferRef) (q : BlockingQueue) :
    BlockingQueue * Progress (Result unit) :=
  match ref with
  | None =>
      (q, Returned (failure (invalidArgument "MediaBlockingQueue push failed: buffer is null")))
  | Some b =>
      if bq_aborted q then (withMetrics countFailedPush q, Returned pushAborted)
      else if bq_closed q then (withMetrics countFailedPush q, Returned pushClosed)
      else pushLoop fuel b q
  end.

(** A waiting [push] that the scheduler runs: it stays until its predicate
    holds, then continues after the wait of its policy. *)
Definition pushResume (fuel : nat) (b : MediaBuffer) (q : BlockingQueue) :
    BlockingQueue * Progress (Result unit) :=
  if negb (notFullReady q) then (q, Waiting)
  else if bool_decide (overflow q = Overflow_BlockProducer) then
    if bq_aborted q then (withMetrics countFailedPush q, Returned pushAborted)
    else if bq_closed q then (withMetrics countFailedPush q, Returned pushClosed)
    else pushLoop fuel b q
  else pushLoop fuel b q.

(** A call of [pop], first run or resumed: the result carries [out]. *)
Definition pop (q : BlockingQueue) : BlockingQueue * Progress (Result MediaBufferRef) :=
  if negb (negb (empty (bq_storage q)) || bq_closed q || bq_aborted q) then (q, Waiting)
  else if bq_aborted q then
    (withMetrics countFailedPop q,
     Returned (failure (internalError "MediaBlockingQueue pop failed: queue aborted")))
  else if empty (bq_storage q) then
    (withMetrics countFailedPop q,
     Returned (failure (cancelled "MediaBlockingQueue pop interrupted: queue closed and empty")))
  else let '(q, out) := dequeue q in (q, Returned (Success out)).

(** ** The abstract view *)

Definition limit (q : BlockingQueue) : option nat :=
  if isBoundedQueue (bq_policy q) then Some (Z.to_nat (capacity (bq_policy q))) else None.

Definition view (q : BlockingQueue) : Fifo :=
  mkFifo (catRefs (contents (bq_storage q))) (bq_closed q) (bq_aborted q)
    (pushed (bq_metrics q)) (popped (bq_metrics q)) (dropped (bq_metrics q)).

(** The queued buffers are [l]: none null, within the capacity, and a ring is
    as long as the capacity. *)
Record Holds (q : BlockingQueue) (l : list MediaBuffer) : Prop := mkHolds {
  h_storage : holds (bq_storage q) (Some <$> l);
  h_bound : forall n, limit q = Some n -> (0 < n)%nat /\ (length l <= n)%nat;
  h_ring : s_mode (bq_storage q) = Storage_Deque \/ limit q = Some (length (s_ring (bq_storage q)));
}.

Definition ok (q : BlockingQueue) : Prop := exists l, Holds q l.

Lemma Holds_view q l :
  Holds q l -> view q = mkFifo l (bq_closed q) (bq_aborted q) (pushed (bq_metrics q))
                          (popped (bq_metrics q)) (dropped (bq_metrics q)).
Proof. intros [H _ _]. unfold view. by rewrite (holds_contents _ _ H), catRefs_Some. Qed.

Lemma Holds_full q l : Holds q l -> fullLocked q = fifoFull (limit q) (view q).
Proof.
  intros H. rewrite (Holds_view q l H). destruct H as [H _ _].
  unfold fullLocked, limit, fifoFull. rewrite (holds_size _ _ H), length_fmap.
  destruct (isBoundedQueue (bq_policy q)) eqn:E; [| done]. simpl.
  unfold isBoundedQueue in E. apply andb_true_iff in E as [_ E%Z.ltb_lt].
  destruct (Z.leb_spec (capacity (bq_policy q)) (Z.of_nat (length l)));
    destruct (Nat.leb_spec (Z.to_nat (capacity (bq_policy q))) (length l)); lia || done.
Qed.

Lemma Holds_size q l : Holds q l -> size (bq_storage q) = length l.
Proof. intros [H _ _]. by rewrite (holds_size _ _ H), length_fmap. Qed.

Lemma Holds_empty q l : Holds q l -> empty (bq_storage q) = bool_decide (l = []).
Proof.
  intros H. unfold empty. rewrite (Holds_size q l H). by destruct l.
Qed.

(** Metrics and flags do not matter to [Holds]. *)
Lemma Holds_metrics q l f : Holds q l -> Holds (withMetrics f q) l.
Proof. intros [H1 H2 H3]. by constructor. Qed.
Lemma Holds_state q l c a : Holds q l -> Holds (withState c a q) l.
Proof. intros [H1 H2 H3]. by constructor. Qed.
Lemma Holds_updateSize q l : Holds q l -> Holds (updateSizeMetricsLocked q) l.
Proof. apply Holds_metrics. Qed.

(** A storage call keeps [Holds] when the result fits. *)
Lemma Holds_storage q l op l' :
  Holds q l -> (Some <$> l') = runListOp op (Some <$> l) ->
  allowed (ringCapacity (bq_storage q)) op (Some <$> l) = true ->
  (length l' <= length l)%nat \/ (forall n, limit q = Some n -> (length l' <= n)%nat) ->
  Holds (withStorage (runStorageOp op (bq_storage q)) q) l'.
Proof.
  intros [H1 H2 H3] El Ha Hb.
  pose proof (runStorageOp_capacity op (bq_storage q)) as Hc.
  constructor; simpl.
  - rewrite El. by apply runStorageOp_holds.
  - intros n Hn. destruct (H2 n Hn) as [? ?]. split; [done |].
    destruct Hb as [Hb | Hb]; [lia | by apply Hb].
  - unfold ringCapacity, isDeque in Hc. unfold limit in *. simpl.
    pose proof (runStorageOp_holds op (bq_storage q) _ H1 Ha) as H1'. unfold holds in H1, H1'.
    destruct (s_mode (bq_storage q)), (s_mode (runStorageOp op (bq_storage q))); try done;
      [by left |]. destruct H3 as [? | H3]; [done |]. right. rewrite H3. congruence.
Qed.

Lemma Holds_room q l :
  Holds q l -> fullLocked q = false ->
  match ringCapacity (bq_storage q) with
  | Some n => (length (Some <$> l) <? n)%nat | None => true end = true.
Proof.
  intros H Hf. pose proof (Holds_full q l H) as E. rewrite Hf, (Holds_view q l H) in E.
  destruct H as [H1 H2 H3]. unfold ringCapacity, isDeque.
  destruct (s_mode (bq_storage q)); try done; (destruct H3 as [? | H3]; [done |]);
    rewrite H3 in E; simpl in E; rewrite length_fmap; apply Nat.ltb_lt;
    symmetry in E; apply Nat.leb_gt in E; done.
Qed.

Lemma Holds_enqueue q l b :
  Holds q l -> fullLocked q = false -> Holds (enqueue b q) (l ++ [b]).
Proof.
  intros H Hf. apply Holds_updateSize, Holds_metrics.
  apply (Holds_storage q l (S_pushBack (Some b)));
    [done | by rewrite fmap_app | by apply Holds_room | right].
  intros n Hn. pose proof (Holds_full q l H) as E. rewrite Hf, (Holds_view q l H) in E.
  rewrite Hn in E. simpl in E.
  symmetry in E. apply Nat.leb_gt in E. rewrite length_app. simpl. lia.
Qed.

Lemma Holds_popFront q b l :
  Holds q (b :: l) -> Holds (withStorage (popFront (bq_storage q)) q) l.
Proof.
  intros H. apply (Holds_storage q (b :: l) S_popFront); [done | done | done | left; simpl; lia].
Qed.

Lemma Holds_dropFront q b l : Holds q (b :: l) -> Holds (dropFront q) l.
Proof. intros H. by apply Holds_updateSize, Holds_metrics, (Holds_popFront q b). Qed.

Lemma fmap_delete_Some (l : list MediaBuffer) i :
  Some <$> delete i l = delete i (Some <$> l).
Proof. revert i. induction l as [| b l IH]; intros [| i]; simpl; try done. by f_equal. Qed.

Lemma scanNonKey_spec n index s (l : list MediaBuffer) :
  holds s (Some <$> l) -> (index + n = length l)%nat ->
  scanNonKey n index s = (fun i => index + i)%nat <$> firstNonKey (drop index l).
Proof.
  intros H. revert index. induction n as [| n IH]; intros index Hn; simpl.
  { by rewrite drop_ge by lia. }
  destruct (lookup_lt_is_Some_2 l index ltac:(lia)) as [b Hb].
  rewrite (holds_at _ _ _ H) by (rewrite length_fmap; lia).
  rewrite (list_lookup_total_correct _ index (Some b)) by (by rewrite list_lookup_fmap, Hb).
  rewrite (drop_S _ _ _ Hb). simpl. destruct (isKeyFrame b); simpl.
  - rewrite IH by lia. destruct (firstNonKey (drop (S index) l)); simpl; [f_equal; lia | done].
  - f_equal. lia.
Qed.

Lemma Holds_eraseFirstNonKey q l :
  Holds q l ->
  match firstNonKey l with
  | Some i => Holds (eraseFirstNonKey q) (delete i l) /\
      eraseFirstNonKey q = updateSizeMetricsLocked
        (withMetrics countDropped (withStorage (erase i (bq_storage q)) q)) /\ (i < length l)%nat
  | None => eraseFirstNonKey q = q
  end.
Proof.
  intros H. pose proof H as [H1 _ _]. unfold eraseFirstNonKey.
  rewrite (scanNonKey_spec _ _ _ l H1) by (by rewrite (Holds_size q l H)).
  rewrite drop_0. destruct (firstNonKey l) as [i |] eqn:E; simpl; [| done].
  assert (Hi : (i < length l)%nat).
  { apply firstNonKey_spec in E as [(b & Hb & _) _]. by apply lookup_lt_Some in Hb. }
  split_and!; try done. apply Holds_updateSize, Holds_metrics.
  apply (Holds_storage q l (S_erase i)); [done | apply fmap_delete_Some | |].
  - simpl. rewrite length_fmap. by apply Nat.ltb_lt.
  - left. rewrite length_delete by (by apply lookup_lt_is_Some_2). lia.
Qed.

(** The view after the calls that only touch the storage and the metrics. *)
Lemma view_updateSize q : view (updateSizeMetricsLocked q) = view q.
Proof. done. Qed.

Lemma full_nonempty q l : Holds q l -> fullLocked q = true -> l <> [].
Proof.
  intros H Ef ->. pose proof (Holds_full q [] H) as Hfull. rewrite Ef, (Holds_view q [] H) in Hfull.
  pose proof (h_bound q [] H) as Hb. destruct (limit q) as [n |]; [| done].
  destruct (Hb n eq_refl) as [? _]. destruct n; [lia | done].
Qed.

Lemma dropFront_room q x l :
  Holds q (x :: l) -> Holds (dropFront q) l /\ fullLocked (dropFront q) = false.
Proof.
  intros H. pose proof (Holds_dropFront q x l H) as Hd. split; [done |].
  rewrite (Holds_full _ _ Hd), (Holds_view _ _ Hd).
  change (limit (dropFront q)) with (limit q). pose proof (h_bound q _ H) as Hb.
  destruct (limit q) as [n |]; [| done]. apply Nat.leb_gt. simpl.
  destruct (Hb n eq_refl) as [_ ?]. simpl in *. lia.
Qed.

(** The oldest buffer goes, the new one comes. *)
Lemma dropOldest_push q l b :
  Holds q l -> fullLocked q = true ->
  Holds (enqueue b (dropFront q)) (tail l ++ [b]).
Proof.
  intros H Ef. destruct l as [| x l]; [by destruct (full_nonempty q [] H Ef) |].
  destruct (dropFront_room q x l H). by apply Holds_enqueue.
Qed.

(** The oldest queued non-key frame goes; there is room then. *)
Lemma dropNonKey_room q l i :
  Holds q l -> firstNonKey l = Some i ->
  Holds (eraseFirstNonKey q) (delete i l) /\ fullLocked (eraseFirstNonKey q) = false.
Proof.
  intros H E. pose proof (Holds_eraseFirstNonKey q l H) as He. rewrite E in He.
  destruct He as (He & Eq & Hi). split; [done |].
  rewrite (Holds_full _ _ He), (Holds_view _ _ He), Eq.
  change (limit _) with (limit q). pose proof (h_bound q l H) as Hb.
  destruct (limit q) as [n |]; [| done]. apply Nat.leb_gt. simpl.
  pose proof (Hb n eq_refl) as [_ ?].
  rewrite length_delete by (by apply lookup_lt_is_Some_2). lia.
Qed.

Lemma pushOutcome_refines ref q l :
  Holds q l ->
  let '(q', out) := pushOutcome ref q in
  ok q' /\ (view q', out) = fifoPush (overflow q) (limit q) ref (view q) /\
  bq_policy q' = bq_policy q.
Proof.
  intros H. unfold pushOutcome, fifoPush. pose proof (Holds_full q l H) as Hfull.
  assert (Hok : ok q) by (by exists l).
  assert (Hm : forall f, ok (withMetrics f q)) by (intros; exists l; by apply Holds_metrics).
  destruct ref as [b |]; [| done]. rewrite <- Hfull. clear Hfull.
  pose proof (Holds_view q l H) as Hv. rewrite Hv.
  change (fifoAborted _) with (bq_aborted q). change (fifoClosed _) with (bq_closed q).
  assert (Hmv : forall f, view (withMetrics f q) = mkFifo l (bq_closed q) (bq_aborted q)
     (pushed (f (bq_metrics q))) (popped (f (bq_metrics q))) (dropped (f (bq_metrics q)))).
  { intros f. exact (Holds_view _ l (Holds_metrics q l f H)). }
  destruct (bq_aborted q) eqn:Ea; [by rewrite Hmv |].
  destruct (bq_closed q) eqn:Ec; [by rewrite Hmv |].
  destruct (fullLocked q) eqn:Ef; cbn [negb].
  2:{ pose proof (Holds_enqueue q l b H Ef) as He. split; [by eexists |].
      rewrite (Holds_view _ _ He). simpl. by rewrite Ea, Ec. }
  destruct (overflow q).
  - by rewrite Hv.
  - by rewrite Hmv.
  - pose proof (dropOldest_push q l b H Ef) as He. split; [by eexists |].
    rewrite (Holds_view _ _ He). simpl. by rewrite Ea, Ec.
  - destruct (isKeyFrame b); cbn [negb]; [| by rewrite Hmv].
    pose proof (Holds_eraseFirstNonKey q l H) as He.
    cbn [items]. destruct (firstNonKey l) as [i |] eqn:Ei; [| by rewrite He, Ef, Hv].
    destruct (dropNonKey_room q l i H Ei) as [Hd Hf']. rewrite Hf'.
    pose proof (Holds_enqueue _ _ b Hd Hf') as Hq. split; [by eexists |].
    rewrite (Holds_view _ _ Hq), (proj1 (proj2 He)). simpl. by rewrite Ea, Ec.
  - split; [exists l; by apply Holds_metrics, Holds_state |].
    by rewrite (Holds_view _ l (Holds_metrics _ l _ (Holds_state q l true true H))).
Qed.

Lemma dequeue_refines q b l :
  Holds q (b :: l) ->
  (dequeue q).2 = Some b /\ Holds (dequeue q).1 l /\
  (view (dequeue q).1, (dequeue q).2) = fifoTryPop (view q) /\
  bq_policy (dequeue q).1 = bq_policy q.
Proof.
  intros H. unfold dequeue. simpl. pose proof H as [H1 _ _].
  pose proof (holds_front _ _ _ H1) as Hfr. rewrite Hfr.
  assert (H' : Holds (updateSizeMetricsLocked (withMetrics countPopped
             (withStorage (popFront (bq_storage q)) q))) l)
    by (by apply Holds_updateSize, Holds_metrics, (Holds_popFront q b)).
  split_and!; try done. by rewrite (Holds_view _ _ H'), (Holds_view _ _ H).
Qed.

Lemma tryPop_refines q l :
  Holds q l ->
  let '(q', out) := tryPop q in
  ok q' /\ (view q', out) = fifoTryPop (view q) /\ bq_policy q' = bq_policy q.
Proof.
  intros H. unfold tryPop. rewrite (Holds_empty q l H). destruct l as [| b l].
  - rewrite bool_decide_eq_true_2 by done. split; [by exists [] |]. by rewrite (Holds_view _ _ H).
  - rewrite bool_decide_eq_false_2 by done.
    destruct (dequeue_refines q b l H) as (_ & ? & E & ?).
    destruct (dequeue q). split_and!; [by exists l | done | done].
Qed.

Lemma clear_Holds q l : Holds q l -> Holds (clear q) [].
Proof.
  intros H. apply Holds_updateSize.
  apply (Holds_storage q l S_clear); [done | done | done | left; simpl; lia].
Qed.

(** ** The instance *)

#[global] Instance blockingMediaQueue : MediaQueue BlockingQueue := {
  queueOverflow := overflow;
  queueLimit := limit;
  queuePushOutcome := pushOutcome;
  queueTryPop := tryPop;
  queueClose := close;
  queueAbort := abort;
  queueClear := clear;
  queueSize := fun q => size (bq_storage q);
  queueClosed := bq_closed;
  queueAborted := bq_aborted;
  queueMetrics := bq_metrics;
  queueView := view;
  queueOk := ok;
}.

Lemma same_policy q q' :
  bq_policy q' = bq_policy q -> overflow q' = overflow q /\ limit q' = limit q.
Proof. intros E. unfold overflow, limit. by rewrite E. Qed.

#[global] Instance blockingMediaQueueLaws : MediaQueueLaws BlockingQueue.
Proof.
  constructor; unfold queueOk, queueView, queueOverflow, queueLimit, queuePushOutcome, queueTryPop,
    queueClose, queueAbort, queueClear, queueSize, blockingMediaQueue.
  - intros ref q [l H]. pose proof (pushOutcome_refines ref q l H) as Hp.
    destruct (pushOutcome ref q). destruct Hp as (? & ? & ?). eauto using same_policy.
  - intros q [l H]. pose proof (tryPop_refines q l H) as Hp.
    destruct (tryPop q). destruct Hp as (? & ? & ?). eauto using same_policy.
  - intros q [l H]. pose proof (Holds_state q l true (bq_aborted q) H) as H'.
    split; [by exists l |]. unfold close. by rewrite (Holds_view _ _ H'), (Holds_view _ _ H).
  - intros q [l H]. pose proof (Holds_state q l true true H) as H'.
    split; [by exists l |]. unfold abort. by rewrite (Holds_view _ _ H'), (Holds_view _ _ H).
  - intros q [l H]. pose proof (clear_Holds q l H) as H'.
    split; [by eexists |]. by rewrite (Holds_view _ _ H'), (Holds_view _ _ H).
  - intros q [l H]. by rewrite (Holds_view _ _ H), (Holds_size q l H).
  - intros q n [l H] Hn. rewrite (Holds_view _ _ H). by apply H.
Qed.

(** ** Lemmas: blocking calls *)

Definition progressOf (out : MediaQueuePushOutcome) (r : Progress (Result unit)) : Prop :=
  match out with
  | Push_Accepted | Push_Dropped => r = Returned (Success tt)
  | Push_WouldBlock => r = Waiting
  | Push_Closed => r = Returned pushClosed
  | Push_Aborted => exists e, r = Returned (Failure e)
  end.

Lemma fullLocked_metrics f q : fullLocked (withMetrics f q) = fullLocked q.
Proof. done. Qed.

Lemma enqueue_tail b q : fullLocked q = false -> pushTail b q = (enqueue b q, Returned (Success tt)).
Proof. intros E. unfold pushTail. by rewrite E. Qed.

(** The loop on an open queue does what [pushOutcome] does. *)
Lemma pushLoop_open fuel b q l :
  Holds q l -> bq_aborted q = false -> bq_closed q = false ->
  view (pushLoop (S fuel) b q).1 = view (pushOutcome (Some b) q).1 /\
  progressOf (pushOutcome (Some b) q).2 (pushLoop (S fuel) b q).2.
Proof.
  intros H Ea Ec. cbn [pushLoop]. unfold pushOutcome. rewrite Ea, Ec.
  destruct (fullLocked q) eqn:Ef; cbn [negb]; [| by rewrite enqueue_tail].
  unfold handleOverflowLocked, notFullReady. destruct (overflow q) eqn:Eo.
  - rewrite bool_decide_eq_false_2 by auto. cbn [bq_closed bq_aborted withMetrics].
    rewrite fullLocked_metrics, Ef, Ec, Ea. done.
  - rewrite bool_decide_eq_true_2 by done. cbn [resultOk negb orb].
    rewrite fullLocked_metrics, Ef. cbn [negb]. unfold overflowPolicyDropsIncoming.
    change (overflowPolicy _) with (overflow q). by rewrite Eo.
  - rewrite bool_decide_eq_true_2 by done.
    pose proof (full_nonempty q l H Ef) as Hne. rewrite (Holds_empty q l H).
    rewrite (bool_decide_eq_false_2 (l = [])) by done. cbn [resultOk negb orb].
    destruct l as [| x l]; [done |]. destruct (dropFront_room q x l H) as [_ Hf'].
    rewrite Hf'. cbn [negb]. by rewrite enqueue_tail.
  - rewrite bool_decide_eq_true_2 by done. destruct (isKeyFrame b) eqn:Ek; cbn [negb].
    + cbn [resultOk negb orb]. destruct (fullLocked (eraseFirstNonKey q)) eqn:Ee; cbn [negb];
        [| by rewrite enqueue_tail].
      pose proof (Holds_eraseFirstNonKey q l H) as He.
      destruct (firstNonKey l) as [i |] eqn:Ei.
      { destruct (dropNonKey_room q l i H Ei) as [_ Hn]. congruence. }
      rewrite He. unfold overflowPolicyDropsIncoming.
      change (overflowPolicy (bq_policy q)) with (overflow q). rewrite Eo, Ek. simpl.
      rewrite fullLocked_metrics, Ef, Ec, Ea. done.
    + cbn [resultOk negb orb]. rewrite fullLocked_metrics, Ef. cbn [negb].
      unfold overflowPolicyDropsIncoming. change (overflowPolicy _) with (overflow q).
      rewrite Eo, Ek. done.
  - rewrite bool_decide_eq_true_2 by done. cbn [resultOk failure negb orb]. unfold pushTail.
    rewrite fullLocked_metrics. change (fullLocked (withState _ _ _)) with (fullLocked q).
    rewrite Ef. split; [done |]. by eexists.
Qed.

(** ** Properties of the blocking calls *)

(** A blocking [push] of a buffer returns or waits within one round of its
    loop, and does exactly what the non-blocking [pushOutcome] does: the same
    queue (up to the failure counters), success where that one accepts or
    drops, waiting where that one would block, an error where that one reports
    the queue closed or aborted. *)
Theorem push_matches_pushOutcome fuel b q :
  ok q ->
  view (push (S fuel) (Some b) q).1 = view (pushOutcome (Some b) q).1 /\
  progressOf (pushOutcome (Some b) q).2 (push (S fuel) (Some b) q).2.
Proof.
  intros [l H]. unfold push.
  destruct (bq_aborted q) eqn:Ea; [unfold pushOutcome; rewrite Ea; split; [done | by eexists] |].
  destruct (bq_closed q) eqn:Ec; [unfold pushOutcome; by rewrite Ea, Ec |].
  by apply (pushLoop_open fuel b q l).
Qed.

Definition demoQueuePolicy (ov : MediaQueueOverflowPolicy) (cap : Z) : MediaQueuePolicy :=
  mkQueuePolicy QueueMode_Blocking ov Ordering_Fifo Storage_AtomicPrepared cap 0
    defaultDropPolicy defaultBackpressurePolicy true true true true.

(** A new queue with a ring of [cap] slots. *)
Definition demoQueue (ov : MediaQueueOverflowPolicy) (cap : Z) : BlockingQueue :=
  mkBlockingQueue (demoQueuePolicy ov cap)
    (mkStorage Storage_AtomicPrepared (fun _ => true) [] (replicate (Z.to_nat cap) None) 0 0)
    false false zeroMetrics.

Lemma create_ok memory policy q :
  0 <= capacity policy -> create memory policy = Success q -> ok q /\ view q = emptyFifo.
Proof.
  intros Hc. unfold create.
  destruct (MediaBlockingQueueStorage.create policy _) as [s |] eqn:E; simpl;
    [| unfold failure; by case_match].
  intros [= <-]. destruct (create_holds _ _ _ Hc E) as [Hs Hr].
  assert (H : Holds (mkBlockingQueue policy s false false zeroMetrics) []).
  { constructor; simpl; [done | |].
    - unfold limit, isBoundedQueue. simpl. intros n Hn.
      destruct (bounded policy && (0 <? capacity policy)) eqn:Eb; [| done]. simplify_eq.
      apply andb_true_iff in Eb as [_ ?%Z.ltb_lt]. lia.
    - unfold limit. simpl. destruct Hr as [? | Hr]; [by left |].
      unfold MediaBlockingQueueStorage.create in E.
      destruct (storageMode policy); [done | simplify_eq; by left |].
      destruct (isBoundedQueue policy); [| done]. simplify_eq. right. by rewrite Hr. }
  split; [by exists [] |]. by rewrite (Holds_view _ _ H).
Qed.

Lemma demoQueue_create ov cap :
  0 < cap -> create (fun _ => true) (demoQueuePolicy ov cap) = Success (demoQueue ov cap).
Proof.
  intros Hc. unfold create, MediaBlockingQueueStorage.create, isBoundedQueue. simpl.
  destruct (Z.ltb_spec 0 cap); [done | lia].
Qed.

Lemma demoQueue_ok ov cap : 0 < cap -> ok (demoQueue ov cap).
Proof.
  intros Hc. eapply create_ok; [| by apply (demoQueue_create ov)]. simpl. lia.
Qed.

Lemma push_matches_pushOutcome_witness :
  let q := demoQueue Overflow_DropOldest 2 in
  progressOf Push_Accepted (push 1 (Some (demoBuffer 1 true)) q).2.
Proof.
  exact (proj2 (push_matches_pushOutcome 0 (demoBuffer 1 true) (demoQueue Overflow_DropOldest 2)
           (demoQueue_ok Overflow_DropOldest 2 eq_refl))).
Defined.

(** The states in which the key-frame policy keeps a producer in its loop. *)
Definition spins (b : MediaBuffer) (q : BlockingQueue) : Prop :=
  overflow q = Overflow_DropNonKeyFrame /\ isKeyFrame b = true /\ fullLocked q = true /\
  (bq_closed q = true \/ bq_aborted q = true) /\
  exists l, Holds q l /\ Forall (fun x => isKeyFrame x = true) l.

Lemma pushLoop_spins fuel b q : spins b q -> (pushLoop fuel b q).2 = Spinning.
Proof.
  revert q. induction fuel as [| fuel IH]; intros q Hs; [done |]. cbn [pushLoop].
  pose proof Hs as (Eo & Ek & Ef & Hst & l & H & Hall).
  rewrite Ef, Eo. cbn [negb]. rewrite bool_decide_eq_true_2 by done.
  unfold handleOverflowLocked. rewrite Eo, Ek. cbn [negb resultOk orb].
  pose proof (Holds_eraseFirstNonKey q l H) as He.
  apply firstNonKey_None in Hall as Hn. rewrite Hn in He. rewrite He, Ef. cbn [negb].
  unfold overflowPolicyDropsIncoming. change (overflowPolicy (bq_policy q)) with (overflow q).
  rewrite Eo, Ek.
  change (bool_decide (Overflow_DropNonKeyFrame = Overflow_DropNewest)) with false.
  change (bool_decide (Overflow_DropNonKeyFrame = Overflow_DropNonKeyFrame)) with true.
  cbn [negb andb orb]. unfold notFullReady. rewrite fullLocked_metrics, Ef.
  cbn [bq_closed bq_aborted withMetrics].
  assert (Hready : negb true || bq_closed q || bq_aborted q = true).
  { destruct Hst as [-> | ->]; [done | apply orb_true_r]. }
  rewrite Hready. apply IH. split_and!; try done. exists l. split; [by apply Holds_metrics | done].
Qed.

(** A producer of a key frame that waits on a queue full of key frames
    under the policy [DropNonKeyFrame] never returns once the queue is closed or
    aborted: its wait predicate holds, the code then loops without checking the
    flags, and the queue stays full because the loop holds the mutex. *)
Theorem key_push_spins_after_close fuel b q :
  spins b q -> (pushResume fuel b q).2 = Spinning.
Proof.
  intros Hs. pose proof Hs as (Eo & _ & _ & Hst & _). unfold pushResume, notFullReady.
  assert (Hready : negb (fullLocked q) || bq_closed q || bq_aborted q = true).
  { destruct Hst as [-> | ->]; [by rewrite orb_true_r | apply orb_true_r]. }
  rewrite Hready, Eo. cbn [negb]. rewrite bool_decide_eq_false_2 by done.
  by apply pushLoop_spins.
Qed.

(** The state is reached by two pushes and a close. *)
Lemma key_push_spins_after_close_witness :
  let key := demoBuffer 1 true in
  let q1 := (push 1 (Some key) (demoQueue Overflow_DropNonKeyFrame 1)).1 in
  (push 1 (Some key) q1).2 = Waiting /\
  forall fuel, (pushResume fuel key (close (push 1 (Some key) q1).1)).2 = Spinning.
Proof.
  intros key q1. split; [reflexivity |]. intros fuel. apply key_push_spins_after_close.
  split; [reflexivity |]. split; [reflexivity |]. split; [reflexivity |].
  split; [left; reflexivity |]. exists [key]. split; [| repeat constructor].
  constructor.
  - split; [| reflexivity]. split; [vm_compute; lia |]. split; [vm_compute; lia | reflexivity].
  - intros n Hn. vm_compute in Hn. injection Hn as <-. simpl. lia.
  - right. reflexivity.
Defined.

(** Under every other overflow policy closing or aborting unblocks: a
    waiting [push] returns an error at its next step, and so a [pop] on an
    empty queue. *)
Theorem close_unblocks fuel b q :
  ok q -> bq_closed q = true \/ bq_aborted q = true ->
  (overflow q = Overflow_BlockProducer -> exists e, (pushResume fuel b q).2 = Returned (Failure e)) /\
  (empty (bq_storage q) = true -> exists e, (pop q).2 = Returned (Failure e)) /\
  (pop q).2 <> Waiting.
Proof.
  intros [l H] Hst.
  assert (Hready : forall c, c || bq_closed q || bq_aborted q = true).
  { intros c. destruct Hst as [-> | ->]; [by rewrite orb_true_r | apply orb_true_r]. }
  split; [| split].
  - intros Eo. unfold pushResume, notFullReady. rewrite Hready, Eo. cbn [negb].
    rewrite bool_decide_eq_true_2 by done.
    destruct (bq_aborted q); [by eexists |]. destruct (bq_closed q); [by eexists |].
    by destruct Hst.
  - intros Ee. unfold pop. rewrite Hready, Ee. cbn [negb].
    destruct (bq_aborted q); by eexists.
  - unfold pop. rewrite Hready. cbn [negb]. destruct (bq_aborted q); [done |].
    destruct (empty (bq_storage q)); [done |]. by destruct (dequeue q).
Qed.

Lemma close_unblocks_witness :
  exists e, (pushResume 0 (demoBuffer 1 true) (close (demoQueue Overflow_BlockProducer 1))).2
            = Returned (Failure e).
Proof.
  apply (close_unblocks 0 (demoBuffer 1 true) (close (demoQueue Overflow_BlockProducer 1)));
    [| left; reflexivity | reflexivity].
  destruct (demoQueue_ok Overflow_BlockProducer 1 eq_refl) as [l H].
  exists l. apply Holds_state. exact H.
Defined.

(** [n] consecutive pops of one consumer. *)
Fixpoint pops (n : nat) (q : BlockingQueue) : BlockingQueue * list (Progress (Result MediaBufferRef)) :=
  match n with
  | O => (q, [])
  | S n' => let '(q1, r) := pop q in let '(q2, rs) := pops n' q1 in (q2, r :: rs)
  end.

Definition closedAndEmpty : Progress (Result MediaBufferRef) :=
  Returned (failure (cancelled "MediaBlockingQueue pop interrupted: queue closed and empty")).

(** A closed queue drains: the consumer gets every queued buffer in order
    and then the cancellation error; an aborted queue hands out nothing, even
    when buffers are queued. *)
Theorem closed_queue_drains q l :
  Holds q l -> bq_closed q = true ->
  (bq_aborted q = false ->
   (pops (S (length l)) q).2 = ((fun b => Returned (Success (Some b))) <$> l) ++ [closedAndEmpty]) /\
  (bq_aborted q = true -> exists e, (pop q).2 = Returned (Failure e) /\
     items (view (pop q).1) = l).
Proof.
  intros H Ec. split.
  - revert q H Ec. induction l as [| b l IH]; intros q H Ec Ea; cbn [pops].
    + unfold pop. rewrite (Holds_empty q [] H), Ec, Ea. done.
    + unfold pop. rewrite (Holds_empty q _ H), Ec, Ea. rewrite bool_decide_eq_false_2 by done.
      cbn [negb orb]. destruct (dequeue_refines q b l H) as (Eb & H' & _).
      assert (Ec' : bq_closed (dequeue q).1 = true) by done.
      assert (Ea' : bq_aborted (dequeue q).1 = false) by done.
      destruct (dequeue q) as [q1 out]. simpl in Eb, H', Ec', Ea'. subst out.
      specialize (IH q1 H' Ec' Ea'). cbn [length].
      destruct (pops (S (length l)) q1) as [q2 rs]. simpl in *. by rewrite IH.
  - intros Ea. unfold pop. rewrite Ea, orb_true_r. cbn [negb fst snd]. eexists. split; [done |].
    by rewrite (Holds_view _ l (Holds_metrics q l _ H)).
Qed.

Lemma Holds_demo ov cap b :
  1 < cap -> Holds (pushOutcome (Some b) (demoQueue ov cap)).1 [b].
Proof.
  intros Hc. assert (Hf : fullLocked (demoQueue ov cap) = false).
  { unfold fullLocked. change (size _) with 0%nat. change (capacity _) with cap.
    destruct (Z.leb_spec cap (Z.of_nat 0)); [lia | apply andb_false_r]. }
  unfold pushOutcome. rewrite Hf. cbn [bq_aborted bq_closed demoQueue fst].
  destruct (demoQueue_ok ov cap ltac:(lia)) as [l Hq].
  assert (l = []) as ->.
  { pose proof (Holds_size _ _ Hq) as Hs. by destruct l. }
  by apply (Holds_enqueue _ []).
Qed.

Lemma closed_queue_drains_witness :
  let b := demoBuffer 1 true in
  (pops 2 (close (pushOutcome (Some b) (demoQueue Overflow_BlockProducer 2)).1)).2 =
  [Returned (Success (Some b)); closedAndEmpty].
Proof.
  intros b.
  apply (closed_queue_drains (close (pushOutcome (Some b) (demoQueue Overflow_BlockProducer 2)).1) [b]);
    [apply Holds_state, Holds_demo; reflexivity | reflexivity | reflexivity].
Defined.

(** ** Interleavings of threads *)

Inductive Thread :=
  | Producer (b : MediaBuffer)
  | ProducerWaiting (b : MediaBuffer)
  | ProducerDone (r : Result unit)
  | Consumer
  | ConsumerWaiting
  | ConsumerDone (r : Result MediaBufferRef).

(** The queue, its threads, and the buffers sent and received so far. *)
Record System := mkSystem {
  sys_queue : BlockingQueue;
  sys_threads : list Thread;
  sys_sent : list MediaBuffer;
  sys_received : list MediaBuffer;
}.

Definition producerNext (b : MediaBuffer) (r : Progress (Result unit)) : Thread :=
  match r with Returned r => ProducerDone r | _ => ProducerWaiting b end.
Definition sentBy (b : MediaBuffer) (r : Progress (Result unit)) : list MediaBuffer :=
  match r with Returned (Success tt) => [b] | _ => [] end.
Definition consumerNext (r : Progress (Result MediaBufferRef)) : Thread :=
  match r with Returned r => ConsumerDone r | _ => ConsumerWaiting end.
Definition receivedBy (r : Progress (Result MediaBufferRef)) : list MediaBuffer :=
  match r with Returned (Success (Some b)) => [b] | _ => [] end.

(** Some thread runs its next segment, or the graph closes or aborts the
    queue. *)
Inductive step : System -> System -> Prop :=
  | step_push i b s q r :
      sys_threads s !! i = Some (Producer b) -> push 1 (Some b) (sys_queue s) = (q, r) ->
      step s (mkSystem q (<[i := producerNext b r]> (sys_threads s))
                (sys_sent s ++ sentBy b r) (sys_received s))
  | step_push_resume i b s q r :
      sys_threads s !! i = Some (ProducerWaiting b) -> pushResume 1 b (sys_queue s) = (q, r) ->
      step s (mkSystem q (<[i := producerNext b r]> (sys_threads s))
                (sys_sent s ++ sentBy b r) (sys_received s))
  | step_pop i t s q r :
      sys_threads s !! i = Some t -> t = Consumer \/ t = ConsumerWaiting ->
      pop (sys_queue s) = (q, r) ->
      step s (mkSystem q (<[i := consumerNext r]> (sys_threads s))
                (sys_sent s) (sys_received s ++ receivedBy r))
  | step_close s :
      step s (mkSystem (close (sys_queue s)) (sys_threads s) (sys_sent s) (sys_received s))
  | step_abort s :
      step s (mkSystem (abort (sys_queue s)) (sys_threads s) (sys_sent s) (sys_received s)).

(** A call put [k] buffers under the table: the queue holds a subsequence of
    what it held and what was sent, and the metric counts the rest. *)
Definition keeps (q q' : BlockingQueue) (l l' sent : list MediaBuffer) : Prop :=
  overflow q' = overflow q /\ Holds q' l' /\ l' `sublist_of` (l ++ sent) /\
  (exists k, (length l' + k = length l + length sent)%nat /\
     dropped (bq_metrics q') = u64 (dropped (bq_metrics q) + Z.of_nat k)) /\
  (overflow q = Overflow_BlockProducer -> l' = l ++ sent).

Definition droppedOk (q : BlockingQueue) : Prop := is_u 64 (dropped (bq_metrics q)).

Lemma dropped_none q : droppedOk q -> dropped (bq_metrics q) = u64 (dropped (bq_metrics q) + Z.of_nat 0).
Proof. intros H. unfold u64. by rewrite Z.add_0_r, Z.mod_small. Qed.

Lemma keeps_all q q' l sent : droppedOk q -> overflow q' = overflow q -> Holds q' (l ++ sent) ->
  dropped (bq_metrics q') = dropped (bq_metrics q) -> keeps q q' l (l ++ sent) sent.
Proof.
  intros Hd Eo H Ed. split_and!; [done | done | done | | done]. exists 0%nat. rewrite length_app, Ed. split; [lia | by apply dropped_none].
Qed.

Lemma keeps_same q q' l : droppedOk q -> overflow q' = overflow q -> Holds q' l ->
  dropped (bq_metrics q') = dropped (bq_metrics q) -> keeps q q' l l [].
Proof. intros. rewrite <- (app_nil_r l) at 2. apply keeps_all; [done | done | by rewrite app_nil_r | done]. Qed.

(** One buffer goes. *)
Lemma keeps_drop q q' l l' sent : overflow q <> Overflow_BlockProducer -> overflow q' = overflow q -> Holds q' l' ->
  l' `sublist_of` (l ++ sent) -> (length l' + 1 = length l + length sent)%nat ->
  dropped (bq_metrics q') = u64 (dropped (bq_metrics q) + 1) -> keeps q q' l l' sent.
Proof. intros Hne Eo H Hsub Hlen Ed. split_and!; [done | done | done | by exists 1%nat | done]. Qed.

Lemma pushLoop_keeps b q l : Holds q l -> droppedOk q ->
  exists l', keeps q (pushLoop 1 b q).1 l l' (sentBy b (pushLoop 1 b q).2).
Proof.
  intros H Hd. cbn [pushLoop]. destruct (fullLocked q) eqn:Ef; cbn [negb].
  2:{ rewrite enqueue_tail by done. exists (l ++ [b]). by apply keeps_all; [| | apply Holds_enqueue |]. }
  assert (Hsame : forall q', overflow q' = overflow q -> Holds q' l -> dropped (bq_metrics q') = dropped (bq_metrics q) ->
    exists l', keeps q q' l l' []) by (intros q' ? ? ?; exists l; by apply keeps_same).
  assert (Hblocked : Holds (withMetrics countBlockedPush q) l) by by apply Holds_metrics.
  assert (Hincoming : overflow q <> Overflow_BlockProducer -> exists l', keeps q (withMetrics countDropped q) l l' [b]).
  { intros Hne. exists l. apply keeps_drop; [done | done | by apply Holds_metrics | by apply sublist_inserts_r | cbn; lia | done]. }
  destruct (overflow q) eqn:Eo.
  - rewrite bool_decide_eq_false_2 by auto. unfold notFullReady. rewrite fullLocked_metrics, Ef.
    cbn [negb orb withMetrics bq_closed bq_aborted].
    destruct (bq_closed q), (bq_aborted q); cbn; apply Hsame; repeat apply Holds_metrics; done.
  - rewrite bool_decide_eq_true_2 by done. unfold handleOverflowLocked. rewrite Eo. cbn [resultOk negb orb].
    rewrite fullLocked_metrics, Ef. cbn [negb]. unfold overflowPolicyDropsIncoming. change (overflowPolicy _) with (overflow q).
    rewrite Eo. by apply Hincoming.
  - rewrite bool_decide_eq_true_2 by done. unfold handleOverflowLocked. rewrite Eo, (Holds_empty q l H).
    pose proof (full_nonempty q l H Ef) as Hne. rewrite (bool_decide_eq_false_2 (l = [])) by done. cbn [resultOk negb orb].
    destruct l as [| x l]; [done |]. destruct (dropFront_room q x l H) as [Hl Hf'].
    rewrite Hf'. cbn [negb]. rewrite enqueue_tail by done. exists (l ++ [b]).
    apply keeps_drop; [by rewrite Eo | done | by apply Holds_enqueue | by apply sublist_cons | | done].
    rewrite !length_app. cbn. lia.
  - rewrite bool_decide_eq_true_2 by done. unfold handleOverflowLocked. rewrite Eo.
    unfold overflowPolicyDropsIncoming. destruct (isKeyFrame b) eqn:Ek; cbn [negb resultOk orb].
    + pose proof (Holds_eraseFirstNonKey q l H) as He. destruct (firstNonKey l) as [i |] eqn:Ei.
      * destruct He as (_ & Eerase & Hi). destruct (dropNonKey_room q l i H Ei) as [Hdel Hroom]. rewrite Hroom. cbn [negb].
        rewrite enqueue_tail by done. exists (delete i l ++ [b]).
        apply keeps_drop; [by rewrite Eo | by rewrite Eerase | by apply Holds_enqueue | | | by rewrite Eerase].
        -- apply sublist_app; [apply sublist_delete | done].
        -- rewrite !length_app, length_delete by by apply lookup_lt_is_Some_2. cbn. lia.
      * rewrite He, Ef. cbn [negb]. change (overflowPolicy (bq_policy q)) with (overflow q). rewrite Eo.
        rewrite (bool_decide_eq_false_2 (Overflow_DropNonKeyFrame = Overflow_DropNewest)) by done.
        rewrite (bool_decide_eq_true_2 (Overflow_DropNonKeyFrame = Overflow_DropNonKeyFrame)) by done. cbn [andb orb].
        destruct (notFullReady _); by apply Hsame.
    + rewrite fullLocked_metrics, Ef. cbn [negb]. change (overflowPolicy (bq_policy _)) with (overflow q). rewrite Eo.
      cbn [negb]. rewrite (bool_decide_eq_true_2 (Overflow_DropNonKeyFrame = Overflow_DropNonKeyFrame)) by done.
      rewrite andb_true_r, orb_true_r. by apply Hincoming.
  - rewrite bool_decide_eq_true_2 by done. unfold handleOverflowLocked. rewrite Eo. cbn [resultOk failure negb orb].
    unfold pushTail. rewrite fullLocked_metrics. change (fullLocked (withState _ _ _)) with (fullLocked q). rewrite Ef.
    apply Hsame; [done | | done]. by apply Holds_metrics, Holds_metrics, Holds_state.
Qed.

Lemma refused_keeps b q l e : Holds q l -> droppedOk q ->
  exists l', keeps q (withMetrics countFailedPush q) l l' (sentBy b (Returned (failure e))).
Proof.
  intros H Hd. exists l. unfold failure. destruct (ErrorInfo_ok e); by apply keeps_same; [| | apply Holds_metrics |].
Qed.

Lemma push_keeps b q l : Holds q l -> droppedOk q ->
  exists l', keeps q (push 1 (Some b) q).1 l l' (sentBy b (push 1 (Some b) q).2).
Proof.
  intros H Hd. unfold push. destruct (bq_aborted q); [by apply refused_keeps |].
  destruct (bq_closed q); [by apply refused_keeps |]. by apply pushLoop_keeps.
Qed.

Lemma pushResume_keeps b q l : Holds q l -> droppedOk q ->
  exists l', keeps q (pushResume 1 b q).1 l l' (sentBy b (pushResume 1 b q).2).
Proof.
  intros H Hd. unfold pushResume. destruct (notFullReady q); cbn [negb]; [| exists l; by apply keeps_same].
  destruct (bool_decide _); [by apply (push_keeps b q l) | by apply pushLoop_keeps].
Qed.

Lemma pop_keeps q l : Holds q l ->
  overflow (pop q).1 = overflow q /\ dropped (bq_metrics (pop q).1) = dropped (bq_metrics q) /\
  exists l', Holds (pop q).1 l' /\ l = receivedBy (pop q).2 ++ l'.
Proof.
  intros H. unfold pop. rewrite (Holds_empty q l H).
  assert (Hsame : forall q', overflow q' = overflow q -> dropped (bq_metrics q') = dropped (bq_metrics q) -> Holds q' l ->
    overflow q' = overflow q /\ dropped (bq_metrics q') = dropped (bq_metrics q) /\ exists l', Holds q' l' /\ l = [] ++ l').
  { intros q' ? ? ?. split_and!; [done | done | by exists l]. }
  destruct (negb (_ || _)); [by apply Hsame |].
  destruct (bq_aborted q); [apply Hsame; [done | done | by apply Holds_metrics] |].
  destruct l as [| b l]; [apply Hsame; [done | done | by apply Holds_metrics] |]. clear Hsame.
  rewrite bool_decide_eq_false_2 by done.
  assert (Ed : dropped (bq_metrics (dequeue q).1) = dropped (bq_metrics q)) by done.
  destruct (dequeue_refines q b l H) as (Eb & H' & _ & Ep).
  destruct (dequeue q) as [q1 out]. simpl in *. subst out.
  split; [by apply same_policy |]. split; [done | by exists l].
Qed.

(** Every buffer sent is received, queued, or counted as dropped. *)
Record sysOk (ov : MediaQueueOverflowPolicy) (s : System) : Prop := {
  so_overflow : overflow (sys_queue s) = ov;
  so_dropped : dropped (bq_metrics (sys_queue s)) =
    u64 (Z.of_nat (length (sys_sent s)) - Z.of_nat (length (sys_received s ++ items (view (sys_queue s)))));
  so_holds : exists l, Holds (sys_queue s) l;
  so_order : (sys_received s ++ items (view (sys_queue s))) `sublist_of` sys_sent s;
  so_block : ov = Overflow_BlockProducer -> sys_sent s = sys_received s ++ items (view (sys_queue s));
}.

Lemma keeps_sys ov s q l l' threads sent : sysOk ov s -> Holds (sys_queue s) l -> keeps (sys_queue s) q l l' sent ->
  sysOk ov (mkSystem q threads (sys_sent s ++ sent) (sys_received s)).
Proof.
  intros [E1 E2 _ E4 E5] H (K1 & K2 & K3 & (k & K4 & K5) & K6). rewrite (Holds_view _ _ H) in E2, E4, E5. cbn [items] in *.
  constructor; cbn [sys_queue sys_sent sys_received]; rewrite ?(Holds_view _ _ K2); cbn [items].
  - congruence.
  - rewrite K5, E2. unfold u64. rewrite Zplus_mod_idemp_l. f_equal. rewrite !length_app. rewrite length_app in K4 || idtac. lia.
  - by exists l'.
  - etrans; [by apply sublist_app; [| exact K3] |]. rewrite app_assoc. by apply sublist_app.
  - intros ->. rewrite K6, (E5 eq_refl) by congruence. by rewrite app_assoc.
Qed.

Lemma pop_sys ov s threads : sysOk ov s ->
  sysOk ov (mkSystem (pop (sys_queue s)).1 threads (sys_sent s) (sys_received s ++ receivedBy (pop (sys_queue s)).2)).
Proof.
  intros [E1 E2 [l H] E4 E5]. destruct (pop_keeps _ _ H) as (P1 & P2 & l' & P3 & P4). rewrite (Holds_view _ _ H) in E2, E4, E5. cbn [items] in *.
  constructor; cbn [sys_queue sys_sent sys_received]; rewrite ?(Holds_view _ _ P3); cbn [items]; rewrite <- ?app_assoc, <- ?P4;
    [congruence | congruence | by exists l' | done | done].
Qed.

Lemma step_sysOk ov s s' : step s s' -> sysOk ov s -> sysOk ov s'.
Proof.
  intros Hstep Hok. pose proof (so_holds _ _ Hok) as [l H].
  assert (Hd : droppedOk (sys_queue s)) by (unfold droppedOk; rewrite (so_dropped _ _ Hok); by apply Z.mod_pos_bound).
  destruct Hstep as [i b s q r _ Ep | i b s q r _ Ep | i t s q r _ _ Ep | s | s].
  - destruct (push_keeps b _ l H Hd) as [l' Hk]. rewrite Ep in Hk. by eapply keeps_sys.
  - destruct (pushResume_keeps b _ l H Hd) as [l' Hk]. rewrite Ep in Hk. by eapply keeps_sys.
  - pose proof (pop_sys ov s (<[i := consumerNext r]> (sys_threads s)) Hok) as Hp. by rewrite Ep in Hp.
  - destruct Hok as [E1 E2 _ E4 E5]. pose proof (Holds_state _ _ true (bq_aborted (sys_queue s)) H) as H'.
    rewrite (Holds_view _ _ H) in E2, E4, E5. constructor; cbn [sys_queue sys_sent sys_received];
      unfold close; rewrite ?(Holds_view _ _ H'); [done | done | by exists l | done | done].
  - destruct Hok as [E1 E2 _ E4 E5]. pose proof (Holds_state _ _ true true H) as H'.
    rewrite (Holds_view _ _ H) in E2, E4, E5. constructor; cbn [sys_queue sys_sent sys_received];
      unfold abort; rewrite ?(Holds_view _ _ H'); [done | done | by exists l | done | done].
Qed.



End MediaBlockingQueue.
