(* ===== verification/SpscRingQueue.v ===== *)
(** * The single-producer single-consumer ring queue

    Models [runtime/queue/MediaSpscRingQueue.{h,cpp}] with the wrappers
    [MediaSpscQueue] and [MediaQueueFactory].  The ring has one slot more than
    the capacity, so that full and empty differ; read and write positions are
    [std::size_t] values below its length.  Every method takes the mutex; a
    blocking call is an iteration of its loop that returns or waits.  The
    queue is a second instance of the interface of [Queue.v], and the
    properties relate it to the blocking queue. *)

From S2P Require Import Prelude MediaResult Model Ring Queue QueueStorage BlockingQueue.
Import MediaBufferModel.

Local Open Scope Z_scope.
Local Open Scope result_scope.

Module MediaSpscRingQueue.

Record RingQueue := mkRingQueue {
  rq_policy : MediaQueuePolicy;
  rq_ring : list MediaBufferRef;
  rq_capacity : nat;
  rq_read : nat;
  rq_write : nat;
  rq_closed : bool;
  rq_aborted : bool;
  rq_metrics : MediaQueueMetrics;
}.

(** The policy the constructor stores. *)
Definition effectivePolicy (p : MediaQueuePolicy) : MediaQueuePolicy :=
  mkQueuePolicy
    (match queueMode p with
     | QueueMode_Unknown | QueueMode_Blocking => QueueMode_SpscRing
     | m => m
     end)
    (overflowPolicy p) (orderingPolicy p) (storageMode p)
    (if capacity p =? 0 then 16 else capacity p)
    (reserveCapacity p) (queueDropPolicy p) (queueBackpressurePolicy p)
    (bounded p) (preserveOrdering p) (allowFlushControlBypass p) (collectMetrics p).

Definition create (policy : MediaQueuePolicy) : RingQueue :=
  let p := effectivePolicy policy in
  let n := Z.to_nat (u64 (capacity p + 1)) in
  mkRingQueue p (replicate n None) n 0 0 false false zeroMetrics.

Definition withMetrics (f : MediaQueueMetrics -> MediaQueueMetrics) (q : RingQueue) : RingQueue :=
  mkRingQueue (rq_policy q) (rq_ring q) (rq_capacity q) (rq_read q) (rq_write q)
    (rq_closed q) (rq_aborted q) (f (rq_metrics q)).
Definition withRing (ring : list MediaBufferRef) (read write : nat) (q : RingQueue) : RingQueue :=
  mkRingQueue (rq_policy q) ring (rq_capacity q) read write
    (rq_closed q) (rq_aborted q) (rq_metrics q).
Definition withState (closed aborted : bool) (q : RingQueue) : RingQueue :=
  mkRingQueue (rq_policy q) (rq_ring q) (rq_capacity q) (rq_read q) (rq_write q)
    closed aborted (rq_metrics q).

Definition overflow (q : RingQueue) : MediaQueueOverflowPolicy := overflowPolicy (rq_policy q).

Definition next (index : nat) (q : RingQueue) : nat := ((index + 1) mod rq_capacity q)%nat.
Definition full (q : RingQueue) : bool := Nat.eqb (next (rq_write q) q) (rq_read q).
Definition empty (q : RingQueue) : bool := Nat.eqb (rq_write q) (rq_read q).

Definition sizeLocked (q : RingQueue) : nat :=
  if (rq_read q <=? rq_write q)%nat then (rq_write q - rq_read q)%nat
  else (rq_capacity q - rq_read q + rq_write q)%nat.

Definition updateSizeMetrics (q : RingQueue) : RingQueue :=
  withMetrics (updateSize (sizeLocked q)) q.

Definition dropOldest (q : RingQueue) : RingQueue * bool :=
  if empty q then (q, false)
  else
    let q := withRing (<[rq_read q := None]> (rq_ring q)) (next (rq_read q) q) (rq_write q) q in
    (updateSizeMetrics (withMetrics countDropped q), true).

(** [while (candidate != write)]: the position of a queued non-key frame. *)
Fixpoint scanNonKey (fuel candidate : nat) (q : RingQueue) : option nat :=
  match fuel with
  | O => None
  | S fuel' =>
      if Nat.eqb candidate (rq_write q) then None
      else
        match rq_ring q !!! candidate with
        | Some b => if negb (isKeyFrame b) then Some candidate
                    else scanNonKey fuel' (next candidate q) q
        | None => scanNonKey fuel' (next candidate q) q
        end
  end.

(** [while (current != read)]: the buffers before it move one slot up. *)
Fixpoint shiftUp (fuel current read capacity : nat) (ring : list MediaBufferRef) :
    list MediaBufferRef :=
  match fuel with
  | O => ring
  | S fuel' =>
      if Nat.eqb current read then ring
      else
        let previous := if Nat.eqb current 0 then (capacity - 1)%nat else (current - 1)%nat in
        shiftUp fuel' previous read capacity (moveSlot current previous ring)
  end.

Definition dropOldestNonKeyFrame (q : RingQueue) : RingQueue * bool :=
  if empty q then (q, false)
  else
    match scanNonKey (rq_capacity q) (rq_read q) q with
    | None => (q, false)
    | Some candidate =>
        let ring := shiftUp (rq_capacity q) candidate (rq_read q) (rq_capacity q) (rq_ring q) in
        let q := withRing (<[rq_read q := None]> ring) (next (rq_read q) q) (rq_write q) q in
        (updateSizeMetrics (withMetrics countDropped q), true)
    end.

Definition enqueue (b : MediaBuffer) (q : RingQueue) : RingQueue :=
  let q := withRing (<[rq_write q := Some b]> (rq_ring q)) (rq_read q) (next (rq_write q) q) q in
  updateSizeMetrics (withMetrics (countPushed 1) q).

Definition pushOutcome (ref : MediaBufferRef) (q : RingQueue) : RingQueue * MediaQueuePushOutcome :=
  match ref with
  | None => (withMetrics countFailedPush q, Push_WouldBlock)
  | Some b =>
      if rq_aborted q then (withMetrics countFailedPush q, Push_Aborted)
      else if rq_closed q then (withMetrics countFailedPush q, Push_Closed)
      else if full q then
        match overflow q with
        | Overflow_DropOldest =>
            let '(q, done) := dropOldest q in
            if negb done then (withMetrics countFailedPush q, Push_WouldBlock)
            else (enqueue b q, Push_Accepted)
        | Overflow_DropNewest => (withMetrics countDropped q, Push_Dropped)
        | Overflow_Abort => (withMetrics countFailedPush (withState true true q), Push_Aborted)
        | Overflow_DropNonKeyFrame =>
            if negb (isKeyFrame b) then (withMetrics countDropped q, Push_Dropped)
            else
              let '(q, done) := dropOldestNonKeyFrame q in
              if negb done then (q, Push_WouldBlock) else (enqueue b q, Push_Accepted)
        | Overflow_BlockProducer => (withMetrics countFailedPush q, Push_WouldBlock)
        end
      else (enqueue b q, Push_Accepted)
  end.

(** [None] for the result [false]; a queued reference is never null
    ([Holds] below). *)
Definition tryPop (q : RingQueue) : RingQueue * MediaBufferRef :=
  if empty q then (withMetrics countFailedPop q, None)
  else
    let out := rq_ring q !!! rq_read q in
    let q := withRing (<[rq_read q := None]> (rq_ring q)) (next (rq_read q) q) (rq_write q) q in
    (updateSizeMetrics (withMetrics countPopped q), out).

Definition close (q : RingQueue) : RingQueue := withState true (rq_aborted q) q.
Definition abort (q : RingQueue) : RingQueue := withState true true q.
Definition clear (q : RingQueue) : RingQueue :=
  withMetrics (updateSize 0) (withRing ((fun _ => None) <$> rq_ring q) 0 0 q).

(** ** Blocking calls *)

Definition notFullReady (q : RingQueue) : bool := rq_closed q || rq_aborted q || negb (full q).
Definition notEmptyReady (q : RingQueue) : bool := rq_closed q || rq_aborted q || negb (empty q).

Import MediaBlockingQueue (Progress(..)).

Definition ringPushAborted : Result unit :=
  failure (internalError "MediaSpscRingQueue push failed: queue aborted").
Definition ringPushClosed : Result unit :=
  failure (cancelled "MediaSpscRingQueue push interrupted: queue closed").

(** One iteration of the loop of [push]; it ends waiting with the producer
    counted in [blockedProducers]. *)
Definition push (ref : MediaBufferRef) (q : RingQueue) : RingQueue * Progress (Result unit) :=
  match ref with
  | None => (q, Returned (failure (invalidArgument "MediaSpscRingQueue push failed: buffer is null")))
  | Some b =>
      let '(q, outcome) := pushOutcome (Some b) q in
      match outcome with
      | Push_Accepted | Push_Dropped => (q, Returned (Success tt))
      | Push_Aborted => (q, Returned ringPushAborted)
      | Push_Closed => (q, Returned ringPushClosed)
      | Push_WouldBlock =>
          if bool_decide (overflow q = Overflow_DropNonKeyFrame) && isKeyFrame b
          then (withMetrics (addBlockedProducers 1) (withMetrics countBlockedPush q), Waiting)
          else if bool_decide (overflow q <> Overflow_BlockProducer)
          then (q, Returned (failure (internalError
                  "MediaSpscRingQueue push failed: overflow policy could not accept buffer")))
          else (withMetrics (addBlockedProducers 1) (withMetrics countBlockedPush q), Waiting)
      end
  end.

Definition pushResume (b : MediaBuffer) (q : RingQueue) : RingQueue * Progress (Result unit) :=
  if negb (notFullReady q) then (q, Waiting)
  else push (Some b) (withMetrics (addBlockedProducers (-1)) q).

(** What the loop of [pop] does after [tryPop] has found the queue empty and
    released the mutex: other calls can come between the two. *)
Definition popTests (q : RingQueue) : RingQueue * Progress (Result MediaBufferRef) :=
  if rq_aborted q
  then (q, Returned (failure (internalError "MediaSpscRingQueue pop failed: queue aborted")))
  else if rq_closed q
  then (q, Returned (failure (cancelled
          "MediaSpscRingQueue pop interrupted: queue closed and empty")))
  else (withMetrics (addBlockedConsumers 1) q, Waiting).

(** One iteration of the loop of [pop] without a call in between. *)
Definition pop (q : RingQueue) : RingQueue * Progress (Result MediaBufferRef) :=
  let '(q, out) := tryPop q in
  match out with
  | Some b => (q, Returned (Success (Some b)))
  | None => popTests q
  end.

Definition popResume (q : RingQueue) : RingQueue * Progress (Result MediaBufferRef) :=
  if negb (notEmptyReady q) then (q, Waiting)
  else pop (withMetrics (addBlockedConsumers (-1)) q).

(** ** The abstract view *)

Definition limit (q : RingQueue) : option nat := Some (Z.to_nat (capacity (rq_policy q))).

(** The references between the read and the write position. *)
Definition window (q : RingQueue) : list MediaBufferRef :=
  (fun i => rq_ring q !!! slot (rq_read q) i (rq_capacity q)) <$> seq 0 (sizeLocked q).

Definition view (q : RingQueue) : Fifo :=
  mkFifo (catRefs (window q)) (rq_closed q) (rq_aborted q)
    (pushed (rq_metrics q)) (popped (rq_metrics q)) (dropped (rq_metrics q)).

(** The queued buffers are [l]. *)
Record Holds (q : RingQueue) (l : list MediaBuffer) : Prop := mkHolds {
  h_ring : ringHolds (rq_ring q) (rq_read q) (Some <$> l);
  h_capacity : rq_capacity q = length (rq_ring q);
  h_write : rq_write q = slot (rq_read q) (length l) (rq_capacity q);
  h_limit : rq_capacity q = S (Z.to_nat (capacity (rq_policy q)));
  h_room : (length l < rq_capacity q)%nat;
  h_positive : 0 < capacity (rq_policy q);
}.

Definition ok (q : RingQueue) : Prop := exists l, Holds q l.

Lemma RingHolds_read q l : Holds q l -> (rq_read q < rq_capacity q)%nat.
Proof. intros [(? & _) -> _ _ _ _]. done. Qed.

Lemma next_slot q i : next i q = slot i 1 (rq_capacity q).
Proof. done. Qed.

Lemma RingHolds_sizeLocked q l : Holds q l -> sizeLocked q = length l.
Proof.
  intros H. pose proof (RingHolds_read q l H) as Hr. destruct H as [_ _ Hw _ Hroom _].
  unfold sizeLocked. rewrite Hw. unfold slot. set (n := rq_capacity q) in *.
  destruct (decide (rq_read q + length l < n)%nat) as [Hlt | Hge].
  - rewrite Nat.mod_small by lia. destruct (Nat.leb_spec (rq_read q) (rq_read q + length l)); lia.
  - replace (rq_read q + length l)%nat with (rq_read q + length l - n + 1 * n)%nat by lia.
    rewrite Nat.Div0.mod_add, Nat.mod_small by lia.
    destruct (Nat.leb_spec (rq_read q) (rq_read q + length l - n)); lia.
Qed.

Lemma RingHolds_window q l : Holds q l -> window q = Some <$> l.
Proof.
  intros H. unfold window. rewrite (RingHolds_sizeLocked q l H). destruct H as [Hh Hc _ _ _ _].
  rewrite Hc. apply list_eq. intros i. rewrite list_lookup_fmap.
  destruct (decide (i < length l)%nat) as [Hi | Hi].
  - rewrite lookup_seq_lt by done. simpl.
    destruct (lookup_lt_is_Some_2 (Some <$> l) i ltac:(by rewrite length_fmap)) as [x Hx].
    rewrite Hx. f_equal. apply list_lookup_total_correct.
    rewrite (ring_lookup _ _ (Some <$> l)); [done | done | by rewrite length_fmap].
  - rewrite lookup_seq_ge, lookup_ge_None_2 by (rewrite ?length_fmap; lia). done.
Qed.

Lemma RingHolds_view q l :
  Holds q l -> view q = mkFifo l (rq_closed q) (rq_aborted q) (pushed (rq_metrics q))
                          (popped (rq_metrics q)) (dropped (rq_metrics q)).
Proof. intros H. unfold view. by rewrite (RingHolds_window q l H), catRefs_Some. Qed.

Lemma RingHolds_empty q l : Holds q l -> empty q = bool_decide (l = []).
Proof.
  intros H. pose proof (RingHolds_read q l H) as Hr. destruct H as [_ _ Hw _ Hroom _].
  unfold empty. rewrite Hw. destruct l as [| b l]; cbn [length].
  - rewrite slot_0, Nat.eqb_refl by done. done.
  - rewrite bool_decide_eq_false_2 by done. apply Nat.eqb_neq. intros E.
    rewrite <- (slot_0 (rq_read q) (rq_capacity q)) in E at 2 by done.
    apply slot_inj in E; [done | done | lia].
Qed.

Lemma RingHolds_full q l : Holds q l -> full q = fifoFull (limit q) (view q).
Proof.
  intros H. pose proof (RingHolds_read q l H) as Hr. rewrite (RingHolds_view q l H).
  destruct H as [_ _ Hw Hl Hroom _]. unfold full, fifoFull, limit. cbn [items].
  rewrite next_slot, Hw, slot_slot by lia.
  destruct (Nat.leb_spec (Z.to_nat (capacity (rq_policy q))) (length l)).
  - apply Nat.eqb_eq. replace (length l + 1)%nat with (rq_capacity q) by lia.
    unfold slot. replace (rq_read q + rq_capacity q)%nat with (rq_read q + 1 * rq_capacity q)%nat by lia.
    by rewrite Nat.Div0.mod_add, Nat.mod_small.
  - apply Nat.eqb_neq. intros E.
    rewrite <- (slot_0 (rq_read q) (rq_capacity q)) in E at 2 by done.
    apply slot_inj in E; lia.
Qed.

Lemma RingHolds_metrics q l f : Holds q l -> Holds (withMetrics f q) l.
Proof. by intros []. Qed.
Lemma RingHolds_state q l c a : Holds q l -> Holds (withState c a q) l.
Proof. by intros []. Qed.
Lemma RingHolds_updateSize q l : Holds q l -> Holds (updateSizeMetrics q) l.
Proof. apply RingHolds_metrics. Qed.

(** Giving up the first slot of the window. *)
Lemma RingHolds_advance q ring l0 l :
  ringHolds ring (rq_read q) (None :: (Some <$> l)) -> length ring = length (rq_ring q) ->
  Holds q l0 -> length l0 = S (length l) ->
  Holds (withRing ring (next (rq_read q) q) (rq_write q) q) l.
Proof.
  intros Hring Hlen H E. pose proof (RingHolds_read _ _ H) as Hr.
  destruct H as [_ Hc Hw Hl Hroom Hp]. constructor; simpl in *; try done; try lia.
  - apply ring_none_front in Hring. by rewrite Hlen, <- Hc in Hring.
  - rewrite Hw, next_slot, slot_slot, E by lia. done.
Qed.

Lemma RingHolds_takeFront q b l :
  Holds q (b :: l) ->
  rq_ring q !!! rq_read q = Some b /\
  Holds (withRing (<[rq_read q := None]> (rq_ring q)) (next (rq_read q) q) (rq_write q) q) l.
Proof.
  intros H. pose proof (h_ring _ _ H) as Hring. split.
  - apply list_lookup_total_correct. by eapply ring_head.
  - eapply RingHolds_advance; [| by rewrite length_insert | exact H | done].
    pose proof Hring as (? & _).
    apply (ring_update _ _ _ 0 None) in Hring; [| simpl; lia].
    by rewrite slot_0 in Hring by done.
Qed.

Lemma RingHolds_enqueue q l b :
  Holds q l -> full q = false -> Holds (enqueue b q) (l ++ [b]).
Proof.
  intros H Hf. pose proof (RingHolds_full q l H) as E. rewrite Hf, (RingHolds_view q l H) in E.
  symmetry in E. apply Nat.leb_gt in E. cbn [items] in E.
  apply RingHolds_updateSize, RingHolds_metrics. pose proof (RingHolds_read q l H) as Hr.
  destruct H as [Hring Hc Hw Hl Hroom Hp]. constructor; simpl; try done.
  - rewrite Hw, Hc. rewrite fmap_app. simpl.
    replace (length l) with (length (Some <$> l)) by apply length_fmap.
    apply ring_push; [done | rewrite length_fmap; lia].
  - by rewrite length_insert.
  - rewrite next_slot, Hw, slot_slot, length_app by lia. done.
  - rewrite length_app. simpl. lia.
Qed.

Lemma ringScan_spec q l fuel i :
  Holds q l -> (i <= length l)%nat -> (length l - i < fuel)%nat ->
  scanNonKey fuel (slot (rq_read q) i (rq_capacity q)) q =
  (fun j => slot (rq_read q) (i + j) (rq_capacity q)) <$> firstNonKey (drop i l).
Proof.
  intros H. pose proof (RingHolds_read q l H) as Hr. pose proof H as [Hring Hc Hw _ Hroom _].
  revert i. induction fuel as [| fuel IH]; intros i Hi Hfuel; [lia |]. cbn [scanNonKey].
  rewrite Hw. destruct (decide (i = length l)) as [-> | Hne].
  { by rewrite Nat.eqb_refl, drop_all. }
  rewrite (proj2 (Nat.eqb_neq _ _)) by (intros E; apply slot_inj in E; lia).
  destruct (lookup_lt_is_Some_2 l i ltac:(lia)) as [b Hb].
  assert (Hslot : rq_ring q !!! slot (rq_read q) i (rq_capacity q) = Some b).
  { apply list_lookup_total_correct. rewrite Hc, (ring_lookup _ _ (Some <$> l));
      [by rewrite list_lookup_fmap, Hb | done | rewrite length_fmap; lia]. }
  rewrite Hslot, (drop_S _ _ _ Hb). simpl. destruct (isKeyFrame b); simpl.
  - rewrite next_slot, slot_slot, Nat.add_1_r, IH by lia.
    destruct (firstNonKey (drop (S i) l)); simpl; [do 2 f_equal; lia | done].
  - f_equal. f_equal. lia.
Qed.

Lemma shiftUp_spec fuel i read ring cs :
  ringHolds ring read cs -> (i < length cs)%nat -> (i < fuel)%nat ->
  let ring' := shiftUp fuel (slot read i (length ring)) read (length ring) ring in
  length ring' = length ring /\
  exists x, ringHolds ring' read (x :: delete i cs).
Proof.
  revert i ring cs. induction fuel as [| fuel IH]; intros i ring cs Hr Hi Hf; [lia |].
  pose proof Hr as (Hread & Hlen & _). cbn [shiftUp]. destruct i as [| i].
  - rewrite slot_0, Nat.eqb_refl by done. split; [done |].
    destruct cs as [| x cs]; simpl in *; [lia |]. by exists x.
  - rewrite (proj2 (Nat.eqb_neq _ _)).
    2:{ intros E. rewrite <- (slot_0 read (length ring)) in E at 2 by done.
        apply slot_inj in E; lia. }
    rewrite slot_pred by lia.
    destruct (lookup_lt_is_Some_2 cs i ltac:(lia)) as [y Hy].
    pose proof (ring_move ring read cs (S i) i y Hr Hy Hi) as Hm.
    set (ring1 := moveSlot _ _ _) in *.
    assert (El : length ring = length ring1) by (unfold ring1; by rewrite length_moveSlot).
    rewrite El. destruct (IH i ring1 _ Hm) as [Hl' (x & Hx)];
      [rewrite !length_insert; lia | lia |].
    split; [congruence |]. exists x. by rewrite delete_move_up in Hx.
Qed.

Lemma dropOldestNonKey_spec q l :
  Holds q l ->
  match firstNonKey l with
  | Some i =>
      (dropOldestNonKeyFrame q).2 = true /\ Holds (dropOldestNonKeyFrame q).1 (delete i l) /\
      rq_policy (dropOldestNonKeyFrame q).1 = rq_policy q /\
      rq_closed (dropOldestNonKeyFrame q).1 = rq_closed q /\
      rq_aborted (dropOldestNonKeyFrame q).1 = rq_aborted q /\
      exists n m, rq_metrics (dropOldestNonKeyFrame q).1 =
        updateSize n (countDropped m) /\ m = rq_metrics q
  | None => dropOldestNonKeyFrame q = (q, false)
  end.
Proof.
  intros H. pose proof (RingHolds_read q l H) as Hr. unfold dropOldestNonKeyFrame.
  rewrite (RingHolds_empty q l H).
  destruct l as [| b l0] eqn:El; [done |]. rewrite bool_decide_eq_false_2 by done.
  rewrite <- El in *. clear b l0 El.
  pose proof (ringScan_spec q l (rq_capacity q) 0 H) as Hscan.
  rewrite slot_0 in Hscan by done. rewrite Hscan by (destruct H; lia).
  rewrite drop_0. destruct (firstNonKey l) as [i |] eqn:Ei; [| done]. simpl.
  assert (Hi : (i < length l)%nat).
  { apply firstNonKey_spec in Ei as [(b & Hb & _) _]. by apply lookup_lt_Some in Hb. }
  split_and!; try done; [| eauto].
  apply RingHolds_updateSize, RingHolds_metrics.
  destruct (shiftUp_spec (rq_capacity q) i (rq_read q) (rq_ring q) (Some <$> l)
              (h_ring _ _ H)) as [Hlen (x & Hx)];
    [by rewrite length_fmap | destruct H; lia |].
  rewrite <- (h_capacity _ _ H) in Hlen, Hx. set (ring := shiftUp _ _ _ _ _) in *.
  eapply (RingHolds_advance q _ l);
    [| by rewrite length_insert, <- (h_capacity _ _ H) | done |].
  - apply (ring_update _ _ _ 0 None) in Hx; [| simpl; lia].
    rewrite slot_0 in Hx by (rewrite Hlen; done). cbn [insert list_insert] in Hx.
    by rewrite MediaBlockingQueue.fmap_delete_Some.
  - rewrite length_delete by (by apply lookup_lt_is_Some_2). lia.
Qed.

Lemma ringFull_nonempty q l : Holds q l -> full q = true -> l <> [].
Proof.
  intros H Ef ->. rewrite (RingHolds_full q [] H), (RingHolds_view q [] H) in Ef.
  apply Nat.leb_le in Ef. pose proof (h_positive _ _ H). simpl in Ef. lia.
Qed.

(** A shorter queue has room. *)
Lemma shorter_room q q' l l' :
  Holds q l -> Holds q' l' -> rq_policy q' = rq_policy q -> (length l' < length l)%nat ->
  full q' = false.
Proof.
  intros H H' Ep Hlt. rewrite (RingHolds_full q' l' H'), (RingHolds_view q' l' H').
  unfold limit. rewrite Ep. apply Nat.leb_gt. cbn [items].
  pose proof (h_room _ _ H). pose proof (h_limit _ _ H). lia.
Qed.

Lemma ringPush_refines ref q l :
  Holds q l ->
  let '(q', out) := pushOutcome ref q in
  ok q' /\ (view q', out) = fifoPush (overflow q) (limit q) ref (view q) /\
  rq_policy q' = rq_policy q.
Proof.
  intros H. unfold pushOutcome, fifoPush. pose proof (RingHolds_full q l H) as Hfull.
  assert (Hok : ok q) by (by exists l).
  assert (Hm : forall f, ok (withMetrics f q)) by (intros; exists l; by apply RingHolds_metrics).
  assert (Hmv : forall f, view (withMetrics f q) = mkFifo l (rq_closed q) (rq_aborted q)
     (pushed (f (rq_metrics q))) (popped (f (rq_metrics q))) (dropped (f (rq_metrics q)))).
  { intros f. exact (RingHolds_view _ l (RingHolds_metrics q l f H)). }
  pose proof (RingHolds_view q l H) as Hv.
  destruct ref as [b |]; [| rewrite Hmv, Hv; done]. rewrite <- Hfull, Hv. clear Hfull.
  change (fifoAborted _) with (rq_aborted q). change (fifoClosed _) with (rq_closed q).
  destruct (rq_aborted q) eqn:Ea; [by rewrite Hmv |].
  destruct (rq_closed q) eqn:Ec; [by rewrite Hmv |].
  destruct (full q) eqn:Ef; cbn [negb].
  2:{ pose proof (RingHolds_enqueue q l b H Ef) as He. split; [by eexists |].
      rewrite (RingHolds_view _ _ He). simpl. by rewrite Ea, Ec. }
  destruct (overflow q).
  - by rewrite Hmv.
  - by rewrite Hmv.
  - pose proof (ringFull_nonempty q l H Ef) as Hne. destruct l as [| x l]; [done |].
    unfold dropOldest. rewrite (RingHolds_empty q _ H), bool_decide_eq_false_2 by done. cbn [negb].
    destruct (RingHolds_takeFront q x l H) as [_ Ht].
    eapply (RingHolds_metrics _ _ countDropped), RingHolds_updateSize in Ht.
    assert (Hr : full (updateSizeMetrics (withMetrics countDropped
      (withRing (<[rq_read q := None]> (rq_ring q)) (next (rq_read q) q) (rq_write q) q))) = false)
      by (eapply (shorter_room q _ _ _ H Ht); [done | simpl; lia]).
    pose proof (RingHolds_enqueue _ _ b Ht Hr) as He. split; [by eexists |].
    rewrite (RingHolds_view _ _ He). simpl. by rewrite Ea, Ec.
  - destruct (isKeyFrame b); cbn [negb]; [| by rewrite Hmv].
    pose proof (dropOldestNonKey_spec q l H) as He. cbn [items].
    destruct (firstNonKey l) as [i |] eqn:Ei; [| rewrite He; cbn [negb]; by rewrite Hv].
    destruct (dropOldestNonKeyFrame q) as [q1 done1]. simpl in He.
    destruct He as (-> & Hd & Hp & Hc1 & Ha1 & n & m & Em & ->). cbn [negb].
    assert (Hlen : (length (delete i l) < length l)%nat).
    { apply firstNonKey_spec in Ei as [(y & Hy & _) _].
      rewrite length_delete by eauto. apply lookup_lt_Some in Hy. lia. }
    pose proof (shorter_room q q1 l _ H Hd Hp Hlen) as Hr.
    pose proof (RingHolds_enqueue _ _ b Hd Hr) as Hq. split; [by eexists |].
    rewrite (RingHolds_view _ _ Hq). simpl. rewrite Em, Hc1, Ha1, Ea, Ec. done.
  - split; [exists l; by apply RingHolds_metrics, RingHolds_state |].
    by rewrite (RingHolds_view _ l (RingHolds_metrics _ l _ (RingHolds_state q l true true H))).
Qed.

Lemma ringTryPop_refines q l :
  Holds q l ->
  let '(q', out) := tryPop q in
  ok q' /\ (view q', out) = fifoTryPop (view q) /\ rq_policy q' = rq_policy q.
Proof.
  intros H. unfold tryPop. rewrite (RingHolds_empty q l H), (RingHolds_view q l H).
  destruct l as [| b l].
  - rewrite bool_decide_eq_true_2 by done.
    pose proof (RingHolds_metrics q [] countFailedPop H) as H'. split; [by eexists |].
    by rewrite (RingHolds_view _ _ H').
  - rewrite bool_decide_eq_false_2 by done. destruct (RingHolds_takeFront q b l H) as [-> Ht].
    eapply (RingHolds_metrics _ _ countPopped), RingHolds_updateSize in Ht.
    split; [by eexists |]. by rewrite (RingHolds_view _ _ Ht).
Qed.

Lemma list_fmap_alt_const {A B} (l : list A) (b : B) : (fun _ => b) <$> l = replicate (length l) b.
Proof. induction l as [| a l IH]; [done |]. rewrite fmap_cons. simpl. by rewrite IH. Qed.

Lemma ringClear_Holds q l : Holds q l -> Holds (clear q) [].
Proof.
  intros H. pose proof (RingHolds_read q l H) as Hr. destruct H as [Hring Hc Hw Hl Hroom Hp].
  apply RingHolds_metrics. constructor; simpl; try done; try lia.
  - rewrite (list_fmap_alt_const (rq_ring q)). apply ring_fresh. lia.
  - by rewrite length_fmap.
  - by rewrite slot_0 by lia.
Qed.

(** ** The instance *)

#[global] Instance ringMediaQueue : MediaQueue RingQueue := {
  queueOverflow := overflow;
  queueLimit := limit;
  queuePushOutcome := pushOutcome;
  queueTryPop := tryPop;
  queueClose := close;
  queueAbort := abort;
  queueClear := clear;
  queueSize := sizeLocked;
  queueClosed := rq_closed;
  queueAborted := rq_aborted;
  queueMetrics := rq_metrics;
  queueView := view;
  queueOk := ok;
}.

Lemma ringSame_policy q q' :
  rq_policy q' = rq_policy q -> overflow q' = overflow q /\ limit q' = limit q.
Proof. intros E. unfold overflow, limit. by rewrite E. Qed.

#[global] Instance ringMediaQueueLaws : MediaQueueLaws RingQueue.
Proof.
  constructor; unfold queueOk, queueView, queueOverflow, queueLimit, queuePushOutcome, queueTryPop,
    queueClose, queueAbort, queueClear, queueSize, ringMediaQueue.
  - intros ref q [l H]. pose proof (ringPush_refines ref q l H) as Hp.
    destruct (pushOutcome ref q). destruct Hp as (? & ? & ?). eauto using ringSame_policy.
  - intros q [l H]. pose proof (ringTryPop_refines q l H) as Hp.
    destruct (tryPop q). destruct Hp as (? & ? & ?). eauto using ringSame_policy.
  - intros q [l H]. pose proof (RingHolds_state q l true (rq_aborted q) H) as H'.
    split; [by exists l |]. unfold close. by rewrite (RingHolds_view _ _ H'), (RingHolds_view _ _ H).
  - intros q [l H]. pose proof (RingHolds_state q l true true H) as H'.
    split; [by exists l |]. unfold abort. by rewrite (RingHolds_view _ _ H'), (RingHolds_view _ _ H).
  - intros q [l H]. pose proof (ringClear_Holds q l H) as H'.
    split; [by eexists |]. by rewrite (RingHolds_view _ _ H'), (RingHolds_view _ _ H).
  - intros q [l H]. by rewrite (RingHolds_view _ _ H), (RingHolds_sizeLocked q l H).
  - intros q n [l H] [= <-]. rewrite (RingHolds_view _ _ H). cbn [items].
    destruct H as [_ _ _ Hl Hroom Hp]. lia.
Qed.

(** A new ring; a capacity of 2^64 - 1 would wrap to a ring without slots. *)
Lemma ringCreate_ok policy :
  0 <= capacity policy < 2 ^ 64 - 1 -> ok (create policy) /\ view (create policy) = emptyFifo.
Proof.
  intros Hc. assert (Hcap : 0 < capacity (effectivePolicy policy) < 2 ^ 64 - 1).
  { simpl. destruct (Z.eqb_spec (capacity policy) 0); lia. }
  assert (H : Holds (create policy) []).
  { unfold create, u64. rewrite Z.mod_small by lia.
    revert Hcap. generalize (effectivePolicy policy). intros p Hcap.
    constructor; cbn [rq_ring rq_read rq_write rq_capacity rq_policy length];
      rewrite ?length_replicate; try lia.
    - apply ring_fresh. lia.
    - by rewrite slot_0 by lia. }
  split; [by eexists |]. by rewrite (RingHolds_view _ _ H).
Qed.

(** ** Properties *)

(** A producer blocked on the ring queue is released by closing or
    aborting under every overflow policy: the next iteration of its loop
    returns the error, because [pushOutcome] checks the flags first. *)
Theorem ring_close_unblocks b q :
  rq_closed q = true \/ rq_aborted q = true ->
  (pushResume b q).2 = Returned (if rq_aborted q then ringPushAborted else ringPushClosed).
Proof.
  intros Hst. unfold pushResume, notFullReady.
  assert (Hready : rq_closed q || rq_aborted q = true).
  { destruct Hst as [-> | ->]; [done | apply orb_true_r]. }
  rewrite Hready. cbn [orb negb]. unfold push, pushOutcome.
  cbn [rq_aborted rq_closed withMetrics].
  destruct (rq_aborted q); [done |]. destruct (rq_closed q); [done |]. by destruct Hst.
Qed.

Definition demoRing (ov : MediaQueueOverflowPolicy) (cap : Z) : RingQueue :=
  create (MediaBlockingQueue.demoQueuePolicy ov cap).

Lemma ring_close_unblocks_witness :
  let key := demoBuffer 1 true in
  let q := (pushOutcome (Some key) (demoRing Overflow_DropNonKeyFrame 1)).1 in
  (push (Some key) q).2 = Waiting /\
  (pushResume key (close (push (Some key) q).1)).2 = Returned ringPushClosed.
Proof.
  intros key q. split; [reflexivity |].
  apply (ring_close_unblocks key (close (push (Some key) q).1)). left. reflexivity.
Defined.

(** After an abort the ring queue still hands out what is queued before it
    reports the error: [pop] fails only on an empty queue. *)
Theorem ring_pop_drains_after_abort q l :
  Holds q l -> rq_aborted q = true ->
  match l with
  | [] => exists e, (pop q).2 = Returned (Failure e)
  | b :: rest => (pop q).2 = Returned (Success (Some b)) /\ Holds (pop q).1 rest
  end.
Proof.
  intros H Ea. unfold pop, popTests, tryPop. rewrite (RingHolds_empty q l H). destruct l as [| b rest].
  - rewrite bool_decide_eq_true_2 by done. cbn [rq_aborted withMetrics]. rewrite Ea. by eexists.
  - rewrite bool_decide_eq_false_2 by done. destruct (RingHolds_takeFront q b rest H) as [-> Ht].
    split; [done |]. by apply RingHolds_updateSize, RingHolds_metrics.
Qed.

Lemma ring_pop_drains_after_abort_witness :
  let b := demoBuffer 1 true in
  (pop (abort (pushOutcome (Some b) (demoRing Overflow_BlockProducer 1)).1)).2 =
  Returned (Success (Some b)).
Proof.
  intros b.
  refine (proj1 (ring_pop_drains_after_abort
    (abort (pushOutcome (Some b) (demoRing Overflow_BlockProducer 1)).1) [b] _ _));
    [| reflexivity].
  constructor; try reflexivity; try (vm_compute; lia).
  split; [vm_compute; lia |]. split; [vm_compute; lia | reflexivity].
Defined.

(** A buffer pushed between [tryPop] and the tests is reported as absent when
    the queue is closed in between as well: [pop] answers "closed and empty"
    with the buffer still queued. *)
Example pop_misses_last_buffer :
  let b := demoBuffer 1 true in
  let q := demoRing Overflow_BlockProducer 1 in
  let q' := close (pushOutcome (Some b) (tryPop q).1).1 in
  (tryPop q).2 = None /\
  (popTests q').2 = Returned (failure (cancelled
    "MediaSpscRingQueue pop interrupted: queue closed and empty")) /\
  (tryPop q').2 = Some b.
Proof. vm_compute. repeat split; reflexivity. Qed.

End MediaSpscRingQueue.
