(* ===== verification/QueueClients.v ===== *)
(** * Queues behind the interface

    Models [runtime/queue/MediaQueueFactory.cpp], [MediaSpscQueue.{h,cpp}],
    [MediaQueueRegistry.{h,cpp}] and [MediaQueueInspector.{h,cpp}]: the queue a
    policy selects, and the registry of queues by edge.  The properties are
    what any client may rely on, proved from the laws of the class
    [MediaQueue] alone and then available for every queue of the factory. *)

From stdpp Require Import gmap.
From S2P Require Import Prelude MediaResult Model Queue QueueStorage BlockingQueue SpscRingQueue.
Import MediaBufferModel.

Local Open Scope Z_scope.
Local Open Scope result_scope.

Module MediaQueues.

(** [std::unique_ptr<MediaQueue>]: one of the two implementations. *)
Inductive AnyQueue :=
  | BlockingImpl (q : MediaBlockingQueue.BlockingQueue)
  | RingImpl (q : MediaSpscRingQueue.RingQueue).

(** [MediaSpscQueue] sets the mode and wraps a ring queue; every method
    forwards. *)
Definition spscQueueCreate (p : MediaQueuePolicy) : MediaSpscRingQueue.RingQueue :=
  MediaSpscRingQueue.create
    (mkQueuePolicy
       (match queueMode p with
        | QueueMode_Unknown | QueueMode_Blocking => QueueMode_SpscRing
        | m => m
        end)
       (overflowPolicy p) (orderingPolicy p) (storageMode p) (capacity p) (reserveCapacity p)
       (queueDropPolicy p) (queueBackpressurePolicy p) (bounded p) (preserveOrdering p)
       (allowFlushControlBypass p) (collectMetrics p)).

(** [MediaQueueFactory::create]; a failure is the exception of the blocking
    queue's constructor. *)
Definition factoryCreate (memory : nat -> bool) (policy : MediaQueuePolicy) : Result AnyQueue :=
  match queueMode policy with
  | QueueMode_SpscRing => Success (RingImpl (MediaSpscRingQueue.create policy))
  | _ => let* q := MediaBlockingQueue.create memory policy in Success (BlockingImpl q)
  end.

(** Dynamic dispatch. *)
#[export] Instance anyMediaQueue : MediaQueue AnyQueue := {
  queueOverflow q := match q with BlockingImpl q => queueOverflow q | RingImpl q => queueOverflow q end;
  queueLimit q := match q with BlockingImpl q => queueLimit q | RingImpl q => queueLimit q end;
  queuePushOutcome ref q :=
    match q with
    | BlockingImpl q => let '(q, out) := queuePushOutcome ref q in (BlockingImpl q, out)
    | RingImpl q => let '(q, out) := queuePushOutcome ref q in (RingImpl q, out)
    end;
  queueTryPop q :=
    match q with
    | BlockingImpl q => let '(q, out) := queueTryPop q in (BlockingImpl q, out)
    | RingImpl q => let '(q, out) := queueTryPop q in (RingImpl q, out)
    end;
  queueClose q := match q with BlockingImpl q => BlockingImpl (queueClose q) | RingImpl q => RingImpl (queueClose q) end;
  queueAbort q := match q with BlockingImpl q => BlockingImpl (queueAbort q) | RingImpl q => RingImpl (queueAbort q) end;
  queueClear q := match q with BlockingImpl q => BlockingImpl (queueClear q) | RingImpl q => RingImpl (queueClear q) end;
  queueSize q := match q with BlockingImpl q => queueSize q | RingImpl q => queueSize q end;
  queueClosed q := match q with BlockingImpl q => queueClosed q | RingImpl q => queueClosed q end;
  queueAborted q := match q with BlockingImpl q => queueAborted q | RingImpl q => queueAborted q end;
  queueMetrics q := match q with BlockingImpl q => queueMetrics q | RingImpl q => queueMetrics q end;
  queueView q := match q with BlockingImpl q => queueView q | RingImpl q => queueView q end;
  queueOk q := match q with BlockingImpl q => queueOk q | RingImpl q => queueOk q end;
}.

#[export] Instance anyMediaQueueLaws : MediaQueueLaws AnyQueue.
Proof.
  constructor.
  - intros ref [q | q] Hq; pose proof (push_refines ref q Hq) as Hp;
      unfold queuePushOutcome at 1, anyMediaQueue at 1;
      destruct (queuePushOutcome ref q); exact Hp.
  - intros [q | q] Hq; pose proof (tryPop_refines q Hq) as Hp;
      unfold queueTryPop at 1, anyMediaQueue at 1;
      destruct (queueTryPop q); exact Hp.
  - intros [q | q] Hq; exact (close_refines q Hq).
  - intros [q | q] Hq; exact (abort_refines q Hq).
  - intros [q | q] Hq; exact (clear_refines q Hq).
  - intros [q | q] Hq; exact (size_refines q Hq).
  - intros [q | q] n Hq Hn; exact (bound_refines q n Hq Hn).
Qed.

(** ** Registry and inspector *)

Abbreviation Registry := (gmap Z AnyQueue).

(** [queue] is a [unique_ptr]; [None] is null. *)
Definition registerQueue (edge : Z) (queue : option AnyQueue) (r : Registry) :
    Registry * Result unit :=
  if negb (idValid edge)
  then (r, failure (invalidArgument "MediaQueueRegistry registerQueue failed: edge id is invalid"))
  else match queue with
       | None => (r, failure (invalidArgument "MediaQueueRegistry registerQueue failed: queue is null"))
       | Some q => (<[edge := q]> r, Success tt)
       end.
Definition registryFind (edge : Z) (r : Registry) : option AnyQueue := r !! edge.
Definition registryRemove (edge : Z) (r : Registry) : Registry * bool :=
  (delete edge r, bool_decide (is_Some (r !! edge))).
Definition registryClear (r : Registry) : Registry := ∅.

Record MediaQueueSnapshot := mkSnapshot {
  snapMetrics : MediaQueueMetrics;
  snapSize : nat;
  snapCapacity : Z;
  snapClosed : bool;
  snapAborted : bool;
  saturated : bool;
  healthy : bool;
}.

Definition policyCapacity (q : AnyQueue) : Z :=
  match q with
  | BlockingImpl q => capacity (MediaBlockingQueue.bq_policy q)
  | RingImpl q => capacity (MediaSpscRingQueue.rq_policy q)
  end.

(** [MediaQueueInspector::inspect], without the summary text. *)
Definition inspect (q : AnyQueue) : MediaQueueSnapshot :=
  let full := (0 <? policyCapacity q) && (policyCapacity q <=? Z.of_nat (queueSize q)) in
  mkSnapshot (queueMetrics q) (queueSize q) (policyCapacity q) (queueClosed q) (queueAborted q)
    full (negb (queueAborted q) && negb full).

(** ** Lemmas *)

Lemma factory_ok memory policy q :
  0 <= capacity policy < 2 ^ 64 - 1 -> factoryCreate memory policy = Success q ->
  queueOk q /\ queueView q = emptyFifo /\ queueOverflow q = overflowPolicy policy.
Proof.
  intros Hc. unfold factoryCreate.
  assert (Hb : (let* q := MediaBlockingQueue.create memory policy in Success (BlockingImpl q)) = Success q ->
    queueOk q /\ queueView q = emptyFifo /\ queueOverflow q = overflowPolicy policy).
  { destruct (MediaBlockingQueue.create memory policy) as [bq |] eqn:E; simpl;
      [| unfold failure; by case_match].
    intros [= <-]. destruct (MediaBlockingQueue.create_ok _ _ _ (proj1 Hc) E) as [? ?].
    split_and!; try done. unfold MediaBlockingQueue.create in E.
    destruct (MediaBlockingQueueStorage.create policy _); simpl in E; [by simplify_eq |].
    unfold failure in E. by case_match. }
  destruct (queueMode policy); try exact Hb.
  intros [= <-]. destruct (MediaSpscRingQueue.ringCreate_ok policy Hc) as [? ?]. done.
Qed.

(** ** Properties *)

(** C31: Every queue the factory creates answers every sequence of non-blocking
    calls exactly as the bounded FIFO does, with the same outcomes, the same
    contents and the same counters, and reports its size truthfully. *)
Theorem queue_run_refines_fifo memory policy q ops :
  0 <= capacity policy < 2 ^ 64 - 1 -> factoryCreate memory policy = Success q ->
  let '(q', rs) := runQueue ops q in
  (queueView q', rs) = runFifo (overflowPolicy policy) (queueLimit q) ops emptyFifo /\
  queueSize q' = length (items (queueView q')).
Proof.
  intros Hc Hq. destruct (factory_ok memory policy q Hc Hq) as (Hok & Hv & Ho).
  pose proof (runQueue_refines ops q Hok) as Hr. destruct (runQueue ops q) as [q' rs].
  destruct Hr as (Hok' & E & _). rewrite Hv, Ho in E. split; [done | by apply size_refines].
Qed.

(** In every run of a factory queue, what was delivered followed by what is
    queued is a subsequence, in order, of what was accepted; under a policy
    without eviction and without [clear] it is all of it.  The queue stays
    within its limit and counts accepted and delivered buffers modulo 2^64. *)
Theorem queue_order memory policy q ops :
  0 <= capacity policy < 2 ^ 64 - 1 -> factoryCreate memory policy = Success q ->
  let '(q', rs) := runQueue ops q in
  delivered rs ++ items (queueView q') `sublist_of` accepted ops rs /\
  (evicts (overflowPolicy policy) = false -> Forall (fun op => isClear op = false) ops ->
   delivered rs ++ items (queueView q') = accepted ops rs) /\
  (forall n, queueLimit q = Some n -> (queueSize q' <= n)%nat) /\
  u64 (fifoPushed (queueView q')) = u64 (Z.of_nat (length (accepted ops rs))) /\
  u64 (fifoPopped (queueView q')) = u64 (Z.of_nat (length (delivered rs))).
Proof.
  intros Hc Hq. destruct (factory_ok memory policy q Hc Hq) as (Hok & Hv & Ho).
  pose proof (runQueue_refines ops q Hok) as Hr. destruct (runQueue ops q) as [q' rs].
  destruct Hr as (Hok' & E & Eo & El). rewrite Hv, Ho in E.
  pose proof (runFifo_order (overflowPolicy policy) (queueLimit q) ops emptyFifo) as H1.
  pose proof (runFifo_lossless (overflowPolicy policy) (queueLimit q) ops emptyFifo) as H2.
  pose proof (runFifo_counts (overflowPolicy policy) (queueLimit q) ops emptyFifo) as H3.
  rewrite <- E in H1, H2, H3. simpl in H1, H2, H3. destruct H3 as [H3 H4].
  split_and!; try done.
  intros n Hn. rewrite <- El in Hn. rewrite size_refines by done.
  by apply (bound_refines q' n).
Qed.

(** The two implementations are interchangeable for non-blocking clients: a
    ring queue and a bounded blocking queue with the same overflow policy and
    capacity give the same results on every sequence of calls. *)
Theorem queues_agree memory p1 p2 q1 q2 ops :
  0 < capacity p1 < 2 ^ 64 - 1 -> capacity p2 = capacity p1 ->
  overflowPolicy p2 = overflowPolicy p1 -> bounded p2 = true ->
  queueMode p1 = QueueMode_SpscRing -> queueMode p2 <> QueueMode_SpscRing ->
  factoryCreate memory p1 = Success q1 -> factoryCreate memory p2 = Success q2 ->
  (runQueue ops q1).2 = (runQueue ops q2).2.
Proof.
  intros Hc Ec Eo Eb Em1 Em2 H1 H2.
  assert (El : queueLimit q1 = queueLimit q2).
  { unfold factoryCreate in H1, H2. rewrite Em1 in H1. injection H1 as <-.
    assert (H2' : (let* q := MediaBlockingQueue.create memory p2 in Success (BlockingImpl q)) =
                  Success q2) by (by destruct (queueMode p2)).
    apply bindResult_success in H2' as (bq & Hbq & [= <-]).
    apply bindResult_success in Hbq as (s & _ & [= <-]).
    cbn. unfold MediaSpscRingQueue.limit, MediaBlockingQueue.limit. simpl.
    unfold isBoundedQueue. rewrite Eb, Ec. destruct (Z.eqb_spec (capacity p1) 0); [lia |].
    destruct (Z.ltb_spec 0 (capacity p1)); [done | lia]. }
  destruct (factory_ok memory p1 q1 ltac:(lia) H1) as (Hok1 & Hv1 & Ho1).
  destruct (factory_ok memory p2 q2 ltac:(lia) H2) as (Hok2 & Hv2 & Ho2).
  pose proof (runQueue_refines ops q1 Hok1) as Hr1. destruct (runQueue ops q1) as [q1' rs1].
  pose proof (runQueue_refines ops q2 Hok2) as Hr2. destruct (runQueue ops q2) as [q2' rs2].
  destruct Hr1 as (_ & E1 & _). destruct Hr2 as (_ & E2 & _).
  rewrite Hv1, Ho1 in E1. rewrite Hv2, Ho2, Eo, <- El, <- E1 in E2. simpl. congruence.
Qed.

Definition demoRingPolicy (ov : MediaQueueOverflowPolicy) (cap : Z) : MediaQueuePolicy :=
  mkQueuePolicy QueueMode_SpscRing ov Ordering_Fifo Storage_Unknown cap 0
    defaultDropPolicy defaultBackpressurePolicy true true true true.

Definition demoCalls : list QueueOp :=
  [Op_push (Some (demoBuffer 1 false)); Op_push (Some (demoBuffer 2 true));
   Op_push (Some (demoBuffer 3 true)); Op_tryPop; Op_tryPop; Op_close;
   Op_push (Some (demoBuffer 4 true)); Op_tryPop].

Lemma queue_run_refines_fifo_witness :
  exists q, factoryCreate (fun _ => true) (demoRingPolicy Overflow_DropNonKeyFrame 2) = Success q /\
    (runQueue demoCalls q).2 =
    (runFifo Overflow_DropNonKeyFrame (Some 2%nat) demoCalls emptyFifo).2.
Proof.
  eexists. split; [reflexivity |].
  pose proof (queue_run_refines_fifo (fun _ => true) (demoRingPolicy Overflow_DropNonKeyFrame 2) _
    demoCalls ltac:(simpl; lia) eq_refl) as H.
  destruct (runQueue demoCalls _) as [q' rs]. destruct H as [H _].
  change (Some 2%nat) with (queueLimit (RingImpl (MediaSpscRingQueue.create
    (demoRingPolicy Overflow_DropNonKeyFrame 2)))). exact (f_equal snd H).
Defined.

Lemma queue_order_witness :
  exists q q' rs,
    factoryCreate (fun _ => true) (demoRingPolicy Overflow_DropNonKeyFrame 2) = Success q /\
    runQueue demoCalls q = (q', rs) /\
    delivered rs ++ items (queueView q') `sublist_of` accepted demoCalls rs.
Proof.
  pose proof (queue_order (fun _ => true) (demoRingPolicy Overflow_DropNonKeyFrame 2)
    (RingImpl (MediaSpscRingQueue.create (demoRingPolicy Overflow_DropNonKeyFrame 2)))
    demoCalls ltac:(simpl; lia) eq_refl) as H.
  destruct (runQueue demoCalls _) as [q' rs] eqn:E. destruct H as [H _].
  exists (RingImpl (MediaSpscRingQueue.create (demoRingPolicy Overflow_DropNonKeyFrame 2))), q', rs.
  split; [reflexivity |]. split; [exact E | exact H].
Defined.

Lemma queues_agree_witness :
  exists q1 q2,
    factoryCreate (fun _ => true) (demoRingPolicy Overflow_DropOldest 2) = Success q1 /\
    factoryCreate (fun _ => true) (MediaBlockingQueue.demoQueuePolicy Overflow_DropOldest 2) = Success q2 /\
    (runQueue demoCalls q1).2 = (runQueue demoCalls q2).2.
Proof.
  do 2 eexists. split; [reflexivity |]. split; [reflexivity |].
  eapply (queues_agree (fun _ => true) (demoRingPolicy Overflow_DropOldest 2)
    (MediaBlockingQueue.demoQueuePolicy Overflow_DropOldest 2));
    [simpl; lia | reflexivity | reflexivity | reflexivity | reflexivity | discriminate
    | reflexivity | reflexivity].
Defined.

End MediaQueues.
