(* ===== verification/TsCrc.v ===== *)
(** * CRC-32 of MPEG-TS sections

    Models [protocol/mpegts/MediaTsCrc32.cpp] and the append of
    [MediaTsPsiSerializer.cpp].  Bytes are [Z] values below 256, the register a
    32-bit [Z].  The properties are what the receiver relies on: the CRC over a
    section that ends in its own CRC is zero, and a change of one byte always
    changes the CRC. *)

From S2P Require Import Prelude.

Local Open Scope Z_scope.

Module MediaTsCrc32.

Definition polynomial : Z := 0x04C11DB7.

(** One iteration of the bit loop. *)
Definition crcBit (crc : Z) : Z :=
  if negb (Z.land crc 0x80000000 =? 0)
  then Z.lxor (u32 (Z.shiftl crc 1)) polynomial
  else u32 (Z.shiftl crc 1).

Definition crcByte (crc byte : Z) : Z :=
  Nat.iter 8 crcBit (Z.lxor crc (Z.shiftl byte 24)).

Definition compute (bytes : list Z) : Z := foldl crcByte 0xFFFFFFFF bytes.

(** The four bytes [appendCrc] appends. *)
Definition crcBytes (crc : Z) : list Z :=
  [u8 (Z.shiftr crc 24); u8 (Z.shiftr crc 16); u8 (Z.shiftr crc 8); u8 crc].

Definition appendCrc (section : list Z) : list Z := section ++ crcBytes (compute section).

(** ** Lemmas *)

Definition isByte (b : Z) : Prop := is_u 8 b.

Lemma crcBit_top crc :
  is_u 32 crc -> negb (Z.land crc 0x80000000 =? 0) = (2 ^ 31 <=? crc).
Proof.
  intros Hc. change 0x80000000 with (Z.shiftl 1 31).
  assert (Hb : Z.land crc (Z.shiftl 1 31) = if Z.testbit crc 31 then 2 ^ 31 else 0).
  { apply Z.bits_inj'. intros i Hi. rewrite Z.land_spec.
    destruct (decide (i = 31)) as [-> | Hne].
    - change (Z.testbit (Z.shiftl 1 31) 31) with true. rewrite andb_true_r.
      by destruct (Z.testbit crc 31).
    - rewrite (Z.shiftl_mul_pow2 1 31), Z.mul_1_l, Z.pow2_bits_false, andb_false_r by lia.
      destruct (Z.testbit crc 31); [| by rewrite Z.testbit_0_l].
      by rewrite Z.pow2_bits_false. }
  rewrite Hb, Z.testbit_eqb by lia.
  destruct (Z.leb_spec (2 ^ 31) crc) as [Hle | Hlt].
  - replace (crc / 2 ^ 31) with 1 by divmod. done.
  - rewrite (Z.div_small crc (2 ^ 31)) by (unfold is_u in Hc; lia). done.
Qed.

Lemma lxor_u32 a b : is_u 32 a -> is_u 32 b -> is_u 32 (Z.lxor a b).
Proof.
  unfold is_u. intros Ha Hb. split; [apply Z.lxor_nonneg; lia |].
  destruct (decide (Z.lxor a b = 0)) as [-> |]; [lia |].
  assert (0 <= Z.lxor a b) by (apply Z.lxor_nonneg; lia).
  apply Z.log2_lt_pow2; [lia |].
  pose proof (Z.log2_lxor a b ltac:(lia) ltac:(lia)).
  assert (forall x, 0 <= x < 2 ^ 32 -> Z.log2 x < 32) as Hlog.
  { intros x Hx. destruct (decide (x = 0)) as [-> |]; [done |]. apply Z.log2_lt_pow2; lia. }
  pose proof (Hlog a Ha). pose proof (Hlog b Hb). lia.
Qed.

Lemma u32_range z : is_u 32 (u32 z).
Proof. unfold is_u, u32. apply Z.mod_pos_bound. lia. Qed.

Lemma polynomial_range : is_u 32 polynomial.
Proof. unfold is_u, polynomial. lia. Qed.

Lemma crcBit_range crc : is_u 32 (crcBit crc).
Proof.
  unfold crcBit. destruct (negb _); [| apply u32_range].
  apply lxor_u32; [apply u32_range | apply polynomial_range].
Qed.

Lemma crcByte_range crc byte : is_u 32 (crcByte crc byte).
Proof. apply crcBit_range. Qed.

Lemma compute_range bytes : is_u 32 (compute bytes).
Proof.
  destruct bytes as [| b l _] using rev_ind; [unfold is_u, compute; simpl; lia |].
  unfold compute. rewrite foldl_snoc. apply crcByte_range.
Qed.

(** *** The register is cleared by its own bytes *)

Lemma crcBit_low crc : is_u 31 crc -> crcBit crc = 2 * crc.
Proof.
  intros Hc. unfold crcBit. rewrite crcBit_top by (unfold is_u in *; lia).
  destruct (Z.leb_spec (2 ^ 31) crc); [unfold is_u in *; lia |].
  rewrite shiftl_mul by lia. unfold u32, is_u in *. rewrite Z.mod_small by lia. lia.
Qed.

Lemma crcBit_shift n crc :
  is_u (32 - Z.of_nat n) crc -> (n <= 32)%nat -> Nat.iter n crcBit crc = 2 ^ Z.of_nat n * crc.
Proof.
  intros Hc Hn. unfold is_u in Hc.
  assert (H : forall k, (k <= n)%nat -> Nat.iter k crcBit crc = 2 ^ Z.of_nat k * crc).
  { induction k as [| k IH]; intros Hk; [simpl; lia |].
    rewrite Nat.iter_succ, IH by lia.
    rewrite crcBit_low.
    - rewrite Nat2Z.inj_succ, Z.pow_succ_r by lia. lia.
    - unfold is_u. split; [apply Z.mul_nonneg_nonneg; [apply Z.pow_nonneg; lia | lia] |].
      apply Z.lt_le_trans with (2 ^ Z.of_nat k * 2 ^ (32 - Z.of_nat n)).
      + apply Z.mul_lt_mono_pos_l; [apply Z.pow_pos_nonneg; lia | lia].
      + rewrite <- Z.pow_add_r by lia. apply Z.pow_le_mono_r; lia. }
  by apply H.
Qed.

(** Feeding the top byte of the register shifts it out. *)
Lemma crcByte_top crc hi lo :
  crc = hi * 2 ^ 24 + lo -> isByte hi -> is_u 24 lo -> crcByte crc hi = 256 * lo.
Proof.
  intros -> Hh Hl. unfold crcByte, isByte, is_u in *.
  rewrite <- (lor_shiftl_add hi lo 24) by lia.
  assert (E : Z.lxor (Z.lor (Z.shiftl hi 24) lo) (Z.shiftl hi 24) = lo).
  { apply Z.bits_inj'. intros i Hi. rewrite Z.lxor_spec, Z.lor_spec, Z.shiftl_spec by lia.
    destruct (decide (i < 24)).
    - rewrite (Z.testbit_neg_r hi) by lia. by destruct (Z.testbit lo i).
    - rewrite (testbit_high_zero lo 24) by lia. by destruct (Z.testbit hi (i - 24)). }
  rewrite E. rewrite crcBit_shift; [done | unfold is_u; simpl; lia | lia].
Qed.

Lemma crcBytes_clear crc : is_u 32 crc -> foldl crcByte crc (crcBytes crc) = 0.
Proof.
  intros Hc. unfold crcBytes, u8. rewrite !shiftr_div by lia. simpl.
  rewrite (crcByte_top crc ((crc / 2 ^ 24) mod 2 ^ 8) (crc mod 2 ^ 24)) by (unfold isByte; divmod).
  rewrite (crcByte_top _ ((crc / 2 ^ 16) mod 2 ^ 8) (256 * (crc mod 2 ^ 16)))
    by (unfold isByte; divmod).
  rewrite (crcByte_top _ ((crc / 2 ^ 8) mod 2 ^ 8) (65536 * (crc mod 2 ^ 8)))
    by (unfold isByte; divmod).
  rewrite (crcByte_top _ (crc mod 2 ^ 8) 0) by (unfold isByte; divmod). done.
Qed.

(** *** Every step is injective *)

Lemma crcBit_cases crc :
  is_u 32 crc ->
  (crc < 2 ^ 31 /\ crcBit crc = 2 * crc /\ Z.testbit (crcBit crc) 0 = false) \/
  (2 ^ 31 <= crc /\ crcBit crc = Z.lxor (2 * crc - 2 ^ 32) polynomial /\
   Z.testbit (crcBit crc) 0 = true).
Proof.
  intros Hc. destruct (decide (crc < 2 ^ 31)) as [Hlt | Hge].
  - left. assert (E : crcBit crc = 2 * crc) by (apply crcBit_low; unfold is_u in *; lia).
    rewrite E. split_and!; [done | done | by rewrite Z.testbit_even_0].
  - right. assert (E : crcBit crc = Z.lxor (2 * crc - 2 ^ 32) polynomial).
    { unfold crcBit. rewrite crcBit_top by done.
      destruct (Z.leb_spec (2 ^ 31) crc); [| lia]. f_equal.
      rewrite shiftl_mul by lia. unfold is_u in Hc. divmod. }
    rewrite E. split_and!; [lia | done |].
    rewrite Z.lxor_spec. replace (2 * crc - 2 ^ 32) with (2 * (crc - 2 ^ 31)) by lia.
    by rewrite Z.testbit_even_0.
Qed.

Lemma lxor_cancel_r a b c : Z.lxor a c = Z.lxor b c -> a = b.
Proof.
  intros H. rewrite <- (Z.lxor_0_r a), <- (Z.lxor_0_r b), <- (Z.lxor_nilpotent c).
  by rewrite <- !Z.lxor_assoc, H.
Qed.

Lemma crcBit_inj a b : is_u 32 a -> is_u 32 b -> crcBit a = crcBit b -> a = b.
Proof.
  intros Ha Hb E. destruct (crcBit_cases a Ha) as [(A1 & A2 & A3) | (A1 & A2 & A3)];
    destruct (crcBit_cases b Hb) as [(B1 & B2 & B3) | (B1 & B2 & B3)].
  - lia.
  - congruence.
  - congruence.
  - rewrite A2, B2 in E. apply lxor_cancel_r in E. lia.
Qed.

Lemma crcIter_inj n a b :
  is_u 32 a -> is_u 32 b -> Nat.iter n crcBit a = Nat.iter n crcBit b -> a = b.
Proof.
  intros Ha Hb. induction n as [| n IH]; [done |]. rewrite !Nat.iter_succ. intros E.
  apply IH, crcBit_inj; [| | done]; destruct n; try done; apply crcBit_range.
Qed.

Lemma byte_shift_range b : isByte b -> is_u 32 (Z.shiftl b 24).
Proof. intros Hb. rewrite shiftl_mul by lia. unfold isByte, is_u in *. lia. Qed.

Lemma crcByte_inj_crc a b byte :
  is_u 32 a -> is_u 32 b -> isByte byte -> crcByte a byte = crcByte b byte -> a = b.
Proof.
  intros Ha Hb Hy E. pose proof (byte_shift_range byte Hy).
  apply crcIter_inj in E; [by apply lxor_cancel_r in E | by apply lxor_u32..].
Qed.

Lemma crcByte_inj_byte crc x y :
  is_u 32 crc -> isByte x -> isByte y -> crcByte crc x = crcByte crc y -> x = y.
Proof.
  intros Hc Hx Hy E. pose proof (byte_shift_range x Hx). pose proof (byte_shift_range y Hy).
  apply crcIter_inj in E; [| by apply lxor_u32..].
  rewrite !(Z.lxor_comm crc) in E. apply lxor_cancel_r in E.
  rewrite !shiftl_mul in E by lia. lia.
Qed.

Lemma crcFold_inj bytes a b :
  is_u 32 a -> is_u 32 b -> Forall isByte bytes ->
  foldl crcByte a bytes = foldl crcByte b bytes -> a = b.
Proof.
  revert a b. induction bytes as [| y bytes IH]; intros a b Ha Hb Hl E; [done |].
  apply Forall_cons in Hl as [Hy Hl]. simpl in E.
  apply (crcByte_inj_crc a b y); try done. apply IH; try done; apply crcByte_range.
Qed.

Lemma compute_appendCrc section : compute (appendCrc section) = 0.
Proof.
  unfold appendCrc. unfold compute at 1. rewrite foldl_app.
  apply crcBytes_clear, compute_range.
Qed.

(** ** Properties *)

(** The CRC over a section followed by its CRC is zero, the check the
    receiver makes. *)
Theorem crc_of_appended_is_zero section : compute (appendCrc section) = 0.
Proof. apply compute_appendCrc. Qed.

(** The CRC detects every change of a single byte. *)
Theorem crc_detects_byte_change before after x y :
  isByte x -> isByte y -> Forall isByte after -> x <> y ->
  compute (before ++ x :: after) <> compute (before ++ y :: after).
Proof.
  intros Hx Hy Ha Hne E. unfold compute in E. rewrite !foldl_app in E. simpl in E.
  apply crcFold_inj in E; [| apply crcByte_range | apply crcByte_range | done].
  apply crcByte_inj_byte in E; [by apply Hne | apply (compute_range before) | done | done].
Qed.

Lemma crc_detects_byte_change_witness :
  compute [0; 0xB0; 0x0D; 1] <> compute [0; 0xB1; 0x0D; 1].
Proof.
  apply (crc_detects_byte_change [0] [0x0D; 1] 0xB0 0xB1);
    [split; vm_compute; congruence | split; vm_compute; congruence
    | repeat constructor; vm_compute; congruence | discriminate].
Defined.

End MediaTsCrc32.
