(* ===== verification/TsPes.v ===== *)
(** * PES headers

    Models [protocol/mpegts/MediaTsTimestampFieldSerializer.cpp] and
    [MediaTsPesSerializer.cpp]: the five-byte 33-bit timestamp field and the
    PES header of an access unit.  The reference decoder reads the fields as
    ISO/IEC 13818-1 lays them out. *)

From S2P Require Import Prelude MediaResult.

Local Open Scope Z_scope.
Local Open Scope result_scope.

Module MediaTsPes.

Definition TimestampModulus : Z := Z.shiftl 1 33.

Definition serializeTimestamp (prefix wireTimestamp : Z) : Result (list Z) :=
  if (negb (prefix =? 1) && negb (prefix =? 2) && negb (prefix =? 3)) ||
     (TimestampModulus <=? wireTimestamp)
  then failure (invalidArgument "MPEG-TS timestamp field contract is invalid")
  else Success
    [u8 (Z.lor (Z.lor (Z.shiftl prefix 4)
                  (Z.shiftl (Z.land (Z.shiftr wireTimestamp 30) 0x07) 1)) 1);
     u8 (Z.shiftr wireTimestamp 22);
     u8 (Z.lor (Z.shiftl (Z.land (Z.shiftr wireTimestamp 15) 0x7F) 1) 1);
     u8 (Z.shiftr wireTimestamp 7);
     u8 (Z.lor (Z.shiftl (Z.land wireTimestamp 0x7F) 1) 1)].

Inductive MediaScheduledStream := Scheduled_Video | Scheduled_Audio.

Record MediaTsPacketClock := mkPacketClock {
  extendedPts : Z;
  extendedDts : Z;
  wirePts : Z;
  wireDts : Z;
}.

(** [%] of C++ truncates. *)
Definition wireValue (extended : Z) : Z :=
  let remainder := Z.rem extended TimestampModulus in
  u64 (if remainder <? 0 then remainder + TimestampModulus else remainder).

Definition validClock (c : MediaTsPacketClock) : bool :=
  (wirePts c <? TimestampModulus) && (wireDts c <? TimestampModulus) &&
  (wirePts c =? wireValue (extendedPts c)) && (wireDts c =? wireValue (extendedDts c)).

Record MediaTsPesHeader := mkPesHeader {
  pesStream : MediaScheduledStream;
  pesBytes : list Z;
  pesFramedPayloadBytes : Z;
}.

Definition streamIdOf (s : MediaScheduledStream) : Z :=
  match s with Scheduled_Video => 0xE0 | Scheduled_Audio => 0xC0 end.

Definition isAudio (s : MediaScheduledStream) : bool :=
  match s with Scheduled_Audio => true | Scheduled_Video => false end.

(** [MediaTsPesSerializer::header]; the [bytes] span of the result is
    [pesBytes]. *)
Definition header (stream : MediaScheduledStream) (clock : MediaTsPacketClock)
    (framedPayloadBytes : Z) : Result MediaTsPesHeader :=
  if negb (validClock clock) || (extendedPts clock <? extendedDts clock)
  then failure (invalidArgument "MPEG-TS PES clock is inconsistent")
  else
    let hasDts := negb (extendedPts clock =? extendedDts clock) in
    let timestampBytes := if hasDts then 10 else 5 in
    if isAudio stream && (65535 - 3 - timestampBytes <? framedPayloadBytes)
    then failure (invalidArgument "MPEG-TS audio PES length exceeds its 16-bit field")
    else
      let packetLength :=
        if isAudio stream then u64 (3 + timestampBytes + framedPayloadBytes) else 0 in
      let fixed := [0; 0; 1; streamIdOf stream; u8 (Z.shiftr packetLength 8); u8 packetLength;
                    0x80; (if hasDts then 0xC0 else 0x80); u8 timestampBytes] in
      match serializeTimestamp (if hasDts then 3 else 2) (wirePts clock) with
      | Failure _ => failure (invalidArgument "MPEG-TS PES PTS cannot be serialized")
      | Success pts =>
          if hasDts then
            match serializeTimestamp 1 (wireDts clock) with
            | Failure _ => failure (invalidArgument "MPEG-TS PES DTS cannot be serialized")
            | Success dts => Success (mkPesHeader stream (fixed ++ pts ++ dts) framedPayloadBytes)
            end
          else Success (mkPesHeader stream (fixed ++ pts) framedPayloadBytes)
      end.

(** ** Reference decoder *)

(** Prefix, value and the three marker bits of a timestamp field. *)
Definition decodeTimestamp (bytes : list Z) : option (Z * Z) :=
  match bytes with
  | [b0; b1; b2; b3; b4] =>
      if (b0 mod 2 =? 1) && (b2 mod 2 =? 1) && (b4 mod 2 =? 1)
      then Some (b0 / 16, (b0 / 2 mod 8) * 2 ^ 30 + b1 * 2 ^ 22 + (b2 / 2) * 2 ^ 15 +
                          b3 * 2 ^ 7 + b4 / 2)
      else None
  | _ => None
  end.

Record DecodedPes := mkDecodedPes {
  dp_streamId : Z;
  dp_packetLength : Z;
  dp_headerBytes : Z;
  dp_pts : Z;
  dp_dts : option Z;
}.

Definition decodePes (bytes : list Z) : option DecodedPes :=
  match bytes with
  | 0 :: 0 :: 1 :: sid :: l1 :: l0 :: 0x80 :: fl :: hl :: rest =>
      if fl =? 0x80 then
        match decodeTimestamp rest with
        | Some (2, pts) => Some (mkDecodedPes sid (l1 * 256 + l0) hl pts None)
        | _ => None
        end
      else if fl =? 0xC0 then
        match decodeTimestamp (take 5 rest), decodeTimestamp (drop 5 rest) with
        | Some (3, pts), Some (1, dts) => Some (mkDecodedPes sid (l1 * 256 + l0) hl pts (Some dts))
        | _, _ => None
        end
      else None
  | _ => None
  end.

(** ** Lemmas *)

Lemma land_7 a : Z.land a 0x07 = a mod 8.
Proof. apply (land_mask a 3). lia. Qed.
Lemma land_7F a : Z.land a 0x7F = a mod 128.
Proof. apply (land_mask a 7). lia. Qed.

Lemma serializeTimestamp_fields prefix ts :
  1 <= prefix <= 3 -> 0 <= ts < 2 ^ 33 ->
  serializeTimestamp prefix ts = Success
    [prefix * 16 + ts / 2 ^ 30 * 2 + 1; ts / 2 ^ 22 mod 256; ts / 2 ^ 15 mod 128 * 2 + 1;
     ts / 2 ^ 7 mod 256; ts mod 128 * 2 + 1].
Proof.
  intros Hp Ht. unfold serializeTimestamp, TimestampModulus.
  rewrite (shiftl_mul 1 33), Z.mul_1_l by lia.
  replace ((negb (prefix =? 1) && negb (prefix =? 2) && negb (prefix =? 3)) || (2 ^ 33 <=? ts))
    with false.
  2:{ destruct (Z.leb_spec (2 ^ 33) ts); [lia |].
      destruct (Z.eqb_spec prefix 1), (Z.eqb_spec prefix 2), (Z.eqb_spec prefix 3); simpl; lia || done. }
  rewrite !shiftr_div, land_7, !land_7F by lia.
  rewrite (shiftl_mul ((ts / 2 ^ 30) mod 8) 1), (lor_shiftl_add prefix) by divmod.
  rewrite (lor_disjoint (prefix * 2 ^ 4 + _) 1 1), !lor_shiftl_add by divmod.
  unfold u8. f_equal. f_equal; [divmod |]. f_equal. f_equal; [divmod |]. f_equal. f_equal. divmod.
Qed.

Lemma decodeTimestamp_fields prefix ts :
  0 <= prefix -> 0 <= ts < 2 ^ 33 ->
  decodeTimestamp
    [prefix * 16 + ts / 2 ^ 30 * 2 + 1; ts / 2 ^ 22 mod 256; ts / 2 ^ 15 mod 128 * 2 + 1;
     ts / 2 ^ 7 mod 256; ts mod 128 * 2 + 1] = Some (prefix, ts).
Proof.
  intros Hp Ht. unfold decodeTimestamp.
  rewrite (proj2 (Z.eqb_eq ((prefix * 16 + ts / 2 ^ 30 * 2 + 1) mod 2) 1)) by divmod.
  rewrite (proj2 (Z.eqb_eq ((ts / 2 ^ 15 mod 128 * 2 + 1) mod 2) 1)) by divmod.
  rewrite (proj2 (Z.eqb_eq ((ts mod 128 * 2 + 1) mod 2) 1)) by divmod. simpl andb. cbn iota.
  do 2 f_equal; divmod.
Qed.

Lemma wireValue_spec e : wireValue e = e mod 2 ^ 33.
Proof.
  unfold wireValue, TimestampModulus. rewrite (shiftl_mul 1 33), Z.mul_1_l by lia.
  assert (H : (if Z.rem e (2 ^ 33) <? 0 then Z.rem e (2 ^ 33) + 2 ^ 33 else Z.rem e (2 ^ 33)) =
              e mod 2 ^ 33).
  { destruct (Z.ltb_spec (Z.rem e (2 ^ 33)) 0); divmod. }
  rewrite H. unfold u64. apply Z.mod_small. divmod.
Qed.

(** The fields a header must decode to. *)
Definition expectedPes (stream : MediaScheduledStream) (clock : MediaTsPacketClock)
    (framed : Z) : DecodedPes :=
  let hasDts := negb (extendedPts clock =? extendedDts clock) in
  let timestampBytes := if hasDts then 10 else 5 in
  mkDecodedPes (streamIdOf stream)
    (if isAudio stream then 3 + timestampBytes + framed else 0) timestampBytes
    (extendedPts clock mod 2 ^ 33)
    (if hasDts then Some (extendedDts clock mod 2 ^ 33) else None).

(** The preconditions [header] checks. *)
Definition pesAccepts (stream : MediaScheduledStream) (clock : MediaTsPacketClock)
    (framed : Z) : Prop :=
  wirePts clock = extendedPts clock mod 2 ^ 33 /\
  wireDts clock = extendedDts clock mod 2 ^ 33 /\
  extendedDts clock <= extendedPts clock /\
  (isAudio stream = true ->
   3 + (if extendedPts clock =? extendedDts clock then 5 else 10) + framed <= 65535).

Lemma validClock_spec c :
  validClock c = true <->
  wirePts c = extendedPts c mod 2 ^ 33 /\ wireDts c = extendedDts c mod 2 ^ 33.
Proof.
  unfold validClock, TimestampModulus. rewrite (shiftl_mul 1 33), Z.mul_1_l by lia.
  rewrite !andb_true_iff, !Z.ltb_lt, !Z.eqb_eq, !wireValue_spec.
  split; [tauto |]. intros [-> ->]. split_and!; try done; divmod.
Qed.

Lemma length_field stream framed tb :
  0 <= framed -> 0 <= tb <= 10 -> (isAudio stream = true -> 3 + tb + framed <= 65535) ->
  let l := if isAudio stream then u64 (3 + tb + framed) else 0 in
  u8 (Z.shiftr l 8) * 256 + u8 l = if isAudio stream then 3 + tb + framed else 0.
Proof.
  intros Hf Ht Ha. destruct (isAudio stream); [| done]. specialize (Ha eq_refl). cbv zeta.
  rewrite shiftr_div by lia. unfold u64. rewrite (Z.mod_small (3 + tb + framed)) by lia. divmod.
Qed.

Lemma header_success stream clock framed :
  0 <= framed < 2 ^ 63 -> pesAccepts stream clock framed ->
  exists h, header stream clock framed = Success h /\ pesStream h = stream /\
    pesFramedPayloadBytes h = framed /\
    decodePes (pesBytes h) = Some (expectedPes stream clock framed).
Proof.
  intros Hf (Hp & Hd & Hle & Ha). unfold header, expectedPes.
  rewrite (proj2 (validClock_spec clock) (conj Hp Hd)).
  destruct (Z.ltb_spec (extendedPts clock) (extendedDts clock)); [lia |]. cbn [negb orb].
  pose proof (Z.mod_pos_bound (extendedPts clock) (2 ^ 33) ltac:(lia)) as Bp.
  pose proof (Z.mod_pos_bound (extendedDts clock) (2 ^ 33) ltac:(lia)) as Bd.
  set (tb := if negb (extendedPts clock =? extendedDts clock) then 10 else 5).
  assert (Htb : 0 <= tb <= 10) by (unfold tb; destruct (_ =? _); simpl; lia).
  assert (Ha' : isAudio stream = true -> 3 + tb + framed <= 65535).
  { intros E. specialize (Ha E). unfold tb. destruct (_ =? _); simpl in *; lia. }
  replace (isAudio stream && (65535 - 3 - tb <? framed)) with false.
  2:{ destruct (isAudio stream) eqn:E; [| done]. simpl. symmetry. apply Z.ltb_ge.
      specialize (Ha' eq_refl). lia. }
  pose proof (length_field stream framed tb ltac:(lia) Htb Ha') as Hl. cbv zeta in Hl |- *.
  rewrite Hp, Hd. rewrite !serializeTimestamp_fields by (destruct (_ =? _); simpl; lia).
  unfold tb in *. destruct (extendedPts clock =? extendedDts clock); cbn [negb] in *;
    (eexists; split; [reflexivity |]); (split; [done |]); (split; [done |]);
    cbn [pesBytes app decodePes Z.eqb Pos.eqb take drop];
    rewrite !decodeTimestamp_fields by lia; cbn iota beta; by rewrite Hl.
Qed.

(** ** Properties *)

(** A 33-bit timestamp written with a legal prefix is read back from its
    five bytes; every other argument is an error. *)
Theorem timestamp_roundtrip prefix ts :
  0 <= prefix < 256 -> 0 <= ts < 2 ^ 64 ->
  match serializeTimestamp prefix ts with
  | Success bytes => 1 <= prefix <= 3 /\ ts < 2 ^ 33 /\ Forall (is_u 8) bytes /\
                     decodeTimestamp bytes = Some (prefix, ts)
  | Failure _ => ~ (1 <= prefix <= 3 /\ ts < 2 ^ 33)
  end.
Proof.
  intros Hp Ht. destruct (decide (1 <= prefix <= 3 /\ ts < 2 ^ 33)) as [[Hp' Ht'] | Hno].
  - rewrite serializeTimestamp_fields by lia. split_and!; try lia.
    + repeat constructor; unfold is_u; divmod.
    + apply decodeTimestamp_fields; lia.
  - unfold serializeTimestamp, TimestampModulus. rewrite (shiftl_mul 1 33), Z.mul_1_l by lia.
    destruct (_ || _) eqn:E; [done |]. exfalso. apply Hno.
    apply orb_false_iff in E as [E1 E2%Z.leb_gt]. split; [| done].
    destruct (Z.eqb_spec prefix 1), (Z.eqb_spec prefix 2), (Z.eqb_spec prefix 3); simpl in E1; lia || done.
Qed.

Lemma timestamp_roundtrip_witness :
  match serializeTimestamp 3 8589934591 with
  | Success bytes => decodeTimestamp bytes = Some (3, 8589934591)
  | Failure _ => False
  end.
Proof.
  pose proof (timestamp_roundtrip 3 8589934591 ltac:(lia) ltac:(lia)) as H.
  destruct (serializeTimestamp 3 8589934591).
  - exact (proj2 (proj2 (proj2 H))).
  - apply H. lia.
Defined.

(** [MediaTsPesSerializer::header] succeeds exactly on a consistent clock
    with DTS at or before PTS and a length that fits, and its bytes decode to
    the stream id, the PES length, the header length and both timestamps modulo
    2^33. *)
Theorem pes_header_roundtrip stream clock framed :
  0 <= framed < 2 ^ 63 ->
  match header stream clock framed with
  | Success h => pesAccepts stream clock framed /\ pesStream h = stream /\
                 decodePes (pesBytes h) = Some (expectedPes stream clock framed)
  | Failure _ => ~ pesAccepts stream clock framed
  end.
Proof.
  intros Hf. destruct (header stream clock framed) as [h |] eqn:E.
  - assert (Ha : pesAccepts stream clock framed).
    { revert E. unfold header, pesAccepts.
      destruct (validClock clock) eqn:Ev; [| done]. apply validClock_spec in Ev as [-> ->].
      destruct (Z.ltb_spec (extendedPts clock) (extendedDts clock)); [done |]. cbn [negb orb].
      destruct (isAudio stream && _) eqn:El; [done |]. intros _. split_and!; try done.
      intros Ea. rewrite Ea in El. simpl in El. apply Z.ltb_ge in El.
      destruct (_ =? _); simpl in *; lia. }
    destruct (header_success stream clock framed Hf Ha) as (h' & E' & Hs & _ & Hd).
    rewrite E in E'. injection E' as <-. done.
  - intros Ha. destruct (header_success stream clock framed Hf Ha) as (h' & E' & _).
    congruence.
Qed.

Lemma pes_header_roundtrip_witness :
  match header Scheduled_Audio (mkPacketClock 8589934600 (-5) 8 8589934587) 100 with
  | Success h => decodePes (pesBytes h) = Some (mkDecodedPes 0xC0 113 10 8 (Some 8589934587))
  | Failure _ => False
  end.
Proof.
  pose proof (pes_header_roundtrip Scheduled_Audio (mkPacketClock 8589934600 (-5) 8 8589934587) 100
                ltac:(lia)) as H.
  destruct (header Scheduled_Audio (mkPacketClock 8589934600 (-5) 8 8589934587) 100).
  - exact (proj2 (proj2 H)).
  - apply H. unfold pesAccepts. vm_compute. intuition congruence.
Defined.

End MediaTsPes.
