(* ===== verification/TsPacket.v ===== *)
(** * Building transport packets

    Models [protocol/mpegts/MediaTsTransportPacketBuilder.cpp]: a logical unit,
    given as segments, is cut into 188-byte packets with stuffing in the
    adaptation field, and a PCR is sent in a packet without payload.  A packet
    is a list of 188 bytes; a [std::span] of spans is a list of lists. *)

From S2P Require Import Prelude MediaResult.

Local Open Scope Z_scope.
Local Open Scope result_scope.

Module MediaTsTransportPacketBuilder.

Definition PacketSize : nat := 188.
Definition PcrModulus : Z := Z.shiftl 1 33 * 300.
Definition NullPid : Z := 0x1FFF.

(** [SegmentedLogicalBytes]. *)
Record Reader := mkReader {
  r_segments : list (list Z);
  r_total : Z;
  r_segmentIndex : nat;
  r_segmentOffset : nat;
}.

(** The summing loop of [create]; [size_t] has 64 bits. *)
Fixpoint sumSizes (segments : list (list Z)) (total : Z) : Result Z :=
  match segments with
  | [] => Success total
  | s :: rest =>
      if uint64_max - total <? Z.of_nat (length s)
      then failure (invalidArgument "MPEG-TS logical unit byte count overflows")
      else sumSizes rest (total + Z.of_nat (length s))
  end.

Definition createReader (segments : list (list Z)) : Result Reader :=
  let* total := sumSizes segments 0 in
  if total =? 0 then failure (invalidArgument "MPEG-TS logical unit is empty")
  else Success (mkReader segments total 0 0).

(** [copyNext]: the bytes written and the reader after them. *)
Fixpoint copyNext (fuel n : nat) (r : Reader) : list Z * Reader :=
  match fuel with
  | O => ([], r)
  | S fuel' =>
      if Nat.eqb n 0 then ([], r)
      else
        let segment := r_segments r !!! r_segmentIndex r in
        let available := (length segment - r_segmentOffset r)%nat in
        let count := Nat.min available n in
        let chunk := take count (drop (r_segmentOffset r) segment) in
        let offset := (r_segmentOffset r + count)%nat in
        let r' :=
          if Nat.eqb offset (length segment)
          then mkReader (r_segments r) (r_total r) (S (r_segmentIndex r)) 0
          else mkReader (r_segments r) (r_total r) (r_segmentIndex r) offset in
        let '(rest, r'') := copyNext fuel' (n - count) r' in
        (chunk ++ rest, r'')
  end.

Definition previousPayload (next : Z) : Z := Z.land (next + 15) 0x0F.

Definition writeHeader (pid : Z) (payloadUnitStart : bool) (adaptationControl continuity : Z) :
    list Z :=
  [0x47;
   u8 (Z.lor (if payloadUnitStart then 0x40 else 0) (Z.land (Z.shiftr pid 8) 0x1F));
   u8 pid;
   u8 (Z.lor (Z.shiftl adaptationControl 4) (Z.land continuity 0x0F))] ++ replicate 184 0xFF.

Definition payloadPacketCount (segments : list (list Z)) (randomAccess discontinuity : bool) :
    Result Z :=
  let* r := createReader segments in
  let firstCapacity := if randomAccess || discontinuity then 182 else 184 in
  let remaining := if firstCapacity <? r_total r then r_total r - firstCapacity else 0 in
  Success (1 + (remaining / 184 + (if negb (remaining mod 184 =? 0) then 1 else 0))).

(** Overwrites the bytes from [offset] on. *)
Definition writeAt (offset : nat) (bytes packet : list Z) : list Z :=
  take offset packet ++ bytes ++ drop (offset + length bytes) packet.

(** One packet of the loop of [payload]. *)
Definition payloadPacket (pid continuity : Z) (first needsRandomAccess needsDiscontinuity : bool)
    (bytes : list Z) : list Z :=
  let payloadBytes := length bytes in
  let needsAdaptation := needsRandomAccess || needsDiscontinuity || (payloadBytes <? 184)%nat in
  let packet := writeHeader pid first (if needsAdaptation then 3 else 1) continuity in
  if needsAdaptation then
    let adaptationLength := (183 - payloadBytes)%nat in
    let packet := <[4%nat := u8 (Z.of_nat adaptationLength)]> packet in
    let packet :=
      if negb (Nat.eqb adaptationLength 0)
      then <[5%nat := u8 (Z.lor (if needsRandomAccess then 0x40 else 0)
                                (if needsDiscontinuity then 0x80 else 0))]> packet
      else packet in
    writeAt (5 + adaptationLength) bytes packet
  else writeAt 4 bytes packet.

(** The loop of [payload]; every iteration sends at least one byte, so
    [r_total] iterations are enough. *)
Fixpoint payloadLoop (fuel : nat) (pid : Z) (randomAccess discontinuity : bool)
    (offset : Z) (continuity : Z) (r : Reader) (workspace : list (list Z)) : list (list Z) :=
  match fuel with
  | O => workspace
  | S fuel' =>
      if r_total r <=? offset then workspace
      else
        let first := offset =? 0 in
        let needsRandomAccess := first && randomAccess in
        let needsDiscontinuity := first && discontinuity in
        let remaining := r_total r - offset in
        let payloadBytes :=
          if needsRandomAccess || needsDiscontinuity then Z.min remaining 182
          else Z.min remaining 184 in
        let n := Z.to_nat payloadBytes in
        let '(bytes, r') := copyNext (n + length (r_segments r)) n r in
        payloadLoop fuel' pid randomAccess discontinuity (offset + payloadBytes)
          (Z.land (continuity + 1) 0x0F) r'
          (workspace ++ [payloadPacket pid continuity first needsRandomAccess needsDiscontinuity bytes])
  end.

(** The caller's workspace is cleared first. *)
Definition payload (pid initialPayloadContinuity : Z) (segments : list (list Z))
    (randomAccess discontinuity : bool) : Result (list (list Z)) :=
  if (NullPid <=? pid) || (15 <? initialPayloadContinuity)
  then failure (invalidArgument "MPEG-TS packet builder identity is invalid")
  else
    let* r := createReader segments in
    let* count := payloadPacketCount segments randomAccess discontinuity in
    Success (payloadLoop (Z.to_nat (r_total r)) pid randomAccess discontinuity 0
               initialPayloadContinuity r []).

Definition pcrOnly (pid nextPayloadContinuity wire27Mhz : Z) (discontinuity : bool) :
    Result (list Z) :=
  if (NullPid <=? pid) || (15 <? nextPayloadContinuity) || (PcrModulus <=? wire27Mhz)
  then failure (invalidArgument "MPEG-TS PCR wire value is outside its 42-bit field")
  else
    let packet := writeHeader pid false 2 (previousPayload nextPayloadContinuity) in
    let base := wire27Mhz / 300 in
    let extension := u16 (wire27Mhz mod 300) in
    Success (writeAt 4
      [183; u8 (Z.lor 0x10 (if discontinuity then 0x80 else 0));
       u8 (Z.shiftr base 25); u8 (Z.shiftr base 17); u8 (Z.shiftr base 9); u8 (Z.shiftr base 1);
       u8 (Z.lor (Z.lor (u64 (Z.shiftl base 7)) 0x7E) (Z.shiftr extension 8)); u8 extension]
      packet).

(** ** Lemmas: the reader *)

(** What a reader still has to give. *)
Definition remainingBytes (r : Reader) : list Z :=
  drop (r_segmentOffset r) (r_segments r !!! r_segmentIndex r) ++
  concat (drop (S (r_segmentIndex r)) (r_segments r)).

(** The offset stays inside the current segment. *)
Definition readerOk (r : Reader) : Prop :=
  (r_segmentOffset r <= length (r_segments r !!! r_segmentIndex r))%nat.

Lemma remaining_next segments total i :
  remainingBytes (mkReader segments total i (length (segments !!! i))) =
  remainingBytes (mkReader segments total (S i) 0).
Proof.
  unfold remainingBytes. simpl. rewrite drop_all. simpl.
  destruct (decide (S i < length segments)%nat) as [Hi | Hi].
  - destruct (lookup_lt_is_Some_2 segments (S i) Hi) as [x Hx].
    rewrite (drop_S _ _ _ Hx), (list_lookup_total_correct _ _ _ Hx). done.
  - rewrite !(drop_ge segments) by lia.
    rewrite list_lookup_total_alt, lookup_ge_None_2 by lia.
    done.
Qed.

Lemma copyNext_spec fuel n r :
  readerOk r -> (n <= length (remainingBytes r))%nat ->
  (n + (length (r_segments r) - r_segmentIndex r) <= fuel)%nat ->
  let '(bytes, r') := copyNext fuel n r in
  bytes = take n (remainingBytes r) /\ remainingBytes r' = drop n (remainingBytes r) /\
  readerOk r' /\ r_segments r' = r_segments r /\ r_total r' = r_total r.
Proof.
  revert n r. induction fuel as [| fuel IH]; intros n r Hok Hn Hf.
  { assert (n = 0%nat) as -> by lia. by rewrite take_0, drop_0. }
  cbn [copyNext]. destruct (Nat.eqb_spec n 0) as [-> | Hn0]; [by rewrite take_0, drop_0 |].
  destruct r as [segs total i off]. unfold readerOk in Hok. simpl in *.
  assert (Hi : (i < length segs)%nat).
  { destruct (decide (i < length segs)%nat); [done |]. exfalso. revert Hn. unfold remainingBytes. simpl.
    rewrite (drop_ge segs) by lia. rewrite list_lookup_total_alt, lookup_ge_None_2 by lia.
    simpl. rewrite drop_nil. simpl. lia. }
  set (seg := segs !!! i) in *. set (count := Nat.min (length seg - off) n).
  assert (Hrem : remainingBytes (mkReader segs total i off) =
                 drop off seg ++ concat (drop (S i) segs)) by done.
  assert (Hchunk : take count (drop off seg) = take count (drop off seg ++ concat (drop (S i) segs))).
  { rewrite take_app_le; [done | rewrite length_drop; lia]. }
  set (r' := if Nat.eqb (off + count) (length seg) then _ else _).
  assert (Hr' : remainingBytes r' = drop count (remainingBytes (mkReader segs total i off)) /\
                readerOk r' /\ r_segments r' = segs /\ r_total r' = total /\
                (n - count + (length segs - r_segmentIndex r') <= fuel)%nat).
  { rewrite Hrem, drop_app_le by (rewrite length_drop; lia). rewrite drop_drop.
    unfold r'. destruct (Nat.eqb_spec (off + count) (length seg)) as [E | E].
    - split_and!; try done; [| unfold readerOk; simpl; lia | simpl; lia].
      rewrite <- (remaining_next segs total i). unfold remainingBytes. simpl. fold seg. by rewrite E.
    - split_and!; try done; [unfold readerOk; simpl; fold seg; lia | simpl; unfold count in *; lia]. }
  destruct Hr' as (Hr1 & Hr2 & Hr3 & Hr4 & Hr5).
  specialize (IH (n - count)%nat r' Hr2). rewrite Hr1, length_drop in IH.
  specialize (IH ltac:(unfold count; lia)). rewrite Hr3 in IH. specialize (IH Hr5).
  destruct (copyNext fuel (n - count) r') as [rest r''].
  destruct IH as (-> & E2 & H3 & H4 & H5). rewrite Hr4 in H5. split_and!; try done.
  - rewrite Hchunk, <- Hrem. rewrite take_take_drop. f_equal. unfold count. lia.
  - rewrite E2, drop_drop. f_equal. unfold count. lia.
Qed.

Lemma sumSizes_success segments t0 total :
  sumSizes segments t0 = Success total -> total = t0 + Z.of_nat (length (concat segments)).
Proof.
  revert t0. induction segments as [| s rest IH]; intros t0; simpl; [intros [= ->]; lia |].
  destruct (_ <? _); [done |]. intros ->%IH. rewrite length_app. lia.
Qed.

Lemma createReader_success segments r :
  createReader segments = Success r ->
  r = mkReader segments (Z.of_nat (length (concat segments))) 0 0 /\
  concat segments <> [] /\ readerOk r /\ remainingBytes r = concat segments.
Proof.
  unfold createReader. intros (total & Hs & H)%bindResult_success.
  apply sumSizes_success in Hs. destruct (Z.eqb_spec total 0) as [| Hne]; [done |].
  injection H as <-. subst total. split_and!; [done | | unfold readerOk; simpl; lia |].
  - intros E. rewrite E in Hne. simpl in Hne. lia.
  - unfold remainingBytes. simpl. destruct segments; [done |]. simpl. by rewrite drop_0.
Qed.

(** ** Lemmas: the packets of a unit *)

(** The packets after the first, for the payloads [cs]. *)
Fixpoint tailPackets (pid continuity : Z) (cs : list (list Z)) : list (list Z) :=
  match cs with
  | [] => []
  | c :: cs' => payloadPacket pid continuity false false false c ::
                tailPackets pid (Z.land (continuity + 1) 0x0F) cs'
  end.

Lemma payloadLoop_tail fuel pid ra di offset cc r ws :
  readerOk r -> 0 < offset <= r_total r ->
  Z.of_nat (length (remainingBytes r)) = r_total r - offset ->
  (length (remainingBytes r) <= fuel)%nat ->
  exists cs, payloadLoop fuel pid ra di offset cc r ws = ws ++ tailPackets pid cc cs /\
    concat cs = remainingBytes r /\ Forall (fun c => 0 < length c <= 184)%nat cs /\
    Z.of_nat (length cs) = (Z.of_nat (length (remainingBytes r)) + 183) / 184.
Proof.
  revert offset cc r ws. induction fuel as [| fuel IH]; intros offset cc r ws Hok Ho Hlen Hf.
  { exists []. assert (E : remainingBytes r = []) by (apply length_zero_iff_nil; lia).
    rewrite E. by rewrite app_nil_r. }
  cbn [payloadLoop]. destruct (Z.leb_spec (r_total r) offset).
  { exists []. assert (E : remainingBytes r = []) by (apply length_zero_iff_nil; lia).
    rewrite E. by rewrite app_nil_r. }
  destruct (Z.eqb_spec offset 0) as [| Hoff]; [lia |]. cbn [andb orb].
  set (n := Z.to_nat (Z.min (r_total r - offset) 184)).
  pose proof (copyNext_spec (n + length (r_segments r)) n r Hok ltac:(lia) ltac:(lia)) as Hc.
  destruct (copyNext (n + length (r_segments r)) n r) as [bytes r'].
  destruct Hc as (Eb & Er & Hok' & Es & Et).
  assert (Hr' : length (remainingBytes r') = (length (remainingBytes r) - n)%nat)
    by (by rewrite Er, length_drop).
  destruct (IH (offset + Z.min (r_total r - offset) 184) (Z.land (cc + 1) 0x0F) r'
    (ws ++ [payloadPacket pid cc false false false bytes])) as (cs & E & Hcat & Hall & Hcount);
    [done | rewrite Et; lia | rewrite Hr', Et; lia | rewrite Hr'; lia |].
  exists (bytes :: cs). rewrite E. cbn [tailPackets concat]. split_and!.
  - by rewrite <- app_assoc.
  - rewrite Hcat, Er, Eb. apply take_drop.
  - constructor; [| done]. rewrite Eb, length_take. lia.
  - cbn [length]. rewrite Nat2Z.inj_succ, Hcount, Hr'.
    rewrite Nat2Z.inj_sub by lia. unfold n. rewrite Z2Nat.id by lia.
    rewrite Hlen. divmod.
Qed.

(** The payload capacity of the first packet. *)
Definition firstCapacity (ra di : bool) : nat := if ra || di then 182 else 184.

Lemma payload_shape pid cc segments ra di packets :
  payload pid cc segments ra di = Success packets ->
  pid < NullPid /\ cc <= 15 /\
  exists c cs, packets = payloadPacket pid cc true ra di c ::
                         tailPackets pid (Z.land (cc + 1) 0x0F) cs /\
    c ++ concat cs = concat segments /\
    (0 < length c <= firstCapacity ra di)%nat /\ Forall (fun c => 0 < length c <= 184)%nat cs /\
    payloadPacketCount segments ra di = Success (Z.of_nat (length packets)).
Proof.
  unfold payload. destruct (Z.leb_spec NullPid pid); [done |].
  destruct (Z.ltb_spec 15 cc); [done |]. cbn [orb].
  intros (r & Hr & (count & Hcount & Hp)%bindResult_success)%bindResult_success.
  pose proof (createReader_success segments r Hr) as (-> & Hne & Hok & Hrem).
  split; [lia |]. split; [lia |].
  set (all := concat segments) in *. assert (Hpos : (0 < length all)%nat).
  { destruct all; [done | simpl; lia]. }
  cbn [r_total] in Hp. rewrite Nat2Z.id in Hp.
  assert (exists fuel, length all = S fuel) as [fuel El] by (exists (pred (length all)); lia).
  replace (payloadLoop (length all)) with (payloadLoop (S fuel)) in Hp by (by rewrite El).
  cbn [payloadLoop r_total] in Hp.
  destruct (Z.leb_spec (Z.of_nat (length all)) 0); [lia |]. cbn [Z.eqb andb] in Hp.
  rewrite Z.sub_0_r, Z.add_0_l in Hp.
  set (cap := Z.of_nat (firstCapacity ra di)).
  assert (Ecap : (if ra || di then Z.min (Z.of_nat (length all)) 182
                  else Z.min (Z.of_nat (length all)) 184) = Z.min (Z.of_nat (length all)) cap).
  { unfold cap, firstCapacity. by destruct (ra || di). }
  rewrite Ecap in Hp. set (n := Z.to_nat (Z.min (Z.of_nat (length all)) cap)) in Hp.
  assert (Hcap : (182 <= firstCapacity ra di <= 184)%nat)
    by (unfold firstCapacity; destruct (ra || di); lia).
  set (r := mkReader segments _ 0 0) in *.
  pose proof (copyNext_spec (n + length (r_segments r)) n r Hok
                ltac:(rewrite Hrem; lia) ltac:(lia)) as Hc.
  destruct (copyNext (n + length (r_segments r)) n r) as [bytes r'].
  destruct Hc as (Eb & Er & Hok' & Es & Et). rewrite Hrem in Eb, Er.
  assert (Hr' : length (remainingBytes r') = (length all - n)%nat) by (by rewrite Er, length_drop).
  destruct (payloadLoop_tail fuel pid ra di (Z.min (Z.of_nat (length all)) cap)
    (Z.land (cc + 1) 0x0F) r' ([] ++ [payloadPacket pid cc true ra di bytes]))
    as (cs & E & Hcat & Hall & Hn); [done | rewrite Et; simpl; lia | rewrite Hr', Et; simpl; lia
    | rewrite Hr'; lia |].
  rewrite E in Hp. injection Hp as <-. exists bytes, cs. split_and!; try done.
  - rewrite Hcat, Er, Eb. apply take_drop.
  - rewrite Eb, length_take. lia.
  - rewrite Eb, length_take. lia.
  - unfold payloadPacketCount in *. rewrite Hr. cbn [bindResult r_total].
    assert (Ht : length (tailPackets pid (Z.land (cc + 1) 0x0F) cs) = length cs).
    { clear. generalize (Z.land (cc + 1) 0x0F). induction cs as [| c cs IH]; intros k; simpl; [done |].
      by rewrite IH. }
    cbn [app length]. rewrite Ht, Nat2Z.inj_succ, Hn, Hr', Nat2Z.inj_sub by lia. f_equal.
    unfold n. rewrite Z2Nat.id by lia.
    replace (if ra || di then 182 else 184) with cap
      by (unfold cap, firstCapacity; by destruct (ra || di)).
    assert (182 <= cap <= 184) by lia.
    change (r_total r) with (Z.of_nat (length all)).
    destruct (Z.ltb_spec cap (Z.of_nat (length all))).
    + rewrite Z.min_r by lia. set (d := Z.of_nat (length all) - cap) in *.
      assert (Hd : 0 < d) by lia. clearbody d. clear -Hd.
      destruct (Z.eqb_spec (d mod 184) 0); simpl; divmod.
    + rewrite Z.min_l by lia. rewrite Z.sub_diag. done.
Qed.

End MediaTsTransportPacketBuilder.
