(* ===== verification/TsParser.v ===== *)
(** * Parsing transport packets

    Models [protocol/mpegts/MediaTsPacketParser.{h,cpp}]: the framing of a byte
    stream into 188-byte packets, the parsing of a packet's header and
    adaptation field, the continuity check, and the publication of a packet's
    evidence before all of its bytes have arrived.

    The parser calls a sink, and optionally an incremental sink; both are
    interfaces.  The first is the class [MediaTsPacketSink], whose methods act
    on a state [S] of the implementation; the second is a nullable pointer, an
    [option] of a record of methods on the same state.  A call threads the
    pair of the parser's state and [S], also when it fails. *)

From stdpp Require Import gmap.
From S2P Require Import Prelude MediaResult TsPacket.
Import MediaTsTransportPacketBuilder.

Local Open Scope Z_scope.
Local Open Scope result_scope.

Module MediaTsPacketParser.

(** ** Data *)

Record MediaTsPacketView := mkPacketView {
  v_byteOffset : Z;
  v_pid : Z;
  v_payloadUnitStart : bool;
  v_continuityCounter : Z;
  v_discontinuity : bool;
  v_pcr27Mhz : option Z;
  v_payloadSpan : list Z;
}.

Record MediaTsPacketEvidenceView := mkEvidenceView {
  ev_byteOffset : Z;
  ev_pid : Z;
  ev_payloadUnitStart : bool;
  ev_continuityCounter : Z;
  ev_discontinuity : bool;
  ev_pcr27Mhz : option Z;
}.

Record MediaTsPacketPrefixView := mkPrefixView {
  pv_byteOffset : Z;
  pv_pid : Z;
  pv_payloadUnitStart : bool;
  pv_pesStart : bool;
}.

Inductive MediaTsContinuityEventReason := CounterLoss | DiscontinuityIndicator.

Record MediaTsContinuityEvent := mkContinuityEvent {
  ce_byteOffset : Z;
  ce_pid : Z;
  ce_reason : MediaTsContinuityEventReason;
}.

(** A method of a sink: its status and the sink's state after the call. *)
Class MediaTsPacketSink (S : Type) := {
  onPacket : MediaTsPacketView -> S -> Status * S;
  onContinuityEvent : MediaTsContinuityEvent -> S -> Status * S;
}.

Record MediaTsIncrementalPacketSink (S : Type) := mkIncrementalSink {
  onPacketEvidence : MediaTsPacketEvidenceView -> S -> Status * S;
  onPacketPrefix : MediaTsPacketPrefixView -> S -> Status * S;
}.
Arguments onPacketEvidence {S}.
Arguments onPacketPrefix {S}.

Record ParsedPacketEvidence := mkParsed {
  pe_view : MediaTsPacketEvidenceView;
  pe_hasPayload : bool;
  pe_payloadOffset : Z;
  pe_prefixPublished : bool;
}.

(** [m_carry] is the valid prefix, of length [m_carrySize]; [m_packetScratch]
    is always written before it is read and is not part of the state. *)
Record Parser (S : Type) := mkParser {
  m_incrementalSink : option (MediaTsIncrementalPacketSink S);
  m_carry : list Z;
  m_carryOffset : Z;
  m_nextInputOffset : Z;
  m_copiedPacketBytes : Z;
  m_strideLocked : bool;
  m_finished : bool;
  m_finishFailure : option ErrorInfo;
  m_publishedEvidence : option ParsedPacketEvidence;
  m_continuity : gmap Z Z;
}.
Arguments mkParser {S}.
Arguments m_incrementalSink {S}.
Arguments m_carry {S}.
Arguments m_carryOffset {S}.
Arguments m_nextInputOffset {S}.
Arguments m_copiedPacketBytes {S}.
Arguments m_strideLocked {S}.
Arguments m_finished {S}.
Arguments m_finishFailure {S}.
Arguments m_publishedEvidence {S}.
Arguments m_continuity {S}.

Definition invalidPacket {A} (message : string) : Result A := failure (invalidArgument message).

Definition create {S} (packetStride : Z) (incrementalSink : option (MediaTsIncrementalPacketSink S)) :
    Result (Parser S) :=
  if negb (packetStride =? 188)
  then failure (unsupported "MPEG-TS evidence parser supports only 188-byte packets")
  else Success (mkParser incrementalSink [] 0 0 0 false false None None ∅).

(** ** The header and the adaptation field

    [at_] reads a byte, [flag] is the test [(byte & mask) != 0]. *)

Definition at_ (l : list Z) (i : Z) : Z := l !!! Z.to_nat i.
Definition flag (byte mask : Z) : bool := negb (Z.land byte mask =? 0).

(** The lambda [require]; the bound is a [size_t] subtraction. *)
Definition require (adaptationEnd cursor count : Z) (message : string) : Status :=
  if count <=? u64 (adaptationEnd - cursor) then Success tt else invalidPacket message.

(** The lambda [parseClock]: the clock read and the cursor after it. *)
Definition parseClock (packet : list Z) (adaptationEnd cursor : Z) : Result (Z * Z) :=
  let* _ := require adaptationEnd cursor 6 "MPEG-TS adaptation clock field is truncated" in
  if negb (Z.land (at_ packet (cursor + 4)) 0x7E =? 0x7E)
  then invalidPacket "MPEG-TS adaptation clock reserved bits are invalid"
  else
    let base :=
      Z.lor (Z.lor (Z.lor (Z.lor (Z.shiftl (at_ packet cursor) 25)
                                 (Z.shiftl (at_ packet (cursor + 1)) 17))
                          (Z.shiftl (at_ packet (cursor + 2)) 9))
                   (Z.shiftl (at_ packet (cursor + 3)) 1))
            (Z.shiftr (at_ packet (cursor + 4)) 7) in
    let extension := u16 (Z.lor (Z.shiftl (Z.land (at_ packet (cursor + 4)) 1) 8)
                                (at_ packet (cursor + 5))) in
    if 299 <? extension
    then invalidPacket "MPEG-TS adaptation clock extension exceeds 299"
    else Success (u64 (base * 300 + extension), cursor + 6).

(** The adaptation field extension, from its length byte on: the cursor after it. *)
Definition skipExtension (packet : list Z) (adaptationEnd cursor : Z) : Result Z :=
  let* _ := require adaptationEnd cursor 1 "MPEG-TS adaptation extension length is truncated" in
  let extensionLength := at_ packet cursor in
  let cursor := cursor + 1 in
  let* _ := require adaptationEnd cursor extensionLength
              "MPEG-TS adaptation extension exceeds adaptation field" in
  let extensionEnd := cursor + extensionLength in
  if negb (extensionLength =? 0) then
    let extensionFlags := at_ packet cursor in
    let cursor := cursor + 1 in
    let* cursor := if flag extensionFlags 0x80
                   then let* _ := require extensionEnd cursor 2 "MPEG-TS LTW field is truncated" in
                        Success (cursor + 2)
                   else Success cursor in
    let* cursor := if flag extensionFlags 0x40
                   then let* _ := require extensionEnd cursor 3
                                    "MPEG-TS piecewise rate field is truncated" in
                        Success (cursor + 3)
                   else Success cursor in
    let* cursor := if flag extensionFlags 0x20
                   then let* _ := require extensionEnd cursor 5
                                    "MPEG-TS seamless splice field is truncated" in
                        Success (cursor + 5)
                   else Success cursor in
    Success extensionEnd
  else Success extensionEnd.

(** The stuffing loop over [n] bytes. *)
Fixpoint checkStuffing (n : nat) (packet : list Z) (cursor : Z) : Status :=
  match n with
  | O => Success tt
  | S n' => if negb (at_ packet cursor =? 0xFF)
            then invalidPacket "MPEG-TS adaptation stuffing byte is invalid"
            else checkStuffing n' packet (cursor + 1)
  end.

(** The fields of a non-empty adaptation field: discontinuity and PCR. *)
Definition parseAdaptation (packet : list Z) (adaptationLength : Z) : Result (bool * option Z) :=
  let flags := at_ packet 5 in
  let discontinuity := flag flags 0x80 in
  let cursor := 6 in
  let adaptationEnd := 5 + adaptationLength in
  let* (pcr, cursor) :=
    if flag flags 0x10
    then let* (clock, cursor) := parseClock packet adaptationEnd cursor in Success (Some clock, cursor)
    else Success (None, cursor) in
  let* cursor :=
    if flag flags 0x08
    then let* (clock, cursor) := parseClock packet adaptationEnd cursor in Success cursor
    else Success cursor in
  let* cursor :=
    if flag flags 0x04
    then let* _ := require adaptationEnd cursor 1 "MPEG-TS splice countdown is truncated" in
         Success (cursor + 1)
    else Success cursor in
  let* cursor :=
    if flag flags 0x02
    then let* _ := require adaptationEnd cursor 1 "MPEG-TS private data length is truncated" in
         let length := at_ packet cursor in
         let cursor := cursor + 1 in
         let* _ := require adaptationEnd cursor length
                     "MPEG-TS private data exceeds adaptation field" in
         Success (cursor + length)
    else Success cursor in
  let* cursor := if flag flags 0x01 then skipExtension packet adaptationEnd cursor
                 else Success cursor in
  let* _ := checkStuffing (Z.to_nat (adaptationEnd - cursor)) packet cursor in
  Success (discontinuity, pcr).

(** The part of [publishIncrementalEvidence] that reads the packet: [None] when
    the bytes that decide the evidence have not all arrived. *)
Definition parseEvidence (packet : list Z) (byteOffset : Z) : Result (option ParsedPacketEvidence) :=
  let size := Z.of_nat (length packet) in
  if size <? 4 then Success None
  else if negb (at_ packet 0 =? 0x47) then invalidPacket "MPEG-TS packet has invalid sync byte"
  else if flag (at_ packet 1) 0x80 then invalidPacket "MPEG-TS transport error indicator is set"
  else if flag (at_ packet 3) 0xC0 then invalidPacket "scrambled MPEG-TS packets are unsupported"
  else
    let pid := u16 (Z.lor (Z.shiftl (Z.land (at_ packet 1) 0x1F) 8) (at_ packet 2)) in
    let payloadUnitStart := flag (at_ packet 1) 0x40 in
    let adaptationControl := Z.land (Z.shiftr (at_ packet 3) 4) 0x03 in
    let continuityCounter := Z.land (at_ packet 3) 0x0F in
    if adaptationControl =? 0
    then invalidPacket "MPEG-TS adaptation field control is reserved"
    else
      let hasAdaptation := flag adaptationControl 0x02 in
      let hasPayload := flag adaptationControl 0x01 in
      let parsed discontinuity pcr payloadOffset :=
        Some (mkParsed (mkEvidenceView byteOffset pid payloadUnitStart continuityCounter
                          discontinuity pcr) hasPayload payloadOffset false) in
      if negb hasAdaptation then Success (parsed false None 4)
      else if size <? 5 then Success None
      else
        let adaptationLength := at_ packet 4 in
        if 183 <? adaptationLength
        then invalidPacket "MPEG-TS adaptation field length exceeds packet boundary"
        else if negb hasPayload && negb (adaptationLength =? 183)
        then invalidPacket "adaptation-only MPEG-TS packet does not consume packet body"
        else
          let payloadOffset := 5 + adaptationLength in
          if hasPayload && (188 <=? payloadOffset)
          then invalidPacket "MPEG-TS packet declares payload without payload bytes"
          else if size <? payloadOffset then Success None
          else if adaptationLength =? 0 then Success (parsed false None payloadOffset)
          else
            let* (discontinuity, pcr) := parseAdaptation packet adaptationLength in
            Success (parsed discontinuity pcr payloadOffset).

(** Whether the payload starts with the PES start code [00 00 01]. *)
Definition startCodeAt (packet : list Z) (payloadOffset : Z) : bool :=
  (at_ packet payloadOffset =? 0) && (at_ packet (payloadOffset + 1) =? 0) &&
  (at_ packet (payloadOffset + 2) =? 1).

(** ** Publication of evidence *)

Section Sinks.
Context {K : Type} `{!MediaTsPacketSink K}.

Definition callSink (f : K -> Status * K) : StateResult (Parser K * K) unit :=
  fun '(p, s) => let '(r, s') := f s in (r, (p, s')).

Definition setEvidence (e : option ParsedPacketEvidence) (p : Parser K) : Parser K :=
  mkParser (m_incrementalSink p) (m_carry p) (m_carryOffset p) (m_nextInputOffset p)
    (m_copiedPacketBytes p) (m_strideLocked p) (m_finished p) (m_finishFailure p)
    e (m_continuity p).

Definition setContinuity (c : gmap Z Z) (p : Parser K) : Parser K :=
  mkParser (m_incrementalSink p) (m_carry p) (m_carryOffset p) (m_nextInputOffset p)
    (m_copiedPacketBytes p) (m_strideLocked p) (m_finished p) (m_finishFailure p)
    (m_publishedEvidence p) c.

Definition modifyParser (f : Parser K -> Parser K) : StateResult (Parser K * K) unit :=
  modifyState (fun '(p, s) => (f p, s)).

Definition markPrefixPublished (e : ParsedPacketEvidence) : ParsedPacketEvidence :=
  mkParsed (pe_view e) (pe_hasPayload e) (pe_payloadOffset e) true.

(** The rest of [publishIncrementalEvidence], once the packet has been read:
    continuity, evidence, prefix. *)
Definition publishParsed (packet : list Z) (byteOffset : Z) (parsed : ParsedPacketEvidence) :
    StateResult (Parser K * K) unit :=
  let pid := ev_pid (pe_view parsed) in
  let continuityCounter := ev_continuityCounter (pe_view parsed) in
  let! st := getState in
  let previous := m_continuity st.1 !! pid in
  let! _ :=
    if ev_discontinuity (pe_view parsed)
    then callSink (onContinuityEvent (mkContinuityEvent byteOffset pid DiscontinuityIndicator))
    else retState tt in
  let! _ :=
    match ev_discontinuity (pe_view parsed), previous with
    | false, Some counter =>
        let expected := if pe_hasPayload parsed then Z.land (counter + 1) 0x0F else counter in
        if negb (continuityCounter =? expected)
        then fun st =>
          let '(eventStatus, st') :=
            callSink (onContinuityEvent (mkContinuityEvent byteOffset pid CounterLoss)) st in
          (eventStatus, (setContinuity (delete pid (m_continuity st'.1)) st'.1, st'.2))
        else retState tt
    | _, _ => retState tt
    end in
  let! _ :=
    match m_incrementalSink st.1 with
    | Some sink => callSink (onPacketEvidence sink (pe_view parsed))
    | None => retState tt
    end in
  let! _ := modifyParser (fun p => setEvidence (Some parsed)
              (setContinuity (<[pid := continuityCounter]> (m_continuity p)) p)) in
  let payloadUnitStart := ev_payloadUnitStart (pe_view parsed) in
  let payloadOffset := pe_payloadOffset parsed in
  if negb payloadUnitStart || negb (pe_hasPayload parsed) ||
     (payloadOffset + 3 <=? Z.of_nat (length packet))
  then
    let pesStart := payloadUnitStart && pe_hasPayload parsed && startCodeAt packet payloadOffset in
    let! _ :=
      match m_incrementalSink st.1 with
      | Some sink => callSink (onPacketPrefix sink
                       (mkPrefixView byteOffset pid payloadUnitStart pesStart))
      | None => retState tt
      end in
    modifyParser (setEvidence (Some (markPrefixPublished parsed)))
  else retState tt.

Definition publishIncrementalEvidence (packet : list Z) (byteOffset : Z) :
    StateResult (Parser K * K) unit :=
  let! st := getState in
  let fresh :=
    let! parsed := liftResult (parseEvidence packet byteOffset) in
    match parsed with
    | None => retState tt
    | Some parsed => publishParsed packet byteOffset parsed
    end in
  match m_publishedEvidence st.1 with
  | Some published =>
      if ev_byteOffset (pe_view published) =? byteOffset then
        if pe_prefixPublished published then retState tt
        else
          let payloadOffset := pe_payloadOffset published in
          if Z.of_nat (length packet) <? payloadOffset + 3 then retState tt
          else
            let prefix := mkPrefixView byteOffset (ev_pid (pe_view published))
              (ev_payloadUnitStart (pe_view published)) (startCodeAt packet payloadOffset) in
            match m_incrementalSink st.1 with
            | Some sink =>
                let! _ := callSink (onPacketPrefix sink prefix) in
                modifyParser (setEvidence (Some (markPrefixPublished published)))
            | None => failState (internalError "null incremental sink")
            end
      else fresh
  | None => fresh
  end.

(** [parsePacket]: the evidence is dereferenced without a test; a whole packet
    always has one ([parsePacket_published]). *)
Definition parsePacket (packet : list Z) (byteOffset : Z) : StateResult (Parser K * K) unit :=
  let! _ := publishIncrementalEvidence packet byteOffset in
  let! st := getState in
  match m_publishedEvidence st.1 with
  | None => failState (internalError "no published evidence")
  | Some prefix =>
      let view := pe_view prefix in
      let payload := if pe_hasPayload prefix
                     then drop (Z.to_nat (pe_payloadOffset prefix)) packet else [] in
      callSink (onPacket (mkPacketView byteOffset (ev_pid view) (ev_payloadUnitStart view)
        (ev_continuityCounter view) (ev_discontinuity view) (ev_pcr27Mhz view) payload))
  end.

(** ** Framing

    [push] works on the logical sequence "carry, then the input from
    [inputIndex] on". *)

Definition logicalByte (p : Parser K) (bytes : list Z) (inputIndex index : nat) : Z :=
  if (index <? length (m_carry p))%nat then m_carry p !!! index
  else bytes !!! (inputIndex + index - length (m_carry p))%nat.

Definition setCarry (carry : list Z) (offset : Z) (p : Parser K) : Parser K :=
  mkParser (m_incrementalSink p) carry offset (m_nextInputOffset p)
    (m_copiedPacketBytes p) (m_strideLocked p) (m_finished p) (m_finishFailure p)
    (m_publishedEvidence p) (m_continuity p).

Definition setLocked (locked : bool) (p : Parser K) : Parser K :=
  mkParser (m_incrementalSink p) (m_carry p) (m_carryOffset p) (m_nextInputOffset p)
    (m_copiedPacketBytes p) locked (m_finished p) (m_finishFailure p)
    (m_publishedEvidence p) (m_continuity p).

Definition setCopied (copied : Z) (p : Parser K) : Parser K :=
  mkParser (m_incrementalSink p) (m_carry p) (m_carryOffset p) (m_nextInputOffset p)
    copied (m_strideLocked p) (m_finished p) (m_finishFailure p)
    (m_publishedEvidence p) (m_continuity p).

Definition setNextInputOffset (offset : Z) (p : Parser K) : Parser K :=
  mkParser (m_incrementalSink p) (m_carry p) (m_carryOffset p) offset
    (m_copiedPacketBytes p) (m_strideLocked p) (m_finished p) (m_finishFailure p)
    (m_publishedEvidence p) (m_continuity p).

Definition setFinished (failed : option ErrorInfo) (p : Parser K) : Parser K :=
  mkParser (m_incrementalSink p) (m_carry p) (m_carryOffset p) (m_nextInputOffset p)
    (m_copiedPacketBytes p) (m_strideLocked p) true failed
    (m_publishedEvidence p) (m_continuity p).

(** The parser and the input index after [discardLogicalPrefix(count)]. *)
Definition discardLogicalPrefix (count : nat) (p : Parser K) (inputIndex : nat) : Parser K * nat :=
  if (count <? length (m_carry p))%nat
  then (setCarry (drop count (m_carry p)) (m_carryOffset p + Z.of_nat count) p, inputIndex)
  else (setCarry [] (m_carryOffset p) p, (inputIndex + (count - length (m_carry p)))%nat).

Definition retainLogicalTail (inputOffset : Z) (bytes : list Z) (inputIndex : nat) (p : Parser K) :
    Parser K :=
  let total := (length (m_carry p) + (length bytes - inputIndex))%nat in
  let keep := Nat.min PacketSize total in
  setCarry ((fun index => logicalByte p bytes inputIndex (total - keep + index)) <$> seq 0 keep)
    (inputOffset + Z.of_nat (length bytes) - Z.of_nat keep) p.

(** The acquisition loop: the first of [n] indices at and 188 bytes after
    which there is a sync byte. *)
Fixpoint findSync (n : nat) (byteAt : nat -> Z) (index : nat) : option nat :=
  match n with
  | O => None
  | S n' => if (byteAt index =? 0x47) && (byteAt (index + PacketSize)%nat =? 0x47)
            then Some index else findSync n' byteAt (S index)
  end.

(** What [push] does with bytes it keeps for the next call. *)
Definition publishCarry : StateResult (Parser K * K) unit :=
  fun st => match m_incrementalSink st.1 with
            | Some _ => publishIncrementalEvidence (m_carry st.1) (m_carryOffset st.1) st
            | None => (Success tt, st)
            end.

(** The [while (true)] loop; [None] when the fuel runs out, which
    [pushLoop_total] excludes for the fuel [push] gives. *)
Fixpoint pushLoop (fuel : nat) (inputOffset : Z) (bytes : list Z) (inputIndex : nat)
    (p : Parser K) (s : K) : option (Status * (Parser K * K)) :=
  match fuel with
  | O => None
  | S fuel' =>
      if negb (Nat.eqb (length (m_carry p)) 0) then
        let total := (length (m_carry p) + (length bytes - inputIndex))%nat in
        if m_strideLocked p then
          if (total <? PacketSize + 1)%nat then
            Some (publishCarry
              (setCarry (m_carry p ++ drop inputIndex bytes) (m_carryOffset p) p, s))
          else if negb (at_ (m_carry p) 0 =? 0x47) ||
                  negb (logicalByte p bytes inputIndex PacketSize =? 0x47) then
            match m_incrementalSink p, m_publishedEvidence p with
            | Some _, Some e =>
                if ev_byteOffset (pe_view e) =? m_carryOffset p
                then Some (invalidPacket
                  "MPEG-TS framing was lost after definitive packet-prefix publication", (p, s))
                else let '(p', index') := discardLogicalPrefix 1 (setLocked false p) inputIndex in
                     pushLoop fuel' inputOffset bytes index' p' s
            | _, _ =>
                let '(p', index') := discardLogicalPrefix 1 (setLocked false p) inputIndex in
                pushLoop fuel' inputOffset bytes index' p' s
            end
          else
            let packetScratch := logicalByte p bytes inputIndex <$> seq 0 PacketSize in
            let p' := setCopied (u64 (m_copiedPacketBytes p + 188)) p in
            let '(status, (p', s')) := parsePacket packetScratch (m_carryOffset p) (p', s) in
            let '(p', index') := discardLogicalPrefix PacketSize p' inputIndex in
            match status with
            | Failure _ => Some (status, (p', s'))
            | Success _ => pushLoop fuel' inputOffset bytes index' p' s'
            end
        else
          match findSync (total - PacketSize) (logicalByte p bytes inputIndex) 0 with
          | Some index =>
              let '(p', index') := discardLogicalPrefix index p inputIndex in
              pushLoop fuel' inputOffset bytes index' (setLocked true p') s
          | None => Some (Success tt, (retainLogicalTail inputOffset bytes inputIndex p, s))
          end
      else
        let remaining := drop inputIndex bytes in
        if m_strideLocked p then
          if (length remaining <? PacketSize + 1)%nat then
            Some (publishCarry
              (setCarry remaining (inputOffset + Z.of_nat inputIndex) p, s))
          else if negb (at_ remaining 0 =? 0x47) || negb (at_ remaining 188 =? 0x47) then
            pushLoop fuel' inputOffset bytes (inputIndex + 1)%nat (setLocked false p) s
          else
            let '(status, (p', s')) :=
              parsePacket (take PacketSize remaining) (inputOffset + Z.of_nat inputIndex) (p, s) in
            match status with
            | Failure _ => Some (status, (p', s'))
            | Success _ => pushLoop fuel' inputOffset bytes (inputIndex + PacketSize)%nat p' s'
            end
        else
          match findSync (length remaining - PacketSize) (fun index => remaining !!! index) 0 with
          | Some index =>
              pushLoop fuel' inputOffset bytes (inputIndex + index)%nat (setLocked true p) s
          | None => Some (Success tt, (retainLogicalTail inputOffset bytes inputIndex p, s))
          end
  end.

(** Every iteration consumes a byte or locks the stride. *)
Definition pushFuel (carry bytes : list Z) : nat := 2 * (length carry + length bytes) + 2.

Definition push (bytes : list Z) : StateResult (Parser K * K) unit :=
  fun '(p, s) =>
    if m_finished p
    then (invalidPacket "MPEG-TS parser cannot accept bytes after finish", (p, s))
    else if uint64_max - m_nextInputOffset p <? Z.of_nat (length bytes)
    then (invalidPacket "MPEG-TS absolute input offset overflow", (p, s))
    else
      let inputOffset := m_nextInputOffset p in
      let p' := setNextInputOffset (inputOffset + Z.of_nat (length bytes)) p in
      default (failure (internalError "out of fuel"), (p', s))
        (pushLoop (pushFuel (m_carry p) bytes) inputOffset bytes 0 p' s).

Definition finish : StateResult (Parser K * K) unit :=
  fun '(p, s) =>
    match m_finishFailure p with
    | Some e => (failure e, (p, s))
    | None =>
        if m_finished p then (Success tt, (p, s))
        else
          let p := setFinished None p in
          if Nat.eqb (length (m_carry p)) 0 then (Success tt, (p, s))
          else if negb (Nat.eqb (length (m_carry p)) PacketSize) || negb (at_ (m_carry p) 0 =? 0x47)
          then
            let e := invalidArgument "MPEG-TS parser finished with a truncated or unframed packet" in
            (failure e, (setFinished (Some e) p, s))
          else
            let '(status, (p', s')) := parsePacket (m_carry p) (m_carryOffset p) (p, s) in
            match status with
            | Failure e => (failure e, (setFinished (Some e) p', s'))
            | Success _ => (Success tt, (setEvidence None (setCarry [] (m_carryOffset p') p'), s'))
            end
    end.

(** ** Lemmas: a whole packet has evidence *)

Lemma parseEvidence_whole packet off :
  length packet = 188%nat -> parseEvidence packet off <> Success None.
Proof.
  intros Hl. unfold parseEvidence. rewrite Hl. change (Z.of_nat 188) with 188.
  repeat (case_match; try done). all: try (rewrite ?Z.ltb_lt, ?Z.ltb_ge in *; lia).
  destruct (parseAdaptation _ _) as [[? ?] | e]; cbn; [done |]. unfold failure. by destruct (ErrorInfo_ok e).
Qed.

Lemma parsePacket_published packet off (p : Parser K) s p' s' :
  length packet = 188%nat -> publishIncrementalEvidence packet off (p, s) = (Success tt, (p', s')) ->
  m_publishedEvidence p' <> None.
Proof.
  intros Hl. pose proof (parseEvidence_whole packet off Hl) as Hp.
  unfold publishIncrementalEvidence, publishParsed, bindState, getState, retState, failState, liftResult,
    modifyParser, modifyState, callSink. simpl.
  intros E. repeat (case_match; simplify_eq/=; try done); congruence.
Qed.

End Sinks.

End MediaTsPacketParser.
