(* ===== verification/TsPublication.v ===== *)
(** * Publishing a packet's evidence before the packet is whole

    What the incremental sink of [MediaTsPacketParser] is told about a packet
    depends on a prefix of it only: [publishIncrementalEvidence] on the bytes
    that have arrived, followed by the same call on more of them, makes the
    same calls of the sink and leaves the same state as the second alone
    ([publish_prefix]).  The framing of the next file rests on it. *)

From stdpp Require Import gmap.
From S2P Require Import Prelude MediaResult TsPacket TsParser.
Import MediaTsTransportPacketBuilder MediaTsPacketParser.

Local Open Scope Z_scope.

Module MediaTsPublication.

(** ** Lemmas: the evidence of a prefix *)

(** The second packet has the bytes of the first below [bound]. *)
Definition agree (packet packet' : list Z) (bound : Z) : Prop :=
  forall i, 0 <= i < bound -> at_ packet' i = at_ packet i /\ 0 <= at_ packet i.

Lemma agree_app a t : Forall (is_u 8) a -> agree a (a ++ t) (Z.of_nat (length a)).
Proof.
  intros Hb i Hi. unfold at_. rewrite !list_lookup_total_alt, lookup_app_l by lia.
  split; [done |]. destruct (lookup_lt_is_Some_2 a (Z.to_nat i)) as [x Ex]; [lia |].
  rewrite Ex. simpl. pose proof (proj1 (Forall_lookup _ _) Hb _ _ Ex) as Hx. unfold is_u in Hx. lia.
Qed.

Lemma agree_le a x b b' : agree a x b -> b' <= b -> agree a x b'.
Proof. intros H Hle i Hi. apply H. lia. Qed.

Lemma bind_agree {A B} (P : A -> Prop) (r r' : Result A) (k k' : A -> Result B) :
  r' = r -> (forall a, r = Success a -> P a) -> (forall a, P a -> k' a = k a) ->
  bindResult r' k' = bindResult r k.
Proof. intros -> HP Hk. destruct r as [a | e]; [apply Hk, HP | ]; done. Qed.

(** The bounds the parsing of an adaptation field that ends at [bound] keeps. *)
Definition within (bound cursor : Z) : Prop := 0 <= cursor <= bound.

Lemma require_le bound cursor count m u :
  within bound cursor -> bound < 2 ^ 64 -> require bound cursor count m = Success u ->
  count <= bound - cursor.
Proof.
  unfold within, require, invalidPacket. intros Hw Hb.
  unfold u64. rewrite Z.mod_small by lia.
  destruct (Z.leb_spec count (bound - cursor)); [lia | by intros ?%failure_not].
Qed.

Section Agree.
Context (a x : list Z) (bound : Z) (Hagree : agree a x bound) (Hbound : bound < 2 ^ 64).

Lemma parseClock_agree cursor : within bound cursor ->
  parseClock x bound cursor = parseClock a bound cursor /\
  forall clock cursor', parseClock a bound cursor = Success (clock, cursor') -> within bound cursor'.
Proof.
  intros Hw. unfold parseClock. destruct (require bound cursor 6 _) as [u | e] eqn:Er; cbn [bindResult].
  - pose proof (require_le _ _ _ _ _ Hw Hbound Er) as Hle. unfold within in *.
    rewrite !(fun i H => proj1 (Hagree i H)) by lia. split; [done |]. intros clock cursor'.
    case_match; [by intros ?%failure_not |]. case_match; [by intros ?%failure_not |].
    intros [= _ <-]. lia.
  - split; [done |]. by intros ? ? ?%failure_not.
Qed.

Lemma skipExtension_agree cursor : within bound cursor ->
  skipExtension x bound cursor = skipExtension a bound cursor /\
  forall cursor', skipExtension a bound cursor = Success cursor' -> within bound cursor'.
Proof.
  intros Hw. unfold skipExtension. destruct (require bound cursor 1 _) as [u | e] eqn:Er; cbn [bindResult].
  2: by split; [| intros ? ?%failure_not].
  pose proof (require_le _ _ _ _ _ Hw Hbound Er) as Hle. unfold within in *.
  destruct (Hagree cursor) as [-> Hpos]; [lia |].
  destruct (require bound (cursor + 1) (at_ a cursor) _) as [u' | e] eqn:Er2; cbn [bindResult].
  2: by split; [| intros ? ?%failure_not].
  apply require_le in Er2; [| unfold within; lia | done].
  destruct (Z.eqb_spec (at_ a cursor) 0) as [E0 | E0]; cbn [negb].
  { split; [done |]. intros ? [= <-]. lia. }
  rewrite (proj1 (Hagree (cursor + 1) ltac:(lia))). split; [done |].
  intros cursor' (? & _ & H)%bindResult_success. apply bindResult_success in H as (? & _ & H).
  apply bindResult_success in H as (? & _ & [= <-]). lia.
Qed.

Lemma checkStuffing_agree n cursor : 0 <= cursor -> cursor + Z.of_nat n <= bound ->
  checkStuffing n x cursor = checkStuffing n a cursor.
Proof.
  revert cursor. induction n as [| n IH]; intros cursor H0 Hn; [done |]. cbn [checkStuffing].
  rewrite (proj1 (Hagree cursor ltac:(lia))). case_match; [done |]. apply IH; lia.
Qed.

(** A field the flags may leave out. *)
Lemma step_agree {B} (b : bool) (r r' : Result Z) cursor (k k' : Z -> Result B) :
  within bound cursor ->
  (r' = r /\ forall c, r = Success c -> within bound c) ->
  (forall c, within bound c -> k' c = k c) ->
  bindResult (if b then r' else Success cursor) k' = bindResult (if b then r else Success cursor) k.
Proof.
  intros Hw [-> Hr] Hk. apply (bind_agree (within bound)); [done | | done].
  destruct b; [done |]. by intros ? [= <-].
Qed.

Lemma require_step cursor count m : within bound cursor -> 0 <= count -> forall c,
  bindResult (require bound cursor count m) (fun _ => Success (cursor + count)) = Success c ->
  within bound c.
Proof.
  intros Hw Hc c (u & Hr & [= <-])%bindResult_success. apply require_le in Hr; [| done..].
  unfold within in *. lia.
Qed.

End Agree.

Lemma parseAdaptation_agree a x len :
  agree a x (5 + len) -> 0 < len <= 183 -> parseAdaptation x len = parseAdaptation a len.
Proof.
  intros Ha Hl. assert (Hb : 5 + len < 2 ^ 64) by lia. unfold parseAdaptation.
  rewrite (proj1 (Ha 5 ltac:(lia))).
  apply (bind_agree (fun '(_, c) => within (5 + len) c)).
  { case_match; [| done]. destruct (parseClock_agree a x _ Ha Hb 6) as [-> _]; [unfold within; lia | done]. }
  { intros [pcr c]. case_match; [| intros [= _ <-]; unfold within; lia].
    intros ([clock c'] & Hc & [= _ <-])%bindResult_success.
    by eapply (parseClock_agree a x _ Ha Hb 6); [unfold within; lia |]. }
  intros [pcr c1] Hc1. apply (step_agree (5 + len)); [done | |].
  { destruct (parseClock_agree a x _ Ha Hb c1 Hc1) as [-> Hcur]. split; [done |].
    intros c ([clock c'] & Hc & [= <-])%bindResult_success. by eapply Hcur. }
  intros c2 Hc2. apply (step_agree (5 + len)); [done | |].
  { split; [done |]. apply require_step; [done | done | lia]. }
  intros c3 Hc3. apply (step_agree (5 + len)); [done | |].
  { destruct (require (5 + len) c3 1 _) as [u | e] eqn:Er; cbn [bindResult]; [| by split; [| intros ? ?%failure_not]].
    apply require_le in Er; [| done..]. destruct (Ha c3) as [-> Hpos]; [unfold within in *; lia |].
    split; [done |]. apply require_step; [done | unfold within in *; lia | done]. }
  intros c4 Hc4. apply (step_agree (5 + len)); [done | by apply skipExtension_agree |].
  intros c5 Hc5. unfold within in *. rewrite (checkStuffing_agree a x (5 + len)) by (done || lia). done.
Qed.

(** The evidence of a prefix, when it has one, is that of the packet. *)
Lemma parseEvidence_app a t off :
  Forall (is_u 8) a -> parseEvidence a off = Success None \/
  parseEvidence (a ++ t) off = parseEvidence a off.
Proof.
  intros Hb. pose proof (agree_app a t Hb) as Ha. unfold parseEvidence.
  rewrite length_app, Nat2Z.inj_add. set (size := Z.of_nat (length a)) in *.
  set (more := Z.of_nat (length t)). assert (0 <= more) by (unfold more; lia).
  destruct (Z.ltb_spec size 4); [by left |]. destruct (Z.ltb_spec (size + more) 4); [lia |].
  rewrite !(fun i H => proj1 (Ha i H)) by lia.
  destruct (negb (at_ a 0 =? 0x47)); [by right |]. destruct (flag (at_ a 1) 0x80); [by right |].
  destruct (flag (at_ a 3) 0xC0); [by right |].
  set (control := Z.land (Z.shiftr (at_ a 3) 4) 0x03). destruct (control =? 0); [by right |].
  destruct (negb (flag control 0x02)); [by right |].
  destruct (Z.ltb_spec size 5); [by left |]. destruct (Z.ltb_spec (size + more) 5); [lia |].
  destruct (Ha 4) as [-> Hpos]; [lia |].
  destruct (Z.ltb_spec 183 (at_ a 4)); [by right |]. do 2 (destruct (_ && _); [by right |]).
  destruct (Z.ltb_spec size (5 + at_ a 4)); [by left |].
  destruct (Z.ltb_spec (size + more) (5 + at_ a 4)); [lia |].
  destruct (Z.eqb_spec (at_ a 4) 0); [by right |]. right.
  rewrite (parseAdaptation_agree a); [done | | lia]. eapply agree_le; [done | lia].
Qed.

(** What [parseEvidence] finds. *)
Lemma parseEvidence_offset packet off parsed :
  parseEvidence packet off = Success (Some parsed) ->
  ev_byteOffset (pe_view parsed) = off /\ pe_prefixPublished parsed = false.
Proof.
  unfold parseEvidence.
  repeat (case_match; try (intros ?%failure_not; done); try done; try (intros [= <-]; done)).
  by intros ([d pcr] & _ & [= <-])%bindResult_success.
Qed.

Lemma parseEvidence_spec packet off parsed :
  Forall (is_u 8) packet -> parseEvidence packet off = Success (Some parsed) ->
  ev_byteOffset (pe_view parsed) = off /\ pe_prefixPublished parsed = false /\
  0 <= pe_payloadOffset parsed.
Proof.
  intros Hb. pose proof (agree_app packet [] Hb) as Ha. unfold parseEvidence.
  repeat (case_match; try (intros ?%failure_not; done); try done; try (intros [= <-]; done)).
  all: try (rewrite ?Z.ltb_lt, ?Z.ltb_ge in *; destruct (Ha 4) as [_ Hpos]; [lia |]).
  - intros [= <-]. simpl. split_and!; (done || lia).
  - intros ([d pcr] & _ & [= <-])%bindResult_success. simpl. split_and!; (done || lia).
Qed.

(** ** Lemmas: publishing a prefix, then more *)

Section Publish.
Context {K : Type} `{!MediaTsPacketSink K}.

(** [publishParsed] in two parts: the packet's bytes matter to the second only. *)
Definition publishHead (byteOffset : Z) (parsed : ParsedPacketEvidence) :
    StateResult (Parser K * K) unit :=
  fun '(p, s) =>
  let pid := ev_pid (pe_view parsed) in
  let counter := ev_continuityCounter (pe_view parsed) in
  let lost := match ev_discontinuity (pe_view parsed), m_continuity p !! pid with
              | false, Some last =>
                  negb (counter =? if pe_hasPayload parsed then Z.land (last + 1) 0x0F else last)
              | _, _ => false
              end in
  let '(r, s) :=
    if ev_discontinuity (pe_view parsed)
    then onContinuityEvent (mkContinuityEvent byteOffset pid DiscontinuityIndicator) s
    else if lost then onContinuityEvent (mkContinuityEvent byteOffset pid CounterLoss) s
    else (Success tt, s) in
  let p := if lost then setContinuity (delete pid (m_continuity p)) p else p in
  match r with
  | Failure e => (Failure e, (p, s))
  | Success _ =>
      let '(r, s) := match m_incrementalSink p with
                     | Some sink => onPacketEvidence sink (pe_view parsed) s
                     | None => (Success tt, s)
                     end in
      match r with
      | Failure e => (Failure e, (p, s))
      | Success _ =>
          (Success tt, (setEvidence (Some parsed) (setContinuity (<[pid := counter]> (m_continuity p)) p), s))
      end
  end.

Definition publishTail (packet : list Z) (byteOffset : Z) (parsed : ParsedPacketEvidence) :
    StateResult (Parser K * K) unit :=
  fun '(p, s) =>
  let start := ev_payloadUnitStart (pe_view parsed) in
  if negb start || negb (pe_hasPayload parsed) ||
     (pe_payloadOffset parsed + 3 <=? Z.of_nat (length packet))
  then
    let pesStart := start && pe_hasPayload parsed && startCodeAt packet (pe_payloadOffset parsed) in
    let '(r, s) := match m_incrementalSink p with
                   | Some sink => onPacketPrefix sink
                       (mkPrefixView byteOffset (ev_pid (pe_view parsed)) start pesStart) s
                   | None => (Success tt, s)
                   end in
    match r with
    | Failure e => (Failure e, (p, s))
    | Success _ => (Success tt, (setEvidence (Some (markPrefixPublished parsed)) p, s))
    end
  else (Success tt, (p, s)).

Lemma publishParsed_parts packet off parsed st :
  publishParsed packet off parsed st =
  match publishHead off parsed st with
  | (Success _, st') => publishTail packet off parsed st'
  | (Failure e, st') => (Failure e, st')
  end.
Proof.
  destruct st as [p s]. unfold publishParsed, publishHead, publishTail.
  unfold bindState, getState, retState, modifyParser, modifyState, callSink. simpl.
  destruct (ev_discontinuity (pe_view parsed)).
  - destruct (onContinuityEvent _ s) as [[u | e] s1]; simpl; [| done].
    destruct (m_incrementalSink p) as [sink |] eqn:Einc; simpl.
    + destruct (onPacketEvidence sink _ s1) as [[u' | e] s2]; simpl; [| done].
      case_match; [| done]. simpl. rewrite Einc. by destruct (onPacketPrefix sink _ s2) as [[? | ?] ?].
    + case_match; [| done]. simpl. by rewrite Einc.
  - destruct (m_continuity p !! ev_pid (pe_view parsed)) as [counter |]; [destruct (negb (_ =? _)) |];
      [destruct (onContinuityEvent _ s) as [[u | e] s1]; simpl; [| done] | |]; simpl.
    all: destruct (m_incrementalSink p) as [sink |] eqn:Einc;
      [destruct (onPacketEvidence sink _ _) as [[u' | e] s2]; simpl; [| done] |]; simpl.
    all: case_match; try done; simpl; rewrite Einc; try done.
    all: by destruct (onPacketPrefix sink _ s2) as [[? | ?] ?].
Qed.

(** What the first part leaves. *)
Lemma publishHead_success off parsed p s u p' s' :
  publishHead off parsed (p, s) = (Success u, (p', s')) ->
  m_publishedEvidence p' = Some parsed /\ m_incrementalSink p' = m_incrementalSink p.
Proof.
  unfold publishHead. intros E. repeat (case_match; simplify_eq/=; try done).
Qed.

Definition offsetsSound (e : option ParsedPacketEvidence) : Prop :=
  match e with Some published => 0 <= pe_payloadOffset published | None => True end.

Lemma startCode_app a t po : 0 <= po -> po + 3 <= Z.of_nat (length a) ->
  startCodeAt (a ++ t) po = startCodeAt a po.
Proof.
  intros H0 Hl. unfold startCodeAt, at_. rewrite !list_lookup_total_alt, !lookup_app_l by lia. done.
Qed.

(** The call on more bytes of a packet whose prefix has not been published. *)
Lemma publish_pending packet off published p s :
  m_publishedEvidence p = Some published -> ev_byteOffset (pe_view published) = off ->
  pe_prefixPublished published = false ->
  publishIncrementalEvidence packet off (p, s) =
  if Z.of_nat (length packet) <? pe_payloadOffset published + 3 then (Success tt, (p, s))
  else match m_incrementalSink p with
       | None => failState (internalError "null incremental sink") (p, s)
       | Some sink =>
           let '(r, s') := onPacketPrefix sink
             (mkPrefixView off (ev_pid (pe_view published)) (ev_payloadUnitStart (pe_view published))
                (startCodeAt packet (pe_payloadOffset published))) s in
           match r with
           | Failure e => (Failure e, (p, s'))
           | Success _ => (Success tt, (setEvidence (Some (markPrefixPublished published)) p, s'))
           end
       end.
Proof.
  intros E <- Hp. unfold publishIncrementalEvidence, bindState, getState. cbn [fst].
  rewrite E, Z.eqb_refl, Hp. case_match; [done |]. destruct (m_incrementalSink p) as [sink |]; [| done].
  unfold callSink, modifyParser, modifyState. by destruct (onPacketPrefix sink _ s) as [[? | ?] ?].
Qed.

Lemma publish_done packet off published p s :
  m_publishedEvidence p = Some published -> ev_byteOffset (pe_view published) = off ->
  pe_prefixPublished published = true ->
  publishIncrementalEvidence packet off (p, s) = (Success tt, (p, s)).
Proof.
  intros E <- Hp. unfold publishIncrementalEvidence, bindState, getState. cbn [fst].
  by rewrite E, Z.eqb_refl, Hp.
Qed.

Definition evidenceAt (e : option ParsedPacketEvidence) (off : Z) : bool :=
  match e with Some published => ev_byteOffset (pe_view published) =? off | None => false end.

Lemma publish_unseen packet off p s :
  evidenceAt (m_publishedEvidence p) off = false ->
  publishIncrementalEvidence packet off (p, s) =
  match parseEvidence packet off with
  | Failure e => (Failure e, (p, s))
  | Success None => (Success tt, (p, s))
  | Success (Some parsed) => publishParsed packet off parsed (p, s)
  end.
Proof.
  intros E. unfold publishIncrementalEvidence, bindState, getState, liftResult, retState. cbn [fst].
  unfold evidenceAt in E. destruct (m_publishedEvidence p) as [published |]; [rewrite E |];
    by destruct (parseEvidence packet off) as [[parsed |] | e].
Qed.

(** The second part on a prefix, then the call on more. *)
Lemma tail_prefix a t off parsed p s :
  m_incrementalSink p <> None -> m_publishedEvidence p = Some parsed ->
  ev_byteOffset (pe_view parsed) = off -> pe_prefixPublished parsed = false ->
  0 <= pe_payloadOffset parsed ->
  match publishTail a off parsed (p, s) with
  | (Failure e, st') => publishTail (a ++ t) off parsed (p, s) = (Failure e, st')
  | (Success _, st') =>
      publishIncrementalEvidence (a ++ t) off st' = publishTail (a ++ t) off parsed (p, s)
  end.
Proof.
  intros Hinc He Ho Hp H0. unfold publishTail. rewrite length_app, Nat2Z.inj_add.
  destruct (Z.leb_spec (pe_payloadOffset parsed + 3) (Z.of_nat (length a))) as [Hle | Hgt].
  - rewrite !orb_true_r, startCode_app by done. rewrite (proj2 (Z.leb_le _ (_ + _))) by lia.
    rewrite !orb_true_r. destruct (m_incrementalSink p) as [sink |]; [| done].
    destruct (onPacketPrefix sink _ s) as [[u | e] s1]; [| done]. by eapply publish_done.
  - rewrite !orb_false_r. destruct (ev_payloadUnitStart (pe_view parsed)) eqn:Es,
      (pe_hasPayload parsed) eqn:Eh; cbn [negb orb andb].
    1: { rewrite (publish_pending _ off parsed) by done. rewrite length_app, Nat2Z.inj_add.
         destruct (Z.ltb_spec (Z.of_nat (length a) + Z.of_nat (length t)) (pe_payloadOffset parsed + 3)),
           (Z.leb_spec (pe_payloadOffset parsed + 3) (Z.of_nat (length a) + Z.of_nat (length t)));
           try lia; [done |]. destruct (m_incrementalSink p) as [sink |]; [| done]. by rewrite Es. }
    all: destruct (m_incrementalSink p) as [sink |]; [| done];
      destruct (onPacketPrefix sink _ s) as [[u | e] s1]; [| done]; by eapply publish_done.
Qed.

(** Publishing what has arrived of a packet, then more of it, is publishing
    the longer part at once. *)
Lemma publish_prefix a t off p s :
  Forall (is_u 8) a -> m_incrementalSink p <> None -> offsetsSound (m_publishedEvidence p) ->
  match publishIncrementalEvidence a off (p, s) with
  | (Failure e, st') => publishIncrementalEvidence (a ++ t) off (p, s) = (Failure e, st')
  | (Success _, st') =>
      publishIncrementalEvidence (a ++ t) off st' = publishIncrementalEvidence (a ++ t) off (p, s)
  end.
Proof.
  intros Hb Hinc Hsound. destruct (evidenceAt (m_publishedEvidence p) off) eqn:Eat.
  - unfold evidenceAt in Eat. destruct (m_publishedEvidence p) as [published |] eqn:Ep; [| done].
    apply Z.eqb_eq in Eat. simpl in Hsound. destruct (pe_prefixPublished published) eqn:Epp.
    { by rewrite (publish_done a off published). }
    rewrite !(publish_pending _ off published p s) by done. rewrite length_app, Nat2Z.inj_add.
    destruct (Z.ltb_spec (Z.of_nat (length a)) (pe_payloadOffset published + 3)) as [Hlt | Hge].
    { rewrite (publish_pending _ off published p s) by done. by rewrite length_app, Nat2Z.inj_add. }
    destruct (Z.ltb_spec (Z.of_nat (length a) + Z.of_nat (length t)) (pe_payloadOffset published + 3)); [lia |].
    rewrite startCode_app by done. destruct (m_incrementalSink p) as [sink |]; [| done].
    destruct (onPacketPrefix sink _ s) as [[u | e] s1]; [| done]. by eapply publish_done.
  - rewrite !(publish_unseen _ off p s) by done.
    destruct (parseEvidence_app a t off Hb) as [-> | Eapp]; [by rewrite publish_unseen |].
    rewrite Eapp.
    destruct (parseEvidence a off) as [[parsed |] | e] eqn:Epe; [| by rewrite publish_unseen, Eapp | done].
    destruct (parseEvidence_spec a off parsed Hb Epe) as (Ho & Hp & H0).
    rewrite !publishParsed_parts. destruct (publishHead off parsed (p, s)) as [[u | e] [p1 s1]] eqn:Eh; [| done].
    apply publishHead_success in Eh as [He Hi].
    pose proof (tail_prefix a t off parsed p1 s1 ltac:(congruence) He Ho Hp H0) as H.
    by destruct (publishTail a off parsed (p1, s1)) as [[u' | e] st'].
Qed.

(** The packet the evidence is of. *)
Definition evidenceBelow (bound : Z) (e : option ParsedPacketEvidence) : Prop :=
  match e with Some published => ev_byteOffset (pe_view published) < bound | None => True end.

Lemma publish_evidence packet off p s u p' s' :
  publishIncrementalEvidence packet off (p, s) = (Success u, (p', s')) ->
  m_publishedEvidence p' = m_publishedEvidence p \/
  (exists published, m_publishedEvidence p' = Some published /\
     ev_byteOffset (pe_view published) = off /\
     ((exists old, m_publishedEvidence p = Some old /\ pe_payloadOffset published = pe_payloadOffset old) \/
      exists parsed, parseEvidence packet off = Success (Some parsed) /\
        pe_payloadOffset published = pe_payloadOffset parsed)).
Proof.
  destruct (evidenceAt (m_publishedEvidence p) off) eqn:Eat.
  - unfold evidenceAt in Eat. destruct (m_publishedEvidence p) as [published |] eqn:Ep; [| done].
    apply Z.eqb_eq in Eat. destruct (pe_prefixPublished published) eqn:Epp.
    { rewrite (publish_done _ _ published) by done. intros [= _ <- _]. left. done. }
    rewrite (publish_pending _ off published) by done. case_match; [intros [= _ <- _]; by left |].
    destruct (m_incrementalSink p) as [sink |]; [| unfold failState; by intros [= ?%failure_not]].
    destruct (onPacketPrefix sink _ s) as [[u' | e] s1]; [| done]. intros [= _ <- _]. right.
    eexists. split; [done |]. split; [done |]. left. eauto.
  - rewrite publish_unseen by done. destruct (parseEvidence packet off) as [[parsed |] | e] eqn:Epe; [| |done].
    2: { intros [= _ <- _]. by left. }
    destruct (parseEvidence_offset _ _ _ Epe) as [Ho _]. rewrite publishParsed_parts.
    destruct (publishHead off parsed (p, s)) as [[u' | e] [p1 s1]] eqn:Eh; [| done].
    apply publishHead_success in Eh as [He _]. unfold publishTail. intros E. right.
    repeat (case_match; simplify_eq/=; try done); eexists; (split; [done || exact He |]); eauto.
Qed.

Lemma publish_below packet off p s u p' s' bound :
  publishIncrementalEvidence packet off (p, s) = (Success u, (p', s')) ->
  evidenceBelow bound (m_publishedEvidence p) -> off < bound ->
  evidenceBelow bound (m_publishedEvidence p').
Proof.
  intros H Hb Ho. apply publish_evidence in H as [-> | (e & -> & He & _)]; [done |]. simpl. lia.
Qed.

Lemma publish_sound packet off p s u p' s' :
  publishIncrementalEvidence packet off (p, s) = (Success u, (p', s')) -> Forall (is_u 8) packet ->
  offsetsSound (m_publishedEvidence p) -> offsetsSound (m_publishedEvidence p').
Proof.
  intros H Hb Hs. apply publish_evidence in H as [-> | (e & -> & _ & [(old & E & Ho) | (new & E & Ho)])];
    [done | |]; simpl; rewrite Ho.
  - by rewrite E in Hs.
  - by apply (parseEvidence_spec packet off).
Qed.

End Publish.

End MediaTsPublication.
