(* ===== verification/TsFraming.v ===== *)
(** * Framing of a transport stream

    A reference definition of what [MediaTsPacketParser::push] does with the
    bytes it has not consumed ([scan]), written on one sequence without a carry
    buffer, and the proof that the zero-copy loop of the source implements it,
    with or without an incremental sink.  From it follow that the loop ends and
    that the result does not depend on how the stream is cut into calls; with
    an incremental sink the latter needs a stream that keeps its sync bytes,
    since the source then refuses to give up a packet it has announced. *)

From stdpp Require Import gmap.
From S2P Require Import Prelude MediaResult TsPacket TsParser TsPublication.
Import MediaTsTransportPacketBuilder MediaTsPacketParser MediaTsPublication.

Local Open Scope Z_scope.

Module MediaTsFraming.

Section Framing.
Context {K : Type} `{!MediaTsPacketSink K}.

(** The part of the state a packet can change. *)
Definition Core : Type := option ParsedPacketEvidence * gmap Z Z * K.

Definition coreOf (p : Parser K) (s : K) : Core := (m_publishedEvidence p, m_continuity p, s).

(** The parser's incremental sink. *)
Context (inc : option (MediaTsIncrementalPacketSink K)).

(** A parser that has nothing but that part. *)
Definition coreParser (c : Core) : Parser K :=
  mkParser inc [] 0 0 0 false false None c.1.1 c.1.2.

(** [parsePacket] and the publication of a kept prefix on that part. *)
Definition parseCore (packet : list Z) (offset : Z) (c : Core) : Status * Core :=
  let '(r, (p, s)) := parsePacket packet offset (coreParser c, c.2) in (r, coreOf p s).

Definition publishCore (packet : list Z) (offset : Z) (c : Core) : Status * Core :=
  let '(r, (p, s)) :=
    match inc with
    | Some _ => publishIncrementalEvidence packet offset (coreParser c, c.2)
    | None => (Success tt, (coreParser c, c.2))
    end in
  (r, coreOf p s).

(** Whether the packet at [offset] has been announced to the incremental sink. *)
Definition announced (offset : Z) (c : Core) : bool :=
  match inc with Some _ => evidenceAt c.1.1 offset | None => false end.

Definition withCore (c : Core) (p : Parser K) : Parser K :=
  setEvidence c.1.1 (setContinuity c.1.2 p).

(** The reference: the state is whether the stride is locked, the bytes not
    consumed yet and the offset of the first of them. *)
Fixpoint scan (fuel : nat) (locked : bool) (pending : list Z) (offset : Z) (c : Core) :
    option (Status * (bool * list Z * Z * Core)) :=
  match fuel with
  | O => None
  | S fuel' =>
      if locked then
        if (length pending <? 189)%nat then
          let '(r, c') := publishCore pending offset c in
          Some (r, (true, pending, offset, c'))
        else if (pending !!! 0%nat =? 0x47) && (pending !!! 188%nat =? 0x47) then
          let '(r, c') := parseCore (take 188 pending) offset c in
          match r with
          | Failure _ => Some (r, (true, drop 188 pending, offset + 188, c'))
          | Success _ => scan fuel' true (drop 188 pending) (offset + 188) c'
          end
        else if announced offset c then
          Some (invalidPacket "MPEG-TS framing was lost after definitive packet-prefix publication",
                (true, pending, offset, c))
        else scan fuel' false (drop 1 pending) (offset + 1) c
      else
        match findSync (length pending - 188) (fun i => pending !!! i) 0 with
        | Some i => scan fuel' true (drop i pending) (offset + Z.of_nat i) c
        | None =>
            let skip := (length pending - 188)%nat in
            Some (Success tt, (false, drop skip pending, offset + Z.of_nat skip, c))
        end
  end.

(** ** Lemmas: frame of [parsePacket] *)

Lemma publishHead_frame offset parsed (p : Parser K) s :
  m_incrementalSink p = inc ->
  publishHead offset parsed (p, s) =
  let '(r, (q, s')) := publishHead offset parsed (coreParser (coreOf p s), s) in
  (r, (withCore (coreOf q s') p, s')).
Proof.
  destruct p as [inc' carry off next copied locked fin ff e m]. simpl. intros ->.
  unfold publishHead, coreParser, coreOf, withCore. simpl.
  destruct (if ev_discontinuity (pe_view parsed) then onContinuityEvent _ _ else _) as [[u | err] s1];
    destruct (if ev_discontinuity (pe_view parsed) then false else _); simpl; try done.
  all: (destruct inc as [sink |]; simpl;
    [destruct (onPacketEvidence sink _ s1) as [[? | ?] ?]; done | done]).
Qed.

Lemma publishTail_frame packet offset parsed (p : Parser K) s :
  m_incrementalSink p = inc ->
  publishTail packet offset parsed (p, s) =
  let '(r, (q, s')) := publishTail packet offset parsed (coreParser (coreOf p s), s) in
  (r, (withCore (coreOf q s') p, s')).
Proof.
  destruct p as [inc' carry off next copied locked fin ff e m]. simpl. intros ->.
  unfold publishTail, coreParser, coreOf, withCore. simpl. case_match; [| done].
  destruct inc as [sink |]; [destruct (onPacketPrefix sink _ s) as [[? | ?] ?] |]; done.
Qed.

Lemma publishEvidence_frame packet offset (p : Parser K) s :
  m_incrementalSink p = inc ->
  publishIncrementalEvidence packet offset (p, s) =
  let '(r, (q, s')) := publishIncrementalEvidence packet offset (coreParser (coreOf p s), s) in
  (r, (withCore (coreOf q s') p, s')).
Proof.
  intros Hi.
  destruct (evidenceAt (m_publishedEvidence p) offset) eqn:Eat.
  - unfold evidenceAt in Eat. destruct p as [inc' carry off next copied locked fin ff e m].
    simpl in Hi, Eat. subst inc'. unfold coreParser, coreOf, withCore. simpl.
    destruct e as [published |]; [| done]. apply Z.eqb_eq in Eat.
    destruct (pe_prefixPublished published) eqn:Ep.
    { by rewrite !(publish_done _ _ published). }
    rewrite !(publish_pending _ offset published) by done. simpl. case_match; [done |].
    destruct inc as [sink |]; [| done]. by destruct (onPacketPrefix sink _ s) as [[? | ?] ?].
  - rewrite !publish_unseen by done. destruct (parseEvidence packet offset) as [[parsed |] | err].
    2: by destruct p.
    2: by destruct p.
    rewrite !publishParsed_parts, publishHead_frame by done.
    destruct (publishHead offset parsed (coreParser _, s)) as [[u | err] [q s1]] eqn:Eh; [| done].
    apply publishHead_success in Eh as [_ Hq]. simpl in Hq. rewrite (publishTail_frame _ _ _ (withCore _ p)) by done.
    rewrite (publishTail_frame _ _ _ q) by done.
    change (coreOf (withCore (coreOf q s1) p) s1) with (coreOf q s1).
    by destruct (publishTail packet offset parsed (coreParser _, s1)) as [r [q' s2]].
Qed.

Lemma parsePacket_frame packet offset (p : Parser K) s :
  m_incrementalSink p = inc ->
  parsePacket packet offset (p, s) =
  (let '(r, c) := parseCore packet offset (coreOf p s) in (r, (withCore c p, c.2))).
Proof.
  intros Hi. unfold parseCore, parsePacket, bindState, getState. rewrite publishEvidence_frame by done.
  change (coreOf p s).2 with s.
  destruct (publishIncrementalEvidence packet offset (coreParser (coreOf p s), s)) as [[u | e] [q s1]];
    [| done].
  change (m_publishedEvidence (withCore (coreOf q s1) p, s1).1) with (m_publishedEvidence q).
  cbn [fst]. destruct (m_publishedEvidence q) as [e |] eqn:Eq; [| done].
  unfold callSink. by destruct (onPacket _ s1) as [r s2].
Qed.

Lemma publishCarry_frame carry offset (p : Parser K) s :
  m_incrementalSink p = inc ->
  publishCarry (setCarry carry offset p, s) =
  let '(r, c) := publishCore carry offset (coreOf p s) in (r, (withCore c (setCarry carry offset p), c.2)).
Proof.
  intros Hi. unfold publishCarry, publishCore. cbn [fst m_incrementalSink setCarry m_carry m_carryOffset].
  rewrite Hi. destruct inc as [sink |] eqn:Einc; [| by destruct p]. rewrite publishEvidence_frame by (simpl; congruence).
  change (coreOf (setCarry carry offset p) s) with (coreOf p s). change (coreOf p s).2 with s.
  by destruct (publishIncrementalEvidence _ _ _) as [r [q s1]].
Qed.

(** With an incremental sink, the evidence kept is of a packet before [bound]. *)
Definition evidenceOk (bound : Z) (e : option ParsedPacketEvidence) : Prop :=
  inc <> None -> evidenceBelow bound e.

Lemma evidenceOk_le bound bound' e : evidenceOk bound e -> bound <= bound' -> evidenceOk bound' e.
Proof. intros H Hle Hi. specialize (H Hi). destruct e; simpl in *; [lia | done]. Qed.

Lemma parseCore_evidence packet offset c u c' bound :
  parseCore packet offset c = (Success u, c') -> evidenceOk bound c.1.1 -> offset < bound ->
  evidenceOk bound c'.1.1.
Proof.
  intros E H Ho Hi. specialize (H Hi). unfold parseCore, parsePacket, bindState, getState in E.
  destruct (publishIncrementalEvidence _ _ _) as [[u1 | e] [q s1]] eqn:Ep; [| by simplify_eq].
  eapply publish_below in Ep; [| exact H | exact Ho]. cbn [fst] in E.
  destruct (m_publishedEvidence q) as [e |] eqn:Eq; unfold callSink, failState in E.
  - destruct (onPacket _ s1) as [r s2]. injection E as _ <-. simpl. by rewrite Eq.
  - by injection E as ?%failure_not.
Qed.

Lemma publishCore_evidence packet offset c u c' bound :
  publishCore packet offset c = (Success u, c') -> evidenceOk bound c.1.1 -> offset < bound ->
  evidenceOk bound c'.1.1.
Proof.
  intros E H Ho Hi. specialize (H Hi). unfold publishCore in E. destruct inc as [sink |]; [| done].
  destruct (publishIncrementalEvidence _ _ _) as [[u1 | e] [q s1]] eqn:Ep; [| by simplify_eq].
  eapply publish_below in Ep; [| exact H | exact Ho]. by injection E as _ <-.
Qed.

Lemma announced_below offset c : evidenceOk offset c.1.1 -> announced offset c = false.
Proof.
  unfold evidenceOk, announced, evidenceAt. destruct inc as [sink |]; [| done]. intros H.
  specialize (H ltac:(done)). destruct c.1.1 as [e |]; [| done]. simpl in H. apply Z.eqb_neq. lia.
Qed.

(** ** Lemmas: the logical sequence *)

Lemma findSync_ext n f g i :
  (forall j, (i <= j < i + n + 188)%nat -> f j = g j) -> findSync n f i = findSync n g i.
Proof.
  revert i. induction n as [| n IH]; intros i H; [done |]. cbn [findSync]. unfold PacketSize.
  rewrite !H by lia. case_match; [done |]. apply IH. intros j Hj. apply H. lia.
Qed.

Lemma findSync_Some n f i j :
  findSync n f i = Some j ->
  (i <= j < i + n)%nat /\ f j = 0x47 /\ f (j + 188)%nat = 0x47.
Proof.
  revert i. induction n as [| n IH]; intros i; [done |]. cbn [findSync].
  unfold PacketSize. destruct (Z.eqb_spec (f i) 0x47); destruct (Z.eqb_spec (f (i + 188)%nat) 0x47);
    cbn [andb]; intros E; try (apply IH in E as (? & ? & ?); split_and!; (done || lia)).
  simplify_eq. split_and!; (done || lia).
Qed.

Lemma findSync_app n k f i :
  findSync (n + k) f i =
  match findSync n f i with Some j => Some j | None => findSync k f (i + n)%nat end.
Proof.
  revert i. induction n as [| n IH]; intros i; cbn [findSync Nat.add].
  { by rewrite Nat.add_0_r. }
  case_match; [done |]. rewrite IH. by replace (S i + n)%nat with (i + S n)%nat by lia.
Qed.

Lemma findSync_shift n f i k :
  findSync n f (i + k)%nat = (fun j => (j + k)%nat) <$> findSync n (fun j => f (j + k)%nat) i.
Proof.
  revert i. induction n as [| n IH]; intros i; [done |]. cbn [findSync].
  replace (i + k + PacketSize)%nat with (i + PacketSize + k)%nat by lia.
  case_match; [done |]. apply (IH (S i)).
Qed.

(** The bytes [push] still has to look at. *)
Definition pendingOf (p : Parser K) (bytes : list Z) (index : nat) : list Z :=
  m_carry p ++ drop index bytes.

Lemma logicalByte_pending (p : Parser K) bytes index i :
  (index <= length bytes)%nat ->
  logicalByte p bytes index i = pendingOf p bytes index !!! i.
Proof.
  intros Hi. unfold logicalByte, pendingOf. rewrite !list_lookup_total_alt.
  destruct (Nat.ltb_spec i (length (m_carry p))).
  - by rewrite lookup_app_l.
  - rewrite lookup_app_r, lookup_drop by done. do 2 f_equal. lia.
Qed.

Lemma logical_prefix (p : Parser K) bytes index n :
  (index <= length bytes)%nat -> (n <= length (pendingOf p bytes index))%nat ->
  logicalByte p bytes index <$> seq 0 n = take n (pendingOf p bytes index).
Proof.
  intros Hi Hn. apply list_eq_same_length with n; [by rewrite length_take, Nat.min_l |
    by rewrite length_fmap, length_seq |].
  intros i x y Hlt. rewrite list_lookup_fmap, lookup_seq_lt, lookup_take_lt by done.
  cbn [fmap option_fmap option_map]. intros Ex Ey. simplify_eq.
  rewrite logicalByte_pending by done. by rewrite (list_lookup_total_correct _ _ _ Ex) ||
    by rewrite (list_lookup_total_correct _ _ _ Ey).
Qed.

Lemma logical_suffix (p : Parser K) bytes index k n :
  (index <= length bytes)%nat -> length (pendingOf p bytes index) = (k + n)%nat ->
  (fun i => logicalByte p bytes index (k + i)) <$> seq 0 n = drop k (pendingOf p bytes index).
Proof.
  intros Hi Hn. apply list_eq_same_length with n; [rewrite length_drop; lia |
    by rewrite length_fmap, length_seq |].
  intros i x y Hlt. rewrite list_lookup_fmap, lookup_seq_lt, lookup_drop by done.
  cbn [fmap option_fmap option_map]. intros Ex Ey. simplify_eq.
  rewrite logicalByte_pending by done. by rewrite (list_lookup_total_correct _ _ _ Ex) ||
    by rewrite (list_lookup_total_correct _ _ _ Ey).
Qed.

(** Discarding drops a prefix of the logical sequence. *)
Lemma discard_pending count (p : Parser K) bytes index p' index' :
  discardLogicalPrefix count p index = (p', index') ->
  (index <= length bytes)%nat -> (count <= length (pendingOf p bytes index))%nat ->
  exists carry off, p' = setCarry carry off p /\
    carry ++ drop index' bytes = drop count (pendingOf p bytes index) /\
    (index' <= length bytes)%nat /\
    Z.of_nat index' - Z.of_nat (length carry) =
      Z.of_nat index - Z.of_nat (length (m_carry p)) + Z.of_nat count /\
    (length carry <= length (m_carry p) <= length carry + count)%nat /\
    (carry <> [] -> off = m_carryOffset p + Z.of_nat count).
Proof.
  unfold discardLogicalPrefix, pendingOf. rewrite length_app, length_drop.
  destruct (Nat.ltb_spec count (length (m_carry p))); intros [= <- <-] Hi Hc.
  - eexists _, _. split; [done |]. rewrite drop_app_le, length_drop by lia.
    split_and!; (done || lia).
  - eexists _, _. split; [done |]. rewrite drop_app_ge, drop_drop by lia.
    split_and!; (done || simpl; lia).
Qed.

(** ** Lemmas: the loop implements [scan] *)

(** What a call of the loop leaves behind, for a result of [scan]; a failed
    call drops the rest of its input. *)
Definition implements (next : Z) (fin : bool) (ff : option ErrorInfo)
    (x : option (Status * (Parser K * K))) (y : option (Status * (bool * list Z * Z * Core))) : Prop :=
  match y with
  | None => x = None
  | Some (Success _, (locked, rest, off, c)) =>
      exists copied,
        x = Some (Success tt, (mkParser inc rest off next copied locked fin ff c.1.1 c.1.2, c.2))
  | Some (Failure e, (_, _, _, c)) => exists p', x = Some (Failure e, (p', c.2)) /\ coreOf p' c.2 = c
  end.

(** The absolute offset of the first pending byte. *)
Definition offsetOf (base : Z) (index : nat) (p : Parser K) : Z :=
  base + Z.of_nat index - Z.of_nat (length (m_carry p)).

(** The state of the loop; only a packet some bytes of which were kept by an
    earlier call can have been announced. *)
Definition loopOk (base : Z) (bytes : list Z) (index : nat) (p : Parser K) : Prop :=
  m_incrementalSink p = inc /\ (index <= length bytes)%nat /\ (length (m_carry p) <= 188)%nat /\
  (m_carry p <> [] -> m_carryOffset p + Z.of_nat (length (m_carry p)) = base + Z.of_nat index) /\
  evidenceOk (offsetOf base index p + Z.of_nat (Nat.min 1 (length (m_carry p)))) (m_publishedEvidence p).

Lemma discard_loopOk count base bytes index (p : Parser K) p' index' :
  discardLogicalPrefix count p index = (p', index') ->
  loopOk base bytes index p -> (count <= length (pendingOf p bytes index))%nat ->
  loopOk base bytes index' p' /\ pendingOf p' bytes index' = drop count (pendingOf p bytes index) /\
  offsetOf base index' p' = offsetOf base index p + Z.of_nat count /\
  m_strideLocked p' = m_strideLocked p /\ (forall s, coreOf p' s = coreOf p s) /\
  m_nextInputOffset p' = m_nextInputOffset p /\ m_finished p' = m_finished p /\
  m_finishFailure p' = m_finishFailure p.
Proof.
  intros E (Hinc & Hi & Hc & Hoff & Hev) Hlen.
  destruct (discard_pending count p bytes index p' index' E Hi Hlen)
    as (carry & off & -> & Hp & Hi' & Hz & Hc' & Hoff').
  unfold loopOk, offsetOf in *. cbn [setCarry m_carry m_incrementalSink m_carryOffset m_publishedEvidence].
  split_and!; try (done || lia).
  - intros Hne. rewrite (Hoff' Hne). destruct (m_carry p) as [| b l] eqn:Ec.
    + destruct carry; [done | simpl in Hc'; lia].
    + specialize (Hoff ltac:(done)). lia.
  - eapply evidenceOk_le; [exact Hev |]. lia.
Qed.

Lemma discard_core count (p : Parser K) index p' index' s :
  discardLogicalPrefix count p index = (p', index') -> coreOf p' s = coreOf p s.
Proof. unfold discardLogicalPrefix. by case_match; intros [= <- _]. Qed.

(** The fields of the parser the loop does not touch. *)
Definition sameFrame (p p' : Parser K) : Prop :=
  m_nextInputOffset p' = m_nextInputOffset p /\ m_finished p' = m_finished p /\
  m_finishFailure p' = m_finishFailure p.

(** What the loop needs of the recursive call. *)
Definition Refines (fuel : nat) (base : Z) (bytes : list Z) : Prop :=
  forall index p s, loopOk base bytes index p ->
    implements (m_nextInputOffset p) (m_finished p) (m_finishFailure p)
      (pushLoop fuel base bytes index p s)
      (scan fuel (m_strideLocked p) (pendingOf p bytes index) (offsetOf base index p) (coreOf p s)).

Lemma refines_at fuel base bytes index p s locked pending offset c next fin ff :
  Refines fuel base bytes -> loopOk base bytes index p ->
  m_strideLocked p = locked -> pendingOf p bytes index = pending -> offsetOf base index p = offset ->
  coreOf p s = c -> m_nextInputOffset p = next -> m_finished p = fin -> m_finishFailure p = ff ->
  implements next fin ff (pushLoop fuel base bytes index p s) (scan fuel locked pending offset c).
Proof. intros H Hok <- <- <- <- <- <- <-. by apply H. Qed.

(** What is kept for the next call is published. *)
Lemma implements_publish (p : Parser K) s carry off :
  m_incrementalSink p = inc -> m_strideLocked p = true ->
  implements (m_nextInputOffset p) (m_finished p) (m_finishFailure p)
    (Some (publishCarry (setCarry carry off p, s)))
    (let '(r, c) := publishCore carry off (coreOf p s) in Some (r, (true, carry, off, c))).
Proof.
  intros Hi Hl. rewrite publishCarry_frame by done.
  destruct (publishCore carry off (coreOf p s)) as [[[] | e] c].
  - exists (m_copiedPacketBytes p). unfold withCore, setCarry, setEvidence, setContinuity. simpl. by rewrite Hi, Hl.
  - eexists. split; [done |]. by destruct c as [[? ?] ?].
Qed.

Lemma implements_keep p s carry off next fin ff copied locked :
  m_incrementalSink p = inc -> next = m_nextInputOffset p -> fin = m_finished p ->
  ff = m_finishFailure p -> locked = m_strideLocked p -> copied = m_copiedPacketBytes p ->
  setCarry carry off p =
  mkParser inc carry off next copied locked fin ff (coreOf p s).1.1 (coreOf p s).1.2.
Proof. destruct p; simpl. intros -> -> -> -> -> ->. done. Qed.

Lemma implements_lost next fin ff p s message x :
  implements next fin ff (Some (invalidPacket message, (p, s)))
    (Some (invalidPacket message, (x, coreOf p s))).
Proof.
  unfold implements. destruct x as [[? ?] ?].
  destruct (invalidPacket message) as [u | e] eqn:E; [by apply failure_not in E |]. by exists p.
Qed.

Lemma pendingOf_nil (p : Parser K) bytes index :
  length (m_carry p) = 0%nat -> pendingOf p bytes index = drop index bytes.
Proof. intros E. unfold pendingOf. by rewrite (nil_length_inv _ E). Qed.

Lemma withCore_fields c (p : Parser K) :
  m_incrementalSink (withCore c p) = m_incrementalSink p /\ m_carry (withCore c p) = m_carry p /\
  m_carryOffset (withCore c p) = m_carryOffset p /\ m_strideLocked (withCore c p) = m_strideLocked p /\
  sameFrame p (withCore c p) /\ coreOf (withCore c p) c.2 = c.
Proof. destruct c as [[e m] k]. done. Qed.

(** Keeping the tail when no sync was found. *)
Lemma retain_tail base bytes index (p : Parser K) :
  loopOk base bytes index p ->
  let n := length (pendingOf p bytes index) in
  retainLogicalTail base bytes index p =
  setCarry (drop (n - 188) (pendingOf p bytes index)) (offsetOf base index p + Z.of_nat (n - 188)) p.
Proof.
  intros (Hinc & Hi & Hc & Hoff & _). unfold retainLogicalTail, PacketSize, offsetOf.
  assert (En : (length (m_carry p) + (length bytes - index))%nat = length (pendingOf p bytes index))
    by (unfold pendingOf; by rewrite length_app, length_drop).
  rewrite En. set (n := length (pendingOf p bytes index)) in *. cbv zeta.
  replace (n - Nat.min 188 n)%nat with (n - 188)%nat by lia.
  rewrite logical_suffix by (fold n; lia). f_equal. lia.
Qed.

(** A lost sync byte with a carry. *)
Lemma refines_lost fuel base bytes index p s :
  Refines fuel base bytes -> loopOk base bytes index p -> length (m_carry p) <> 0%nat ->
  offsetOf base index p = m_carryOffset p ->
  implements (m_nextInputOffset p) (m_finished p) (m_finishFailure p)
    (match m_incrementalSink p, m_publishedEvidence p with
     | Some _, Some e =>
         if ev_byteOffset (pe_view e) =? m_carryOffset p
         then Some (invalidPacket
           "MPEG-TS framing was lost after definitive packet-prefix publication", (p, s))
         else let '(p', index') := discardLogicalPrefix 1 (setLocked false p) index in
              pushLoop fuel base bytes index' p' s
     | _, _ =>
         let '(p', index') := discardLogicalPrefix 1 (setLocked false p) index in
         pushLoop fuel base bytes index' p' s
     end)
    (if announced (m_carryOffset p) (coreOf p s) then
       Some (invalidPacket "MPEG-TS framing was lost after definitive packet-prefix publication",
             (true, pendingOf p bytes index, m_carryOffset p, coreOf p s))
     else scan fuel false (drop 1 (pendingOf p bytes index)) (m_carryOffset p + 1) (coreOf p s)).
Proof.
  intros IH Hok Hne Eo. pose proof Hok as (Hinc & _). rewrite Hinc. unfold announced. simpl.
  assert (Hgo : implements (m_nextInputOffset p) (m_finished p) (m_finishFailure p)
    (let '(p', index') := discardLogicalPrefix 1 (setLocked false p) index in
     pushLoop fuel base bytes index' p' s)
    (scan fuel false (drop 1 (pendingOf p bytes index)) (m_carryOffset p + 1) (coreOf p s))).
  { destruct (discardLogicalPrefix 1 (setLocked false p) index) as [p' index'] eqn:Ed.
    destruct (discard_loopOk 1 base bytes index (setLocked false p) p' index' Ed)
      as (H1 & H2 & H3 & H4 & H5 & H6 & H7 & H8); [done | unfold pendingOf; rewrite length_app; simpl; lia |].
    apply refines_at; try done. rewrite H3. by rewrite <- Eo. }
  destruct inc as [sink |]; [| done]. unfold evidenceAt. change (coreOf p s).1.1 with (m_publishedEvidence p).
  destruct (m_publishedEvidence p) as [e |]; [| done]. destruct (_ =? _); [apply (implements_lost _ _ _ p s) | done].
Qed.

(** One iteration with a carry, locked. *)
Lemma refines_locked_carry fuel base bytes index p s :
  Refines fuel base bytes -> loopOk base bytes index p ->
  m_strideLocked p = true -> length (m_carry p) <> 0%nat ->
  implements (m_nextInputOffset p) (m_finished p) (m_finishFailure p)
    (pushLoop (S fuel) base bytes index p s)
    (scan (S fuel) true (pendingOf p bytes index) (offsetOf base index p) (coreOf p s)).
Proof.
  intros IH Hok Hl Hne. pose proof Hok as (Hinc & Hi & Hc & Hoff & Hev). cbn [pushLoop scan].
  destruct (Nat.eqb_spec (length (m_carry p)) 0) as [| _]; [done |]. cbn [negb]. rewrite Hl.
  assert (En : (length (m_carry p) + (length bytes - index))%nat = length (pendingOf p bytes index))
    by (unfold pendingOf; by rewrite length_app, length_drop).
  assert (Hcn : m_carry p <> []) by (by intros E; rewrite E in Hne).
  assert (Eo : offsetOf base index p = m_carryOffset p) by (unfold offsetOf; rewrite <- Hoff by done; lia).
  rewrite En. unfold PacketSize. change (188 + 1)%nat with 189%nat.
  destruct (Nat.ltb_spec (length (pendingOf p bytes index)) 189) as [Hlt | Hge].
  { rewrite Eo. by apply implements_publish. }
  rewrite logicalByte_pending by done.
  replace (at_ (m_carry p) 0) with (pendingOf p bytes index !!! 0%nat).
  2: { unfold at_, pendingOf. simpl. destruct (m_carry p); [done |]. done. }
  destruct (Z.eqb_spec (pendingOf p bytes index !!! 0%nat) 0x47) as [E0 | E0];
    destruct (Z.eqb_spec (pendingOf p bytes index !!! 188%nat) 0x47) as [E1 | E1]; cbn [negb orb andb].
  2-4: rewrite Eo; by apply refines_lost.
  rewrite parsePacket_frame by done. rewrite logical_prefix by (done || lia). rewrite Eo.
  change (coreOf (setCopied _ p) s) with (coreOf p s).
  destruct (parseCore (take 188 (pendingOf p bytes index)) (m_carryOffset p) (coreOf p s)) as [r c] eqn:Epc.
  destruct (discardLogicalPrefix 188 _ index) as [p' index'] eqn:Ed.
  assert (H5c : coreOf p' c.2 = c) by (rewrite (discard_core _ _ _ _ _ _ Ed); by destruct c as [[? ?] ?]).
  destruct r as [u | e]; [| by exists p'].
  destruct (discard_loopOk 188 base bytes index _ p' index' Ed)
    as (H1 & H2 & H3 & H4 & H5 & H6 & H7 & H8); [| unfold pendingOf in *; simpl in *; lia |].
  { split_and!; try done. eapply parseCore_evidence; [exact Epc | exact Hev | ].
    change (m_carryOffset p < offsetOf base index p + Z.of_nat (Nat.min 1 (length (m_carry p)))). lia. }
  apply refines_at; try done; [by rewrite H4 |]. rewrite H3, <- Eo. done.
Qed.

(** One iteration without a carry, locked: the packet is parsed in place. *)
Lemma refines_locked_input fuel base bytes index p s :
  Refines fuel base bytes -> loopOk base bytes index p ->
  m_strideLocked p = true -> length (m_carry p) = 0%nat ->
  implements (m_nextInputOffset p) (m_finished p) (m_finishFailure p)
    (pushLoop (S fuel) base bytes index p s)
    (scan (S fuel) true (pendingOf p bytes index) (offsetOf base index p) (coreOf p s)).
Proof.
  intros IH Hok Hl Hne. pose proof Hok as (Hinc & Hi & Hc & Hoff & Hev). cbn [pushLoop scan].
  rewrite Hne, Hl. cbn [Nat.eqb negb]. rewrite pendingOf_nil by done.
  assert (Eo : offsetOf base index p = base + Z.of_nat index) by (unfold offsetOf; lia).
  rewrite Eo. unfold PacketSize. change (188 + 1)%nat with 189%nat.
  destruct (Nat.ltb_spec (length (drop index bytes)) 189) as [Hlt | Hge].
  { by apply implements_publish. }
  unfold at_. change (Z.to_nat 0) with 0%nat. change (Z.to_nat 188) with 188%nat.
  rewrite length_drop in Hge. apply nil_length_inv in Hne as Hnil.
  assert (Hev0 : evidenceOk (base + Z.of_nat index) (m_publishedEvidence p))
    by (rewrite Eo, Hne in Hev; by rewrite Z.add_0_r in Hev).
  assert (Hstep : forall n q, (n <= length bytes - index)%nat -> m_carry q = [] ->
    m_incrementalSink q = inc ->
    evidenceOk (base + Z.of_nat index + Z.of_nat n) (m_publishedEvidence q) -> loopOk base bytes (index + n) q /\
    pendingOf q bytes (index + n) = drop n (drop index bytes) /\
    offsetOf base (index + n) q = base + Z.of_nat index + Z.of_nat n).
  { intros n q Hn Hq Hqi Hqe. unfold loopOk, pendingOf, offsetOf. rewrite Hq, drop_drop. simpl.
    split_and!; try (done || lia). eapply evidenceOk_le; [exact Hqe | lia]. }
  destruct (Z.eqb_spec (drop index bytes !!! 0%nat) 0x47) as [E0 | E0];
    destruct (Z.eqb_spec (drop index bytes !!! 188%nat) 0x47) as [E1 | E1]; cbn [negb orb andb].
  2-4: rewrite announced_below by done;
    destruct (Hstep 1%nat (setLocked false p)) as (? & ? & ?);
    [lia | done | done | eapply evidenceOk_le; [exact Hev0 | lia] |]; by apply refines_at.
  rewrite parsePacket_frame by done.
  destruct (parseCore (take 188 (drop index bytes)) (base + Z.of_nat index) (coreOf p s)) as [r c] eqn:Epc.
  destruct (withCore_fields c p) as (F1 & F2 & F3 & F4 & (F5 & F6 & F7) & F8).
  destruct r as [u | e].
  - destruct (Hstep 188%nat (withCore c p)) as (? & ? & ?); [lia | congruence | congruence | |].
    { eapply parseCore_evidence; [exact Epc | | lia]. eapply evidenceOk_le; [exact Hev0 | lia]. }
    apply refines_at; solve [congruence | done].
  - by exists (withCore c p).
Qed.

(** One iteration in search of the stride. *)
Lemma refines_unlocked fuel base bytes index p s :
  Refines fuel base bytes -> loopOk base bytes index p -> m_strideLocked p = false ->
  implements (m_nextInputOffset p) (m_finished p) (m_finishFailure p)
    (pushLoop (S fuel) base bytes index p s)
    (scan (S fuel) false (pendingOf p bytes index) (offsetOf base index p) (coreOf p s)).
Proof.
  intros IH Hok Hl. pose proof Hok as (Hinc & Hi & Hc & Hoff & Hev). cbn [pushLoop scan]. rewrite Hl.
  assert (En : (length (m_carry p) + (length bytes - index))%nat = length (pendingOf p bytes index))
    by (unfold pendingOf; by rewrite length_app, length_drop).
  pose proof (retain_tail base bytes index p Hok) as Hretain. cbv zeta in Hretain.
  assert (Hnone : implements (m_nextInputOffset p) (m_finished p) (m_finishFailure p)
    (Some (Success tt, (retainLogicalTail base bytes index p, s)))
    (Some (Success tt, (false, drop (length (pendingOf p bytes index) - 188) (pendingOf p bytes index),
       offsetOf base index p + Z.of_nat (length (pendingOf p bytes index) - 188), coreOf p s)))).
  { exists (m_copiedPacketBytes p). rewrite Hretain. do 3 f_equal. by apply implements_keep. }
  unfold PacketSize. destruct (Nat.eqb_spec (length (m_carry p)) 0) as [E | E]; cbn [negb].
  - rewrite pendingOf_nil in * by done.
    destruct (findSync _ _ 0) as [i |] eqn:Ef; [| done]. apply findSync_Some in Ef as [Hlt _].
    rewrite length_drop in Hlt. apply refines_at; try done.
    + apply nil_length_inv in E. unfold loopOk, offsetOf in *. simpl. rewrite E in Hev |- *. split_and!; try (done || simpl; lia).
      eapply evidenceOk_le; [exact Hev | simpl; lia].
    + rewrite pendingOf_nil by done. by rewrite drop_drop.
    + unfold offsetOf. simpl. lia.
  - rewrite En. rewrite (findSync_ext _ (logicalByte p bytes index)
      (fun i => pendingOf p bytes index !!! i)) by (intros; by apply logicalByte_pending).
    destruct (findSync _ _ 0) as [i |] eqn:Ef; [| done]. apply findSync_Some in Ef as [Hlt _].
    destruct (discardLogicalPrefix i p index) as [p' index'] eqn:Ed.
    destruct (discard_loopOk i base bytes index p p' index' Ed)
      as (H1 & H2 & H3 & H4 & H5 & H6 & H7 & H8); [done | lia |]. apply refines_at; try done. apply H5.
Qed.

Lemma pushLoop_scan fuel base bytes : Refines fuel base bytes.
Proof.
  induction fuel as [| fuel IH]; intros index p s Hok; [done |].
  destruct (m_strideLocked p) eqn:Hl; [| by apply refines_unlocked].
  destruct (decide (length (m_carry p) = 0%nat)).
  - by apply refines_locked_input.
  - by apply refines_locked_carry.
Qed.

(** ** Lemmas: [scan] ends, and does not depend on the cut *)

Lemma scan_mono fuel k locked pending offset c y :
  scan fuel locked pending offset c = Some y -> scan (fuel + k) locked pending offset c = Some y.
Proof.
  revert locked pending offset c.
  induction fuel as [| fuel IH]; intros locked pending offset c; [done |]. cbn [scan Nat.add].
  repeat case_match; auto.
Qed.

Lemma scan_total fuel (locked : bool) pending offset c :
  (2 * length pending + (if locked then 1 else 2) <= fuel)%nat ->
  exists y, scan fuel locked pending offset c = Some y.
Proof.
  revert locked pending offset c.
  induction fuel as [| fuel IH]; intros locked pending offset c Hf; [destruct locked; lia |].
  cbn [scan]. destruct locked.
  - destruct (Nat.ltb_spec (length pending) 189); [case_match; eauto |]. case_match.
    + destruct (parseCore _ _ _) as [[u | e] c']; [| eauto]. apply IH. rewrite length_drop. lia.
    + case_match; [eauto |]. apply IH. rewrite length_drop. lia.
  - destruct (findSync _ _ _) as [i |]; [| eauto]. apply IH. rewrite length_drop. lia.
Qed.

(** Two fuels that are both enough give the same result. *)
Lemma scan_det f1 f2 locked pending offset c y1 y2 :
  scan f1 locked pending offset c = Some y1 -> scan f2 locked pending offset c = Some y2 -> y1 = y2.
Proof.
  intros H1%(scan_mono _ f2) H2%(scan_mono _ f1). rewrite Nat.add_comm in H2. congruence.
Qed.

(** ** Lemmas: a packet announced before it is whole *)

(** Once the stride is known, every packet that starts has its sync byte. *)
Definition syncAt (i : nat) (pending : list Z) : Prop :=
  forall k, (i + 188 * k < length pending)%nat -> pending !!! (i + 188 * k)%nat = 0x47.

Definition keepsSync (locked : bool) (pending : list Z) : Prop :=
  if locked then syncAt 0 pending
  else match findSync (length pending - 188) (fun i => pending !!! i) 0 with
       | Some i => syncAt i pending
       | None => True
       end.

(** What makes the announcement of a packet final. *)
Definition scanOk (locked : bool) (pending : list Z) (c : Core) : Prop :=
  inc <> None -> Forall (is_u 8) pending /\ offsetsSound c.1.1 /\ keepsSync locked pending.

Lemma syncAt_drop i n pending : syncAt (n + i) pending -> syncAt i (drop n pending).
Proof.
  intros H k Hk. rewrite length_drop in Hk. rewrite list_lookup_total_alt, lookup_drop.
  rewrite <- list_lookup_total_alt. replace (n + (i + 188 * k))%nat with (n + i + 188 * k)%nat by lia.
  apply H. lia.
Qed.

Lemma syncAt_next i pending : syncAt i pending -> syncAt (188 + i) pending.
Proof.
  intros H k Hk. replace (188 + i + 188 * k)%nat with (i + 188 * (S k))%nat by lia. apply H. lia.
Qed.

Lemma scanOk_none locked pending c : inc = None -> scanOk locked pending c.
Proof. by intros -> []. Qed.

Lemma inc_cases : inc = None \/ inc <> None.
Proof. destruct inc; [by right | by left]. Qed.

(** Sync is lost only without an incremental sink. *)
Lemma scanOk_lost pending c :
  scanOk true pending c -> (189 <= length pending)%nat ->
  (pending !!! 0%nat =? 0x47) && (pending !!! 188%nat =? 0x47) = false -> inc = None.
Proof.
  intros H Hl E. destruct inc_cases as [| Hi]; [done |]. destruct (H Hi) as (_ & _ & Hs).
  pose proof (Hs 0%nat) as H0. pose proof (Hs 1%nat) as H1. simpl in H0, H1.
  rewrite H0, H1 in E by lia. done.
Qed.

Lemma publishCore_none pending offset c : inc = None -> publishCore pending offset c = (Success tt, c).
Proof. unfold publishCore. intros ->. by destruct c as [[? ?] ?]. Qed.

Lemma publishCore_nil offset c :
  evidenceOk offset c.1.1 -> publishCore [] offset c = (Success tt, c).
Proof.
  intros H%announced_below. unfold publishCore, announced in *. destruct c as [[e m] k].
  destruct inc as [sink |]; [| done]. by rewrite publish_unseen.
Qed.

Lemma publish_coreParser packet offset c r q s :
  publishIncrementalEvidence packet offset (coreParser c, c.2) = (r, (q, s)) ->
  q = coreParser (coreOf q s).
Proof.
  rewrite publishEvidence_frame by done. change (coreOf (coreParser c) c.2) with (c.1.1, c.1.2, c.2).
  destruct (publishIncrementalEvidence _ _ _) as [r' [q' s']]. intros [= _ <- <-]. done.
Qed.

Lemma publishCore_prefix a t offset c :
  Forall (is_u 8) a -> offsetsSound c.1.1 ->
  match publishCore a offset c with
  | (Failure e, c') =>
      parseCore (a ++ t) offset c = (Failure e, c') /\ publishCore (a ++ t) offset c = (Failure e, c')
  | (Success _, c') =>
      parseCore (a ++ t) offset c' = parseCore (a ++ t) offset c /\
      publishCore (a ++ t) offset c' = publishCore (a ++ t) offset c
  end.
Proof.
  intros Hb Hs. destruct inc_cases as [Hi | Hi]; [by rewrite publishCore_none |].
  pose proof (publish_prefix a t offset (coreParser c) c.2 Hb Hi Hs) as H.
  unfold publishCore, parseCore, parsePacket, bindState. destruct inc as [sink |]; [| done].
  destruct (publishIncrementalEvidence a offset (coreParser c, c.2)) as [r [q s1]] eqn:Ep.
  apply publish_coreParser in Ep. destruct r as [u | e]; [| by rewrite H].
  change (coreOf q s1).2 with s1. by rewrite <- Ep, H.
Qed.

Lemma publishCore_sound packet offset c u c' :
  publishCore packet offset c = (Success u, c') -> Forall (is_u 8) packet ->
  offsetsSound c.1.1 -> offsetsSound c'.1.1.
Proof.
  intros E Hb Hs. destruct inc_cases as [Hi | Hi]; [rewrite publishCore_none in E by done; by injection E as _ <- |].
  unfold publishCore in E. destruct inc as [sink |]; [| done].
  destruct (publishIncrementalEvidence _ _ _) as [[u1 | e] [q s1]] eqn:Ep; [| done].
  eapply publish_sound in Ep; [| done | exact Hs]. by injection E as _ <-.
Qed.

Lemma parseCore_sound packet offset c u c' :
  parseCore packet offset c = (Success u, c') -> Forall (is_u 8) packet ->
  offsetsSound c.1.1 -> offsetsSound c'.1.1.
Proof.
  intros E Hb Hs. unfold parseCore, parsePacket, bindState, getState in E.
  destruct (publishIncrementalEvidence _ _ _) as [[u1 | e] [q s1]] eqn:Ep; [| by simplify_eq].
  eapply publish_sound in Ep; [| done | exact Hs]. cbn [fst] in E.
  destruct (m_publishedEvidence q) as [e |] eqn:Eq; unfold callSink, failState in E.
  - destruct (onPacket _ s1) as [r s2]. injection E as _ <-. simpl. by rewrite Eq.
  - by injection E as ?%failure_not.
Qed.

(** A packet whose beginning has been published, scanned with more input. *)
Lemma scan_published fuel a b offset c u c' :
  publishCore a offset c = (Success u, c') -> (length a < 189)%nat -> scanOk true (a ++ b) c ->
  scan fuel true (a ++ b) offset c' = scan fuel true (a ++ b) offset c.
Proof.
  intros Ep Hl Hok. destruct fuel as [| fuel]; [done |].
  destruct inc_cases as [Hi | Hi]; [rewrite publishCore_none in Ep by done; by simplify_eq |].
  destruct (Hok Hi) as (Hb & Hs & _). apply Forall_app in Hb as [Hb _]. cbn [scan].
  pose proof (publishCore_prefix a b offset c Hb Hs) as H. rewrite Ep in H. destruct H as [_ ->].
  destruct (Nat.ltb_spec (length (a ++ b)) 189); [done |]. case_match; [| by apply scanOk_lost in Hok].
  pose proof (publishCore_prefix a (take (188 - length a) b) offset c Hb Hs) as H'. rewrite Ep in H'.
  rewrite (take_app_ge a b) by lia. by destruct H' as [-> _].
Qed.

Lemma scan_refused fuel a b offset c e c' :
  publishCore a offset c = (Failure e, c') -> (length a < 189)%nat -> scanOk true (a ++ b) c ->
  exists x, scan (S fuel) true (a ++ b) offset c = Some (Failure e, (x, c')).
Proof.
  intros Ep Hl Hok. destruct inc_cases as [Hi | Hi]; [by rewrite publishCore_none in Ep |].
  destruct (Hok Hi) as (Hb & Hs & _). apply Forall_app in Hb as [Hb _]. cbn [scan].
  pose proof (publishCore_prefix a b offset c Hb Hs) as H. rewrite Ep in H. destruct H as [_ ->].
  destruct (Nat.ltb_spec (length (a ++ b)) 189); [eauto |]. case_match; [| by apply scanOk_lost in Hok].
  pose proof (publishCore_prefix a (take (188 - length a) b) offset c Hb Hs) as H'. rewrite Ep in H'.
  rewrite (take_app_ge a b) by lia. destruct H' as [-> _]. eauto.
Qed.

(** A packet parsed in a stream. *)
Lemma scanOk_packet a b offset c u c' :
  parseCore (take 188 a) offset c = (Success u, c') -> (189 <= length a)%nat ->
  scanOk true (a ++ b) c -> scanOk true (drop 188 a ++ b) c'.
Proof.
  intros E Hl H Hi. destruct (H Hi) as (Hb & Hs & Hk). split_and!.
  - rewrite <- drop_app_le by lia. by apply Forall_drop.
  - eapply parseCore_sound; [exact E | | done]. apply Forall_take. by apply Forall_app in Hb as [? _].
  - rewrite <- drop_app_le by lia. apply (syncAt_drop 0), syncAt_next, Hk.
Qed.

Lemma findSync_more a b i :
  findSync (length a - 188) (fun i => a !!! i) 0 = Some i ->
  findSync (length (a ++ b) - 188) (fun j => (a ++ b) !!! j) 0 = Some i.
Proof.
  intros Ef. pose proof (findSync_Some _ _ _ _ Ef) as [Hi _].
  rewrite (findSync_ext _ _ (fun j => (a ++ b) !!! j)) in Ef.
  2: { intros j Hj. rewrite !list_lookup_total_alt, lookup_app_l by lia. done. }
  rewrite length_app. replace (length a + length b - 188)%nat
    with (length a - 188 + length b)%nat by lia.
  by rewrite findSync_app, Ef.
Qed.

Lemma scanOk_found a b c i :
  findSync (length a - 188) (fun i => a !!! i) 0 = Some i -> scanOk false (a ++ b) c ->
  scanOk true (drop i a ++ b) c.
Proof.
  intros Ef H Hi. destruct (H Hi) as (Hb & Hs & Hk). unfold keepsSync in *.
  rewrite (findSync_more a b i Ef) in Hk. apply findSync_Some in Ef as [Hlt _].
  rewrite <- drop_app_le by lia. split_and!; [by apply Forall_drop | done |].
  apply (syncAt_drop 0). by rewrite Nat.add_0_r.
Qed.

(** Bytes in front of the retained tail are never looked at again. *)
Lemma findSync_retained a b :
  findSync (length a - 188) (fun i => a !!! i) 0 = None ->
  let skip := (length a - 188)%nat in
  findSync (length (a ++ b) - 188) (fun i => (a ++ b) !!! i) 0 =
  (fun j => (j + skip)%nat) <$>
    findSync (length (drop skip a ++ b) - 188) (fun i => (drop skip a ++ b) !!! i) 0.
Proof.
  intros Hn skip.
  destruct (decide (188 <= length a)%nat) as [Ha | Ha]; cycle 1.
  { assert (E : skip = 0%nat) by (unfold skip; lia). rewrite E, drop_0.
    clear Hn. destruct (findSync _ _ 0) as [j |]; simpl; [f_equal; lia | done]. }
  assert (El : (length (a ++ b) - 188)%nat = (skip + (length (drop skip a ++ b) - 188))%nat)
    by (rewrite !length_app, length_drop; unfold skip; lia).
  rewrite El, findSync_app.
  rewrite (findSync_ext skip _ (fun i => a !!! i)).
  2: { intros j Hj. rewrite !list_lookup_total_alt, lookup_app_l by (unfold skip in *; lia). done. }
  fold skip in Hn. rewrite Hn, (findSync_shift _ _ 0 skip). f_equal. apply findSync_ext.
  intros j Hj. rewrite <- (drop_app_le a b skip) by (unfold skip; lia).
  rewrite !list_lookup_total_alt, lookup_drop. do 2 f_equal. lia.
Qed.

Lemma scan_retained fuel a b offset c :
  findSync (length a - 188) (fun i => a !!! i) 0 = None ->
  let skip := (length a - 188)%nat in
  scan fuel false (drop skip a ++ b) (offset + Z.of_nat skip) c = scan fuel false (a ++ b) offset c.
Proof.
  intros Hn skip. destruct fuel as [| fuel]; [done |]. cbn [scan].
  rewrite (findSync_retained a b Hn). fold skip.
  assert (Hskip : (skip <= length a)%nat) by (unfold skip; lia).
  rewrite <- (drop_app_le a b skip) by done.
  destruct (findSync (length (drop skip (a ++ b)) - 188) (fun j => drop skip (a ++ b) !!! j) 0)
    as [i |]; cbn [fmap option_fmap option_map].
  - rewrite drop_drop, (Nat.add_comm skip i). f_equal. lia.
  - assert (El : (length (a ++ b) - 188)%nat = (skip + (length (drop skip (a ++ b)) - 188))%nat)
      by (rewrite length_drop, length_app; unfold skip; lia).
    rewrite El, drop_drop, Nat2Z.inj_add, Z.add_assoc. done.
Qed.

Lemma scanOk_retained a b c :
  findSync (length a - 188) (fun i => a !!! i) 0 = None -> scanOk false (a ++ b) c ->
  scanOk false (drop (length a - 188) a ++ b) c.
Proof.
  intros Hn H Hi. destruct (H Hi) as (Hb & Hs & Hk). unfold keepsSync in *.
  rewrite (findSync_retained a b Hn) in Hk. rewrite <- (drop_app_le a b) in * by lia.
  split_and!; [by apply Forall_drop | done |].
  clear Hn. destruct (findSync _ _ 0) as [i |]; [| done]. simpl in Hk. apply syncAt_drop. by rewrite Nat.add_comm.
Qed.

(** Scanning a prefix, then the rest of the input behind what it left. *)
Lemma scan_app fuel locked a b offset c locked' rest offset' c' f2 y :
  scan fuel locked a offset c = Some (Success tt, (locked', rest, offset', c')) ->
  scanOk locked (a ++ b) c ->
  scan f2 locked' (rest ++ b) offset' c' = Some y ->
  scan (fuel + f2) locked (a ++ b) offset c = Some y.
Proof.
  revert locked a offset c.
  induction fuel as [| fuel IH]; intros locked a offset c; [done |].
  intros H1 Hok H2. cbn [scan] in H1. destruct locked.
  - destruct (Nat.ltb_spec (length a) 189) as [Hlt | Hge].
    { destruct (publishCore a offset c) as [[u | e] c1] eqn:Ep; simplify_eq.
      rewrite (scan_published f2 rest b offset' c _ _ Ep Hlt Hok) in H2.
      rewrite Nat.add_comm. by apply scan_mono. }
    cbn [Nat.add scan]. destruct (Nat.ltb_spec (length (a ++ b)) 189) as [Hlt | _].
    { rewrite length_app in Hlt. lia. }
    assert (E0 : forall i, (i < 189)%nat -> (a ++ b) !!! i = a !!! i).
    { intros i Hi. by rewrite !list_lookup_total_alt, lookup_app_l by lia. }
    rewrite take_app_le, !drop_app_le by lia. rewrite !E0 by lia. case_match.
    + destruct (parseCore (take 188 a) offset c) as [[u | e] c1] eqn:Epc; [| done].
      apply IH; [done | | done]. by eapply scanOk_packet.
    + rewrite <- (E0 0%nat), <- (E0 188%nat) in H by lia.
      pose proof (scanOk_lost _ _ Hok ltac:(rewrite length_app; lia) H) as Hi.
      unfold announced in *. rewrite Hi in *. apply IH; [done | by apply scanOk_none | done].
  - destruct (findSync (length a - 188) (fun i => a !!! i) 0) as [i |] eqn:Ef; cycle 1.
    { simplify_eq. rewrite (scan_retained f2 a b offset c' Ef) in H2.
      rewrite Nat.add_comm. by apply scan_mono. }
    cbn [Nat.add scan]. rewrite (findSync_more a b i Ef).
    pose proof (findSync_Some _ _ _ _ Ef) as [Hi _].
    rewrite drop_app_le by lia. apply IH; [done | by apply scanOk_found | done].
Qed.

(** A packet that makes a sink fail does so with more input behind it. *)
Lemma scan_app_failure fuel locked a b offset c e x c' :
  scan fuel locked a offset c = Some (Failure e, (x, c')) -> scanOk locked (a ++ b) c ->
  exists x', scan fuel locked (a ++ b) offset c = Some (Failure e, (x', c')).
Proof.
  revert locked a offset c.
  induction fuel as [| fuel IH]; intros locked a offset c; [done |].
  intros H1 Hok. cbn [scan] in H1. destruct locked.
  - destruct (Nat.ltb_spec (length a) 189) as [Hlt | Hge].
    { destruct (publishCore a offset c) as [[u | e'] c1] eqn:Ep; [done |]. injection H1 as -> _ ->.
      by eapply scan_refused. }
    cbn [scan]. destruct (Nat.ltb_spec (length (a ++ b)) 189) as [Hlt | _].
    { rewrite length_app in Hlt. lia. }
    assert (E0 : forall i, (i < 189)%nat -> (a ++ b) !!! i = a !!! i).
    { intros i Hi. by rewrite !list_lookup_total_alt, lookup_app_l by lia. }
    rewrite take_app_le, !drop_app_le by lia. rewrite !E0 by lia. case_match.
    + destruct (parseCore (take 188 a) offset c) as [[u | e'] c1] eqn:Epc; [| simplify_eq; eauto].
      apply IH; [done |]. by eapply scanOk_packet.
    + rewrite <- (E0 0%nat), <- (E0 188%nat) in H by lia.
      pose proof (scanOk_lost _ _ Hok ltac:(rewrite length_app; lia) H) as Hi.
      unfold announced in *. rewrite Hi in *. apply IH; [done | by apply scanOk_none].
  - destruct (findSync (length a - 188) (fun i => a !!! i) 0) as [i |] eqn:Ef; [| done].
    cbn [scan]. rewrite (findSync_more a b i Ef). pose proof (findSync_Some _ _ _ _ Ef) as [Hi _].
    rewrite drop_app_le by lia. apply IH; [done | by apply scanOk_found].
Qed.

(** What a scan that succeeds leaves for the next one. *)
Lemma scan_rest fuel locked a offset c u locked' rest offset' c' :
  scan fuel locked a offset c = Some (Success u, (locked', rest, offset', c')) ->
  evidenceOk (offset + Z.of_nat (Nat.min 1 (length a))) c.1.1 ->
  (length rest <= 188)%nat /\ offset' + Z.of_nat (length rest) = offset + Z.of_nat (length a) /\
  evidenceOk (offset' + Z.of_nat (Nat.min 1 (length rest))) c'.1.1.
Proof.
  revert locked a offset c.
  induction fuel as [| fuel IH]; intros locked a offset c; [done |]. cbn [scan]. intros H Hev.
  destruct locked.
  - destruct (Nat.ltb_spec (length a) 189) as [Hlt | Hge].
    { destruct (publishCore a offset c) as [[u' | e] c1] eqn:Ep; simplify_eq. split_and!; [lia | lia |].
      destruct rest as [| z rest].
      - rewrite publishCore_nil in Ep; [by simplify_eq |]. simpl in Hev. by rewrite Z.add_0_r in Hev.
      - eapply publishCore_evidence; [exact Ep | exact Hev | simpl; lia]. }
    assert (Hle : evidenceOk (offset + 1) c.1.1) by (eapply evidenceOk_le; [exact Hev | lia]).
    case_match.
    + destruct (parseCore _ _ _) as [[u' | e] c1] eqn:Epc; [| done].
      pose proof (parseCore_evidence _ _ _ _ _ (offset + 1) Epc Hle ltac:(lia)) as Hle1.
      apply IH in H as (? & ? & ?); [| eapply evidenceOk_le; [exact Hle1 | lia]].
      rewrite length_drop in *. split_and!; (done || lia).
    + case_match; [by injection H as ?%failure_not |].
      apply IH in H as (? & ? & ?); [| eapply evidenceOk_le; [exact Hle | lia]].
      rewrite length_drop in *. split_and!; (done || lia).
  - destruct (findSync _ _ _) as [i |] eqn:Ef.
    + pose proof (findSync_Some _ _ _ _ Ef) as [Hi _].
      apply IH in H as (? & ? & ?); [| eapply evidenceOk_le; [exact Hev | rewrite length_drop; lia]].
      rewrite length_drop in *. split_and!; (done || lia).
    + simplify_eq. rewrite length_drop. split_and!; [lia | lia |].
      eapply evidenceOk_le; [exact Hev | lia].
Qed.

Lemma scan_scanOk fuel locked a b offset c u locked' rest offset' c' :
  scan fuel locked a offset c = Some (Success u, (locked', rest, offset', c')) ->
  scanOk locked (a ++ b) c -> scanOk locked' (rest ++ b) c'.
Proof.
  revert locked a offset c.
  induction fuel as [| fuel IH]; intros locked a offset c; [done |]. cbn [scan]. intros H Hok.
  destruct locked.
  - destruct (Nat.ltb_spec (length a) 189) as [Hlt | Hge].
    { destruct (publishCore a offset c) as [[u' | e] c1] eqn:Ep; simplify_eq. intros Hi.
      destruct (Hok Hi) as (Hb & Hs & Hk). split_and!; [done | | done].
      eapply publishCore_sound; [exact Ep | by apply Forall_app in Hb as [? _] | done]. }
    case_match.
    + destruct (parseCore _ _ _) as [[u' | e] c1] eqn:Epc; [| done]. eapply IH; [exact H |].
      by eapply scanOk_packet.
    + case_match; [by injection H as ?%failure_not |]. eapply IH; [exact H |].
      apply scanOk_none, (scanOk_lost (a ++ b) c Hok); [rewrite length_app; lia |].
      by rewrite !(list_lookup_total_alt (a ++ b)), !lookup_app_l, <- !list_lookup_total_alt by lia.
  - destruct (findSync _ _ _) as [i |] eqn:Ef.
    + eapply IH; [exact H |]. by apply scanOk_found.
    + simplify_eq. by apply scanOk_retained.
Qed.

(** ** The calls *)

(** A parser between two calls: at most a packet is kept, and the evidence
    published is of a packet before the kept bytes or of the one they begin. *)
Definition parserOk (p : Parser K) : Prop :=
  m_incrementalSink p = inc /\ m_finished p = false /\ m_finishFailure p = None /\
  (length (m_carry p) <= 188)%nat /\
  m_carryOffset p + Z.of_nat (length (m_carry p)) = m_nextInputOffset p /\
  evidenceOk (m_carryOffset p + Z.of_nat (Nat.min 1 (length (m_carry p)))) (m_publishedEvidence p).

(** The bytes to come, for a parser with an incremental sink: the stream keeps
    its sync bytes every 188 bytes once the stride has been found. *)
Definition inSync (p : Parser K) (bytes : list Z) : Prop :=
  inc <> None ->
  Forall (is_u 8) (m_carry p ++ bytes) /\ offsetsSound (m_publishedEvidence p) /\
  keepsSync (m_strideLocked p) (m_carry p ++ bytes).

(** What the caller can see of a call: its status, the evidence, continuity
    counters and sink it leaves and, unless the stream failed, the parser up to
    the statistic [copiedPacketByteCount]. *)
Definition visible (x : Status * (Parser K * K)) : Status * Core * option (Parser K) :=
  let '(r, (p, s)) := x in
  (r, coreOf p s, match r with Success _ => Some (setCopied 0 p) | Failure _ => None end).

Definition visibleScan (next : Z) (y : Status * (bool * list Z * Z * Core)) :
    Status * Core * option (Parser K) :=
  let '(r, (locked, rest, off, c)) := y in
  (r, c, match r with
         | Success _ => Some (mkParser inc rest off next 0 locked false None c.1.1 c.1.2)
         | Failure _ => None
         end).

Lemma pushLoop_total base bytes index (p : Parser K) s fuel :
  loopOk base bytes index p -> (2 * length (pendingOf p bytes index) + 2 <= fuel)%nat ->
  exists y, pushLoop fuel base bytes index p s = Some y.
Proof.
  intros Hok Hf. pose proof (pushLoop_scan fuel base bytes index p s Hok) as H.
  destruct (scan_total fuel (m_strideLocked p) (pendingOf p bytes index) (offsetOf base index p)
    (coreOf p s)) as [[[u | e] [[[l rest] off] c]] E]; [destruct (m_strideLocked p); lia | |];
    rewrite E in H; simpl in H; [destruct H as [? H] | destruct H as (? & H & _)]; eauto.
Qed.

Lemma push_visible (p : Parser K) s bytes :
  parserOk p -> m_nextInputOffset p + Z.of_nat (length bytes) <= uint64_max ->
  exists fuel y, scan fuel (m_strideLocked p) (m_carry p ++ bytes) (m_carryOffset p) (coreOf p s) = Some y /\
    visible (push bytes (p, s)) = visibleScan (m_nextInputOffset p + Z.of_nat (length bytes)) y.
Proof.
  intros (Hinc & Hfin & Hff & Hc & Hoff & Hev) Hmax. unfold push. rewrite Hfin.
  destruct (Z.ltb_spec (uint64_max - m_nextInputOffset p) (Z.of_nat (length bytes))); [lia |].
  set (next := m_nextInputOffset p + Z.of_nat (length bytes)).
  set (p0 := setNextInputOffset next p). set (fuel := pushFuel (m_carry p) bytes).
  assert (Hok : loopOk (m_nextInputOffset p) bytes 0 p0).
  { unfold loopOk, offsetOf, p0.
    cbn [setNextInputOffset m_incrementalSink m_carry m_carryOffset m_publishedEvidence].
    split_and!; try (done || lia).
    eapply evidenceOk_le; [exact Hev | lia]. }
  pose proof (pushLoop_scan fuel (m_nextInputOffset p) bytes 0%nat p0 s Hok) as H0.
  replace (offsetOf (m_nextInputOffset p) 0 p0) with (m_carryOffset p) in H0
    by (unfold offsetOf, p0; simpl; lia).
  change (pendingOf p0 bytes 0) with (m_carry p ++ bytes) in H0.
  change (m_strideLocked p0) with (m_strideLocked p) in H0.
  change (coreOf p0 s) with (coreOf p s) in H0.
  destruct (scan_total fuel (m_strideLocked p) (m_carry p ++ bytes) (m_carryOffset p) (coreOf p s))
    as [y Ey].
  { unfold fuel, pushFuel. rewrite length_app. destruct (m_strideLocked p); lia. }
  exists fuel, y. split; [done |]. rewrite Ey in H0.
  destruct y as [[[] | e] [[[l rest] off] c]]; simpl in H0.
  - destruct H0 as [copied ->]. simpl. rewrite Hfin, Hff. unfold coreOf. simpl.
    by destruct c as [[? ?] ?].
  - destruct H0 as (p' & -> & Hc'). simpl. by rewrite Hc'.
Qed.

(** Calls in sequence, as long as they succeed. *)
Fixpoint pushAll (chunks : list (list Z)) (st : Parser K * K) : Status * (Parser K * K) :=
  match chunks with
  | [] => (Success tt, st)
  | c :: cs => match push c st with
               | (Success _, st') => pushAll cs st'
               | (Failure e, st') => (Failure e, st')
               end
  end.

(** A successful call leaves a parser between two calls. *)
Lemma visible_parserOk next (y : Status * (bool * list Z * Z * Core)) p1 s1 u :
  visible (Success u, (p1, s1)) = visibleScan next y ->
  exists locked rest off c, y = (Success u, (locked, rest, off, c)) /\
    coreOf p1 s1 = c /\ m_strideLocked p1 = locked /\ m_carry p1 = rest /\ m_carryOffset p1 = off /\
    m_nextInputOffset p1 = next /\ m_incrementalSink p1 = inc /\ m_finished p1 = false /\
    m_finishFailure p1 = None.
Proof.
  destruct y as [[u' | e] [[[l rest] off] c]]; [| done]. intros H.
  exists l, rest, off, c. destruct p1. unfold visible, visibleScan, setCopied in H. simpl in *.
  injection H. intros. subst. done.
Qed.

Lemma push_app (p : Parser K) s a b :
  parserOk p -> inSync p (a ++ b) ->
  m_nextInputOffset p + Z.of_nat (length a) + Z.of_nat (length b) <= uint64_max ->
  match push a (p, s) with
  | (Failure e, (p1, s1)) => visible (push (a ++ b) (p, s)) = (Failure e, coreOf p1 s1, None)
  | (Success _, (p1, s1)) =>
      parserOk p1 /\ inSync p1 b /\ m_nextInputOffset p1 = m_nextInputOffset p + Z.of_nat (length a) /\
      visible (push (a ++ b) (p, s)) = visible (push b (p1, s1))
  end.
Proof.
  intros Hok Hsync Hmax. unfold inSync in Hsync. rewrite app_assoc in Hsync.
  destruct (push_visible p s a Hok ltac:(lia)) as (f1 & y1 & E1 & V1).
  destruct (push_visible p s (a ++ b) Hok ltac:(rewrite length_app; lia)) as (f2 & y2 & E2 & V2).
  rewrite app_assoc in E2. destruct (push a (p, s)) as [[u | e] [p1 s1]].
  - destruct (visible_parserOk _ _ _ _ _ V1)
      as (l & rest & off & c & -> & Ec & El & Er & Eo & En & Hi & Hf & Hff).
    destruct (scan_rest _ _ _ _ _ _ _ _ _ _ E1) as (Hr & Ho & Hev).
    { destruct Hok as (_ & _ & _ & _ & _ & Hev). eapply evidenceOk_le; [exact Hev |].
      rewrite length_app. lia. }
    pose proof (scan_scanOk _ _ _ b _ _ _ _ _ _ _ E1 Hsync) as Hsync1.
    assert (Hok1 : parserOk p1).
    { unfold parserOk in *. rewrite length_app in Ho. split_and!; try done; rewrite Er; try lia.
      rewrite Eo. by rewrite <- Ec in Hev. }
    split; [done |]. split; [unfold inSync; by rewrite Er, El, <- Ec in * |]. split; [done |].
    destruct (push_visible p1 s1 b Hok1 ltac:(lia)) as (f3 & y3 & E3 & V3).
    rewrite V2, V3, En, length_app, Nat2Z.inj_add, Z.add_assoc. f_equal.
    rewrite El, Er, Eo, Ec in E3. destruct u.
    pose proof (scan_app _ _ _ b _ _ _ _ _ _ _ _ E1 Hsync E3) as E4. by eapply scan_det.
  - destruct y1 as [[u' | e'] [[[l rest] off] c]]; simpl in V1; simplify_eq.
    destruct (scan_app_failure _ _ _ b _ _ _ _ _ E1 Hsync) as [[[? ?] ?] E3].
    rewrite V2. by rewrite (scan_det _ _ _ _ _ _ _ _ E2 E3).
Qed.

Lemma pushAll_visible (p : Parser K) s chunks :
  parserOk p -> inSync p (concat chunks) -> chunks <> [] ->
  m_nextInputOffset p + Z.of_nat (length (concat chunks)) <= uint64_max ->
  visible (pushAll chunks (p, s)) = visible (push (concat chunks) (p, s)).
Proof.
  destruct chunks as [| a cs]; [done |]. intros Hok Hsync _. revert p s a Hok Hsync.
  induction cs as [| b cs IH]; intros p s a Hok Hsync Hmax.
  { cbn [pushAll concat] in *. rewrite app_nil_r. by destruct (push a (p, s)) as [[[] | e] [p1 s1]]. }
  cbn [pushAll concat] in Hsync, Hmax. rewrite length_app in Hmax.
  pose proof (push_app p s a (b ++ concat cs) Hok Hsync ltac:(lia)) as H.
  change (pushAll (a :: b :: cs) (p, s)) with
    (match push a (p, s) with
     | (Success _, st') => pushAll (b :: cs) st'
     | (Failure e, st') => (Failure e, st')
     end).
  change (concat (a :: b :: cs)) with (a ++ b ++ concat cs).
  destruct (push a (p, s)) as [[u | e] [p1 s1]]; [| by rewrite H].
  destruct H as (Hok1 & Hsync1 & En & ->). apply IH; [done | done |].
  change (concat (b :: cs)) with (b ++ concat cs). lia.
Qed.

(** C11: The parser's behaviour does not depend on how the stream is cut: any
    sequence of [push] calls gives the same status, the same calls of the sink
    and of the incremental sink (observed through their state), the same
    published evidence and continuity state and, on success, the same parser
    (up to the copied-bytes statistic) as the same bytes cut in any other way.
    A parser with an incremental sink, the one the input session creates, must
    have a stream that keeps its sync bytes ([inSync]): a packet announced from
    its first bytes is an error when its framing turns out lost. *)
Theorem push_chunk_independent (p : Parser K) s chunks chunks' :
  parserOk p -> concat chunks = concat chunks' -> chunks <> [] -> chunks' <> [] ->
  inSync p (concat chunks) ->
  m_nextInputOffset p + Z.of_nat (length (concat chunks)) <= uint64_max ->
  visible (pushAll chunks (p, s)) = visible (pushAll chunks' (p, s)).
Proof.
  intros Hok E Hne Hne' Hsync Hmax. rewrite (pushAll_visible p s chunks), E by done.
  symmetry. by apply pushAll_visible; rewrite <- ?E.
Qed.

(** C38: The zero-copy loop of [push] is equivalent to the reference scan of
    the pending bytes, with or without an incremental sink: it always returns,
    with the reference's status, sink state, published evidence, continuity
    state and retained bytes. *)
Theorem push_refines_scan (p : Parser K) s bytes :
  parserOk p -> m_nextInputOffset p + Z.of_nat (length bytes) <= uint64_max ->
  exists y, scan (pushFuel (m_carry p) bytes) (m_strideLocked p) (m_carry p ++ bytes)
              (m_carryOffset p) (coreOf p s) = Some y /\
    visible (push bytes (p, s)) = visibleScan (m_nextInputOffset p + Z.of_nat (length bytes)) y.
Proof.
  intros Hok Hmax. destruct (push_visible p s bytes Hok Hmax) as (f & y & E & V).
  destruct (scan_total (pushFuel (m_carry p) bytes) (m_strideLocked p) (m_carry p ++ bytes)
    (m_carryOffset p) (coreOf p s)) as [y' E'].
  { unfold pushFuel. rewrite length_app. destruct (m_strideLocked p); lia. }
  exists y'. split; [done |]. by rewrite (scan_det _ _ _ _ _ _ _ _ E' E).
Qed.

End Framing.

(** ** A sink that records the calls it gets and accepts them all *)

Inductive SinkEvent :=
  | PacketEvent (v : MediaTsPacketView)
  | ContinuityEvent (e : MediaTsContinuityEvent).

#[export] Instance recordingSink : MediaTsPacketSink (list SinkEvent) := {
  onPacket v l := (Success tt, l ++ [PacketEvent v]);
  onContinuityEvent e l := (Success tt, l ++ [ContinuityEvent e]);
}.

(** The parser [create] returns without incremental sink. *)
Definition freshParser {K} : Parser K := mkParser None [] 0 0 0 false false None None ∅.

Lemma freshParser_ok {K} : parserOk (K := K) None freshParser.
Proof. unfold parserOk. simpl. split_and!; (done || lia). Qed.

Lemma freshParser_created {K} : create (S := K) 188 None = Success freshParser.
Proof. done. Qed.

(** The same with an incremental sink: [MediaTsInputSession] creates it so. *)
Definition announcingParser {K} (inc : MediaTsIncrementalPacketSink K) : Parser K :=
  mkParser (Some inc) [] 0 0 0 false false None None ∅.

Lemma announcingParser_ok {K} inc : parserOk (K := K) (Some inc) (announcingParser inc).
Proof. unfold parserOk. simpl. split_and!; (done || lia). Qed.

Lemma announcingParser_created {K} inc :
  create (S := K) 188 (Some inc) = Success (announcingParser inc).
Proof. done. Qed.

(** A sink that records the announcements too. *)
Inductive SinkCall :=
  | DeliveryCall (e : SinkEvent)
  | EvidenceCall (v : MediaTsPacketEvidenceView)
  | PrefixCall (v : MediaTsPacketPrefixView).

#[export] Instance callRecordingSink : MediaTsPacketSink (list SinkCall) := {
  onPacket v l := (Success tt, l ++ [DeliveryCall (PacketEvent v)]);
  onContinuityEvent e l := (Success tt, l ++ [DeliveryCall (ContinuityEvent e)]);
}.

Definition announcementRecorder : MediaTsIncrementalPacketSink (list SinkCall) :=
  mkIncrementalSink _ (fun v l => (Success tt, l ++ [EvidenceCall v]))
    (fun v l => (Success tt, l ++ [PrefixCall v])).

(** Two packets and a stray byte in front, cut at arbitrary places. *)
Definition sampleStream : list (list Z) :=
  [[0x00]; 0x47 :: 0x40 :: 0x11 :: 0x10 :: replicate 100 0x00; replicate 84 0x01 ++ [0x47; 0x00];
   0x11 :: 0x12 :: replicate 184 0x02].

(** The second packet is announced from its first five bytes, the jump of its
    counter included; it is delivered only once it is whole. *)
Example sample_announced :
  let '(_, (_, calls)) := pushAll (take 3 sampleStream ++ [[0x11; 0x12; 0x02]])
                            (announcingParser announcementRecorder, @nil SinkCall) in
  drop 3 calls =
    [DeliveryCall (ContinuityEvent (mkContinuityEvent 189 17 CounterLoss));
     EvidenceCall (mkEvidenceView 189 17 false 2 false None);
     PrefixCall (mkPrefixView 189 17 false false)].
Proof. vm_compute. reflexivity. Qed.

(** Where [inSync] fails the cut does matter: a packet whose end is not
    followed by a sync byte is skipped in silence when it arrives whole, and is
    an error when a call ended inside it, after its announcement. *)
Example lost_framing_depends_on_cut :
  let packet cc := [0x47; 0x00; 0x11; 0x10 + cc] ++ replicate 184 0x00 in
  let stream := packet 0 ++ packet 1 ++ [0x00] in
  let parser := announcingParser announcementRecorder in
  resultOk (pushAll [stream] (parser, @nil SinkCall)).1 = true /\
  resultOk (pushAll [take 200 stream; drop 200 stream] (parser, @nil SinkCall)).1 = false.
Proof. vm_compute. split; reflexivity. Qed.

Lemma sample_inSync :
  inSync (Some announcementRecorder) (announcingParser announcementRecorder) (concat sampleStream).
Proof.
  intros _. split; [| split; [done |]].
  - apply Forall_forall. assert (H : forallb (fun x => (0 <=? x) && (x <? 256)) (concat sampleStream) = true)
      by reflexivity.
    intros x Hx. rewrite forallb_forall in H. specialize (H x (proj1 (list_elem_of_In _ _) Hx)).
    unfold is_u. lia.
  - assert (E : findSync (length (concat sampleStream) - 188) (fun i => concat sampleStream !!! i) 0 = Some 1%nat)
      by reflexivity.
    unfold keepsSync. cbn [m_strideLocked announcingParser m_carry app]. rewrite E. intros k Hk.
    assert (Hl : length (concat sampleStream) = 377%nat) by reflexivity. rewrite Hl in Hk.
    destruct k as [| [| k]]; [reflexivity | reflexivity | lia].
Qed.

Lemma push_chunk_independent_witness :
  parserOk (Some announcementRecorder) (announcingParser announcementRecorder) /\
  visible (pushAll sampleStream (announcingParser announcementRecorder, @nil SinkCall)) =
  visible (pushAll [concat sampleStream] (announcingParser announcementRecorder, [])).
Proof.
  split; [apply announcingParser_ok |].
  apply (push_chunk_independent (Some announcementRecorder) (announcingParser announcementRecorder) []).
  - apply announcingParser_ok.
  - reflexivity.
  - discriminate.
  - discriminate.
  - apply sample_inSync.
  - vm_compute. discriminate.
Defined.

Lemma push_refines_scan_witness :
  exists y, scan (Some announcementRecorder) (pushFuel [] (concat sampleStream)) false
              (concat sampleStream) 0 (None, ∅, @nil SinkCall) = Some y /\
    visible (push (concat sampleStream) (announcingParser announcementRecorder, [])) =
      visibleScan (Some announcementRecorder) 377 y.
Proof.
  apply (push_refines_scan (Some announcementRecorder) (announcingParser announcementRecorder) []
           (concat sampleStream)).
  - apply announcingParser_ok.
  - vm_compute. discriminate.
Defined.

End MediaTsFraming.
