(* ===== verification/TsRoundTrip.v ===== *)
(** * From the packet builder to the packet parser

    What [MediaTsTransportPacketBuilder] writes, [MediaTsPacketParser] reads:
    the packets of a unit and the PCR packets, through the framing of [push]
    and [finish]. *)

From stdpp Require Import gmap.
From S2P Require Import Prelude MediaResult TsPacket TsParser TsFraming.
Import MediaTsTransportPacketBuilder MediaTsPacketParser MediaTsFraming.

Local Open Scope Z_scope.

Module MediaTsRoundTrip.

(** ** Lemmas: header bytes *)

Lemma header_byte1 (start : bool) h : 0 <= h < 32 ->
  let b := u8 (Z.lor (if start then 0x40 else 0) (Z.land h 0x1F)) in
  flag b 0x80 = false /\ flag b 0x40 = start /\ Z.land b 0x1F = h.
Proof.
  intros Hh. pose proof (forallb_below (fun h =>
    let b := u8 (Z.lor (if start then 0x40 else 0) (Z.land h 0x1F)) in
    negb (flag b 0x80) && Bool.eqb (flag b 0x40) start && (Z.land b 0x1F =? h)) 32 h) as H.
  specialize (H ltac:(destruct start; vm_compute; reflexivity) Hh). cbv zeta in *.
  apply andb_true_iff in H as [[H1 H2]%andb_true_iff H3].
  split_and!; [by apply negb_true_iff | by apply Bool.eqb_prop | by apply Z.eqb_eq].
Qed.

Lemma header_byte3 ac cc : 1 <= ac <= 3 -> 0 <= cc < 16 ->
  let b := u8 (Z.lor (Z.shiftl ac 4) (Z.land cc 0x0F)) in
  flag b 0xC0 = false /\ Z.land (Z.shiftr b 4) 0x03 = ac /\ Z.land b 0x0F = cc.
Proof.
  intros Ha Hc. pose proof (forallb_below (fun cc =>
    let b := u8 (Z.lor (Z.shiftl ac 4) (Z.land cc 0x0F)) in
    negb (flag b 0xC0) && (Z.land (Z.shiftr b 4) 0x03 =? ac) && (Z.land b 0x0F =? cc)) 16 cc) as H.
  assert (Hac : ac = 1 \/ ac = 2 \/ ac = 3) by lia.
  specialize (H ltac:(destruct Hac as [-> | [-> | ->]]; vm_compute; reflexivity) Hc). cbv zeta in *.
  apply andb_true_iff in H as [[H1 H2]%andb_true_iff H3].
  split_and!; [by apply negb_true_iff | by apply Z.eqb_eq | by apply Z.eqb_eq].
Qed.

Lemma header_pid pid : 0 <= pid < 8192 ->
  u16 (Z.lor (Z.shiftl (Z.shiftr pid 8) 8) (u8 pid)) = pid.
Proof.
  intros Hp. rewrite lor_shiftl_add by (unfold u8; divmod). rewrite shiftr_div by lia.
  unfold u16, u8. divmod.
Qed.

(** The four header bytes, as the parser reads them. *)
Lemma parse_header pid start ac cc rest :
  0 <= pid < 8192 -> 1 <= ac <= 3 -> 0 <= cc < 16 ->
  let packet := take 4 (writeHeader pid start ac cc) ++ rest in
  at_ packet 0 = 0x47 /\ flag (at_ packet 1) 0x80 = false /\ flag (at_ packet 3) 0xC0 = false /\
  u16 (Z.lor (Z.shiftl (Z.land (at_ packet 1) 0x1F) 8) (at_ packet 2)) = pid /\
  flag (at_ packet 1) 0x40 = start /\ Z.land (Z.shiftr (at_ packet 3) 4) 0x03 = ac /\
  Z.land (at_ packet 3) 0x0F = cc /\ (forall i, 0 <= i -> at_ packet (4 + i) = at_ rest i).
Proof.
  intros Hp Ha Hc. cbv zeta.
  assert (Hh : 0 <= Z.shiftr pid 8 < 32) by (rewrite shiftr_div by lia; divmod).
  destruct (header_byte1 start _ Hh) as (H1 & H2 & H3).
  destruct (header_byte3 ac cc Ha Hc) as (H4 & H5 & H6).
  unfold at_. change (Z.to_nat 0) with 0%nat. change (Z.to_nat 1) with 1%nat.
  change (Z.to_nat 2) with 2%nat. change (Z.to_nat 3) with 3%nat.
  cbn [take writeHeader app lookup_total list_lookup_total].
  rewrite H3. split_and!; try done; [by apply header_pid |].
  intros i Hi. replace (Z.to_nat (4 + i)) with (S (S (S (S (Z.to_nat i))))) by lia. done.
Qed.

(** ** Lemmas: the packets of a unit *)

(** The adaptation field in front of [n] payload bytes. *)
Definition adaptationField (ra di : bool) (n : nat) : list Z :=
  if ra || di || (n <? 184)%nat then
    match (183 - n)%nat with
    | O => [0]
    | S k => Z.of_nat (S k) :: Z.lor (if ra then 0x40 else 0) (if di then 0x80 else 0) ::
             replicate k 0xFF
    end
  else [].

(** The payload sizes the builder uses. *)
Definition payloadSizeOk (ra di : bool) (bytes : list Z) : Prop :=
  (0 < length bytes <= firstCapacity ra di)%nat.

Lemma payloadPacket_shape pid cc start ra di bytes :
  payloadSizeOk ra di bytes ->
  payloadPacket pid cc start ra di bytes =
  take 4 (writeHeader pid start (if ra || di || (length bytes <? 184)%nat then 3 else 1) cc) ++
  adaptationField ra di (length bytes) ++ bytes.
Proof.
  unfold payloadSizeOk, firstCapacity, payloadPacket, adaptationField. intros Hs.
  set (need := ra || di || (length bytes <? 184)%nat).
  assert (Hneed : need = false -> length bytes = 184%nat).
  { unfold need. destruct ra, di; simpl in *; try done. intros ?%Nat.ltb_ge. lia. }
  assert (Hra : ra || di = true -> (length bytes <= 182)%nat) by (intros E; rewrite E in Hs; lia).
  destruct need.
  - destruct (183 - length bytes)%nat as [| k] eqn:Ek; cbn [Nat.eqb negb].
    + unfold writeAt. rewrite (drop_ge _ (5 + 0 + length bytes)) by (simpl; lia).
      by rewrite app_nil_r.
    + assert (Hf : forall x, writeAt (5 + S k) bytes (<[5%nat:=x]> (<[4%nat:=u8 (Z.of_nat (S k))]>
          (writeHeader pid start 3 cc))) =
          take 4 (writeHeader pid start 3 cc) ++ (u8 (Z.of_nat (S k)) :: x :: replicate k 0xFF) ++ bytes).
      { intros x. unfold writeAt. rewrite (drop_ge _ (5 + S k + length bytes)) by (simpl; lia).
        rewrite app_nil_r, app_assoc. f_equal. cbn [writeHeader app insert list_insert take Nat.add].
        simpl (replicate 184 _). cbn [insert list_insert take app].
        do 6 f_equal. change (take k (replicate 182 255) = replicate k 255).
        rewrite take_replicate. f_equal. lia. }
      rewrite Hf. assert (Eu : u8 (Z.of_nat (S k)) = Z.of_nat (S k))
        by (unfold u8; rewrite Z.mod_small; ranges; lia).
      rewrite Eu. by destruct ra, di.
  - specialize (Hneed eq_refl). unfold writeAt. rewrite (drop_ge _ (4 + length bytes)) by (simpl; lia).
    by rewrite app_nil_r.
Qed.

Lemma checkStuffing_ok n packet cursor :
  (forall i, cursor <= i < cursor + Z.of_nat n -> at_ packet i = 0xFF) ->
  checkStuffing n packet cursor = Success tt.
Proof.
  revert cursor. induction n as [| n IH]; intros cursor H; [done |]. cbn [checkStuffing].
  rewrite H by lia. apply IH. intros i Hi. apply H. lia.
Qed.

Lemma parseAdaptation_plain packet len (ra di : bool) :
  at_ packet 5 = Z.lor (if ra then 0x40 else 0) (if di then 0x80 else 0) -> 1 <= len ->
  (forall i, 6 <= i < 5 + len -> at_ packet i = 0xFF) ->
  parseAdaptation packet len = Success (di, None).
Proof.
  intros E5 Hl Hs. unfold parseAdaptation. rewrite E5.
  assert (Hf : forall m, m ∈ [0x10; 0x08; 0x04; 0x02; 0x01] ->
    flag (Z.lor (if ra then 0x40 else 0) (if di then 0x80 else 0)) m = false).
  { intros m Hm. rewrite !elem_of_cons in Hm.
    destruct ra, di; destruct_or! Hm; subst; (reflexivity || by apply not_elem_of_nil in Hm). }
  rewrite !Hf by (rewrite !elem_of_cons; tauto).
  replace (flag (Z.lor (if ra then 0x40 else 0) (if di then 0x80 else 0)) 0x80) with di
    by (by destruct ra, di).
  cbn [bindResult]. rewrite checkStuffing_ok; [done |]. intros i Hi. apply Hs. lia.
Qed.

Lemma adaptationField_length ra di bytes : payloadSizeOk ra di bytes ->
  length (adaptationField ra di (length bytes)) = (184 - length bytes)%nat.
Proof.
  unfold payloadSizeOk, firstCapacity, adaptationField. intros Hs.
  destruct (ra || di || (length bytes <? 184)%nat) eqn:E.
  - destruct (183 - length bytes)%nat as [| k] eqn:Ek; simpl; [| rewrite length_replicate].
    + destruct (ra || di) eqn:E2; [lia |]. simpl in E. apply Nat.ltb_lt in E. lia.
    + lia.
  - apply orb_false_iff in E as [E ?%Nat.ltb_ge]. rewrite E in Hs. simpl. lia.
Qed.

Lemma at_app_l l1 l2 i : 0 <= i < Z.of_nat (length l1) -> at_ (l1 ++ l2) i = at_ l1 i.
Proof. intros. unfold at_. rewrite !list_lookup_total_alt, lookup_app_l by lia. done. Qed.

Lemma at_replicate n x i : 0 <= i < Z.of_nat n -> at_ (replicate n x) i = x.
Proof. intros. unfold at_. apply lookup_total_replicate_2. lia. Qed.

Lemma at_cons x l i : 0 <= i -> at_ (x :: l) (1 + i) = at_ l i.
Proof. intros. unfold at_. by replace (Z.to_nat (1 + i)) with (S (Z.to_nat i)) by lia. Qed.

(** What the parser reads in a packet of a unit. *)
Lemma parse_payloadPacket pid cc start ra di bytes off :
  0 <= pid < 8192 -> 0 <= cc < 16 -> payloadSizeOk ra di bytes ->
  let packet := payloadPacket pid cc start ra di bytes in
  parseEvidence packet off =
    Success (Some (mkParsed (mkEvidenceView off pid start cc di None) true
                     (188 - Z.of_nat (length bytes)) false)) /\
  length packet = 188%nat /\ at_ packet 0 = 0x47 /\ drop (188 - length bytes) packet = bytes.
Proof.
  intros Hp Hc Hs. cbv zeta. pose proof (adaptationField_length ra di bytes Hs) as Hal.
  assert (Hsz : (0 < length bytes <= 184)%nat)
    by (unfold payloadSizeOk, firstCapacity in Hs; destruct (ra || di); lia).
  rewrite payloadPacket_shape by done. set (need := ra || di || (length bytes <? 184)%nat).
  set (rest := adaptationField ra di (length bytes) ++ bytes).
  destruct (parse_header pid start (if need then 3 else 1) cc rest) as (H0 & H1 & H2 & H3 & H4 & H5 & H6 & H7);
    [done | destruct need; lia | done |].
  set (packet := take 4 _ ++ rest) in *.
  assert (Hlen : length packet = 188%nat).
  { unfold packet, rest. rewrite !length_app, Hal. rewrite length_take. simpl (length (writeHeader _ _ _ _)). lia. }
  split; [| split; [done | split; [done |]]].
  2: { unfold packet, rest. rewrite app_assoc, drop_app_length'; [done |].
       rewrite length_app, Hal, length_take. simpl (length (writeHeader _ _ _ _)). lia. }
  unfold parseEvidence. rewrite Hlen, H0, H1, H2, H3, H4, H5, H6. change (Z.of_nat 188) with 188.
  cbn [Z.ltb Z.compare Pos.compare Pos.compare_cont negb Z.eqb Pos.eqb].
  specialize (H7 0 ltac:(lia)) as H70. specialize (H7 1 ltac:(lia)) as H71. change (4 + 0) with 4 in H70. change (4 + 1) with 5 in H71.
  unfold rest, adaptationField in H7, H70, H71. unfold need in *.
  destruct (ra || di || (length bytes <? 184)%nat) eqn:En.
  - destruct (183 - length bytes)%nat as [| k] eqn:Ek.
    + change (at_ packet 4 = 0) in H70. rewrite H70. change (flag 3 2) with true. change (flag 3 1) with true. simpl.
      destruct (ra || di) eqn:Erd; [unfold payloadSizeOk, firstCapacity in Hs; rewrite Erd in Hs; lia |].
      apply orb_false_iff in Erd as [-> ->]. cbn [orb] in En. apply Nat.ltb_lt in En. do 4 f_equal. lia.
    + change (at_ packet 4 = Z.of_nat (S k)) in H70. rewrite H70.
      change (flag 3 2) with true. change (flag 3 1) with true. cbn [negb andb].
      destruct (Z.ltb_spec 183 (Z.of_nat (S k))); [lia |].
      destruct (Z.leb_spec 188 (5 + Z.of_nat (S k))); [lia |].
      destruct (Z.ltb_spec 188 (5 + Z.of_nat (S k))); [lia |].
      destruct (Z.eqb_spec (Z.of_nat (S k)) 0); [lia |].
      rewrite (parseAdaptation_plain packet (Z.of_nat (S k)) ra di); [| exact H71 | lia |].
      * simpl. do 4 f_equal. lia.
      * intros i Hi. replace i with (4 + (1 + (1 + (i - 6)))) by lia. rewrite H7 by lia.
        cbn [app]. rewrite !at_cons by lia. rewrite at_app_l by (rewrite length_replicate; lia).
        apply at_replicate. lia.
  - change (flag 1 2) with false. change (flag 1 1) with true. simpl.
    apply orb_false_iff in En as [E ?%Nat.ltb_ge]. apply orb_false_iff in E as [-> ->].
    do 4 f_equal. lia.
Qed.

(** ** Whole packets through the framing *)

Section Stream.
Context {K : Type} `{!MediaTsPacketSink K}.

(** The streams of this file are read by a parser without incremental sink. *)
Local Notation parseCore := (MediaTsFraming.parseCore None).
Local Notation scan := (MediaTsFraming.scan None).

(** The packets handed to the sink one after the other. *)
Fixpoint parseAll (packets : list (list Z)) (offset : Z) (c : Core (K := K)) : Status * Core :=
  match packets with
  | [] => (Success tt, c)
  | packet :: rest =>
      match parseCore packet offset c with
      | (Success _, c') => parseAll rest (offset + 188) c'
      | (Failure e, c') => (Failure e, c')
      end
  end.

(** The calls of a caller: the chunks, then [finish]. *)
Definition feed (chunks : list (list Z)) (st : Parser K * K) : Status * (Parser K * K) :=
  match pushAll chunks st with
  | (Success _, st') => finish st'
  | (Failure e, st') => (Failure e, st')
  end.

Definition wholePacket (packet : list Z) : Prop := length packet = 188%nat /\ at_ packet 0 = 0x47.

Lemma wholePacket_lookup packet rest i :
  wholePacket packet -> (packet ++ rest) !!! 0%nat = 0x47 /\
  (packet ++ rest) !!! (188 + i)%nat = rest !!! i.
Proof.
  intros [Hl H0]. unfold at_ in H0. change (Z.to_nat 0) with 0%nat in H0.
  rewrite list_lookup_total_alt in H0. rewrite !list_lookup_total_alt.
  rewrite lookup_app_l by lia. split; [done |].
  rewrite lookup_app_r by lia. do 2 f_equal. lia.
Qed.

(** The outcome of a scan that leaves the last packet pending. *)
Definition scanOutcome (locked : bool) (last : list Z) (offset : Z) (x : Status * Core (K := K))
    (y : Status * (bool * list Z * Z * Core (K := K))) : Prop :=
  match x with
  | (Success _, c) => y = (Success tt, (locked, last, offset, c))
  | (Failure e, c) => exists z, y = (Failure e, (z, c))
  end.

Lemma stream_first packets last :
  Forall wholePacket packets -> wholePacket last -> (concat packets ++ last) !!! 0%nat = 0x47.
Proof.
  intros [| p2 r2 Hp2 _] Hlast; simpl.
  - destruct (wholePacket_lookup last [] 0 Hlast) as [E _]. by rewrite app_nil_r in E.
  - rewrite <- app_assoc. by destruct (wholePacket_lookup p2 (concat r2 ++ last) 0 Hp2).
Qed.

Lemma scan_locked_packets packets last offset c :
  Forall wholePacket packets -> wholePacket last ->
  exists fuel y, scan fuel true (concat packets ++ last) offset c = Some y /\
    scanOutcome true last (offset + 188 * Z.of_nat (length packets)) (parseAll packets offset c) y.
Proof.
  intros Hall Hlast. revert offset c.
  induction Hall as [| packet rest Hp Hall IH]; intros offset c.
  { exists 1%nat. destruct Hlast as [Hl _]. cbn [MediaTsFraming.scan concat app]. rewrite Hl, publishCore_none by done.
    eexists. split; [done |]. simpl. by rewrite Z.add_0_r. }
  pose proof (stream_first rest last Hall Hlast) as Hnext.
  cbn [concat parseAll]. rewrite <- app_assoc.
  destruct (wholePacket_lookup packet (concat rest ++ last) 0 Hp) as [E0 E1].
  rewrite Hnext in E1. destruct Hp as [Hl _]. destruct Hlast as [Hll Hl0].
  assert (Hstep : forall fuel, scan (S fuel) true (packet ++ concat rest ++ last) offset c =
    match parseCore packet offset c with
    | (Failure e, c') => Some (Failure e, (true, concat rest ++ last, offset + 188, c'))
    | (Success _, c') => scan fuel true (concat rest ++ last) (offset + 188) c'
    end).
  { intros fuel. cbn [MediaTsFraming.scan]. destruct (Nat.ltb_spec (length (packet ++ concat rest ++ last)) 189).
    { rewrite !length_app in H. lia. }
    rewrite E0. change (188%nat) with (188 + 0)%nat at 1. rewrite E1. cbn [Z.eqb Pos.eqb andb].
    rewrite take_app_length', drop_app_length' by done. by destruct (parseCore _ _ _) as [[? | ?] ?]. }
  destruct (parseCore packet offset c) as [[u | e] c1].
  - destruct (IH (offset + 188) c1) as (fuel & y & E & H). exists (S fuel), y.
    rewrite Hstep. split; [done |]. cbn [length]. rewrite Nat2Z.inj_succ.
    replace (offset + 188 * Z.succ (Z.of_nat (length rest)))
      with (offset + 188 + 188 * Z.of_nat (length rest)) by lia. done.
  - exists 1%nat. rewrite Hstep. eexists. split; [done |]. simpl. eauto.
Qed.

Lemma scan_fresh_packets packets last c :
  Forall wholePacket packets -> wholePacket last ->
  exists fuel y locked, scan fuel false (concat packets ++ last) 0 c = Some y /\
    scanOutcome locked last (188 * Z.of_nat (length packets)) (parseAll packets 0 c) y.
Proof.
  intros Hall Hlast. destruct Hall as [| packet rest Hp Hall].
  { exists 1%nat. eexists _, false. destruct Hlast as [Hl _]. cbn [concat app MediaTsFraming.scan parseAll length].
    rewrite Hl. cbn [Nat.sub findSync drop]. split; [done |]. done. }
  destruct (scan_locked_packets (packet :: rest) last 0 c) as (fuel & y & E & H);
    [by constructor | done |].
  exists (S fuel), y, true. split; [| done]. rewrite <- E. cbn [MediaTsFraming.scan].
  cbn [concat]. rewrite <- app_assoc.
  destruct (wholePacket_lookup packet (concat rest ++ last) 0 Hp) as [E0 E1].
  rewrite (stream_first rest last Hall Hlast) in E1.
  assert (Hn : exists n, (length (packet ++ concat rest ++ last) - 188)%nat = S n).
  { destruct Hp as [Hl _], Hlast as [Hll _]. rewrite !length_app. exists (187 + length (concat rest))%nat. lia. }
  destruct Hn as [n ->]. cbn [findSync]. rewrite E0. unfold PacketSize.
  change (0 + 188)%nat with (188 + 0)%nat. rewrite E1. cbn [Z.eqb Pos.eqb andb]. by rewrite drop_0.
Qed.

Lemma finish_last (p : Parser K) s c locked last off next copied :
  wholePacket last ->
  p = mkParser None last off next copied locked false None c.1.1 c.1.2 -> s = c.2 ->
  let '(r, c') := parseCore last off c in
  exists r' p', finish (p, s) = (r', (p', c'.2)) /\ resultOk r' = resultOk r /\
    m_continuity p' = c'.1.2.
Proof.
  intros [Hl H0] -> ->. unfold finish. cbn [m_finishFailure m_finished setFinished m_carry m_carryOffset].
  rewrite Hl, H0. cbn [Nat.eqb PacketSize negb orb Z.eqb Pos.eqb].
  rewrite (parsePacket_frame None) by done.
  change (coreOf _ c.2) with (c.1.1, c.1.2, c.2). rewrite <- !surjective_pairing.
  destruct (parseCore last off c) as [[[] | e] c'] eqn:E; simpl.
  - by eexists _, _.
  - eexists _, _. split; [done |]. split; [| done]. unfold failure. by destruct (ErrorInfo_ok e).
Qed.


Lemma parseAll_append ps qs offset c :
  parseAll (ps ++ qs) offset c =
  match parseAll ps offset c with
  | (Success _, c') => parseAll qs (offset + 188 * Z.of_nat (length ps)) c'
  | (Failure e, c') => (Failure e, c')
  end.
Proof.
  revert offset c. induction ps as [| p ps IH]; intros offset c.
  - cbn [app parseAll length]. by rewrite Z.add_0_r.
  - cbn [app parseAll]. destruct (parseCore _ _ _) as [[u | e] c']; [| done]. rewrite IH.
    cbn [length]. by replace (offset + 188 * Z.of_nat (S (length ps)))
      with (offset + 188 + 188 * Z.of_nat (length ps)) by lia.
Qed.

Lemma parseAll_app ps last offset c :
  parseAll (ps ++ [last]) offset c =
  match parseAll ps offset c with
  | (Success _, c') => parseCore last (offset + 188 * Z.of_nat (length ps)) c'
  | (Failure e, c') => (Failure e, c')
  end.
Proof.
  rewrite parseAll_append. destruct (parseAll ps offset c) as [[u | e] c']; [| done].
  cbn [parseAll]. by destruct (parseCore _ _ _) as [[[] | e] c''].
Qed.

(** The sink gets the packets of the stream, whatever the chunks. *)
Lemma feed_packets packets chunks s :
  Forall wholePacket packets -> packets <> [] -> concat chunks = concat packets ->
  Z.of_nat (length (concat packets)) <= uint64_max ->
  let '(r, c) := parseAll packets 0 (None, ∅, s) in
  exists r' p', feed chunks (freshParser, s) = (r', (p', c.2)) /\ resultOk r' = resultOk r /\
    (resultOk r = true -> m_continuity p' = c.1.2).
Proof.
  intros Hall Hne Hcat Hmax. destruct (exists_last Hne) as (ps & last & ->).
  apply Forall_app in Hall as [Hall Hlast]. inversion_clear Hlast as [| ? ? Hw _]. rename Hw into Hlast. rewrite concat_app in Hcat, Hmax.
  cbn [concat] in Hcat, Hmax. rewrite app_nil_r in Hcat, Hmax.
  destruct (scan_fresh_packets ps last (None, ∅, s) Hall Hlast) as (f & y & locked & Ey & Ho).
  destruct (push_visible None freshParser s (concat chunks) freshParser_ok) as (f2 & y2 & Ey2 & V);
    [rewrite Hcat; simpl; lia |].
  rewrite <- (pushAll_visible None) in V; [| apply freshParser_ok | by intros [] | intros ->; destruct Hlast as [Hl _];
    apply (f_equal length) in Hcat; rewrite length_app in Hcat; simpl in Hcat; lia | rewrite Hcat; simpl; lia].
  rewrite Hcat in Ey2. cbn [m_carry freshParser app m_strideLocked m_carryOffset] in Ey2.
  change (coreOf freshParser s) with (None : option ParsedPacketEvidence, ∅ : gmap Z Z, s) in Ey2.
  rewrite (scan_det _ _ _ _ _ _ _ _ _ Ey2 Ey) in V. clear Ey2 y2.
  rewrite parseAll_app. unfold feed. destruct (pushAll chunks (freshParser, s)) as [r0 [p1 s1]] eqn:Ep.
  destruct (parseAll ps 0 (None, ∅, s)) as [[u | e] c1]; simpl in Ho.
  - subst y. destruct p1. simpl in V. destruct r0 as [[] | e]; [| done].
    injection V. intros. subst. rewrite Z.add_0_l.
    assert (Es : s1 = c1.2) by (destruct c1 as [[? ?] ?]; unfold coreOf in *; simplify_eq/=; congruence).
    match goal with |- context [finish (?p, s1)] =>
      pose proof (finish_last p s1 c1 locked last _ _ _ Hlast eq_refl Es) as Hf end.
    destruct (parseCore last _ c1) as [r2 c2]. destruct Hf as (r' & p' & -> & Hr & Hm).
    exists r', p'. done.
  - destruct Ho as [[[? ?] ?] ->]. destruct r0 as [? | e']; [done |]. simpl in V.
    injection V. intros. subst. eexists _, _. split; [done |]. done.
Qed.

(** The calls a packet makes when its counter is the expected one. *)
Definition deliver (discontinuity : bool) (v : MediaTsPacketView) (s : K) : Status * K :=
  let '(r, s') :=
    if discontinuity
    then onContinuityEvent (mkContinuityEvent (v_byteOffset v) (v_pid v) DiscontinuityIndicator) s
    else (Success tt, s) in
  match r with
  | Success _ => onPacket v s'
  | Failure e => (Failure e, s')
  end.

(** The view of a packet whose evidence is [parsed]. *)
Definition viewOf (packet : list Z) (parsed : ParsedPacketEvidence) : MediaTsPacketView :=
  let view := pe_view parsed in
  mkPacketView (ev_byteOffset view) (ev_pid view) (ev_payloadUnitStart view)
    (ev_continuityCounter view) (ev_discontinuity view) (ev_pcr27Mhz view)
    (if pe_hasPayload parsed then drop (Z.to_nat (pe_payloadOffset parsed)) packet else []).

Definition counterExpected (parsed : ParsedPacketEvidence) (m : gmap Z Z) : Prop :=
  match m !! ev_pid (pe_view parsed) with
  | Some counter => ev_continuityCounter (pe_view parsed) =
                    (if pe_hasPayload parsed then Z.land (counter + 1) 0x0F else counter)
  | None => True
  end.

Definition evidenceOffset (e : option ParsedPacketEvidence) : option Z :=
  (fun x => ev_byteOffset (pe_view x)) <$> e.

Lemma publish_fresh packet off parsed (p : Parser K) s :
  parseEvidence packet off = Success (Some parsed) ->
  evidenceOffset (m_publishedEvidence p) <> Some off ->
  publishIncrementalEvidence packet off (p, s) = publishParsed packet off parsed (p, s).
Proof.
  intros Hp He. unfold publishIncrementalEvidence, bindState, getState, liftResult. simpl. rewrite Hp.
  destruct (m_publishedEvidence p) as [pub |]; [| done]. simpl in He.
  destruct (Z.eqb_spec (ev_byteOffset (pe_view pub)) off); [congruence | done].
Qed.

Lemma parseCore_deliver packet off parsed e m s :
  parseEvidence packet off = Success (Some parsed) -> ev_byteOffset (pe_view parsed) = off ->
  evidenceOffset e <> Some off ->
  (ev_discontinuity (pe_view parsed) = false -> counterExpected parsed m) ->
  let '(r, s') := deliver (ev_discontinuity (pe_view parsed)) (viewOf packet parsed) s in
  exists e' m', parseCore packet off (e, m, s) = (r, (e', m', s')) /\
    (resultOk r = true -> evidenceOffset e' = Some off /\
       m' = <[ev_pid (pe_view parsed) := ev_continuityCounter (pe_view parsed)]> m).
Proof.
  intros Hp Hoff He Hc. unfold MediaTsFraming.parseCore, parsePacket, bindState, getState.
  rewrite (publish_fresh _ _ parsed) by done.
  unfold publishParsed, bindState, getState, retState, callSink, modifyParser, modifyState.
  simpl. unfold deliver, viewOf, counterExpected in *. rewrite Hoff in *. simpl.
  destruct (ev_discontinuity (pe_view parsed)) eqn:Ed.
  - destruct (onContinuityEvent _ s) as [[u | e1] s1]; simpl; [| by eexists _, _].
    destruct (negb _ || _ || _); simpl; unfold markPrefixPublished; simpl; rewrite ?Ed; (destruct (onPacket _ s1) as [r s2]; simpl;
      eexists _, _; split; [done |]; simpl; by rewrite Hoff).
  - specialize (Hc eq_refl). destruct (m !! ev_pid (pe_view parsed)) as [counter |].
    + rewrite (proj2 (Z.eqb_eq _ _) Hc). simpl.
      destruct (negb _ || _ || _); simpl; unfold markPrefixPublished; simpl; rewrite ?Ed; (destruct (onPacket _ s) as [r s2]; simpl;
      eexists _, _; split; [done |]; simpl; by rewrite Hoff).
    + simpl. destruct (negb _ || _ || _); simpl; unfold markPrefixPublished; simpl; rewrite ?Ed; (destruct (onPacket _ s) as [r s2]; simpl;
      eexists _, _; split; [done |]; simpl; by rewrite Hoff).
Qed.

(** ** Units *)

Fixpoint deliverAll (views : list MediaTsPacketView) (s : K) : Status * K :=
  match views with
  | [] => (Success tt, s)
  | v :: vs => match deliver (v_discontinuity v) v s with
               | (Success _, s') => deliverAll vs s'
               | (Failure e, s') => (Failure e, s')
               end
  end.

Definition unitView (pid cc off : Z) (start di : bool) (bytes : list Z) : MediaTsPacketView :=
  mkPacketView off pid start cc di None bytes.

Fixpoint tailViews (pid cc off : Z) (cs : list (list Z)) : list MediaTsPacketView :=
  match cs with
  | [] => []
  | c :: cs' => unitView pid cc off false false c :: tailViews pid (Z.land (cc + 1) 0x0F) (off + 188) cs'
  end.

(** The counter of the last packet, when [n] packets follow counter [cc]. *)
Definition lastCounter (cc : Z) (n : nat) : Z := (cc + Z.of_nat n) mod 16.

Lemma next_counter cc : Z.land (cc + 1) 0x0F = (cc + 1) mod 16.
Proof. apply (land_mask _ 4). lia. Qed.

(** The state the packets of a unit leave. *)
Definition unitDone (pid cc off : Z) (n : nat) (m : gmap Z Z) (r : Status)
    (e' : option ParsedPacketEvidence) (m' : gmap Z Z) : Prop :=
  resultOk r = true ->
  evidenceOffset e' = Some (off + 188 * Z.of_nat n) /\ m' = <[pid := lastCounter cc n]> m.

Lemma parseAll_packet pid cc off start ra di bytes rest e m s :
  0 <= pid < 8192 -> 0 <= cc < 16 -> payloadSizeOk ra di bytes ->
  evidenceOffset e <> Some off ->
  (di = false -> forall counter, m !! pid = Some counter -> cc = Z.land (counter + 1) 0x0F) ->
  let '(r, s1) := deliver di (unitView pid cc off start di bytes) s in
  exists e' m', 
    parseAll (payloadPacket pid cc start ra di bytes :: rest) off (e, m, s) =
    match r with
    | Success _ => parseAll rest (off + 188) (e', m', s1)
    | Failure err => (Failure err, (e', m', s1))
    end /\ unitDone pid cc off 0 m r e' m'.
Proof.
  intros Hp Hc Hs He Hcount.
  destruct (parse_payloadPacket pid cc start ra di bytes off Hp Hc Hs) as (E & Hl & _ & Hd).
  assert (Hb : (length bytes <= 184)%nat)
    by (unfold payloadSizeOk, firstCapacity in Hs; destruct (ra || di); lia).
  pose proof (parseCore_deliver _ off _ e m s E eq_refl He) as H.
  unfold viewOf in H. cbn [pe_view ev_byteOffset ev_pid ev_payloadUnitStart ev_continuityCounter
    ev_discontinuity ev_pcr27Mhz pe_hasPayload pe_payloadOffset] in H.
  replace (Z.to_nat (188 - Z.of_nat (length bytes))) with (188 - length bytes)%nat in H by lia.
  rewrite Hd in H. fold (unitView pid cc off start di bytes) in H.
  destruct (deliver di (unitView pid cc off start di bytes) s) as [r s1].
  destruct H as (e' & m' & Hpc & Hdone).
  { intros Hdi. unfold counterExpected. simpl. destruct (m !! pid) eqn:Em; [| done].
    by apply Hcount. }
  exists e', m'. cbn [parseAll]. rewrite Hpc. split; [by destruct r |].
  intros [-> ->]%Hdone. split; [f_equal; lia |]. unfold lastCounter.
  by rewrite Z.add_0_r, Z.mod_small by lia.
Qed.

Lemma parseAll_tail pid cc off cs e m s prev :
  0 <= pid < 8192 -> 0 <= prev < 16 -> cc = Z.land (prev + 1) 0x0F ->
  Forall (fun c => 0 < length c <= 184)%nat cs ->
  evidenceOffset e = Some (off - 188) -> m !! pid = Some prev ->
  let '(r, s1) := deliverAll (tailViews pid cc off cs) s in
  exists e' m', parseAll (tailPackets pid cc cs) off (e, m, s) = (r, (e', m', s1)) /\
    unitDone pid prev (off - 188) (length cs) m r e' m'.
Proof.
  intros Hp Hprev -> Hcs. revert prev Hprev off e m s.
  induction Hcs as [| c cs Hc Hcs IH]; intros prev Hprev off e m s He Hm.
  { exists e, m. split; [done |]. intros _. unfold lastCounter. simpl. split; [by rewrite Z.add_0_r |].
    rewrite Z.add_0_r, Z.mod_small by lia. by rewrite insert_id. }
  cbn [tailViews tailPackets deliverAll]. rewrite next_counter in *.
  pose proof (Z.mod_pos_bound (prev + 1) 16 ltac:(lia)) as Hb.
  pose proof (parseAll_packet pid ((prev + 1) mod 16) off false false false c
    (tailPackets pid (Z.land ((prev + 1) mod 16 + 1) 0x0F) cs) e m s Hp Hb) as H.
  specialize (H ltac:(unfold payloadSizeOk, firstCapacity; simpl; lia)).
  specialize (H ltac:(rewrite He; intros [= ?]; lia)).
  specialize (H ltac:(intros _ counter; rewrite Hm; intros [= <-]; by rewrite next_counter)).
  change (v_discontinuity (unitView pid ((prev + 1) mod 16) off false false c)) with false.
  destruct (deliver false _ s) as [[[] | err] s1].
  - destruct H as (e1 & m1 & -> & Hdone). destruct (Hdone eq_refl) as [He1 ->].
    specialize (IH ((prev + 1) mod 16) Hb (off + 188) e1
      (<[pid := lastCounter ((prev + 1) mod 16) 0]> m) s1).
    rewrite He1 in IH. specialize (IH ltac:(f_equal; lia)).
    specialize (IH ltac:(rewrite lookup_insert_eq; unfold lastCounter; by rewrite Z.add_0_r, Z.mod_small by lia)).
    destruct (deliverAll _ s1) as [r s2]. destruct IH as (e' & m' & -> & Hd).
    exists e', m'. split; [done |]. intros Hr. destruct (Hd Hr) as [-> ->].
    cbn [length]. split; [f_equal; lia |]. rewrite insert_insert_eq. f_equal. unfold lastCounter. divmod.
  - destruct H as (e1 & m1 & -> & _). by exists e1, m1.
Qed.

(** The views of a unit: start flag and discontinuity on the first packet
    only, consecutive counters, no clock, the bytes of the unit in order. *)
Definition unitViews (pid cc : Z) (di : bool) (off : Z) (unit_ : list Z)
    (views : list MediaTsPacketView) : Prop :=
  concat (v_payloadSpan <$> views) = unit_ /\
  forall (i : nat) v, views !! i = Some v ->
    v_byteOffset v = off + 188 * Z.of_nat i /\ v_pid v = pid /\
    v_payloadUnitStart v = Nat.eqb i 0 /\ v_continuityCounter v = (cc + Z.of_nat i) mod 16 /\
    v_discontinuity v = di && Nat.eqb i 0 /\ v_pcr27Mhz v = None /\ v_payloadSpan v <> [].

Lemma tailViews_lookup pid cc off cs (i : nat) v : 0 <= cc < 16 ->
  tailViews pid cc off cs !! i = Some v ->
  exists c, cs !! i = Some c /\
    v = unitView pid ((cc + Z.of_nat i) mod 16) (off + 188 * Z.of_nat i) false false c.
Proof.
  revert cc off i. induction cs as [| c cs IH]; intros cc off i Hc; [done |].
  destruct i as [| i]; cbn [tailViews lookup list_lookup].
  - intros [= <-]. exists c. split; [done |]. by rewrite !Z.add_0_r, Z.mod_small by lia.
  - rewrite next_counter. intros (c' & Hl & ->)%IH; [| divmod]. exists c'. split; [done |].
    f_equal; [divmod | lia].
Qed.

Lemma tailViews_payload pid cc off cs :
  v_payloadSpan <$> tailViews pid cc off cs = cs /\ length (tailViews pid cc off cs) = length cs.
Proof.
  revert cc off. induction cs as [| c cs IH]; intros cc off; [done |]. cbn [tailViews].
  destruct (IH (Z.land (cc + 1) 0x0F) (off + 188)) as [E1 E2]. rewrite fmap_cons, E1. simpl. auto.
Qed.

Lemma tailPackets_whole pid cc cs :
  0 <= pid < 8192 -> 0 <= cc < 16 -> Forall (fun c => 0 < length c <= 184)%nat cs ->
  length (tailPackets pid cc cs) = length cs /\ Forall wholePacket (tailPackets pid cc cs).
Proof.
  intros Hp Hc Hcs. revert cc Hc. induction Hcs as [| x xs Hx _ IH]; intros k Hk.
  { by split; [| constructor]. }
  cbn [tailPackets length]. rewrite next_counter.
  destruct (IH ((k + 1) mod 16)) as [E1 E2]; [divmod |]. split; [by rewrite E1 |].
  constructor; [| done]. destruct (parse_payloadPacket pid k false false false x 0 Hp Hk)
    as (_ & ? & ? & _); [unfold payloadSizeOk, firstCapacity; simpl; lia | done].
Qed.

Lemma parseAll_unit pid cc segments ra di packets off e m s :
  payload pid cc segments ra di = Success packets -> 0 <= pid -> 0 <= cc ->
  evidenceOffset e <> Some off ->
  (di = false -> forall counter, m !! pid = Some counter -> cc = Z.land (counter + 1) 0x0F) ->
  exists views, unitViews pid cc di off (concat segments) views /\
    length views = length packets /\
    Forall wholePacket packets /\ packets <> [] /\
    payloadPacketCount segments ra di = Success (Z.of_nat (length packets)) /\
    let '(r, s') := deliverAll views s in
    exists e' m', parseAll packets off (e, m, s) = (r, (e', m', s')) /\
      unitDone pid cc off (length packets - 1) m r e' m'.
Proof.
  intros Hpay Hp Hc He Hcount.
  destruct (payload_shape _ _ _ _ _ _ Hpay) as (Hp' & Hc' & c & cs & -> & Hcat & Hs & Hcs & Hn).
  unfold NullPid in Hp'. assert (Hp2 : 0 <= pid < 8192) by lia. assert (Hc2 : 0 <= cc < 16) by lia.
  assert (Hnb : 0 <= Z.land (cc + 1) 0x0F < 16) by (rewrite next_counter; divmod).
  destruct (tailPackets_whole pid _ cs Hp2 Hnb Hcs) as [Hlen Hwhole].
  destruct (tailViews_payload pid (Z.land (cc + 1) 0x0F) (off + 188) cs) as [Hspan Hvl].
  exists (unitView pid cc off true di c :: tailViews pid (Z.land (cc + 1) 0x0F) (off + 188) cs).
  split_and!.
  - split.
    + by rewrite fmap_cons, Hspan.
    + intros [| i] v; cbn [lookup list_lookup].
      * intros [= <-]. simpl. rewrite !Z.add_0_r, andb_true_r, Z.mod_small by lia.
        split_and!; try done. by destruct c; [simpl in Hs; lia |].
      * intros (c' & Hl & ->)%tailViews_lookup; [| done]. cbn. rewrite andb_false_r, next_counter.
        split_and!; try done; [lia | divmod |].
        pose proof (Forall_lookup_1 _ _ _ _ Hcs Hl) as Hpos. by destruct c'; [simpl in Hpos; lia |].
  - cbn [length]. by rewrite Hvl, Hlen.
  - constructor; [| done]. destruct (parse_payloadPacket pid cc true ra di c 0 Hp2 Hc2 Hs)
      as (_ & ? & ? & _). done.
  - done.
  - done.
  - cbn [deliverAll length].
    pose proof (parseAll_packet pid cc off true ra di c (tailPackets pid (Z.land (cc + 1) 0x0F) cs)
      e m s Hp2 Hc2 Hs He Hcount) as H.
    change (v_discontinuity (unitView pid cc off true di c)) with di.
    destruct (deliver di _ s) as [[[] | err] s1].
    + destruct H as (e1 & m1 & -> & Hdone). destruct (Hdone eq_refl) as [He1 ->].
      pose proof (parseAll_tail pid _ (off + 188) cs e1 (<[pid:=lastCounter cc 0]> m) s1 cc
        Hp2 Hc2 eq_refl Hcs) as Ht. rewrite He1 in Ht.
      specialize (Ht ltac:(f_equal; lia)). rewrite lookup_insert_eq in Ht.
      specialize (Ht ltac:(unfold lastCounter; by rewrite Z.add_0_r, Z.mod_small by lia)).
      destruct (deliverAll _ s1) as [r s2]. destruct Ht as (e' & m' & -> & Hd).
      exists e', m'. split; [done |]. intros Hr. destruct (Hd Hr) as [-> ->].
      rewrite Hlen, insert_insert_eq. split; [f_equal; lia | do 2 f_equal; lia].
    + destruct H as (e1 & m1 & -> & Hd). exists e1, m1. by split.
Qed.

End Stream.

(** ** PCR packets *)

Lemma pcr_bytes base ext :
  0 <= base < 2 ^ 33 -> 0 <= ext < 300 ->
  let b4 := u8 (Z.lor (Z.lor (u64 (Z.shiftl base 7)) 0x7E) (Z.shiftr ext 8)) in
  Z.land b4 0x7E = 0x7E /\ Z.shiftr b4 7 = base mod 2 /\ Z.land b4 1 = ext / 256.
Proof.
  intros Hb He. cbv zeta. set (x := base mod 2). set (y := ext / 256).
  assert (Hx : x = 0 \/ x = 1) by (unfold x; divmod). assert (Hy : y = 0 \/ y = 1) by (unfold y; divmod).
  replace (u8 (Z.lor (Z.lor (u64 (Z.shiftl base 7)) 0x7E) (Z.shiftr ext 8)))
    with (Z.lor (Z.lor (Z.shiftl x 7) 0x7E) y).
  { by destruct Hx as [-> | ->], Hy as [-> | ->]. }
  rewrite (shiftr_div ext 8) by lia. change (ext / 2 ^ 8) with y. unfold u8 at 1.
  rewrite <- Z.land_ones, !Z.land_lor_distr_l by lia. f_equal; [f_equal |].
  - unfold u64. rewrite Z.land_ones, !shiftl_mul by lia. unfold x. divmod.
  - by destruct Hy as [-> | ->].
Qed.

Lemma clock_base base :
  0 <= base < 2 ^ 33 ->
  Z.lor (Z.lor (Z.lor (Z.lor (Z.shiftl (u8 (Z.shiftr base 25)) 25) (Z.shiftl (u8 (Z.shiftr base 17)) 17))
                      (Z.shiftl (u8 (Z.shiftr base 9)) 9))
               (Z.shiftl (u8 (Z.shiftr base 1)) 1)) (base mod 2) = base.
Proof.
  intros Hb. rewrite !shiftr_div, !shiftl_mul by lia. unfold u8.
  rewrite (lor_disjoint (_ * 2 ^ 25) _ 25) by (lia || divmod).
  rewrite (lor_disjoint (_ + _ * 2 ^ 17) _ 17) by (lia || divmod).
  rewrite (lor_disjoint (_ + _ * 2 ^ 9) _ 9) by (lia || divmod).
  rewrite (lor_disjoint _ (base mod 2) 1) by (lia || divmod).
  divmod.
Qed.

(** A clock field the builder wrote, read at [cursor]. *)
Lemma parseClock_ok packet adaptationEnd cursor wire :
  0 <= wire < PcrModulus -> 6 <= u64 (adaptationEnd - cursor) ->
  let base := wire / 300 in
  let ext := u16 (wire mod 300) in
  at_ packet cursor = u8 (Z.shiftr base 25) -> at_ packet (cursor + 1) = u8 (Z.shiftr base 17) ->
  at_ packet (cursor + 2) = u8 (Z.shiftr base 9) -> at_ packet (cursor + 3) = u8 (Z.shiftr base 1) ->
  at_ packet (cursor + 4) = u8 (Z.lor (Z.lor (u64 (Z.shiftl base 7)) 0x7E) (Z.shiftr ext 8)) ->
  at_ packet (cursor + 5) = u8 ext ->
  parseClock packet adaptationEnd cursor = Success (wire, cursor + 6).
Proof.
  intros Hw He base ext E0 E1 E2 E3 E4 E5. unfold PcrModulus in Hw.
  change (Z.shiftl 1 33) with (2 ^ 33) in Hw.
  assert (Hb : 0 <= base < 2 ^ 33) by (unfold base; divmod).
  assert (Hx : 0 <= ext < 300) by (unfold ext, u16; divmod).
  destruct (pcr_bytes base ext Hb Hx) as (H1 & H2 & H3).
  unfold parseClock, require. destruct (Z.leb_spec 6 (u64 (adaptationEnd - cursor))); [| lia].
  cbn [bindResult]. rewrite E4, H1. cbn [Z.eqb Pos.eqb negb].
  rewrite E0, E1, E2, E3, H2, H3, clock_base by done.
  assert (Hext : u16 (Z.lor (Z.shiftl (ext / 256) 8) (at_ packet (cursor + 5))) = ext).
  { rewrite E5, lor_shiftl_add by (unfold u8; divmod). unfold u16, u8. divmod. }
  rewrite Hext. destruct (Z.ltb_spec 299 ext); [lia |]. do 2 f_equal.
  unfold base, ext, u64, u16. divmod.
Qed.

Lemma parse_pcrOnly pid next wire di packet off :
  pcrOnly pid next wire di = Success packet -> 0 <= pid -> 0 <= next -> 0 <= wire ->
  parseEvidence packet off =
    Success (Some (mkParsed (mkEvidenceView off pid false ((next + 15) mod 16) di (Some wire))
                     false 188 false)) /\ wholePacket packet.
Proof.
  unfold pcrOnly. destruct (Z.leb_spec NullPid pid) as [| Hpid]; [done |].
  destruct (Z.ltb_spec 15 next) as [| Hnext]; [done |].
  destruct (Z.leb_spec PcrModulus wire) as [| Hwire]; [done |].
  cbn [orb]. intros Hpk Hp Hn Hw. unfold NullPid in *.
  set (base := wire / 300) in *. set (ext := u16 (wire mod 300)) in *.
  set (flags := u8 (Z.lor 0x10 (if di then 0x80 else 0))) in *.
  set (clock := [u8 (Z.shiftr base 25); u8 (Z.shiftr base 17); u8 (Z.shiftr base 9); u8 (Z.shiftr base 1);
       u8 (Z.lor (Z.lor (u64 (Z.shiftl base 7)) 0x7E) (Z.shiftr ext 8)); u8 ext]) in *.
  set (rest := 183 :: flags :: clock ++ replicate 176 0xFF).
  assert (Hshape : packet = take 4 (writeHeader pid false 2 (previousPayload next)) ++ rest)
    by (injection Hpk as <-; reflexivity). clear Hpk.
  assert (Hcc : previousPayload next = (next + 15) mod 16) by (apply (land_mask _ 4); lia).
  rewrite Hcc in Hshape.
  destruct (parse_header pid false 2 ((next + 15) mod 16) rest) as (H0 & H1 & H2 & H3 & H4 & H5 & H6 & H7);
    [lia | lia | divmod |]. cbv zeta in *. rewrite <- Hshape in *.
  assert (Hlen : length packet = 188%nat) by (rewrite Hshape; reflexivity).
  split; [| by split]. unfold parseEvidence. rewrite Hlen, H0, H1, H2, H3, H4, H5, H6.
  change (Z.of_nat 188) with 188.
  cbn [Z.ltb Z.compare Pos.compare Pos.compare_cont negb Z.eqb Pos.eqb].
  change (flag 2 2) with true. change (flag 2 1) with false.
  assert (E4 : at_ packet 4 = 183) by apply (H7 0 ltac:(lia)). rewrite E4. cbn -[parseAdaptation].
  assert (Ead : parseAdaptation packet 183 = Success (di, Some wire)).
  { unfold parseAdaptation. assert (E5 : at_ packet 5 = flags) by apply (H7 1 ltac:(lia)). rewrite E5.
    replace (flag flags 0x80) with di by (by destruct di). replace (flag flags 0x10) with true by (by destruct di).
    replace (flag flags 0x08) with false by (by destruct di).
    replace (flag flags 0x04) with false by (by destruct di).
    replace (flag flags 0x02) with false by (by destruct di).
    replace (flag flags 0x01) with false by (by destruct di).
    rewrite (parseClock_ok packet (5 + 183) 6 wire);
      [| lia | vm_compute; discriminate | apply (H7 2); lia | apply (H7 3); lia | apply (H7 4); lia
      | apply (H7 5); lia | apply (H7 6); lia | apply (H7 7); lia].
    cbn [bindResult]. rewrite checkStuffing_ok; [done |]. intros i Hi.
    replace i with (4 + (1 + (1 + (1 + (1 + (1 + (1 + (1 + (1 + (i - 12)))))))))) by lia.
    rewrite H7 by lia. unfold rest, clock. cbn [app]. rewrite !at_cons by lia.
    apply at_replicate. lia. }
  by rewrite Ead.
Qed.

(** ** What a recording sink sees *)

Definition eventsOf (v : MediaTsPacketView) : list SinkEvent :=
  (if v_discontinuity v
   then [ContinuityEvent (mkContinuityEvent (v_byteOffset v) (v_pid v) DiscontinuityIndicator)]
   else []) ++ [PacketEvent v].

Lemma deliver_recorded di v l : v_discontinuity v = di ->
  deliver di v l = (Success tt, l ++ eventsOf v).
Proof. intros <-. unfold deliver, eventsOf. destruct (v_discontinuity v); simpl; [by rewrite <- app_assoc | done]. Qed.

Lemma deliverAll_recorded views l :
  deliverAll views l = (Success tt, l ++ concat (eventsOf <$> views)).
Proof.
  revert l. induction views as [| v vs IH]; intros l; simpl; [by rewrite app_nil_r |].
  rewrite deliver_recorded by done. rewrite IH. by rewrite app_assoc.
Qed.

(** C34: A unit cut into transport packets by the builder and fed to the parser
    in any chunks comes back whole: no continuity loss is reported, the packets
    carry the given PID, the unit start flag on the first one only, consecutive
    counters, the discontinuity indicator when asked for, no PCR, and their
    payloads in order are the bytes of the unit; there are as many as
    [payloadPacketCount] says. *)
Theorem unit_roundtrip pid cc segments ra di packets chunks :
  payload pid cc segments ra di = Success packets -> 0 <= pid -> 0 <= cc ->
  concat chunks = concat packets -> Z.of_nat (length (concat packets)) <= uint64_max ->
  exists views p,
    feed chunks (freshParser, []) = (Success tt, (p, concat (eventsOf <$> views))) /\
    unitViews pid cc di 0 (concat segments) views /\
    payloadPacketCount segments ra di = Success (Z.of_nat (length views)).
Proof.
  intros Hpay Hp Hc Hcat Hmax.
  destruct (parseAll_unit pid cc segments ra di packets 0 None ∅ (@nil SinkEvent) Hpay Hp Hc)
    as (views & Hv & Hl & Hw & Hne & Hn & Hpa); [done | done |].
  rewrite deliverAll_recorded in Hpa. destruct Hpa as (e' & m' & Hpa & _).
  pose proof (feed_packets packets chunks (@nil SinkEvent) Hw Hne Hcat Hmax) as Hf. rewrite Hpa in Hf.
  destruct Hf as ([[] |] & p & -> & Hr & _); [| done].
  exists views, p. split; [done |]. split; [done |]. by rewrite Hl.
Qed.

(** Two segments of 300 bytes, a random access point, cut in odd chunks. *)
Lemma unit_roundtrip_witness :
  exists packets, payload 256 15 [replicate 100 0x01; replicate 200 0x02] true false = Success packets /\
  exists views p,
    feed [take 77 (concat packets); drop 77 (concat packets)] (freshParser, []) =
      (Success tt, (p, concat (eventsOf <$> views))) /\
    unitViews 256 15 false 0 (concat [replicate 100 0x01; replicate 200 0x02]) views /\
    payloadPacketCount [replicate 100 0x01; replicate 200 0x02] true false =
      Success (Z.of_nat (length views)).
Proof.
  destruct (payload 256 15 [replicate 100 0x01; replicate 200 0x02] true false) as [packets |] eqn:E;
    [| vm_compute in E; discriminate].
  exists packets. split; [reflexivity |]. eapply (unit_roundtrip 256 15 _ true false packets).
  - exact E.
  - lia.
  - lia.
  - cbn [concat]. by rewrite app_nil_r, take_drop.
  - vm_compute in E. injection E as <-. vm_compute. discriminate.
Defined.

(** A PCR packet carries the 27 MHz clock exactly: after the packets of a
    unit on the same PID, the parser reads from the PCR packet the clock value
    the builder was given, and the packet, sent with the counter of the last
    payload packet, is not reported as a continuity loss. *)
Theorem pcr_roundtrip pid cc segments ra di packets wire pcrDi pcr chunks :
  payload pid cc segments ra di = Success packets -> 0 <= pid -> 0 <= cc ->
  pcrOnly pid ((cc + Z.of_nat (length packets)) mod 16) wire pcrDi = Success pcr -> 0 <= wire ->
  concat chunks = concat (packets ++ [pcr]) ->
  Z.of_nat (length (concat (packets ++ [pcr]))) <= uint64_max ->
  exists views p,
    feed chunks (freshParser, []) =
      (Success tt, (p, concat (eventsOf <$> views ++
         [mkPacketView (188 * Z.of_nat (length packets)) pid false
            ((cc + Z.of_nat (length packets) - 1) mod 16) pcrDi (Some wire) []]))) /\
    unitViews pid cc di 0 (concat segments) views.
Proof.
  intros Hpay Hp Hc Hpcr Hw Hcat Hmax.
  destruct (parseAll_unit pid cc segments ra di packets 0 None ∅ (@nil SinkEvent) Hpay Hp Hc)
    as (views & Hv & Hl & Hwh & Hne & Hn & Hpa); [done | done |].
  rewrite deliverAll_recorded in Hpa. destruct Hpa as (e1 & m1 & Hpa & Hdone).
  destruct (Hdone eq_refl) as [He1 ->]. clear Hdone.
  set (n := length packets) in *. set (next := (cc + Z.of_nat n) mod 16) in *.
  assert (Hn1 : (1 <= n)%nat) by (unfold n; destruct packets; [done | simpl; lia]).
  assert (Hmod : (next + 15) mod 16 = (cc + Z.of_nat n - 1) mod 16) by (unfold next; divmod).
  destruct (parse_pcrOnly pid next wire pcrDi pcr (188 * Z.of_nat n) Hpcr Hp ltac:(unfold next; divmod) Hw)
    as [E Hwp]. rewrite Hmod in E.
  assert (He : evidenceOffset e1 <> Some (188 * Z.of_nat n)) by (rewrite He1; intros [= ?]; lia).
  pose proof (parseCore_deliver pcr _ _ e1 (<[pid := lastCounter cc (n - 1)]> ∅)
    (concat (eventsOf <$> views)) E eq_refl He) as H.
  cbn [pe_view ev_discontinuity] in H. rewrite deliver_recorded in H by done.
  destruct H as (e' & m' & Hpc & _).
  { intros _. unfold counterExpected. cbn. rewrite lookup_insert_eq. unfold lastCounter. f_equal. lia. }
  pose proof (feed_packets (packets ++ [pcr]) chunks (@nil SinkEvent)) as Hf.
  rewrite parseAll_app, Hpa, Z.add_0_l in Hf. fold n in Hf. cbn [app] in Hf. rewrite Hpc in Hf.
  destruct Hf as ([[] |] & p & -> & Hr & _); try done.
  { apply Forall_app. split; [done |]. by apply Forall_singleton. }
  { by destruct packets. }
  exists views, p. split; [| done]. rewrite fmap_app, concat_app. cbn [fmap list_fmap concat].
  by rewrite app_nil_r.
Qed.

Lemma pcr_roundtrip_witness :
  exists packets pcr, payload 256 3 [replicate 10 0x01] false true = Success packets /\
  pcrOnly 256 4 (2 ^ 33 * 300 - 1) false = Success pcr /\
  exists views p,
    feed [take 200 (concat (packets ++ [pcr])); drop 200 (concat (packets ++ [pcr]))] (freshParser, []) =
      (Success tt, (p, concat (eventsOf <$> views ++
         [mkPacketView (188 * Z.of_nat (length packets)) 256 false
            ((3 + Z.of_nat (length packets) - 1) mod 16) false (Some (2 ^ 33 * 300 - 1)) []]))) /\
    unitViews 256 3 true 0 (concat [replicate 10 0x01]) views.
Proof.
  destruct (payload 256 3 [replicate 10 0x01] false true) as [packets |] eqn:E;
    [| vm_compute in E; discriminate].
  destruct (pcrOnly 256 4 (2 ^ 33 * 300 - 1) false) as [pcr |] eqn:E2; [| vm_compute in E2; discriminate].
  exists packets, pcr. split; [reflexivity |]. split; [reflexivity |].
  assert (Hn : length packets = 1%nat) by (vm_compute in E; by injection E as <-).
  eapply (pcr_roundtrip 256 3 _ false true packets (2 ^ 33 * 300 - 1) false pcr).
  - exact E.
  - lia.
  - lia.
  - rewrite Hn. exact E2.
  - lia.
  - cbn [concat]. by rewrite app_nil_r, take_drop.
  - clear Hn. vm_compute in E. injection E as <-. vm_compute in E2. injection E2 as <-. vm_compute. discriminate.
Defined.

End MediaTsRoundTrip.
