(* ===== verification/TsPsi.v ===== *)
(** * The mux plan and the program tables

    Models [protocol/mpegts/MediaMpegTsTimingPolicy.cpp],
    [MediaTsVideoElementaryStreamContract.cpp], [MediaTsMuxPlan.cpp] (the
    validated parameters of an output program) and [MediaTsPsiSerializer.cpp]
    (the PAT and PMT sections written from them).  A [MediaRunningTime] is its
    number of nanoseconds.  Enumerations have the source's values only, so the
    [default] branches for values outside them have no counterpart. *)

From S2P Require Import Prelude MediaResult TsCrc.

Local Open Scope Z_scope.
Local Open Scope result_scope.

Module MediaTsMuxPlan.

(** ** Timing policy *)

Inductive MediaMpegTsTimingConstraintSource :=
  | ConstraintUnknown | ProtocolMaximum | ReceiverCapability | PreparedCadence
  | DeploymentServiceSlo | PlannerDerivedMinimum.

#[export] Instance ConstraintSource_eq_dec : EqDecision MediaMpegTsTimingConstraintSource.
Proof. solve_decision. Defined.

Record MediaMpegTsTimingConstraint := mkConstraint {
  c_value : Z;
  c_authority : string;
  c_source : MediaMpegTsTimingConstraintSource;
}.

Definition constraintValid (c : MediaMpegTsTimingConstraint) : bool :=
  (0 <? c_value c) && negb (bool_decide (c_authority c = ""%string)) &&
  negb (bool_decide (c_source c = ConstraintUnknown)).

Record MediaMpegTsTimingPolicy := mkTiming {
  t_pcrInterval : MediaMpegTsTimingConstraint;
  t_maximumPcrGap : MediaMpegTsTimingConstraint;
  t_psiRepeatInterval : MediaMpegTsTimingConstraint;
  t_maximumReleaseJitter : MediaMpegTsTimingConstraint;
  t_timeBaseNumerator : Z;
  t_timeBaseDenominator : Z;
}.

Definition createTiming (pcrInterval maximumPcrGap psiRepeatInterval maximumReleaseJitter :
    MediaMpegTsTimingConstraint) (numerator denominator : Z) : Result MediaMpegTsTimingPolicy :=
  if negb (constraintValid pcrInterval) || negb (constraintValid maximumPcrGap) ||
     negb (constraintValid psiRepeatInterval) || negb (constraintValid maximumReleaseJitter) ||
     (c_value maximumPcrGap <=? c_value pcrInterval) ||
     (c_value psiRepeatInterval <=? c_value pcrInterval) ||
     (c_value pcrInterval <=? c_value maximumReleaseJitter) ||
     (numerator <=? 0) || (denominator <=? 0)
  then failure (invalidArgument "MPEG-TS timing policy requires authoritative ordered PCR, PSI, release-jitter, and clock constraints")
  else Success (mkTiming pcrInterval maximumPcrGap psiRepeatInterval maximumReleaseJitter
                  numerator denominator).

Record MediaTsOutputClockPolicy := mkClockPolicy {
  k_pcrInterval : Z;
  k_maximumPcrGap : Z;
  k_maximumPcrJitter : Z;
  k_timeBaseNumerator : Z;
  k_timeBaseDenominator : Z;
}.

Definition clockPolicy (t : MediaMpegTsTimingPolicy) : MediaTsOutputClockPolicy :=
  mkClockPolicy (c_value (t_pcrInterval t)) (c_value (t_maximumPcrGap t))
    (c_value (t_maximumReleaseJitter t)) (t_timeBaseNumerator t) (t_timeBaseDenominator t).

(** ** Video contract *)

Inductive MediaTsVideoCodec := TsH264 | TsHevc.
Inductive MediaTsNalLayout := AnnexB | LengthPrefixed.

Record MediaTsVideoElementaryStreamContract := mkVideoContract {
  vc_codec : MediaTsVideoCodec;
  vc_layout : MediaTsNalLayout;
  vc_nalLengthBytes : Z;
  vc_streamType : Z;
}.

Definition H264StreamType : Z := 0x1B.
Definition HevcStreamType : Z := 0x24.

Definition validCodecStreamType (codec : MediaTsVideoCodec) (streamType : Z) : bool :=
  match codec with
  | TsH264 => streamType =? H264StreamType
  | TsHevc => streamType =? HevcStreamType
  end.

Definition createVideoContract (codec : MediaTsVideoCodec) (layout : MediaTsNalLayout)
    (nalLengthBytes streamType : Z) : Result MediaTsVideoElementaryStreamContract :=
  if negb (validCodecStreamType codec streamType)
  then failure (invalidArgument "MPEG-TS video codec and PMT stream type conflict")
  else match layout with
       | AnnexB =>
           if negb (nalLengthBytes =? 0)
           then failure (invalidArgument "MPEG-TS Annex-B video contract cannot carry a NAL length width")
           else Success (mkVideoContract codec layout nalLengthBytes streamType)
       | LengthPrefixed =>
           if (nalLengthBytes <? 1) || (4 <? nalLengthBytes)
           then failure (invalidArgument "MPEG-TS length-prefixed video contract requires a NAL length width from one through four bytes")
           else Success (mkVideoContract codec layout nalLengthBytes streamType)
       end.

(** ** Parameters of the mux *)

Inductive MediaOutputTransportKind := UdpDatagrams | RtpAvp.
Inductive MediaTsParameterSetPolicy := ParameterSetsNever | ParameterSetsBeforeRandomAccess.

#[export] Instance TransportKind_eq_dec : EqDecision MediaOutputTransportKind.
Proof. solve_decision. Defined.

Record MediaTsVideoContinuitySeeds := mkVideoSeeds { vs_pat : Z; vs_pmt : Z; vs_video : Z }.

Record MediaTsAacAdtsPlan := mkAac {
  aac_mpegId : Z;
  aac_audioObjectType : Z;
  aac_samplingFrequencyIndex : Z;
  aac_channelConfiguration : Z;
}.

Record MediaTsVideoOnlyProgramPlan := mkVideoOnly {
  vo_videoPid : Z;
  vo_pcrPid : Z;
  vo_videoStreamType : Z;
  vo_continuity : MediaTsVideoContinuitySeeds;
}.

Record MediaTsAudioVideoContinuitySeeds := mkAvSeeds {
  avs_pat : Z; avs_pmt : Z; avs_video : Z; avs_audio : Z }.

Record MediaTsAudioVideoProgramPlan := mkAudioVideo {
  av_videoPid : Z;
  av_audioPid : Z;
  av_pcrPid : Z;
  av_videoStreamType : Z;
  av_audioStreamType : Z;
  av_aac : MediaTsAacAdtsPlan;
  av_continuity : MediaTsAudioVideoContinuitySeeds;
  av_maximumAudioAccessUnitSamples : Z;
}.

Inductive MediaTsProgramPlan :=
  | VideoOnly (p : MediaTsVideoOnlyProgramPlan)
  | AudioVideo (p : MediaTsAudioVideoProgramPlan).

Record MediaTsMuxPlanParameters := mkParameters {
  mp_transportStreamId : Z;
  mp_programNumber : Z;
  mp_patPid : Z;
  mp_programMapPid : Z;
  mp_tableVersion : Z;
  mp_timing : MediaMpegTsTimingPolicy;
  mp_program : MediaTsProgramPlan;
  mp_video : MediaTsVideoElementaryStreamContract;
  mp_parameterSetPolicy : MediaTsParameterSetPolicy;
  mp_transportDecodeLead : Z;
  mp_startupEmissionPreroll : Z;
  mp_packetSize : Z;
  mp_maximumPacketsPerDatagram : Z;
  mp_transportKind : MediaOutputTransportKind;
}.

(** The defaulted [operator==] of the program plans. *)
#[export] Instance VideoSeeds_eq_dec : EqDecision MediaTsVideoContinuitySeeds.
Proof. solve_decision. Defined.
#[export] Instance AacAdtsPlan_eq_dec : EqDecision MediaTsAacAdtsPlan.
Proof. solve_decision. Defined.
#[export] Instance VideoOnlyProgramPlan_eq_dec : EqDecision MediaTsVideoOnlyProgramPlan.
Proof. solve_decision. Defined.
#[export] Instance AudioVideoSeeds_eq_dec : EqDecision MediaTsAudioVideoContinuitySeeds.
Proof. solve_decision. Defined.
#[export] Instance AudioVideoProgramPlan_eq_dec : EqDecision MediaTsAudioVideoProgramPlan.
Proof. solve_decision. Defined.
#[export] Instance ProgramPlan_eq_dec : EqDecision MediaTsProgramPlan.
Proof. solve_decision. Defined.

Definition MinimumAssignablePid : Z := 0x0020.
Definition MuxNullPid : Z := 0x1FFF.
Definition RtpFixedHeaderBytes : Z := 12.

Definition assignablePid (pid : Z) : bool := (MinimumAssignablePid <=? pid) && (pid <? MuxNullPid).

Definition validVideoSeeds (s : MediaTsVideoContinuitySeeds) : bool :=
  (vs_pat s <=? 15) && (vs_pmt s <=? 15) && (vs_video s <=? 15).

Definition validAvSeeds (s : MediaTsAudioVideoContinuitySeeds) : bool :=
  (avs_pat s <=? 15) && (avs_pmt s <=? 15) && (avs_video s <=? 15) && (avs_audio s <=? 15).

Definition planVideoPid (p : MediaTsProgramPlan) : Z :=
  match p with VideoOnly v => vo_videoPid v | AudioVideo a => av_videoPid a end.
Definition planPcrPid (p : MediaTsProgramPlan) : Z :=
  match p with VideoOnly v => vo_pcrPid v | AudioVideo a => av_pcrPid a end.
Definition planVideoStreamType (p : MediaTsProgramPlan) : Z :=
  match p with VideoOnly v => vo_videoStreamType v | AudioVideo a => av_videoStreamType a end.

(** A test on the audio-video plan; false for a video-only one. *)
Definition onAudioVideo (p : MediaTsProgramPlan) (test : MediaTsAudioVideoProgramPlan -> bool) : bool :=
  match p with VideoOnly _ => false | AudioVideo a => test a end.

Definition maximumPacketsPerDatagram (maximumUdpPayloadBytes : Z)
    (transportKind : MediaOutputTransportKind) : Result Z :=
  let protocolHeaderBytes :=
    match transportKind with RtpAvp => RtpFixedHeaderBytes | UdpDatagrams => 0 end in
  if maximumUdpPayloadBytes <=? protocolHeaderBytes
  then failure (invalidArgument "MPEG-TS datagram cannot carry one complete TS packet")
  else
    let packetCount := (maximumUdpPayloadBytes - protocolHeaderBytes) / 188 in
    if (packetCount =? 0) || (65535 <? packetCount)
    then failure (invalidArgument "MPEG-TS packet geometry is outside the protocol plan range")
    else Success (u16 packetCount).

Definition invalidPlan {A} (reason : string) : Result A :=
  failure (invalidArgument (String.append "MPEG-TS mux plan " reason)).

(** [MediaTsMuxPlan::create]: the plan is its parameters. *)
Definition createPlan (p : MediaTsMuxPlanParameters) : Result MediaTsMuxPlanParameters :=
  let videoPid := planVideoPid (mp_program p) in
  let pcrPid := planPcrPid (mp_program p) in
  if (mp_transportStreamId p =? 0) || (mp_programNumber p =? 0)
  then invalidPlan "requires nonzero transport-stream and program identity"
  else if negb (mp_patPid p =? 0) || negb (assignablePid (mp_programMapPid p)) ||
          negb (assignablePid videoPid) || negb (assignablePid pcrPid) ||
          onAudioVideo (mp_program p) (fun a => negb (assignablePid (av_audioPid a)))
  then invalidPlan "contains a reserved or unsupported PID"
  else if (mp_programMapPid p =? videoPid) ||
          onAudioVideo (mp_program p) (fun a =>
            (mp_programMapPid p =? av_audioPid a) || (videoPid =? av_audioPid a)) ||
          negb (pcrPid =? videoPid)
  then invalidPlan "requires distinct PMT/ES PIDs and an ES PCR PID"
  else if (31 <? mp_tableVersion p) || (c_value (t_psiRepeatInterval (mp_timing p)) <=? 0) ||
          (c_value (t_psiRepeatInterval (mp_timing p)) <=? c_value (t_pcrInterval (mp_timing p)))
  then invalidPlan "contains an invalid PSI cadence or version"
  else if negb (planVideoStreamType (mp_program p) =? vc_streamType (mp_video p)) ||
          onAudioVideo (mp_program p) (fun a => negb (av_audioStreamType a =? 0x0F))
  then invalidPlan "contains conflicting video or AAC stream types"
  else if onAudioVideo (mp_program p) (fun a =>
            (1 <? aac_mpegId (av_aac a)) || (aac_audioObjectType (av_aac a) <? 1) ||
            (4 <? aac_audioObjectType (av_aac a)) || (12 <? aac_samplingFrequencyIndex (av_aac a)) ||
            (aac_channelConfiguration (av_aac a) <? 1) || (7 <? aac_channelConfiguration (av_aac a)) ||
            (av_maximumAudioAccessUnitSamples a <=? 0))
  then invalidPlan "contains an invalid AAC ADTS contract"
  else
    let clock := clockPolicy (mp_timing p) in
    if (k_pcrInterval clock <=? 0) || (k_maximumPcrGap clock <=? k_pcrInterval clock) ||
       (k_maximumPcrJitter clock <=? 0) || (k_pcrInterval clock <=? k_maximumPcrJitter clock) ||
       negb (k_timeBaseNumerator clock =? 1) || negb (k_timeBaseDenominator clock =? 90000)
    then invalidPlan "contains an invalid output clock policy"
    else if (mp_transportDecodeLead p <=? 0) || (mp_startupEmissionPreroll p <=? 0) ||
            (mp_transportDecodeLead p <? mp_startupEmissionPreroll p) ||
            negb (mp_packetSize p =? 188) ||
            match mp_program p with
            | VideoOnly v => negb (validVideoSeeds (vo_continuity v))
            | AudioVideo a => negb (validAvSeeds (av_continuity a))
            end ||
            (mp_maximumPacketsPerDatagram p <? 1)
    then invalidPlan "contains an invalid transport contract"
    else Success p.

End MediaTsMuxPlan.

Module MediaTsPsiSerializer.
Import MediaTsMuxPlan MediaTsCrc32.

Definition appendU16 (output : list Z) (value : Z) : list Z :=
  output ++ [u8 (Z.shiftr value 8); u8 value].

Definition appendPid (output : list Z) (pid reservedPrefix : Z) : list Z :=
  output ++ [u8 (Z.lor reservedPrefix (Z.shiftr pid 8)); u8 pid].

Definition versionByte (tableVersion : Z) : Z := u8 (Z.lor 0xC1 (Z.shiftl tableVersion 1)).

Definition serializePat (p : MediaTsMuxPlanParameters) : list Z :=
  let section := [0x00; 0xB0; 0x0D] in
  let section := appendU16 section (mp_transportStreamId p) in
  let section := section ++ [versionByte (mp_tableVersion p)] in
  let section := section ++ [0x00; 0x00] in
  let section := appendU16 section (mp_programNumber p) in
  let section := appendPid section (mp_programMapPid p) 0xE0 in
  appendCrc section.

Definition serializePmt (p : MediaTsMuxPlanParameters) : list Z :=
  let section := match mp_program p with
                 | VideoOnly _ => [0x02; 0xB0; 0x12]
                 | AudioVideo _ => [0x02; 0xB0; 0x17]
                 end in
  let section := appendU16 section (mp_programNumber p) in
  let section := section ++ [versionByte (mp_tableVersion p)] in
  let section := section ++ [0x00; 0x00] in
  let section := appendPid section (planPcrPid (mp_program p)) 0xE0 in
  let section := section ++ [0xF0; 0x00] in
  let section := section ++ [planVideoStreamType (mp_program p)] in
  let section := appendPid section (planVideoPid (mp_program p)) 0xE0 in
  let section := section ++ [0xF0; 0x00] in
  let section := match mp_program p with
                 | VideoOnly _ => section
                 | AudioVideo a =>
                     let section := section ++ [av_audioStreamType a] in
                     let section := appendPid section (av_audioPid a) 0xE0 in
                     section ++ [0xF0; 0x00]
                 end in
  appendCrc section.

(** What a section remembers of the plan it was written for. *)
Record MediaTsPsiPlanIdentity := mkPsiIdentity {
  id_patPid : Z;
  id_transportStreamId : Z;
  id_programNumber : Z;
  id_programMapPid : Z;
  id_tableVersion : Z;
  id_program : MediaTsProgramPlan;
}.

Definition psiIdentity (p : MediaTsMuxPlanParameters) : MediaTsPsiPlanIdentity :=
  mkPsiIdentity (mp_patPid p) (mp_transportStreamId p) (mp_programNumber p) (mp_programMapPid p)
    (mp_tableVersion p) (mp_program p).

Definition identityMatches (i : MediaTsPsiPlanIdentity) (p : MediaTsMuxPlanParameters) : bool :=
  (id_patPid i =? mp_patPid p) && (id_transportStreamId i =? mp_transportStreamId p) &&
  (id_programNumber i =? mp_programNumber p) && (id_programMapPid i =? mp_programMapPid p) &&
  (id_tableVersion i =? mp_tableVersion p) && bool_decide (id_program i = mp_program p).

(** [MediaTsPatSection] and [MediaTsPmtSection] have the same members. *)
Record MediaTsPsiSection := mkPsiSection {
  sec_identity : MediaTsPsiPlanIdentity;
  sec_bytes : list Z;
}.

Record MediaTsProgramTables := mkTables {
  tables_pat : MediaTsPsiSection;
  tables_pmt : MediaTsPsiSection;
}.

Definition serialize (p : MediaTsMuxPlanParameters) : Result MediaTsProgramTables :=
  let identity := psiIdentity p in
  Success (mkTables (mkPsiSection identity (serializePat p)) (mkPsiSection identity (serializePmt p))).

(** Sections are accepted by the plan they were written for. *)
Lemma identityMatches_self p : identityMatches (psiIdentity p) p = true.
Proof.
  unfold identityMatches, psiIdentity. simpl. rewrite !Z.eqb_refl. by rewrite bool_decide_eq_true_2.
Qed.

End MediaTsPsiSerializer.
