(* ===== verification/TsSections.v ===== *)
(** * Assembling program tables

    Models [protocol/mpegts/MediaTsPsiSectionAssembler.{h,cpp}] and
    [MediaTsProgramInventory.h]: PSI sections are put together from packet
    payloads, checked, collected into PAT and PMT tables per version, and an
    inventory of the programs is published when it is complete and new.

    The assembler is a packet sink: the instance [assemblerSink] implements the
    interface the packet parser calls, for any implementation of the interface
    the assembler calls in turn ([MediaTsProgramInventorySink]). *)

From stdpp Require Import gmap.
From S2P Require Import Prelude MediaResult TsCrc TsParser.
Import MediaTsPacketParser MediaTsCrc32.

Local Open Scope Z_scope.
Local Open Scope result_scope.

Module MediaTsPsiSectionAssembler.

(** ** Data *)

Record MediaTsElementaryStreamInfo := mkStreamInfo { es_pid : Z; es_streamType : Z }.

#[export] Instance StreamInfo_eq_dec : EqDecision MediaTsElementaryStreamInfo.
Proof. solve_decision. Defined.

Record MediaTsProgramInfo := mkProgramInfo {
  pi_programNumber : Z;
  pi_pmtPid : Z;
  pi_pmtVersion : Z;
  pi_pcrPid : Z;
  pi_elementaryStreams : list MediaTsElementaryStreamInfo;
}.

#[export] Instance ProgramInfo_eq_dec : EqDecision MediaTsProgramInfo.
Proof. solve_decision. Defined.

Record MediaTsProgramInventorySnapshot := mkSnapshot {
  sn_patVersion : Z;
  sn_programs : list MediaTsProgramInfo;
}.

#[export] Instance Snapshot_eq_dec : EqDecision MediaTsProgramInventorySnapshot.
Proof. solve_decision. Defined.

Class MediaTsProgramInventorySink (K : Type) := {
  onProgramInventory : MediaTsProgramInventorySnapshot -> K -> Status * K;
}.

Record SectionState := mkSection { ss_bytes : list Z; ss_expectedSize : option Z }.

Record PatProgram := mkPatProgram { pp_programNumber : Z; pp_pmtPid : Z }.

#[export] Instance PatProgram_eq_dec : EqDecision PatProgram.
Proof. solve_decision. Defined.

Record PatTableAssembly := mkPat {
  pat_transportStreamId : Z;
  pat_version : Z;
  pat_lastSectionNumber : Z;
  pat_sections : gmap Z (list PatProgram);
}.

Record PmtTableAssembly := mkPmt {
  pmt_programNumber : Z;
  pmt_version : Z;
  pmt_lastSectionNumber : Z;
  pmt_pcrPid : Z;
  pmt_sections : gmap Z (list MediaTsElementaryStreamInfo);
}.

Record Assembler := mkAssembler {
  m_sections : gmap Z SectionState;
  m_patAssembly : option PatTableAssembly;
  m_patVersion : option Z;
  m_patPrograms : list PatProgram;
  m_pmtAssemblies : gmap Z PmtTableAssembly;
  m_programsByPmtPid : gmap Z MediaTsProgramInfo;
  m_lastPublished : option MediaTsProgramInventorySnapshot;
}.

Definition emptyAssembler : Assembler := mkAssembler ∅ None None [] ∅ ∅ None.

Definition setSections (s : gmap Z SectionState) (a : Assembler) : Assembler :=
  mkAssembler s (m_patAssembly a) (m_patVersion a) (m_patPrograms a) (m_pmtAssemblies a)
    (m_programsByPmtPid a) (m_lastPublished a).

Definition setPmt (assemblies : gmap Z PmtTableAssembly) (programs : gmap Z MediaTsProgramInfo)
    (a : Assembler) : Assembler :=
  mkAssembler (m_sections a) (m_patAssembly a) (m_patVersion a) (m_patPrograms a) assemblies
    programs (m_lastPublished a).

Definition setPublished (s : option MediaTsProgramInventorySnapshot) (a : Assembler) : Assembler :=
  mkAssembler (m_sections a) (m_patAssembly a) (m_patVersion a) (m_patPrograms a)
    (m_pmtAssemblies a) (m_programsByPmtPid a) s.

Definition setPatAssembly (pat : PatTableAssembly) (a : Assembler) : Assembler :=
  mkAssembler (m_sections a) (Some pat) (m_patVersion a) (m_patPrograms a)
    (m_pmtAssemblies a) (m_programsByPmtPid a) (m_lastPublished a).

(** ** Helpers *)

Definition invalidSection {A} (message : string) : Result A := failure (invalidArgument message).

Definition readU16 (bytes : list Z) (offset : Z) : Z :=
  u16 (Z.lor (Z.shiftl (at_ bytes offset) 8) (at_ bytes (offset + 1))).

(** A 13-bit PID and a 12-bit length, each with flag bits above it. *)
Definition readPid (bytes : list Z) (offset : Z) : Z :=
  u16 (Z.lor (Z.shiftl (Z.land (at_ bytes offset) 0x1F) 8) (at_ bytes (offset + 1))).

Definition readLength (bytes : list Z) (offset : Z) : Z :=
  Z.lor (Z.shiftl (Z.land (at_ bytes offset) 0x0F) 8) (at_ bytes (offset + 1)).

Definition size_of (bytes : list Z) : Z := Z.of_nat (length bytes).

Definition validateLongSection (section : list Z) (tableId minimumSize : Z) : Status :=
  if size_of section <? minimumSize then invalidSection "MPEG-TS PSI section is too short"
  else if negb (at_ section 0 =? tableId)
  then invalidSection "MPEG-TS PSI table id is invalid for PID"
  else if negb (Z.land (at_ section 1) 0xF0 =? 0xB0)
  then invalidSection "MPEG-TS PSI section header reserved bits are invalid"
  else
    let sectionLength := readLength section 1 in
    if (1021 <? sectionLength) || negb (sectionLength + 3 =? size_of section)
    then invalidSection "MPEG-TS PSI section length is invalid"
    else if negb (Z.land (at_ section 5) 0xC0 =? 0xC0)
    then invalidSection "MPEG-TS PSI version reserved bits are invalid"
    else if Z.land (at_ section 5) 0x01 =? 0
    then invalidSection "MPEG-TS PSI current_next is not current"
    else if at_ section 7 <? at_ section 6
    then invalidSection "MPEG-TS PSI section number exceeds last section"
    else if negb (compute section =? 0)
    then invalidSection "MPEG-TS PSI CRC32 is invalid"
    else Success tt.

Definition sectionVersion (section : list Z) : Z := Z.land (Z.shiftr (at_ section 5) 1) 0x1F.

(** The program loop of a PAT section. *)
Fixpoint patLoop (fuel : nat) (section : list Z) (offset : Z) (numbers pids : gset Z)
    (programs : list PatProgram) : Result (list PatProgram) :=
  match fuel with
  | O => Success programs
  | S fuel' =>
      if negb (offset <? size_of section - 4) then Success programs
      else
        let programNumber := readU16 section offset in
        let pid := readPid section (offset + 2) in
        if negb (Z.land (at_ section (offset + 2)) 0xE0 =? 0xE0)
        then invalidSection "MPEG-TS PAT PID reserved bits are invalid"
        else if programNumber =? 0 then patLoop fuel' section (offset + 4) numbers pids programs
        else if (pid =? 0x1FFF) || bool_decide (programNumber ∈ numbers) || bool_decide (pid ∈ pids)
        then invalidSection "MPEG-TS PAT has invalid or duplicate program mapping"
        else patLoop fuel' section (offset + 4) ({[programNumber]} ∪ numbers) ({[pid]} ∪ pids)
               (programs ++ [mkPatProgram programNumber pid])
  end.

(** The elementary stream loop of a PMT section. *)
Fixpoint pmtLoop (fuel : nat) (section : list Z) (crcOffset offset : Z) (pids : gset Z)
    (streams : list MediaTsElementaryStreamInfo) : Result (list MediaTsElementaryStreamInfo) :=
  match fuel with
  | O => Success streams
  | S fuel' =>
      if negb (offset <? crcOffset) then Success streams
      else if crcOffset - offset <? 5
      then invalidSection "MPEG-TS PMT elementary stream entry is truncated"
      else if negb (Z.land (at_ section (offset + 1)) 0xE0 =? 0xE0) ||
              negb (Z.land (at_ section (offset + 3)) 0xF0 =? 0xF0)
      then invalidSection "MPEG-TS PMT elementary stream reserved bits are invalid"
      else
        let streamPid := readPid section (offset + 1) in
        let infoLength := readLength section (offset + 3) in
        if (streamPid =? 0x1FFF) || bool_decide (streamPid ∈ pids)
        then invalidSection "MPEG-TS PMT has invalid or duplicate elementary PID"
        else if crcOffset - offset - 5 <? infoLength
        then invalidSection "MPEG-TS PMT elementary descriptors exceed section"
        else pmtLoop fuel' section crcOffset (offset + 5 + infoLength) ({[streamPid]} ∪ pids)
               (streams ++ [mkStreamInfo streamPid (at_ section offset)])
  end.

(** The loops that join the sections of a table: a missing section, an element
    whose keys were seen before, or all the elements. *)
Inductive Joined (A : Type) := JoinMissing | JoinDuplicate | JoinAll (l : list A).
Arguments JoinMissing {A}.
Arguments JoinDuplicate {A}.
Arguments JoinAll {A} l.

(** The inner loop: [keys] are the values inserted into sets, one set per key. *)
Fixpoint joinPart {A} (keys : A -> list Z) (part : list A) (seen : list (gset Z)) (joined : list A) :
    option (list (gset Z) * list A) :=
  match part with
  | [] => Some (seen, joined)
  | x :: part' =>
      if existsb (fun '(k, s) => bool_decide (k ∈ s)) (zip (keys x) seen) then None
      else joinPart keys part' (zip_with (fun k s => {[k]} ∪ s) (keys x) seen) (joined ++ [x])
  end.

Fixpoint joinSections {A} (keys : A -> list Z) (sections : gmap Z (list A)) (numbers : list Z)
    (seen : list (gset Z)) (joined : list A) : Joined A :=
  match numbers with
  | [] => JoinAll joined
  | number :: numbers' =>
      match sections !! number with
      | None => JoinMissing
      | Some part =>
          match joinPart keys part seen joined with
          | None => JoinDuplicate
          | Some (seen', joined') => joinSections keys sections numbers' seen' joined'
          end
      end
  end.

Definition patKeys (p : PatProgram) : list Z := [pp_programNumber p; pp_pmtPid p].
Definition streamKeys (s : MediaTsElementaryStreamInfo) : list Z := [es_pid s].

(** ** Operations *)

Definition resetPidGeneration (pid : Z) (a : Assembler) : Assembler :=
  let sections := delete pid (m_sections a) in
  if pid =? 0 then mkAssembler sections None None [] ∅ ∅ None
  else mkAssembler sections (m_patAssembly a) (m_patVersion a) (m_patPrograms a)
         (delete pid (m_pmtAssemblies a)) (delete pid (m_programsByPmtPid a)) None.

Section Operations.
Context {K : Type} `{!MediaTsProgramInventorySink K}.

(** The end of [parsePat]: the section is added to the table [pat], which is the
    current one of [a]. *)
Definition addPatSection (version sectionNumber lastSectionNumber : Z)
    (sectionPrograms : list PatProgram) (pat : PatTableAssembly) (a : Assembler) : Status * Assembler :=
  match pat_sections pat !! sectionNumber with
  | Some existing =>
      if negb (bool_decide (existing = sectionPrograms))
      then (invalidSection "MPEG-TS PAT section changed without a version change", a)
      else (Success tt, a)
  | None =>
      let sections := <[sectionNumber := sectionPrograms]> (pat_sections pat) in
      let a := setPatAssembly (mkPat (pat_transportStreamId pat) (pat_version pat)
                 (pat_lastSectionNumber pat) sections) a in
      if negb (Z.of_nat (size sections) =? lastSectionNumber + 1) then (Success tt, a)
      else
        match joinSections patKeys sections (seqZ 0 (lastSectionNumber + 1)) [∅; ∅] [] with
        | JoinMissing => (Success tt, a)
        | JoinDuplicate =>
            (invalidSection "MPEG-TS PAT has duplicate program mapping across sections", a)
        | JoinAll [] => (invalidSection "MPEG-TS PAT contains no programs", a)
        | JoinAll programs =>
            (Success tt,
             mkAssembler (filter (fun kv => kv.1 = 0) (m_sections a)) (m_patAssembly a)
               (Some version) programs (m_pmtAssemblies a) (m_programsByPmtPid a)
               (m_lastPublished a))
        end
  end.

(** The status of [parsePat] and the assembler after it. *)
Definition parsePat (section : list Z) (a : Assembler) : Status * Assembler :=
  match validateLongSection section 0x00 12 with
  | Failure e => (Failure e, a)
  | Success _ =>
      if negb ((size_of section - 12) mod 4 =? 0)
      then (invalidSection "MPEG-TS PAT program loop is misaligned", a)
      else
        match patLoop (length section) section 8 ∅ ∅ [] with
        | Failure e => (Failure e, a)
        | Success sectionPrograms =>
            let version := sectionVersion section in
            let transportStreamId := readU16 section 3 in
            let sectionNumber := at_ section 6 in
            let lastSectionNumber := at_ section 7 in
            let add := addPatSection version sectionNumber lastSectionNumber sectionPrograms in
            let fresh := mkPat transportStreamId version lastSectionNumber ∅ in
            let restart :=
              add fresh (mkAssembler (m_sections a) (Some fresh) None [] ∅ ∅ (m_lastPublished a)) in
            match m_patAssembly a with
            | None => restart
            | Some pat =>
                if negb (pat_version pat =? version) then restart
                else if negb (pat_lastSectionNumber pat =? lastSectionNumber) ||
                        negb (pat_transportStreamId pat =? transportStreamId)
                then (invalidSection "MPEG-TS PAT identity changed without a version change", a)
                else add pat a
            end
        end
  end.

(** The snapshot loop of [publishIfComplete]; [None] when a program is missing. *)
Fixpoint snapshotPrograms (programs : gmap Z MediaTsProgramInfo) (mappings : list PatProgram) :
    option (list MediaTsProgramInfo) :=
  match mappings with
  | [] => Some []
  | m :: ms => match programs !! pp_pmtPid m with
               | None => None
               | Some p => (cons p) <$> snapshotPrograms programs ms
               end
  end.

Definition publishIfComplete : StateResult (Assembler * K) unit :=
  fun '(a, k) =>
    match m_patVersion a with
    | None => (Success tt, (a, k))
    | Some patVersion =>
        if negb (Nat.eqb (size (m_programsByPmtPid a)) (length (m_patPrograms a)))
        then (Success tt, (a, k))
        else
          match snapshotPrograms (m_programsByPmtPid a) (m_patPrograms a) with
          | None => (Success tt, (a, k))
          | Some programs =>
              let snapshot := mkSnapshot patVersion programs in
              if bool_decide (m_lastPublished a = Some snapshot) then (Success tt, (a, k))
              else
                match onProgramInventory snapshot k with
                | (Success _, k') => (Success tt, (setPublished (Some snapshot) a, k'))
                | (Failure e, k') => (Failure e, (a, k'))
                end
          end
    end.

(** The end of [parsePmt]: the section is added to the table [pmt] of the PID. *)
Definition addPmtSection (pid number version pcrPid sectionNumber lastSectionNumber : Z)
    (sectionStreams : list MediaTsElementaryStreamInfo) (pmt : PmtTableAssembly) :
    StateResult (Assembler * K) unit :=
  fun '(a, k) =>
    match pmt_sections pmt !! sectionNumber with
    | Some existing =>
        if negb (bool_decide (existing = sectionStreams))
        then (invalidSection "MPEG-TS PMT section changed without a version change", (a, k))
        else (Success tt, (a, k))
    | None =>
        let sections := <[sectionNumber := sectionStreams]> (pmt_sections pmt) in
        let pmt := mkPmt (pmt_programNumber pmt) (pmt_version pmt) (pmt_lastSectionNumber pmt)
                     (pmt_pcrPid pmt) sections in
        let a := setPmt (<[pid := pmt]> (m_pmtAssemblies a)) (m_programsByPmtPid a) a in
        if negb (Z.of_nat (size sections) =? lastSectionNumber + 1) then (Success tt, (a, k))
        else
          match joinSections streamKeys sections (seqZ 0 (lastSectionNumber + 1)) [∅] [] with
          | JoinMissing => (Success tt, (a, k))
          | JoinDuplicate =>
              (invalidSection "MPEG-TS PMT has duplicate elementary PID across sections", (a, k))
          | JoinAll [] => (invalidSection "MPEG-TS PMT contains no elementary streams", (a, k))
          | JoinAll streams =>
              publishIfComplete
                (setPmt (m_pmtAssemblies a)
                   (<[pid := mkProgramInfo number pid version pcrPid streams]> (m_programsByPmtPid a))
                   a, k)
          end
    end.

Definition parsePmt (pid : Z) (section : list Z) : StateResult (Assembler * K) unit :=
  fun '(a, k) =>
    match validateLongSection section 0x02 16 with
    | Failure e => (Failure e, (a, k))
    | Success _ =>
    match findFirst (fun p => pp_pmtPid p =? pid) (m_patPrograms a) with
    | None => (invalidSection "MPEG-TS PMT PID is absent from PAT", (a, k))
    | Some patProgram =>
    if negb (readU16 section 3 =? pp_programNumber patProgram)
    then (invalidSection "MPEG-TS PMT program number does not match PAT", (a, k))
    else if negb (Z.land (at_ section 8) 0xE0 =? 0xE0) || negb (Z.land (at_ section 10) 0xF0 =? 0xF0)
    then (invalidSection "MPEG-TS PMT reserved bits are invalid", (a, k))
    else
    let pcrPid := readPid section 8 in
    if pcrPid =? 0x1FFF then (invalidSection "MPEG-TS PMT PCR PID is null", (a, k))
    else
    let offset := 12 + readLength section 10 in
    let crcOffset := size_of section - 4 in
    if crcOffset <? offset
    then (invalidSection "MPEG-TS PMT program descriptors exceed section", (a, k))
    else
    match pmtLoop (length section) section crcOffset offset ∅ [] with
    | Failure e => (Failure e, (a, k))
    | Success sectionStreams =>
    let version := sectionVersion section in
    let sectionNumber := at_ section 6 in
    let lastSectionNumber := at_ section 7 in
    let number := pp_programNumber patProgram in
    let add := addPmtSection pid number version pcrPid sectionNumber lastSectionNumber sectionStreams in
    let fresh := mkPmt number version lastSectionNumber pcrPid ∅ in
    let restart :=
      add fresh (setPmt (<[pid := fresh]> (m_pmtAssemblies a)) (delete pid (m_programsByPmtPid a)) a, k) in
    match m_pmtAssemblies a !! pid with
    | None => restart
    | Some pmt =>
        if negb (pmt_version pmt =? version) then restart
        else if negb (pmt_lastSectionNumber pmt =? lastSectionNumber) ||
                negb (pmt_programNumber pmt =? number) || negb (pmt_pcrPid pmt =? pcrPid)
        then (invalidSection "MPEG-TS PMT identity changed without a version change", (a, k))
        else add pmt (a, k)
    end
    end
    end
    end.

Definition completeSection (pid : Z) (section : list Z) : StateResult (Assembler * K) unit :=
  fun '(a, k) =>
    if pid =? 0 then let '(r, a') := parsePat section a in (r, (a', k))
    else parsePmt pid section (a, k).

(** [m_sections[pid]] creates an empty state when there is none. *)
Definition sectionAt (pid : Z) (a : Assembler) : SectionState :=
  default (mkSection [] None) (m_sections a !! pid).

Definition putSection (pid : Z) (s : SectionState) (a : Assembler) : Assembler :=
  setSections (<[pid := s]> (m_sections a)) a.

(** The second half of the loop of [consume]: up to the expected size of the
    section, which is parsed when it is reached; [next] is the next iteration.
    The source reads [*expectedSize] without a test; [sectionOk] below is what
    makes that defined ([assembler_no_empty_size]). *)
Definition fillSection (next : list Z -> StateResult (Assembler * K) unit) (pid : Z)
    (state : SectionState) (bytes : list Z) : StateResult (Assembler * K) unit :=
  fun '(a, k) =>
    match ss_expectedSize state with
    | None => (failure (internalError "empty expectedSize"), (a, k))
    | Some expected =>
        let needed := Z.to_nat (expected - size_of (ss_bytes state)) in
        let n := Nat.min needed (length bytes) in
        let state := mkSection (ss_bytes state ++ take n bytes) (Some expected) in
        if negb (size_of (ss_bytes state) =? expected)
        then (Success tt, (putSection pid state a, k))
        else
          bindState (completeSection pid (ss_bytes state)) (fun _ => next (drop n bytes))
            (putSection pid (mkSection [] None) a, k)
    end.

(** The loop of [consume] on the bytes from [offset] on. *)
Fixpoint consumeLoop (fuel : nat) (pid : Z) (bytes : list Z) : StateResult (Assembler * K) unit :=
  match fuel with
  | O => retState tt
  | S fuel' => fun '(a, k) =>
      let state := sectionAt pid a in
      match bytes with
      | [] => (Success tt, (a, k))
      | b :: _ =>
          if Nat.eqb (length (ss_bytes state)) 0 && (b =? 0xFF) then (Success tt, (a, k))
          else if (length (ss_bytes state) <? 3)%nat then
            let n := Nat.min (3 - length (ss_bytes state)) (length bytes) in
            let collected := ss_bytes state ++ take n bytes in
            let a := putSection pid (mkSection collected (ss_expectedSize state)) a in
            if (length collected <? 3)%nat then (Success tt, (a, k))
            else
              let sectionLength := readLength collected 1 in
              if (1021 <? sectionLength) || (sectionLength <? 4)
              then (invalidSection "MPEG-TS PSI section length is out of range", (a, k))
              else
                let state := mkSection collected (Some (sectionLength + 3)) in
                fillSection (consumeLoop fuel' pid) pid state (drop n bytes)
                  (putSection pid state a, k)
          else fillSection (consumeLoop fuel' pid) pid state bytes (a, k)
      end
  end.

(** Every iteration consumes a byte, so the length of the input is enough
    ([consumeLoop_fuel]). *)
Definition consume (pid : Z) (bytes : list Z) : StateResult (Assembler * K) unit :=
  fun '(a, k) => consumeLoop (length bytes) pid bytes (putSection pid (sectionAt pid a) a, k).

Definition onSectionPacket (packet : MediaTsPacketView) : StateResult (Assembler * K) unit :=
  fun '(a, k) =>
    let pid := v_pid packet in
    let payload := v_payloadSpan packet in
    let isKnownPmt := existsb (fun p => pp_pmtPid p =? pid) (m_patPrograms a) in
    if negb (pid =? 0) && negb isKnownPmt then (Success tt, (a, k))
    else
      let a := if v_discontinuity packet then resetPidGeneration pid a else a in
      if Nat.eqb (length payload) 0 then (Success tt, (a, k))
      else if v_discontinuity packet && negb (v_payloadUnitStart packet)
      then (invalidSection "MPEG-TS PSI discontinuity lacks a section start", (a, k))
      else
        let a := putSection pid (sectionAt pid a) a in
        if v_payloadUnitStart packet then
          let pointer := at_ payload 0 in
          if size_of payload - 1 <? pointer
          then (invalidSection "MPEG-TS PSI pointer field exceeds payload", (a, k))
          else
            let start := drop (1 + Z.to_nat pointer) payload in
            if negb (Nat.eqb (length (ss_bytes (sectionAt pid a))) 0) then
              bindState (consume pid (take (Z.to_nat pointer) (drop 1 payload)))
                (fun _ '(a, k) =>
                   if negb (Nat.eqb (length (ss_bytes (sectionAt pid a))) 0)
                   then (invalidSection "MPEG-TS PSI previous section is truncated", (a, k))
                   else consume pid start (a, k)) (a, k)
            else consume pid start (a, k)
        else if Nat.eqb (length (ss_bytes (sectionAt pid a))) 0 then (Success tt, (a, k))
        else consume pid payload (a, k).

Definition onSectionContinuityEvent (event : MediaTsContinuityEvent) :
    StateResult (Assembler * K) unit :=
  fun '(a, k) => (Success tt, (resetPidGeneration (ce_pid event) a, k)).

(** The assembler as a sink of the packet parser. *)
#[export] Instance assemblerSink : MediaTsPacketSink (Assembler * K) := {
  onPacket := onSectionPacket;
  onContinuityEvent := onSectionContinuityEvent;
}.

(** ** Lemmas: open sections *)

(** A section state between two calls: the header is not complete and the size
    not known, or the size is known and not reached. *)
Definition sectionOk (s : SectionState) : Prop :=
  match ss_expectedSize s with
  | None => (length (ss_bytes s) < 3)%nat
  | Some n => 3 <= size_of (ss_bytes s) < n
  end.

Definition sectionsOk (a : Assembler) : Prop := map_Forall (fun _ s => sectionOk s) (m_sections a).

Lemma sectionAt_ok pid a : sectionsOk a -> sectionOk (sectionAt pid a).
Proof.
  intros H. unfold sectionAt. destruct (m_sections a !! pid) eqn:E; [by apply (H pid) |].
  unfold sectionOk. simpl. lia.
Qed.

Lemma putSection_ok pid s a : sectionOk s -> sectionsOk a -> sectionsOk (putSection pid s a).
Proof. intros Hs Ha. unfold sectionsOk, putSection, setSections. simpl. by apply map_Forall_insert_2. Qed.

Lemma putSection_put pid s1 s2 a : putSection pid s2 (putSection pid s1 a) = putSection pid s2 a.
Proof. unfold putSection, setSections. simpl. by rewrite insert_insert_eq. Qed.

Lemma sectionAt_put pid s a : sectionAt pid (putSection pid s a) = s.
Proof. unfold sectionAt, putSection, setSections. simpl. by rewrite lookup_insert_eq. Qed.

Lemma noSection_ok : sectionOk (mkSection [] None).
Proof. unfold sectionOk. simpl. lia. Qed.

(** Tables do not open sections. *)
Lemma parsePat_sections section a r a' : parsePat section a = (r, a') -> sectionsOk a -> sectionsOk a'.
Proof.
  intros E Ha. unfold parsePat, addPatSection in E.
  repeat (case_match; simplify_eq/=; try done);
    unfold sectionsOk, setPatAssembly in *; simpl in *; try done;
    intros i x Hx%map_lookup_filter_Some; apply (Ha i x), Hx.
Qed.

Lemma publish_frame (a : Assembler) (k : K) :
  let '(_, (a', _)) := publishIfComplete (a, k) in
  m_sections a' = m_sections a /\ m_patPrograms a' = m_patPrograms a.
Proof. unfold publishIfComplete. repeat (case_match; simplify_eq/=; try done). Qed.

Lemma parsePmt_sections pid section (a : Assembler) (k : K) :
  let '(_, (a', _)) := parsePmt pid section (a, k) in m_sections a' = m_sections a.
Proof.
  unfold parsePmt, addPmtSection.
  repeat match goal with
  | |- context [publishIfComplete (?x, k)] =>
      pose proof (publish_frame x k) as Hf; destruct (publishIfComplete (x, k)) as [? [? ?]];
      destruct Hf as [-> _]; done
  | _ => case_match; simplify_eq/=; try done
  end.
Qed.

Lemma completeSection_sections pid section (a : Assembler) (k : K) r a' k' :
  completeSection pid section (a, k) = (r, (a', k')) -> sectionsOk a -> sectionsOk a'.
Proof.
  unfold completeSection. destruct (pid =? 0).
  - destruct (parsePat section a) as [r1 a1] eqn:E. intros [= _ <- _]. by apply (parsePat_sections section a r1).
  - intros E. pose proof (parsePmt_sections pid section a k) as H. rewrite E in H.
    unfold sectionsOk. by rewrite H.
Qed.

(** ** Lemmas: the loop of [consume] *)

Definition noInternal {A} (r : Result A) : Prop :=
  match r with Success _ => True | Failure e => errCode e <> ErrInternalError end.

(** What a call promises: it keeps the sections well-formed when it succeeds,
    and never fails with an internal error. *)
Definition keepsSections (x : Status * (Assembler * K)) : Prop :=
  noInternal x.1 /\ (resultOk x.1 = true -> sectionsOk x.2.1).

Hypothesis sinkOk : forall snapshot k, noInternal (onProgramInventory snapshot k).1.

Lemma validate_noInternal section id minimum : noInternal (validateLongSection section id minimum).
Proof. unfold validateLongSection. repeat case_match; done. Qed.

Lemma patLoop_noInternal fuel section offset ns ps l : noInternal (patLoop fuel section offset ns ps l).
Proof.
  revert offset ns ps l. induction fuel as [| fuel IH]; intros; cbn [patLoop]; [done |].
  repeat case_match; done || apply IH.
Qed.

Lemma pmtLoop_noInternal fuel section crc offset ps l : noInternal (pmtLoop fuel section crc offset ps l).
Proof.
  revert offset ps l. induction fuel as [| fuel IH]; intros; cbn [pmtLoop]; [done |].
  repeat case_match; done || apply IH.
Qed.

Lemma publish_noInternal (st : Assembler * K) : noInternal (publishIfComplete st).1.
Proof.
  destruct st as [a k]. unfold publishIfComplete. repeat (case_match; simplify_eq/=; try done).
  match goal with H : onProgramInventory ?s ?k = _ |- _ => pose proof (sinkOk s k) as Hk; rewrite H in Hk end.
  done.
Qed.

Lemma parsePat_noInternal section a : noInternal (parsePat section a).1.
Proof.
  unfold parsePat, addPatSection. pose proof (validate_noInternal section 0 12) as H1.
  pose proof (patLoop_noInternal (length section) section 8 ∅ ∅ []) as H2.
  destruct (validateLongSection section 0 12); [| done]. destruct (negb _); [done |].
  destruct (patLoop _ _ _ _ _ _); [| done]. repeat (case_match; simplify_eq/=; try done).
Qed.

Lemma parsePmt_noInternal pid section (st : Assembler * K) : noInternal (parsePmt pid section st).1.
Proof.
  destruct st as [a k]. unfold parsePmt, addPmtSection. pose proof (validate_noInternal section 2 16) as H1.
  destruct (validateLongSection section 2 16); [| done].
  destruct (findFirst _ _); [| done]. repeat (destruct (_ || _); [done |] || destruct (_ =? _); [| done]).
  pose proof (pmtLoop_noInternal (length section) section (size_of section - 4)
    (12 + readLength section 10) ∅ []) as H2.
  repeat first [apply publish_noInternal | done | case_match]; done.
Qed.

Lemma completeSection_noInternal pid section (st : Assembler * K) :
  noInternal (completeSection pid section st).1.
Proof.
  destruct st as [a k]. unfold completeSection. destruct (pid =? 0).
  - pose proof (parsePat_noInternal section a) as H. by destruct (parsePat section a).
  - apply parsePmt_noInternal.
Qed.

Lemma fillSection_keeps next pid state bytes (a : Assembler) (k : K) :
  (exists n, ss_expectedSize state = Some n /\ 3 <= size_of (ss_bytes state) < n) -> sectionsOk a ->
  (forall m (a' : Assembler) (k' : K), sectionsOk a' ->
     keepsSections (next (drop m bytes) (a', k'))) ->
  keepsSections (fillSection next pid state bytes (a, k)).
Proof.
  intros (n & Hs & Hlt) Ha Hnext. unfold fillSection. rewrite Hs. cbn [ss_bytes].
  set (m := Nat.min (Z.to_nat (n - size_of (ss_bytes state))) (length bytes)).
  unfold size_of at 1. rewrite length_app, length_take, Nat2Z.inj_add.
  destruct (Z.eqb_spec (Z.of_nat (length (ss_bytes state)) + Z.of_nat (Nat.min m (length bytes))) n) as [E | E]; cbn [negb].
  - unfold bindState. pose proof (completeSection_noInternal pid (ss_bytes state ++ take m bytes)
      (putSection pid (mkSection [] None) a, k)) as Hn.
    destruct (completeSection _ _ _) as [[u | e] [a' k']] eqn:Ec; [| by split].
    apply Hnext. apply (completeSection_sections _ _ _ _ _ _ _ Ec).
    apply putSection_ok; [apply noSection_ok | done].
  - split; [done |]. intros _. apply putSection_ok; [| done]. unfold sectionOk, size_of in *. simpl.
    rewrite length_app, length_take. unfold m in *. lia.
Qed.

Lemma consumeLoop_keeps fuel pid bytes (a : Assembler) (k : K) :
  sectionsOk a -> keepsSections (consumeLoop fuel pid bytes (a, k)).
Proof.
  revert bytes a k. induction fuel as [| fuel IH]; intros bytes a k Ha; [by split |].
  cbn [consumeLoop]. pose proof (sectionAt_ok pid a Ha) as Hs. set (state := sectionAt pid a) in *.
  destruct bytes as [| b bytes']; [by split |]. set (bytes := b :: bytes') in *.
  destruct (Nat.eqb _ 0 && _); [by split |]. unfold sectionOk in Hs.
  destruct (Nat.ltb_spec (length (ss_bytes state)) 3) as [Hlt | Hge].
  - set (n := Nat.min (3 - length (ss_bytes state)) (length bytes)).
    destruct (ss_expectedSize state) as [e |] eqn:Ee; [unfold size_of in Hs; lia |].
    destruct (Nat.ltb_spec (length (ss_bytes state ++ take n bytes)) 3) as [Hl | Hl].
    + split; [done |]. intros _. by apply putSection_ok.
    + destruct ((1021 <? _) || (_ <? 4)) eqn:El; [by split |].
      apply orb_false_iff in El as [_ El%Z.ltb_ge]. rewrite length_app, length_take in Hl.
      assert (Hc : length (ss_bytes state ++ take n bytes) = 3%nat)
        by (rewrite length_app, length_take; unfold n; lia).
      apply fillSection_keeps.
      * eexists. split; [done |]. cbn [ss_bytes]. unfold size_of. rewrite Hc. lia.
      * rewrite putSection_put. apply putSection_ok; [| done]. unfold sectionOk, size_of. simpl. rewrite Hc. lia.
      * intros m a' k' Ha'. by apply IH.
  - destruct (ss_expectedSize state) as [e |] eqn:Ee; [| lia].
    apply fillSection_keeps; [by exists e | done |]. intros m a' k' Ha'. by apply IH.
Qed.

(** The next iteration sees fewer bytes, and well-formed sections. *)
Lemma fillSection_ext next next' pid state bytes (a : Assembler) (k : K) :
  (exists n, ss_expectedSize state = Some n /\ 3 <= size_of (ss_bytes state) < n) -> sectionsOk a ->
  (forall m (a' : Assembler) (k' : K), (m < length bytes)%nat -> sectionsOk a' ->
     next (drop (S m) bytes) (a', k') = next' (drop (S m) bytes) (a', k')) ->
  fillSection next pid state bytes (a, k) = fillSection next' pid state bytes (a, k).
Proof.
  intros (n & Hs & Hlt) Ha Hnext. unfold fillSection. rewrite Hs. cbn [ss_bytes].
  set (m := Nat.min (Z.to_nat (n - size_of (ss_bytes state))) (length bytes)).
  destruct (Z.eqb_spec (size_of (ss_bytes state ++ take m bytes)) n) as [E | E]; cbn [negb]; [| done].
  unfold bindState. destruct (completeSection _ _ _) as [[u | e] [a' k']] eqn:Ec; [| done].
  assert (Hm : (0 < m <= length bytes)%nat).
  { unfold size_of in *. rewrite length_app, length_take in E. unfold m in *. lia. }
  replace m with (S (m - 1)) by lia. apply Hnext; [lia |].
  apply (completeSection_sections _ _ _ _ _ _ _ Ec). apply putSection_ok; [apply noSection_ok | done].
Qed.

Lemma consumeLoop_fuel f1 f2 pid bytes (a : Assembler) (k : K) :
  (length bytes <= f1)%nat -> (length bytes <= f2)%nat -> sectionsOk a ->
  consumeLoop f1 pid bytes (a, k) = consumeLoop f2 pid bytes (a, k).
Proof.
  revert f2 bytes a k. induction f1 as [| f1 IH]; intros f2 bytes a k H1 H2 Ha.
  { destruct bytes; [| simpl in H1; lia]. by destruct f2. }
  destruct bytes as [| b bytes']; [by destruct f2 |]. destruct f2 as [| f2]; [simpl in H2; lia |].
  cbn [consumeLoop]. pose proof (sectionAt_ok pid a Ha) as Hs. set (state := sectionAt pid a) in *.
  set (bytes := b :: bytes') in *. destruct (Nat.eqb _ 0 && _); [done |]. unfold sectionOk in Hs.
  destruct (Nat.ltb_spec (length (ss_bytes state)) 3) as [Hlt | Hge].
  - set (n := Nat.min (3 - length (ss_bytes state)) (length bytes)).
    destruct (ss_expectedSize state) as [e |] eqn:Ee; [unfold size_of in Hs; lia |].
    destruct (Nat.ltb_spec (length (ss_bytes state ++ take n bytes)) 3) as [Hl | Hl]; [done |].
    destruct ((1021 <? _) || (_ <? 4)) eqn:El; [done |].
    apply orb_false_iff in El as [_ El%Z.ltb_ge]. rewrite length_app, length_take in Hl.
    assert (Hc : length (ss_bytes state ++ take n bytes) = 3%nat)
      by (rewrite length_app, length_take; unfold n; lia).
    apply fillSection_ext.
    + eexists. split; [done |]. cbn [ss_bytes]. unfold size_of. rewrite Hc. lia.
    + rewrite putSection_put. apply putSection_ok; [| done]. unfold sectionOk, size_of. simpl. rewrite Hc. lia.
    + intros m a' k' Hm Ha'. apply IH; [| | done]; rewrite !length_drop in *; lia.
  - destruct (ss_expectedSize state) as [e |] eqn:Ee; [| lia].
    apply fillSection_ext; [by exists e | done |].
    intros m a' k' Hm Ha'. apply IH; [| | done]; rewrite length_drop; lia.
Qed.

Lemma consume_keeps pid bytes (a : Assembler) (k : K) :
  sectionsOk a -> keepsSections (consume pid bytes (a, k)).
Proof. intros Ha. apply consumeLoop_keeps, putSection_ok; [by apply sectionAt_ok | done]. Qed.

Lemma reset_sections pid a : sectionsOk a -> sectionsOk (resetPidGeneration pid a).
Proof.
  intros Ha. unfold resetPidGeneration, sectionsOk. destruct (pid =? 0); simpl; by apply map_Forall_delete.
Qed.

Lemma onSectionPacket_keeps v (a : Assembler) (k : K) :
  sectionsOk a -> keepsSections (onSectionPacket v (a, k)).
Proof.
  intros Ha. unfold onSectionPacket. destruct (negb _ && negb _); [by split |].
  set (a1 := if v_discontinuity v then _ else a).
  assert (Ha1 : sectionsOk a1) by (unfold a1; destruct (v_discontinuity v); [by apply reset_sections | done]).
  destruct (Nat.eqb _ 0); [by split |]. destruct (_ && _); [by split |].
  set (a2 := putSection (v_pid v) (sectionAt (v_pid v) a1) a1).
  assert (Ha2 : sectionsOk a2) by (apply putSection_ok; [by apply sectionAt_ok | done]).
  destruct (v_payloadUnitStart v).
  - destruct (_ <? _); [by split |]. destruct (negb _); [| by apply consume_keeps].
    unfold bindState. pose proof (consume_keeps (v_pid v)
      (take (Z.to_nat (at_ (v_payloadSpan v) 0)) (drop 1 (v_payloadSpan v))) a2 k Ha2) as [Hn Hok].
    destruct (consume _ _ _) as [[u | e] [a3 k3]]; [| by split]. specialize (Hok eq_refl).
    destruct (negb _); [by split | by apply consume_keeps].
  - destruct (Nat.eqb _ 0); [by split | by apply consume_keeps].
Qed.

(** The calls of the packet parser, until one fails. *)
Inductive SinkCall := CallPacket (v : MediaTsPacketView) | CallContinuity (e : MediaTsContinuityEvent).

Definition runCall (c : SinkCall) : StateResult (Assembler * K) unit :=
  match c with
  | CallPacket v => onSectionPacket v
  | CallContinuity e => onSectionContinuityEvent e
  end.

Fixpoint runCalls (cs : list SinkCall) (st : Assembler * K) : Status * (Assembler * K) :=
  match cs with
  | [] => (Success tt, st)
  | c :: cs' => match runCall c st with
                | (Success _, st') => runCalls cs' st'
                | (Failure e, st') => (Failure e, st')
                end
  end.

(** The open sections stay well-formed: as long as the calls succeed, a
    section has fewer than three bytes and no size yet, or a size it has not
    reached; and the size of a section is never read before it is known (the
    only internal error of the model is that read). *)
Theorem assembler_no_empty_size cs (a : Assembler) (k : K) :
  sectionsOk a -> keepsSections (runCalls cs (a, k)).
Proof.
  revert a k. induction cs as [| c cs IH]; intros a k Ha; [by split |]. cbn [runCalls].
  assert (Hc : keepsSections (runCall c (a, k))).
  { destruct c as [v | e]; [by apply onSectionPacket_keeps |]. split; [done |]. intros _. by apply reset_sections. }
  destruct Hc as [Hn Hok]. destruct (runCall c (a, k)) as [[u | e] [a' k']]; [| by split].
  by apply IH, Hok.
Qed.

End Operations.

(** An inventory sink that records what is published. *)
#[export] Instance recordingInventory : MediaTsProgramInventorySink (list MediaTsProgramInventorySnapshot) := {
  onProgramInventory snapshot l := (Success tt, l ++ [snapshot]);
}.

(** A PAT packet whose section claims two bytes, and a packet that continues it. *)
Definition shortSectionPacket : MediaTsPacketView :=
  mkPacketView 0 0 true 0 false None [0x00; 0x00; 0xB0; 0x02].
Definition continuationPacket : MediaTsPacketView :=
  mkPacketView 188 0 false 1 false None [0x01].

Lemma assembler_no_empty_size_witness :
  sectionsOk emptyAssembler /\
  keepsSections (runCalls [CallPacket shortSectionPacket]
    (emptyAssembler, @nil MediaTsProgramInventorySnapshot)).
Proof.
  split; [apply map_Forall_empty |].
  apply (assembler_no_empty_size (K := list MediaTsProgramInventorySnapshot)).
  - intros snapshot k. exact I.
  - apply map_Forall_empty.
Defined.

(** After the error "section length is out of range" the section keeps its
    three header bytes without a size, so a caller that goes on with the next
    packet of the PID makes the source read an empty optional. *)
Theorem short_section_left_open :
  let '(r1, st1) := onSectionPacket shortSectionPacket
                      (emptyAssembler, @nil MediaTsProgramInventorySnapshot) in
  r1 = invalidSection "MPEG-TS PSI section length is out of range" /\
  m_sections st1.1 !! 0 = Some (mkSection [0x00; 0xB0; 0x02] None) /\
  (onSectionPacket continuationPacket st1).1 = failure (internalError "empty expectedSize").
Proof. vm_compute. auto. Qed.

End MediaTsPsiSectionAssembler.
