(* ===== verification/TsPsiRoundTrip.v ===== *)
(** * Program tables from the serializer to the inventory

    The sections [MediaTsPsiSerializer] writes for a mux plan, cut into packets
    by the packet builder and parsed by the packet parser, make the section
    assembler publish the program of the plan, once, however often the tables
    are repeated. *)

From stdpp Require Import gmap.
From S2P Require Import Prelude MediaResult TsCrc TsPacket TsParser TsFraming TsRoundTrip TsPsi TsSections.
Import MediaTsCrc32 MediaTsTransportPacketBuilder MediaTsPacketParser MediaTsFraming MediaTsRoundTrip.
Import MediaTsMuxPlan MediaTsPsiSerializer MediaTsPsiSectionAssembler.

Local Open Scope Z_scope.

Module MediaTsPsiRoundTrip.

(** ** Lemmas: fields *)

Lemma version_field v : 0 <= v < 32 ->
  Z.land (versionByte v) 0xC0 = 0xC0 /\ Z.land (versionByte v) 0x01 = 1 /\
  Z.land (Z.shiftr (versionByte v) 1) 0x1F = v.
Proof.
  intros Hv. pose proof (forallb_below (fun v =>
    (Z.land (versionByte v) 0xC0 =? 0xC0) && (Z.land (versionByte v) 0x01 =? 1) &&
    (Z.land (Z.shiftr (versionByte v) 1) 0x1F =? v)) 32 v ltac:(vm_compute; reflexivity) Hv) as H.
  apply andb_true_iff in H as [[H1 H2]%andb_true_iff H3].
  split_and!; by apply Z.eqb_eq.
Qed.

Lemma pid_field pid : 0 <= pid < 8192 ->
  let b := u8 (Z.lor 0xE0 (Z.shiftr pid 8)) in
  Z.land b 0xE0 = 0xE0 /\ u16 (Z.lor (Z.shiftl (Z.land b 0x1F) 8) (u8 pid)) = pid.
Proof.
  intros Hp. cbv zeta. assert (Hh : 0 <= Z.shiftr pid 8 < 32) by (rewrite shiftr_div by lia; divmod).
  pose proof (forallb_below (fun h =>
    (Z.land (u8 (Z.lor 0xE0 h)) 0xE0 =? 0xE0) && (Z.land (u8 (Z.lor 0xE0 h)) 0x1F =? h)) 32
    _ ltac:(vm_compute; reflexivity) Hh) as H.
  apply andb_true_iff in H as [H1%Z.eqb_eq H2%Z.eqb_eq]. split; [done |]. rewrite H2.
  by apply header_pid.
Qed.

Lemma u16_field z : 0 <= z < 65536 ->
  u16 (Z.lor (Z.shiftl (u8 (Z.shiftr z 8)) 8) (u8 z)) = z.
Proof.
  intros Hz. rewrite lor_shiftl_add by (unfold u8; divmod). rewrite shiftr_div by lia.
  unfold u16, u8. divmod.
Qed.

(** The ranges of the C++ types and what [createPlan] accepts. *)
Record planOk (p : MediaTsMuxPlanParameters) : Prop := {
  ok_created : createPlan p = Success p;
  ok_tsid : 0 <= mp_transportStreamId p < 65536;
  ok_number : 0 <= mp_programNumber p < 65536;
  ok_version : 0 <= mp_tableVersion p;
}.

(** What the assembler should learn of a plan. *)
Definition planStreams (p : MediaTsMuxPlanParameters) : list MediaTsElementaryStreamInfo :=
  mkStreamInfo (planVideoPid (mp_program p)) (planVideoStreamType (mp_program p)) ::
  match mp_program p with
  | VideoOnly _ => []
  | AudioVideo a => [mkStreamInfo (av_audioPid a) (av_audioStreamType a)]
  end.

Definition planProgram (p : MediaTsMuxPlanParameters) : MediaTsProgramInfo :=
  mkProgramInfo (mp_programNumber p) (mp_programMapPid p) (mp_tableVersion p)
    (planPcrPid (mp_program p)) (planStreams p).

Definition planSnapshot (p : MediaTsMuxPlanParameters) : MediaTsProgramInventorySnapshot :=
  mkSnapshot (mp_tableVersion p) [planProgram p].

Lemma createPlan_facts p : planOk p ->
  mp_programNumber p <> 0 /\ mp_tableVersion p < 32 /\
  0x20 <= mp_programMapPid p < 0x1FFF /\ 0x20 <= planVideoPid (mp_program p) < 0x1FFF /\
  planPcrPid (mp_program p) = planVideoPid (mp_program p) /\
  mp_programMapPid p <> planVideoPid (mp_program p) /\
  match mp_program p with
  | VideoOnly _ => True
  | AudioVideo a => 0x20 <= av_audioPid a < 0x1FFF /\ av_audioPid a <> planVideoPid (mp_program p)
  end.
Proof.
  intros [H _ _ _]. revert H. unfold createPlan, invalidPlan, failure, assignablePid, onAudioVideo,
    MinimumAssignablePid, MuxNullPid. simpl.
  repeat match goal with |- context [if ?b then _ else _] => destruct b eqn:?; try done end.
  intros _. destruct (mp_program p); simpl in *; repeat match goal with
    | H : _ || _ = false |- _ => apply orb_false_iff in H as [? ?]
    | H : negb _ = false |- _ => apply negb_false_iff in H
    | H : _ && _ = true |- _ => apply andb_true_iff in H as [? ?]
    end; lia.
Qed.

(** ** Lemmas: the PAT *)

Definition planMapping (p : MediaTsMuxPlanParameters) : PatProgram :=
  mkPatProgram (mp_programNumber p) (mp_programMapPid p).

Definition planPat (p : MediaTsMuxPlanParameters) : PatTableAssembly :=
  mkPat (mp_transportStreamId p) (mp_tableVersion p) 0 {[0 := [planMapping p]]}.

Lemma not_in_empty (x : Z) `{D : !Decision (x ∈ (∅ : gset Z))} : bool_decide (x ∈ (∅ : gset Z)) = false.
Proof. apply bool_decide_eq_false_2. set_solver. Qed.

(** The section, byte by byte. *)
Lemma pat_shape p : exists c0 c1 c2 c3,
  serializePat p =
  [0x00; 0xB0; 0x0D; u8 (Z.shiftr (mp_transportStreamId p) 8); u8 (mp_transportStreamId p);
   versionByte (mp_tableVersion p); 0; 0; u8 (Z.shiftr (mp_programNumber p) 8);
   u8 (mp_programNumber p); u8 (Z.lor 0xE0 (Z.shiftr (mp_programMapPid p) 8));
   u8 (mp_programMapPid p); c0; c1; c2; c3].
Proof. unfold serializePat, appendCrc, crcBytes. do 4 eexists. reflexivity. Qed.

Lemma validate_ok section id minimum v :
  minimum <= size_of section <= 255 -> at_ section 0 = id -> at_ section 1 = 0xB0 ->
  at_ section 2 = size_of section - 3 -> 3 <= size_of section ->
  at_ section 5 = versionByte v -> 0 <= v < 32 -> at_ section 6 = 0 -> at_ section 7 = 0 ->
  compute section = 0 -> validateLongSection section id minimum = Success tt.
Proof.
  intros Hm E0 E1 E2 H3 E5 Hv E6 E7 Ec. destruct (version_field v Hv) as (V1 & V2 & _).
  unfold validateLongSection, readLength. change (1 + 1) with 2.
  destruct (Z.ltb_spec (size_of section) minimum); [lia |].
  rewrite E0, Z.eqb_refl, E1, E2, E5, E6, E7, Ec, V1, V2. cbn [negb].
  change (Z.land 0xB0 0xF0 =? 0xB0) with true. change (Z.shiftl (Z.land 0xB0 0x0F) 8) with 0.
  rewrite Z.lor_0_l. cbn [negb].
  destruct (Z.ltb_spec 1021 (size_of section - 3)); [lia |].
  destruct (Z.eqb_spec (size_of section - 3 + 3) (size_of section)); [| lia]. done.
Qed.

Lemma patLoop_one fuel section offset number pid :
  size_of section = offset + 8 -> readU16 section offset = number -> number <> 0 ->
  readPid section (offset + 2) = pid -> pid <> 0x1FFF ->
  Z.land (at_ section (offset + 2)) 0xE0 = 0xE0 ->
  patLoop (S (S fuel)) section offset ∅ ∅ [] = Success [mkPatProgram number pid].
Proof.
  intros Hs Hn Hn0 Hp Hp0 Hr. cbn [patLoop]. rewrite Hs.
  destruct (Z.ltb_spec offset (offset + 8 - 4)); [| lia]. cbn [negb].
  rewrite Hn, Hp, Hr. change (0xE0 =? 0xE0) with true. cbn [negb].
  destruct (Z.eqb_spec number 0); [done |]. destruct (Z.eqb_spec pid 0x1FFF); [done |].
  rewrite !not_in_empty. cbn [orb].
  destruct (Z.ltb_spec (offset + 4) (offset + 8 - 4)); [lia | done].
Qed.

Lemma pat_valid p : planOk p ->
  validateLongSection (serializePat p) 0x00 12 = Success tt /\
  patLoop (length (serializePat p)) (serializePat p) 8 ∅ ∅ [] = Success [planMapping p] /\
  sectionVersion (serializePat p) = mp_tableVersion p /\
  readU16 (serializePat p) 3 = mp_transportStreamId p /\
  at_ (serializePat p) 6 = 0 /\ at_ (serializePat p) 7 = 0 /\ length (serializePat p) = 16%nat.
Proof.
  intros Hok. destruct (createPlan_facts p Hok) as (Hn & Hv & Hm & _). destruct Hok as [_ Ht Hpn Hv0].
  destruct (version_field (mp_tableVersion p)) as (V1 & V2 & V3); [lia |].
  destruct (pid_field (mp_programMapPid p)) as [P1 P2]; [lia |].
  assert (Hcrc : compute (serializePat p) = 0) by apply compute_appendCrc.
  destruct (pat_shape p) as (c0 & c1 & c2 & c3 & E). rewrite E in *.
  split_and!; [| | | | reflexivity | reflexivity | reflexivity].
  - apply (validate_ok _ _ _ (mp_tableVersion p)); [unfold size_of; simpl; lia | reflexivity | reflexivity
      | reflexivity | unfold size_of; simpl; lia | reflexivity | lia | reflexivity | reflexivity | exact Hcrc].
  - apply (patLoop_one 14);
      [reflexivity | by apply u16_field | exact Hn | exact P2 | lia | exact P1].
  - exact V3.
  - by apply u16_field.
Qed.

(** The first PAT of a stream. *)
Lemma parsePat_first p a : planOk p -> m_patAssembly a = None ->
  parsePat (serializePat p) a =
  (Success tt, mkAssembler (filter (fun kv => kv.1 = 0) (m_sections a)) (Some (planPat p))
     (Some (mp_tableVersion p)) [planMapping p] ∅ ∅ (m_lastPublished a)).
Proof.
  intros Hok Ha. destruct (pat_valid p Hok) as (H1 & H2 & H3 & H4 & H5 & H6 & H7).
  unfold parsePat, addPatSection. rewrite H1, H2, H3, H4, H5, H6. unfold size_of. rewrite H7.
  change (negb ((Z.of_nat 16 - 12) mod 4 =? 0)) with false. cbn iota. rewrite Ha.
  cbn [pat_sections]. rewrite lookup_empty. rewrite insert_empty. cbv zeta.
  rewrite map_size_singleton. change (negb (Z.of_nat 1 =? 0 + 1)) with false. cbn iota.
  change (seqZ 0 (0 + 1)) with [0]. cbn [joinSections]. rewrite lookup_singleton_eq.
  cbn [joinPart patKeys planMapping pp_programNumber pp_pmtPid zip zip_with existsb].
  rewrite !not_in_empty. done.
Qed.

(** A repeated PAT changes nothing. *)
Lemma parsePat_repeat p a : planOk p -> m_patAssembly a = Some (planPat p) ->
  parsePat (serializePat p) a = (Success tt, a).
Proof.
  intros Hok Ha. destruct (pat_valid p Hok) as (H1 & H2 & H3 & H4 & H5 & H6 & H7).
  unfold parsePat, addPatSection. rewrite H1, H2, H3, H4, H5, H6. unfold size_of. rewrite H7.
  change (negb ((Z.of_nat 16 - 12) mod 4 =? 0)) with false. cbn iota. rewrite Ha.
  cbn [planPat pat_version pat_lastSectionNumber pat_transportStreamId pat_sections].
  rewrite !Z.eqb_refl, lookup_singleton_eq. cbn [negb orb]. by rewrite bool_decide_eq_true_2.
Qed.

(** ** Lemmas: the PMT *)

Definition audioEntry (p : MediaTsMuxPlanParameters) : list Z :=
  match mp_program p with
  | VideoOnly _ => []
  | AudioVideo a => [av_audioStreamType a; u8 (Z.lor 0xE0 (Z.shiftr (av_audioPid a) 8));
                     u8 (av_audioPid a); 0xF0; 0x00]
  end.

Lemma pmt_shape p : exists c0 c1 c2 c3,
  serializePmt p =
  [0x02; 0xB0; 18 + Z.of_nat (length (audioEntry p)); u8 (Z.shiftr (mp_programNumber p) 8);
   u8 (mp_programNumber p); versionByte (mp_tableVersion p); 0; 0;
   u8 (Z.lor 0xE0 (Z.shiftr (planPcrPid (mp_program p)) 8)); u8 (planPcrPid (mp_program p));
   0xF0; 0; planVideoStreamType (mp_program p);
   u8 (Z.lor 0xE0 (Z.shiftr (planVideoPid (mp_program p)) 8)); u8 (planVideoPid (mp_program p));
   0xF0; 0] ++ audioEntry p ++ [c0; c1; c2; c3].
Proof.
  unfold serializePmt, appendCrc, crcBytes, audioEntry.
  destruct (mp_program p); do 4 eexists; reflexivity.
Qed.

Lemma pmtLoop_entry fuel section crcOffset offset pids streams pid streamType :
  offset + 5 <= crcOffset -> Z.land (at_ section (offset + 1)) 0xE0 = 0xE0 ->
  at_ section (offset + 3) = 0xF0 -> at_ section (offset + 4) = 0 ->
  readPid section (offset + 1) = pid -> pid <> 0x1FFF -> pid ∉ pids ->
  at_ section offset = streamType ->
  pmtLoop (S fuel) section crcOffset offset pids streams =
  pmtLoop fuel section crcOffset (offset + 5) ({[pid]} ∪ pids) (streams ++ [mkStreamInfo pid streamType]).
Proof.
  intros Ho H1 H3 H4 Hp Hp0 Hpids Hs. cbn [pmtLoop]. unfold readLength.
  replace (offset + 3 + 1) with (offset + 4) by lia. rewrite H1, H3, H4, Hp, Hs.
  destruct (Z.ltb_spec offset crcOffset); [| lia]. cbn [negb].
  destruct (Z.ltb_spec (crcOffset - offset) 5); [lia |].
  change (0xE0 =? 0xE0) with true. change (Z.land 0xF0 0xF0 =? 0xF0) with true. cbn [negb orb].
  destruct (Z.eqb_spec pid 0x1FFF); [done |]. rewrite bool_decide_eq_false_2 by done. cbn [orb].
  change (Z.lor (Z.shiftl (Z.land 0xF0 0x0F) 8) 0) with 0.
  destruct (Z.ltb_spec (crcOffset - offset - 5) 0); [lia |]. by rewrite Z.add_0_r.
Qed.

Lemma pmtLoop_end fuel section crcOffset pids streams :
  pmtLoop fuel section crcOffset crcOffset pids streams = Success streams.
Proof. destruct fuel; cbn [pmtLoop]; [done |]. by rewrite Z.ltb_irrefl. Qed.

Lemma pmt_valid p : planOk p ->
  let section := serializePmt p in
  validateLongSection section 0x02 16 = Success tt /\
  pmtLoop (length section) section (size_of section - 4) (12 + readLength section 10) ∅ [] =
    Success (planStreams p) /\
  sectionVersion section = mp_tableVersion p /\ readU16 section 3 = mp_programNumber p /\
  at_ section 6 = 0 /\ at_ section 7 = 0 /\ Z.land (at_ section 8) 0xE0 = 0xE0 /\
  Z.land (at_ section 10) 0xF0 = 0xF0 /\ readPid section 8 = planPcrPid (mp_program p) /\
  12 + readLength section 10 <= size_of section - 4 /\ (4 <= length section <= 26)%nat.
Proof.
  intros Hok. destruct (createPlan_facts p Hok) as (Hn & Hv & Hm & Hvid & Hpcr & Hne & Hav).
  destruct Hok as [_ _ Hpn Hv0].
  destruct (version_field (mp_tableVersion p)) as (V1 & V2 & V3); [lia |].
  destruct (pid_field (planPcrPid (mp_program p))) as [P1 P2]; [lia |].
  destruct (pid_field (planVideoPid (mp_program p))) as [Q1 Q2]; [lia |].
  assert (Hcrc : compute (serializePmt p) = 0) by apply compute_appendCrc.
  destruct (pmt_shape p) as (c0 & c1 & c2 & c3 & E). cbv zeta. rewrite E in *.
  unfold planStreams, audioEntry in *. destruct (mp_program p) as [vo | av] eqn:Ep.
  - split_and!; [| | exact V3 | by apply u16_field | reflexivity | reflexivity | exact P1 | reflexivity
      | exact P2 | vm_compute; discriminate | simpl; lia | simpl; lia].
    + apply (validate_ok _ _ _ (mp_tableVersion p)); [unfold size_of; simpl; lia | reflexivity | reflexivity
      | reflexivity | unfold size_of; simpl; lia | reflexivity | lia | reflexivity | reflexivity | exact Hcrc].
    + rewrite (pmtLoop_entry 20 _ _ _ _ _ (planVideoPid (VideoOnly vo)) (planVideoStreamType (VideoOnly vo)));
        [apply pmtLoop_end | vm_compute; discriminate | exact Q1 | reflexivity | reflexivity | exact Q2
        | lia | apply not_elem_of_empty | reflexivity].
  - destruct Hav as [Ha Hav]. destruct (pid_field (av_audioPid av)) as [A1 A2]; [lia |].
    split_and!; [| | exact V3 | by apply u16_field | reflexivity | reflexivity | exact P1 | reflexivity
      | exact P2 | vm_compute; discriminate | simpl; lia | simpl; lia].
    + apply (validate_ok _ _ _ (mp_tableVersion p)); [unfold size_of; simpl; lia | reflexivity | reflexivity
      | reflexivity | unfold size_of; simpl; lia | reflexivity | lia | reflexivity | reflexivity | exact Hcrc].
    + rewrite (pmtLoop_entry 25 _ _ _ _ _ (planVideoPid (AudioVideo av)) (planVideoStreamType (AudioVideo av)));
        [| vm_compute; discriminate | exact Q1 | reflexivity | reflexivity | exact Q2
        | lia | apply not_elem_of_empty | reflexivity].
      rewrite (pmtLoop_entry 24 _ _ _ _ _ (av_audioPid av) (av_audioStreamType av));
        [apply pmtLoop_end | vm_compute; discriminate | exact A1 | reflexivity | reflexivity | exact A2
        | lia | clear -Hav; set_solver | reflexivity].
Qed.

(** ** Lemmas: sections through the assembler *)

Definition noSection : SectionState := mkSection [] None.

Section Consume.
Context {K : Type} `{!MediaTsProgramInventorySink K}.

Lemma consumeLoop_nil fuel pid (st : Assembler * K) : consumeLoop fuel pid [] st = (Success tt, st).
Proof. destruct fuel, st; done. Qed.

(** A whole section, behind a finished one. *)
Lemma consume_section pid section (a : Assembler) (k : K) :
  sectionAt pid a = noSection -> at_ section 0 <> 0xFF ->
  readLength section 1 + 3 = size_of section -> 4 <= readLength section 1 <= 1021 ->
  consume pid section (a, k) = completeSection pid section (putSection pid noSection a, k).
Proof.
  intros Hs H0 Hl Hr. unfold size_of in Hl.
  destruct section as [| b0 [| b1 [| b2 rest]]]; [simpl in Hl; lia.. |].
  unfold consume. rewrite Hs. cbn [length consumeLoop]. rewrite sectionAt_put. unfold noSection.
  cbn [ss_bytes length Nat.eqb andb]. change (at_ (b0 :: b1 :: b2 :: rest) 0) with b0 in H0.
  destruct (Z.eqb_spec b0 0xFF) as [| _]; [done |].
  change (0 <? 3)%nat with true. cbn iota. cbn [Nat.sub Nat.min take drop app length]. rewrite take_0, drop_0. cbn [length].
  change (3 <? 3)%nat with false. cbn iota.
  change (readLength [b0; b1; b2] 1) with (readLength (b0 :: b1 :: b2 :: rest) 1).
  set (n := readLength (b0 :: b1 :: b2 :: rest) 1) in *.
  destruct (Z.ltb_spec 1021 n); [lia |]. destruct (Z.ltb_spec n 4); [lia |]. cbn [orb].
  unfold fillSection. cbn [ss_expectedSize ss_bytes drop]. unfold size_of. cbn [length].
  assert (En : Z.to_nat (n + 3 - Z.of_nat 3) = length rest) by (cbn [length] in Hl; lia).
  rewrite En, Nat.min_id, take_ge, drop_ge by lia. cbn [app length] in *.
  destruct (Z.eqb_spec (Z.of_nat (S (S (S (length rest))))) (n + 3)); [| lia]. cbn [negb].
  rewrite !putSection_put. unfold bindState.
  destruct (completeSection _ _ _) as [[[] | err] st]; [by destruct st | done].
Qed.

(** A packet that starts with a whole section. *)
Lemma packet_section v section (a : Assembler) (k : K) :
  v_payloadSpan v = 0 :: section -> v_payloadUnitStart v = true -> v_discontinuity v = false ->
  (v_pid v = 0 \/ exists m, m_patPrograms a = [m] /\ pp_pmtPid m = v_pid v) ->
  sectionAt (v_pid v) a = noSection -> at_ section 0 <> 0xFF ->
  readLength section 1 + 3 = size_of section -> 4 <= readLength section 1 <= 1021 ->
  deliver (v_discontinuity v) v (a, k) =
  completeSection (v_pid v) section (putSection (v_pid v) noSection a, k).
Proof.
  intros Hp Hu Hd Hpid Hs H0 Hl Hr. unfold deliver. rewrite Hd. cbn iota beta.
  unfold onPacket, assemblerSink, onSectionPacket. cbv zeta.
  rewrite Hp, Hu, Hd, Hs. cbn [length Nat.eqb andb].
  assert (Hk : negb (v_pid v =? 0) && negb (existsb (fun p => pp_pmtPid p =? v_pid v) (m_patPrograms a)) = false).
  { destruct Hpid as [-> | (m & -> & Em)]; [done |]. simpl. rewrite Em, Z.eqb_refl. simpl. apply andb_false_r. }
  rewrite Hk. change (at_ (0 :: section) 0) with 0. unfold size_of at 1. cbn [length].
  destruct (Z.ltb_spec (Z.of_nat (S (length section)) - 1) 0); [lia |].
  rewrite sectionAt_put. cbn [noSection ss_bytes length Nat.eqb negb].
  change (drop (1 + Z.to_nat 0) (0 :: section)) with section.
  rewrite consume_section by (done || apply sectionAt_put). by rewrite putSection_put.
Qed.

End Consume.

(** ** The states of the assembler *)

Definition afterPat (p : MediaTsMuxPlanParameters) : Assembler :=
  mkAssembler {[0 := noSection]} (Some (planPat p)) (Some (mp_tableVersion p)) [planMapping p] ∅ ∅ None.

Definition planPmt (p : MediaTsMuxPlanParameters) : PmtTableAssembly :=
  mkPmt (mp_programNumber p) (mp_tableVersion p) 0 (planPcrPid (mp_program p)) {[0 := planStreams p]}.

Definition afterPmt (p : MediaTsMuxPlanParameters) : Assembler :=
  mkAssembler (<[mp_programMapPid p := noSection]> {[0 := noSection]}) (Some (planPat p))
    (Some (mp_tableVersion p)) [planMapping p] {[mp_programMapPid p := planPmt p]}
    {[mp_programMapPid p := planProgram p]} (Some (planSnapshot p)).

Lemma joinStreams p : planOk p ->
  joinSections streamKeys {[0 := planStreams p]} (seqZ 0 (0 + 1)) [∅] [] = JoinAll (planStreams p).
Proof.
  intros Hok. destruct (createPlan_facts p Hok) as (_ & _ & _ & _ & _ & _ & Hav).
  change (seqZ 0 (0 + 1)) with [0]. cbn [joinSections]. rewrite lookup_singleton_eq.
  unfold planStreams. destruct (mp_program p) as [vo | av].
  - cbn [joinPart streamKeys es_pid zip zip_with existsb]. rewrite not_in_empty. done.
  - destruct Hav as [_ Hav]. cbn [joinPart streamKeys es_pid zip zip_with existsb].
    rewrite not_in_empty. cbn [orb zip zip_with existsb].
    rewrite bool_decide_eq_false_2 by (clear -Hav; set_solver). done.
Qed.

Lemma parsePmt_first p l : planOk p ->
  parsePmt (mp_programMapPid p) (serializePmt p)
    (putSection (mp_programMapPid p) noSection (afterPat p), l) =
  (Success tt, (afterPmt p, l ++ [planSnapshot p])).
Proof.
  intros Hok. destruct (pmt_valid p Hok) as (H1 & H2 & H3 & H4 & H5 & H6 & H7 & H8 & H9 & H10 & H11).
  destruct (createPlan_facts p Hok) as (Hn & Hv & Hm & Hvid & Hpcr & Hne & Hav).
  unfold putSection, setSections, afterPat.
  cbn [m_sections m_patAssembly m_patVersion m_patPrograms m_pmtAssemblies m_programsByPmtPid m_lastPublished].
  unfold parsePmt, addPmtSection. rewrite H1. cbn [m_patPrograms findFirst planMapping pp_pmtPid].
  rewrite Z.eqb_refl. cbn [pp_programNumber planMapping]. rewrite H4, H7, H8, H9, Z.eqb_refl.
  change (0xE0 =? 0xE0) with true. change (0xF0 =? 0xF0) with true. cbn [negb orb].
  destruct (Z.eqb_spec (planPcrPid (mp_program p)) 0x1FFF); [lia |].
  destruct (Z.ltb_spec (size_of (serializePmt p) - 4) (12 + readLength (serializePmt p) 10)); [lia |].
  rewrite H2, H3, H5, H6. cbn [m_pmtAssemblies]. rewrite lookup_empty.
  cbn [pmt_sections]. rewrite lookup_empty, !insert_empty. cbv zeta. rewrite map_size_singleton.
  change (negb (Z.of_nat 1 =? 0 + 1)) with false. cbn iota.
  rewrite joinStreams by done. unfold planStreams at 1.
  cbn [setPmt m_sections m_patAssembly m_patVersion m_patPrograms m_pmtAssemblies m_programsByPmtPid
       m_lastPublished pmt_programNumber pmt_version pmt_lastSectionNumber pmt_pcrPid].
  rewrite ?delete_empty, ?insert_empty, ?insert_insert_eq, ?insert_singleton_eq.
  fold (planProgram p) (planPmt p). unfold publishIfComplete, setPmt.
  cbn [m_sections m_patAssembly m_patVersion m_patPrograms m_pmtAssemblies m_programsByPmtPid m_lastPublished].
  rewrite map_size_singleton. cbn [length Nat.eqb negb snapshotPrograms planMapping pp_pmtPid].
  rewrite lookup_singleton_eq. cbn [fmap option_fmap option_map].
  rewrite bool_decide_eq_false_2 by done. done.
Qed.

(** A repeated PMT changes nothing and publishes nothing. *)
Lemma parsePmt_repeat p l : planOk p ->
  parsePmt (mp_programMapPid p) (serializePmt p) (afterPmt p, l) = (Success tt, (afterPmt p, l)).
Proof.
  intros Hok. destruct (pmt_valid p Hok) as (H1 & H2 & H3 & H4 & H5 & H6 & H7 & H8 & H9 & H10 & H11).
  destruct (createPlan_facts p Hok) as (Hn & Hv & Hm & Hvid & Hpcr & Hne & Hav).
  unfold parsePmt, addPmtSection. rewrite H1. cbn [afterPmt m_patPrograms findFirst planMapping pp_pmtPid].
  rewrite Z.eqb_refl. cbn [pp_programNumber planMapping]. rewrite H4, H7, H8, H9, Z.eqb_refl.
  change (0xE0 =? 0xE0) with true. change (0xF0 =? 0xF0) with true. cbn [negb orb].
  destruct (Z.eqb_spec (planPcrPid (mp_program p)) 0x1FFF); [lia |].
  destruct (Z.ltb_spec (size_of (serializePmt p) - 4) (12 + readLength (serializePmt p) 10)); [lia |].
  rewrite H2, H3, H5, H6. cbn [afterPmt m_pmtAssemblies]. rewrite lookup_singleton_eq.
  cbn [planPmt pmt_version pmt_lastSectionNumber pmt_programNumber pmt_pcrPid pmt_sections].
  rewrite !Z.eqb_refl, lookup_singleton_eq. cbn [negb orb]. by rewrite bool_decide_eq_true_2.
Qed.

(** ** A round of tables *)

(** The packet of a section, with its pointer field. *)
Definition tablePacket (pid cc : Z) (section : list Z) : Result (list (list Z)) :=
  payload pid cc [[0]; section] false false.

Lemma table_lengths p : planOk p ->
  readLength (serializePat p) 1 = 13 /\ size_of (serializePat p) = 16 /\ at_ (serializePat p) 0 = 0 /\
  at_ (serializePmt p) 0 = 2 /\ readLength (serializePmt p) 1 + 3 = size_of (serializePmt p) /\
  4 <= readLength (serializePmt p) 1 <= 1021.
Proof.
  intros _. destruct (pat_shape p) as (c0 & c1 & c2 & c3 & ->).
  destruct (pmt_shape p) as (d0 & d1 & d2 & d3 & ->). unfold audioEntry.
  destruct (mp_program p); split_and!; try reflexivity; vm_compute; discriminate.
Qed.

Lemma deliver_pat_first p v l : planOk p ->
  v_pid v = 0 -> v_payloadSpan v = 0 :: serializePat p -> v_payloadUnitStart v = true ->
  v_discontinuity v = false ->
  deliver (v_discontinuity v) v (emptyAssembler, l) = (Success tt, (afterPat p, l)).
Proof.
  intros Hok Hp Hs Hu Hd. destruct (table_lengths p Hok) as (L1 & L2 & L3 & _).
  rewrite (packet_section v (serializePat p)); [| exact Hs | exact Hu | exact Hd | by left
    | done | by rewrite L3 | by rewrite L1, L2 | by rewrite L1].
  rewrite Hp. unfold completeSection. rewrite Z.eqb_refl. rewrite parsePat_first by done. do 3 f_equal.
Qed.

Lemma deliver_pat_repeat p v l : planOk p ->
  v_pid v = 0 -> v_payloadSpan v = 0 :: serializePat p -> v_payloadUnitStart v = true ->
  v_discontinuity v = false ->
  deliver (v_discontinuity v) v (afterPmt p, l) = (Success tt, (afterPmt p, l)).
Proof.
  intros Hok Hp Hs Hu Hd. destruct (table_lengths p Hok) as (L1 & L2 & L3 & _).
  destruct (createPlan_facts p Hok) as (_ & _ & Hm & _).
  assert (Hput : putSection 0 noSection (afterPmt p) = afterPmt p).
  { unfold putSection, setSections, afterPmt. cbn. f_equal. apply insert_id.
    rewrite lookup_insert_ne by lia. apply lookup_singleton_eq. }
  rewrite (packet_section v (serializePat p)); [| exact Hs | exact Hu | exact Hd | by left
    | | by rewrite L3 | by rewrite L1, L2 | by rewrite L1]; rewrite Hp.
  - unfold completeSection. rewrite Z.eqb_refl, Hput. by rewrite parsePat_repeat.
  - rewrite <- Hput. apply sectionAt_put.
Qed.

Lemma deliver_pmt_first p v l : planOk p ->
  v_pid v = mp_programMapPid p -> v_payloadSpan v = 0 :: serializePmt p ->
  v_payloadUnitStart v = true -> v_discontinuity v = false ->
  deliver (v_discontinuity v) v (afterPat p, l) = (Success tt, (afterPmt p, l ++ [planSnapshot p])).
Proof.
  intros Hok Hp Hs Hu Hd. destruct (table_lengths p Hok) as (_ & _ & _ & L3 & L4 & L5).
  destruct (createPlan_facts p Hok) as (_ & _ & Hm & _).
  rewrite (packet_section v (serializePmt p));
    [| exact Hs | exact Hu | exact Hd | | | by rewrite L3 | done | done]; rewrite Hp.
  - unfold completeSection. destruct (Z.eqb_spec (mp_programMapPid p) 0); [lia |]. by apply parsePmt_first.
  - right. by exists (planMapping p).
  - unfold sectionAt, afterPat. cbn. by rewrite lookup_singleton_ne by lia.
Qed.

Lemma deliver_pmt_repeat p v l : planOk p ->
  v_pid v = mp_programMapPid p -> v_payloadSpan v = 0 :: serializePmt p ->
  v_payloadUnitStart v = true -> v_discontinuity v = false ->
  deliver (v_discontinuity v) v (afterPmt p, l) = (Success tt, (afterPmt p, l)).
Proof.
  intros Hok Hp Hs Hu Hd. destruct (table_lengths p Hok) as (_ & _ & _ & L3 & L4 & L5).
  destruct (createPlan_facts p Hok) as (_ & _ & Hm & _).
  assert (Hput : putSection (mp_programMapPid p) noSection (afterPmt p) = afterPmt p).
  { unfold putSection, setSections, afterPmt. cbn. f_equal. by rewrite insert_insert_eq. }
  rewrite (packet_section v (serializePmt p));
    [| exact Hs | exact Hu | exact Hd | | | by rewrite L3 | done | done]; rewrite Hp.
  - unfold completeSection. destruct (Z.eqb_spec (mp_programMapPid p) 0); [lia |]. rewrite Hput.
    by apply parsePmt_repeat.
  - right. by exists (planMapping p).
  - rewrite <- Hput. apply sectionAt_put.
Qed.

(** A table in a packet of its own, from any state of the parser whose counter
    for the PID is the previous one. *)
Definition counterOk (m : gmap Z Z) (pid cc : Z) : Prop :=
  forall counter, m !! pid = Some counter -> cc = Z.land (counter + 1) 0x0F.

Lemma tablePacket_ok pid cc section : 0 <= pid < NullPid -> 0 <= cc <= 15 ->
  (length section <= 183)%nat ->
  exists packet, tablePacket pid cc section = Success [packet].
Proof.
  intros Hp Hc Hl. unfold tablePacket.
  assert (Hr : createReader [[0]; section] =
    Success (mkReader [[0]; section] (1 + Z.of_nat (length section)) 0 0)).
  { unfold createReader. cbn [sumSizes length bindResult]. ranges.
    destruct (Z.ltb_spec (18446744073709551616 - 1 - 0) (Z.of_nat 1)); [lia |].
    destruct (Z.ltb_spec (18446744073709551616 - 1 - (0 + Z.of_nat 1)) (Z.of_nat (length section))); [lia |].
    cbn [bindResult]. destruct (Z.eqb_spec (0 + Z.of_nat 1 + Z.of_nat (length section)) 0); [lia |].
    do 2 f_equal. }
  destruct (payload pid cc [[0]; section] false false) as [packets | e] eqn:E.
  - pose proof (payload_shape _ _ _ _ _ _ E) as (_ & _ & c & cs & -> & _ & _ & _ & Hn).
    unfold payloadPacketCount in Hn. rewrite Hr in Hn. cbn [bindResult orb r_total] in Hn.
    destruct (Z.ltb_spec 184 (1 + Z.of_nat (length section))); [lia |].
    injection Hn as Hn. change (0 / 184 + _) with 0 in Hn. cbn [length] in Hn.
    destruct cs as [| c1 cs]; [by eexists |]. cbn [tailPackets length] in Hn. lia.
  - unfold payload in E. destruct (Z.leb_spec NullPid pid); [lia |].
    destruct (Z.ltb_spec 15 cc); [lia |]. cbn [orb] in E. rewrite Hr in E.
    unfold payloadPacketCount in E. rewrite Hr in E. done.
Qed.

Section Tables.
Context {K : Type} `{!MediaTsPacketSink K}.

Lemma parse_table pid cc section packet off e m (s s' : K) :
  tablePacket pid cc section = Success [packet] -> 0 <= pid -> 0 <= cc ->
  evidenceOffset e <> Some off -> counterOk m pid cc ->
  (forall v, v_pid v = pid -> v_payloadSpan v = 0 :: section -> v_payloadUnitStart v = true ->
     v_discontinuity v = false -> deliver (v_discontinuity v) v s = (Success tt, s')) ->
  exists e', parseAll [packet] off (e, m, s) = (Success tt, (e', <[pid := cc]> m, s')) /\
    evidenceOffset e' = Some off /\ wholePacket packet.
Proof.
  intros Hpay Hp Hc He Hcount Hd. pose proof (payload_shape _ _ _ _ _ _ Hpay) as (_ & Hc15 & _).
  destruct (parseAll_unit pid cc _ _ _ _ off e m s Hpay Hp Hc He (fun _ => Hcount))
    as (views & [Hcat Hv] & Hl & Hw & _ & _ & Hpa).
  destruct views as [| v [| v2 vs]]; [done | | done].
  destruct (Hv 0%nat v eq_refl) as (_ & H2 & H3 & _ & H5 & _).
  cbn [fmap list_fmap concat] in Hcat. rewrite app_nil_r in Hcat.
  cbn [deliverAll] in Hpa. rewrite Hd in Hpa; [| done | by rewrite Hcat, app_nil_r | done | done].
  destruct Hpa as (e' & m' & -> & Hdone). destruct (Hdone eq_refl) as [He' ->].
  exists e'. cbn [length Nat.sub] in *. unfold lastCounter. rewrite !Z.add_0_r in *.
  rewrite Z.mod_small by lia. split; [done |]. split; [done |].
  apply (proj1 (Forall_singleton _ _)) in Hw. done.
Qed.

End Tables.

(** [n] rounds of PAT and PMT, with the counters of their PIDs. *)
Fixpoint tableStream (p : MediaTsMuxPlanParameters) (patCc pmtCc : Z) (n : nat) :
    Result (list (list Z)) :=
  match n with
  | O => Success []
  | S n' =>
      (let* pat := tablePacket (mp_patPid p) patCc (serializePat p) in
       let* pmt := tablePacket (mp_programMapPid p) pmtCc (serializePmt p) in
       let* rest := tableStream p (Z.land (patCc + 1) 0x0F) (Z.land (pmtCc + 1) 0x0F) n' in
       Success (pat ++ pmt ++ rest))%result
  end.

Notation Inventory := (list MediaTsProgramInventorySnapshot).

Lemma patPid_zero p : planOk p -> mp_patPid p = 0.
Proof.
  intros [H _ _ _]. revert H. unfold createPlan, invalidPlan, failure. simpl.
  destruct (Z.eqb_spec (mp_patPid p) 0); [done |]. simpl. by destruct (_ || _).
Qed.

(** The sink's state goes through [s1] to [s2] when it gets the tables of [p]. *)
Definition accepts (section : list Z) (pid : Z) (s1 s2 : Assembler * Inventory) : Prop :=
  forall v, v_pid v = pid -> v_payloadSpan v = 0 :: section -> v_payloadUnitStart v = true ->
    v_discontinuity v = false -> deliver (v_discontinuity v) v s1 = (Success tt, s2).

Lemma parse_round p patCc pmtCc off e m s0 s1 s2 :
  planOk p -> 0 <= patCc <= 15 -> 0 <= pmtCc <= 15 ->
  (forall x, evidenceOffset e = Some x -> x < off) ->
  counterOk m 0 patCc -> counterOk m (mp_programMapPid p) pmtCc ->
  accepts (serializePat p) 0 s0 s1 -> accepts (serializePmt p) (mp_programMapPid p) s1 s2 ->
  exists pat pmt e',
    tablePacket (mp_patPid p) patCc (serializePat p) = Success [pat] /\
    tablePacket (mp_programMapPid p) pmtCc (serializePmt p) = Success [pmt] /\
    wholePacket pat /\ wholePacket pmt /\ evidenceOffset e' = Some (off + 188) /\
    parseAll [pat; pmt] off (e, m, s0) =
      (Success tt, (e', <[mp_programMapPid p := pmtCc]> (<[0 := patCc]> m), s2)).
Proof.
  intros Hok Hc1 Hc2 He H1 H2 A1 A2. destruct (createPlan_facts p Hok) as (_ & _ & Hm & _).
  rewrite patPid_zero by done.
  destruct (tablePacket_ok 0 patCc (serializePat p)) as [pat E1];
    [unfold NullPid; lia | done | destruct (pat_valid p Hok) as (_ & _ & _ & _ & _ & _ & ->); lia |].
  destruct (tablePacket_ok (mp_programMapPid p) pmtCc (serializePmt p)) as [pmt E2];
    [unfold NullPid; lia | done
    | destruct (pmt_valid p Hok) as (_ & _ & _ & _ & _ & _ & _ & _ & _ & _ & Hl); lia |].
  destruct (parse_table 0 patCc _ pat off e m s0 s1 E1) as (e1 & P1 & He1 & W1);
    [lia | lia | intros E; specialize (He _ E); lia | done | done |].
  destruct (parse_table (mp_programMapPid p) pmtCc _ pmt (off + 188) e1 (<[0 := patCc]> m) s1 s2 E2)
    as (e2 & P2 & He2 & W2); [lia | lia | rewrite He1; intros [= ?]; lia
    | intros c; rewrite lookup_insert_ne by lia; apply H2 | done |].
  exists pat, pmt, e2. split_and!; try done.
  change [pat; pmt] with ([pat] ++ [pmt]). rewrite parseAll_append, P1. cbn [length]. by rewrite Z.mul_1_r.
Qed.

(** Rounds that keep the state of the sink. *)
Lemma parse_repeats p n patCc pmtCc off e m s :
  planOk p -> 0 <= patCc <= 15 -> 0 <= pmtCc <= 15 ->
  (forall x, evidenceOffset e = Some x -> x < off) ->
  counterOk m 0 patCc -> counterOk m (mp_programMapPid p) pmtCc ->
  accepts (serializePat p) 0 s s -> accepts (serializePmt p) (mp_programMapPid p) s s ->
  exists packets e' m', tableStream p patCc pmtCc n = Success packets /\ Forall wholePacket packets /\
    parseAll packets off (e, m, s) = (Success tt, (e', m', s)).
Proof.
  intros Hok Hc1 Hc2 He H1 H2 A1 A2. destruct (createPlan_facts p Hok) as (_ & _ & Hm & _).
  revert patCc pmtCc off e m Hc1 Hc2 He H1 H2.
  induction n as [| n IH]; intros patCc pmtCc off e m Hc1 Hc2 He H1 H2.
  { exists [], e, m. done. }
  destruct (parse_round p patCc pmtCc off e m s s s) as (pat & pmt & e2 & E1 & E2 & W1 & W2 & He2 & P);
    try done.
  destruct (IH (Z.land (patCc + 1) 0x0F) (Z.land (pmtCc + 1) 0x0F) (off + 188 * 2) e2
    (<[mp_programMapPid p := pmtCc]> (<[0 := patCc]> m))) as (rest & e' & m' & E3 & W3 & P3).
  { rewrite next_counter. divmod. }
  { rewrite next_counter. divmod. }
  { rewrite He2. intros x [= <-]. lia. }
  { intros c. rewrite lookup_insert_ne by lia. rewrite lookup_insert_eq. by intros [= ->]. }
  { intros c. rewrite lookup_insert_eq. by intros [= ->]. }
  exists ([pat; pmt] ++ rest), e', m'. cbn [tableStream]. rewrite E1, E2, E3. split_and!.
  - done.
  - by do 2 (constructor; [done |]).
  - by rewrite parseAll_append, P.
Qed.

(** C1: The program tables survive the transport: for every plan [createPlan]
    accepts, the PAT and PMT packets can be built, and any number of rounds of
    them, fed to the packet parser in any chunks, makes the section assembler
    publish exactly one inventory, the program of the plan (version, program
    number, PMT and PCR PIDs, elementary streams), without any error. *)
Theorem psi_roundtrip p patCc pmtCc n :
  planOk p -> 0 <= patCc <= 15 -> 0 <= pmtCc <= 15 ->
  exists packets, tableStream p patCc pmtCc (S n) = Success packets /\
    forall chunks, concat chunks = concat packets ->
      Z.of_nat (length (concat packets)) <= uint64_max ->
      exists parser, feed chunks (freshParser, (emptyAssembler, [])) =
        (Success tt, (parser, (afterPmt p, [planSnapshot p]))).
Proof.
  intros Hok Hc1 Hc2. destruct (createPlan_facts p Hok) as (_ & _ & Hm & _).
  destruct (parse_round p patCc pmtCc 0 None ∅ (emptyAssembler, []) (afterPat p, [])
    (afterPmt p, [planSnapshot p])) as (pat & pmt & e2 & E1 & E2 & W1 & W2 & He2 & P); try done.
  { intros v; intros; by apply deliver_pat_first. }
  { intros v; intros; by apply deliver_pmt_first. }
  destruct (parse_repeats p n (Z.land (patCc + 1) 0x0F) (Z.land (pmtCc + 1) 0x0F) (0 + 188 * 2) e2
    (<[mp_programMapPid p := pmtCc]> (<[0 := patCc]> ∅)) (afterPmt p, [planSnapshot p]))
    as (rest & e' & m' & E3 & W3 & P3); try done.
  { rewrite next_counter. divmod. }
  { rewrite next_counter. divmod. }
  { rewrite He2. intros x [= <-]. lia. }
  { intros c. rewrite lookup_insert_ne by lia. rewrite lookup_insert_eq. by intros [= ->]. }
  { intros c. rewrite lookup_insert_eq. by intros [= ->]. }
  { intros v; intros; by apply deliver_pat_repeat. }
  { intros v; intros; by apply deliver_pmt_repeat. }
  exists ([pat; pmt] ++ rest). cbn [tableStream]. rewrite E1, E2, E3. split; [done |].
  intros chunks Hcat Hmax.
  pose proof (feed_packets ([pat; pmt] ++ rest) chunks (emptyAssembler, @nil MediaTsProgramInventorySnapshot)) as Hf.
  rewrite parseAll_append, P in Hf. cbn [length] in Hf. change (Z.of_nat 2) with 2 in Hf. rewrite P3 in Hf.
  destruct Hf as ([[] |] & parser & -> & Hr & _); try done.
  - by do 2 (constructor; [done |]).
  - by exists parser.
Qed.

(** A video-only H.264 plan. *)
Definition samplePlan : MediaTsMuxPlanParameters :=
  let c v := mkConstraint v "iso" ProtocolMaximum in
  mkParameters 1 1 0 0x100 3 (mkTiming (c 40) (c 100) (c 100) (c 5) 1 90000)
    (VideoOnly (mkVideoOnly 0x101 0x101 0x1B (mkVideoSeeds 0 0 0)))
    (mkVideoContract TsH264 AnnexB 0 0x1B) ParameterSetsNever 1000 500 188 7 UdpDatagrams.

Lemma samplePlan_ok : planOk samplePlan.
Proof. split; [reflexivity | simpl; lia..]. Qed.

Lemma psi_roundtrip_witness :
  planOk samplePlan /\
  exists packets, tableStream samplePlan 15 7 3 = Success packets /\
    forall chunks, concat chunks = concat packets ->
      Z.of_nat (length (concat packets)) <= uint64_max ->
      exists parser, feed chunks (freshParser, (emptyAssembler, [])) =
        (Success tt, (parser, (afterPmt samplePlan, [planSnapshot samplePlan]))).
Proof.
  split; [apply samplePlan_ok |]. apply (psi_roundtrip samplePlan 15 7 2); [apply samplePlan_ok | lia | lia].
Defined.

End MediaTsPsiRoundTrip.
