(* ===== verification/TsInventory.v ===== *)
(** * Published inventories

    An invariant of [MediaTsPsiSectionAssembler]'s tables, preserved by every
    call (also a failing one), and what it gives the implementation of
    [MediaTsProgramInventorySink]: every inventory it is handed is consistent. *)

From stdpp Require Import gmap.
From S2P Require Import Prelude MediaResult TsParser TsPsi TsSections TsPsiRoundTrip.
Import MediaTsPacketParser MediaTsMuxPlan MediaTsPsiSerializer MediaTsPsiSectionAssembler MediaTsPsiRoundTrip.

Local Open Scope Z_scope.

Module MediaTsInventory.

(** ** Specification *)

Definition validStreams (l : list MediaTsElementaryStreamInfo) : Prop :=
  NoDup (es_pid <$> l) /\ Forall (fun s => es_pid s <> 0x1FFF) l.

Record validProgram (i : MediaTsProgramInfo) : Prop := {
  vp_streams : validStreams (pi_elementaryStreams i);
  vp_nonempty : pi_elementaryStreams i <> [];
  vp_pcr : pi_pcrPid i <> 0x1FFF;
}.

Record validSnapshot (s : MediaTsProgramInventorySnapshot) : Prop := {
  vs_nonempty : sn_programs s <> [];
  vs_numbers : NoDup (pi_programNumber <$> sn_programs s);
  vs_pids : NoDup (pi_pmtPid <$> sn_programs s);
  vs_nonzero : Forall (fun i => pi_programNumber i <> 0 /\ pi_pmtPid i <> 0x1FFF) (sn_programs s);
  vs_programs : Forall validProgram (sn_programs s);
}.

(** ** Lemmas: joining sections *)

Section Join.
Context {A : Type} (keys : A -> list Z).

(** The [i]-th keys of a list. *)
Definition keyColumn (i : nat) (l : list A) : list Z := omap (fun x => keys x !! i) l.

Definition joinedOk (seen : list (gset Z)) (joined : list A) : Prop :=
  forall i s, seen !! i = Some s ->
    NoDup (keyColumn i joined) /\ forall x, x ∈ keyColumn i joined -> x ∈ s.

Lemma existsb_zip_false (ks : list Z) (seen : list (gset Z)) i k s :
  existsb (fun '(k, s) => bool_decide (k ∈ s)) (zip ks seen) = false ->
  ks !! i = Some k -> seen !! i = Some s -> k ∉ s.
Proof.
  revert seen i. induction ks as [| k0 ks IH]; intros [| s0 seen] i H Hk Hs; try done.
  cbn in H. apply orb_false_iff in H as [H0 H]. destruct i as [| i]; simplify_eq/=.
  - by apply bool_decide_eq_false in H0.
  - by apply (IH seen i).
Qed.

Lemma joinPart_ok part seen joined seen' joined' :
  (forall x, length (keys x) = length seen) ->
  joinPart keys part seen joined = Some (seen', joined') -> joinedOk seen joined ->
  joinedOk seen' joined' /\ joined' = joined ++ part /\ length seen' = length seen.
Proof.
  revert seen joined. induction part as [| x part IH]; intros seen joined Hk; cbn [joinPart].
  { intros [= <- <-] H. by rewrite app_nil_r. }
  destruct (existsb _ _) eqn:Ee; [done |]. intros E H.
  apply IH in E as (H1 & -> & H2).
  - split; [done |]. split; [by rewrite <- app_assoc |]. rewrite H2, length_zip_with, Hk. lia.
  - intros y. rewrite length_zip_with, Hk. rewrite (Hk x). lia.
  - intros i s Hs. apply lookup_zip_with_Some in Hs as (k & s0 & -> & Hkx & Hs0).
    destruct (H i s0 Hs0) as [Hnd Hin]. unfold keyColumn in *. rewrite omap_app. cbn. rewrite Hkx. cbn.
    pose proof (existsb_zip_false _ _ _ _ _ Ee Hkx Hs0) as Hnot. split.
    + apply NoDup_snoc. split; [done |]. intros Hx. by apply Hnot, Hin.
    + intros y [Hy | ->%list_elem_of_singleton]%elem_of_app; set_solver.
Qed.

Lemma joinSections_ok sections numbers seen joined l (P : A -> Prop) :
  (forall x, length (keys x) = length seen) ->
  joinSections keys sections numbers seen joined = JoinAll l -> joinedOk seen joined ->
  map_Forall (fun _ part => Forall P part) sections -> Forall P joined ->
  (exists seen', joinedOk seen' l /\ length seen' = length seen) /\ Forall P l.
Proof.
  intros Hk E H Hs. revert seen joined Hk E H.
  induction numbers as [| n numbers IH]; intros seen joined Hk E H Hj; cbn [joinSections] in E.
  { simplify_eq. eauto. }
  destruct (sections !! n) as [part |] eqn:En; [| done].
  destruct (joinPart keys part seen joined) as [[seen' joined'] |] eqn:Ep; [| done].
  destruct (joinPart_ok _ _ _ _ _ Hk Ep H) as (H1 & -> & H2).
  destruct (IH seen' (joined ++ part)) as ((seen2 & H3 & H4) & H5); try done.
  - by rewrite H2.
  - apply Forall_app. split; [done |]. by apply (Hs n).
  - split; [| done]. exists seen2. split; [done |]. by rewrite H4.
Qed.

End Join.

(** ** Lemmas: the loops over a section *)

Definition mappingOk (p : PatProgram) : Prop := pp_programNumber p <> 0 /\ pp_pmtPid p <> 0x1FFF.
Definition streamOk (s : MediaTsElementaryStreamInfo) : Prop := es_pid s <> 0x1FFF.

Lemma patLoop_ok fuel section offset ns ps l l' :
  patLoop fuel section offset ns ps l = Success l' -> Forall mappingOk l -> Forall mappingOk l'.
Proof.
  revert offset ns ps l. induction fuel as [| fuel IH]; intros offset ns ps l; cbn [patLoop].
  { by intros [= <-]. }
  destruct (negb _); [by intros [= <-] |]. destruct (negb _); [done |].
  destruct (Z.eqb_spec (readU16 section offset) 0); [apply IH |].
  destruct (Z.eqb_spec (readPid section (offset + 2)) 0x1FFF); [done |].
  destruct (_ || _ || _); [done |]. intros E Hl. apply IH in E; [done |].
  apply Forall_app. split; [done |]. by apply Forall_singleton.
Qed.

Lemma pmtLoop_ok fuel section crc offset ps l l' :
  pmtLoop fuel section crc offset ps l = Success l' -> Forall streamOk l -> Forall streamOk l'.
Proof.
  revert offset ps l. induction fuel as [| fuel IH]; intros offset ps l; cbn [pmtLoop].
  { by intros [= <-]. }
  destruct (negb _); [by intros [= <-] |]. destruct (_ <? 5); [done |]. destruct (_ || _); [done |].
  destruct (Z.eqb_spec (readPid section (offset + 1)) 0x1FFF); [done |].
  destruct (_ || _); [done |]. destruct (_ <? _); [done |]. intros E Hl. apply IH in E; [done |].
  apply Forall_app. split; [done |]. by apply Forall_singleton.
Qed.

(** A table that was joined has distinct keys. *)
Lemma joinPat_ok sections numbers l :
  joinSections patKeys sections numbers [∅; ∅] [] = JoinAll l ->
  map_Forall (fun _ part => Forall mappingOk part) sections ->
  NoDup (pp_programNumber <$> l) /\ NoDup (pp_pmtPid <$> l) /\ Forall mappingOk l.
Proof.
  intros E Hs. destruct (joinSections_ok patKeys sections numbers [∅; ∅] [] l mappingOk) as [(seen & H & Hl) Hf];
    try done.
  { intros [| [| i]] s' Hi; simplify_eq/=; (split; [constructor | by intros x ?%not_elem_of_nil]). }
  destruct seen as [| s0 [| s1 [| ]]]; try done.
  destruct (H 0%nat s0 eq_refl) as [H0 _]. destruct (H 1%nat s1 eq_refl) as [H1 _].
  assert (Hc : forall i (f : PatProgram -> Z), (forall x, patKeys x !! i = Some (f x)) ->
    keyColumn patKeys i l = f <$> l).
  { intros i f Hf'. clear -Hf'. unfold keyColumn. induction l as [| x l IH]; [done |]. cbn. rewrite Hf'. cbn.
    by f_equal. }
  rewrite (Hc 0%nat pp_programNumber) in H0 by done. rewrite (Hc 1%nat pp_pmtPid) in H1 by done. done.
Qed.

Lemma joinPmt_ok sections numbers l :
  joinSections streamKeys sections numbers [∅] [] = JoinAll l ->
  map_Forall (fun _ part => Forall streamOk part) sections -> validStreams l.
Proof.
  intros E Hs. destruct (joinSections_ok streamKeys sections numbers [∅] [] l streamOk) as [(seen & H & Hl) Hf];
    try done.
  { intros [| i] s' Hi; simplify_eq/=. split; [constructor | by intros x ?%not_elem_of_nil]. }
  destruct seen as [| s0 [|]]; try done. destruct (H 0%nat s0 eq_refl) as [H0 _]. split; [| done].
  assert (Hc : keyColumn streamKeys 0 l = es_pid <$> l).
  { clear. unfold keyColumn. induction l as [| x l IH]; [done |]. cbn. by f_equal. }
  by rewrite Hc in H0.
Qed.

(** ** The invariant *)

Record tablesOk (a : Assembler) : Prop := {
  t_mappings : Forall mappingOk (m_patPrograms a);
  t_numbers : NoDup (pp_programNumber <$> m_patPrograms a);
  t_pids : NoDup (pp_pmtPid <$> m_patPrograms a);
  t_patSections : forall pat, m_patAssembly a = Some pat ->
    map_Forall (fun _ part => Forall mappingOk part) (pat_sections pat);
  t_complete : m_patPrograms a <> [] -> exists pat, m_patAssembly a = Some pat /\
    pat_lastSectionNumber pat + 1 <= Z.of_nat (size (pat_sections pat));
  t_version : m_patVersion a <> None -> m_patPrograms a <> [];
  t_pmt : map_Forall (fun _ pmt => map_Forall (fun _ part => Forall streamOk part) (pmt_sections pmt))
    (m_pmtAssemblies a);
  t_programs : map_Forall (fun pid i => pi_pmtPid i = pid /\ validProgram i /\
    exists m, m ∈ m_patPrograms a /\ pp_pmtPid m = pid /\ pp_programNumber m = pi_programNumber i)
    (m_programsByPmtPid a);
}.

Lemma tablesOk_empty sections pat published :
  (forall p, pat = Some p -> map_Forall (fun _ part => Forall mappingOk part) (pat_sections p)) ->
  tablesOk (mkAssembler sections pat None [] ∅ ∅ published).
Proof.
  intros Hp. split; simpl; try done; try (by constructor); apply map_Forall_empty.
Qed.

Lemma reset_tables pid a : tablesOk a -> tablesOk (resetPidGeneration pid a).
Proof.
  intros [H1 H2 H3 H4 H5 H6 H7 H8]. unfold resetPidGeneration. destruct (pid =? 0); [by apply tablesOk_empty |].
  split; simpl; try done; by apply map_Forall_delete.
Qed.

Lemma putSection_tables pid s a : tablesOk a -> tablesOk (putSection pid s a).
Proof. intros [? ? ? ? ? ? ? ?]. by split. Qed.

(** A new section of the PAT. *)
Lemma add_pat_section a pat number programs :
  tablesOk a -> m_patAssembly a = Some pat -> pat_sections pat !! number = None ->
  Forall mappingOk programs ->
  tablesOk (setPatAssembly (mkPat (pat_transportStreamId pat) (pat_version pat)
    (pat_lastSectionNumber pat) (<[number := programs]> (pat_sections pat))) a).
Proof.
  intros [H1 H2 H3 H4 H5 H6 H7 H8] Ha Hn Hp. split; simpl; try done.
  - intros p [= <-]. simpl. apply map_Forall_insert_2; [done | by apply H4].
  - intros Hne. destruct (H5 Hne) as (p & Ep & Hs). simplify_eq. eexists. split; [done |]. simpl.
    rewrite map_size_insert_None by done. lia.
Qed.

(** The PAT is complete. *)
Lemma complete_pat a sections pat version number programs l published :
  tablesOk a -> m_patAssembly a = Some pat -> pat_sections pat !! number = None ->
  Forall mappingOk programs ->
  Z.of_nat (size (<[number := programs]> (pat_sections pat))) = pat_lastSectionNumber pat + 1 ->
  joinSections patKeys (<[number := programs]> (pat_sections pat))
    (seqZ 0 (pat_lastSectionNumber pat + 1)) [∅; ∅] [] = JoinAll l -> l <> [] ->
  tablesOk (mkAssembler sections (Some (mkPat (pat_transportStreamId pat) (pat_version pat)
    (pat_lastSectionNumber pat) (<[number := programs]> (pat_sections pat)))) (Some version) l
    (m_pmtAssemblies a) (m_programsByPmtPid a) published).
Proof.
  intros Ht Ha Hn Hp Hsize Hj Hl. pose proof (add_pat_section a pat number programs Ht Ha Hn Hp) as Hadd.
  destruct Hadd as [_ _ _ A4 _ _ _ _]. specialize (A4 _ eq_refl). simpl in A4.
  destruct (joinPat_ok _ _ _ Hj A4) as (J1 & J2 & J3).
  destruct Ht as [H1 H2 H3 H4 H5 H6 H7 H8].
  assert (Hnil : m_patPrograms a = []).
  { destruct (m_patPrograms a) as [| m ms] eqn:Em; [done |]. destruct (H5 ltac:(done)) as (p & Ep & Hs).
    simplify_eq. rewrite map_size_insert_None in Hsize by done. lia. }
  split; simpl; try done.
  - intros p [= <-]. done.
  - intros _. eexists. split; [done |]. simpl. lia.
  - intros pid i Hi. destruct (H8 pid i Hi) as (_ & _ & m & Hm & _). rewrite Hnil in Hm.
    by apply not_elem_of_nil in Hm.
Qed.

Lemma addPat_tables a pat version number last programs :
  tablesOk a -> m_patAssembly a = Some pat -> pat_lastSectionNumber pat = last ->
  Forall mappingOk programs -> tablesOk (addPatSection version number last programs pat a).2.
Proof.
  intros Ht Ha Hl Hp. unfold addPatSection.
  destruct (pat_sections pat !! number) as [existing |] eqn:En; [by destruct (negb _) |].
  pose proof (add_pat_section a pat number programs Ht Ha En Hp) as Hs. cbv zeta.
  destruct (Z.eqb_spec (Z.of_nat (size (<[number:=programs]> (pat_sections pat)))) (last + 1)); [| done].
  cbn [negb]. destruct (joinSections _ _ _ _ _) as [| | [| m ms]] eqn:Ej; try done.
  subst last. by apply (complete_pat a _ pat _ number programs).
Qed.

Lemma parsePat_tables section a : tablesOk a -> tablesOk (parsePat section a).2.
Proof.
  intros Ht. unfold parsePat. destruct (validateLongSection section 0 12); [| done].
  destruct (negb _); [done |].
  destruct (patLoop _ _ _ _ _ _) as [programs | e] eqn:Ep; [| done].
  apply patLoop_ok in Ep; [| constructor]. cbv zeta.
  set (fresh := mkPat _ _ (at_ section 7) ∅).
  assert (Hfresh : tablesOk (addPatSection (sectionVersion section) (at_ section 6) (at_ section 7) programs fresh
    (mkAssembler (m_sections a) (Some fresh) None [] ∅ ∅ (m_lastPublished a))).2).
  { apply addPat_tables; try done. apply tablesOk_empty. intros p [= <-]. apply map_Forall_empty. }
  destruct (m_patAssembly a) as [pat |] eqn:Ea; [| done].
  destruct (negb (pat_version pat =? sectionVersion section)); [done |].
  destruct (Z.eqb_spec (pat_lastSectionNumber pat) (at_ section 7)); [| done]. cbn [negb orb].
  destruct (negb _); [done |]. by apply addPat_tables.
Qed.

(** ** Lemmas: snapshots *)

Lemma unique_mapping (l : list PatProgram) m m' :
  NoDup (pp_pmtPid <$> l) -> m ∈ l -> m' ∈ l -> pp_pmtPid m = pp_pmtPid m' -> m = m'.
Proof.
  intros Hnd Hm Hm' E. pose proof (findFirst_unique pp_pmtPid l m Hnd Hm) as F1.
  pose proof (findFirst_unique pp_pmtPid l m' Hnd Hm') as F2. rewrite E in F1. congruence.
Qed.

Lemma snapshot_columns a ms l :
  tablesOk a -> (forall m, m ∈ ms -> m ∈ m_patPrograms a) ->
  snapshotPrograms (m_programsByPmtPid a) ms = Some l ->
  pi_pmtPid <$> l = pp_pmtPid <$> ms /\ pi_programNumber <$> l = pp_programNumber <$> ms /\
  Forall validProgram l.
Proof.
  intros Ht. revert l. induction ms as [| m ms IH]; intros l Hin; cbn [snapshotPrograms].
  { by intros [= <-]. }
  destruct (m_programsByPmtPid a !! pp_pmtPid m) as [i |] eqn:Ei; [| done].
  destruct (snapshotPrograms _ ms) as [l' |]; [| done]. intros [= <-].
  destruct (IH l') as (E1 & E2 & E3); [intros x Hx; apply Hin; by right | done |].
  destruct (t_programs a Ht _ _ Ei) as (P1 & P2 & m' & Hm' & P3 & P4).
  assert (m = m') as ->. { apply (unique_mapping _ _ _ (t_pids a Ht)); [apply Hin; by left | done | done]. }
  rewrite !fmap_cons. split_and!; [by rewrite P1, E1 | by rewrite P4, E2 | by constructor].
Qed.

Lemma snapshot_valid a l version :
  tablesOk a -> m_patVersion a = Some version ->
  snapshotPrograms (m_programsByPmtPid a) (m_patPrograms a) = Some l ->
  validSnapshot (mkSnapshot version l).
Proof.
  intros Ht Hv Hs. destruct (snapshot_columns a _ l Ht (fun _ H => H) Hs) as (E1 & E2 & E3).
  split; simpl; [| rewrite E2; by apply t_numbers | rewrite E1; by apply t_pids | | done].
  - intros ->. apply (t_version a Ht); [by rewrite Hv |]. by destruct (m_patPrograms a).
  - pose proof (t_mappings a Ht) as Hm. clear -E1 E2 Hm.
    revert l E1 E2. induction (m_patPrograms a) as [| m ms IH]; intros [| i l] E1 E2; try done.
    rewrite !fmap_cons in E1, E2. injection E1 as Ea E1. injection E2 as Eb E2.
    apply Forall_cons in Hm as [[H1 H2] Hm]. constructor; [by rewrite Ea, Eb | by apply IH].
Qed.

(** ** Every call keeps the invariant and hands the sink consistent inventories *)

Section Calls.
Context {K : Type} `{!MediaTsProgramInventorySink K}.
Variable I : K -> Prop.
Hypothesis sinkKeeps : forall snapshot k, validSnapshot snapshot -> I k ->
  I (onProgramInventory snapshot k).2.

Definition stateOk (st : Assembler * K) : Prop := tablesOk st.1 /\ I st.2.

Lemma publish_ok (st : Assembler * K) : stateOk st -> stateOk (publishIfComplete st).2.
Proof.
  destruct st as [a k]. intros [Ht Hk]. unfold publishIfComplete.
  destruct (m_patVersion a) as [v |] eqn:Ev; [| by split]. destruct (negb _); [by split |].
  destruct (snapshotPrograms _ _) as [l |] eqn:Es; [| by split]. cbv zeta.
  destruct (bool_decide _); [by split |].
  pose proof (sinkKeeps (mkSnapshot v l) k (snapshot_valid a l v Ht Ev Es) Hk) as Hs.
  destruct (onProgramInventory _ _) as [[u | e] k']; split; try done.
  destruct Ht as [? ? ? ? ? ? ? ?]. by split.
Qed.

(** A change of the PMT tables. *)
Lemma setPmt_tables assemblies programs a :
  tablesOk a ->
  map_Forall (fun _ pmt => map_Forall (fun _ part => Forall streamOk part) (pmt_sections pmt)) assemblies ->
  map_Forall (fun pid i => pi_pmtPid i = pid /\ validProgram i /\
    exists m, m ∈ m_patPrograms a /\ pp_pmtPid m = pid /\ pp_programNumber m = pi_programNumber i) programs ->
  tablesOk (setPmt assemblies programs a).
Proof. intros [? ? ? ? ? ? ? ?] Ha Hp. by split. Qed.

Lemma addPmt_ok pid mapping version pcrPid number last streams pmt (a : Assembler) (k : K) :
  stateOk (a, k) -> Forall streamOk streams -> pcrPid <> 0x1FFF ->
  mapping ∈ m_patPrograms a -> pp_pmtPid mapping = pid ->
  map_Forall (fun _ part => Forall streamOk part) (pmt_sections pmt) ->
  stateOk (addPmtSection pid (pp_programNumber mapping) version pcrPid number last streams pmt (a, k)).2.
Proof.
  intros [Ht Hk] Hs Hpcr Hm Hpid Hpmt. unfold addPmtSection.
  destruct (pmt_sections pmt !! number) as [existing |] eqn:En; [by destruct (negb _) |]. cbv zeta.
  set (sections := <[number := streams]> (pmt_sections pmt)).
  assert (Hsec : map_Forall (fun _ part => Forall streamOk part) sections) by (by apply map_Forall_insert_2).
  set (pmt' := mkPmt _ _ _ _ sections).
  assert (Ha : map_Forall (fun _ pmt => map_Forall (fun _ part => Forall streamOk part) (pmt_sections pmt))
    (<[pid := pmt']> (m_pmtAssemblies a))) by (apply map_Forall_insert_2; [done | by apply t_pmt]).
  assert (Hset : tablesOk (setPmt (<[pid := pmt']> (m_pmtAssemblies a)) (m_programsByPmtPid a) a))
    by (apply setPmt_tables; [done | done | by apply t_programs]).
  destruct (negb _); [by split |].
  destruct (joinSections _ _ _ _ _) as [| | [| x xs]] eqn:Ej; try (by split).
  apply publish_ok. split; [| done]. apply setPmt_tables; [done | done |].
  apply map_Forall_insert_2; [| by apply t_programs]. split_and!; [done | | by exists mapping].
  split; [by apply (joinPmt_ok sections _ (x :: xs) Ej) | done | done].
Qed.

Lemma parsePmt_ok pid section (a : Assembler) (k : K) :
  stateOk (a, k) -> stateOk (parsePmt pid section (a, k)).2.
Proof.
  intros Hok. unfold parsePmt. destruct (validateLongSection section 2 16); [| done].
  destruct (findFirst _ _) as [mapping |] eqn:Ef; [| done].
  apply findFirst_Some in Ef as [Hm Hp%Z.eqb_eq]. destruct (negb _); [done |]. destruct (_ || _); [done |].
  destruct (Z.eqb_spec (readPid section 8) 0x1FFF); [done |]. cbv zeta. destruct (_ <? _); [done |].
  destruct (pmtLoop _ _ _ _ _ _) as [streams | e] eqn:El; [| done].
  apply pmtLoop_ok in El; [| constructor]. pose proof Hok as [Ht Hk].
  set (fresh := mkPmt _ _ _ _ ∅).
  assert (Hfresh : stateOk (addPmtSection pid (pp_programNumber mapping) (sectionVersion section)
    (readPid section 8) (at_ section 6) (at_ section 7) streams fresh
    (setPmt (<[pid := fresh]> (m_pmtAssemblies a)) (delete pid (m_programsByPmtPid a)) a, k)).2).
  { apply addPmt_ok; try done. split; [| done]. apply setPmt_tables; [done | |].
    - apply map_Forall_insert_2; [apply map_Forall_empty | by apply t_pmt].
    - by apply map_Forall_delete, t_programs. }
  destruct (m_pmtAssemblies a !! pid) as [pmt |] eqn:Ea; [| done].
  destruct (negb (pmt_version pmt =? _)); [done |]. destruct (_ || _ || _); [done |].
  apply addPmt_ok; try done. by apply (t_pmt a Ht pid).
Qed.

Lemma completeSection_ok pid section (st : Assembler * K) :
  stateOk st -> stateOk (completeSection pid section st).2.
Proof.
  destruct st as [a k]. intros [Ht Hk]. unfold completeSection. destruct (pid =? 0).
  - pose proof (parsePat_tables section a Ht) as H. by destruct (parsePat section a).
  - by apply parsePmt_ok.
Qed.

Lemma consumeLoop_ok fuel pid bytes (st : Assembler * K) :
  stateOk st -> stateOk (consumeLoop fuel pid bytes st).2.
Proof.
  revert bytes st. induction fuel as [| fuel IH]; intros bytes [a k] Hok; [done |]. pose proof Hok as [Ht Hk].
  cbn [consumeLoop]. destruct bytes as [| b bytes']; [done |]. set (bytes := b :: bytes').
  assert (Hfill : forall state l a', tablesOk a' ->
    stateOk (fillSection (consumeLoop fuel pid) pid state l (a', k)).2).
  { intros state l a' Ha'. unfold fillSection. destruct (ss_expectedSize state); [| by split]. cbv zeta.
    destruct (negb _); [split; [by apply putSection_tables | done] |]. unfold bindState.
    pose proof (completeSection_ok pid (ss_bytes state ++ take (Nat.min (Z.to_nat (z - size_of (ss_bytes state)))
      (length l)) l) (putSection pid (mkSection [] None) a', k)) as Hc.
    destruct (completeSection _ _ _) as [[u | e] st']; [apply IH |]; apply Hc; split; try done;
      by apply putSection_tables. }
  destruct (Nat.eqb _ 0 && _); [done |]. destruct (Nat.ltb_spec (length (ss_bytes (sectionAt pid a))) 3).
  - cbv zeta. destruct (_ <? _)%nat; [split; [by apply putSection_tables | done] |].
    destruct (_ || _); [split; [by apply putSection_tables | done] |].
    apply Hfill. by do 2 apply putSection_tables.
  - by apply Hfill.
Qed.

Lemma consume_ok pid bytes (st : Assembler * K) : stateOk st -> stateOk (consume pid bytes st).2.
Proof.
  destruct st as [a k]. intros [Ht Hk]. apply consumeLoop_ok. split; [by apply putSection_tables | done].
Qed.

Lemma onSectionPacket_ok v (st : Assembler * K) : stateOk st -> stateOk (onSectionPacket v st).2.
Proof.
  destruct st as [a k]. intros [Ht Hk]. unfold onSectionPacket. destruct (negb _ && negb _); [by split |].
  set (a1 := if v_discontinuity v then _ else a).
  assert (Ha1 : tablesOk a1) by (unfold a1; destruct (v_discontinuity v); [by apply reset_tables | done]).
  destruct (Nat.eqb _ 0); [by split |]. destruct (_ && _); [by split |]. cbv zeta.
  assert (Ha2 : stateOk (putSection (v_pid v) (sectionAt (v_pid v) a1) a1, k))
    by (split; [by apply putSection_tables | done]).
  destruct (v_payloadUnitStart v).
  - destruct (_ <? _); [done |]. destruct (negb _); [| by apply consume_ok].
    unfold bindState. pose proof (consume_ok (v_pid v)
      (take (Z.to_nat (at_ (v_payloadSpan v) 0)) (drop 1 (v_payloadSpan v))) _ Ha2) as Hc.
    destruct (consume _ _ _) as [[u | e] [a3 k3]]; [| done]. destruct (negb _); [done |]. by apply consume_ok.
  - destruct (Nat.eqb _ 0); [done | by apply consume_ok].
Qed.

(** The inventories are consistent: whatever packets and continuity events
    the assembler gets, every inventory it publishes names at least one program,
    no program number or PMT PID twice, no null PID and no program number 0, and
    every program has at least one stream and no elementary PID twice.  Stated
    for any property [I] of the sink that consistent inventories keep. *)
Theorem inventories_consistent cs (a : Assembler) (k : K) :
  tablesOk a -> I k -> tablesOk (runCalls cs (a, k)).2.1 /\ I (runCalls cs (a, k)).2.2.
Proof.
  intros Ht Hk. change (stateOk (runCalls cs (a, k)).2). assert (H : stateOk (a, k)) by (by split).
  revert H. generalize (a, k). clear a k Ht Hk. induction cs as [| c cs IH]; intros st Hok; [done |].
  cbn [runCalls]. assert (Hc : stateOk (runCall c st).2).
  { destruct c as [v | e]; [by apply onSectionPacket_ok |]. destruct st as [a k], Hok as [Ht Hk].
    split; [by apply reset_tables | done]. }
  destruct (runCall c st) as [[u | e] st']; [by apply IH | done].
Qed.

End Calls.

(** The packets of a PAT and a PMT, and what a recording sink gets of them. *)
Definition tableView (pid : Z) (section : list Z) : MediaTsPacketView :=
  mkPacketView 0 pid true 0 false None (0 :: section).

Lemma inventories_consistent_witness :
  let calls := [CallPacket (tableView 0 (serializePat samplePlan));
                CallPacket (tableView (mp_programMapPid samplePlan) (serializePmt samplePlan))] in
  (runCalls calls (emptyAssembler, @nil MediaTsProgramInventorySnapshot)).2.2 = [planSnapshot samplePlan] /\
  tablesOk (runCalls calls (emptyAssembler, @nil MediaTsProgramInventorySnapshot)).2.1 /\
  Forall validSnapshot (runCalls calls (emptyAssembler, @nil MediaTsProgramInventorySnapshot)).2.2.
Proof.
  split; [vm_compute; reflexivity |].
  apply (inventories_consistent (Forall validSnapshot)).
  - intros snapshot l Hs Hl. apply Forall_app. split; [exact Hl | by apply Forall_singleton].
  - apply tablesOk_empty. discriminate.
  - apply List.Forall_nil.
Defined.

End MediaTsInventory.
