(* ===== verification/TsPacketizer.v ===== *)
(** * The transport packetizer and its cursors

    Models [protocol/mpegts/MediaTsTransportPacketizer.{h,cpp}]: the continuity
    counters of an output program, the cursor of each unit in flight, the
    batches prepared from a cursor, the commit tokens that make them final, and
    the reservation ledger that lets a PID start its next unit before the
    previous one is committed.

    A [World] is the shared control state together with the cursor objects
    that are alive, by identity; [w_attached] is the non-null [m_state] of the
    packetizer handle.  A cursor that was moved from, destroyed or never
    created is absent from the map.  Every method holds the mutex of the
    control state, so a thread schedule is a list of whole calls.  The packet
    workspace is a cache of vector capacity whose contents the builder clears;
    it and allocation failure are not modelled.  Tokens are plain values: the
    model lets a caller present any token any number of times. *)

From stdpp Require Import gmap.
From S2P Require Import Prelude MediaResult TsPacket TsPes TsPsi.
Import MediaTsTransportPacketBuilder MediaTsPes MediaTsMuxPlan MediaTsPsiSerializer.

Local Open Scope Z_scope.
Local Open Scope result_scope.

Module MediaTsTransportPacketizer.

(** ** State *)

Inductive CursorPidKind := KindPat | KindPmt | KindVideo | KindAudio | KindPcr.

(** [ContinuityState] is its only member [nextPayload]; both arrays of an
    alternative have its fixed size. *)
Inductive ProgramContinuityState :=
  | VideoContinuityState (next : list Z) (discontinuityPending : list bool)
  | AudioVideoContinuityState (next : list Z) (discontinuityPending : list bool).

Record ContinuityReservation := mkReservation {
  cr_cursorIdentity : Z;
  cr_nextPayload : Z;
  cr_clearsDiscontinuity : bool;
}.

(** [pz_address] is the identity of the object behind the shared pointer. *)
Record MediaTsPacketizerControlState := mkControl {
  pz_address : Z;
  pz_plan : MediaTsMuxPlanParameters;
  pz_continuity : ProgramContinuityState;
  pz_activeCursors : list (option Z);
  pz_reservations : list (list ContinuityReservation);
  pz_nextCursorIdentity : Z;
  pz_poisoned : bool;
}.

Record Pending := mkPending {
  pd_revision : Z;
  pd_endOffset : nat;
  pd_nextPayload : Z;
  pd_clearsDiscontinuity : bool;
}.

Record MediaTsPacketCursorState := mkCursor {
  cs_identity : Z;
  cs_nextRevision : Z;
  cs_pidKind : CursorPidKind;
  cs_packets : list (list Z);
  cs_initialPayloadContinuity : Z;
  cs_advancesPayloadContinuity : bool;
  cs_carriesDiscontinuity : bool;
  cs_committedOffset : nat;
  cs_pending : option Pending;
  cs_continuityReserved : bool;
}.

(** [tk_owner] is what the weak pointer locks to. *)
Record MediaTsPacketCommitToken := mkToken {
  tk_owner : option Z;
  tk_cursorIdentity : Z;
  tk_revision : Z;
  tk_valid : bool;
}.

(** [MediaTsPreparedPacketBatch] and [MediaTsPreparedPacketSeries]: the span
    [packets()] and the token. *)
Record MediaTsPreparedPacketBatch := mkBatch {
  pb_packets : list (list Z);
  pb_commitToken : MediaTsPacketCommitToken;
}.

Record World := mkWorld {
  w_control : MediaTsPacketizerControlState;
  w_attached : bool;
  w_cursors : gmap Z MediaTsPacketCursorState;
}.

(** ** Access *)

Definition invalid {A} (message : string) : StateResult World A := failState (invalidArgument message).

Definition continuityIndex (kind : CursorPidKind) : nat :=
  match kind with KindPat => 0 | KindPmt => 1 | KindVideo => 2 | KindAudio => 3 | KindPcr => 2 end.

Definition nextArray (c : ProgramContinuityState) : list Z :=
  match c with VideoContinuityState n _ | AudioVideoContinuityState n _ => n end.

Definition discontinuityArray (c : ProgramContinuityState) : list bool :=
  match c with VideoContinuityState _ d | AudioVideoContinuityState _ d => d end.

Definition continuity (c : MediaTsPacketizerControlState) (kind : CursorPidKind) : option Z :=
  nextArray (pz_continuity c) !! continuityIndex kind.

Definition discontinuityPending (c : MediaTsPacketizerControlState) (kind : CursorPidKind) :
    option bool :=
  discontinuityArray (pz_continuity c) !! continuityIndex kind.

Definition activeCursor (c : MediaTsPacketizerControlState) (kind : CursorPidKind) :
    option (option Z) :=
  pz_activeCursors c !! continuityIndex kind.

Definition reservationLedger (c : MediaTsPacketizerControlState) (kind : CursorPidKind) :
    option (list ContinuityReservation) :=
  pz_reservations c !! continuityIndex kind.

Definition ledgerBack (c : MediaTsPacketizerControlState) (kind : CursorPidKind) :
    option ContinuityReservation :=
  match reservationLedger c kind with Some ledger => last ledger | None => None end.

Definition reservedNextPayload (c : MediaTsPacketizerControlState) (kind : CursorPidKind) : Z :=
  match ledgerBack c kind with
  | Some r => cr_nextPayload r
  | None => default 0 (continuity c kind)
  end.

Definition reservedDiscontinuityPending (c : MediaTsPacketizerControlState)
    (kind : CursorPidKind) : bool :=
  match ledgerBack c kind with
  | Some r => if cr_clearsDiscontinuity r then false else default false (discontinuityPending c kind)
  | None => default false (discontinuityPending c kind)
  end.

Definition cursorFinishedLocked (s : MediaTsPacketCursorState) : bool :=
  match cs_pending s with
  | Some _ => false
  | None => Nat.eqb (cs_committedOffset s) (length (cs_packets s))
  end.

Definition cursorRemainingPacketCountLocked (s : MediaTsPacketCursorState) : nat :=
  if (length (cs_packets s) <=? cs_committedOffset s)%nat then 0
  else length (cs_packets s) - cs_committedOffset s.

(** Writes through the pointers above. *)
Definition setNextPayload (kind : CursorPidKind) (v : Z) (c : MediaTsPacketizerControlState) :=
  mkControl (pz_address c) (pz_plan c)
    match pz_continuity c with
    | VideoContinuityState n d => VideoContinuityState (<[continuityIndex kind := v]> n) d
    | AudioVideoContinuityState n d => AudioVideoContinuityState (<[continuityIndex kind := v]> n) d
    end
    (pz_activeCursors c) (pz_reservations c) (pz_nextCursorIdentity c) (pz_poisoned c).

Definition clearDiscontinuity (kind : CursorPidKind) (c : MediaTsPacketizerControlState) :=
  mkControl (pz_address c) (pz_plan c)
    match pz_continuity c with
    | VideoContinuityState n d => VideoContinuityState n (<[continuityIndex kind := false]> d)
    | AudioVideoContinuityState n d => AudioVideoContinuityState n (<[continuityIndex kind := false]> d)
    end
    (pz_activeCursors c) (pz_reservations c) (pz_nextCursorIdentity c) (pz_poisoned c).

Definition setActive (kind : CursorPidKind) (v : option Z) (c : MediaTsPacketizerControlState) :=
  mkControl (pz_address c) (pz_plan c) (pz_continuity c)
    (<[continuityIndex kind := v]> (pz_activeCursors c)) (pz_reservations c)
    (pz_nextCursorIdentity c) (pz_poisoned c).

Definition setLedger (kind : CursorPidKind) (v : list ContinuityReservation)
    (c : MediaTsPacketizerControlState) :=
  mkControl (pz_address c) (pz_plan c) (pz_continuity c) (pz_activeCursors c)
    (<[continuityIndex kind := v]> (pz_reservations c)) (pz_nextCursorIdentity c) (pz_poisoned c).

Definition setPoisoned (c : MediaTsPacketizerControlState) :=
  mkControl (pz_address c) (pz_plan c) (pz_continuity c) (pz_activeCursors c)
    (pz_reservations c) (pz_nextCursorIdentity c) true.

Definition bumpIdentity (c : MediaTsPacketizerControlState) :=
  mkControl (pz_address c) (pz_plan c) (pz_continuity c) (pz_activeCursors c)
    (pz_reservations c) (pz_nextCursorIdentity c + 1) (pz_poisoned c).

Definition modifyControl (f : MediaTsPacketizerControlState -> MediaTsPacketizerControlState)
    (w : World) : World :=
  mkWorld (f (w_control w)) (w_attached w) (w_cursors w).

Definition putCursor (s : MediaTsPacketCursorState) (w : World) : World :=
  mkWorld (w_control w) (w_attached w) (<[cs_identity s := s]> (w_cursors w)).

Definition dropCursor (identity : Z) (w : World) : World :=
  mkWorld (w_control w) (w_attached w) (delete identity (w_cursors w)).

(** ** Opening a cursor *)

Definition identityExhausted (c : MediaTsPacketizerControlState) : bool :=
  (pz_nextCursorIdentity c =? 0) || (pz_nextCursorIdentity c =? uint64_max).

(** [++nextCursorIdentity; *active = identity;] and the new cursor. *)
Definition openCursor (kind : CursorPidKind) (packets : list (list Z)) (initial : Z)
    (advances discontinuity : bool) (w : World) : World :=
  let identity := pz_nextCursorIdentity (w_control w) in
  let cursor := mkCursor identity 1 kind packets initial advances discontinuity 0 None false in
  putCursor cursor (modifyControl (fun c => setActive kind (Some identity) (bumpIdentity c)) w).

Definition beginPayloadLocked (kind : CursorPidKind) (pid : Z) (segments : list (list Z))
    (randomAccess : bool) : StateResult World Z :=
  fun w =>
  let c := w_control w in
  if negb (w_attached w) || pz_poisoned c then invalid "MPEG-TS packetizer was moved from" w
  else match activeCursor c kind with
  | Some None =>
      if identityExhausted c then invalid "MPEG-TS cursor identity space is exhausted" w
      else match continuity c kind, discontinuityPending c kind with
      | Some _, Some _ =>
          let initialContinuity := reservedNextPayload c kind in
          let discontinuity := reservedDiscontinuityPending c kind in
          match payload pid initialContinuity segments randomAccess discontinuity with
          | Failure e => (failure e, w)
          | Success packets =>
              (Success (pz_nextCursorIdentity c),
               openCursor kind packets initialContinuity true discontinuity w)
          end
      | _, _ => invalid "MPEG-TS stream is absent from the typed program plan" w
      end
  | _ => invalid "MPEG-TS packetizer PID already has an active cursor" w
  end.

Definition beginSection (kind : CursorPidKind) (pid : Z) (section : MediaTsPsiSection)
    (mismatch : string) : StateResult World Z :=
  fun w =>
  if negb (w_attached w) then invalid mismatch w
  else if pz_poisoned (w_control w) || negb (identityMatches (sec_identity section) (pz_plan (w_control w)))
  then invalid mismatch w
  else beginPayloadLocked kind pid [[0]; sec_bytes section] false w.

Definition beginPat (section : MediaTsPsiSection) : StateResult World Z :=
  fun w => beginSection KindPat (mp_patPid (pz_plan (w_control w))) section
    "MPEG-TS PAT section does not match the packetizer plan" w.

Definition beginPmt (section : MediaTsPsiSection) : StateResult World Z :=
  fun w => beginSection KindPmt (mp_programMapPid (pz_plan (w_control w))) section
    "MPEG-TS PMT section does not match the packetizer plan" w.

Definition beginPcrOnly (wire27Mhz : Z) : StateResult World Z :=
  fun w =>
  let c := w_control w in
  if negb (w_attached w) then invalid "MPEG-TS packetizer was moved from" w
  else if pz_poisoned c then invalid "MPEG-TS packetizer was moved from" w
  else match activeCursor c KindPcr with
  | Some None =>
      if identityExhausted c then invalid "MPEG-TS cursor identity space is exhausted" w
      else match continuity c KindPcr, discontinuityPending c KindPcr with
      | Some _, Some _ =>
          let next := reservedNextPayload c KindPcr in
          let discontinuity := reservedDiscontinuityPending c KindPcr in
          match pcrOnly (planPcrPid (mp_program (pz_plan c))) next wire27Mhz discontinuity with
          | Failure e => (failure e, w)
          | Success packet =>
              (Success (pz_nextCursorIdentity c), openCursor KindPcr [packet] next false discontinuity w)
          end
      | _, _ => invalid "MPEG-TS PCR authority is absent from the program" w
      end
  | _ => invalid "MPEG-TS PCR cursor cannot begin" w
  end.

(** The kind and the PID of an elementary stream. *)
Definition pesTarget (stream : MediaScheduledStream) (randomAccess : bool)
    (plan : MediaTsMuxPlanParameters) : Result (CursorPidKind * Z) :=
  match stream with
  | Scheduled_Video => Success (KindVideo, planVideoPid (mp_program plan))
  | Scheduled_Audio =>
      if randomAccess then failure (invalidArgument "MPEG-TS audio PES cannot be random access")
      else match mp_program plan with
           | AudioVideo a => Success (KindAudio, av_audioPid a)
           | VideoOnly _ =>
               failure (invalidArgument "MPEG-TS audio PES is absent from the typed program")
           end
  end.

Definition beginPes (stream : MediaScheduledStream) (header : MediaTsPesHeader)
    (payloadBytes : list Z) (randomAccess : bool) : StateResult World Z :=
  fun w =>
  if negb (w_attached w) then invalid "MPEG-TS packetizer is poisoned" w
  else if pz_poisoned (w_control w) then invalid "MPEG-TS packetizer is poisoned" w
  else match pesTarget stream randomAccess (pz_plan (w_control w)) with
  | Failure e => (failure e, w)
  | Success (kind, pid) =>
      if negb (Bool.eqb (isAudio (pesStream header)) (isAudio stream))
      then invalid "MPEG-TS PES header stream does not match payload stream" w
      else if negb (Z.of_nat (length payloadBytes) =? pesFramedPayloadBytes header)
      then invalid "MPEG-TS PES payload size does not match its serialized header" w
      else beginPayloadLocked kind pid [pesBytes header; payloadBytes] randomAccess w
  end.

(** ** Packet counts *)

Definition sectionPacketCount (kind : CursorPidKind) (section : MediaTsPsiSection)
    (cannot absent : string) (w : World) : Result Z :=
  let c := w_control w in
  if negb (w_attached w) then failure (invalidArgument cannot)
  else match activeCursor c kind with
  | Some None =>
      if negb (identityMatches (sec_identity section) (pz_plan c)) then failure (invalidArgument cannot)
      else match discontinuityPending c kind with
           | None => failure (invalidArgument absent)
           | Some pending => payloadPacketCount [[0]; sec_bytes section] false pending
           end
  | _ => failure (invalidArgument cannot)
  end.

Definition patPacketCount (section : MediaTsPsiSection) (w : World) : Result Z :=
  sectionPacketCount KindPat section "MPEG-TS PAT packet count cannot be inspected"
    "MPEG-TS PAT continuity state is absent" w.

Definition pmtPacketCount (section : MediaTsPsiSection) (w : World) : Result Z :=
  sectionPacketCount KindPmt section "MPEG-TS PMT packet count cannot be inspected"
    "MPEG-TS PMT continuity state is absent" w.

Definition pcrOnlyPacketCount (wire27Mhz : Z) (w : World) : Result Z :=
  let c := w_control w in
  if negb (w_attached w) then failure (invalidArgument "MPEG-TS PCR packet count cannot be inspected")
  else match activeCursor c KindPcr with
  | Some None =>
      match continuity c KindPcr, discontinuityPending c KindPcr with
      | Some next, Some pending =>
          let* _ := pcrOnly (planPcrPid (mp_program (pz_plan c))) next wire27Mhz pending in
          Success 1
      | _, _ => failure (invalidArgument "MPEG-TS PCR continuity state is absent")
      end
  | _ => failure (invalidArgument "MPEG-TS PCR packet count cannot be inspected")
  end.

(** ** Cursors *)

(** The counter after the first [end_] packets of a cursor. *)
Definition nextPayloadAt (s : MediaTsPacketCursorState) (end_ : nat) : Z :=
  if cs_advancesPayloadContinuity s
  then u8 (Z.land (cs_initialPayloadContinuity s + Z.of_nat end_) 0x0F)
  else cs_initialPayloadContinuity s.

Definition revisionExhausted (s : MediaTsPacketCursorState) : bool :=
  (cs_nextRevision s =? 0) || (cs_nextRevision s =? uint64_max).

Definition setProgress (revision : Z) (offset : nat) (pending : option Pending) (reserved : bool)
    (s : MediaTsPacketCursorState) : MediaTsPacketCursorState :=
  mkCursor (cs_identity s) revision (cs_pidKind s) (cs_packets s) (cs_initialPayloadContinuity s)
    (cs_advancesPayloadContinuity s) (cs_carriesDiscontinuity s) offset pending reserved.

Definition slice {A} (begin_ count : nat) (l : list A) : list A := take count (drop begin_ l).

Definition prepare (identity : Z) (maximumPackets : Z) : StateResult World MediaTsPreparedPacketBatch :=
  fun w =>
  match w_cursors w !! identity with
  | None => invalid "MPEG-TS packet cursor cannot prepare from poisoned state" w
  | Some s =>
      let owner := w_control w in
      if pz_poisoned owner then invalid "MPEG-TS packet cursor cannot prepare from poisoned state" w
      else if (maximumPackets <? 1) || (mp_maximumPacketsPerDatagram (pz_plan owner) <? maximumPackets)
      then invalid "MPEG-TS packet batch limit is outside the mux plan" w
      else if bool_decide (is_Some (cs_pending s))
      then invalid "MPEG-TS packet cursor already has a prepared batch" w
      else if cursorFinishedLocked s then invalid "MPEG-TS packet cursor is finished" w
      else if revisionExhausted s then invalid "MPEG-TS packet revision space is exhausted" w
      else
        let count := Nat.min (Z.to_nat maximumPackets) (length (cs_packets s) - cs_committedOffset s) in
        let end_ := (cs_committedOffset s + count)%nat in
        let revision := cs_nextRevision s in
        let pending := mkPending revision end_ (nextPayloadAt s end_)
          (cs_carriesDiscontinuity s && Nat.eqb (cs_committedOffset s) 0) in
        (Success (mkBatch (slice (cs_committedOffset s) count (cs_packets s))
                    (mkToken (Some (pz_address owner)) (cs_identity s) revision true)),
         putCursor (setProgress (revision + 1) (cs_committedOffset s) (Some pending)
                      (cs_continuityReserved s) s) w)
  end.

Definition prepareRemaining (identity : Z) : StateResult World MediaTsPreparedPacketBatch :=
  fun w =>
  match w_cursors w !! identity with
  | None => invalid "MPEG-TS packet cursor cannot reserve from poisoned state" w
  | Some s =>
      let owner := w_control w in
      if pz_poisoned owner then invalid "MPEG-TS packet cursor cannot reserve from poisoned state" w
      else if bool_decide (is_Some (cs_pending s)) || cursorFinishedLocked s || revisionExhausted s
      then invalid "MPEG-TS packet cursor cannot reserve its remaining series" w
      else
        let begin_ := cs_committedOffset s in
        let end_ := length (cs_packets s) in
        let revision := cs_nextRevision s in
        let nextPayload := nextPayloadAt s end_ in
        let clearsDiscontinuity := cs_carriesDiscontinuity s && Nat.eqb begin_ 0 in
        let lost := invalid "MPEG-TS packet cursor lost its reservation authority"
          (putCursor (setProgress (revision + 1) begin_ None (cs_continuityReserved s) s) w) in
        match reservationLedger owner (cs_pidKind s), activeCursor owner (cs_pidKind s) with
        | Some ledger, Some active =>
            if bool_decide (active = Some (cs_identity s)) then
              let pending := mkPending revision end_ nextPayload clearsDiscontinuity in
              (Success (mkBatch (slice begin_ (end_ - begin_) (cs_packets s))
                          (mkToken (Some (pz_address owner)) (cs_identity s) revision true)),
               putCursor (setProgress (revision + 1) begin_ (Some pending) true s)
                 (modifyControl (fun c => setActive (cs_pidKind s) None
                    (setLedger (cs_pidKind s)
                       (ledger ++ [mkReservation (cs_identity s) nextPayload clearsDiscontinuity]) c)) w))
            else lost
        | _, _ => lost
        end
  end.

(** The cursor may commit: it is at the front of its ledger, or the active
    cursor of its PID. *)
Definition reservationMatches (owner : MediaTsPacketizerControlState) (s : MediaTsPacketCursorState) : bool :=
  if cs_continuityReserved s
  then match reservationLedger owner (cs_pidKind s) with
       | Some (front :: _) => cr_cursorIdentity front =? cs_identity s
       | _ => false
       end
  else match activeCursor owner (cs_pidKind s) with
       | Some (Some active) => active =? cs_identity s
       | _ => false
       end.

Definition tokenMatches (owner : MediaTsPacketizerControlState) (s : MediaTsPacketCursorState)
    (pending : Pending) (token : MediaTsPacketCommitToken) : bool :=
  bool_decide (tk_owner token = Some (pz_address owner)) &&
  (tk_cursorIdentity token =? cs_identity s) && (tk_revision token =? pd_revision pending).

(** The writes of a valid commit to the control state. *)
Definition commitControl (s : MediaTsPacketCursorState) (pending : Pending)
    (c : MediaTsPacketizerControlState) : MediaTsPacketizerControlState :=
  let kind := cs_pidKind s in
  let c := setNextPayload kind (pd_nextPayload pending) c in
  let c := if pd_clearsDiscontinuity pending then clearDiscontinuity kind c else c in
  let c := if cs_continuityReserved s
           then setLedger kind (tail (default [] (reservationLedger c kind))) c else c in
  if Nat.eqb (pd_endOffset pending) (length (cs_packets s)) && negb (cs_continuityReserved s)
  then setActive kind None c else c.

Definition commit (identity : Z) (token : MediaTsPacketCommitToken) : StateResult World unit :=
  fun w =>
  let refused := "MPEG-TS packet commit token is not valid for a prepared batch"%string in
  match w_cursors w !! identity with
  | None => invalid refused w
  | Some s =>
      let owner := w_control w in
      match cs_pending s with
      | None => invalid refused w
      | Some pending =>
          if pz_poisoned owner || negb (tk_valid token) then invalid refused w
          else if negb (tokenMatches owner s pending token) || negb (reservationMatches owner s)
          then invalid "MPEG-TS packet commit token is stale, reordered, or has a continuity gap"
                 (modifyControl setPoisoned w)
          else match continuity owner (cs_pidKind s), discontinuityPending owner (cs_pidKind s) with
          | Some _, Some _ =>
              (Success tt,
               putCursor (setProgress (cs_nextRevision s) (pd_endOffset pending) None
                            (cs_continuityReserved s) s)
                 (modifyControl (commitControl s pending) w))
          | _, _ => invalid "MPEG-TS packet commit stream is absent from its plan" w
          end
      end
  end.

Definition poison (identity : Z) (w : World) : World :=
  match w_cursors w !! identity with
  | Some _ => modifyControl setPoisoned w
  | None => w
  end.

(** The destructor and the move assignment of a cursor. *)
Definition cancel (identity : Z) (w : World) : World :=
  match w_cursors w !! identity with
  | None => w
  | Some s =>
      let w := if cs_continuityReserved s && bool_decide (is_Some (cs_pending s))
               then modifyControl setPoisoned w else w in
      let w := match activeCursor (w_control w) (cs_pidKind s) with
               | Some (Some active) =>
                   if active =? cs_identity s then modifyControl (setActive (cs_pidKind s) None) w else w
               | _ => w
               end in
      dropCursor identity w
  end.

Definition finished (identity : Z) (w : World) : bool :=
  match w_cursors w !! identity with Some s => cursorFinishedLocked s | None => false end.

Definition remainingPacketCount (identity : Z) (w : World) : nat :=
  match w_cursors w !! identity with Some s => cursorRemainingPacketCountLocked s | None => 0 end.

(** ** Creation *)

Definition initialContinuity (program : MediaTsProgramPlan) (startsWithDiscontinuity : bool) :
    ProgramContinuityState :=
  match program with
  | VideoOnly v =>
      VideoContinuityState
        [vs_pat (vo_continuity v); vs_pmt (vo_continuity v); vs_video (vo_continuity v)]
        (replicate 3 startsWithDiscontinuity)
  | AudioVideo a =>
      AudioVideoContinuityState
        [avs_pat (av_continuity a); avs_pmt (av_continuity a); avs_video (av_continuity a);
         avs_audio (av_continuity a)]
        (replicate 4 startsWithDiscontinuity)
  end.

(** [create]; the address is the one the allocator gives. *)
Definition create (address : Z) (plan : MediaTsMuxPlanParameters) (startsWithDiscontinuity : bool) : World :=
  mkWorld
    (mkControl address plan (initialContinuity (mp_program plan) startsWithDiscontinuity)
       (replicate 4 None) (replicate 4 []) 1 false)
    true ∅.

(** The handle was moved from; cursors keep the control state alive. *)
Definition detach (w : World) : World := mkWorld (w_control w) false (w_cursors w).

(** ** Schedules

    A schedule of calls by any number of threads, and the packets it makes
    final: those of the batches committed, in the order of the commits. *)

Inductive Call :=
  | CallBeginPat (section : MediaTsPsiSection)
  | CallBeginPmt (section : MediaTsPsiSection)
  | CallBeginPcrOnly (wire27Mhz : Z)
  | CallBeginPes (stream : MediaScheduledStream) (header : MediaTsPesHeader) (bytes : list Z)
      (randomAccess : bool)
  | CallPrepare (identity maximumPackets : Z)
  | CallPrepareRemaining (identity : Z)
  | CallCommit (identity : Z) (token : MediaTsPacketCommitToken)
  | CallPoison (identity : Z)
  | CallCancel (identity : Z)
  | CallDetach.

Definition perform (call : Call) (w : World) : World :=
  match call with
  | CallBeginPat s => (beginPat s w).2
  | CallBeginPmt s => (beginPmt s w).2
  | CallBeginPcrOnly p => (beginPcrOnly p w).2
  | CallBeginPes st h b ra => (beginPes st h b ra w).2
  | CallPrepare i m => (prepare i m w).2
  | CallPrepareRemaining i => (prepareRemaining i w).2
  | CallCommit i t => (commit i t w).2
  | CallPoison i => poison i w
  | CallCancel i => cancel i w
  | CallDetach => detach w
  end.

(** The packets a call makes final. *)
Definition emitted (call : Call) (w : World) : list (list Z) :=
  match call with
  | CallCommit i t =>
      match commit i t w, w_cursors w !! i with
      | (Success _, _), Some s =>
          match cs_pending s with
          | Some p => slice (cs_committedOffset s) (pd_endOffset p - cs_committedOffset s) (cs_packets s)
          | None => []
          end
      | _, _ => []
      end
  | _ => []
  end.

Fixpoint run (calls : list Call) (w : World) : list (list Z) * World :=
  match calls with
  | [] => ([], w)
  | call :: calls' =>
      let '(rest, w') := run calls' (perform call w) in
      (emitted call w ++ rest, w')
  end.

(** A batch taken with [prepare] is committed only while no series reserved
    with [prepareRemaining] waits on the same PID. *)
Definition respectsLedger (call : Call) (w : World) : bool :=
  match call with
  | CallCommit i _ =>
      match w_cursors w !! i with
      | Some s =>
          cs_continuityReserved s ||
          match reservationLedger (w_control w) (cs_pidKind s) with Some (_ :: _) => false | _ => true end
      | None => true
      end
  | _ => true
  end.

Fixpoint allRespectLedger (calls : list Call) (w : World) : bool :=
  match calls with
  | [] => true
  | call :: calls' => respectsLedger call w && allRespectLedger calls' (perform call w)
  end.

(** The clocks given to [beginPcrOnly] are unsigned. *)
Definition callWellTyped (call : Call) : bool :=
  match call with CallBeginPcrOnly wire => 0 <=? wire | _ => true end.

End MediaTsTransportPacketizer.
