(* ===== verification/TsContinuity.v ===== *)
(** * Continuity of the committed stream

    Whatever threads do with the cursors of a packetizer, the packets they
    commit, in the order of the commits, form a transport stream whose
    continuity counters the packet parser accepts.  The file holds the
    invariant of the control state and its ledgers, its preservation by every
    call, and the composition with the parser. *)

From stdpp Require Import gmap.
From S2P Require Import Prelude MediaResult TsPacket TsParser TsFraming TsRoundTrip TsPes TsPsi TsPacketizer.
Import MediaTsTransportPacketBuilder MediaTsPacketParser MediaTsFraming MediaTsRoundTrip.
Import MediaTsPes MediaTsMuxPlan MediaTsPsiSerializer MediaTsTransportPacketizer.

Local Open Scope Z_scope.

Module MediaTsContinuity.

(** ** Streams of packets *)

Definition kindPid (plan : MediaTsMuxPlanParameters) (kind : CursorPidKind) : Z :=
  match kind with
  | KindPat => mp_patPid plan
  | KindPmt => mp_programMapPid plan
  | KindVideo => planVideoPid (mp_program plan)
  | KindPcr => planPcrPid (mp_program plan)
  | KindAudio => match mp_program plan with AudioVideo a => av_audioPid a | VideoOnly _ => 0 end
  end.

(** A packet of kind [kind] written when the next payload counter is [cc],
    and the counter after it. *)
Inductive transportPacket (plan : MediaTsMuxPlanParameters) : CursorPidKind -> Z -> list Z -> Z -> Prop :=
  | packet_payload kind cc start ra di bytes :
      kind <> KindPcr -> 0 <= cc < 16 -> payloadSizeOk ra di bytes ->
      transportPacket plan kind cc (payloadPacket (kindPid plan kind) cc start ra di bytes) ((cc + 1) mod 16)
  | packet_pcr cc wire di packet :
      0 <= cc < 16 -> 0 <= wire -> pcrOnly (kindPid plan KindPcr) cc wire di = Success packet ->
      transportPacket plan KindPcr cc packet cc.

(** The counters of the PIDs before and after a list of packets. *)
Inductive stream (plan : MediaTsMuxPlanParameters) : list Z -> list (list Z) -> list Z -> Prop :=
  | stream_nil c : stream plan c [] c
  | stream_cons c kind cc packet cc' packets c' :
      c !! continuityIndex kind = Some cc -> transportPacket plan kind cc packet cc' ->
      stream plan (<[continuityIndex kind := cc']> c) packets c' ->
      stream plan c (packet :: packets) c'.

Lemma stream_app plan c ps c1 qs c2 :
  stream plan c ps c1 -> stream plan c1 qs c2 -> stream plan c (ps ++ qs) c2.
Proof. induction 1; [done |]. intros. econstructor; eauto. Qed.

(** ** Cursors *)

Definition startOf (s : MediaTsPacketCursorState) : Z := nextPayloadAt s (cs_committedOffset s).

Definition pendingOk (s : MediaTsPacketCursorState) : Prop :=
  match cs_pending s with
  | Some p => (cs_committedOffset s <= pd_endOffset p <= length (cs_packets s))%nat /\
              pd_nextPayload p = nextPayloadAt s (pd_endOffset p)
  | None => (cs_committedOffset s <= length (cs_packets s))%nat
  end.

Record cursorOk (plan : MediaTsMuxPlanParameters) (s : MediaTsPacketCursorState) : Prop := {
  ck_initial : 0 <= cs_initialPayloadContinuity s < 16;
  ck_packets : forall i packet, cs_packets s !! i = Some packet ->
    transportPacket plan (cs_pidKind s) (nextPayloadAt s i) packet (nextPayloadAt s (S i));
  ck_pending : pendingOk s;
}.

Lemma nextPayloadAt_spec s n : 0 <= cs_initialPayloadContinuity s < 16 ->
  nextPayloadAt s n = if cs_advancesPayloadContinuity s
    then (cs_initialPayloadContinuity s + Z.of_nat n) mod 16 else cs_initialPayloadContinuity s.
Proof.
  intros Hi. unfold nextPayloadAt. destruct (cs_advancesPayloadContinuity s); [| done].
  rewrite (land_mask _ 4) by lia. unfold u8. apply Z.mod_small.
  change (2 ^ 4) with 16. pose proof (Z.mod_pos_bound (cs_initialPayloadContinuity s + Z.of_nat n) 16).
  change (2 ^ 8) with 256. lia.
Qed.

Lemma nextPayloadAt_bounds s n : 0 <= cs_initialPayloadContinuity s < 16 -> 0 <= nextPayloadAt s n < 16.
Proof.
  intros Hi. rewrite nextPayloadAt_spec by done.
  destruct (cs_advancesPayloadContinuity s); [| done]. apply Z.mod_pos_bound. lia.
Qed.

(** A slice of a cursor moves its counter from one offset to the other. *)
Lemma stream_slice plan s c a n :
  cursorOk plan s -> (a + n <= length (cs_packets s))%nat ->
  c !! continuityIndex (cs_pidKind s) = Some (nextPayloadAt s a) ->
  stream plan c (slice a n (cs_packets s)) (<[continuityIndex (cs_pidKind s) := nextPayloadAt s (a + n)]> c).
Proof.
  intros Hs. revert a c. induction n as [| n IH]; intros a c Hl Hc.
  { rewrite Nat.add_0_r, list_insert_id by done. constructor. }
  destruct (lookup_lt_is_Some_2 (cs_packets s) a) as [packet Hp]; [lia |].
  unfold slice. rewrite (drop_S _ packet a) by done. cbn [take]. econstructor.
  - exact Hc.
  - by apply Hs.
  - replace (a + S n)%nat with (S a + n)%nat by lia.
    rewrite <- (list_insert_insert_eq c _ (nextPayloadAt s (S a + n)) (nextPayloadAt s (S a))). apply IH; [lia |].
    apply list_lookup_insert_eq. by apply lookup_lt_Some in Hc.
Qed.

(** The builder's packets. *)
Lemma tailPackets_lookup pid cc cs i packet : 0 <= cc < 16 ->
  tailPackets pid cc cs !! i = Some packet ->
  exists c, cs !! i = Some c /\ packet = payloadPacket pid ((cc + Z.of_nat i) mod 16) false false false c.
Proof.
  revert cc i. induction cs as [| c cs IH]; intros cc i Hc; [done |].
  destruct i as [| i]; cbn [tailPackets lookup list_lookup].
  - intros [= <-]. exists c. split; [done |]. by rewrite Z.add_0_r, Z.mod_small by lia.
  - rewrite next_counter. intros (c' & Hl & ->)%IH; [| divmod]. exists c'. split; [done |].
    f_equal. divmod.
Qed.

Lemma payload_packets plan kind initial segments ra di packets identity discontinuity :
  kind <> KindPcr -> 0 <= initial ->
  payload (kindPid plan kind) initial segments ra di = Success packets ->
  cursorOk plan (mkCursor identity 1 kind packets initial true discontinuity 0 None false).
Proof.
  intros Hk Hi Hp. destruct (payload_shape _ _ _ _ _ _ Hp) as (_ & Hi' & c & cs & -> & _ & Hs & Hcs & _).
  split; cbn [cs_initialPayloadContinuity cs_packets cs_pidKind]; [lia | | simpl; unfold pendingOk; simpl; lia].
  intros [| i] packet; cbn [lookup list_lookup].
  - intros [= <-]. rewrite !nextPayloadAt_spec by (simpl; lia). simpl.
    rewrite Z.add_0_r, Z.mod_small by lia. constructor; [done | lia |]. done.
  - rewrite next_counter. intros (c' & Hl & ->)%tailPackets_lookup; [| divmod].
    rewrite !nextPayloadAt_spec by (simpl; lia). cbn [cs_advancesPayloadContinuity cs_initialPayloadContinuity].
    replace ((initial + Z.of_nat (S i)) mod 16) with (((initial + 1) mod 16 + Z.of_nat i) mod 16) by divmod.
    replace ((initial + Z.of_nat (S (S i))) mod 16) with
      ((((initial + 1) mod 16 + Z.of_nat i) mod 16 + 1) mod 16) by divmod.
    constructor; [done | apply Z.mod_pos_bound; lia |].
    pose proof (Forall_lookup_1 _ _ _ _ Hcs Hl) as Hb. simpl in Hb.
    unfold payloadSizeOk, firstCapacity. simpl. lia.
Qed.

Lemma pcr_packet plan next wire di packet identity discontinuity :
  0 <= next < 16 -> 0 <= wire -> pcrOnly (kindPid plan KindPcr) next wire di = Success packet ->
  cursorOk plan (mkCursor identity 1 KindPcr [packet] next false discontinuity 0 None false).
Proof.
  intros Hn Hw Hp. split; cbn [cs_initialPayloadContinuity cs_packets cs_pidKind];
    [done | | unfold pendingOk; simpl; lia].
  intros [| i] p; cbn [lookup list_lookup]; [| done]. intros [= <-]. by econstructor.
Qed.

(** ** The invariant *)

(** The reservations of a PID, in order, continue the committed counter. *)
Definition reservationOk (cursors : gmap Z MediaTsPacketCursorState) (i : nat) (cc : Z)
    (r : ContinuityReservation) : Prop :=
  exists s p, cursors !! cr_cursorIdentity r = Some s /\ continuityIndex (cs_pidKind s) = i /\
    cs_continuityReserved s = true /\ cs_pending s = Some p /\ startOf s = cc /\
    pd_nextPayload p = cr_nextPayload r.

Fixpoint chain (cursors : gmap Z MediaTsPacketCursorState) (i : nat) (cc : Z)
    (ledger : list ContinuityReservation) : Prop :=
  match ledger with
  | [] => True
  | r :: rest => reservationOk cursors i cc r /\ chain cursors i (cr_nextPayload r) rest
  end.

Definition ledgerEnd (cc : Z) (ledger : list ContinuityReservation) : Z :=
  match last ledger with Some r => cr_nextPayload r | None => cc end.

Record slotOk (cursors : gmap Z MediaTsPacketCursorState) (i : nat) (cc : Z) (active : option Z)
    (ledger : list ContinuityReservation) : Prop := {
  so_chain : chain cursors i cc ledger;
  so_nodup : NoDup (cr_cursorIdentity <$> ledger);
  so_active : forall id, active = Some id ->
    exists s, cursors !! id = Some s /\ continuityIndex (cs_pidKind s) = i /\
      cs_continuityReserved s = false /\ startOf s = ledgerEnd cc ledger;
}.

Definition counters (w : World) : list Z := nextArray (pz_continuity (w_control w)).

Record controlOk (plan : MediaTsMuxPlanParameters) (w : World) : Prop := {
  ok_plan : pz_plan (w_control w) = plan;
  ok_shape : length (pz_activeCursors (w_control w)) = 4%nat /\
             length (pz_reservations (w_control w)) = 4%nat;
  ok_cursors : forall id s, w_cursors w !! id = Some s ->
    cs_identity s = id /\ id < pz_nextCursorIdentity (w_control w) /\ cursorOk plan s;
  ok_counters : Forall (fun cc => 0 <= cc < 16) (counters w);
  ok_slots : pz_poisoned (w_control w) = false -> forall i cc active ledger,
    counters w !! i = Some cc -> pz_activeCursors (w_control w) !! i = Some active ->
    pz_reservations (w_control w) !! i = Some ledger -> slotOk (w_cursors w) i cc active ledger;
}.

(** *** Frame lemmas *)

Lemma chain_frame cursors cursors' i cc ledger :
  (forall r s, r ∈ ledger -> cursors !! cr_cursorIdentity r = Some s ->
     cs_continuityReserved s = true -> is_Some (cs_pending s) -> continuityIndex (cs_pidKind s) = i ->
     cursors' !! cr_cursorIdentity r = Some s) ->
  chain cursors i cc ledger -> chain cursors' i cc ledger.
Proof.
  revert cc. induction ledger as [| r rest IH]; intros cc Hf; [done |].
  intros [(s & p & Hl & Hi & Hr & Hp & Hs & Hn) Hc]. split.
  - exists s, p. split_and!; try done. apply Hf; [by left | done | done | rewrite Hp; eauto | done].
  - apply IH; [| done]. intros r' s' Hin. apply Hf. by right.
Qed.

(** Cursors of other PIDs do not matter. *)
Lemma slot_frame cursors cursors' i cc active ledger :
  (forall id s, cursors !! id = Some s -> continuityIndex (cs_pidKind s) = i -> cursors' !! id = Some s) ->
  slotOk cursors i cc active ledger -> slotOk cursors' i cc active ledger.
Proof.
  intros Hf [Hc Hn Ha]. split; [| done |].
  - eapply chain_frame; [| done]. intros r s _ Hl _ _ Hi. by apply Hf.
  - intros id (s & Hl & Hi & H)%Ha. exists s. split; [by apply Hf | done].
Qed.

(** Replacing a cursor that is not in the ledger. *)
Lemma slot_touch cursors i cc active ledger s s' :
  cursors !! cs_identity s = Some s -> cs_pending s = None ->
  cs_pidKind s' = cs_pidKind s -> cs_continuityReserved s' = cs_continuityReserved s ->
  startOf s' = startOf s ->
  slotOk cursors i cc active ledger -> slotOk (<[cs_identity s := s']> cursors) i cc active ledger.
Proof.
  intros Hs Hp Hk Hr Hst [Hc Hn Ha]. split; [| done |].
  - eapply chain_frame; [| done]. intros r t _ Hl _ Hpt _.
    rewrite lookup_insert_ne; [done |]. intros E. rewrite <- E, Hs in Hl. simplify_eq.
    rewrite Hp in Hpt. by destruct Hpt.
  - intros id (t & Hl & Hi & Hrt & He)%Ha. destruct (decide (id = cs_identity s)) as [-> |].
    + exists s'. rewrite lookup_insert_eq. rewrite Hs in Hl. simplify_eq.
      rewrite Hk, Hr, Hst. done.
    + exists t. by rewrite lookup_insert_ne.
Qed.

(** Opening a cursor after the last reservation. *)
Lemma slot_open cursors i cc ledger s :
  cursors !! cs_identity s = None -> continuityIndex (cs_pidKind s) = i ->
  cs_continuityReserved s = false -> startOf s = ledgerEnd cc ledger ->
  slotOk cursors i cc None ledger ->
  slotOk (<[cs_identity s := s]> cursors) i cc (Some (cs_identity s)) ledger.
Proof.
  intros Hf Hi Hr Hst [Hc Hn Ha]. split; [| done |].
  - eapply chain_frame; [| done]. intros r t _ Hl _ _ _. rewrite lookup_insert_ne; [done |].
    intros E. by rewrite <- E, Hf in Hl.
  - intros id [= <-]. exists s. by rewrite lookup_insert_eq.
Qed.

Lemma ledgerEnd_cons cc r rest : ledgerEnd cc (r :: rest) = ledgerEnd (cr_nextPayload r) rest.
Proof. unfold ledgerEnd. rewrite last_cons. by destruct (last rest). Qed.

Lemma chain_snoc cursors i cc ledger r :
  chain cursors i cc ledger -> reservationOk cursors i (ledgerEnd cc ledger) r ->
  chain cursors i cc (ledger ++ [r]).
Proof.
  revert cc. induction ledger as [| r0 rest IH]; intros cc; [done |].
  intros [H0 Hc] Hr. rewrite ledgerEnd_cons in Hr. split; [done |]. by apply IH.
Qed.

(** The active cursor reserves the rest of its packets. *)
Lemma slot_reserve cursors i cc ledger s s' p r :
  cursors !! cs_identity s = Some s -> cs_pending s = None -> continuityIndex (cs_pidKind s') = i ->
  cs_continuityReserved s' = true -> cs_pending s' = Some p -> startOf s' = startOf s ->
  r = mkReservation (cs_identity s) (pd_nextPayload p) (cr_clearsDiscontinuity r) ->
  slotOk cursors i cc (Some (cs_identity s)) ledger ->
  slotOk (<[cs_identity s := s']> cursors) i cc None (ledger ++ [r]).
Proof.
  intros Hs Hp Hi Hr' Hp' Hst Hr [Hc Hn Ha].
  destruct (Ha _ eq_refl) as (t & Ht & _ & Hrt & He). rewrite Hs in Ht. simplify_eq.
  assert (Hnot : cs_identity t ∉ cr_cursorIdentity <$> ledger).
  { intros (r0 & E & Hin)%list_elem_of_fmap. clear -Hc Hin E Hs Hp.
    revert cc Hc. induction ledger as [| r1 rest IH]; intros cc; [by apply not_elem_of_nil in Hin |].
    intros [(u & q & Hu & _ & _ & Hq & _) Hc]. apply elem_of_cons in Hin as [-> | Hin]; [| by eapply IH].
    rewrite <- E, Hs in Hu. congruence. }
  split; [| | done].
  - apply chain_snoc.
    + eapply chain_frame; [| done]. intros r0 u Hin Hl _ _ _. rewrite lookup_insert_ne; [done |].
      intros E. apply Hnot. rewrite E. by apply list_elem_of_fmap_2.
    + exists s', p. rewrite Hr. simpl. rewrite lookup_insert_eq. split_and!; try done. by rewrite Hst.
  - apply NoDup_snoc_fmap; [done |]. by rewrite Hr.
Qed.

(** The front reservation is committed. *)
Lemma slot_commit_reserved cursors i cc active r rest s s' p :
  cursors !! cs_identity s = Some s -> cs_pending s = Some p -> cs_continuityReserved s = true ->
  cr_cursorIdentity r = cs_identity s ->
  slotOk cursors i cc active (r :: rest) ->
  startOf s = cc /\ slotOk (<[cs_identity s := s']> cursors) i (pd_nextPayload p) active rest.
Proof.
  intros Hs Hp Hr E [[(t & q & Ht & Hi & _ & Hq & Hst & Hn) Hc] Hnd Ha]. rewrite E, Hs in Ht.
  injection Ht as <-. rewrite Hp in Hq. injection Hq as <-. split; [done |].
  cbn [fmap list_fmap] in Hnd. apply NoDup_cons in Hnd as [Hnot Hnd]. rewrite Hn. split; [| done |].
  - eapply chain_frame; [| done]. intros r0 u Hin Hl _ _ _. rewrite lookup_insert_ne; [done |].
    intros E0. apply Hnot. rewrite E, E0. by apply list_elem_of_fmap_2.
  - intros id (u & Hu & Hiu & Hru & He)%Ha. exists u. split.
    + rewrite lookup_insert_ne; [done |]. intros <-. rewrite Hs in Hu. congruence.
    + split_and!; try done. rewrite He. apply ledgerEnd_cons.
Qed.

(** The active cursor commits a batch. *)
Lemma slot_commit_active cursors i cc s s' p :
  cursors !! cs_identity s = Some s -> continuityIndex (cs_pidKind s') = i ->
  cs_continuityReserved s' = false -> startOf s' = pd_nextPayload p ->
  slotOk cursors i cc (Some (cs_identity s)) [] ->
  startOf s = cc /\ forall active, active = None \/ active = Some (cs_identity s) ->
    slotOk (<[cs_identity s := s']> cursors) i (pd_nextPayload p) active [].
Proof.
  intros Hs Hi Hr Hst [_ _ Ha]. destruct (Ha _ eq_refl) as (t & Ht & _ & _ & He). rewrite Hs in Ht.
  simplify_eq. split; [done |]. intros active Hact. split; [done | constructor |].
  intros id ->. destruct Hact as [| [= ->]]; [done |]. exists s'. by rewrite lookup_insert_eq.
Qed.

(** A cursor without a pending reservation goes away. *)
Lemma slot_cancel cursors i cc active active' ledger s :
  cursors !! cs_identity s = Some s -> cs_continuityReserved s && bool_decide (is_Some (cs_pending s)) = false ->
  (forall id, active' = Some id -> active = Some id /\ id <> cs_identity s) ->
  slotOk cursors i cc active ledger -> slotOk (delete (cs_identity s) cursors) i cc active' ledger.
Proof.
  intros Hs Hp Hact [Hc Hn Ha]. split; [| done |].
  - eapply chain_frame; [| done]. intros r t _ Hl Hr Hpt _. rewrite lookup_delete_ne; [done |].
    intros E. rewrite <- E, Hs in Hl. simplify_eq. rewrite Hr in Hp. simpl in Hp.
    by apply bool_decide_eq_false in Hp.
  - intros id [Hid Hne]%Hact. destruct (Ha _ Hid) as (t & Hl & H). exists t.
    by rewrite lookup_delete_ne.
Qed.

(** *** Every call keeps the invariant *)

(** A call that touches one PID only. *)
Record oneSlot (plan : MediaTsMuxPlanParameters) (k : nat) (w w' : World) : Prop := {
  os_plan : pz_plan (w_control w') = pz_plan (w_control w);
  os_shape : length (pz_activeCursors (w_control w')) = length (pz_activeCursors (w_control w)) /\
             length (pz_reservations (w_control w')) = length (pz_reservations (w_control w));
  os_identity : pz_nextCursorIdentity (w_control w) <= pz_nextCursorIdentity (w_control w');
  os_poisoned : pz_poisoned (w_control w') = false -> pz_poisoned (w_control w) = false;
  os_cursors : forall id s, w_cursors w' !! id = Some s -> w_cursors w !! id = Some s \/
    (cs_identity s = id /\ id < pz_nextCursorIdentity (w_control w') /\ cursorOk plan s);
  os_frame : forall id s, w_cursors w !! id = Some s -> continuityIndex (cs_pidKind s) <> k ->
    w_cursors w' !! id = Some s;
  os_others : forall i, i <> k -> counters w' !! i = counters w !! i /\
    pz_activeCursors (w_control w') !! i = pz_activeCursors (w_control w) !! i /\
    pz_reservations (w_control w') !! i = pz_reservations (w_control w) !! i;
  os_counter : forall cc, counters w' !! k = Some cc -> 0 <= cc < 16;
  os_slot : pz_poisoned (w_control w') = false -> forall cc active ledger,
    counters w' !! k = Some cc -> pz_activeCursors (w_control w') !! k = Some active ->
    pz_reservations (w_control w') !! k = Some ledger -> slotOk (w_cursors w') k cc active ledger;
}.

Lemma controlOk_oneSlot plan k w w' : controlOk plan w -> oneSlot plan k w w' -> controlOk plan w'.
Proof.
  intros Hw Ho. split.
  - rewrite (os_plan _ _ _ _ Ho). apply Hw.
  - destruct (os_shape _ _ _ _ Ho) as [-> ->]. apply Hw.
  - intros id s [Hl | H]%(os_cursors _ _ _ _ Ho); [| done].
    destruct (ok_cursors _ _ Hw _ _ Hl) as (? & ? & ?). pose proof (os_identity _ _ _ _ Ho).
    split_and!; [done | lia | done].
  - apply Forall_lookup. intros i cc Hi. destruct (decide (i = k)) as [-> | Hne]; [by eapply os_counter |].
    destruct (os_others _ _ _ _ Ho i Hne) as (E & _). rewrite E in Hi.
    exact (Forall_lookup_1 _ _ _ _ (ok_counters _ _ Hw) Hi).
  - intros Hp i cc active ledger Hc Ha Hl. destruct (decide (i = k)) as [-> | Hne]; [by eapply os_slot |].
    destruct (os_others _ _ _ _ Ho i Hne) as (E1 & E2 & E3). rewrite E1, E2, E3 in *.
    eapply slot_frame; [| eapply (ok_slots _ _ Hw); [by eapply os_poisoned | done..]].
    intros id s Hs Hi. eapply os_frame; [done | done |]. congruence.
Qed.

Lemma controlOk_poisoned plan w : controlOk plan w -> controlOk plan (modifyControl setPoisoned w).
Proof. intros []. by split. Qed.

Lemma reservedNextPayload_end c kind cc ledger :
  continuity c kind = Some cc -> reservationLedger c kind = Some ledger ->
  reservedNextPayload c kind = ledgerEnd cc ledger.
Proof.
  intros Hc Hl. unfold reservedNextPayload, ledgerBack, ledgerEnd. rewrite Hl, Hc. by destruct (last ledger).
Qed.

Lemma reservedNextPayload_bounds plan w kind cc :
  controlOk plan w -> pz_poisoned (w_control w) = false ->
  continuity (w_control w) kind = Some cc -> activeCursor (w_control w) kind = Some None ->
  0 <= reservedNextPayload (w_control w) kind < 16.
Proof.
  intros Hw Hp Hc Ha. unfold reservedNextPayload, ledgerBack.
  pose proof (Forall_lookup_1 _ _ _ _ (ok_counters _ _ Hw) Hc) as Hb.
  destruct (reservationLedger (w_control w) kind) as [ledger |] eqn:El; [| by rewrite Hc].
  destruct (ok_slots _ _ Hw Hp _ _ _ _ Hc Ha El) as [Hch _ _].
  destruct (last ledger) as [r |] eqn:Er; [| by rewrite Hc].
  clear -Hch Er Hw. revert cc Hch. induction ledger as [| r0 rest IH]; intros cc; [done |].
  intros [(s & p & Hs & _ & _ & Hp & _ & Hn) Hch]. rewrite last_cons in Er.
  destruct (last rest); simplify_eq; [by eapply IH |]. rewrite <- Hn.
  destruct (ok_cursors _ _ Hw _ _ Hs) as (_ & _ & [Hi _ Hpd]). unfold pendingOk in Hpd.
  rewrite Hp in Hpd. destruct Hpd as [_ ->]. by apply nextPayloadAt_bounds.
Qed.

(** Inserting at one index of a list read at another. *)
Ltac at_other := cbn; rewrite ?list_lookup_insert_ne by done; done.

Lemma controlOk_open plan w kind packets initial advances discontinuity cc :
  controlOk plan w -> pz_poisoned (w_control w) = false ->
  continuity (w_control w) kind = Some cc -> activeCursor (w_control w) kind = Some None ->
  initial = reservedNextPayload (w_control w) kind ->
  cursorOk plan (mkCursor (pz_nextCursorIdentity (w_control w)) 1 kind packets initial advances
                   discontinuity 0 None false) ->
  controlOk plan (openCursor kind packets initial advances discontinuity w) /\
  counters (openCursor kind packets initial advances discontinuity w) = counters w.
Proof.
  intros Hw Hp Hc Ha -> Hk. split; [| done].
  assert (Hfresh : w_cursors w !! pz_nextCursorIdentity (w_control w) = None).
  { destruct (w_cursors w !! _) eqn:E; [| done]. apply (ok_cursors _ _ Hw) in E as (? & ? & ?). lia. }
  apply (controlOk_oneSlot plan (continuityIndex kind) w); [done |]. split; try done.
  - cbn. by rewrite length_insert.
  - cbn. lia.
  - intros id s. cbn. rewrite lookup_insert_Some. intros [[<- <-] | [_ ?]]; [right | by left].
    split_and!; [done | lia | done].
  - intros id s Hs _. cbn. rewrite lookup_insert_ne; [done |]. intros <-. by rewrite Hfresh in Hs.
  - intros i Hi. split_and!; at_other.
  - intros c0 Hc0. exact (Forall_lookup_1 _ _ _ _ (ok_counters _ _ Hw) Hc0).
  - intros _ c0 active ledger Hc0 Ha0 Hl0. cbn in Ha0, Hl0. unfold counters in Hc0. cbn in Hc0.
    rewrite list_lookup_insert_eq in Ha0 by (by eapply lookup_lt_Some). injection Ha0 as <-.
    pose proof (ok_slots _ _ Hw Hp _ _ _ _ Hc0 Ha Hl0) as Hslot.
    apply (slot_open _ _ _ _ (mkCursor _ _ _ _ _ _ _ _ _ _)); try done.
    unfold startOf. rewrite nextPayloadAt_spec by apply Hk. cbn. rewrite Z.add_0_r.
    rewrite (reservedNextPayload_end _ _ c0 ledger) in * by done.
    pose proof (ck_initial _ _ Hk) as Hb. cbn in Hb. destruct advances; [| done]. by rewrite Z.mod_small.
Qed.

Lemma controlOk_payload plan w kind segments ra :
  controlOk plan w -> kind <> KindPcr ->
  let w' := (beginPayloadLocked kind (kindPid plan kind) segments ra w).2 in
  controlOk plan w' /\ counters w' = counters w.
Proof.
  intros Hw Hk. unfold beginPayloadLocked. destruct (negb (w_attached w)); [done |]. cbn [orb].
  destruct (pz_poisoned (w_control w)) eqn:Hp; [done |].
  destruct (activeCursor (w_control w) kind) as [[? |] |] eqn:Ha; [done | | done].
  destruct (identityExhausted _); [done |].
  destruct (continuity (w_control w) kind) as [cc |] eqn:Hc; [| done].
  destruct (discontinuityPending (w_control w) kind) as [di |]; [| done].
  destruct (payload _ _ _ _ _) as [packets | e] eqn:Epk; [| done].
  eapply controlOk_open; [done.. |]. eapply payload_packets; [done | | done].
  by eapply (reservedNextPayload_bounds plan).
Qed.

Lemma controlOk_pcrOnly plan w wire :
  controlOk plan w -> 0 <= wire ->
  let w' := (beginPcrOnly wire w).2 in controlOk plan w' /\ counters w' = counters w.
Proof.
  intros Hw Hwire. unfold beginPcrOnly. destruct (negb (w_attached w)); [done |].
  destruct (pz_poisoned (w_control w)) eqn:Hp; [done |].
  destruct (activeCursor (w_control w) KindPcr) as [[? |] |] eqn:Ha; [done | | done].
  destruct (identityExhausted _); [done |].
  destruct (continuity (w_control w) KindPcr) as [cc |] eqn:Hc; [| done].
  destruct (discontinuityPending (w_control w) KindPcr) as [di |]; [| done].
  rewrite (ok_plan _ _ Hw).
  destruct (pcrOnly _ _ _ _) as [packet | e] eqn:Epk; [| done].
  eapply controlOk_open; [done.. |]. eapply pcr_packet; [| done | exact Epk].
  by eapply (reservedNextPayload_bounds plan).
Qed.

(** Replacing a cursor of its PID by one in the same place. *)
Lemma controlOk_touch plan w s s' :
  controlOk plan w -> w_cursors w !! cs_identity s = Some s -> cs_pending s = None ->
  cs_identity s' = cs_identity s -> cs_pidKind s' = cs_pidKind s ->
  cs_continuityReserved s' = cs_continuityReserved s -> startOf s' = startOf s -> cursorOk plan s' ->
  controlOk plan (putCursor s' w).
Proof.
  intros Hw Hs Hp Hid Hk Hr Hst Hok. destruct (ok_cursors _ _ Hw _ _ Hs) as (_ & Hlt & _).
  apply (controlOk_oneSlot plan (continuityIndex (cs_pidKind s)) w); [done |]. split; try done; cbn; rewrite ?Hid.
  - intros id t. rewrite lookup_insert_Some. intros [[<- <-] | [_ ?]]; [right | by left].
    split_and!; [done | lia | done].
  - intros id t Ht Hne. rewrite lookup_insert_ne; [done |]. intros <-. rewrite Hs in Ht. simplify_eq.
  - intros c0 Hc0. exact (Forall_lookup_1 _ _ _ _ (ok_counters _ _ Hw) Hc0).
  - intros Hpo cc active ledger Hc Ha Hl. eapply slot_touch; try done. by eapply ok_slots.
Qed.

Lemma cursorOk_progress plan s revision offset pending reserved :
  cursorOk plan s ->
  pendingOk (setProgress revision offset pending reserved s) ->
  cursorOk plan (setProgress revision offset pending reserved s).
Proof. intros [Hi Hp _] Hpd. by split. Qed.

Lemma controlOk_prepare plan w identity n :
  controlOk plan w ->
  let w' := (prepare identity n w).2 in controlOk plan w' /\ counters w' = counters w.
Proof.
  intros Hw. unfold prepare. destruct (w_cursors w !! identity) as [s |] eqn:Hs; [| done].
  destruct (pz_poisoned _); [done |]. destruct ((n <? 1) || _) eqn:En; [done |].
  case_bool_decide as Hpn; [done |]. destruct (cursorFinishedLocked s); [done |].
  destruct (revisionExhausted s); [done |]. cbn [snd]. split; [| done].
  destruct (ok_cursors _ _ Hw _ _ Hs) as (<- & _ & Hok).
  assert (cs_pending s = None) by (destruct (cs_pending s); [by destruct Hpn; eauto | done]).
  apply (controlOk_touch plan w s); try done. apply cursorOk_progress; [done |].
  pose proof (ck_pending _ _ Hok) as Hpd. unfold pendingOk in *. rewrite H in Hpd. cbn. split; [lia | done].
Qed.

Lemma controlOk_prepareRemaining plan w identity :
  controlOk plan w ->
  let w' := (prepareRemaining identity w).2 in controlOk plan w' /\ counters w' = counters w.
Proof.
  intros Hw. unfold prepareRemaining. destruct (w_cursors w !! identity) as [s |] eqn:Hs; [| done].
  destruct (pz_poisoned _) eqn:Hpo; [done |]. case_bool_decide as Hpn; [done |]. cbn [orb].
  destruct (cursorFinishedLocked s); [done |]. destruct (revisionExhausted s); [done |]. cbn [orb].
  destruct (ok_cursors _ _ Hw _ _ Hs) as (<- & Hlt & Hok).
  assert (Hpend : cs_pending s = None) by (destruct (cs_pending s); [by destruct Hpn; eauto | done]).
  pose proof (ck_pending _ _ Hok) as Hpd. unfold pendingOk in Hpd. rewrite Hpend in Hpd.
  assert (Hlost : controlOk plan (putCursor (setProgress (cs_nextRevision s + 1) (cs_committedOffset s) None
    (cs_continuityReserved s) s) w)).
  { apply (controlOk_touch plan w s); try done. by apply cursorOk_progress. }
  destruct (reservationLedger _ _) as [ledger |] eqn:Hl; [| done].
  destruct (activeCursor _ _) as [active |] eqn:Ha; [| done].
  case_bool_decide as Hact; [| done]. subst active. cbn [snd]. split; [| done].
  apply (controlOk_oneSlot plan (continuityIndex (cs_pidKind s)) w); [done |]. split; try done; cbn.
  - by rewrite !length_insert.
  - intros id t. rewrite lookup_insert_Some. intros [[<- <-] | [_ ?]]; [right | by left].
    split_and!; [done | done |]. apply cursorOk_progress; [done |]. cbn. split; [lia | done].
  - intros id t Ht Hne. rewrite lookup_insert_ne; [done |]. intros <-. rewrite Hs in Ht. simplify_eq.
  - intros i Hi. split_and!; at_other.
  - intros c0 Hc0. exact (Forall_lookup_1 _ _ _ _ (ok_counters _ _ Hw) Hc0).
  - intros _ cc active led Hc. rewrite !list_lookup_insert_eq by (by eapply lookup_lt_Some).
    intros [= <-] [= <-]. by eapply slot_reserve; [.. | eapply ok_slots].
Qed.

(** The control state after a commit, member by member. *)
Lemma commitControl_members s p c :
  let k := continuityIndex (cs_pidKind s) in
  pz_plan (commitControl s p c) = pz_plan c /\
  pz_nextCursorIdentity (commitControl s p c) = pz_nextCursorIdentity c /\
  pz_poisoned (commitControl s p c) = pz_poisoned c /\
  nextArray (pz_continuity (commitControl s p c)) =
    <[k := pd_nextPayload p]> (nextArray (pz_continuity c)) /\
  pz_reservations (commitControl s p c) =
    (if cs_continuityReserved s
     then <[k := tail (default [] (pz_reservations c !! k))]> (pz_reservations c)
     else pz_reservations c) /\
  pz_activeCursors (commitControl s p c) =
    (if Nat.eqb (pd_endOffset p) (length (cs_packets s)) && negb (cs_continuityReserved s)
     then <[k := None]> (pz_activeCursors c) else pz_activeCursors c).
Proof.
  unfold commitControl. destruct (pd_clearsDiscontinuity p), (cs_continuityReserved s), (Nat.eqb _ _);
    destruct c as [? ? [] ? ? ? ?]; done.
Qed.

(** What a successful commit of a live cursor finds and does. *)
Lemma commit_success identity token w w' :
  commit identity token w = (Success tt, w') ->
  exists s p, w_cursors w !! identity = Some s /\ cs_pending s = Some p /\
    pz_poisoned (w_control w) = false /\ reservationMatches (w_control w) s = true /\
    is_Some (continuity (w_control w) (cs_pidKind s)) /\
    w' = putCursor (setProgress (cs_nextRevision s) (pd_endOffset p) None (cs_continuityReserved s) s)
           (modifyControl (commitControl s p) w).
Proof.
  unfold commit. destruct (w_cursors w !! identity) as [s |]; [| done].
  destruct (cs_pending s) as [p |] eqn:Hp; [| done].
  destruct (pz_poisoned _) eqn:Hpo; [done |]. destruct (negb (tk_valid token)); [done |]. cbn [orb].
  destruct (tokenMatches _ _ _ _); [| done]. destruct (reservationMatches _ _) eqn:Hm; [| done]. cbn [negb orb].
  destruct (continuity _ _) eqn:Hc; [| done]. destruct (discontinuityPending _ _); [| done].
  intros [= <-]. exists s, p. by split_and!.
Qed.

Lemma commit_failure identity token w e w' :
  commit identity token w = (Failure e, w') -> w' = w \/ w' = modifyControl setPoisoned w.
Proof.
  unfold commit. destruct (w_cursors w !! identity) as [s |]; [| intros [= _ <-]; auto].
  destruct (cs_pending s) as [p |]; [| intros [= _ <-]; auto].
  destruct (_ || _); [intros [= _ <-]; auto |]. destruct (_ || _); [intros [= _ <-]; auto |].
  destruct (continuity _ _); [| intros [= _ <-]; auto].
  destruct (discontinuityPending _ _); [done | intros [= _ <-]; auto].
Qed.

(** The slot of a committed cursor: where its packets start, and the slot
    after the commit. *)
Lemma commit_slot plan w s p cc active ledger s' :
  controlOk plan w -> w_cursors w !! cs_identity s = Some s -> cs_pending s = Some p ->
  pz_poisoned (w_control w) = false -> reservationMatches (w_control w) s = true ->
  respectsLedger (CallCommit (cs_identity s) (mkToken None 0 0 false)) w = true ->
  let k := continuityIndex (cs_pidKind s) in
  counters w !! k = Some cc -> pz_activeCursors (w_control w) !! k = Some active ->
  pz_reservations (w_control w) !! k = Some ledger ->
  s' = setProgress (cs_nextRevision s) (pd_endOffset p) None (cs_continuityReserved s) s ->
  startOf s = cc /\
  slotOk (<[cs_identity s := s']> (w_cursors w)) k (pd_nextPayload p)
    (if Nat.eqb (pd_endOffset p) (length (cs_packets s)) && negb (cs_continuityReserved s) then None else active)
    (if cs_continuityReserved s then tail ledger else ledger).
Proof.
  intros Hw Hs Hp Hpo Hm Hr k Hc Ha Hl ->. pose proof (ok_slots _ _ Hw Hpo _ _ _ _ Hc Ha Hl) as Hslot.
  unfold reservationMatches, respectsLedger in *. rewrite Hs in Hr. unfold reservationLedger, activeCursor in *.
  fold k in Hm, Hr. rewrite Hl in *. rewrite Ha in Hm. destruct (cs_continuityReserved s) eqn:Er.
  - rewrite andb_false_r. destruct ledger as [| r rest]; [done |]. apply Z.eqb_eq in Hm.
    by eapply slot_commit_reserved.
  - rewrite andb_true_r. destruct active as [id |]; [| done]. apply Z.eqb_eq in Hm as ->.
    destruct ledger; [| done].
    destruct (slot_commit_active (w_cursors w) k cc s (setProgress (cs_nextRevision s) (pd_endOffset p)
      None false s) p) as [E H]; try done.
    + destruct (ok_cursors _ _ Hw _ _ Hs) as (_ & _ & Hok). pose proof (ck_pending _ _ Hok) as Hpd.
      unfold pendingOk in Hpd. rewrite Hp in Hpd. destruct Hpd as [_ ->]. done.
    + split; [done |]. apply H. destruct (Nat.eqb _ _); auto.
Qed.

Lemma controlOk_commit plan w identity token :
  controlOk plan w -> respectsLedger (CallCommit identity token) w = true ->
  let call := CallCommit identity token in
  controlOk plan (perform call w) /\ stream plan (counters w) (emitted call w) (counters (perform call w)).
Proof.
  intros Hw Hr. cbn [perform emitted]. destruct (commit identity token w) as [[[] | e] w'] eqn:E.
  2: { cbn. destruct (commit_failure _ _ _ _ _ E) as [-> | ->];
         (split; [by try apply controlOk_poisoned | constructor]). }
  destruct (commit_success _ _ _ _ E) as (s & p & Hs & Hp & Hpo & Hm & [cc Hc] & ->). cbn [snd]. clear E.
  rewrite Hs, Hp. destruct (ok_cursors _ _ Hw _ _ Hs) as (<- & Hlt & Hok).
  set (k := continuityIndex (cs_pidKind s)). assert (Hk : (k < 4)%nat) by (unfold k; destruct (cs_pidKind s); simpl; lia).
  destruct (ok_shape _ _ Hw) as [La Lr].
  destruct (lookup_lt_is_Some_2 (pz_activeCursors (w_control w)) k) as [active Ha]; [lia |].
  destruct (lookup_lt_is_Some_2 (pz_reservations (w_control w)) k) as [ledger Hl]; [lia |].
  destruct (commit_slot plan w s p cc active ledger _ Hw Hs Hp Hpo Hm Hr Hc Ha Hl eq_refl) as [Hst Hslot].
  destruct (commitControl_members s p (w_control w)) as (M1 & M2 & M3 & M4 & M5 & M6).
  pose proof (ck_pending _ _ Hok) as Hpd. unfold pendingOk in Hpd. rewrite Hp in Hpd. destruct Hpd as [Hends Hnext].
  assert (Ec : counters (putCursor (setProgress (cs_nextRevision s) (pd_endOffset p) None (cs_continuityReserved s) s)
    (modifyControl (commitControl s p) w)) = <[k := pd_nextPayload p]> (counters w)) by exact M4.
  split.
  - apply (controlOk_oneSlot plan k w); [done |]. split; rewrite ?Ec; cbn; rewrite ?M1, ?M2, ?M3, ?M5, ?M6; try done.
    + split; [destruct (_ && _) | destruct (cs_continuityReserved s)]; by rewrite ?length_insert.
    + intros id t. rewrite lookup_insert_Some. intros [[<- <-] | [_ ?]]; [right | by left].
      split_and!; [done | done |]. apply cursorOk_progress; [done |]. unfold pendingOk. cbn. lia.
    + intros id t Ht Hne. rewrite lookup_insert_ne; [done |]. intros <-. rewrite Hs in Ht. simplify_eq.
    + intros i Hi. fold k. split_and!; [by rewrite list_lookup_insert_ne | destruct (_ && _) | destruct (cs_continuityReserved s)];
        by rewrite ?list_lookup_insert_ne.
    + intros c0. rewrite list_lookup_insert_eq by (by eapply lookup_lt_Some). intros [= <-].
      rewrite Hnext. by apply nextPayloadAt_bounds, Hok.
    + intros _ c0 a0 l0. fold k. rewrite list_lookup_insert_eq by (by eapply lookup_lt_Some). intros [= <-].
      rewrite Hl. cbn [default]. intros Ha0 Hl0.
      replace a0 with (if Nat.eqb (pd_endOffset p) (length (cs_packets s)) && negb (cs_continuityReserved s)
        then None else active).
      2: { destruct (_ && _); [rewrite list_lookup_insert_eq in Ha0 by lia |]; congruence. }
      replace l0 with (if cs_continuityReserved s then tail ledger else ledger); [done |].
      destruct (cs_continuityReserved s); [rewrite list_lookup_insert_eq in Hl0 by lia |]; simpl in *; congruence.
  - rewrite Ec, Hnext. replace (pd_endOffset p) with (cs_committedOffset s + (pd_endOffset p - cs_committedOffset s))%nat at 2 by lia.
    apply stream_slice; [done | lia |]. fold k. rewrite <- Hst in Hc. exact Hc.
Qed.

Lemma controlOk_cancel plan w identity :
  controlOk plan w -> controlOk plan (cancel identity w) /\ counters (cancel identity w) = counters w.
Proof.
  intros Hw. unfold cancel. destruct (w_cursors w !! identity) as [s |] eqn:Hs; [| done].
  destruct (ok_cursors _ _ Hw _ _ Hs) as (<- & Hlt & Hok).
  set (w1 := if _ : bool then modifyControl setPoisoned w else w).
  assert (Hw1 : controlOk plan w1) by (unfold w1; destruct (_ && _); [by apply controlOk_poisoned | done]).
  assert (Hs1 : w_cursors w1 !! cs_identity s = Some s) by (unfold w1; by destruct (_ && _)).
  assert (Hc1 : counters w1 = counters w) by (unfold w1; by destruct (_ && _)).
  assert (Hp1 : pz_poisoned (w_control w1) = false ->
    cs_continuityReserved s && bool_decide (is_Some (cs_pending s)) = false)
    by (unfold w1; by destruct (_ && _)).
  clearbody w1. rewrite <- Hc1. clear w Hw Hs Hlt Hc1. rename w1 into w.
  set (k := continuityIndex (cs_pidKind s)).
  set (w2 := match activeCursor (w_control w) (cs_pidKind s) with Some (Some _) => _ | _ => _ end).
  assert (H2 : w_cursors w2 = w_cursors w /\ counters w2 = counters w /\
    pz_plan (w_control w2) = pz_plan (w_control w) /\ pz_poisoned (w_control w2) = pz_poisoned (w_control w) /\
    pz_nextCursorIdentity (w_control w2) = pz_nextCursorIdentity (w_control w) /\
    pz_reservations (w_control w2) = pz_reservations (w_control w) /\
    length (pz_activeCursors (w_control w2)) = length (pz_activeCursors (w_control w)) /\
    (forall i, i <> k -> pz_activeCursors (w_control w2) !! i = pz_activeCursors (w_control w) !! i) /\
    (forall id, pz_activeCursors (w_control w2) !! k = Some (Some id) ->
       pz_activeCursors (w_control w) !! k = Some (Some id) /\ id <> cs_identity s)).
  { unfold w2, activeCursor. fold k.
    destruct (pz_activeCursors (w_control w) !! k) as [[a |] |] eqn:Ea;
      [destruct (Z.eqb_spec a (cs_identity s)) | |]; split_and!; try done; try (intros id; congruence);
      cbn; rewrite ?length_insert; try done.
    - intros i Hi. by rewrite list_lookup_insert_ne.
    - intros id. by rewrite list_lookup_insert_eq by (by eapply lookup_lt_Some).
    - intros id. rewrite Ea. intros [= <-]. done. }
  destruct H2 as (E1 & E2 & E3 & E4 & E5 & E6 & E7 & Hoth & Hact). clearbody w2.
  split; [| by rewrite <- E2]. apply (controlOk_oneSlot plan k w); [done |].
  split; unfold counters in *; cbn; rewrite ?E1, ?E2, ?E3, ?E4, ?E5, ?E6, ?E7; try done.
  - intros id t Ht%lookup_delete_Some. left. apply Ht.
  - intros id t Ht Hne. rewrite lookup_delete_ne; [done |]. intros <-. rewrite Hs1 in Ht. simplify_eq.
  - intros i Hi. by rewrite Hoth.
  - intros c0 Hc0. exact (Forall_lookup_1 _ _ _ _ (ok_counters _ _ Hw1) Hc0).
  - intros Hpo cc active ledger Hc Ha Hl.
    destruct (lookup_lt_is_Some_2 (pz_activeCursors (w_control w)) k) as [a0 Ha0].
    { apply lookup_lt_Some in Ha. lia. }
    eapply (slot_cancel _ _ _ a0); [done | by apply Hp1 | | by eapply ok_slots].
    intros id ->. apply Hact in Ha as [Ha ?]. split; [congruence | done].
Qed.

(** ** Runs *)

Lemma controlOk_perform plan w call :
  controlOk plan w -> respectsLedger call w = true -> callWellTyped call = true ->
  controlOk plan (perform call w) /\ stream plan (counters w) (emitted call w) (counters (perform call w)).
Proof.
  intros Hw Hr Ht.
  assert (Hquiet : forall w', controlOk plan w' /\ counters w' = counters w ->
    controlOk plan w' /\ stream plan (counters w) [] (counters w')).
  { intros w' [? ->]. split; [done | constructor]. }
  destruct call as [x | x | wire | st h b ra | i n | i | i tok | i | i |];
    try (apply Hquiet; cbn [perform emitted]).
  - unfold beginPat, beginSection. destruct (negb _); [done |]. destruct (_ || _); [done |].
    rewrite (ok_plan _ _ Hw). by apply (controlOk_payload plan w KindPat).
  - unfold beginPmt, beginSection. destruct (negb _); [done |]. destruct (_ || _); [done |].
    rewrite (ok_plan _ _ Hw). by apply (controlOk_payload plan w KindPmt).
  - apply controlOk_pcrOnly; [done |]. by apply Z.leb_le in Ht.
  - unfold beginPes. destruct (negb _); [done |]. destruct (pz_poisoned _); [done |].
    rewrite (ok_plan _ _ Hw). unfold pesTarget. destruct st.
    + destruct (negb _); [done |]. destruct (negb _); [done |]. by apply (controlOk_payload plan w KindVideo).
    + destruct ra; [done |]. destruct (mp_program plan) as [v | a] eqn:Epr; [done |].
      destruct (negb _); [done |]. destruct (negb _); [done |].
      replace (av_audioPid a) with (kindPid plan KindAudio) by (simpl; by rewrite Epr).
      by apply controlOk_payload.
  - by apply controlOk_prepare.
  - by apply controlOk_prepareRemaining.
  - by apply controlOk_commit.
  - unfold poison. destruct (w_cursors w !! i); [| done]. split; [by apply controlOk_poisoned | done].
  - by apply controlOk_cancel.
  - split; [| done]. destruct Hw. by split.
Qed.

Lemma controlOk_run plan calls w packets w' :
  controlOk plan w -> allRespectLedger calls w = true -> forallb callWellTyped calls = true ->
  run calls w = (packets, w') -> controlOk plan w' /\ stream plan (counters w) packets (counters w').
Proof.
  revert w packets. induction calls as [| call calls IH]; intros w packets Hw; simpl.
  { intros _ _ [= <- <-]. split; [done | constructor]. }
  intros [Hr Hrs]%andb_true_iff [Ht Hts]%andb_true_iff.
  destruct (controlOk_perform plan w call Hw Hr Ht) as [Hw1 Hs1].
  destruct (run calls (perform call w)) as [rest w2] eqn:E. intros [= <- <-].
  destruct (IH _ _ Hw1 Hrs Hts E) as [Hw2 Hs2]. split; [done |]. by eapply stream_app.
Qed.

(** The counters a plan starts with. *)
Definition seedsOk (plan : MediaTsMuxPlanParameters) : Prop :=
  Forall (fun cc => 0 <= cc < 16) (nextArray (initialContinuity (mp_program plan) false)).

Lemma controlOk_create address plan di :
  seedsOk plan ->
  controlOk plan (create address plan di) /\
  counters (create address plan di) = nextArray (initialContinuity (mp_program plan) false).
Proof.
  intros Hs. assert (E : counters (create address plan di) = nextArray (initialContinuity (mp_program plan) false))
    by (unfold counters; simpl; by destruct (mp_program plan)).
  split; [| done]. split; [done | done | done | by rewrite E |].
  intros _ i cc active ledger _ [-> _]%lookup_replicate [-> _]%lookup_replicate.
  split; [done | constructor | done].
Qed.

(** ** The parser *)

(** PIDs of different slots differ; the PCR is sent on the video PID. *)
Record pidsOk (plan : MediaTsMuxPlanParameters) : Prop := {
  pk_range : forall kind, 0 <= kindPid plan kind < 8192;
  pk_distinct : forall kind kind' (cs : list Z),
    length cs = length (nextArray (initialContinuity (mp_program plan) false)) ->
    (continuityIndex kind < length cs)%nat -> (continuityIndex kind' < length cs)%nat ->
    kindPid plan kind = kindPid plan kind' -> continuityIndex kind = continuityIndex kind';
  pk_same : forall kind kind',
    continuityIndex kind = continuityIndex kind' -> kindPid plan kind = kindPid plan kind';
}.

Lemma createPlan_pids plan : createPlan plan = Success plan -> pidsOk plan.
Proof.
  unfold createPlan, invalidPlan, failure, assignablePid, onAudioVideo, MinimumAssignablePid, MuxNullPid.
  simpl. repeat match goal with |- context [if ?b then _ else _] => destruct b eqn:?; try done end.
  intros _. repeat match goal with
    | H : _ || _ = false |- _ => apply orb_false_iff in H as [? ?]
    | H : negb _ = false |- _ => apply negb_false_iff in H
    | H : _ && _ = true |- _ => apply andb_true_iff in H as [? ?]
    end.
  destruct (mp_program plan) as [v | a] eqn:Ep; simpl in *;
  repeat match goal with
    | H : _ || _ = false |- _ => apply orb_false_iff in H as [? ?]
    | H : negb _ = false |- _ => apply negb_false_iff in H
    | H : _ && _ = true |- _ => apply andb_true_iff in H as [? ?]
    end;
  (split; [intros []; cbn; rewrite ?Ep; simpl; lia | intros [] [] cs Hcs | intros [] []];
   cbn; rewrite ?Ep in *; simpl in *; lia).
Qed.

(** The counters a parser has seen are those before the next ones. *)
Definition seen (plan : MediaTsMuxPlanParameters) (c : list Z) (m : gmap Z Z) : Prop :=
  forall kind cc counter, c !! continuityIndex kind = Some cc -> m !! kindPid plan kind = Some counter ->
    0 <= counter < 16 /\ cc = (counter + 1) mod 16.

Lemma seen_insert plan c m kind cc counter :
  pidsOk plan -> length c = length (nextArray (initialContinuity (mp_program plan) false)) ->
  (continuityIndex kind < length c)%nat -> 0 <= counter < 16 -> cc = (counter + 1) mod 16 ->
  seen plan c m ->
  seen plan (<[continuityIndex kind := cc]> c) (<[kindPid plan kind := counter]> m).
Proof.
  intros Hp Hl Hk Hc -> Hs kind' cc' counter' Hc' Hm'.
  assert (Hlt : (continuityIndex kind' < length c)%nat) by (apply lookup_lt_Some in Hc'; by rewrite length_insert in Hc').
  apply lookup_insert_Some in Hm' as [[E <-] | [E Hm']].
  - rewrite (pk_distinct _ Hp kind kind' c) in Hc' by done.
    rewrite list_lookup_insert_eq in Hc' by done. by injection Hc' as <-.
  - destruct (decide (continuityIndex kind = continuityIndex kind')) as [Ei | Ei].
    + destruct E. by apply pk_same.
    + rewrite list_lookup_insert_ne in Hc' by done. by eapply Hs.
Qed.

Section Sink.
Context {K : Type} `{!MediaTsPacketSink K}.

(** One packet of a stream is delivered as it is. *)
Lemma stream_packet plan kind cc packet cc' off e m (s : K) :
  pidsOk plan -> transportPacket plan kind cc packet cc' -> evidenceOffset e <> Some off ->
  (forall counter, m !! kindPid plan kind = Some counter -> 0 <= counter < 16 /\ cc = (counter + 1) mod 16) ->
  wholePacket packet /\ exists v counter,
    0 <= counter < 16 /\ cc' = (counter + 1) mod 16 /\ v_pid v = kindPid plan kind /\
    v_continuityCounter v = counter /\ v_byteOffset v = off /\
    let '(r, s') := deliver (v_discontinuity v) v s in
    exists e' m', parseCore None packet off (e, m, s) = (r, (e', m', s')) /\
      (resultOk r = true -> evidenceOffset e' = Some off /\ m' = <[kindPid plan kind := counter]> m).
Proof.
  intros Hp Ht He Hm. pose proof (pk_range _ Hp kind) as Hr. destruct Ht as [kind cc start ra di bytes Hk Hc Hb | cc wire di packet Hc Hw Hpcr].
  - destruct (parse_payloadPacket (kindPid plan kind) cc start ra di bytes off Hr Hc Hb) as (E & Hl & H0 & Hd).
    split; [by split |].
    exists (viewOf (payloadPacket (kindPid plan kind) cc start ra di bytes)
      (mkParsed (mkEvidenceView off (kindPid plan kind) start cc di None) true (188 - Z.of_nat (length bytes)) false)), cc.
    cbn. split_and!; try done; try lia.
    pose proof (parseCore_deliver _ off _ e m s E eq_refl He) as H. apply H.
    intros _. unfold counterExpected. cbn. destruct (m !! kindPid plan kind) as [counter |] eqn:Em; [| done].
    destruct (Hm _ eq_refl) as [_ ->]. by rewrite next_counter.
  - destruct (parse_pcrOnly (kindPid plan KindPcr) cc wire di packet off Hpcr) as [E Hwp]; [lia | lia | lia |].
    split; [done |].
    exists (viewOf packet (mkParsed (mkEvidenceView off (kindPid plan KindPcr) false ((cc + 15) mod 16) di (Some wire))
                     false 188 false)), ((cc + 15) mod 16).
    cbn. split_and!; try done; try divmod.
    pose proof (parseCore_deliver _ off _ e m s E eq_refl He) as H. apply H.
    intros _. unfold counterExpected. cbn. destruct (m !! _) as [counter |] eqn:Em; [| done].
    destruct (Hm _ eq_refl) as [? ->]. divmod.
Qed.

End Sink.

(** What the parser reports for packets that are all delivered as they are. *)
Lemma stream_parse plan c packets c' off e m events :
  pidsOk plan -> length c = length (nextArray (initialContinuity (mp_program plan) false)) ->
  stream plan c packets c' -> seen plan c m ->
  (forall o, evidenceOffset e = Some o -> o < off) ->
  Forall wholePacket packets /\ exists views e' m',
    length views = length packets /\
    parseAll packets off (e, m, events) = (Success tt, (e', m', events ++ concat (eventsOf <$> views))).
Proof.
  intros Hp Hl Hs. revert off e m events.
  induction Hs as [c | c kind cc packet cc' packets c' Hc Ht _ IH]; intros off e m events Hseen He.
  { split; [constructor |]. exists [], e, m. split; [done |]. simpl. by rewrite app_nil_r. }
  destruct (stream_packet plan kind cc packet cc' off e m events Hp Ht) as (Hw & v & counter & Hb & Hcc & Hv).
  { intros E. apply He in E. lia. }
  { intros counter Hm. by eapply Hseen. }
  destruct Hv as (_ & _ & _ & Hv). rewrite deliver_recorded in Hv by done.
  destruct Hv as (e1 & m1 & Hpc & Hdone). destruct (Hdone eq_refl) as [He1 ->].
  destruct (IH ltac:(by rewrite length_insert) (off + 188) e1 (<[kindPid plan kind := counter]> m) (events ++ eventsOf v))
    as (Hws & views & e2 & m2 & Hn & Hpa).
  { apply seen_insert; try done. by eapply lookup_lt_Some. }
  { rewrite He1. intros o [= <-]. lia. }
  split; [by constructor |]. exists (v :: views), e2, m2. split; [simpl; by rewrite Hn |].
  cbn [parseAll]. rewrite Hpc, Hpa. cbn [fmap list_fmap concat]. by rewrite app_assoc.
Qed.

Definition isPacket (e : SinkEvent) : bool := match e with PacketEvent _ => true | _ => false end.
Definition isLoss (e : SinkEvent) : bool :=
  match e with
  | ContinuityEvent c => match ce_reason c with CounterLoss => true | DiscontinuityIndicator => false end
  | _ => false
  end.

Lemma eventsOf_count views :
  existsb isLoss (concat (eventsOf <$> views)) = false /\
  length (List.filter isPacket (concat (eventsOf <$> views))) = length views.
Proof.
  induction views as [| v vs [IH1 IH2]]; [done |]. cbn [fmap list_fmap concat].
  rewrite existsb_app, List.filter_app, length_app, IH1, IH2. unfold eventsOf.
  by destruct (v_discontinuity v).
Qed.

(** C3: Whatever calls threads make on a packetizer and its cursors, in any
    order and with any tokens, as long as batches are not committed past a
    waiting reserved series of their PID: the committed packets, in commit
    order and cut into any chunks, are read by the packet parser without an
    error and without a continuity loss, one packet event per packet. *)
Theorem committed_stream_continuous address plan di calls packets w chunks :
  createPlan plan = Success plan -> seedsOk plan ->
  allRespectLedger calls (create address plan di) = true -> forallb callWellTyped calls = true ->
  run calls (create address plan di) = (packets, w) -> packets <> [] ->
  concat chunks = concat packets -> Z.of_nat (length (concat packets)) <= uint64_max ->
  exists p events, feed chunks (freshParser, []) = (Success tt, (p, events)) /\
    existsb isLoss events = false /\ length (List.filter isPacket events) = length packets.
Proof.
  intros Hplan Hseeds Hr Ht Hrun Hne Hcat Hmax. pose proof (createPlan_pids _ Hplan) as Hpids.
  destruct (controlOk_create address plan di Hseeds) as [Hw Ec].
  destruct (controlOk_run _ _ _ _ _ Hw Hr Ht Hrun) as [_ Hs]. rewrite Ec in Hs.
  destruct (stream_parse plan _ packets _ 0 None ∅ [] Hpids eq_refl Hs)
    as (Hwh & views & e' & m' & Hn & Hpa); [intros ? ? ? ? []%lookup_empty_Some | done |].
  pose proof (feed_packets packets chunks (@nil SinkEvent) Hwh Hne Hcat Hmax) as Hf. rewrite Hpa in Hf.
  destruct Hf as ([[] |] & p & Hf & Hr' & _); [| done]. exists p, (concat (eventsOf <$> views)).
  destruct (eventsOf_count views) as [E1 E2]. by rewrite E1, E2, Hn.
Qed.

(** ** Poisoned state *)

(** Poisoning is final: no later sequence of calls commits a packet, and
    the control state stays poisoned. *)
Theorem poisoned_commits_nothing calls w :
  pz_poisoned (w_control w) = true ->
  (run calls w).1 = [] /\ pz_poisoned (w_control (run calls w).2) = true.
Proof.
  revert w. induction calls as [| call calls IH]; intros w Hp; [done |]. cbn [run].
  assert (H : pz_poisoned (w_control (perform call w)) = true /\ emitted call w = []).
  { destruct call; cbn [perform emitted]; split; try done.
    - unfold beginPat, beginSection. rewrite Hp. by destruct (negb _).
    - unfold beginPmt, beginSection. rewrite Hp. by destruct (negb _).
    - unfold beginPcrOnly. rewrite Hp. by destruct (negb _).
    - unfold beginPes. rewrite Hp. by destruct (negb _).
    - unfold prepare. rewrite Hp. by destruct (w_cursors w !! _).
    - unfold prepareRemaining. rewrite Hp. by destruct (w_cursors w !! _).
    - unfold commit. rewrite Hp. destruct (w_cursors w !! _) as [s |]; [| done]. by destruct (cs_pending s).
    - unfold commit. rewrite Hp. destruct (w_cursors w !! _) as [s |]; [| done]. by destruct (cs_pending s).
    - unfold poison. by destruct (w_cursors w !! _).
    - unfold cancel. destruct (w_cursors w !! _) as [s |]; [| done].
      assert (E : forall b : bool, pz_poisoned (w_control (if b then modifyControl setPoisoned w else w)) = true)
        by (by intros []).
      destruct (activeCursor _ _) as [[a |] |]; try apply E. destruct (a =? _); apply E. }
  destruct H as [H1 H2]. destruct (IH _ H1) as [H3 H4].
  destruct (run calls (perform call w)) as [rest w']. simpl in *. by rewrite H2, H3.
Qed.

(** ** A packetizer at work *)

(** A video-only program whose counters start at 15, 0 and 14. *)
Definition examplePlan : MediaTsMuxPlanParameters :=
  let c v := mkConstraint v "iso" ProtocolMaximum in
  mkParameters 1 1 0 0x100 3 (mkTiming (c 40) (c 100) (c 100) (c 5) 1 90000)
    (VideoOnly (mkVideoOnly 0x101 0x101 0x1B (mkVideoSeeds 15 0 14)))
    (mkVideoContract TsH264 AnnexB 0 0x1B) ParameterSetsNever 1000 500 188 7 UdpDatagrams.

Definition exampleHeader (n : nat) : MediaTsPesHeader :=
  mkPesHeader Scheduled_Video (replicate 14 0) (Z.of_nat n).

Definition pesCall (n : nat) : Call := CallBeginPes Scheduled_Video (exampleHeader n) (replicate n 7) false.

(** The token of revision 1 of a cursor. *)
Definition tokenOf (identity : Z) : MediaTsPacketCommitToken := mkToken (Some 99) identity 1 true.

(** Two units and a clock reserved before the first is committed, on the video
    PID. *)
Definition pipelinedCalls : list Call :=
  [pesCall 400; CallPrepareRemaining 1; CallBeginPcrOnly 77; CallPrepareRemaining 2;
   pesCall 10; CallPrepareRemaining 3;
   CallCommit 1 (tokenOf 1); CallCommit 2 (tokenOf 2); CallCommit 3 (tokenOf 3)].

Lemma committed_stream_continuous_witness :
  exists packets w, run pipelinedCalls (create 99 examplePlan true) = (packets, w) /\ length packets = 5%nat /\
  exists p events, feed [concat packets] (freshParser, []) = (Success tt, (p, events)) /\
    existsb isLoss events = false /\ length (List.filter isPacket events) = length packets.
Proof.
  destruct (run pipelinedCalls (create 99 examplePlan true)) as [packets w] eqn:E.
  assert (Hn : length packets = 5%nat) by (change packets with (packets, w).1; rewrite <- E; vm_compute; reflexivity).
  exists packets, w. split; [done |]. split; [done |].
  eapply (committed_stream_continuous 99 examplePlan true pipelinedCalls packets w).
  - reflexivity.
  - unfold seedsOk. simpl. repeat constructor; lia.
  - vm_compute. reflexivity.
  - reflexivity.
  - exact E.
  - by destruct packets.
  - simpl. by rewrite app_nil_r.
  - change packets with (packets, w).1. rewrite <- E. vm_compute. discriminate.
Defined.

Lemma poisoned_commits_nothing_witness :
  let w := (run [pesCall 400; CallPoison 1] (create 99 examplePlan false)).2 in
  (run [CallPrepare 1 3; CallCommit 1 (tokenOf 1)] w).1 = [] /\
  pz_poisoned (w_control (run [CallPrepare 1 3; CallCommit 1 (tokenOf 1)] w).2) = true.
Proof. intros w. apply (poisoned_commits_nothing _ w). vm_compute. reflexivity. Defined.

(** The discontinuity flag of a packet with an adaptation field. *)
Definition discontinuityFlag (packet : list Z) : bool :=
  flag (at_ packet 3) 0x20 && flag (at_ packet 5) 0x80.

(** Only the last reservation of a PID is asked whether it already clears
    the pending discontinuity, so with two reserved series waiting, the third
    unit announces the discontinuity of the first again. *)
Theorem pipelined_discontinuity_repeats :
  let '(packets, _) := run pipelinedCalls (create 99 examplePlan true) in
  discontinuityFlag <$> packets = [true; false; false; false; true].
Proof. vm_compute. reflexivity. Qed.

(** A batch of the second unit is committed before the reserved first unit. *)
Definition overtakingCalls : list Call :=
  [pesCall 10; CallPrepareRemaining 1; pesCall 10; CallPrepare 2 7;
   CallCommit 2 (tokenOf 2); CallCommit 1 (tokenOf 1)].

(** The condition on batches is needed: [commit] lets the active cursor
    commit a batch while a reserved series of the same PID waits, and then
    lets the series commit too; the parser reports a continuity loss. *)
Theorem batch_overtakes_reservation :
  let '(packets, w) := run overtakingCalls (create 99 examplePlan false) in
  length packets = 2%nat /\ pz_poisoned (w_control w) = false /\
  allRespectLedger overtakingCalls (create 99 examplePlan false) = false /\
  existsb isLoss (feed [concat packets] (freshParser, [])).2.2 = true.
Proof. vm_compute. done. Qed.

End MediaTsContinuity.
