(* ===== verification/CreditLedger.v ===== *)
(** * The payload credit ledger

    Models [runtime/resource/MediaGraphPayloadCreditLedger.{h,cpp}] and
    [MediaGraphPayloadReservation.{h,cpp}]: accounts with hard bounds on live
    payload bytes and objects, leases on them, waiters that are granted credit
    when leases are released, branch, fixed storage and retention admissions,
    and the session aggregate.

    A [Ledger] is the ledger object together with every object that shares its
    accounts: an account, a lease, a branch or retention reservation is an entry
    of a map under an address of its own (a lease keeps it when the object is
    moved).  A [weak_ptr] to an account is its
    address, expired when no reservation, lease or the ledger itself owns it.
    [lg_wakeups] are the wake handles that are still alive; [lg_notified] lists
    the handles notified, oldest first.  A call runs under the account mutex
    and is one step.  [lg_terminated] says that [std::terminate] was called.
    Allocation failure is not modelled. *)

From stdpp Require Import gmap pretty.
From S2P Require Import Prelude MediaResult Model.

Local Open Scope Z_scope.
Local Open Scope result_scope.

Module MediaGraphPayloadCreditLedger.

(** ** State *)

Record MediaGraphPayloadCreditSnapshot := mkSnapshot {
  sn_admittedMaximumBytes : Z;
  sn_admittedMaximumObjects : Z;
  sn_currentBytes : Z;
  sn_currentObjects : Z;
  sn_highWaterBytes : Z;
  sn_highWaterObjects : Z;
  sn_reservations : Z;
  sn_releases : Z;
  sn_pressureFailures : Z;
}.

Definition emptySnapshot : MediaGraphPayloadCreditSnapshot := mkSnapshot 0 0 0 0 0 0 0 0 0.

Record Pending := mkPending {
  pn_producer : Z;
  pn_bytes : list Z;
  pn_totalBytes : Z;
  pn_wakeup : Z;
  pn_granted : bool;
}.

(** [MediaGraphPayloadCreditState]. *)
Record Account := mkAccount {
  ac_plan : MediaGraphPayloadCreditPlan;
  ac_fixedStorageBytes : Z;
  ac_snapshot : MediaGraphPayloadCreditSnapshot;
  ac_waiters : list Pending;
  ac_cancelled : bool;
}.

Record MediaGraphPayloadRetentionGrowth := mkGrowth {
  gr_sourceAccountProducer : Z;
  gr_additionalBytes : Z;
  gr_additionalObjects : Z;
}.

(** A lease that still holds its account. *)
Record MediaGraphPayloadCreditLease := mkLease { le_account : Z; le_bytes : Z }.

Record Ledger := mkLedger {
  lg_plan : MediaGraphPayloadCreditPlan;
  lg_accounts : gmap Z Account;
  lg_aggregate : MediaGraphPayloadCreditSnapshot;
  lg_branchAccounts : list Z;
  lg_producerAccounts : gmap Z Z;
  lg_leases : gmap Z MediaGraphPayloadCreditLease;
  lg_branches : gmap Z Z;
  lg_retentions : gmap Z (Z * MediaGraphPayloadRetentionGrowth);
  lg_wakeups : gset Z;
  lg_notified : list Z;
  lg_nextAddress : Z;
  lg_terminated : bool;
}.

(** The address of the account [m_state]. *)
Definition initialAccount : Z := 0.

(** [MediaGraphPayloadCreditPlan{}]. *)
Definition emptyPlan : MediaGraphPayloadCreditPlan :=
  mkCreditPlan 0 0 0 0 Integration_Incomplete "" [] [].

Definition newAccount (plan : MediaGraphPayloadCreditPlan) (fixedStorageBytes : Z) : Account :=
  mkAccount plan fixedStorageBytes emptySnapshot [] false.

Definition admittedBytes (a : Account) : Z := u64 (maximumBytes (ac_plan a) + ac_fixedStorageBytes a).

(** ** Writes *)

Definition setCurrent (bytes objects : Z) (s : MediaGraphPayloadCreditSnapshot) :=
  mkSnapshot (sn_admittedMaximumBytes s) (sn_admittedMaximumObjects s) bytes objects
    (sn_highWaterBytes s) (sn_highWaterObjects s) (sn_reservations s) (sn_releases s)
    (sn_pressureFailures s).

(** [currentBytes += bytes; currentObjects += objects;] and the marks. *)
Definition addCurrent (bytes objects : Z) (s : MediaGraphPayloadCreditSnapshot) :=
  let b := u64 (sn_currentBytes s + bytes) in
  let o := u64 (sn_currentObjects s + objects) in
  mkSnapshot (sn_admittedMaximumBytes s) (sn_admittedMaximumObjects s) b o
    (Z.max (sn_highWaterBytes s) b) (Z.max (sn_highWaterObjects s) o) (sn_reservations s)
    (sn_releases s) (sn_pressureFailures s).

Definition subCurrent (bytes objects : Z) (s : MediaGraphPayloadCreditSnapshot) :=
  setCurrent (u64 (sn_currentBytes s - bytes)) (u64 (sn_currentObjects s - objects)) s.

Definition addReservations (n : Z) (s : MediaGraphPayloadCreditSnapshot) :=
  mkSnapshot (sn_admittedMaximumBytes s) (sn_admittedMaximumObjects s) (sn_currentBytes s)
    (sn_currentObjects s) (sn_highWaterBytes s) (sn_highWaterObjects s)
    (u64 (sn_reservations s + n)) (sn_releases s) (sn_pressureFailures s).

Definition countRelease (s : MediaGraphPayloadCreditSnapshot) :=
  mkSnapshot (sn_admittedMaximumBytes s) (sn_admittedMaximumObjects s) (sn_currentBytes s)
    (sn_currentObjects s) (sn_highWaterBytes s) (sn_highWaterObjects s)
    (sn_reservations s) (u64 (sn_releases s + 1)) (sn_pressureFailures s).

Definition countPressure (s : MediaGraphPayloadCreditSnapshot) :=
  mkSnapshot (sn_admittedMaximumBytes s) (sn_admittedMaximumObjects s) (sn_currentBytes s)
    (sn_currentObjects s) (sn_highWaterBytes s) (sn_highWaterObjects s)
    (sn_reservations s) (sn_releases s) (u64 (sn_pressureFailures s + 1)).

Definition setSnapshot (s : MediaGraphPayloadCreditSnapshot) (a : Account) : Account :=
  mkAccount (ac_plan a) (ac_fixedStorageBytes a) s (ac_waiters a) (ac_cancelled a).

Definition setWaiters (ws : list Pending) (a : Account) : Account :=
  mkAccount (ac_plan a) (ac_fixedStorageBytes a) (ac_snapshot a) ws (ac_cancelled a).

Definition setPlanBounds (bytes objects : Z) (p : MediaGraphPayloadCreditPlan) :
    MediaGraphPayloadCreditPlan :=
  mkCreditPlan bytes objects (maximumUnitBytes p) (producerStrategyVersion p) (integration p)
    (planAuthority p) (producers p) (missingProducers p).

Definition setPlan (p : MediaGraphPayloadCreditPlan) (a : Account) : Account :=
  mkAccount p (ac_fixedStorageBytes a) (ac_snapshot a) (ac_waiters a) (ac_cancelled a).

(** [AggregatePublication]: the differences of the account's snapshot since the
    guard was built, added to the session aggregate. *)
Definition adjust (total before value : Z) : Z :=
  if before <=? value then u64 (total + (value - before)) else u64 (total - (before - value)).

Definition publish (before after aggregate : MediaGraphPayloadCreditSnapshot) :
    MediaGraphPayloadCreditSnapshot :=
  let bytes := adjust (sn_currentBytes aggregate) (sn_currentBytes before) (sn_currentBytes after) in
  let objects := adjust (sn_currentObjects aggregate) (sn_currentObjects before) (sn_currentObjects after) in
  mkSnapshot (sn_admittedMaximumBytes aggregate) (sn_admittedMaximumObjects aggregate) bytes objects
    (Z.max (sn_highWaterBytes aggregate) bytes) (Z.max (sn_highWaterObjects aggregate) objects)
    (u64 (sn_reservations aggregate + u64 (sn_reservations after - sn_reservations before)))
    (u64 (sn_releases aggregate + u64 (sn_releases after - sn_releases before)))
    (u64 (sn_pressureFailures aggregate + u64 (sn_pressureFailures after - sn_pressureFailures before))).

Definition setAccounts (accounts : gmap Z Account) (aggregate : MediaGraphPayloadCreditSnapshot)
    (l : Ledger) : Ledger :=
  mkLedger (lg_plan l) accounts aggregate (lg_branchAccounts l) (lg_producerAccounts l) (lg_leases l)
    (lg_branches l) (lg_retentions l) (lg_wakeups l) (lg_notified l) (lg_nextAddress l) (lg_terminated l).

(** The end of a locked section that turned [before] into [after]. *)
Definition publishAccount (address : Z) (before after : Account) (l : Ledger) : Ledger :=
  setAccounts (<[address := after]> (lg_accounts l))
    (publish (ac_snapshot before) (ac_snapshot after) (lg_aggregate l)) l.

Definition setLeases (leases : gmap Z MediaGraphPayloadCreditLease) (next : Z) (l : Ledger) : Ledger :=
  mkLedger (lg_plan l) (lg_accounts l) (lg_aggregate l) (lg_branchAccounts l) (lg_producerAccounts l) leases
    (lg_branches l) (lg_retentions l) (lg_wakeups l) (lg_notified l) next (lg_terminated l).

Definition notify (wakeups : list Z) (l : Ledger) : Ledger :=
  mkLedger (lg_plan l) (lg_accounts l) (lg_aggregate l) (lg_branchAccounts l) (lg_producerAccounts l)
    (lg_leases l) (lg_branches l) (lg_retentions l) (lg_wakeups l) (lg_notified l ++ wakeups)
    (lg_nextAddress l) (lg_terminated l).

Definition terminate (l : Ledger) : Ledger :=
  mkLedger (lg_plan l) (lg_accounts l) (lg_aggregate l) (lg_branchAccounts l) (lg_producerAccounts l)
    (lg_leases l) (lg_branches l) (lg_retentions l) (lg_wakeups l) (lg_notified l)
    (lg_nextAddress l) true.

(** [push_back(MediaGraphPayloadCreditLease(account, value))] for each value:
    the addresses of the new leases, and the map. *)
Fixpoint grantLeases (account : Z) (bytes : list Z) (next : Z)
    (leases : gmap Z MediaGraphPayloadCreditLease) : list Z * gmap Z MediaGraphPayloadCreditLease :=
  match bytes with
  | [] => ([], leases)
  | b :: bytes' =>
      let '(ids, leases') := grantLeases account bytes' (next + 1) (<[next := mkLease account b]> leases) in
      (next :: ids, leases')
  end.

Definition addLeases (account : Z) (bytes : list Z) (l : Ledger) : list Z * Ledger :=
  let '(ids, leases) := grantLeases account bytes (lg_nextAddress l) (lg_leases l) in
  (ids, setLeases leases (lg_nextAddress l + Z.of_nat (length bytes)) l).

(** ** Waiters *)

Definition objectsOf (p : Pending) : Z := Z.of_nat (length (pn_bytes p)).

Definition sameDemand (p : Pending) (bytes : list Z) : bool := bool_decide (pn_bytes p = bytes).

(** [fits], for a demand of [totalBytes] in [objects] objects. *)
Definition fitsDemand (plan : MediaGraphPayloadCreditPlan) (s : MediaGraphPayloadCreditSnapshot)
    (totalBytes objects : Z) : bool :=
  (totalBytes <=? maximumBytes plan) && (sn_currentBytes s <=? maximumBytes plan - totalBytes) &&
  (objects <=? maximumObjects plan) && (sn_currentObjects s <=? maximumObjects plan - objects).

Definition fits (plan : MediaGraphPayloadCreditPlan) (s : MediaGraphPayloadCreditSnapshot) (p : Pending) : bool :=
  fitsDemand plan s (pn_totalBytes p) (objectsOf p).

Definition grant (p : Pending) : Pending :=
  mkPending (pn_producer p) (pn_bytes p) (pn_totalBytes p) (pn_wakeup p) true.

(** The loop of [promoteOne]: [before] are the waiters passed over. *)
Fixpoint promoteLoop (alive : gset Z) (plan : MediaGraphPayloadCreditPlan)
    (s : MediaGraphPayloadCreditSnapshot) (before rest : list Pending) :
    list Pending * MediaGraphPayloadCreditSnapshot * option Z :=
  match rest with
  | [] => (before, s, None)
  | p :: rest' =>
      if negb (bool_decide (pn_wakeup p ∈ alive)) then
        let s := if pn_granted p then subCurrent (pn_totalBytes p) (objectsOf p) s else s in
        promoteLoop alive plan s before rest'
      else if pn_granted p || negb (fits plan s p) then
        promoteLoop alive plan s (before ++ [p]) rest'
      else (before ++ grant p :: rest', addCurrent (pn_totalBytes p) (objectsOf p) s, Some (pn_wakeup p))
  end.

Definition promoteOne (alive : gset Z) (a : Account) : Account * option Z :=
  let '(ws, s, wakeup) := promoteLoop alive (ac_plan a) (ac_snapshot a) [] (ac_waiters a) in
  (setWaiters ws (setSnapshot s a), wakeup).

(** [while (auto wakeup = promoteOne(state)) wakeup->notify();] *)
Fixpoint promoteAll (fuel : nat) (alive : gset Z) (a : Account) : Account * list Z :=
  match fuel with
  | O => (a, [])
  | S fuel' =>
      match promoteOne alive a with
      | (a', None) => (a', [])
      | (a', Some wakeup) => let '(a'', ws) := promoteAll fuel' alive a' in (a'', wakeup :: ws)
      end
  end.

Definition cancelAccount (address : Z) (l : Ledger) : Ledger :=
  match lg_accounts l !! address with
  | None => l
  | Some a =>
      let s := foldl (fun s p => if pn_granted p then subCurrent (pn_totalBytes p) (objectsOf p) s else s)
                 (ac_snapshot a) (ac_waiters a) in
      let notified := List.filter (fun w => bool_decide (w ∈ lg_wakeups l)) (pn_wakeup <$> ac_waiters a) in
      publishAccount address a (mkAccount (ac_plan a) (ac_fixedStorageBytes a) s [] true) (notify notified l)
  end.

(** ** Owners *)

Definition expired (l : Ledger) (address : Z) : bool :=
  negb ((address =? initialAccount) ||
        bool_decide (map_Exists (fun _ lease => le_account lease = address) (lg_leases l)) ||
        bool_decide (map_Exists (fun _ account => account = address) (lg_branches l)) ||
        bool_decide (map_Exists (fun _ r => r.1 = address) (lg_retentions l))).

(** [weak.lock()] on the branch accounts, in order. *)
Definition liveBranches (l : Ledger) : list Account :=
  omap (fun address => if expired l address then None else lg_accounts l !! address) (lg_branchAccounts l).

Definition hasProducer (plan : MediaGraphPayloadCreditPlan) (producer : Z) : bool :=
  existsb (fun strategy => producerNodeId strategy =? producer) (producers plan).

Definition accountForProducer (producer : Z) (l : Ledger) : Result Z :=
  match lg_producerAccounts l !! producer with
  | Some account =>
      if expired l account
      then failure (cancelled "payload producer belongs to a retired output branch")
      else Success account
  | None =>
      if hasProducer (lg_plan l) producer then Success initialAccount
      else failure (invalidArgument "payload producer has no admitted account")
  end.

(** ** Admission *)

Definition create (plan : MediaGraphPayloadCreditPlan) (wakeups : gset Z) : Result Ledger :=
  if negb (isCompleteAndValid plan)
  then failure (invalidArgument
         "graph payload credit plan requires bounded bytes, objects, unit, and authority")
  else Success (mkLedger plan {[initialAccount := newAccount plan 0]} emptySnapshot [] ∅ ∅ ∅ ∅ wakeups []
                  1 false).

(** [accumulate]: adds a pair of bounds, refusing a sum above 64 bits. *)
Definition accumulate (total : Z * Z) (bytes objects : Z) : option (Z * Z) :=
  if (uint64_max - total.1 <? bytes) || (uint64_max - total.2 <? objects) then None
  else Some (total.1 + bytes, total.2 + objects).

Fixpoint accumulateAccounts (total : Z * Z) (accounts : list Account) : option (Z * Z) :=
  match accounts with
  | [] => Some total
  | a :: accounts' =>
      match accumulate total (admittedBytes a) (maximumObjects (ac_plan a)) with
      | None => None
      | Some total' => accumulateAccounts total' accounts'
      end
  end.

Definition eraseExpired (l : Ledger) : list Z := List.filter (fun a => negb (expired l a)) (lg_branchAccounts l).

(** [producers.emplace(producer.nodeId.value, account)]: an entry that is there
    stays. *)
Definition emplaceProducers (account : Z) (strategies : list MediaGraphPayloadProducerStrategy)
    (m : gmap Z Z) : gmap Z Z :=
  foldl (fun m strategy => match m !! producerNodeId strategy with
                           | Some _ => m
                           | None => <[producerNodeId strategy := account]> m
                           end) m strategies.

(** Publishes an account with a branch reservation that owns it; the result is
    the address of the reservation. *)
Definition admitBranch (a : Account) (plan : MediaGraphPayloadCreditPlan) (accounts : gmap Z Account)
    (branchAccounts : list Z) (producerAccounts : gmap Z Z) (l : Ledger) : Z * Ledger :=
  let account := lg_nextAddress l in
  let reservation := lg_nextAddress l + 1 in
  (reservation,
   mkLedger plan (<[account := a]> accounts) (lg_aggregate l) (branchAccounts ++ [account])
     (emplaceProducers account (producers (ac_plan a)) producerAccounts) (lg_leases l)
     (<[reservation := account]> (lg_branches l)) (lg_retentions l) (lg_wakeups l) (lg_notified l)
     (lg_nextAddress l + 2) (lg_terminated l)).

Definition producerInUse (l : Ledger) (producer : Z) : bool :=
  match lg_producerAccounts l !! producer with Some account => negb (expired l account) | None => false end ||
  hasProducer (lg_plan l) producer.

Definition reserveBranch (plan : MediaGraphPayloadCreditPlan) : StateResult Ledger Z :=
  fun l =>
  if negb (isCompleteAndValid plan)
  then (failure (invalidArgument "branch admission requires a complete planner payload contract"), l)
  else if existsb (fun p => producerInUse l (producerNodeId p)) (producers plan)
  then (failure (invalidArgument "branch admission cannot reuse an existing payload producer ID"), l)
  else match lg_accounts l !! initialAccount with
  | None => (failure (internalError "no initial account"), l)
  | Some main =>
      if ac_cancelled main
      then (failure (cancelled "branch admission cannot revive a terminated session"), l)
      else match accumulateAccounts (0, 0) (main :: liveBranches l) with
      | None => (failure (invalidArgument "session admitted payload budget is not representable"), l)
      | Some total =>
          match accumulate total (maximumBytes plan) (maximumObjects plan) with
          | None => (failure (invalidArgument "branch would overflow the session admitted payload budget"), l)
          | Some _ =>
              let '(reservation, l') :=
                admitBranch (newAccount plan 0) (lg_plan l) (lg_accounts l) (eraseExpired l)
                  (filter (fun kv => expired l kv.2 = false) (lg_producerAccounts l)) l in
              (Success reservation, l')
          end
      end
  end.

(** [sameIdentity] is [sameProducer]; [equivalent] compares the contracts too. *)
Definition equivalentFrameCredit (a b : option MediaFrameCreditContract) : bool :=
  match a, b with
  | Some x, Some y =>
      bool_decide (allocationScope x = allocationScope y) &&
      (maximumLogicalBytes x =? maximumLogicalBytes y) &&
      (maximumObjectsPerAllocation x =? maximumObjectsPerAllocation y)
  | None, None => true
  | _, _ => false
  end.

Definition equivalentProducer (a b : MediaGraphPayloadProducerStrategy) : bool :=
  sameProducer a b && bool_decide (accounting a = accounting b) &&
  (maximumReservationBytes a =? maximumReservationBytes b) &&
  equivalentFrameCredit (frameCredit a) (frameCredit b).

Definition untouched (a : Account) : bool :=
  (sn_currentBytes (ac_snapshot a) =? 0) && (sn_currentObjects (ac_snapshot a) =? 0) &&
  (sn_reservations (ac_snapshot a) =? 0) && isNil (ac_waiters a).

Definition extractInitialBranch (sharedPlan outputPlan : MediaGraphPayloadCreditPlan) : StateResult Ledger Z :=
  fun l =>
  if negb (isCompleteAndValid sharedPlan) || negb (isCompleteAndValid outputPlan)
  then (failure (invalidArgument "initial payload partition requires two complete planner contracts"), l)
  else match lg_accounts l !! initialAccount with
  | None => (failure (internalError "no initial account"), l)
  | Some main =>
      if negb (isNil (lg_branchAccounts l)) || negb (bool_decide (lg_producerAccounts l = ∅)) ||
         ac_cancelled main || negb (maximumObjects (ac_plan main) =? maximumObjects (lg_plan l)) ||
         negb (maximumBytes (ac_plan main) =? maximumBytes (lg_plan l)) || negb (untouched main)
      then (failure (invalidArgument
              "initial payload partition is only legal before any reservation or execution"), l)
      else if negb (Nat.eqb (length (producers sharedPlan) + length (producers outputPlan))
                      (length (producers (lg_plan l))))
      then (failure (invalidArgument
              "initial payload partition must cover the exact original producer registry"), l)
      else if existsb (fun shared => hasProducer outputPlan (producerNodeId shared)) (producers sharedPlan)
      then (failure (invalidArgument "initial payload producer node cannot belong to both accounts"), l)
      else if existsb (fun p => negb (existsb (fun original => equivalentProducer original p)
                                        (producers (lg_plan l))))
                (producers sharedPlan ++ producers outputPlan)
      then (failure (invalidArgument "initial payload partition changed an original producer contract"), l)
      else if (uint64_max - maximumBytes sharedPlan <? maximumBytes outputPlan) ||
              (uint64_max - maximumObjects sharedPlan <? maximumObjects outputPlan)
      then (failure (invalidArgument "initial payload partition total is not representable"), l)
      else
        let '(reservation, l') :=
          admitBranch (newAccount outputPlan 0) sharedPlan
            (<[initialAccount := setPlan sharedPlan main]> (lg_accounts l)) [] ∅ l in
        (Success reservation, l')
  end.

Inductive FixedStorageAdmission := Additional | InitialPartition.

(** The loop over the live accounts. *)
Fixpoint admitLoop (initial : bool) (total : Z) (live : list Account) : Status :=
  match live with
  | [] => Success tt
  | a :: live' =>
      if initial && (ac_cancelled a || negb (untouched a))
      then failure (invalidArgument "initial fixed storage partition must precede payload execution")
      else if uint64_max - total <? admittedBytes a
      then failure (invalidArgument "fixed storage would overflow the session admitted budget")
      else admitLoop initial (total + admittedBytes a) live'
  end.

Definition admitFixedStorage (bytes : Z) (admission : FixedStorageAdmission) : StateResult Ledger Z :=
  fun l =>
  if bytes =? 0
  then (failure (invalidArgument "fixed storage admission requires a nonzero planner storage product"), l)
  else match lg_accounts l !! initialAccount with
  | None => (failure (internalError "no initial account"), l)
  | Some main =>
      let initial := match admission with InitialPartition => true | Additional => false end in
      if ac_cancelled main
      then (failure (cancelled "fixed storage admission cannot revive a terminated session"), l)
      else match admitLoop initial (if initial then 0 else bytes) (main :: liveBranches l) with
      | Failure e => (Failure e, l)
      | Success _ =>
          if initial && ((maximumBytes (ac_plan main) <=? bytes) ||
                         negb (maximumBytes (ac_plan main) =? maximumBytes (lg_plan l)) ||
                         negb (maximumObjects (ac_plan main) =? maximumObjects (lg_plan l)))
          then (failure (invalidArgument
                  "initial fixed storage must be included in the unchanged source account"), l)
          else
            let shrink p := setPlanBounds (u64 (maximumBytes p - bytes)) (maximumObjects p) p in
            let main' := if initial then setPlan (shrink (ac_plan main)) main else main in
            let plan' := if initial then shrink (lg_plan l) else lg_plan l in
            let '(reservation, l') :=
              admitBranch (newAccount emptyPlan bytes) plan'
                (<[initialAccount := main']> (lg_accounts l)) (eraseExpired l) (lg_producerAccounts l) l in
            (Success reservation, l')
      end
  end.

Definition reserveFixedStorage (bytes : Z) : StateResult Ledger Z := admitFixedStorage bytes Additional.
Definition extractInitialFixedStorage (bytes : Z) : StateResult Ledger Z :=
  admitFixedStorage bytes InitialPartition.

(** The destructor of [MediaGraphPayloadBranchReservation]. *)
Definition dropBranch (reservation : Z) (l : Ledger) : Ledger :=
  match lg_branches l !! reservation with
  | None => l
  | Some account =>
      let l := cancelAccount account l in
      mkLedger (lg_plan l) (lg_accounts l) (lg_aggregate l) (lg_branchAccounts l) (lg_producerAccounts l)
        (lg_leases l) (delete reservation (lg_branches l)) (lg_retentions l) (lg_wakeups l) (lg_notified l)
        (lg_nextAddress l) (lg_terminated l)
  end.

Definition setRetentions (retentions : gmap Z (Z * MediaGraphPayloadRetentionGrowth)) (next : Z)
    (l : Ledger) : Ledger :=
  mkLedger (lg_plan l) (lg_accounts l) (lg_aggregate l) (lg_branchAccounts l) (lg_producerAccounts l)
    (lg_leases l) (lg_branches l) retentions (lg_wakeups l) (lg_notified l) next (lg_terminated l).

Definition reserveRetentionGrowth (growth : MediaGraphPayloadRetentionGrowth) : StateResult Ledger Z :=
  fun l =>
  if negb (idValid (gr_sourceAccountProducer growth)) || (gr_additionalObjects growth =? 0)
  then (failure (invalidArgument
          "Retention growth requires an existing producer and additional live-reference objects"), l)
  else match accountForProducer (gr_sourceAccountProducer growth) l with
  | Failure e => (failure e, l)
  | Success address =>
      match lg_accounts l !! initialAccount, lg_accounts l !! address with
      | Some main, Some target =>
          match accumulateAccounts (gr_additionalBytes growth, gr_additionalObjects growth)
                  (main :: liveBranches l) with
          | None => (failure (invalidArgument "Retention growth overflows the session payload budget"), l)
          | Some _ =>
              if ac_cancelled target
              then (failure (cancelled "Retention growth cannot revive a retired producer account"), l)
              else
                let plan := setPlanBounds (u64 (maximumBytes (ac_plan target) + gr_additionalBytes growth))
                              (u64 (maximumObjects (ac_plan target) + gr_additionalObjects growth))
                              (ac_plan target) in
                let '(target', notified) :=
                  promoteAll (S (length (ac_waiters target))) (lg_wakeups l) (setPlan plan target) in
                let reservation := lg_nextAddress l in
                (Success reservation,
                 setRetentions (<[reservation := (address, growth)]> (lg_retentions l)) (reservation + 1)
                   (notify notified (publishAccount address target target' l)))
          end
      | _, _ => (failure (internalError "no account"), l)
      end
  end.

(** The destructor of [MediaGraphPayloadRetentionReservation]. *)
Definition dropRetention (reservation : Z) (l : Ledger) : Ledger :=
  match lg_retentions l !! reservation with
  | None => l
  | Some (address, growth) =>
      let l' := setRetentions (delete reservation (lg_retentions l)) (lg_nextAddress l) l in
      match lg_accounts l !! address with
      | None => l'
      | Some a =>
          let plan := setPlanBounds (u64 (maximumBytes (ac_plan a) - gr_additionalBytes growth))
                        (u64 (maximumObjects (ac_plan a) - gr_additionalObjects growth)) (ac_plan a) in
          setAccounts (<[address := setPlan plan a]> (lg_accounts l')) (lg_aggregate l') l'
      end
  end.

(** ** Leases *)

(** The checks on a demand: every value within the unit, a representable sum. *)
Fixpoint sumDemand (unitBytes : Z) (overUnit overflow : string) (total : Z) (bytes : list Z) : Result Z :=
  match bytes with
  | [] => Success total
  | value :: bytes' =>
      if unitBytes <? value then failure (invalidArgument overUnit)
      else if uint64_max - total <? value then failure (invalidArgument overflow)
      else sumDemand unitBytes overUnit overflow (total + value) bytes'
  end.

Definition tryReserveBatch (bytes : list Z) : StateResult Ledger (list Z) :=
  fun l =>
  if isNil bytes then (failure (invalidArgument "graph payload credit batch reservation is empty"), l)
  else match sumDemand (maximumUnitBytes (lg_plan l))
               "graph payload credit reservation exceeds its unit contract"
               "graph payload credit batch byte total is not representable" 0 bytes with
  | Failure e => (Failure e, l)
  | Success totalBytes =>
      match lg_accounts l !! initialAccount with
      | None => (failure (internalError "no initial account"), l)
      | Some main =>
          if ac_cancelled main
          then (failure (cancelled "graph payload credit admission was cancelled"), l)
          else if negb (fitsDemand (ac_plan main) (ac_snapshot main) totalBytes (Z.of_nat (length bytes)))
          then (failure (wouldBlock "graph payload credit ledger is at its planner hard bound"),
                publishAccount initialAccount main
                  (setSnapshot (countPressure (ac_snapshot main)) main) l)
          else
            let objects := Z.of_nat (length bytes) in
            let '(ids, l') := addLeases initialAccount bytes l in
            (Success ids,
             publishAccount initialAccount main
               (setSnapshot (addReservations objects (addCurrent totalBytes objects (ac_snapshot main))) main) l')
      end
  end.

Definition tryReserve (bytes : Z) : StateResult Ledger Z :=
  let! leases := tryReserveBatch [bytes] in
  match leases with
  | lease :: _ => retState lease
  | [] => failState (internalError "empty batch")
  end.

(** [waiters.erase(existing)]. *)
Fixpoint eraseWaiter (producer : Z) (ws : list Pending) : list Pending :=
  match ws with
  | [] => []
  | p :: ws' => if pn_producer p =? producer then ws' else p :: eraseWaiter producer ws'
  end.

Definition notifyOption (wakeup : option Z) (l : Ledger) : Ledger :=
  match wakeup with Some w => notify [w] l | None => l end.

Definition tryReserveOrArm (producer : Z) (bytes : list Z) (wakeup : option Z) : StateResult Ledger (list Z) :=
  fun l =>
  match wakeup with
  | None => (failure (invalidArgument "graph payload waiter requires producer, demand, and wake handle"), l)
  | Some wakeup =>
  if negb (idValid producer) || isNil bytes
  then (failure (invalidArgument "graph payload waiter requires producer, demand, and wake handle"), l)
  else match accountForProducer producer l with
  | Failure e => (failure e, l)
  | Success address =>
  match lg_accounts l !! address with
  | None => (failure (internalError "no account"), l)
  | Some account =>
      match sumDemand (maximumUnitBytes (ac_plan account))
              "graph payload waiter demand exceeds its unit contract"
              "graph payload waiter demand exceeds its unit contract" 0 bytes with
      | Failure e => (Failure e, l)
      | Success totalBytes =>
          if ac_cancelled account
          then (failure (cancelled "graph payload credit waiters were cancelled"), l)
          else match findFirst (fun p => pn_producer p =? producer) (ac_waiters account) with
          | Some existing =>
              if negb (sameDemand existing bytes)
              then (failure (invalidArgument "graph payload producer changed an armed demand"), l)
              else if negb (pn_granted existing)
              then (failure (wouldBlock "graph payload producer already has an armed waiter"), l)
              else
                let '(ids, l') := addLeases address (pn_bytes existing) l in
                let '(account', next) := promoteOne (lg_wakeups l)
                  (setWaiters (eraseWaiter producer (ac_waiters account))
                     (setSnapshot (addReservations (objectsOf existing) (ac_snapshot account)) account)) in
                (Success ids, notifyOption next (publishAccount address account account' l'))
          | None =>
              let pending := mkPending producer bytes totalBytes wakeup false in
              let objects := objectsOf pending in
              if fits (ac_plan account) (ac_snapshot account) pending then
                let '(ids, l') := addLeases address bytes l in
                (Success ids,
                 publishAccount address account
                   (setSnapshot (addReservations objects (addCurrent totalBytes objects (ac_snapshot account)))
                      account) l')
              else
                (failure (wouldBlock "graph payload credit waiter armed at its planner hard bound"),
                 publishAccount address account
                   (setWaiters (ac_waiters account ++ [pending])
                      (setSnapshot (countPressure (ac_snapshot account)) account)) l)
          end
      end
  end
  end
  end.

Definition shrinkTo (lease : Z) (bytes : Z) : StateResult Ledger unit :=
  fun l =>
  match lg_leases l !! lease with
  | None => (failure (invalidArgument "graph payload credit lease only permits shrinking"), l)
  | Some held =>
      if le_bytes held <? bytes
      then (failure (invalidArgument "graph payload credit lease only permits shrinking"), l)
      else match lg_accounts l !! le_account held with
      | None => (failure (internalError "no account"), l)
      | Some a =>
          let released := le_bytes held - bytes in
          if sn_currentBytes (ac_snapshot a) <? released
          then (failure (internalError "graph payload credit accounting underflowed while shrinking"), l)
          else
            let a1 := setSnapshot (subCurrent released 0 (ac_snapshot a)) a in
            let '(a', wakeup) := if 0 <? released then promoteOne (lg_wakeups l) a1 else (a1, None) in
            let l' := setLeases (<[lease := mkLease (le_account held) bytes]> (lg_leases l)) (lg_nextAddress l) l in
            (Success tt, notifyOption wakeup (publishAccount (le_account held) a a' l'))
      end
  end.

(** [release], called by the destructor and by the move assignment. *)
Definition release (lease : Z) (l : Ledger) : Ledger :=
  match lg_leases l !! lease with
  | None => l
  | Some held =>
      match lg_accounts l !! le_account held with
      | None => l
      | Some a =>
          if (sn_currentBytes (ac_snapshot a) <? le_bytes held) || (sn_currentObjects (ac_snapshot a) =? 0)
          then terminate l
          else
            let a1 := setSnapshot (countRelease (subCurrent (le_bytes held) 1 (ac_snapshot a))) a in
            let '(a', wakeup) := promoteOne (lg_wakeups l) a1 in
            let l' := setLeases (delete lease (lg_leases l)) (lg_nextAddress l) l in
            notifyOption wakeup (publishAccount (le_account held) a a' l')
      end
  end.

(** [target = std::move(source)], where [target] and [source] are the holdings
    of the two objects: the holding of the target is released, and the target
    object now has the holding of the source, under its name. *)
Definition moveAssign (target source : Z) (l : Ledger) : Ledger :=
  if target =? source then l else release target l.

Definition cancelBlockedWaiters (l : Ledger) : Ledger :=
  foldl (fun l' address => if expired l address then l' else cancelAccount address l')
    (cancelAccount initialAccount l) (lg_branchAccounts l).

Definition snapshot (l : Ledger) : MediaGraphPayloadCreditSnapshot :=
  let add s a := mkSnapshot (u64 (sn_admittedMaximumBytes s + admittedBytes a))
    (u64 (sn_admittedMaximumObjects s + maximumObjects (ac_plan a))) (sn_currentBytes s)
    (sn_currentObjects s) (sn_highWaterBytes s) (sn_highWaterObjects s) (sn_reservations s)
    (sn_releases s) (sn_pressureFailures s) in
  let g := lg_aggregate l in
  let start := match lg_accounts l !! initialAccount with
    | Some main => mkSnapshot (admittedBytes main) (maximumObjects (ac_plan main)) (sn_currentBytes g)
        (sn_currentObjects g) (sn_highWaterBytes g) (sn_highWaterObjects g) (sn_reservations g)
        (sn_releases g) (sn_pressureFailures g)
    | None => g
    end in
  foldl add start (liveBranches l).

(** ** Producer reservations ([MediaGraphPayloadReservation]) *)

Record MediaGraphPayloadReservation := mkPayloadReservation {
  pr_accounting : MediaGraphPayloadAllocationAccounting;
  pr_maximumReservationBytes : Z;
  pr_lease : option Z;
  pr_nonRealtimeNotApplicable : bool;
}.

(** [m_lease && *m_lease]. *)
Definition activeLease (r : MediaGraphPayloadReservation) (l : Ledger) : option Z :=
  match pr_lease r with
  | Some lease => match lg_leases l !! lease with Some _ => Some lease | None => None end
  | None => None
  end.

Definition shrinkToActual (r : MediaGraphPayloadReservation) (bytes : Z) : StateResult Ledger unit :=
  fun l =>
  if pr_nonRealtimeNotApplicable r then (Success tt, l)
  else match activeLease r l with
  | None => (failure (notInitialized "payload producer has no active prepared reservation"), l)
  | Some lease =>
      if (bytes =? 0) || (pr_maximumReservationBytes r <? bytes)
      then (failure (invalidArgument
              ("payload producer footprint=" +:+ pretty bytes +:+
               " bytes is outside prepared single-unit bound=1.." +:+
               pretty (pr_maximumReservationBytes r) +:+ " bytes")), l)
      else if bool_decide (pr_accounting r = Accounting_ObservedOnlyExternalBytesAndEngineManagedObject)
      then (Success tt, l)
      else shrinkTo lease bytes l
  end.

(** [MediaBuffer::attachPayloadCredit]: the credit of a buffer and the
    reservation after the call. *)
Definition attachPayloadCredit (credit : option Z) (l : Ledger) (bufferCredit : option Z) :
    Status * option Z :=
  match credit with
  | Some lease =>
      if bool_decide (is_Some (lg_leases l !! lease)) && negb (bool_decide (is_Some bufferCredit))
      then (Success tt, Some lease)
      else (failure (invalidArgument "media buffer requires one active payload credit reservation"), bufferCredit)
  | None => (failure (invalidArgument "media buffer requires one active payload credit reservation"), bufferCredit)
  end.

(** [shareWithAliasingBuffer] keeps the reservation; [attachTo] moves its lease
    into the call. *)
Definition shareWithAliasingBuffer (r : MediaGraphPayloadReservation) (l : Ledger) (bufferCredit : option Z) :
    Status * option Z :=
  if pr_nonRealtimeNotApplicable r then (Success tt, bufferCredit)
  else match activeLease r l with
  | None => (failure (notInitialized "payload reservation has no active alias credit lease"), bufferCredit)
  | Some _ => attachPayloadCredit (pr_lease r) l bufferCredit
  end.

(** When the buffer refuses, the moved lease is destroyed with the argument:
    it is released unless another owner shares it. *)
Definition attachTo (r : MediaGraphPayloadReservation) (soleOwner : bool) (bufferCredit : option Z) (l : Ledger) :
    Status * option Z * MediaGraphPayloadReservation * Ledger :=
  if pr_nonRealtimeNotApplicable r then (Success tt, bufferCredit, r, l)
  else match activeLease r l with
  | None => (failure (notInitialized "payload reservation has no active credit lease"), bufferCredit, r, l)
  | Some lease =>
      let r' := mkPayloadReservation (pr_accounting r) (pr_maximumReservationBytes r) None false in
      let '(status, bufferCredit') := attachPayloadCredit (pr_lease r) l bufferCredit in
      (status, bufferCredit', r', if negb (resultOk status) && soleOwner then release lease l else l)
  end.

Definition reservationActive (r : MediaGraphPayloadReservation) (l : Ledger) : bool :=
  pr_nonRealtimeNotApplicable r || bool_decide (is_Some (activeLease r l)).

(** ** Schedules of calls *)

Inductive Call :=
  | CallReserveBatch (bytes : list Z)
  | CallReserveOrArm (producer : Z) (bytes : list Z) (wakeup : option Z)
  | CallShrink (lease bytes : Z)
  | CallRelease (lease : Z)
  | CallMove (target source : Z)
  | CallReserveBranch (plan : MediaGraphPayloadCreditPlan)
  | CallExtractBranch (sharedPlan outputPlan : MediaGraphPayloadCreditPlan)
  | CallFixedStorage (bytes : Z) (admission : FixedStorageAdmission)
  | CallDropBranch (reservation : Z)
  | CallRetention (growth : MediaGraphPayloadRetentionGrowth)
  | CallDropRetention (reservation : Z)
  | CallCancel
  | CallDropWakeup (wakeup : Z).

(** The last owner of a wake handle goes away. *)
Definition dropWakeup (wakeup : Z) (l : Ledger) : Ledger :=
  mkLedger (lg_plan l) (lg_accounts l) (lg_aggregate l) (lg_branchAccounts l) (lg_producerAccounts l)
    (lg_leases l) (lg_branches l) (lg_retentions l) (lg_wakeups l ∖ {[wakeup]}) (lg_notified l)
    (lg_nextAddress l) (lg_terminated l).

Definition perform (call : Call) (l : Ledger) : Ledger :=
  match call with
  | CallReserveBatch bytes => (tryReserveBatch bytes l).2
  | CallReserveOrArm producer bytes wakeup => (tryReserveOrArm producer bytes wakeup l).2
  | CallShrink lease bytes => (shrinkTo lease bytes l).2
  | CallRelease lease => release lease l
  | CallMove target source => moveAssign target source l
  | CallReserveBranch plan => (reserveBranch plan l).2
  | CallExtractBranch sharedPlan outputPlan => (extractInitialBranch sharedPlan outputPlan l).2
  | CallFixedStorage bytes admission => (admitFixedStorage bytes admission l).2
  | CallDropBranch reservation => dropBranch reservation l
  | CallRetention growth => (reserveRetentionGrowth growth l).2
  | CallDropRetention reservation => dropRetention reservation l
  | CallCancel => cancelBlockedWaiters l
  | CallDropWakeup wakeup => dropWakeup wakeup l
  end.

Definition run (calls : list Call) (l : Ledger) : Ledger := foldl (fun l call => perform call l) l calls.

End MediaGraphPayloadCreditLedger.
