(* ===== verification/CreditInvariant.v ===== *)
(** * Conservation of payload credit

    What every schedule of calls on a credit ledger keeps: the credit in use on
    an account is what its live leases and its granted waiters hold, the
    session aggregate is the sum over the accounts, admitted bounds are
    respected, and no call reaches [std::terminate]; and which waiters a release
    wakes up. *)

From stdpp Require Import gmap.
From S2P Require Import Prelude MediaResult Model CreditLedger.
Import MediaGraphPayloadCreditLedger.

Local Open Scope Z_scope.

Module MediaCreditInvariant.

(** ** Sums over maps *)

Definition mapSum {V} (f : V -> Z) (m : gmap Z V) : Z := map_fold (fun _ v total => f v + total) 0 m.

Section MapSum.
Context {V : Type} (f : V -> Z).

Lemma mapSum_empty : mapSum f ∅ = 0.
Proof. apply map_fold_empty. Qed.

Lemma mapSum_insert m i v : m !! i = None -> mapSum f (<[i := v]> m) = f v + mapSum f m.
Proof. intros Hi. unfold mapSum.
  apply (map_fold_insert_L (fun _ v total => f v + total)); [intros; lia | done].
Qed.

Lemma mapSum_delete m i v : m !! i = Some v -> mapSum f m = f v + mapSum f (delete i m).
Proof. intros Hi. unfold mapSum. apply (map_fold_delete_L (fun _ v total => f v + total)); [intros; lia | done]. Qed.

Lemma mapSum_update m i v v' : m !! i = Some v -> mapSum f (<[i := v']> m) = mapSum f m - f v + f v'.
Proof.
  intros Hi. rewrite <- insert_delete_eq, mapSum_insert by apply lookup_delete_eq.
  rewrite (mapSum_delete m i v Hi). lia.
Qed.

Lemma mapSum_nonneg m : (forall i v, m !! i = Some v -> 0 <= f v) -> 0 <= mapSum f m.
Proof.
  induction m as [| i v m Hi IH] using map_ind; intros H; [by rewrite mapSum_empty |].
  rewrite mapSum_insert by done. pose proof (H i v (lookup_insert_eq _ _ _)).
  enough (0 <= mapSum f m) by lia. apply IH. intros j w Hj. apply (H j).
  rewrite lookup_insert_ne; [done |]. intros ->. congruence.
Qed.

Lemma mapSum_ge m i v : m !! i = Some v -> (forall i v, m !! i = Some v -> 0 <= f v) -> f v <= mapSum f m.
Proof.
  intros Hi H. rewrite (mapSum_delete m i v Hi).
  enough (0 <= mapSum f (delete i m)) by lia. apply mapSum_nonneg.
  intros j w [_ Hj]%lookup_delete_Some. by eapply H.
Qed.

Lemma mapSum_zero m : (forall i v, m !! i = Some v -> f v = 0) -> mapSum f m = 0.
Proof.
  induction m as [| i v m Hi IH] using map_ind; intros H; [apply mapSum_empty |].
  rewrite mapSum_insert by done. rewrite (H i v (lookup_insert_eq _ _ _)). rewrite IH; [done |].
  intros j w Hj. apply (H j). rewrite lookup_insert_ne; [done |]. intros ->. congruence.
Qed.

End MapSum.

(** ** Sums over waiters and leases *)

Definition listSum (l : list Z) : Z := foldr Z.add 0 l.

Lemma listSum_app l1 l2 : listSum (l1 ++ l2) = listSum l1 + listSum l2.
Proof. induction l1 as [| x l1 IH]; simpl; [lia |]. fold (listSum (l1 ++ l2)) (listSum l1). lia. Qed.

Lemma listSum_nonneg l : Forall (fun x => 0 <= x) l -> 0 <= listSum l.
Proof. induction 1 as [| x l Hx _ IH]; simpl; [lia |]. fold (listSum l). lia. Qed.

(** Bytes and objects of the granted waiters. *)
Definition grantedBytes (ws : list Pending) : Z :=
  listSum ((fun p => if pn_granted p then pn_totalBytes p else 0) <$> ws).
Definition grantedObjects (ws : list Pending) : Z :=
  listSum ((fun p => if pn_granted p then objectsOf p else 0) <$> ws).

Definition leaseBytes (account : Z) (lease : MediaGraphPayloadCreditLease) : Z :=
  if le_account lease =? account then le_bytes lease else 0.
Definition leaseObjects (account : Z) (lease : MediaGraphPayloadCreditLease) : Z :=
  if le_account lease =? account then 1 else 0.

Definition growthBytes (account : Z) (r : Z * MediaGraphPayloadRetentionGrowth) : Z :=
  if r.1 =? account then gr_additionalBytes r.2 else 0.
Definition growthObjects (account : Z) (r : Z * MediaGraphPayloadRetentionGrowth) : Z :=
  if r.1 =? account then gr_additionalObjects r.2 else 0.

(** Unfolds the sums of a list of waiters cell by cell. *)
Lemma grantedBytes_app l1 l2 : grantedBytes (l1 ++ l2) = grantedBytes l1 + grantedBytes l2.
Proof. unfold grantedBytes. by rewrite fmap_app, listSum_app. Qed.
Lemma grantedObjects_app l1 l2 : grantedObjects (l1 ++ l2) = grantedObjects l1 + grantedObjects l2.
Proof. unfold grantedObjects. by rewrite fmap_app, listSum_app. Qed.
Lemma grantedBytes_cons p l :
  grantedBytes (p :: l) = (if pn_granted p then pn_totalBytes p else 0) + grantedBytes l.
Proof. done. Qed.
Lemma grantedObjects_cons p l :
  grantedObjects (p :: l) = (if pn_granted p then objectsOf p else 0) + grantedObjects l.
Proof. done. Qed.
Lemma grantedBytes_nil : grantedBytes [] = 0.
Proof. done. Qed.
Lemma grantedObjects_nil : grantedObjects [] = 0.
Proof. done. Qed.

Create HintDb credit.
#[export] Hint Rewrite grantedBytes_app grantedObjects_app grantedBytes_cons grantedObjects_cons
  grantedBytes_nil grantedObjects_nil : credit.

Ltac sums := autorewrite with credit in *; simpl in *.

(** ** The waiters of an account *)

Record waiterOk (p : Pending) : Prop := {
  wt_bytes : Forall (fun b => 0 <= b) (pn_bytes p);
  wt_total : pn_totalBytes p = listSum (pn_bytes p);
}.

Lemma waiterOk_total p : waiterOk p -> 0 <= pn_totalBytes p.
Proof. intros [H ->]. by apply listSum_nonneg. Qed.

Lemma granted_nonneg ws : Forall waiterOk ws -> 0 <= grantedBytes ws /\ 0 <= grantedObjects ws.
Proof.
  induction 1 as [| p ws Hp _ [IH1 IH2]]; [done |]. sums.
  pose proof (waiterOk_total p Hp). unfold objectsOf. destruct (pn_granted p); lia.
Qed.

(** An account's own bookkeeping: [lb] bytes and [lo] objects are held by
    leases. *)
Record accountOk (lb lo : Z) (a : Account) : Prop := {
  ac_bytes : sn_currentBytes (ac_snapshot a) = lb + grantedBytes (ac_waiters a);
  ac_objects : sn_currentObjects (ac_snapshot a) = lo + grantedObjects (ac_waiters a);
  ac_range : 0 <= sn_currentBytes (ac_snapshot a) <= uint64_max /\
             0 <= sn_currentObjects (ac_snapshot a) <= uint64_max;
  ac_planRange : 0 <= maximumBytes (ac_plan a) <= uint64_max /\ 0 <= maximumObjects (ac_plan a) <= uint64_max;
  ac_waitersOk : Forall waiterOk (ac_waiters a);
  ac_leases : 0 <= lb /\ 0 <= lo;
}.

Definition withinBounds (a : Account) : Prop :=
  sn_currentBytes (ac_snapshot a) <= maximumBytes (ac_plan a) /\
  sn_currentObjects (ac_snapshot a) <= maximumObjects (ac_plan a).

Lemma fitsDemand_spec plan s b o :
  fitsDemand plan s b o = true <->
  b <= maximumBytes plan /\ sn_currentBytes s <= maximumBytes plan - b /\
  o <= maximumObjects plan /\ sn_currentObjects s <= maximumObjects plan - o.
Proof. unfold fitsDemand. rewrite !andb_true_iff, !Z.leb_le. tauto. Qed.

(** Adding a demand that fits does not wrap. *)
Lemma addCurrent_fits plan s b o :
  fitsDemand plan s b o = true -> 0 <= b -> 0 <= o ->
  0 <= sn_currentBytes s -> 0 <= sn_currentObjects s ->
  maximumBytes plan <= uint64_max -> maximumObjects plan <= uint64_max ->
  sn_currentBytes (addCurrent b o s) = sn_currentBytes s + b /\
  sn_currentObjects (addCurrent b o s) = sn_currentObjects s + o /\
  sn_currentBytes (addCurrent b o s) <= maximumBytes plan /\
  sn_currentObjects (addCurrent b o s) <= maximumObjects plan.
Proof.
  intros (H1 & H2 & H3 & H4)%fitsDemand_spec Hb Ho Hcb Hco Hm1 Hm2. simpl.
  unfold u64. rewrite !Z.mod_small by (unfold uint64_max in *; lia). lia.
Qed.

Lemma subCurrent_within b o s :
  0 <= b <= sn_currentBytes s -> 0 <= o <= sn_currentObjects s ->
  sn_currentBytes s <= uint64_max -> sn_currentObjects s <= uint64_max ->
  sn_currentBytes (subCurrent b o s) = sn_currentBytes s - b /\
  sn_currentObjects (subCurrent b o s) = sn_currentObjects s - o.
Proof.
  intros Hb Ho H1 H2. simpl. unfold u64.
  rewrite !Z.mod_small by (unfold uint64_max in *; lia). lia.
Qed.

(** ** [promoteOne] keeps the books *)

(** The snapshot, read as the credit of leases and of a list of waiters. *)
Definition books (lb lo : Z) (s : MediaGraphPayloadCreditSnapshot) (ws : list Pending) : Prop :=
  sn_currentBytes s = lb + grantedBytes ws /\ sn_currentObjects s = lo + grantedObjects ws /\
  sn_currentBytes s <= uint64_max /\ sn_currentObjects s <= uint64_max.

Lemma promoteLoop_books alive plan lb lo s before rest ws s' wakeup :
  0 <= lb -> 0 <= lo -> maximumBytes plan <= uint64_max -> maximumObjects plan <= uint64_max ->
  Forall waiterOk before -> Forall waiterOk rest -> books lb lo s (before ++ rest) ->
  promoteLoop alive plan s before rest = (ws, s', wakeup) ->
  books lb lo s' ws /\ Forall waiterOk ws /\
  (sn_currentBytes s <= maximumBytes plan -> sn_currentObjects s <= maximumObjects plan ->
   sn_currentBytes s' <= maximumBytes plan /\ sn_currentObjects s' <= maximumObjects plan).
Proof.
  intros Hlb Hlo Hm1 Hm2 Hbef Hrest. revert s before Hbef.
  induction Hrest as [| p rest Hp Hrest IH]; intros s before Hbef Hbooks; cbn [promoteLoop].
  { intros [= <- <- _]. rewrite app_nil_r in Hbooks. done. }
  pose proof (granted_nonneg before Hbef) as [? ?]. pose proof (granted_nonneg rest Hrest) as [? ?].
  pose proof (waiterOk_total p Hp) as Ht. assert (Ho : 0 <= objectsOf p) by (unfold objectsOf; lia).
  destruct Hbooks as (B1 & B2 & B3 & B4). sums.
  destruct (negb _).
  - set (s1 := if pn_granted p then _ else s).
    assert (Hs1 : books lb lo s1 (before ++ rest) /\ sn_currentBytes s1 <= sn_currentBytes s /\
      sn_currentObjects s1 <= sn_currentObjects s).
    { unfold s1, books. sums. destruct (pn_granted p); [| lia].
      destruct (subCurrent_within (pn_totalBytes p) (objectsOf p) s) as [-> ->]; lia. }
    destruct Hs1 as (Hs1 & L1 & L2). intros E. destruct (IH s1 before Hbef Hs1 E) as (R1 & R2 & R3).
    split_and!; [done | done |]. intros. apply R3; lia.
  - destruct (pn_granted p || negb (fits plan s p)) eqn:Eg.
    + apply IH; [apply Forall_app; split; [done | by constructor] |].
      unfold books. sums. lia.
    + apply orb_false_iff in Eg as [Eg Ef%negb_false_iff]. intros [= <- <- _].
      destruct (addCurrent_fits plan s _ _ Ef) as (A1 & A2 & A3 & A4); try done;
        [rewrite Eg in *; lia.. |].
      split_and!.
      * unfold books. sums. rewrite Eg in *. unfold objectsOf in *. simpl. rewrite A1, A2.
        split_and!; try lia. 
      * apply Forall_app. split; [done |]. constructor; [| done]. destruct Hp. by split.
      * done.
Qed.

Lemma promoteOne_ok alive lb lo a a' wakeup :
  accountOk lb lo a -> promoteOne alive a = (a', wakeup) ->
  accountOk lb lo a' /\ ac_plan a' = ac_plan a /\ ac_fixedStorageBytes a' = ac_fixedStorageBytes a /\
  ac_cancelled a' = ac_cancelled a /\ (withinBounds a -> withinBounds a') /\
  (ac_waiters a = [] -> ac_waiters a' = []).
Proof.
  intros [B O R P W [Hlb Hlo]]. unfold promoteOne.
  destruct (promoteLoop _ _ _ _ _) as [[ws s] wk] eqn:E. intros [= <- <-].
  assert (Hbooks : books lb lo (ac_snapshot a) ([] ++ ac_waiters a)) by (unfold books; simpl; lia).
  destruct (promoteLoop_books _ _ lb lo _ _ _ _ _ _ Hlb Hlo (proj2 (proj1 P)) (proj2 (proj2 P)) (Forall_nil_2 _) W
    Hbooks E) as ((B1 & O1 & R1 & R2) & W1 & Hb).
  pose proof (granted_nonneg ws W1). split_and!; try done.
  - split; simpl; try done; lia.
  - intros [H1 H2]. unfold withinBounds in *. simpl. by apply Hb.
  - intros Hnil. simpl. rewrite Hnil in E. simpl in E. by injection E.
Qed.

Lemma promoteAll_ok fuel alive lb lo a a' ws :
  accountOk lb lo a -> promoteAll fuel alive a = (a', ws) ->
  accountOk lb lo a' /\ ac_plan a' = ac_plan a /\ ac_fixedStorageBytes a' = ac_fixedStorageBytes a /\
  ac_cancelled a' = ac_cancelled a /\ (withinBounds a -> withinBounds a') /\
  (ac_waiters a = [] -> ac_waiters a' = []).
Proof.
  revert a ws. induction fuel as [| fuel IH]; intros a ws Ha; simpl; [by intros [= <- <-] |].
  destruct (promoteOne alive a) as [a1 [w |]] eqn:E1;
    destruct (promoteOne_ok _ _ _ _ _ _ Ha E1) as (Ha1 & E2 & E3 & E4 & E5 & E6).
  - destruct (promoteAll fuel alive a1) as [a2 ws2] eqn:E. intros [= <- <-].
    destruct (IH _ _ Ha1 E) as (? & -> & -> & -> & ? & ?). split_and!; auto.
  - intros [= <- <-]. done.
Qed.

(** ** The invariant of a ledger *)

Record entryOk (strict : bool) (l : Ledger) (x : Z) (a : Account) : Prop := {
  en_address : 0 <= x < lg_nextAddress l;
  en_account : accountOk (mapSum (leaseBytes x) (lg_leases l)) (mapSum (leaseObjects x) (lg_leases l)) a;
  en_growth : mapSum (growthBytes x) (lg_retentions l) <= maximumBytes (ac_plan a) /\
              mapSum (growthObjects x) (lg_retentions l) <= maximumObjects (ac_plan a);
  en_bounds : strict = true -> withinBounds a;
  en_cancelled : ac_cancelled a = true -> ac_waiters a = [];
  en_listed : x = initialAccount \/ x ∈ lg_branchAccounts l \/ expired l x = true;
}.

Definition totalBytesOf (l : Ledger) : Z := mapSum (fun a => sn_currentBytes (ac_snapshot a)) (lg_accounts l).
Definition totalObjectsOf (l : Ledger) : Z := mapSum (fun a => sn_currentObjects (ac_snapshot a)) (lg_accounts l).

(** [strict] adds the hard bounds. *)
Record ledgerOk (strict : bool) (l : Ledger) : Prop := {
  lk_main : exists main, lg_accounts l !! initialAccount = Some main /\ ac_fixedStorageBytes main = 0 /\
    maximumBytes (ac_plan main) = maximumBytes (lg_plan l) + mapSum (growthBytes initialAccount) (lg_retentions l) /\
    maximumObjects (ac_plan main) =
      maximumObjects (lg_plan l) + mapSum (growthObjects initialAccount) (lg_retentions l);
  lk_accounts : forall x a, lg_accounts l !! x = Some a -> entryOk strict l x a;
  lk_leases : forall i lease, lg_leases l !! i = Some lease ->
    i < lg_nextAddress l /\ 0 <= le_bytes lease /\ is_Some (lg_accounts l !! le_account lease);
  lk_retentions : forall i r, lg_retentions l !! i = Some r ->
    i < lg_nextAddress l /\ is_Some (lg_accounts l !! r.1) /\ 0 <= gr_additionalBytes r.2 /\
    0 < gr_additionalObjects r.2;
  lk_branches : forall i x, lg_branches l !! i = Some x -> i < lg_nextAddress l /\ is_Some (lg_accounts l !! x);
  lk_producers : forall p x, lg_producerAccounts l !! p = Some x ->
    exists a, lg_accounts l !! x = Some a /\ ac_fixedStorageBytes a = 0;
  lk_aggregate : sn_currentBytes (lg_aggregate l) = u64 (totalBytesOf l) /\
                 sn_currentObjects (lg_aggregate l) = u64 (totalObjectsOf l);
  lk_running : lg_terminated l = false;
  lk_plan : 0 <= maximumBytes (lg_plan l) /\ 0 <= maximumObjects (lg_plan l);
}.

(** *** Owners *)

Lemma expired_spec l x :
  expired l x = false <-> x = initialAccount \/ (exists i lease, lg_leases l !! i = Some lease /\ le_account lease = x) \/
    (exists i, lg_branches l !! i = Some x) \/ (exists i r, lg_retentions l !! i = Some r /\ r.1 = x).
Proof.
  unfold expired. rewrite negb_false_iff, !orb_true_iff, Z.eqb_eq, !bool_decide_eq_true. unfold map_Exists.
  naive_solver.
Qed.

(** Addresses with an owner keep their entry. *)
Definition ownersFrom (l l' : Ledger) : Prop :=
  forall x, expired l' x = false -> expired l x = false.

Lemma ownersFrom_leases l l' :
  lg_branches l' = lg_branches l -> lg_retentions l' = lg_retentions l ->
  (forall i lease, lg_leases l' !! i = Some lease -> expired l (le_account lease) = false) -> ownersFrom l l'.
Proof.
  intros Hb Hr Hl x Hx. apply expired_spec in Hx as [-> | [(i & lease & Hi & <-) | Hx]].
  - apply expired_spec. by left.
  - by eapply Hl.
  - rewrite Hb, Hr in Hx. apply expired_spec. auto.
Qed.

Lemma lease_owner l i lease : lg_leases l !! i = Some lease -> expired l (le_account lease) = false.
Proof. intros Hi. apply expired_spec. right. left. eauto. Qed.

(** *** Publication *)

Lemma adjust_exact total before value : adjust total before value = u64 (total + value - before).
Proof. unfold adjust. destruct (before <=? value); f_equal; lia. Qed.

Lemma publish_current before after aggregate tb to :
  sn_currentBytes aggregate = u64 tb -> sn_currentObjects aggregate = u64 to ->
  sn_currentBytes (publish before after aggregate) = u64 (tb - sn_currentBytes before + sn_currentBytes after) /\
  sn_currentObjects (publish before after aggregate) = u64 (to - sn_currentObjects before + sn_currentObjects after).
Proof.
  intros H1 H2. simpl. rewrite !adjust_exact, H1, H2. unfold u64.
  split; rewrite <- Zplus_mod_idemp_l, <- Zminus_mod_idemp_l; rewrite ?Zplus_mod_idemp_l;
    rewrite <- ?(Zminus_mod_idemp_l (_ + _)), ?Zplus_mod_idemp_l, ?Zminus_mod_idemp_l; f_equal; lia.
Qed.

(** *** A locked section on one account *)

(** The ledger after a locked section that turned account [x] from [a] into
    [a'] and the leases into [leases']. *)
Definition section (x : Z) (a a' : Account) (leases' : gmap Z MediaGraphPayloadCreditLease) (next' : Z)
    (ws : list Z) (l : Ledger) : Ledger :=
  notify ws (publishAccount x a a' (setLeases leases' next' l)).

Record sectionOk (strict : bool) (l : Ledger) (x : Z) (a a' : Account)
    (leases' : gmap Z MediaGraphPayloadCreditLease) (next' : Z) : Prop := {
  sc_found : lg_accounts l !! x = Some a;
  sc_next : lg_nextAddress l <= next';
  sc_account : accountOk (mapSum (leaseBytes x) leases') (mapSum (leaseObjects x) leases') a';
  sc_plan : ac_plan a' = ac_plan a /\ ac_fixedStorageBytes a' = ac_fixedStorageBytes a;
  sc_bounds : strict = true -> withinBounds a';
  sc_cancelled : ac_cancelled a' = true -> ac_waiters a' = [];
  sc_others : forall y, y <> x -> mapSum (leaseBytes y) leases' = mapSum (leaseBytes y) (lg_leases l) /\
    mapSum (leaseObjects y) leases' = mapSum (leaseObjects y) (lg_leases l);
  sc_leases : forall i lease, leases' !! i = Some lease ->
    i < next' /\ 0 <= le_bytes lease /\ is_Some (lg_accounts l !! le_account lease) /\
    expired l (le_account lease) = false;
}.

Lemma totals_update l x a a' :
  lg_accounts l !! x = Some a ->
  mapSum (fun a => sn_currentBytes (ac_snapshot a)) (<[x := a']> (lg_accounts l)) =
    totalBytesOf l - sn_currentBytes (ac_snapshot a) + sn_currentBytes (ac_snapshot a') /\
  mapSum (fun a => sn_currentObjects (ac_snapshot a)) (<[x := a']> (lg_accounts l)) =
    totalObjectsOf l - sn_currentObjects (ac_snapshot a) + sn_currentObjects (ac_snapshot a').
Proof. intros Hx. unfold totalBytesOf, totalObjectsOf. by rewrite !(mapSum_update _ _ x a a'). Qed.

Lemma insert_is_Some {V} (m : gmap Z V) x v y : is_Some (m !! y) -> is_Some (<[x := v]> m !! y).
Proof. intros H. apply lookup_insert_is_Some. destruct (decide (x = y)); auto. Qed.

Lemma ledgerOk_section strict l x a a' leases' next' ws :
  ledgerOk strict l -> sectionOk strict l x a a' leases' next' ->
  ledgerOk strict (section x a a' leases' next' ws l).
Proof.
  intros Hl Hs. pose proof (sc_found _ _ _ _ _ _ _ Hs) as Hx.
  destruct (sc_plan _ _ _ _ _ _ _ Hs) as [Epl Efx]. set (l' := section x a a' leases' next' ws l).
  assert (Howners : ownersFrom l l').
  { apply ownersFrom_leases; [done | done |]. intros i lease Hi. by eapply sc_leases. }
  assert (Hlisted : forall y, y = initialAccount \/ y ∈ lg_branchAccounts l \/ expired l y = true ->
    y = initialAccount \/ y ∈ lg_branchAccounts l \/ expired l' y = true).
  { intros y [? | [? | He]]; auto. right. right. apply not_false_is_true. intros Hf. apply Howners in Hf. congruence. }
  pose proof (sc_next _ _ _ _ _ _ _ Hs) as Hnext. split; cbn [l' section notify publishAccount setAccounts setLeases
    lg_plan lg_accounts lg_aggregate lg_branchAccounts lg_producerAccounts lg_leases lg_branches lg_retentions
    lg_nextAddress lg_terminated].
  - destruct (lk_main _ _ Hl) as (main & Hm & H1 & H2 & H3). destruct (decide (x = initialAccount)) as [-> |].
    + exists a'. rewrite lookup_insert_eq. rewrite Hm in Hx. simplify_eq. by rewrite Epl, Efx.
    + exists main. by rewrite lookup_insert_ne.
  - intros y b. rewrite lookup_insert_Some. intros [[<- <-] | [Hne Hy]].
    + destruct (lk_accounts _ _ Hl _ _ Hx) as [E1 E2 E3 E4 E5 E6]. split; simpl; try apply Hs; try lia.
      * by rewrite Epl.
      * by apply Hlisted.
    + destruct (lk_accounts _ _ Hl _ _ Hy) as [E1 E2 E3 E4 E5 E6]. destruct (sc_others _ _ _ _ _ _ _ Hs y) as [S1 S2]; [done |].
      split; simpl; try done; [lia | by rewrite S1, S2 | by apply Hlisted].
  - intros i lease Hi. destruct (sc_leases _ _ _ _ _ _ _ Hs _ _ Hi) as (? & ? & ? & ?).
    split_and!; [done | done | by apply insert_is_Some].
  - intros i r Hi. destruct (lk_retentions _ _ Hl _ _ Hi) as (? & ? & ? & ?).
    split_and!; [lia | by apply insert_is_Some | done | done].
  - intros i y Hi. destruct (lk_branches _ _ Hl _ _ Hi) as (? & ?). split; [lia | by apply insert_is_Some].
  - intros p y Hp. destruct (lk_producers _ _ Hl _ _ Hp) as (b & Hb & H0). destruct (decide (x = y)) as [<- |].
    + exists a'. rewrite lookup_insert_eq, Efx. rewrite Hx in Hb. by simplify_eq.
    + exists b. by rewrite lookup_insert_ne.
  - destruct (lk_aggregate _ _ Hl) as [A1 A2]. unfold totalBytesOf at 1, totalObjectsOf at 1. cbn.
    destruct (totals_update l x a a' Hx) as [-> ->]. by apply publish_current.
  - apply Hl.
  - apply Hl.
Qed.

(** *** Leases *)

Lemma grantLeases_spec x bytes next leases ids leases' :
  (forall i lease, leases !! i = Some lease -> i < next) ->
  grantLeases x bytes next leases = (ids, leases') ->
  length ids = length bytes /\
  (forall y, mapSum (leaseBytes y) leases' =
             mapSum (leaseBytes y) leases + (if x =? y then listSum bytes else 0) /\
             mapSum (leaseObjects y) leases' =
             mapSum (leaseObjects y) leases + (if x =? y then Z.of_nat (length bytes) else 0)) /\
  (forall i lease, leases' !! i = Some lease ->
     leases !! i = Some lease \/ (next <= i < next + Z.of_nat (length bytes) /\ le_account lease = x /\
                                  le_bytes lease ∈ bytes)).
Proof.
  revert next leases ids. induction bytes as [| b bytes IH]; intros next leases ids Hf; simpl.
  { intros [= <- <-]. split_and!; [done | | by left]. intros y. destruct (x =? y); lia. }
  destruct (grantLeases x bytes (next + 1) _) as [ids1 leases1] eqn:E. intros [= <- <-].
  assert (Hfresh : leases !! next = None).
  { destruct (leases !! next) eqn:En; [| done]. apply Hf in En. lia. }
  destruct (IH (next + 1) (<[next := mkLease x b]> leases) ids1 ltac:(intros i lease [[<- _] | [_ Hi%Hf]]%lookup_insert_Some; lia) E) as (L & S & H).
  split_and!; [by rewrite <- L | |].
  - intros y. destruct (S y) as [-> ->]. rewrite !mapSum_insert by done. unfold leaseBytes, leaseObjects. simpl.
    fold (listSum bytes). destruct (x =? y); lia.
  - intros i lease [[[<- <-] | [_ ?]]%lookup_insert_Some | (? & ? & ?)]%H; [right | by left | right].
    + simpl. split_and!; [lia.. | done | by left].
    + split_and!; [lia.. | done | by right].
Qed.

Lemma sumDemand_spec unitBytes m1 m2 total bytes sum :
  0 <= total -> Forall (fun b => 0 <= b) bytes -> sumDemand unitBytes m1 m2 total bytes = Success sum ->
  sum = total + listSum bytes /\ sum <= uint64_max \/ bytes = [] /\ sum = total.
Proof.
  intros Ht Hb. revert total Ht. induction Hb as [| b bytes Hb Hbs IH]; intros total Ht; simpl.
  { intros [= <-]. auto. }
  destruct (unitBytes <? b); [done |]. destruct (Z.ltb_spec (uint64_max - total) b); [done |].
  intros E. left. destruct (IH (total + b) ltac:(lia) E) as [[-> ?] | [-> ->]]; simpl.
  - fold (listSum bytes). lia.
  - lia.
Qed.

(** The section that hands out leases for a demand that was admitted: [sn] is
    the snapshot that counts it, [ws] the waiters left. *)
Lemma sectionOk_grant strict l x a a' bytes ids leases' :
  ledgerOk strict l -> lg_accounts l !! x = Some a -> expired l x = false ->
  Forall (fun b => 0 <= b) bytes ->
  grantLeases x bytes (lg_nextAddress l) (lg_leases l) = (ids, leases') ->
  accountOk (mapSum (leaseBytes x) (lg_leases l) + listSum bytes)
            (mapSum (leaseObjects x) (lg_leases l) + Z.of_nat (length bytes)) a' ->
  ac_plan a' = ac_plan a -> ac_fixedStorageBytes a' = ac_fixedStorageBytes a ->
  (strict = true -> withinBounds a') -> (ac_cancelled a' = true -> ac_waiters a' = []) ->
  sectionOk strict l x a a' leases' (lg_nextAddress l + Z.of_nat (length bytes)).
Proof.
  intros Hl Hx He Hb Eg Ha Hp Hfx Hbd Hc.
  destruct (grantLeases_spec _ _ _ _ _ _ ltac:(intros i lease Hi; by eapply lk_leases) Eg) as (_ & Hsum & Hnew).
  split; try done; [lia | | |].
  - destruct (Hsum x) as [-> ->]. by rewrite Z.eqb_refl.
  - intros y Hy. destruct (Hsum y) as [-> ->]. destruct (Z.eqb_spec x y); [congruence | lia].
  - intros i lease [Hi | (? & -> & Hin)]%Hnew.
    + destruct (lk_leases _ _ Hl _ _ Hi) as (? & ? & ?). split_and!; [lia | done | done | by eapply lease_owner].
    + split_and!; [lia | by eapply (proj1 (Forall_forall _ _)) | eauto | done].
Qed.

Lemma notify_nil l : notify [] l = l.
Proof. destruct l. unfold notify. simpl. by rewrite app_nil_r. Qed.

Lemma notifyOption_list w l : notifyOption w l = notify (option_list w) l.
Proof. destruct w; [done |]. by rewrite notify_nil. Qed.

Lemma section_plain x a a' ws l :
  notify ws (publishAccount x a a' l) = section x a a' (lg_leases l) (lg_nextAddress l) ws l.
Proof. by destruct l. Qed.

Lemma publish_plain x a a' l : publishAccount x a a' l = section x a a' (lg_leases l) (lg_nextAddress l) [] l.
Proof. rewrite <- section_plain. by rewrite notify_nil. Qed.

(** A section that leaves the leases alone. *)
Lemma sectionOk_plain strict l x a a' :
  ledgerOk strict l -> lg_accounts l !! x = Some a ->
  accountOk (mapSum (leaseBytes x) (lg_leases l)) (mapSum (leaseObjects x) (lg_leases l)) a' ->
  ac_plan a' = ac_plan a -> ac_fixedStorageBytes a' = ac_fixedStorageBytes a ->
  (strict = true -> withinBounds a') -> (ac_cancelled a' = true -> ac_waiters a' = []) ->
  sectionOk strict l x a a' (lg_leases l) (lg_nextAddress l).
Proof.
  intros Hl Hx Ha Hp Hf Hb Hc. split; try done.
  intros i lease Hi. destruct (lk_leases _ _ Hl _ _ Hi) as (? & ? & ?). split_and!; try done. by eapply lease_owner.
Qed.

Lemma accountOk_counters lb lo a s :
  accountOk lb lo a -> sn_currentBytes s = sn_currentBytes (ac_snapshot a) ->
  sn_currentObjects s = sn_currentObjects (ac_snapshot a) -> accountOk lb lo (setSnapshot s a).
Proof. intros [] E1 E2. split; simpl; rewrite ?E1, ?E2; done. Qed.

(** The bookkeeping of an admitted demand. *)
Lemma accountOk_admit lb lo a bytes reservations :
  accountOk lb lo a -> Forall (fun b => 0 <= b) bytes ->
  fitsDemand (ac_plan a) (ac_snapshot a) (listSum bytes) (Z.of_nat (length bytes)) = true ->
  let a' := setSnapshot (addReservations reservations
    (addCurrent (listSum bytes) (Z.of_nat (length bytes)) (ac_snapshot a))) a in
  accountOk (lb + listSum bytes) (lo + Z.of_nat (length bytes)) a' /\ withinBounds a'.
Proof.
  intros [B O R P W L] Hb Hf. pose proof (listSum_nonneg _ Hb).
  destruct (addCurrent_fits _ _ _ _ Hf) as (A1 & A2 & A3 & A4); try lia.
  split; [split | split]; cbn [ac_snapshot ac_plan ac_waiters setSnapshot]; try done;
    change (sn_currentBytes (addReservations ?r ?s)) with (sn_currentBytes s);
    change (sn_currentObjects (addReservations ?r ?s)) with (sn_currentObjects s);
    rewrite ?A1, ?A2 in *; try lia.
Qed.

Lemma main_owner l : expired l initialAccount = false.
Proof. apply expired_spec. by left. Qed.

Lemma ledgerOk_batch strict l bytes :
  ledgerOk strict l -> Forall (fun b => 0 <= b) bytes -> ledgerOk strict (tryReserveBatch bytes l).2.
Proof.
  intros Hl Hb. unfold tryReserveBatch. destruct bytes as [| b0 bytes0]; [done |].
  set (bytes := b0 :: bytes0) in *. cbn [isNil bytes]. fold bytes.
  destruct (sumDemand _ _ _ _ _) as [total |] eqn:Esum; [| done].
  destruct (sumDemand_spec _ _ _ _ _ _ (Z.le_refl 0) Hb Esum) as [[-> Hmax] | [? _]]; [| done].
  rewrite Z.add_0_l in *.
  destruct (lg_accounts l !! initialAccount) as [main |] eqn:Hm; [| done].
  destruct (ac_cancelled main) eqn:Ec; [done |].
  destruct (lk_accounts _ _ Hl _ _ Hm) as [E1 E2 E3 E4 E5 E6].
  destruct (fitsDemand _ _ _ _) eqn:Ef; cbn [negb].
  - unfold addLeases. destruct (grantLeases _ _ _ _) as [ids leases'] eqn:Eg. cbn [snd].
    destruct (accountOk_admit _ _ _ _ (Z.of_nat (length bytes)) E2 Hb Ef) as [Ha Hw].
    rewrite <- notify_nil. apply ledgerOk_section; [done |].
    eapply sectionOk_grant; done.
  - cbn [snd]. rewrite publish_plain. apply ledgerOk_section; [done |].
    apply sectionOk_plain; try done. by apply accountOk_counters.
Qed.

Lemma eraseWaiter_books producer ws p :
  findFirst (fun p => pn_producer p =? producer) ws = Some p ->
  grantedBytes ws = (if pn_granted p then pn_totalBytes p else 0) + grantedBytes (eraseWaiter producer ws) /\
  grantedObjects ws = (if pn_granted p then objectsOf p else 0) + grantedObjects (eraseWaiter producer ws) /\
  (Forall waiterOk ws -> Forall waiterOk (eraseWaiter producer ws) /\ waiterOk p).
Proof.
  induction ws as [| q ws IH]; simpl; [done |]. destruct (pn_producer q =? producer).
  - intros [= ->]. sums. split_and!; try done. by intros [? ?]%Forall_cons.
  - intros (E1 & E2 & H)%IH. sums. split_and!; [lia | lia |]. intros [? []%H]%Forall_cons. split; [by constructor | done].
Qed.

Lemma accountForProducer_owner strict l producer x :
  ledgerOk strict l -> accountForProducer producer l = Success x ->
  expired l x = false /\ exists a, lg_accounts l !! x = Some a /\ ac_fixedStorageBytes a = 0.
Proof.
  intros Hl. unfold accountForProducer. destruct (lg_producerAccounts l !! producer) as [y |] eqn:Ep.
  - destruct (expired l y) eqn:Ee; [done |]. intros [= <-]. split; [done |]. by eapply lk_producers.
  - destruct (hasProducer _ _); [| done]. intros [= <-]. split; [apply main_owner |].
    destruct (lk_main _ _ Hl) as (main & ? & ? & _). eauto.
Qed.

Lemma ledgerOk_arm strict l producer bytes wakeup :
  ledgerOk strict l -> Forall (fun b => 0 <= b) bytes ->
  ledgerOk strict (tryReserveOrArm producer bytes wakeup l).2.
Proof.
  intros Hl Hb. unfold tryReserveOrArm. destruct wakeup as [wakeup |]; [| done]. destruct (negb _); [done |].
  destruct bytes as [| b0 bytes0]; [done |]. set (bytes := b0 :: bytes0) in *. cbn [isNil bytes orb]. fold bytes.
  destruct (accountForProducer producer l) as [x |] eqn:Ex; [| done].
  destruct (accountForProducer_owner _ _ _ _ Hl Ex) as (Hown & a & Ha & Hfx). rewrite Ha.
  destruct (sumDemand _ _ _ _ _) as [total |] eqn:Esum; [| done].
  destruct (sumDemand_spec _ _ _ _ _ _ (Z.le_refl 0) Hb Esum) as [[-> Hmax] | [? _]]; [| done].
  rewrite Z.add_0_l in *. destruct (ac_cancelled a) eqn:Ec; [done |].
  destruct (lk_accounts _ _ Hl _ _ Ha) as [E1 E2 E3 E4 E5 E6].
  destruct (findFirst _ (ac_waiters a)) as [p |] eqn:Ep.
  - destruct (negb (sameDemand p bytes)) eqn:Esame; [done |]. destruct (pn_granted p) eqn:Eg; [| done]. cbn [negb].
    unfold addLeases. destruct (grantLeases _ _ _ _) as [ids leases'] eqn:Egr.
    destruct (eraseWaiter_books _ _ _ Ep) as (G1 & G2 & G3). rewrite Eg in *.
    destruct (G3 (ac_waitersOk _ _ _ E2)) as [Wo [Pb Pt]].
    set (a1 := setWaiters (eraseWaiter producer (ac_waiters a)) _).
    assert (Ha1 : accountOk (mapSum (leaseBytes x) (lg_leases l) + listSum (pn_bytes p))
      (mapSum (leaseObjects x) (lg_leases l) + Z.of_nat (length (pn_bytes p))) a1).
    { pose proof (listSum_nonneg _ Pb). unfold objectsOf in G2. destruct E2. split; simpl; try done; lia. }
    destruct (promoteOne (lg_wakeups l) a1) as [a' next] eqn:Epr.
    destruct (promoteOne_ok _ _ _ _ _ _ Ha1 Epr) as (Hok & P1 & P2 & P3 & P4 & P5). cbn [snd].
    rewrite notifyOption_list. apply ledgerOk_section; [done |]. eapply sectionOk_grant; try done.
    + intros Hs. apply P4. by apply E4.
    + rewrite P3. simpl. by rewrite Ec.
  - destruct (fits _ _ _) eqn:Ef.
    + unfold addLeases. destruct (grantLeases _ _ _ _) as [ids leases'] eqn:Egr. cbn [snd].
      destruct (accountOk_admit _ _ _ _ (objectsOf (mkPending producer bytes (listSum bytes) wakeup false)) E2 Hb Ef)
        as [Ha' Hw].
      rewrite <- notify_nil. apply ledgerOk_section; [done |]. eapply sectionOk_grant; done.
    + cbn [snd]. rewrite publish_plain. apply ledgerOk_section; [done |].
      apply sectionOk_plain; try done; [| simpl; by rewrite Ec].
      destruct E2 as [B O R P W L]. split; cbn [setWaiters setSnapshot ac_snapshot ac_waiters ac_plan]; try done.
      * sums. lia.
      * sums. lia.
      * apply Forall_app. split; [done |]. apply Forall_singleton. by split.
Qed.

Lemma leaseSum_delete x leases i lease :
  leases !! i = Some lease ->
  mapSum (leaseBytes x) leases = leaseBytes x lease + mapSum (leaseBytes x) (delete i leases) /\
  mapSum (leaseObjects x) leases = leaseObjects x lease + mapSum (leaseObjects x) (delete i leases).
Proof. intros H. by rewrite !(mapSum_delete _ leases i lease). Qed.

Lemma leaseSum_nonneg strict l x :
  ledgerOk strict l -> forall leases, leases ⊆ lg_leases l ->
  0 <= mapSum (leaseBytes x) leases /\ 0 <= mapSum (leaseObjects x) leases.
Proof.
  intros Hl leases Hsub. split; apply mapSum_nonneg; intros i lease Hi;
    apply (lookup_weaken _ _ _ _ Hi) in Hsub; destruct (lk_leases _ _ Hl _ _ Hsub) as (_ & ? & _);
    unfold leaseBytes, leaseObjects; destruct (_ =? _); lia.
Qed.

(** A lease never holds more than its account has in use: neither
    [std::terminate] nor the underflow error is reachable. *)
Lemma lease_held strict l i lease a :
  ledgerOk strict l -> lg_leases l !! i = Some lease -> lg_accounts l !! le_account lease = Some a ->
  le_bytes lease <= sn_currentBytes (ac_snapshot a) /\ 1 <= sn_currentObjects (ac_snapshot a).
Proof.
  intros Hl Hi Ha. destruct (lk_accounts _ _ Hl _ _ Ha) as [_ [B O _ _ W _] _ _ _ _].
  destruct (leaseSum_delete (le_account lease) _ _ _ Hi) as [S1 S2].
  destruct (leaseSum_nonneg _ _ (le_account lease) Hl (delete i (lg_leases l)) (delete_subseteq _ _)).
  unfold leaseBytes, leaseObjects in *. rewrite Z.eqb_refl in *. pose proof (granted_nonneg _ W). lia.
Qed.

Lemma ledgerOk_release strict l i : ledgerOk strict l -> ledgerOk strict (release i l).
Proof.
  intros Hl. unfold release. destruct (lg_leases l !! i) as [lease |] eqn:Hi; [| done].
  destruct (lg_accounts l !! le_account lease) as [a |] eqn:Ha; [| done].
  destruct (lease_held _ _ _ _ _ Hl Hi Ha) as [Hb Ho]. set (x := le_account lease) in *.
  destruct (lk_leases _ _ Hl _ _ Hi) as (_ & Hb0 & _).
  destruct (Z.ltb_spec (sn_currentBytes (ac_snapshot a)) (le_bytes lease)); [lia |].
  destruct (Z.eqb_spec (sn_currentObjects (ac_snapshot a)) 0); [lia |]. cbn [orb].
  destruct (lk_accounts _ _ Hl _ _ Ha) as [E1 [B O R P W L] E3 E4 E5 E6].
  destruct (subCurrent_within (le_bytes lease) 1 (ac_snapshot a)) as [S1 S2]; try lia.
  destruct (leaseSum_nonneg _ _ x Hl (delete i (lg_leases l)) (delete_subseteq _ _)) as [N1 N2].
  destruct (leaseSum_delete x _ _ _ Hi) as [D1 D2]. unfold leaseBytes at 2 in D1. unfold leaseObjects at 2 in D2.
  fold x in D1, D2. rewrite Z.eqb_refl in *.
  set (a1 := setSnapshot _ a).
  assert (Ha1 : accountOk (mapSum (leaseBytes x) (delete i (lg_leases l))) (mapSum (leaseObjects x) (delete i (lg_leases l))) a1).
  { split; cbn [a1 setSnapshot ac_snapshot ac_plan ac_waiters]; try done;
      change (sn_currentBytes (countRelease ?s)) with (sn_currentBytes s);
      change (sn_currentObjects (countRelease ?s)) with (sn_currentObjects s); rewrite ?S1, ?S2; lia. }
  assert (Hw1 : strict = true -> withinBounds a1).
  { intros Hs. destruct (E4 Hs) as [? ?]. split; cbn [a1 setSnapshot ac_snapshot ac_plan];
      change (sn_currentBytes (countRelease ?s)) with (sn_currentBytes s);
      change (sn_currentObjects (countRelease ?s)) with (sn_currentObjects s); rewrite ?S1, ?S2; lia. }
  destruct (promoteOne (lg_wakeups l) a1) as [a' w] eqn:Epr.
  destruct (promoteOne_ok _ _ _ _ _ _ Ha1 Epr) as (Hok & P1 & P2 & P3 & P4 & P5).
  rewrite notifyOption_list. apply ledgerOk_section; [done |]. split; try done.
  - by auto.
  - rewrite P3. intros Hc. by apply P5, E5.
  - intros y Hy. destruct (leaseSum_delete y _ _ _ Hi) as [D3 D4]. unfold leaseBytes at 2 in D3. unfold leaseObjects at 2 in D4.
    fold x in D3, D4. destruct (Z.eqb_spec x y); [congruence | lia].
  - intros j lj [_ Hj]%lookup_delete_Some. destruct (lk_leases _ _ Hl _ _ Hj) as (? & ? & ?).
    split_and!; try done. by eapply lease_owner.
Qed.

Lemma ledgerOk_shrink strict l i bytes : ledgerOk strict l -> 0 <= bytes -> ledgerOk strict (shrinkTo i bytes l).2.
Proof.
  intros Hl Hbytes. unfold shrinkTo. destruct (lg_leases l !! i) as [lease |] eqn:Hi; [| done].
  destruct (Z.ltb_spec (le_bytes lease) bytes); [done |].
  destruct (lg_accounts l !! le_account lease) as [a |] eqn:Ha; [| done].
  destruct (lease_held _ _ _ _ _ Hl Hi Ha) as [Hb Ho]. set (x := le_account lease) in *.
  destruct (Z.ltb_spec (sn_currentBytes (ac_snapshot a)) (le_bytes lease - bytes)); [lia |].
  destruct (lk_accounts _ _ Hl _ _ Ha) as [E1 [B O R P W L] E3 E4 E5 E6].
  destruct (subCurrent_within (le_bytes lease - bytes) 0 (ac_snapshot a)) as [S1 S2]; try lia.
  set (leases' := <[i := mkLease x bytes]> (lg_leases l)).
  assert (Hsum : forall y, mapSum (leaseBytes y) leases' = mapSum (leaseBytes y) (lg_leases l) -
      (if x =? y then le_bytes lease - bytes else 0) /\
    mapSum (leaseObjects y) leases' = mapSum (leaseObjects y) (lg_leases l)).
  { intros y. unfold leases'. rewrite !(mapSum_update _ _ i lease) by done. unfold leaseBytes at 2 3, leaseObjects at 2 3.
    simpl. fold x. destruct (x =? y); lia. }
  destruct (Hsum x) as [D1 D2]. rewrite Z.eqb_refl in *.
  destruct (leaseSum_nonneg _ _ x Hl (delete i (lg_leases l)) (delete_subseteq _ _)) as [N1 N2].
  destruct (leaseSum_delete x _ _ _ Hi) as [N3 N4]. unfold leaseBytes at 2 in N3. unfold leaseObjects at 2 in N4.
  fold x in N3, N4. rewrite Z.eqb_refl in *.
  set (a1 := setSnapshot _ a).
  assert (Ha1 : accountOk (mapSum (leaseBytes x) leases') (mapSum (leaseObjects x) leases') a1).
  { split; cbn [a1 setSnapshot ac_snapshot ac_plan ac_waiters]; try done; rewrite ?S1, ?S2, ?D1, ?D2; lia. }
  assert (Hw1 : strict = true -> withinBounds a1).
  { intros Hs. destruct (E4 Hs) as [? ?]. split; cbn [a1 setSnapshot ac_snapshot ac_plan]; rewrite ?S1, ?S2; lia. }
  destruct (if 0 <? _ then promoteOne _ a1 else (a1, None)) as [a' w] eqn:Epr.
  assert (Hpr : accountOk (mapSum (leaseBytes x) leases') (mapSum (leaseObjects x) leases') a' /\
    ac_plan a' = ac_plan a /\ ac_fixedStorageBytes a' = ac_fixedStorageBytes a /\
    (strict = true -> withinBounds a') /\ (ac_cancelled a' = true -> ac_waiters a' = [])).
  { destruct (0 <? _); [| by injection Epr as <- <-].
    destruct (promoteOne_ok _ _ _ _ _ _ Ha1 Epr) as (Hok & P1 & P2 & P3 & P4 & P5). split_and!; auto.
    rewrite P3. intros Hc. by apply P5, E5. }
  destruct Hpr as (Hok & P1 & P2 & P3 & P4). cbn [snd].
  rewrite notifyOption_list. apply ledgerOk_section; [done |]. split; try done.
  - intros y Hy. destruct (Hsum y) as [-> ->]. destruct (Z.eqb_spec x y); [congruence | lia].
  - intros j lj [[<- <-] | [_ Hj]]%lookup_insert_Some.
    + destruct (lk_leases _ _ Hl _ _ Hi) as (? & ? & ?). split_and!; try done. by apply (lease_owner l i lease).
    + destruct (lk_leases _ _ Hl _ _ Hj) as (? & ? & ?). split_and!; try done. by eapply lease_owner.
Qed.

(** *** Cancellation *)

Lemma cancel_books lb lo s ws :
  0 <= lb -> 0 <= lo -> Forall waiterOk ws -> books lb lo s ws ->
  let s' := foldl (fun s p => if pn_granted p then subCurrent (pn_totalBytes p) (objectsOf p) s else s) s ws in
  sn_currentBytes s' = lb /\ sn_currentObjects s' = lo.
Proof.
  intros Hlb Hlo Hws. revert s. induction Hws as [| p ws Hp Hws IH]; intros s (B1 & B2 & B3 & B4); cbn [foldl].
  { sums. lia. }
  pose proof (granted_nonneg ws Hws). pose proof (waiterOk_total p Hp). assert (0 <= objectsOf p) by (unfold objectsOf; lia).
  apply IH. unfold books. sums. destruct (pn_granted p); [| lia].
  destruct (subCurrent_within (pn_totalBytes p) (objectsOf p) s) as [-> ->]; lia.
Qed.

Lemma ledgerOk_cancelAccount strict l x : ledgerOk strict l -> ledgerOk strict (cancelAccount x l).
Proof.
  intros Hl. unfold cancelAccount. destruct (lg_accounts l !! x) as [a |] eqn:Ha; [| done].
  destruct (lk_accounts _ _ Hl _ _ Ha) as [E1 [B O R P W L] E3 E4 E5 E6].
  set (s := foldl _ _ _). destruct (cancel_books _ _ (ac_snapshot a) _ (proj1 L) (proj2 L) W) as [S1 S2].
  { unfold books. lia. }
  fold s in S1, S2. pose proof (granted_nonneg _ W).
  set (ws := List.filter _ _).
  change (publishAccount x a ?a' (notify ws l)) with (notify ws (publishAccount x a a' l)).
  rewrite section_plain. apply ledgerOk_section; [done |]. apply sectionOk_plain; try done.
  - split; cbn [ac_snapshot ac_waiters ac_plan]; try done; sums; lia.
  - intros Hs. destruct (E4 Hs). split; cbn [ac_snapshot ac_plan]; lia.
Qed.

Lemma ledgerOk_cancelAll strict l : ledgerOk strict l -> ledgerOk strict (cancelBlockedWaiters l).
Proof.
  intros Hl. unfold cancelBlockedWaiters. generalize (lg_branchAccounts l). intros xs.
  apply (ledgerOk_cancelAccount strict l initialAccount) in Hl as Hl'. revert Hl'. generalize (cancelAccount initialAccount l).
  induction xs as [| x xs IH]; intros l' Hl'; [done |]. simpl. apply IH.
  destruct (expired l x); [done |]. by apply ledgerOk_cancelAccount.
Qed.

(** *** Owners that go away *)

Lemma ledgerOk_dropWakeup strict l w : ledgerOk strict l -> ledgerOk strict (dropWakeup w l).
Proof. intros []. split; try done. intros x a Hx. destruct (lk_accounts0 x a Hx). by split. Qed.

(** Fewer owners. *)
Lemma entryOk_owners strict l l' x a :
  ownersFrom l l' -> lg_nextAddress l <= lg_nextAddress l' ->
  (forall y, mapSum (leaseBytes y) (lg_leases l') = mapSum (leaseBytes y) (lg_leases l) /\
             mapSum (leaseObjects y) (lg_leases l') = mapSum (leaseObjects y) (lg_leases l)) ->
  (mapSum (growthBytes x) (lg_retentions l') <= maximumBytes (ac_plan a) /\
   mapSum (growthObjects x) (lg_retentions l') <= maximumObjects (ac_plan a)) ->
  (x ∈ lg_branchAccounts l -> x ∈ lg_branchAccounts l' \/ expired l' x = true) ->
  entryOk strict l x a -> entryOk strict l' x a.
Proof.
  intros Ho Hn Hs Hg Hb [E1 E2 E3 E4 E5 E6]. destruct (Hs x) as [S1 S2]. split; try done; [lia | by rewrite S1, S2 |].
  destruct E6 as [? | [? | He]]; [auto | destruct (Hb H); auto |].
  right. right. apply not_false_is_true. intros Hf. apply Ho in Hf. congruence.
Qed.

Lemma ledgerOk_dropBranch strict l r : ledgerOk strict l -> ledgerOk strict (dropBranch r l).
Proof.
  intros Hl. unfold dropBranch. destruct (lg_branches l !! r) as [x |]; [| done].
  apply (ledgerOk_cancelAccount _ _ x) in Hl. revert Hl. generalize (cancelAccount x l). clear l x. intros l Hl.
  set (l' := mkLedger _ _ _ _ _ _ _ _ _ _ _ _).
  assert (Ho : ownersFrom l l').
  { intros y [-> | [? | [(i & Hi) | ?]]]%expired_spec; apply expired_spec; auto.
    right. right. left. exists i. simpl in Hi. by apply lookup_delete_Some in Hi as [_ Hi]. }
  destruct Hl. split; try done.
  - intros y a Hy. apply (entryOk_owners strict l); try done; [| by left | by apply lk_accounts0].
    by destruct (lk_accounts0 y a Hy).
  - intros i y Hi. simpl in Hi. apply lookup_delete_Some in Hi as [_ Hi]. by eapply lk_branches0.
Qed.

(** *** Retention growth *)

Lemma growthSum_fresh l x r leases :
  (forall i g, lg_retentions l !! i = Some g -> i < r) ->
  mapSum (growthBytes x) (<[r := leases]> (lg_retentions l)) = growthBytes x leases + mapSum (growthBytes x) (lg_retentions l) /\
  mapSum (growthObjects x) (<[r := leases]> (lg_retentions l)) = growthObjects x leases + mapSum (growthObjects x) (lg_retentions l).
Proof.
  intros H. split; apply mapSum_insert; (destruct (lg_retentions l !! r) eqn:E; [apply H in E; lia | done]).
Qed.

Lemma accumulateAccounts_each total accounts result a :
  0 <= total.1 -> 0 <= total.2 -> Forall (fun a => 0 <= admittedBytes a /\ 0 <= maximumObjects (ac_plan a)) accounts ->
  accumulateAccounts total accounts = Some result -> a ∈ accounts ->
  total.1 + admittedBytes a <= uint64_max /\ total.2 + maximumObjects (ac_plan a) <= uint64_max.
Proof.
  revert total. induction accounts as [| b accounts IH]; intros total H1 H2 Hall; [by intros _ ?%not_elem_of_nil |].
  apply Forall_cons in Hall as [Hb Hall]. simpl. unfold accumulate.
  destruct (Z.ltb_spec (uint64_max - total.1) (admittedBytes b)); [done |].
  destruct (Z.ltb_spec (uint64_max - total.2) (maximumObjects (ac_plan b))); [done |]. cbn [orb].
  intros E Hin. apply elem_of_cons in Hin as [-> | Hin]; [lia |].
  destruct (IH (total.1 + admittedBytes b, total.2 + maximumObjects (ac_plan b)) ltac:(simpl; lia) ltac:(simpl; lia)
    Hall E Hin). simpl in *. lia.
Qed.

Lemma live_listed strict l x a :
  ledgerOk strict l -> lg_accounts l !! x = Some a -> expired l x = false -> x <> initialAccount ->
  a ∈ liveBranches l.
Proof.
  intros Hl Hx He Hne. destruct (en_listed _ _ _ _ (lk_accounts _ _ Hl _ _ Hx)) as [? | [Hin | ?]]; [done | | congruence].
  unfold liveBranches. apply list_elem_of_omap. exists x. by rewrite He.
Qed.

Lemma live_accounts strict l :
  ledgerOk strict l ->
  Forall (fun a => 0 <= admittedBytes a /\ 0 <= maximumObjects (ac_plan a)) (liveBranches l).
Proof.
  intros Hl. apply Forall_forall. intros a Hin. unfold liveBranches in Hin. apply list_elem_of_omap in Hin as (x & _ & E).
  destruct (expired l x); [done |]. destruct (lk_accounts _ _ Hl _ _ E) as [_ [_ _ _ P _ _] _ _ _ _].
  split; [unfold admittedBytes, u64; apply Z.mod_pos_bound; lia | lia].
Qed.

(** The new bounds of the target do not wrap. *)
Lemma retention_bounds strict l x main target gb go :
  ledgerOk strict l -> 0 <= gb -> 0 <= go ->
  lg_accounts l !! initialAccount = Some main -> lg_accounts l !! x = Some target ->
  expired l x = false -> ac_fixedStorageBytes target = 0 ->
  (exists result, accumulateAccounts (gb, go) (main :: liveBranches l) = Some result) ->
  maximumBytes (ac_plan target) + gb <= uint64_max /\ maximumObjects (ac_plan target) + go <= uint64_max.
Proof.
  intros Hl Hgb Hgo Hm Hx He Hf [result Hr].
  destruct (lk_accounts _ _ Hl _ _ Hx) as [_ [_ _ _ P _ _] _ _ _ _].
  assert (Ht : admittedBytes target = maximumBytes (ac_plan target)).
  { unfold admittedBytes, u64. rewrite Hf, Z.add_0_r. apply Z.mod_small. unfold uint64_max in P. lia. }
  destruct (lk_accounts _ _ Hl _ _ Hm) as [_ [_ _ _ Pm _ _] _ _ _ _].
  destruct (accumulateAccounts_each (gb, go) (main :: liveBranches l) result target) as [H1 H2]; try done.
  - constructor; [| by eapply live_accounts]. split; [| lia]. unfold admittedBytes, u64. apply Z.mod_pos_bound. lia.
  - destruct (decide (x = initialAccount)) as [-> |]; [rewrite Hm in Hx; simplify_eq; by left |].
    right. by eapply live_listed.
  - simpl in *. rewrite Ht in H1. lia.
Qed.

Lemma ledgerOk_retention strict l growth :
  ledgerOk strict l -> 0 <= gr_additionalBytes growth -> 0 <= gr_additionalObjects growth ->
  ledgerOk strict (reserveRetentionGrowth growth l).2.
Proof.
  intros Hl Hgb Hgo. unfold reserveRetentionGrowth. destruct (negb _); [done |].
  destruct (Z.eqb_spec (gr_additionalObjects growth) 0) as [| Hgo']; [done |]. cbn [orb].
  destruct (accountForProducer _ l) as [x |] eqn:Ex; [| done].
  destruct (accountForProducer_owner _ _ _ _ Hl Ex) as (Hown & target & Hx & Hfx). rewrite Hx.
  destruct (lg_accounts l !! initialAccount) as [main |] eqn:Hm; [| done].
  destruct (accumulateAccounts _ _) as [result |] eqn:Eacc; [| done]. destruct (ac_cancelled target) eqn:Ec; [done |].
  destruct (retention_bounds _ _ _ _ _ _ _ Hl Hgb Hgo Hm Hx Hown Hfx (ex_intro _ _ Eacc)) as [Hb1 Hb2].
  destruct (lk_accounts _ _ Hl _ _ Hx) as [E1 E2 E3 E4 E5 E6]. pose proof (ac_planRange _ _ _ E2) as P.
  set (plan' := setPlanBounds _ _ _).
  assert (Hp1 : maximumBytes plan' = maximumBytes (ac_plan target) + gr_additionalBytes growth)
    by (simpl; apply Z.mod_small; unfold uint64_max in *; lia).
  assert (Hp2 : maximumObjects plan' = maximumObjects (ac_plan target) + gr_additionalObjects growth)
    by (simpl; apply Z.mod_small; unfold uint64_max in *; lia).
  assert (Ht : accountOk (mapSum (leaseBytes x) (lg_leases l)) (mapSum (leaseObjects x) (lg_leases l)) (setPlan plan' target)).
  { destruct E2. split; cbn [setPlan ac_plan ac_snapshot ac_waiters]; rewrite ?Hp1, ?Hp2; try done; lia. }
  destruct (promoteAll _ _ _) as [target' ws] eqn:Epr.
  destruct (promoteAll_ok _ _ _ _ _ _ _ Ht Epr) as (Hok & P1 & P2 & P3 & P4 & P5).
  set (r := lg_nextAddress l). cbn [snd].
  assert (Hfresh : forall i g, lg_retentions l !! i = Some g -> i < r) by (intros i g Hi; by eapply lk_retentions).
  assert (Hbounds : strict = true -> withinBounds target').
  { intros Hs. apply P4. destruct (E4 Hs). split; cbn [setPlan ac_plan ac_snapshot]; rewrite ?Hp1, ?Hp2; lia. }
  set (l' := setRetentions _ _ _).
  assert (Howners : ownersFrom l l').
  { intros y [-> | [? | [? | (i & g & Hi & <-)]]]%expired_spec; try (apply expired_spec; by eauto 8).
    simpl in Hi. apply lookup_insert_Some in Hi as [[<- <-] | [_ Hi]]; [done |]. apply expired_spec. eauto 8. }
  split; try apply Hl; cbn [l' setRetentions notify publishAccount setAccounts lg_plan lg_accounts lg_leases
    lg_retentions lg_branches lg_producerAccounts lg_nextAddress].
  - destruct (lk_main _ _ Hl) as (m & Hm' & F1 & F2 & F3). destruct (growthSum_fresh l initialAccount r (x, growth) Hfresh) as [-> ->].
    unfold growthBytes at 1, growthObjects at 1. simpl. destruct (Z.eqb_spec x initialAccount) as [-> | Hne].
    + exists target'. rewrite lookup_insert_eq, P1, P2. rewrite Hm' in Hx. simplify_eq.
      split_and!; [done | done | |]; cbn [setPlan ac_plan]; rewrite ?Hp1, ?Hp2; lia.
    + exists m. rewrite lookup_insert_ne by done. split_and!; try done; lia.
  - intros y b. rewrite lookup_insert_Some. intros [[<- <-] | [Hne Hy]].
    + destruct (growthSum_fresh l x r (x, growth) Hfresh) as [G1 G2]. unfold growthBytes at 2 in G1. unfold growthObjects at 2 in G2.
      simpl in G1, G2. rewrite Z.eqb_refl in *.
      split; try done; cbn [l' setRetentions notify publishAccount setAccounts lg_plan lg_accounts lg_leases
        lg_retentions lg_branches lg_producerAccounts lg_nextAddress]; [unfold r; lia | | |].
      * rewrite P1, G1, G2. cbn [setPlan ac_plan]. rewrite Hp1, Hp2. lia.
      * rewrite P3. cbn [setPlan ac_cancelled]. by rewrite Ec.
      * destruct E6 as [? | [? | He]]; [auto | auto | congruence].
    + apply (entryOk_owners strict l); try done; [unfold r; simpl; lia | | by left | by apply (lk_accounts _ _ Hl)].
      destruct (growthSum_fresh l y r (x, growth) Hfresh) as [G1 G2]. unfold growthBytes at 2 in G1. unfold growthObjects at 2 in G2.
      simpl in *. destruct (Z.eqb_spec x y); [congruence |]. rewrite G1, G2. by destruct (lk_accounts _ _ Hl _ _ Hy).
  - intros i lease Hi. destruct (lk_leases _ _ Hl _ _ Hi) as (? & ? & ?). split_and!; [unfold r; lia | done | by apply insert_is_Some].
  - intros i g [[<- <-] | [_ Hi]]%lookup_insert_Some; simpl.
    + split_and!; [lia | by apply insert_is_Some | done | lia].
    + destruct (lk_retentions _ _ Hl _ _ Hi) as (? & ? & ? & ?). split_and!; [unfold r; lia | by apply insert_is_Some | done | done].
  - intros i y Hi. destruct (lk_branches _ _ Hl _ _ Hi) as (? & ?). split; [unfold r; lia | by apply insert_is_Some].
  - intros p y Hp. destruct (lk_producers _ _ Hl _ _ Hp) as (b & Hb & H0). destruct (decide (x = y)) as [<- |].
    + exists target'. rewrite lookup_insert_eq, P2. done.
    + exists b. by rewrite lookup_insert_ne.
  - destruct (lk_aggregate _ _ Hl) as [A1 A2]. unfold totalBytesOf at 1, totalObjectsOf at 1. cbn.
    destruct (totals_update l x target target' Hx) as [-> ->]. by apply publish_current.
Qed.

Lemma growthSum_nonneg strict l x retentions :
  ledgerOk strict l -> retentions ⊆ lg_retentions l ->
  0 <= mapSum (growthBytes x) retentions /\ 0 <= mapSum (growthObjects x) retentions.
Proof.
  intros Hl Hsub. split; apply mapSum_nonneg; intros i g Hi; apply (lookup_weaken _ _ _ _ Hi) in Hsub;
    destruct (lk_retentions _ _ Hl _ _ Hsub) as (_ & _ & ? & ?); unfold growthBytes, growthObjects; destruct (_ =? _); lia.
Qed.

(** Withdrawing a growth may leave an account above its bounds, so the result
    is not the strict invariant. *)
Lemma ledgerOk_dropRetention l r : ledgerOk false l -> ledgerOk false (dropRetention r l).
Proof.
  intros Hl. unfold dropRetention. destruct (lg_retentions l !! r) as [[x growth] |] eqn:Hr; [| done].
  destruct (lk_retentions _ _ Hl _ _ Hr) as (_ & [a Ha] & Hgb & Hgo). simpl in Ha, Hgb, Hgo. rewrite Ha.
  set (plan' := setPlanBounds _ _ _). set (l' := setAccounts _ _ _).
  assert (Hdel : forall y, mapSum (growthBytes y) (lg_retentions l) =
      growthBytes y (x, growth) + mapSum (growthBytes y) (delete r (lg_retentions l)) /\
    mapSum (growthObjects y) (lg_retentions l) =
      growthObjects y (x, growth) + mapSum (growthObjects y) (delete r (lg_retentions l)))
    by (intros y; by rewrite !(mapSum_delete _ (lg_retentions l) r (x, growth))).
  pose proof (growthSum_nonneg false l x (delete r (lg_retentions l)) Hl (delete_subseteq _ _)) as [N1 N2].
  destruct (lk_accounts _ _ Hl _ _ Ha) as [E1 [B O R P W L] E3 E4 E5 E6].
  destruct (Hdel x) as [D1 D2]. unfold growthBytes at 2 in D1. unfold growthObjects at 2 in D2. simpl in D1, D2.
  rewrite Z.eqb_refl in *.
  assert (Hp1 : maximumBytes plan' = maximumBytes (ac_plan a) - gr_additionalBytes growth)
    by (simpl; apply Z.mod_small; unfold uint64_max in *; lia).
  assert (Hp2 : maximumObjects plan' = maximumObjects (ac_plan a) - gr_additionalObjects growth)
    by (simpl; apply Z.mod_small; unfold uint64_max in *; lia).
  assert (Ho : ownersFrom l l').
  { intros y [-> | [? | [? | (i & g & Hi & <-)]]]%expired_spec; apply expired_spec; auto.
    simpl in Hi. apply lookup_delete_Some in Hi as [_ Hi]. eauto 8. }
  split; try apply Hl; cbn [l' setAccounts setRetentions lg_plan lg_accounts lg_leases lg_retentions lg_branches
    lg_producerAccounts lg_nextAddress].
  - destruct (lk_main _ _ Hl) as (m & Hm & F1 & F2 & F3). destruct (Hdel initialAccount) as [G1 G2].
    unfold growthBytes at 2 in G1. unfold growthObjects at 2 in G2. simpl in G1, G2.
    destruct (Z.eqb_spec x initialAccount) as [-> | Hne].
    + exists (setPlan plan' a). rewrite lookup_insert_eq. rewrite Hm in Ha. simplify_eq.
      split_and!; [done | done | |]; cbn [setPlan ac_plan]; lia.
    + exists m. rewrite lookup_insert_ne by done. split_and!; try done; lia.
  - intros y b. rewrite lookup_insert_Some. intros [[<- <-] | [Hne Hy]].
    + split; try done; cbn [setPlan ac_plan]; rewrite ?Hp1, ?Hp2.
      * split; cbn [setPlan ac_plan ac_snapshot ac_waiters]; rewrite ?Hp1, ?Hp2; try done; lia.
      * cbn. lia.
      * destruct E6 as [? | [? | He]]; [auto | auto |]. right. right. apply not_false_is_true.
        intros Hf. apply Ho in Hf. congruence.
    + apply (entryOk_owners false l); try done; [| by left | by apply (lk_accounts _ _ Hl)].
      destruct (Hdel y) as [G1 G2]. unfold growthBytes at 2 in G1. unfold growthObjects at 2 in G2. simpl in *.
      destruct (Z.eqb_spec x y); [congruence |]. destruct (lk_accounts _ _ Hl _ _ Hy) as [_ _ ? _ _ _]. lia.
  - intros i lease Hi. destruct (lk_leases _ _ Hl _ _ Hi) as (? & ? & ?). split_and!; [lia | done | by apply insert_is_Some].
  - intros i g [_ Hi]%lookup_delete_Some.
    destruct (lk_retentions _ _ Hl _ _ Hi) as (? & ? & ? & ?). split_and!; [done | by apply insert_is_Some | done | done].
  - intros i y Hi. destruct (lk_branches _ _ Hl _ _ Hi) as (? & ?). split; [done | by apply insert_is_Some].
  - intros p y Hp. destruct (lk_producers _ _ Hl _ _ Hp) as (b & Hb & H0). destruct (decide (x = y)) as [<- |].
    + exists (setPlan plan' a). rewrite lookup_insert_eq. rewrite Ha in Hb. by simplify_eq.
    + exists b. by rewrite lookup_insert_ne.
  - destruct (lk_aggregate _ _ Hl) as [A1 A2]. unfold totalBytesOf at 1, totalObjectsOf at 1. cbn.
    destruct (totals_update l x a (setPlan plan' a) Ha) as [-> ->]. rewrite A1, A2. simpl. split; f_equal; lia.
Qed.

(** *** Admission of accounts *)

Lemma emplaceProducers_lookup x strategies m p y :
  emplaceProducers x strategies m !! p = Some y -> m !! p = Some y \/ (y = x /\ strategies <> []).
Proof.
  unfold emplaceProducers. revert m. induction strategies as [| st rest IH]; intros m; simpl; [by left |].
  intros [H | [-> _]]%IH; [| by right]. destruct (m !! producerNodeId st); [by left |].
  apply lookup_insert_Some in H as [[_ <-] | [_ H]]; [by right | by left].
Qed.

Lemma fresh_sums strict l x :
  ledgerOk strict l -> lg_accounts l !! x = None ->
  mapSum (leaseBytes x) (lg_leases l) = 0 /\ mapSum (leaseObjects x) (lg_leases l) = 0 /\
  mapSum (growthBytes x) (lg_retentions l) = 0 /\ mapSum (growthObjects x) (lg_retentions l) = 0.
Proof.
  intros Hl Hx. unfold leaseBytes, leaseObjects, growthBytes, growthObjects.
  split_and!; apply mapSum_zero; intros i v Hi.
  1,2: destruct (lk_leases _ _ Hl _ _ Hi) as (_ & _ & [b Hb]).
  3,4: destruct (lk_retentions _ _ Hl _ _ Hi) as (_ & [b Hb] & _).
  all: case_match eqn:E; [apply Z.eqb_eq in E; rewrite E in Hb; congruence | done].
Qed.

(** Publishing a new account [a] while the plan of the initial account becomes
    [p'] and the one of the ledger [plan']. *)
Record admissionOk (strict : bool) (l : Ledger) (main a : Account) (p' plan' : MediaGraphPayloadCreditPlan)
    (branchAccounts : list Z) (producerAccounts : gmap Z Z) : Prop := {
  ad_main : lg_accounts l !! initialAccount = Some main;
  ad_new : exists p bytes, a = newAccount p bytes /\ 0 <= maximumBytes p <= uint64_max /\
    0 <= maximumObjects p <= uint64_max /\ (producers p <> [] -> bytes = 0);
  ad_range : 0 <= maximumBytes p' <= uint64_max /\ 0 <= maximumObjects p' <= uint64_max;
  ad_plan : 0 <= maximumBytes plan' /\ 0 <= maximumObjects plan' /\
    maximumBytes p' = maximumBytes plan' + mapSum (growthBytes initialAccount) (lg_retentions l) /\
    maximumObjects p' = maximumObjects plan' + mapSum (growthObjects initialAccount) (lg_retentions l);
  ad_bounds : strict = true -> withinBounds (setPlan p' main);
  ad_listed : forall x, x ∈ lg_branchAccounts l -> expired l x = false -> x ∈ branchAccounts;
  ad_producers : producerAccounts ⊆ lg_producerAccounts l;
}.

Lemma ledgerOk_admit strict l main a p' plan' branchAccounts producerAccounts :
  ledgerOk strict l -> admissionOk strict l main a p' plan' branchAccounts producerAccounts ->
  ledgerOk strict (admitBranch a plan' (<[initialAccount := setPlan p' main]> (lg_accounts l))
                     branchAccounts producerAccounts l).2.
Proof.
  intros Hl [Hm (p & bytes & -> & Hp1 & Hp2 & Hp3) Hr Hpl Hb Hls Hpr].
  set (x := lg_nextAddress l). cbn [admitBranch snd]. fold x.
  assert (Hfresh : lg_accounts l !! x = None).
  { destruct (lg_accounts l !! x) eqn:E; [| done]. destruct (lk_accounts _ _ Hl _ _ E) as [? _ _ _ _ _]. unfold x in *. lia. }
  destruct (lk_accounts _ _ Hl _ _ Hm) as [M1 M2 M3 M4 M5 M6].
  assert (Hx0 : x <> initialAccount) by (intros E; rewrite E in Hfresh; congruence).
  assert (Hfresh' : <[initialAccount := setPlan p' main]> (lg_accounts l) !! x = None) by (by rewrite lookup_insert_ne).
  set (accounts' := <[x := _]> _). set (l' := mkLedger _ _ _ _ _ _ _ _ _ _ _ _).
  assert (Hsome : forall y, is_Some (lg_accounts l !! y) -> is_Some (accounts' !! y))
    by (intros y Hy; by apply insert_is_Some, insert_is_Some).
  assert (Howners : forall y, y <> x -> expired l' y = false -> expired l y = false).
  { intros y Hy [-> | [? | [(i & Hi) | ?]]]%expired_spec; apply expired_spec; auto.
    simpl in Hi. apply lookup_insert_Some in Hi as [[_ ?] | [_ Hi]]; [congruence | eauto]. }
  assert (Hentry : forall y b b', y <> x -> lg_accounts l !! y = Some b ->
    entryOk strict l y b -> ac_snapshot b' = ac_snapshot b -> ac_waiters b' = ac_waiters b ->
    ac_cancelled b' = ac_cancelled b ->
    0 <= maximumBytes (ac_plan b') <= uint64_max -> 0 <= maximumObjects (ac_plan b') <= uint64_max ->
    mapSum (growthBytes y) (lg_retentions l) <= maximumBytes (ac_plan b') ->
    mapSum (growthObjects y) (lg_retentions l) <= maximumObjects (ac_plan b') ->
    (strict = true -> withinBounds b') -> entryOk strict l' y b').
  { intros y b b' Hy Hyb [E1 [B O R P W L] E3 E4 E5 E6] S1 S2 S3 R1 R2 G1 G2 Hw. split; try done; cbn.
    - lia.
    - split; rewrite ?S1, ?S2; done.
    - by rewrite S2, S3.
    - destruct (expired l' y) eqn:Ee; [auto |]. apply Howners in Ee; [| done].
      destruct E6 as [? | [Hin |]]; [auto | | congruence]. right. left. apply elem_of_app. left. by apply Hls. }
  split; cbn [l' lg_plan lg_accounts lg_leases lg_retentions lg_branches lg_producerAccounts lg_nextAddress
    lg_aggregate lg_terminated].
  - exists (setPlan p' main). unfold accounts'. rewrite lookup_insert_ne, lookup_insert_eq by done.
    destruct (lk_main _ _ Hl) as (m & Hm' & F1 & _). rewrite Hm in Hm'. injection Hm' as <-. destruct Hpl as (_ & _ & ? & ?). done.
  - intros y b. unfold accounts'. rewrite lookup_insert_Some. intros [[<- <-] | [Hne Hy]].
    + destruct (fresh_sums _ _ _ Hl Hfresh) as (S1 & S2 & S3 & S4). split; cbn; fold x; rewrite ?S1, ?S2, ?S3, ?S4; try done.
      * lia.
      * split; cbn; try done; unfold uint64_max; lia.
      * intros _. split; cbn; lia.
      * right. left. apply elem_of_app. right. by left.
    + apply lookup_insert_Some in Hy as [[<- <-] | [Hne' Hy]].
      * pose proof (growthSum_nonneg strict l initialAccount (lg_retentions l) Hl (reflexivity _)).
        eapply Hentry; try done; cbn [setPlan ac_plan]; lia.
      * pose proof (lk_accounts _ _ Hl _ _ Hy) as He. destruct He as [? [? ? ? [? ?] ? ?] [? ?] ? ? ?] eqn:E.
        eapply Hentry; try done; auto.
  - intros i lease Hi. destruct (lk_leases _ _ Hl _ _ Hi) as (? & ? & ?). split_and!; [unfold x; lia | done | auto].
  - intros i g Hi. destruct (lk_retentions _ _ Hl _ _ Hi) as (? & ? & ? & ?). split_and!; [unfold x; lia | auto | done | done].
  - intros i y [[<- <-] | [_ Hi]]%lookup_insert_Some.
    + split; [unfold x; lia |]. unfold accounts'. rewrite lookup_insert_eq. eauto.
    + destruct (lk_branches _ _ Hl _ _ Hi). split; [unfold x; lia | auto].
  - intros q y [Hq | [-> Hne]]%emplaceProducers_lookup.
    + apply (lookup_weaken _ _ _ _ Hq) in Hpr. destruct (lk_producers _ _ Hl _ _ Hpr) as (b & Hb' & H0).
      unfold accounts'. destruct (decide (y = x)) as [-> |]; [congruence |]. rewrite lookup_insert_ne by done.
      destruct (decide (y = initialAccount)) as [-> |]; [| exists b; by rewrite lookup_insert_ne].
      exists (setPlan p' main). rewrite lookup_insert_eq. rewrite Hm in Hb'. by simplify_eq.
    + exists (newAccount p bytes). unfold accounts'. rewrite lookup_insert_eq. split; [done |]. by apply Hp3.
  - destruct (lk_aggregate _ _ Hl) as [A1 A2]. rewrite A1, A2. unfold totalBytesOf at 2, totalObjectsOf at 2. cbn.
    unfold accounts'. split; rewrite mapSum_insert by done; rewrite (mapSum_update _ _ initialAccount main) by done;
      unfold totalBytesOf, totalObjectsOf; simpl; f_equal; lia.
  - apply Hl.
  - lia.
Qed.

Definition planTyped (p : MediaGraphPayloadCreditPlan) : bool :=
  (0 <=? maximumBytes p) && (maximumBytes p <=? uint64_max) &&
  (0 <=? maximumObjects p) && (maximumObjects p <=? uint64_max).

Lemma planTyped_spec p : planTyped p = true ->
  0 <= maximumBytes p <= uint64_max /\ 0 <= maximumObjects p <= uint64_max.
Proof. unfold planTyped. rewrite !andb_true_iff, !Z.leb_le. lia. Qed.

Lemma setPlan_id a : setPlan (ac_plan a) a = a.
Proof. by destruct a. Qed.

Lemma insert_main strict l main :
  ledgerOk strict l -> lg_accounts l !! initialAccount = Some main ->
  <[initialAccount := setPlan (ac_plan main) main]> (lg_accounts l) = lg_accounts l.
Proof. intros _ Hm. rewrite setPlan_id. by apply insert_id. Qed.

Lemma ad_unchanged strict l main :
  ledgerOk strict l -> lg_accounts l !! initialAccount = Some main ->
  0 <= maximumBytes (lg_plan l) -> 0 <= maximumObjects (lg_plan l) ->
  (0 <= maximumBytes (ac_plan main) <= uint64_max /\ 0 <= maximumObjects (ac_plan main) <= uint64_max) /\
  (0 <= maximumBytes (lg_plan l) /\ 0 <= maximumObjects (lg_plan l) /\
   maximumBytes (ac_plan main) = maximumBytes (lg_plan l) + mapSum (growthBytes initialAccount) (lg_retentions l) /\
   maximumObjects (ac_plan main) = maximumObjects (lg_plan l) + mapSum (growthObjects initialAccount) (lg_retentions l)) /\
  (strict = true -> withinBounds (setPlan (ac_plan main) main)).
Proof.
  intros Hl Hm H1 H2. destruct (lk_main _ _ Hl) as (m & Hm' & _ & F2 & F3). rewrite Hm in Hm'. injection Hm' as <-.
  destruct (lk_accounts _ _ Hl _ _ Hm) as [_ [_ _ _ P _ _] _ Hb _ _]. rewrite setPlan_id. done.
Qed.

Lemma eraseExpired_listed l x : x ∈ lg_branchAccounts l -> expired l x = false -> x ∈ eraseExpired l.
Proof.
  intros Hin He. unfold eraseExpired. apply list_elem_of_In, filter_In. split; [by apply list_elem_of_In |]. by rewrite He.
Qed.

Lemma ledgerOk_branch strict l plan :
  ledgerOk strict l -> planTyped plan = true -> ledgerOk strict (reserveBranch plan l).2.
Proof.
  intros Hl [P1 P2]%planTyped_spec. destruct (lk_plan _ _ Hl) as [T1 T2]. unfold reserveBranch. destruct (negb _); [done |].
  destruct (existsb _ _); [done |]. destruct (lg_accounts l !! initialAccount) as [main |] eqn:Hm; [| done].
  destruct (ac_cancelled main); [done |]. destruct (accumulateAccounts _ _) as [total |]; [| done].
  destruct (accumulate _ _ _); [| done].
  destruct (ad_unchanged _ _ _ Hl Hm T1 T2) as (U1 & U2 & U3).
  pose proof (ledgerOk_admit strict l main (newAccount plan 0) (ac_plan main) (lg_plan l) (eraseExpired l)
    (filter (fun kv => expired l kv.2 = false) (lg_producerAccounts l)) Hl) as H.
  rewrite (insert_main strict) in H by done. destruct (admitBranch _ _ _ _ _ _) as [r l'] eqn:E. apply H.
  split; try done; [by exists plan, 0 | by apply eraseExpired_listed | apply map_filter_subseteq].
Qed.

Lemma no_growth strict l x :
  ledgerOk strict l -> mapSum (growthObjects x) (lg_retentions l) = 0 ->
  mapSum (growthBytes x) (lg_retentions l) = 0.
Proof.
  intros Hl H0. apply mapSum_zero. intros i g Hi.
  assert (Hge : growthObjects x g <= mapSum (growthObjects x) (lg_retentions l)).
  { apply (mapSum_ge _ _ i); [done |]. intros j h Hj. destruct (lk_retentions _ _ Hl _ _ Hj) as (_ & _ & _ & ?).
    unfold growthObjects. destruct (_ =? _); lia. }
  destruct (lk_retentions _ _ Hl _ _ Hi) as (_ & _ & _ & ?). unfold growthObjects, growthBytes in *.
  destruct (g.1 =? x); [lia | done].
Qed.

Lemma untouched_spec a : untouched a = true ->
  sn_currentBytes (ac_snapshot a) = 0 /\ sn_currentObjects (ac_snapshot a) = 0.
Proof. unfold untouched. rewrite !andb_true_iff, !Z.eqb_eq. tauto. Qed.

Lemma ledgerOk_extract strict l sharedPlan outputPlan :
  ledgerOk strict l -> planTyped sharedPlan = true -> planTyped outputPlan = true ->
  ledgerOk strict (extractInitialBranch sharedPlan outputPlan l).2.
Proof.
  intros Hl [S1 S2]%planTyped_spec [O1 O2]%planTyped_spec. unfold extractInitialBranch. destruct (_ || _); [done |].
  destruct (lg_accounts l !! initialAccount) as [main |] eqn:Hm; [| done].
  destruct (isNil (lg_branchAccounts l)) eqn:Hnil; [| done]. cbn [negb orb].
  destruct (_ || negb (untouched main)) eqn:Eg; [done |].
  apply orb_false_iff in Eg as [Eg Eu%negb_false_iff]. apply orb_false_iff in Eg as [Eg Eb%negb_false_iff].
  apply orb_false_iff in Eg as [Eg Eo%negb_false_iff]. apply Z.eqb_eq in Eb, Eo.
  destruct (untouched_spec _ Eu) as [U1 U2].
  destruct (negb (Nat.eqb _ _)); [done |]. do 3 match goal with |- ledgerOk _ (if ?b then _ else _).2 => destruct b; [done |] end.
  destruct (lk_main _ _ Hl) as (m & Hm' & _ & F2 & F3). rewrite Hm in Hm'. injection Hm' as <-.
  assert (G2 : mapSum (growthObjects initialAccount) (lg_retentions l) = 0) by lia.
  pose proof (no_growth _ _ _ Hl G2) as G1.
  pose proof (ledgerOk_admit strict l main (newAccount outputPlan 0) sharedPlan sharedPlan [] ∅ Hl) as H.
  destruct (admitBranch _ _ _ _ _ _) as [r l'] eqn:E. apply H. split; try done.
  - by exists outputPlan, 0.
  - rewrite G1, G2. lia.
  - intros _. split; cbn; lia.
  - intros x Hin. destruct (lg_branchAccounts l); [by apply not_elem_of_nil in Hin | done].
  - apply map_empty_subseteq.
Qed.

Lemma admitLoop_untouched total main live :
  admitLoop true total (main :: live) = Success tt -> untouched main = true.
Proof. simpl. destruct (ac_cancelled main), (untouched main); done. Qed.

Lemma ledgerOk_fixed strict l bytes admission :
  ledgerOk strict l -> 0 <= bytes <= uint64_max -> ledgerOk strict (admitFixedStorage bytes admission l).2.
Proof.
  intros Hl Hbytes. destruct (lk_plan _ _ Hl) as [T1 T2]. unfold admitFixedStorage. destruct (bytes =? 0); [done |].
  destruct (lg_accounts l !! initialAccount) as [main |] eqn:Hm; [| done]. destruct (ac_cancelled main); [done |].
  destruct (ad_unchanged _ _ _ Hl Hm T1 T2) as (U1 & U2 & U3).
  destruct admission; cbn [andb].
  - destruct (admitLoop _ _ _) as [[] |]; [| done].
    pose proof (ledgerOk_admit strict l main (newAccount emptyPlan bytes) (ac_plan main) (lg_plan l) (eraseExpired l)
      (lg_producerAccounts l) Hl) as H. rewrite setPlan_id in H.
    destruct (admitBranch _ _ _ _ _ _) as [r l'] eqn:E. apply H. split; try done.
    + exists emptyPlan, bytes. by split_and!.
    + by apply eraseExpired_listed.
  - destruct (admitLoop _ _ _) as [[] |] eqn:El; [| done]. destruct (untouched_spec _ (admitLoop_untouched _ _ _ El)) as [C1 C2].
    destruct (_ || negb (_ =? maximumObjects (lg_plan l))) eqn:Eg; [done |].
    apply orb_false_iff in Eg as [Eg Eo%negb_false_iff]. apply orb_false_iff in Eg as [Elt Eb%negb_false_iff].
    apply Z.eqb_eq in Eb, Eo. apply Z.leb_gt in Elt.
    assert (G2 : mapSum (growthObjects initialAccount) (lg_retentions l) = 0) by lia.
    pose proof (no_growth _ _ _ Hl G2) as G1.
    set (shrink := fun p => setPlanBounds (u64 (maximumBytes p - bytes)) (maximumObjects p) p).
    assert (Hsh : forall p, maximumBytes p = maximumBytes (ac_plan main) ->
      maximumBytes (shrink p) = maximumBytes p - bytes /\ maximumObjects (shrink p) = maximumObjects p).
    { intros p Hp. simpl. split; [| done]. apply Z.mod_small. unfold uint64_max in *. lia. }
    destruct (Hsh (ac_plan main) eq_refl) as [Q1 Q2]. destruct (Hsh (lg_plan l) (eq_sym Eb)) as [Q3 Q4].
    pose proof (ledgerOk_admit strict l main (newAccount emptyPlan bytes) (shrink (ac_plan main)) (shrink (lg_plan l)) (eraseExpired l)
      (lg_producerAccounts l) Hl) as H. fold (shrink (ac_plan main)) (shrink (lg_plan l)).
    destruct (admitBranch _ _ _ _ _ _) as [r l'] eqn:E. apply H. split; try done.
    + exists emptyPlan, bytes. by split_and!.
    + rewrite Q1, Q2. lia.
    + rewrite Q1, Q2, Q3, Q4, G1, G2. lia.
    + intros _. split; cbn [setPlan ac_plan ac_snapshot]; rewrite ?Q1, ?Q2; lia.
    + by apply eraseExpired_listed.
Qed.

(** ** Runs *)

(** The arguments are unsigned 64-bit integers. *)
Definition callTyped (call : Call) : bool :=
  match call with
  | CallReserveBatch bytes | CallReserveOrArm _ bytes _ => forallb (Z.leb 0) bytes
  | CallShrink _ bytes => 0 <=? bytes
  | CallReserveBranch plan => planTyped plan
  | CallExtractBranch sharedPlan outputPlan => planTyped sharedPlan && planTyped outputPlan
  | CallFixedStorage bytes _ => (0 <=? bytes) && (bytes <=? uint64_max)
  | CallRetention growth => (0 <=? gr_additionalBytes growth) && (0 <=? gr_additionalObjects growth)
  | _ => true
  end.

Definition keepsRetentions (call : Call) : bool := match call with CallDropRetention _ => false | _ => true end.

Lemma forallb_nonneg bytes : forallb (Z.leb 0) bytes = true -> Forall (fun b => 0 <= b) bytes.
Proof. intros H. apply Forall_forall. intros b Hb. apply list_elem_of_In in Hb. eapply forallb_forall in H; [| done]. by apply Z.leb_le. Qed.

Lemma ledgerOk_perform strict l call :
  ledgerOk strict l -> callTyped call = true -> (strict = true -> keepsRetentions call = true) ->
  ledgerOk strict (perform call l).
Proof.
  intros Hl Ht Hk. destruct call; cbn [perform callTyped] in *.
  - by apply ledgerOk_batch, forallb_nonneg.
  - by apply ledgerOk_arm, forallb_nonneg.
  - apply ledgerOk_shrink; [done | by apply Z.leb_le].
  - by apply ledgerOk_release.
  - unfold moveAssign. destruct (_ =? _); [done | by apply ledgerOk_release].
  - by apply ledgerOk_branch.
  - apply andb_true_iff in Ht as [? ?]. by apply ledgerOk_extract.
  - apply andb_true_iff in Ht as [?%Z.leb_le ?%Z.leb_le]. by apply ledgerOk_fixed.
  - by apply ledgerOk_dropBranch.
  - apply andb_true_iff in Ht as [?%Z.leb_le ?%Z.leb_le]. by apply ledgerOk_retention.
  - destruct strict; [by specialize (Hk eq_refl) | by apply ledgerOk_dropRetention].
  - by apply ledgerOk_cancelAll.
  - by apply ledgerOk_dropWakeup.
Qed.

Lemma ledgerOk_run strict calls l :
  ledgerOk strict l -> forallb callTyped calls = true -> (strict = true -> forallb keepsRetentions calls = true) ->
  ledgerOk strict (run calls l).
Proof.
  unfold run. revert l. induction calls as [| call calls IH]; intros l Hl; [done |]. simpl.
  intros [Ht Hts]%andb_true_iff Hk. apply IH; [| done |].
  - apply ledgerOk_perform; [done | done |]. intros [? _]%Hk%andb_true_iff. done.
  - intros [_ ?]%Hk%andb_true_iff. done.
Qed.

Lemma ledgerOk_weaken l : ledgerOk true l -> ledgerOk false l.
Proof. intros []. split; try done. intros x a Hx. destruct (lk_accounts0 x a Hx). by split. Qed.

Lemma ledgerOk_create plan wakeups l : create plan wakeups = Success l -> planTyped plan = true -> ledgerOk true l.
Proof.
  unfold create. destruct (negb _); [done |]. intros [= <-] [P1 P2]%planTyped_spec.
  split; cbn [lg_plan lg_accounts lg_aggregate lg_branchAccounts lg_producerAccounts lg_leases lg_branches
    lg_retentions lg_nextAddress lg_terminated].
  - exists (newAccount plan 0). rewrite lookup_singleton_eq, !mapSum_empty. simpl. split_and!; try done; lia.
  - intros x a [<- <-]%lookup_singleton_Some. split; cbn; rewrite ?mapSum_empty; try done.
    + split; cbn; try done; lia.
    + intros _. split; cbn; lia.
    + by left.
  - by intros i lease ?%lookup_empty_Some.
  - by intros i lease ?%lookup_empty_Some.
  - by intros i lease ?%lookup_empty_Some.
  - by intros i lease ?%lookup_empty_Some.
  - unfold totalBytesOf, totalObjectsOf, mapSum. cbn [lg_accounts]. by split; rewrite map_fold_singleton.
  - done.
  - lia.
Qed.

(** C4: Credit is conserved: after any schedule of calls, the bytes and objects
    an account counts as in use are those of its live leases and granted
    waiters, the session aggregate is the sum over the accounts (modulo
    2^64), and no release has reached [std::terminate]. *)
Theorem credit_conserved plan wakeups l calls :
  create plan wakeups = Success l -> planTyped plan = true -> forallb callTyped calls = true ->
  let l' := run calls l in
  lg_terminated l' = false /\
  sn_currentBytes (lg_aggregate l') = u64 (totalBytesOf l') /\
  sn_currentObjects (lg_aggregate l') = u64 (totalObjectsOf l') /\
  forall x a, lg_accounts l' !! x = Some a ->
    sn_currentBytes (ac_snapshot a) = mapSum (leaseBytes x) (lg_leases l') + grantedBytes (ac_waiters a) /\
    sn_currentObjects (ac_snapshot a) = mapSum (leaseObjects x) (lg_leases l') + grantedObjects (ac_waiters a).
Proof.
  intros Hc Hp Ht l'. assert (Hl : ledgerOk false l').
  { apply ledgerOk_run; [| done | done]. by eapply ledgerOk_weaken, ledgerOk_create. }
  destruct (lk_aggregate _ _ Hl). split_and!; try done; [apply Hl |].
  intros x a Hx. by destruct (lk_accounts _ _ Hl _ _ Hx) as [_ [] _ _ _ _].
Qed.

(** C35: As long as no retention growth is withdrawn, no schedule of calls takes
    an account above the bytes or the objects its plan admits. *)
Theorem hard_bounds_respected plan wakeups l calls x a :
  create plan wakeups = Success l -> planTyped plan = true -> forallb callTyped calls = true ->
  forallb keepsRetentions calls = true -> lg_accounts (run calls l) !! x = Some a ->
  0 <= sn_currentBytes (ac_snapshot a) <= maximumBytes (ac_plan a) /\
  0 <= sn_currentObjects (ac_snapshot a) <= maximumObjects (ac_plan a).
Proof.
  intros Hc Hp Ht Hk Hx. assert (Hl : ledgerOk true (run calls l)) by (apply ledgerOk_run; [by eapply ledgerOk_create | done..]).
  destruct (lk_accounts _ _ Hl _ _ Hx) as [_ [_ _ R _ _ _] _ Hb _ _]. destruct (Hb eq_refl). lia.
Qed.

End MediaCreditInvariant.
