(* ===== verification/CreditWakeup.v ===== *)
(** * Which waiters a released credit wakes up

    While the wake handles of the waiters stay alive, no account is left with a
    waiter that could be served and nobody on the way: either no waiter fits, or
    one of them has been granted its credit and notified.  The loop that admits
    a retention growth stops; and a schedule in which a granted waiter dies
    leaves another one waiting for ever. *)

From stdpp Require Import gmap.
From S2P Require Import Prelude MediaResult Model CreditLedger CreditInvariant.
Import MediaGraphPayloadCreditLedger MediaCreditInvariant.

Local Open Scope Z_scope.

Module MediaCreditWakeup.

Record accountFair (alive : gset Z) (notified : list Z) (a : Account) : Prop := {
  fa_alive : Forall (fun p => pn_wakeup p ∈ alive) (ac_waiters a);
  fa_notified : Forall (fun p => pn_granted p = true -> pn_wakeup p ∈ notified) (ac_waiters a);
  fa_served : Exists (fun p => pn_granted p = true) (ac_waiters a) \/
              Forall (fun p => fits (ac_plan a) (ac_snapshot a) p = false) (ac_waiters a);
}.

(** ** [promoteOne] *)

Lemma promoteLoop_fair alive plan s before rest ws s' wakeup :
  Forall (fun p => pn_wakeup p ∈ alive) rest ->
  promoteLoop alive plan s before rest = (ws, s', wakeup) ->
  match wakeup with
  | None => ws = before ++ rest /\ s' = s /\
            Forall (fun p => pn_granted p = true \/ fits plan s p = false) rest
  | Some w => exists p l1 l2, rest = l1 ++ p :: l2 /\ ws = before ++ l1 ++ grant p :: l2 /\
                pn_wakeup p = w /\ pn_granted p = false
  end.
Proof.
  intros Hal. revert before. induction Hal as [| p rest Hp Hal IH]; intros before; cbn [promoteLoop].
  { intros [= <- <- <-]. by rewrite app_nil_r. }
  rewrite bool_decide_eq_true_2 by done. cbn [negb].
  destruct (pn_granted p || negb (fits plan s p)) eqn:E.
  - intros H%IH. destruct wakeup as [w |].
    + destruct H as (q & l1 & l2 & -> & -> & H). exists q, (p :: l1), l2. split_and!; try done; [| apply H..].
      by rewrite <- app_assoc.
    + destruct H as (-> & -> & H). rewrite <- app_assoc. split_and!; try done. constructor; [| done].
      apply orb_true_iff in E as [E | E%negb_true_iff]; auto.
  - apply orb_false_iff in E as [E _]. intros [= <- <- <-]. by exists p, [], rest.
Qed.

Lemma promoteOne_fair alive notified a a' wakeup :
  Forall (fun p => pn_wakeup p ∈ alive) (ac_waiters a) ->
  Forall (fun p => pn_granted p = true -> pn_wakeup p ∈ notified) (ac_waiters a) ->
  promoteOne alive a = (a', wakeup) ->
  accountFair alive (notified ++ option_list wakeup) a'.
Proof.
  intros Hal Hn. unfold promoteOne. destruct (promoteLoop _ _ _ _ _) as [[ws s] wk] eqn:E. intros [= <- <-].
  pose proof (promoteLoop_fair _ _ _ _ _ _ _ _ Hal E) as H. destruct wk as [w |].
  - destruct H as (p & l1 & l2 & Ew & -> & <- & Hg). rewrite Ew in Hal, Hn. cbn [app].
    apply Forall_app in Hal as [? [? ?]%Forall_cons]. apply Forall_app in Hn as [Hn1 [_ Hn2]%Forall_cons].
    split; cbn [setWaiters setSnapshot ac_waiters option_list].
    + apply Forall_app. split; [done |]. by constructor.
    + apply Forall_app. split; [| constructor].
      * eapply Forall_impl; [done |]. intros q Hq ?. apply elem_of_app. auto.
      * intros _. apply elem_of_app. right. by left.
      * eapply Forall_impl; [exact Hn2 |]. intros q Hq ?. apply elem_of_app. auto.
    + left. apply Exists_app. right. by left.
  - destruct H as (-> & -> & Hf). cbn [app option_list]. rewrite app_nil_r. split; cbn; try done.
    destruct (decide (Exists (fun p => pn_granted p = true) (ac_waiters a))) as [? | Hno]; [by left |]. right.
    apply Forall_not_Exists in Hno || apply not_Exists_Forall in Hno; [| intros; apply _].
    apply Forall_forall. intros p Hin. rewrite Forall_forall in Hf, Hno. destruct (Hf p Hin) as [? | ?]; [| done].
    by destruct (Hno p Hin).
Qed.

(** Fewer waiters are without a grant after every round. *)
Definition ungranted (ws : list Pending) : nat := length (List.filter (fun p => negb (pn_granted p)) ws).

Lemma promoteOne_decreases alive a a' w :
  Forall (fun p => pn_wakeup p ∈ alive) (ac_waiters a) -> promoteOne alive a = (a', Some w) ->
  Forall (fun p => pn_wakeup p ∈ alive) (ac_waiters a') /\ S (ungranted (ac_waiters a')) = ungranted (ac_waiters a).
Proof.
  intros Hal. unfold promoteOne. destruct (promoteLoop _ _ _ _ _) as [[ws s] wk] eqn:E. intros [= <- ->].
  pose proof (promoteLoop_fair _ _ _ _ _ _ _ _ Hal E) as (p & l1 & l2 & Ew & -> & <- & Hg). cbn [app setWaiters ac_waiters].
  rewrite Ew in *. apply Forall_app in Hal as [? [? ?]%Forall_cons]. split; [apply Forall_app; split; [done | by constructor] |].
  unfold ungranted. rewrite !List.filter_app, !length_app. cbn [List.filter]. rewrite Hg. simpl. lia.
Qed.

(** The loop reaches a state in which nobody can be served. *)
Lemma promoteAll_done fuel alive a a' ws notified :
  Forall (fun p => pn_wakeup p ∈ alive) (ac_waiters a) ->
  Forall (fun p => pn_granted p = true -> pn_wakeup p ∈ notified) (ac_waiters a) ->
  (ungranted (ac_waiters a) < fuel)%nat -> promoteAll fuel alive a = (a', ws) ->
  accountFair alive (notified ++ ws) a' /\ promoteOne alive a' = (a', None).
Proof.
  revert a ws notified. induction fuel as [| fuel IH]; intros a ws notified Hal Hn Hf; [lia |]. cbn [promoteAll].
  destruct (promoteOne alive a) as [a1 [w |]] eqn:E1; pose proof (promoteOne_fair _ _ _ _ _ Hal Hn E1) as [F1 F2 F3].
  - destruct (promoteAll fuel alive a1) as [a2 ws2] eqn:E2. intros [= <- <-].
    destruct (promoteOne_decreases _ _ _ _ Hal E1) as [H1 H2].
    destruct (IH a1 ws2 (notified ++ [w]) H1 F2 ltac:(lia) E2) as [Hf2 Hp]. by rewrite <- app_assoc in Hf2.
  - intros [= <- <-]. split; [by split |]. revert E1. unfold promoteOne.
    destruct (promoteLoop _ _ _ _ _) as [[ws s] wk] eqn:E. intros [= Ea ->].
    destruct (promoteLoop_fair _ _ _ _ _ _ _ _ Hal E) as (-> & -> & _). rewrite <- Ea. cbn [app setWaiters setSnapshot ac_plan ac_snapshot ac_waiters].
    rewrite E. by destruct a.
Qed.

(** Every round but the last serves one waiter. *)
Lemma promoteAll_count fuel alive a a' ws :
  Forall (fun p => pn_wakeup p ∈ alive) (ac_waiters a) -> promoteAll fuel alive a = (a', ws) ->
  (length ws + ungranted (ac_waiters a'))%nat = ungranted (ac_waiters a).
Proof.
  revert a ws. induction fuel as [| fuel IH]; intros a ws Hal; simpl; [by intros [= <- <-] |].
  destruct (promoteOne alive a) as [a1 [w |]] eqn:E1.
  - destruct (promoteAll fuel alive a1) as [a2 ws2] eqn:E2. intros [= <- <-].
    destruct (promoteOne_decreases _ _ _ _ Hal E1) as [H1 H2]. specialize (IH _ _ H1 E2). simpl. lia.
  - intros [= <- <-]. revert E1. unfold promoteOne. destruct (promoteLoop _ _ _ _ _) as [[w s] wk] eqn:E. intros [= <- ->].
    by destruct (promoteLoop_fair _ _ _ _ _ _ _ _ Hal E) as (-> & -> & _).
Qed.

(** ** Ledgers *)

Record ledgerFair (alive : gset Z) (l : Ledger) : Prop := {
  lf_alive : lg_wakeups l = alive;
  lf_accounts : forall x a, lg_accounts l !! x = Some a -> accountFair alive (lg_notified l) a;
}.

Lemma fair_nil alive notified a : ac_waiters a = [] -> accountFair alive notified a.
Proof. intros H. split; rewrite H; auto. Qed.

Lemma fair_notified alive notified ws a : accountFair alive notified a -> accountFair alive (notified ++ ws) a.
Proof.
  intros [H1 H2 H3]. split; try done. eapply Forall_impl; [exact H2 |]. intros p Hp Hg. apply elem_of_app. auto.
Qed.

Lemma fair_section alive l x a a' leases' next' ws :
  ledgerFair alive l -> accountFair alive (lg_notified l ++ ws) a' ->
  ledgerFair alive (section x a a' leases' next' ws l).
Proof.
  intros [H1 H2] Ha. split; [done |]. cbn. intros y b [[<- <-] | [_ Hy]]%lookup_insert_Some; [done |].
  by apply fair_notified, (H2 y).
Qed.

(** Using more of an account serves nobody new. *)
Lemma fair_mono alive notified a a' :
  accountFair alive notified a -> ac_waiters a' = ac_waiters a ->
  (forall b o, 0 <= b -> 0 <= o -> fitsDemand (ac_plan a) (ac_snapshot a) b o = false ->
     fitsDemand (ac_plan a') (ac_snapshot a') b o = false) ->
  Forall waiterOk (ac_waiters a) -> accountFair alive notified a'.
Proof.
  intros [H1 H2 H3] Hw Hm Hok. split; rewrite Hw; try done. destruct H3 as [? | H3]; [by left | right].
  apply Forall_forall. intros p Hin. rewrite Forall_forall in H3, Hok. apply Hm; [by apply waiterOk_total, Hok | unfold objectsOf; lia |].
  by apply H3.
Qed.

Lemma fits_less plan plan' s s' b o :
  sn_currentBytes s <= sn_currentBytes s' -> sn_currentObjects s <= sn_currentObjects s' ->
  maximumBytes plan' <= maximumBytes plan -> maximumObjects plan' <= maximumObjects plan ->
  fitsDemand plan s b o = false -> fitsDemand plan' s' b o = false.
Proof.
  intros H1 H2 H3 H4 Hf. apply not_true_iff_false. intros Ht. apply not_true_iff_false in Hf. apply Hf.
  rewrite fitsDemand_spec in *. lia.
Qed.

Section Fair.
Context (strict : bool) (alive : gset Z) (l : Ledger).
Hypothesis Hl : ledgerOk strict l.
Hypothesis Hf : ledgerFair alive l.

Lemma account_books x a : lg_accounts l !! x = Some a ->
  accountOk (mapSum (leaseBytes x) (lg_leases l)) (mapSum (leaseObjects x) (lg_leases l)) a.
Proof. intros Hx. by destruct (lk_accounts _ _ Hl _ _ Hx). Qed.

(** An admitted demand. *)
Lemma fair_admit x a bytes r :
  lg_accounts l !! x = Some a -> Forall (fun b => 0 <= b) bytes ->
  fitsDemand (ac_plan a) (ac_snapshot a) (listSum bytes) (Z.of_nat (length bytes)) = true ->
  accountFair alive (lg_notified l) (setSnapshot (addReservations r
    (addCurrent (listSum bytes) (Z.of_nat (length bytes)) (ac_snapshot a))) a).
Proof.
  intros Hx Hb Hfit. pose proof (account_books x a Hx) as [B O R P W L]. pose proof (listSum_nonneg _ Hb).
  destruct (addCurrent_fits _ _ _ _ Hfit) as (A1 & A2 & A3 & A4); try lia.
  eapply fair_mono; [by eapply lf_accounts | done | | done]. intros b o _ _. apply fits_less; cbn [setSnapshot ac_plan ac_snapshot];
    change (sn_currentBytes (addReservations ?r ?s)) with (sn_currentBytes s);
    change (sn_currentObjects (addReservations ?r ?s)) with (sn_currentObjects s); lia.
Qed.

Lemma fair_batch bytes : Forall (fun b => 0 <= b) bytes -> ledgerFair alive (tryReserveBatch bytes l).2.
Proof.
  intros Hb. unfold tryReserveBatch. destruct bytes as [| b0 bytes0]; [done |].
  set (bytes := b0 :: bytes0) in *. cbn [isNil bytes]. fold bytes.
  destruct (sumDemand _ _ _ _ _) as [total |] eqn:Esum; [| done].
  destruct (sumDemand_spec _ _ _ _ _ _ (Z.le_refl 0) Hb Esum) as [[-> _] | [? _]]; [| done]. rewrite Z.add_0_l in *.
  destruct (lg_accounts l !! initialAccount) as [main |] eqn:Hm; [| done]. destruct (ac_cancelled main); [done |].
  destruct (fitsDemand _ _ _ _) eqn:Efit; cbn [negb].
  - unfold addLeases. destruct (grantLeases _ _ _ _) as [ids leases'] eqn:Eg. cbn [snd].
    rewrite <- notify_nil. apply fair_section; [done |]. rewrite app_nil_r. by eapply fair_admit.
  - cbn [snd]. rewrite publish_plain. apply fair_section; [done |]. rewrite app_nil_r.
    eapply fair_mono; [by eapply lf_accounts | done | done | by apply (account_books initialAccount)].
Qed.

Lemma eraseWaiter_Forall (Q : Pending -> Prop) producer ws : Forall Q ws -> Forall Q (eraseWaiter producer ws).
Proof. induction 1 as [| p ws Hp H IH]; simpl; [done |]. destruct (_ =? _); [done | by constructor]. Qed.

Lemma fair_arm producer bytes wakeup :
  Forall (fun b => 0 <= b) bytes -> (forall w, wakeup = Some w -> w ∈ alive) ->
  ledgerFair alive (tryReserveOrArm producer bytes wakeup l).2.
Proof.
  intros Hb Hw. unfold tryReserveOrArm. destruct wakeup as [wakeup |]; [| done]. destruct (negb _); [done |].
  destruct bytes as [| b0 bytes0]; [done |]. set (bytes := b0 :: bytes0) in *. cbn [isNil bytes orb]. fold bytes.
  destruct (accountForProducer producer l) as [x |] eqn:Ex; [| done].
  destruct (lg_accounts l !! x) as [a |] eqn:Ha; [| done].
  destruct (sumDemand _ _ _ _ _) as [total |] eqn:Esum; [| done].
  destruct (sumDemand_spec _ _ _ _ _ _ (Z.le_refl 0) Hb Esum) as [[-> _] | [? _]]; [| done]. rewrite Z.add_0_l in *.
  destruct (ac_cancelled a) eqn:Ec; [done |].
  pose proof (lf_accounts _ _ Hf _ _ Ha) as [F1 F2 F3]. pose proof (account_books x a Ha) as E2.
  destruct (findFirst _ (ac_waiters a)) as [p |] eqn:Ep.
  - destruct (negb (sameDemand p bytes)); [done |]. destruct (negb (pn_granted p)); [done |].
    unfold addLeases. destruct (grantLeases _ _ _ _) as [ids leases'] eqn:Egr.
    destruct (promoteOne _ _) as [a' next] eqn:Epr. cbn [snd]. rewrite notifyOption_list. apply fair_section; [done |].
    rewrite (lf_alive _ _ Hf) in Epr. eapply promoteOne_fair; [.. | exact Epr]; by apply eraseWaiter_Forall.
  - destruct (fits _ _ _) eqn:Efit.
    + unfold addLeases. destruct (grantLeases _ _ _ _) as [ids leases'] eqn:Egr. cbn [snd].
      rewrite <- notify_nil. apply fair_section; [done |]. rewrite app_nil_r. by eapply fair_admit.
    + cbn [snd]. rewrite publish_plain. apply fair_section; [done |]. rewrite app_nil_r.
      split; cbn [setWaiters setSnapshot ac_waiters ac_plan ac_snapshot].
      * apply Forall_app. split; [done |]. apply Forall_singleton. by apply Hw.
      * apply Forall_app. split; [done |]. by apply Forall_singleton.
      * destruct F3 as [? | F3]; [left; apply Exists_app; by left | right]. apply Forall_app. split; [done |]. by apply Forall_singleton.
Qed.

Lemma fair_release i : ledgerFair alive (release i l).
Proof.
  unfold release. destruct (lg_leases l !! i) as [lease |] eqn:Hi; [| done].
  destruct (lg_accounts l !! le_account lease) as [a |] eqn:Ha; [| done].
  destruct (_ || _); [destruct Hf; by split |]. destruct (promoteOne _ _) as [a' w] eqn:Epr.
  rewrite notifyOption_list. apply fair_section; [done |].
  rewrite (lf_alive _ _ Hf) in Epr. pose proof (lf_accounts _ _ Hf _ _ Ha) as [F1 F2 F3].
  by eapply promoteOne_fair; [.. | exact Epr].
Qed.

Lemma fair_shrink i bytes : 0 <= bytes -> ledgerFair alive (shrinkTo i bytes l).2.
Proof.
  intros Hbytes. unfold shrinkTo. destruct (lg_leases l !! i) as [lease |] eqn:Hi; [| done].
  destruct (Z.ltb_spec (le_bytes lease) bytes); [done |].
  destruct (lg_accounts l !! le_account lease) as [a |] eqn:Ha; [| done]. destruct (_ <? _); [done |].
  pose proof (lf_accounts _ _ Hf _ _ Ha) as Hfa. pose proof (account_books _ _ Ha) as [B O R P W L].
  destruct (if 0 <? _ then promoteOne _ _ else _) as [a' w] eqn:Epr. cbn [snd].
  rewrite notifyOption_list. apply fair_section; [done |]. destruct (Z.ltb_spec 0 (le_bytes lease - bytes)).
  - rewrite (lf_alive _ _ Hf) in Epr. destruct Hfa as [F1 F2 F3]. by eapply promoteOne_fair; [.. | exact Epr].
  - injection Epr as <- <-. rewrite app_nil_r. replace (le_bytes lease - bytes) with 0 by lia.
    destruct (subCurrent_within 0 0 (ac_snapshot a)) as [S1 S2]; try lia.
    eapply fair_mono; [done | done | | done]. intros b o _ _. apply fits_less; cbn [setSnapshot ac_plan ac_snapshot]; lia.
Qed.

Lemma fair_cancelAccount x : ledgerFair alive (cancelAccount x l).
Proof.
  unfold cancelAccount. destruct (lg_accounts l !! x) as [a |] eqn:Ha; [| done]. set (ws := List.filter _ _).
  change (publishAccount x a ?a' (notify ws l)) with (notify ws (publishAccount x a a' l)).
  rewrite section_plain. apply fair_section; [done |]. by apply fair_nil.
Qed.

Lemma fair_retention growth :
  0 <= gr_additionalBytes growth -> 0 <= gr_additionalObjects growth ->
  ledgerFair alive (reserveRetentionGrowth growth l).2.
Proof.
  intros Hgb Hgo. unfold reserveRetentionGrowth. destruct (_ || _); [done |].
  destruct (accountForProducer _ l) as [x |] eqn:Ex; [| done].
  destruct (lg_accounts l !! initialAccount) as [main |]; [| done].
  destruct (lg_accounts l !! x) as [target |] eqn:Hx; [| done].
  destruct (accumulateAccounts _ _); [| done]. destruct (ac_cancelled target); [done |].
  set (plan' := setPlanBounds _ _ _). destruct (promoteAll _ _ _) as [target' ws] eqn:Epr. cbn [snd].
  rewrite section_plain. set (l1 := section _ _ _ _ _ _ _).
  assert (H1 : ledgerFair alive l1); [| by destruct H1; split].
  apply fair_section; [done |]. pose proof (lf_accounts _ _ Hf _ _ Hx) as [F1 F2 F3]. rewrite (lf_alive _ _ Hf) in Epr.
  eapply promoteAll_done in Epr as [? _]; [done | done | done |]. cbn [setPlan ac_waiters]. unfold ungranted.
  pose proof (List.filter_length_le (fun p => negb (pn_granted p)) (ac_waiters target)). lia.
Qed.

Lemma fair_dropRetention r : ledgerFair alive (dropRetention r l).
Proof.
  unfold dropRetention. destruct (lg_retentions l !! r) as [[x growth] |] eqn:Hr; [| done].
  destruct (lk_retentions _ _ Hl _ _ Hr) as (_ & [a Ha] & Hgb & Hgo). simpl in Ha, Hgb, Hgo. rewrite Ha.
  destruct Hf as [Hal Hacc]. split; [done |]. cbn. intros y b [[<- <-] | [_ Hy]]%lookup_insert_Some; [| by apply (Hacc y)].
  destruct (lk_accounts _ _ Hl _ _ Ha) as [_ [B O R P W L] [G1 G2] _ _ _].
  assert (Hge : forall f, (forall i g, lg_retentions l !! i = Some g -> 0 <= f g) -> f (x, growth) <= mapSum f (lg_retentions l))
    by (intros f Hp; by eapply mapSum_ge).
  pose proof (Hge (growthBytes x)) as K1. pose proof (Hge (growthObjects x)) as K2.
  assert (K0 : growthBytes x (x, growth) = gr_additionalBytes growth /\ growthObjects x (x, growth) = gr_additionalObjects growth)
    by (unfold growthBytes, growthObjects; simpl; by rewrite Z.eqb_refl). destruct K0 as [K4 K5]. rewrite K4 in K1. rewrite K5 in K2.
  assert (K3 : forall i g, lg_retentions l !! i = Some g -> 0 <= growthBytes x g /\ 0 <= growthObjects x g).
  { intros i g Hi. destruct (lk_retentions _ _ Hl _ _ Hi) as (_ & _ & ? & ?). unfold growthBytes, growthObjects. destruct (_ =? _); lia. }
  specialize (K1 ltac:(intros i g Hi; by apply (K3 i))). specialize (K2 ltac:(intros i g Hi; by apply (K3 i))).
  eapply fair_mono; [by apply (Hacc x) | done | | done]. intros b' o _ _. apply fits_less; cbn [setPlan ac_plan ac_snapshot]; try lia;
    simpl; unfold u64; rewrite Z.mod_small; unfold uint64_max in *; lia.
Qed.

(** Admissions change the plan of the initial account only while it has no
    waiter. *)
Lemma fair_admitBranch a plan' main' branchAccounts producerAccounts :
  ac_waiters a = [] -> (forall main, lg_accounts l !! initialAccount = Some main -> main' = main \/ ac_waiters main' = []) ->
  is_Some (lg_accounts l !! initialAccount) ->
  ledgerFair alive (admitBranch a plan' (<[initialAccount := main']> (lg_accounts l)) branchAccounts producerAccounts l).2.
Proof.
  intros Ha Hm [main Hmain]. destruct Hf as [Hal Hacc]. split; [done |]. cbn.
  intros y b [[<- <-] | [_ Hy]]%lookup_insert_Some; [by apply fair_nil |].
  apply lookup_insert_Some in Hy as [[<- <-] | [_ Hy]]; [| by apply (Hacc y)].
  destruct (Hm main Hmain) as [-> | ?]; [by apply (Hacc initialAccount) | by apply fair_nil].
Qed.

Lemma fair_branch plan : ledgerFair alive (reserveBranch plan l).2.
Proof.
  unfold reserveBranch. destruct (negb _); [done |]. destruct (existsb _ _); [done |].
  destruct (lg_accounts l !! initialAccount) as [main |] eqn:Hm; [| done]. destruct (ac_cancelled main); [done |].
  destruct (accumulateAccounts _ _); [| done]. destruct (accumulate _ _ _); [| done].
  pose proof (fair_admitBranch (newAccount plan 0) (lg_plan l) main (eraseExpired l)
    (filter (fun kv => expired l kv.2 = false) (lg_producerAccounts l)) eq_refl) as H.
  rewrite (insert_id _ _ _ Hm) in H. destruct (admitBranch _ _ _ _ _ _) as [r l']. apply H; [| done].
  intros m. rewrite Hm. intros [= ->]. by left.
Qed.

Lemma untouched_waiters a : untouched a = true -> ac_waiters a = [].
Proof. unfold untouched. rewrite !andb_true_iff. intros [_ H]. by destruct (ac_waiters a). Qed.

Lemma fair_extract sharedPlan outputPlan : ledgerFair alive (extractInitialBranch sharedPlan outputPlan l).2.
Proof.
  unfold extractInitialBranch. destruct (_ || _); [done |].
  destruct (lg_accounts l !! initialAccount) as [main |] eqn:Hm; [| done].
  destruct (untouched main) eqn:Eu; [| by rewrite orb_true_r].
  do 5 match goal with |- ledgerFair _ (if ?b then _ else _).2 => destruct b; [done |] end.
  pose proof (fair_admitBranch (newAccount outputPlan 0) sharedPlan (setPlan sharedPlan main) [] ∅ eq_refl) as H.
  destruct (admitBranch _ _ _ _ _ _) as [r l']. apply H; [| done]. intros m _. right. by apply untouched_waiters.
Qed.

Lemma fair_fixed bytes admission : ledgerFair alive (admitFixedStorage bytes admission l).2.
Proof.
  unfold admitFixedStorage. destruct (bytes =? 0); [done |].
  destruct (lg_accounts l !! initialAccount) as [main |] eqn:Hm; [| done]. destruct (ac_cancelled main); [done |].
  destruct (admitLoop _ _ _) as [[] |] eqn:El; [| done].
  match goal with |- ledgerFair _ (if ?b then _ else _).2 => destruct b; [done |] end.
  set (main' := if _ : bool then _ else main). set (plan' := if _ : bool then _ else lg_plan l).
  pose proof (fair_admitBranch (newAccount emptyPlan bytes) plan' main' (eraseExpired l) (lg_producerAccounts l) eq_refl) as H.
  destruct (admitBranch _ _ _ _ _ _) as [r l']. apply H; [| done]. intros m. rewrite Hm. intros [= <-]. unfold main'.
  destruct admission; [by left | right]. apply admitLoop_untouched in El. by apply untouched_waiters.
Qed.

End Fair.

(** The wake handles outlive the schedule. *)
Definition callAlive (alive : gset Z) (call : Call) : bool :=
  match call with
  | CallReserveOrArm _ _ (Some w) => bool_decide (w ∈ alive)
  | CallDropWakeup _ => false
  | _ => true
  end.

Lemma fair_perform alive l call :
  ledgerOk false l -> ledgerFair alive l -> callTyped call = true -> callAlive alive call = true ->
  ledgerFair alive (perform call l).
Proof.
  intros Hl Hf Ht Hc. destruct call as [bytes | p bytes w | i b | i | t s | plan | sp op | b adm | r | g | r | | w];
    cbn [perform callTyped callAlive] in *.
  - by eapply fair_batch, forallb_nonneg.
  - eapply fair_arm; [done | done | by apply forallb_nonneg |]. intros w' ->. by apply bool_decide_eq_true in Hc.
  - by eapply fair_shrink, Z.leb_le.
  - by apply fair_release.
  - unfold moveAssign. destruct (_ =? _); [done | by apply fair_release].
  - by apply fair_branch.
  - by apply fair_extract.
  - by apply fair_fixed.
  - unfold dropBranch. destruct (lg_branches l !! r); [| done].
    pose proof (fair_cancelAccount alive l Hf z) as []. by split.
  - apply andb_true_iff in Ht as [?%Z.leb_le ?%Z.leb_le]. by eapply fair_retention.
  - by eapply fair_dropRetention.
  - unfold cancelBlockedWaiters. generalize (lg_branchAccounts l). intros xs.
    pose proof (fair_cancelAccount alive l Hf initialAccount) as Hf'. revert Hf'. generalize (cancelAccount initialAccount l).
    induction xs as [| x xs IH]; intros l' Hf'; [done |]. simpl. apply IH. destruct (expired l x); [done |].
    by apply fair_cancelAccount.
  - done.
Qed.

(** C8: While no wake handle dies, no wake-up is lost: after any schedule of
    calls, if some waiter of an account fits into the credit left, then a
    waiter of that account has been granted its credit, and every granted waiter
    has been notified (and the collection of a grant promotes the next one). *)
Theorem no_lost_wakeup plan wakeups l calls x a :
  create plan wakeups = Success l -> planTyped plan = true -> forallb callTyped calls = true ->
  forallb (callAlive wakeups) calls = true -> lg_accounts (run calls l) !! x = Some a ->
  (Exists (fun p => fits (ac_plan a) (ac_snapshot a) p = true) (ac_waiters a) ->
   Exists (fun p => pn_granted p = true) (ac_waiters a)) /\
  Forall (fun p => pn_granted p = true -> pn_wakeup p ∈ lg_notified (run calls l)) (ac_waiters a).
Proof.
  intros Hc Hp Ht Ha Hx.
  assert (H : ledgerOk false (run calls l) /\ ledgerFair wakeups (run calls l)).
  { assert (Hl : ledgerOk false l).
    { by eapply ledgerOk_weaken, ledgerOk_create. }
    assert (Hf : ledgerFair wakeups l).
    { revert Hc. unfold create. destruct (negb _); [done |]. intros [= <-]. split; [done |].
      cbn [lg_accounts]. intros y b [<- <-]%lookup_singleton_Some. by apply fair_nil. }
    clear Hc Hx. unfold run. revert l Hl Hf. induction calls as [| call calls IH]; intros l Hl Hf; [done |].
    simpl in *. apply andb_true_iff in Ht as [? ?], Ha as [? ?]. apply IH; try done.
    - by apply ledgerOk_perform.
    - by apply fair_perform. }
  destruct H as [_ [_ H]]. destruct (H _ _ Hx) as [F1 F2 F3]. split; [| done].
  intros He. destruct F3 as [? | F3]; [done |]. exfalso. apply Exists_exists in He as (p & Hin & Hfit).
  rewrite Forall_forall in F3. rewrite F3 in Hfit; done.
Qed.

(** *** The loop after a retention growth *)

(** A round keeps only waiters whose handle is alive, and a round that serves a
    waiter leaves fewer without a grant. *)
Lemma promoteLoop_live alive plan s before rest ws s' w : promoteLoop alive plan s before rest = (ws, s', w) ->
  (length ws <= length before + length rest)%nat /\
  (Forall (fun p => pn_wakeup p ∈ alive) before -> w = None -> Forall (fun p => pn_wakeup p ∈ alive) ws) /\
  match w with
  | Some _ => (ungranted ws < ungranted before + ungranted rest)%nat
  | None => (ungranted ws <= ungranted before + ungranted rest)%nat
  end.
Proof.
  revert s before. unfold ungranted. induction rest as [| p rest IH]; intros s before; cbn [promoteLoop].
  { intros [= <- _ <-]. cbn. split_and!; [lia | done | lia]. }
  cbn [List.filter]. destruct (bool_decide (pn_wakeup p ∈ alive)) eqn:Ealive; cbn [negb].
  - destruct (_ || _) eqn:Ekeep.
    + intros (H1 & H2 & H3)%IH. rewrite length_app in H1. cbn in H1. rewrite List.filter_app, length_app in H3. cbn in H3.
      split_and!; [cbn; lia | |].
      * intros Hb Hw. apply H2; [| done]. apply Forall_app. split; [done |]. apply bool_decide_eq_true in Ealive. by constructor.
      * destruct (negb (pn_granted p)); cbn in H3 |- *; destruct w; lia.
    + apply orb_false_iff in Ekeep as [Eg _]. intros [= <- _ <-]. rewrite List.filter_app, !length_app, Eg. cbn.
      split_and!; [lia | done | lia].
  - intros (H1 & H2 & H3)%IH. split_and!; [cbn; lia | done |].
    destruct (negb (pn_granted p)); cbn; destruct w; lia.
Qed.

Lemma promoteOne_live alive a a' w : promoteOne alive a = (a', w) ->
  (length (ac_waiters a') <= length (ac_waiters a))%nat /\
  (w = None -> Forall (fun p => pn_wakeup p ∈ alive) (ac_waiters a')) /\
  match w with
  | Some _ => (ungranted (ac_waiters a') < ungranted (ac_waiters a))%nat
  | None => (ungranted (ac_waiters a') <= ungranted (ac_waiters a))%nat
  end.
Proof.
  unfold promoteOne. destruct (promoteLoop _ _ _ _ _) as [[ws s] wk] eqn:E. intros [= <- <-].
  destruct (promoteLoop_live _ _ _ _ _ _ _ _ E) as (H1 & H2 & H3). cbn [setWaiters ac_waiters] in *. cbn [length Nat.add] in H1.
  change (ungranted []) with 0%nat in H3. split_and!; [lia | by auto | exact H3].
Qed.

(** Enough rounds are as good as any number of them. *)
Lemma promoteAll_ends fuel alive a a' ws more : (ungranted (ac_waiters a) < fuel)%nat -> promoteAll fuel alive a = (a', ws) ->
  promoteAll (fuel + more) alive a = (a', ws) /\ Forall (fun p => pn_wakeup p ∈ alive) (ac_waiters a') /\
  (length ws + ungranted (ac_waiters a') <= ungranted (ac_waiters a))%nat.
Proof.
  revert a a' ws. induction fuel as [| fuel IH]; intros a a' ws Hf; [lia |]. cbn [promoteAll Nat.add].
  destruct (promoteOne alive a) as [a1 [w |]] eqn:E1; destruct (promoteOne_live _ _ _ _ E1) as (_ & Hlive & Hless).
  - destruct (promoteAll fuel alive a1) as [a2 ws2] eqn:E2. intros [= <- <-].
    destruct (IH a1 a2 ws2 ltac:(lia) E2) as (-> & Hl & Hc). split_and!; [done | done | cbn; lia].
  - intros [= <- <-]. split_and!; [done | by apply Hlive | cbn; lia].
Qed.

(** C40: The loop that serves waiters after a retention growth ends, whatever wake
    handles have died: one round per waiter and one more is enough, further
    rounds change nothing, every waiter left has a live handle, and no more
    waiters are notified than were without a grant.  If all handles were alive, nobody is left who could be promoted. *)
Theorem retention_promotion_terminates alive a a' ws :
  promoteAll (S (length (ac_waiters a))) alive a = (a', ws) ->
  (forall more, promoteAll (S (length (ac_waiters a)) + more) alive a = (a', ws)) /\
  Forall (fun p => pn_wakeup p ∈ alive) (ac_waiters a') /\
  (length ws + ungranted (ac_waiters a') <= ungranted (ac_waiters a))%nat /\
  (Forall (fun p => pn_wakeup p ∈ alive) (ac_waiters a) ->
   promoteOne alive a' = (a', None) /\ length ws = (ungranted (ac_waiters a) - ungranted (ac_waiters a'))%nat).
Proof.
  intros E. pose proof (List.filter_length_le (fun p => negb (pn_granted p)) (ac_waiters a)) as Hle. fold (ungranted (ac_waiters a)) in Hle.
  destruct (promoteAll_ends (S (length (ac_waiters a))) alive a a' ws 0 ltac:(lia) E) as (_ & Hl & Hc).
  split; [intros more; by apply promoteAll_ends; [lia |] |]. split; [done |]. split; [done |].
  intros Hal. assert (Hn : Forall (fun p => pn_granted p = true -> pn_wakeup p ∈ (pn_wakeup <$> ac_waiters a)) (ac_waiters a)).
  { apply Forall_forall. intros p Hp _. by apply list_elem_of_fmap_2. }
  split; [by eapply promoteAll_done; [.. | exact E]; [done | exact Hn | lia] |].
  pose proof (promoteAll_count _ _ _ _ _ Hal E). lia.
Qed.

(** ** A session of three producers *)

Definition packetProducer (node : Z) : MediaGraphPayloadProducerStrategy :=
  mkProducerStrategy node Stream_Video Payload_Packet Accounting_EngineManagedBytesAndObject None 100 true "planner".

Definition examplePlan : MediaGraphPayloadCreditPlan :=
  mkCreditPlan 100 10 100 1 Integration_Complete "planner" (packetProducer <$> [1; 2; 3]) [].

Definition exampleLedger : Ledger :=
  mkLedger examplePlan {[initialAccount := newAccount examplePlan 0]} emptySnapshot [] ∅ ∅ ∅ ∅ {[11; 12; 13]} [] 1 false.

(** Producer 3 fills the account; producers 1 and 2 wait for 80 and 50 bytes; the
    shrunk lease lets the second in. *)
Definition waitingCalls : list Call :=
  [CallReserveOrArm 3 [100] (Some 13); CallReserveOrArm 1 [80] (Some 11); CallReserveOrArm 2 [50] (Some 12);
   CallShrink 1 40].

Lemma credit_conserved_witness :
  let l' := run waitingCalls exampleLedger in
  lg_terminated l' = false /\
  sn_currentBytes (lg_aggregate l') = u64 (totalBytesOf l') /\
  sn_currentObjects (lg_aggregate l') = u64 (totalObjectsOf l') /\
  forall x a, lg_accounts l' !! x = Some a ->
    sn_currentBytes (ac_snapshot a) = mapSum (leaseBytes x) (lg_leases l') + grantedBytes (ac_waiters a) /\
    sn_currentObjects (ac_snapshot a) = mapSum (leaseObjects x) (lg_leases l') + grantedObjects (ac_waiters a).
Proof. by apply (credit_conserved examplePlan {[11; 12; 13]} exampleLedger waitingCalls). Defined.

Lemma hard_bounds_respected_witness :
  exists a, lg_accounts (run waitingCalls exampleLedger) !! initialAccount = Some a /\
    sn_currentBytes (ac_snapshot a) = 90 /\
    (0 <= sn_currentBytes (ac_snapshot a) <= maximumBytes (ac_plan a) /\
     0 <= sn_currentObjects (ac_snapshot a) <= maximumObjects (ac_plan a)).
Proof.
  destruct (lg_accounts (run waitingCalls exampleLedger) !! initialAccount) as [a |] eqn:E; [| by vm_compute in E].
  exists a. split; [done |]. split.
  - vm_compute in E. injection E as <-. reflexivity.
  - by apply (hard_bounds_respected examplePlan {[11; 12; 13]} exampleLedger waitingCalls initialAccount a).
Defined.

Lemma no_lost_wakeup_witness :
  exists a, lg_accounts (run waitingCalls exampleLedger) !! initialAccount = Some a /\
    lg_notified (run waitingCalls exampleLedger) = [12] /\
    ((Exists (fun p => fits (ac_plan a) (ac_snapshot a) p = true) (ac_waiters a) ->
      Exists (fun p => pn_granted p = true) (ac_waiters a)) /\
     Forall (fun p => pn_granted p = true -> pn_wakeup p ∈ lg_notified (run waitingCalls exampleLedger)) (ac_waiters a)).
Proof.
  destruct (lg_accounts (run waitingCalls exampleLedger) !! initialAccount) as [a |] eqn:E; [| by vm_compute in E].
  exists a. split; [done |]. split; [by vm_compute |].
  by apply (no_lost_wakeup examplePlan {[11; 12; 13]} exampleLedger waitingCalls initialAccount a).
Defined.

(** The handle of producer 3 is dead. *)
Lemma retention_promotion_terminates_witness :
  let a := setWaiters [mkPending 3 [5] 5 13 false; mkPending 1 [80] 80 11 false; mkPending 2 [50] 50 12 false] (newAccount examplePlan 0) in
  let '(a', ws) := promoteAll 4 {[11; 12]} a in
  ws = [11] /\ Forall (fun p => pn_wakeup p ∈ ({[11; 12]} : gset Z)) (ac_waiters a') /\
  promoteAll 9 {[11; 12]} a = (a', ws).
Proof.
  intros a. destruct (promoteAll 4 {[11; 12]} a) as [a' ws] eqn:E.
  destruct (retention_promotion_terminates {[11; 12]} a a' ws E) as (H1 & H2 & _).
  split; [vm_compute in E; by injection E as _ <- |]. split; [exact H2 | exact (H1 5%nat)].
Defined.

(** The wake handle of the granted waiter dies before it collects; then the last
    lease is released. *)
Definition abandonedCalls : list Call := waitingCalls ++ [CallDropWakeup 12; CallRelease 1].

(** When a granted waiter dies, [promoteOne] takes its credit back after it has
    passed over the waiters before it: here all 100 bytes are free, no lease is
    left whose release could promote anyone, and producer 1, whose 80 bytes
    would fit, has not been notified and is told again to wait. *)
Theorem reclaimed_grant_strands_waiter :
  let l := run abandonedCalls exampleLedger in
  sn_currentBytes (lg_aggregate l) = 0 /\ lg_leases l = ∅ /\ lg_notified l = [12] /\
  (tryReserveOrArm 1 [80] (Some 11) l).1 =
    Failure (wouldBlock "graph payload producer already has an armed waiter") /\
  exists a, lg_accounts l !! initialAccount = Some a /\
    Exists (fun p => pn_producer p = 1 /\ pn_granted p = false /\ fits (ac_plan a) (ac_snapshot a) p = true) (ac_waiters a).
Proof.
  cbv zeta. split_and!; [by vm_compute.. |]. eexists. split; [by vm_compute |]. left. by vm_compute.
Qed.

End MediaCreditWakeup.
