(* ===== verification/TimeBase.v ===== *)
(** * Times, timestamps and the canonical timeline

    Models [time/MediaRunningTime.h] (signed nanoseconds with checked
    arithmetic), [time/MediaTimestampUnwrapper.{h,cpp}] (wire counters of 32,
    33 and 42 bits), [time/MediaSharedNtpEpoch.{h,cpp}] with
    [time/MediaNtpTimestamp.h], [time/MediaMappedTimestamp.h],
    [time/MediaCanonicalTimeMapper.{h,cpp}] and the error type
    [sync/MediaAvSyncError.h].

    A [MediaRunningTime] is its number of nanoseconds, a signed 64-bit integer.
    A [Result<T, MediaAvSyncError>] is a sum. *)

From stdpp Require Import pretty.
From S2P Require Import Prelude MediaResult CheckedArithmetic Model.
Import MediaCheckedArithmetic.

Local Open Scope Z_scope.
Local Open Scope result_scope.

(** ** Running time *)

Module MediaRunningTime.

Definition isInt64 (z : Z) : bool := (int64_min <=? z) && (z <=? int64_max).

Definition checkedFromTicks (ticks timeBaseNumerator timeBaseDenominator : Z) : Result Z :=
  if (timeBaseNumerator <=? 0) || (timeBaseDenominator <=? 0)
  then failure (invalidArgument "MediaRunningTime requires a positive time base")
  else
    let magnitude := if 0 <=? ticks then ticks else u64 (- (ticks + 1) + 1) in
    let maximumMagnitude := if 0 <=? ticks then int64_max else Z.shiftl 1 63 in
    let nanosecondsPerSecond := 1000000000 in
    let scale := u64 (timeBaseNumerator * nanosecondsPerSecond) in
    let scaledTicks := multiplyWide magnitude scale in
    let firstOverflowValue := multiplyWide (u64 (maximumMagnitude + 1)) timeBaseDenominator in
    if ge128 scaledTicks firstOverflowValue
    then failure (invalidArgument "MediaRunningTime tick rescale is not representable")
    else
      let rescaledMagnitude := divideWideBy32 scaledTicks (u32 timeBaseDenominator) in
      Success (if 0 <=? ticks then rescaledMagnitude
               else if rescaledMagnitude =? Z.shiftl 1 63 then int64_min
               else - rescaledMagnitude).

Definition overflowFailure (operation : string) : Result Z :=
  failure (invalidArgument ("MediaRunningTime " +:+ operation +:+ " overflow")).

Definition checkedAdd (self other : Z) : Result Z :=
  if ((0 <? other) && (int64_max - other <? self)) || ((other <? 0) && (self <? int64_min - other))
  then overflowFailure "addition"
  else Success (self + other).

Definition checkedSubtract (self other : Z) : Result Z :=
  if ((0 <? other) && (self <? int64_min + other)) || ((other <? 0) && (int64_max + other <? self))
  then overflowFailure "subtraction"
  else Success (self - other).

(** *** Lemmas *)

Lemma isInt64_spec z : isInt64 z = true <-> is_i 64 z.
Proof. unfold isInt64. rewrite andb_true_iff, !Z.leb_le. ranges. lia. Qed.

Lemma checkedAdd_exact a b : is_i 64 a -> is_i 64 b ->
  checkedAdd a b = if isInt64 (a + b) then Success (a + b) else overflowFailure "addition".
Proof.
  intros Ha Hb. unfold checkedAdd, isInt64. ranges.
  repeat match goal with |- context [?x <? ?y] => destruct (Z.ltb_spec x y)
    | |- context [?x <=? ?y] => destruct (Z.leb_spec x y) end; simpl; first [done | lia].
Qed.

Lemma checkedSubtract_exact a b : is_i 64 a -> is_i 64 b ->
  checkedSubtract a b = if isInt64 (a - b) then Success (a - b) else overflowFailure "subtraction".
Proof.
  intros Ha Hb. unfold checkedSubtract, isInt64. ranges.
  repeat match goal with |- context [?x <? ?y] => destruct (Z.ltb_spec x y)
    | |- context [?x <=? ?y] => destruct (Z.leb_spec x y) end; simpl; first [done | lia].
Qed.

Lemma quot_neg a d : 0 < d -> 0 <= a -> Z.quot (- a) d = - (a / d).
Proof. intros Hd Ha. rewrite Z.quot_opp_l by lia. by rewrite Z.quot_div_nonneg. Qed.

(** A timestamp in a time base becomes the exact number of nanoseconds,
    truncated towards zero, whenever that number is a signed 64-bit one, and
    the documented error in every other case; the 128-bit intermediate product
    never overflows. *)
Lemma checkedFromTicks_exact ticks num den :
  is_i 64 ticks -> 0 < num < 2 ^ 31 -> 0 < den < 2 ^ 31 ->
  let exact := Z.quot (ticks * num * 1000000000) den in
  checkedFromTicks ticks num den =
    if isInt64 exact then Success exact
    else Failure (invalidArgument "MediaRunningTime tick rescale is not representable").
Proof.
  intros Ht Hn Hd exact. unfold checkedFromTicks.
  destruct (Z.leb_spec num 0); [lia |]. destruct (Z.leb_spec den 0); [lia |]. cbn [orb].
  set (m := Z.abs ticks). set (limit := if 0 <=? ticks then int64_max else 2 ^ 63).
  assert (Hm : 0 <= m <= 2 ^ 63) by (unfold m; ranges; lia).
  assert (Em : (if 0 <=? ticks then ticks else u64 (- (ticks + 1) + 1)) = m).
  { unfold m. destruct (Z.leb_spec 0 ticks); [lia |]. unfold u64. rewrite Z.mod_small; ranges; lia. }
  rewrite Em. change (Z.shiftl 1 63) with (2 ^ 63). fold limit.
  assert (Es : u64 (num * 1000000000) = num * 1000000000) by (apply Z.mod_small; ranges; lia).
  assert (El : u64 (limit + 1) = limit + 1)
    by (apply Z.mod_small; unfold limit; destruct (0 <=? ticks); ranges; lia).
  rewrite Es, El.
  assert (Hlim : 0 <= limit <= 2 ^ 63) by (unfold limit; destruct (0 <=? ticks); ranges; lia).
  set (p := m * (num * 1000000000)). assert (Hp : 0 <= p) by (unfold p; nia).
  rewrite ge128_product by (ranges; lia). fold p.
  assert (Hq : (limit + 1) * den <= p <-> limit < p / den).
  { split; intros H1.
    - assert (limit + 1 <= p / den) by (apply Z.div_le_lower_bound; lia). lia.
    - pose proof (Z.mul_div_le p den ltac:(lia)). nia. }
  assert (Hexact : exact = if 0 <=? ticks then p / den else - (p / den)).
  { unfold exact, p, m. destruct (Z.leb_spec 0 ticks).
    - rewrite Z.quot_div_nonneg by nia. f_equal. rewrite Z.abs_eq by lia. ring.
    - rewrite <- quot_neg by nia. f_equal. rewrite Z.abs_neq by lia. ring. }
  destruct (multiplyWide_value m (num * 1000000000)) as (Ev & Hh & Hl'); [ranges; lia.. |].
  assert (Ediv : p / den <= limit -> divideWideBy32 (multiplyWide m (num * 1000000000)) (u32 den) = p / den).
  { intros Hle. replace (u32 den) with den by (symmetry; apply Z.mod_small; ranges; lia).
    rewrite divideWideBy32_value by (done || (ranges; lia)). rewrite Ev. fold p. apply Z.mod_small.
    pose proof (Z.div_pos p den Hp ltac:(lia)). ranges; lia. }
  pose proof (Z.div_pos p den Hp ltac:(lia)) as Hpos.
  case_bool_decide as Hge; unfold isInt64.
  - apply Hq in Hge. unfold limit in Hge. rewrite Hexact.
    destruct (Z.leb_spec 0 ticks); [destruct (Z.leb_spec (p / den) int64_max); [lia |]; by rewrite andb_false_r |].
    destruct (Z.leb_spec int64_min (- (p / den))); [ranges; lia | done].
  - assert (Hle : p / den <= limit) by lia. rewrite Ediv by done. rewrite Hexact. unfold limit in Hle.
    destruct (Z.leb_spec 0 ticks).
    + destruct (Z.leb_spec int64_min (p / den)); [| ranges; lia]. destruct (Z.leb_spec (p / den) int64_max); [done | lia].
    + destruct (Z.leb_spec int64_min (- (p / den))); [| ranges; lia].
      destruct (Z.leb_spec (- (p / den)) int64_max); [| ranges; lia].
      destruct (Z.eqb_spec (p / den) (2 ^ 63)) as [-> |]; done.
Qed.

End MediaRunningTime.

(** ** Wire counters *)

Module MediaTimestampUnwrapper.

Record MediaProtocolTimestamp := mkProtocolTimestamp {
  pt_ticks : Z;
  pt_timeBaseNumerator : Z;
  pt_timeBaseDenominator : Z;
}.

Definition createTimestamp (ticks timeBaseNumerator timeBaseDenominator : Z) : Result MediaProtocolTimestamp :=
  if (timeBaseNumerator <=? 0) || (timeBaseDenominator <=? 0)
  then failure (invalidArgument "MediaProtocolTimestamp requires a positive time base")
  else Success (mkProtocolTimestamp ticks timeBaseNumerator timeBaseDenominator).

Inductive MediaTimestampCounterKind := Rtp32 | MpegTsPtsDts33 | MpegTsPcr27Mhz.

Inductive MediaTimestampDiscontinuityReason :=
  | NoReason | RawValueOutOfRange | TimeBaseMismatch | BackwardMovement | AmbiguousMovement
  | UnwrappedValueOverflow.

Inductive MediaTimestampUnwrapStatus := UnwrapValue | UnwrapDiscontinuity.

Record MediaTimestampUnwrapResult := mkUnwrapResult {
  ur_status : MediaTimestampUnwrapStatus;
  ur_reason : MediaTimestampDiscontinuityReason;
  ur_timestamp : option MediaProtocolTimestamp;
  ur_generation : Z;
}.

Record Unwrapper := mkUnwrapper {
  uw_counterKind : MediaTimestampCounterKind;
  uw_modulus : Z;
  uw_generation : Z;
  uw_lastRawTimestamp : Z;
  uw_lastUnwrappedTimestamp : Z;
  uw_timeBaseNumerator : Z;
  uw_timeBaseDenominator : Z;
  uw_initialized : bool;
}.

Definition modulusFor (kind : MediaTimestampCounterKind) : Z :=
  match kind with
  | Rtp32 => Z.shiftl 1 32
  | MpegTsPtsDts33 => Z.shiftl 1 33
  | MpegTsPcr27Mhz => Z.shiftl 1 33 * 300
  end.

(** [create]; every enumerator has a modulus. *)
Definition create (kind : MediaTimestampCounterKind) (generation : Z) : Unwrapper :=
  mkUnwrapper kind (modulusFor kind) generation 0 0 0 0 false.

Definition valueResult (u : Unwrapper) : MediaTimestampUnwrapResult :=
  mkUnwrapResult UnwrapValue NoReason
    (Some (mkProtocolTimestamp (uw_lastUnwrappedTimestamp u) (uw_timeBaseNumerator u)
             (uw_timeBaseDenominator u))) (uw_generation u).

Definition discontinuity (reason : MediaTimestampDiscontinuityReason) (u : Unwrapper) :
    MediaTimestampUnwrapResult :=
  mkUnwrapResult UnwrapDiscontinuity reason
    (if uw_initialized u
     then Some (mkProtocolTimestamp (uw_lastUnwrappedTimestamp u) (uw_timeBaseNumerator u)
                  (uw_timeBaseDenominator u))
     else None) (uw_generation u).

(** The movement from the last raw value, when it is a forward one. *)
Definition forwardMovement (u : Unwrapper) (rawTicks : Z) : Z + MediaTimestampDiscontinuityReason :=
  let halfRange := uw_modulus u / 2 in
  if uw_lastRawTimestamp u <=? rawTicks then
    let directMovement := rawTicks - uw_lastRawTimestamp u in
    if directMovement =? halfRange then inr AmbiguousMovement
    else if halfRange <? directMovement then inr BackwardMovement
    else inl directMovement
  else
    let backwardMovement := uw_lastRawTimestamp u - rawTicks in
    if backwardMovement =? halfRange then inr AmbiguousMovement
    else if backwardMovement <? halfRange then inr BackwardMovement
    else inl (uw_modulus u - backwardMovement).

Definition advance (raw : MediaProtocolTimestamp) (unwrapped : Z) (u : Unwrapper) : Unwrapper :=
  mkUnwrapper (uw_counterKind u) (uw_modulus u) (uw_generation u) (pt_ticks raw) unwrapped
    (pt_timeBaseNumerator raw) (pt_timeBaseDenominator raw) true.

Definition unwrap (raw : MediaProtocolTimestamp) (u : Unwrapper) : MediaTimestampUnwrapResult * Unwrapper :=
  if (pt_ticks raw <? 0) || (uw_modulus u <=? pt_ticks raw) then (discontinuity RawValueOutOfRange u, u)
  else if uw_initialized u && (negb (pt_timeBaseNumerator raw =? uw_timeBaseNumerator u) ||
                               negb (pt_timeBaseDenominator raw =? uw_timeBaseDenominator u))
  then (discontinuity TimeBaseMismatch u, u)
  else if negb (uw_initialized u) then
    let u' := advance raw (pt_ticks raw) u in (valueResult u', u')
  else match forwardMovement u (pt_ticks raw) with
  | inr reason => (discontinuity reason u, u)
  | inl movement =>
      if int64_max - uw_lastUnwrappedTimestamp u <? movement
      then (discontinuity UnwrappedValueOverflow u, u)
      else let u' := advance raw (uw_lastUnwrappedTimestamp u + movement) u in (valueResult u', u')
  end.

Definition reset (generation : Z) (u : Unwrapper) : Unwrapper :=
  mkUnwrapper (uw_counterKind u) (uw_modulus u) generation 0 0 0 0 false.

(** *** The invariant and the round trip *)

Record unwrapperOk (u : Unwrapper) : Prop := {
  uo_modulus : uw_modulus u = modulusFor (uw_counterKind u);
  uo_last : uw_initialized u = true ->
    0 <= uw_lastUnwrappedTimestamp u <= int64_max /\
    uw_lastRawTimestamp u = uw_lastUnwrappedTimestamp u mod uw_modulus u;
}.

Lemma modulusFor_even kind : 0 < modulusFor kind /\ modulusFor kind mod 2 = 0 /\ modulusFor kind <= 2 ^ 42.
Proof. destruct kind; vm_compute; intuition discriminate. Qed.

(** A forward movement is the distance in the counter, below half its range. *)
Lemma forwardMovement_spec u raw movement :
  0 < uw_modulus u -> uw_modulus u mod 2 = 0 ->
  0 <= uw_lastRawTimestamp u < uw_modulus u -> 0 <= raw < uw_modulus u ->
  forwardMovement u raw = inl movement <->
  0 <= movement < uw_modulus u / 2 /\ raw = (uw_lastRawTimestamp u + movement) mod uw_modulus u.
Proof.
  intros Hm Heven Hl Hr. unfold forwardMovement. set (M := uw_modulus u) in *. set (r0 := uw_lastRawTimestamp u) in *.
  assert (HM : M = 2 * (M / 2)) by (pose proof (Z.div_mod M 2); lia). set (h := M / 2) in *. clearbody h.
  assert (Hmod : forall k, 0 <= k < h -> (r0 + k) mod M = if r0 + k <? M then r0 + k else r0 + k - M).
  { intros k Hk. destruct (Z.ltb_spec (r0 + k) M); [apply Z.mod_small; lia |].
    rewrite <- (Z.mod_small (r0 + k - M) M) by lia. replace (r0 + k) with (r0 + k - M + 1 * M) at 1 by lia. apply Z.mod_add. lia. }
  split.
  - intros E. assert (Hk : 0 <= movement < h /\ (movement = raw - r0 \/ movement = M - (r0 - raw) /\ raw < r0)).
    { destruct (Z.leb_spec r0 raw).
      - destruct (Z.eqb_spec (raw - r0) h); [done |]. destruct (Z.ltb_spec h (raw - r0)); [done |]. injection E as <-. lia.
      - destruct (Z.eqb_spec (r0 - raw) h); [done |]. destruct (Z.ltb_spec (r0 - raw) h); [done |]. injection E as <-. lia. }
    destruct Hk as [Hk Hc]. split; [done |]. rewrite Hmod by done. destruct (Z.ltb_spec (r0 + movement) M); lia.
  - intros [Hk ->]. rewrite Hmod by done. destruct (Z.ltb_spec (r0 + movement) M).
    + destruct (Z.leb_spec r0 (r0 + movement)); [| lia]. destruct (Z.eqb_spec (r0 + movement - r0) h); [lia |].
      destruct (Z.ltb_spec h (r0 + movement - r0)); [lia |]. f_equal. lia.
    + destruct (Z.leb_spec r0 (r0 + movement - M)); [lia |]. destruct (Z.eqb_spec (r0 - (r0 + movement - M)) h); [lia |].
      destruct (Z.ltb_spec (r0 - (r0 + movement - M)) h); [lia |]. f_equal. lia.
Qed.

Lemma unwrap_ok raw u : unwrapperOk u -> unwrapperOk (unwrap raw u).2.
Proof.
  intros Hu. unfold unwrap. pose proof (uo_modulus _ Hu) as Hm.
  destruct (modulusFor_even (uw_counterKind u)) as (M1 & M2 & M3). rewrite <- Hm in M1, M2, M3.
  destruct (Z.ltb_spec (pt_ticks raw) 0); [exact Hu |].
  destruct (Z.leb_spec (uw_modulus u) (pt_ticks raw)); [exact Hu |].
  cbn [orb]. destruct (uw_initialized u) eqn:Ei; cbn [andb negb].
  - destruct (_ || _); [exact Hu |]. destruct (uo_last _ Hu Ei) as [Hr Hraw].
    destruct (forwardMovement u (pt_ticks raw)) as [movement | reason] eqn:Ef; [| exact Hu].
    apply forwardMovement_spec in Ef as [Hk Hraw']; [| done | done | rewrite Hraw; apply Z.mod_pos_bound; lia | lia].
    destruct (Z.ltb_spec (int64_max - uw_lastUnwrappedTimestamp u) movement); [exact Hu |].
    split; [done |]. cbn. intros _. split; [lia |]. rewrite Hraw', Hraw. by rewrite Zplus_mod_idemp_l.
  - split; [done |]. cbn. intros _. split; [ranges; lia |]. symmetry. apply Z.mod_small. lia.
Qed.

(** Feeding raw values one after the other: the results and the state. *)
Fixpoint unwrapAll (raws : list MediaProtocolTimestamp) (u : Unwrapper) :
    list MediaTimestampUnwrapResult * Unwrapper :=
  match raws with
  | [] => ([], u)
  | raw :: raws' =>
      let '(r, u1) := unwrap raw u in
      let '(rs, u2) := unwrapAll raws' u1 in (r :: rs, u2)
  end.

(** A clock that never goes back and never moves by half the counter range
    between two readings. *)
Fixpoint steady (half previous : Z) (times : list Z) : Prop :=
  match times with
  | [] => True
  | t :: times' => previous <= t < previous + half /\ t <= int64_max /\ steady half t times'
  end.

Definition wire (kind : MediaTimestampCounterKind) (num den t : Z) : MediaProtocolTimestamp :=
  mkProtocolTimestamp (t mod modulusFor kind) num den.

Definition valueAt (generation num den t : Z) : MediaTimestampUnwrapResult :=
  mkUnwrapResult UnwrapValue NoReason (Some (mkProtocolTimestamp t num den)) generation.

Lemma unwrap_steady kind num den times u :
  unwrapperOk u -> uw_counterKind u = kind -> uw_initialized u = true ->
  uw_timeBaseNumerator u = num -> uw_timeBaseDenominator u = den ->
  steady (modulusFor kind / 2) (uw_lastUnwrappedTimestamp u) times ->
  (unwrapAll (wire kind num den <$> times) u).1 = valueAt (uw_generation u) num den <$> times.
Proof.
  revert u. induction times as [| t times IH]; intros u Hu Hk Hi Hnum Hden; [done |]. simpl.
  intros (Hstep & Hmax & Hrest). destruct (modulusFor_even kind) as (M1 & M2 & M3).
  pose proof (uo_modulus _ Hu) as Hm. rewrite Hk in Hm. destruct (uo_last _ Hu Hi) as [Hr Hraw]. rewrite Hm in Hraw.
  assert (Hw : unwrap (wire kind num den t) u = (valueAt (uw_generation u) num den t, advance (wire kind num den t) t u)).
  { unfold unwrap. cbn [wire pt_ticks pt_timeBaseNumerator pt_timeBaseDenominator]. rewrite Hm, Hi, Hnum, Hden.
    pose proof (Z.mod_pos_bound t (modulusFor kind) M1) as Hb.
    destruct (Z.ltb_spec (t mod modulusFor kind) 0); [lia |]. destruct (Z.leb_spec (modulusFor kind) (t mod modulusFor kind)); [lia |].
    rewrite !Z.eqb_refl. cbn [orb andb negb].
    assert (Ef : forwardMovement u (t mod modulusFor kind) = inl (t - uw_lastUnwrappedTimestamp u)).
    { apply forwardMovement_spec; rewrite ?Hm; try done; [rewrite Hraw; by apply Z.mod_pos_bound |].
      split; [lia |]. rewrite Hraw, Zplus_mod_idemp_l. f_equal. lia. }
    rewrite Ef. destruct (Z.ltb_spec (int64_max - uw_lastUnwrappedTimestamp u) (t - uw_lastUnwrappedTimestamp u)); [lia |].
    replace (uw_lastUnwrappedTimestamp u + (t - uw_lastUnwrappedTimestamp u)) with t by lia.
    unfold valueResult, valueAt, advance, wire. cbn. reflexivity. }
  rewrite Hw. destruct (unwrapAll _ _) as [rs u2] eqn:E. cbn [fst]. f_equal.
  change rs with (rs, u2).1. rewrite <- E. apply (IH (advance (wire kind num den t) t u)); try done.
  split; cbn; [by rewrite Hm, Hk |]. intros _. split; [lia |]. by rewrite Hm.
Qed.

(** Unwrapping inverts wrapping: the readings of a clock that starts inside the
    counter, never goes back, and never moves by half the counter range between
    two readings, sent modulo 2^32, 2^33 or 300 * 2^33, come back unchanged. *)
Theorem unwrap_roundtrip kind generation num den t times :
  0 <= t < modulusFor kind -> steady (modulusFor kind / 2) t times ->
  (unwrapAll (wire kind num den <$> t :: times) (create kind generation)).1 =
  valueAt generation num den <$> t :: times.
Proof.
  intros Ht Hs. destruct (modulusFor_even kind) as (M1 & M2 & M3). rewrite !fmap_cons. cbn [unwrapAll].
  assert (Hw : unwrap (wire kind num den t) (create kind generation) =
    (valueAt generation num den t, advance (wire kind num den t) t (create kind generation))).
  { unfold unwrap. cbn [wire pt_ticks pt_timeBaseNumerator pt_timeBaseDenominator create uw_modulus uw_initialized].
    rewrite Z.mod_small by done. destruct (Z.ltb_spec t 0); [lia |]. destruct (Z.leb_spec (modulusFor kind) t); [lia |].
    cbn [orb andb negb]. unfold valueResult, valueAt, advance. cbn. by rewrite Z.mod_small by done. }
  rewrite Hw. destruct (unwrapAll _ _) as [rs u2] eqn:E. cbn [fst]. f_equal.
  assert (Hu : unwrapperOk (advance (wire kind num den t) t (create kind generation))).
  { split; cbn; [done |]. intros _. split; [ranges; lia | done]. }
  pose proof (unwrap_steady kind num den times _ Hu eq_refl eq_refl eq_refl eq_refl Hs) as H. rewrite E in H. exact H.
Qed.

(** An RTP clock that wraps twice. *)
Lemma unwrap_roundtrip_witness :
  (unwrapAll (wire Rtp32 1 90000 <$> [2 ^ 32 - 1; 2 ^ 32 + 5; 2 ^ 32 + 2 ^ 31; 2 ^ 33 - 7; 2 ^ 33 + 7]) (create Rtp32 9)).1 =
  valueAt 9 1 90000 <$> [2 ^ 32 - 1; 2 ^ 32 + 5; 2 ^ 32 + 2 ^ 31; 2 ^ 33 - 7; 2 ^ 33 + 7].
Proof.
  apply (unwrap_roundtrip Rtp32 9 1 90000 (2 ^ 32 - 1)); [vm_compute; intuition discriminate |].
  simpl. unfold int64_max. change (Z.shiftl 1 32 / 2) with (2 ^ 31). lia.
Defined.

End MediaTimestampUnwrapper.
