(* ===== verification/CanonicalTime.v ===== *)
(** * The NTP epoch and the canonical timeline

    Models [time/MediaSharedNtpEpoch.{h,cpp}] with [time/MediaNtpTimestamp.h],
    [time/MediaMappedTimestamp.h], [time/MediaCanonicalTimeMapper.{h,cpp}], the
    error type [sync/MediaAvSyncError.h] and
    [model/MediaAvSyncSourceClockMode.h].

    A [Result<T, MediaAvSyncError>] is a sum, success on the left.  The
    affine map of the canonical timeline is computed by the source on sign and
    magnitude with 65-bit totals; the model keeps the two limbs. *)

From stdpp Require Import pretty.
From S2P Require Import Prelude MediaResult CheckedArithmetic Model TimeBase.
Import MediaRunningTime.

Local Open Scope Z_scope.
Local Open Scope result_scope.

(** ** NTP *)

Module MediaSharedNtpEpoch.

Definition NanosecondsPerSecond : Z := 1000000000.
Definition UnixToNtpSeconds : Z := 2208988800.
Definition NtpFractionScale : Z := Z.shiftl 1 32.

Record MediaNtpTimestamp := mkNtp {
  ntp_seconds : Z;
  ntp_fraction : Z;
}.

Record MediaNtpWireTimestamp := mkNtpWire {
  wire_seconds : Z;
  wire_fraction : Z;
}.

Definition wireTimestamp (t : MediaNtpTimestamp) : MediaNtpWireTimestamp :=
  mkNtpWire (u32 (ntp_seconds t)) (ntp_fraction t).

Record Epoch := mkEpoch {
  ep_masterAtCapture : Z;
  ep_unixNanosecondsAtCapture : Z;
}.

Definition invalidNtp (message : string) : Result MediaNtpTimestamp :=
  failure (invalidArgument message).

Definition fromUnixNanoseconds (unixNanoseconds : Z) : Result MediaNtpTimestamp :=
  let unixSeconds0 := Z.quot unixNanoseconds NanosecondsPerSecond in
  let remainder0 := Z.rem unixNanoseconds NanosecondsPerSecond in
  let '(unixSeconds, remainder) :=
    if remainder0 <? 0 then (unixSeconds0 - 1, remainder0 + NanosecondsPerSecond)
    else (unixSeconds0, remainder0) in
  if unixSeconds <? - UnixToNtpSeconds
  then invalidNtp "Shared NTP epoch precedes the NTP epoch"
  else
    let ntpSeconds := u64 (unixSeconds + UnixToNtpSeconds) in
    let ntpFraction := u32 (u64 (u64 remainder * NtpFractionScale) / u64 NanosecondsPerSecond) in
    Success (mkNtp ntpSeconds ntpFraction).

Definition createEpoch (masterAtCapture unixTimeAtCapture : Z) : Result Epoch :=
  match fromUnixNanoseconds unixTimeAtCapture with
  | Failure e => failure e
  | Success _ => Success (mkEpoch masterAtCapture unixTimeAtCapture)
  end.

Definition mapToNtp (masterTime : Z) (epoch : Epoch) : Result MediaNtpTimestamp :=
  match checkedSubtract masterTime (ep_masterAtCapture epoch) with
  | Failure _ => invalidNtp "Shared NTP epoch master-time subtraction overflow"
  | Success offset =>
      if ((0 <? offset) && (int64_max - offset <? ep_unixNanosecondsAtCapture epoch)) ||
         ((offset <? 0) && (ep_unixNanosecondsAtCapture epoch <? int64_min - offset))
      then invalidNtp "Shared NTP epoch Unix-time mapping overflow"
      else fromUnixNanoseconds (ep_unixNanosecondsAtCapture epoch + offset)
  end.

(** *** Theorems *)

(** The 32.32 fixed-point value of a timestamp. *)
Definition fixedPoint (t : MediaNtpTimestamp) : Z := ntp_seconds t * 2 ^ 32 + ntp_fraction t.

(** Nanoseconds since 1900 of a Unix time. *)
Definition sinceNtpEpoch (unixNanoseconds : Z) : Z :=
  unixNanoseconds + UnixToNtpSeconds * NanosecondsPerSecond.

Lemma truncated_to_floored n d : 0 < d ->
  (if Z.rem n d <? 0 then (Z.quot n d - 1, Z.rem n d + d) else (Z.quot n d, Z.rem n d)) = (n / d, n mod d).
Proof.
  intros Hd. pose proof (Z.quot_rem n d ltac:(lia)) as E. pose proof (Z.rem_bound_abs n d ltac:(lia)).
  destruct (Z.ltb_spec (Z.rem n d) 0); f_equal.
  - apply (Z.div_unique _ _ _ (Z.rem n d + d)); lia.
  - apply (Z.mod_unique _ _ (Z.quot n d - 1)); lia.
  - apply (Z.div_unique _ _ _ (Z.rem n d)); lia.
  - apply (Z.mod_unique _ _ (Z.quot n d)); lia.
Qed.

Lemma fromUnixNanoseconds_floor n : is_i 64 n ->
  fromUnixNanoseconds n =
    if sinceNtpEpoch n <? 0 then invalidNtp "Shared NTP epoch precedes the NTP epoch"
    else Success (mkNtp (sinceNtpEpoch n / NanosecondsPerSecond)
                    (n mod NanosecondsPerSecond * 2 ^ 32 / NanosecondsPerSecond)).
Proof.
  intros Hn. unfold fromUnixNanoseconds. rewrite truncated_to_floored by done. unfold sinceNtpEpoch.
  rewrite Z.div_add by done.
  pose proof (Z.div_mod n NanosecondsPerSecond ltac:(done)) as E.
  pose proof (Z.mod_pos_bound n NanosecondsPerSecond ltac:(done)) as Hr.
  unfold NanosecondsPerSecond, UnixToNtpSeconds, NtpFractionScale in *.
  set (q := n / 1000000000) in *. set (r := n mod 1000000000) in *. clearbody q r.
  destruct (Z.ltb_spec q (Z.opp 2208988800)), (Z.ltb_spec (n + 2208988800 * 1000000000) 0); try lia; [done |].
  do 2 f_equal.
  - unfold u64. apply Z.mod_small. ranges; lia.
  - change (Z.shiftl 1 32) with (2 ^ 32). unfold u64, u32. rewrite (Z.mod_small r), (Z.mod_small (r * 2 ^ 32)) by lia.
    change (1000000000 mod 2 ^ 64) with 1000000000. apply Z.mod_small. split; [apply Z.div_pos; lia |].
    apply Z.div_lt_upper_bound; lia.
Qed.

(** Mapping a master time to NTP is exact: whenever the Unix time it stands for is
    a signed 64-bit number of nanoseconds not before 1900, the result is that
    time in 32.32 fixed point, rounded down; in every other case it is an
    error, and no intermediate computation overflows. *)
Theorem ntp_map_exact epoch masterTime :
  is_i 64 (ep_masterAtCapture epoch) -> is_i 64 (ep_unixNanosecondsAtCapture epoch) -> is_i 64 masterTime ->
  let offset := masterTime - ep_masterAtCapture epoch in
  let unix := ep_unixNanosecondsAtCapture epoch + offset in
  match mapToNtp masterTime epoch with
  | Success t => is_i 64 offset /\ is_i 64 unix /\ 0 <= sinceNtpEpoch unix /\ is_u 32 (ntp_fraction t) /\
      fixedPoint t = sinceNtpEpoch unix * 2 ^ 32 / NanosecondsPerSecond
  | Failure _ => ~ is_i 64 offset \/ ~ is_i 64 unix \/ sinceNtpEpoch unix < 0
  end.
Proof.
  intros Hm Hu Ht offset unix. unfold mapToNtp. rewrite checkedSubtract_exact by done. fold offset.
  destruct (isInt64 offset) eqn:Eo; [| left; rewrite <- isInt64_spec, Eo; done].
  apply isInt64_spec in Eo.
  destruct (_ || _) eqn:Eov.
  { right; left. fold offset in unix. unfold unix. rewrite orb_true_iff, !andb_true_iff, !Z.ltb_lt in Eov. ranges; lia. }
  fold unix.
  assert (Hunix : is_i 64 unix).
  { unfold unix. rewrite orb_false_iff, !andb_false_iff, !Z.ltb_ge in Eov. ranges; lia. }
  rewrite fromUnixNanoseconds_floor by done.
  destruct (Z.ltb_spec (sinceNtpEpoch unix) 0); [by right; right |].
  split_and!; try done; cbn.
  - pose proof (Z.mod_pos_bound unix NanosecondsPerSecond ltac:(done)) as Hr. unfold NanosecondsPerSecond in *.
    ranges. split; [apply Z.div_pos; lia | apply Z.div_lt_upper_bound; lia].
  - unfold fixedPoint, sinceNtpEpoch. cbn. rewrite Z.div_add by done. symmetry.
    pose proof (Z.div_mod unix NanosecondsPerSecond ltac:(done)) as E.
    rewrite <- (Z.div_add_l _ NanosecondsPerSecond) by done. f_equal. lia.
Qed.

Lemma ntp_map_exact_witness :
  mapToNtp 1500000000 (mkEpoch 1000000000 (-1)) = Success (mkNtp 2208988800 2147483643) /\
  fixedPoint (mkNtp 2208988800 2147483643) = sinceNtpEpoch 499999999 * 2 ^ 32 / NanosecondsPerSecond.
Proof.
  split; [reflexivity |].
  apply (ntp_map_exact (mkEpoch 1000000000 (-1)) 1500000000); cbn; ranges; lia.
Defined.

End MediaSharedNtpEpoch.

(** ** Errors of the synchronisation *)

Module MediaAvSyncError.

Inductive MediaAvSyncSourceClockMode := RtpSenderReports | MpegTsPcr | DemuxTimestamps.

Inductive MediaAvSyncErrorCode :=
  | MissingSourceEvidence | EmptySourceIdentity | SourceIdentityMismatch | GenerationMismatch
  | InvalidGenerationTransition | InvalidDuration | TimeOverflow | StartupTimeout | KeyFrameTimeout
  | EofBeforeRelease | MissingCanonicalTime | AudioTrimLimitExceeded | StartupCapacityExceeded
  | StartupInvalidTransition | StartupAborted | StartupUpstreamError | InvalidAudioServoPolicy
  | InvalidAudioServoMeasurement | AudioCorrectionQuantizationFailed | InvalidVideoSyncPolicy
  | InvalidVideoSyncMeasurement.

Inductive MediaAvSyncErrorState := Configuring | Mapping | Resetting | Startup | AudioServo | VideoSync.

#[export] Instance clockMode_eq_dec : EqDecision MediaAvSyncSourceClockMode.
Proof. solve_decision. Defined.
#[export] Instance syncCode_eq_dec : EqDecision MediaAvSyncErrorCode.
Proof. solve_decision. Defined.

(** The values of the enumerators. *)
Definition clockModeIndex (m : MediaAvSyncSourceClockMode) : Z :=
  match m with RtpSenderReports => 0 | MpegTsPcr => 1 | DemuxTimestamps => 2 end.

Definition codeIndex (c : MediaAvSyncErrorCode) : Z :=
  match c with
  | MissingSourceEvidence => 0 | EmptySourceIdentity => 1 | SourceIdentityMismatch => 2
  | GenerationMismatch => 3 | InvalidGenerationTransition => 4 | InvalidDuration => 5
  | TimeOverflow => 6 | StartupTimeout => 7 | KeyFrameTimeout => 8 | EofBeforeRelease => 9
  | MissingCanonicalTime => 10 | AudioTrimLimitExceeded => 11 | StartupCapacityExceeded => 12
  | StartupInvalidTransition => 13 | StartupAborted => 14 | StartupUpstreamError => 15
  | InvalidAudioServoPolicy => 16 | InvalidAudioServoMeasurement => 17
  | AudioCorrectionQuantizationFailed => 18 | InvalidVideoSyncPolicy => 19
  | InvalidVideoSyncMeasurement => 20
  end.

Definition stateIndex (s : MediaAvSyncErrorState) : Z :=
  match s with
  | Configuring => 0 | Mapping => 1 | Resetting => 2 | Startup => 3 | AudioServo => 4 | VideoSync => 5
  end.

Record SyncError := mkSyncError {
  se_code : MediaAvSyncErrorCode;
  se_sourceClockMode : option MediaAvSyncSourceClockMode;
  se_state : MediaAvSyncErrorState;
  se_operation : string;
  se_expectedStreamIdentity : string;
  se_observedStreamIdentity : string;
  se_expectedGeneration : option Z;
  se_observedGeneration : option Z;
  se_observedSourceTime : option Z;
  se_sourceEpoch : Z;
  se_runningTimeEpoch : Z;
  se_minimumRunningTimeNs : Z;
  se_maximumRunningTimeNs : Z;
  se_detail : string;
}.

(** [std::to_string] on integers is decimal notation. *)
Definition optionalField (label : string) (value : option Z) : string :=
  match value with Some v => label +:+ pretty v | None => EmptyString end.

Definition toErrorInfo (e : SyncError) : ErrorInfo :=
  let message :=
    "A/V sync code=" +:+ pretty (codeIndex (se_code e)) +:+
    " operation=" +:+ se_operation e +:+
    " source_clock_mode=" +:+
      (match se_sourceClockMode e with Some m => pretty (clockModeIndex m) | None => "missing" end) +:+
    " state=" +:+ pretty (stateIndex (se_state e)) +:+
    " expected_stream=" +:+ se_expectedStreamIdentity e +:+
    " observed_stream=" +:+ se_observedStreamIdentity e +:+
    optionalField " expected_generation=" (se_expectedGeneration e) +:+
    optionalField " observed_generation=" (se_observedGeneration e) +:+
    optionalField " observed_source_ns=" (se_observedSourceTime e) +:+
    " source_epoch_ns=" +:+ pretty (se_sourceEpoch e) +:+
    " running_epoch_ns=" +:+ pretty (se_runningTimeEpoch e) +:+
    " running_bounds_ns=[" +:+ pretty (se_minimumRunningTimeNs e) +:+
    "," +:+ pretty (se_maximumRunningTimeNs e) +:+ "]" +:+
    " detail=" +:+ se_detail e in
  if bool_decide (se_code e = MissingSourceEvidence) then notInitialized message else invalidArgument message.

Definition AvSyncResult (A : Type) : Type := A + SyncError.

End MediaAvSyncError.

(** ** Source times and mapped times *)

Module MediaMappedTimestamps.

Inductive MediaTimeMappingConfidence := ConfidenceLocked | ConfidenceDegraded.

Record MediaCanonicalSourceTimestamp := mkSourceTimestamp {
  src_presentationTime : option Z;
  src_decodeTime : option Z;
  src_duration : option Z;
  src_generation : Z;
  src_sourceIdentity : string;
  src_confidence : MediaTimeMappingConfidence;
}.

Record MediaMappedTimestamp := mkMapped {
  map_presentationTime : Z;
  map_decodeTime : option Z;
  map_duration : option Z;
  map_generation : Z;
  map_sourceIdentity : string;
  map_confidence : MediaTimeMappingConfidence;
}.

End MediaMappedTimestamps.

(** ** The canonical time mapper *)

Module MediaCanonicalTimeMapper.
Import MediaAvSyncError MediaMappedTimestamps.

Record SignedMagnitude := mkSignedMagnitude { sm_negative : bool; sm_magnitude : Z }.

Record Magnitude65 := mkMagnitude65 { m65_low : Z; m65_high : Z }.

Definition signedMagnitude (value : Z) (negate : bool) : SignedMagnitude :=
  let negative := value <? 0 in
  let magnitude := if negative then u64 (- (value + 1) + 1) else value in
  mkSignedMagnitude (if magnitude =? 0 then false else xorb negative negate) magnitude.

Definition addMagnitude (total : Magnitude65) (magnitude : Z) : Magnitude65 :=
  mkMagnitude65 (u64 (m65_low total + magnitude))
    (if uint64_max - m65_low total <? magnitude then m65_high total + 1 else m65_high total).

(** One turn of the loop over the terms: the positive and the negative total. *)
Definition addTerm (totals : Magnitude65 * Magnitude65) (term : SignedMagnitude) : Magnitude65 * Magnitude65 :=
  if sm_negative term then (totals.1, addMagnitude totals.2 (sm_magnitude term))
  else (addMagnitude totals.1 (sm_magnitude term), totals.2).

Definition compareMagnitude (lhs rhs : Magnitude65) : Z :=
  if negb (m65_high lhs =? m65_high rhs) then if m65_high lhs <? m65_high rhs then -1 else 1
  else if m65_low lhs =? m65_low rhs then 0
  else if m65_low lhs <? m65_low rhs then -1 else 1.

Definition subtractMagnitude (larger smaller : Magnitude65) : option Z :=
  if m65_high larger =? m65_high smaller then Some (u64 (m65_low larger - m65_low smaller))
  else if (m65_high larger =? m65_high smaller + 1) && (m65_low larger <? m65_low smaller)
  then Some (u64 (m65_low larger - m65_low smaller))
  else None.

Definition checkedAffineNanoseconds (sourceTime sourceEpoch runningTimeEpoch : Z) : option Z :=
  let terms := [signedMagnitude sourceTime false; signedMagnitude sourceEpoch true;
                signedMagnitude runningTimeEpoch false] in
  let '(positiveMagnitude, negativeMagnitude) :=
    fold_left addTerm terms (mkMagnitude65 0 0, mkMagnitude65 0 0) in
  let comparison := compareMagnitude positiveMagnitude negativeMagnitude in
  if 0 <=? comparison then
    magnitude ← subtractMagnitude positiveMagnitude negativeMagnitude;
    if int64_max <? magnitude then None else Some magnitude
  else
    magnitude ← subtractMagnitude negativeMagnitude positiveMagnitude;
    let minimumMagnitude := Z.shiftl 1 63 in
    if minimumMagnitude <? magnitude then None
    else Some (if magnitude =? minimumMagnitude then int64_min else - magnitude).

Record MediaCanonicalTimeMapperConfig := mkConfig {
  cfg_sourceEpoch : Z;
  cfg_runningTimeEpoch : Z;
  cfg_sourceClockMode : MediaAvSyncSourceClockMode;
  cfg_sourceIdentity : string;
  cfg_generation : Z;
}.

Definition syncError (context : MediaCanonicalTimeMapperConfig) (code : MediaAvSyncErrorCode)
    (state : MediaAvSyncErrorState) (operation observedStreamIdentity : string)
    (expectedGeneration observedGeneration observedSourceTime : option Z) (detail : string) : SyncError :=
  mkSyncError code (Some (cfg_sourceClockMode context)) state operation (cfg_sourceIdentity context)
    observedStreamIdentity expectedGeneration observedGeneration observedSourceTime
    (cfg_sourceEpoch context) (cfg_runningTimeEpoch context) int64_min int64_max detail.

(** A mapper is its configuration. *)
Definition create (config : MediaCanonicalTimeMapperConfig) : AvSyncResult MediaCanonicalTimeMapperConfig :=
  if bool_decide (cfg_sourceIdentity config = EmptyString)
  then inr (syncError config EmptySourceIdentity Configuring "canonical_map.create" (cfg_sourceIdentity config)
              (Some (cfg_generation config)) (Some (cfg_generation config)) None
              "planner must bind a non-empty source identity")
  else inl config.

Definition mapOne (m : MediaCanonicalTimeMapperConfig) (sourceTime : Z) (field : string) : AvSyncResult Z :=
  match checkedAffineNanoseconds sourceTime (cfg_sourceEpoch m) (cfg_runningTimeEpoch m) with
  | None => inr (syncError m TimeOverflow Mapping ("canonical_map." +:+ field) (cfg_sourceIdentity m)
                   (Some (cfg_generation m)) (Some (cfg_generation m)) (Some sourceTime)
                   "affine source-to-running result is outside signed nanoseconds")
  | Some mapped => inl mapped
  end.

Definition map (m : MediaCanonicalTimeMapperConfig) (source : MediaCanonicalSourceTimestamp) :
    AvSyncResult MediaMappedTimestamp :=
  let mapError code operation observedTime detail :=
    inr (syncError m code Mapping operation (src_sourceIdentity source)
           (Some (cfg_generation m)) (Some (src_generation source)) observedTime detail) in
  if bool_decide (src_sourceIdentity source <> cfg_sourceIdentity m)
  then mapError SourceIdentityMismatch "canonical_map" (src_presentationTime source)
         "source identity does not match mapper binding"
  else if negb (src_generation source =? cfg_generation m)
  then mapError GenerationMismatch "canonical_map" (src_presentationTime source)
         "source generation does not match mapper generation"
  else match src_presentationTime source with
  | None => mapError MissingSourceEvidence "canonical_map.presentation" None
              "presentation source time is required"
  | Some presentationTime =>
      if match src_duration source with Some d => d <? 0 | None => false end
      then mapError InvalidDuration "canonical_map.duration" (src_duration source)
             "duration must not be negative"
      else match mapOne m presentationTime "presentation" with
      | inr e => inr e
      | inl presentation =>
          match (match src_decodeTime source with
                 | None => inl None
                 | Some decodeTime =>
                     match mapOne m decodeTime "decode" with inr e => inr e | inl d => inl (Some d) end
                 end) with
          | inr e => inr e
          | inl decode =>
              inl (mkMapped presentation decode (src_duration source) (src_generation source)
                     (src_sourceIdentity source) (src_confidence source))
          end
      end
  end.

Definition reset (config m : MediaCanonicalTimeMapperConfig) :
    option SyncError * MediaCanonicalTimeMapperConfig :=
  if bool_decide (cfg_sourceIdentity config = EmptyString)
  then (Some (syncError m EmptySourceIdentity Resetting "canonical_map.reset" (cfg_sourceIdentity config)
                (Some (cfg_generation m)) (Some (cfg_generation config)) (Some (cfg_sourceEpoch config))
                "planner must bind a non-empty source identity"), m)
  else if cfg_generation config <=? cfg_generation m
  then
    let expectedGeneration :=
      if cfg_generation m =? uint64_max then None else Some (cfg_generation m + 1) in
    (Some (syncError m InvalidGenerationTransition Resetting "canonical_map.reset"
             (cfg_sourceIdentity config) expectedGeneration (Some (cfg_generation config))
             (Some (cfg_sourceEpoch config))
             "new generation must be greater than the active generation"), m)
  else (None, config).

(** *** The affine map is exact *)

Definition m65Value (m : Magnitude65) : Z := m65_high m * 2 ^ 64 + m65_low m.

Definition m65Ok (m : Magnitude65) : Prop := is_u 64 (m65_low m) /\ 0 <= m65_high m.

Lemma signedMagnitude_spec v negate : is_i 64 v ->
  let t := signedMagnitude v negate in
  0 <= sm_magnitude t <= 2 ^ 63 /\
  (if sm_negative t then - sm_magnitude t else sm_magnitude t) = if negate then - v else v.
Proof.
  intros Hv. unfold signedMagnitude. cbn.
  assert (E : (if v <? 0 then u64 (- (v + 1) + 1) else v) = Z.abs v).
  { destruct (Z.ltb_spec v 0); [| lia]. unfold u64. rewrite Z.mod_small; ranges; lia. }
  rewrite E. split; [ranges; lia |].
  destruct (Z.eqb_spec (Z.abs v) 0); [destruct negate; lia |].
  destruct (Z.ltb_spec v 0), negate; cbn [xorb]; lia.
Qed.

Lemma addMagnitude_spec total magnitude : m65Ok total -> 0 <= magnitude <= 2 ^ 63 ->
  m65Ok (addMagnitude total magnitude) /\
  m65Value (addMagnitude total magnitude) = m65Value total + magnitude.
Proof.
  intros [Hl Hh] Hm. unfold m65Ok, m65Value, addMagnitude. cbn.
  destruct (Z.ltb_spec (uint64_max - m65_low total) magnitude).
  - replace (u64 (m65_low total + magnitude)) with (m65_low total + magnitude - 2 ^ 64); [ranges; lia |].
    unfold u64. apply Z.mod_unique with 1; ranges; lia.
  - unfold u64. rewrite Z.mod_small by (ranges; lia). ranges; lia.
Qed.

Lemma addTerm_spec totals term v :
  m65Ok totals.1 -> m65Ok totals.2 -> 0 <= sm_magnitude term <= 2 ^ 63 ->
  (if sm_negative term then - sm_magnitude term else sm_magnitude term) = v ->
  m65Ok (addTerm totals term).1 /\ m65Ok (addTerm totals term).2 /\
  m65Value (addTerm totals term).1 - m65Value (addTerm totals term).2 =
    m65Value totals.1 - m65Value totals.2 + v.
Proof.
  intros H1 H2 Hm <-. unfold addTerm. destruct (sm_negative term); cbn.
  - destruct (addMagnitude_spec totals.2 (sm_magnitude term) H2 Hm) as [? ->]. split_and!; [done.. | lia].
  - destruct (addMagnitude_spec totals.1 (sm_magnitude term) H1 Hm) as [? ->]. split_and!; [done.. | lia].
Qed.

Lemma compareMagnitude_spec l r : m65Ok l -> m65Ok r ->
  (0 <=? compareMagnitude l r) = (m65Value r <=? m65Value l).
Proof.
  intros [Hl Hlh] [Hr Hrh]. unfold compareMagnitude, m65Value. symmetry.
  repeat match goal with |- context [?x =? ?y] => destruct (Z.eqb_spec x y)
    | |- context [?x <? ?y] => destruct (Z.ltb_spec x y) end;
    cbn [negb Z.leb Z.compare]; first [apply Z.leb_le | apply Z.leb_gt]; ranges; nia.
Qed.

Lemma subtractMagnitude_spec l s : m65Ok l -> m65Ok s -> m65Value s <= m65Value l ->
  subtractMagnitude l s =
    if m65Value l - m65Value s <? 2 ^ 64 then Some (m65Value l - m65Value s) else None.
Proof.
  intros [Hl Hlh] [Hs Hsh]. unfold subtractMagnitude, m65Value. intros Hle.
  destruct (Z.eqb_spec (m65_high l) (m65_high s)) as [E |].
  - rewrite E in *. destruct (Z.ltb_spec (m65_high s * 2 ^ 64 + m65_low l - (m65_high s * 2 ^ 64 + m65_low s)) (2 ^ 64));
      [| ranges; lia]. f_equal. unfold u64. rewrite Z.mod_small; ranges; lia.
  - destruct (Z.eqb_spec (m65_high l) (m65_high s + 1)) as [E |]; cbn [andb].
    + rewrite E in *. destruct (Z.ltb_spec (m65_low l) (m65_low s)).
      * destruct (Z.ltb_spec ((m65_high s + 1) * 2 ^ 64 + m65_low l - (m65_high s * 2 ^ 64 + m65_low s)) (2 ^ 64));
          [| ranges; lia]. f_equal. unfold u64. symmetry. apply Z.mod_unique with (-1); ranges; lia.
      * destruct (Z.ltb_spec ((m65_high s + 1) * 2 ^ 64 + m65_low l - (m65_high s * 2 ^ 64 + m65_low s)) (2 ^ 64));
          [ranges; lia | done].
    + destruct (Z.ltb_spec (m65_high l * 2 ^ 64 + m65_low l - (m65_high s * 2 ^ 64 + m65_low s)) (2 ^ 64)); [| done].
      ranges. lia.
Qed.

(** The sum of the three terms, whatever their signs: the loop over the terms
    loses nothing. *)
Lemma affine_totals s e r : is_i 64 s -> is_i 64 e -> is_i 64 r ->
  let totals := fold_left addTerm [signedMagnitude s false; signedMagnitude e true; signedMagnitude r false]
                  (mkMagnitude65 0 0, mkMagnitude65 0 0) in
  m65Ok totals.1 /\ m65Ok totals.2 /\ m65Value totals.1 - m65Value totals.2 = s - e + r.
Proof.
  intros Hs He Hr. cbn [fold_left].
  destruct (signedMagnitude_spec s false Hs) as [B1 V1], (signedMagnitude_spec e true He) as [B2 V2],
    (signedMagnitude_spec r false Hr) as [B3 V3].
  assert (Z0 : m65Ok (mkMagnitude65 0 0)) by (split; cbn; ranges; lia).
  destruct (addTerm_spec (mkMagnitude65 0 0, mkMagnitude65 0 0) _ _ Z0 Z0 B1 V1) as (P1 & N1 & E1).
  destruct (addTerm_spec _ _ _ P1 N1 B2 V2) as (P2 & N2 & E2).
  destruct (addTerm_spec _ _ _ P2 N2 B3 V3) as (P3 & N3 & E3).
  split_and!; [done.. |]. rewrite E3, E2, E1. cbn. lia.
Qed.

Lemma checkedAffineNanoseconds_spec s e r : is_i 64 s -> is_i 64 e -> is_i 64 r ->
  checkedAffineNanoseconds s e r = if isInt64 (s - e + r) then Some (s - e + r) else None.
Proof.
  intros Hs He Hr. unfold checkedAffineNanoseconds.
  pose proof (affine_totals s e r Hs He Hr) as T. cbn beta zeta in T.
  destruct (fold_left _ _ _) as [p n]. cbn [fst snd] in T. destruct T as (Hp & Hn & E).
  rewrite compareMagnitude_spec by done. unfold isInt64. rewrite <- E.
  destruct (Z.leb_spec (m65Value n) (m65Value p)).
  - rewrite subtractMagnitude_spec by done. set (d := m65Value p - m65Value n) in *.
    destruct (Z.leb_spec int64_min d); [| ranges; lia]. destruct (Z.ltb_spec d (2 ^ 64)); cbn;
      destruct (Z.leb_spec d int64_max); try (ranges; lia); [destruct (Z.ltb_spec int64_max d); lia || done |
        destruct (Z.ltb_spec int64_max d); lia || done | done].
  - rewrite subtractMagnitude_spec by (done || lia).
    replace (m65Value n - m65Value p) with (- (m65Value p - m65Value n)) by lia.
    set (d := m65Value p - m65Value n) in *. change (Z.shiftl 1 63) with (2 ^ 63).
    destruct (Z.leb_spec d int64_max); [| ranges; lia]. destruct (Z.ltb_spec (- d) (2 ^ 64)); cbn;
      destruct (Z.leb_spec int64_min d); try (ranges; lia); cbn; [| | done].
    + destruct (Z.ltb_spec (2 ^ 63) (- d)); [ranges; lia |].
      destruct (Z.eqb_spec (- d) (2 ^ 63)); f_equal; ranges; lia.
    + destruct (Z.ltb_spec (2 ^ 63) (- d)); [done | ranges; lia].
Qed.

(** What a successful mapping means: the source belongs to the mapper's
    stream and generation, its duration is not negative, and both times are
    moved by the same exact offset, inside 64 bits. *)
Record mapsTo (m : MediaCanonicalTimeMapperConfig) (s : MediaCanonicalSourceTimestamp)
    (t : MediaMappedTimestamp) : Prop := {
  mt_identity : src_sourceIdentity s = cfg_sourceIdentity m /\ map_sourceIdentity t = cfg_sourceIdentity m;
  mt_generation : src_generation s = cfg_generation m /\ map_generation t = cfg_generation m;
  mt_duration : map_duration t = src_duration s /\ forall d, src_duration s = Some d -> 0 <= d;
  mt_presentation : exists p, src_presentationTime s = Some p /\
    map_presentationTime t = p - cfg_sourceEpoch m + cfg_runningTimeEpoch m;
  mt_decode : map_decodeTime t = (fun d => d - cfg_sourceEpoch m + cfg_runningTimeEpoch m) <$> src_decodeTime s;
  mt_range : is_i 64 (map_presentationTime t) /\ forall d, map_decodeTime t = Some d -> is_i 64 d;
  mt_confidence : map_confidence t = src_confidence s;
}.

(** The fields are machine integers. *)
Definition configTyped (m : MediaCanonicalTimeMapperConfig) : Prop :=
  is_i 64 (cfg_sourceEpoch m) /\ is_i 64 (cfg_runningTimeEpoch m) /\ is_u 64 (cfg_generation m).

Definition sourceTyped (s : MediaCanonicalSourceTimestamp) : Prop :=
  (forall t, src_presentationTime s = Some t -> is_i 64 t) /\ (forall t, src_decodeTime s = Some t -> is_i 64 t) /\
  (forall t, src_duration s = Some t -> is_i 64 t) /\ is_u 64 (src_generation s).

Lemma mapOne_spec m time field : configTyped m -> is_i 64 time ->
  match mapOne m time field with
  | inl t => t = time - cfg_sourceEpoch m + cfg_runningTimeEpoch m /\ is_i 64 t
  | inr e => ~ is_i 64 (time - cfg_sourceEpoch m + cfg_runningTimeEpoch m) /\ se_code e = TimeOverflow
  end.
Proof.
  intros (H1 & H2 & _) Ht. unfold mapOne. rewrite checkedAffineNanoseconds_spec by done.
  destruct (isInt64 _) eqn:E; [by apply isInt64_spec in E |].
  split; [| done]. rewrite <- isInt64_spec, E. done.
Qed.

Lemma map_sound m s t : configTyped m -> sourceTyped s -> map m s = inl t -> mapsTo m s t.
Proof.
  intros Hm (Hp & Hd & Hdur & Hg). unfold map.
  case_bool_decide as Hid; [done |].
  destruct (Z.eqb_spec (src_generation s) (cfg_generation m)) as [Egen |]; [| done]. cbn [negb].
  destruct (src_presentationTime s) as [p |] eqn:Ep; [| done].
  destruct (match src_duration s with Some d => _ | None => _ end) eqn:Edur; [done |].
  pose proof (mapOne_spec m p "presentation" Hm (Hp p eq_refl)) as Sp.
  destruct (mapOne m p "presentation") as [tp |]; [| done].
  assert (Hdur' : forall d, src_duration s = Some d -> 0 <= d)
    by (intros d Ed; rewrite Ed in Edur; by apply Z.ltb_ge in Edur).
  destruct (src_decodeTime s) as [d |] eqn:Ed.
  + pose proof (mapOne_spec m d "decode" Hm (Hd d eq_refl)) as Sd. destruct (mapOne m d "decode") as [td |]; [| done].
    intros [= <-]. destruct Sp as [-> ?], Sd as [-> ?]. split; cbn; rewrite ?Ep, ?Ed; try done; [by exists p |].
    split; [done |]. by intros ? [= <-].
  + intros [= <-]. destruct Sp as [-> ?]. split; cbn; rewrite ?Ep, ?Ed; try done. by exists p.
Qed.

(** The canonical mapper is the affine map it is configured as: it succeeds
    exactly on the timestamps of its own stream and generation with a
    presentation time, no negative duration and results inside 64 bits, and
    then both times are moved by exactly running epoch - source epoch, although
    the sum of the three terms may need 65 bits on the way. *)
Theorem canonical_map_affine m s t : configTyped m -> sourceTyped s ->
  map m s = inl t <-> mapsTo m s t.
Proof.
  intros Hm Hs. split; [by apply map_sound |]. destruct Hs as (Hp & Hd & _). unfold map.
  intros [[I1 I2] [G1 G2] [D1 D2] (p & Ep & Et) Edec [R1 R2] Ec].
  rewrite bool_decide_eq_false_2 by (rewrite I1; tauto). rewrite G1, Z.eqb_refl. cbn [negb]. rewrite Ep.
  replace (match src_duration s with Some d => _ | None => _ end) with false; cycle 1.
  { destruct (src_duration s) as [d |]; [| done]. symmetry. apply Z.ltb_ge. by apply D2. }
  pose proof (mapOne_spec m p "presentation" Hm (Hp p Ep)) as Sp.
  destruct (mapOne m p "presentation") as [tp |]; [| by rewrite Et in R1; destruct Sp].
  destruct Sp as [-> _]. rewrite <- Et. destruct t as [tp td tdur tg ti tc]. cbn in *. subst.
  destruct (src_decodeTime s) as [d |] eqn:Ed; cbn in *; rewrite ?I1; [| done].
  pose proof (mapOne_spec m d "decode" Hm (Hd d eq_refl)) as Sd.
  destruct (mapOne m d "decode") as [td |]; [by destruct Sd as [-> _] |].
  destruct Sd as [Sd _]. by destruct Sd; apply R2.
Qed.

(** The extreme case: source time and running epoch at the largest value, the
    sum of the positive terms needs 65 bits and the result fits. *)
Lemma canonical_map_affine_witness :
  let m := mkConfig int64_max 5 DemuxTimestamps "video" 3 in
  let s := mkSourceTimestamp (Some int64_max) (Some (int64_max - 40)) (Some 0) 3 "video" ConfidenceLocked in
  mapsTo m s (mkMapped 5 (Some (-35)) (Some 0) 3 "video" ConfidenceLocked).
Proof.
  intros m s. apply (canonical_map_affine m s).
  - unfold configTyped, m; cbn; ranges; lia.
  - unfold sourceTyped, s; cbn. split_and!; try (intros ? [= <-]); ranges; lia.
  - reflexivity.
Defined.

End MediaCanonicalTimeMapper.
