(* ===== verification/DemuxClock.v ===== *)
(** * The demux clock: one canonical timeline for a demuxed pair of streams

    Models [time/MediaDemuxTimestampClockMapper.{h,cpp}], with
    [MediaSourceClockReadiness] of [model/MediaPacketSourceTiming.h] and
    [MediaAvGenerationPurge] of [sync/MediaAvGenerationTransition.h].

    The mapper waits for the first packet of both streams, checks that their
    presentation times are close, takes the earlier one as the common source
    epoch and then maps every packet of both streams with it; a discontinuity
    makes it wait for a purge, which both participants have to acknowledge
    before the next generation starts to acquire.

    Every operation holds [m_transactionMutex] from its first to its last
    access, so an operation is one step; [reserveOutputCommit] hands the
    locked mutex to its caller, which the model keeps as [dm_transactionHeld]:
    until the reservation is dropped the operations that lock it do not run.
    The two state-change callbacks are opaque, the model counts their calls. *)

From S2P Require Import Prelude MediaResult CheckedArithmetic Model TsPes TimeBase CanonicalTime.
Import MediaRunningTime MediaAvSyncError MediaMappedTimestamps.
Import MediaTsPes (MediaScheduledStream(..), isAudio).
Import MediaCanonicalTimeMapper (MediaCanonicalTimeMapperConfig, mkConfig, cfg_sourceEpoch,
  cfg_runningTimeEpoch, cfg_sourceClockMode, cfg_sourceIdentity, cfg_generation).

Local Open Scope Z_scope.
Local Open Scope result_scope.

Module MediaDemuxTimestampClockMapper.

Inductive MediaSourceClockReadiness := Acquiring | Locked | ReacquireRequired | Degraded.

#[export] Instance readiness_eq_dec : EqDecision MediaSourceClockReadiness.
Proof. solve_decision. Defined.

Record MediaAvGenerationPurge := mkPurge {
  pg_oldGeneration : Z;
  pg_nextGeneration : Z;
  pg_transitionSequence : Z;
}.

(** [AV_NOPTS_VALUE] of FFmpeg: the smallest signed 64-bit integer. *)
Definition AV_NOPTS_VALUE : Z := int64_min.

Record MediaDemuxTimestampClockMapperConfig := mkClockConfig {
  dc_videoTimeBase : MediaRational;
  dc_audioTimeBase : MediaRational;
  dc_firstWindowMaximumSkew : Z;
  dc_discontinuityThreshold : Z;
  dc_initialGeneration : Z;
  dc_videoSourceIdentity : string;
  dc_audioSourceIdentity : string;
  dc_canonicalTargetEpoch : Z;
}.

Record StreamState := mkStreamState {
  ss_firstPresentation : option Z;
  ss_firstDecode : option Z;
  ss_firstDuration : option Z;
  ss_latestPresentation : option Z;
  ss_latestDecode : option Z;
  ss_latestDuration : option Z;
}.

Definition emptyStream : StreamState := mkStreamState None None None None None None.

Record Mapper := mkMapper {
  dm_config : MediaDemuxTimestampClockMapperConfig;
  dm_streams : StreamState * StreamState;
  dm_videoMapper : option MediaCanonicalTimeMapperConfig;
  dm_audioMapper : option MediaCanonicalTimeMapperConfig;
  dm_readiness : MediaSourceClockReadiness;
  dm_generation : Z;
  dm_revision : Z;
  dm_lastTransitionSequence : option Z;
  dm_pendingPurge : option MediaAvGenerationPurge;
  dm_pendingPurgeParticipants : Z;
  dm_videoNotifier : bool;
  dm_audioNotifier : bool;
  dm_notifiersBound : bool;
  dm_videoWakeups : nat;
  dm_audioWakeups : nat;
  dm_transactionHeld : bool;
}.

Record MediaDemuxTimestampClockSnapshot := mkSnapshot {
  sn_readiness : MediaSourceClockReadiness;
  sn_generation : Z;
  sn_revision : Z;
  sn_hasTimestampEvidence : bool;
  sn_transitionPending : bool;
}.

Record MediaDemuxTimestampOutputCommitEvidence := mkEvidence {
  ev_readiness : MediaSourceClockReadiness;
  ev_generation : Z;
}.

(** *** Updates of the fields *)

Definition withTimeline (streams : StreamState * StreamState)
    (videoMapper audioMapper : option MediaCanonicalTimeMapperConfig)
    (readiness : MediaSourceClockReadiness) (generation : Z) (d : Mapper) : Mapper :=
  mkMapper (dm_config d) streams videoMapper audioMapper readiness generation (dm_revision d)
    (dm_lastTransitionSequence d) (dm_pendingPurge d) (dm_pendingPurgeParticipants d)
    (dm_videoNotifier d) (dm_audioNotifier d) (dm_notifiersBound d)
    (dm_videoWakeups d) (dm_audioWakeups d) (dm_transactionHeld d).

Definition withPurge (last : option Z) (pending : option MediaAvGenerationPurge) (participants : Z)
    (d : Mapper) : Mapper :=
  mkMapper (dm_config d) (dm_streams d) (dm_videoMapper d) (dm_audioMapper d) (dm_readiness d)
    (dm_generation d) (dm_revision d) last pending participants
    (dm_videoNotifier d) (dm_audioNotifier d) (dm_notifiersBound d)
    (dm_videoWakeups d) (dm_audioWakeups d) (dm_transactionHeld d).

Definition withRevision (revision : Z) (d : Mapper) : Mapper :=
  mkMapper (dm_config d) (dm_streams d) (dm_videoMapper d) (dm_audioMapper d) (dm_readiness d)
    (dm_generation d) revision (dm_lastTransitionSequence d) (dm_pendingPurge d)
    (dm_pendingPurgeParticipants d) (dm_videoNotifier d) (dm_audioNotifier d) (dm_notifiersBound d)
    (dm_videoWakeups d) (dm_audioWakeups d) (dm_transactionHeld d).

Definition withNotifiers (video audio bound : bool) (d : Mapper) : Mapper :=
  mkMapper (dm_config d) (dm_streams d) (dm_videoMapper d) (dm_audioMapper d) (dm_readiness d)
    (dm_generation d) (dm_revision d) (dm_lastTransitionSequence d) (dm_pendingPurge d)
    (dm_pendingPurgeParticipants d) video audio bound
    (dm_videoWakeups d) (dm_audioWakeups d) (dm_transactionHeld d).

Definition withTransaction (held : bool) (d : Mapper) : Mapper :=
  mkMapper (dm_config d) (dm_streams d) (dm_videoMapper d) (dm_audioMapper d) (dm_readiness d)
    (dm_generation d) (dm_revision d) (dm_lastTransitionSequence d) (dm_pendingPurge d)
    (dm_pendingPurgeParticipants d) (dm_videoNotifier d) (dm_audioNotifier d) (dm_notifiersBound d)
    (dm_videoWakeups d) (dm_audioWakeups d) held.

(** *** Operations *)

Definition create (config : MediaDemuxTimestampClockMapperConfig) : Result Mapper :=
  if (num (dc_videoTimeBase config) <=? 0) || (den (dc_videoTimeBase config) <=? 0) ||
     (num (dc_audioTimeBase config) <=? 0) || (den (dc_audioTimeBase config) <=? 0) ||
     (dc_firstWindowMaximumSkew config <=? 0) || (dc_discontinuityThreshold config <=? 0) ||
     (dc_initialGeneration config =? 0) ||
     bool_decide (dc_videoSourceIdentity config = EmptyString) ||
     bool_decide (dc_audioSourceIdentity config = EmptyString) ||
     bool_decide (dc_videoSourceIdentity config = dc_audioSourceIdentity config)
  then failure (invalidArgument "Demux timestamp mapper requires a complete positive planner policy")
  else Success (mkMapper config (emptyStream, emptyStream) None None Acquiring (dc_initialGeneration config)
                  0 None None 0 false false false 0 0 false).

Definition positiveDistance (left right : Z) (field : string) : Result Z :=
  match (if right <=? left then checkedSubtract left right else checkedSubtract right left) with
  | Failure _ => failure (invalidArgument ("Demux timestamp " +:+ field +:+ " distance is not representable"))
  | Success distance => Success distance
  end.

Definition rescale (timestamp : Z) (timeBase : MediaRational) (field : string) : Result Z :=
  if (timestamp =? AV_NOPTS_VALUE) || (num timeBase <=? 0) || (den timeBase <=? 0)
  then failure (invalidArgument ("Demux timestamp mapper requires " +:+ field +:+ " and a positive time base"))
  else match checkedFromTicks timestamp (num timeBase) (den timeBase) with
  | Failure _ => failure (invalidArgument ("Demux timestamp mapper " +:+ field +:+ " rescale is not representable"))
  | Success scaled => Success scaled
  end.

(** [m_streams[streamIndex(stream)]] and its update. *)
Definition streamAt (stream : MediaScheduledStream) (streams : StreamState * StreamState) : StreamState :=
  match stream with Scheduled_Video => streams.1 | Scheduled_Audio => streams.2 end.

Definition setStreamAt (stream : MediaScheduledStream) (s : StreamState)
    (streams : StreamState * StreamState) : StreamState * StreamState :=
  match stream with Scheduled_Video => (s, streams.2) | Scheduled_Audio => (streams.1, s) end.

Definition sourceIdentity (c : MediaDemuxTimestampClockMapperConfig) (stream : MediaScheduledStream) : string :=
  match stream with Scheduled_Video => dc_videoSourceIdentity c | Scheduled_Audio => dc_audioSourceIdentity c end.

Definition plannedTimeBase (c : MediaDemuxTimestampClockMapperConfig) (stream : MediaScheduledStream) : MediaRational :=
  match stream with Scheduled_Video => dc_videoTimeBase c | Scheduled_Audio => dc_audioTimeBase c end.

Definition validatePacketInput (d : Mapper) (stream : MediaScheduledStream) (pts dts : Z)
    (timeBase : MediaRational) (duration generation : Z) : Result unit :=
  let planned := plannedTimeBase (dm_config d) stream in
  if (pts =? AV_NOPTS_VALUE) || (dts =? AV_NOPTS_VALUE) || (duration <=? 0) ||
     negb (num timeBase =? num planned) || negb (den timeBase =? den planned)
  then failure (invalidArgument "Demux timestamp mapper rejects absent packet timing or unplanned time base")
  else if negb (generation =? dm_generation d)
  then failure (invalidArgument "Demux timestamp mapper rejects an unplanned generation change")
  else match dm_pendingPurge d with
  | Some _ => failure (wouldBlock "Demux timestamp mapper is completing its planned generation purge")
  | None =>
      if bool_decide (dm_readiness d = ReacquireRequired)
      then failure (wouldBlock "Demux timestamp mapper awaits planned generation purge")
      else Success tt
  end.

(** [validateCommonWindow]: the two first presentation times when the window is
    complete and close enough. *)
Definition validateCommonWindow (c : MediaDemuxTimestampClockMapperConfig)
    (streams : StreamState * StreamState) : Result (Z * Z) :=
  match ss_firstPresentation streams.1, ss_firstDecode streams.1, ss_firstDuration streams.1,
        ss_firstPresentation streams.2, ss_firstDecode streams.2, ss_firstDuration streams.2 with
  | Some p0, Some _, Some _, Some p1, Some _, Some _ =>
      let* skew := positiveDistance p0 p1 "first-window skew" in
      if dc_firstWindowMaximumSkew c <? skew
      then failure (invalidArgument "Demux timestamp mapper rejects excessive first-window A/V skew")
      else Success (p0, p1)
  | _, _, _, _, _, _ =>
      failure (notInitialized "Demux timestamp mapper is acquiring the first common A/V window")
  end.

Definition validateTimelineContinuity (c : MediaDemuxTimestampClockMapperConfig)
    (current latest latestDuration : Z) (field : string) : Result unit :=
  if current <? latest
  then failure (wouldBlock ("Demux " +:+ field +:+ " regression is forbidden by the strict clock"))
  else if current =? latest then Success tt
  else
    let* expectedNext := checkedAdd latest latestDuration in
    if expectedNext <? current then
      let* gap := checkedSubtract current expectedNext in
      if dc_discontinuityThreshold c <? gap
      then failure (wouldBlock ("Demux " +:+ field +:+ " discontinuity requires planned reacquisition"))
      else Success tt
    else Success tt.

Definition mapWith (c : MediaDemuxTimestampClockMapperConfig) (mapper : MediaCanonicalTimeMapperConfig)
    (stream : MediaScheduledStream) (presentation decode duration generation : Z) : Result MediaMappedTimestamp :=
  match MediaCanonicalTimeMapper.map mapper
          (mkSourceTimestamp (Some presentation) (Some decode) (Some duration) generation
             (sourceIdentity c stream) ConfidenceLocked) with
  | inl mapped => Success mapped
  | inr e => failure (toErrorInfo e)
  end.

Definition markStateChanged (d : Mapper) : Mapper :=
  if negb (dm_revision d =? uint64_max) then withRevision (dm_revision d + 1) d else d.

Definition requireReacquisition (d : Mapper) : Mapper :=
  markStateChanged (withTimeline (dm_streams d) (dm_videoMapper d) (dm_audioMapper d) ReacquireRequired
                      (dm_generation d) d).

Definition notifyStateChange (d : Mapper) : Mapper :=
  mkMapper (dm_config d) (dm_streams d) (dm_videoMapper d) (dm_audioMapper d) (dm_readiness d)
    (dm_generation d) (dm_revision d) (dm_lastTransitionSequence d) (dm_pendingPurge d)
    (dm_pendingPurgeParticipants d) (dm_videoNotifier d) (dm_audioNotifier d) (dm_notifiersBound d)
    (if dm_videoNotifier d then S (dm_videoWakeups d) else dm_videoWakeups d)
    (if dm_audioNotifier d then S (dm_audioWakeups d) else dm_audioWakeups d)
    (dm_transactionHeld d).

Definition resetForGeneration (generation : Z) (d : Mapper) : Mapper :=
  withTimeline (emptyStream, emptyStream) None None Acquiring generation d.

(** The first packet of a stream, recorded or compared with the recorded one. *)
Definition recordFirst (presentation decode duration : Z) (candidate : StreamState) : Result StreamState :=
  match ss_firstPresentation candidate with
  | None =>
      Success (mkStreamState (Some presentation) (Some decode) (Some duration)
                 (ss_latestPresentation candidate) (ss_latestDecode candidate) (ss_latestDuration candidate))
  | Some first =>
      if negb (first =? presentation) || negb (bool_decide (ss_firstDecode candidate = Some decode)) ||
         negb (bool_decide (ss_firstDuration candidate = Some duration))
      then failure (invalidArgument "Demux mapper retains exactly one complete first packet per stream")
      else Success candidate
  end.

Definition latestFromFirst (s : StreamState) : StreamState :=
  mkStreamState (ss_firstPresentation s) (ss_firstDecode s) (ss_firstDuration s)
    (ss_firstPresentation s) (ss_firstDecode s) (ss_firstDuration s).

Definition commonMapper (c : MediaDemuxTimestampClockMapperConfig) (sourceEpoch generation : Z)
    (stream : MediaScheduledStream) : AvSyncResult MediaCanonicalTimeMapperConfig :=
  MediaCanonicalTimeMapper.create
    (mkConfig sourceEpoch (dc_canonicalTargetEpoch c) DemuxTimestamps (sourceIdentity c stream) generation).

Definition fromSync {A} (r : AvSyncResult A) : Result A :=
  match r with inl a => Success a | inr e => failure (toErrorInfo e) end.

(** [mapPacket] while [m_readiness] is [Acquiring]. *)
Definition acquire (stream : MediaScheduledStream) (presentation decode duration generation : Z)
    (d : Mapper) : Result MediaMappedTimestamp * Mapper :=
  let c := dm_config d in
  match recordFirst presentation decode duration (streamAt stream (dm_streams d)) with
  | Failure e => (failure e, d)
  | Success candidate =>
      let firstWindow := setStreamAt stream candidate (dm_streams d) in
      match validateCommonWindow c firstWindow with
      | Failure e =>
          if bool_decide (errCode e = ErrNotInitialized)
          then (failure e,
                notifyStateChange (markStateChanged
                  (withTimeline firstWindow (dm_videoMapper d) (dm_audioMapper d) (dm_readiness d)
                     (dm_generation d) d)))
          else (failure e, d)
      | Success (first0, first1) =>
          let sourceEpoch := Z.min first0 first1 in
          match (let* video := fromSync (commonMapper c sourceEpoch generation Scheduled_Video) in
                 let* audio := fromSync (commonMapper c sourceEpoch generation Scheduled_Audio) in
                 let* mapped := mapWith c (if isAudio stream then audio else video) stream
                             presentation decode duration generation in
                 Success (video, audio, mapped)) with
          | Failure e => (failure e, d)
          | Success (video, audio, mapped) =>
              (Success mapped,
               notifyStateChange (markStateChanged
                 (withTimeline (latestFromFirst firstWindow.1, latestFromFirst firstWindow.2)
                    (Some video) (Some audio) Locked (dm_generation d) d)))
          end
      end
  end.

(** [mapPacket] in the other readiness states. *)
Definition track (stream : MediaScheduledStream) (presentation decode duration generation : Z)
    (d : Mapper) : Result MediaMappedTimestamp * Mapper :=
  let c := dm_config d in
  let candidate := streamAt stream (dm_streams d) in
  match ss_latestPresentation candidate, ss_latestDecode candidate, ss_latestDuration candidate with
  | Some latestPresentation, Some latestDecode, Some latestDuration =>
      match (let* _ := validateTimelineContinuity c presentation latestPresentation latestDuration "PTS" in
             validateTimelineContinuity c decode latestDecode latestDuration "DTS") with
      | Failure e => (failure e, notifyStateChange (requireReacquisition d))
      | Success _ =>
          match (if isAudio stream then dm_audioMapper d else dm_videoMapper d) with
          | None => (failure (internalError "Demux mapper has no locked canonical projection"), d)
          | Some mapper =>
              match mapWith c mapper stream presentation decode duration generation with
              | Failure e => (failure e, d)
              | Success mapped =>
                  (Success mapped,
                   withTimeline
                     (setStreamAt stream
                        (mkStreamState (ss_firstPresentation candidate) (ss_firstDecode candidate)
                           (ss_firstDuration candidate) (Some presentation) (Some decode) (Some duration))
                        (dm_streams d))
                     (dm_videoMapper d) (dm_audioMapper d) (dm_readiness d) (dm_generation d) d)
              end
          end
      end
  | _, _, _ => (failure (internalError "Demux mapper lost its committed stream timeline"), d)
  end.

Definition mapPacket (stream : MediaScheduledStream) (pts dts : Z) (timeBase : MediaRational)
    (duration generation : Z) (d : Mapper) : Result MediaMappedTimestamp * Mapper :=
  match (let* _ := validatePacketInput d stream pts dts timeBase duration generation in
         let* presentation := rescale pts timeBase "PTS" in
         let* decode := rescale dts timeBase "DTS" in
         let* mappedDuration := rescale duration timeBase "duration" in
         if mappedDuration <=? 0
         then failure (invalidArgument "Demux timestamp mapper requires positive mapped duration")
         else Success (presentation, decode, mappedDuration)) with
  | Failure e => (failure e, d)
  | Success (presentation, decode, mappedDuration) =>
      if bool_decide (dm_readiness d = Acquiring)
      then acquire stream presentation decode mappedDuration generation d
      else track stream presentation decode mappedDuration generation d
  end.

(** [bindStateChangeNotifiers]; the flags say whether the callables are set. *)
Definition bindStateChangeNotifiers (videoNotifier audioNotifier : bool) (d : Mapper) : Result unit * Mapper :=
  if dm_notifiersBound d || negb videoNotifier || negb audioNotifier
  then (failure (invalidArgument "Demux timestamp mapper binds both stream wakeups exactly once"), d)
  else (Success tt, withNotifiers videoNotifier audioNotifier true d).

Definition snapshot (d : Mapper) : MediaDemuxTimestampClockSnapshot :=
  mkSnapshot (dm_readiness d) (dm_generation d) (dm_revision d)
    (bool_decide (is_Some (ss_firstPresentation (dm_streams d).1)) ||
     bool_decide (is_Some (ss_firstPresentation (dm_streams d).2)))
    (bool_decide (is_Some (dm_pendingPurge d))).

Definition outputIsCurrent (evidence : MediaDemuxTimestampOutputCommitEvidence) (d : Mapper) : bool :=
  negb (bool_decide (is_Some (dm_pendingPurge d))) &&
  bool_decide (ev_readiness evidence = dm_readiness d) && (ev_generation evidence =? dm_generation d).

Definition reserveOutputCommit (evidence : MediaDemuxTimestampOutputCommitEvidence) (d : Mapper) :
    Result unit * Mapper :=
  if bool_decide (is_Some (dm_pendingPurge d)) ||
     negb (bool_decide (ev_readiness evidence = dm_readiness d)) ||
     negb (ev_generation evidence =? dm_generation d)
  then (failure (cancelled "Demux mapper rejects stale generation output"), d)
  else (Success tt, withTransaction true d).

(** The destruction of the reservation: the mutex is unlocked. *)
Definition dropReservation (d : Mapper) : Mapper := withTransaction false d.

Definition participantBit (stream : MediaScheduledStream) : Z :=
  match stream with Scheduled_Video => 1 | Scheduled_Audio => 2 end.

Definition purgeParticipant (stream : MediaScheduledStream) (purge : MediaAvGenerationPurge) (d : Mapper) :
    Result unit * Mapper :=
  match (match dm_pendingPurge d with
         | None =>
             if (negb (bool_decide (dm_readiness d = Locked)) &&
                 negb (bool_decide (dm_readiness d = ReacquireRequired))) ||
                negb (pg_oldGeneration purge =? dm_generation d) ||
                (pg_nextGeneration purge <=? pg_oldGeneration purge) ||
                (pg_transitionSequence purge =? 0) ||
                (match dm_lastTransitionSequence d with
                 | Some last => pg_transitionSequence purge <=? last
                 | None => false
                 end)
             then failure (invalidArgument "Demux timestamp mapper purge requires its exact pending transition")
             else Success purge
         | Some pending =>
             if negb (pg_oldGeneration pending =? pg_oldGeneration purge) ||
                negb (pg_nextGeneration pending =? pg_nextGeneration purge) ||
                negb (pg_transitionSequence pending =? pg_transitionSequence purge)
             then failure (invalidArgument "Demux timestamp mapper rejects mismatched participant purge facts")
             else Success pending
         end) with
  | Failure e => (failure e, d)
  | Success pending =>
      let d1 := withPurge (dm_lastTransitionSequence d) (Some pending) (dm_pendingPurgeParticipants d) d in
      let participant := participantBit stream in
      if negb (Z.land (dm_pendingPurgeParticipants d1) participant =? 0)
      then (failure (invalidArgument "Demux timestamp mapper rejects duplicate participant purge"), d1)
      else
        let participants := Z.lor (dm_pendingPurgeParticipants d1) participant in
        let d2 :=
          if participants =? 3
          then withPurge (Some (pg_transitionSequence purge)) None 0
                 (resetForGeneration (pg_nextGeneration purge) d1)
          else withPurge (dm_lastTransitionSequence d1) (dm_pendingPurge d1) participants d1 in
        (Success tt, notifyStateChange (markStateChanged d2))
  end.

Definition resetLifecycle (d : Mapper) : Mapper :=
  withRevision 0 (withPurge None None 0 (resetForGeneration (dc_initialGeneration (dm_config d)) d)).

End MediaDemuxTimestampClockMapper.
