(* ===== verification/DemuxClockSafety.v ===== *)
(** * The demux clock keeps audio and video together

    The invariant of [MediaDemuxTimestampClockMapper] over every schedule of
    its operations, and what follows from it: one offset per generation for
    both streams, times that never go back, output commits that stay inside
    their generation, and a wakeup for every change of the snapshot. *)

From S2P Require Import Prelude MediaResult CheckedArithmetic Model TsPes TimeBase CanonicalTime DemuxClock.
Import MediaRunningTime MediaAvSyncError MediaMappedTimestamps.
Import MediaTsPes (MediaScheduledStream(..), isAudio).
Import MediaCanonicalTimeMapper (MediaCanonicalTimeMapperConfig, mkConfig, cfg_sourceEpoch, cfg_runningTimeEpoch, cfg_sourceIdentity, cfg_generation,
  map_sound, mapsTo, mt_presentation, mt_decode, mt_generation, mt_identity, configTyped, sourceTyped).
Import MediaDemuxTimestampClockMapper.

Local Open Scope Z_scope.
Local Open Scope result_scope.

Module MediaDemuxClockSafety.

(** ** Schedules *)

Inductive Call :=
  | MapPacket (stream : MediaScheduledStream) (pts dts : Z) (timeBase : MediaRational) (duration generation : Z)
  | BindNotifiers (video audio : bool)
  | ReserveOutputCommit (evidence : MediaDemuxTimestampOutputCommitEvidence)
  | DropReservation
  | PurgeParticipant (stream : MediaScheduledStream) (purge : MediaAvGenerationPurge)
  | ResetLifecycle.

(** The calls that lock [m_transactionMutex]. *)
Definition locksTransaction (c : Call) : bool :=
  match c with
  | MapPacket _ _ _ _ _ _ | ReserveOutputCommit _ | PurgeParticipant _ _ | ResetLifecycle => true
  | BindNotifiers _ _ | DropReservation => false
  end.

(** A mapped packet, with the stream it belongs to and its packet times. *)
Record Output := mkOutput {
  out_stream : MediaScheduledStream;
  out_pts : Z;
  out_dts : Z;
  out_timeBase : MediaRational;
  out_mapped : MediaMappedTimestamp;
}.

(** A call; one that has to wait for the mutex does nothing. *)
Definition perform (c : Call) (d : Mapper) : list Output * Mapper :=
  if locksTransaction c && dm_transactionHeld d then ([], d)
  else match c with
  | MapPacket stream pts dts timeBase duration generation =>
      let '(r, d') := mapPacket stream pts dts timeBase duration generation d in
      (match r with Success m => [mkOutput stream pts dts timeBase m] | Failure _ => [] end, d')
  | BindNotifiers video audio => ([], (bindStateChangeNotifiers video audio d).2)
  | ReserveOutputCommit evidence => ([], (reserveOutputCommit evidence d).2)
  | DropReservation => ([], dropReservation d)
  | PurgeParticipant stream purge => ([], (purgeParticipant stream purge d).2)
  | ResetLifecycle => ([], resetLifecycle d)
  end.

Fixpoint run (cs : list Call) (d : Mapper) : list Output * Mapper :=
  match cs with
  | [] => ([], d)
  | c :: cs' =>
      let '(o, d1) := perform c d in
      let '(os, d2) := run cs' d1 in (o ++ os, d2)
  end.

(** The arguments are machine integers. *)
Definition callTyped (c : Call) : Prop :=
  match c with
  | MapPacket _ pts dts _ duration generation =>
      is_i 64 pts /\ is_i 64 dts /\ is_i 64 duration /\ is_u 64 generation
  | PurgeParticipant _ purge => is_u 64 (pg_nextGeneration purge)
  | _ => True
  end.

Definition isReset (c : Call) : bool := match c with ResetLifecycle => true | _ => false end.

(** ** The invariant *)

Definition nanoseconds (ticks : Z) (timeBase : MediaRational) : Z :=
  Z.quot (ticks * num timeBase * 1000000000) (den timeBase).

Definition timeBaseOk (t : MediaRational) : Prop := 0 < num t < 2 ^ 31 /\ 0 < den t < 2 ^ 31.

Record clockConfigOk (c : MediaDemuxTimestampClockMapperConfig) : Prop := {
  cc_video : timeBaseOk (dc_videoTimeBase c);
  cc_audio : timeBaseOk (dc_audioTimeBase c);
  cc_skew : 0 < dc_firstWindowMaximumSkew c;
  cc_generation : is_u 64 (dc_initialGeneration c);
  cc_target : is_i 64 (dc_canonicalTargetEpoch c);
  cc_videoIdentity : dc_videoSourceIdentity c <> EmptyString;
  cc_audioIdentity : dc_audioSourceIdentity c <> EmptyString;
}.

(** A stream whose first packet was seen, and one that is being tracked. *)
Definition firstSeen (p t u : Z) : StreamState := mkStreamState (Some p) (Some t) (Some u) None None None.

Definition awaiting (s : StreamState) : Prop :=
  s = emptyStream \/ exists p t u, s = firstSeen p t u /\ is_i 64 p /\ is_i 64 t.

Definition trackedFrom (first : Z) (s : StreamState) : Prop :=
  exists t u lp lt lu, s = mkStreamState (Some first) (Some t) (Some u) (Some lp) (Some lt) (Some lu) /\
    first <= lp /\ t <= lt /\ is_i 64 first /\ is_i 64 lp /\ is_i 64 lt.

Definition mapperFor (c : MediaDemuxTimestampClockMapperConfig) (epoch generation : Z)
    (stream : MediaScheduledStream) :=
  mkConfig epoch (dc_canonicalTargetEpoch c) DemuxTimestamps (sourceIdentity c stream) generation.

(** Acquiring: nothing is mapped and at most one stream has shown its first
    packet.  Afterwards: both projections share the source epoch, which is the
    earlier of the two first presentation times, not further apart than the
    planner allows. *)
Definition timelineOk (d : Mapper) : Prop :=
  match dm_readiness d with
  | Acquiring =>
      dm_videoMapper d = None /\ dm_audioMapper d = None /\
      awaiting (dm_streams d).1 /\ awaiting (dm_streams d).2 /\
      ((dm_streams d).1 = emptyStream \/ (dm_streams d).2 = emptyStream)
  | Locked | ReacquireRequired =>
      exists first0 first1, let e := Z.min first0 first1 in
        dm_videoMapper d = Some (mapperFor (dm_config d) e (dm_generation d) Scheduled_Video) /\
        dm_audioMapper d = Some (mapperFor (dm_config d) e (dm_generation d) Scheduled_Audio) /\
        trackedFrom first0 (dm_streams d).1 /\ trackedFrom first1 (dm_streams d).2 /\
        Z.abs (first0 - first1) <= dc_firstWindowMaximumSkew (dm_config d)
  | Degraded => False
  end.

Definition purgeOk (d : Mapper) : Prop :=
  match dm_pendingPurge d with
  | None => dm_pendingPurgeParticipants d = 0
  | Some p =>
      (dm_pendingPurgeParticipants d = 1 \/ dm_pendingPurgeParticipants d = 2) /\
      dm_readiness d <> Acquiring /\ pg_oldGeneration p = dm_generation d /\
      pg_oldGeneration p < pg_nextGeneration p /\ is_u 64 (pg_nextGeneration p)
  end.

Record clockOk (d : Mapper) : Prop := {
  ck_config : clockConfigOk (dm_config d);
  ck_generation : is_u 64 (dm_generation d);
  ck_revision : is_u 64 (dm_revision d);
  ck_timeline : timelineOk d;
  ck_purge : purgeOk d;
  ck_notifiers : dm_videoNotifier d = dm_notifiersBound d /\ dm_audioNotifier d = dm_notifiersBound d;
}.

(** The source epoch of the generation, once it is known. *)
Definition epochOf (d : Mapper) : option Z := cfg_sourceEpoch <$> dm_videoMapper d.

(** The latest mapped times of a stream. *)
Definition latestOf (stream : MediaScheduledStream) (d : Mapper) : option (Z * Z) :=
  p ← ss_latestPresentation (streamAt stream (dm_streams d));
  t ← ss_latestDecode (streamAt stream (dm_streams d));
  Some (p, t).

(** ** One packet *)

Lemma rescale_success ticks tb field v : is_i 64 ticks -> timeBaseOk tb ->
  rescale ticks tb field = Success v -> v = nanoseconds ticks tb /\ is_i 64 v.
Proof.
  intros Ht [Hn Hd]. unfold rescale. destruct (_ || _); [by intros ?%failure_not |].
  rewrite checkedFromTicks_exact by done. cbv zeta. fold (nanoseconds ticks tb).
  destruct (isInt64 _) eqn:E; [| by intros ?%failure_not].
  intros [= <-]. by apply isInt64_spec in E.
Qed.

Lemma plannedTimeBase_ok c stream : clockConfigOk c -> timeBaseOk (plannedTimeBase c stream).
Proof. intros []. by destruct stream. Qed.

Lemma rational_eq (a b : MediaRational) : num a = num b -> den a = den b -> a = b.
Proof. destruct a, b. cbn. congruence. Qed.

Lemma validatePacketInput_success d stream pts dts tb duration generation u :
  validatePacketInput d stream pts dts tb duration generation = Success u ->
  tb = plannedTimeBase (dm_config d) stream /\ generation = dm_generation d /\
  dm_pendingPurge d = None /\ dm_readiness d <> ReacquireRequired.
Proof.
  unfold validatePacketInput. destruct (_ || _) eqn:E; [by intros ?%failure_not |].
  rewrite !orb_false_iff, !negb_false_iff, !Z.eqb_eq in E. destruct E as [[[[_ _] _] E1] E2].
  destruct (Z.eqb_spec generation (dm_generation d)); cbn [negb]; [| by intros ?%failure_not].
  destruct (dm_pendingPurge d); [by intros ?%failure_not |].
  case_bool_decide; [by intros ?%failure_not |]. intros _. split_and!; try done. by apply rational_eq.
Qed.

Lemma mapWith_success c epoch generation stream p t u m :
  clockConfigOk c -> is_i 64 epoch -> is_u 64 generation -> is_i 64 p -> is_i 64 t -> is_i 64 u ->
  mapWith c (mapperFor c epoch generation stream) stream p t u generation = Success m ->
  map_presentationTime m = p - epoch + dc_canonicalTargetEpoch c /\
  map_decodeTime m = Some (t - epoch + dc_canonicalTargetEpoch c) /\
  map_generation m = generation /\ map_sourceIdentity m = sourceIdentity c stream.
Proof.
  intros Hc He Hg Hp Ht Hu. unfold mapWith. destruct (MediaCanonicalTimeMapper.map _ _) as [m' |] eqn:E;
    [| by intros ?%failure_not]. intros [= <-].
  apply map_sound in E as [[_ I] [_ G] _ (p' & [= <-] & P) D _ _].
  - done.
  - destruct Hc. by split_and!.
  - split_and!; cbn; [by intros ? [= <-].. | done].
Qed.

(** What a packet does: it is rejected, it is the first of its stream, it
    completes the window, it breaks the timeline, or it continues it. *)
Inductive packetCase (stream : MediaScheduledStream) (p t u : Z) (d : Mapper) :
    Result MediaMappedTimestamp -> Mapper -> Prop :=
  | pc_rejected e : packetCase stream p t u d (Failure e) d
  | pc_waiting e streams :
      dm_readiness d = Acquiring -> dm_pendingPurge d = None ->
      streams = setStreamAt stream (firstSeen p t u) (emptyStream, emptyStream) ->
      packetCase stream p t u d (Failure e)
        (notifyStateChange (markStateChanged
          (withTimeline streams None None Acquiring (dm_generation d) d)))
  | pc_locked m first0 first1 s0 s1 :
      dm_readiness d = Acquiring -> dm_pendingPurge d = None ->
      trackedFrom first0 s0 -> trackedFrom first1 s1 ->
      latestOf stream (withTimeline (s0, s1) None None Locked 0 d) = Some (p, t) ->
      Z.abs (first0 - first1) <= dc_firstWindowMaximumSkew (dm_config d) ->
      mapWith (dm_config d) (mapperFor (dm_config d) (Z.min first0 first1) (dm_generation d) stream)
        stream p t u (dm_generation d) = Success m ->
      packetCase stream p t u d (Success m)
        (notifyStateChange (markStateChanged
          (withTimeline (s0, s1)
             (Some (mapperFor (dm_config d) (Z.min first0 first1) (dm_generation d) Scheduled_Video))
             (Some (mapperFor (dm_config d) (Z.min first0 first1) (dm_generation d) Scheduled_Audio))
             Locked (dm_generation d) d)))
  | pc_broken e :
      dm_readiness d = Locked -> dm_pendingPurge d = None ->
      packetCase stream p t u d (Failure e) (notifyStateChange (requireReacquisition d))
  | pc_tracked m first tt uu lp lt lu :
      dm_readiness d = Locked -> dm_pendingPurge d = None ->
      streamAt stream (dm_streams d) =
        mkStreamState (Some first) (Some tt) (Some uu) (Some lp) (Some lt) (Some lu) ->
      lp <= p -> lt <= t ->
      (forall e, epochOf d = Some e ->
        mapWith (dm_config d) (mapperFor (dm_config d) e (dm_generation d) stream)
          stream p t u (dm_generation d) = Success m) ->
      packetCase stream p t u d (Success m)
        (withTimeline (setStreamAt stream
             (mkStreamState (Some first) (Some tt) (Some uu) (Some p) (Some t) (Some u)) (dm_streams d))
           (dm_videoMapper d) (dm_audioMapper d) (dm_readiness d) (dm_generation d) d).

Lemma failure_is_Failure {A} (e : ErrorInfo) : exists e', failure (A := A) e = Failure e'.
Proof. unfold failure. destruct (ErrorInfo_ok e); eauto. Qed.

Lemma recordFirst_awaiting p t u s candidate : awaiting s ->
  recordFirst p t u s = Success candidate -> candidate = firstSeen p t u.
Proof.
  intros [-> | (p' & t' & u' & -> & _)]; unfold recordFirst; cbn; [by intros [= <-] |].
  destruct (Z.eqb_spec p' p) as [-> |]; [| by intros ?%failure_not].
  repeat case_bool_decide; cbn; try by intros ?%failure_not.
  simplify_eq. by intros [= <-].
Qed.

Lemma commonWindow_open c streams : streams.1 = emptyStream \/ streams.2 = emptyStream ->
  exists e, validateCommonWindow c streams = Failure e /\ errCode e = ErrNotInitialized.
Proof.
  intros H. exists (notInitialized "Demux timestamp mapper is acquiring the first common A/V window").
  split; [| done]. unfold validateCommonWindow.
  destruct H as [-> | ->]; cbn; [done |]. by repeat case_match.
Qed.

Lemma commonWindow_full c p0 t0 u0 p1 t1 u1 : is_i 64 p0 -> is_i 64 p1 ->
  match validateCommonWindow c (firstSeen p0 t0 u0, firstSeen p1 t1 u1) with
  | Success r => r = (p0, p1) /\ Z.abs (p0 - p1) <= dc_firstWindowMaximumSkew c
  | Failure e => errCode e = ErrInvalidArgument
  end.
Proof.
  intros H0 H1. unfold validateCommonWindow, positiveDistance. cbn [firstSeen fst snd ss_firstPresentation ss_firstDecode ss_firstDuration].
  destruct (Z.leb_spec p1 p0); rewrite checkedSubtract_exact by done;
    (destruct (isInt64 _); cbn [bindResult overflowFailure]; [| reflexivity]);
    (match goal with |- context [?a <? ?b] => destruct (Z.ltb_spec a b) end; [reflexivity | split; [done | lia]]).
Qed.

Lemma commonMapper_ok c e g stream : clockConfigOk c ->
  fromSync (commonMapper c e g stream) = Success (mapperFor c e g stream).
Proof.
  intros []. unfold commonMapper, MediaCanonicalTimeMapper.create, fromSync, mapperFor. cbn.
  destruct stream; cbn; by rewrite bool_decide_eq_false_2.
Qed.

Lemma latestFromFirst_tracked p t u : is_i 64 p -> is_i 64 t -> trackedFrom p (latestFromFirst (firstSeen p t u)).
Proof. intros. exists t, u, p, t, u. split_and!; done || lia. Qed.

(** Both first packets are there. *)
Lemma acquire_full stream p t u d p0 t0 u0 p1 t1 u1 :
  clockOk d -> dm_readiness d = Acquiring -> dm_pendingPurge d = None ->
  recordFirst p t u (streamAt stream (dm_streams d)) = Success (firstSeen p t u) ->
  setStreamAt stream (firstSeen p t u) (dm_streams d) = (firstSeen p0 t0 u0, firstSeen p1 t1 u1) ->
  is_i 64 p0 -> is_i 64 t0 -> is_i 64 p1 -> is_i 64 t1 ->
  packetCase stream p t u d (acquire stream p t u (dm_generation d) d).1
    (acquire stream p t u (dm_generation d) d).2.
Proof.
  intros Hd Ha Hpend Hrec Hset Hp0 Ht0 Hp1 Ht1. unfold acquire. rewrite Hrec, Hset.
  pose proof (commonWindow_full (dm_config d) p0 t0 u0 p1 t1 u1 Hp0 Hp1) as Hw.
  destruct (validateCommonWindow _ _) as [r | e].
  - destruct Hw as [-> Hskew]. rewrite !commonMapper_ok by apply Hd. cbn [bindResult].
    replace (if isAudio stream then _ else _)
      with (mapperFor (dm_config d) (Z.min p0 p1) (dm_generation d) stream) by by destruct stream.
    destruct (mapWith _ _ _ _ _ _ _) as [m | e] eqn:Em; cbn [bindResult].
    + cbn [fst snd]. eapply pc_locked; eauto using latestFromFirst_tracked.
      destruct stream; cbn in Hset |- *; by simplify_eq.
    + destruct (failure_is_Failure (A := MediaCanonicalTimeMapperConfig * MediaCanonicalTimeMapperConfig * MediaMappedTimestamp) e) as [e1 ->].
      cbn [fst snd]. destruct (failure_is_Failure (A := MediaMappedTimestamp) e1) as [e2 ->]. constructor.
  - rewrite bool_decide_eq_false_2 by (rewrite Hw; done). cbn [fst snd].
    destruct (failure_is_Failure (A := MediaMappedTimestamp) e) as [e2 ->]. constructor.
Qed.

Lemma acquire_cases stream p t u d :
  clockOk d -> dm_readiness d = Acquiring -> dm_pendingPurge d = None -> is_i 64 p -> is_i 64 t ->
  packetCase stream p t u d (acquire stream p t u (dm_generation d) d).1
    (acquire stream p t u (dm_generation d) d).2.
Proof.
  intros Hd Ha Hpend Hp Ht. pose proof (ck_timeline _ Hd) as Htl. unfold timelineOk in Htl. rewrite Ha in Htl.
  destruct Htl as (Hv & Hau & W0 & W1 & Hopen).
  destruct (recordFirst p t u (streamAt stream (dm_streams d))) as [candidate | e] eqn:Erec.
  - assert (candidate = firstSeen p t u) as ->
      by (eapply recordFirst_awaiting, Erec; by destruct stream).
    destruct (dm_streams d) as [s0 s1] eqn:Es. cbn in W0, W1, Hopen.
    assert (Hopen' : streamAt (if isAudio stream then Scheduled_Video else Scheduled_Audio) (s0, s1) = emptyStream \/
      exists p' t' u', streamAt (if isAudio stream then Scheduled_Video else Scheduled_Audio) (s0, s1) = firstSeen p' t' u' /\
        is_i 64 p' /\ is_i 64 t') by (by destruct stream).
    destruct Hopen' as [Hempty | (p' & t' & u' & Hfirst & Hp' & Ht')].
    + unfold acquire. rewrite Es, Erec, Hv, Hau, Ha.
      assert (Ew : setStreamAt stream (firstSeen p t u) (s0, s1) =
                   setStreamAt stream (firstSeen p t u) (emptyStream, emptyStream))
        by (destruct stream; cbn in *; congruence).
      destruct (commonWindow_open (dm_config d) (setStreamAt stream (firstSeen p t u) (s0, s1))) as (e & -> & He);
        [destruct stream; cbn in *; auto |].
      rewrite bool_decide_eq_true_2 by done. rewrite failure_id by (by rewrite He). cbn [fst snd].
      by apply pc_waiting.
    + destruct stream; cbn in Hfirst; subst.
      * apply (acquire_full _ _ _ _ _ p t u p' t' u'); rewrite ?Es; done.
      * apply (acquire_full _ _ _ _ _ p' t' u' p t u); rewrite ?Es; done.
  - unfold acquire. rewrite Erec. cbn [fst snd].
    destruct (failure_is_Failure (A := MediaMappedTimestamp) e) as [e2 ->]. constructor.
Qed.

Lemma continuity_forward c current latest duration field u :
  validateTimelineContinuity c current latest duration field = Success u -> latest <= current.
Proof.
  unfold validateTimelineContinuity. destruct (Z.ltb_spec current latest); [by intros ?%failure_not | lia].
Qed.

Lemma track_cases stream p t u d :
  clockOk d -> dm_readiness d = Locked -> dm_pendingPurge d = None ->
  packetCase stream p t u d (track stream p t u (dm_generation d) d).1
    (track stream p t u (dm_generation d) d).2.
Proof.
  intros Hd Hl Hpend. pose proof (ck_timeline _ Hd) as Htl. unfold timelineOk in Htl. rewrite Hl in Htl.
  destruct Htl as (f0 & f1 & Hv & Ha & T0 & T1 & Hskew).
  assert (T : exists f, trackedFrom f (streamAt stream (dm_streams d))) by (destruct stream; eauto).
  destruct T as (f & t0 & u0 & lp & lt & lu & Es & Hlp & Hlt & _). unfold track. rewrite Es. cbn [ss_latestPresentation ss_latestDecode ss_latestDuration].
  destruct (let* _ := _ in _) as [x | e] eqn:Ec; cycle 1.
  { cbn [fst snd]. destruct (failure_is_Failure (A := MediaMappedTimestamp) e) as [e2 ->]. by constructor. }
  apply bindResult_success in Ec as (y & E1%continuity_forward & E2%continuity_forward).
  replace (if isAudio stream then dm_audioMapper d else dm_videoMapper d)
    with (Some (mapperFor (dm_config d) (Z.min f0 f1) (dm_generation d) stream)) by (destruct stream; by rewrite ?Hv, ?Ha).
  destruct (mapWith _ _ _ _ _ _ _) as [m | e] eqn:Em; cbn [fst snd].
  - eapply pc_tracked; eauto. unfold epochOf. rewrite Hv. by intros ? [= <-].
  - destruct (failure_is_Failure (A := MediaMappedTimestamp) e) as [e2 ->]. constructor.
Qed.

Lemma mapPacket_cases stream pts dts tb duration generation d :
  clockOk d -> is_i 64 pts -> is_i 64 dts -> is_i 64 duration ->
  exists p t u,
    packetCase stream p t u d (mapPacket stream pts dts tb duration generation d).1
      (mapPacket stream pts dts tb duration generation d).2 /\
    is_i 64 p /\ is_i 64 t /\ is_i 64 u /\
    (resultOk (mapPacket stream pts dts tb duration generation d).1 = true ->
     p = nanoseconds pts tb /\ t = nanoseconds dts tb).
Proof.
  intros Hd Hp Ht Hu. unfold mapPacket.
  destruct (let* _ := _ in _) as [[[p t] u] | e] eqn:Ein; cycle 1.
  { exists 0, 0, 0. destruct (failure_is_Failure (A := MediaMappedTimestamp) e) as [e2 ->].
    split_and!; try (ranges; lia); [constructor | done]. }
  apply bindResult_success in Ein as (x & (Etb & -> & Hpend & Hre)%validatePacketInput_success & Ein).
  pose proof (plannedTimeBase_ok (dm_config d) stream (ck_config _ Hd)) as Htb. rewrite <- Etb in Htb.
  apply bindResult_success in Ein as (p' & [Ep Hp']%rescale_success & Ein); [| done..].
  apply bindResult_success in Ein as (t' & [Et Ht']%rescale_success & Ein); [| done..].
  apply bindResult_success in Ein as (u' & [_ Hu']%rescale_success & Ein); [| done..].
  destruct (u' <=? 0); [by apply failure_not in Ein |]. injection Ein as -> -> ->.
  exists p, t, u. split_and!; [| done.. | done]. case_bool_decide as Ha; [by apply acquire_cases |].
  apply track_cases; [done | | done]. pose proof (ck_timeline _ Hd) as Htl. unfold timelineOk in Htl.
  destruct (dm_readiness d); done.
Qed.

(** ** Every operation preserves the invariant *)

Lemma notify_ok d : clockOk d -> clockOk (notifyStateChange d).
Proof. intros []. by split. Qed.

Lemma mark_ok d : clockOk d -> clockOk (markStateChanged d).
Proof.
  intros []. unfold markStateChanged. destruct (Z.eqb_spec (dm_revision d) uint64_max); cbn [negb]; split; try done.
  cbn. ranges. lia.
Qed.

Lemma timeline_ok streams v a r g d :
  clockOk d -> is_u 64 g -> timelineOk (withTimeline streams v a r g d) ->
  purgeOk (withTimeline streams v a r g d) -> clockOk (withTimeline streams v a r g d).
Proof. intros [] ???. by split. Qed.

Lemma packet_ok stream p t u d r d' :
  clockOk d -> is_i 64 p -> is_i 64 t -> packetCase stream p t u d r d' -> clockOk d'.
Proof.
  intros Hd Hp Ht Hc. pose proof (ck_generation _ Hd) as Hg. pose proof (ck_purge _ Hd) as Hpu.
  pose proof (ck_timeline _ Hd) as Htl. unfold timelineOk in Htl. unfold purgeOk in Hpu.
  destruct Hc as [e | e streams Ha Hpend -> | m f0 f1 s0 s1 Ha Hpend T0 T1 _ Hskew Em | e Hl Hpend
    | m f tt uu lp lt lu Hl Hpend Es Hlp Hlt Em]; [done |..]; rewrite Hpend in Hpu.
  - apply notify_ok, mark_ok, timeline_ok; [done | done | | by unfold purgeOk; cbn; rewrite Hpend].
    unfold timelineOk. cbn. destruct stream; cbn; split_and!; try done; try (by left); try (by right);
      right; exists p, t, u; done.
  - apply notify_ok, mark_ok, timeline_ok; [done | done | | by unfold purgeOk; cbn; rewrite Hpend].
    unfold timelineOk. cbn. exists f0, f1. by split_and!.
  - apply notify_ok, mark_ok, timeline_ok; [done | done | | by unfold purgeOk; cbn; rewrite Hpend].
    unfold timelineOk. cbn. by rewrite Hl in Htl.
  - apply timeline_ok; [done | done | | by unfold purgeOk; cbn; rewrite Hpend].
    unfold timelineOk. cbn. rewrite Hl in Htl |- *. destruct Htl as (f0 & f1 & Hv & Hau & T0 & T1 & Hskew).
    exists f0, f1. split_and!; try done; destruct stream; cbn in Es |- *; try done.
    + destruct T0 as (t0 & u0 & lp0 & lt0 & lu0 & E & H1 & H2 & H3 & H4 & H5). rewrite E in Es. simplify_eq.
      exists tt, uu, p, t, u. split_and!; done || lia.
    + destruct T1 as (t0 & u0 & lp0 & lt0 & lu0 & E & H1 & H2 & H3 & H4 & H5). rewrite E in Es. simplify_eq.
      exists tt, uu, p, t, u. split_and!; done || lia.
Qed.

(** A purge call is refused, or it is the first acknowledgement, or the second
    one, which starts the next generation. *)
Inductive purgeCase (stream : MediaScheduledStream) (purge : MediaAvGenerationPurge) (d : Mapper) :
    Result unit -> Mapper -> Prop :=
  | gc_refused e : purgeCase stream purge d (Failure e) d
  | gc_first :
      dm_pendingPurge d = None -> (dm_readiness d = Locked \/ dm_readiness d = ReacquireRequired) ->
      pg_oldGeneration purge = dm_generation d -> pg_oldGeneration purge < pg_nextGeneration purge ->
      purgeCase stream purge d (Success tt)
        (notifyStateChange (markStateChanged
          (withPurge (dm_lastTransitionSequence d) (Some purge) (participantBit stream) d)))
  | gc_second :
      (exists pending, dm_pendingPurge d = Some pending /\
         pg_nextGeneration pending = pg_nextGeneration purge) ->
      dm_pendingPurgeParticipants d + participantBit stream = 3 ->
      purgeCase stream purge d (Success tt)
        (notifyStateChange (markStateChanged
          (withPurge (Some (pg_transitionSequence purge)) None 0
             (resetForGeneration (pg_nextGeneration purge) d)))).

Lemma purge_cases stream purge d : clockOk d ->
  purgeCase stream purge d (purgeParticipant stream purge d).1 (purgeParticipant stream purge d).2.
Proof.
  intros Hd. pose proof (ck_purge _ Hd) as Hpu. unfold purgeOk in Hpu. unfold purgeParticipant.
  destruct (dm_pendingPurge d) as [pending |] eqn:Epend.
  - destruct Hpu as (Hparts & _).
    destruct (_ || _) eqn:Eeq; [cbn; constructor |].
    rewrite !orb_false_iff, !negb_false_iff, !Z.eqb_eq in Eeq. destruct Eeq as [[E1 E2] E3]. cbv zeta.
    replace (withPurge _ _ _ d) with d by (destruct d; cbn in *; by subst).
    destruct Hparts as [Hparts | Hparts]; rewrite Hparts; destruct stream;
      cbn -[notifyStateChange markStateChanged withPurge]; first [constructor; by eauto | constructor; [eauto | by rewrite Hparts]].
  - destruct (_ || _) eqn:Eeq; [cbn; constructor |].
    rewrite !orb_false_iff, andb_false_iff, !negb_false_iff, !bool_decide_eq_true, Z.eqb_eq, Z.leb_gt in Eeq.
    destruct Eeq as [[[[Hr E1] E2] E3] _]. cbn. rewrite Hpu. destruct stream; cbn; by apply gc_first.
Qed.

Lemma purge_ok stream purge d r d' :
  clockOk d -> is_u 64 (pg_nextGeneration purge) -> purgeCase stream purge d r d' -> clockOk d'.
Proof.
  intros Hd Hn Hc. destruct Hc as [e | Hpend Hr Eo Hlt | (pending & Ep & En) Hparts]; [done | |].
  - apply notify_ok, mark_ok. destruct Hd as [H1 H2 H3 H4 H5 H6]. split; try done. cbn.
    split_and!; cbn; try done; [destruct stream; auto | destruct Hr as [-> | ->]; done].
  - apply notify_ok, mark_ok. destruct Hd as [H1 H2 H3 H4 H5 H6]. split; try done. cbn.
    split_and!; try done; by left.
Qed.

Lemma reset_ok d : clockOk d -> clockOk (resetLifecycle d).
Proof.
  intros [Hcfg _ _ _ _ Hn]. split; try done; cbn; [apply Hcfg | split_and!; try done; by left].
Qed.

Lemma perform_ok c d : clockOk d -> callTyped c -> clockOk (perform c d).2.
Proof.
  intros Hd Hc. unfold perform. destruct (_ && _); [done |]. destruct c; cbn in Hc.
  - destruct Hc as (Hp & Ht & Hu & _).
    destruct (mapPacket_cases stream pts dts timeBase duration generation d Hd Hp Ht Hu) as (p & t & u & Hcase & ? & ? & _).
    destruct (mapPacket _ _ _ _ _ _ _) as [r d'] eqn:E. by apply (packet_ok stream p t u d r d').
  - unfold bindStateChangeNotifiers. cbn.
    destruct (dm_notifiersBound d), video, audio; cbn; try done. destruct Hd. by split.
  - unfold reserveOutputCommit. destruct (_ || _); cbn; [done |]. destruct Hd. by split.
  - destruct Hd. by split.
  - cbn. eapply purge_ok; [done | done |]. by apply purge_cases.
  - by apply reset_ok.
Qed.

Lemma run_ok cs d : clockOk d -> Forall callTyped cs -> clockOk (run cs d).2.
Proof.
  revert d. induction cs as [| c cs IH]; intros d Hd Hcs; [done |]. apply Forall_cons in Hcs as [Hc Hcs].
  cbn. pose proof (perform_ok c d Hd Hc) as H1. destruct (perform c d) as [o d1].
  pose proof (IH d1 H1 Hcs) as H2. by destruct (run cs d1).
Qed.

(** ** Progress of the timeline *)

(** Within a generation the source epoch is kept and the latest times of a
    stream never go back; the generation itself never goes back. *)
Record advances (d d1 : Mapper) : Prop := {
  ad_config : dm_config d1 = dm_config d;
  ad_generation : dm_generation d <= dm_generation d1;
  ad_epoch e : dm_generation d1 = dm_generation d -> epochOf d = Some e -> epochOf d1 = Some e;
  ad_latest stream p t : dm_generation d1 = dm_generation d -> latestOf stream d = Some (p, t) ->
    exists p1 t1, latestOf stream d1 = Some (p1, t1) /\ p <= p1 /\ t <= t1;
}.

(** The mapped packet [o] lies on the timeline of [d]. *)
Record onTimeline (d : Mapper) (o : Output) : Prop := {
  ot_generation : map_generation (out_mapped o) = dm_generation d;
  ot_identity : map_sourceIdentity (out_mapped o) = sourceIdentity (dm_config d) (out_stream o);
  ot_times : exists e, epochOf d = Some e /\
    map_presentationTime (out_mapped o) =
      nanoseconds (out_pts o) (out_timeBase o) - e + dc_canonicalTargetEpoch (dm_config d) /\
    map_decodeTime (out_mapped o) =
      Some (nanoseconds (out_dts o) (out_timeBase o) - e + dc_canonicalTargetEpoch (dm_config d));
  ot_latest : latestOf (out_stream o) d =
    Some (nanoseconds (out_pts o) (out_timeBase o), nanoseconds (out_dts o) (out_timeBase o));
}.

Lemma advances_same d d1 : dm_config d1 = dm_config d -> dm_generation d1 = dm_generation d ->
  epochOf d1 = epochOf d -> (forall stream, latestOf stream d1 = latestOf stream d) -> advances d d1.
Proof.
  intros Ec Eg Ee El. split; rewrite ?Ec, ?Eg, ?Ee; try done. intros stream p t _ H. exists p, t. by rewrite El.
Qed.

Lemma advances_refl d : advances d d.
Proof. by apply advances_same. Qed.

Lemma advances_newGeneration d d1 : dm_config d1 = dm_config d -> dm_generation d < dm_generation d1 -> advances d d1.
Proof. intros. split; intros; lia || done. Qed.

(** Only the revision and the wakeups differ. *)
Lemma marked_fields d :
  let d1 := notifyStateChange (markStateChanged d) in
  dm_config d1 = dm_config d /\ dm_generation d1 = dm_generation d /\ epochOf d1 = epochOf d /\
  (forall stream, latestOf stream d1 = latestOf stream d) /\ dm_pendingPurge d1 = dm_pendingPurge d /\
  dm_transactionHeld d1 = dm_transactionHeld d.
Proof. unfold markStateChanged. by destruct (negb _). Qed.

Lemma advances_marked d d1 : advances d d1 -> advances d (notifyStateChange (markStateChanged d1)).
Proof.
  intros [H1 H2 H3 H4]. destruct (marked_fields d1) as (E1 & E2 & E3 & E4 & _).
  split; intros *; rewrite ?E1, ?E2, ?E3, ?E4; eauto.
Qed.

Lemma onTimeline_marked d o : onTimeline d o -> onTimeline (notifyStateChange (markStateChanged d)) o.
Proof.
  intros [H1 H2 H3 H4]. destruct (marked_fields d) as (E1 & E2 & E3 & E4 & _).
  split; rewrite ?E1, ?E2, ?E3, ?E4; done.
Qed.

Lemma awaiting_latest s : awaiting s -> ss_latestPresentation s = None.
Proof. by intros [-> | (? & ? & ? & -> & _)]. Qed.

Lemma acquiring_fresh d : clockOk d -> dm_readiness d = Acquiring ->
  epochOf d = None /\ forall stream, latestOf stream d = None.
Proof.
  intros Hd Ha. pose proof (ck_timeline _ Hd) as Htl. unfold timelineOk in Htl. rewrite Ha in Htl.
  destruct Htl as (Hv & _ & W0 & W1 & _). unfold epochOf, latestOf. rewrite Hv. split; [done |].
  intros []; cbn; by rewrite awaiting_latest.
Qed.

Lemma advances_from_acquiring streams v a r d : clockOk d -> dm_readiness d = Acquiring ->
  advances d (withTimeline streams v a r (dm_generation d) d).
Proof.
  intros Hd Ha. destruct (acquiring_fresh d Hd Ha) as [E L].
  split; try done; [by rewrite E | intros ???; by rewrite L].
Qed.

Lemma locked_epoch d : clockOk d -> dm_readiness d = Locked ->
  exists e, epochOf d = Some e /\ is_i 64 e.
Proof.
  intros Hd Hl. pose proof (ck_timeline _ Hd) as Htl. unfold timelineOk in Htl. rewrite Hl in Htl.
  destruct Htl as (f0 & f1 & Hv & _ & (? & ? & ? & ? & ? & _ & _ & _ & ? & _) & (? & ? & ? & ? & ? & _ & _ & _ & ? & _) & _).
  exists (Z.min f0 f1). unfold epochOf. rewrite Hv. split; [done |]. ranges; lia.
Qed.

Lemma packet_advances stream p t u d r d1 : clockOk d -> packetCase stream p t u d r d1 -> advances d d1.
Proof.
  intros Hd Hc. destruct Hc as [e | e streams Ha | m f0 f1 s0 s1 Ha | e Hl Hpend
    | m f tt uu lp lt lu Hl Hpend Es Hlp Hlt Em].
  - apply advances_refl.
  - by apply advances_marked, advances_from_acquiring.
  - by apply advances_marked, advances_from_acquiring.
  - by apply advances_marked, advances_same.
  - split; try done. intros s p0 t0 _ H0. unfold latestOf in *.
    destruct stream, s; cbn in *; try (by exists p0, t0; rewrite H0);
      rewrite Es in H0; cbn in H0; simplify_eq; by exists p, t.
Qed.

Lemma packet_onTimeline stream p t u d m d1 pts dts tb : clockOk d ->
  is_i 64 p -> is_i 64 t -> is_i 64 u -> p = nanoseconds pts tb -> t = nanoseconds dts tb ->
  packetCase stream p t u d (Success m) d1 -> onTimeline d1 (mkOutput stream pts dts tb m).
Proof.
  intros Hd Hp Ht Hu -> ->. set (p := nanoseconds pts tb) in *. set (t := nanoseconds dts tb) in *.
  inversion 1 as [| | m' f0 f1 s0 s1 Ha Hpend T0 T1 HL Hskew Em | | m' f tt uu lp lt lu Hl Hpend Es Hlp Hlt Em]; subst m'.
  - apply onTimeline_marked.
    assert (He : is_i 64 (Z.min f0 f1)).
    { destruct T0 as (? & ? & ? & ? & ? & _ & _ & _ & ? & _), T1 as (? & ? & ? & ? & ? & _ & _ & _ & ? & _). ranges; lia. }
    eapply mapWith_success in Em as (E1 & E2 & E3 & E4); try done; [| apply Hd..].
    split; try done. exists (Z.min f0 f1). done.
  - destruct (locked_epoch d Hd Hl) as (e & Ee & He). pose proof (Em e Ee) as Em'.
    eapply mapWith_success in Em' as (E1 & E2 & E3 & E4); try done; [| apply Hd..].
    split; try done; [by exists e |]. unfold latestOf. by destruct stream.
Qed.

(** One call: the timeline advances, and a packet that is mapped lies on the
    timeline of the state after the call, in the generation of the state
    before it. *)
Lemma perform_advances c d : clockOk d -> callTyped c -> isReset c = false ->
  advances d (perform c d).2 /\
  Forall (fun o => onTimeline (perform c d).2 o /\ dm_generation (perform c d).2 = dm_generation d) (perform c d).1.
Proof.
  intros Hd Hc Hreset. unfold perform. destruct (_ && _); [split; [apply advances_refl | constructor] |].
  destruct c; cbn in Hc; try done.
  - destruct Hc as (Hp & Ht & Hu & _).
    destruct (mapPacket_cases stream pts dts timeBase duration generation d Hd Hp Ht Hu)
      as (p & t & u & Hcase & Hp' & Ht' & Hu' & Hres).
    destruct (mapPacket _ _ _ _ _ _ _) as [r d1] eqn:E. cbn [fst snd] in *.
    split; [by eapply packet_advances |]. destruct r as [m |]; [| constructor].
    destruct (Hres eq_refl) as [-> ->]. apply Forall_singleton. split.
    + by apply (packet_onTimeline _ (nanoseconds pts timeBase) (nanoseconds dts timeBase) u d).
    + inversion Hcase; subst; try done. unfold markStateChanged. by destruct (negb _).
  - split; [| constructor]. unfold bindStateChangeNotifiers. by destruct (_ || _); apply advances_same.
  - split; [| constructor]. unfold reserveOutputCommit. by destruct (_ || _); apply advances_same.
  - split; [| constructor]. by apply advances_same.
  - split; [| constructor]. cbn.
    pose proof (ck_purge _ Hd) as Hpu. unfold purgeOk in Hpu.
    destruct (purge_cases stream purge d Hd) as [e | Hpend Hr Eo Hlt | (pending & Ep & En) Hparts].
    + apply advances_refl.
    + by apply advances_marked, advances_same.
    + apply advances_marked, advances_newGeneration; [done |]. cbn. rewrite Ep in Hpu. lia.
Qed.

(** ** Theorems *)

(** The packet times of an output, on the source's clock. *)
Definition sourcePts (o : Output) : Z := nanoseconds (out_pts o) (out_timeBase o).
Definition sourceDts (o : Output) : Z := nanoseconds (out_dts o) (out_timeBase o).

Definition shiftedBy (offset : Z -> Z) (o : Output) : Prop :=
  map_presentationTime (out_mapped o) = sourcePts o + offset (map_generation (out_mapped o)) /\
  map_decodeTime (out_mapped o) = Some (sourceDts o + offset (map_generation (out_mapped o))).

(** The outputs of a schedule, seen from the state it starts in. *)
Record timelineRun (d : Mapper) (os : list Output) : Prop := {
  tr_offset : exists offset, Forall (shiftedBy offset) os /\
    forall e, epochOf d = Some e -> offset (dm_generation d) = dc_canonicalTargetEpoch (dm_config d) - e;
  tr_generation : Forall (fun o => dm_generation d <= map_generation (out_mapped o)) os;
  tr_latest : Forall (fun o => forall p t, map_generation (out_mapped o) = dm_generation d ->
    latestOf (out_stream o) d = Some (p, t) -> p <= sourcePts o /\ t <= sourceDts o) os;
  tr_order : ForallOrdPairs (fun o1 o2 => out_stream o1 = out_stream o2 ->
    map_generation (out_mapped o1) = map_generation (out_mapped o2) ->
    sourcePts o1 <= sourcePts o2 /\ sourceDts o1 <= sourceDts o2) os;
}.

Lemma timelineRun_weaken d d1 os : advances d d1 -> timelineRun d1 os -> timelineRun d os.
Proof.
  intros [Ac Ag Ae Al] [(offset & Ho & Hoff) Hg Hl Hord]. split.
  - destruct (decide (dm_generation d1 = dm_generation d)) as [E | E].
    + exists offset. split; [done |]. intros e He. rewrite <- E, <- Ac. apply Hoff. by apply Ae.
    + exists (fun g => if g =? dm_generation d
                       then dc_canonicalTargetEpoch (dm_config d) - default 0 (epochOf d) else offset g). split.
      * rewrite Forall_forall in *. intros o Hin. destruct (Ho o Hin) as [P D]. specialize (Hg o Hin). unfold shiftedBy.
        destruct (Z.eqb_spec (map_generation (out_mapped o)) (dm_generation d)); [lia | done].
      * intros e He. rewrite Z.eqb_refl, He. done.
  - eapply Forall_impl; [exact Hg |]. cbn. intros; lia.
  - rewrite Forall_forall in *. intros o Hin p t Eg Hlat. specialize (Hg o Hin).
    destruct (Al _ p t ltac:(lia) Hlat) as (p1 & t1 & Hlat1 & ? & ?).
    destruct (Hl o Hin p1 t1 ltac:(lia) Hlat1). lia.
  - done.
Qed.

Lemma timelineRun_cons d o os : onTimeline d o -> timelineRun d os -> timelineRun d (o :: os).
Proof.
  intros [Og _ (e & Ee & Ep & Ed) Ol] [(offset & Ho & Hoff) Hg Hl Hord]. split.
  - exists offset. split; [| done]. constructor; [| done]. unfold shiftedBy. rewrite Og, (Hoff e Ee), Ep, Ed. unfold sourcePts, sourceDts.
    split; [lia | f_equal; lia].
  - constructor; [lia | done].
  - constructor; [| done]. rewrite Ol. intros p t _ [= <- <-]. unfold sourcePts, sourceDts. lia.
  - constructor; [| done]. rewrite Forall_forall in *. intros o' Hin Es Eg. apply (Hl o' Hin); [congruence |].
    rewrite <- Es. exact Ol.
Qed.

Lemma run_timeline cs d : clockOk d -> Forall callTyped cs -> Forall (fun c => isReset c = false) cs ->
  timelineRun d (run cs d).1.
Proof.
  revert d. induction cs as [| c cs IH]; intros d Hd Ht Hr.
  { split; try constructor. by exists (fun _ => dc_canonicalTargetEpoch (dm_config d) - default 0 (epochOf d)); split; [constructor | intros e ->]. }
  apply Forall_cons in Ht as [Hc Ht], Hr as [Hrc Hr]. cbn.
  destruct (perform_advances c d Hd Hc Hrc) as [Hadv Hout]. pose proof (perform_ok c d Hd Hc) as Hok.
  destruct (perform c d) as [o d1]. cbn [fst snd] in *. specialize (IH d1 Hok Ht Hr).
  destruct (run cs d1) as [os d2]. cbn [fst] in *. apply (timelineRun_weaken d d1); [done |].
  induction Hout as [| x o [Hx _] _ IHo]; [done |]. by apply timelineRun_cons.
Qed.

(** The configuration holds machine integers. *)
Definition clockConfigTyped (c : MediaDemuxTimestampClockMapperConfig) : Prop :=
  is_i 32 (num (dc_videoTimeBase c)) /\ is_i 32 (den (dc_videoTimeBase c)) /\
  is_i 32 (num (dc_audioTimeBase c)) /\ is_i 32 (den (dc_audioTimeBase c)) /\
  is_u 64 (dc_initialGeneration c) /\ is_i 64 (dc_canonicalTargetEpoch c).

Lemma clock_create_ok config d : clockConfigTyped config -> create config = Success d -> clockOk d.
Proof.
  intros (H1 & H2 & H3 & H4 & H5 & H6). unfold create.
  destruct (_ || _) eqn:E; [by intros ?%failure_not |]. intros [= <-].
  rewrite !orb_false_iff, !bool_decide_eq_false, !Z.leb_gt in E. destruct_and! E.
  split; cbn; try done; [split; cbn; try done; split; ranges; lia | split_and!; try done; by left].
Qed.

(** C32: After any schedule of packets, purges, commits and resets, from creation on:
    while the clock acquires, nothing is mapped and at most one stream has shown
    its first packet; once it is locked, both streams are projected from the
    same source epoch, the earlier of two first presentation times no further
    apart than the planner allows, in the current generation; and a purge that
    is under way has exactly one acknowledgement and leads to a later
    generation. *)
Theorem demux_clock_invariant config cs d :
  clockConfigTyped config -> create config = Success d -> Forall callTyped cs -> clockOk (run cs d).2.
Proof. intros Ht Hc Hcs. apply run_ok; [| done]. by eapply clock_create_ok. Qed.

(** C6: Lip synchronisation: in every schedule without a lifecycle reset there is
    one offset per generation such that every packet of both streams mapped in
    that generation, presentation and decode time alike, is its source time
    moved by that offset. *)
Theorem demux_offset_shared config cs d :
  clockConfigTyped config -> create config = Success d ->
  Forall callTyped cs -> Forall (fun c => isReset c = false) cs ->
  exists offset, Forall (shiftedBy offset) (run cs d).1.
Proof.
  intros Ht Hc Hcs Hr. destruct (run_timeline cs d) as [(offset & Ho & _) _ _ _]; [by eapply clock_create_ok | done.. |].
  by exists offset.
Qed.

(** Mapped times never go back: of two packets of one stream mapped in one
    generation, the one mapped later has no earlier presentation time and no
    earlier decode time. *)
Theorem demux_times_monotone config cs d :
  clockConfigTyped config -> create config = Success d ->
  Forall callTyped cs -> Forall (fun c => isReset c = false) cs ->
  ForallOrdPairs (fun o1 o2 => out_stream o1 = out_stream o2 ->
    map_generation (out_mapped o1) = map_generation (out_mapped o2) ->
    map_presentationTime (out_mapped o1) <= map_presentationTime (out_mapped o2) /\
    exists t1 t2, map_decodeTime (out_mapped o1) = Some t1 /\ map_decodeTime (out_mapped o2) = Some t2 /\ t1 <= t2)
    (run cs d).1.
Proof.
  intros Ht Hc Hcs Hr. destruct (run_timeline cs d) as [(offset & Ho & _) _ _ Hord]; [by eapply clock_create_ok | done.. |].
  induction Hord as [| o os Hfirst _ IH]; [constructor |]. apply Forall_cons in Ho as [[Hp Hd] Ho].
  constructor; [| by apply IH]. rewrite Forall_forall in *. intros o' Hin Es Eg. destruct (Ho o' Hin) as [Hp' Hd'].
  rewrite Hp, Hp', Hd, Hd', Eg. specialize (Hfirst o' Hin Es Eg). split; [lia |].
  eexists _, _. split_and!; [done.. | lia].
Qed.

Definition isDrop (c : Call) : bool := match c with DropReservation => true | _ => false end.

(** While the transaction is held, the only effect of a call that does not
    drop the reservation is the registration of the callbacks. *)
Lemma held_step c d : dm_transactionHeld d = true -> isDrop c = false ->
  (perform c d).1 = [] /\ exists v a b, (perform c d).2 = withNotifiers v a b d.
Proof.
  intros Hh Hd. assert (Hsame : d = withNotifiers (dm_videoNotifier d) (dm_audioNotifier d) (dm_notifiersBound d) d)
    by by destruct d.
  unfold perform. rewrite Hh, andb_true_r. destruct c; cbn [locksTransaction]; try done; try (split; [done | by eauto]).
  unfold bindStateChangeNotifiers. destruct (_ || _); cbn; split; eauto.
Qed.

(** A reserved commit stays inside its generation: between a successful
    reservation and its release no schedule of the other operations maps a
    packet, purges, resets or otherwise makes the reserved evidence stale. *)
Theorem reserved_commit_current evidence d d1 cs :
  reserveOutputCommit evidence d = (Success tt, d1) ->
  Forall (fun c => isDrop c = false) cs ->
  (run cs d1).1 = [] /\ outputIsCurrent evidence (run cs d1).2 = true.
Proof.
  intros Hr Hcs.
  assert (H : dm_transactionHeld d1 = true /\ outputIsCurrent evidence d1 = true).
  { unfold reserveOutputCommit in Hr. destruct (_ || _) eqn:E; [by injection Hr as ?%failure_not |].
    injection Hr as <-. split; [done |]. unfold outputIsCurrent. cbn.
    rewrite !orb_false_iff, !negb_false_iff in E. destruct E as [[-> ->] ->]. done. }
  clear Hr d. revert d1 H. induction Hcs as [| c cs Hc _ IH]; intros d [Hh Hcur]; [done |]. cbn.
  destruct (held_step c d Hh Hc) as [E1 (v & a & b & E2)]. destruct (perform c d) as [o d1]. cbn in E1, E2. subst.
  specialize (IH (withNotifiers v a b d) (conj Hh Hcur)). by destruct (run cs _).
Qed.

Lemma mark_wakeups d d1 : dm_videoNotifier d1 = true -> dm_audioNotifier d1 = true ->
  dm_videoWakeups d1 = dm_videoWakeups d -> dm_audioWakeups d1 = dm_audioWakeups d ->
  dm_videoWakeups (notifyStateChange (markStateChanged d1)) = S (dm_videoWakeups d) /\
  dm_audioWakeups (notifyStateChange (markStateChanged d1)) = S (dm_audioWakeups d).
Proof. unfold markStateChanged. destruct (negb _); cbn; intros -> -> -> ->; done. Qed.

Lemma tracked_first f s : trackedFrom f s -> ss_firstPresentation s = Some f.
Proof. by intros (? & ? & ? & ? & ? & -> & _). Qed.

Lemma packet_wakes stream p t u d r d1 : clockOk d -> packetCase stream p t u d r d1 ->
  dm_notifiersBound d = true -> snapshot d1 <> snapshot d ->
  dm_videoWakeups d1 = S (dm_videoWakeups d) /\ dm_audioWakeups d1 = S (dm_audioWakeups d).
Proof.
  intros Hd Hc Hb Hs. destruct (ck_notifiers _ Hd) as [Hv Ha]. rewrite Hb in Hv, Ha.
  destruct Hc as [| | | | m f tt uu lp lt lu Hl Hpend Es Hlp Hlt Em]; [done | by apply mark_wakeups.. |].
  destruct Hs. unfold snapshot. cbn. f_equal. destruct stream; cbn in *; by rewrite Es.
Qed.

(** Whoever waits for the clock is told: after any schedule, every call (but
    the lifecycle reset) that changes what a snapshot shows, readiness,
    generation, revision, evidence or a pending transition, calls both
    registered state-change callbacks exactly once. *)
Theorem demux_change_wakes config cs c d0 d :
  clockConfigTyped config -> create config = Success d0 -> Forall callTyped cs -> callTyped c ->
  d = (run cs d0).2 -> dm_notifiersBound d = true -> isReset c = false ->
  snapshot (perform c d).2 <> snapshot d ->
  dm_videoWakeups (perform c d).2 = S (dm_videoWakeups d) /\
  dm_audioWakeups (perform c d).2 = S (dm_audioWakeups d).
Proof.
  intros Ht Hc Hcs Htc -> Hb Hr Hs.
  assert (Hd : clockOk (run cs d0).2) by (apply run_ok; [by eapply clock_create_ok | done]).
  set (d := (run cs d0).2) in *. destruct (ck_notifiers _ Hd) as [Hv Ha]. rewrite Hb in Hv, Ha.
  unfold perform in *. destruct (_ && _); [done |]. destruct c; cbn in Htc; try done.
  - destruct Htc as (Hp & Hdt & Hu & _).
    destruct (mapPacket_cases stream pts dts timeBase duration generation d Hd Hp Hdt Hu) as (p & t & u & Hcase & _).
    destruct (mapPacket _ _ _ _ _ _ _) as [r d1]. cbn [fst snd] in *. by eapply packet_wakes.
  - destruct Hs. unfold bindStateChangeNotifiers. by destruct (_ || _).
  - destruct Hs. unfold reserveOutputCommit. by destruct (_ || _).
  - cbn in *. destruct (purge_cases stream purge d Hd); [done | by apply mark_wakeups..].
Qed.

(** ** Witnesses: a video and an audio stream that lock, run, break and start a
    second generation. *)

Definition sampleConfig : MediaDemuxTimestampClockMapperConfig :=
  mkClockConfig (mkRational 1 90000) (mkRational 1 48000) 500000000 1000000000 7 "video" "audio" 100.

Definition sampleMapper : Mapper :=
  mkMapper sampleConfig (emptyStream, emptyStream) None None Acquiring 7 0 None None 0 false false false 0 0 false.

Definition samplePurge : MediaAvGenerationPurge := mkPurge 7 9 1.

Definition sampleCalls : list Call :=
  let video pts generation := MapPacket Scheduled_Video pts pts (mkRational 1 90000) 3600 generation in
  let audio pts generation := MapPacket Scheduled_Audio pts pts (mkRational 1 48000) 1024 generation in
  [BindNotifiers true true; video 900000 7; audio 480480 7; video 903600 7; audio 481504 7;
   video 1800000 7; PurgeParticipant Scheduled_Video samplePurge; PurgeParticipant Scheduled_Audio samplePurge;
   audio 960000 9; video 1800000 9].

Lemma sample_created : create sampleConfig = Success sampleMapper.
Proof. reflexivity. Qed.

Lemma sample_configTyped : clockConfigTyped sampleConfig.
Proof. unfold clockConfigTyped. cbn. ranges; lia. Qed.

Lemma sample_callsTyped : Forall callTyped sampleCalls.
Proof. repeat constructor; cbn; ranges; lia. Qed.

Lemma sample_noReset : Forall (fun c => isReset c = false) sampleCalls.
Proof. repeat constructor. Qed.

(** What the schedule maps: three packets of generation 7 and one of 9. *)
Example sample_outputs :
  (fun o => (out_stream o, map_generation (out_mapped o), map_presentationTime (out_mapped o))) <$>
    (run sampleCalls sampleMapper).1 =
  [(Scheduled_Audio, 7, 10000100); (Scheduled_Video, 7, 40000100); (Scheduled_Audio, 7, 31333433);
   (Scheduled_Video, 9, 100)].
Proof. vm_compute. reflexivity. Qed.

Lemma demux_clock_invariant_witness : clockOk (run sampleCalls sampleMapper).2.
Proof.
  apply (demux_clock_invariant sampleConfig sampleCalls sampleMapper);
    [exact sample_configTyped | exact sample_created | exact sample_callsTyped].
Defined.

Lemma demux_offset_shared_witness : exists offset, Forall (shiftedBy offset) (run sampleCalls sampleMapper).1.
Proof.
  apply (demux_offset_shared sampleConfig sampleCalls sampleMapper);
    [exact sample_configTyped | exact sample_created | exact sample_callsTyped | exact sample_noReset].
Defined.

Lemma demux_times_monotone_witness :
  ForallOrdPairs (fun o1 o2 => out_stream o1 = out_stream o2 ->
    map_generation (out_mapped o1) = map_generation (out_mapped o2) ->
    map_presentationTime (out_mapped o1) <= map_presentationTime (out_mapped o2) /\
    exists t1 t2, map_decodeTime (out_mapped o1) = Some t1 /\ map_decodeTime (out_mapped o2) = Some t2 /\ t1 <= t2)
    (run sampleCalls sampleMapper).1.
Proof.
  apply (demux_times_monotone sampleConfig sampleCalls sampleMapper);
    [exact sample_configTyped | exact sample_created | exact sample_callsTyped | exact sample_noReset].
Defined.

(** A reservation made while the clock is locked blocks the purge. *)
Lemma reserved_commit_current_witness :
  let locked := (run (take 4 sampleCalls) sampleMapper).2 in
  let reserved := withTransaction true locked in
  (run (drop 4 sampleCalls) reserved).1 = [] /\ outputIsCurrent (mkEvidence Locked 7) (run (drop 4 sampleCalls) reserved).2 = true.
Proof.
  intros locked reserved. apply (reserved_commit_current (mkEvidence Locked 7) locked reserved).
  - vm_compute. reflexivity.
  - repeat constructor.
Defined.

(** The second packet locks the clock and wakes both nodes. *)
Lemma demux_change_wakes_witness :
  let d := (run (take 2 sampleCalls) sampleMapper).2 in
  let c := MapPacket Scheduled_Audio 480480 480480 (mkRational 1 48000) 1024 7 in
  dm_videoWakeups (perform c d).2 = S (dm_videoWakeups d) /\ dm_audioWakeups (perform c d).2 = S (dm_audioWakeups d).
Proof.
  intros d c. apply (demux_change_wakes sampleConfig (take 2 sampleCalls) c sampleMapper d).
  - exact sample_configTyped.
  - exact sample_created.
  - repeat constructor; cbn; ranges; lia.
  - cbn; ranges; lia.
  - reflexivity.
  - vm_compute. reflexivity.
  - reflexivity.
  - vm_compute. discriminate.
Defined.

End MediaDemuxClockSafety.
