(* ===== verification/SyncStateMachine.v ===== *)
(** * The start-up state machine of an A/V group

    Models [sync/MediaAvSyncStateMachine.{h,cpp}]: the states, the events, the
    transition function with its error, the step relation of its accepted
    transitions, and what every reachable state says about the events that
    led to it. *)

From stdpp Require Import pretty.
From S2P Require Import Prelude MediaResult CheckedArithmetic Model TimeBase CanonicalTime.
Import MediaAvSyncError.

Local Open Scope Z_scope.

Module MediaAvSyncStateMachine.

Inductive MediaAvSyncState :=
  | Idle | AcquiringClock | PrimingStreams | Armed | Released | Running | Failed | Stopped | Aborted.

Inductive MediaAvSyncEvent :=
  | BeginAcquisition | ClocksLocked | StreamsPrimed | Release | Run | RequireReacquisition
  | Fail | Stop | Abort.

#[export] Instance syncState_eq_dec : EqDecision MediaAvSyncState.
Proof. solve_decision. Defined.
#[export] Instance syncEvent_eq_dec : EqDecision MediaAvSyncEvent.
Proof. solve_decision. Defined.

Definition eventIndex (e : MediaAvSyncEvent) : Z :=
  match e with
  | BeginAcquisition => 0 | ClocksLocked => 1 | StreamsPrimed => 2 | Release => 3 | Run => 4
  | RequireReacquisition => 5 | Fail => 6 | Stop => 7 | Abort => 8
  end.

Record Machine := mkMachine {
  sm_sourceClockMode : MediaAvSyncSourceClockMode;
  sm_state : MediaAvSyncState;
  sm_generation : option Z;
}.

Definition create (mode : MediaAvSyncSourceClockMode) : Machine := mkMachine mode Idle None.

Definition invalidTransition (m : Machine) (event : MediaAvSyncEvent) (generation : Z) : SyncError :=
  mkSyncError StartupInvalidTransition (Some (sm_sourceClockMode m)) Startup
    ("state_transition_" +:+ pretty (eventIndex event)) EmptyString EmptyString
    (sm_generation m) (Some generation) None 0 0 0 0
    "MediaAvSyncStateMachine rejects an invalid state transition".

Definition terminal (s : MediaAvSyncState) : bool :=
  match s with Failed | Stopped | Aborted => true | _ => false end.

Definition moveTo (s : MediaAvSyncState) (m : Machine) : Machine :=
  mkMachine (sm_sourceClockMode m) s (sm_generation m).

(** The [switch] of [transition]: the next state, when the event is accepted. *)
Definition switchEvent (event : MediaAvSyncEvent) (s : MediaAvSyncState) : option MediaAvSyncState :=
  match event with
  | ClocksLocked => if bool_decide (s = AcquiringClock) then Some PrimingStreams else None
  | StreamsPrimed => if bool_decide (s = PrimingStreams) then Some Armed else None
  | Release => if bool_decide (s = Armed) then Some Released else None
  | Run => if bool_decide (s = Released) then Some Running else None
  | Fail => if terminal s then None else Some Failed
  | Stop => if bool_decide (s = Aborted) then None else Some Stopped
  | Abort => Some Aborted
  | BeginAcquisition | RequireReacquisition => None
  end.

Definition transition (event : MediaAvSyncEvent) (generation : Z) (m : Machine) : AvSyncResult unit * Machine :=
  let rejected := (inr (invalidTransition m event generation), m) in
  let acquiring := (inl tt, mkMachine (sm_sourceClockMode m) AcquiringClock (Some generation)) in
  match event with
  | BeginAcquisition =>
      if negb (bool_decide (sm_state m = Idle)) || bool_decide (is_Some (sm_generation m))
      then rejected else acquiring
  | RequireReacquisition =>
      match sm_generation m with
      | None => rejected
      | Some current => if (generation <? current) || terminal (sm_state m) then rejected else acquiring
      end
  | _ =>
      if negb (bool_decide (sm_generation m = Some generation)) then rejected
      else match switchEvent event (sm_state m) with
      | None => rejected
      | Some s => (inl tt, moveTo s m)
      end
  end.

Definition reset (m : Machine) : Machine := mkMachine (sm_sourceClockMode m) Idle None.

(** ** The accepted transitions as a step relation *)

Inductive step : Machine -> MediaAvSyncEvent * Z -> Machine -> Prop :=
  | step_begin mode g : step (mkMachine mode Idle None) (BeginAcquisition, g) (mkMachine mode AcquiringClock (Some g))
  | step_reacquire mode s g g' : terminal s = false -> g <= g' ->
      step (mkMachine mode s (Some g)) (RequireReacquisition, g') (mkMachine mode AcquiringClock (Some g'))
  | step_locked mode g : step (mkMachine mode AcquiringClock (Some g)) (ClocksLocked, g) (mkMachine mode PrimingStreams (Some g))
  | step_primed mode g : step (mkMachine mode PrimingStreams (Some g)) (StreamsPrimed, g) (mkMachine mode Armed (Some g))
  | step_release mode g : step (mkMachine mode Armed (Some g)) (Release, g) (mkMachine mode Released (Some g))
  | step_run mode g : step (mkMachine mode Released (Some g)) (Run, g) (mkMachine mode Running (Some g))
  | step_fail mode s g : terminal s = false -> step (mkMachine mode s (Some g)) (Fail, g) (mkMachine mode Failed (Some g))
  | step_stop mode s g : s <> Aborted -> step (mkMachine mode s (Some g)) (Stop, g) (mkMachine mode Stopped (Some g))
  | step_abort mode s g : step (mkMachine mode s (Some g)) (Abort, g) (mkMachine mode Aborted (Some g)).

Lemma step_transition m e g m' : step m (e, g) m' -> transition e g m = (inl tt, m').
Proof.
  inversion 1; subst; unfold transition; cbn [sm_generation sm_state sm_sourceClockMode];
    rewrite ?bool_decide_eq_true_2 by done; cbn [negb switchEvent]; try done.
  - destruct (Z.ltb_spec g g0); [lia |]. match goal with H : terminal _ = _ |- _ => rewrite H end. done.
  - match goal with H : terminal _ = _ |- _ => rewrite H end. done.
  - rewrite bool_decide_eq_false_2 by done. done.
Qed.

(** The events of the [switch]. *)
Ltac by_switch :=
  case_bool_decide as Eg; cbn [negb]; [subst | done];
  match goal with s : MediaAvSyncState |- _ => destruct s end; cbn [switchEvent terminal];
  repeat case_bool_decide; cbn; intros; simplify_eq; by constructor.

Lemma transition_step e g m m' : transition e g m = (inl tt, m') -> step m (e, g) m'.
Proof.
  destruct m as [mode s gen]. unfold transition. cbn [sm_generation sm_state sm_sourceClockMode].
  destruct e; [| by_switch.. | | by_switch | by_switch | by_switch].
  - repeat case_bool_decide; cbn [negb orb]; intros; simplify_eq. destruct gen; [by destruct H0 |]. constructor.
  - destruct gen as [current |]; [| done]. destruct (Z.ltb_spec g current), (terminal s) eqn:E; cbn; intros; simplify_eq.
    by constructor.
Qed.

(** A rejected event changes nothing and reports the state machine's error. *)
Lemma transition_rejected e g m err : (transition e g m).1 = inr err ->
  (transition e g m).2 = m /\ err = invalidTransition m e g.
Proof. unfold transition. repeat case_match; cbn; intros; by simplify_eq. Qed.

(** ** Reachability

    A run of calls; the accepted events are recorded, [reset] forgets them. *)

Inductive Call := Transition (event : MediaAvSyncEvent) (generation : Z) | Reset.

Definition accepted := list (MediaAvSyncEvent * Z).

Definition perform (c : Call) (st : Machine * accepted) : Machine * accepted :=
  match c with
  | Transition e g =>
      match transition e g st.1 with
      | (inl _, m) => (m, st.2 ++ [(e, g)])
      | (inr _, m) => (m, st.2)
      end
  | Reset => (reset st.1, [])
  end.

Definition run (cs : list Call) (st : Machine * accepted) : Machine * accepted := fold_left (fun s c => perform c s) cs st.

(** The events of a start-up, in the order they have to come. *)
Definition path (s : MediaAvSyncState) : option (list MediaAvSyncEvent) :=
  match s with
  | AcquiringClock => Some []
  | PrimingStreams => Some [ClocksLocked]
  | Armed => Some [ClocksLocked; StreamsPrimed]
  | Released => Some [ClocksLocked; StreamsPrimed; Release]
  | Running => Some [ClocksLocked; StreamsPrimed; Release; Run]
  | Idle | Failed | Stopped | Aborted => None
  end.

Definition acquisition (e : MediaAvSyncEvent) : Prop := e = BeginAcquisition \/ e = RequireReacquisition.

(** The accepted events end with the acquisition of [g] and the events of
    [es], all in generation [g]. *)
Definition endsWith (h : accepted) (g : Z) (es : list MediaAvSyncEvent) : Prop :=
  exists h0 e0, acquisition e0 /\ h = h0 ++ (e0, g) :: ((fun e => (e, g)) <$> es).

Record machineOk (st : Machine * accepted) : Prop := {
  mo_idle : sm_state st.1 = Idle <-> sm_generation st.1 = None;
  mo_fresh : sm_state st.1 = Idle -> st.2 = [];
  mo_path es : path (sm_state st.1) = Some es -> exists g, sm_generation st.1 = Some g /\ endsWith st.2 g es;
  mo_bound g : sm_generation st.1 = Some g -> Forall (fun x => x.2 <= g) st.2;
}.

Lemma endsWith_snoc h g es e : endsWith h g es -> endsWith (h ++ [(e, g)]) g (es ++ [e]).
Proof.
  intros (h0 & e0 & Ha & ->). exists h0, e0. split; [done |].
  by rewrite fmap_app, <- (assoc_L (++)).
Qed.

Lemma step_ok m h e g m' : step m (e, g) m' -> machineOk (m, h) -> machineOk (m', h ++ [(e, g)]).
Proof.
  intros Hs [Hidle Hfresh Hpath Hbound]. cbn in *.
  assert (Hall : forall g0, sm_generation m = Some g0 -> g0 <= g -> Forall (fun x => x.2 <= g) (h ++ [(e, g)])).
  { intros g0 Eg Hle. apply Forall_app. split; [| repeat constructor; cbn; lia].
    eapply Forall_impl; [by apply Hbound |]. cbn. intros; lia. }
  inversion Hs; subst; cbn in *; (split; cbn; [split; done | done | |]).
  all: try (intros ? [= <-]; by eapply Hall; [reflexivity | lia]).
  all: try done.
  all: try (intros es [= <-]; destruct (Hpath _ eq_refl) as (g1 & [= <-] & He); exists g;
    split; [done | exact (endsWith_snoc _ _ _ _ He)]).
  - intros es [= <-]. exists g. split; [done |]. exists [], BeginAcquisition. rewrite (Hfresh eq_refl). split; [by left | done].
  - intros ? [= <-]. rewrite (Hfresh eq_refl). repeat constructor. cbn. lia.
  - intros es [= <-]. exists g. split; [done |]. exists h, RequireReacquisition. split; [by right | done].
Qed.

Lemma perform_machine c st : machineOk st -> machineOk (perform c st).
Proof.
  destruct st as [m h]. intros Hok. destruct c as [e g |]; cbn.
  - destruct (transition e g m) as [[[] | err] m'] eqn:E.
    + by eapply step_ok, Hok; apply transition_step.
    + destruct (transition_rejected e g m err) as [E2 _]; [by rewrite E |]. rewrite E in E2. cbn in E2. by subst.
  - split; cbn; done.
Qed.

Lemma run_machine cs st : machineOk st -> machineOk (run cs st).
Proof. revert st. induction cs as [| c cs IH]; intros st H; [done |]. cbn. by apply IH, perform_machine. Qed.

(** The group only runs after a complete start-up: in every reachable state,
    being in a phase of the start-up means that the accepted events end with
    the acquisition of the current generation followed by exactly the events
    of the phases before it, in order and all of that generation; in
    particular [Running] needs clocks locked, streams primed and the release of
    the same generation. *)
Theorem running_after_startup mode cs :
  let '(m, h) := run cs (create mode, []) in
  forall es, path (sm_state m) = Some es -> exists g, sm_generation m = Some g /\ endsWith h g es.
Proof.
  assert (Hok : machineOk (run cs (create mode, []))) by (apply run_machine; split; cbn; done).
  destruct (run cs _) as [m h]. apply Hok.
Qed.

(** A start-up that is interrupted by a reacquisition and then completed. *)
Lemma running_after_startup_witness :
  let '(m, h) := run [Transition BeginAcquisition 3; Transition ClocksLocked 3; Transition Run 3;
                      Transition RequireReacquisition 5; Transition ClocksLocked 3; Transition ClocksLocked 5;
                      Transition StreamsPrimed 5; Transition Release 5; Transition Run 5]
                   (create MpegTsPcr, []) in
  sm_state m = Running /\ exists g, sm_generation m = Some g /\ endsWith h g [ClocksLocked; StreamsPrimed; Release; Run].
Proof.
  pose proof (running_after_startup MpegTsPcr
    [Transition BeginAcquisition 3; Transition ClocksLocked 3; Transition Run 3;
     Transition RequireReacquisition 5; Transition ClocksLocked 3; Transition ClocksLocked 5;
     Transition StreamsPrimed 5; Transition Release 5; Transition Run 5]) as H.
  vm_compute in H |- *. split; [reflexivity | exact (H _ eq_refl)].
Defined.

(** A terminal state is left by a reset only. *)
Lemma terminal_absorbing e g m : terminal (sm_state m) = true ->
  terminal (sm_state (transition e g m).2) = true /\ sm_generation (transition e g m).2 = sm_generation m.
Proof.
  intros Ht. destruct (transition e g m) as [[[] | err] m'] eqn:E.
  - apply transition_step in E. inversion E; subst; cbn in *; try done; congruence.
  - destruct (transition_rejected e g m err) as [E2 _]; [by rewrite E |]. rewrite E in E2. cbn in *. by subst.
Qed.

End MediaAvSyncStateMachine.
