(* ===== verification/SyncGeneration.v ===== *)
(** * Generations of an A/V group: purge, acknowledge, publish

    Models [planner/avsync/MediaAvGenerationTransitionPlan.h],
    [sync/MediaAvGenerationTransition.h], [sync/MediaAvGenerationPurgeTarget.h],
    [sync/MediaAvGenerationTransitionCoordinator.{h,cpp}],
    [sync/MediaAvGenerationParticipantGroup.{h,cpp}],
    [sync/MediaPlaybackEpoch.h], [sync/MediaAudioPlaybackOrigin.h],
    [sync/MediaPlaybackEpochActivationCapability.h] and
    [sync/MediaAvEpochTransitionService.{h,cpp}].

    The service owns the coordinator and opens the output for one generation at
    a time; to move to the next one, every planned participant has to purge and
    acknowledge.  A participant is a group of children behind the interface
    [MediaAvGenerationPurgeTarget], which is a class here: the group is proved
    correct for every implementation.

    Each operation holds [m_mutex] of the service for its whole body and is one
    step; the reservations of [reserveOutputCommit] and
    [reserveActivatedOutput] keep the mutex, see [es_held]. *)

From stdpp Require Import gmap.
From S2P Require Import Prelude MediaResult CheckedArithmetic Model TsPes TimeBase CanonicalTime DemuxClock.
Import MediaDemuxTimestampClockMapper (MediaAvGenerationPurge, mkPurge, pg_oldGeneration, pg_nextGeneration,
  pg_transitionSequence).

Local Open Scope Z_scope.
Local Open Scope result_scope.

(** ** The plan *)

Module MediaAvGenerationTransition.

Inductive MediaAvGenerationParticipant :=
  | CanonicalLineage | AudioCorrection | Scheduler | RtpVideoOutput | RtpAudioOutput | ProjectMpegTsOutput.

#[export] Instance participant_eq_dec : EqDecision MediaAvGenerationParticipant.
Proof. solve_decision. Defined.

Record MediaAvGenerationParticipantPlan := mkParticipantPlan {
  pp_participant : MediaAvGenerationParticipant;
  pp_requiredChildren : list string;
}.

Record MediaAvGenerationTransitionPlan := mkTransitionPlan {
  tp_participants : list MediaAvGenerationParticipantPlan;
  tp_acknowledgementTimeout : Z;
  tp_terminalDrainWindow : Z;
}.

Record MediaAvGenerationAcknowledgement := mkAcknowledgement {
  ack_participant : MediaAvGenerationParticipant;
  ack_transitionSequence : Z;
  ack_status : Result unit;
}.

Inductive MediaAvGenerationReadiness := Acquiring | Locked | Reacquire.

#[export] Instance generationReadiness_eq_dec : EqDecision MediaAvGenerationReadiness.
Proof. solve_decision. Defined.

(** The interface of a child: what [purge] does to it, and its status. *)
Class MediaAvGenerationPurgeTarget (T : Type) := {
  purge : MediaAvGenerationPurge -> T -> Result unit * T;
}.

End MediaAvGenerationTransition.

(** ** The coordinator *)

Module MediaAvGenerationTransitionCoordinator.
Import MediaAvGenerationTransition.

Record ActiveTransition := mkActive {
  at_purge : MediaAvGenerationPurge;
  at_acknowledged : list bool;
}.

Record CompletedTransition := mkCompleted {
  ct_sequence : Z;
  ct_nextGeneration : Z;
}.

Record Coordinator := mkCoordinator {
  gc_plan : MediaAvGenerationTransitionPlan;
  gc_currentGeneration : option Z;
  gc_active : option ActiveTransition;
  gc_completed : option CompletedTransition;
  gc_nextSequence : Z;
  gc_permitted : bool;
  gc_poisoned : bool;
}.

(** The inner loop of [createCoordinator]: [std::set] of the children seen so far. *)
Fixpoint childrenUnique (seen : list string) (children : list string) : bool :=
  match children with
  | [] => true
  | child :: children' =>
      negb (bool_decide (child = EmptyString)) && negb (bool_decide (child ∈ seen)) &&
      childrenUnique (child :: seen) children'
  end.

Fixpoint validateParticipants (seen : list MediaAvGenerationParticipant)
    (participants : list MediaAvGenerationParticipantPlan) : Result unit :=
  match participants with
  | [] => Success tt
  | participant :: participants' =>
      if bool_decide (pp_requiredChildren participant = []) || bool_decide (pp_participant participant ∈ seen)
      then failure (invalidArgument "Generation transition requires unique participants with children")
      else if negb (childrenUnique [] (pp_requiredChildren participant))
      then failure (invalidArgument "Generation participant child identities must be unique and non-empty")
      else validateParticipants (pp_participant participant :: seen) participants'
  end.

Definition createCoordinator (plan : MediaAvGenerationTransitionPlan) : Result Coordinator :=
  if bool_decide (tp_participants plan = []) || (tp_acknowledgementTimeout plan <=? 0) ||
     (tp_terminalDrainWindow plan <=? 0)
  then failure (invalidArgument "Generation transition requires participants and valid durations")
  else
    let* _ := validateParticipants [] (tp_participants plan) in
    Success (mkCoordinator plan None None None 1 false false).

Definition permitInitial (generation : Z) (c : Coordinator) : Result unit * Coordinator :=
  if gc_poisoned c || (generation =? 0) || bool_decide (is_Some (gc_currentGeneration c)) ||
     bool_decide (is_Some (gc_active c)) || bool_decide (is_Some (gc_completed c)) || gc_permitted c
  then (failure (invalidArgument "Initial generation permission requires a fresh coordinator"), c)
  else (Success tt, mkCoordinator (gc_plan c) (Some generation) (gc_active c) (gc_completed c)
                      (gc_nextSequence c) true (gc_poisoned c)).

Definition begin (oldGeneration nextGeneration : Z) (c : Coordinator) :
    Result MediaAvGenerationPurge * Coordinator :=
  if gc_poisoned c || negb (gc_permitted c) || negb (bool_decide (gc_currentGeneration c = Some oldGeneration)) ||
     bool_decide (is_Some (gc_active c)) || bool_decide (is_Some (gc_completed c)) ||
     (nextGeneration <=? oldGeneration) || (gc_nextSequence c =? uint64_max)
  then (failure (invalidArgument
          "Generation transition requires the permitted current generation and a newer target"), c)
  else
    let purge := mkPurge oldGeneration nextGeneration (gc_nextSequence c) in
    (Success purge,
     mkCoordinator (gc_plan c) (gc_currentGeneration c)
       (Some (mkActive purge (replicate (length (tp_participants (gc_plan c))) false)))
       (gc_completed c) (gc_nextSequence c + 1) false (gc_poisoned c)).

Fixpoint participantIndexFrom (index : nat) (participant : MediaAvGenerationParticipant)
    (plans : list MediaAvGenerationParticipantPlan) : option nat :=
  match plans with
  | [] => None
  | p :: plans' =>
      if bool_decide (pp_participant p = participant) then Some index
      else participantIndexFrom (S index) participant plans'
  end.

Definition participantIndex (c : Coordinator) (participant : MediaAvGenerationParticipant) : option nat :=
  participantIndexFrom 0 participant (tp_participants (gc_plan c)).

(** [abort], and the state [poison] leaves behind. *)
Definition abort (c : Coordinator) : Coordinator :=
  mkCoordinator (gc_plan c) (gc_currentGeneration c) None None (gc_nextSequence c) false true.

Definition poison (error : ErrorInfo) (c : Coordinator) : Result unit * Coordinator :=
  (failure error, abort c).

Definition acknowledgeTransition (a : MediaAvGenerationAcknowledgement) (c : Coordinator) : Result bool * Coordinator :=
  let mismatch := (failure (invalidArgument
    "Generation acknowledgement does not match the active transition"), c) in
  match gc_active c with
  | None => mismatch
  | Some active =>
      if gc_poisoned c || negb (ack_transitionSequence a =? pg_transitionSequence (at_purge active)) then mismatch
      else
        match participantIndex c (ack_participant a) with
        | None => (failure (invalidArgument
            "Generation acknowledgement participant is unplanned or duplicated"), c)
        | Some index =>
            if bool_decide (at_acknowledged active !! index = Some true)
            then (failure (invalidArgument
              "Generation acknowledgement participant is unplanned or duplicated"), c)
            else match ack_status a with
            | Failure error => (failure error, (poison error c).2)
            | Success _ =>
                let acknowledged := <[index := true]> (at_acknowledged active) in
                if forallb id acknowledged
                then (Success true,
                      mkCoordinator (gc_plan c) (gc_currentGeneration c) None
                        (Some (mkCompleted (pg_transitionSequence (at_purge active))
                                 (pg_nextGeneration (at_purge active))))
                        (gc_nextSequence c) (gc_permitted c) (gc_poisoned c))
                else (Success false,
                      mkCoordinator (gc_plan c) (gc_currentGeneration c)
                        (Some (mkActive (at_purge active) acknowledged)) (gc_completed c)
                        (gc_nextSequence c) (gc_permitted c) (gc_poisoned c))
            end
        end
  end.

Definition checkTimeout (elapsedSinceBegin : Z) (c : Coordinator) : Result unit * Coordinator :=
  if gc_poisoned c || negb (bool_decide (is_Some (gc_active c))) || (elapsedSinceBegin <? 0)
  then (failure (invalidArgument
          "Generation timeout check requires an active transition and non-negative elapsed time"), c)
  else if elapsedSinceBegin <? tp_acknowledgementTimeout (gc_plan c) then (Success tt, c)
  else poison (cancelled "Generation transition acknowledgement timeout") c.

Definition publishCompletedGeneration (completedTransitionSequence expectedNextGeneration : Z) (c : Coordinator) :
    Result unit * Coordinator :=
  let rejected := (failure (invalidArgument
    "Generation publication requires the matching completed transition"), c) in
  match gc_completed c with
  | None => rejected
  | Some completed =>
      if gc_poisoned c || bool_decide (is_Some (gc_active c)) || gc_permitted c ||
         negb (completedTransitionSequence =? ct_sequence completed) ||
         negb (expectedNextGeneration =? ct_nextGeneration completed)
      then rejected
      else (Success tt, mkCoordinator (gc_plan c) (Some (ct_nextGeneration completed)) (gc_active c) None
                          (gc_nextSequence c) true (gc_poisoned c))
  end.

Definition outputPermitted (generation : Z) (c : Coordinator) : bool :=
  negb (gc_poisoned c) && gc_permitted c && bool_decide (gc_currentGeneration c = Some generation).

End MediaAvGenerationTransitionCoordinator.

(** ** A participant and its children *)

Module MediaAvGenerationParticipantGroup.
Import MediaAvGenerationTransition.

Section Group.
Context {T : Type} {Target : MediaAvGenerationPurgeTarget T}.

Record Group := mkGroup {
  pgp_plan : MediaAvGenerationParticipantPlan;
  pgp_children : gmap string T;
  pgp_lastTransitionSequence : option Z;
  pgp_sealed : bool;
}.

Definition createGroup (plan : MediaAvGenerationParticipantPlan) : Result Group :=
  if negb (MediaAvGenerationTransitionCoordinator.childrenUnique [] (pp_requiredChildren plan))
  then failure (invalidArgument "Generation participant requires unique non-empty child identities")
  else if bool_decide (pp_requiredChildren plan = [])
  then failure (invalidArgument "Generation participant requires at least one child")
  else Success (mkGroup plan ∅ None false).

(** [registerChild]; a null child is [None]. *)
Definition registerChild (identity : string) (child : option T) (g : Group) : Result unit * Group :=
  let refused := (failure (invalidArgument
    "Generation child registration requires an unsealed group, identity, and target"), g) in
  match child with
  | None => refused
  | Some t =>
      if pgp_sealed g || bool_decide (identity = EmptyString) then refused
      else if negb (bool_decide (identity ∈ pp_requiredChildren (pgp_plan g))) ||
              bool_decide (is_Some (pgp_children g !! identity))
      then (failure (invalidArgument
             "Generation child registration must match one unregistered planned identity"), g)
      else (Success tt, mkGroup (pgp_plan g) (<[identity := t]> (pgp_children g))
                          (pgp_lastTransitionSequence g) (pgp_sealed g))
  end.

Definition seal (g : Group) : Result unit * Group :=
  if pgp_sealed g || negb (Nat.eqb (size (pgp_children g)) (length (pp_requiredChildren (pgp_plan g))))
  then (failure (invalidArgument
         "Generation participant can seal exactly once with its complete child set"), g)
  else (Success tt, mkGroup (pgp_plan g) (pgp_children g) (pgp_lastTransitionSequence g) true).

(** The loop over the planned children: the first failure and the children
    afterwards.  [None] is the exception of [std::map::at]. *)
Fixpoint purgeChildren (p : MediaAvGenerationPurge) (identities : list string)
    (children : gmap string T) (firstFailure : option ErrorInfo) : option (option ErrorInfo * gmap string T) :=
  match identities with
  | [] => Some (firstFailure, children)
  | identity :: identities' =>
      child ← children !! identity;
      let '(status, child') := purge p child in
      purgeChildren p identities' (<[identity := child']> children)
        (match firstFailure, status with None, Failure e => Some e | _, _ => firstFailure end)
  end.

Definition purgeAll (p : MediaAvGenerationPurge) (g : Group) :
    option (Result MediaAvGenerationAcknowledgement * Group) :=
  if negb (pgp_sealed g) || (pg_oldGeneration p =? 0) || (pg_nextGeneration p <=? pg_oldGeneration p) ||
     (pg_transitionSequence p =? 0) ||
     (match pgp_lastTransitionSequence g with Some last => pg_transitionSequence p <=? last | None => false end)
  then Some (failure (invalidArgument "Generation purge requires a sealed group and a fresh valid transition"), g)
  else
    '(firstFailure, children) ← purgeChildren p (pp_requiredChildren (pgp_plan g)) (pgp_children g) None;
    let g' := mkGroup (pgp_plan g) children (Some (pg_transitionSequence p)) (pgp_sealed g) in
    match firstFailure with
    | Some e => Some (failure e, g')
    | None => Some (Success (mkAcknowledgement (pp_participant (pgp_plan g)) (pg_transitionSequence p) (Success tt)), g')
    end.

End Group.
Arguments Group : clear implicits.

End MediaAvGenerationParticipantGroup.

(** ** The service *)

Module MediaAvEpochTransitionService.
Import MediaAvGenerationTransition MediaAvGenerationTransitionCoordinator.

Record MediaPlaybackEpoch := mkPlaybackEpoch {
  pe_sourceStart : Z;
  pe_masterRelease : Z;
  pe_generation : Z;
}.

Record MediaAudioPlaybackOrigin := mkAudioOrigin {
  ao_generation : Z;
  ao_sourceStart : Z;
  ao_masterRelease : Z;
  ao_epochOutputSampleIndex : Z;
  ao_outputSampleRate : Z;
}.

Record Service := mkService {
  es_coordinator : Coordinator;
  es_readiness : MediaAvGenerationReadiness;
  es_epoch : option MediaPlaybackEpoch;
  es_audioOrigin : option MediaAudioPlaybackOrigin;
  es_completedTransitionSequence : option Z;
  es_firstError : option ErrorInfo;
  es_held : bool;
}.

Record MediaAvEpochTransitionSnapshot := mkEpochSnapshot {
  et_readiness : MediaAvGenerationReadiness;
  et_playbackEpoch : option MediaPlaybackEpoch;
  et_audioOrigin : option MediaAudioPlaybackOrigin;
  et_outputPermitted : bool;
  et_poisoned : bool;
  et_completedTransitionSequence : option Z;
}.

Definition createService (plan : MediaAvGenerationTransitionPlan) : Result Service :=
  match createCoordinator plan with
  | Failure e => failure e
  | Success coordinator => Success (mkService coordinator Acquiring None None None None false)
  end.

Definition validateEpochPair (epoch : MediaPlaybackEpoch) (audioOrigin : MediaAudioPlaybackOrigin) : Result unit :=
  if (pe_generation epoch =? 0) || negb (ao_generation audioOrigin =? pe_generation epoch) ||
     negb (ao_sourceStart audioOrigin =? pe_sourceStart epoch) ||
     negb (ao_masterRelease audioOrigin =? pe_masterRelease epoch) ||
     (ao_epochOutputSampleIndex audioOrigin <? 0) || (ao_outputSampleRate audioOrigin <=? 0)
  then failure (invalidArgument "Playback epoch and audio origin must describe the same valid generation")
  else Success tt.

Definition withCoordinator (c : Coordinator) (s : Service) : Service :=
  mkService c (es_readiness s) (es_epoch s) (es_audioOrigin s) (es_completedTransitionSequence s)
    (es_firstError s) (es_held s).

Definition withReadiness (r : MediaAvGenerationReadiness) (s : Service) : Service :=
  mkService (es_coordinator s) r (es_epoch s) (es_audioOrigin s) (es_completedTransitionSequence s)
    (es_firstError s) (es_held s).

Definition withEpoch (epoch : MediaPlaybackEpoch) (audioOrigin : MediaAudioPlaybackOrigin)
    (completed : option Z) (s : Service) : Service :=
  mkService (es_coordinator s) Locked (Some epoch) (Some audioOrigin) completed (es_firstError s) (es_held s).

(** [failLocked] and [failReacquisition]. *)
Definition failLocked {A} (error : ErrorInfo) (s : Service) : Result A * Service :=
  let first := match es_firstError s with Some e => e | None => error end in
  (failure first,
   mkService (abort (es_coordinator s)) Reacquire (es_epoch s) (es_audioOrigin s)
     (es_completedTransitionSequence s) (Some first) (es_held s)).

Definition activateInitial (epoch : MediaPlaybackEpoch) (audioOrigin : MediaAudioPlaybackOrigin) (s : Service) :
    Result unit * Service :=
  match validateEpochPair epoch audioOrigin with
  | Failure e => (Failure e, s)
  | Success _ =>
      match es_firstError s with
      | Some e => (failure e, s)
      | None =>
          if bool_decide (is_Some (es_epoch s)) || bool_decide (is_Some (es_audioOrigin s)) ||
             negb (bool_decide (es_readiness s = Acquiring))
          then (failure (invalidArgument "Initial epoch activation requires an acquiring empty service"), s)
          else match permitInitial (pe_generation epoch) (es_coordinator s) with
          | (Failure e, c) => (Failure e, withCoordinator c s)
          | (Success _, c) => (Success tt, withEpoch epoch audioOrigin None (withCoordinator c s))
          end
      end
  end.

Definition beginReacquisition (oldGeneration nextGeneration : Z) (s : Service) :
    Result MediaAvGenerationPurge * Service :=
  match es_firstError s with
  | Some e => (failure e, s)
  | None =>
      if negb (bool_decide (es_readiness s = Locked))
      then (failure (invalidArgument "Reacquisition requires a locked generation"), s)
      else match begin oldGeneration nextGeneration (es_coordinator s) with
      | (Failure e, c) => (Failure e, withCoordinator c s)
      | (Success p, c) => (Success p, withReadiness Reacquire (withCoordinator c s))
      end
  end.

Definition acknowledge (a : MediaAvGenerationAcknowledgement) (s : Service) : Result bool * Service :=
  match es_firstError s with
  | Some e => (failure e, s)
  | None =>
      if negb (bool_decide (es_readiness s = Reacquire))
      then (failure (invalidArgument "Generation acknowledgement requires reacquisition"), s)
      else match acknowledgeTransition a (es_coordinator s) with
      | (Failure e, c) => failLocked e (withCoordinator c s)
      | (Success complete, c) =>
          (Success complete,
           if complete then withReadiness Acquiring (withCoordinator c s) else withCoordinator c s)
      end
  end.

Definition pollTransitionTimeout (elapsedSinceBegin : Z) (s : Service) : Result unit * Service :=
  match es_firstError s with
  | Some e => (failure e, s)
  | None =>
      if negb (bool_decide (es_readiness s = Reacquire))
      then (failure (invalidArgument "Generation timeout polling requires reacquisition"), s)
      else match checkTimeout elapsedSinceBegin (es_coordinator s) with
      | (Failure e, c) => failLocked e (withCoordinator c s)
      | (Success _, c) => (Success tt, withCoordinator c s)
      end
  end.

Definition activateNextAfter (completedTransitionSequence : Z) (epoch : MediaPlaybackEpoch)
    (audioOrigin : MediaAudioPlaybackOrigin) (s : Service) : Result unit * Service :=
  match validateEpochPair epoch audioOrigin with
  | Failure e => failLocked e s
  | Success _ =>
      match es_firstError s with
      | Some e => (failure e, s)
      | None =>
          if negb (bool_decide (es_readiness s = Acquiring)) || negb (bool_decide (is_Some (es_audioOrigin s))) ||
             (match es_epoch s with Some old => pe_generation epoch <=? pe_generation old | None => true end)
          then failLocked (invalidArgument "Next epoch activation requires a completed newer generation") s
          else match publishCompletedGeneration completedTransitionSequence (pe_generation epoch)
                       (es_coordinator s) with
          | (Failure e, c) => failLocked e (withCoordinator c s)
          | (Success _, c) =>
              (Success tt, withEpoch epoch audioOrigin (Some completedTransitionSequence) (withCoordinator c s))
          end
      end
  end.

Definition serviceAbort (s : Service) : Service :=
  withReadiness Reacquire (withCoordinator (abort (es_coordinator s)) s).

Definition snapshot (s : Service) : MediaAvEpochTransitionSnapshot :=
  let generation := match es_epoch s with Some e => pe_generation e | None => 0 end in
  mkEpochSnapshot (es_readiness s) (es_epoch s) (es_audioOrigin s)
    (outputPermitted generation (es_coordinator s)) (gc_poisoned (es_coordinator s))
    (es_completedTransitionSequence s).

Definition withHeld (held : bool) (s : Service) : Service :=
  mkService (es_coordinator s) (es_readiness s) (es_epoch s) (es_audioOrigin s)
    (es_completedTransitionSequence s) (es_firstError s) held.

(** [reserveOutputCommit]: the mutex stays locked in the reservation. *)
Definition reserveOutputCommit (generation : Z) (s : Service) : Result unit * Service :=
  if bool_decide (is_Some (es_firstError s)) || negb (bool_decide (es_readiness s = Locked)) ||
     negb (bool_decide (pe_generation <$> es_epoch s = Some generation)) ||
     negb (outputPermitted generation (es_coordinator s))
  then (failure (cancelled "A/V output commit requires the exact open generation permit"), s)
  else (Success tt, withHeld true s).

Definition reserveActivatedOutput (s : Service) :
    Result (MediaPlaybackEpoch * MediaAudioPlaybackOrigin * option Z) * Service :=
  let closed := (failure (cancelled "A/V output activation requires the exact locked generation"), s) in
  match es_epoch s, es_audioOrigin s with
  | Some epoch, Some audioOrigin =>
      if bool_decide (is_Some (es_firstError s)) || negb (bool_decide (es_readiness s = Locked)) ||
         negb (outputPermitted (pe_generation epoch) (es_coordinator s))
      then closed
      else (Success (epoch, audioOrigin, es_completedTransitionSequence s), withHeld true s)
  | _, _ => closed
  end.

Definition dropReservation (s : Service) : Service := withHeld false s.

End MediaAvEpochTransitionService.
