(* ===== verification/SyncGenerationSafety.v ===== *)
(** * No output of a generation before every participant has purged

    Theorems on the modules of [SyncGeneration]: a participant group purges
    every planned child exactly once, whatever the children are; the service
    opens the output for the next generation only after every planned
    participant acknowledged the transition that leads to it; the opened
    generations increase; and a failed service stays closed. *)

From stdpp Require Import gmap sorting.
From S2P Require Import Prelude MediaResult CheckedArithmetic Model TsPes TimeBase CanonicalTime DemuxClock SyncGeneration.
Import MediaDemuxTimestampClockMapper (MediaAvGenerationPurge, mkPurge, pg_oldGeneration, pg_nextGeneration,
  pg_transitionSequence).
Import MediaAvGenerationTransition.

Local Open Scope Z_scope.
Local Open Scope result_scope.

(** ** Participant groups *)

Module MediaAvParticipantGroupSafety.
Import MediaAvGenerationTransitionCoordinator (childrenUnique).
Import MediaAvGenerationParticipantGroup.

Lemma childrenUnique_spec seen ids : childrenUnique seen ids = true ->
  NoDup ids /\ forall id, id ∈ ids -> id ∉ seen /\ id <> EmptyString.
Proof.
  revert seen. induction ids as [| i ids IH]; intros seen; cbn.
  { intros _. split; [constructor |]. by intros id ?%elem_of_nil. }
  rewrite !andb_true_iff, !negb_true_iff, !bool_decide_eq_false. intros [[Hne Hns] Hrest].
  destruct (IH _ Hrest) as [Hnd Hin]. split.
  - constructor; [| done]. intros Hi. destruct (Hin i Hi) as [H _]. apply H. left.
  - intros id [-> | Hid]%elem_of_cons; [done |]. destruct (Hin id Hid) as [H ?]. split; [| done].
    intros ?. apply H. by right.
Qed.

Section Group.
Context {T : Type} {Target : MediaAvGenerationPurgeTarget T}.
Implicit Types (g : Group T) (children : gmap string T).

(** Only planned children are registered; a sealed group has all of them. *)
Record groupOk g : Prop := {
  go_unique : NoDup (pp_requiredChildren (pgp_plan g));
  go_planned : dom (pgp_children g) ⊆ list_to_set (pp_requiredChildren (pgp_plan g));
  go_sealed : pgp_sealed g = true -> forall id, id ∈ pp_requiredChildren (pgp_plan g) -> is_Some (pgp_children g !! id);
}.

Lemma create_group plan g : createGroup plan = Success g -> groupOk g /\ pgp_plan g = plan.
Proof.
  unfold createGroup. destruct (childrenUnique [] (pp_requiredChildren plan)) eqn:E; cbn; [| done].
  case_bool_decide; [done |]. intros [= <-]. apply childrenUnique_spec in E as [Hnd _].
  split; [| done]. split; cbn; [done | set_solver | done].
Qed.

Lemma registerChild_group identity child g : groupOk g -> groupOk (registerChild identity child g).2.
Proof.
  intros Hg. unfold registerChild. destruct child as [t |]; [| done].
  destruct (pgp_sealed g) eqn:Es; cbn [orb]; [done |]. case_bool_decide; [done |].
  destruct (bool_decide (identity ∈ _)) eqn:Ein; cbn [negb orb]; [| done]. apply bool_decide_eq_true in Ein.
  case_bool_decide; [done |]. destruct Hg as [Hu Hp _]. split; cbn; [done | | congruence].
  rewrite dom_insert_L. set_solver.
Qed.

Lemma seal_group g : groupOk g -> groupOk (seal g).2.
Proof.
  intros Hg. unfold seal. destruct (pgp_sealed g) eqn:Es; cbn [orb]; [done |].
  destruct (Nat.eqb_spec (size (pgp_children g)) (length (pp_requiredChildren (pgp_plan g)))) as [E |]; cbn [negb]; [| done].
  destruct Hg as [Hu Hp _]. split; cbn; [done | done |]. intros _ id Hid. apply elem_of_dom.
  assert (Hd : dom (pgp_children g) ≡ list_to_set (pp_requiredChildren (pgp_plan g))).
  { apply set_subseteq_size_equiv; [done |]. rewrite size_list_to_set by done. rewrite size_dom. lia. }
  rewrite Hd. by apply elem_of_list_to_set.
Qed.

(** The loop: no exception, every identity purged once, the others untouched,
    and a failure exactly when some child failed. *)
Lemma purgeChildren_spec p ids children first :
  NoDup ids -> (forall id, id ∈ ids -> is_Some (children !! id)) ->
  exists failure children', purgeChildren p ids children first = Some (failure, children') /\
    (forall id c, id ∈ ids -> children !! id = Some c -> children' !! id = Some (purge p c).2) /\
    (forall id, id ∉ ids -> children' !! id = children !! id) /\
    (failure = None <-> first = None /\ forall id c, id ∈ ids -> children !! id = Some c -> resultOk (purge p c).1 = true).
Proof.
  intros Hnd. revert children first. induction Hnd as [| i ids Hi Hnd IH]; intros children first Hin; cbn.
  { exists first, children. split_and!; try done; [by intros ?? ?%elem_of_nil |]. split; [| tauto].
    intros ->. split; [done |]. by intros ?? ?%elem_of_nil. }
  destruct (Hin i) as [c Hc]; [left |]. rewrite Hc. cbn. destruct (purge p c) as [status c'] eqn:Ep.
  assert (Hother : forall id, id ∈ ids -> <[i := c']> children !! id = children !! id)
    by (intros id ?; rewrite lookup_insert_ne; [done | set_solver]).
  destruct (IH (<[i := c']> children)
    (match first, status with None, Failure e => Some e | _, _ => first end)) as (ff & ch & E & Hall & Hnot & Hff).
  { intros id Hid. rewrite Hother by done. apply Hin. by right. }
  exists ff, ch. split_and!; [done | | |].
  - intros id c0 [-> | Hid]%elem_of_cons Hc0.
    + rewrite Hnot by done. rewrite lookup_insert_eq. simplify_eq. by rewrite Ep.
    + apply (Hall id c0 Hid). by rewrite Hother.
  - intros id Hid. rewrite not_elem_of_cons in Hid. rewrite Hnot by tauto. apply lookup_insert_ne. naive_solver.
  - rewrite Hff. split.
    + intros [Hfirst Hok]. destruct first; [done |]. split; [done |]. intros id c0 [-> | Hid]%elem_of_cons Hc0.
      * simplify_eq. rewrite Ep. by destruct status.
      * apply (Hok id c0 Hid). by rewrite Hother.
    + intros [-> Hok]. split.
      * pose proof (Hok i c ltac:(left) Hc) as Hs. rewrite Ep in Hs. by destruct status.
      * intros id c0 Hid Hc0. apply (Hok id); [by right |]. by rewrite <- Hother.
Qed.

(** A sealed participant purges every planned child exactly once per
    transition and whatever the children do: the map lookup never throws, each
    child is in the state its own [purge] left, no other child is touched, and
    the participant acknowledges exactly when every child reported success. *)
Theorem group_purges_every_child p g :
  groupOk g -> pgp_sealed g = true ->
  0 < pg_oldGeneration p < pg_nextGeneration p -> 0 < pg_transitionSequence p ->
  (forall last, pgp_lastTransitionSequence g = Some last -> last < pg_transitionSequence p) ->
  exists r g', purgeAll p g = Some (r, g') /\ groupOk g' /\
    (forall id c, id ∈ pp_requiredChildren (pgp_plan g) -> pgp_children g !! id = Some c ->
       pgp_children g' !! id = Some (purge p c).2) /\
    (r = Success (mkAcknowledgement (pp_participant (pgp_plan g)) (pg_transitionSequence p) (Success tt)) <->
     forall id c, id ∈ pp_requiredChildren (pgp_plan g) -> pgp_children g !! id = Some c ->
       resultOk (purge p c).1 = true) /\
    (resultOk r = true ->
     r = Success (mkAcknowledgement (pp_participant (pgp_plan g)) (pg_transitionSequence p) (Success tt))).
Proof.
  intros [Hnd Hplan Hall] Hs Hg Hseq Hlast. unfold purgeAll. rewrite Hs.
  destruct (purgeChildren_spec p _ (pgp_children g) None Hnd (Hall Hs)) as (ff & ch & E & H1 & H2 & H3).
  destruct (_ || _) eqn:Eguard.
  { rewrite !orb_true_iff, !Z.eqb_eq, Z.leb_le in Eguard.
    destruct Eguard as [[[[E0 | E0] | E0] | E0] | E0]; try (cbn in E0; lia); try done.
    destruct (pgp_lastTransitionSequence g) as [last |]; [| done]. apply Z.leb_le in E0. specialize (Hlast last eq_refl). lia. }
  rewrite E. cbn. set (g' := mkGroup _ _ _ _).
  assert (Hok : groupOk g').
  { split; cbn; [done | |].
    - intros id [c Hc]%elem_of_dom. destruct (decide (id ∈ pp_requiredChildren (pgp_plan g))); [by apply elem_of_list_to_set |].
      rewrite H2 in Hc by done. apply Hplan. by eapply elem_of_dom_2.
    - intros _ id Hid. destruct (Hall Hs id Hid) as [c Hc]. rewrite (H1 id c Hid Hc). eauto. }
  destruct ff as [e |].
  - assert (Hbad : exists e', failure (A := MediaAvGenerationAcknowledgement) e = Failure e')
      by (unfold failure; destruct (ErrorInfo_ok e); eauto). destruct Hbad as [e' Ee]. rewrite Ee.
    eexists _, g'. split_and!; try done. split; [done |]. intros Hok'. destruct H3 as [_ H3]. discriminate H3. by split.
  - eexists _, g'. split_and!; try done. split; [intros _ | done]. by apply H3.
Qed.

End Group.

(** A child that counts its purges and fails from the second one on. *)
#[local] Instance countingChild : MediaAvGenerationPurgeTarget nat := {
  purge _ n := (if Nat.eqb n 0 then Success tt else Failure (internalError "purged twice"), S n);
}.

Definition sampleGroup : Group nat :=
  mkGroup (mkParticipantPlan Scheduler ["video"; "audio"]) {["video" := 0%nat; "audio" := 1%nat]} None true.

Lemma group_purges_every_child_witness :
  groupOk sampleGroup /\
  exists r g', purgeAll (mkPurge 3 4 1) sampleGroup = Some (r, g') /\ groupOk g' /\
    (forall id c, id ∈ ["video"; "audio"] -> pgp_children sampleGroup !! id = Some c ->
       pgp_children g' !! id = Some (purge (mkPurge 3 4 1) c).2).
Proof.
  assert (Hok : groupOk sampleGroup).
  { split; cbn.
    - apply (bool_decide_unpack _); reflexivity.
    - apply (bool_decide_unpack _); reflexivity.
    - intros _ id Hid. apply elem_of_cons in Hid as [-> | [-> | []%elem_of_nil]%elem_of_cons]; eexists; reflexivity. }
  split; [exact Hok |].
  destruct (group_purges_every_child (mkPurge 3 4 1) sampleGroup Hok eq_refl) as (r & g' & H1 & H2 & H3 & _);
    [cbn; lia | cbn; lia | done |].
  exists r, g'. exact (conj H1 (conj H2 H3)).
Defined.

End MediaAvParticipantGroupSafety.

(** ** The service *)

Module MediaAvEpochTransitionSafety.
Import MediaAvGenerationTransitionCoordinator MediaAvEpochTransitionService.

Inductive Call :=
  | ActivateInitial (epoch : MediaPlaybackEpoch) (origin : MediaAudioPlaybackOrigin)
  | BeginReacquisition (oldGeneration nextGeneration : Z)
  | Acknowledge (a : MediaAvGenerationAcknowledgement)
  | PollTimeout (elapsed : Z)
  | ActivateNext (sequence : Z) (epoch : MediaPlaybackEpoch) (origin : MediaAudioPlaybackOrigin)
  | FailReacquisition (error : ErrorInfo)
  | Abort
  | ReserveOutputCommit (generation : Z)
  | ReserveActivatedOutput
  | DropReservation.

(** What happened, as far as the caller could see it. *)
Inductive Event :=
  | OpenedInitial (generation : Z)
  | Began (p : MediaAvGenerationPurge)
  | Acked (participant : MediaAvGenerationParticipant) (sequence : Z)
  | OpenedNext (sequence generation : Z).

Definition onSuccess {A} (r : Result A * Service) (e : A -> list Event) : Service * list Event :=
  (r.2, match r.1 with Success a => e a | Failure _ => [] end).

(** One call; a call that has to wait for the mutex does nothing. *)
Definition perform (c : Call) (s : Service) : Service * list Event :=
  match c with
  | DropReservation => (dropReservation s, [])
  | _ =>
      if es_held s then (s, [])
      else match c with
      | ActivateInitial epoch origin =>
          onSuccess (activateInitial epoch origin s) (fun _ => [OpenedInitial (pe_generation epoch)])
      | BeginReacquisition o n => onSuccess (beginReacquisition o n s) (fun p => [Began p])
      | Acknowledge a =>
          onSuccess (acknowledge a s)
            (fun _ => [Acked (ack_participant a) (ack_transitionSequence a)])
      | PollTimeout t => ((pollTransitionTimeout t s).2, [])
      | ActivateNext n epoch origin =>
          onSuccess (activateNextAfter n epoch origin s) (fun _ => [OpenedNext n (pe_generation epoch)])
      | FailReacquisition e => ((failLocked (A := unit) e s).2, [])
      | Abort => (serviceAbort s, [])
      | ReserveOutputCommit g => ((reserveOutputCommit g s).2, [])
      | ReserveActivatedOutput => ((reserveActivatedOutput s).2, [])
      | DropReservation => (s, [])
      end
  end.

Definition run (cs : list Call) (st : Service * list Event) : Service * list Event :=
  fold_left (fun st c => let '(s', e) := perform c st.1 in (s', st.2 ++ e)) cs st.

Definition opened (h : list Event) : list Z :=
  omap (fun e => match e with OpenedInitial g | OpenedNext _ g => Some g | _ => None end) h.
Arguments opened : simpl never.

(** The history shows a complete transition to generation [g]: it began, and
    every planned participant acknowledged it. *)
Definition transitionTo (plan : MediaAvGenerationTransitionPlan) (h : list Event) (sequence g : Z) : Prop :=
  exists old, Began (mkPurge old g sequence) ∈ h /\ old < g /\
    forall p, p ∈ tp_participants plan -> Acked (pp_participant p) sequence ∈ h.

(** The phases of a live service. *)
Inductive phase (s : Service) (h : list Event) : Prop :=
  | ph_fresh :
      es_readiness s = Acquiring -> gc_currentGeneration (es_coordinator s) = None ->
      gc_active (es_coordinator s) = None -> gc_completed (es_coordinator s) = None ->
      gc_permitted (es_coordinator s) = false -> es_epoch s = None -> es_audioOrigin s = None -> opened h = [] -> phase s h
  | ph_open g :
      es_readiness s = Locked -> gc_currentGeneration (es_coordinator s) = Some g ->
      gc_active (es_coordinator s) = None -> gc_completed (es_coordinator s) = None ->
      gc_permitted (es_coordinator s) = true -> pe_generation <$> es_epoch s = Some g -> is_Some (es_audioOrigin s) ->
      (OpenedInitial g ∈ h \/ exists n, transitionTo (gc_plan (es_coordinator s)) h n g) -> phase s h
  | ph_purging old next n acked :
      es_readiness s = Reacquire -> gc_currentGeneration (es_coordinator s) = Some old ->
      gc_active (es_coordinator s) = Some (mkActive (mkPurge old next n) acked) ->
      gc_completed (es_coordinator s) = None -> gc_permitted (es_coordinator s) = false ->
      pe_generation <$> es_epoch s = Some old -> is_Some (es_audioOrigin s) ->
      Began (mkPurge old next n) ∈ h -> old < next ->
      length acked = length (tp_participants (gc_plan (es_coordinator s))) ->
      (forall i p, tp_participants (gc_plan (es_coordinator s)) !! i = Some p -> acked !! i = Some true ->
         Acked (pp_participant p) n ∈ h) -> phase s h
  | ph_purged old next n :
      es_readiness s = Acquiring -> gc_currentGeneration (es_coordinator s) = Some old ->
      gc_active (es_coordinator s) = None -> gc_completed (es_coordinator s) = Some (mkCompleted n next) ->
      gc_permitted (es_coordinator s) = false -> pe_generation <$> es_epoch s = Some old -> is_Some (es_audioOrigin s) ->
      old < next -> transitionTo (gc_plan (es_coordinator s)) h n next -> phase s h
  | ph_dead :
      gc_poisoned (es_coordinator s) = true -> gc_permitted (es_coordinator s) = false -> phase s h.

Record serviceOk (st : Service * list Event) : Prop := {
  so_phase : phase st.1 st.2;
  so_live : gc_poisoned (es_coordinator st.1) = true -> gc_permitted (es_coordinator st.1) = false;
  so_failed : is_Some (es_firstError st.1) -> gc_poisoned (es_coordinator st.1) = true;
  so_opened : StronglySorted Z.lt (opened st.2);
  so_bound g : gc_currentGeneration (es_coordinator st.1) = Some g -> Forall (fun x => x <= g) (opened st.2);
  so_unopened : gc_currentGeneration (es_coordinator st.1) = None -> opened st.2 = [];
}.

(** *** Lemmas *)

Lemma opened_app h1 h2 : opened (h1 ++ h2) = opened h1 ++ opened h2.
Proof. apply omap_app. Qed.

Lemma transitionTo_app plan h1 h2 n g : transitionTo plan h1 n g -> transitionTo plan (h1 ++ h2) n g.
Proof.
  intros (old & Hb & Hlt & Ha). exists old. split_and!; [by apply elem_of_app; left | done |].
  intros p Hp. apply elem_of_app. left. by apply Ha.
Qed.

Lemma participantIndexFrom_spec k participant plans i :
  participantIndexFrom k participant plans = Some i ->
  exists j p, i = (k + j)%nat /\ plans !! j = Some p /\ pp_participant p = participant.
Proof.
  revert k. induction plans as [| p plans IH]; intros k; cbn; [done |]. case_bool_decide.
  - intros [= <-]. exists 0%nat, p. split_and!; done || lia.
  - intros (j & q & -> & Hq & E)%IH. exists (S j), q. split_and!; done || lia.
Qed.

(** A service that is poisoned, with the current generation of [s]. *)
Lemma dead_ok s s' h : serviceOk (s, h) ->
  gc_poisoned (es_coordinator s') = true -> gc_permitted (es_coordinator s') = false ->
  gc_currentGeneration (es_coordinator s') = gc_currentGeneration (es_coordinator s) -> serviceOk (s', h).
Proof.
  intros [_ _ _ Ho Hb Hu] Hp Hper Hc. split; cbn in *; rewrite ?Hc; try done. by apply ph_dead.
Qed.

Lemma failLocked_ok {A} e s h : serviceOk (s, h) -> serviceOk ((failLocked (A := A) e s).2, h).
Proof. intros Hs. by apply (dead_ok s). Qed.

Lemma failLocked_failure {A} e s : resultOk (failLocked (A := A) e s).1 = false.
Proof. unfold failLocked, failure. cbn. by repeat case_match. Qed.

Lemma held_ok s h held : serviceOk (s, h) -> serviceOk (withHeld held s, h).
Proof.
  intros [Hp Hl Hf Ho Hb Hu]. split; try done. cbn in *. destruct Hp.
  - by apply ph_fresh.
  - by eapply (ph_open _ _ g).
  - by eapply (ph_purging _ _ old next n acked).
  - by eapply (ph_purged _ _ old next n).
  - by apply ph_dead.
Qed.

Lemma phase_live s h : serviceOk (s, h) -> gc_poisoned (es_coordinator s) = false ->
  es_firstError s = None.
Proof.
  intros Hs Hp. destruct (es_firstError s) eqn:E; [| done]. pose proof (so_failed _ Hs) as Hf. cbn in Hf.
  rewrite E, Hp in Hf. by discriminate Hf.
Qed.

(** Results of the operations that do not go through [failLocked]. *)
Lemma onSuccess_failure {A} (r : Result A * Service) e : resultOk r.1 = false -> onSuccess r e = (r.2, []).
Proof. destruct r as [[] ?]; done. Qed.

Lemma failure_notOk {A} e : resultOk (failure (A := A) e) = false.
Proof. unfold failure. by case_match. Qed.

(** *** The operations preserve the invariant *)

Definition extends (st : Service * list Event) (r : Service * list Event) : Service * list Event :=
  (r.1, st.2 ++ r.2).

Lemma withCoordinator_same s : withCoordinator (es_coordinator s) s = s.
Proof. by destruct s. Qed.

Lemma unchanged_ok s h : serviceOk (s, h) -> serviceOk (extends (s, h) (s, [])).
Proof. unfold extends. cbn. by rewrite app_nil_r. Qed.

Lemma activateInitial_ok epoch origin s h : serviceOk (s, h) ->
  serviceOk (extends (s, h) (onSuccess (activateInitial epoch origin s) (fun _ => [OpenedInitial (pe_generation epoch)]))).
Proof.
  intros Hs. unfold activateInitial.
  destruct (validateEpochPair epoch origin) as [[] | e]; [| by apply unchanged_ok].
  destruct (es_firstError s) as [e |] eqn:Ef; [rewrite onSuccess_failure by apply failure_notOk; by apply unchanged_ok |].
  destruct (_ || _) eqn:Eg; [by apply unchanged_ok |].
  rewrite !orb_false_iff, negb_false_iff, bool_decide_eq_true, !bool_decide_eq_false in Eg. destruct Eg as [[He Ha] Hr].
  unfold permitInitial. destruct (_ || _) eqn:Ep; [rewrite failure_id, withCoordinator_same by done; by apply unchanged_ok |].
  rewrite !orb_false_iff, Z.eqb_neq, !bool_decide_eq_false in Ep. destruct Ep as [[[[[Hpo Hz] Hc] Hac] Hco] Hpe].
  apply eq_None_not_Some in He, Ha, Hc, Hac, Hco.
  destruct Hs as [_ _ _ Ho _ Hu]. cbn in *. specialize (Hu Hc). unfold extends, onSuccess. cbn.
  split; cbn; rewrite ?opened_app, ?Hu, ?Hpo; cbn; try done.
  - eapply (ph_open _ _ (pe_generation epoch)); cbn; try done. left. apply elem_of_app. right. left.
  - rewrite Ef. by intros [? ?].
  - repeat constructor.
  - intros g [= <-]. repeat constructor. lia.
Qed.

Lemma beginReacquisition_ok o n s h : serviceOk (s, h) ->
  serviceOk (extends (s, h) (onSuccess (beginReacquisition o n s) (fun p => [Began p]))).
Proof.
  intros Hs. unfold beginReacquisition.
  destruct (es_firstError s) as [e |] eqn:Ef; [rewrite onSuccess_failure by apply failure_notOk; by apply unchanged_ok |].
  case_bool_decide as Hr; cbn [negb]; [| by apply unchanged_ok].
  unfold begin. destruct (_ || _) eqn:Ep; [rewrite failure_id, withCoordinator_same by done; by apply unchanged_ok |].
  rewrite !orb_false_iff, !negb_false_iff, bool_decide_eq_true, !bool_decide_eq_false, Z.leb_gt in Ep.
  destruct Ep as [[[[[[Hpo Hpe] Hc] Hac] Hco] Hlt] Hseq]. apply eq_None_not_Some in Hac, Hco.
  destruct Hs as [Hph _ _ Ho Hb _]. cbn in *. unfold extends, onSuccess. cbn.
  assert (Hop : opened (h ++ [Began (mkPurge o n (gc_nextSequence (es_coordinator s)))]) = opened h)
    by (rewrite opened_app; apply app_nil_r).
  split; cbn; rewrite ?Hop, ?Hpo; try done.
  - destruct Hph; try congruence. assert (g = o) as -> by congruence.
    eapply (ph_purging _ _ o n); cbn; try done.
    + apply elem_of_app. right. left.
    + apply length_replicate.
    + intros i p _ Hi. apply lookup_replicate in Hi as [? _]. done.
  - rewrite Ef. by intros [? ?].
  - congruence.
Qed.

Lemma failLocked_event {A} e s s' h (f : A -> list Event) : serviceOk (s, h) ->
  gc_currentGeneration (es_coordinator s') = gc_currentGeneration (es_coordinator s) ->
  serviceOk (extends (s, h) (onSuccess (failLocked e s') f)).
Proof.
  intros Hs Hc. rewrite onSuccess_failure by apply failLocked_failure. unfold extends. cbn [fst snd].
  rewrite app_nil_r. by apply (dead_ok s).
Qed.

(** What an accepted acknowledgement does to the coordinator. *)
Lemma coordinator_acknowledge a c b c' active :
  gc_active c = Some active -> length (at_acknowledged active) = length (tp_participants (gc_plan c)) ->
  acknowledgeTransition a c = (Success b, c') ->
  gc_poisoned c = false /\ ack_transitionSequence a = pg_transitionSequence (at_purge active) /\
  exists i p, tp_participants (gc_plan c) !! i = Some p /\ pp_participant p = ack_participant a /\
    let acked := <[i := true]> (at_acknowledged active) in
    b = forallb id acked /\
    c' = if b then mkCoordinator (gc_plan c) (gc_currentGeneration c) None
                     (Some (mkCompleted (pg_transitionSequence (at_purge active)) (pg_nextGeneration (at_purge active))))
                     (gc_nextSequence c) (gc_permitted c) (gc_poisoned c)
         else mkCoordinator (gc_plan c) (gc_currentGeneration c) (Some (mkActive (at_purge active) acked))
                (gc_completed c) (gc_nextSequence c) (gc_permitted c) (gc_poisoned c).
Proof.
  intros Ha Hlen. unfold acknowledgeTransition. rewrite Ha.
  destruct (gc_poisoned c) eqn:Epo; cbn [orb]; [done |].
  destruct (Z.eqb_spec (ack_transitionSequence a) (pg_transitionSequence (at_purge active))); cbn [negb]; [| done].
  destruct (participantIndex c (ack_participant a)) as [i |] eqn:Ei; [| done].
  apply participantIndexFrom_spec in Ei as (j & p & -> & Hp & Epp). cbn [Nat.add] in *.
  case_bool_decide; [done |]. destruct (ack_status a) as [u | err]; cycle 1.
  { unfold failure. by destruct (ErrorInfo_ok err). }
  intros E. split_and!; [done | done |]. exists j, p. split_and!; [done | done | |];
    destruct (forallb id _); by simplify_eq.
Qed.

Lemma acknowledge_ok a s h : serviceOk (s, h) ->
  serviceOk (extends (s, h) (onSuccess (acknowledge a s)
    (fun _ => [Acked (ack_participant a) (ack_transitionSequence a)]))).
Proof.
  intros Hs. unfold acknowledge.
  destruct (es_firstError s) as [e |] eqn:Ef; [rewrite onSuccess_failure by apply failure_notOk; by apply unchanged_ok |].
  case_bool_decide as Hr; cbn [negb]; [| by apply unchanged_ok].
  assert (Hcur : gc_currentGeneration (acknowledgeTransition a (es_coordinator s)).2 =
                 gc_currentGeneration (es_coordinator s)).
  { unfold acknowledgeTransition. by repeat case_match. }
  destruct (acknowledgeTransition _ _) as [[b | e] c] eqn:Eack; [| by apply failLocked_event].
  destruct (so_phase _ Hs) as [| | old next n acked Hr' Hc Hact Hco Hpe Hep Hor Hbeg Hlt Hlen Hack | | Hpo _]; cbn in *; try congruence;
    cycle 1.
  { unfold acknowledgeTransition in Eack. rewrite Hpo in Eack. cbn in Eack. by repeat case_match. }
  destruct (coordinator_acknowledge a _ b c _ Hact Hlen Eack) as (Hpo & En & i & p & Hp & Epp & Eb & ->). cbn [at_purge at_acknowledged pg_transitionSequence pg_nextGeneration] in *.
  assert (Hop : opened (h ++ [Acked (ack_participant a) (ack_transitionSequence a)]) = opened h)
    by (rewrite opened_app; apply app_nil_r).
  assert (Hack' : forall j q, tp_participants (gc_plan (es_coordinator s)) !! j = Some q ->
    <[i := true]> acked !! j = Some true -> Acked (pp_participant q) n ∈ h ++ [Acked (ack_participant a) (ack_transitionSequence a)]).
  { intros j q Hq Hj. apply elem_of_app. destruct (decide (j = i)) as [-> |].
    - right. rewrite Hp in Hq. injection Hq as <-. rewrite Epp, En. left.
    - left. rewrite list_lookup_insert_ne in Hj by done. by eapply Hack. }
  destruct Hs as [_ _ _ Ho Hb Hu]. cbn in *. unfold extends, onSuccess. cbn [fst snd].
  split; cbn [fst snd]; rewrite ?Hop; destruct b; cbn; try done.
  - eapply (ph_purged _ _ old next n); cbn; try done. exists old. split_and!; [by apply elem_of_app; left | done |].
    intros q [j Hj]%list_elem_of_lookup. apply (Hack' j q Hj). symmetry in Eb. rewrite forallb_forall in Eb.
    destruct (lookup_lt_is_Some_2 (<[i := true]> acked) j) as [x Hx].
    { rewrite length_insert, Hlen. by apply lookup_lt_is_Some_1. }
    rewrite Hx. f_equal. apply (Eb x). apply list_elem_of_In. by eapply list_elem_of_lookup_2.
  - eapply (ph_purging _ _ old next n (<[i := true]> acked)); cbn; try done; [by apply elem_of_app; left |].
    by rewrite length_insert.
  - rewrite Ef. by intros [? ?].
  - rewrite Ef. by intros [? ?].
Qed.

Lemma activateNext_ok n epoch origin s h : serviceOk (s, h) ->
  serviceOk (extends (s, h) (onSuccess (activateNextAfter n epoch origin s) (fun _ => [OpenedNext n (pe_generation epoch)]))).
Proof.
  intros Hs. unfold activateNextAfter.
  destruct (validateEpochPair epoch origin) as [[] | e]; [| by apply failLocked_event].
  destruct (es_firstError s) as [e |] eqn:Ef; [rewrite onSuccess_failure by apply failure_notOk; by apply unchanged_ok |].
  destruct (_ || _) eqn:Eg; [by apply failLocked_event |].
  rewrite !orb_false_iff, !negb_false_iff, !bool_decide_eq_true in Eg. destruct Eg as [[Hr Hor] Hgen].
  assert (Hcur : resultOk (publishCompletedGeneration n (pe_generation epoch) (es_coordinator s)).1 = false ->
    (publishCompletedGeneration n (pe_generation epoch) (es_coordinator s)).2 = es_coordinator s).
  { unfold publishCompletedGeneration. by repeat case_match. }
  destruct (publishCompletedGeneration _ _ _) as [[[] | e] c] eqn:Epub; cbn in Hcur;
    [| apply failLocked_event; [done |]; cbn; by rewrite Hcur].
  unfold publishCompletedGeneration in Epub. destruct (gc_completed (es_coordinator s)) as [ct |] eqn:Ect; [| done].
  destruct (_ || _) eqn:Ep in Epub; [done |]. injection Epub as <-.
  rewrite !orb_false_iff, !negb_false_iff, !Z.eqb_eq in Ep. destruct Ep as [[[[Hpo Hact] Hpe] En] Eng].
  destruct (so_phase _ Hs) as [| | | old next n' Hr' Hc Hact' Hco Hpe' Hep Hor' Hlt Htr |]; cbn in *; try congruence.
  rewrite Hco in Ect. injection Ect as <-. cbn in En, Eng. subst n' next.
  assert (Hop : opened (h ++ [OpenedNext n (pe_generation epoch)]) = opened h ++ [pe_generation epoch])
    by (rewrite opened_app; done).
  destruct Hs as [_ _ _ Ho Hb Hu]. cbn in *. unfold extends, onSuccess. cbn [fst snd].
  pose proof (Hb old Hc) as Hbound. split; cbn; rewrite ?Hop, ?Hpo; try done.
  - eapply (ph_open _ _ (pe_generation epoch)); cbn; try done. right. exists n. by apply transitionTo_app.
  - rewrite Ef. by intros [? ?].
  - apply StronglySorted_app. split_and!; [| done | repeat constructor].
    intros x y Hx ->%list_elem_of_singleton. rewrite Forall_forall in Hbound. specialize (Hbound x Hx). lia.
  - intros g [= <-]. apply Forall_app. split; [| repeat constructor; lia].
    eapply Forall_impl; [exact Hbound |]. cbn. intros; lia.
Qed.

Lemma pollTimeout_ok t s h : serviceOk (s, h) -> serviceOk ((pollTransitionTimeout t s).2, h).
Proof.
  intros Hs. unfold pollTransitionTimeout. destruct (es_firstError s); [done |]. case_bool_decide; cbn [negb]; [| done].
  unfold checkTimeout. destruct (_ || _).
  - rewrite failure_id, withCoordinator_same by done. by apply failLocked_ok.
  - destruct (_ <? _); [cbn; by rewrite withCoordinator_same |]. by apply (dead_ok s).
Qed.

Lemma perform_service c s h : serviceOk (s, h) -> serviceOk (extends (s, h) (perform c s)).
Proof.
  intros Hs. unfold perform.
  destruct c; try (destruct (es_held s); [by apply unchanged_ok |]).
  - by apply activateInitial_ok.
  - by apply beginReacquisition_ok.
  - by apply acknowledge_ok.
  - unfold extends. cbn [fst snd]. rewrite app_nil_r. by apply pollTimeout_ok.
  - by apply activateNext_ok.
  - unfold extends. cbn [fst snd]. rewrite app_nil_r. by apply failLocked_ok.
  - unfold extends. cbn [fst snd]. rewrite app_nil_r. by apply (dead_ok s).
  - unfold extends. cbn [fst snd]. rewrite app_nil_r. unfold reserveOutputCommit.
    destruct (_ || _); [done | by apply held_ok].
  - unfold extends. cbn [fst snd]. rewrite app_nil_r. unfold reserveActivatedOutput.
    destruct (es_epoch s), (es_audioOrigin s); try done. destruct (_ || _); [done | by apply held_ok].
  - unfold extends. cbn [fst snd]. rewrite app_nil_r. by apply held_ok.
Qed.

Lemma run_service cs st : serviceOk st -> serviceOk (run cs st).
Proof.
  revert st. induction cs as [| c cs IH]; intros [s h] Hs; [done |]. cbn. apply IH.
  pose proof (perform_service c s h Hs) as H. unfold extends in H. by destruct (perform c s).
Qed.

Lemma create_service plan s : createService plan = Success s -> serviceOk (s, []) /\ gc_plan (es_coordinator s) = plan.
Proof.
  unfold createService, createCoordinator. destruct (_ || _); [done |].
  destruct (validateParticipants [] (tp_participants plan)) as [u | e]; cbn [bindResult];
    [| unfold failure; destruct (ErrorInfo_ok e); cbn; [done |]; unfold failure; by destruct (ErrorInfo_ok e)].
  intros [= <-]. split; [| done]. split; cbn; try done; [by apply ph_fresh | constructor].
Qed.

Lemma perform_plan c s : gc_plan (es_coordinator (perform c s).1) = gc_plan (es_coordinator s).
Proof.
  unfold perform, onSuccess, activateInitial, permitInitial, beginReacquisition, begin,
    acknowledge, acknowledgeTransition,
    activateNextAfter, publishCompletedGeneration, pollTransitionTimeout, checkTimeout, poison, reserveOutputCommit,
    reserveActivatedOutput.
  repeat (case_match; simplify_eq/=; try done).
Qed.

Lemma run_plan cs st : gc_plan (es_coordinator (run cs st).1) = gc_plan (es_coordinator st.1).
Proof.
  revert st. induction cs as [| c cs IH]; intros st; [done |]. cbn. rewrite IH.
  pose proof (perform_plan c st.1) as H. by destruct (perform c st.1).
Qed.

(** *** Theorems *)

(** C5: Output is never permitted for a generation before its time: whatever the
    schedule of activations, purges, acknowledgements, timeouts and aborts, if
    the output is permitted for generation [g], then [g] is the generation of
    the active playback epoch, and either it was activated initially or the
    history holds the begin of a transition to [g] and the successful
    acknowledgement of that very transition by every planned participant. *)
Theorem permit_requires_acknowledgements plan cs s0 g :
  createService plan = Success s0 ->
  let '(s, h) := run cs (s0, []) in
  outputPermitted g (es_coordinator s) = true ->
  es_readiness s = Locked /\ pe_generation <$> es_epoch s = Some g /\
  (OpenedInitial g ∈ h \/ exists n, transitionTo plan h n g).
Proof.
  intros Hc. destruct (create_service plan s0 Hc) as [Hok Hplan].
  pose proof (run_service cs _ Hok) as Hs. pose proof (run_plan cs (s0, [])) as Hp. cbn in Hp. rewrite Hplan in Hp.
  destruct (run cs (s0, [])) as [s h]. cbn in Hp. unfold outputPermitted.
  rewrite !andb_true_iff, negb_true_iff, bool_decide_eq_true. intros [[Hpo Hper] Hcur].
  destruct (so_phase _ Hs) as [| g' Hr Hc' _ _ _ He _ Hopen | | |]; cbn in *; try congruence.
  assert (g' = g) as -> by congruence. rewrite Hp in Hopen. done.
Qed.

(** The generations that were opened for output are strictly increasing, in
    every schedule. *)
Theorem opened_generations_increase plan cs s0 :
  createService plan = Success s0 -> StronglySorted Z.lt (opened (run cs (s0, [])).2).
Proof. intros Hc. destruct (create_service plan s0 Hc) as [Hok _]. by apply run_service. Qed.

Lemma perform_poisoned c s : gc_poisoned (es_coordinator s) = true ->
  gc_poisoned (es_coordinator (perform c s).1) = true.
Proof.
  intros Hp. unfold perform, onSuccess, activateInitial, permitInitial, beginReacquisition, begin,
    acknowledge, acknowledgeTransition,
    activateNextAfter, publishCompletedGeneration, pollTransitionTimeout, checkTimeout, poison, reserveOutputCommit,
    reserveActivatedOutput. rewrite Hp. cbn [orb].
  repeat (case_match; simplify_eq/=; try done).
Qed.

Lemma run_poisoned cs st : gc_poisoned (es_coordinator st.1) = true ->
  gc_poisoned (es_coordinator (run cs st).1) = true.
Proof.
  revert st. induction cs as [| c cs IH]; intros st Hp; [done |]. cbn. apply IH.
  pose proof (perform_poisoned c st.1 Hp) as H. by destruct (perform c st.1).
Qed.

(** C39: A failure closes the output for good: after a schedule in which an abort, an
    acknowledgement timeout, a failed purge or an inconsistent activation
    poisoned the service, no continuation permits output for any generation,
    no output commit can be reserved, and no generation is opened again. *)
Theorem failed_service_stays_closed plan cs cs' s0 g :
  createService plan = Success s0 -> gc_poisoned (es_coordinator (run cs (s0, [])).1) = true ->
  let s := (run cs' (run cs (s0, []))).1 in
  outputPermitted g (es_coordinator s) = false /\ resultOk (reserveOutputCommit g s).1 = false /\
  resultOk (reserveActivatedOutput s).1 = false /\
  forall n epoch origin, resultOk (activateNextAfter n epoch origin s).1 = false /\
    resultOk (activateInitial epoch origin s).1 = false.
Proof.
  intros _ Hp s. assert (Hpo : gc_poisoned (es_coordinator s) = true) by (by apply run_poisoned).
  assert (Hclosed : forall g', outputPermitted g' (es_coordinator s) = false)
    by (intros g'; unfold outputPermitted; by rewrite Hpo).
  split_and!; [apply Hclosed | | | intros n epoch origin; split].
  - unfold reserveOutputCommit. rewrite Hclosed. cbn [negb]. rewrite orb_true_r. apply failure_notOk.
  - unfold reserveActivatedOutput. destruct (es_epoch s), (es_audioOrigin s); try apply failure_notOk.
    rewrite Hclosed. cbn [negb]. rewrite orb_true_r. apply failure_notOk.
  - unfold activateNextAfter, publishCompletedGeneration. rewrite Hpo. cbn [orb].
    repeat case_match; simplify_eq/=; first [apply failLocked_failure | apply failure_notOk].
  - unfold activateInitial, permitInitial. rewrite Hpo. cbn [orb].
    destruct (validateEpochPair epoch origin); [| done]. destruct (es_firstError s); [apply failure_notOk |].
    destruct (_ || _); [apply failure_notOk | done].
Qed.

(** *** Witnesses: two participants, one completed transition, one timeout. *)

Definition samplePlan : MediaAvGenerationTransitionPlan :=
  mkTransitionPlan [mkParticipantPlan Scheduler ["pacer"]; mkParticipantPlan ProjectMpegTsOutput ["mux"]]
    1000000000 1000000.

Definition sampleService : Service :=
  mkService (mkCoordinator samplePlan None None None 1 false false) Acquiring None None None None false.

Definition sampleHistory : list Call :=
  [ActivateInitial (mkPlaybackEpoch 10 20 3) (mkAudioOrigin 3 10 20 0 48000); BeginReacquisition 3 5;
   Acknowledge (mkAcknowledgement ProjectMpegTsOutput 1 (Success tt));
   Acknowledge (mkAcknowledgement Scheduler 1 (Success tt));
   ActivateNext 1 (mkPlaybackEpoch 30 40 5) (mkAudioOrigin 5 30 40 0 48000)].

Lemma permit_requires_acknowledgements_witness :
  let '(s, h) := run sampleHistory (sampleService, []) in
  outputPermitted 5 (es_coordinator s) = true /\ es_readiness s = Locked /\ pe_generation <$> es_epoch s = Some 5 /\
  (OpenedInitial 5 ∈ h \/ exists n, transitionTo samplePlan h n 5).
Proof.
  pose proof (permit_requires_acknowledgements samplePlan sampleHistory sampleService 5 eq_refl) as H.
  destruct (run sampleHistory (sampleService, [])) as [s h] eqn:E.
  assert (Hs : outputPermitted 5 (es_coordinator s) = true) by (injection E as <- <-; reflexivity).
  split; [exact Hs | exact (H Hs)].
Defined.

Lemma opened_generations_increase_witness :
  opened (run sampleHistory (sampleService, [])).2 = [3; 5] /\
  StronglySorted Z.lt (opened (run sampleHistory (sampleService, [])).2).
Proof. split; [reflexivity | exact (opened_generations_increase samplePlan sampleHistory sampleService eq_refl)]. Defined.

Lemma failed_service_stays_closed_witness :
  let cs := take 3 sampleHistory ++ [PollTimeout 1000000000] in
  outputPermitted 5 (es_coordinator (run (drop 3 sampleHistory) (run cs (sampleService, []))).1) = false.
Proof.
  apply (failed_service_stays_closed samplePlan (take 3 sampleHistory ++ [PollTimeout 1000000000])
    (drop 3 sampleHistory) sampleService 5); reflexivity.
Defined.

End MediaAvEpochTransitionSafety.
