(* ===== verification/RtpWire.v ===== *)
(** * RTP on the wire

    Models [protocol/rtp/MediaRtpTimestamp.h], [MediaRtpOutputClockMapper.{h,cpp}],
    [MediaRtpPacketParser.{h,cpp}], [MediaRtpDatagramRewriter.{h,cpp}],
    [MediaRtpWirePacketComposer.{h,cpp}] and [MediaMpegTsRtpPacketizer.{h,cpp}].

    A datagram is a list of bytes, a byte an integer below 256; sizes and
    offsets are [nat] ([std::size_t] of a buffer in memory).  The parser only
    reads inside the datagram, which the model shows by reading with [!!!] and
    proving what is read.  Allocation failures are not modelled. *)

From S2P Require Import Prelude MediaResult CheckedArithmetic Model TimeBase.
Import MediaRunningTime.

Local Open Scope Z_scope.
Local Open Scope result_scope.

(** ** Output timestamps *)

Module MediaRtpOutputClockMapper.

Definition NanosecondsPerSecond : Z := 1000000000.
Definition RtpTimestampModulus : Z := Z.shiftl 1 32.

Record MediaRtpTimestamp := mkRtpTimestamp {
  rt_extendedTicks : Z;
  rt_wire : Z;
}.

Record Mapper := mkMapper {
  om_clockRate : Z;
  om_baseTimestamp : Z;
  om_masterOrigin : Z;
}.

Definition invalidTimestamp (message : string) : Result MediaRtpTimestamp := failure (invalidArgument message).

Definition createMapper (clockRate baseTimestamp masterOrigin : Z) : Result Mapper :=
  if clockRate <=? 0 then failure (invalidArgument "RTP output clock rate must be positive")
  else Success (mkMapper clockRate baseTimestamp masterOrigin).

Definition map (presentationOnMaster : Z) (m : Mapper) : Result MediaRtpTimestamp :=
  match checkedSubtract presentationOnMaster (om_masterOrigin m) with
  | Failure _ => invalidTimestamp "RTP output master-time subtraction overflow"
  | Success delta =>
      let seconds := Z.quot delta NanosecondsPerSecond in
      let remainder := Z.rem delta NanosecondsPerSecond in
      if (Z.quot int64_max (om_clockRate m) <? seconds) || (seconds <? Z.quot int64_min (om_clockRate m))
      then invalidTimestamp "RTP output timestamp rescale overflow"
      else
        let wholeTicks := seconds * om_clockRate m in
        let fractionalTicks := Z.quot (remainder * om_clockRate m) NanosecondsPerSecond in
        if ((0 <? fractionalTicks) && (int64_max - fractionalTicks <? wholeTicks)) ||
           ((fractionalTicks <? 0) && (wholeTicks <? int64_min - fractionalTicks))
        then invalidTimestamp "RTP output timestamp rescale overflow"
        else
          let ticksFromOrigin := wholeTicks + fractionalTicks in
          let base := u64 (RtpTimestampModulus + om_baseTimestamp m) in
          let magnitude := u64 (- (ticksFromOrigin + 1) + 1) in
          if ticksFromOrigin <? 0 then
            if base <? magnitude
            then invalidTimestamp "RTP output preroll exceeds the representable base timestamp range"
            else
              let extendedTicks := u64 (base - magnitude) in
              Success (mkRtpTimestamp extendedTicks (u32 extendedTicks))
          else if uint64_max - base <? ticksFromOrigin
          then invalidTimestamp "RTP output extended timestamp overflow"
          else
            let extendedTicks := u64 (base + ticksFromOrigin) in
            Success (mkRtpTimestamp extendedTicks (u32 extendedTicks))
  end.

(** *** The mapping is exact *)

Lemma quot_split delta rate d : 0 < d -> 0 < rate ->
  Z.quot delta d * rate + Z.quot (Z.rem delta d * rate) d = Z.quot (delta * rate) d.
Proof.
  intros Hd Hr. pose proof (Z.quot_rem delta d ltac:(lia)) as E.
  assert (H : delta * rate = Z.rem delta d * rate + Z.quot delta d * rate * d) by nia.
  rewrite H. pose proof (Z.rem_bound_abs delta d ltac:(lia)).
  rewrite Z.quot_add; [lia | lia |].
  destruct (Z.le_gt_cases 0 delta).
  - pose proof (Z.rem_nonneg delta d ltac:(lia) ltac:(lia)). pose proof (Z.quot_pos delta d ltac:(lia) ltac:(lia)). nia.
  - pose proof (Z.rem_nonpos delta d ltac:(lia) ltac:(lia)).
    assert (Z.quot delta d <= 0) by (pose proof (Z.quot_opp_l delta d); pose proof (Z.quot_pos (- delta) d); lia). nia.
Qed.

(** The guard before the multiplication is exact. *)
Lemma whole_bounds x rate : 0 < rate ->
  (Z.quot int64_max rate <? x) || (x <? Z.quot int64_min rate) = negb (isInt64 (x * rate)).
Proof.
  intros Hr. unfold isInt64. rewrite negb_andb, orb_comm.
  assert (Emin : Z.quot int64_min rate = - (2 ^ 63 / rate)).
  { unfold int64_min. rewrite Z.quot_opp_l by lia. f_equal. by apply Z.quot_div_nonneg. }
  rewrite Emin, Z.quot_div_nonneg by done. unfold int64_min. f_equal; apply eq_true_iff_eq;
    rewrite negb_true_iff, Z.ltb_lt, Z.leb_gt.
  - split; intros H.
    + apply Z.nle_gt. intros Hle. assert (- x <= 2 ^ 63 / rate) by (apply Z.div_le_lower_bound; lia). lia.
    + apply Z.nle_gt. intros Hle. pose proof (Z.mul_div_le (2 ^ 63) rate Hr). nia.
  - split; intros H.
    + apply Z.nle_gt. intros Hle. assert (x <= int64_max / rate) by (apply Z.div_le_lower_bound; lia). lia.
    + apply Z.nle_gt. intros Hle. pose proof (Z.mul_div_le int64_max rate Hr). nia.
Qed.

(** An output timestamp is the exact one: the ticks since the master origin,
    rounded towards zero, added to 2^32 plus the planned base, whenever the
    difference of the times, the tick count and the sum are representable, with
    the wire value its lowest 32 bits; otherwise an error. *)
Theorem output_timestamp_exact m t :
  0 < om_clockRate m < 2 ^ 31 -> is_u 32 (om_baseTimestamp m) -> is_i 64 (om_masterOrigin m) -> is_i 64 t ->
  let ticks := Z.quot ((t - om_masterOrigin m) * om_clockRate m) NanosecondsPerSecond in
  let extended := 2 ^ 32 + om_baseTimestamp m + ticks in
  match map t m with
  | Success r => rt_extendedTicks r = extended /\ rt_wire r = (om_baseTimestamp m + ticks) mod 2 ^ 32
  | Failure _ => ~ is_i 64 (t - om_masterOrigin m) \/ ~ is_i 64 ticks \/ ~ is_u 64 extended
  end.
Proof.
  intros Hrate Hbase Ho Ht ticks extended. unfold map. rewrite checkedSubtract_exact by done.
  set (delta := t - om_masterOrigin m) in *. destruct (isInt64 delta) eqn:Ed;
    [| left; rewrite <- isInt64_spec, Ed; done]. apply isInt64_spec in Ed.
  pose proof (quot_split delta (om_clockRate m) NanosecondsPerSecond ltac:(done) ltac:(lia)) as Eticks. fold ticks in Eticks.
  pose proof (Z.quot_rem delta NanosecondsPerSecond ltac:(done)) as Edelta.
  pose proof (Z.rem_bound_abs delta NanosecondsPerSecond ltac:(done)) as Hrem.
  set (seconds := Z.quot delta NanosecondsPerSecond) in *. set (remainder := Z.rem delta NanosecondsPerSecond) in *.
  set (whole := seconds * om_clockRate m) in *. set (fraction := Z.quot (remainder * om_clockRate m) NanosecondsPerSecond) in *.
  assert (Hsign : (0 <= delta -> 0 <= seconds /\ 0 <= fraction) /\ (delta <= 0 -> seconds <= 0 /\ fraction <= 0)).
  { split; intros H.
    - pose proof (Z.rem_nonneg delta NanosecondsPerSecond ltac:(done) H). fold remainder in H0.
      split; [by apply Z.quot_pos | apply Z.quot_pos; [nia | done]].
    - pose proof (Z.rem_nonpos delta NanosecondsPerSecond ltac:(done) H). fold remainder in H0. split.
      + pose proof (Z.quot_pos (- delta) NanosecondsPerSecond ltac:(lia) ltac:(done)) as Hq.
        rewrite Z.quot_opp_l in Hq by done. fold seconds in Hq. lia.
      + pose proof (Z.quot_pos (- (remainder * om_clockRate m)) NanosecondsPerSecond ltac:(nia) ltac:(done)) as Hq.
        rewrite Z.quot_opp_l in Hq by done. fold fraction in Hq. lia. }
  rewrite whole_bounds by lia. fold whole.
  destruct (isInt64 whole) eqn:Ew; cbn [negb]; cycle 1.
  { right; left. rewrite <- Eticks. unfold isInt64 in Ew. apply andb_false_iff in Ew as [E%Z.leb_gt | E%Z.leb_gt];
      unfold whole in *; ranges; nia. }
  apply isInt64_spec in Ew.
  destruct ((_ && _) || _) eqn:Eov2.
  { right; left. rewrite orb_true_iff, !andb_true_iff, !Z.ltb_lt in Eov2. ranges; lia. }
  rewrite orb_false_iff, !andb_false_iff, !Z.ltb_ge in Eov2.
  assert (Hticks : is_i 64 ticks) by (rewrite <- Eticks; ranges; lia).
  rewrite Eticks. assert (Eb : u64 (RtpTimestampModulus + om_baseTimestamp m) = 2 ^ 32 + om_baseTimestamp m).
  { unfold RtpTimestampModulus, u64. change (Z.shiftl 1 32) with (2 ^ 32). apply Z.mod_small. ranges; lia. }
  rewrite Eb.
  assert (Hwire : u32 extended = (om_baseTimestamp m + ticks) mod 2 ^ 32).
  { unfold u32, extended. replace (2 ^ 32 + om_baseTimestamp m + ticks) with (om_baseTimestamp m + ticks + 1 * 2 ^ 32) by lia.
    apply Z.mod_add. lia. }
  destruct (Z.ltb_spec ticks 0).
  - assert (Em : u64 (- (ticks + 1) + 1) = - ticks) by (unfold u64; rewrite Z.mod_small; ranges; lia). rewrite Em.
    destruct (Z.ltb_spec (2 ^ 32 + om_baseTimestamp m) (- ticks)).
    { right; right. unfold extended. ranges; lia. }
    cbn. replace (u64 (2 ^ 32 + om_baseTimestamp m - - ticks)) with extended; [done |].
    unfold u64, extended. rewrite Z.mod_small; ranges; lia.
  - destruct (Z.ltb_spec (uint64_max - (2 ^ 32 + om_baseTimestamp m)) ticks).
    { right; right. unfold extended. ranges; lia. }
    cbn. replace (u64 (2 ^ 32 + om_baseTimestamp m + ticks)) with extended; [done |].
    unfold u64, extended. rewrite Z.mod_small; ranges; lia.
Qed.

(** A presentation 100 ms before the origin wraps below the base. *)
Lemma output_timestamp_exact_witness :
  let m := mkMapper 90000 100 5000000000 in
  map 4900000000 m = Success (mkRtpTimestamp 4294958396 4294958396) /\
  4294958396 = 2 ^ 32 + 100 + Z.quot ((4900000000 - 5000000000) * 90000) NanosecondsPerSecond.
Proof.
  intros m. assert (E : map 4900000000 m = Success (mkRtpTimestamp 4294958396 4294958396)) by reflexivity.
  split; [exact E |].
  pose proof (output_timestamp_exact m 4900000000) as H. rewrite E in H. apply H; cbn; ranges; lia.
Defined.

End MediaRtpOutputClockMapper.

(** ** Reading and writing big-endian words *)

Module MediaRtpBytes.

Definition readU16 (bytes : list Z) (offset : nat) : Z :=
  u16 (Z.lor (Z.shiftl (bytes !!! offset) 8) (bytes !!! S offset)).

Definition readU32 (bytes : list Z) (offset : nat) : Z :=
  Z.lor (Z.lor (Z.lor (u32 (Z.shiftl (bytes !!! offset) 24)) (Z.shiftl (bytes !!! S offset) 16))
           (Z.shiftl (bytes !!! S (S offset)) 8)) (bytes !!! S (S (S offset))).

Definition writeU16 (bytes : list Z) (offset : nat) (value : Z) : list Z :=
  <[S offset := u8 value]> (<[offset := u8 (Z.shiftr value 8)]> bytes).

Definition writeU32 (bytes : list Z) (offset : nat) (value : Z) : list Z :=
  <[S (S (S offset)) := u8 value]> (<[S (S offset) := u8 (Z.shiftr value 8)]>
    (<[S offset := u8 (Z.shiftr value 16)]> (<[offset := u8 (Z.shiftr value 24)]> bytes))).

Lemma success_inj {A} (a b : A) : Success a = Success b -> a = b.
Proof. by intros [=]. Qed.

Lemma join16 v : is_u 16 v -> u16 (Z.lor (Z.shiftl (u8 (Z.shiftr v 8)) 8) (u8 v)) = v.
Proof.
  intros Hv. rewrite lor_shiftl_add by (unfold u8; first [lia | apply Z.mod_pos_bound; lia]).
  rewrite shiftr_div by lia. unfold u8, u16. divmod.
Qed.

Lemma join32 v : is_u 32 v ->
  Z.lor (Z.lor (Z.lor (u32 (Z.shiftl (u8 (Z.shiftr v 24)) 24)) (Z.shiftl (u8 (Z.shiftr v 16)) 16))
    (Z.shiftl (u8 (Z.shiftr v 8)) 8)) (u8 v) = v.
Proof.
  intros Hv. unfold u8. rewrite !shiftr_div, !shiftl_mul by lia.
  set (a := v / 2 ^ 24 mod 2 ^ 8). set (b := v / 2 ^ 16 mod 2 ^ 8). set (c := v / 2 ^ 8 mod 2 ^ 8).
  assert (Ha : 0 <= a < 256) by (apply Z.mod_pos_bound; lia). assert (Hb : 0 <= b < 256) by (apply Z.mod_pos_bound; lia).
  assert (Hc : 0 <= c < 256) by (apply Z.mod_pos_bound; lia).
  assert (E1 : u32 (a * 2 ^ 24) = a * 2 ^ 24) by (apply Z.mod_small; lia). rewrite E1.
  rewrite (lor_disjoint (a * 2 ^ 24) (b * 2 ^ 16) 24); [| lia | lia | apply Z.mod_mul; lia].
  rewrite (lor_disjoint (a * 2 ^ 24 + b * 2 ^ 16) (c * 2 ^ 8) 16); [| lia | lia |].
  2: { replace (a * 2 ^ 24 + b * 2 ^ 16) with ((a * 2 ^ 8 + b) * 2 ^ 16) by lia. apply Z.mod_mul. lia. }
  rewrite (lor_disjoint _ (v mod 2 ^ 8) 8); [| lia | apply Z.mod_pos_bound; lia |].
  2: { replace (a * 2 ^ 24 + b * 2 ^ 16 + c * 2 ^ 8) with ((a * 2 ^ 16 + b * 2 ^ 8 + c) * 2 ^ 8) by lia. apply Z.mod_mul. lia. }
  unfold a, b, c. divmod.
Qed.

End MediaRtpBytes.

(** ** Packets *)

Module MediaRtpPacketParser.
Import MediaRtpBytes.

Record MediaRtpHeaderExtension := mkExtension {
  ext_profile : Z;
  ext_data : list Z;
}.

Record MediaRtpPacket := mkPacket {
  rp_version : Z;
  rp_marker : bool;
  rp_payloadType : Z;
  rp_sequenceNumber : Z;
  rp_timestamp : Z;
  rp_ssrc : Z;
  rp_csrcs : list Z;
  rp_extension : option MediaRtpHeaderExtension;
  rp_paddingSize : Z;
  rp_payload : list Z;
}.

Definition malformed {A} (message : string) : Result A := failure (invalidArgument message).

Definition FixedHeaderSize : nat := 12.

(** The loop over the CSRC list. *)
Fixpoint readCsrcs (datagram : list Z) (offset count : nat) : list Z :=
  match count with
  | O => []
  | S count' => readU32 datagram offset :: readCsrcs datagram (offset + 4)%nat count'
  end.

(** [datagram[begin, end)]. *)
Definition slice (datagram : list Z) (first last : nat) : list Z := take (last - first) (drop first datagram).

(** From the CSRC list to the end: CSRCs, extension, padding size, payload. *)
Definition parseBody (datagram : list Z) : Result (list Z * option MediaRtpHeaderExtension * Z * list Z) :=
  let size := length datagram in
  let first := datagram !!! 0%nat in
  let hasPadding := negb (Z.land first 0x20 =? 0) in
  let hasExtension := negb (Z.land first 0x10 =? 0) in
  let csrcCount := Z.to_nat (Z.land first 0x0F) in
  let csrcs := readCsrcs datagram FixedHeaderSize csrcCount in
  let offset0 := (FixedHeaderSize + 4 * csrcCount)%nat in
  let* (extension, offset) :=
    if hasExtension then
      if (size - offset0 <? 4)%nat then malformed "RTP extension header is truncated"
      else
        let profile := readU16 datagram offset0 in
        let words := Z.to_nat (readU16 datagram (offset0 + 2)) in
        let offset1 := (offset0 + 4)%nat in
        if ((size - offset1) / 4 <? words)%nat then malformed "RTP extension data is truncated"
        else
          let extensionSize := (words * 4)%nat in
          Success (Some (mkExtension profile (slice datagram offset1 (offset1 + extensionSize))),
                   (offset1 + extensionSize)%nat)
    else Success (None, offset0) in
  let* paddingSize :=
    if hasPadding then
      let paddingSize := default 0 (last datagram) in
      if (paddingSize =? 0) || (Z.of_nat (size - offset) <? paddingSize)
      then malformed "RTP padding length is invalid"
      else Success paddingSize
    else Success 0 in
  Success (csrcs, extension, paddingSize, slice datagram offset (size - Z.to_nat paddingSize)).

Definition parse (datagram : list Z) : Result MediaRtpPacket :=
  let size := length datagram in
  if (size <? FixedHeaderSize)%nat then malformed "RTP datagram is shorter than fixed header"
  else
    let first := datagram !!! 0%nat in
    let version := Z.shiftr first 6 in
    if negb (version =? 2) then malformed "RTP version must be 2"
    else if ((size - FixedHeaderSize) / 4 <? Z.to_nat (Z.land first 0x0F))%nat
    then malformed "RTP CSRC list is truncated"
    else
      let* (csrcs, extension, paddingSize, payload) := parseBody datagram in
      Success (mkPacket version (negb (Z.land (datagram !!! 1%nat) 0x80 =? 0)) (Z.land (datagram !!! 1%nat) 0x7F)
                 (readU16 datagram 2) (readU32 datagram 4) (readU32 datagram 8)
                 csrcs extension paddingSize payload).

(** *** What the body depends on *)

Lemma lookup_past_header (h rest : list Z) i : (length h <= i)%nat ->
  (h ++ rest) !!! i = rest !!! (i - length h)%nat.
Proof. intros. by apply lookup_total_app_r. Qed.

Lemma readU16_past h h' rest i : length h = length h' -> (length h <= i)%nat ->
  readU16 (h ++ rest) i = readU16 (h' ++ rest) i.
Proof. intros E Hi. unfold readU16. rewrite !lookup_past_header by lia. by rewrite E. Qed.

Lemma readU32_past h h' rest i : length h = length h' -> (length h <= i)%nat ->
  readU32 (h ++ rest) i = readU32 (h' ++ rest) i.
Proof. intros E Hi. unfold readU32. rewrite !lookup_past_header by lia. by rewrite E. Qed.

Lemma readCsrcs_past h h' rest i n : length h = length h' -> (length h <= i)%nat ->
  readCsrcs (h ++ rest) i n = readCsrcs (h' ++ rest) i n.
Proof.
  intros E. revert i. induction n as [| n IH]; intros i Hi; [done |]. cbn.
  rewrite (readU32_past h h') by done. by rewrite IH by lia.
Qed.

Lemma slice_past h h' rest i j : length h = length h' -> (length h <= i)%nat ->
  slice (h ++ rest) i j = slice (h' ++ rest) i j.
Proof. intros E Hi. unfold slice. rewrite !drop_app_ge by lia. by rewrite E. Qed.

(** Two datagrams that differ in the fixed header only, and not in its first
    byte, have the same body. *)
Lemma parseBody_header h h' rest : length h = FixedHeaderSize -> length h' = FixedHeaderSize ->
  h !!! 0%nat = h' !!! 0%nat -> rest <> [] -> parseBody (h ++ rest) = parseBody (h' ++ rest).
Proof.
  intros Hh Hh' E0 Hrest. unfold parseBody, FixedHeaderSize in *.
  assert (Efirst : (h ++ rest) !!! 0%nat = (h' ++ rest) !!! 0%nat) by (rewrite !lookup_total_app_l by lia; done).
  assert (Elast : last (h ++ rest) = last (h' ++ rest)).
  {
    destruct rest as [| x r _] using rev_ind; [done |]. by rewrite !app_assoc, !last_snoc. }
  rewrite Efirst, Elast, !length_app, Hh, Hh'. cbn zeta.
  rewrite (readCsrcs_past h h') by lia.
  destruct (negb (Z.land _ 0x10 =? 0)).
  - destruct (_ <? 4)%nat; [done |]. rewrite !(readU16_past h h') by lia.
    destruct (_ <? _)%nat; [done |]. cbn [bindResult]. rewrite (slice_past h h') by lia.
    destruct (negb (Z.land _ 0x20 =? 0)); cbn [bindResult].
    + destruct (_ || _); [done |]. cbn [bindResult]. by rewrite (slice_past h h') by lia.
    + by rewrite (slice_past h h') by lia.
  - cbn [bindResult]. destruct (negb (Z.land _ 0x20 =? 0)); cbn [bindResult].
    + destruct (_ || _); [done |]. cbn [bindResult]. by rewrite (slice_past h h') by lia.
    + by rewrite (slice_past h h') by lia.
Qed.

End MediaRtpPacketParser.

(** ** Rewriting packetized datagrams *)

Module MediaRtpDatagramRewriter.
Import MediaRtpBytes MediaRtpPacketParser.
Import MediaRtpOutputClockMapper (MediaRtpTimestamp, mkRtpTimestamp, rt_wire).

Definition FixedHeaderBytes : nat := 12.

Record MediaRtpDatagramRewriteIdentity := mkIdentity {
  ri_payloadType : Z;
  ri_ssrc : Z;
}.

Definition createIdentity (payloadType ssrc : Z) : Result MediaRtpDatagramRewriteIdentity :=
  if (payloadType <? 0) || (127 <? payloadType)
  then failure (invalidArgument "RTP rewrite identity requires a payload type from 0 through 127")
  else if ssrc =? 0 then failure (invalidArgument "scheduled RTP output requires a non-zero planned SSRC")
  else Success (mkIdentity payloadType ssrc).

Definition payloadOffset (datagram : list Z) : Result nat :=
  let size := length datagram in
  let csrcBytes := (Z.to_nat (Z.land (datagram !!! 0%nat) 0x0F) * 4)%nat in
  if (size - FixedHeaderBytes <? csrcBytes)%nat then failure (invalidArgument "RTP CSRC list is truncated")
  else
    let offset := (FixedHeaderBytes + csrcBytes)%nat in
    if Z.land (datagram !!! 0%nat) 0x10 =? 0 then Success offset
    else if (size - offset <? 4)%nat then failure (invalidArgument "RTP extension header is truncated")
    else
      let extensionWords := Z.to_nat (Z.lor (Z.shiftl (datagram !!! (offset + 2)%nat) 8) (datagram !!! (offset + 3)%nat)) in
      let extensionBytes := (extensionWords * 4)%nat in
      let offset1 := (offset + 4)%nat in
      if (size - offset1 <? extensionBytes)%nat then failure (invalidArgument "RTP extension data is truncated")
      else Success (offset1 + extensionBytes)%nat.

(** [rewrite]: the payload size and the output vector. *)
Definition rewriteDatagram (datagram : list Z) (identity : MediaRtpDatagramRewriteIdentity)
    (timestamp : MediaRtpTimestamp) : Result nat * list Z :=
  let size := length datagram in
  let reject message := (failure (invalidArgument message), []) in
  if (size <? FixedHeaderBytes)%nat then reject "RTP datagram is shorter than its fixed header"
  else if negb (Z.shiftr (datagram !!! 0%nat) 6 =? 2) then reject "RTP datagram version is not 2"
  else if (192 <=? datagram !!! 1%nat) && (datagram !!! 1%nat <=? 223)
  then reject "RTCP is forbidden on the scheduled RTP packetization boundary"
  else if negb (Z.land (datagram !!! 1%nat) 0x7F =? ri_payloadType identity)
  then reject "FFmpeg RTP payload type differs from the planned dynamic payload type"
  else match (let* offset := payloadOffset datagram in
              let* payloadEnd :=
                if negb (Z.land (datagram !!! 0%nat) 0x20 =? 0) then
                  let paddingBytes := default 0 (last datagram) in
                  if (paddingBytes =? 0) || (Z.of_nat (size - offset) <? paddingBytes)
                  then failure (invalidArgument "RTP padding is malformed or truncated")
                  else Success (size - Z.to_nat paddingBytes)%nat
                else Success size in
              if (payloadEnd <=? offset)%nat
              then failure (invalidArgument "RTP datagram carries no media payload")
              else Success (payloadEnd - offset)%nat) with
  | Failure e => (failure e, [])
  | Success payloadOctets =>
      let output1 := <[1%nat := u8 (Z.lor (Z.land (datagram !!! 1%nat) 0x80) (ri_payloadType identity))]> datagram in
      (Success payloadOctets, writeU32 (writeU32 output1 4 (rt_wire timestamp)) 8 (ri_ssrc identity))
  end.

(** [MediaRtpWirePacketComposer::compose]. *)
Definition compose (packetizedRtp : list Z) (expectedPayloadOctets : nat)
    (identity : MediaRtpDatagramRewriteIdentity) (timestamp : MediaRtpTimestamp)
    (sequenceNumber : Z) (maximumDatagramBytes : nat) : Result (list Z) :=
  if (expectedPayloadOctets =? 0)%nat || (maximumDatagramBytes <? length packetizedRtp)%nat
  then failure (invalidArgument "RTP wire packet exceeds its planned datagram or payload bound")
  else match rewriteDatagram packetizedRtp identity timestamp with
  | (Failure e, _) => failure e
  | (Success payloadOctets, output) =>
      if negb (payloadOctets =? expectedPayloadOctets)%nat || (maximumDatagramBytes <? length output)%nat
      then failure (invalidArgument "RTP packetizer payload accounting differs from final wire bytes")
      else Success (writeU16 output 2 sequenceNumber)
  end.

(** *** A composed packet parses to the planned one *)

(** The planned identity, time and sequence number of a packet. *)
Definition stamped (p : MediaRtpPacket) (identity : MediaRtpDatagramRewriteIdentity)
    (timestamp : MediaRtpTimestamp) (sequenceNumber : Z) : MediaRtpPacket :=
  mkPacket (rp_version p) (rp_marker p) (ri_payloadType identity) sequenceNumber (rt_wire timestamp)
    (ri_ssrc identity) (rp_csrcs p) (rp_extension p) (rp_paddingSize p) (rp_payload p).

Lemma header_split (d : list Z) : (FixedHeaderSize <= length d)%nat ->
  exists b0 b1 b2 b3 b4 b5 b6 b7 b8 b9 b10 b11 rest,
    d = [b0; b1; b2; b3; b4; b5; b6; b7; b8; b9; b10; b11] ++ rest.
Proof.
  unfold FixedHeaderSize. intros H.
  do 12 (destruct d as [| ? d]; [cbn in H; lia |]; cbn [length] in H). cbn. by do 13 eexists.
Qed.

Lemma quarter_ltb a n : (a / 4 <? n)%nat = (a <? n * 4)%nat.
Proof.
  apply eq_true_iff_eq. rewrite !Nat.ltb_lt.
  pose proof (Nat.div_mod_eq a 4). pose proof (Nat.mod_upper_bound a 4). lia.
Qed.

(** The rewriter's walk over the header agrees with the parser's. *)
Lemma payloadOffset_parseBody d offset : Forall (is_u 8) d ->
  payloadOffset d = Success offset ->
  exists csrcs extension, (offset <= length d \/ length d < FixedHeaderSize)%nat /\
  parseBody d =
    let* paddingSize :=
      if negb (Z.land (d !!! 0%nat) 0x20 =? 0) then
        if (default 0 (last d) =? 0) || (Z.of_nat (length d - offset) <? default 0 (last d))
        then malformed "RTP padding length is invalid" else Success (default 0 (last d))
      else Success 0 in
    Success (csrcs, extension, paddingSize, slice d offset (length d - Z.to_nat paddingSize)).
Proof.
  intros Hb. unfold payloadOffset, parseBody, FixedHeaderBytes, FixedHeaderSize. cbn zeta.
  set (count := Z.to_nat (Z.land (d !!! 0%nat) 0x0F)). replace (count * 4)%nat with (4 * count)%nat by lia.
  destruct (Nat.ltb_spec (length d - 12) (4 * count)); [done |].
  destruct (Z.land (d !!! 0%nat) 0x10 =? 0); cbn [negb].
  { intros <-%success_inj. eexists _, _. split; [lia |]. cbn [bindResult]. done. }
  destruct (Nat.ltb_spec (length d - (12 + 4 * count)) 4); [done |].
  assert (Ewords : Z.lor (Z.shiftl (d !!! (12 + 4 * count + 2)%nat) 8) (d !!! (12 + 4 * count + 3)%nat) =
                   readU16 d (12 + 4 * count + 2)).
  { unfold readU16. replace (S (12 + 4 * count + 2)) with (12 + 4 * count + 3)%nat by lia.
    assert (H8 : forall i, (i < length d)%nat -> is_u 8 (d !!! i)) by (intros i Hi; rewrite Forall_lookup_total in Hb; by apply Hb).
    pose proof (H8 (12 + 4 * count + 2)%nat ltac:(lia)). pose proof (H8 (12 + 4 * count + 3)%nat ltac:(lia)).
    rewrite lor_shiftl_add by (ranges; lia). symmetry. apply Z.mod_small. ranges; lia. }
  rewrite Ewords, quarter_ltb. destruct (Nat.ltb_spec (length d - (12 + 4 * count + 4)) (Z.to_nat (readU16 d (12 + 4 * count + 2)) * 4));
    [done |].
  intros <-%success_inj. cbn [bindResult]. eexists _, _.
  split; [lia |]. done.
Qed.

Lemma secondByte_same b pt : is_u 8 b -> Z.land b 0x7F = pt -> u8 (Z.lor (Z.land b 0x80) pt) = b.
Proof.
  intros Hb <-. rewrite <- Z.land_lor_distr_r. change (Z.lor 0x80 0x7F) with (2 ^ 8 - 1).
  rewrite land_mask by lia. unfold u8. rewrite Z.mod_mod by lia. by apply Z.mod_small.
Qed.

Lemma slice_length d i j : (j <= length d)%nat -> length (slice d i j) = (j - i)%nat.
Proof. intros. unfold slice. rewrite length_take, length_drop. lia. Qed.

(** What an accepted datagram is, and what the rewriter makes of it. *)
Lemma rewriteDatagram_success d identity timestamp n out : Forall (is_u 8) d ->
  rewriteDatagram d identity timestamp = (Success n, out) ->
  exists p, parse d = Success p /\ length (rp_payload p) = n /\ rp_payloadType p = ri_payloadType identity /\
    (FixedHeaderSize < length d)%nat /\
    out = writeU32 (writeU32 (<[1%nat := u8 (Z.lor (Z.land (d !!! 1%nat) 0x80) (ri_payloadType identity))]> d) 4 (rt_wire timestamp))
            8 (ri_ssrc identity).
Proof.
  intros Hb. unfold rewriteDatagram, parse, FixedHeaderBytes, FixedHeaderSize.
  destruct (Nat.ltb_spec (length d) 12); [done |].
  destruct (Z.eqb_spec (Z.shiftr (d !!! 0%nat) 6) 2) as [Ev |]; cbn [negb]; [| done]. rewrite Ev.
  destruct (_ && _); [done |].
  destruct (Z.eqb_spec (Z.land (d !!! 1%nat) 0x7F) (ri_payloadType identity)) as [Ept |]; cbn [negb]; [| done].
  destruct (let* offset := _ in _) as [n' | e] eqn:E; [| unfold failure; by destruct (ErrorInfo_ok e)].
  intros [= -> <-]. apply bindResult_success in E as (offset & Eo & E).
  destruct (payloadOffset_parseBody d offset Hb Eo) as (csrcs & extension & Hoff & ->).
  assert (Hcsrc : ((length d - 12) / 4 <? Z.to_nat (Z.land (d !!! 0%nat) 0x0F))%nat = false).
  { rewrite quarter_ltb. unfold payloadOffset, FixedHeaderBytes in Eo.
    by destruct (_ <? _)%nat. }
  rewrite Hcsrc. assert (Hge : (12 <= offset)%nat).
  { unfold payloadOffset, FixedHeaderBytes in Eo. repeat case_match; try done; apply success_inj in Eo; lia. }
  apply bindResult_success in E as (payloadEnd & Ep & E).
  destruct (Nat.leb_spec payloadEnd offset); [done |]. injection E as <-.
  destruct (negb (Z.land (d !!! 0%nat) 32 =? 0)).
  - set (pad := default 0 (last d)) in *. destruct ((pad =? 0) || _) eqn:Epad; [done |]. injection Ep as <-. cbn [bindResult].
    eexists. split_and!; [reflexivity | | done | lia | done]. cbn. apply slice_length. lia.
  - injection Ep as <-. cbn [bindResult]. eexists. split_and!; [reflexivity | | done | lia | done]. cbn.
    rewrite slice_length by lia. lia.
Qed.

(** What goes out on the wire is what was planned: when the composer accepts a
    packetized datagram, both the datagram and the composed one parse, and
    they differ exactly in the planned payload type, SSRC, timestamp and
    sequence number: CSRCs, extension, padding, marker and payload are
    untouched, the payload has the announced size, and the size stays within
    the planned bound. *)
Theorem composed_packet_parses d n identity timestamp seq maximum out :
  Forall (is_u 8) d -> is_u 32 (ri_ssrc identity) -> is_u 32 (rt_wire timestamp) -> is_u 16 seq ->
  compose d n identity timestamp seq maximum = Success out ->
  exists p, parse d = Success p /\ parse out = Success (stamped p identity timestamp seq) /\
    length (rp_payload p) = n /\ length out = length d /\ (length out <= maximum)%nat.
Proof.
  intros Hb Hssrc Hwire Hseq. unfold compose. destruct (_ || _); [done |].
  destruct (rewriteDatagram d identity timestamp) as [[n' | e] output] eqn:Er;
    [| unfold failure; by destruct (ErrorInfo_ok e)].
  destruct (Nat.eqb_spec n' n) as [-> |]; cbn [negb orb]; [| done].
  destruct (Nat.ltb_spec maximum (length output)) as [| Hmax]; [done |]. intros [= <-].
  destruct (rewriteDatagram_success d identity timestamp n output Hb Er) as (p & Ep & Hlen & Hpt & Hd & ->).
  destruct (header_split d ltac:(lia)) as (b0 & b1 & b2 & b3 & b4 & b5 & b6 & b7 & b8 & b9 & b10 & b11 & rest & ->).
  exists p. split; [done |].
  assert (Hrest : rest <> []) by (intros ->; cbn in Hd; unfold FixedHeaderSize in Hd; lia).
  set (w := rt_wire timestamp) in *. set (ss := ri_ssrc identity) in *.
  match goal with |- context [writeU16 ?x 2 seq] => set (out := writeU16 x 2 seq) in *; assert (Hout : length out = length
    ([b0; b1; b2; b3; b4; b5; b6; b7; b8; b9; b10; b11] ++ rest)) by (unfold out, writeU16, writeU32; by rewrite !length_insert) end.
  assert (Hmax' : (length out <= maximum)%nat) by (unfold writeU32 in Hmax; rewrite !length_insert in Hmax; lia).
  split; [| done].
  set (h' := [b0; u8 (Z.lor (Z.land b1 0x80) (ri_payloadType identity)); u8 (Z.shiftr seq 8); u8 seq;
    u8 (Z.shiftr w 24); u8 (Z.shiftr w 16); u8 (Z.shiftr w 8); u8 w;
    u8 (Z.shiftr ss 24); u8 (Z.shiftr ss 16); u8 (Z.shiftr ss 8); u8 ss]).
  assert (Eout : out = h' ++ rest) by reflexivity.
  unfold parse in Ep |- *. rewrite Hout. destruct (_ <? FixedHeaderSize)%nat; [done |].
  assert (E0 : out !!! 0%nat = b0) by reflexivity. rewrite E0.
  change (([b0; b1; b2; b3; b4; b5; b6; b7; b8; b9; b10; b11] ++ rest) !!! 0%nat) with b0 in Ep.
  destruct (negb _); [done |]. destruct (_ <? _)%nat; [done |].
  rewrite Eout, (parseBody_header h' [b0; b1; b2; b3; b4; b5; b6; b7; b8; b9; b10; b11] rest) by done.
  apply bindResult_success in Ep as ([[[csrcs extension] padding] payload] & Eb & Ep). rewrite Eb. cbn [bindResult].
  injection Ep as <-. cbn in Hpt. unfold stamped. cbn. do 2 f_equal.
  - rewrite secondByte_same; [done | | done]. by inversion Hb as [| ?? _ Hb']; inversion Hb'.
  - rewrite secondByte_same; [done | | done]. by inversion Hb as [| ?? _ Hb']; inversion Hb'.
  - exact (join16 seq Hseq).
  - exact (join32 w Hwire).
  - exact (join32 ss Hssrc).
Qed.

(** A datagram with one CSRC, a one-word extension and two bytes of padding. *)
Lemma composed_packet_parses_witness :
  let d := [0xB1; 0xE0; 0; 1; 0; 0; 0; 2; 0; 0; 0; 3;  0; 0; 0; 9;  0xBE; 0xDE; 0; 1; 1; 2; 3; 4;  65; 66; 67; 0; 2] in
  exists p, parse d = Success p /\
    parse (0xB1 :: 0xE0 :: 0x12 :: 0x34 :: 0xFF :: 0xFF :: 0xFF :: 0xFF :: 0 :: 0 :: 0 :: 7 :: drop 12 d) =
      Success (stamped p (mkIdentity 0x60 7) (mkRtpTimestamp 0x1FFFFFFFF 0xFFFFFFFF) 0x1234) /\
    length (rp_payload p) = 3%nat.
Proof.
  intros d.
  destruct (composed_packet_parses d 3 (mkIdentity 0x60 7) (mkRtpTimestamp 0x1FFFFFFFF 0xFFFFFFFF) 0x1234 1400
    (0xB1 :: 0xE0 :: 0x12 :: 0x34 :: 0xFF :: 0xFF :: 0xFF :: 0xFF :: 0 :: 0 :: 0 :: 7 :: drop 12 d)) as (p & H1 & H2 & H3 & _).
  - repeat constructor; lia.
  - cbn; ranges; lia.
  - cbn; ranges; lia.
  - ranges; lia.
  - vm_compute. reflexivity.
  - exists p. exact (conj H1 (conj H2 H3)).
Defined.

End MediaRtpDatagramRewriter.

(** ** MPEG-TS over RTP *)

Module MediaMpegTsRtpPacketizer.
Import MediaRtpBytes MediaRtpPacketParser.
Import MediaRtpOutputClockMapper (MediaRtpTimestamp, rt_wire).

Definition RtpHeaderBytes : nat := 12.
Definition TsPacketBytes : nat := 188.
Definition Mp2tStaticPayloadType : Z := 33.
Definition Mp2tClockRate : Z := 90000.

Record MediaMpegTsRtpPacketizerConfig := mkPacketizerConfig {
  mc_payloadType : Z;
  mc_clockRate : Z;
  mc_ssrc : Z;
  mc_baseTimestamp : Z;
  mc_maximumTsPackets : nat;
  mc_maximumDatagramBytes : nat;
  mc_masterOrigin : Z;
}.

Record Packetizer := mkPacketizer {
  mp_config : MediaMpegTsRtpPacketizerConfig;
  mp_clockMapper : MediaRtpOutputClockMapper.Mapper;
}.

Record MediaMpegTsRtpPacket := mkMp2tPacket {
  mr_datagram : list Z;
  mr_payloadOctets : nat;
  mr_sequenceNumber : Z;
  mr_timestamp : MediaRtpTimestamp;
}.

Definition create (config : MediaMpegTsRtpPacketizerConfig) : Result Packetizer :=
  if negb (mc_payloadType config =? Mp2tStaticPayloadType) || negb (mc_clockRate config =? Mp2tClockRate) ||
     (mc_ssrc config =? 0) || (mc_maximumTsPackets config <? 1)%nat ||
     (mc_maximumDatagramBytes config <? RtpHeaderBytes + TsPacketBytes)%nat ||
     ((mc_maximumDatagramBytes config - RtpHeaderBytes) / TsPacketBytes <? mc_maximumTsPackets config)%nat
  then failure (invalidArgument
    "MP2T RTP packetizer requires complete planner-owned PT 33, 90 kHz, SSRC, sequence, and datagram facts")
  else
    let* mapper := MediaRtpOutputClockMapper.createMapper (mc_clockRate config) (mc_baseTimestamp config)
                     (mc_masterOrigin config) in
    Success (mkPacketizer config mapper).

Definition packetize (completeTsPackets : list Z) (emitOnMaster sequenceNumber : Z) (p : Packetizer) :
    Result MediaMpegTsRtpPacket :=
  let payloadBytes := length completeTsPackets in
  let packetCount := (payloadBytes / TsPacketBytes)%nat in
  if (payloadBytes =? 0)%nat || negb (payloadBytes mod TsPacketBytes =? 0)%nat ||
     (mc_maximumTsPackets (mp_config p) <? packetCount)%nat ||
     (mc_maximumDatagramBytes (mp_config p) - RtpHeaderBytes <? payloadBytes)%nat
  then failure (invalidArgument "MP2T RTP payload must contain one planned batch of complete TS packets")
  else
    let* timestamp := MediaRtpOutputClockMapper.map emitOnMaster (mp_clockMapper p) in
    let datagram0 := replicate (RtpHeaderBytes + payloadBytes) 0 in
    let datagram1 := <[0%nat := 0x80]> datagram0 in
    let datagram2 := <[1%nat := u8 (mc_payloadType (mp_config p))]> datagram1 in
    let datagram3 := writeU16 datagram2 2 sequenceNumber in
    let datagram4 := writeU32 datagram3 4 (rt_wire timestamp) in
    let datagram5 := writeU32 datagram4 8 (mc_ssrc (mp_config p)) in
    let datagram := take RtpHeaderBytes datagram5 ++ completeTsPackets in
    Success (mkMp2tPacket datagram payloadBytes sequenceNumber timestamp).

Lemma map_wire t m r : MediaRtpOutputClockMapper.map t m = Success r -> is_u 32 (rt_wire r).
Proof.
  unfold MediaRtpOutputClockMapper.map. repeat case_match; try done; intros [= <-]; cbn; apply Z.mod_pos_bound; lia.
Qed.

(** A batch of transport packets survives the RTP encapsulation: the datagram
    a created packetizer makes is within the planned size and the RTP parser
    reads it back as a plain version 2 packet of payload type 33 with the
    planned SSRC, the given sequence number, the mapped timestamp and exactly
    the batch as payload. *)
Theorem mp2t_rtp_roundtrip config p ts emitOnMaster seq r :
  is_u 32 (mc_ssrc config) -> is_u 16 seq -> create config = Success p ->
  packetize ts emitOnMaster seq p = Success r ->
  (length (mr_datagram r) <= mc_maximumDatagramBytes config)%nat /\
  parse (mr_datagram r) =
    Success (mkPacket 2 false 33 seq (rt_wire (mr_timestamp r)) (mc_ssrc config) [] None 0 ts).
Proof.
  intros Hssrc Hseq Hc. unfold create in Hc. destruct (_ || _) eqn:Eg in Hc; [done |].
  apply bindResult_success in Hc as (mapper & _ & [= <-]).
  rewrite !orb_false_iff, !negb_false_iff, !Z.eqb_eq, !Nat.ltb_ge in Eg.
  destruct Eg as [[[[[Ept _] _] _] Hmax] _]. unfold RtpHeaderBytes, TsPacketBytes in Hmax.
  unfold packetize. cbn [mp_config mp_clockMapper]. destruct (_ || _) eqn:E; [done |].
  rewrite !orb_false_iff, !Nat.ltb_ge in E. destruct E as [_ Hsize]. unfold RtpHeaderBytes in Hsize.
  intros (timestamp & Et & <-%success_inj)%bindResult_success. cbn [mr_datagram mr_timestamp].
  pose proof (map_wire _ _ _ Et) as Hwire. rewrite Ept.
  set (w := rt_wire timestamp) in *. set (ss := mc_ssrc config) in *.
  set (h := [0x80; 33; u8 (Z.shiftr seq 8); u8 seq; u8 (Z.shiftr w 24); u8 (Z.shiftr w 16); u8 (Z.shiftr w 8); u8 w;
    u8 (Z.shiftr ss 24); u8 (Z.shiftr ss 16); u8 (Z.shiftr ss 8); u8 ss]).
  assert (Eh : take RtpHeaderBytes (writeU32 (writeU32 (writeU16 (<[1%nat := u8 Mp2tStaticPayloadType]>
    (<[0%nat := 128]> (replicate (RtpHeaderBytes + length ts) 0))) 2 seq) 4 w) 8 ss) = h) by reflexivity.
  rewrite Eh. split; [rewrite length_app; cbn; lia |].
  assert (Eb : parseBody (h ++ ts) = Success ([], None, 0, ts)).
  { unfold parseBody. change ((h ++ ts) !!! 0%nat) with 0x80. change (Z.land 0x80 0x20 =? 0) with true.
    change (Z.land 0x80 0x10 =? 0) with true. change (Z.to_nat (Z.land 0x80 0x0F)) with 0%nat.
    cbn [negb readCsrcs bindResult]. do 2 f_equal. unfold slice. change (Z.to_nat 0) with 0%nat.
    change (drop (FixedHeaderSize + 4 * 0) (h ++ ts)) with ts. apply take_ge. rewrite length_app. cbn. lia. }
  unfold parse. rewrite Eb. change ((h ++ ts) !!! 0%nat) with 0x80. change ((h ++ ts) !!! 1%nat) with 33.
  change (Z.to_nat (Z.land 0x80 0x0F)) with 0%nat. change (Z.shiftr 0x80 6) with 2.
  replace (_ <? FixedHeaderSize)%nat with false by (symmetry; apply Nat.ltb_ge; rewrite length_app; unfold FixedHeaderSize; cbn; lia).
  cbn [Z.eqb Pos.eqb negb Nat.ltb Nat.leb bindResult]. do 2 f_equal.
  - exact (join16 seq Hseq).
  - exact (join32 w Hwire).
  - exact (join32 ss Hssrc).
Qed.

Definition samplePacketizerConfig : MediaMpegTsRtpPacketizerConfig :=
  mkPacketizerConfig 33 90000 77 1000 7 1400 0.

Lemma mp2t_rtp_roundtrip_witness :
  let ts := replicate 376 0x47 in
  let p := mkPacketizer samplePacketizerConfig (MediaRtpOutputClockMapper.mkMapper 90000 1000 0) in
  exists r, packetize ts 2000000000 65535 p = Success r /\
    parse (mr_datagram r) = Success (mkPacket 2 false 33 65535 181000 77 [] None 0 ts).
Proof.
  intros ts p. eexists. split; [reflexivity |].
  refine (proj2 (mp2t_rtp_roundtrip samplePacketizerConfig p ts 2000000000 65535 _ _ _ _ _)).
  - cbn; ranges; lia.
  - ranges; lia.
  - reflexivity.
  - reflexivity.
Defined.

End MediaMpegTsRtpPacketizer.
