(* ===== verification/RtpReorder.v ===== *)
(** * The RTP reorder buffer

    Models [protocol/rtp/MediaRtpReorderBuffer.{h,cpp}].  Packets of one
    payload type and SSRC are put back into sequence order; a gap is given up
    when the window is full or the oldest packet waited too long.

    [std::map<uint16_t, Entry>] is a [gmap]; the two [std::min_element] calls
    do not depend on the order of iteration, since distinct sequence numbers
    have distinct distances and only the time of the oldest entry is used.
    Points and durations of the steady clock are nanoseconds; their sum is
    taken as exact. *)

From stdpp Require Import gmap.
From S2P Require Import Prelude MediaResult CheckedArithmetic Model TimeBase RtpWire.
Import MediaRtpPacketParser.

Local Open Scope Z_scope.

Module MediaRtpReorderBuffer.

Inductive MediaRtpDiscontinuityReason := SequenceGap | SsrcChanged | PayloadTypeChanged.

Record MediaRtpDiscontinuity := mkDiscontinuity {
  di_reason : MediaRtpDiscontinuityReason;
  di_firstMissingSequence : Z;
  di_resumedSequence : Z;
}.

Record MediaRtpReorderConfig := mkReorderConfig {
  rc_windowPackets : nat;
  rc_maximumDelay : Z;
  rc_payloadType : Z;
}.

Record MediaRtpReorderResult := mkReorderResult {
  rr_packets : list MediaRtpPacket;
  rr_discontinuities : list MediaRtpDiscontinuity;
  rr_duplicate : bool;
}.

Record Entry := mkEntry { en_packet : MediaRtpPacket; en_receivedAt : Z }.

Record Buffer := mkBuffer {
  rb_config : MediaRtpReorderConfig;
  rb_expected : option Z;
  rb_ssrc : option Z;
  rb_pending : gmap Z Entry;
}.

Definition create (config : MediaRtpReorderConfig) : Buffer := mkBuffer config None None ∅.

(** [static_cast<int16_t>(value - base)]. *)
Definition sequenceDistance (value base : Z) : Z :=
  let d := u16 (value - base) in if d <? 2 ^ 15 then d else d - 2 ^ 16.

(** [std::min_element] with a comparison by [key]: the first smallest. *)
Definition minElement {A} (key : A -> Z) (l : list A) : option A :=
  foldl (fun best x => match best with
                       | None => Some x
                       | Some b => if key x <? key b then Some x else Some b
                       end) None l.

Definition nearestPending (expected : Z) (pending : gmap Z Entry) : option (Z * Entry) :=
  minElement (fun e => sequenceDistance e.1 expected) (map_to_list pending).

Definition nextDeadline (b : Buffer) : option Z :=
  match rb_expected b with
  | None => None
  | Some _ =>
      if bool_decide (rb_pending b = ∅) || (rc_maximumDelay (rb_config b) <=? 0) then None
      else (fun e => en_receivedAt e.2 + rc_maximumDelay (rb_config b)) <$>
             minElement (fun e => en_receivedAt e.2) (map_to_list (rb_pending b))
  end.

(** The loop of [drainContiguous]: every turn erases an entry, so as many turns
    as there are entries are enough. *)
Fixpoint drainLoop (fuel : nat) (expected : Z) (pending : gmap Z Entry) : list MediaRtpPacket * Z * gmap Z Entry :=
  match fuel with
  | O => ([], expected, pending)
  | S fuel' =>
      match pending !! expected with
      | None => ([], expected, pending)
      | Some found =>
          let '(packets, expected', pending') := drainLoop fuel' (u16 (expected + 1)) (delete expected pending) in
          (en_packet found :: packets, expected', pending')
      end
  end.

Definition drainContiguous (result : MediaRtpReorderResult) (b : Buffer) : MediaRtpReorderResult * Buffer :=
  match rb_expected b with
  | None => (result, b)
  | Some expected =>
      let '(packets, expected', pending') := drainLoop (size (rb_pending b)) expected (rb_pending b) in
      (mkReorderResult (rr_packets result ++ packets) (rr_discontinuities result) (rr_duplicate result),
       mkBuffer (rb_config b) (Some expected') (rb_ssrc b) pending')
  end.

Definition addDiscontinuity (d : MediaRtpDiscontinuity) (r : MediaRtpReorderResult) : MediaRtpReorderResult :=
  mkReorderResult (rr_packets r) (rr_discontinuities r ++ [d]) (rr_duplicate r).

Definition emptyResult : MediaRtpReorderResult := mkReorderResult [] [] false.

(** Give up the gap before the nearest pending packet. *)
Definition skipGap (result : MediaRtpReorderResult) (b : Buffer) : MediaRtpReorderResult * Buffer :=
  match rb_expected b with
  | None => (result, b)
  | Some expected =>
      match nearestPending expected (rb_pending b) with
      | None => (result, b)
      | Some nearest =>
          drainContiguous (addDiscontinuity (mkDiscontinuity SequenceGap expected nearest.1) result)
            (mkBuffer (rb_config b) (Some nearest.1) (rb_ssrc b) (rb_pending b))
      end
  end.

Definition policyError : ErrorInfo := invalidArgument "RTP reorder policy must be explicit and positive".

Definition policyInvalid (c : MediaRtpReorderConfig) : bool :=
  Nat.eqb (rc_windowPackets c) 0 || (rc_maximumDelay c <=? 0).

Definition expire (now : Z) (b : Buffer) : Result MediaRtpReorderResult * Buffer :=
  if policyInvalid (rb_config b) then (failure policyError, b)
  else match nextDeadline b with
  | None => (Success emptyResult, b)
  | Some deadline =>
      if now <? deadline then (Success emptyResult, b)
      else let '(r, b') := skipGap emptyResult b in (Success r, b')
  end.

Definition push (packet : MediaRtpPacket) (receivedAt : Z) (b : Buffer) : Result MediaRtpReorderResult * Buffer :=
  if policyInvalid (rb_config b) then (failure policyError, b)
  else if negb (rp_payloadType packet =? rc_payloadType (rb_config b))
  then (Success (addDiscontinuity (mkDiscontinuity PayloadTypeChanged (rp_sequenceNumber packet)
                                     (rp_sequenceNumber packet)) emptyResult), b)
  else
    let changed := match rb_ssrc b with Some s => negb (s =? rp_ssrc packet) | None => false end in
    let result := if changed
                  then addDiscontinuity (mkDiscontinuity SsrcChanged (rp_sequenceNumber packet)
                                           (rp_sequenceNumber packet)) emptyResult
                  else emptyResult in
    let b1 := mkBuffer (rb_config b)
                (if changed then Some (rp_sequenceNumber packet) else rb_expected b) (Some (rp_ssrc packet))
                (if changed then ∅ else rb_pending b) in
    let expected := default (rp_sequenceNumber packet) (rb_expected b1) in
    let b2 := mkBuffer (rb_config b1) (Some expected) (rb_ssrc b1) (rb_pending b1) in
    let distance := sequenceDistance (rp_sequenceNumber packet) expected in
    if (distance <? 0) || bool_decide (is_Some (rb_pending b2 !! rp_sequenceNumber packet))
    then (Success (mkReorderResult (rr_packets result) (rr_discontinuities result) true), b2)
    else
      let b3 := mkBuffer (rb_config b2) (rb_expected b2) (rb_ssrc b2)
                  (<[rp_sequenceNumber packet := mkEntry packet receivedAt]> (rb_pending b2)) in
      let '(r4, b4) := drainContiguous result b3 in
      let '(r5, b5) :=
        if negb (bool_decide (rb_pending b4 = ∅)) && (rc_windowPackets (rb_config b4) <? size (rb_pending b4))%nat
        then skipGap r4 b4 else (r4, b4) in
      match expire receivedAt b5 with
      | (Failure e, b6) => (Failure e, b6)
      | (Success expired, b6) =>
          (Success (mkReorderResult (rr_packets r5 ++ rr_packets expired)
                      (rr_discontinuities r5 ++ rr_discontinuities expired) (rr_duplicate r5)), b6)
      end.

Definition reset (b : Buffer) : Buffer := mkBuffer (rb_config b) None None ∅.

(** ** Accounting for sequence numbers *)

(** From expected number [e] to [e']: every number on the way is delivered, in
    order, or lies in a reported gap. *)
Inductive accounted : Z -> list Z -> list MediaRtpDiscontinuity -> Z -> Prop :=
  | acc_end e : accounted e [] [] e
  | acc_packet e ps ds e' : accounted (u16 (e + 1)) ps ds e' -> accounted e (e :: ps) ds e'
  | acc_gap e r ps ds e' : 0 < sequenceDistance r e -> accounted r ps ds e' ->
      accounted e ps (mkDiscontinuity SequenceGap e r :: ds) e'.

Lemma accounted_app e ps1 ds1 e1 ps2 ds2 e2 :
  accounted e ps1 ds1 e1 -> accounted e1 ps2 ds2 e2 -> accounted e (ps1 ++ ps2) (ds1 ++ ds2) e2.
Proof. induction 1; intros; cbn; [done | constructor; auto | constructor; auto]. Qed.

Definition entries (pending : gmap Z Entry) : list MediaRtpPacket := en_packet ∘ snd <$> map_to_list pending.

(** The pending packets are filed under their number, at most half the number
    space ahead of the expected one. *)
Definition ahead (e : Z) (pending : gmap Z Entry) : Prop :=
  forall k x, pending !! k = Some x -> is_u 16 k /\ rp_sequenceNumber (en_packet x) = k /\ 0 <= sequenceDistance k e.

Lemma distance_step k e m : 0 <= m <= sequenceDistance k e -> sequenceDistance k (u16 (e + m)) = sequenceDistance k e - m.
Proof.
  unfold sequenceDistance, u16. intros H.
  assert (Hd : (k - e) mod 2 ^ 16 < 2 ^ 15) by (destruct (Z.ltb_spec ((k - e) mod 2 ^ 16) (2 ^ 15)); [done |];
    pose proof (Z.mod_pos_bound (k - e) (2 ^ 16) ltac:(lia)); lia).
  destruct (Z.ltb_spec ((k - e) mod 2 ^ 16) (2 ^ 15)); [| lia].
  assert (E : (k - (e + m) mod 2 ^ 16) mod 2 ^ 16 = (k - e) mod 2 ^ 16 - m).
  { rewrite Zminus_mod_idemp_r. pose proof (Z.mod_pos_bound (k - e) (2 ^ 16) ltac:(lia)).
    symmetry. apply Z.mod_unique_pos with ((k - e) / 2 ^ 16); [lia |]. pose proof (Z.div_mod (k - e) (2 ^ 16)). lia. }
  rewrite E. destruct (Z.ltb_spec ((k - e) mod 2 ^ 16 - m) (2 ^ 15)); lia.
Qed.

Lemma distance_zero k e : is_u 16 k -> is_u 16 e -> sequenceDistance k e = 0 -> k = e.
Proof. unfold sequenceDistance, u16. intros Hk He. destruct (_ <? _); intros H; divmod. Qed.

Lemma distance_self e : sequenceDistance e e = 0.
Proof. unfold sequenceDistance. by rewrite Z.sub_diag. Qed.

Lemma distance_forward r e : is_u 16 r -> 0 <= sequenceDistance r e -> r = u16 (e + sequenceDistance r e).
Proof.
  unfold sequenceDistance, u16. intros Hr. pose proof (Z.mod_pos_bound (r - e) (2 ^ 16) ltac:(lia)).
  destruct (Z.ltb_spec ((r - e) mod 2 ^ 16) (2 ^ 15)); [| lia]. intros _.
  rewrite Zplus_mod_idemp_r. replace (e + (r - e)) with r by lia. symmetry. by apply Z.mod_small.
Qed.

(** ** The steps *)

(** What a step from [(e, pending)] to [(e', pending')] delivered. *)
Record delivers (e : Z) (pending : gmap Z Entry) (ps : list MediaRtpPacket) (ds : list MediaRtpDiscontinuity)
    (e' : Z) (pending' : gmap Z Entry) : Prop := {
  dv_accounted : accounted e (rp_sequenceNumber <$> ps) ds e';
  dv_conserved : entries pending ≡ₚ ps ++ entries pending';
  dv_ahead : ahead e' pending';
  dv_expected : is_u 16 e';
}.

Lemma delivers_nothing e pending : ahead e pending -> is_u 16 e -> delivers e pending [] [] e pending.
Proof. intros. split; [constructor | done | done | done]. Qed.

Lemma delivers_trans e p ps1 ds1 e1 p1 ps2 ds2 e2 p2 :
  delivers e p ps1 ds1 e1 p1 -> delivers e1 p1 ps2 ds2 e2 p2 -> delivers e p (ps1 ++ ps2) (ds1 ++ ds2) e2 p2.
Proof.
  intros [A1 C1 _ _] [A2 C2 H2 U2]. split; [| | done | done].
  - rewrite fmap_app. by eapply accounted_app.
  - by rewrite C1, C2, (assoc_L (++)).
Qed.

Lemma u16_range z : is_u 16 (u16 z).
Proof. apply Z.mod_pos_bound. lia. Qed.

Lemma ahead_advance e pending : ahead e pending -> is_u 16 e -> ahead (u16 (e + 1)) (delete e pending).
Proof.
  intros Ha He k x [Hne Hk]%lookup_delete_Some. destruct (Ha k x Hk) as (Hu & Es & Hd). split_and!; [done | done |].
  assert (sequenceDistance k e <> 0) by (intros H0; apply distance_zero in H0; congruence).
  rewrite distance_step by lia. lia.
Qed.

Lemma entries_delete e pending x : pending !! e = Some x -> entries pending ≡ₚ en_packet x :: entries (delete e pending).
Proof. intros H. unfold entries. rewrite <- (map_to_list_delete pending e x) by done. done. Qed.

Lemma drainLoop_spec fuel e pending : (size pending <= fuel)%nat -> ahead e pending -> is_u 16 e ->
  let '(ps, e', pending') := drainLoop fuel e pending in
  delivers e pending ps [] e' pending' /\ pending' !! e' = None /\ (size pending' <= size pending)%nat /\
  (is_Some (pending !! e) -> (size pending' < size pending)%nat).
Proof.
  revert e pending. induction fuel as [| fuel IH]; intros e pending Hf Ha He; cbn.
  { assert (pending = ∅) as -> by (apply map_size_empty_inv; lia).
    split_and!; [by apply delivers_nothing | apply lookup_empty | done |]. rewrite lookup_empty. by intros [? ?]. }
  destruct (pending !! e) as [x |] eqn:Ex; cycle 1.
  { split_and!; [by apply delivers_nothing | done | done |]. by intros [? ?]. }
  assert (Hsize : size pending = S (size (delete e pending))).
  { rewrite map_size_delete_Some by eauto. destruct (size pending) eqn:E0; [| done].
    apply map_size_empty_inv in E0. subst. by rewrite lookup_empty in Ex. }
  pose proof (IH (u16 (e + 1)) (delete e pending) ltac:(lia) (ahead_advance e pending Ha He) (u16_range _)) as IH'.
  destruct (drainLoop fuel (u16 (e + 1)) (delete e pending)) as [[ps e'] pending'].
  destruct IH' as ([A C H U] & Hn & Hs & _). split_and!; [| done | lia | intros _; lia].
  split; [| | done | done].
  - cbn. destruct (Ha e x Ex) as (_ & -> & _). by constructor.
  - rewrite (entries_delete e pending x Ex), C. done.
Qed.

Lemma minElement_loop {A} (key : A -> Z) l best :
  exists x, foldl (fun best x => match best with None => Some x | Some b => if key x <? key b then Some x else Some b end)
    (Some best) l = Some x /\ (x = best \/ x ∈ l) /\ key x <= key best /\ forall y, y ∈ l -> key x <= key y.
Proof.
  revert best. induction l as [| a l IH]; intros best; cbn.
  { exists best. split_and!; [done | by left | lia |]. by intros ? ?%elem_of_nil. }
  destruct (Z.ltb_spec (key a) (key best)); [destruct (IH a) as (x & E & Hx & Hb & Hall) | destruct (IH best) as (x & E & Hx & Hb & Hall)];
    exists x; (split_and!; [done | set_solver | lia |]); intros y [-> | Hy]%elem_of_cons; solve [lia | auto].
Qed.

Lemma minElement_spec {A} (key : A -> Z) l : l <> [] ->
  exists x, minElement key l = Some x /\ x ∈ l /\ forall y, y ∈ l -> key x <= key y.
Proof.
  destruct l as [| a l]; [done |]. intros _. unfold minElement. cbn.
  destruct (minElement_loop key l a) as (x & E & Hx & Hb & Hall). exists x. split_and!; [done | set_solver |].
  intros y [-> | Hy]%elem_of_cons; auto.
Qed.

(** The state between two operations, without the bound on the window. *)
Definition waiting (e : Z) (b : Buffer) : Prop :=
  rb_expected b = Some e /\ is_u 16 e /\ ahead e (rb_pending b) /\ rb_pending b !! e = None.

(** [r'] is [r] with more packets and discontinuities, which lead from [(e, pending)] to [b']. *)
Definition extended (e : Z) (pending : gmap Z Entry) (b : Buffer) (r r' : MediaRtpReorderResult) (b' : Buffer) : Prop :=
  exists ps ds e', rr_packets r' = rr_packets r ++ ps /\ rr_discontinuities r' = rr_discontinuities r ++ ds /\
    rr_duplicate r' = rr_duplicate r /\ rb_config b' = rb_config b /\ rb_ssrc b' = rb_ssrc b /\
    waiting e' b' /\ delivers e pending ps ds e' (rb_pending b').

Lemma drain_extends e r b : rb_expected b = Some e -> is_u 16 e -> ahead e (rb_pending b) ->
  let '(r', b') := drainContiguous r b in
  extended e (rb_pending b) b r r' b' /\ (size (rb_pending b') <= size (rb_pending b))%nat /\
  (is_Some (rb_pending b !! e) -> (size (rb_pending b') < size (rb_pending b))%nat).
Proof.
  intros Ee He Ha. unfold drainContiguous. rewrite Ee.
  pose proof (drainLoop_spec (size (rb_pending b)) e (rb_pending b) ltac:(lia) Ha He) as H.
  destruct (drainLoop _ _ _) as [[ps e'] pending']. destruct H as (Hd & Hn & Hs & Hlt). cbn.
  split_and!; [| done | done]. exists ps, [], e'. rewrite app_nil_r. split_and!; try done. split_and!; try done; apply Hd.
Qed.

Lemma skip_extends e r b : waiting e b -> rb_pending b <> ∅ ->
  let '(r', b') := skipGap r b in
  extended e (rb_pending b) b r r' b' /\ (size (rb_pending b') < size (rb_pending b))%nat.
Proof.
  intros (Ee & He & Ha & Hn) Hne. unfold skipGap, nearestPending. rewrite Ee.
  destruct (minElement_spec (fun x => sequenceDistance x.1 e) (map_to_list (rb_pending b))) as ([k x] & Emin & Hk & Hall).
  { intros E. apply Hne. by apply map_to_list_empty_iff. }
  rewrite Emin. cbn [fst]. apply elem_of_map_to_list in Hk. destruct (Ha k x Hk) as (Hu & Es & Hd).
  assert (Hpos : 0 < sequenceDistance k e).
  { assert (sequenceDistance k e <> 0) by (intros H0; apply distance_zero in H0; congruence). lia. }
  assert (Ha' : ahead k (rb_pending b)).
  { intros j y Hj. destruct (Ha j y Hj) as (Huj & Ej & Hdj). split_and!; [done | done |].
    specialize (Hall (j, y) ltac:(by apply elem_of_map_to_list)). cbn in Hall.
    rewrite (distance_forward k e Hu Hd), distance_step by lia. lia. }
  pose proof (drain_extends k (addDiscontinuity (mkDiscontinuity SequenceGap e k) r)
    (mkBuffer (rb_config b) (Some k) (rb_ssrc b) (rb_pending b)) eq_refl Hu Ha') as H.
  destruct (drainContiguous _ _) as [r' b']. destruct H as ((ps & ds & e' & Ep & Eds & Edu & Ec & Es' & Hw & Hdel) & Hs & Hlt).
  cbn in *. split; [| apply Hlt; eauto]. exists ps, (mkDiscontinuity SequenceGap e k :: ds), e'. split_and!; try done.
  - by rewrite Eds, <- (assoc_L (++)).
  - destruct Hdel as [A C H U]. split; try done. by apply acc_gap.
Qed.

Lemma expire_extends e now b : policyInvalid (rb_config b) = false -> waiting e b ->
  exists r' b', expire now b = (Success r', b') /\ extended e (rb_pending b) b emptyResult r' b' /\
    (size (rb_pending b') <= size (rb_pending b))%nat.
Proof.
  intros Hp Hw. unfold expire. rewrite Hp.
  assert (Hstay : extended e (rb_pending b) b emptyResult emptyResult b).
  { exists [], [], e. split_and!; try done. destruct Hw as (_ & He & Ha & _). by apply delivers_nothing. }
  destruct (nextDeadline b) as [deadline |] eqn:Ed; [| by exists emptyResult, b].
  destruct (now <? deadline); [by exists emptyResult, b |].
  assert (Hne : rb_pending b <> ∅).
  { intros E. unfold nextDeadline in Ed. destruct (rb_expected b); [| done]. rewrite bool_decide_eq_true_2 in Ed by done. done. }
  pose proof (skip_extends e emptyResult b Hw Hne) as H. destruct (skipGap emptyResult b) as [r' b'].
  exists r', b'. destruct H. split_and!; [done | done | lia].
Qed.

Lemma extended_trans e pending b r r1 b1 e1 r2 b2 :
  extended e pending b r r1 b1 -> waiting e1 b1 -> extended e1 (rb_pending b1) b1 r1 r2 b2 -> extended e pending b r r2 b2.
Proof.
  intros (ps & ds & e' & P1 & D1 & U1 & C1 & S1 & W1 & L1) W (ps2 & ds2 & e2 & P2 & D2 & U2 & C2 & S2 & W2 & L2).
  assert (e' = e1) as -> by (destruct W1 as [W1 _], W as [W _]; congruence).
  exists (ps ++ ps2), (ds ++ ds2), e2. rewrite P2, D2, P1, D1, !(assoc_L (++)). split_and!; try done; try congruence.
  by eapply delivers_trans.
Qed.

(** ** One stream *)

(** The packets of stream [ssrc], and a buffer that serves it. *)
Definition inStream (config : MediaRtpReorderConfig) (ssrc : Z) (p : MediaRtpPacket) : Prop :=
  rp_payloadType p = rc_payloadType config /\ rp_ssrc p = ssrc /\ is_u 16 (rp_sequenceNumber p).

Record serving (config : MediaRtpReorderConfig) (ssrc : Z) (b : Buffer) : Prop := {
  sv_config : rb_config b = config;
  sv_ssrc : rb_ssrc b = None \/ rb_ssrc b = Some ssrc;
  sv_state : match rb_expected b with None => rb_pending b = ∅ | Some e => waiting e b end;
  sv_window : (size (rb_pending b) <= rc_windowPackets config)%nat;
}.

Lemma entries_insert k x pending : pending !! k = None -> entries (<[k := x]> pending) ≡ₚ en_packet x :: entries pending.
Proof. intros H. unfold entries. by rewrite map_to_list_insert by done. Qed.

(** A packet that is filed: the buffer drains, gives up a gap when the window is
    exceeded, and expires. *)
Lemma file_extends config ssrc e t b :
  policyInvalid config = false -> rb_config b = config -> rb_expected b = Some e -> is_u 16 e ->
  ahead e (rb_pending b) -> (size (rb_pending b) <= S (rc_windowPackets config))%nat -> rb_ssrc b = Some ssrc ->
  let '(r4, b4) := drainContiguous emptyResult b in
  let '(r5, b5) :=
    if negb (bool_decide (rb_pending b4 = ∅)) && (rc_windowPackets (rb_config b4) <? size (rb_pending b4))%nat
    then skipGap r4 b4 else (r4, b4) in
  exists expired b6, expire t b5 = (Success expired, b6) /\ serving config ssrc b6 /\ rr_duplicate r5 = false /\
    exists e', rb_expected b6 = Some e' /\
      delivers e (rb_pending b) (rr_packets r5 ++ rr_packets expired)
        (rr_discontinuities r5 ++ rr_discontinuities expired) e' (rb_pending b6).
Proof.
  intros Hpol Hc He Hu Ha Hsize Hs.
  pose proof (drain_extends e emptyResult b He Hu Ha) as H4. destruct (drainContiguous emptyResult b) as [r4 b4].
  destruct H4 as (X4 & Hs4 & _). destruct X4 as (ps4 & ds4 & e4 & P4 & D4 & U4 & C4 & S4 & W4 & L4).
  assert (X4 : extended e (rb_pending b) b emptyResult r4 b4) by (exists ps4, ds4, e4; by split_and!).
  match goal with |- context [if ?c then skipGap r4 b4 else ?x] =>
    destruct (if c then skipGap r4 b4 else x) as [r5 b5] eqn:E5 end.
  assert (H5 : extended e (rb_pending b) b emptyResult r5 b5 /\ (size (rb_pending b5) <= rc_windowPackets config)%nat).
  { destruct (_ && _) eqn:Eg in E5.
    - apply andb_true_iff in Eg as [Hne _]. apply negb_true_iff, bool_decide_eq_false in Hne.
      pose proof (skip_extends e4 r4 b4 W4 Hne) as H. rewrite E5 in H. destruct H as [X5 Hlt].
      split; [by eapply extended_trans | lia].
    - injection E5 as <- <-. split; [done |]. rewrite C4, Hc in Eg. apply andb_false_iff in Eg as [Eg | Eg].
      + apply negb_false_iff, bool_decide_eq_true in Eg. rewrite Eg, map_size_empty. lia.
      + by apply Nat.ltb_ge in Eg. }
  destruct H5 as [X5 Hw5]. destruct X5 as (ps5 & ds5 & e5 & P5 & D5 & U5 & C5 & S5 & W5 & L5). cbn in P5, D5, U5.
  destruct (expire_extends e5 t b5 ltac:(by rewrite C5, Hc) W5) as (expired & b6 & E6 & X6 & Hs6).
  destruct X6 as (ps6 & ds6 & e6 & P6 & D6 & U6 & C6 & S6 & W6 & L6). cbn in P6, D6.
  exists expired, b6. split; [done |]. split.
  { split; [congruence | right; congruence | | lia]. destruct W6 as (Ee6 & W6). rewrite Ee6. by split. }
  split; [done |]. exists e6. split; [apply W6 |]. rewrite P5, D5, P6, D6. by eapply delivers_trans.
Qed.

Lemma push_serving config ssrc p t b : policyInvalid config = false -> serving config ssrc b -> inStream config ssrc p ->
  exists r b' e', push p t b = (Success r, b') /\ serving config ssrc b' /\ rb_expected b' = Some e' /\
    accounted (default (rp_sequenceNumber p) (rb_expected b)) (rp_sequenceNumber <$> rr_packets r) (rr_discontinuities r) e' /\
    (if rr_duplicate r then [] else [p]) ++ entries (rb_pending b) ≡ₚ rr_packets r ++ entries (rb_pending b') /\
    (rb_expected b = None -> rr_duplicate r = false).
Proof.
  intros Hpol [Hc Hs Hst Hw] (Hpt & Hss & Hseq). unfold push. rewrite Hc, Hpol, Hpt, Z.eqb_refl. cbn [negb].
  assert (Hch : match rb_ssrc b with Some s => negb (s =? rp_ssrc p) | None => false end = false)
    by (destruct Hs as [-> | ->]; [done |]; by rewrite Hss, Z.eqb_refl).
  rewrite Hch. cbn [rb_expected rb_pending rb_config rb_ssrc]. set (seq := rp_sequenceNumber p) in *.
  set (e := default seq (rb_expected b)).
  assert (He : is_u 16 e /\ ahead e (rb_pending b) /\ (rb_expected b = None -> rb_pending b = ∅) /\ rb_pending b !! e = None).
  { unfold e. destruct (rb_expected b) as [e0 |] eqn:Ee; cbn.
    - destruct Hst as (_ & Hu & Ha & Hn). by split_and!.
    - rewrite Hst. split_and!; [done | | done | apply lookup_empty]. intros k x. by rewrite lookup_empty. }
  destruct He as (Hu & Ha & Hfresh & Hne). destruct (_ || _) eqn:Edup.
  - eexists _, _, e. split; [reflexivity |]. cbn. split_and!; [| done | constructor | done |].
    + split; cbn; [done | right; by f_equal | by split_and! | done].
    + intros E. unfold e in Edup. rewrite E in Edup. cbn in Edup. rewrite distance_self in Edup.
      rewrite (Hfresh E), lookup_empty in Edup. by rewrite bool_decide_eq_false_2 in Edup by (by intros [? ?]).
  - rewrite orb_false_iff, Z.ltb_ge, bool_decide_eq_false, <- eq_None_not_Some in Edup. destruct Edup as [Hd Hnone].
    assert (Ha' : ahead e (<[seq := mkEntry p t]> (rb_pending b))).
    { intros k x [[<- <-] | [_ Hk]]%lookup_insert_Some; [by split_and! | by apply Ha]. }
    pose proof (file_extends config ssrc e t
      (mkBuffer config (Some e) (Some (rp_ssrc p)) (<[seq := mkEntry p t]> (rb_pending b))) Hpol eq_refl eq_refl Hu Ha') as H.
    cbn [rb_pending rb_ssrc] in H. rewrite map_size_insert_None in H by done. specialize (H ltac:(lia) ltac:(by f_equal)).
    destruct (drainContiguous _ _) as [r4 b4].
    match goal with |- context [if ?c then skipGap r4 b4 else ?x] =>
      destruct (if c then skipGap r4 b4 else x) as [r5 b5] end.
    destruct H as (expired & b6 & -> & Hsv & Hdup & e' & Ee' & [A C _ _]). cbn in C.
    eexists _, b6, e'. split; [reflexivity |]. cbn. rewrite Hdup. split_and!; try done.
    rewrite <- C. by rewrite entries_insert by done.
Qed.

(** ** Schedules *)

Inductive Call := Push (p : MediaRtpPacket) (receivedAt : Z) | Expire (now : Z).

Record Outcome := mkOutcome {
  oc_packets : list MediaRtpPacket;
  oc_discontinuities : list MediaRtpDiscontinuity;
  oc_accepted : list MediaRtpPacket;
}.

Definition perform (c : Call) (b : Buffer) : Outcome * Buffer :=
  let '(r, b', offered) := match c with
                           | Push p t => (push p t b, [p])
                           | Expire t => (expire t b, [])
                           end in
  (match r with
   | Success r => mkOutcome (rr_packets r) (rr_discontinuities r) (if rr_duplicate r then [] else offered)
   | Failure _ => mkOutcome [] [] []
   end, b').

Fixpoint run (cs : list Call) (b : Buffer) : Outcome * Buffer :=
  match cs with
  | [] => (mkOutcome [] [] [], b)
  | c :: cs' =>
      let '(o1, b1) := perform c b in
      let '(o2, b2) := run cs' b1 in
      (mkOutcome (oc_packets o1 ++ oc_packets o2) (oc_discontinuities o1 ++ oc_discontinuities o2)
         (oc_accepted o1 ++ oc_accepted o2), b2)
  end.

Definition callInStream (config : MediaRtpReorderConfig) (ssrc : Z) (c : Call) : Prop :=
  match c with Push p _ => inStream config ssrc p | Expire _ => True end.

(** The run from a buffer that already expects a number. *)
Lemma run_waiting config ssrc cs b e : policyInvalid config = false -> serving config ssrc b -> rb_expected b = Some e ->
  Forall (callInStream config ssrc) cs ->
  let '(o, b') := run cs b in
  serving config ssrc b' /\
  (exists e', rb_expected b' = Some e' /\ accounted e (rp_sequenceNumber <$> oc_packets o) (oc_discontinuities o) e') /\
  oc_accepted o ++ entries (rb_pending b) ≡ₚ oc_packets o ++ entries (rb_pending b').
Proof.
  intros Hpol. revert b e. induction cs as [| c cs IH]; intros b e Hsv Ee Hcs; cbn.
  { split_and!; [done | | done]. exists e. split; [done | constructor]. }
  apply Forall_cons in Hcs as [Hc Hcs].
  assert (Hstep : exists o1 b1 e1, perform c b = (o1, b1) /\ serving config ssrc b1 /\ rb_expected b1 = Some e1 /\
    accounted e (rp_sequenceNumber <$> oc_packets o1) (oc_discontinuities o1) e1 /\
    oc_accepted o1 ++ entries (rb_pending b) ≡ₚ oc_packets o1 ++ entries (rb_pending b1)).
  { destruct c as [p t | t]; unfold perform.
    - destruct (push_serving config ssrc p t b Hpol Hsv Hc) as (r & b1 & e1 & -> & Hsv1 & Ee1 & Ha & Hp & _).
      rewrite Ee in Ha. eexists _, b1, e1. by split_and!.
    - destruct Hsv as [Hcfg Hs Hst Hw]. pose proof Hst as Hst'. rewrite Ee in Hst'.
      destruct (expire_extends e t b ltac:(by rewrite Hcfg) Hst') as (r & b1 & -> & (ps & ds & e1 & P & D & U & C & S & W & [A Cn _ _]) & Hsz).
      cbn in P, D. eexists _, b1, e1. cbn. rewrite P, D. destruct W as (We & W). split_and!; try done.
      + split; [congruence | rewrite S; done | rewrite We; by split | lia].
      + by destruct (rr_duplicate r). }
  destruct Hstep as (o1 & b1 & e1 & -> & Hsv1 & Ee1 & Ha & Hp).
  specialize (IH b1 e1 Hsv1 Ee1 Hcs). destruct (run cs b1) as [o2 b2]. destruct IH as (Hsv2 & (e2 & Ee2 & Ha2) & Hp2). cbn.
  split_and!; [done | |].
  - exists e2. split; [done |]. rewrite fmap_app. by eapply accounted_app.
  - rewrite <- (assoc_L (++)). rewrite <- (assoc_L (++)), <- Hp2.
    rewrite (Permutation_app_swap_app (oc_accepted o1)), Hp. by rewrite (Permutation_app_swap_app (oc_accepted o2)).
Qed.

(** The run from a fresh buffer; the first packet sets the expected number. *)
Lemma run_fresh config ssrc cs : policyInvalid config = false -> Forall (callInStream config ssrc) cs ->
  let '(o, b) := run cs (create config) in
  serving config ssrc b /\ oc_accepted o ≡ₚ oc_packets o ++ entries (rb_pending b) /\
  match rb_expected b with
  | None => o = mkOutcome [] [] []
  | Some e => exists first, head (oc_accepted o) = Some first /\
      accounted (rp_sequenceNumber first) (rp_sequenceNumber <$> oc_packets o) (oc_discontinuities o) e
  end.
Proof.
  intros Hpol Hcs.
  assert (Hsv : serving config ssrc (create config)) by (split; cbn; [done | by left | done | rewrite map_size_empty; lia]).
  induction Hcs as [| c cs Hc Hcs IH]; [by split_and! |]. destruct c as [p t | t]; cbn.
  - destruct (push_serving config ssrc p t (create config) Hpol Hsv Hc) as (r & b1 & e1 & -> & Hsv1 & Ee1 & Ha & Hp & Hd).
    rewrite (Hd eq_refl) in *. pose proof (run_waiting config ssrc cs b1 e1 Hpol Hsv1 Ee1 Hcs) as Hrun.
    destruct (run cs b1) as [o2 b2]. destruct Hrun as (Hsv2 & (e2 & Ee2 & Ha2) & Hp2). cbn in *.
    split_and!; [done | |].
    + rewrite <- (assoc_L (++)), <- Hp2. rewrite (Permutation_app_swap_app (rr_packets r)), <- Hp.
      unfold entries. rewrite map_to_list_empty. cbn. rewrite (comm (++)). done.
    + rewrite Ee2. exists p. split; [done |]. rewrite fmap_app. by eapply accounted_app.
  - unfold expire. cbn [rb_config create]. rewrite Hpol. cbn. destruct (run cs (create config)) as [o b]. by destruct o.
Qed.

(** C12: A stream leaves the reorder buffer in order and without holes that are not
    reported: whatever the arrival order, the duplicates and the expiry calls,
    starting with the number of the first packet every sequence number up to
    the next expected one (modulo 2^16) is delivered exactly at its place or
    lies inside a reported sequence gap, and no gap is empty. *)
Theorem reorder_in_order config ssrc cs :
  policyInvalid config = false -> Forall (callInStream config ssrc) cs ->
  let '(o, b) := run cs (create config) in
  match rb_expected b with
  | None => o = mkOutcome [] [] []
  | Some e => exists first, head (oc_accepted o) = Some first /\
      accounted (rp_sequenceNumber first) (rp_sequenceNumber <$> oc_packets o) (oc_discontinuities o) e
  end.
Proof. intros Hp Hcs. pose proof (run_fresh config ssrc cs Hp Hcs) as H. destruct (run cs _). apply H. Qed.

(** The reorder buffer neither loses, invents nor duplicates packets, and is
    bounded: the packets it accepted (all but the reported duplicates and late
    ones) are, as a multiset, the delivered ones and the pending ones, and never
    more than the planned window are pending. *)
Theorem reorder_conserves config ssrc cs :
  policyInvalid config = false -> Forall (callInStream config ssrc) cs ->
  let '(o, b) := run cs (create config) in
  oc_accepted o ≡ₚ oc_packets o ++ entries (rb_pending b) /\
  (size (rb_pending b) <= rc_windowPackets config)%nat.
Proof.
  intros Hp Hcs. pose proof (run_fresh config ssrc cs Hp Hcs) as H. destruct (run cs _).
  destruct H as (Hsv & Hperm & _). split; [done | apply Hsv].
Qed.

(** *** Witness: numbers around the wrap, a duplicate, a late packet, a lost one. *)

Definition samplePacket (seq : Z) : MediaRtpPacket := mkPacket 2 false 96 seq 0 7 [] None 0 [seq].

Definition sampleReorder : MediaRtpReorderConfig := mkReorderConfig 2 1000 96.

Definition sampleArrivals : list Call :=
  [Push (samplePacket 65534) 0; Push (samplePacket 0) 1; Push (samplePacket 65535) 2; Push (samplePacket 0) 3;
   Push (samplePacket 3) 4; Push (samplePacket 2) 5; Push (samplePacket 5) 6; Push (samplePacket 1) 7; Expire 2000].

Lemma sample_inStream : Forall (callInStream sampleReorder 7) sampleArrivals.
Proof. repeat constructor; cbn; lia. Qed.

(** The delivered numbers and the reported gaps. *)
Example sample_delivery :
  (rp_sequenceNumber <$> oc_packets (run sampleArrivals (create sampleReorder)).1,
   (fun d => (di_firstMissingSequence d, di_resumedSequence d)) <$>
     oc_discontinuities (run sampleArrivals (create sampleReorder)).1) =
  ([65534; 65535; 0; 2; 3; 5], [(1, 2); (4, 5)]).
Proof. vm_compute. reflexivity. Qed.

Lemma reorder_in_order_witness :
  let '(o, b) := run sampleArrivals (create sampleReorder) in
  match rb_expected b with
  | None => o = mkOutcome [] [] []
  | Some e => exists first, head (oc_accepted o) = Some first /\
      accounted (rp_sequenceNumber first) (rp_sequenceNumber <$> oc_packets o) (oc_discontinuities o) e
  end.
Proof. exact (reorder_in_order sampleReorder 7 sampleArrivals eq_refl sample_inStream). Defined.

Lemma reorder_conserves_witness :
  let '(o, b) := run sampleArrivals (create sampleReorder) in
  oc_accepted o ≡ₚ oc_packets o ++ entries (rb_pending b) /\ (size (rb_pending b) <= 2)%nat.
Proof. exact (reorder_conserves sampleReorder 7 sampleArrivals eq_refl sample_inStream). Defined.

End MediaRtpReorderBuffer.
