(* ===== verification/VideoNal.v ===== *)
(** * Video access units and their NAL units

    Models [model/MediaEncodedPacketLayout.h], [protocol/codec/MediaAnnexBAccessUnitValidator.h]
    and [MediaVideoNalUnitScanner.cpp]: an H.264 or HEVC access unit, either
    delimited by start codes or with length fields, is split into its NAL units.

    A byte is an integer below 256, sizes and offsets are [nat], a
    [std::span] is the list of its bytes.  The visitor of [visit] is a state
    transformer.  The two [codec] values are the enumerators; the cast of a
    foreign integer to the enumeration, which [visit] also refuses, and
    allocation failures are not modelled.

    The reference is a relation, [startCoded], and a function, [lengthCoded]:
    the scanner succeeds exactly on the byte strings that encode valid NAL
    units, with these units. *)

From S2P Require Import Prelude MediaResult.

Local Open Scope Z_scope.
Local Open Scope result_scope.

(** ** Layout of an encoded packet *)

Module MediaEncodedPacketLayout.

Inductive MediaEncodedPacketLayoutKind := StartCodeDelimited | LengthPrefixed.

Record Layout := mkLayout {
  kind : MediaEncodedPacketLayoutKind;
  lengthFieldBytes : option Z;
}.

Definition startCodeDelimited : Layout := mkLayout StartCodeDelimited None.

Definition lengthPrefixed (lengthFieldBytes : Z) : Result Layout :=
  if lengthFieldBytes =? 0
  then failure (invalidArgument "length-prefixed encoded packet layout requires an explicit positive length-field width")
  else Success (mkLayout LengthPrefixed (Some lengthFieldBytes)).

End MediaEncodedPacketLayout.

(** ** Validation of an Annex-B access unit *)

Module MediaAnnexBAccessUnitValidator.

Inductive MediaAnnexBCodec := H264 | Hevc.

Definition headerBytes (codec : MediaAnnexBCodec) : nat :=
  match codec with H264 => 1 | Hevc => 2 end.

Definition validHeader (nal : list Z) (codec : MediaAnnexBCodec) : bool :=
  match codec with
  | H264 =>
      let type := Z.land (nal !!! 0%nat) 0x1F in
      (Z.land (nal !!! 0%nat) 0x80 =? 0) && negb (type =? 0) && (type <=? 23)
  | Hevc =>
      let type := Z.land (Z.shiftr (nal !!! 0%nat) 1) 0x3F in
      let temporalIdPlusOne := Z.land (nal !!! 1%nat) 0x07 in
      (Z.land (nal !!! 0%nat) 0x80 =? 0) && (type <=? 47) && negb (temporalIdPlusOne =? 0)
  end.

Definition startCodeSize (bytes : list Z) (offset : nat) : nat :=
  if (offset + 4 <=? length bytes)%nat && (bytes !!! offset =? 0) && (bytes !!! (offset + 1)%nat =? 0) &&
     (bytes !!! (offset + 2)%nat =? 0) && (bytes !!! (offset + 3)%nat =? 1)
  then 4%nat
  else if (offset + 3 <=? length bytes)%nat && (bytes !!! offset =? 0) && (bytes !!! (offset + 1)%nat =? 0) &&
          (bytes !!! (offset + 2)%nat =? 1)
  then 3%nat
  else 0%nat.

Definition invalid (codec : MediaAnnexBCodec) (reason : string) : Status :=
  failure (invalidArgument ((match codec with H264 => "H264" | Hevc => "HEVC" end) +:+ " Annex-B access unit " +:+ reason)).

(** [while (next < bytes.size() && startCodeSize(bytes, next) == 0) ++next;]
    with the size of [bytes] as fuel. *)
Fixpoint nextStartCode (fuel : nat) (bytes : list Z) (next : nat) : nat :=
  match fuel with
  | O => next
  | S fuel' =>
      if (next <? length bytes)%nat && (startCodeSize bytes next =? 0)%nat
      then nextStartCode fuel' bytes (S next) else next
  end.

(** The endless loop; it returns or advances the cursor, so that one unit of
    fuel per byte is enough. *)
Fixpoint validateLoop (fuel : nat) (bytes : list Z) (codec : MediaAnnexBCodec) (cursor : nat) : Status :=
  match fuel with
  | O => failure (internalError "out of fuel")
  | S fuel' =>
      let prefix := startCodeSize bytes cursor in
      if (prefix =? 0)%nat then invalid codec "does not start each NAL with a start code"
      else
        let nalBegin := (cursor + prefix)%nat in
        if (length bytes <=? nalBegin)%nat then invalid codec "contains an empty NAL"
        else
          let next0 := (nalBegin + headerBytes codec)%nat in
          if (length bytes <? next0)%nat then invalid codec "contains a truncated NAL header"
          else
            let next := nextStartCode (length bytes) bytes next0 in
            let nalEnd := if (next <? length bytes)%nat then next else length bytes in
            if negb (validHeader (take (nalEnd - nalBegin) (drop nalBegin bytes)) codec)
            then invalid codec "contains an invalid NAL header"
            else if (nalEnd =? length bytes)%nat then Success tt
            else validateLoop fuel' bytes codec nalEnd
  end.

Definition validate (bytes : list Z) (codec : MediaAnnexBCodec) : Status :=
  if bool_decide (bytes = []) then invalid codec "is empty" else validateLoop (length bytes) bytes codec 0.

End MediaAnnexBAccessUnitValidator.

(** ** The scanner *)

Module MediaVideoNalUnitScanner.
Export MediaEncodedPacketLayout MediaAnnexBAccessUnitValidator.

Definition validNal (nal : list Z) (codec : MediaAnnexBCodec) : bool :=
  if (length nal <? headerBytes codec)%nat then false
  else match codec with
       | H264 =>
           let type := Z.land (nal !!! 0%nat) 0x1F in
           (Z.land (nal !!! 0%nat) 0x80 =? 0) && (1 <=? type) && (type <=? 23)
       | Hevc =>
           let type := Z.land (Z.shiftr (nal !!! 0%nat) 1) 0x3F in
           (Z.land (nal !!! 0%nat) 0x80 =? 0) && (type <=? 47) && negb (Z.land (nal !!! 1%nat) 0x07 =? 0)
       end.

(** The length field: [length = (length << 8U) | bytes[cursor + index]] on 64 bits. *)
Fixpoint readLength (width : nat) (bytes : list Z) (cursor : nat) (acc : Z) : Z :=
  match width with
  | O => acc
  | S width' => readLength width' bytes (S cursor) (Z.lor (u64 (Z.shiftl acc 8)) (bytes !!! cursor))
  end.

Section Visit.
Context {St : Type} (visitor : St -> list Z -> St).

(** The loop over the start codes. *)
Fixpoint visitStartCodes (fuel : nat) (bytes : list Z) (codec : MediaAnnexBCodec) (cursor : nat) (state : St) : St :=
  match fuel with
  | O => state
  | S fuel' =>
      if (cursor <? length bytes)%nat then
        let begin := (cursor + startCodeSize bytes cursor)%nat in
        let stop := nextStartCode (length bytes) bytes (begin + headerBytes codec) in
        visitStartCodes fuel' bytes codec stop (visitor state (take (stop - begin) (drop begin bytes)))
      else state
  end.

(** The loop over the length fields. *)
Fixpoint visitLengths (fuel : nat) (bytes : list Z) (codec : MediaAnnexBCodec) (width : nat) (cursor : nat)
    (state : St) : Status * St :=
  match fuel with
  | O => (failure (internalError "out of fuel"), state)
  | S fuel' =>
      if (cursor <? length bytes)%nat then
        if (length bytes - cursor <? width)%nat
        then (failure (invalidArgument "video NAL length field is truncated"), state)
        else
          let len := readLength width bytes cursor 0 in
          let cursor1 := (cursor + width)%nat in
          if (len =? 0) || (Z.of_nat (length bytes - cursor1) <? len) || (uint64_max <? len)
          then (failure (invalidArgument "video NAL length exceeds access unit"), state)
          else
            let nal := take (Z.to_nat len) (drop cursor1 bytes) in
            if negb (validNal nal codec)
            then (failure (invalidArgument "video access unit has an invalid NAL header"), state)
            else visitLengths fuel' bytes codec width (cursor1 + Z.to_nat len) (visitor state nal)
      else (Success tt, state)
  end.

End Visit.

(** [MediaVideoNalUnitScanner::visit]: the status and the visitor's state. *)
Definition visit {St} (bytes : list Z) (codec : MediaAnnexBCodec) (layout : Layout) (state : St)
    (visitor : option (St -> list Z -> St)) : Status * St :=
  match visitor with
  | None => (failure (invalidArgument "video NAL scan requires a codec and visitor"), state)
  | Some visitor =>
      match kind layout with
      | StartCodeDelimited =>
          match validate bytes codec with
          | Failure e => (Failure e, state)
          | Success _ => (Success tt, visitStartCodes visitor (length bytes) bytes codec 0 state)
          end
      | LengthPrefixed =>
          match lengthFieldBytes layout with
          | None => (failure (invalidArgument "video NAL length field has invalid geometry"), state)
          | Some width =>
              if bool_decide (bytes = []) || (width =? 0) || (8 <? width)
              then (failure (invalidArgument "video NAL length field has invalid geometry"), state)
              else visitLengths visitor (S (length bytes)) bytes codec (Z.to_nat width) 0 state
          end
      end
  end.

(** [MediaVideoNalUnitScanner::scan]: the visitor pushes to a vector. *)
Definition scan (bytes : list Z) (codec : MediaAnnexBCodec) (layout : Layout) : Result (list (list Z)) :=
  match visit bytes codec layout [] (Some (fun units unit => units ++ [unit])) with
  | (Success _, units) => Success units
  | (Failure e, _) => failure e
  end.

(** ** Reference encodings *)

(** The bytes before the first start code. *)
Fixpoint beforeStartCode (l : list Z) : nat :=
  match l with
  | [] => 0
  | _ :: l' => if (startCodeSize l 0 =? 0)%nat then S (beforeStartCode l') else 0
  end.

Definition isStartCode (p : list Z) : Prop := p = [0; 0; 1] \/ p = [0; 0; 0; 1].

(** The first start code of [u ++ rest] past the header of [u] is at the end of [u]. *)
Definition endsAt (codec : MediaAnnexBCodec) (u rest : list Z) : Prop :=
  beforeStartCode (drop (headerBytes codec) (u ++ rest)) = (length u - headerBytes codec)%nat.

(** [bytes] is a sequence of NAL units, each behind a start code. *)
Inductive startCoded (codec : MediaAnnexBCodec) : list Z -> list (list Z) -> Prop :=
  | coded_last p u :
      isStartCode p -> validNal u codec = true -> endsAt codec u [] -> startCoded codec (p ++ u) [u]
  | coded_more p u bytes us :
      isStartCode p -> validNal u codec = true -> endsAt codec u bytes -> startCoded codec bytes us ->
      startCoded codec (p ++ u ++ bytes) (u :: us).

(** [width] bytes, most significant first. *)
Fixpoint bigEndian (width : nat) (n : Z) : list Z :=
  match width with
  | O => []
  | S width' => u8 (Z.shiftr n (8 * Z.of_nat width')) :: bigEndian width' n
  end.

Definition lengthCoded (width : nat) (us : list (list Z)) : list Z :=
  concat (map (fun u => bigEndian width (Z.of_nat (length u)) ++ u) us).

(** A unit behind a length field that can hold its size. *)
Definition fieldUnit (codec : MediaAnnexBCodec) (width : nat) (u : list Z) : Prop :=
  validNal u codec = true /\ Z.of_nat (length u) < 2 ^ (8 * Z.of_nat width).

(** The access units of a layout that hold the units [us]. *)
Definition encodes (codec : MediaAnnexBCodec) (layout : Layout) (bytes : list Z) (us : list (list Z)) : Prop :=
  match kind layout with
  | StartCodeDelimited => startCoded codec bytes us
  | LengthPrefixed =>
      exists width, lengthFieldBytes layout = Some (Z.of_nat width) /\ (1 <= width <= 8)%nat /\
        us <> [] /\ Forall (fieldUnit codec width) us /\ bytes = lengthCoded width us
  end.

(** The form the depacketizers emit: four-byte start codes. *)
Definition annexB (us : list (list Z)) : list Z := concat (map (fun u => [0; 0; 0; 1] ++ u) us).

(** No start code inside a unit, past its header. *)
Definition unbroken (codec : MediaAnnexBCodec) (u : list Z) : Prop := endsAt codec u [].

(** ** Lemmas *)

Lemma startCodeSize_drop bytes offset : startCodeSize bytes offset = startCodeSize (drop offset bytes) 0.
Proof.
  unfold startCodeSize. rewrite length_drop, !lookup_total_drop, !Nat.add_0_r. cbn [Nat.add].
  replace (4 <=? length bytes - offset)%nat with (offset + 4 <=? length bytes)%nat
    by (apply eq_true_iff_eq; rewrite !Nat.leb_le; lia).
  replace (3 <=? length bytes - offset)%nat with (offset + 3 <=? length bytes)%nat
    by (apply eq_true_iff_eq; rewrite !Nat.leb_le; lia).
  done.
Qed.

Lemma beforeStartCode_le l : (beforeStartCode l <= length l)%nat.
Proof. induction l as [| x l IH]; cbn [beforeStartCode length]; [lia |]. case_match; lia. Qed.

Lemma nextStartCode_spec fuel bytes next :
  (length bytes - next <= fuel)%nat ->
  nextStartCode fuel bytes next = (next + beforeStartCode (drop next bytes))%nat.
Proof.
  revert next. induction fuel as [| fuel IH]; intros next Hf; cbn [nextStartCode].
  { rewrite drop_ge by lia. cbn. lia. }
  destruct (Nat.ltb_spec next (length bytes)) as [Hlt | Hge]; cbn [andb]; cycle 1.
  { rewrite drop_ge by lia. cbn. lia. }
  destruct (lookup_lt_is_Some_2 bytes next Hlt) as [x Hx]. rewrite startCodeSize_drop, (drop_S _ _ _ Hx).
  cbn [beforeStartCode]. destruct (_ =? 0)%nat; [| lia]. rewrite IH by lia. lia.
Qed.

Lemma startCode_size p l : isStartCode p -> startCodeSize (p ++ l) 0 = length p.
Proof. intros [-> | ->]; unfold startCodeSize; cbn; [| done]. by destruct l. Qed.

Lemma startCode_inv l : startCodeSize l 0 <> 0%nat ->
  isStartCode (take (startCodeSize l 0) l) /\ (startCodeSize l 0 <= length l)%nat.
Proof.
  unfold startCodeSize. cbn [Nat.add].
  match goal with |- context [if ?b then 4%nat else if ?c then _ else _] => destruct b eqn:E4; [| destruct c eqn:E3] end;
    intros Hn; [| | by destruct Hn].
  - rewrite !andb_true_iff, Nat.leb_le, !Z.eqb_eq in E4. destruct E4 as [[[[Hl E0] E1] E2] E3].
    destruct l as [| a [| b [| c [| d l]]]]; simpl in *; try lia. split; [right; by subst | lia].
  - rewrite !andb_true_iff, Nat.leb_le, !Z.eqb_eq in E3. destruct E3 as [[[Hl E0] E1] E2].
    destruct l as [| a [| b [| c l]]]; cbn in *; try lia. split; [left; by subst | lia].
Qed.

Lemma validNal_header u codec :
  (headerBytes codec <= length u)%nat -> validHeader u codec = validNal u codec.
Proof.
  intros Hl. unfold validNal. replace (length u <? headerBytes codec)%nat with false by (symmetry; apply Nat.ltb_ge; lia).
  destruct codec; [| done]. unfold validHeader. f_equal. f_equal.
  assert (0 <= Z.land (u !!! 0%nat) 31) by (apply Z.land_nonneg; right; lia).
  apply eq_true_iff_eq. rewrite negb_true_iff, Z.eqb_neq, Z.leb_le. lia.
Qed.

Lemma validNal_length u codec : validNal u codec = true -> (headerBytes codec <= length u)%nat.
Proof. unfold validNal. destruct (Nat.ltb_spec (length u) (headerBytes codec)); [done | lia]. Qed.

(** What the scanner reads at a cursor: a start code and a unit. *)
Lemma read_unit bytes codec cursor p u rest :
  drop cursor bytes = p ++ u ++ rest -> isStartCode p -> (headerBytes codec <= length u)%nat -> endsAt codec u rest ->
  startCodeSize bytes cursor = length p /\
  length bytes = (cursor + length p + length u + length rest)%nat /\
  nextStartCode (length bytes) bytes (cursor + length p + headerBytes codec) = (cursor + length p + length u)%nat /\
  take (length u) (drop (cursor + length p) bytes) = u /\ drop (cursor + length p + length u) bytes = rest.
Proof.
  intros E Hp Hh Hu. assert (Hl : length bytes = (cursor + length p + length u + length rest)%nat).
  { apply (f_equal length) in E. rewrite length_drop, !length_app in E.
    destruct Hp as [-> | ->]; cbn [length] in *; lia. }
  assert (Ed : drop (cursor + length p) bytes = u ++ rest) by (by rewrite <- drop_drop, E, drop_app_length).
  split_and!; [| done | | by rewrite Ed, take_app_length |].
  - by rewrite startCodeSize_drop, E, startCode_size.
  - rewrite nextStartCode_spec by lia. rewrite <- drop_drop, Ed, Hu. lia.
  - by rewrite <- drop_drop, Ed, drop_app_length.
Qed.

(** The validator and the visitor on an encoded suffix. *)
Lemma scan_complete {St} (visitor : St -> list Z -> St) codec l us : startCoded codec l us ->
  forall bytes cursor fuel, drop cursor bytes = l -> (length l <= fuel)%nat ->
  validateLoop fuel bytes codec cursor = Success tt /\
  forall st, visitStartCodes visitor fuel bytes codec cursor st = fold_left visitor us st.
Proof.
  assert (Hpos : forall p, isStartCode p -> (3 <= length p)%nat) by (intros p [-> | ->]; cbn; lia).
  induction 1 as [p u Hp Hv Hu | p u rest us Hp Hv Hu Hc IH]; intros bytes cursor fuel E Hf;
    pose proof (validNal_length _ _ Hv) as Hh; specialize (Hpos p Hp);
    [rewrite <- (app_nil_r u) in E |];
    destruct (read_unit _ _ _ _ _ _ E Hp Hh Hu) as (E1 & El & E2 & E3 & E4); rewrite !length_app in Hf;
    (destruct fuel as [| fuel]; [lia |]); cbn [validateLoop visitStartCodes];
    rewrite E1, E2; replace (cursor + length p + length u - (cursor + length p))%nat with (length u) by lia; rewrite E3.
  all: replace (length p =? 0)%nat with false by (symmetry; apply Nat.eqb_neq; lia).
  all: replace (length bytes <=? cursor + length p)%nat with false
    by (symmetry; apply Nat.leb_gt; destruct codec; cbn in *; lia).
  all: replace (length bytes <? cursor + length p + headerBytes codec)%nat with false by (symmetry; apply Nat.ltb_ge; lia).
  all: replace (cursor <? length bytes)%nat with true by (symmetry; apply Nat.ltb_lt; destruct codec; cbn in *; lia).
  - rewrite El. cbn [length]. rewrite Nat.add_0_r, Nat.ltb_irrefl, Nat.eqb_refl.
    replace (cursor + length p + length u - (cursor + length p))%nat with (length u) by lia. rewrite E3.
    rewrite validNal_header, Hv by done. split; [done |]. intros st. cbn [fold_left].
    destruct fuel as [| fuel]; cbn [visitStartCodes]; [done |].
    by replace (_ <? length bytes)%nat with false by (symmetry; apply Nat.ltb_ge; cbn in *; lia).
  - assert (Hr : (0 < length rest)%nat) by (destruct Hc as [? ? Hq | ? ? ? ? Hq]; rewrite !length_app; destruct Hq as [-> | ->]; cbn; lia).
    replace (_ <? length bytes)%nat with true by (symmetry; apply Nat.ltb_lt; lia).
    replace (cursor + length p + length u - (cursor + length p))%nat with (length u) by lia. rewrite E3.
    rewrite validNal_header, Hv by done. cbn [negb].
    replace (_ =? length bytes)%nat with false by (symmetry; apply Nat.eqb_neq; lia).
    destruct (IH bytes _ fuel E4 ltac:(lia)) as [IH1 IH2]. split; [done |]. intros st. cbn [fold_left]. apply IH2.
Qed.

Lemma validate_sound codec fuel bytes cursor :
  validateLoop fuel bytes codec cursor = Success tt -> exists us, startCoded codec (drop cursor bytes) us.
Proof.
  revert cursor. induction fuel as [| fuel IH]; intros cursor; cbn [validateLoop]; [done |].
  destruct (Nat.eqb_spec (startCodeSize bytes cursor) 0) as [| Hn]; [done |].
  rewrite startCodeSize_drop in Hn. destruct (startCode_inv _ Hn) as [Hp Hpl].
  rewrite startCodeSize_drop. set (n := startCodeSize (drop cursor bytes) 0) in *.
  destruct (Nat.leb_spec (length bytes) (cursor + n)); [done |].
  destruct (Nat.ltb_spec (length bytes) (cursor + n + headerBytes codec)); [done |].
  rewrite nextStartCode_spec by lia.
  pose proof (beforeStartCode_le (drop (cursor + n + headerBytes codec) bytes)) as Hb. rewrite length_drop in Hb.
  set (k := beforeStartCode (drop (cursor + n + headerBytes codec) bytes)) in *.
  set (stop := (cursor + n + headerBytes codec + k)%nat) in *.
  replace (if (stop <? length bytes)%nat then stop else length bytes) with stop
    by (destruct (Nat.ltb_spec stop (length bytes)); lia).
  set (u := take (stop - (cursor + n)) (drop (cursor + n) bytes)).
  assert (Hul : length u = (headerBytes codec + k)%nat) by (unfold u; rewrite length_take, length_drop; lia).
  assert (E : drop (cursor + n) bytes = u ++ drop stop bytes).
  { unfold u. rewrite <- (take_drop (stop - (cursor + n)) (drop (cursor + n) bytes)) at 1. rewrite drop_drop. do 2 f_equal. lia. }
  assert (E0 : drop cursor bytes = take n (drop cursor bytes) ++ u ++ drop stop bytes).
  { rewrite <- E, <- drop_drop. by rewrite take_drop. }
  set (p := take n (drop cursor bytes)) in *.
  assert (Hu : endsAt codec u (drop stop bytes)).
  { unfold endsAt. rewrite <- E, drop_drop. fold k. lia. }
  rewrite validNal_header by lia. destruct (validNal u codec) eqn:Hv; [| done]. cbn [negb].
  destruct (Nat.eqb_spec stop (length bytes)) as [Es | Es]; intros Hs.
  - assert (En : drop stop bytes = []) by (apply drop_ge; lia). rewrite En in E0, Hu. rewrite app_nil_r in E0.
    exists [u]. rewrite E0. by constructor.
  - destruct (IH _ Hs) as [us Hus]. exists (u :: us). rewrite E0. by constructor.
Qed.

(** *** Length fields *)

Definition bigValue (l : list Z) (acc : Z) : Z := fold_left (fun a b => a * 256 + b) l acc.

Lemma bigValue_acc l acc : bigValue l acc = acc * 2 ^ (8 * Z.of_nat (length l)) + bigValue l 0.
Proof.
  unfold bigValue. revert acc. induction l as [| b l IH]; intros acc; cbn [fold_left length]; [simpl; lia |].
  rewrite IH, (IH (0 * 256 + b)). replace (8 * Z.of_nat (S (length l))) with (8 * Z.of_nat (length l) + 8) by lia.
  rewrite Z.pow_add_r by lia. change (2 ^ 8) with 256. lia.
Qed.

Lemma bigValue_bound l : Forall (is_u 8) l -> 0 <= bigValue l 0 < 2 ^ (8 * Z.of_nat (length l)).
Proof.
  induction 1 as [| b l Hb Hl IH]; [simpl; lia |]. cbn [length]. change (bigValue (b :: l) 0) with (bigValue l (0 * 256 + b)).
  rewrite bigValue_acc. replace (8 * Z.of_nat (S (length l))) with (8 * Z.of_nat (length l) + 8) by lia.
  rewrite Z.pow_add_r by lia. unfold is_u in Hb. change (2 ^ 8) with 256 in *. nia.
Qed.

Lemma bigEndian_length width n : length (bigEndian width n) = width.
Proof. induction width as [| w IH]; cbn; [done | by rewrite IH]. Qed.

Lemma bigEndian_bytes width n : Forall (is_u 8) (bigEndian width n).
Proof. induction width as [| w IH]; cbn; constructor; [unfold is_u, u8; apply Z.mod_pos_bound; lia | done]. Qed.

Lemma bigEndian_mod width n k : 8 * Z.of_nat width <= k -> bigEndian width (n mod 2 ^ k) = bigEndian width n.
Proof.
  revert k. induction width as [| w IH]; intros k Hk; cbn [bigEndian]; [done |]. f_equal; [| apply IH; lia].
  unfold u8. rewrite <- !Z.land_ones by lia. rewrite Z.shiftr_land. rewrite <- Z.land_assoc. f_equal.
  apply Z.bits_inj'. intros i Hi. rewrite Z.land_spec, Z.shiftr_spec, !Z.testbit_ones by lia.
  destruct (Z.leb_spec 0 i), (Z.ltb_spec i 8), (Z.leb_spec 0 (i + 8 * Z.of_nat w)), (Z.ltb_spec (i + 8 * Z.of_nat w) k);
    try done; lia.
Qed.

Lemma bigEndian_bigValue l : Forall (is_u 8) l -> bigEndian (length l) (bigValue l 0) = l.
Proof.
  induction 1 as [| b l Hb Hl IH]; [done |]. cbn [length bigEndian]. change (bigValue (b :: l) 0) with (bigValue l (0 * 256 + b)).
  rewrite bigValue_acc. pose proof (bigValue_bound l Hl) as Hv.
  assert (Hp : 0 < 2 ^ (8 * Z.of_nat (length l))) by (apply Z.pow_pos_nonneg; lia). f_equal.
  - rewrite shiftr_div by lia. unfold u8. rewrite Z.div_add_l, Z.div_small by lia. rewrite Z.add_0_r.
    apply Z.mod_small. unfold is_u in Hb. lia.
  - rewrite <- (bigEndian_mod _ _ (8 * Z.of_nat (length l))) by lia.
    rewrite Z.add_comm, Z.mod_add, Z.mod_small by lia. done.
Qed.

Lemma bigValue_bigEndian width n : 0 <= n < 2 ^ (8 * Z.of_nat width) -> bigValue (bigEndian width n) 0 = n.
Proof.
  revert n. induction width as [| w IH]; intros n Hn; [simpl in *; lia |]. cbn [bigEndian].
  replace (8 * Z.of_nat (S w)) with (8 * Z.of_nat w + 8) in Hn by lia. rewrite Z.pow_add_r in Hn by lia.
  set (p := 2 ^ (8 * Z.of_nat w)) in *. assert (Hp : 0 < p) by (apply Z.pow_pos_nonneg; lia).
  pose proof (Z.div_mod n p ltac:(lia)) as E. pose proof (Z.mod_pos_bound n p ltac:(lia)) as Hm.
  rewrite <- (bigEndian_mod w n (8 * Z.of_nat w)) by lia. fold p.
  change (bigValue (?b :: ?l) 0) with (bigValue l (0 * 256 + b)). rewrite bigValue_acc, bigEndian_length, IH by (fold p; lia).
  fold p. rewrite shiftr_div by lia. fold p. unfold u8. rewrite Z.mod_small; [lia |].
  change (2 ^ 8) with 256 in *. split; [apply Z.div_pos; lia | apply Z.div_lt_upper_bound; lia].
Qed.

Lemma readLength_value width bytes cursor acc :
  Forall (is_u 8) bytes -> (cursor + width <= length bytes)%nat -> (width <= 8)%nat ->
  0 <= acc < 2 ^ (8 * (8 - Z.of_nat width)) ->
  readLength width bytes cursor acc = bigValue (take width (drop cursor bytes)) acc.
Proof.
  intros Hb. revert cursor acc. induction width as [| w IH]; intros cursor acc Hc Hw Ha; [done |].
  destruct (lookup_lt_is_Some_2 bytes cursor ltac:(lia)) as [b Hx].
  assert (Hbyte : is_u 8 b) by (by eapply Forall_lookup_1). unfold is_u in Hbyte. change (2 ^ 8) with 256 in Hbyte.
  cbn [readLength]. rewrite (drop_S _ _ _ Hx). cbn [take]. change (bigValue (?b :: ?l) acc) with (bigValue l (acc * 256 + b)).
  assert (Ea : 2 ^ (8 * (8 - Z.of_nat w)) = 2 ^ (8 * (8 - Z.of_nat (S w))) * 256).
  { change 256 with (2 ^ 8). rewrite <- Z.pow_add_r by lia. f_equal. lia. }
  assert (Ele : 2 ^ (8 * (8 - Z.of_nat w)) <= 2 ^ 64) by (apply Z.pow_le_mono_r; lia).
  assert (Es : Z.lor (u64 (Z.shiftl acc 8)) (bytes !!! cursor) = acc * 256 + b).
  { rewrite (list_lookup_total_correct _ _ _ Hx). unfold u64. rewrite Z.mod_small.
    - by rewrite lor_shiftl_add by (change (2 ^ 8) with 256; lia).
    - rewrite Z.shiftl_mul_pow2 by lia. change (2 ^ 8) with 256. lia. }
  rewrite Es. apply IH; lia.
Qed.

Lemma validNal_positive u codec : validNal u codec = true -> (0 < length u)%nat.
Proof. intros H%validNal_length. destruct codec; cbn in H; lia. Qed.

Lemma visitLengths_complete {St} (visitor : St -> list Z -> St) codec width us bytes cursor fuel st :
  (1 <= width <= 8)%nat -> Forall (is_u 8) bytes -> Forall (fieldUnit codec width) us ->
  drop cursor bytes = lengthCoded width us -> (length (drop cursor bytes) < fuel)%nat ->
  visitLengths visitor fuel bytes codec width cursor st = (Success tt, fold_left visitor us st).
Proof.
  intros Hw Hb Hus. revert cursor fuel st. induction Hus as [| u us [Hv Hu] Hus IH]; intros cursor fuel st E Hf;
    (destruct fuel as [| fuel]; [lia |]); cbn [visitLengths].
  { apply (f_equal length) in E. rewrite length_drop in E. simpl in E.
    by replace (_ <? _)%nat with false by (symmetry; apply Nat.ltb_ge; lia). }
  unfold lengthCoded in E. cbn [map concat] in E. fold (lengthCoded width us) in E. rewrite <- app_assoc in E.
  assert (El : length bytes = (cursor + width + length u + length (lengthCoded width us))%nat).
  { apply (f_equal length) in E. rewrite length_drop, !length_app, bigEndian_length in E. lia. }
  pose proof (validNal_positive _ _ Hv).
  replace (cursor <? length bytes)%nat with true by (symmetry; apply Nat.ltb_lt; lia).
  replace (length bytes - cursor <? width)%nat with false by (symmetry; apply Nat.ltb_ge; lia).
  assert (Ew : take width (drop cursor bytes) = bigEndian width (Z.of_nat (length u))).
  { rewrite E, take_app_le by (rewrite bigEndian_length; lia). apply take_ge. rewrite bigEndian_length. lia. }
  rewrite readLength_value, Ew, bigValue_bigEndian by (try split; try done; try lia; apply Z.pow_pos_nonneg; lia).
  assert (Ed : drop (cursor + width) bytes = u ++ lengthCoded width us).
  { rewrite <- drop_drop, E. rewrite drop_app_ge, bigEndian_length, Nat.sub_diag by (rewrite bigEndian_length; lia). done. }
  replace (_ || _ || _) with false; cycle 1.
  { symmetry. rewrite !orb_false_iff, Z.eqb_neq, !Z.ltb_ge. split_and!; [lia | lia |].
    assert (2 ^ (8 * Z.of_nat width) <= 2 ^ 64) by (apply Z.pow_le_mono_r; lia). unfold uint64_max. lia. }
  rewrite Nat2Z.id, Ed, take_app_length, Hv. cbn [negb fold_left].
  apply IH; [by rewrite <- drop_drop, Ed, drop_app_length |]. rewrite length_drop in *. lia.
Qed.

Lemma visitLengths_sound {St} (visitor : St -> list Z -> St) codec width bytes cursor fuel st st' :
  (1 <= width <= 8)%nat -> Forall (is_u 8) bytes -> (cursor <= length bytes)%nat ->
  visitLengths visitor fuel bytes codec width cursor st = (Success tt, st') ->
  exists us, drop cursor bytes = lengthCoded width us /\ Forall (fieldUnit codec width) us.
Proof.
  intros Hw Hb. revert cursor st. induction fuel as [| fuel IH]; intros cursor st Hc; cbn [visitLengths]; [done |].
  destruct (Nat.ltb_spec cursor (length bytes)) as [Hlt | Hge]; cycle 1.
  { intros _. exists []. split; [by apply drop_ge | constructor]. }
  destruct (Nat.ltb_spec (length bytes - cursor) width); [done |].
  rewrite readLength_value by (try done; try split; try lia; apply Z.pow_pos_nonneg; lia).
  set (field := take width (drop cursor bytes)).
  assert (Hfl : length field = width) by (unfold field; rewrite length_take, length_drop; lia).
  assert (Hfb : Forall (is_u 8) field) by (by apply Forall_take, Forall_drop).
  pose proof (bigValue_bound field Hfb) as Hv. rewrite Hfl in Hv. set (len := bigValue field 0) in *.
  destruct (Z.eqb_spec len 0) as [| Hn]; [done |]. destruct (Z.ltb_spec (Z.of_nat (length bytes - (cursor + width))) len) as [| Hfit]; [done |].
  destruct (uint64_max <? len); [done |]. cbn [orb].
  set (u := take (Z.to_nat len) (drop (cursor + width) bytes)).
  assert (Hul : length u = Z.to_nat len) by (unfold u; rewrite length_take, length_drop; lia).
  destruct (validNal u codec) eqn:Hvalid; [| done]. cbn [negb]. intros Hrest.
  apply IH in Hrest as (us & Eus & Hus); [| lia]. exists (u :: us). split.
  - unfold lengthCoded. cbn [map concat]. fold (lengthCoded width us). rewrite <- Eus, Hul, Z2Nat.id by lia.
    unfold len. rewrite <- Hfl at 1. rewrite bigEndian_bigValue by done.
    rewrite <- app_assoc. replace (u ++ _) with (drop width (drop cursor bytes)); [by unfold field; rewrite take_drop |].
    rewrite drop_drop. unfold u. rewrite <- (take_drop (Z.to_nat len) (drop (cursor + width) bytes)) at 1. by rewrite drop_drop.
  - constructor; [| done]. split; [done |]. rewrite Hul, Z2Nat.id by lia. lia.
Qed.

Lemma fold_left_snoc (us acc : list (list Z)) : fold_left (fun units unit => units ++ [unit]) us acc = acc ++ us.
Proof.
  revert acc. induction us as [| u us IH]; intros acc; cbn [fold_left]; [by rewrite app_nil_r |].
  by rewrite IH, <- app_assoc.
Qed.

Lemma startCoded_nonempty codec bytes us : startCoded codec bytes us -> bytes <> [] /\ us <> [].
Proof. destruct 1 as [? ? Hp | ? ? ? ? Hp]; split; try done; destruct Hp as [-> | ->]; done. Qed.

(** The scanner splits an access unit exactly as its layout says: it returns
    the units [us] if and only if the bytes encode [us] - every unit behind a
    start code and up to the next one, or behind a length field of the planned
    width - and every unit is valid for the codec; on any other input it fails. *)
Theorem scan_iff bytes codec layout us :
  Forall (is_u 8) bytes -> scan bytes codec layout = Success us <-> encodes codec layout bytes us.
Proof.
  intros Hb. unfold scan, visit, encodes. destruct (kind layout).
  - unfold validate. case_bool_decide as Hn.
    { split; [done | intros H; by apply startCoded_nonempty in H as []]. }
    split.
    + destruct (validateLoop _ _ _ _) as [[] | e] eqn:Ev; [| by unfold failure; destruct (ErrorInfo_ok e)].
      destruct (validate_sound _ _ _ _ Ev) as [us' Hus].
      destruct (scan_complete (fun units unit => units ++ [unit]) _ _ _ Hus bytes 0%nat (length bytes)) as [_ Hvis]; [done..|].
      rewrite Hvis, fold_left_snoc. by intros [= <-].
    + intros Hus. destruct (scan_complete (fun units unit => units ++ [unit]) _ _ _ Hus bytes 0%nat (length bytes)) as [Hv Hvis]; [done..|].
      by rewrite Hv, Hvis, fold_left_snoc.
  - destruct (lengthFieldBytes layout) as [w |]; [| split; [done | by intros (? & ? & _)]].
    case_bool_decide as Hn; cbn [orb].
    { split; [done |]. intros (width & _ & Hw & Hne & Hus & E). subst. destruct us as [| u us]; [done |].
      apply (f_equal length) in E. unfold lengthCoded in E. cbn [map concat] in E. rewrite !length_app, bigEndian_length in E.
      simpl in E. lia. }
    destruct (Z.eqb_spec w 0) as [-> | Hw0]; cbn [orb].
    { split; [done |]. intros (width & [= E] & ? & _). lia. }
    destruct (Z.ltb_spec 8 w).
    { split; [done |]. intros (width & [= E] & ? & _). exfalso. lia. }
    split.
    + assert (Hneg : w < 0 -> forall st : list (list Z), visitLengths (fun units unit => units ++ [unit]) (S (length bytes)) bytes
                       codec (Z.to_nat w) 0 st = (failure (invalidArgument "video NAL length exceeds access unit"), st)).
      { intros Hlt st. replace (Z.to_nat w) with 0%nat by lia. cbn [visitLengths readLength].
        replace (0 <? length bytes)%nat with true by (symmetry; apply Nat.ltb_lt; by destruct bytes; [| cbn; lia]). done. }
      destruct (Z.ltb_spec w 0); [by rewrite Hneg |].
      destruct (visitLengths _ _ _ _ _ _ _) as [[[] | e] units] eqn:Ev; [| by unfold failure; destruct (ErrorInfo_ok e)].
      intros [= ->]. edestruct (visitLengths_sound (fun units unit => units ++ [unit])) as (us' & E & Hus);
        [| exact Hb | | exact Ev |]; [lia.. |]. cbn [drop] in E.
      rewrite (visitLengths_complete _ _ _ us') in Ev; [| lia | done | done | done | rewrite drop_0; lia].
      rewrite fold_left_snoc in Ev. injection Ev as <-. cbn [app].
      exists (Z.to_nat w). split_and!; [f_equal; lia | lia | lia | by intros -> | done | done].
    + intros (width & [= ->] & Hw & Hne & Hus & E). rewrite Nat2Z.id.
      rewrite (visitLengths_complete _ _ _ us); [| lia | done | done | done | rewrite drop_0; lia].
      by rewrite fold_left_snoc.
Qed.

Lemma scan_iff_witness :
  scan [0; 2; 0x67; 9; 0; 1; 0x65] H264 (mkLayout LengthPrefixed (Some 2)) = Success [[0x67; 9]; [0x65]] /\
  encodes H264 (mkLayout LengthPrefixed (Some 2)) [0; 2; 0x67; 9; 0; 1; 0x65] [[0x67; 9]; [0x65]].
Proof.
  split; [reflexivity |].
  apply (proj1 (scan_iff [0; 2; 0x67; 9; 0; 1; 0x65] H264 (mkLayout LengthPrefixed (Some 2)) [[0x67; 9]; [0x65]]
           ltac:(repeat constructor; unfold is_u; lia))). reflexivity.
Defined.

(** ** The four-byte form *)

Lemma startCode_prefix (l rest : list Z) :
  startCodeSize l 0 <> 0%nat -> startCodeSize (l ++ rest) 0 = startCodeSize l 0.
Proof.
  intros Hn. destruct (startCode_inv l Hn) as [Hp Hl]. set (n := startCodeSize l 0) in *.
  rewrite <- (take_drop n l), <- app_assoc, startCode_size by done. rewrite length_take. lia.
Qed.

Lemma beforeStartCode_prefix (l rest : list Z) :
  beforeStartCode (l ++ rest) = length l -> beforeStartCode l = length l.
Proof.
  induction l as [| x l IH]; [done |]. cbn [beforeStartCode app length].
  destruct (Nat.eqb_spec (startCodeSize (x :: l ++ rest) 0) 0) as [E |]; [| done]. intros [= H].
  destruct (Nat.eqb_spec (startCodeSize (x :: l) 0) 0) as [| Hn]; [by rewrite IH |].
  change (x :: l ++ rest) with ((x :: l) ++ rest) in E. by rewrite startCode_prefix in E.
Qed.

Lemma beforeStartCode_code (l rest : list Z) :
  beforeStartCode l = length l -> beforeStartCode (l ++ [0; 0; 0; 1] ++ rest) = length l.
Proof.
  induction l as [| x l IH]; [done |]. cbn [beforeStartCode length].
  destruct (Nat.eqb_spec (startCodeSize (x :: l) 0) 0) as [E |]; [| done]. intros [= H].
  change ((x :: l) ++ ?r) with (x :: (l ++ r)). cbn [beforeStartCode]. rewrite IH by done.
  replace (startCodeSize _ 0) with 0%nat; [done |]. symmetry. revert E.
  destruct l as [| y [| z [| t l]]]; unfold startCodeSize; cbn -[Z.eqb Nat.eqb]; try done.
  - by rewrite !andb_false_r.
  - by rewrite !andb_false_r.
  - rewrite !andb_false_r. cbn. done.
Qed.

Lemma drop_header codec (u rest : list Z) : validNal u codec = true ->
  drop (headerBytes codec) (u ++ rest) = drop (headerBytes codec) u ++ rest.
Proof. intros H%validNal_length. by rewrite drop_app_le. Qed.

Lemma endsAt_unbroken codec u rest : validNal u codec = true -> endsAt codec u rest -> unbroken codec u.
Proof.
  unfold unbroken, endsAt. intros Hv. rewrite !drop_header by done. rewrite app_nil_r, <- length_drop.
  apply beforeStartCode_prefix.
Qed.

Lemma unbroken_endsAt codec u rest : validNal u codec = true -> unbroken codec u -> endsAt codec u ([0; 0; 0; 1] ++ rest).
Proof.
  unfold unbroken, endsAt. intros Hv. rewrite !drop_header by done. rewrite app_nil_r, <- length_drop.
  apply beforeStartCode_code.
Qed.

(** A valid unit without a start code in it. *)
Definition cleanUnit (codec : MediaAnnexBCodec) (u : list Z) : Prop := validNal u codec = true /\ unbroken codec u.

Lemma startCoded_units codec bytes us : startCoded codec bytes us -> Forall (cleanUnit codec) us.
Proof.
  induction 1; repeat constructor; try done. by eapply endsAt_unbroken.
Qed.

Lemma annexB_startCoded codec us : us <> [] -> Forall (cleanUnit codec) us -> startCoded codec (annexB us) us.
Proof.
  intros Hn Hus. induction Hus as [| u us [Hv Hu] Hus IH]; [done |]. unfold annexB. cbn [map concat]. fold (annexB us).
  destruct us as [| u' us].
  - cbn [annexB map concat]. rewrite app_nil_r. constructor; [by right | done..].
  - rewrite <- app_assoc. constructor; [by right | done | | by apply IH].
    unfold annexB. cbn [map concat]. rewrite <- app_assoc. by apply unbroken_endsAt.
Qed.

Lemma annexB_app us us' : annexB (us ++ us') = annexB us ++ annexB us'.
Proof. unfold annexB. by rewrite map_app, concat_app. Qed.

Lemma annexB_length us : length (annexB us) = sum_list_with (fun u => 4 + length u)%nat us.
Proof.
  induction us as [| u us IH]; [done |]. change (annexB (u :: us)) with ([0; 0; 0; 1] ++ u ++ annexB us).
  cbn [sum_list_with]. rewrite !length_app, IH. cbn [length]. lia.
Qed.

Lemma annexB_bytes us : Forall (Forall (is_u 8)) us -> Forall (is_u 8) (annexB us).
Proof.
  induction 1 as [| u us Hu Hus IH]; [constructor |]. change (annexB (u :: us)) with ([0; 0; 0; 1] ++ u ++ annexB us).
  repeat (apply Forall_app; split); [| done | done]. repeat constructor; unfold is_u; lia.
Qed.

(** The units of a scanned access unit are valid, and free of start codes when
    the layout is start-code delimited. *)
Lemma encodes_valid codec layout bytes us : encodes codec layout bytes us ->
  us <> [] /\ Forall (fun u => validNal u codec = true) us.
Proof.
  unfold encodes. destruct (kind layout).
  - intros H. split; [by apply startCoded_nonempty in H as [] |].
    eapply Forall_impl; [by apply startCoded_units in H |]. by intros u [].
  - intros (w & _ & _ & Hn & Hus & _). split; [done |]. eapply Forall_impl; [done |]. by intros u [].
Qed.

End MediaVideoNalUnitScanner.
