(* ===== verification/RtpVideo.v ===== *)
(** * Video over RTP: packetizer and depacketizers

    Models [protocol/rtp/MediaDeterministicVideoRtpPacketizer.{h,cpp}],
    [MediaRtpNalUnitParser.{h,cpp}], [MediaRtpAccessUnitContinuity.h],
    [MediaRtpDepacketizer.{h,cpp}] and
    [depacketizer/Media{H264,Hevc}RtpDepacketizer.{h,cpp}].

    The two depacketizers are the same code around different NAL parsers and
    NAL type tests; the difference is the class [DepacketizerCodec].  The
    allocation of the output packet ([makePacket] and [av_new_packet] of
    FFmpeg) is the parameter [newPacket], from the size to success.  A NAL unit
    is the list of its bytes, whether the parser borrows them from the packet or
    owns them: the depacketizer copies them before the packet is gone.  Other
    allocation failures are not modelled. *)

From S2P Require Import Prelude MediaResult CheckedArithmetic Model RtpWire RtpReorder VideoNal.
Import MediaCheckedArithmetic (ceilScale, multiply, add).
Import MediaRtpPacketParser MediaVideoNalUnitScanner.
Import MediaRtpReorderBuffer (MediaRtpDiscontinuityReason, SequenceGap).

Local Open Scope Z_scope.
Local Open Scope result_scope.

(** ** The packetizer *)

Module MediaDeterministicVideoRtpPacketizer.

Record MediaVideoRtpPayloadPacket := mkPayload {
  vp_payload : list Z;
  vp_marker : bool;
}.

Definition headerBytes (codec : MediaAnnexBCodec) : nat :=
  match codec with H264 => 1 | Hevc => 2 end.

Definition fuHeaderBytes (codec : MediaAnnexBCodec) : nat :=
  match codec with H264 => 2 | Hevc => 3 end.

(** The lowest layer and temporal ids of the units. *)
Definition layerId (unit : list Z) : Z :=
  u8 (Z.lor (Z.shiftl (Z.land (unit !!! 0%nat) 0x01) 5) (Z.shiftr (unit !!! 1%nat) 3)).

Definition aggregateHeader (units : list (list Z)) (codec : MediaAnnexBCodec) : list Z :=
  match codec with
  | H264 =>
      let nri := fold_left (fun nri unit => Z.max nri (u8 (Z.land (unit !!! 0%nat) 0x60))) units 0 in
      [u8 (Z.lor nri 24)]
  | Hevc =>
      let minimumLayerId := fold_left (fun m unit => Z.min m (layerId unit)) units 0x3F in
      let minimumTid := fold_left (fun m unit => Z.min m (u8 (Z.land (unit !!! 1%nat) 0x07))) units 0x07 in
      [u8 (Z.lor (Z.shiftl 48 1) (Z.shiftr minimumLayerId 5)); u8 (Z.lor (Z.shiftl minimumLayerId 3) minimumTid)]
  end.

Definition aggregate (units : list (list Z)) (codec : MediaAnnexBCodec) : list Z :=
  aggregateHeader units codec ++
  concat (map (fun unit => [u8 (Z.shiftr (Z.of_nat (length unit)) 8); u8 (Z.of_nat (length unit))] ++ unit) units).

Definition originalType (nal : list Z) (codec : MediaAnnexBCodec) : Z :=
  match codec with
  | H264 => u8 (Z.land (nal !!! 0%nat) 0x1F)
  | Hevc => u8 (Z.land (Z.shiftr (nal !!! 0%nat) 1) 0x3F)
  end.

(** The payload header of a fragment. *)
Definition fuIndicator (nal : list Z) (codec : MediaAnnexBCodec) : list Z :=
  match codec with
  | H264 => [u8 (Z.lor (Z.land (nal !!! 0%nat) 0xE0) 28)]
  | Hevc => [u8 (Z.lor (Z.land (nal !!! 0%nat) 0x81) (Z.shiftl 49 1)); nal !!! 1%nat]
  end.

Definition fragmentFlags (type : Z) (first lastOne : bool) : Z :=
  let flags := if first then Z.lor type 0x80 else type in
  if lastOne then Z.lor flags 0x40 else flags.

(** The loop of [fragment]; every fragment carries at least one byte. *)
Fixpoint fragmentLoop (fuel : nat) (nal : list Z) (codec : MediaAnnexBCodec) (capacity : nat)
    (remaining : list Z) (first : bool) : list MediaVideoRtpPayloadPacket :=
  match fuel with
  | O => []
  | S fuel' =>
      if bool_decide (remaining = []) then []
      else
        let count := Nat.min capacity (length remaining) in
        let flags := fragmentFlags (originalType nal codec) first (count =? length remaining)%nat in
        mkPayload (fuIndicator nal codec ++ [flags] ++ take count remaining) false
        :: fragmentLoop fuel' nal codec capacity (drop count remaining) false
  end.

Definition fragment (nal : list Z) (codec : MediaAnnexBCodec) (maximumPayload : nat) : list MediaVideoRtpPayloadPacket :=
  let capacity := (maximumPayload - fuHeaderBytes codec)%nat in
  let remaining := drop (headerBytes codec) nal in
  fragmentLoop (length remaining) nal codec capacity remaining true.

Definition maximumDatagramsForPayloadWindow (maximumPayloadBytes accessUnitCount : Z) (codec : MediaAnnexBCodec)
    (maximumRtpPayloadBytes : Z) : Result Z :=
  let fuHeader := Z.of_nat (fuHeaderBytes codec) in
  if (maximumPayloadBytes =? 0) || (accessUnitCount =? 0) || (maximumRtpPayloadBytes <=? fuHeader)
  then failure (invalidArgument "video RTP emission geometry is incomplete")
  else
    match ceilScale maximumPayloadBytes 1 (u64 (maximumRtpPayloadBytes - fuHeader))
            "deterministic video RTP access-unit fragments" with
    | Failure e => Failure e
    | Success fragments =>
        let doubled := multiply fragments 2 "deterministic video RTP aggregation bound" in
        let accessUnitBound := multiply accessUnitCount 3 "deterministic video RTP access-unit boundary bound" in
        let combined :=
          match doubled, accessUnitBound with
          | Success d, Success a => add d a "deterministic video RTP payload-window bound"
          | Failure _, _ => doubled
          | _, _ => accessUnitBound
          end in
        match combined with
        | Failure e => Failure e
        | Success c => Success (u64 (c - 2))
        end
    end.

Definition maximumDatagramsPerAccessUnit (maximumAccessUnitBytes : Z) (codec : MediaAnnexBCodec)
    (maximumRtpPayloadBytes : Z) : Result Z :=
  maximumDatagramsForPayloadWindow maximumAccessUnitBytes 1 codec maximumRtpPayloadBytes.

(** [end - index] after the inner loop: how many of the units from [index] fit
    one aggregate. *)
Fixpoint aggregateCount (maximum aggregateBytes : nat) (units : list (list Z)) : nat :=
  match units with
  | [] => 0
  | unit :: rest =>
      if (length unit <=? maximum)%nat && (Z.of_nat (length unit) <=? 65535) &&
         (2 + length unit <=? maximum - aggregateBytes)%nat
      then S (aggregateCount maximum (aggregateBytes + (2 + length unit)) rest) else 0
  end.

(** The loop over the units from [index]; every round takes at least one. *)
Fixpoint packetizeLoop (fuel : nat) (codec : MediaAnnexBCodec) (maximum : nat) (units : list (list Z)) :
    list MediaVideoRtpPayloadPacket :=
  match fuel, units with
  | S fuel', unit :: rest =>
      if (maximum <? length unit)%nat
      then fragment unit codec maximum ++ packetizeLoop fuel' codec maximum rest
      else
        let count := aggregateCount maximum (headerBytes codec) units in
        if (2 <=? count)%nat
        then mkPayload (aggregate (take count units) codec) false
             :: packetizeLoop fuel' codec maximum (drop count units)
        else mkPayload unit false :: packetizeLoop fuel' codec maximum rest
  | _, _ => []
  end.

(** [output.back().marker = true]. *)
Definition markLast (output : list MediaVideoRtpPayloadPacket) : list MediaVideoRtpPayloadPacket :=
  alter (fun p => mkPayload (vp_payload p) true) (pred (length output)) output.

Definition packetize (accessUnit : list Z) (codec : MediaAnnexBCodec) (layout : Layout)
    (maximumRtpPayloadBytes : nat) : Result (list MediaVideoRtpPayloadPacket) :=
  if (maximumRtpPayloadBytes <=? fuHeaderBytes codec)%nat
  then failure (invalidArgument "video RTP payload bound cannot carry a fragmentation unit")
  else
    let* units := scan accessUnit codec layout in
    let output := packetizeLoop (length units) codec maximumRtpPayloadBytes units in
    if bool_decide (output = [])
    then failure (invalidArgument "video RTP packetizer emitted no payload")
    else Success (markLast output).

End MediaDeterministicVideoRtpPacketizer.

(** ** The NAL unit parsers *)

Module MediaRtpNalUnitParser.

Definition validH264NalHeader (header : Z) : bool :=
  let type := Z.land header 0x1F in
  (Z.land header 0x80 =? 0) && (1 <=? type) && (type <=? 23).

Definition validHevcNalHeader (data : list Z) : bool :=
  (Z.land (data !!! 0%nat) 0x80 =? 0) && negb (Z.land (data !!! 1%nat) 0x07 =? 0).

Record MediaRtpNalUnitBatch := mkBatch {
  nb_timestamp : Z;
  nb_marker : bool;
  nb_discardedFragment : bool;
  nb_nalUnits : list (list Z);
}.

(** The members of both parsers. *)
Record NalParser := mkNalParser {
  np_payloadType : Z;
  np_fragment : list Z;
  np_fragmentHeader : option Z;
  np_fragmentTimestamp : option Z;
}.

Definition createParser (payloadType : Z) : NalParser := mkNalParser payloadType [] None None.

(** [discontinuity] of both parsers. *)
Definition parserDiscontinuity (p : NalParser) : NalParser := mkNalParser (np_payloadType p) [] None None.

Definition invalidPayload {A} (message : string) : Result A := failure (invalidArgument message).

(** The loop over a STAP-A payload, from [offset]. *)
Fixpoint stapLoop (fuel : nat) (payload : list Z) (offset : nat) (units : list (list Z)) : Result (list (list Z)) :=
  match fuel with
  | O => failure (internalError "out of fuel")
  | S fuel' =>
      if (offset <? length payload)%nat then
        if (length payload - offset <? 2)%nat then invalidPayload "H264 STAP-A truncated NAL length"
        else
          let len := Z.to_nat (Z.lor (Z.shiftl (payload !!! offset) 8) (payload !!! (offset + 1)%nat)) in
          let offset1 := (offset + 2)%nat in
          if (len =? 0)%nat || (length payload - offset1 <? len)%nat then invalidPayload "H264 STAP-A invalid NAL length"
          else if negb (validH264NalHeader (payload !!! offset1))
          then invalidPayload "H264 STAP-A contains invalid NAL header"
          else stapLoop fuel' payload (offset1 + len) (units ++ [take len (drop offset1 payload)])
      else Success units
  end.

(** The FU-A part of the push, from the test of the size. *)
Definition pushFuA (packet : MediaRtpPacket) (maximumNalUnitBytes : nat) (result : list (list Z) -> bool -> MediaRtpNalUnitBatch)
    (p : NalParser) : Result MediaRtpNalUnitBatch * NalParser :=
  let payload := rp_payload packet in
  if (length payload <? 3)%nat then (invalidPayload "H264 FU-A is truncated", p)
  else
    let header := payload !!! 1%nat in
    let start := negb (Z.land header 0x80 =? 0) in
    let stop := negb (Z.land header 0x40 =? 0) in
    let fragmentedType := Z.land header 0x1F in
    if negb (Z.land header 0x20 =? 0) || (start && stop) || (fragmentedType =? 0) || (23 <? fragmentedType)
    then (invalidPayload "H264 FU-A flags are invalid", p)
    else
      let nalHeader := u8 (Z.lor (Z.land (payload !!! 0%nat) 0xE0) fragmentedType) in
      let continue (p : NalParser) :=
        if negb (bool_decide (np_fragmentTimestamp p = Some (rp_timestamp packet))) ||
           negb (bool_decide (np_fragmentHeader p = Some nalHeader))
        then (invalidPayload "H264 FU-A continuation changed timestamp, NRI, or NAL type", p)
        else if (maximumNalUnitBytes <? length (np_fragment p))%nat ||
                (maximumNalUnitBytes - length (np_fragment p) <? length payload - 2)%nat
        then (invalidPayload "H264 FU-A exceeds its prepared NAL byte capacity", p)
        else
          let p1 := mkNalParser (np_payloadType p) (np_fragment p ++ drop 2 payload)
                      (np_fragmentHeader p) (np_fragmentTimestamp p) in
          if rp_marker packet && negb stop then (invalidPayload "H264 marker closed an incomplete FU-A", p1)
          else if stop then (Success (result [np_fragment p1] false), mkNalParser (np_payloadType p1) [] None None)
          else (Success (result [] false), p1) in
      if start then
        match np_fragmentHeader p with
        | Some _ => (invalidPayload "H264 FU-A duplicate start", p)
        | None => continue (mkNalParser (np_payloadType p) [nalHeader] (Some nalHeader) (Some (rp_timestamp packet)))
        end
      else
        match np_fragmentHeader p with
        | None => (Success (result [] true), p)
        | Some _ => continue p
        end.

(** [MediaH264RtpNalUnitParser::push]. *)
Definition pushH264 (packet : MediaRtpPacket) (maximumNalUnitBytes : nat) (p : NalParser) :
    Result MediaRtpNalUnitBatch * NalParser :=
  let payload := rp_payload packet in
  if (maximumNalUnitBytes =? 0)%nat then (invalidPayload "H264 RTP requires an explicit NAL byte capacity", p)
  else if negb (rp_payloadType packet =? np_payloadType p) || bool_decide (payload = [])
  then (invalidPayload "H264 RTP packet has invalid payload identity or empty payload", p)
  else if negb (Z.land (payload !!! 0%nat) 0x80 =? 0) then (invalidPayload "H264 RTP NAL forbidden_zero_bit is set", p)
  else
    let result units discarded := mkBatch (rp_timestamp packet) (rp_marker packet) discarded units in
    let type := Z.land (payload !!! 0%nat) 0x1F in
    if (1 <=? type) && (type <=? 23) then
      match np_fragmentHeader p with
      | Some _ => (invalidPayload "H264 single NAL interrupted FU-A", p)
      | None =>
          if negb (validH264NalHeader (payload !!! 0%nat)) then (invalidPayload "H264 RTP single NAL header is invalid", p)
          else (Success (result [payload] false), p)
      end
    else if type =? 24 then
      match np_fragmentHeader p with
      | Some _ => (invalidPayload "H264 STAP-A interrupted FU-A", p)
      | None =>
          if (length payload =? 1)%nat then (invalidPayload "H264 STAP-A contains no NAL units", p)
          else ((let* units := stapLoop (length payload) payload 1 [] in Success (result units false)), p)
      end
    else if negb (type =? 28)
    then (failure (unsupported "H264 RTP packetization type is not planned (STAP-B/MTAP/FU-B unsupported)"), p)
    else pushFuA packet maximumNalUnitBytes result p.

(** The loop over an HEVC aggregation packet, from [offset]. *)
Fixpoint apLoop (fuel : nat) (payload : list Z) (offset : nat) (units : list (list Z)) : Result (list (list Z)) :=
  match fuel with
  | O => failure (internalError "out of fuel")
  | S fuel' =>
      if (offset <? length payload)%nat then
        if (length payload - offset <? 2)%nat then invalidPayload "HEVC AP truncated NAL length"
        else
          let len := Z.to_nat (Z.lor (Z.shiftl (payload !!! offset) 8) (payload !!! (offset + 1)%nat)) in
          let offset1 := (offset + 2)%nat in
          if (len <? 2)%nat || (length payload - offset1 <? len)%nat then invalidPayload "HEVC AP invalid NAL length"
          else
            let data := drop offset1 payload in
            let aggregatedType := Z.land (Z.shiftr (data !!! 0%nat) 1) 0x3F in
            if negb (validHevcNalHeader data) || (47 <? aggregatedType)
            then invalidPayload "HEVC AP contains invalid NAL header"
            else apLoop fuel' payload (offset1 + len) (units ++ [take len data])
      else Success units
  end.

(** The FU part of the push, from the test of the size. *)
Definition pushFu (packet : MediaRtpPacket) (maximumNalUnitBytes : nat) (result : list (list Z) -> bool -> MediaRtpNalUnitBatch)
    (p : NalParser) : Result MediaRtpNalUnitBatch * NalParser :=
  let payload := rp_payload packet in
  if (length payload <? 4)%nat then (invalidPayload "HEVC FU is truncated", p)
  else
    let fuHeader := payload !!! 2%nat in
    let start := negb (Z.land fuHeader 0x80 =? 0) in
    let stop := negb (Z.land fuHeader 0x40 =? 0) in
    let fragmentedType := Z.land fuHeader 0x3F in
    if (start && stop) || (47 <? fragmentedType) then (invalidPayload "HEVC FU flags are invalid", p)
    else
      let reconstructedFirst := u8 (Z.lor (Z.land (payload !!! 0%nat) 0x81) (Z.shiftl fragmentedType 1)) in
      let reconstructedHeader := u16 (Z.lor (u16 (Z.shiftl reconstructedFirst 8)) (payload !!! 1%nat)) in
      let continue (p : NalParser) :=
        if negb (bool_decide (np_fragmentTimestamp p = Some (rp_timestamp packet))) ||
           negb (bool_decide (np_fragmentHeader p = Some reconstructedHeader))
        then (invalidPayload "HEVC FU continuation changed timestamp or NAL identity", p)
        else if (maximumNalUnitBytes <? length (np_fragment p))%nat ||
                (maximumNalUnitBytes - length (np_fragment p) <? length payload - 3)%nat
        then (invalidPayload "HEVC FU exceeds its prepared NAL byte capacity", p)
        else
          let p1 := mkNalParser (np_payloadType p) (np_fragment p ++ drop 3 payload)
                      (np_fragmentHeader p) (np_fragmentTimestamp p) in
          if rp_marker packet && negb stop then (invalidPayload "HEVC marker closed an incomplete FU", p1)
          else if stop then (Success (result [np_fragment p1] false), mkNalParser (np_payloadType p1) [] None None)
          else (Success (result [] false), p1) in
      if start then
        match np_fragmentHeader p with
        | Some _ => (invalidPayload "HEVC FU duplicate start", p)
        | None => continue (mkNalParser (np_payloadType p) [reconstructedFirst; payload !!! 1%nat]
                              (Some reconstructedHeader) (Some (rp_timestamp packet)))
        end
      else
        match np_fragmentHeader p with
        | None => (Success (result [] true), p)
        | Some _ => continue p
        end.

(** [MediaHevcRtpNalUnitParser::push]. *)
Definition pushHevc (packet : MediaRtpPacket) (maximumNalUnitBytes : nat) (p : NalParser) :
    Result MediaRtpNalUnitBatch * NalParser :=
  let payload := rp_payload packet in
  if (maximumNalUnitBytes <? 2)%nat then (invalidPayload "HEVC RTP requires an explicit NAL byte capacity", p)
  else if negb (rp_payloadType packet =? np_payloadType p) || (length payload <? 2)%nat
  then (invalidPayload "HEVC RTP payload identity is invalid or truncated", p)
  else if negb (validHevcNalHeader payload) then (invalidPayload "HEVC RTP payload NAL header is invalid", p)
  else
    let result units discarded := mkBatch (rp_timestamp packet) (rp_marker packet) discarded units in
    let type := Z.land (Z.shiftr (payload !!! 0%nat) 1) 0x3F in
    if type <=? 47 then
      match np_fragmentHeader p with
      | Some _ => (invalidPayload "HEVC single NAL interrupted FU", p)
      | None => (Success (result [payload] false), p)
      end
    else if type =? 48 then
      match np_fragmentHeader p with
      | Some _ => (invalidPayload "HEVC AP interrupted FU", p)
      | None =>
          if (length payload =? 2)%nat then (invalidPayload "HEVC AP contains no NAL units", p)
          else ((let* units := apLoop (length payload) payload 2 [] in Success (result units false)), p)
      end
    else if negb (type =? 49)
    then (failure (unsupported "HEVC RTP PACI or unsupported packetization mode"), p)
    else pushFu packet maximumNalUnitBytes result p.

End MediaRtpNalUnitParser.

(** ** After a loss *)

Module MediaRtpAccessUnitContinuity.

Record Continuity := mkContinuity {
  co_waitingForBoundary : bool;
  co_unprovenTimestamp : option Z;
}.

Definition createContinuity : Continuity := mkContinuity false None.

Definition markLost (c : Continuity) : Continuity := mkContinuity true None.

Definition accept (timestamp : Z) (c : Continuity) : bool * Continuity :=
  if negb (co_waitingForBoundary c) then (true, c)
  else
    let unproven := match co_unprovenTimestamp c with Some t => t | None => timestamp end in
    if unproven =? timestamp then (false, mkContinuity true (Some unproven))
    else (true, mkContinuity false None).

End MediaRtpAccessUnitContinuity.

(** ** The depacketizers *)

Module MediaRtpDepacketizer.
Import MediaRtpNalUnitParser MediaRtpAccessUnitContinuity.

Record MediaRtpDepacketizerConfig := mkConfig {
  dc_streamKind : MediaStreamKind;
  dc_codecName : string;
  dc_fmtp : string;
  dc_payloadType : Z;
  dc_clockRate : Z;
  dc_channels : Z;
  dc_accessUnitDurationRtpTicks : Z;
  dc_waitForKeyFrameAfterLoss : option bool;
}.

(** [MediaRtpAccessUnit] with the fields of its packet that the code sets. *)
Record MediaRtpAccessUnit := mkAccessUnit {
  au_data : list Z;
  au_pts : Z;
  au_dts : Z;
  au_duration : Z;
  au_keyFrame : bool;
  au_rtpTimestamp : Z;
  au_timeBase : MediaRational;
}.

Definition StartCode : list Z := [0; 0; 0; 1].

Definition rtpAccessUnitNalCapacity (assembledBytes maximumAccessUnitBytes : nat) : Result nat :=
  if (maximumAccessUnitBytes <? assembledBytes)%nat || (maximumAccessUnitBytes - assembledBytes <=? length StartCode)%nat
  then failure (invalidArgument "RTP access unit exceeds its prepared byte capacity")
  else Success (maximumAccessUnitBytes - assembledBytes - length StartCode)%nat.

(** The status and the output vector. *)
Definition appendRtpAccessUnitNal (output nal : list Z) (maximumAccessUnitBytes : nat) : Result (list Z) :=
  let* capacity := rtpAccessUnitNalCapacity (length output) maximumAccessUnitBytes in
  if (capacity <? length nal)%nat
  then failure (invalidArgument "RTP NAL exceeds the remaining prepared access unit capacity")
  else Success (output ++ StartCode ++ nal).

(** What the two depacketizers do differently. *)
Class DepacketizerCodec := {
  cd_push : MediaRtpPacket -> nat -> NalParser -> Result MediaRtpNalUnitBatch * NalParser;
  cd_shortNal : list Z -> bool;
  cd_shortNalMessage : string;
  cd_keyNal : list Z -> bool;
  cd_incompleteMessage : string;
}.

Definition keyType (type : Z) : bool := (16 <=? type) && (type <=? 21).

#[export] Instance h264Depacketizer : DepacketizerCodec := {
  cd_push := pushH264;
  cd_shortNal := fun bytes => bool_decide (bytes = []);
  cd_shortNalMessage := "H264 RTP parser produced an empty NAL unit";
  cd_keyNal := fun bytes => Z.land (bytes !!! 0%nat) 0x1F =? 5;
  cd_incompleteMessage := "H264 marker closed an incomplete access unit";
}.

#[export] Instance hevcDepacketizer : DepacketizerCodec := {
  cd_push := pushHevc;
  cd_shortNal := fun bytes => (length bytes <? 2)%nat;
  cd_shortNalMessage := "HEVC RTP parser produced a truncated NAL unit";
  cd_keyNal := fun bytes => keyType (Z.land (Z.shiftr (bytes !!! 0%nat) 1) 0x3F);
  cd_incompleteMessage := "HEVC marker closed an incomplete access unit";
}.

Record Depacketizer := mkDepacketizer {
  dp_config : MediaRtpDepacketizerConfig;
  dp_maximumAccessUnitBytes : nat;
  dp_continuity : Continuity;
  dp_nalParser : NalParser;
  dp_accessUnit : list Z;
  dp_timestamp : option Z;
  dp_keyFrame : bool;
}.

Definition create (config : MediaRtpDepacketizerConfig) (maximumAccessUnitBytes : nat) : Depacketizer :=
  mkDepacketizer config maximumAccessUnitBytes createContinuity
    (createParser (dc_payloadType config)) [] None false.

Definition setContinuity c d :=
  mkDepacketizer (dp_config d) (dp_maximumAccessUnitBytes d) c (dp_nalParser d) (dp_accessUnit d) (dp_timestamp d) (dp_keyFrame d).
Definition setNalParser p d :=
  mkDepacketizer (dp_config d) (dp_maximumAccessUnitBytes d) (dp_continuity d) p (dp_accessUnit d) (dp_timestamp d) (dp_keyFrame d).
Definition setAccessUnit a d :=
  mkDepacketizer (dp_config d) (dp_maximumAccessUnitBytes d) (dp_continuity d) (dp_nalParser d) a (dp_timestamp d) (dp_keyFrame d).
Definition setTimestamp t d :=
  mkDepacketizer (dp_config d) (dp_maximumAccessUnitBytes d) (dp_continuity d) (dp_nalParser d) (dp_accessUnit d) t (dp_keyFrame d).
Definition setKeyFrame k d :=
  mkDepacketizer (dp_config d) (dp_maximumAccessUnitBytes d) (dp_continuity d) (dp_nalParser d) (dp_accessUnit d) (dp_timestamp d) k.

(** [discontinuity]; the reason is not used. *)
Definition discontinuity (reason : MediaRtpDiscontinuityReason) (d : Depacketizer) : Depacketizer :=
  mkDepacketizer (dp_config d) (dp_maximumAccessUnitBytes d) (markLost (dp_continuity d))
    (parserDiscontinuity (dp_nalParser d)) [] None false.

Section Depacketizer.
Context (newPacket : Z -> bool) {codec : DepacketizerCodec}.

Definition makeRtpAccessUnit (bytes : list Z) (rtpTimestamp clockRate duration : Z) (keyFrame : bool) :
    Result MediaRtpAccessUnit :=
  if bool_decide (bytes = []) || (clockRate <=? 0)
  then failure (invalidArgument "RTP access unit requires bytes and clock rate")
  else if negb (newPacket (i32 (Z.of_nat (length bytes))))
  then failure (allocationFailed "RTP access unit AVPacket allocation failed")
  else Success (mkAccessUnit bytes rtpTimestamp rtpTimestamp duration keyFrame rtpTimestamp (mkRational 1 clockRate)).

(** [finish], called with the marker. *)
Definition finish (packet : MediaRtpPacket) (d : Depacketizer) : Result (list MediaRtpAccessUnit) * Depacketizer :=
  if bool_decide (dp_accessUnit d = [])
  then (failure (invalidArgument cd_incompleteMessage), discontinuity SequenceGap d)
  else
    let unit := makeRtpAccessUnit (dp_accessUnit d) (rp_timestamp packet) (dc_clockRate (dp_config d)) 0 (dp_keyFrame d) in
    let d1 := setKeyFrame false (setTimestamp None (setAccessUnit [] d)) in
    match unit with
    | Failure e => (failure e, d1)
    | Success unit => (Success [unit], d1)
    end.

(** The loop over the NAL units of a packet. *)
Fixpoint appendNals (nals : list (list Z)) (d : Depacketizer) : Status * Depacketizer :=
  match nals with
  | [] => (Success tt, d)
  | bytes :: nals' =>
      if cd_shortNal bytes then (failure (invalidArgument cd_shortNalMessage), d)
      else
        let d1 := setKeyFrame (dp_keyFrame d || cd_keyNal bytes) d in
        match appendRtpAccessUnitNal (dp_accessUnit d1) bytes (dp_maximumAccessUnitBytes d1) with
        | Failure e => (failure e, d1)
        | Success output => appendNals nals' (setAccessUnit output d1)
        end
  end.

Definition pushValidated (packet : MediaRtpPacket) (d : Depacketizer) : Result (list MediaRtpAccessUnit) * Depacketizer :=
  let changed := match dp_timestamp d with
                 | Some t => negb (t =? rp_timestamp packet) && negb (bool_decide (dp_accessUnit d = []))
                 | None => false
                 end in
  let d0 := if changed then discontinuity SequenceGap d else d in
  let '(accepted, continuity) := accept (rp_timestamp packet) (dp_continuity d0) in
  let d1 := setContinuity continuity d0 in
  if negb accepted then (Success [], d1)
  else
    let d2 := match dp_timestamp d1 with None => setTimestamp (Some (rp_timestamp packet)) d1 | Some _ => d1 end in
    match rtpAccessUnitNalCapacity (length (dp_accessUnit d2)) (dp_maximumAccessUnitBytes d2) with
    | Failure e => (failure e, d2)
    | Success capacity =>
        let '(parsed, parser) := cd_push packet capacity (dp_nalParser d2) in
        let d3 := setNalParser parser d2 in
        match parsed with
        | Failure e => (failure e, d3)
        | Success batch =>
            if nb_discardedFragment batch then (Success [], discontinuity SequenceGap d3)
            else
              match appendNals (nb_nalUnits batch) d3 with
              | (Failure e, d4) => (failure e, d4)
              | (Success _, d4) => if negb (rp_marker packet) then (Success [], d4) else finish packet d4
              end
        end
    end.

Definition push (packet : MediaRtpPacket) (d : Depacketizer) : Result (list MediaRtpAccessUnit) * Depacketizer :=
  match pushValidated packet d with
  | (Failure e, d') => (Failure e, discontinuity SequenceGap d')
  | (Success units, d') => (Success units, d')
  end.

(** What the reordered RTP stream brings: packets, and the gaps between them. *)
Inductive Event := Ev_Packet (packet : MediaRtpPacket) | Ev_Discontinuity (reason : MediaRtpDiscontinuityReason).

Definition handle (e : Event) (d : Depacketizer) : Result (list MediaRtpAccessUnit) * Depacketizer :=
  match e with
  | Ev_Packet packet => push packet d
  | Ev_Discontinuity reason => (Success [], discontinuity reason d)
  end.

Fixpoint run (events : list Event) (d : Depacketizer) : list (Result (list MediaRtpAccessUnit)) * Depacketizer :=
  match events with
  | [] => ([], d)
  | e :: events' => let '(r, d1) := handle e d in let '(rs, d2) := run events' d1 in (r :: rs, d2)
  end.

End Depacketizer.

End MediaRtpDepacketizer.
