(* ===== verification/RtpVideoRoundTrip.v ===== *)
(** * From the video packetizer to the depacketizers

    What [MediaDeterministicVideoRtpPacketizer] writes, the H.264 and HEVC
    depacketizers read.  The class [DepacketizerLaws] states what a NAL parser
    promises to the depacketizer around it, for each of the three payload
    forms; the two instances are proved from the parsers, and the depacketizer's
    theorems from the class. *)

From S2P Require Import Prelude MediaResult Model RtpWire RtpReorder VideoNal RtpVideo.
Import MediaRtpPacketParser MediaVideoNalUnitScanner MediaDeterministicVideoRtpPacketizer.
Import MediaRtpNalUnitParser MediaRtpAccessUnitContinuity MediaRtpDepacketizer.
Import MediaRtpReorderBuffer (SequenceGap).

Local Open Scope Z_scope.
Local Open Scope result_scope.

Module MediaRtpVideoRoundTrip.

(** ** What a NAL parser promises *)

Definition byteList (l : list Z) : Prop := Forall (is_u 8) l.

Definition nalOk (codec : MediaAnnexBCodec) (u : list Z) : Prop := validNal u codec = true /\ byteList u.

(** The NAL header as the parsers keep it. *)
Definition nalHeader (codec : MediaAnnexBCodec) (u : list Z) : Z :=
  match codec with H264 => u !!! 0%nat | Hevc => (u !!! 0%nat) * 256 + u !!! 1%nat end.

(** The parser after [k] bytes behind the header of [u]. *)
Definition midParser (codec : MediaAnnexBCodec) (pt ts : Z) (u : list Z) (k : nat) : NalParser :=
  if (k =? 0)%nat then createParser pt
  else mkNalParser pt (take (headerBytes codec + k) u) (Some (nalHeader codec u)) (Some ts).

(** A packet of the stream. *)
Definition carries (pt ts : Z) (payload : list Z) (packet : MediaRtpPacket) : Prop :=
  rp_payload packet = payload /\ rp_payloadType packet = pt /\ rp_timestamp packet = ts.

Definition setMarker (m : bool) (p : MediaRtpPacket) : MediaRtpPacket :=
  mkPacket (rp_version p) m (rp_payloadType p) (rp_sequenceNumber p) (rp_timestamp p) (rp_ssrc p) (rp_csrcs p)
    (rp_extension p) (rp_paddingSize p) (rp_payload p).

Class DepacketizerLaws (codec : MediaAnnexBCodec) (C : DepacketizerCodec) : Prop := {
  law_short u : validNal u codec = true -> cd_shortNal u = false;
  law_single pt ts u packet cap : nalOk codec u -> carries pt ts u packet -> (length u <= cap)%nat ->
    cd_push packet cap (createParser pt) = (Success (mkBatch ts (rp_marker packet) false [u]), createParser pt);
  law_aggregate pt ts us packet cap :
    us <> [] -> Forall (nalOk codec) us -> Forall (fun u => Z.of_nat (length u) <= 65535) us ->
    carries pt ts (aggregate us codec) packet -> (2 <= cap)%nat ->
    cd_push packet cap (createParser pt) = (Success (mkBatch ts (rp_marker packet) false us), createParser pt);
  law_fragment pt ts u k chunk rest packet cap : nalOk codec u ->
    drop (headerBytes codec + k) u = chunk ++ rest -> chunk <> [] -> (k = 0%nat -> rest <> []) ->
    let lastOne := bool_decide (rest = []) in
    carries pt ts (fuIndicator u codec ++ [fragmentFlags (originalType u codec) (k =? 0)%nat lastOne] ++ chunk) packet ->
    rp_marker packet = false -> (length u <= cap)%nat ->
    cd_push packet cap (midParser codec pt ts u k) =
      (Success (mkBatch ts false false (if lastOne then [u] else [])),
       if lastOne then createParser pt else midParser codec pt ts u (k + length chunk));
  law_marker packet cap p b p' : rp_marker packet = false -> np_fragmentHeader p' = None ->
    cd_push packet cap p = (Success b, p') -> nb_discardedFragment b = false ->
    cd_push (setMarker true packet) cap p =
      (Success (mkBatch (nb_timestamp b) true false (nb_nalUnits b)), p');
}.

(** ** Headers, byte by byte *)

Ltac byte_cases H := apply andb_true_iff in H; destruct H as [H ?].

(** [z] is below [n] and the goal is a check [P z] of all such [z]. *)
Lemma h264_header b : is_u 8 b -> (Z.land b 0x80 =? 0) && (1 <=? Z.land b 0x1F) && (Z.land b 0x1F <=? 23) = true ->
  forall first lastOne,
  let ind := u8 (Z.lor (Z.land b 0xE0) 28) in
  let type := u8 (Z.land b 0x1F) in
  let f := fragmentFlags type first lastOne in
  Z.land ind 0x80 = 0 /\ Z.land ind 0x1F = 28 /\ negb (Z.land f 0x80 =? 0) = first /\
  negb (Z.land f 0x40 =? 0) = lastOne /\ Z.land f 0x20 = 0 /\ Z.land f 0x1F = type /\ 1 <= type <= 23 /\
  u8 (Z.lor (Z.land ind 0xE0) type) = b.
Proof.
  intros Hb Hv first lastOne. cbv zeta.
  pose proof (forallb_below (fun b => negb ((Z.land b 0x80 =? 0) && (1 <=? Z.land b 0x1F) && (Z.land b 0x1F <=? 23)) ||
    let ind := u8 (Z.lor (Z.land b 0xE0) 28) in
    let type := u8 (Z.land b 0x1F) in
    let f := fragmentFlags type first lastOne in
    (Z.land ind 0x80 =? 0) && (Z.land ind 0x1F =? 28) && Bool.eqb (negb (Z.land f 0x80 =? 0)) first &&
    Bool.eqb (negb (Z.land f 0x40 =? 0)) lastOne && (Z.land f 0x20 =? 0) && (Z.land f 0x1F =? type) &&
    (1 <=? type) && (type <=? 23) && (u8 (Z.lor (Z.land ind 0xE0) type) =? b)) 256 b) as H.
  specialize (H ltac:(destruct first, lastOne; vm_compute; reflexivity) Hb). cbv beta zeta in H.
  rewrite Hv in H. cbn [negb orb] in H.
  rewrite !andb_true_iff, !Z.eqb_eq, !Z.leb_le, !Bool.eqb_true_iff in H. tauto.
Qed.

Lemma hevc_header b : is_u 8 b -> (Z.land b 0x80 =? 0) && (Z.land (Z.shiftr b 1) 0x3F <=? 47) = true ->
  forall first lastOne,
  let ind := u8 (Z.lor (Z.land b 0x81) (Z.shiftl 49 1)) in
  let type := u8 (Z.land (Z.shiftr b 1) 0x3F) in
  let f := fragmentFlags type first lastOne in
  Z.land ind 0x80 = 0 /\ Z.land (Z.shiftr ind 1) 0x3F = 49 /\ negb (Z.land f 0x80 =? 0) = first /\
  negb (Z.land f 0x40 =? 0) = lastOne /\ Z.land f 0x3F = type /\ 0 <= type <= 47 /\
  u8 (Z.lor (Z.land ind 0x81) (Z.shiftl type 1)) = b.
Proof.
  intros Hb Hv first lastOne. cbv zeta.
  pose proof (forallb_below (fun b => negb ((Z.land b 0x80 =? 0) && (Z.land (Z.shiftr b 1) 0x3F <=? 47)) ||
    let ind := u8 (Z.lor (Z.land b 0x81) (Z.shiftl 49 1)) in
    let type := u8 (Z.land (Z.shiftr b 1) 0x3F) in
    let f := fragmentFlags type first lastOne in
    (Z.land ind 0x80 =? 0) && (Z.land (Z.shiftr ind 1) 0x3F =? 49) && Bool.eqb (negb (Z.land f 0x80 =? 0)) first &&
    Bool.eqb (negb (Z.land f 0x40 =? 0)) lastOne && (Z.land f 0x3F =? type) &&
    (0 <=? type) && (type <=? 47) && (u8 (Z.lor (Z.land ind 0x81) (Z.shiftl type 1)) =? b)) 256 b) as H.
  specialize (H ltac:(destruct first, lastOne; vm_compute; reflexivity) Hb). cbv beta zeta in H.
  rewrite Hv in H. cbn [negb orb] in H.
  rewrite !andb_true_iff, !Z.eqb_eq, !Z.leb_le, !Bool.eqb_true_iff in H. tauto.
Qed.

Lemma hevc_aggregate_header layer tid : 0 <= layer < 64 -> 1 <= tid <= 7 ->
  let b0 := u8 (Z.lor (Z.shiftl 48 1) (Z.shiftr layer 5)) in
  Z.land b0 0x80 = 0 /\ Z.land (Z.shiftr b0 1) 0x3F = 48 /\ Z.land (u8 (Z.lor (Z.shiftl layer 3) tid)) 0x07 = tid.
Proof.
  intros Hl Ht. cbv zeta.
  pose proof (forallb_below (fun layer => forallb (fun tid =>
    let b0 := u8 (Z.lor (Z.shiftl 48 1) (Z.shiftr layer 5)) in
    (Z.land b0 0x80 =? 0) && (Z.land (Z.shiftr b0 1) 0x3F =? 48) && (Z.land (u8 (Z.lor (Z.shiftl layer 3) tid)) 0x07 =? tid))
    (seqZ 0 8)) 64 layer ltac:(vm_compute; reflexivity) Hl) as H. cbv beta in H.
  apply (forallb_below _ 8 tid) in H; [| lia]. cbv zeta in H.
  rewrite !andb_true_iff, !Z.eqb_eq in H. tauto.
Qed.

(** The length field of an aggregate. *)
Lemma aggregate_length_field n : 0 <= n <= 65535 -> Z.lor (Z.shiftl (u8 (Z.shiftr n 8)) 8) (u8 n) = n.
Proof.
  intros Hn. rewrite shiftr_div by lia. rewrite lor_shiftl_add by (unfold u8; divmod). unfold u8. divmod.
Qed.

(** ** The H.264 parser *)

Lemma validNal_h264 u : validNal u H264 = true ->
  (0 < length u)%nat /\
  (Z.land (u !!! 0%nat) 0x80 =? 0) && (1 <=? Z.land (u !!! 0%nat) 0x1F) && (Z.land (u !!! 0%nat) 0x1F <=? 23) = true.
Proof. intros Hv. split; [by eapply validNal_positive |]. unfold validNal in Hv. by destruct (_ <? _)%nat. Qed.

Lemma byteList_at l i : byteList l -> is_u 8 (l !!! i).
Proof.
  intros H. destruct (decide (i < length l)%nat) as [Hi | Hi].
  - destruct (lookup_lt_is_Some_2 l i Hi) as [x Hx]. rewrite (list_lookup_total_correct _ _ _ Hx). by eapply Forall_lookup_1.
  - rewrite list_lookup_total_alt, lookup_ge_None_2 by lia. unfold is_u. simpl. lia.
Qed.

(** The units of an aggregate behind its header. *)
Definition aggregateBody (us : list (list Z)) : list Z :=
  concat (map (fun unit => [u8 (Z.shiftr (Z.of_nat (length unit)) 8); u8 (Z.of_nat (length unit))] ++ unit) us).

Lemma aggregate_body us codec : aggregate us codec = aggregateHeader us codec ++ aggregateBody us.
Proof. done. Qed.

Lemma aggregateBody_cons u us :
  aggregateBody (u :: us) = u8 (Z.shiftr (Z.of_nat (length u)) 8) :: u8 (Z.of_nat (length u)) :: u ++ aggregateBody us.
Proof. done. Qed.

Lemma aggregateBody_length us : length (aggregateBody us) = sum_list_with (fun u => 2 + length u)%nat us.
Proof.
  induction us as [| u us IH]; [done |]. rewrite aggregateBody_cons. cbn [length sum_list_with].
  rewrite length_app, IH. lia.
Qed.

(** What an aggregate's reader finds at an offset. *)
Lemma read_aggregated payload offset u us : drop offset payload = aggregateBody (u :: us) ->
  Z.of_nat (length u) <= 65535 ->
  length payload = (offset + (2 + length u + length (aggregateBody us)))%nat /\
  Z.to_nat (Z.lor (Z.shiftl (payload !!! offset) 8) (payload !!! (offset + 1)%nat)) = length u /\
  drop (offset + 2) payload = u ++ aggregateBody us /\
  take (length u) (drop (offset + 2) payload) = u /\ drop (offset + 2 + length u) payload = aggregateBody us.
Proof.
  intros E Hl. rewrite aggregateBody_cons in E.
  assert (El : length payload = (offset + (2 + length u + length (aggregateBody us)))%nat).
  { apply (f_equal length) in E. rewrite length_drop in E. cbn [length] in E. rewrite length_app in E. lia. }
  assert (Ed : drop (offset + 2) payload = u ++ aggregateBody us) by (by rewrite <- drop_drop, E).
  split_and!; [done | | done | by rewrite Ed, take_app_length | by rewrite <- drop_drop, Ed, drop_app_length].
  rewrite <- (Nat.add_0_r offset) at 1. rewrite <- !lookup_total_drop, E. cbn. rewrite aggregate_length_field by lia. lia.
Qed.

Lemma stapLoop_units fuel payload offset units us :
  Forall (fun u => validNal u H264 = true) us -> Forall (fun u => Z.of_nat (length u) <= 65535) us ->
  drop offset payload = aggregateBody us -> (length us < fuel)%nat ->
  stapLoop fuel payload offset units = Success (units ++ us).
Proof.
  intros Hv. revert fuel offset units. induction Hv as [| u us Hv Hus IH]; intros fuel offset units Hl E Hf;
    (destruct fuel as [| fuel]; [lia |]); cbn [stapLoop].
  { apply (f_equal length) in E. rewrite length_drop in E. simpl in E.
    replace (_ <? _)%nat with false by (symmetry; apply Nat.ltb_ge; lia). by rewrite app_nil_r. }
  apply Forall_cons in Hl as [Hlu Hl]. destruct (read_aggregated _ _ _ _ E Hlu) as (El & E1 & E2 & E3 & E4).
  destruct (validNal_h264 u Hv) as [Hpos Hhead].
  replace (offset <? length payload)%nat with true by (symmetry; apply Nat.ltb_lt; lia).
  replace (_ <? 2)%nat with false by (symmetry; apply Nat.ltb_ge; lia). cbv zeta. rewrite E1.
  replace (_ || _) with false by (symmetry; rewrite orb_false_iff, Nat.eqb_neq, Nat.ltb_ge; lia).
  replace (payload !!! (offset + 2)%nat) with (u !!! 0%nat); cycle 1.
  { rewrite <- (Nat.add_0_r (offset + 2)), <- lookup_total_drop, E2. by rewrite lookup_total_app_l. }
  unfold validH264NalHeader. rewrite Hhead. cbn [negb]. rewrite E3.
  rewrite IH; [by rewrite <- app_assoc | done | done | cbn in Hf; lia].
Qed.

Lemma h264_aggregate_header us : Forall (fun u => byteList u) us ->
  exists b, aggregateHeader us H264 = [b] /\ Z.land b 0x80 = 0 /\ Z.land b 0x1F = 24.
Proof.
  intros Hus. unfold aggregateHeader.
  set (f := fun nri unit => Z.max nri (u8 (Z.land (unit !!! 0%nat) 0x60))).
  assert (Hn : forall nri, nri ∈ [0; 0x20; 0x40; 0x60] -> fold_left f us nri ∈ [0; 0x20; 0x40; 0x60]).
  { induction Hus as [| u us Hu Hus IH]; intros nri Hnri; [done |]. cbn [fold_left]. apply IH. unfold f.
    destruct (Z.max_spec nri (u8 (Z.land (u !!! 0%nat) 0x60))) as [[_ ->] | [_ ->]]; [| done].
    pose proof (forallb_below (fun b => existsb (Z.eqb (u8 (Z.land b 0x60))) [0; 0x20; 0x40; 0x60]) 256 (u !!! 0%nat)
      ltac:(vm_compute; reflexivity) (byteList_at u 0%nat Hu)) as (x & Hx & E%Z.eqb_eq)%existsb_exists.
    rewrite E. by apply list_elem_of_In. }
  specialize (Hn 0 ltac:(left)). exists (u8 (Z.lor (fold_left f us 0) 24)). split; [done |].
  rewrite !elem_of_cons in Hn. destruct_or! Hn; try rewrite Hn; try done. by apply not_elem_of_nil in Hn.
Qed.

(** The fragment a continuation adds. *)
Lemma take_fragment (u chunk rest : list Z) n : drop n u = chunk ++ rest -> take n u ++ chunk = take (n + length chunk) u.
Proof.
  intros E. rewrite <- (take_drop n u) at 2. rewrite E.
  destruct (decide (n <= length u)%nat) as [Hl | Hl].
  - rewrite take_app_ge by (rewrite length_take; lia). rewrite length_take, Nat.min_l by lia. f_equal.
    replace (n + length chunk - n)%nat with (length chunk) by lia. by rewrite take_app_length.
  - rewrite drop_ge in E by lia. symmetry in E. apply app_eq_nil in E as [-> ->]. rewrite !app_nil_r.
    rewrite !take_ge by (rewrite ?length_take; lia). done.
Qed.

(** The parser's state in front of a fragment that it accepts. *)
Lemma fragment_state codec (u chunk rest : list Z) k :
  (headerBytes codec <= length u)%nat -> drop (headerBytes codec + k) u = chunk ++ rest -> chunk <> [] ->
  let n := (headerBytes codec + k)%nat in
  length (take n u) = n /\ (n + length chunk + length rest = length u)%nat /\
  take n u ++ chunk = take (n + length chunk) u /\ (rest = [] -> take n u ++ chunk = u).
Proof.
  intros Hl E Hc n. assert (El : (length u - n = length chunk + length rest)%nat)
    by (unfold n; rewrite <- length_drop, E, length_app; done).
  assert (0 < length chunk)%nat by (destruct chunk; [done | cbn; lia]).
  assert (Hn : (n <= length u)%nat) by lia. split_and!; [rewrite length_take; lia | lia | by apply (take_fragment _ _ rest) |].
  intros ->. rewrite (take_fragment _ _ []) by done. apply take_ge. cbn in El. lia.
Qed.

Lemma setMarker_fields packet m :
  rp_payload (setMarker m packet) = rp_payload packet /\ rp_payloadType (setMarker m packet) = rp_payloadType packet /\
  rp_timestamp (setMarker m packet) = rp_timestamp packet /\ rp_marker (setMarker m packet) = m.
Proof. done. Qed.

Lemma fragment_flags_last (rest : list Z) (first : bool) :
  (first = true -> rest <> []) -> first && bool_decide (rest = []) = false.
Proof. intros H. destruct first; [| done]. by rewrite bool_decide_eq_false_2 by auto. Qed.

(** A marker changes nothing on a packet that leaves no open fragment. *)
Definition markerFree (push : MediaRtpPacket -> nat -> NalParser -> Result MediaRtpNalUnitBatch * NalParser) : Prop :=
  forall packet cap p b p', rp_marker packet = false -> np_fragmentHeader p' = None ->
    push packet cap p = (Success b, p') -> nb_discardedFragment b = false ->
    push (setMarker true packet) cap p = (Success (mkBatch (nb_timestamp b) true false (nb_nalUnits b)), p').

(** Runs both pushes along the same branches. *)
Ltac marker_branches :=
  repeat first
    [ progress cbn [np_fragmentHeader np_fragmentTimestamp np_payloadType np_fragment negb andb orb]
    | match goal with
      | |- context [match np_fragmentHeader ?p with _ => _ end] =>
          let E := fresh "Eheader" in destruct (np_fragmentHeader p) eqn:E
      | |- context [bindResult ?r _] => destruct r; cbn [bindResult]
      | |- context [if ?c then _ else _] => destruct c eqn:?
      end ].

Ltac marker_close :=
  unfold invalidPayload; intros Hpush;
  try (exfalso; unfold failure in Hpush; repeat case_match; discriminate Hpush);
  injection Hpush as <- <-; cbn [np_fragmentHeader nb_discardedFragment nb_timestamp nb_nalUnits] in *; try done; congruence.

Lemma marker_h264 : markerFree pushH264.
Proof.
  intros packet cap p b p' Em Hp' Hpush Hd. revert Hpush. unfold pushH264, pushFuA.
  destruct (setMarker_fields packet true) as (-> & -> & -> & ->). rewrite Em. cbv zeta.
  marker_branches; marker_close.
Qed.

Lemma single_h264 pt ts u packet cap : nalOk H264 u -> carries pt ts u packet -> (length u <= cap)%nat ->
  pushH264 packet cap (createParser pt) = (Success (mkBatch ts (rp_marker packet) false [u]), createParser pt).
Proof.
  intros [Hv Hb] (Ep & Et & Ets) Hc. destruct (validNal_h264 u Hv) as [Hpos Hhead].
  unfold pushH264. rewrite Ep, Et, Ets. cbn [createParser np_payloadType np_fragmentHeader].
  replace (cap =? 0)%nat with false by (symmetry; apply Nat.eqb_neq; lia). rewrite Z.eqb_refl.
  rewrite bool_decide_eq_false_2 by (destruct u; [cbn in Hpos; lia | done]). cbn [negb orb]. unfold validH264NalHeader.
  rewrite Hhead. rewrite !andb_true_iff in Hhead. destruct Hhead as [[-> ->] ->]. done.
Qed.

Lemma aggregateBody_count us : (length us <= length (aggregateBody us))%nat.
Proof. rewrite aggregateBody_length. induction us as [| u us IH]; cbn [length sum_list_with]; lia. Qed.

Lemma aggregate_h264 pt ts us packet cap :
  us <> [] -> Forall (nalOk H264) us -> Forall (fun u => Z.of_nat (length u) <= 65535) us ->
  carries pt ts (aggregate us H264) packet -> (2 <= cap)%nat ->
  pushH264 packet cap (createParser pt) = (Success (mkBatch ts (rp_marker packet) false us), createParser pt).
Proof.
  intros Hn Hus Hl (Ep & Et & Ets) Hc.
  destruct (h264_aggregate_header us) as (b & Eh & Hb1 & Hb2); [by eapply Forall_impl; [exact Hus |]; intros ? [] |].
  unfold pushH264. rewrite Ep, Et, Ets, aggregate_body, Eh. cbn [createParser np_payloadType np_fragmentHeader].
  replace (cap =? 0)%nat with false by (symmetry; apply Nat.eqb_neq; lia). rewrite Z.eqb_refl.
  rewrite bool_decide_eq_false_2 by done. change (([b] ++ aggregateBody us) !!! 0%nat) with b.
  rewrite Hb1, Hb2. cbn [negb orb andb Z.eqb Z.leb Z.compare Pos.compare Pos.compare_cont Pos.eqb].
  destruct us as [| u us]; [done |]. apply Forall_cons in Hl as Hl'. destruct Hl' as [Hlu _].
  replace (length ([b] ++ aggregateBody (u :: us)) =? 1)%nat with false by done.
  rewrite (stapLoop_units _ _ _ _ (u :: us)); [done | | done | done |].
  - eapply Forall_impl; [exact Hus |]. by intros ? [].
  - rewrite length_app. pose proof (aggregateBody_count (u :: us)). cbn [length] in *. lia.
Qed.

Lemma fragment_h264 pt ts u k chunk rest packet cap : nalOk H264 u ->
  drop (1 + k) u = chunk ++ rest -> chunk <> [] -> (k = 0%nat -> rest <> []) ->
  carries pt ts (fuIndicator u H264 ++ [fragmentFlags (originalType u H264) (k =? 0)%nat (bool_decide (rest = []))] ++ chunk)
    packet ->
  rp_marker packet = false -> (length u <= cap)%nat ->
  pushH264 packet cap (midParser H264 pt ts u k) =
    (Success (mkBatch ts false false (if bool_decide (rest = []) then [u] else [])),
     if bool_decide (rest = []) then createParser pt else midParser H264 pt ts u (k + length chunk)).
Proof.
  intros [Hv Hb] E Hc Hk (Ep & Et & Ets) Em Hcap.
  set (lastOne := bool_decide (rest = [])) in *. destruct (validNal_h264 u Hv) as [Hpos Hhead]. pose proof (byteList_at u 0%nat Hb) as Hb0.
  destruct (h264_header _ Hb0 Hhead (k =? 0)%nat lastOne) as (H1 & H2 & H3 & H4 & H5 & H6 & H7 & H8).
  destruct (fragment_state H264 u chunk rest k Hpos E Hc) as (F1 & F2 & F3 & F4).
  cbn [headerBytes] in *. assert (Hch : (0 < length chunk)%nat) by (destruct chunk; [done | cbn; lia]).
  assert (Efirst : k = 0%nat -> lastOne = false) by (intros ->; by apply bool_decide_eq_false_2, Hk).
  unfold pushH264. rewrite Ep, Et, Ets. replace (np_payloadType (midParser H264 pt ts u k)) with pt
    by (unfold midParser; by destruct (k =? 0)%nat).
  replace (cap =? 0)%nat with false by (symmetry; apply Nat.eqb_neq; lia). rewrite Z.eqb_refl.
  rewrite bool_decide_eq_false_2 by done. cbn [fuIndicator originalType app] in *.
  set (ind := u8 (Z.lor (Z.land (u !!! 0%nat) 0xE0) 28)) in *.
  set (type := u8 (Z.land (u !!! 0%nat) 0x1F)) in *.
  set (f := fragmentFlags type (k =? 0)%nat lastOne) in *.
  change ((ind :: f :: chunk) !!! 0%nat) with ind. rewrite H1, H2.
  cbn [negb orb andb Z.eqb Z.leb Z.compare Pos.compare Pos.compare_cont Pos.eqb].
  unfold pushFuA. rewrite Ep. change ((ind :: f :: chunk) !!! 0%nat) with ind. change ((ind :: f :: chunk) !!! 1%nat) with f.
  replace (length (ind :: f :: chunk) <? 3)%nat with false by (symmetry; apply Nat.ltb_ge; cbn; lia).
  cbv zeta. rewrite H3, H4, H5, H6, H8, Em, Ets.
  replace ((k =? 0)%nat && lastOne) with false by (destruct (Nat.eqb_spec k 0); [by rewrite Efirst | done]).
  replace (type =? 0) with false by (symmetry; apply Z.eqb_neq; lia).
  replace (23 <? type) with false by (symmetry; apply Z.ltb_ge; lia). cbn [negb orb andb Z.eqb].
  change (drop 2 (ind :: f :: chunk)) with chunk. unfold midParser. cbn [headerBytes nalHeader].
  replace (k + length chunk =? 0)%nat with false by (symmetry; apply Nat.eqb_neq; lia).
  destruct (Nat.eqb_spec k 0) as [-> | Hk0]; cbn [createParser np_fragmentHeader np_fragmentTimestamp np_payloadType np_fragment].
  - rewrite !bool_decide_eq_true_2 by done. rewrite Efirst by done. cbn [negb orb andb length].
    replace (_ || _) with false by (symmetry; rewrite orb_false_iff, !Nat.ltb_ge; cbn [length]; lia).
    change (1 + (0 + length chunk))%nat with (1 + 0 + length chunk)%nat. rewrite <- F3.
    by destruct u; [cbn in Hpos; lia |].
  - rewrite !bool_decide_eq_true_2 by done. cbn [negb orb andb]. rewrite F1.
    replace (_ || _) with false by (symmetry; rewrite orb_false_iff, !Nat.ltb_ge; cbn [length]; lia).
    destruct lastOne eqn:El.
    + apply bool_decide_eq_true in El. rewrite F4 by done. done.
    + rewrite F3. done.
Qed.

#[export] Instance h264_laws : DepacketizerLaws H264 h264Depacketizer.
Proof.
  constructor; cbn [cd_push cd_shortNal h264Depacketizer].
  - intros u [Hpos _]%validNal_h264. apply bool_decide_eq_false_2. by destruct u; [cbn in Hpos; lia |].
  - apply single_h264.
  - apply aggregate_h264.
  - apply fragment_h264.
  - apply marker_h264.
Qed.

(** ** The HEVC parser *)

Lemma validNal_hevc u : validNal u Hevc = true ->
  (2 <= length u)%nat /\
  (Z.land (u !!! 0%nat) 0x80 =? 0) && (Z.land (Z.shiftr (u !!! 0%nat) 1) 0x3F <=? 47) = true /\
  Z.land (u !!! 1%nat) 0x07 <> 0.
Proof.
  intros Hv. pose proof (validNal_length _ _ Hv). unfold validNal in Hv. destruct (_ <? _)%nat; [done |].
  apply andb_true_iff in Hv as [Hv Ht%negb_true_iff%Z.eqb_neq]. done.
Qed.

Lemma hevc_unit_head u : validNal u Hevc = true ->
  validHevcNalHeader u = true /\ Z.land (Z.shiftr (u !!! 0%nat) 1) 0x3F <= 47.
Proof.
  intros (_ & Hh & Ht)%validNal_hevc. unfold validHevcNalHeader.
  apply andb_true_iff in Hh as [-> Hh%Z.leb_le]. split; [| done]. apply negb_true_iff. by apply Z.eqb_neq.
Qed.

Lemma apLoop_units fuel payload offset units us :
  Forall (fun u => validNal u Hevc = true) us -> Forall (fun u => Z.of_nat (length u) <= 65535) us ->
  drop offset payload = aggregateBody us -> (length us < fuel)%nat ->
  apLoop fuel payload offset units = Success (units ++ us).
Proof.
  intros Hv. revert fuel offset units. induction Hv as [| u us Hv Hus IH]; intros fuel offset units Hl E Hf;
    (destruct fuel as [| fuel]; [lia |]); cbn [apLoop].
  { apply (f_equal length) in E. rewrite length_drop in E. simpl in E.
    replace (_ <? _)%nat with false by (symmetry; apply Nat.ltb_ge; lia). by rewrite app_nil_r. }
  apply Forall_cons in Hl as [Hlu Hl]. destruct (read_aggregated _ _ _ _ E Hlu) as (El & E1 & E2 & E3 & E4).
  destruct (validNal_hevc u Hv) as (Hpos & _ & _). destruct (hevc_unit_head u Hv) as [Hh Ht].
  replace (offset <? length payload)%nat with true by (symmetry; apply Nat.ltb_lt; lia).
  replace (length payload - offset <? 2)%nat with false by (symmetry; apply Nat.ltb_ge; lia). cbv zeta. rewrite E1.
  replace (_ || _) with false by (symmetry; rewrite orb_false_iff, !Nat.ltb_ge; lia).
  rewrite E2. unfold validHevcNalHeader in *. rewrite !lookup_total_app_l by lia. rewrite Hh.
  replace (47 <? _) with false by (symmetry; apply Z.ltb_ge; lia). cbn [negb orb]. rewrite take_app_length.
  rewrite IH; [by rewrite <- app_assoc | done | done | cbn in Hf; lia].
Qed.

Lemma hevc_ids u : nalOk Hevc u -> 0 <= layerId u < 64 /\ 1 <= u8 (Z.land (u !!! 1%nat) 0x07) <= 7.
Proof.
  intros [Hv Hb]. destruct (validNal_hevc u Hv) as (_ & _ & Ht).
  pose proof (byteList_at u 0%nat Hb) as H0. pose proof (byteList_at u 1%nat Hb) as H1. unfold layerId. split.
  - pose proof (forallb_below (fun b0 => forallb (fun b1 =>
      let l := u8 (Z.lor (Z.shiftl (Z.land b0 1) 5) (Z.shiftr b1 3)) in (0 <=? l) && (l <? 64)) (seqZ 0 256)) 256
      (u !!! 0%nat) ltac:(vm_compute; reflexivity) H0) as H. cbv beta in H.
    apply (forallb_below _ 256 (u !!! 1%nat)) in H; [| done]. cbv zeta in H. rewrite andb_true_iff, Z.leb_le, Z.ltb_lt in H. lia.
  - pose proof (forallb_below (fun b => (Z.land b 7 =? 0) || (1 <=? u8 (Z.land b 7)) && (u8 (Z.land b 7) <=? 7)) 256
      (u !!! 1%nat) ltac:(vm_compute; reflexivity) H1) as H. cbv beta in H.
    rewrite orb_true_iff, andb_true_iff, Z.eqb_eq, !Z.leb_le in H. lia.
Qed.

Lemma hevc_aggregate_bytes us : Forall (nalOk Hevc) us ->
  exists b0 b1, aggregateHeader us Hevc = [b0; b1] /\ validHevcNalHeader [b0; b1] = true /\ Z.land (Z.shiftr b0 1) 0x3F = 48.
Proof.
  intros Hus. unfold aggregateHeader.
  set (fl := fun m unit => Z.min m (layerId unit)).
  set (ft := fun (m : Z) (unit : list Z) => Z.min m (u8 (Z.land (unit !!! 1%nat) 0x07))).
  assert (Hn : forall l t, 0 <= l < 64 -> 1 <= t <= 7 -> 0 <= fold_left fl us l < 64 /\ 1 <= fold_left ft us t <= 7).
  { induction Hus as [| u us Hu Hus IH]; intros l t Hl Ht; [done |]. cbn [fold_left]. destruct (hevc_ids u Hu).
    apply IH; unfold fl, ft; lia. }
  destruct (Hn 0x3F 7 ltac:(lia) ltac:(lia)) as [Hl Ht].
  destruct (hevc_aggregate_header _ _ Hl Ht) as (H1 & H2 & H3).
  do 2 eexists. split_and!; [done | | exact H2]. unfold validHevcNalHeader. cbn -[Z.land Z.shiftl Z.shiftr u8 fold_left].
  rewrite H1, H3. rewrite andb_true_iff, negb_true_iff, Z.eqb_neq. split; [done | lia].
Qed.

Lemma single_hevc pt ts u packet cap : nalOk Hevc u -> carries pt ts u packet -> (length u <= cap)%nat ->
  pushHevc packet cap (createParser pt) = (Success (mkBatch ts (rp_marker packet) false [u]), createParser pt).
Proof.
  intros [Hv Hb] (Ep & Et & Ets) Hc. destruct (validNal_hevc u Hv) as (Hpos & _ & _). destruct (hevc_unit_head u Hv) as [Hh Ht].
  unfold pushHevc. rewrite Ep, Et, Ets. cbn [createParser np_payloadType np_fragmentHeader].
  replace (cap <? 2)%nat with false by (symmetry; apply Nat.ltb_ge; lia). rewrite Z.eqb_refl.
  replace (length u <? 2)%nat with false by (symmetry; apply Nat.ltb_ge; lia). cbn [negb orb].
  rewrite Hh. cbn [negb]. by replace (_ <=? 47) with true by (symmetry; apply Z.leb_le; lia).
Qed.

Lemma aggregate_hevc pt ts us packet cap :
  us <> [] -> Forall (nalOk Hevc) us -> Forall (fun u => Z.of_nat (length u) <= 65535) us ->
  carries pt ts (aggregate us Hevc) packet -> (2 <= cap)%nat ->
  pushHevc packet cap (createParser pt) = (Success (mkBatch ts (rp_marker packet) false us), createParser pt).
Proof.
  intros Hn Hus Hl (Ep & Et & Ets) Hc. destruct (hevc_aggregate_bytes us Hus) as (b0 & b1 & Eh & Hb1 & Hb2).
  unfold pushHevc. rewrite Ep, Et, Ets, aggregate_body, Eh. cbn [createParser np_payloadType np_fragmentHeader].
  replace (cap <? 2)%nat with false by (symmetry; apply Nat.ltb_ge; lia). rewrite Z.eqb_refl.
  destruct us as [| u us]; [done |].
  replace (length ([b0; b1] ++ aggregateBody (u :: us)) <? 2)%nat with false by done.
  change (([b0; b1] ++ aggregateBody (u :: us)) !!! 0%nat) with b0.
  change (validHevcNalHeader ([b0; b1] ++ aggregateBody (u :: us))) with (validHevcNalHeader [b0; b1]).
  rewrite Hb1, Hb2. cbn [negb orb]. change (48 <=? 47) with false. change (48 =? 48) with true. cbv iota.
  replace (length ([b0; b1] ++ aggregateBody (u :: us)) =? 2)%nat with false by done.
  rewrite (apLoop_units _ _ _ _ (u :: us)); [done | | done | done |].
  - eapply Forall_impl; [exact Hus |]. by intros ? [].
  - rewrite length_app. pose proof (aggregateBody_count (u :: us)). cbn [length] in *. lia.
Qed.

Lemma fragment_hevc pt ts u k chunk rest packet cap : nalOk Hevc u ->
  drop (2 + k) u = chunk ++ rest -> chunk <> [] -> (k = 0%nat -> rest <> []) ->
  carries pt ts (fuIndicator u Hevc ++ [fragmentFlags (originalType u Hevc) (k =? 0)%nat (bool_decide (rest = []))] ++ chunk)
    packet ->
  rp_marker packet = false -> (length u <= cap)%nat ->
  pushHevc packet cap (midParser Hevc pt ts u k) =
    (Success (mkBatch ts false false (if bool_decide (rest = []) then [u] else [])),
     if bool_decide (rest = []) then createParser pt else midParser Hevc pt ts u (k + length chunk)).
Proof.
  intros [Hv Hb] E Hc Hk (Ep & Et & Ets) Em Hcap. set (lastOne := bool_decide (rest = [])) in *.
  destruct (validNal_hevc u Hv) as (Hpos & Hhead & Htid).
  pose proof (byteList_at u 0%nat Hb) as Hb0. pose proof (byteList_at u 1%nat Hb) as Hb1.
  destruct (hevc_header _ Hb0 Hhead (k =? 0)%nat lastOne) as (H1 & H2 & H3 & H4 & H6 & H7 & H8).
  destruct (fragment_state Hevc u chunk rest k Hpos E Hc) as (F1 & F2 & F3 & F4).
  cbn [headerBytes] in *. assert (Hch : (0 < length chunk)%nat) by (destruct chunk; [done | cbn; lia]).
  assert (Efirst : k = 0%nat -> lastOne = false) by (intros ->; by apply bool_decide_eq_false_2, Hk).
  assert (Hhdr : u16 (Z.lor (u16 (Z.shiftl (u !!! 0%nat) 8)) (u !!! 1%nat)) = nalHeader Hevc u).
  { unfold nalHeader, is_u in *. change (2 ^ 8) with 256 in *.
    assert (E8 : u16 (Z.shiftl (u !!! 0%nat) 8) = Z.shiftl (u !!! 0%nat) 8)
      by (unfold u16; apply Z.mod_small; rewrite Z.shiftl_mul_pow2 by lia; lia).
    rewrite E8, lor_shiftl_add by lia. apply Z.mod_small. lia. }
  unfold pushHevc. rewrite Ep, Et, Ets. replace (np_payloadType (midParser Hevc pt ts u k)) with pt
    by (unfold midParser; by destruct (k =? 0)%nat).
  replace (cap <? 2)%nat with false by (symmetry; apply Nat.ltb_ge; lia). rewrite Z.eqb_refl.
  cbn [fuIndicator originalType app] in *.
  set (ind := u8 (Z.lor (Z.land (u !!! 0%nat) 0x81) (Z.shiftl 49 1))) in *.
  set (type := u8 (Z.land (Z.shiftr (u !!! 0%nat) 1) 0x3F)) in *.
  set (f := fragmentFlags type (k =? 0)%nat lastOne) in *. set (b1 := u !!! 1%nat) in *.
  replace (length (ind :: b1 :: f :: chunk) <? 2)%nat with false by done. cbn [negb orb].
  replace (validHevcNalHeader (ind :: b1 :: f :: chunk)) with true
    by (symmetry; unfold validHevcNalHeader; cbn -[Z.land]; rewrite H1, andb_true_iff, negb_true_iff, Z.eqb_neq; done).
  change ((ind :: b1 :: f :: chunk) !!! 0%nat) with ind. rewrite H2. cbn [negb].
  change (49 <=? 47) with false. change (49 =? 48) with false. change (49 =? 49) with true. cbn [negb].
  unfold pushFu. rewrite Ep. change ((ind :: b1 :: f :: chunk) !!! 0%nat) with ind.
  change ((ind :: b1 :: f :: chunk) !!! 1%nat) with b1. change ((ind :: b1 :: f :: chunk) !!! 2%nat) with f.
  replace (length (ind :: b1 :: f :: chunk) <? 4)%nat with false by (symmetry; apply Nat.ltb_ge; cbn; lia).
  cbv zeta. rewrite H3, H4, H6, H8, Hhdr, Em, Ets.
  replace ((k =? 0)%nat && lastOne) with false by (destruct (Nat.eqb_spec k 0); [by rewrite Efirst | done]).
  replace (47 <? type) with false by (symmetry; apply Z.ltb_ge; lia). cbn [negb orb andb].
  change (drop 3 (ind :: b1 :: f :: chunk)) with chunk. unfold midParser. cbn [headerBytes].
  replace (k + length chunk =? 0)%nat with false by (symmetry; apply Nat.eqb_neq; lia).
  destruct (Nat.eqb_spec k 0) as [-> | Hk0]; cbn [createParser np_fragmentHeader np_fragmentTimestamp np_payloadType np_fragment].
  - rewrite !bool_decide_eq_true_2 by done. rewrite Efirst by done. cbn [negb orb andb].
    replace (_ || _) with false by (symmetry; rewrite orb_false_iff, !Nat.ltb_ge; cbn [length]; lia).
    change (2 + (0 + length chunk))%nat with (2 + 0 + length chunk)%nat. rewrite <- F3.
    by destruct u as [| x [| y u]]; [cbn in Hpos; lia.. |].
  - rewrite !bool_decide_eq_true_2 by done. cbn [negb orb andb]. rewrite F1.
    replace (_ || _) with false by (symmetry; rewrite orb_false_iff, !Nat.ltb_ge; cbn [length]; lia).
    destruct lastOne eqn:El; [| by rewrite F3].
    apply bool_decide_eq_true in El. by rewrite F4 by done.
Qed.

Lemma marker_hevc : markerFree pushHevc.
Proof.
  intros packet cap p b p' Em Hp' Hpush Hd. revert Hpush. unfold pushHevc, pushFu.
  destruct (setMarker_fields packet true) as (-> & -> & -> & ->). rewrite Em. cbv zeta.
  marker_branches; marker_close.
Qed.

#[export] Instance hevc_laws : DepacketizerLaws Hevc hevcDepacketizer.
Proof.
  constructor; cbn [cd_push cd_shortNal hevcDepacketizer].
  - intros u (Hpos & _)%validNal_hevc. apply Nat.ltb_ge. lia.
  - apply single_hevc.
  - apply aggregate_hevc.
  - apply fragment_hevc.
  - apply marker_hevc.
Qed.

(** ** The depacketizer around a lawful parser *)

Section Depacketizer.
Context (newPacket : Z -> bool) {codec : MediaAnnexBCodec} {C : DepacketizerCodec} {L : DepacketizerLaws codec C}.

Notation push := (push newPacket).
Notation run := (run newPacket).
Notation keyUnits us := (existsb cd_keyNal us).

(** Ready for a packet of the timestamp [ts]. *)
Definition ready (ts : Z) (d : Depacketizer) : Prop :=
  co_waitingForBoundary (dp_continuity d) = false /\ (dp_timestamp d = None \/ dp_timestamp d = Some ts).

(** [d'] is [d] with the units [us] appended and the parser [p]. *)
Definition assembled (ts : Z) (d : Depacketizer) (us : list (list Z)) (p : NalParser) (d' : Depacketizer) : Prop :=
  d' = mkDepacketizer (dp_config d) (dp_maximumAccessUnitBytes d) (dp_continuity d) p (dp_accessUnit d ++ annexB us)
         (dp_timestamp d') (dp_keyFrame d || keyUnits us) /\ ready ts d'.

Lemma assembled_trans ts d us p d' us' p' d'' :
  assembled ts d us p d' -> assembled ts d' us' p' d'' -> assembled ts d (us ++ us') p' d''.
Proof.
  intros [E R] [E' R']. split; [| done]. rewrite E' at 1.
  f_equal; rewrite E; cbn; [done.. | by rewrite annexB_app, app_assoc | by rewrite existsb_app, orb_assoc].
Qed.

Lemma append_capacity n cap (u : list Z) max :
  (n + 4 + length u <= max)%nat -> (0 < length u)%nat -> rtpAccessUnitNalCapacity n max = Success cap ->
  (length u <= cap)%nat.
Proof.
  unfold rtpAccessUnitNalCapacity. intros Hn Hu. destruct (_ || _).
  { unfold failure. by destruct (ErrorInfo_ok _). }
  intros [= <-]. cbn. lia.
Qed.

Lemma capacity_ok n max : (n + 4 < max)%nat -> rtpAccessUnitNalCapacity n max = Success (max - n - 4)%nat.
Proof.
  intros Hn. unfold rtpAccessUnitNalCapacity. cbn [length StartCode].
  by replace (_ || _) with false by (symmetry; rewrite orb_false_iff, Nat.ltb_ge, Nat.leb_gt; lia).
Qed.

Lemma appendNals_ok us d : Forall (fun u => validNal u codec = true) us ->
  (length (dp_accessUnit d) + length (annexB us) <= dp_maximumAccessUnitBytes d)%nat ->
  appendNals us d = (Success tt, setKeyFrame (dp_keyFrame d || keyUnits us) (setAccessUnit (dp_accessUnit d ++ annexB us) d)).
Proof.
  intros Hus. revert d. induction Hus as [| u us Hu Hus IH]; intros d Hl.
  { destruct d. cbn. by rewrite app_nil_r, orb_false_r. }
  change (annexB (u :: us)) with ([0; 0; 0; 1] ++ u ++ annexB us) in *. rewrite !length_app in Hl. cbn [length] in Hl.
  pose proof (validNal_positive _ _ Hu). cbn [appendNals]. rewrite (law_short u Hu). cbv zeta.
  unfold appendRtpAccessUnitNal. cbn [setKeyFrame dp_accessUnit dp_maximumAccessUnitBytes].
  rewrite capacity_ok by lia. cbn [bindResult]. replace (_ <? _)%nat with false by (symmetry; apply Nat.ltb_ge; lia).
  rewrite IH by (cbn; rewrite !length_app; cbn; lia).
  unfold setKeyFrame, setAccessUnit. cbn. by rewrite <- !app_assoc, orb_assoc.
Qed.

(** A packet without the marker, accepted by the parser. *)
Lemma push_step packet d us p' :
  rp_marker packet = false -> ready (rp_timestamp packet) d ->
  (length (dp_accessUnit d) + 4 < dp_maximumAccessUnitBytes d)%nat ->
  (length (dp_accessUnit d) + length (annexB us) <= dp_maximumAccessUnitBytes d)%nat ->
  Forall (fun u => validNal u codec = true) us ->
  cd_push packet (dp_maximumAccessUnitBytes d - length (dp_accessUnit d) - 4) (dp_nalParser d) =
    (Success (mkBatch (rp_timestamp packet) false false us), p') ->
  exists d', push packet d = (Success [], d') /\ assembled (rp_timestamp packet) d us p' d'.
Proof.
  intros Em [Hw Ht] Hc Hl Hus Hp. unfold push, pushValidated.
  replace (match dp_timestamp d with Some t => _ | None => false end) with false
    by (destruct Ht as [-> | ->]; [done | by rewrite Z.eqb_refl]).
  unfold accept. rewrite Hw. cbn [negb]. cbv zeta.
  assert (E2 : match dp_timestamp (setContinuity (dp_continuity d) d) with
               | Some _ => setContinuity (dp_continuity d) d
               | None => setTimestamp (Some (rp_timestamp packet)) (setContinuity (dp_continuity d) d)
               end = mkDepacketizer (dp_config d) (dp_maximumAccessUnitBytes d) (dp_continuity d) (dp_nalParser d)
                      (dp_accessUnit d) (Some (rp_timestamp packet)) (dp_keyFrame d)).
  { destruct d. cbn in *. by destruct Ht as [-> | ->]. }
  rewrite E2. cbn [dp_accessUnit dp_maximumAccessUnitBytes dp_nalParser]. rewrite capacity_ok by done. rewrite Hp.
  cbn [nb_discardedFragment nb_nalUnits]. rewrite appendNals_ok by done. rewrite Em. cbn [negb].
  eexists. split; [done |]. split; [done |]. split; [done | by right].
Qed.

Lemma run_app events1 events2 d :
  run (events1 ++ events2) d =
  ((run events1 d).1 ++ (run events2 (run events1 d).2).1, (run events2 (run events1 d).2).2).
Proof.
  revert d. induction events1 as [| e events1 IH]; intros d; cbn [app fst snd MediaRtpDepacketizer.run]; [by destruct (run events2 d) |].
  destruct (handle newPacket e d) as [r d1]. rewrite IH. destruct (run events1 d1) as [rs d2]. cbn.
  by destruct (run events2 d2).
Qed.

(** The packets of a part of an access unit, without the marker: nothing is
    emitted, the units are appended. *)
Definition absorbs (pt ts : Z) (us payloads : list (list Z)) : Prop :=
  forall packets d, Forall2 (carries pt ts) payloads packets -> Forall (fun p => rp_marker p = false) packets ->
  ready ts d -> dp_nalParser d = createParser pt ->
  (length (dp_accessUnit d) + length (annexB us) <= dp_maximumAccessUnitBytes d)%nat ->
  exists d', run (map Ev_Packet packets) d = (replicate (length packets) (Success []), d') /\
    assembled ts d us (createParser pt) d'.

Lemma run_one packet d d' : push packet d = (Success [], d') -> run (map Ev_Packet [packet]) d = ([Success []], d').
Proof. intros E. cbn [map MediaRtpDepacketizer.run handle]. by rewrite E. Qed.

Lemma absorbs_nil pt ts : absorbs pt ts [] [].
Proof.
  intros packets d Hp _ Hr Ep _. apply Forall2_nil_inv_l in Hp as ->. exists d. split; [done |]. split; [| done].
  destruct d. cbn in *. by rewrite Ep, app_nil_r, orb_false_r.
Qed.

Lemma absorbs_app pt ts us1 us2 ps1 ps2 :
  absorbs pt ts us1 ps1 -> absorbs pt ts us2 ps2 -> absorbs pt ts (us1 ++ us2) (ps1 ++ ps2).
Proof.
  intros H1 H2 packets d Hp Hm Hr Ep Hl. rewrite annexB_app, length_app in Hl.
  apply Forall2_app_inv_l in Hp as (packets1 & packets2 & Hp1 & Hp2 & ->). apply Forall_app in Hm as [Hm1 Hm2].
  destruct (H1 packets1 d Hp1 Hm1 Hr Ep ltac:(lia)) as (d1 & E1 & A1).
  destruct (H2 packets2 d1 Hp2 Hm2) as (d2 & E2 & A2); [by apply A1 | by destruct A1 as [-> _] | |].
  { destruct A1 as [-> _]. cbn. rewrite length_app. lia. }
  exists d2. rewrite map_app, run_app, E1. cbn [fst snd]. rewrite E2, length_app, replicate_add.
  split; [done |]. by eapply assembled_trans.
Qed.

(** One packet that carries whole units. *)
Lemma absorbs_packet pt ts us payload :
  us <> [] -> Forall (nalOk codec) us ->
  (forall packet cap, carries pt ts payload packet -> rp_marker packet = false ->
     (sum_list_with (fun u => 4 + length u) us <= cap + 4)%nat ->
     cd_push packet cap (createParser pt) = (Success (mkBatch ts false false us), createParser pt)) ->
  absorbs pt ts us [payload].
Proof.
  intros Hn Hus Hpush packets d Hp Hm Hr Ep Hl.
  apply Forall2_cons_inv_l in Hp as (packet & ? & Hc & ->%Forall2_nil_inv_l & ->).
  apply Forall_cons in Hm as [Hm _]. assert (Ets : rp_timestamp packet = ts) by apply Hc.
  assert (Hv : Forall (fun u => validNal u codec = true) us) by (eapply Forall_impl; [exact Hus |]; by intros ? []).
  rewrite annexB_length in Hl.
  assert (Hpos : (4 < sum_list_with (fun u => 4 + length u) us)%nat).
  { destruct Hv as [| u us' Hu _]; [done |]. apply validNal_positive in Hu. cbn [sum_list_with]. lia. }
  destruct (push_step packet d us (createParser pt)) as (d' & E & A); rewrite ?Ets; try done; [lia | by rewrite annexB_length | |].
  { rewrite Ep. apply Hpush; [done.. | lia]. }
  exists d'. split; [by apply run_one | by rewrite <- Ets].
Qed.

Lemma absorbs_single pt ts u : nalOk codec u -> absorbs pt ts [u] [u].
Proof.
  intros Hu. apply absorbs_packet; [done | by constructor |]. intros packet cap Hc Hm Hcap.
  rewrite (law_single pt ts u) by (done || (cbn in Hcap; lia)). by rewrite Hm.
Qed.

Lemma absorbs_aggregate pt ts us : (2 <= length us)%nat -> Forall (nalOk codec) us ->
  Forall (fun u => Z.of_nat (length u) <= 65535) us -> absorbs pt ts us [aggregate us codec].
Proof.
  intros Hn Hus Hs. assert (us <> []) by (by intros ->; cbn in Hn; lia). apply absorbs_packet; [done.. |].
  intros packet cap Hc Hm Hcap. destruct us as [| u [| v us]]; cbn in Hn; [lia.. |]. cbn [sum_list_with] in Hcap.
  rewrite (law_aggregate pt ts (u :: v :: us)) by (done || lia). by rewrite Hm.
Qed.

Lemma run_fragments fuel pt ts u k capacity packets d :
  nalOk codec u -> (0 < capacity)%nat -> (length (drop (headerBytes codec + k) u) <= fuel)%nat ->
  drop (headerBytes codec + k) u <> [] -> (k = 0 -> capacity < length (drop (headerBytes codec + k) u))%nat ->
  Forall2 (carries pt ts) (map vp_payload (fragmentLoop fuel u codec capacity (drop (headerBytes codec + k) u) (k =? 0)%nat))
    packets ->
  Forall (fun p => rp_marker p = false) packets -> ready ts d -> dp_nalParser d = midParser codec pt ts u k ->
  (length (dp_accessUnit d) + length (annexB [u]) <= dp_maximumAccessUnitBytes d)%nat ->
  exists d', run (map Ev_Packet packets) d = (replicate (length packets) (Success []), d') /\
    assembled ts d [u] (createParser pt) d'.
Proof.
  intros Hu Hcap. revert k packets d. induction fuel as [| fuel IH]; intros k packets d Hf Hn Hk Hp Hm Hr Ep Hl.
  { destruct (drop (headerBytes codec + k) u); [done | cbn in Hf; lia]. }
  cbn [fragmentLoop] in Hp. rewrite bool_decide_eq_false_2 in Hp by done. cbn [map vp_payload] in Hp.
  set (remaining := drop (headerBytes codec + k) u) in *. set (count := Nat.min capacity (length remaining)) in *.
  apply Forall2_cons_inv_l in Hp as (packet & packets' & Hc & Hp & ->). apply Forall_cons in Hm as [Hm Hm'].
  assert (Ets : rp_timestamp packet = ts) by apply Hc.
  assert (Hrem : (0 < length remaining)%nat) by (destruct remaining; [done | cbn; lia]).
  assert (Hcount : length (take count remaining) = count) by (rewrite length_take; unfold count; lia).
  assert (Hpos : (0 < length u)%nat) by (destruct Hu as [Hv _]; by eapply validNal_positive).
  assert (Hbytes : length (annexB [u]) = (4 + length u)%nat) by (rewrite annexB_length; cbn; lia).
  assert (Elast : bool_decide (drop count remaining = []) = (count =? length remaining)%nat).
  { apply eq_true_iff_eq. rewrite bool_decide_eq_true, Nat.eqb_eq. split; [intros E%(f_equal length); rewrite length_drop in E;
      cbn in E; unfold count in *; lia | intros E; apply drop_ge; lia]. }
  assert (Hstep : cd_push packet (dp_maximumAccessUnitBytes d - length (dp_accessUnit d) - 4) (dp_nalParser d) =
    (Success (mkBatch ts false false (if (count =? length remaining)%nat then [u] else [])),
     if (count =? length remaining)%nat then createParser pt else midParser codec pt ts u (k + count))).
  { rewrite Ep. pose proof (law_fragment pt ts u k (take count remaining) (drop count remaining) packet
      (dp_maximumAccessUnitBytes d - length (dp_accessUnit d) - 4)) as F. cbv zeta in F. rewrite Hcount, Elast in F.
    apply F; try done; [by rewrite take_drop | | | lia].
    - intros E. apply (f_equal length) in E. rewrite Hcount in E. cbn in E. unfold count in E. lia.
    - intros -> E. apply (f_equal length) in E. rewrite length_drop in E. cbn in E. specialize (Hk eq_refl). unfold count in E. lia. }
  assert (Hlast : Forall (fun u => validNal u codec = true) (if (count =? length remaining)%nat then [u] else []))
    by (destruct Hu; case_match; by constructor).
  destruct (push_step packet d (if (count =? length remaining)%nat then [u] else [])
    (if (count =? length remaining)%nat then createParser pt else midParser codec pt ts u (k + count)) Hm) as (d1 & E1 & A1);
    [by rewrite Ets | lia | | exact Hlast | rewrite Ets; exact Hstep |].
  { destruct (count =? length remaining)%nat; [exact Hl | cbn; lia]. }
  rewrite Ets in A1. cbn [map MediaRtpDepacketizer.run handle]. rewrite E1.
  destruct (Nat.eqb_spec count (length remaining)) as [Ec | Ec].
  - assert (packets' = []) as ->.
    { rewrite drop_ge in Hp by lia. destruct fuel; cbn [fragmentLoop] in Hp; [| rewrite bool_decide_eq_true_2 in Hp by done];
        by apply Forall2_nil_inv_l in Hp. }
    exists d1. done.
  - assert (Ed : drop count remaining = drop (headerBytes codec + (k + count)) u) by (unfold remaining; rewrite drop_drop; f_equal; lia).
    assert (Hcnt : (0 < count)%nat) by (unfold count; lia).
    rewrite Ed in Hp. replace false with ((k + count =? 0)%nat) in Hp by (apply Nat.eqb_neq; lia).
    destruct (IH (k + count)%nat packets' d1) as (d' & E & A); try done.
    + rewrite <- Ed, length_drop. lia.
    + intros E. apply (f_equal length) in E. rewrite <- Ed, length_drop in E. cbn in E. unfold count in *. lia.
    + lia.
    + by apply A1.
    + by destruct A1 as [-> _].
    + destruct A1 as [-> _]. cbn [dp_accessUnit dp_maximumAccessUnitBytes]. rewrite length_app.
      change (length (annexB [])) with 0%nat. lia.
    + rewrite E. exists d'. split; [done |]. change [u] with ([] ++ [u]). by eapply assembled_trans.
Qed.

Lemma fragment_loop_nonempty fuel u capacity remaining first :
  (0 < fuel)%nat -> remaining <> [] -> fragmentLoop fuel u codec capacity remaining first <> [].
Proof. intros Hf Hn. destruct fuel; [lia |]. cbn [fragmentLoop]. by rewrite bool_decide_eq_false_2. Qed.

Lemma absorbs_fragments pt ts u maximum : nalOk codec u -> (fuHeaderBytes codec < maximum < length u)%nat ->
  absorbs pt ts [u] (map vp_payload (fragment u codec maximum)).
Proof.
  intros Hu Hmax packets d Hp Hm Hr Ep Hl.
  assert (Hlen : length (drop (headerBytes codec) u) = (length u - headerBytes codec)%nat) by apply length_drop.
  assert (Hh : (headerBytes codec < length u /\ maximum - fuHeaderBytes codec < length u - headerBytes codec)%nat)
    by (destruct codec; cbn in *; lia).
  unfold fragment in Hp. rewrite <- (Nat.add_0_r (headerBytes codec)) in Hp, Hlen.
  apply (run_fragments _ pt ts u 0 (maximum - fuHeaderBytes codec) packets d) in Hp; try done; [lia | | lia].
  intros E. rewrite E in Hlen. cbn in Hlen. lia.
Qed.

(** *** The packetizer's groups *)

(** [payloads] carry [us], each payload within the bound. *)
Inductive packed (maximum : nat) : list (list Z) -> list (list Z) -> Prop :=
  | packed_nil : packed maximum [] []
  | packed_single u us ps : (length u <= maximum)%nat -> packed maximum us ps -> packed maximum (u :: us) (u :: ps)
  | packed_aggregate us1 us ps : (2 <= length us1)%nat -> Forall (fun u => Z.of_nat (length u) <= 65535) us1 ->
      (length (aggregate us1 codec) <= maximum)%nat -> packed maximum us ps ->
      packed maximum (us1 ++ us) (aggregate us1 codec :: ps)
  | packed_fragments u us ps : (maximum < length u)%nat -> packed maximum us ps ->
      packed maximum (u :: us) (map vp_payload (fragment u codec maximum) ++ ps).

Lemma packed_absorbs pt ts maximum us payloads : (fuHeaderBytes codec < maximum)%nat -> Forall (nalOk codec) us ->
  packed maximum us payloads -> absorbs pt ts us payloads.
Proof.
  intros Hmax Hus Hp. induction Hp as [| u us ps Hu Hp IH | us1 us ps H1 H2 H3 Hp IH | u us ps Hu Hp IH].
  - apply absorbs_nil.
  - apply Forall_cons in Hus as [Hok Hus]. apply (absorbs_app _ _ [u] us [u] ps); [by apply absorbs_single | by apply IH].
  - apply Forall_app in Hus as [Hok Hus].
    apply (absorbs_app _ _ us1 us [aggregate us1 codec] ps); [by apply absorbs_aggregate | by apply IH].
  - apply Forall_cons in Hus as [Hok Hus]. apply (absorbs_app _ _ [u] us); [by apply absorbs_fragments | by apply IH].
Qed.

End Depacketizer.

(** *** The packetizer's loop *)

Lemma aggregateCount_spec maximum bytes us : (bytes <= maximum)%nat ->
  let n := aggregateCount maximum bytes us in
  (n <= length us)%nat /\ (bytes + sum_list_with (fun u => 2 + length u) (take n us) <= maximum)%nat /\
  Forall (fun u => Z.of_nat (length u) <= 65535) (take n us).
Proof.
  revert bytes. induction us as [| u us IH]; intros bytes Hb; cbn [aggregateCount].
  { cbn. split_and!; [lia | lia | constructor]. }
  destruct (_ && _) eqn:E; [| cbn; split_and!; [lia | lia | constructor]].
  rewrite !andb_true_iff, !Nat.leb_le, Z.leb_le in E. destruct E as [[E1 E2] E3].
  destruct (IH (bytes + (2 + length u))%nat ltac:(lia)) as (H1 & H2 & H3). cbn [take length sum_list_with].
  split_and!; [lia | lia | by constructor].
Qed.

Lemma aggregate_length us codec :
  length (aggregate us codec) = (headerBytes codec + sum_list_with (fun u => 2 + length u) us)%nat.
Proof. rewrite aggregate_body, length_app, aggregateBody_length. by destruct codec. Qed.

Lemma fragmentLoop_unmarked fuel nal codec capacity remaining first :
  Forall (fun p => vp_marker p = false) (fragmentLoop fuel nal codec capacity remaining first).
Proof.
  revert remaining first. induction fuel as [| fuel IH]; intros remaining first; cbn [fragmentLoop]; [constructor |].
  case_bool_decide; by constructor.
Qed.

Lemma packetizeLoop_packed fuel codec maximum us : (fuHeaderBytes codec < maximum)%nat -> (length us <= fuel)%nat ->
  packed (codec := codec) maximum us (map vp_payload (packetizeLoop fuel codec maximum us)) /\
  Forall (fun p => vp_marker p = false) (packetizeLoop fuel codec maximum us).
Proof.
  intros Hmax. revert us. induction fuel as [| fuel IH]; intros us Hf.
  { destruct us; [split; constructor | cbn in Hf; lia]. }
  destruct us as [| u us]; [split; constructor |]. cbn [packetizeLoop length] in *.
  destruct (Nat.ltb_spec maximum (length u)) as [Hlt | Hge].
  { destruct (IH us ltac:(lia)) as [IH1 IH2]. rewrite map_app. split; [by constructor |].
    apply Forall_app. split; [apply fragmentLoop_unmarked | done]. }
  pose proof (aggregateCount_spec maximum (headerBytes codec) (u :: us)) as Hc. cbv zeta in Hc.
  set (n := aggregateCount maximum (headerBytes codec) (u :: us)) in *.
  destruct Hc as (H1 & H2 & H3); [destruct codec; cbn in *; lia |].
  destruct (Nat.leb_spec 2 n).
  - destruct (IH (drop n (u :: us))) as [IH1 IH2]; [rewrite length_drop; cbn [length]; lia |]. cbn [map vp_payload].
    split; [| by constructor]. rewrite <- (take_drop n (u :: us)) at 1. constructor; [| done | | done].
    + rewrite length_take. lia.
    + by rewrite aggregate_length.
  - destruct (IH us ltac:(lia)) as [IH1 IH2]. cbn [map vp_payload]. split; by constructor.
Qed.

Lemma fragmentLoop_sizes fuel nal codec capacity remaining first : (0 < capacity)%nat ->
  Forall (fun p => (0 < length p <= fuHeaderBytes codec + capacity)%nat)
    (map vp_payload (fragmentLoop fuel nal codec capacity remaining first)).
Proof.
  intros Hc. revert remaining first. induction fuel as [| fuel IH]; intros remaining first; cbn [fragmentLoop]; [constructor |].
  case_bool_decide; cbn [map vp_payload]; constructor; [| apply IH].
  rewrite !length_app, length_take. destruct codec; cbn; lia.
Qed.

Lemma packed_sizes codec maximum us payloads : (fuHeaderBytes codec < maximum)%nat ->
  Forall (fun u => validNal u codec = true) us -> packed (codec := codec) maximum us payloads ->
  Forall (fun p => (0 < length p <= maximum)%nat) payloads.
Proof.
  intros Hmax Hus Hp. induction Hp as [| u us ps Hu Hp IH | us1 us ps H1 H2 H3 Hp IH | u us ps Hu Hp IH].
  - constructor.
  - apply Forall_cons in Hus as [Hok Hus]. apply validNal_positive in Hok. constructor; [lia | by apply IH].
  - apply Forall_app in Hus as [Hok Hus]. constructor; [| by apply IH]. split; [| done].
    rewrite aggregate_length. destruct codec; cbn; lia.
  - apply Forall_cons in Hus as [Hok Hus]. apply Forall_app. split; [| by apply IH].
    eapply Forall_impl; [apply fragmentLoop_sizes; lia |]. intros p Hsize. cbn in Hsize. lia.
Qed.

Lemma packed_nonempty codec maximum us payloads : (fuHeaderBytes codec < maximum)%nat ->
  packed (codec := codec) maximum us payloads -> us <> [] -> payloads <> [].
Proof.
  intros Hmax Hp Hn. destruct Hp as [| | | u us ps Hu Hp]; try done. intros [E _]%app_eq_nil.
  apply (f_equal length) in E. cbn in E. unfold fragment in E.
  assert (Hl : (0 < length (drop (headerBytes codec) u))%nat) by (rewrite length_drop; destruct codec; cbn in *; lia).
  rewrite length_map in E. apply length_zero_iff_nil in E. revert E. apply fragment_loop_nonempty; [done |].
  intros E. rewrite E in Hl. cbn in Hl. lia.
Qed.

Lemma markLast_snoc output p : markLast (output ++ [p]) = output ++ [mkPayload (vp_payload p) true].
Proof.
  unfold markLast. rewrite length_app, Nat.add_1_r. cbn [pred].
  replace (length output) with (length output + 0)%nat at 1 by lia. by rewrite alter_app_r.
Qed.

Lemma markLast_payloads output : map vp_payload (markLast output) = map vp_payload output.
Proof.
  destruct output as [| p output _] using rev_ind; [done |]. rewrite markLast_snoc, !map_app. done.
Qed.

(** *** The marker *)

(** The packets of the packetizer's output, in order. *)
Definition stream (pt ts : Z) (output : list MediaVideoRtpPayloadPacket) (packets : list MediaRtpPacket) : Prop :=
  Forall2 (fun v p => carries pt ts (vp_payload v) p /\ rp_marker p = vp_marker v) output packets.

Section Delivery.
Context (newPacket : Z -> bool) {codec : MediaAnnexBCodec} {C : DepacketizerCodec} {L : DepacketizerLaws codec C}.

Lemma appendNals_frame nals d r d' : appendNals nals d = (r, d') ->
  dp_nalParser d' = dp_nalParser d /\ dp_continuity d' = dp_continuity d.
Proof.
  revert d. induction nals as [| u nals IH]; intros d; cbn [appendNals]; [by intros [= _ <-] |].
  destruct (cd_shortNal u); [by intros [= _ <-] |].
  destruct (appendRtpAccessUnitNal _ _ _); [| by intros [= _ <-]]. intros H. by apply IH in H.
Qed.

(** The same packet with the marker closes the access unit. *)
Lemma push_marker packet d d' : rp_marker packet = false ->
  push newPacket packet d = (Success [], d') ->
  co_waitingForBoundary (dp_continuity d') = false -> np_fragmentHeader (dp_nalParser d') = None ->
  pushValidated newPacket (setMarker true packet) d = finish newPacket packet d'.
Proof.
  intros Em Hpush Hw Hh. unfold push in Hpush.
  destruct (pushValidated newPacket packet d) as [r d1] eqn:E. destruct r as [units | e]; [| done].
  injection Hpush as -> <-. revert E. unfold pushValidated. cbn [setMarker rp_timestamp]. cbv zeta.
  match goal with |- context [if ?b then discontinuity SequenceGap d else d] =>
    set (d0 := if b then discontinuity SequenceGap d else d) end.
  destruct (accept _ _) as [accepted c] eqn:Ea. destruct accepted; cbn [negb]; cycle 1.
  { intros [= <-]. cbn in Hw. unfold accept in Ea. destruct (co_waitingForBoundary (dp_continuity d0)); cbn in Ea; [| done].
    destruct (_ =? _); [| done]. injection Ea as <-. done. }
  match goal with |- context [length (dp_accessUnit ?x)] => set (d2 := x) end.
  destruct (rtpAccessUnitNalCapacity _ _) as [capacity | e]; [| intros [= H _]; by apply failure_not in H].
  destruct (cd_push packet capacity (dp_nalParser d2)) as [parsed parser] eqn:Ep.
  destruct parsed as [batch | e]; [| intros [= H _]; by apply failure_not in H].
  destruct (nb_discardedFragment batch) eqn:Ed; [by intros [= <-] |].
  destruct (appendNals _ _) as [[[] | e] d4] eqn:Eap; [| intros [= H _]; by apply failure_not in H].
  rewrite Em. cbn [negb]. intros [= ->].
  destruct (appendNals_frame _ _ _ _ Eap) as [Hparser _]. cbn in Hparser. rewrite Hparser in Hh.
  rewrite (law_marker packet capacity _ batch parser) by done. cbn [nb_discardedFragment nb_nalUnits].
  by rewrite Eap.
Qed.

(** The access unit that carries [us]. *)
Definition accessUnitOf (config : MediaRtpDepacketizerConfig) (ts : Z) (us : list (list Z)) : MediaRtpAccessUnit :=
  mkAccessUnit (annexB us) ts ts 0 (existsb cd_keyNal us) ts (mkRational 1 (dc_clockRate config)).

Lemma finish_ok packet d :
  dp_accessUnit d <> [] -> 0 < dc_clockRate (dp_config d) -> Z.of_nat (length (dp_accessUnit d)) < 2 ^ 31 ->
  (forall n, 0 < n < 2 ^ 31 -> newPacket n = true) ->
  finish newPacket packet d =
    (Success [mkAccessUnit (dp_accessUnit d) (rp_timestamp packet) (rp_timestamp packet) 0 (dp_keyFrame d)
                (rp_timestamp packet) (mkRational 1 (dc_clockRate (dp_config d)))],
     mkDepacketizer (dp_config d) (dp_maximumAccessUnitBytes d) (dp_continuity d) (dp_nalParser d) [] None false).
Proof.
  intros Hn Hc Hl Hnew. assert (0 < length (dp_accessUnit d))%nat by (destruct (dp_accessUnit d); [done | cbn; lia]).
  unfold finish, makeRtpAccessUnit. rewrite bool_decide_eq_false_2 by done.
  replace (_ <=? 0) with false by (symmetry; apply Z.leb_gt; lia). rewrite i32_small by (ranges; lia).
  rewrite Hnew by lia. done.
Qed.

Lemma setMarker_same m packet : rp_marker packet = m -> setMarker m packet = packet.
Proof. intros <-. by destruct packet. Qed.

Lemma access_unit_delivered config max maximum ts us packets :
  Forall (nalOk codec) us -> us <> [] -> (fuHeaderBytes codec < maximum)%nat ->
  stream (dc_payloadType config) ts (markLast (packetizeLoop (length us) codec maximum us)) packets ->
  (length (annexB us) <= max)%nat -> Z.of_nat max < 2 ^ 31 -> 0 < dc_clockRate config ->
  (forall n, 0 < n < 2 ^ 31 -> newPacket n = true) ->
  run newPacket (map Ev_Packet packets) (create config max) =
    (replicate (pred (length packets)) (Success []) ++ [Success [accessUnitOf config ts us]], create config max).
Proof.
  intros Hus Hn Hmax Hs Hl Hint Hclock Hnew.
  destruct (packetizeLoop_packed (length us) codec maximum us Hmax ltac:(lia)) as [Hp Hm].
  pose proof (packed_nonempty _ _ _ _ Hmax Hp Hn) as Hne.
  pose proof (packed_absorbs newPacket (dc_payloadType config) ts _ _ _ Hmax Hus Hp) as Habs.
  set (output := packetizeLoop (length us) codec maximum us) in *.
  destruct output as [| v output _] using rev_ind; [done |].
  unfold stream in Hs. rewrite markLast_snoc in Hs. rewrite map_app in Habs.
  apply Forall2_app_inv_l in Hs as (packets1 & packets2 & Hs1 & Hs2 & ->).
  apply Forall2_cons_inv_l in Hs2 as (packet & ? & [Hc Hmark] & ->%Forall2_nil_inv_l & ->). cbn [vp_marker vp_payload] in *.
  apply Forall_app in Hm as [Hm1 _].
  destruct (Habs (packets1 ++ [setMarker false packet]) (create config max)) as (d & E & A); try done.
  - apply Forall2_app; [| by constructor]. rewrite Forall2_fmap_l. eapply Forall2_impl; [exact Hs1 |]. by intros ? ? [].
  - apply Forall_app. split; [| by constructor]. clear - Hs1 Hm1.
    induction Hs1 as [| v' p output packets1 [_ Hv] Hs1 IH]; [constructor |].
    apply Forall_cons in Hm1 as [Hv' Hm1]. constructor; [by rewrite Hv | by apply IH].
  - split; [done | by left].
  - rewrite map_app, run_app in E. destruct (run newPacket (map Ev_Packet packets1) (create config max)) as [rs d1] eqn:E1.
    cbn [fst snd] in E. injection E as Ers Ed. rewrite length_app, Nat.add_1_r, replicate_S_end in Ers.
    cbn [map MediaRtpDepacketizer.run handle] in Ers, Ed.
    destruct (push newPacket (setMarker false packet) d1) as [r d2] eqn:E2. cbn [fst snd] in Ers, Ed. subst d2.
    apply app_inj_tail in Ers as [-> ->]. destruct A as [A [Aw _]].
    generalize dependent (dp_timestamp d). intros t A. subst d.
    rewrite map_app, run_app, E1. cbn [fst snd map MediaRtpDepacketizer.run handle].
    pose proof (push_marker (setMarker false packet) d1 _ eq_refl E2 Aw eq_refl) as Hpm. change (setMarker true (setMarker false packet)) with (setMarker true packet) in Hpm.
    rewrite (setMarker_same true) in Hpm by done. unfold push. rewrite Hpm.
    assert (Hann : annexB us <> []) by (destruct us; done).
    rewrite finish_ok; cbn [dp_accessUnit dp_config create app]; [| done | done | lia | done].
    rewrite length_app, Nat.add_1_r. cbn [pred]. unfold accessUnitOf.
    cbn [setMarker rp_timestamp fst snd dp_keyFrame dp_maximumAccessUnitBytes dp_continuity dp_nalParser orb].
    destruct Hc as (_ & _ & ->). done.
Qed.

End Delivery.

(** ** A stream of access units *)

Definition depacketizerFor (codec : MediaAnnexBCodec) : DepacketizerCodec :=
  match codec with H264 => h264Depacketizer | Hevc => hevcDepacketizer end.

#[export] Instance depacketizer_laws codec : DepacketizerLaws codec (depacketizerFor codec).
Proof. destruct codec; [apply h264_laws | apply hevc_laws]. Qed.

(** An access unit and the RTP packets that carry it, in order. *)
Record Sent := mkSent {
  sn_accessUnit : list Z;
  sn_timestamp : Z;
  sn_packets : list MediaRtpPacket;
}.

(** [s] went through the packetizer; [us] are its NAL units. *)
Definition packetized (codec : MediaAnnexBCodec) (layout : Layout) (maximum : nat) (pt : Z) (s : Sent) (us : list (list Z)) : Prop :=
  byteList (sn_accessUnit s) /\ scan (sn_accessUnit s) codec layout = Success us /\
  exists output, packetize (sn_accessUnit s) codec layout maximum = Success output /\
    stream pt (sn_timestamp s) output (sn_packets s).

Lemma encodes_bytes codec layout bytes us : byteList bytes -> encodes codec layout bytes us -> Forall byteList us.
Proof.
  unfold encodes, byteList. destruct (kind layout).
  - intros Hb H. induction H as [p u | p u bytes us Hp Hv Hu H IH]; apply Forall_app in Hb as [_ Hb]; [by constructor |].
    apply Forall_app in Hb as [Hb1 Hb2]. constructor; [done | by apply IH].
  - intros Hb (w & _ & _ & _ & _ & ->). induction us as [| u us IH]; [constructor |].
    unfold lengthCoded in Hb. cbn [map concat] in Hb. rewrite !Forall_app in Hb. destruct Hb as [[_ Hu] Hb].
    constructor; [done | by apply IH].
Qed.

Lemma packetized_inv codec layout maximum pt s us : packetized codec layout maximum pt s us ->
  Forall (nalOk codec) us /\ us <> [] /\ (fuHeaderBytes codec < maximum)%nat /\
  stream pt (sn_timestamp s) (markLast (packetizeLoop (length us) codec maximum us)) (sn_packets s) /\
  encodes codec layout (sn_accessUnit s) us.
Proof.
  intros (Hb & Hscan & output & Hp & Hs). unfold packetize in Hp.
  destruct (Nat.leb_spec maximum (fuHeaderBytes codec)); [by apply failure_not in Hp |].
  rewrite Hscan in Hp. cbn [bindResult] in Hp. case_bool_decide; [by apply failure_not in Hp |]. injection Hp as <-.
  apply scan_iff in Hscan; [| done]. destruct (encodes_valid _ _ _ _ Hscan) as [Hn Hv].
  split_and!; try done. pose proof (encodes_bytes _ _ _ _ Hb Hscan) as Hbytes.
  apply Forall_forall. intros u Hu. split; [by eapply (proj1 (Forall_forall _ _)) in Hv | by eapply (proj1 (Forall_forall _ _)) in Hbytes].
Qed.

(** Everything the depacketizer put out. *)
Definition delivered (results : list (Result (list MediaRtpAccessUnit))) : list MediaRtpAccessUnit :=
  concat (map (fun r => match r with Success units => units | Failure _ => [] end) results).

Lemma delivered_app r1 r2 : delivered (r1 ++ r2) = delivered r1 ++ delivered r2.
Proof. unfold delivered. by rewrite map_app, concat_app. Qed.

Lemma delivered_quiet n : delivered (replicate n (Success [])) = [].
Proof. induction n as [| n IH]; [done | exact IH]. Qed.

(** C2: A stream of access units that the packetizer put into RTP packets, in
    either codec and either layout, comes out of the depacketizer complete and
    in order: no packet is refused, every access unit is emitted exactly once,
    with its timestamp, its key-frame flag and its NAL units in the four-byte
    start-code form, and the depacketizer is back in its initial state; every
    payload is within the planned size, and of a start-code delimited access
    unit what comes out splits into the same units again. *)
Theorem video_rtp_roundtrip newPacket codec layout maximum config max sent units :
  Forall2 (packetized codec layout maximum (dc_payloadType config)) sent units ->
  0 < dc_clockRate config -> Z.of_nat max < 2 ^ 31 -> (forall n, 0 < n < 2 ^ 31 -> newPacket n = true) ->
  Forall (fun us => (length (annexB us) <= max)%nat) units ->
  let '(results, d) := run newPacket (codec := depacketizerFor codec)
                         (map Ev_Packet (concat (map sn_packets sent))) (create config max) in
  Forall (fun r => resultOk r = true) results /\ d = create config max /\
  delivered results = zip_with (fun s us => accessUnitOf (C := depacketizerFor codec) config (sn_timestamp s) us) sent units /\
  Forall (fun p => (0 < length (rp_payload p) <= maximum)%nat) (concat (map sn_packets sent)) /\
  (kind layout = StartCodeDelimited -> Forall (fun us => scan (annexB us) codec startCodeDelimited = Success us) units).
Proof.
  intros Hsent Hclock Hint Hnew Hmax. set (C := depacketizerFor codec).
  induction Hsent as [| s us sent units Hs Hsent IH]; [cbn; repeat constructor |].
  apply Forall_cons in Hmax as [Hl Hmax]. specialize (IH Hmax).
  destruct (packetized_inv _ _ _ _ _ _ Hs) as (Hok & Hn & Hfu & Hstream & Henc).
  pose proof (access_unit_delivered newPacket (C := C) config max maximum (sn_timestamp s) us (sn_packets s)
    Hok Hn Hfu Hstream Hl Hint Hclock Hnew) as E.
  cbn [map concat]. rewrite map_app, run_app, E. cbn [fst snd].
  destruct (run newPacket _ (create config max)) as [rs d] eqn:Er. cbn [fst snd].
  destruct IH as (IH1 & IH2 & IH3 & IH4 & IH5).
  assert (Hv : Forall (fun u => validNal u codec = true) us) by (eapply Forall_impl; [exact Hok |]; by intros ? []).
  split_and!.
  - rewrite !Forall_app. split_and!; [| by repeat constructor | done]. apply Forall_forall. by intros r [-> _]%elem_of_replicate.
  - done.
  - rewrite !delivered_app, delivered_quiet, IH3. done.
  - apply Forall_app. split; [| done].
    destruct (packetizeLoop_packed (length us) codec maximum us Hfu ltac:(lia)) as [Hp _].
    apply packed_sizes in Hp; [| done..]. rewrite <- markLast_payloads in Hp. clear - Hp Hstream.
    induction Hstream as [| v p output packets [(E & _) _] _ IH]; [constructor |]. apply Forall_cons in Hp as [Hp1 Hp].
    constructor; [by rewrite E | by apply IH].
  - intros Hk. constructor; [| by apply IH5]. unfold encodes in Henc. rewrite Hk in Henc.
    apply scan_iff; [apply annexB_bytes; eapply Forall_impl; [exact Hok |]; by intros ? [] |].
    apply annexB_startCoded; [done | by eapply startCoded_units].
Qed.

(** An access unit of five NAL units: an aggregate of two, a unit in three
    fragments and an aggregate of two, in payloads of at most 10 bytes. *)
Definition exampleUnits : list (list Z) :=
  [[0x67; 1]; [0x68; 2; 3]; [0x65; 1; 2; 3; 4; 5; 6; 7; 8; 9; 10; 11; 12; 13; 14; 15; 16; 17; 18; 19; 20]; [0x41; 7]; [0x41; 8]].

Definition examplePacket (ts : Z) (v : MediaVideoRtpPayloadPacket) : MediaRtpPacket :=
  mkPacket 2 (vp_marker v) 96 0 ts 1 [] None 0 (vp_payload v).

Definition exampleSent (ts : Z) : Sent :=
  mkSent (annexB exampleUnits) ts (map (examplePacket ts) (markLast (packetizeLoop 5 H264 10 exampleUnits))).

Definition exampleConfig : MediaRtpDepacketizerConfig := mkConfig Stream_Video "h264" "" 96 90000 0 0 None.

Lemma example_stream ts output : stream 96 ts output (map (examplePacket ts) output).
Proof. induction output as [| v output IH]; constructor; [done | exact IH]. Qed.

Lemma example_packetized ts : packetized H264 startCodeDelimited 10 96 (exampleSent ts) exampleUnits.
Proof.
  split_and!; [| reflexivity |].
  { apply annexB_bytes. unfold exampleUnits, is_u. repeat apply Forall_cons_2; try apply Forall_nil_2; lia. }
  exists (markLast (packetizeLoop 5 H264 10 exampleUnits)). split; [reflexivity |].
  apply example_stream.
Qed.

Definition exampleDelivery : list MediaRtpAccessUnit :=
  let unit ts := mkAccessUnit (annexB exampleUnits) ts ts 0 true ts (mkRational 1 90000) in [unit 1; unit 2].

Lemma video_rtp_roundtrip_witness :
  let '(results, _) := run (fun _ => true) (codec := depacketizerFor H264)
                         (map Ev_Packet (concat (map sn_packets [exampleSent 1; exampleSent 2]))) (create exampleConfig 100) in
  delivered results = exampleDelivery.
Proof.
  pose proof (video_rtp_roundtrip (fun _ => true) H264 startCodeDelimited 10 exampleConfig 100
    [exampleSent 1; exampleSent 2] [exampleUnits; exampleUnits]
    ltac:(apply Forall2_cons; split; [exact (example_packetized 1) |]; apply Forall2_cons; split;
          [exact (example_packetized 2) | apply Forall2_nil_2])
    ltac:(reflexivity) ltac:(reflexivity) ltac:(reflexivity)
    ltac:(repeat constructor; apply Nat.leb_le; reflexivity)) as H.
  destruct (run _ _ _) as [results d]. destruct H as (_ & _ & H & _). rewrite H. reflexivity.
Defined.

End MediaRtpVideoRoundTrip.
