(* ===== verification/RtpVideoBounds.v ===== *)
(** * How many datagrams the video packetizer makes

    [maximumDatagramsForPayloadWindow] of
    [protocol/rtp/MediaDeterministicVideoRtpPacketizer.cpp] bounds the payloads
    of a window of access units by [2 * ceil(bytes / capacity) + 3 * units - 2].
    The number of payloads is counted along the packetizer's loop: a group
    and the group behind it consume a fragment's capacity of access-unit bytes,
    except where the last fragment of a NAL unit is followed by a group.  Every
    fragmented NAL unit therefore costs one payload, and the bound holds as long
    as there are at most two of them for each access unit. *)

From S2P Require Import Prelude MediaResult CheckedArithmetic Model VideoNal RtpVideo RtpVideoRoundTrip.
Import MediaCheckedArithmetic MediaVideoNalUnitScanner MediaDeterministicVideoRtpPacketizer MediaRtpVideoRoundTrip.

Local Open Scope nat_scope.

Module MediaRtpVideoBounds.

(** The access-unit bytes the packetizer can count on: a unit and two bytes in
    front of it. *)
Definition weight (us : list (list Z)) : nat := sum_list_with (fun u => 2 + length u) us.

Definition capacity (codec : MediaAnnexBCodec) (maximum : nat) : nat := maximum - fuHeaderBytes codec.

Definition isFragmented (maximum : nat) (u : list Z) : bool := maximum <? length u.

Definition fragmentedUnits (maximum : nat) (us : list (list Z)) : nat := length (List.filter (isFragmented maximum) us).

(** ** Fragments *)

Lemma fragmentLoop_count fuel nal codec c remaining first :
  0 < c -> length remaining <= fuel -> remaining <> [] ->
  let n := length (fragmentLoop fuel nal codec c remaining first) in
  0 < n /\ (n - 1) * c < length remaining <= n * c.
Proof.
  intros Hc. revert remaining first. induction fuel as [| fuel IH]; intros remaining first Hf Hn.
  { destruct remaining; [done | cbn in Hf; lia]. }
  cbn [fragmentLoop]. rewrite bool_decide_eq_false_2 by done. cbn [length].
  assert (0 < length remaining) by (destruct remaining; [done | cbn; lia]).
  destruct (decide (length remaining <= c)) as [Hle | Hgt].
  - rewrite (drop_ge remaining) by lia.
    replace (fragmentLoop fuel nal codec c [] false) with (@nil MediaVideoRtpPayloadPacket) by (by destruct fuel). cbn. lia.
  - assert (Hd : length (drop (Nat.min c (length remaining)) remaining) = length remaining - c) by (rewrite length_drop; lia).
    edestruct (IH (drop (Nat.min c (length remaining)) remaining) false) as (H1 & H2 & H3).
    + lia.
    + intros E. rewrite E in Hd. cbn in Hd. lia.
    + rewrite Hd in *. set (n := length (fragmentLoop _ _ _ _ _ _)) in *. split; [lia |]. destruct n as [| n]; [lia |]. cbn in *. nia.
Qed.

Lemma fragment_count u codec maximum : fuHeaderBytes codec < maximum < length u ->
  let n := length (fragment u codec maximum) in
  2 <= n /\ (n - 1) * capacity codec maximum + 1 <= 2 + length u.
Proof.
  intros Hm. unfold fragment, capacity. set (remaining := drop (headerBytes codec) u).
  assert (Hr : length remaining = length u - headerBytes codec) by apply length_drop.
  assert (Hh : headerBytes codec < length u /\ maximum - fuHeaderBytes codec < length remaining)
    by (rewrite Hr; destruct codec; cbn in *; lia).
  destruct (fragmentLoop_count (length remaining) u codec (maximum - fuHeaderBytes codec) remaining true) as (H1 & H2 & H3);
    [lia | lia | by intros E; rewrite E in Hh; cbn in Hh; lia |].
  set (n := length (fragmentLoop _ _ _ _ _ _)) in *. cbv zeta. split; [| lia].
  destruct n as [| [| n]]; lia.
Qed.

(** ** Groups of whole units *)

(** Why the inner loop stopped. *)
Lemma aggregateCount_stop maximum bytes us v rest : bytes <= maximum -> (Z.of_nat maximum <= 65535)%Z ->
  let n := aggregateCount maximum bytes us in
  drop n us = v :: rest -> length v <= maximum -> maximum < bytes + weight (take n us) + (2 + length v).
Proof.
  intros Hb Hm. revert bytes Hb. induction us as [| u us IH]; intros bytes Hb; cbn [aggregateCount]; [done |].
  destruct (_ && _) eqn:E.
  - rewrite !andb_true_iff, !Nat.leb_le, Z.leb_le in E. destruct E as [[E1 E2] E3]. cbv zeta. cbn [drop take].
    intros Hd Hv. specialize (IH (bytes + (2 + length u)) ltac:(lia) Hd Hv).
    change (weight (u :: ?l)) with (2 + length u + weight l). lia.
  - cbv zeta. cbn [drop take]. intros [= -> ->] Hv. change (weight []) with 0.
    rewrite !andb_false_iff, !Nat.leb_gt, Z.leb_gt in E. lia.
Qed.

(** One round of the packetizer's loop that makes one payload: it takes [n]
    units, and they and the next one fill a capacity. *)
Lemma packetize_group fuel codec maximum u us :
  fuHeaderBytes codec < maximum -> (Z.of_nat maximum <= 65535)%Z -> length u <= maximum ->
  exists n, 1 <= n <= length (u :: us) /\
    length (packetizeLoop (S fuel) codec maximum (u :: us)) =
      S (length (packetizeLoop fuel codec maximum (drop n (u :: us)))) /\
    forall v rest, drop n (u :: us) = v :: rest -> length v <= maximum ->
      capacity codec maximum + 1 <= weight (take n (u :: us)) + (2 + length v).
Proof.
  intros Hfu Hm Hu. cbn [packetizeLoop]. replace (maximum <? length u) with false by (symmetry; apply Nat.ltb_ge; lia).
  assert (Hh : headerBytes codec <= maximum /\ fuHeaderBytes codec = S (headerBytes codec)) by (destruct codec; cbn in *; lia).
  pose proof (aggregateCount_spec maximum (headerBytes codec) (u :: us) ltac:(lia)) as (Hn & _ & _).
  pose proof (aggregateCount_stop maximum (headerBytes codec) (u :: us)) as Hstop.
  set (n := aggregateCount maximum (headerBytes codec) (u :: us)) in *. unfold capacity.
  destruct (Nat.leb_spec 2 n) as [H2 | H2].
  - exists n. split; [lia |]. split; [done |]. intros v rest Hd Hv. specialize (Hstop v rest ltac:(lia) Hm Hd Hv). lia.
  - exists 1. split; [cbn; lia |]. split; [done |]. intros v rest Hd Hv. change (us = v :: rest) in Hd. subst us.
    change (take 1 (u :: v :: rest)) with [u].
    change (weight [u]) with (2 + length u + 0).
    destruct n as [| [| n]]; [| | lia].
    + specialize (Hstop u (v :: rest) ltac:(lia) Hm eq_refl Hu). change (weight (take 0 _)) with 0 in Hstop. lia.
    + specialize (Hstop v rest ltac:(lia) Hm eq_refl Hv). change (weight (take 1 _)) with (2 + length u + 0) in Hstop. lia.
Qed.

Lemma weight_app us1 us2 : weight (us1 ++ us2) = weight us1 + weight us2.
Proof. unfold weight. induction us1 as [| u us1 IH]; cbn [app sum_list_with]; lia. Qed.

Lemma weight_split n us : weight us = weight (take n us) + weight (drop n us).
Proof. by rewrite <- weight_app, take_drop. Qed.

Lemma weight_cons u us : weight (u :: us) = 2 + length u + weight us.
Proof. done. Qed.

Lemma fragmentedUnits_drop maximum n us : fragmentedUnits maximum (drop n us) <= fragmentedUnits maximum us.
Proof.
  unfold fragmentedUnits. rewrite <- (take_drop n us) at 2. rewrite List.filter_app, length_app. lia.
Qed.

Lemma fragmentedUnits_cons maximum u us :
  fragmentedUnits maximum (u :: us) = (if isFragmented maximum u then 1 else 0) + fragmentedUnits maximum us.
Proof. unfold fragmentedUnits. cbn [List.filter]. by destruct (isFragmented maximum u). Qed.

(** ** An access unit *)

(** [k] capacities of access-unit bytes pay for the payloads. *)
Definition paid (codec : MediaAnnexBCodec) (maximum : nat) (us : list (list Z)) (payloads : nat) : Prop :=
  exists k, capacity codec maximum * k + 1 <= weight us /\
    payloads <= 2 * k + 1 + fragmentedUnits maximum us /\
    (head (isFragmented maximum <$> us) = Some true -> payloads <= 2 * k + fragmentedUnits maximum us).

(** In the order of the loop: a fragmented unit, a last payload, a payload in
    front of a fragmented unit, and two payloads of whole units. *)
Lemma payloads_paid codec maximum us fuel :
  fuHeaderBytes codec < maximum -> (Z.of_nat maximum <= 65535)%Z -> us <> [] -> length us <= fuel ->
  paid codec maximum us (length (packetizeLoop fuel codec maximum us)).
Proof.
  intros Hfu Hm. revert us. induction fuel as [fuel IH] using lt_wf_ind. intros us Hn Hf.
  destruct us as [| u us]; [done |]. destruct fuel as [| fuel]; [cbn in Hf; lia |]. cbn [length] in Hf.
  destruct (decide (maximum < length u)) as [Hbig | Hsmall].
  - assert (Eu : isFragmented maximum u = true) by (by apply Nat.ltb_lt).
    cbn [packetizeLoop]. replace (maximum <? length u) with true by (symmetry; by apply Nat.ltb_lt). rewrite length_app.
    destruct (fragment_count u codec maximum ltac:(lia)) as [F1 F2]. set (n := length (fragment u codec maximum)) in *.
    unfold paid. rewrite weight_cons, fragmentedUnits_cons, Eu.
    destruct us as [| u' us]; [exists (n - 1); rewrite (Nat.mul_comm (capacity _ _)); destruct fuel; cbn; lia |].
    destruct (IH fuel ltac:(lia) (u' :: us) ltac:(done) ltac:(lia)) as (k & K1 & K2 & K3).
    exists (k + (n - 1)). rewrite Nat.mul_add_distr_l, (Nat.mul_comm _ (n - 1)). lia.
  - assert (Eu : isFragmented maximum u = false) by (apply Nat.ltb_ge; lia).
    destruct (packetize_group fuel codec maximum u us Hfu Hm ltac:(lia)) as (n & Hl & -> & Hg).
    assert (Hhead : head (isFragmented maximum <$> u :: us) = Some true -> False) by (change (Some (isFragmented maximum u) = Some true -> False); by rewrite Eu).
    pose proof (fragmentedUnits_drop maximum n (u :: us)) as HF. pose proof (weight_split n (u :: us)) as Hw.
    assert (Hlen : length (drop n (u :: us)) <= fuel) by (rewrite length_drop; cbn [length] in *; lia).
    destruct (drop n (u :: us)) as [| v rest] eqn:Ed.
    { exists 0. rewrite weight_cons in Hw |- *. split; [lia |]. split; [| by intros ?%Hhead]. destruct fuel; cbn; lia. }
    destruct (decide (maximum < length v)) as [Hv | Hv].
    + destruct (IH fuel ltac:(lia) (v :: rest) ltac:(done) Hlen) as (k & K1 & K2 & K3).
      exists k. split; [lia |]. split; [| by intros ?%Hhead].
      assert (Ev : isFragmented maximum v = true) by (by apply Nat.ltb_lt).
      change (head (isFragmented maximum <$> v :: rest)) with (Some (isFragmented maximum v)) in K3.
      rewrite Ev in K3. specialize (K3 eq_refl). lia.
    + destruct fuel as [| fuel]; [cbn in Hlen; lia |]. specialize (Hg v rest eq_refl ltac:(lia)).
      destruct (packetize_group fuel codec maximum v rest Hfu Hm ltac:(lia)) as (n' & Hl' & -> & _).
      pose proof (fragmentedUnits_drop maximum n' (v :: rest)) as HF'. pose proof (weight_split n' (v :: rest)) as Hw'.
      assert (Hv' : 2 + length v <= weight (take n' (v :: rest)))
        by (destruct n'; [lia |]; cbn [take]; rewrite weight_cons; lia).
      assert (Hlen' : length (drop n' (v :: rest)) <= fuel) by (rewrite length_drop; cbn [length] in *; lia).
      destruct (drop n' (v :: rest)) as [| w rest'] eqn:Ed'.
      { exists 1. split; [lia |]. split; [| by intros ?%Hhead]. destruct fuel; cbn; lia. }
      destruct (IH fuel ltac:(lia) (w :: rest') ltac:(done) Hlen') as (k & K1 & K2 & _).
      exists (k + 1). split; [lia |]. split; [| by intros ?%Hhead]. lia.
Qed.

(** ** A window of access units *)

(** A length field of one byte is one byte short of the two an aggregate puts in
    front of a unit. *)
Definition missingPrefix (layout : Layout) (us : list (list Z)) : nat :=
  match kind layout, lengthFieldBytes layout with
  | LengthPrefixed, Some width => if (width =? 1)%Z then length us else 0
  | _, _ => 0
  end.

Lemma encodes_weight codec layout bytes us : encodes codec layout bytes us ->
  weight us <= length bytes + missingPrefix layout us.
Proof.
  unfold missingPrefix, encodes. destruct (kind layout).
  - intros H. assert (Hp : forall p, isStartCode p -> 2 <= length p) by (intros p [-> | ->]; cbn; lia).
    induction H as [p u Hcode | p u bytes us Hcode]; specialize (Hp p Hcode); rewrite weight_cons, !length_app; [cbn |]; lia.
  - intros (width & E & Hw & _ & _ & ->). rewrite E. destruct (Z.eqb_spec (Z.of_nat width) 1) as [Ew | Ew].
    + assert (width = 1) as -> by lia. clear. induction us as [| u us IH]; [cbn; lia |].
      change (lengthCoded 1 (u :: us)) with ((bigEndian 1 (Z.of_nat (length u)) ++ u) ++ lengthCoded 1 us).
      rewrite weight_cons, !length_app, bigEndian_length. cbn [length]. lia.
    + assert (2 <= width) as Hw' by lia. clear Hw E Ew. induction us as [| u us IH]; [cbn; lia |].
      change (lengthCoded width (u :: us)) with ((bigEndian width (Z.of_nat (length u)) ++ u) ++ lengthCoded width us).
      rewrite weight_cons, !length_app, bigEndian_length. lia.
Qed.

Lemma stream_length pt ts output packets : stream pt ts output packets -> length packets = length output.
Proof. intros H. symmetry. by eapply Forall2_length. Qed.

Lemma markLast_length output : length (markLast output) = length output.
Proof. by rewrite <- (length_map vp_payload (markLast output)), markLast_payloads, length_map. Qed.

Definition packetCount (sent : list Sent) : nat := sum_list_with (fun s => length (sn_packets s)) sent.
Definition byteCount (sent : list Sent) : nat := sum_list_with (fun s => length (sn_accessUnit s)) sent.
Definition fragmentedCount (maximum : nat) (units : list (list (list Z))) : nat := sum_list_with (fragmentedUnits maximum) units.
Definition missingCount (layout : Layout) (units : list (list (list Z))) : nat := sum_list_with (missingPrefix layout) units.

Lemma window_paid codec layout maximum pt sent units :
  (Z.of_nat maximum <= 65535)%Z -> Forall2 (packetized codec layout maximum pt) sent units ->
  exists k, capacity codec maximum * k + length sent <= byteCount sent + missingCount layout units /\
    packetCount sent <= 2 * k + length sent + fragmentedCount maximum units.
Proof.
  intros Hm. induction 1 as [| s us sent units Hs _ (k & K1 & K2)]; [exists 0; cbn; lia |].
  destruct (packetized_inv _ _ _ _ _ _ Hs) as (_ & Hn & Hfu & Hstream & Henc).
  apply stream_length in Hstream. rewrite markLast_length in Hstream.
  pose proof (encodes_weight _ _ _ _ Henc) as Hw.
  destruct (payloads_paid codec maximum us (length us) Hfu Hm Hn ltac:(lia)) as (k' & K1' & K2' & _).
  exists (k + k'). unfold packetCount, byteCount, fragmentedCount, missingCount in *. cbn [sum_list_with length]. lia.
Qed.

Local Open Scope Z_scope.

(** What the bound is. *)
Lemma window_bound window units codec maximum bound :
  is_u 64 window -> is_u 64 units -> is_u 64 maximum ->
  maximumDatagramsForPayloadWindow window units codec maximum = Success bound ->
  0 < units /\ Z.of_nat (fuHeaderBytes codec) < maximum /\
  bound = 2 * ceilDiv window (maximum - Z.of_nat (fuHeaderBytes codec)) + 3 * units - 2.
Proof.
  intros Hw Hu Hm. assert (Hfu : 0 <= Z.of_nat (fuHeaderBytes codec) <= 3) by (destruct codec; cbn; lia).
  unfold maximumDatagramsForPayloadWindow. destruct (_ || _ || _) eqn:E; [by intros ?%failure_not |].
  rewrite !orb_false_iff, !Z.eqb_neq, Z.leb_gt in E. destruct E as [[E1 E2] E3].
  rewrite u64_small by (ranges; lia). set (c := maximum - Z.of_nat (fuHeaderBytes codec)) in *.
  rewrite ceilScale_exact by (unfold c; ranges; lia). rewrite (Z.mul_1_r window).
  replace ((1 =? 0) || (c =? 0)) with false by (symmetry; rewrite orb_false_iff, !Z.eqb_neq; lia).
  pose proof (ceilDiv_nonneg window c ltac:(ranges; lia) ltac:(lia)) as Hpos.
  assert (Hone : 1 <= ceilDiv window c).
  { apply Z.nlt_ge. intros Hlt. assert (ceilDiv window c <= 0) as H%ceilDiv_le by lia; ranges; lia. }
  unfold checked. case_bool_decide as Hf; [| done].
  rewrite !multiply_checked by (ranges; lia). unfold checked. case_bool_decide as Hd; cycle 1.
  { done. }
  case_bool_decide as Ha; [| done]. rewrite add_checked by (ranges; lia). unfold checked.
  case_bool_decide as Hc; [| done]. intros [= <-]. split_and!; [ranges; lia | lia |].
  rewrite u64_small by (ranges; lia). lia.
Qed.

(** C14: For a window that covers the bytes of some access units, and one more
    byte for each NAL unit when the layout has length fields of one byte, the
    packetizer makes at most as many datagrams as
    [maximumDatagramsForPayloadWindow] plans for the window and that many access
    units, plus the number of fragmented NAL units less two for each access unit.
    So the plan holds whenever there are on average at most two NAL units above
    the payload size per access unit, for payload sizes up to 65535. *)
Theorem datagram_bound codec layout maximum pt sent units window bound :
  Forall2 (packetized codec layout maximum pt) sent units -> sent <> [] ->
  Z.of_nat maximum <= 65535 -> is_u 64 window -> Z.of_nat (length sent) < 2 ^ 64 ->
  Z.of_nat (byteCount sent + missingCount layout units) <= window ->
  maximumDatagramsForPayloadWindow window (Z.of_nat (length sent)) codec (Z.of_nat maximum) = Success bound ->
  Z.of_nat (packetCount sent) <= bound + (Z.of_nat (fragmentedCount maximum units) - 2 * Z.of_nat (length sent)).
Proof.
  intros Hs Hn Hm Hw Hlen Hb Hbound.
  destruct (window_paid _ _ _ _ _ _ Hm Hs) as (k & K1 & K2).
  apply window_bound in Hbound as (Hpos & Hfu & ->); [| done | ranges; lia | ranges; lia].
  unfold capacity in K1. set (c := Z.of_nat maximum - Z.of_nat (fuHeaderBytes codec)) in *.
  assert (Hk : Z.of_nat k + 1 <= ceilDiv window c).
  { apply Z.nlt_ge. intros Hlt. assert (ceilDiv window c <= Z.of_nat k) as H%ceilDiv_le by lia; [| lia].
    assert (E : Z.of_nat (maximum - fuHeaderBytes codec) = c) by lia. apply inj_le in K1.
    rewrite Nat2Z.inj_add, Nat2Z.inj_mul, E in K1. lia. }
  lia.
Qed.

Lemma datagram_bound_witness :
  Z.of_nat (packetCount [exampleSent 1; exampleSent 2]) <= 30 + (2 - 2 * 2).
Proof.
  apply (datagram_bound H264 startCodeDelimited 10 96 [exampleSent 1; exampleSent 2] [exampleUnits; exampleUnits] 100 30).
  - constructor; [apply example_packetized |]. constructor; [apply example_packetized | constructor].
  - done.
  - reflexivity || lia.
  - unfold is_u. lia.
  - reflexivity.
  - vm_compute. discriminate.
  - vm_compute. reflexivity.
Defined.

(** *** Beyond two fragmented NAL units

    Four one-byte NAL units around three that are one byte too large for the
    payload size of 64 bytes, an access unit of 227 bytes: it becomes ten
    datagrams, and the plan for its bytes is nine. *)
Definition alternatingUnits : list (list Z) :=
  let small := [0x41] in let big := 0x41 :: replicate 64 0 in
  [small; big; small; big; small; big; small].

Lemma datagram_bound_exceeded :
  match packetize (annexB alternatingUnits) H264 startCodeDelimited 64,
        maximumDatagramsPerAccessUnit (Z.of_nat (length (annexB alternatingUnits))) H264 64 with
  | Success payloads, Success bound => length payloads = 10%nat /\ bound = 9
  | _, _ => False
  end.
Proof. vm_compute. done. Qed.

(** *** Length fields of one byte

    Five small NAL units behind length fields of one byte, an access unit of 13
    bytes: it becomes two datagrams of at most 16 bytes, one more than the plan
    of three for its bytes less two; for 18 bytes the plan is five. *)
Definition oneByteFields : Layout := mkLayout LengthPrefixed (Some 1).
Definition shortUnits : list (list Z) := [[0x41]; [0x41; 1; 1]; [0x41; 1]; [0x41]; [0x41]].

Lemma one_byte_fields :
  match packetize (lengthCoded 1 shortUnits) H264 oneByteFields 16 with Success payloads => length payloads = 2%nat | _ => False end /\
  length (lengthCoded 1 shortUnits) = 13%nat /\ missingPrefix oneByteFields shortUnits = 5%nat /\
  maximumDatagramsPerAccessUnit 13 H264 16 = Success 3 /\ maximumDatagramsPerAccessUnit 18 H264 16 = Success 5.
Proof. by vm_compute. Qed.

End MediaRtpVideoBounds.
