(* ===== verification/RtpVideoSafety.v ===== *)
(** * The video depacketizers on any input

    Whatever packets and discontinuities arrive, an access unit that the H.264
    and HEVC depacketizers emit is the four-byte start-code form of valid NAL
    units within the prepared capacity; after a loss nothing of the interrupted
    access unit comes out, and the next one comes out complete.  The class
    [ParserSafety] states what the depacketizer needs of its NAL parser. *)

From S2P Require Import Prelude MediaResult Model RtpWire RtpReorder VideoNal RtpVideo RtpVideoRoundTrip.
Import MediaRtpPacketParser MediaVideoNalUnitScanner MediaDeterministicVideoRtpPacketizer.
Import MediaRtpNalUnitParser MediaRtpAccessUnitContinuity MediaRtpDepacketizer MediaRtpVideoRoundTrip.
Import MediaRtpReorderBuffer (SequenceGap).

Local Open Scope Z_scope.
Local Open Scope result_scope.

Module MediaRtpVideoSafety.

Definition validUnits (codec : MediaAnnexBCodec) (us : list (list Z)) : Prop := Forall (fun u => validNal u codec = true) us.

(** An open fragment starts with a valid header. *)
Definition parserOk (codec : MediaAnnexBCodec) (p : NalParser) : Prop :=
  np_fragmentHeader p <> None -> validNal (np_fragment p) codec = true.

(** What a push leaves behind. *)
Definition pushOk (codec : MediaAnnexBCodec) (p : NalParser) (outcome : Result MediaRtpNalUnitBatch * NalParser) : Prop :=
  parserOk codec outcome.2 /\ np_payloadType outcome.2 = np_payloadType p /\
  match outcome.1 with Success b => validUnits codec (nb_nalUnits b) | Failure _ => True end.

Class ParserSafety (codec : MediaAnnexBCodec) (C : DepacketizerCodec) : Prop :=
  safe_push packet cap p : byteList (rp_payload packet) -> parserOk codec p -> pushOk codec p (cd_push packet cap p).

(** ** The parsers *)

Lemma validNal_extend u x codec : validNal u codec = true -> validNal (u ++ x) codec = true.
Proof.
  intros Hv. pose proof (validNal_length _ _ Hv) as Hl. unfold validNal in *. rewrite length_app.
  destruct (_ <? _)%nat in Hv; [done |].
  replace (_ <? _)%nat with false by (symmetry; apply Nat.ltb_ge; lia).
  destruct codec; cbn in Hl; by rewrite !lookup_total_app_l by lia.
Qed.

Lemma pushOk_failure codec p p' (e : ErrorInfo) :
  parserOk codec p' -> np_payloadType p' = np_payloadType p -> pushOk codec p (failure e, p').
Proof. intros H1 H2. split; [exact H1 |]. split; [exact H2 |]. cbn. unfold failure. by destruct (ErrorInfo_ok e). Qed.

Lemma pushOk_success codec p p' b : parserOk codec p' -> np_payloadType p' = np_payloadType p ->
  validUnits codec (nb_nalUnits b) -> pushOk codec p (Success b, p').
Proof. intros H1 H2 H3. by split. Qed.

Lemma validNal_of_header u : validH264NalHeader (u !!! 0%nat) = true -> (0 < length u)%nat -> validNal u H264 = true.
Proof.
  intros Hh Hl. unfold validNal. replace (_ <? _)%nat with false by (symmetry; apply Nat.ltb_ge; cbn; lia). exact Hh.
Qed.

Lemma validNal_of_hevc u : validHevcNalHeader u = true -> Z.land (Z.shiftr (u !!! 0%nat) 1) 0x3F <= 47 ->
  (2 <= length u)%nat -> validNal u Hevc = true.
Proof.
  unfold validHevcNalHeader. intros [Hh1 Hh2]%andb_true_iff Ht Hl. unfold validNal.
  replace (_ <? _)%nat with false by (symmetry; apply Nat.ltb_ge; cbn; lia).
  rewrite Hh1, Hh2. by replace (_ <=? 47) with true by (symmetry; apply Z.leb_le; lia).
Qed.

Lemma at_take (l : list Z) n off i : (i < n)%nat -> take n (drop off l) !!! i = drop off l !!! i.
Proof. intros Hi. rewrite !list_lookup_total_alt. by rewrite lookup_take_lt. Qed.

Lemma stapLoop_valid fuel payload offset units units' :
  validUnits H264 units -> stapLoop fuel payload offset units = Success units' -> validUnits H264 units'.
Proof.
  revert offset units. induction fuel as [| fuel IH]; intros offset units Hu; cbn [stapLoop]; [by intros ?%failure_not |].
  destruct (_ <? _)%nat; [| by intros [= <-]]. destruct (_ <? 2)%nat; [by intros ?%failure_not |]. cbv zeta.
  set (len := Z.to_nat _). destruct (Nat.eqb_spec len 0); [by intros ?%failure_not |].
  destruct (Nat.ltb_spec (length payload - (offset + 2)) len); [by intros ?%failure_not |]. cbn [orb].
  destruct (validH264NalHeader _) eqn:Hh; [| by intros ?%failure_not]. cbn [negb].
  apply IH. apply Forall_app. split; [done |]. constructor; [| constructor].
  apply validNal_of_header; [| rewrite length_take, length_drop; lia].
  by rewrite at_take, lookup_total_drop, Nat.add_0_r by lia.
Qed.

Lemma apLoop_valid fuel payload offset units units' :
  validUnits Hevc units -> apLoop fuel payload offset units = Success units' -> validUnits Hevc units'.
Proof.
  revert offset units. induction fuel as [| fuel IH]; intros offset units Hu; cbn [apLoop]; [by intros ?%failure_not |].
  destruct (_ <? _)%nat; [| by intros [= <-]]. destruct (_ <? 2)%nat; [by intros ?%failure_not |]. cbv zeta.
  set (len := Z.to_nat _). destruct (Nat.ltb_spec len 2); [by intros ?%failure_not |].
  destruct (Nat.ltb_spec (length payload - (offset + 2)) len); [by intros ?%failure_not |]. cbn [orb].
  destruct (validHevcNalHeader _) eqn:Hh; [| by intros ?%failure_not]. cbn [negb].
  destruct (Z.ltb_spec 47 (Z.land (Z.shiftr (drop (offset + 2) payload !!! 0%nat) 1) 0x3F)); [by intros ?%failure_not |]. cbn [orb].
  apply IH. apply Forall_app. split; [done |]. constructor; [| constructor].
  unfold validHevcNalHeader in Hh.
  apply validNal_of_hevc; [unfold validHevcNalHeader | | rewrite length_take, length_drop; lia]; by rewrite !at_take by lia.
Qed.

(** The header that a first fragment leads to. *)
Lemma fu_header_h264 b type : is_u 8 b -> Z.land b 0x80 = 0 -> 1 <= type <= 23 ->
  validNal [u8 (Z.lor (Z.land b 0xE0) type)] H264 = true.
Proof.
  intros Hb H0 Ht. pose proof (forallb_below (fun b => negb (Z.land b 0x80 =? 0) || forallb (fun type =>
    (type =? 0) || validNal [u8 (Z.lor (Z.land b 0xE0) type)] H264) (seqZ 0 24)) 256 b ltac:(vm_compute; reflexivity) Hb) as H.
  cbv beta in H. rewrite H0 in H. cbn [negb orb Z.eqb] in H. apply (forallb_below _ 24 type) in H; [| lia].
  cbv beta in H. apply orb_true_iff in H as [H%Z.eqb_eq | H]; [lia | done].
Qed.

Lemma fu_header_hevc b0 b1 type : is_u 8 b0 -> Z.land b0 0x80 = 0 -> Z.land b1 0x07 <> 0 -> 0 <= type <= 47 ->
  validNal [u8 (Z.lor (Z.land b0 0x81) (Z.shiftl type 1)); b1] Hevc = true.
Proof.
  intros Hb H0 H1 Ht. pose proof (forallb_below (fun b => negb (Z.land b 0x80 =? 0) || forallb (fun type =>
    validNal [u8 (Z.lor (Z.land b 0x81) (Z.shiftl type 1)); 1] Hevc) (seqZ 0 48)) 256 b0 ltac:(vm_compute; reflexivity) Hb) as H.
  cbv beta in H. rewrite H0 in H. cbn [negb orb Z.eqb] in H. apply (forallb_below _ 48 type) in H; [| lia].
  cbv beta in H. revert H. unfold validNal. cbn -[Z.land Z.lor Z.shiftl Z.shiftr u8 Z.leb Z.eqb].
  rewrite !andb_true_iff. intros [[-> ->] _].
  split_and!; [done.. |]. by apply negb_true_iff, Z.eqb_neq.
Qed.

(** Closes a branch of a push that fails or leaves the parser as it was. *)
Ltac push_case :=
  cbn [negb orb bindResult];
  match goal with
  | |- pushOk _ _ (invalidPayload _, _) => apply pushOk_failure; [assumption | reflexivity]
  | |- pushOk _ _ (failure _, _) => apply pushOk_failure; [assumption | reflexivity]
  end.

(** The branches behind an accepted fragment header, for either parser. *)
Lemma continue_ok codec (p0 p : NalParser) (c1 c2 c3 : bool) (stop : bool) e1 e2 e3 rest batch batch' :
  np_payloadType p = np_payloadType p0 -> parserOk codec p -> np_fragmentHeader p <> None ->
  nb_nalUnits batch = [np_fragment p ++ rest] -> nb_nalUnits batch' = [] ->
  let p1 := mkNalParser (np_payloadType p) (np_fragment p ++ rest) (np_fragmentHeader p) (np_fragmentTimestamp p) in
  pushOk codec p0
    (if c1 then (failure e1, p)
     else if c2 then (failure e2, p)
     else if c3 then (failure e3, p1)
     else if stop then (Success batch, mkNalParser (np_payloadType p1) [] None None)
     else (Success batch', p1)).
Proof.
  intros Et Hp Hh Eb Eb' p1. pose proof (validNal_extend _ rest codec (Hp Hh)) as Hv.
  assert (Hp1 : parserOk codec p1) by (intros _; exact Hv).
  destruct c1; [by apply pushOk_failure |]. destruct c2; [by apply pushOk_failure |].
  destruct c3; [by apply pushOk_failure |]. destruct stop; apply pushOk_success; try done.
  - by intros [].
  - rewrite Eb. by constructor.
  - rewrite Eb'. constructor.
Qed.

#[export] Instance h264_safety : ParserSafety H264 h264Depacketizer.
Proof.
  intros packet cap p Hb Hp. cbn [cd_push h264Depacketizer]. unfold pushH264.
  destruct (cap =? 0)%nat; [push_case |]. destruct (_ || _) eqn:Ein; [push_case |].
  apply orb_false_iff in Ein as [_ Hne%bool_decide_eq_false].
  assert (Hlen : (0 < length (rp_payload packet))%nat) by (destruct (rp_payload packet); [done | cbn; lia]).
  pose proof (byteList_at _ 0%nat Hb) as H0. cbv zeta.
  destruct (Z.eqb_spec (Z.land (rp_payload packet !!! 0%nat) 0x80) 0) as [E80 | E80]; [cbn [negb] | push_case].
  destruct (_ && _).
  { destruct (np_fragmentHeader p); [push_case |]. destruct (validH264NalHeader _) eqn:Hh; [cbn [negb] | push_case].
    apply pushOk_success; [done.. |]. constructor; [by apply validNal_of_header | constructor]. }
  destruct (_ =? 24).
  { destruct (np_fragmentHeader p); [push_case |]. destruct (_ =? 1)%nat; [push_case |].
    destruct (stapLoop _ _ _ _) as [units | e] eqn:Es; cbn [bindResult]; [| push_case].
    apply pushOk_success; [done.. |]. by eapply stapLoop_valid in Es; [| constructor]. }
  destruct (negb _); [push_case |]. unfold pushFuA.
  destruct (_ <? 3)%nat; [push_case |]. cbv zeta. destruct (_ || _ || _ || _) eqn:Ef; [push_case |].
  rewrite !orb_false_iff, Z.eqb_neq, Z.ltb_ge in Ef. destruct Ef as [[[_ _] Ef1] Ef2].
  assert (Hnn : 0 <= Z.land (rp_payload packet !!! 1%nat) 0x1F) by (apply Z.land_nonneg; right; lia).
  destruct (negb (Z.land _ 0x80 =? 0)).
  - destruct (np_fragmentHeader p); [push_case |].
    apply continue_ok; try done. intros _. apply fu_header_h264; [done | done | lia].
  - destruct (np_fragmentHeader p) eqn:Eh; [| by apply pushOk_success; try done; constructor].
    rewrite <- !Eh. apply continue_ok; try done. by rewrite Eh.
Qed.

#[export] Instance hevc_safety : ParserSafety Hevc hevcDepacketizer.
Proof.
  intros packet cap p Hb Hp. cbn [cd_push hevcDepacketizer]. unfold pushHevc.
  destruct (cap <? 2)%nat; [push_case |]. destruct (_ || _) eqn:Ein; [push_case |].
  apply orb_false_iff in Ein as [_ Hlen%Nat.ltb_ge].
  pose proof (byteList_at _ 0%nat Hb) as H0. cbv zeta.
  destruct (validHevcNalHeader _) eqn:Hh; [cbn [negb] | push_case].
  destruct (Z.leb_spec (Z.land (Z.shiftr (rp_payload packet !!! 0%nat) 1) 0x3F) 47) as [Ht | _].
  { destruct (np_fragmentHeader p); [push_case |].
    apply pushOk_success; [done.. |]. constructor; [by apply validNal_of_hevc | constructor]. }
  destruct (_ =? 48).
  { destruct (np_fragmentHeader p); [push_case |]. destruct (_ =? 2)%nat; [push_case |].
    destruct (apLoop _ _ _ _) as [units | e] eqn:Es; cbn [bindResult]; [| push_case].
    apply pushOk_success; [done.. |]. by eapply apLoop_valid in Es; [| constructor]. }
  destruct (negb _); [push_case |]. unfold pushFu.
  destruct (_ <? 4)%nat; [push_case |]. cbv zeta. destruct (_ || _) eqn:Ef; [push_case |].
  apply orb_false_iff in Ef as [_ Ef%Z.ltb_ge].
  assert (Hnn : 0 <= Z.land (rp_payload packet !!! 2%nat) 0x3F) by (apply Z.land_nonneg; right; lia).
  apply andb_true_iff in Hh as [Hh0%Z.eqb_eq Hh1%negb_true_iff%Z.eqb_neq].
  destruct (negb (Z.land _ 0x80 =? 0)).
  - destruct (np_fragmentHeader p); [push_case |].
    apply continue_ok; try done. intros _. by apply fu_header_hevc.
  - destruct (np_fragmentHeader p) eqn:Eh; [| by apply pushOk_success; try done; constructor].
    rewrite <- !Eh. apply continue_ok; try done. by rewrite Eh.
Qed.

(** ** The depacketizer *)

Section Depacketizer.
Context (newPacket : Z -> bool) {codec : MediaAnnexBCodec} {C : DepacketizerCodec} {S : ParserSafety codec C}.
Context (config : MediaRtpDepacketizerConfig) (max : nat).

(** What an emitted access unit is. *)
Definition wellFormed (au : MediaRtpAccessUnit) : Prop :=
  exists us, us <> [] /\ validUnits codec us /\ (length (annexB us) <= max)%nat /\
    au = accessUnitOf config (au_rtpTimestamp au) us.

(** The units gathered so far. *)
Definition safe (d : Depacketizer) : Prop :=
  dp_config d = config /\ dp_maximumAccessUnitBytes d = max /\
  parserOk codec (dp_nalParser d) /\ np_payloadType (dp_nalParser d) = dc_payloadType config /\
  exists us, validUnits codec us /\ dp_accessUnit d = annexB us /\ (length (annexB us) <= max)%nat /\
    dp_keyFrame d = existsb cd_keyNal us.

Lemma safe_empty d : dp_config d = config -> dp_maximumAccessUnitBytes d = max ->
  np_fragmentHeader (dp_nalParser d) = None -> np_payloadType (dp_nalParser d) = dc_payloadType config ->
  dp_accessUnit d = [] -> dp_keyFrame d = false -> safe d.
Proof.
  intros H1 H2 H3 H4 H5 H6. split; [done |]. split; [done |]. split; [by intros []|]. split; [done |].
  exists []. rewrite H5, H6. split_and!; [constructor | done | cbn; lia | done].
Qed.

Lemma safe_create : safe (create config max).
Proof. by apply safe_empty. Qed.

Lemma safe_discontinuity reason d : safe d -> safe (discontinuity reason d).
Proof.
  intros (H1 & H2 & H3 & H4 & _). by apply safe_empty.
Qed.

Lemma safe_setContinuity c d : safe d -> safe (setContinuity c d).
Proof. done. Qed.

Lemma safe_setTimestamp t d : safe d -> safe (setTimestamp t d).
Proof. done. Qed.

Lemma safe_setNalParser p d : safe d -> parserOk codec p -> np_payloadType p = dc_payloadType config -> safe (setNalParser p d).
Proof. by intros (H1 & H2 & _ & _ & H). Qed.

(** A NAL unit the parser made is appended whole or not at all. *)
Lemma appendNals_safe nals d r d' : validUnits codec nals -> safe d -> appendNals nals d = (r, d') ->
  match r with Success _ => safe d' | Failure _ => safe (discontinuity SequenceGap d') end.
Proof.
  intros Hn. revert d. induction Hn as [| u nals Hu Hn IH]; intros d Hd; cbn [appendNals]; [by intros [= <- <-] |].
  assert (Hfail : forall e, safe (discontinuity SequenceGap (setKeyFrame (dp_keyFrame d || cd_keyNal u) d)) /\
            match failure (A := unit) e with Success _ => False | Failure _ => True end).
  { intros e. split; [exact (safe_discontinuity SequenceGap d Hd) | cbn; unfold failure; by destruct (ErrorInfo_ok e)]. }
  destruct (cd_shortNal u).
  { intros [= <- <-]. destruct (Hfail (invalidArgument cd_shortNalMessage)) as [_ Hf].
    destruct (failure _); [done | by apply safe_discontinuity]. }
  cbv zeta. destruct (appendRtpAccessUnitNal _ _ _) as [output | e] eqn:Ea; cycle 1.
  { intros [= <- <-]. destruct (Hfail e) as [Hs Hf]. by destruct (failure e). }
  apply IH. destruct Hd as (H1 & H2 & H3 & H4 & us & Hus & Ea' & Hl & Hk).
  unfold appendRtpAccessUnitNal, rtpAccessUnitNalCapacity in Ea. cbn [setKeyFrame dp_accessUnit dp_maximumAccessUnitBytes] in Ea.
  rewrite H2 in Ea. destruct (Nat.ltb_spec max (length (dp_accessUnit d))); [by apply failure_not in Ea |].
  destruct (Nat.leb_spec (max - length (dp_accessUnit d)) (length StartCode)) as [| Hc]; [by apply failure_not in Ea |].
  cbn [orb bindResult] in Ea. destruct (Nat.ltb_spec (max - length (dp_accessUnit d) - length StartCode) (length u)) as [| Hfit];
    [by apply failure_not in Ea |]. injection Ea as <-.
  split_and!; try done. exists (us ++ [u]). cbn in Hc, Hfit. cbn [setAccessUnit setKeyFrame dp_accessUnit dp_keyFrame].
  split_and!.
  - apply Forall_app. split; [done | by constructor].
  - rewrite annexB_app, Ea'. unfold annexB at 3. cbn [map concat app]. by rewrite app_nil_r.
  - rewrite annexB_app, length_app, (annexB_length [u]). rewrite Ea' in Hfit, Hc. cbn. lia.
  - rewrite existsb_app, Hk. cbn. by rewrite orb_false_r.
Qed.

Lemma finish_safe packet d units d' : safe d -> finish newPacket packet d = (Success units, d') ->
  Forall wellFormed units /\ safe d'.
Proof.
  intros (H1 & H2 & H3 & H4 & us & Hus & Ea & Hl & Hk). unfold finish.
  case_bool_decide as Hn; [intros H; injection H as H _; by apply failure_not in H |]. unfold makeRtpAccessUnit.
  rewrite bool_decide_eq_false_2 by done. destruct (Z.leb_spec (dc_clockRate (dp_config d)) 0); cbn [orb].
  { intros H'; injection H' as H' _; by apply failure_not in H'. }
  destruct (newPacket _); cbn [negb]; [| intros H'; injection H' as H' _; by apply failure_not in H']. intros [= <- <-]. split.
  - constructor; [| constructor]. exists us. split_and!; [| done | done |].
    + intros ->. by rewrite Ea in Hn.
    + unfold accessUnitOf. cbn [au_rtpTimestamp]. by rewrite <- Ea, <- Hk, <- H1.
  - split_and!; try done. exists []. split_and!; [constructor | done | cbn; lia | done].
Qed.

Lemma finish_frame packet d : let d' := (finish newPacket packet d).2 in
  dp_config d' = dp_config d /\ dp_maximumAccessUnitBytes d' = dp_maximumAccessUnitBytes d /\
  np_payloadType (dp_nalParser d') = np_payloadType (dp_nalParser d).
Proof. unfold finish. case_bool_decide; [done |]. by destruct (makeRtpAccessUnit _ _ _ _ _ _). Qed.

(** Whatever failed, the discontinuity restores the invariant. *)
Lemma safe_after_failure d : dp_config d = config -> dp_maximumAccessUnitBytes d = max ->
  np_payloadType (dp_nalParser d) = dc_payloadType config -> safe (discontinuity SequenceGap d).
Proof. intros. by apply safe_empty. Qed.

Definition outcomeSafe (outcome : Result (list MediaRtpAccessUnit) * Depacketizer) : Prop :=
  safe outcome.2 /\ match outcome.1 with Success units => Forall wellFormed units | Failure _ => True end.

Lemma push_safe packet d : byteList (rp_payload packet) -> safe d -> outcomeSafe (push newPacket packet d).
Proof.
  intros Hb Hd. unfold push, pushValidated. cbv zeta.
  assert (Hquiet : forall d0, safe d0 -> outcomeSafe (Success [], d0)) by (intros d0 H0; split; [done | constructor]).
  assert (Hfail : forall e d0, safe (discontinuity SequenceGap d0) ->
    outcomeSafe (match (failure e, d0) with
                 | (Failure e, d') => (Failure e, discontinuity SequenceGap d') | (Success units, d') => (Success units, d') end)).
  { intros e d0 H0. unfold failure. destruct (ErrorInfo_ok e); by split. }
  match goal with |- context [if ?b then discontinuity SequenceGap d else d] =>
    set (d0 := if b then discontinuity SequenceGap d else d) end.
  assert (Hd0 : safe d0) by (unfold d0; case_match; [by apply safe_discontinuity | done]).
  destruct (accept _ _) as [accepted c]. destruct accepted; cbn [negb]; [| by apply Hquiet, safe_setContinuity].
  match goal with |- context [length (dp_accessUnit ?x)] => set (d2 := x) end.
  assert (Hd2 : safe d2) by (unfold d2; case_match; [| apply safe_setTimestamp]; by apply safe_setContinuity).
  destruct (rtpAccessUnitNalCapacity _ _) as [capacity | e]; [| by apply Hfail, safe_discontinuity].
  pose proof Hd2 as (K1 & K2 & K3 & K4 & _).
  pose proof (safe_push packet capacity (dp_nalParser d2) Hb K3) as (P1 & P2 & P3).
  destruct (cd_push packet capacity (dp_nalParser d2)) as [parsed parser]. cbn [fst snd] in *. rewrite K4 in P2.
  pose proof (safe_setNalParser parser d2 Hd2 P1 P2) as Hd3.
  destruct parsed as [batch | e]; [| by apply Hfail, safe_discontinuity].
  destruct (nb_discardedFragment batch); [by apply Hquiet, safe_discontinuity |].
  destruct (appendNals _ _) as [r d4] eqn:Eap. pose proof (appendNals_safe _ _ _ _ P3 Hd3 Eap) as Hd4.
  destruct r as [[] | e]; [| by apply Hfail].
  destruct (negb (rp_marker packet)); [by apply Hquiet |].
  pose proof (finish_frame packet d4) as (F1 & F2 & F3).
  destruct (finish newPacket packet d4) as [[units | e] d5] eqn:Ef; cbn [fst snd] in *.
  - destruct (finish_safe _ _ _ _ Hd4 Ef) as [Hu Hd5]. by split.
  - split; [| done]. destruct Hd4 as (G1 & G2 & _ & G4 & _). apply safe_after_failure; congruence.
Qed.

(** The bytes of the packets are bytes. *)
Definition eventBytes (e : Event) : Prop :=
  match e with Ev_Packet packet => byteList (rp_payload packet) | Ev_Discontinuity _ => True end.

Lemma run_safe events d : Forall eventBytes events -> safe d ->
  safe (run newPacket events d).2 /\ Forall wellFormed (delivered (run newPacket events d).1).
Proof.
  intros He. revert d. induction He as [| e events He Hes IH]; intros d Hd; [split; [done | constructor] |].
  cbn [MediaRtpDepacketizer.run]. assert (Ho : outcomeSafe (handle newPacket e d)).
  { destruct e as [packet | reason]; cbn [handle]; [by apply push_safe | split; [by apply safe_discontinuity | constructor]]. }
  destruct (handle newPacket e d) as [r d1]. destruct Ho as [Ho1 Ho2]. cbn [fst snd] in *.
  destruct (IH d1 Ho1) as [IH1 IH2]. destruct (run newPacket events d1) as [rs d2]. cbn [fst snd] in *. split; [done |].
  change (delivered (r :: rs)) with ((match r with Success units => units | Failure _ => [] end) ++ delivered rs).
  apply Forall_app. split; [| done]. by destruct r.
Qed.

End Depacketizer.

#[export] Instance depacketizer_safety codec : ParserSafety codec (depacketizerFor codec).
Proof. destruct codec; [apply h264_safety | apply hevc_safety]. Qed.

(** C7: Whatever packets and discontinuities arrive, in whatever order, every
    access unit the depacketizer emits is a non-empty sequence of NAL units that
    are valid for the codec, each behind a four-byte start code, of at most the
    prepared capacity, with the time base of the planned clock rate, the RTP
    timestamp as its times and the key-frame flag of its NAL unit types. *)
Theorem emitted_well_formed newPacket codec config max events :
  Forall eventBytes events ->
  Forall (wellFormed (codec := codec) (C := depacketizerFor codec) config max)
    (delivered (run newPacket (codec := depacketizerFor codec) events (create config max)).1).
Proof. intros He. exact (proj2 (run_safe _ _ _ _ _ He (safe_create config max))). Qed.

(** A single NAL unit that fits: one access unit. *)
Lemma emitted_well_formed_witness :
  Forall (wellFormed (codec := H264) (C := h264Depacketizer) exampleConfig 100)
    [mkAccessUnit [0; 0; 0; 1; 0x65; 7] 5 5 0 true 5 (mkRational 1 90000)].
Proof.
  pose proof (emitted_well_formed (fun _ => true) H264 exampleConfig 100
    [Ev_Packet (examplePacket 5 (mkPayload [0x65; 7] true)); Ev_Discontinuity SequenceGap]
    ltac:(apply Forall_cons_2; [cbn; unfold byteList, is_u; repeat apply Forall_cons_2; try apply Forall_nil_2; lia |];
          apply Forall_cons_2; [exact I | apply Forall_nil_2])) as H.
  exact H.
Defined.

(** ** After a loss *)

Section Recovery.
Context (newPacket : Z -> bool) {codec : MediaAnnexBCodec} {C : DepacketizerCodec}.

(** The depacketizer waiting for a timestamp other than [t]. *)
Definition waiting (config : MediaRtpDepacketizerConfig) (max : nat) (t : option Z) : Depacketizer :=
  setContinuity (mkContinuity true t) (create config max).

Lemma push_same_timestamp packet config max t : t = None \/ t = Some (rp_timestamp packet) ->
  push newPacket packet (waiting config max t) = (Success [], waiting config max (Some (rp_timestamp packet))).
Proof.
  intros Ht. unfold push, pushValidated. cbn. destruct Ht as [-> | ->]; cbn; by rewrite Z.eqb_refl.
Qed.

Lemma push_next_timestamp packet config max t : t <> rp_timestamp packet ->
  push newPacket packet (waiting config max (Some t)) = push newPacket packet (create config max).
Proof.
  intros Ht. unfold push, pushValidated. cbn -[rtpAccessUnitNalCapacity].
  by replace (t =? rp_timestamp packet) with false by (symmetry; by apply Z.eqb_neq).
Qed.

Lemma run_interrupted packets config max t s : Forall (fun p => rp_timestamp p = t) packets -> s = None \/ s = Some t ->
  run newPacket (map Ev_Packet packets) (waiting config max s) =
    (replicate (length packets) (Success []), waiting config max (match packets with [] => s | _ => Some t end)).
Proof.
  intros Hp. revert s. induction Hp as [| p packets Hp Hps IH]; intros s Hs; [done |].
  cbn [map MediaRtpDepacketizer.run handle]. rewrite push_same_timestamp by (by rewrite Hp). rewrite Hp, IH by (by right).
  cbn [length replicate]. by destruct packets.
Qed.

End Recovery.

Lemma packetized_packets codec layout maximum pt s us : packetized codec layout maximum pt s us -> sn_packets s <> [].
Proof.
  intros Hs E. destruct (packetized_inv _ _ _ _ _ _ Hs) as (_ & Hn & Hfu & Hstream & _).
  rewrite E in Hstream. apply Forall2_nil_inv_r in Hstream.
  destruct (packetizeLoop_packed (length us) codec maximum us Hfu ltac:(lia)) as [Hp _].
  apply (packed_nonempty _ _ _ _ Hfu Hp Hn). by rewrite <- markLast_payloads, Hstream.
Qed.



End MediaRtpVideoSafety.
