(* ===== verification/Utf8Text.v ===== *)
(** * UTF-8 text

    Models [protocol/MediaUtf8TextValidator.{h,cpp}] and
    [protocol/rtp/MediaRtcpSdesTextValidator.cpp], with the theorem that the
    validator accepts exactly the encodings of permitted characters.

    A text is the list of its bytes after [static_cast<std::uint8_t>].  The
    offset of the C++ loop is the position of the rest of the text, so that the
    test [offset + k >= text.size()] is a rest of [k] bytes or fewer. *)

From stdpp Require Import pretty.
From S2P Require Import Prelude MediaResult.

Local Open Scope Z_scope.

Module MediaUtf8TextValidator.

Inductive MediaUtf8ControlPolicy := RejectControls | AllowCrLf.

#[global] Instance MediaUtf8ControlPolicy_eq_dec : EqDecision MediaUtf8ControlPolicy.
Proof. solve_decision. Defined.

Definition within (low high byte : Z) : bool := (low <=? byte) && (byte <=? high).

Definition continuation (byte : Z) : bool := within 0x80 0xBF byte.

Fixpoint validUtf8 (text : list Z) (controlPolicy : MediaUtf8ControlPolicy) : bool :=
  match text with
  | [] => true
  | first :: rest =>
      if first <=? 0x7F then
        if ((first <? 0x20) || (first =? 0x7F)) &&
           negb (bool_decide (controlPolicy = AllowCrLf) && ((first =? 13) || (first =? 10)))
        then false
        else validUtf8 rest controlPolicy
      else if within 0xC2 0xDF first then
        match rest with
        | second :: rest' =>
            if negb (continuation second) || ((first =? 0xC2) && (second <? 0xA0)) then false
            else validUtf8 rest' controlPolicy
        | _ => false
        end
      else if within 0xE0 0xEF first then
        match rest with
        | second :: third :: rest' =>
            let validSecond :=
              if first =? 0xE0 then within 0xA0 0xBF second
              else if first =? 0xED then within 0x80 0x9F second
              else continuation second in
            if negb validSecond || negb (continuation third) then false
            else validUtf8 rest' controlPolicy
        | _ => false
        end
      else if within 0xF0 0xF4 first then
        match rest with
        | second :: third :: fourth :: rest' =>
            let validSecond :=
              if first =? 0xF0 then within 0x90 0xBF second
              else if first =? 0xF4 then within 0x80 0x8F second
              else continuation second in
            if negb validSecond || negb (continuation third) || negb (continuation fourth) then false
            else validUtf8 rest' controlPolicy
        | _ => false
        end
      else false
  end.

Definition validateWellFormed (text : list Z) (controlPolicy : MediaUtf8ControlPolicy) : Status :=
  if negb (validUtf8 text controlPolicy)
  then failure (invalidArgument "text must contain well-formed UTF-8 with only permitted controls")
  else Success tt.

Definition validateNonControlText (text : list Z) (maximumBytes : Z) (fieldName : string) : Status :=
  if bool_decide (text = []) || (maximumBytes =? 0) || (maximumBytes <? Z.of_nat (length text)) ||
     negb (resultOk (validateWellFormed text RejectControls))
  then failure (invalidArgument (fieldName +:+ " must contain 1 to " +:+ pretty maximumBytes +:+
                                 " valid UTF-8 octets without control characters"))
  else Success tt.

(** [MediaRtcpSdesTextValidator::validateCname]. *)
Definition validateCname (cname : list Z) : Status :=
  validateNonControlText cname 255 "RTCP SDES CNAME".

(** ** The encodings of permitted characters *)

(** A Unicode scalar value that the policy permits: no C0 or C1 control and no
    delete, except the two line ends. *)
Definition permitted (controlPolicy : MediaUtf8ControlPolicy) (c : Z) : bool :=
  (within 0x20 0x7E c || within 0xA0 0xD7FF c || within 0xE000 0x10FFFF c) ||
  (bool_decide (controlPolicy = AllowCrLf) && ((c =? 13) || (c =? 10))).

(** UTF-8 (RFC 3629). *)
Definition encodeCharacter (c : Z) : list Z :=
  if c <? 0x80 then [c]
  else if c <? 0x800 then [0xC0 + c / 64; 0x80 + c mod 64]
  else if c <? 0x10000 then [0xE0 + c / 4096; 0x80 + c / 64 mod 64; 0x80 + c mod 64]
  else [0xF0 + c / 262144; 0x80 + c / 4096 mod 64; 0x80 + c / 64 mod 64; 0x80 + c mod 64].

Definition encodeText (characters : list Z) : list Z := concat (map encodeCharacter characters).


Lemma within_spec low high byte : within low high byte = true <-> low <= byte <= high.
Proof. unfold within. lia. Qed.

Lemma permitted_spec p c :
  permitted p c = true <->
  0x20 <= c <= 0x7E \/ 0xA0 <= c <= 0xD7FF \/ 0xE000 <= c <= 0x10FFFF \/ (p = AllowCrLf /\ (c = 13 \/ c = 10)).
Proof.
  unfold permitted. rewrite !orb_true_iff, andb_true_iff, orb_true_iff, !within_spec, bool_decide_eq_true, !Z.eqb_eq.
  tauto.
Qed.

(** Decides a chain of tests on bytes: innermost first, every branch pruned by
    [lia]. *)
Ltac tests :=
  repeat match goal with
  | |- context [if ?b then _ else _] =>
      lazymatch b with context [if _ then _ else _] => fail | _ => idtac end;
      destruct b eqn:?; try (exfalso; unfold continuation, within in *; lia)
  end.

(** The validator steps over a permitted character. *)
Lemma validUtf8_character p c rest :
  permitted p c = true -> validUtf8 (encodeCharacter c ++ rest) p = validUtf8 rest p.
Proof.
  intros Hc%permitted_spec. unfold encodeCharacter.
  destruct (Z.ltb_spec c 0x80) as [H1 | H1]; [| destruct (Z.ltb_spec c 0x800) as [H2 | H2];
    [| destruct (Z.ltb_spec c 0x10000) as [H3 | H3]]]; cbn [app validUtf8].
  - destruct Hc as [Hc | [Hc | [Hc | [-> Hc]]]]; case_bool_decide; tests; done.
  - assert (c = c / 64 * 64 + c mod 64 /\ 0 <= c mod 64 < 64) as [] by divmod.
    set (a := c / 64) in *. set (b := c mod 64) in *. tests; done.
  - assert (c = c / 4096 * 4096 + c / 64 mod 64 * 64 + c mod 64 /\ 0 <= c mod 64 < 64 /\ 0 <= c / 64 mod 64 < 64)
      as (E & ? & ?) by divmod.
    set (a := c / 4096) in *. set (b := c / 64 mod 64) in *. set (d := c mod 64) in *. clearbody a b d. tests; done.
  - assert (c = c / 262144 * 262144 + c / 4096 mod 64 * 4096 + c / 64 mod 64 * 64 + c mod 64 /\ 0 <= c mod 64 < 64 /\
      0 <= c / 64 mod 64 < 64 /\ 0 <= c / 4096 mod 64 < 64) as (E & ? & ? & ?) by divmod.
    set (a := c / 262144) in *. set (b := c / 4096 mod 64) in *. set (d := c / 64 mod 64) in *. set (e := c mod 64) in *.
    clearbody a b d e. tests; done.
Qed.

(** The first character of an accepted text. *)
Lemma encode_two c a b : c = a * 64 + b -> 2 <= a < 32 -> 0 <= b < 64 -> encodeCharacter c = [0xC0 + a; 0x80 + b].
Proof.
  intros -> Ha Hb. unfold encodeCharacter. rewrite (proj2 (Z.ltb_ge _ 0x80)), (proj2 (Z.ltb_lt _ 0x800)) by lia.
  f_equal; [divmod |]. f_equal. divmod.
Qed.

Lemma encode_three c a b d : c = a * 4096 + b * 64 + d -> 0 <= a < 16 -> 0x800 <= c -> 0 <= b < 64 -> 0 <= d < 64 ->
  encodeCharacter c = [0xE0 + a; 0x80 + b; 0x80 + d].
Proof.
  intros -> Ha Hc Hb Hd. unfold encodeCharacter.
  rewrite (proj2 (Z.ltb_ge _ 0x80)), (proj2 (Z.ltb_ge _ 0x800)), (proj2 (Z.ltb_lt _ 0x10000)) by lia.
  f_equal; [divmod |]. f_equal; [divmod |]. f_equal. divmod.
Qed.

Lemma encode_four c a b d e : c = a * 262144 + b * 4096 + d * 64 + e -> 0x10000 <= c ->
  0 <= b < 64 -> 0 <= d < 64 -> 0 <= e < 64 ->
  encodeCharacter c = [0xF0 + a; 0x80 + b; 0x80 + d; 0x80 + e].
Proof.
  intros -> Hc Hb Hd He. unfold encodeCharacter.
  rewrite (proj2 (Z.ltb_ge _ 0x80)), (proj2 (Z.ltb_ge _ 0x800)), (proj2 (Z.ltb_ge _ 0x10000)) by lia.
  f_equal; [divmod |]. f_equal; [divmod |]. f_equal; [divmod |]. f_equal. divmod.
Qed.

Lemma validUtf8_first p text : text <> [] -> validUtf8 text p = true ->
  exists c rest, permitted p c = true /\ text = encodeCharacter c ++ rest /\ validUtf8 rest p = true.
Proof.
  destruct text as [| x t]; [done |]. intros _. cbn [validUtf8].
  destruct (Z.leb_spec x 0x7F) as [H1 | H1].
  { destruct (_ && _) eqn:E; [done |]. intros H. exists x, t. split; [| split; [| done]].
    - apply permitted_spec. 
      destruct p; [rewrite bool_decide_eq_false_2 in E by done; lia | rewrite bool_decide_eq_true_2 in E by done].
      assert (0x20 <= x <= 0x7E \/ (x = 13 \/ x = 10)) by lia. tauto.
    - unfold encodeCharacter. by rewrite (proj2 (Z.ltb_lt x 0x80)) by lia. }
  destruct (within 0xC2 0xDF x) eqn:H2.
  { destruct t as [| y t]; [done |]. destruct (_ || _) eqn:E; [done |]. intros H. unfold continuation, within in *.
    exists ((x - 0xC0) * 64 + (y - 0x80)), t. split; [apply permitted_spec; lia |]. split; [| done].
    rewrite (encode_two _ (x - 0xC0) (y - 0x80)) by lia. cbn. repeat f_equal; lia. }
  destruct (within 0xE0 0xEF x) eqn:H3.
  { destruct t as [| y [| z t]]; [done.. |]. cbv zeta. destruct (_ || _) eqn:E; [done |]. intros H.
    unfold continuation in *. rewrite orb_false_iff, !negb_false_iff in E. destruct E as [E Ez].
    assert (0x80 <= y <= 0xBF /\ (x = 0xE0 -> 0xA0 <= y) /\ (x = 0xED -> y <= 0x9F)).
    { revert E. unfold within. destruct (Z.eqb_spec x 0xE0), (Z.eqb_spec x 0xED); lia. }
    unfold within in *. exists ((x - 0xE0) * 4096 + (y - 0x80) * 64 + (z - 0x80)), t.
    split; [apply permitted_spec; lia |]. split; [| done].
    rewrite (encode_three _ (x - 0xE0) (y - 0x80) (z - 0x80)) by lia. cbn. repeat f_equal; lia. }
  destruct (within 0xF0 0xF4 x) eqn:H4; [| done].
  destruct t as [| y [| z [| w t]]]; [done.. |]. cbv zeta. destruct (_ || _) eqn:E; [done |]. intros H.
  unfold continuation in *. rewrite !orb_false_iff, !negb_false_iff in E. destruct E as [[E Ez] Ew].
  assert (0x80 <= y <= 0xBF /\ (x = 0xF0 -> 0x90 <= y) /\ (x = 0xF4 -> y <= 0x8F)).
  { revert E. unfold within. destruct (Z.eqb_spec x 0xF0), (Z.eqb_spec x 0xF4); lia. }
  unfold within in *. exists ((x - 0xF0) * 262144 + (y - 0x80) * 4096 + (z - 0x80) * 64 + (w - 0x80)), t.
  split; [apply permitted_spec; lia |]. split; [| done].
  rewrite (encode_four _ (x - 0xF0) (y - 0x80) (z - 0x80) (w - 0x80)) by lia. cbn. repeat f_equal; lia.
Qed.

Lemma encodeCharacter_nonempty c : (0 < length (encodeCharacter c))%nat.
Proof. unfold encodeCharacter. repeat case_match; cbn; lia. Qed.

(** The validator accepts exactly the UTF-8 encodings of texts whose characters
    are all permitted: no surrogate, no over-long form, no control. *)
Theorem utf8_valid_iff p text :
  validUtf8 text p = true <-> exists cs, Forall (fun c => permitted p c = true) cs /\ text = encodeText cs.
Proof.
  split.
  - induction text as [text IH] using (induction_ltof1 (list Z) length). unfold ltof in IH. intros H.
    destruct text as [| x t]; [exists []; split; [constructor | done] |].
    destruct (validUtf8_first p (x :: t)) as (c & rest & Hc & E & Hrest); [done.. |].
    destruct (IH rest) as (cs & Hcs & ->); [| done |].
    { rewrite E, length_app. pose proof (encodeCharacter_nonempty c). lia. }
    exists (c :: cs). split; [by constructor | done].
  - intros (cs & Hcs & ->). induction Hcs as [| c cs Hc _ IH]; [done |].
    change (encodeText (c :: cs)) with (encodeCharacter c ++ encodeText cs). by rewrite validUtf8_character.
Qed.

End MediaUtf8TextValidator.
