(* ===== verification/Rtcp.v ===== *)
(** * RTCP on the wire

    Models [protocol/rtp/MediaRtcpSenderReportGenerator.{h,cpp}],
    [MediaRtcpCompositionPolicy.{h,cpp}], [MediaRtcpCompoundParser.{h,cpp}],
    [MediaRtcpWireDatagramComposer.cpp] and [MediaRtcpWireGeometry.{h,cpp}].

    As in [RtpWire], a datagram is a list of bytes and offsets are [nat].  A
    CNAME is the list of its bytes.  The loops over the items of a chunk and
    over the packets of a datagram consume a byte or a packet header per turn;
    they get the number of bytes as fuel ([RtcpRoundTrip] shows it is enough). *)

From S2P Require Import Prelude MediaResult CheckedArithmetic TimeBase CanonicalTime RtpWire Utf8Text.
Import MediaRtpOutputClockMapper (MediaRtpTimestamp, rt_wire, Mapper).
Import MediaSharedNtpEpoch (MediaNtpTimestamp, wireTimestamp, wire_seconds, wire_fraction, mapToNtp, Epoch).
Import MediaUtf8TextValidator (validateCname).

Local Open Scope Z_scope.

(** ** The sender report generator *)

Module MediaRtcpSenderReportGenerator.

Record MediaRtcpSenderReportTimestamp := mkTimestamp {
  ts_masterInstant : Z;
  ts_ntp : MediaNtpTimestamp;
  ts_rtp : MediaRtpTimestamp;
}.

Record MediaRtcpSenderReportParameters := mkParameters {
  sr_ssrc : Z;
  sr_cname : list Z;
  sr_timestamp : MediaRtcpSenderReportTimestamp;
  sr_senderPacketCount : Z;
  sr_senderOctetCount : Z;
}.

Definition invalidReport (message : string) : Result (list Z) := failure (invalidArgument message).

Definition appendU16 (bytes : list Z) (value : Z) : list Z :=
  bytes ++ [u8 (Z.shiftr value 8)] ++ [u8 value].

Definition appendU32 (bytes : list Z) (value : Z) : list Z :=
  bytes ++ [u8 (Z.shiftr value 24)] ++ [u8 (Z.shiftr value 16)] ++ [u8 (Z.shiftr value 8)] ++ [u8 value].

Definition validate (parameters : MediaRtcpSenderReportParameters) : Status :=
  if sr_ssrc parameters =? 0
  then failure (invalidArgument "RTCP sender report SSRC must be non-zero")
  else match validateCname (sr_cname parameters) with
       | Failure e => Failure e
       | Success _ => Success tt
       end.

Definition appendSenderReport (bytes : list Z) (parameters : MediaRtcpSenderReportParameters) : list Z :=
  let bytes := bytes ++ [0x80] in
  let bytes := bytes ++ [200] in
  let bytes := appendU16 bytes 6 in
  let bytes := appendU32 bytes (sr_ssrc parameters) in
  let ntp := wireTimestamp (ts_ntp (sr_timestamp parameters)) in
  let bytes := appendU32 bytes (wire_seconds ntp) in
  let bytes := appendU32 bytes (wire_fraction ntp) in
  let bytes := appendU32 bytes (rt_wire (ts_rtp (sr_timestamp parameters))) in
  let bytes := appendU32 bytes (u32 (sr_senderPacketCount parameters)) in
  appendU32 bytes (u32 (sr_senderOctetCount parameters)).

(** [while ((bytes.size() - packetStart) % 4 != 0) bytes.push_back(0);], at
    most three turns. *)
Fixpoint padToWord (fuel : nat) (packetStart : nat) (bytes : list Z) : list Z :=
  match fuel with
  | O => bytes
  | S fuel =>
      if ((length bytes - packetStart) mod 4 =? 0)%nat then bytes
      else padToWord fuel packetStart (bytes ++ [0])
  end.

Definition appendSourceDescription (bytes : list Z) (parameters : MediaRtcpSenderReportParameters) : list Z :=
  let packetStart := length bytes in
  let bytes := bytes ++ [0x81] in
  let bytes := bytes ++ [202] in
  let bytes := appendU16 bytes 0 in
  let bytes := appendU32 bytes (sr_ssrc parameters) in
  let bytes := bytes ++ [1] in
  let bytes := bytes ++ [u8 (Z.of_nat (length (sr_cname parameters)))] in
  let bytes := bytes ++ sr_cname parameters in
  let bytes := bytes ++ [0] in
  let bytes := padToWord 4 packetStart bytes in
  let words := ((length bytes - packetStart) / 4)%nat in
  let wordLength := u16 (Z.of_nat words - 1) in
  <[(packetStart + 3)%nat := u8 wordLength]> (<[(packetStart + 2)%nat := u8 (Z.shiftr wordLength 8)]> bytes).

Definition appendBye (bytes : list Z) (ssrc : Z) : list Z :=
  let bytes := bytes ++ [0x81] in
  let bytes := bytes ++ [203] in
  let bytes := appendU16 bytes 1 in
  appendU32 bytes ssrc.

Definition serializeCompound (parameters : MediaRtcpSenderReportParameters) (includeBye : bool) : Result (list Z) :=
  match validate parameters with
  | Failure e => failure e
  | Success _ =>
      let bytes := appendSenderReport [] parameters in
      let bytes := appendSourceDescription bytes parameters in
      let bytes := if includeBye then appendBye bytes (sr_ssrc parameters) else bytes in
      if negb (length bytes mod 4 =? 0)%nat
      then invalidReport "RTCP compound packet alignment is invalid"
      else Success bytes
  end.

Definition mapTimestamp (masterInstant : Z) (ntpEpoch : Epoch) (rtpMapper : Mapper) :
  Result MediaRtcpSenderReportTimestamp :=
  match mapToNtp masterInstant ntpEpoch with
  | Failure e => failure e
  | Success ntp =>
      match MediaRtpOutputClockMapper.map masterInstant rtpMapper with
      | Failure e => failure e
      | Success rtp => Success (mkTimestamp masterInstant ntp rtp)
      end
  end.

Definition serialize (parameters : MediaRtcpSenderReportParameters) : Result (list Z) :=
  serializeCompound parameters false.

Definition serializeWithBye (parameters : MediaRtcpSenderReportParameters) : Result (list Z) :=
  serializeCompound parameters true.

End MediaRtcpSenderReportGenerator.

(** ** The datagram composer *)

Module MediaRtcpWireDatagramComposer.
Import MediaRtcpSenderReportGenerator.

(** [reportInstant] is that of the schedule's decision. *)
Definition composeSenderReport (ssrc : Z) (cname : list Z) (reportInstant : Z) (ntpEpoch : Epoch) (clockMapper : Mapper)
  (packetCount octetCount : Z) : Result (list Z) :=
  match mapTimestamp reportInstant ntpEpoch clockMapper with
  | Failure e => failure e
  | Success timestamp => serialize (mkParameters ssrc cname timestamp packetCount octetCount)
  end.

Definition composeTerminalReport (ssrc : Z) (cname : list Z) (reportInstant : Z) (ntpEpoch : Epoch) (clockMapper : Mapper)
  (packetCount octetCount : Z) : Result (list Z) :=
  match mapTimestamp reportInstant ntpEpoch clockMapper with
  | Failure e => failure e
  | Success timestamp => serializeWithBye (mkParameters ssrc cname timestamp packetCount octetCount)
  end.

End MediaRtcpWireDatagramComposer.

(** ** The planned size of a report *)

Module MediaRtcpWireGeometry.
Import MediaCheckedArithmetic.

Inductive MediaIpAddressFamily := Ipv4 | Ipv6.

Definition compoundPayloadBytes (cnameBytes : Z) : Result Z :=
  let SenderReportBytes := 28 in
  let SdesFixedBytes := 10 in
  let raw := add SdesFixedBytes cnameBytes "RTCP SDES bytes" in
  let padded := match raw with Success r => ceilScale r 1 4 "RTCP SDES words" | Failure _ => raw end in
  let paddedBytes :=
    match padded with Success p => multiply p 4 "RTCP padded SDES bytes" | Failure _ => padded end in
  match paddedBytes with
  | Success p => add SenderReportBytes p "RTCP compound bytes"
  | Failure _ => paddedBytes
  end.

Definition compoundWireBytes (cnameBytes : Z) (addressFamily : MediaIpAddressFamily) : Result Z :=
  let UdpHeaderBytes := 8 in
  let ipHeader := match addressFamily with Ipv4 => 20 | Ipv6 => 40 end in
  match compoundPayloadBytes cnameBytes with
  | Success payload => add payload (ipHeader + UdpHeaderBytes) "RTCP compound wire bytes"
  | Failure e => failure e
  end.

Definition byePayloadBytes : Z := 8.

End MediaRtcpWireGeometry.

(** ** The compound parser *)

Module MediaRtcpCompoundParser.

Inductive MediaRtcpCompositionMode := StrictCompoundRfc3550 | ReducedSizeRfc5506.

#[global] Instance MediaRtcpCompositionMode_eq_dec : EqDecision MediaRtcpCompositionMode.
Proof. solve_decision. Defined.

Record MediaRtcpCompoundPolicy := mkPolicy {
  cp_mode : MediaRtcpCompositionMode;
  cp_requireCname : bool;
}.

Definition serializeMediaRtcpCompositionMode (mode : MediaRtcpCompositionMode) : Result string :=
  match mode with
  | StrictCompoundRfc3550 => Success "strict_compound_rfc3550"%string
  | ReducedSizeRfc5506 => Success "reduced_size_rfc5506"%string
  end.

Definition parseMediaRtcpCompositionMode (value : string) : Result MediaRtcpCompositionMode :=
  if bool_decide (value = "strict_compound_rfc3550") then Success StrictCompoundRfc3550
  else if bool_decide (value = "reduced_size_rfc5506") then Success ReducedSizeRfc5506
  else failure (invalidArgument "unsupported planned RTCP composition mode option").

Inductive MediaRtcpPacketKind := SenderReport | ReceiverReport | SourceDescription | Bye | Unknown.

#[global] Instance MediaRtcpPacketKind_eq_dec : EqDecision MediaRtcpPacketKind.
Proof. solve_decision. Defined.

Record MediaRtcpNtpTimestamp := mkRtcpNtp {
  rn_seconds : Z;
  rn_fraction : Z;
}.

#[global] Instance MediaRtcpNtpTimestamp_eq_dec : EqDecision MediaRtcpNtpTimestamp.
Proof. solve_decision. Defined.

Record MediaRtcpSenderReport := mkSenderReport {
  rr_ssrc : Z;
  rr_ntp : MediaRtcpNtpTimestamp;
  rr_rtpTimestamp : Z;
  rr_senderPacketCount : Z;
  rr_senderOctetCount : Z;
}.

Record MediaRtcpSdesItem := mkItem {
  it_type : Z;
  it_value : list Z;
}.

Record MediaRtcpSdesChunk := mkChunk {
  ch_ssrc : Z;
  ch_items : list MediaRtcpSdesItem;
}.

Record MediaRtcpPacket := mkRtcpPacket {
  rp_kind : MediaRtcpPacketKind;
  rp_packetType : Z;
  rp_count : Z;
  rp_paddingSize : Z;
  rp_senderReport : option MediaRtcpSenderReport;
  rp_receiverReportSsrc : option Z;
  rp_sdesChunks : list MediaRtcpSdesChunk;
  rp_byeSources : list Z;
  rp_byeReason : list Z;
}.

Definition readU16 (bytes : list Z) (offset : nat) : Z := MediaRtpBytes.readU16 bytes offset.

Definition readU32 (bytes : list Z) (offset : nat) : Z := MediaRtpBytes.readU32 bytes offset.

Definition packetError {A} (message : string) : Result A := failure (invalidArgument message).

Definition compoundError (message : string) : Result (list MediaRtcpPacket) := failure (invalidArgument message).

(** The bytes from [first] up to, not including, [last]. *)
Definition slice (bytes : list Z) (first last : nat) : list Z := take (last - first) (drop first bytes).

Definition zeroBytes (bytes : list Z) (first last : nat) : bool := forallb (Z.eqb 0) (slice bytes first last).

(** [(offset + 3) & ~std::size_t(3)]. *)
Definition alignWord (offset : nat) : nat := ((offset + 3) / 4 * 4)%nat.

(** [while (offset < end)] over the items of a chunk; the items, the offset
    behind them and whether the end item was seen. *)
Fixpoint itemLoop (fuel : nat) (bytes : list Z) (last offset : nat) (items : list MediaRtcpSdesItem) :
  Result (list MediaRtcpSdesItem * nat * bool) :=
  match fuel with
  | O => Success (items, offset, false)
  | S fuel =>
      if (offset <? last)%nat then
        let type := bytes !!! offset in
        let offset := S offset in
        if type =? 0 then Success (items, offset, true)
        else if (last <=? offset)%nat then packetError "RTCP SDES item length is truncated"
        else
          let itemSize := Z.to_nat (bytes !!! offset) in
          let offset := S offset in
          if (last - offset <? itemSize)%nat then packetError "RTCP SDES item value is truncated"
          else itemLoop fuel bytes last (offset + itemSize)
                 (items ++ [mkItem type (slice bytes offset (offset + itemSize))])
      else Success (items, offset, false)
  end.

(** [for (uint8_t chunkIndex = 0; chunkIndex < count; ++chunkIndex)]. *)
Fixpoint chunkLoop (count : nat) (bytes : list Z) (last offset : nat) (chunks : list MediaRtcpSdesChunk) :
  Result (list MediaRtcpSdesChunk * nat) :=
  match count with
  | O => Success (chunks, offset)
  | S count =>
      if (last - offset <? 4)%nat then packetError "RTCP SDES chunk SSRC is truncated"
      else
        let ssrc := readU32 bytes offset in
        match itemLoop last bytes last (offset + 4) [] with
        | Failure e => Failure e
        | Success (items, offset, ended) =>
            if negb ended then packetError "RTCP SDES chunk has no end item"
            else
              let aligned := alignWord offset in
              if (last <? aligned)%nat || negb (zeroBytes bytes offset aligned)
              then packetError "RTCP SDES alignment padding is invalid"
              else chunkLoop count bytes last aligned (chunks ++ [mkChunk ssrc items])
        end
  end.

(** [for (uint8_t index = 0; index < count; ++index)] over the sources of a BYE. *)
Fixpoint sourceLoop (count : nat) (bytes : list Z) (offset : nat) (sources : list Z) : list Z * nat :=
  match count with
  | O => (sources, offset)
  | S count => sourceLoop count bytes (offset + 4) (sources ++ [readU32 bytes offset])
  end.

Definition parsePacket (bytes : list Z) (count packetType paddingSize : Z) : Result MediaRtcpPacket :=
  let last := (length bytes - Z.to_nat paddingSize)%nat in
  let packet kind sr rr chunks sources reason :=
    Success (mkRtcpPacket kind packetType count paddingSize sr rr chunks sources reason) in
  if packetType =? 200 then
    let reportBytes := (Z.to_nat count * 24)%nat in
    if negb (last =? 28 + reportBytes)%nat then packetError "RTCP sender report length is invalid"
    else
      packet SenderReport
        (Some (mkSenderReport (readU32 bytes 4) (mkRtcpNtp (readU32 bytes 8) (readU32 bytes 12))
                 (readU32 bytes 16) (readU32 bytes 20) (readU32 bytes 24)))
        None [] [] []
  else if packetType =? 201 then
    let reportBytes := (Z.to_nat count * 24)%nat in
    if negb (last =? 8 + reportBytes)%nat then packetError "RTCP receiver report length is invalid"
    else packet ReceiverReport None (Some (readU32 bytes 4)) [] [] []
  else if packetType =? 202 then
    match chunkLoop (Z.to_nat count) bytes last 4 [] with
    | Failure e => Failure e
    | Success (chunks, offset) =>
        if negb (offset =? last)%nat then packetError "RTCP SDES contains trailing bytes"
        else packet SourceDescription None None chunks [] []
    end
  else if packetType =? 203 then
    if ((last - 4) / 4 <? Z.to_nat count)%nat then packetError "RTCP BYE source list is truncated"
    else
      let '(sources, offset) := sourceLoop (Z.to_nat count) bytes 4 [] in
      if (offset <? last)%nat then
        let reasonSize := Z.to_nat (bytes !!! offset) in
        let offset := S offset in
        if (last - offset <? reasonSize)%nat then packetError "RTCP BYE reason is truncated"
        else
          let reason := slice bytes offset (offset + reasonSize) in
          let offset := (offset + reasonSize)%nat in
          let alignedEnd := alignWord offset in
          if negb (alignedEnd =? last)%nat || negb (zeroBytes bytes offset last)
          then packetError "RTCP BYE alignment padding is invalid"
          else packet Bye None None [] sources reason
      else packet Bye None None [] sources []
  else packet Unknown None None [] [] [].

(** The body of [while (offset < datagram.size())]: the packet at [offset] and
    its size. *)
Definition packetAt (datagram : list Z) (offset : nat) : Result (MediaRtcpPacket * nat) :=
  if (length datagram - offset <? 4)%nat then packetError "RTCP packet header is truncated"
  else
    let first := datagram !!! offset in
    if negb (Z.shiftr first 6 =? 2) then packetError "RTCP version must be 2"
    else
      let padded := negb (Z.land first 0x20 =? 0) in
      let count := u8 (Z.land first 0x1F) in
      let words := readU16 datagram (offset + 2) + 1 in
      if uint64_max / 4 <? words then packetError "RTCP packet length overflows"
      else
        let packetSize := Z.to_nat (words * 4) in
        if (packetSize <? 4)%nat || (length datagram - offset <? packetSize)%nat
        then packetError "RTCP packet length exceeds datagram"
        else
          let finalPacket := (packetSize =? length datagram - offset)%nat in
          if padded && negb finalPacket then packetError "Only final RTCP packet may be padded"
          else
            let paddingSize := if padded then datagram !!! (offset + packetSize - 1)%nat else 0 in
            if padded && ((paddingSize =? 0) || (Z.of_nat packetSize - 4 <? paddingSize))
            then packetError "RTCP padding length is invalid"
            else
              match parsePacket (slice datagram offset (offset + packetSize)) count
                      (datagram !!! S offset) paddingSize with
              | Failure e => failure e
              | Success packet => Success (packet, packetSize)
              end.

Fixpoint packetLoop (fuel : nat) (datagram : list Z) (offset : nat) (packets : list MediaRtcpPacket) :
  Result (list MediaRtcpPacket) :=
  match fuel with
  | O => Success packets
  | S fuel =>
      if (offset <? length datagram)%nat then
        match packetAt datagram offset with
        | Failure e => Failure e
        | Success (packet, packetSize) => packetLoop fuel datagram (offset + packetSize) (packets ++ [packet])
        end
      else Success packets
  end.

Definition isReport (kind : MediaRtcpPacketKind) : bool :=
  bool_decide (kind = SenderReport) || bool_decide (kind = ReceiverReport).

(** The three nested loops that look for the CNAME of [source]. *)
Definition matchingCname (source : Z) (packets : list MediaRtcpPacket) : bool :=
  existsb (fun packet =>
    existsb (fun chunk =>
      (ch_ssrc chunk =? source) &&
      existsb (fun item => (it_type item =? 1) && negb (bool_decide (it_value item = []))) (ch_items chunk))
      (rp_sdesChunks packet)) packets.

(** The SSRC of a leading report. *)
Definition reportSource (packet : MediaRtcpPacket) : Z :=
  if bool_decide (rp_kind packet = SenderReport)
  then match rp_senderReport packet with Some sr => rr_ssrc sr | None => 0 end
  else match rp_receiverReportSsrc packet with Some ssrc => ssrc | None => 0 end.

(** A datagram that is not empty has a first packet ([packets.front()]). *)
Definition parse (datagram : list Z) (policy : MediaRtcpCompoundPolicy) : Result (list MediaRtcpPacket) :=
  if bool_decide (datagram = []) then compoundError "RTCP compound datagram is empty"
  else
    match packetLoop (length datagram) datagram 0 [] with
    | Failure e => Failure e
    | Success packets =>
        match packets with
        | [] => Success packets
        | front :: _ =>
            let beginsWithReport := isReport (rp_kind front) in
            if bool_decide (cp_mode policy = StrictCompoundRfc3550) && negb beginsWithReport
            then compoundError "Strict RTCP compound packet must begin with SR or RR"
            else if cp_requireCname policy then
              if negb beginsWithReport
              then compoundError "RTCP CNAME validation requires a leading SR or RR"
              else if negb (matchingCname (reportSource front) packets)
              then compoundError "Strict RTCP compound packet requires matching non-empty CNAME"
              else Success packets
            else Success packets
        end
    end.

End MediaRtcpCompoundParser.
