(* ===== verification/RtcpGrammar.v ===== *)
(** * The grammar of RTCP datagrams

    A declarative grammar of compound packets (RFC 3550, section 6) and the
    theorem that [MediaRtcpCompoundParser::parse] accepts exactly its words,
    with the values the grammar gives. *)

From stdpp Require Import sets.
From S2P Require Import Prelude MediaResult RtpWire Rtcp.
Import MediaRtcpCompoundParser.

Local Open Scope Z_scope.

Module MediaRtcpGrammar.

(** ** The grammar *)

Definition be16 (v : Z) : list Z := [u8 (Z.shiftr v 8); u8 v].

Definition be32 (v : Z) : list Z := [u8 (Z.shiftr v 24); u8 (Z.shiftr v 16); u8 (Z.shiftr v 8); u8 v].

Definition encodeItem (item : MediaRtcpSdesItem) : list Z :=
  it_type item :: Z.of_nat (length (it_value item)) :: it_value item.

Definition itemOk (item : MediaRtcpSdesItem) : Prop :=
  0 < it_type item < 256 /\ (length (it_value item) <= 255)%nat.

Definition encodeItems (items : list MediaRtcpSdesItem) : list Z := concat (map encodeItem items).

(** A chunk ends with one to four null octets, up to the next word. *)
Definition encodeChunk (chunk : MediaRtcpSdesChunk) : list Z :=
  let content := be32 (ch_ssrc chunk) ++ encodeItems (ch_items chunk) in
  content ++ replicate (4 - length content mod 4) 0.

Definition chunkOk (chunk : MediaRtcpSdesChunk) : Prop :=
  is_u 32 (ch_ssrc chunk) /\ Forall itemOk (ch_items chunk).

Definition encodeReport (sr : MediaRtcpSenderReport) : list Z :=
  be32 (rr_ssrc sr) ++ be32 (rn_seconds (rr_ntp sr)) ++ be32 (rn_fraction (rr_ntp sr)) ++
  be32 (rr_rtpTimestamp sr) ++ be32 (rr_senderPacketCount sr) ++ be32 (rr_senderOctetCount sr).

Definition reportOk (sr : MediaRtcpSenderReport) : Prop :=
  is_u 32 (rr_ssrc sr) /\ is_u 32 (rn_seconds (rr_ntp sr)) /\ is_u 32 (rn_fraction (rr_ntp sr)) /\
  is_u 32 (rr_rtpTimestamp sr) /\ is_u 32 (rr_senderPacketCount sr) /\ is_u 32 (rr_senderOctetCount sr).

(** The optional reason for leaving. *)
Inductive reasonForm : list Z -> list Z -> Prop :=
  | reason_absent : reasonForm [] []
  | reason_given reason padding :
      (length reason <= 255)%nat -> (padding < 4)%nat -> ((S (length reason) + padding) mod 4 = 0)%nat ->
      reasonForm (Z.of_nat (length reason) :: reason ++ replicate padding 0) reason.

(** What stands between the header and the padding, by packet type; report
    blocks and unknown packets are not looked into. *)
Inductive bodyForm (count paddingSize : Z) : list Z -> Z -> MediaRtcpPacket -> Prop :=
  | body_sender sr blocks :
      reportOk sr -> length blocks = (24 * Z.to_nat count)%nat ->
      bodyForm count paddingSize (encodeReport sr ++ blocks) 200
        (mkRtcpPacket SenderReport 200 count paddingSize (Some sr) None [] [] [])
  | body_receiver ssrc blocks :
      is_u 32 ssrc -> length blocks = (24 * Z.to_nat count)%nat ->
      bodyForm count paddingSize (be32 ssrc ++ blocks) 201
        (mkRtcpPacket ReceiverReport 201 count paddingSize None (Some ssrc) [] [] [])
  | body_description chunks :
      length chunks = Z.to_nat count -> Forall chunkOk chunks ->
      bodyForm count paddingSize (concat (map encodeChunk chunks)) 202
        (mkRtcpPacket SourceDescription 202 count paddingSize None None chunks [] [])
  | body_bye sources tail reason :
      length sources = Z.to_nat count -> Forall (is_u 32) sources -> reasonForm tail reason ->
      bodyForm count paddingSize (concat (map be32 sources) ++ tail) 203
        (mkRtcpPacket Bye 203 count paddingSize None None [] sources reason)
  | body_unknown body type :
      type ∉ [200; 201; 202; 203] ->
      bodyForm count paddingSize body type (mkRtcpPacket Unknown type count paddingSize None None [] [] []).

(** The last octet of a padding counts its octets. *)
Definition paddingOk (padding : list Z) : Prop :=
  padding = [] \/ last padding = Some (Z.of_nat (length padding)).

Definition headerByte (padding : list Z) (count : Z) : Z :=
  0x80 + (if bool_decide (padding = []) then 0 else 0x20) + count.

Inductive packetForm : list Z -> MediaRtcpPacket -> Prop :=
  | packet_intro body padding type count words packet :
      bodyForm count (Z.of_nat (length padding)) body type packet ->
      0 <= count < 32 -> is_u 16 words -> paddingOk padding ->
      Z.of_nat (length (body ++ padding)) = 4 * words ->
      packetForm (headerByte padding count :: type :: be16 words ++ body ++ padding) packet.

(** Only the last packet is padded. *)
Inductive compoundForm : list Z -> list MediaRtcpPacket -> Prop :=
  | compound_end : compoundForm [] []
  | compound_packet unit packet rest packets :
      packetForm unit packet -> rest = [] \/ rp_paddingSize packet = 0 -> compoundForm rest packets ->
      compoundForm (unit ++ rest) (packet :: packets).

(** What a policy asks of the packets. *)
Definition accepted (policy : MediaRtcpCompoundPolicy) (packets : list MediaRtcpPacket) : Prop :=
  match packets with
  | [] => False
  | front :: _ =>
      (cp_mode policy = StrictCompoundRfc3550 \/ cp_requireCname policy = true ->
        rp_kind front = SenderReport \/ rp_kind front = ReceiverReport) /\
      (cp_requireCname policy = true ->
        exists packet chunk item, packet ∈ packets /\ chunk ∈ rp_sdesChunks packet /\ item ∈ ch_items chunk /\
          ch_ssrc chunk = reportSource front /\ it_type item = 1 /\ it_value item <> [])
  end.

(** ** Slices *)

Lemma wire_slice_length d a b : (b <= length d)%nat -> length (slice d a b) = (b - a)%nat.
Proof. intros. unfold slice. rewrite length_take, length_drop. lia. Qed.

Lemma slice_all d : slice d 0 (length d) = d.
Proof. unfold slice. rewrite drop_0, Nat.sub_0_r. apply take_ge. lia. Qed.

Lemma slice_split d a b c : (a <= b <= c)%nat -> slice d a c = slice d a b ++ slice d b c.
Proof.
  intros H. unfold slice. replace (c - a)%nat with ((b - a) + (c - b))%nat by lia.
  rewrite <- take_take_drop, drop_drop. by replace (a + (b - a))%nat with b by lia.
Qed.

Lemma slice_slice d a b i j : (j <= b - a)%nat -> slice (slice d a b) i j = slice d (a + i) (a + j).
Proof.
  intros H. unfold slice. rewrite skipn_firstn_comm, take_take, drop_drop. f_equal. lia.
Qed.

(** A slice is a concatenation exactly when its parts are. *)
Lemma slice_app d a b x y : (a <= b <= length d)%nat ->
  slice d a b = x ++ y <->
  (a + length x <= b)%nat /\ slice d a (a + length x) = x /\ slice d (a + length x) b = y.
Proof.
  intros H. split.
  - intros E. pose proof (f_equal length E) as L. rewrite wire_slice_length, length_app in L by lia.
    rewrite (slice_split d a (a + length x)) in E by lia.
    apply app_inj_1 in E as [E1 E2]; [| rewrite wire_slice_length; lia]. split; [lia | done].
  - intros (Hle & E1 & E2). rewrite (slice_split d a (a + length x)) by lia. by rewrite E1, E2.
Qed.

Lemma slice_one d a : (a < length d)%nat -> slice d a (S a) = [d !!! a].
Proof.
  intros H. unfold slice. replace (S a - a)%nat with 1%nat by lia.
  destruct (lookup_lt_is_Some_2 d a H) as [x Hx]. rewrite (drop_S d x a Hx). cbn.
  by rewrite (list_lookup_total_correct _ _ _ Hx).
Qed.

Lemma slice_cons d a b x y : (a <= b <= length d)%nat ->
  slice d a b = x :: y <-> (S a <= b)%nat /\ d !!! a = x /\ slice d (S a) b = y.
Proof.
  intros H. change (x :: y) with ([x] ++ y). rewrite slice_app by done. cbn [length].
  replace (a + 1)%nat with (S a) by lia. split.
  - intros (Hle & E1 & E2). rewrite slice_one in E1 by lia. by injection E1 as ->.
  - intros (Hle & <- & <-). by rewrite slice_one by lia.
Qed.

Lemma byte_at d a : Forall (is_u 8) d -> is_u 8 (d !!! a).
Proof.
  intros H. destruct (decide (a < length d)%nat) as [Ha | Ha].
  - destruct (lookup_lt_is_Some_2 d a Ha) as [x Hx]. rewrite (list_lookup_total_correct _ _ _ Hx).
    by eapply Forall_lookup_1 in Hx.
  - rewrite list_lookup_total_alt, lookup_ge_None_2 by lia. unfold is_u. cbn. lia.
Qed.

Lemma slice_bytes d a b : Forall (is_u 8) d -> Forall (is_u 8) (slice d a b).
Proof. intros. by apply Forall_take, Forall_drop. Qed.

Lemma lookup_slice d a b i : (a + i < b <= length d)%nat -> slice d a b !!! i = d !!! (a + i)%nat.
Proof.
  intros H. unfold slice. rewrite lookup_total_take, decide_True by lia. apply lookup_total_drop.
Qed.

(** ** Words *)

Lemma be16_length v : length (be16 v) = 2%nat. Proof. done. Qed.
Lemma be32_length v : length (be32 v) = 4%nat. Proof. done. Qed.

Lemma be16_iff x y v : is_u 8 x -> is_u 8 y -> ([x; y] = be16 v /\ is_u 16 v) <-> x * 2 ^ 8 + y = v.
Proof.
  intros Hx Hy. unfold be16, u8. rewrite shiftr_div by lia. split.
  - intros [[=] Hv]. subst. ranges. divmod.
  - intros <-. split; [| ranges; lia]. repeat f_equal; ranges; divmod.
Qed.

Lemma be32_iff x y z w v : is_u 8 x -> is_u 8 y -> is_u 8 z -> is_u 8 w ->
  ([x; y; z; w] = be32 v /\ is_u 32 v) <-> x * 2 ^ 24 + y * 2 ^ 16 + z * 2 ^ 8 + w = v.
Proof.
  intros Hx Hy Hz Hw. unfold be32, u8. rewrite !shiftr_div by lia. split.
  - intros [[=] Hv]. subst. ranges. divmod.
  - intros <-. split; [| ranges; lia]. repeat f_equal; ranges; divmod.
Qed.

Lemma slice_two d a : (a + 2 <= length d)%nat -> slice d a (a + 2) = [d !!! a; d !!! S a].
Proof.
  intros H. rewrite (slice_split d a (S a)) by lia. replace (a + 2)%nat with (S (S a)) by lia.
  by rewrite !slice_one by lia.
Qed.

Lemma slice_four d a : (a + 4 <= length d)%nat ->
  slice d a (a + 4) = [d !!! a; d !!! S a; d !!! S (S a); d !!! S (S (S a))].
Proof.
  intros H. rewrite (slice_split d a (a + 2)), slice_two by lia.
  replace (a + 4)%nat with (a + 2 + 2)%nat by lia. rewrite slice_two by lia. cbn.
  by replace (a + 2)%nat with (S (S a)) by lia.
Qed.

Lemma readU16_iff d a v : Forall (is_u 8) d -> (a + 2 <= length d)%nat ->
  (slice d a (a + 2) = be16 v /\ is_u 16 v) <-> readU16 d a = v.
Proof.
  intros Hd Ha. rewrite slice_two, be16_iff by (first [lia | by apply byte_at]).
  unfold readU16, MediaRtpBytes.readU16. pose proof (byte_at d a Hd). pose proof (byte_at d (S a) Hd).
  rewrite lor_shiftl_add by (ranges; lia). unfold u16. by rewrite Z.mod_small by (ranges; lia).
Qed.

Lemma readU32_iff d a v : Forall (is_u 8) d -> (a + 4 <= length d)%nat ->
  (slice d a (a + 4) = be32 v /\ is_u 32 v) <-> readU32 d a = v.
Proof.
  intros Hd Ha. rewrite slice_four, be32_iff by (first [lia | by apply byte_at]).
  unfold readU32, MediaRtpBytes.readU32.
  pose proof (byte_at d a Hd) as H1. pose proof (byte_at d (S a) Hd) as H2.
  pose proof (byte_at d (S (S a)) Hd) as H3. pose proof (byte_at d (S (S (S a))) Hd) as H4.
  set (x := d !!! a) in *. set (y := d !!! S a) in *. set (z := d !!! S (S a)) in *. set (w := d !!! S (S (S a))) in *.
  clearbody x y z w. rewrite !shiftl_mul by lia. unfold u32. rewrite (Z.mod_small (x * 2 ^ 24)) by (ranges; lia).
  rewrite (lor_disjoint (x * 2 ^ 24) (y * 2 ^ 16) 24) by (ranges; first [lia | divmod]).
  rewrite (lor_disjoint _ (z * 2 ^ 8) 16) by (ranges; first [lia | divmod]).
  rewrite (lor_disjoint _ w 8) by (ranges; first [lia | divmod]). done.
Qed.

Lemma zeroBytes_iff d a b : (b <= length d)%nat -> zeroBytes d a b = true <-> slice d a b = replicate (b - a) 0.
Proof.
  intros H. unfold zeroBytes. rewrite <- (wire_slice_length d a b H). generalize (slice d a b) as l.
  induction l as [| x l IH]; cbn [forallb length replicate]; [done |]. rewrite andb_true_iff, IH, Z.eqb_eq. split; [intros [<- <-] | intros [=]]; auto.
Qed.

(** ** The loops of the parser *)

Lemma encodeItems_cons i items tail :
  encodeItems (i :: items) ++ tail =
  it_type i :: Z.of_nat (length (it_value i)) :: it_value i ++ encodeItems items ++ tail.
Proof. unfold encodeItems. cbn. by rewrite <- app_assoc. Qed.

Section Parser.
Context (d : list Z) (Hd : Forall (is_u 8) d).

Lemma item_size a : Z.of_nat (Z.to_nat (d !!! a)) = d !!! a /\ (Z.to_nat (d !!! a) <= 255)%nat.
Proof. pose proof (byte_at d a Hd). ranges. lia. Qed.

(** From [offset], items and then a null octet. *)
Lemma itemLoop_iff fuel last offset items items' offset' :
  (last <= length d)%nat -> (offset <= last)%nat -> (last - offset <= fuel)%nat ->
  itemLoop fuel d last offset items = Success (items', offset', true) <->
  exists new, items' = items ++ new /\ Forall itemOk new /\ (offset < offset' <= last)%nat /\
    slice d offset offset' = encodeItems new ++ [0].
Proof.
  intros Hlast. revert offset items. induction fuel as [| fuel IH]; intros offset items Hoff Hfuel; cbn [itemLoop].
  { split; [by intros [=] | intros (new & _ & _ & ? & _); lia]. }
  destruct (Nat.ltb_spec offset last) as [Hlt | Hge]; cycle 1.
  { split; [by intros [=] | intros (new & _ & _ & ? & _); lia]. }
  destruct (Z.eqb_spec (d !!! offset) 0) as [E | E].
  { split.
    - intros [= <- <-]. exists []. rewrite app_nil_r. split_and!; [done | constructor | lia.. |].
      by rewrite slice_one, E by lia.
    - intros (new & -> & Hnew & Hoff' & Es). destruct new as [| i new].
      + pose proof (f_equal length Es) as L. rewrite wire_slice_length in L by lia. cbn in L.
        rewrite app_nil_r. repeat f_equal. lia.
      + apply Forall_cons_1 in Hnew as [[Hi _] _]. rewrite encodeItems_cons in Es. apply slice_cons in Es as (_ & ? & _); lia. }
  destruct (Nat.leb_spec last (S offset)) as [Hle | Hgt].
  { split; [by intros [=] |]. intros (new & -> & Hnew & Hoff' & Es).
    destruct new as [| i new]; [| rewrite encodeItems_cons in Es]; apply slice_cons in Es as (? & ? & Es);
      [done | lia | | lia]. apply slice_cons in Es; lia. }
  pose proof (item_size (S offset)) as [Esize Hsize]. pose proof (byte_at d offset Hd) as Htype.
  set (n := Z.to_nat (d !!! S offset)) in *.
  destruct (Nat.ltb_spec (last - S (S offset)) n) as [Hlong | Hfit].
  { split; [by intros [=] |]. intros (new & -> & Hnew & Hoff' & Es).
    destruct new as [| i new]; [| rewrite encodeItems_cons in Es]; apply slice_cons in Es as (? & ? & Es);
      [done | lia | | lia].
    apply slice_cons in Es as (? & Ei & Es); [| lia]. apply slice_app in Es as (? & _); lia. }
  rewrite IH by lia. split.
  - intros (new & -> & Hnew & Hoff' & Es).
    exists (mkItem (d !!! offset) (slice d (S (S offset)) (S (S offset) + n)) :: new).
    split; [by rewrite <- app_assoc |]. split.
    { constructor; [| done]. split; cbn [it_type it_value]; [ranges; lia |]. rewrite wire_slice_length; lia. }
    split; [lia |]. rewrite encodeItems_cons. apply slice_cons; [lia |]. split_and!; [lia | done |].
    apply slice_cons; [lia |]. split_and!; [lia | cbn [it_value]; rewrite wire_slice_length by lia; lia |].
    cbn [it_value]. rewrite (slice_split d _ (S (S offset) + n)) by lia. rewrite <- Es. done.
  - intros (new & -> & Hnew & Hoff' & Es). destruct new as [| i new]; [apply slice_cons in Es as (? & ? & Es); [done | lia] |].
    apply Forall_cons_1 in Hnew as [[Ht Hi] Hnew]. rewrite encodeItems_cons in Es. apply slice_cons in Es as (? & Ei & Es); [| lia].
    apply slice_cons in Es as (? & El & Es); [| lia].
    assert (n = length (it_value i)) as En by lia.
    apply slice_app in Es as (? & Ev & Es); [| lia].
    rewrite <- En in *. pose proof (f_equal length Es) as L. rewrite wire_slice_length, length_app in L by lia. cbn in L.
    exists new. split_and!; [| done | lia | lia | done].
    rewrite <- app_assoc, Ei, Ev. by destruct i.
Qed.

Lemma alignWord_spec offset : (offset <= alignWord offset < offset + 4)%nat /\ (alignWord offset mod 4 = 0)%nat.
Proof.
  unfold alignWord. pose proof (Nat.div_mod_eq (offset + 3) 4). pose proof (Nat.mod_upper_bound (offset + 3) 4).
  split; [lia |]. apply Nat.Div0.mod_mul.
Qed.

(** Two multiples of four less than four apart. *)
Lemma aligned_unique a b : (a mod 4 = 0 -> b mod 4 = 0 -> a < b + 4 -> b < a + 4 -> a = b)%nat.
Proof. intros. pose proof (Nat.div_mod_eq a 4). pose proof (Nat.div_mod_eq b 4). lia. Qed.

Lemma encodeChunk_length chunk : (length (encodeChunk chunk) mod 4 = 0)%nat.
Proof.
  unfold encodeChunk. cbv zeta. set (content := be32 _ ++ _). rewrite length_app, length_replicate.
  pose proof (Nat.mod_upper_bound (length content) 4). pose proof (Nat.div_mod_eq (length content) 4) as E.
  replace (length content + (4 - length content mod 4))%nat with ((length content / 4 + 1) * 4)%nat by lia.
  apply Nat.Div0.mod_mul.
Qed.

(** A whole chunk stands in a slice exactly when its SSRC, its items with
    their end, and zeros up to the next word do. *)
Lemma chunk_slice chunk offset stop : (offset mod 4 = 0)%nat -> (offset <= stop <= length d)%nat ->
  slice d offset stop = encodeChunk chunk <->
  exists mid, (offset + 4 < mid <= stop)%nat /\ stop = alignWord mid /\
    slice d offset (offset + 4) = be32 (ch_ssrc chunk) /\
    slice d (offset + 4) mid = encodeItems (ch_items chunk) ++ [0] /\
    slice d mid stop = replicate (stop - mid) 0.
Proof.
  intros Ha Hstop. unfold encodeChunk. cbv zeta. set (content := be32 _ ++ _).
  set (k := (4 - length content mod 4)%nat).
  assert (Hk : (0 < k <= 4)%nat) by (pose proof (Nat.mod_upper_bound (length content) 4); lia).
  assert (Hc : ((length content + k) mod 4 = 0)%nat).
  { pose proof (encodeChunk_length chunk) as E. unfold encodeChunk in E. cbv zeta in E. fold content in E.
    by rewrite length_app, length_replicate in E. }
  replace k with (S (k - 1)) by lia. cbn [replicate].
  replace (content ++ 0 :: replicate (k - 1) 0)
    with (be32 (ch_ssrc chunk) ++ (encodeItems (ch_items chunk) ++ [0]) ++ replicate (k - 1) 0)
    by (unfold content; by rewrite <- !app_assoc).
  assert (Lc : length content = (4 + length (encodeItems (ch_items chunk)))%nat) by (unfold content; by rewrite length_app).
  rewrite slice_app by done. rewrite be32_length. split.
  - intros (Hle & Es & E). apply slice_app in E as (Hle2 & Ei & Ez); [| lia].
    rewrite length_app in *. cbn [length] in *.
    pose proof (f_equal length Ez) as L. rewrite wire_slice_length, length_replicate in L by lia.
    set (mid := (offset + 4 + (length (encodeItems (ch_items chunk)) + 1))%nat) in *.
    exists mid. replace (stop - mid)%nat with (k - 1)%nat by lia.
    split_and!; [lia | lia | | done..]. pose proof (alignWord_spec mid) as [? ?].
    apply aligned_unique; [| done | lia | lia]. replace stop with (offset + (length content + k))%nat by lia.
    rewrite Nat.Div0.add_mod, Ha, Hc. done.
  - intros (mid & Hmid & Estop & Es & Ei & Ez). pose proof (f_equal length Ei) as L.
    rewrite wire_slice_length, length_app in L by lia. cbn [length] in L. pose proof (alignWord_spec mid) as [? ?].
    assert (E : (stop = offset + (length content + k))%nat).
    { apply aligned_unique; [by subst | by rewrite Nat.Div0.add_mod, Ha, Hc | lia | lia]. }
    split; [lia |]. split; [done |]. apply slice_app; [lia |]. rewrite length_app. cbn [length].
    replace (offset + 4 + (length (encodeItems (ch_items chunk)) + 1))%nat with mid by lia.
    split_and!; [lia | done |]. rewrite Ez. f_equal. lia.
Qed.

(** The result of the item loop without the end item is no success of the chunk. *)
Lemma chunkLoop_iff count last offset chunks chunks' offset' :
  (last <= length d)%nat -> (offset mod 4 = 0)%nat -> (offset <= last)%nat ->
  chunkLoop count d last offset chunks = Success (chunks', offset') <->
  exists new, chunks' = chunks ++ new /\ length new = count /\ Forall chunkOk new /\ (offset <= offset' <= last)%nat /\
    slice d offset offset' = concat (map encodeChunk new).
Proof.
  intros Hlast. revert offset chunks. induction count as [| count IH]; intros offset chunks Ha Hoff; cbn [chunkLoop].
  { split.
    - intros [= <- <-]. exists []. rewrite app_nil_r. split_and!; [done.. | constructor | lia | lia |].
      unfold slice. by rewrite Nat.sub_diag.
    - intros (new & -> & E%nil_length_inv & _ & ? & Es). subst new. rewrite app_nil_r.
      pose proof (f_equal length Es) as L. rewrite wire_slice_length in L by lia. cbn in L. repeat f_equal. lia. }
  destruct (Nat.ltb_spec (last - offset) 4) as [Hs | Hs].
  { split; [by intros [=] |]. intros ([| c new] & -> & El & Hnew & ? & Es); [done |]. cbn [map concat] in Es.
    pose proof (f_equal length Es) as L. rewrite wire_slice_length, length_app in L by lia.
    unfold encodeChunk in L. cbv zeta in L. rewrite !length_app, be32_length in L. lia. }
  assert (Hitems : forall items mid, itemLoop last d last (offset + 4) [] = Success (items, mid, true) <->
    Forall itemOk items /\ (offset + 4 < mid <= last)%nat /\ slice d (offset + 4) mid = encodeItems items ++ [0]).
  { intros items mid. rewrite itemLoop_iff by lia. cbn [app]. naive_solver. }
  transitivity (exists items mid, itemLoop last d last (offset + 4) [] = Success (items, mid, true) /\
    (alignWord mid <= last)%nat /\ zeroBytes d mid (alignWord mid) = true /\
    chunkLoop count d last (alignWord mid) (chunks ++ [mkChunk (readU32 d offset) items]) = Success (chunks', offset')).
  { destruct (itemLoop last d last (offset + 4) []) as [[[items mid] [|]] | e]; cbn [negb].
    2, 3: split; [by intros [=] | by intros (? & ? & [=] & _)].
    destruct (Nat.ltb_spec last (alignWord mid)) as [Hm | Hm]; cbn [orb].
    { split; [by intros [=] | intros (? & ? & [=] & ? & _); subst; lia]. }
    destruct (zeroBytes d mid (alignWord mid)) eqn:Ez; cbn [negb].
    - split; [by eauto 6 | by intros (? & ? & [= -> ->] & _ & _ & ?)].
    - split; [by intros [=] | intros (? & ? & [= -> ->] & _ & ? & _); congruence]. }
  split.
  - intros (items & mid & (Hok & Hmid & Ei)%Hitems & Hm & Ez & Hrest).
    pose proof (alignWord_spec mid) as [? ?]. apply IH in Hrest as (new & -> & <- & Hnew & ? & Es); [| done | lia].
    exists (mkChunk (readU32 d offset) items :: new).
    pose proof (proj2 (readU32_iff d offset _ Hd ltac:(lia)) eq_refl) as [Ew Hw].
    split_and!; [by rewrite <- app_assoc | done | by constructor | lia | lia |]. cbn [map concat].
    rewrite (slice_split d offset (alignWord mid)), Es by lia. f_equal.
    apply chunk_slice; [done | lia |]. exists mid. split_and!; [lia | lia | done.. |]. apply zeroBytes_iff; [lia | done].
  - intros ([| c new] & -> & [= El] & Hnew & ? & Es); cbn [map concat] in Es. apply Forall_cons_1 in Hnew as [[Hw Hok] Hnew].
    apply slice_app in Es as (Hle & Ec & Es); [| lia]. set (stop := (offset + length (encodeChunk c))%nat) in *.
    apply chunk_slice in Ec as (mid & Hmid & Estop & Ew & Ei & Ez); [| done | lia].
    pose proof (alignWord_spec mid) as [? ?]. exists (ch_items c), mid. rewrite <- Estop. split_and!; [apply Hitems | lia | |].
    + split_and!; [done | lia | lia | done].
    + apply zeroBytes_iff; [lia | done].
    + apply IH; [by rewrite Estop | lia |]. exists new. split_and!; [| done.. | lia | lia | done].
      rewrite (proj1 (readU32_iff d offset (ch_ssrc c) Hd ltac:(lia))) by done. rewrite <- app_assoc. by destruct c.
Qed.

Lemma sourceLoop_iff count offset sources sources' offset' :
  (offset + 4 * count <= length d)%nat ->
  sourceLoop count d offset sources = (sources', offset') <->
  offset' = (offset + 4 * count)%nat /\ exists new, sources' = sources ++ new /\ length new = count /\
    Forall (is_u 32) new /\ slice d offset offset' = concat (map be32 new).
Proof.
  revert offset sources. induction count as [| count IH]; intros offset sources Hle; cbn [sourceLoop].
  { split.
    - intros [= <- <-]. split; [lia |]. exists []. rewrite app_nil_r. split_and!; [done.. | constructor |].
      unfold slice. by rewrite Nat.sub_diag.
    - intros (-> & new & -> & E%nil_length_inv & _ & _). subst new. rewrite app_nil_r. f_equal. lia. }
  rewrite IH by lia. pose proof (proj2 (readU32_iff d offset _ Hd ltac:(lia)) eq_refl) as [Ew Hw]. split.
  - intros (-> & new & -> & <- & Hnew & Es). split; [lia |]. exists (readU32 d offset :: new).
    split_and!; [by rewrite <- app_assoc | done | by constructor |]. cbn [map concat].
    apply slice_app; [lia |]. rewrite be32_length. split_and!; [lia | done | done].
  - intros (-> & [| x new] & -> & [= El] & Hnew & Es). apply Forall_cons_1 in Hnew as [Hx Hnew]. cbn [map concat] in Es.
    apply slice_app in Es as (_ & Ex & Es); [| lia]. rewrite be32_length in *. split; [lia |]. exists new.
    split_and!; [| done.. |].
    + rewrite (proj1 (readU32_iff d offset x Hd ltac:(lia))) by done. by rewrite <- app_assoc.
    + rewrite <- Es. done.
Qed.

(** *** The bodies, by packet type *)

Lemma slice_word a b v rest : (a <= b <= length d)%nat ->
  (slice d a b = be32 v ++ rest /\ is_u 32 v) <->
  (a + 4 <= b)%nat /\ readU32 d a = v /\ slice d (a + 4) b = rest.
Proof.
  intros H. rewrite slice_app by done. rewrite be32_length. split.
  - intros ((Hle & E & ?) & Hv). split_and!; [done | | done]. by apply readU32_iff; [| lia |].
  - intros (Hle & E & ?). apply readU32_iff in E as [? ?]; [tauto | done | lia].
Qed.

Lemma word_slice a b rest : (a + 4 <= b <= length d)%nat -> slice d (a + 4) b = rest ->
  slice d a b = be32 (readU32 d a) ++ rest /\ is_u 32 (readU32 d a).
Proof. intros H E. apply slice_word; [lia |]. split_and!; [lia | done | done]. Qed.

Lemma senderReport_iff b sr blocks : (4 <= b <= length d)%nat ->
  (slice d 4 b = encodeReport sr ++ blocks /\ reportOk sr) <->
  (28 <= b)%nat /\ slice d 28 b = blocks /\
  sr = mkSenderReport (readU32 d 4) (mkRtcpNtp (readU32 d 8) (readU32 d 12)) (readU32 d 16) (readU32 d 20) (readU32 d 24).
Proof.
  intros H. unfold encodeReport, reportOk. rewrite <- !app_assoc. destruct sr as [s [ns nf] r pc oc]. cbn [rr_ssrc rr_ntp
    rn_seconds rn_fraction rr_rtpTimestamp rr_senderPacketCount rr_senderOctetCount]. split.
  - intros (E & H1 & H2 & H3 & H4 & H5 & H6).
    apply (conj E), slice_word in H1 as (? & <- & E1); [| done]. cbn [Nat.add] in *.
    apply (conj E1), slice_word in H2 as (? & <- & E2); [| lia]. cbn [Nat.add] in *.
    apply (conj E2), slice_word in H3 as (? & <- & E3); [| lia]. cbn [Nat.add] in *.
    apply (conj E3), slice_word in H4 as (? & <- & E4); [| lia]. cbn [Nat.add] in *.
    apply (conj E4), slice_word in H5 as (? & <- & E5); [| lia]. cbn [Nat.add] in *.
    apply (conj E5), slice_word in H6 as (? & <- & E6); [| lia]. done.
  - intros (Hb & Eb & [= -> -> -> -> -> ->]).
    destruct (word_slice 24 b _ ltac:(lia) Eb) as [E6 ?].
    destruct (word_slice 20 b _ ltac:(lia) E6) as [E5 ?].
    destruct (word_slice 16 b _ ltac:(lia) E5) as [E4 ?].
    destruct (word_slice 12 b _ ltac:(lia) E4) as [E3 ?].
    destruct (word_slice 8 b _ ltac:(lia) E3) as [E2 ?].
    destruct (word_slice 4 b _ ltac:(lia) E2) as [E1 ?]. done.
Qed.

(** The reason of a BYE, read from [offset]. *)
Lemma reason_iff offset last tail reason : (offset mod 4 = 0)%nat -> (offset < last <= length d)%nat ->
  let size := Z.to_nat (d !!! offset) in
  let stop := (S offset + size)%nat in
  slice d offset last = tail ->
  reasonForm tail reason <->
  (stop <= last)%nat /\ alignWord stop = last /\ zeroBytes d stop last = true /\ reason = slice d (S offset) stop.
Proof.
  intros Ha Hlast size stop Et. pose proof (item_size offset) as [Esize Hsize]. fold size in Esize, Hsize.
  pose proof (alignWord_spec stop) as [Hal Hal4]. split.
  - intros Hr. inversion Hr as [E1 E2 | reason' padding H1 H2 H3 E1 E2]; subst tail.
    + symmetry in E1. pose proof (f_equal length E1) as L. rewrite wire_slice_length in L by lia. cbn in L. lia.
    + subst reason'. symmetry in E1. apply slice_cons in E1 as (? & E & Es); [| lia]. apply slice_app in Es as (? & Er & Ez); [| lia].
      assert (size = length reason) as El by lia. replace (S offset + length reason)%nat with stop in * by lia.
      pose proof (f_equal length Ez) as L. rewrite wire_slice_length, length_replicate in L by lia.
      split_and!; [lia | | | done].
      * apply aligned_unique; [done | | lia | lia]. replace last with (offset + (S (length reason) + padding))%nat by lia.
        rewrite Nat.Div0.add_mod, Ha, H3. done.
      * apply zeroBytes_iff; [lia |]. by rewrite Ez, L.
  - intros (Hs & Eal & Ez & ->). apply zeroBytes_iff in Ez; [| lia].
    assert (Er : length (slice d (S offset) stop) = size) by (rewrite wire_slice_length; lia).
    replace tail with (Z.of_nat (length (slice d (S offset) stop)) :: slice d (S offset) stop ++ replicate (last - stop) 0).
    + constructor; rewrite ?Er; [lia | lia |]. replace (S size + (last - stop))%nat with (last - offset)%nat by lia.
      rewrite Eal in *. pose proof (Nat.div_mod_eq last 4). pose proof (Nat.div_mod_eq offset 4).
      replace (last - offset)%nat with ((last / 4 - offset / 4) * 4)%nat by lia. apply Nat.Div0.mod_mul.
    + rewrite <- Et. symmetry. apply slice_cons; [lia |]. split_and!; [lia | lia |]. apply slice_app; [lia |].
      rewrite Er. fold stop. done.
Qed.

Lemma sources_fit last count : (4 <= last)%nat ->
  ((last - 4) / 4 <? count)%nat = false <-> (4 + 4 * count <= last)%nat.
Proof.
  intros H. rewrite Nat.ltb_ge. pose proof (Nat.div_mod_eq (last - 4) 4). pose proof (Nat.mod_upper_bound (last - 4) 4). lia.
Qed.

Lemma sources_length sources : length (concat (map be32 sources)) = (4 * length sources)%nat.
Proof. induction sources; [done |]. cbn [map concat]. rewrite length_app, be32_length, IHsources. cbn. lia. Qed.

Section Bodies.
Context (count padding : Z) (packet : MediaRtcpPacket).
Context (Hp : (4 + Z.to_nat padding <= length d)%nat).
Let last := (length d - Z.to_nat padding)%nat.

Lemma last_fits : (4 <= last <= length d)%nat.
Proof. lia. Qed.

Lemma senderBody_iff :
  parsePacket d count 200 padding = Success packet <-> bodyForm count padding (slice d 4 last) 200 packet.
Proof.
  unfold parsePacket. cbv zeta. fold last. pose proof last_fits as Hlast. clearbody last. change (200 =? 200) with true. cbn match.
  destruct (Nat.eqb_spec last (28 + Z.to_nat count * 24)) as [E | E]; cbn [negb]; split.
  - intros [= <-]. set (sr := mkSenderReport _ _ _ _ _).
    destruct (proj2 (senderReport_iff last sr (slice d 28 last) Hlast)) as [Eb Hok].
    { split_and!; [lia | done | reflexivity]. }
    rewrite Eb. apply body_sender; [done |]. rewrite wire_slice_length; lia.
  - intros Hb. inversion Hb as [sr blocks Hok Hl Eb | | | | ? Ht]; subst; [| set_solver]. symmetry in Eb.
    apply (conj Eb), senderReport_iff in Hok as (_ & _ & ->); done.
  - by intros [=].
  - intros Hb. inversion Hb as [sr blocks Hok Hl Eb | | | | ? Ht]; subst; [| set_solver]. symmetry in Eb.
    apply (conj Eb), senderReport_iff in Hok as (? & <- & _); [| done]. rewrite wire_slice_length in Hl; lia.
Qed.

Lemma receiverBody_iff :
  parsePacket d count 201 padding = Success packet <-> bodyForm count padding (slice d 4 last) 201 packet.
Proof.
  unfold parsePacket. cbv zeta. fold last. pose proof last_fits as Hlast. clearbody last.
  change (201 =? 200) with false. change (201 =? 201) with true. cbn match.
  destruct (Nat.eqb_spec last (8 + Z.to_nat count * 24)) as [E | E]; cbn [negb]; split.
  - intros [= <-]. destruct (word_slice 4 last (slice d 8 last) ltac:(lia) eq_refl) as [Eb Hok].
    rewrite Eb. apply body_receiver; [done |]. rewrite wire_slice_length; lia.
  - intros Hb. inversion Hb as [| ssrc blocks Hok Hl Eb | | | ? Ht]; subst; [| set_solver]. symmetry in Eb.
    apply (conj Eb), slice_word in Hok as (_ & <- & _); done.
  - by intros [=].
  - intros Hb. inversion Hb as [| ssrc blocks Hok Hl Eb | | | ? Ht]; subst; [| set_solver]. symmetry in Eb.
    apply (conj Eb), slice_word in Hok as (? & _ & <-); [| done]. rewrite wire_slice_length in Hl; lia.
Qed.

Lemma descriptionBody_iff :
  parsePacket d count 202 padding = Success packet <-> bodyForm count padding (slice d 4 last) 202 packet.
Proof.
  unfold parsePacket. cbv zeta. fold last. pose proof last_fits as Hlast. clearbody last.
  change (202 =? 200) with false. change (202 =? 201) with false. change (202 =? 202) with true. cbn match.
  assert (Hchunks : forall chunks, chunkLoop (Z.to_nat count) d last 4 [] = Success (chunks, last) <->
    length chunks = Z.to_nat count /\ Forall chunkOk chunks /\ slice d 4 last = concat (map encodeChunk chunks)).
  { intros chunks. rewrite chunkLoop_iff by (done || lia). cbn [app]. split; [intros (? & -> & ?); tauto | intros (? & ? & ?); exists chunks; split_and!; (done || lia)]. }
  transitivity (exists chunks, chunkLoop (Z.to_nat count) d last 4 [] = Success (chunks, last) /\
    packet = mkRtcpPacket SourceDescription 202 count padding None None chunks [] []).
  { destruct (chunkLoop _ _ _ _ _) as [[chunks offset] | e]; [| split; [by intros [=] | by intros (? & [=] & _)]].
    destruct (Nat.eqb_spec offset last) as [-> | Ho]; cbn [negb].
    - split; [intros [= <-]; eauto | by intros (? & [= ->] & ->)].
    - split; [by intros [=] | by intros (? & [=] & _)]. }
  split.
  - intros (chunks & (? & ? & ->)%Hchunks & ->). by constructor.
  - intros Hb. inversion Hb as [| | chunks ? ? Eb | | ? Ht]; subst; [| set_solver]. exists chunks.
    split; [by apply Hchunks | done].
Qed.

(** The grammar of a BYE whose sources the loop has read. *)
Lemma byeForm_iff sources stop :
  (4 + 4 * Z.to_nat count <= last)%nat -> sourceLoop (Z.to_nat count) d 4 [] = (sources, stop) ->
  bodyForm count padding (slice d 4 last) 203 packet <->
  exists reason, reasonForm (slice d stop last) reason /\
    packet = mkRtcpPacket Bye 203 count padding None None [] sources reason.
Proof.
  intros Hfit Es. pose proof last_fits as Hlast. pose proof Es as Hs.
  apply sourceLoop_iff in Hs as (-> & new & Enew & Hl & Hw & Eb); [| lia]. cbn [app] in Enew. subst new. split.
  - intros Hb. inversion Hb as [| | | sources' tail reason Hl' Hw' Hr Eb' | ? Ht]; subst; [| set_solver].
    symmetry in Eb'. apply slice_app in Eb' as (_ & E1 & <-); [| lia].
    rewrite sources_length, Hl' in *. exists reason. split; [done |].
    assert (sourceLoop (Z.to_nat count) d 4 [] = (sources', 4 + 4 * Z.to_nat count)%nat) as E'.
    { apply sourceLoop_iff; [lia |]. split; [done |]. eauto. }
    rewrite Es in E'. by injection E' as ->.
  - intros (reason & Hr & ->). rewrite (slice_split d 4 (4 + 4 * Z.to_nat count) last), Eb by lia. by constructor.
Qed.

Lemma byeBody_iff :
  parsePacket d count 203 padding = Success packet <-> bodyForm count padding (slice d 4 last) 203 packet.
Proof.
  unfold parsePacket. cbv zeta. fold last. pose proof last_fits as Hlast. clearbody last.
  change (203 =? 200) with false. change (203 =? 201) with false. change (203 =? 202) with false.
  change (203 =? 203) with true. cbn match. destruct (_ <? _)%nat eqn:Efit.
  { split; [by intros [=] |]. intros Hb. apply not_false_iff_true in Efit. destruct Efit. apply sources_fit; [lia |].
    inversion Hb as [| | | sources tail reason Hl Hw Hr Eb | ? Ht]; subst; [| set_solver].
    pose proof (f_equal length Eb) as L. rewrite wire_slice_length, length_app, sources_length in L by lia. lia. }
  apply sources_fit in Efit; [| lia].
  destruct (sourceLoop (Z.to_nat count) d 4 []) as [sources stop] eqn:Es. rewrite (byeForm_iff sources stop Efit Es).
  apply sourceLoop_iff in Es as (Estop & _); [| lia]. rewrite <- Estop in Efit.
  assert (Hstop : (stop mod 4 = 0)%nat).
  { rewrite Estop. replace (4 + 4 * Z.to_nat count)%nat with ((1 + Z.to_nat count) * 4)%nat by lia. apply Nat.Div0.mod_mul. }
  clear Estop. destruct (Nat.ltb_spec stop last) as [Hlt | Hge]; cycle 1.
  { replace last with stop by lia. unfold slice at 1. rewrite Nat.sub_diag. cbn [take]. split.
    - intros [= <-]. exists []. split; [constructor | done].
    - intros (reason & Hr & ->). by inversion Hr. }
  pose proof (fun reason => reason_iff stop last _ reason Hstop ltac:(lia) eq_refl) as Hreason. cbv zeta in Hreason.
  setoid_rewrite Hreason. set (size := Z.to_nat (d !!! stop)). set (rest := (S stop + size)%nat).
  destruct (Nat.ltb_spec (last - S stop) size) as [Hlong | Hfit].
  { split; [by intros [=] | intros (? & (? & _) & _); lia]. }
  destruct (Nat.eqb_spec (alignWord rest) last) as [Eal | Eal]; cbn [negb orb]; cycle 1.
  { split; [by intros [=] | by intros (? & (_ & ? & _) & _)]. }
  destruct (zeroBytes d rest last) eqn:Ez; cbn [negb].
  - split; [intros [= <-]; eexists; split_and!; [lia | done..] | by intros (? & (_ & _ & _ & ->) & ->)].
  - split; [by intros [=] | by intros (? & (_ & _ & ? & _) & _)].
Qed.

(** A packet is parsed to what the grammar says of its body. *)
Lemma parsePacket_iff type :
  parsePacket d count type padding = Success packet <-> bodyForm count padding (slice d 4 last) type packet.
Proof.
  destruct (decide (type = 200)) as [-> | H200]; [apply senderBody_iff |].
  destruct (decide (type = 201)) as [-> | H201]; [apply receiverBody_iff |].
  destruct (decide (type = 202)) as [-> | H202]; [apply descriptionBody_iff |].
  destruct (decide (type = 203)) as [-> | H203]; [apply byeBody_iff |].
  unfold parsePacket. cbv zeta.
  rewrite (proj2 (Z.eqb_neq type 200)), (proj2 (Z.eqb_neq type 201)), (proj2 (Z.eqb_neq type 202)),
    (proj2 (Z.eqb_neq type 203)) by done.
  split.
  - intros [= <-]. constructor. set_solver.
  - intros Hb. by inversion Hb; subst.
Qed.
End Bodies.

End Parser.

(** ** The packets of a datagram *)

Lemma bodyForm_padding count padding body type packet :
  bodyForm count padding body type packet -> rp_paddingSize packet = padding.
Proof. by intros []. Qed.

Lemma header_read f : is_u 8 f -> Z.shiftr f 6 = 2 ->
  f = 0x80 + (if Z.land f 0x20 =? 0 then 0 else 0x20) + u8 (Z.land f 0x1F) /\ 0 <= u8 (Z.land f 0x1F) < 32.
Proof.
  intros Hf H. pose proof (forallb_below (fun f => negb (Z.shiftr f 6 =? 2) ||
    (f =? 0x80 + (if Z.land f 0x20 =? 0 then 0 else 0x20) + u8 (Z.land f 0x1F)) &&
    (0 <=? u8 (Z.land f 0x1F)) && (u8 (Z.land f 0x1F) <? 32)) 256 f eq_refl) as E.
  specialize (E ltac:(ranges; lia)). cbv beta in E. rewrite H, Z.eqb_refl in E.
  cbn [negb orb] in E. rewrite !andb_true_iff in E. destruct E as [[E%Z.eqb_eq ?] ?]. split; [done | lia].
Qed.

Lemma header_written (padded : bool) count : 0 <= count < 32 ->
  let f := 0x80 + (if padded then 0x20 else 0) + count in
  is_u 8 f /\ Z.shiftr f 6 = 2 /\ (Z.land f 0x20 =? 0) = negb padded /\ u8 (Z.land f 0x1F) = count.
Proof.
  intros Hc f. pose proof (forallb_below (fun count => let f := 0x80 + (if padded then 0x20 else 0) + count in
    (0 <=? f) && (f <? 256) && (Z.shiftr f 6 =? 2) && Bool.eqb (Z.land f 0x20 =? 0) (negb padded) && (u8 (Z.land f 0x1F) =? count))
    32 count ltac:(by destruct padded) Hc) as E.
  cbv zeta beta in E. fold f in E. rewrite !andb_true_iff in E. destruct E as ((((? & ?) & ?) & ?%Bool.eqb_prop) & ?).
  unfold is_u. split_and!; first [done | lia].
Qed.

Section Datagram.
Context (d : list Z) (Hd : Forall (is_u 8) d).

Lemma packetAt_sound offset packet size :
  (offset < length d)%nat -> packetAt d offset = Success (packet, size) ->
  (0 < size)%nat /\ (offset + size <= length d)%nat /\ packetForm (slice d offset (offset + size)) packet /\
  ((offset + size)%nat = length d \/ rp_paddingSize packet = 0).
Proof.
  intros Ho. unfold packetAt. destruct (Nat.ltb_spec (length d - offset) 4) as [H4 | H4]; [by intros [=] |]. cbv zeta.
  pose proof (byte_at d offset Hd) as Hf. pose proof (byte_at d (S offset) Hd) as Ht.
  destruct (Z.eqb_spec (Z.shiftr (d !!! offset) 6) 2) as [Ev | Ev]; cbn [negb]; [| by intros [=]].
  pose proof (header_read _ Hf Ev) as [Efirst Hcount].
  destruct (proj2 (readU16_iff d (offset + 2) _ Hd ltac:(lia)) eq_refl) as [Ew Hw].
  set (count := u8 (Z.land (d !!! offset) 0x1F)) in *. set (words := readU16 d (offset + 2)) in *. clearbody count words.
  destruct (_ <? words + 1); [by intros [=] |]. set (n := Z.to_nat ((words + 1) * 4)).
  destruct (Nat.ltb_spec n 4) as [? | Hn4]; [by intros [=] |].
  destruct (Nat.ltb_spec (length d - offset) n) as [? | Hn]; [by intros [=] |]. cbn [orb].
  set (padded := Z.land (d !!! offset) 0x20 =? 0) in *.
  assert (Hbody : forall padding, (4 + Z.to_nat padding <= n)%nat -> 0 <= padding ->
    parsePacket (slice d offset (offset + n)) count (d !!! S offset) padding = Success packet ->
    padded = bool_decide (padding = 0) -> paddingOk (slice d (offset + n - Z.to_nat padding) (offset + n)) ->
    packetForm (slice d offset (offset + n)) packet /\ rp_paddingSize packet = padding).
  { intros padding Hpad Hpad0 Hparse%parsePacket_iff Ebool Hok; [| by apply slice_bytes | rewrite wire_slice_length; lia].
    split; [| by eapply bodyForm_padding]. rewrite wire_slice_length in Hparse by lia. rewrite slice_slice in Hparse by lia.
    set (pad := slice d (offset + n - Z.to_nat padding) (offset + n)) in *.
    assert (Lp : length pad = Z.to_nat padding) by (unfold pad; rewrite wire_slice_length; lia).
    replace (slice d offset (offset + n)) with
      (headerByte pad count :: d !!! S offset :: be16 words ++
       slice d (offset + 4) (offset + (offset + n - offset - Z.to_nat padding)) ++ pad).
    - constructor; [by rewrite Lp, Z2Nat.id by lia | done | done | done |]. rewrite length_app, wire_slice_length, Lp by lia. lia.
    - symmetry. apply slice_cons; [lia |]. split_and!; [lia | |].
      + unfold headerByte. rewrite Efirst at 1. fold padded. rewrite Ebool. f_equal. f_equal.
        destruct pad, (decide (padding = 0)) as [-> |]; cbn in Lp; repeat case_bool_decide; (done || lia).
      + apply slice_cons; [lia |]. split_and!; [lia | done |]. apply slice_app; [lia |]. rewrite be16_length.
        replace (S (S offset) + 2)%nat with (offset + 4)%nat by lia. replace (S (S offset)) with (offset + 2)%nat by lia.
        split_and!; [lia | by replace (offset + 4)%nat with (offset + 2 + 2)%nat by lia |].
        unfold pad. replace (offset + (offset + n - offset - Z.to_nat padding))%nat with (offset + n - Z.to_nat padding)%nat by lia.
        by rewrite <- slice_split by lia. }
  destruct padded; cbn [negb andb].
  - destruct (parsePacket _ _ _ _) as [p |] eqn:Ep; [| by intros ?%failure_not]. intros [= -> <-].
    destruct (Hbody 0) as [? ?]; [lia.. | done | done | |].
    { left. unfold slice. rewrite Nat.sub_0_r, Nat.sub_diag. done. }
    split_and!; [lia | lia | done | by right].
  - destruct (Nat.eqb_spec n (length d - offset)) as [Efin | ?]; cbn [negb]; [| by intros [=]].
    pose proof (byte_at d (offset + n - 1) Hd) as Hp. set (padding := d !!! (offset + n - 1)%nat) in *.
    destruct (_ || _) eqn:Ebad; [by intros [=] |].
    destruct (parsePacket _ _ _ _) as [p |] eqn:Ep; [| by intros ?%failure_not]. intros [= -> <-].
    assert (0 < padding <= Z.of_nat n - 4) by (ranges; lia).
    destruct (Hbody padding) as [? ?]; [lia.. | done | by rewrite bool_decide_eq_false_2 by lia | |].
    { right. rewrite wire_slice_length by lia. rewrite last_lookup, wire_slice_length by lia.
      replace (pred _) with (Z.to_nat padding - 1)%nat by lia. unfold slice.
      rewrite lookup_take_lt by lia. rewrite lookup_drop. replace (_ + _)%nat with (offset + n - 1)%nat by lia.
      rewrite list_lookup_lookup_total_lt by lia. fold padding. f_equal. lia. }
    split_and!; [lia | lia | done | left; lia].
Qed.

Lemma packetForm_length unit packet : packetForm unit packet -> (4 <= length unit)%nat.
Proof. intros []. cbn [length app be16]. lia. Qed.

Lemma packetAt_complete offset packet size :
  (offset + size <= length d)%nat -> packetForm (slice d offset (offset + size)) packet ->
  (offset + size)%nat = length d \/ rp_paddingSize packet = 0 -> packetAt d offset = Success (packet, size).
Proof.
  intros Hsize Hform Hlast. remember (slice d offset (offset + size)) as unit eqn:Eu.
  pose proof (packetForm_length _ _ Hform) as H4. assert (Lu : length unit = size) by (rewrite Eu, wire_slice_length; lia).
  destruct Hform as [body pad type count words packet Hbody Hcount Hwords Hpad Hlen].
  set (padded := negb (bool_decide (pad = []))).
  assert (Ehead : headerByte pad count = 0x80 + (if padded then 0x20 else 0) + count).
  { unfold headerByte, padded. by case_bool_decide. }
  destruct (header_written padded count Hcount) as (Hf & Ev & Ep & Ec). rewrite <- Ehead in Ev, Ep, Ec. symmetry in Eu.
  cbn [length app be16] in Lu, H4. rewrite length_app in Lu, Hlen. pose proof Eu as Ebytes.
  apply slice_cons in Ebytes as (_ & Efirst & Ebytes); [| lia].
  apply slice_cons in Ebytes as (_ & Etype & Ebytes); [| lia].
  apply slice_app in Ebytes as (_ & Ewords & Ebytes); [| lia]. rewrite be16_length in Ewords, Ebytes.
  replace (S (S offset)) with (offset + 2)%nat in * by lia.
  apply slice_app in Ebytes as (_ & Ebody & Epad); [| lia].
  assert (Ew : readU16 d (offset + 2) = words) by (apply readU16_iff; [done | lia | done]).
  assert (Hpl : pad = [] \/ d !!! (offset + size - 1)%nat = Z.of_nat (length pad) /\ pad <> []).
  { destruct Hpad as [-> | Hpad]; [by left |]. right. destruct (decide (pad = [])) as [-> | Hne]; [done |].
    split; [| done]. assert (0 < length pad)%nat by (destruct pad; [done | cbn; lia]).
    rewrite last_lookup in Hpad. apply list_lookup_total_correct in Hpad. rewrite <- Hpad. rewrite <- Epad at 2.
    rewrite lookup_slice by lia. f_equal. lia. }
  assert (Hparse : parsePacket (slice d offset (offset + size)) count type (Z.of_nat (length pad)) = Success packet).
  { apply parsePacket_iff; [by apply slice_bytes | rewrite wire_slice_length; lia |]. rewrite wire_slice_length by lia.
    rewrite slice_slice by lia. rewrite <- Ebody in Hbody. replace (offset + (_ - _))%nat with (offset + 2 + 2 + length body)%nat by lia.
    by replace (offset + 4)%nat with (offset + 2 + 2)%nat by lia. }
  unfold packetAt. destruct (Nat.ltb_spec (length d - offset) 4) as [? | _]; [lia |]. cbv zeta.
  rewrite Efirst, Etype, Ev, Ep, Ec, Ew. cbn [Z.eqb negb]. change (negb (2 =? 2)) with false. rewrite negb_involutive. cbn match.
  rewrite (proj2 (Z.ltb_ge (uint64_max / 4) (words + 1))).
  2: { change (uint64_max / 4) with 4611686018427387903. ranges. lia. }
  replace (Z.to_nat ((words + 1) * 4)) with size by (ranges; lia).
  destruct (Nat.ltb_spec size 4) as [? | _]; [lia |]. destruct (Nat.ltb_spec (length d - offset) size) as [? | _]; [lia |].
  cbn [orb]. rewrite (bodyForm_padding _ _ _ _ _ Hbody) in Hlast. unfold padded.
  destruct Hpl as [-> | [El Hne]].
  - rewrite bool_decide_eq_true_2 by done. cbn [negb andb]. change (Z.of_nat (length (@nil Z))) with 0 in Hparse.
    by rewrite Hparse.
  - rewrite bool_decide_eq_false_2 by done. cbn [negb andb].
    assert (0 < length pad)%nat by (destruct pad; [done | cbn; lia]).
    destruct (Nat.eqb_spec size (length d - offset)) as [_ | ?]; [| lia]. cbn [negb]. rewrite El.
    destruct (_ || _) eqn:Ebad; [lia |]. by rewrite Hparse.
Qed.

(** The loop reads the packets that the grammar finds. *)
Lemma packetLoop_iff fuel offset packets packets' :
  (offset <= length d)%nat -> (length d - offset <= fuel)%nat ->
  packetLoop fuel d offset packets = Success packets' <->
  exists new, packets' = packets ++ new /\ compoundForm (slice d offset (length d)) new.
Proof.
  assert (Hend : forall offset new, (length d <= offset)%nat -> compoundForm (slice d offset (length d)) new <-> new = []).
  { intros o new Ho. unfold slice. rewrite drop_ge, take_nil by lia. split.
    - intros H. inversion H as [| unit ? ? ? Hu ? ? E]; subst; [done |]. apply packetForm_length in Hu.
      apply app_eq_nil in E as [-> _]. cbn in Hu. lia.
    - intros ->. constructor. }
  assert (Hstop : forall offset packets, (length d <= offset)%nat -> Success packets = Success packets' <->
    exists new, packets' = packets ++ new /\ compoundForm (slice d offset (length d)) new).
  { intros o ps Ho. setoid_rewrite (fun new => Hend o new Ho). split.
    - intros [= <-]. exists []. by rewrite app_nil_r.
    - intros (new & -> & ->). by rewrite app_nil_r. }
  revert offset packets. induction fuel as [| fuel IH]; intros offset packets Ho Hfuel; cbn [packetLoop]; [apply Hstop; lia |].
  destruct (Nat.ltb_spec offset (length d)) as [Hlt | Hge]; [| by apply Hstop]. clear Hend Hstop. split.
  - destruct (packetAt d offset) as [[packet size] |] eqn:Ep; [| by intros [=]].
    apply packetAt_sound in Ep as (Hpos & Hsize & Hform & Hlast); [| done].
    intros Hrest. apply IH in Hrest as (new & -> & Hnew); [| lia..]. exists (packet :: new).
    split; [by rewrite <- app_assoc |]. rewrite (slice_split d offset (offset + size)) by lia. constructor; [done | | done].
    destruct Hlast as [Hlast | Hlast]; [left | by right]. rewrite Hlast. unfold slice. by rewrite Nat.sub_diag.
  - intros (new & -> & Hnew). inversion Hnew as [E | unit packet rest new' Hform Hlast Hrest E]; subst.
    { apply (f_equal length) in E. rewrite wire_slice_length in E by lia. cbn in E. lia. }
    pose proof (packetForm_length _ _ Hform) as H4. symmetry in E. apply slice_app in E as (Hle & Eu & Er); [| lia].
    rewrite (packetAt_complete offset packet (length unit)); [| done | by rewrite Eu |].
    + apply IH; [lia.. |]. exists new'. split; [by rewrite <- app_assoc |]. by rewrite Er.
    + destruct Hlast as [-> | ?]; [left | by right]. apply (f_equal length) in Er. rewrite wire_slice_length in Er by lia. cbn in Er. lia.
Qed.

End Datagram.

Lemma existsb_elem {A} (p : A -> bool) l : existsb p l = true <-> exists x, x ∈ l /\ p x = true.
Proof. rewrite existsb_exists. by setoid_rewrite list_elem_of_In. Qed.

Lemma matchingCname_iff source packets :
  matchingCname source packets = true <->
  exists packet chunk item, packet ∈ packets /\ chunk ∈ rp_sdesChunks packet /\ item ∈ ch_items chunk /\
    ch_ssrc chunk = source /\ it_type item = 1 /\ it_value item <> [].
Proof.
  unfold matchingCname. rewrite existsb_elem. setoid_rewrite existsb_elem. setoid_rewrite andb_true_iff.
  setoid_rewrite existsb_elem. setoid_rewrite andb_true_iff. setoid_rewrite Z.eqb_eq. setoid_rewrite negb_true_iff.
  setoid_rewrite bool_decide_eq_false. naive_solver.
Qed.

Lemma isReport_iff kind : isReport kind = true <-> kind = SenderReport \/ kind = ReceiverReport.
Proof. unfold isReport. by rewrite orb_true_iff, !bool_decide_eq_true. Qed.

(** The checks behind the loop. *)
Lemma accepted_iff policy front ps :
  accepted policy (front :: ps) <->
  (bool_decide (cp_mode policy = StrictCompoundRfc3550) || cp_requireCname policy = true -> isReport (rp_kind front) = true) /\
  (cp_requireCname policy = true -> matchingCname (reportSource front) (front :: ps) = true).
Proof. unfold accepted. by rewrite isReport_iff, matchingCname_iff, orb_true_iff, bool_decide_eq_true. Qed.

(** The parser accepts the words of the grammar that the policy asks for. *)
Lemma rtcp_accepts d policy packets : Forall (is_u 8) d ->
  parse d policy = Success packets <-> compoundForm d packets /\ accepted policy packets.
Proof.
  intros Hd. unfold parse.
  assert (Hform : forall ps, compoundForm d ps <-> packetLoop (length d) d 0 [] = Success ps).
  { intros ps. rewrite (packetLoop_iff d Hd (length d) 0 [] ps) by lia. rewrite slice_all. cbn [app]. naive_solver. }
  rewrite Hform. case_bool_decide as Hne.
  { subst d. cbn. split; [by intros [=] | by intros [[= <-] ?]]. }
  destruct (packetLoop _ _ _ _) as [[| front ps] | e] eqn:Eloop; [| | split; [by intros [=] | by intros [[=] _]]].
  { destruct Hne. assert (H : compoundForm d []) by by apply Hform. by inversion H. }
  clear Hform Eloop. cbv zeta.
  transitivity (front :: ps = packets /\ accepted policy (front :: ps)).
  2: { split; [by intros [<- ?] | by intros [[= <-] ?]]. }
  assert (Herror : forall m, compoundError m = Failure (invalidArgument m)) by done.
  rewrite accepted_iff. destruct (isReport (rp_kind front)), (bool_decide (cp_mode policy = StrictCompoundRfc3550)),
    (cp_requireCname policy), (matchingCname (reportSource front) (front :: ps)); cbn [negb andb orb];
    rewrite ?Herror; intuition congruence.
Qed.

(** C16: The parser accepts a datagram exactly when it is a compound packet of the
    grammar that the policy asks for, and returns the packets of the grammar:
    nothing malformed is accepted and nothing well-formed is refused. *)
Theorem rtcp_parse_iff d policy packets : Forall (is_u 8) d ->
  parse d policy = Success packets <-> compoundForm d packets /\ accepted policy packets.
Proof. apply rtcp_accepts. Qed.

End MediaRtcpGrammar.
