(* ===== verification/RtcpRoundTrip.v ===== *)
(** * Reports over RTCP

    What the generator writes is a word of the grammar of [RtcpGrammar], and
    so the parser returns the planned report, description and, at the end of
    the stream, the BYE; and the size the planner reserves for it. *)

From stdpp Require Import sets.
From S2P Require Import Prelude MediaResult CheckedArithmetic CanonicalTime RtpWire Utf8Text Rtcp RtcpGrammar.
Import MediaRtpOutputClockMapper (rt_wire).
Import MediaSharedNtpEpoch (ntp_seconds, ntp_fraction, wireTimestamp, wire_seconds, wire_fraction).
Import MediaUtf8TextValidator (validateCname, validateNonControlText, validateWellFormed, utf8_valid_iff, validUtf8,
  RejectControls, permitted, encodeText).
Import MediaRtcpSenderReportGenerator MediaRtcpCompoundParser MediaRtcpGrammar.
Import MediaRtcpWireGeometry (compoundPayloadBytes).

Local Open Scope Z_scope.

Module MediaRtcpRoundTrip.

(** ** What the generator writes *)

Definition parametersTyped (p : MediaRtcpSenderReportParameters) : Prop :=
  is_u 32 (sr_ssrc p) /\ Forall (is_u 8) (sr_cname p) /\ is_u 32 (ntp_fraction (ts_ntp (sr_timestamp p))) /\
  is_u 32 (rt_wire (ts_rtp (sr_timestamp p))).

Definition reportOf (p : MediaRtcpSenderReportParameters) : MediaRtcpSenderReport :=
  mkSenderReport (sr_ssrc p)
    (mkRtcpNtp (u32 (ntp_seconds (ts_ntp (sr_timestamp p)))) (ntp_fraction (ts_ntp (sr_timestamp p))))
    (rt_wire (ts_rtp (sr_timestamp p))) (u32 (sr_senderPacketCount p)) (u32 (sr_senderOctetCount p)).

Definition cnameChunk (p : MediaRtcpSenderReportParameters) : MediaRtcpSdesChunk :=
  mkChunk (sr_ssrc p) [mkItem 1 (sr_cname p)].

(** The packets of a report. *)
Definition reportPackets (p : MediaRtcpSenderReportParameters) (bye : bool) : list MediaRtcpPacket :=
  [mkRtcpPacket SenderReport 200 0 0 (Some (reportOf p)) None [] [] [];
   mkRtcpPacket SourceDescription 202 1 0 None None [cnameChunk p] [] []] ++
  (if bye then [mkRtcpPacket Bye 203 1 0 None None [] [sr_ssrc p] []] else []).

(** The zeros up to the next word. *)
Definition wordGap (n : nat) : nat := ((4 - n mod 4) mod 4)%nat.

Lemma wordGap_spec n : (wordGap n < 4)%nat /\ ((n + wordGap n) mod 4 = 0)%nat.
Proof.
  unfold wordGap. pose proof (Nat.mod_upper_bound n 4). split; [apply Nat.mod_upper_bound; lia |].
  rewrite Nat.Div0.add_mod_idemp_r. pose proof (Nat.div_mod_eq n 4).
  replace (n + (4 - n mod 4))%nat with ((n / 4 + 1) * 4)%nat by lia. apply Nat.Div0.mod_mul.
Qed.

Lemma wordGap_unique n k : (k < 4)%nat -> ((n + k) mod 4 = 0)%nat -> k = wordGap n.
Proof.
  intros Hk E. destruct (wordGap_spec n) as [? ?].
  assert (n + k = n + wordGap n)%nat by (apply aligned_unique; lia). lia.
Qed.

Lemma padToWord_spec start bytes fuel : (start <= length bytes)%nat -> (wordGap (length bytes - start) <= fuel)%nat ->
  padToWord fuel start bytes = bytes ++ replicate (wordGap (length bytes - start)) 0.
Proof.
  revert bytes. induction fuel as [| fuel IH]; intros bytes Hs Hf; cbn [padToWord].
  { replace (wordGap _) with 0%nat by lia. by rewrite app_nil_r. }
  destruct (wordGap_spec (length bytes - start)) as [Hgap Hal].
  destruct (Nat.eqb_spec ((length bytes - start) mod 4) 0) as [E | E].
  { assert (E0 : (0 = wordGap (length bytes - start))%nat) by (apply wordGap_unique; [lia | by rewrite Nat.add_0_r]).
    rewrite <- E0. by rewrite app_nil_r. }
  assert (E' : wordGap (length bytes - start) = S (wordGap (length (bytes ++ [0]) - start))).
  { rewrite length_app. cbn [length]. destruct (wordGap (length bytes - start)) as [| k] eqn:Ek.
    { rewrite Nat.add_0_r in Hal. lia. }
    f_equal. apply wordGap_unique; [lia |].
    replace (length bytes + 1 - start + k)%nat with (length bytes - start + S k)%nat by lia. done. }
  rewrite IH by (first [lia | rewrite length_app; lia]). rewrite E', <- app_assoc. done.
Qed.

Lemma senderReport_bytes p : parametersTyped p ->
  appendSenderReport [] p = headerByte [] 0 :: 200 :: be16 6 ++ (encodeReport (reportOf p) ++ []) ++ [].
Proof. done. Qed.

(** The description behind [bytes]. *)
Lemma description_bytes bytes p : (length (sr_cname p) <= 255)%nat ->
  exists words, 0 <= words < 2 ^ 16 /\ Z.of_nat (length (encodeChunk (cnameChunk p))) = 4 * words /\
  appendSourceDescription bytes p =
    bytes ++ headerByte [] 1 :: 202 :: be16 words ++ concat (map encodeChunk [cnameChunk p]) ++ [].
Proof.
  intros Hn. unfold appendSourceDescription, appendU16, appendU32. cbv zeta.
  set (n := length (sr_cname p)) in *.
  set (content := be32 (sr_ssrc p) ++ encodeItems [mkItem 1 (sr_cname p)]).
  assert (Lc : length content = (6 + n)%nat) by (unfold content, encodeItems; cbn; rewrite length_app; cbn; lia).
  assert (Echunk : encodeChunk (cnameChunk p) = content ++ 0 :: replicate (wordGap (7 + n)) 0).
  { unfold encodeChunk. cbv zeta. cbn [ch_ssrc ch_items cnameChunk]. fold content. rewrite Lc.
    pose proof (Nat.mod_upper_bound (6 + n) 4). f_equal.
    replace (4 - (6 + n) mod 4)%nat with (S (wordGap (7 + n))); [done |].
    enough (3 - (6 + n) mod 4 = wordGap (7 + n))%nat by lia. apply wordGap_unique; [lia |].
    pose proof (Nat.div_mod_eq (6 + n) 4). replace (7 + n + _)%nat with (((6 + n) / 4 + 1) * 4)%nat by lia. apply Nat.Div0.mod_mul. }
  set (body := 0x81 :: 202 :: 0 :: 0 :: content ++ [0]).
  match goal with |- context [padToWord 4 (length bytes) ?raw] => replace raw with (bytes ++ body) end.
  2: { assert (Eu : u8 (Z.of_nat n) = Z.of_nat n) by (apply Z.mod_small; lia).
       fold n. rewrite Eu, <- !app_assoc. unfold body, content, encodeItems, encodeItem. cbn [map concat it_value it_type].
       rewrite app_nil_r, <- app_assoc. fold n. done. }
  assert (Lb : (length (bytes ++ body) - length bytes = 11 + n)%nat).
  { rewrite length_app. unfold body. cbn [length]. rewrite length_app, Lc. cbn. lia. }
  destruct (wordGap_spec (11 + n)) as [Hgap Hal]. rewrite padToWord_spec; [| rewrite length_app; lia | rewrite Lb; lia].
  rewrite Lb. set (g := wordGap (11 + n)) in *.
  replace (wordGap (7 + n)) with g in Echunk.
  2: { apply wordGap_unique; [done |]. rewrite <- (Nat.Div0.mod_add (7 + n + g) 1). by replace (7 + n + g + 1 * 4)%nat with (11 + n + g)%nat by lia. }
  assert (Lt : (length ((bytes ++ body) ++ replicate g 0%Z) - length bytes = 11 + n + g)%nat).
  { rewrite length_app, length_replicate. rewrite length_app in Lb |- *. lia. }
  rewrite Lt. pose proof (Nat.div_mod_eq (11 + n + g) 4) as Ediv. rewrite Hal in Ediv. set (w := ((11 + n + g) / 4)%nat) in *.
  exists (Z.of_nat w - 1). split; [lia |]. split.
  { rewrite Echunk, length_app, Lc. cbn [length]. rewrite length_replicate. lia. }
  unfold u16. rewrite (Z.mod_small (Z.of_nat w - 1)) by lia. cbn [map concat]. rewrite !app_nil_r, Echunk.
  rewrite <- app_assoc. rewrite !insert_app_r. unfold body, be16. cbn. by rewrite <- app_assoc.
Qed.

Lemma bye_bytes bytes ssrc : appendBye bytes ssrc = bytes ++ headerByte [] 1 :: 203 :: be16 1 ++ (concat (map be32 [ssrc]) ++ []) ++ [].
Proof. unfold appendBye, appendU16, appendU32. cbv zeta. rewrite <- !app_assoc. done. Qed.

(** [validate] in terms of characters. *)
Definition cnameOk (cname : list Z) : Prop :=
  (0 < length cname <= 255)%nat /\
  exists characters, Forall (fun c => permitted RejectControls c = true) characters /\ cname = encodeText characters.

Lemma validateCname_iff cname : validateCname cname = Success tt <-> cnameOk cname.
Proof.
  unfold cnameOk. rewrite <- utf8_valid_iff. unfold validateCname, validateNonControlText, validateWellFormed.
  case_bool_decide as Hn; cbn [orb].
  { split; [by intros ?%failure_not | intros [? _]; subst; cbn in *; lia]. }
  change (255 =? 0) with false. cbn [orb]. destruct (Z.ltb_spec 255 (Z.of_nat (length cname))); cbn [orb].
  { split; [by intros ?%failure_not | intros [? _]; lia]. }
  assert (0 < length cname)%nat by (destruct cname; [done | cbn; lia]).
  destruct (validUtf8 cname RejectControls); cbn [negb resultOk].
  - split; [split; [lia | done] | done].
  - split; [by intros ?%failure_not | by intros [_ ?]].
Qed.

Lemma request_validate_iff p : validate p = Success tt <-> sr_ssrc p <> 0 /\ cnameOk (sr_cname p).
Proof.
  unfold validate. rewrite <- validateCname_iff. destruct (Z.eqb_spec (sr_ssrc p) 0) as [E | E].
  { split; [by intros ?%failure_not | by intros []]. }
  destruct (validateCname (sr_cname p)) as [[] | e]; [done |]. split; [by intros [=] | by intros [_ [=]]].
Qed.

Lemma be16_bytes v : Forall (is_u 8) (be16 v).
Proof. unfold be16, u8, is_u. repeat constructor; apply Z.mod_pos_bound; lia. Qed.

Lemma be32_bytes v : Forall (is_u 8) (be32 v).
Proof. unfold be32, u8, is_u. repeat constructor; apply Z.mod_pos_bound; lia. Qed.

Lemma chunk_bytes p : (length (sr_cname p) <= 255)%nat -> Forall (is_u 8) (sr_cname p) -> Forall (is_u 8) (encodeChunk (cnameChunk p)).
Proof.
  intros Hl Hb. unfold encodeChunk. cbv zeta. apply Forall_app_2; [| apply Forall_replicate; unfold is_u; lia].
  apply Forall_app_2; [apply be32_bytes |]. unfold encodeItems, encodeItem. cbn [ch_items cnameChunk map concat it_type it_value].
  rewrite app_nil_r. repeat (apply Forall_cons_2; [unfold is_u; lia |]). done.
Qed.

Ltac byteList :=
  first [apply be16_bytes | apply be32_bytes | apply Forall_app_2 | apply Forall_cons_2 | apply Forall_nil_2].

(** The generator fails exactly where the parameters are invalid, and else
    writes the packets of the report. *)
Lemma serializeCompound_spec p bye : parametersTyped p ->
  match serializeCompound p bye with
  | Success d => (sr_ssrc p <> 0 /\ cnameOk (sr_cname p)) /\ Forall (is_u 8) d /\ compoundForm d (reportPackets p bye) /\
      (length d = 28 + (4 + length (encodeChunk (cnameChunk p))) + (if bye then 8 else 0))%nat
  | Failure _ => ~ (sr_ssrc p <> 0 /\ cnameOk (sr_cname p))
  end.
Proof.
  intros Hp. unfold serializeCompound. destruct (validate p) as [[] | e] eqn:Ev.
  2: { assert (Hno : ~ (sr_ssrc p <> 0 /\ cnameOk (sr_cname p))) by (rewrite <- request_validate_iff, Ev; done).
       unfold failure. by destruct (ErrorInfo_ok e). }
  pose proof Ev as Hv. apply request_validate_iff in Hv as [Hssrc [[Hpos Hlen] _]]. cbv zeta.
  rewrite senderReport_bytes by done. set (report := headerByte [] 0 :: _).
  destruct (description_bytes report p Hlen) as (words & Hwords & Elen & ->).
  set (description := headerByte [] 1 :: 202 :: _). rewrite bye_bytes. set (goodbye := headerByte [] 1 :: 203 :: _).
  assert (Hreport : packetForm report (mkRtcpPacket SenderReport 200 0 0 (Some (reportOf p)) None [] [] [])).
  { constructor; [| lia | done | by left | done]. apply body_sender; [| done]. destruct Hp as (? & _ & ? & ?).
    unfold reportOk, reportOf. cbn. split_and!; try done; apply Z.mod_pos_bound; lia. }
  assert (Hdescription : packetForm description (mkRtcpPacket SourceDescription 202 1 0 None None [cnameChunk p] [] [])).
  { constructor; [| lia | done | by left |].
    - apply body_description; [done |]. constructor; [| done]. split; [apply Hp |]. constructor; [| done].
      unfold itemOk. cbn [it_type it_value]. lia.
    - rewrite app_nil_r. cbn [map concat]. by rewrite app_nil_r. }
  assert (Hgoodbye : packetForm goodbye (mkRtcpPacket Bye 203 1 0 None None [] [sr_ssrc p] [])).
  { constructor; [| lia | done | by left | done]. apply body_bye; [done | | constructor]. constructor; [apply Hp | done]. }
  assert (Lr : length report = 28%nat) by done. assert (Lg : length goodbye = 8%nat) by done.
  assert (Ld : length description = (4 + length (encodeChunk (cnameChunk p)))%nat).
  { unfold description. cbn [length app be16 map concat]. by rewrite !app_nil_r. }
  assert (Br : Forall (is_u 8) report).
  { unfold report, encodeReport. by repeat byteList. }
  assert (Bg : Forall (is_u 8) goodbye).
  { unfold goodbye. cbn [map concat]. by repeat byteList. }
  assert (Bd : Forall (is_u 8) description).
  { unfold description. cbn [map concat]. rewrite !app_nil_r. do 2 (apply Forall_cons_2; [done |]).
    apply Forall_app_2; [apply be16_bytes | apply chunk_bytes; [done | apply Hp]]. }
  pose proof (encodeChunk_length (cnameChunk p)) as Hal. clearbody report description goodbye.
  destruct (Nat.eqb_spec (length (if bye then (report ++ description) ++ goodbye else report ++ description) mod 4) 0) as [_ | Hbad]; cbn [negb].
  - split; [by apply request_validate_iff |]. split_and!.
    + destruct bye; repeat apply Forall_app_2; done.
    + unfold reportPackets. destruct bye; cbn [app]; [rewrite <- app_assoc |].
      * repeat (constructor; [done | by right |]). rewrite <- (app_nil_r goodbye). repeat (constructor; [done | by right |]). constructor.
      * constructor; [done | by right |]. rewrite <- (app_nil_r description). constructor; [done | by right | constructor].
    + destruct bye; rewrite !length_app; lia.
  - destruct Hbad. replace (length _) with (length (encodeChunk (cnameChunk p)) + (if bye then 10 else 8) * 4)%nat.
    + by rewrite Nat.Div0.mod_add.
    + destruct bye; rewrite !length_app; lia.
Qed.

(** C19: What the report generator writes, with or without the BYE, the strict
    parser reads back: the sender report with the planned SSRC, timestamps and
    counters (their low 32 bits), the description with the CNAME, and the BYE of
    the source.  It writes nothing only for a zero SSRC or a CNAME that is not
    1 to 255 octets of UTF-8 without controls. *)
Theorem rtcp_report_roundtrip p bye : parametersTyped p ->
  match serializeCompound p bye with
  | Success d => parse d (mkPolicy StrictCompoundRfc3550 true) = Success (reportPackets p bye)
  | Failure _ => sr_ssrc p = 0 \/ ~ cnameOk (sr_cname p)
  end.
Proof.
  intros Hp. pose proof (serializeCompound_spec p bye Hp) as H. destruct (serializeCompound p bye) as [d | e].
  - destruct H as ((Hssrc & [Hlen _]) & Hbytes & Hform & _). apply rtcp_accepts; [done |]. split; [done |].
    split; [by left |]. intros _. exists (mkRtcpPacket SourceDescription 202 1 0 None None [cnameChunk p] [] []), (cnameChunk p),
      (mkItem 1 (sr_cname p)). split_and!; [| by left.. | done | done |].
    + apply list_elem_of_In. destruct bye; cbn; auto.
    + cbn. intros E. rewrite E in Hlen. cbn in Hlen. lia.
  - destruct (decide (sr_ssrc p = 0)); [by left | right; tauto].
Qed.


(** ** The planned size *)

Lemma compoundPayloadBytes_spec n : (n <= 255)%nat ->
  compoundPayloadBytes (Z.of_nat n) = Success (28 + 4 * ((Z.of_nat n + 13) / 4)).
Proof.
  intros Hn. pose proof (forallb_below (fun z => match compoundPayloadBytes z with
    | Success v => v =? 28 + 4 * ((z + 13) / 4) | Failure _ => false end) 256 (Z.of_nat n)) as H.
  specialize (H ltac:(by vm_compute) ltac:(lia)). cbv beta in H.
  destruct (compoundPayloadBytes _); [| done]. by apply Z.eqb_eq in H as ->.
Qed.

(** The size reserved for a report is the size of what is written, except for
    the CNAMEs whose length leaves remainder 2 by 4: there it is one word short,
    since the null octet that ends the items is not counted. *)
Theorem rtcp_geometry p d : parametersTyped p -> serialize p = Success d ->
  compoundPayloadBytes (Z.of_nat (length (sr_cname p))) =
  Success (Z.of_nat (length d) - (if (length (sr_cname p) mod 4 =? 2)%nat then 4 else 0)).
Proof.
  intros Hp E. pose proof (serializeCompound_spec p false Hp) as H. unfold serialize in E. rewrite E in H.
  destruct H as ((_ & [Hn _]) & _ & _ & ->). rewrite compoundPayloadBytes_spec by lia. f_equal.
  unfold encodeChunk. cbv zeta. rewrite length_app, length_replicate. cbn [ch_ssrc ch_items cnameChunk].
  unfold encodeItems, encodeItem. cbn [map concat it_type it_value]. rewrite app_nil_r, length_app, be32_length. cbn [length].
  set (n := length (sr_cname p)) in *. clearbody n.
  assert (exists q r, (r < 4)%nat /\ n = (r + q * 4)%nat) as (q & r & Hr & ->).
  { exists (n / 4)%nat, (n mod 4)%nat. pose proof (Nat.div_mod_eq n 4). pose proof (Nat.mod_upper_bound n 4). lia. }
  replace (4 + S (S (r + q * 4)))%nat with (2 + r + (1 + q) * 4)%nat by lia. rewrite !Nat.Div0.mod_add.
  rewrite (Nat.mod_small r 4) by done. destruct r as [| [| [| [| r]]]]; [.. | lia]; cbn [Nat.eqb];
    match goal with |- context [(?a mod 4)%nat] => let v := eval vm_compute in (a mod 4)%nat in change (a mod 4)%nat with v end;
    divmod.
Qed.

(** ** Examples *)

Definition sampleParameters : MediaRtcpSenderReportParameters :=
  mkParameters 0xCAFE0001 [0x61; 0x40; 0xC3; 0xA9]
    (mkTimestamp 5 (CanonicalTime.MediaSharedNtpEpoch.mkNtp 3900000000 7) (MediaRtpOutputClockMapper.mkRtpTimestamp 4294967396 100))
    4294967297 17.

Lemma sample_typed : parametersTyped sampleParameters.
Proof. split_and!; [done | | done | done]. repeat constructor; done. Qed.

Definition sampleReport : list Z :=
  [0x80; 200; 0; 6; 0xCA; 0xFE; 0; 1; 232; 117; 71; 0; 0; 0; 0; 7; 0; 0; 0; 100; 0; 0; 0; 1; 0; 0; 0; 17;
   0x81; 202; 0; 3; 0xCA; 0xFE; 0; 1; 1; 4; 0x61; 0x40; 0xC3; 0xA9; 0; 0].

Example sample_written : serialize sampleParameters = Success sampleReport.
Proof. vm_compute. reflexivity. Qed.

Lemma rtcp_report_roundtrip_witness :
  match serializeCompound sampleParameters true with
  | Success d => parse d (mkPolicy StrictCompoundRfc3550 true) = Success (reportPackets sampleParameters true)
  | Failure _ => sr_ssrc sampleParameters = 0 \/ ~ cnameOk (sr_cname sampleParameters)
  end.
Proof. apply (rtcp_report_roundtrip sampleParameters true sample_typed). Defined.

Lemma rtcp_geometry_witness :
  compoundPayloadBytes 4 = Success (Z.of_nat (length sampleReport) - 0).
Proof. apply (rtcp_geometry sampleParameters sampleReport sample_typed sample_written). Defined.

Lemma rtcp_parse_iff_witness :
  parse sampleReport (mkPolicy ReducedSizeRfc5506 false) = Success (reportPackets sampleParameters false) /\
  compoundForm sampleReport (reportPackets sampleParameters false) /\
  accepted (mkPolicy ReducedSizeRfc5506 false) (reportPackets sampleParameters false).
Proof.
  assert (H : parse sampleReport (mkPolicy ReducedSizeRfc5506 false) = Success (reportPackets sampleParameters false))
    by (vm_compute; reflexivity).
  split; [exact H |].
  apply (rtcp_parse_iff sampleReport (mkPolicy ReducedSizeRfc5506 false) (reportPackets sampleParameters false)); [| exact H].
  unfold sampleReport. repeat (constructor; [split; [discriminate | reflexivity] |]). constructor.
Defined.

End MediaRtcpRoundTrip.
