(* ===== verification/RtcpTracker.v ===== *)
(** * Clock evidence from sender reports

    Models [protocol/rtp/MediaRtcpClockEvidence.h] and
    [MediaRtcpSenderReportTracker.{h,cpp}]: the tracker collects the sender
    reports and CNAMEs of the media source it observes, and hands out evidence
    for the clock estimator.

    Every method is a function on the record of the members.  Times are the
    nanoseconds of the caller's clock, and the generation counter has 64 bits. *)

From S2P Require Import Prelude MediaResult Rtcp.
Import MediaRtcpCompoundParser.

Local Open Scope Z_scope.

Module MediaRtcpSenderReportTracker.

Record MediaRtcpClockEvidence := mkEvidence {
  ev_observedMediaSsrc : Z;
  ev_senderReportSsrc : Z;
  ev_cnameSsrc : Z;
  ev_ntp : MediaRtcpNtpTimestamp;
  ev_rtpTimestamp : Z;
  ev_cname : list Z;
  ev_senderReportObservedAtNs : Z;
  ev_cnameObservedAtNs : Z;
  ev_generation : Z;
}.

Record MediaRtcpSenderReportTrackerConfig := mkConfig {
  tc_requireSenderReports : bool;
  tc_requireCname : bool;
  tc_senderReportTimeoutNs : Z;
  tc_cnameTimeoutNs : Z;
}.

Record PendingRtcpSource := mkPending {
  ps_senderReport : MediaRtcpSenderReport;
  ps_cname : list Z;
  ps_observedAtNs : Z;
}.

Record Tracker := mkTracker {
  tk_config : MediaRtcpSenderReportTrackerConfig;
  tk_mediaSsrc : option Z;
  tk_pendingSource : option PendingRtcpSource;
  tk_senderReport : option MediaRtcpSenderReport;
  tk_lastAcceptedNtp : option MediaRtcpNtpTimestamp;
  tk_cname : list Z;
  tk_senderReportObservedAtNs : Z;
  tk_cnameObservedAtNs : Z;
  tk_generation : Z;
  tk_evidenceUpdatePending : bool;
}.

Definition ntpLess (left right : MediaRtcpNtpTimestamp) : bool :=
  (rn_seconds left <? rn_seconds right) ||
  ((rn_seconds left =? rn_seconds right) && (rn_fraction left <? rn_fraction right)).

Definition invalidEvidence (message : string) : Status := failure (invalidArgument message).

Definition createTracker (config : MediaRtcpSenderReportTrackerConfig) : Tracker :=
  mkTracker config None None None None [] 0 0 0 false.

Definition invalidate (t : Tracker) : Tracker :=
  mkTracker (tk_config t) None None None None [] 0 0 (u64 (tk_generation t + 1)) false.

Definition observeContinuityLoss (t : Tracker) : Tracker := invalidate t.

Definition reset (t : Tracker) : Tracker := invalidate t.

Definition withMedia (ssrc : Z) (t : Tracker) : Tracker :=
  mkTracker (tk_config t) (Some ssrc) (tk_pendingSource t) (tk_senderReport t) (tk_lastAcceptedNtp t) (tk_cname t)
    (tk_senderReportObservedAtNs t) (tk_cnameObservedAtNs t) (tk_generation t) (tk_evidenceUpdatePending t).

Definition withPending (pending : option PendingRtcpSource) (t : Tracker) : Tracker :=
  mkTracker (tk_config t) (tk_mediaSsrc t) pending (tk_senderReport t) (tk_lastAcceptedNtp t) (tk_cname t)
    (tk_senderReportObservedAtNs t) (tk_cnameObservedAtNs t) (tk_generation t) (tk_evidenceUpdatePending t).

Definition observeMedia (ssrc observedAtNs : Z) (t : Tracker) : Tracker :=
  let t :=
    match tk_mediaSsrc t with
    | Some mediaSsrc => if negb (mediaSsrc =? ssrc) then invalidate t else t
    | None => t
    end in
  let t := withMedia ssrc t in
  match tk_pendingSource t with
  | None => t
  | Some pending =>
      if negb (rr_ssrc (ps_senderReport pending) =? ssrc) then withPending None t
      else
        mkTracker (tk_config t) (tk_mediaSsrc t) None (Some (ps_senderReport pending))
          (Some (rr_ntp (ps_senderReport pending))) (ps_cname pending) (ps_observedAtNs pending) (ps_observedAtNs pending)
          (tk_generation t)
          (if ps_observedAtNs pending <=? observedAtNs then true else tk_evidenceUpdatePending t)
  end.

(** The first CNAME item of a chunk ([std::find_if]). *)
Definition cnameItem (chunk : MediaRtcpSdesChunk) : option MediaRtcpSdesItem :=
  findFirst (fun item => it_type item =? 1) (ch_items chunk).

(** The first sender report of the packets. *)
Definition firstReport (packets : list MediaRtcpPacket) : option MediaRtcpSenderReport :=
  match findFirst (fun packet => bool_decide (rp_kind packet = SenderReport) && bool_decide (is_Some (rp_senderReport packet)))
          packets with
  | Some packet => rp_senderReport packet
  | None => None
  end.

(** The loops that look for the CNAME of the report's source; [Failure] is the
    empty one, found before any other. *)
Fixpoint chunksCname (ssrc : Z) (chunks : list MediaRtcpSdesChunk) : Result (option (list Z)) :=
  match chunks with
  | [] => Success None
  | chunk :: chunks =>
      if negb (ch_ssrc chunk =? ssrc) then chunksCname ssrc chunks
      else
        match cnameItem chunk with
        | None => chunksCname ssrc chunks
        | Some item =>
            if bool_decide (it_value item = []) then failure (invalidArgument "RTCP CNAME must not be empty")
            else Success (Some (it_value item))
        end
  end.

Fixpoint packetsCname (ssrc : Z) (packets : list MediaRtcpPacket) : Result (option (list Z)) :=
  match packets with
  | [] => Success None
  | packet :: packets =>
      if negb (bool_decide (rp_kind packet = SourceDescription)) then packetsCname ssrc packets
      else
        match chunksCname ssrc (rp_sdesChunks packet) with
        | Failure e => Failure e
        | Success (Some cname) => Success (Some cname)
        | Success None => packetsCname ssrc packets
        end
  end.

Definition observePendingSource (packets : list MediaRtcpPacket) (observedAtNs : Z) (t : Tracker) : Status * Tracker :=
  match firstReport packets with
  | None => (Success tt, t)
  | Some report =>
      match packetsCname (rr_ssrc report) packets with
      | Failure e => (Failure e, invalidate t)
      | Success cname =>
          if bool_decide (cname = None) && tc_requireCname (tk_config t) then (Success tt, t)
          else
            let samePending :=
              match tk_pendingSource t with
              | Some pending => if rr_ssrc (ps_senderReport pending) =? rr_ssrc report then Some (ps_senderReport pending) else None
              | None => None
              end in
            let regressed := match samePending with Some p => ntpLess (rr_ntp report) (rr_ntp p) | None => false end in
            let changed :=
              match samePending with
              | Some p => bool_decide (rr_ntp p = rr_ntp report) && negb (rr_rtpTimestamp p =? rr_rtpTimestamp report)
              | None => false
              end in
            if regressed
            then (invalidEvidence "Pending RTCP sender report NTP timestamp regressed", invalidate t)
            else if changed
            then (invalidEvidence "Pending RTCP sender report changed RTP timestamp at the same NTP instant", invalidate t)
            else (Success tt, withPending (Some (mkPending report (default [] cname) observedAtNs)) t)
      end
  end.

Definition observeSenderReport (report : MediaRtcpSenderReport) (observedAtNs : Z) (t : Tracker) : Status * Tracker :=
  let foreign := match tk_mediaSsrc t with Some mediaSsrc => negb (rr_ssrc report =? mediaSsrc) | None => false end in
  let regressed := match tk_lastAcceptedNtp t with Some last => ntpLess (rr_ntp report) last | None => false end in
  let changed :=
    match tk_senderReport t with
    | Some last => (rr_ssrc last =? rr_ssrc report) && bool_decide (rr_ntp last = rr_ntp report) &&
                   negb (rr_rtpTimestamp last =? rr_rtpTimestamp report)
    | None => false
    end in
  if foreign then (Success tt, t)
  else if regressed then (invalidEvidence "RTCP sender report NTP timestamp regressed", invalidate t)
  else if changed
  then (invalidEvidence "RTCP sender report changed RTP timestamp at the same NTP instant", invalidate t)
  else
    (Success tt,
     mkTracker (tk_config t) (tk_mediaSsrc t) (tk_pendingSource t) (Some report) (Some (rr_ntp report)) (tk_cname t)
       observedAtNs (if negb (tc_requireCname (tk_config t)) then observedAtNs else tk_cnameObservedAtNs t)
       (tk_generation t) true).

Definition observeSdes (chunk : MediaRtcpSdesChunk) (observedAtNs : Z) (t : Tracker) : Status * Tracker :=
  match cnameItem chunk with
  | None => (Success tt, t)
  | Some cname =>
      if negb (bool_decide (tk_mediaSsrc t = Some (ch_ssrc chunk))) then (Success tt, t)
      else if bool_decide (it_value cname = []) then (invalidEvidence "RTCP CNAME must not be empty", invalidate t)
      else if negb (bool_decide (tk_cname t = [])) && negb (bool_decide (tk_cname t = it_value cname))
      then (invalidEvidence "RTCP CNAME changed for active source", invalidate t)
      else
        (Success tt,
         mkTracker (tk_config t) (tk_mediaSsrc t) (tk_pendingSource t) (tk_senderReport t) (tk_lastAcceptedNtp t)
           (it_value cname) (tk_senderReportObservedAtNs t) observedAtNs (tk_generation t) true)
  end.

(** A [for] loop whose body returns the first failure. *)
Fixpoint statusLoop {A St} (f : A -> St -> Status * St) (l : list A) (s : St) : Status * St :=
  match l with
  | [] => (Success tt, s)
  | x :: l =>
      match f x s with
      | (Success _, s) => statusLoop f l s
      | (Failure e, s) => (Failure e, s)
      end
  end.

Definition observePacket (observedAtNs : Z) (packet : MediaRtcpPacket) (t : Tracker) : Status * Tracker :=
  match rp_kind packet, rp_senderReport packet with
  | SenderReport, Some report => observeSenderReport report observedAtNs t
  | SourceDescription, _ => statusLoop (fun chunk => observeSdes chunk observedAtNs) (rp_sdesChunks packet) t
  | Bye, _ =>
      match tk_mediaSsrc t with
      | Some mediaSsrc =>
          if bool_decide (mediaSsrc ∈ rp_byeSources packet)
          then (failure (cancelled "RTCP BYE ended active source"), invalidate t)
          else (Success tt, t)
      | None => (Success tt, t)
      end
  | _, _ => (Success tt, t)
  end.

Definition observe (packets : list MediaRtcpPacket) (observedAtNs : Z) (t : Tracker) : Status * Tracker :=
  match tk_mediaSsrc t with
  | None => observePendingSource packets observedAtNs t
  | Some _ => statusLoop (observePacket observedAtNs) packets t
  end.

Definition evidence (observedAtNs : Z) (t : Tracker) : Result MediaRtcpClockEvidence :=
  let missing message := failure (notInitialized message) in
  if (tc_senderReportTimeoutNs (tk_config t) <=? 0) || (tc_cnameTimeoutNs (tk_config t) <=? 0)
  then failure (invalidArgument "RTCP evidence timeouts must be positive")
  else
    match tk_mediaSsrc t with
    | None => missing "RTP media SSRC has not been observed"%string
    | Some mediaSsrc =>
        let unmatched := match tk_senderReport t with Some sr => negb (rr_ssrc sr =? mediaSsrc) | None => true end in
        if tc_requireSenderReports (tk_config t) && unmatched
        then missing "Matching RTCP sender report is unavailable"%string
        else if tc_requireSenderReports (tk_config t) &&
                ((observedAtNs <? tk_senderReportObservedAtNs t) ||
                 (tc_senderReportTimeoutNs (tk_config t) <? observedAtNs - tk_senderReportObservedAtNs t))
        then missing "RTCP sender report has expired"%string
        else if tc_requireCname (tk_config t) && bool_decide (tk_cname t = [])
        then missing "Matching RTCP CNAME is unavailable"%string
        else if tc_requireCname (tk_config t) &&
                ((observedAtNs <? tk_cnameObservedAtNs t) ||
                 (tc_cnameTimeoutNs (tk_config t) <? observedAtNs - tk_cnameObservedAtNs t))
        then missing "RTCP CNAME has expired"%string
        else
          match tk_senderReport t with
          | None => missing "Clock evidence requires an RTCP sender report"%string
          | Some sr =>
              Success (mkEvidence mediaSsrc (rr_ssrc sr) mediaSsrc (rr_ntp sr) (rr_rtpTimestamp sr) (tk_cname t)
                         (tk_senderReportObservedAtNs t) (tk_cnameObservedAtNs t) (tk_generation t))
          end
    end.

Definition takeEvidenceUpdate (observedAtNs : Z) (t : Tracker) : Result (option MediaRtcpClockEvidence) * Tracker :=
  if negb (tk_evidenceUpdatePending t) then (Success None, t)
  else
    match evidence observedAtNs t with
    | Failure e => (if bool_decide (errCode e = ErrNotInitialized) then Success None else failure e, t)
    | Success current =>
        (Success (Some current),
         mkTracker (tk_config t) (tk_mediaSsrc t) (tk_pendingSource t) (tk_senderReport t) (tk_lastAcceptedNtp t)
           (tk_cname t) (tk_senderReportObservedAtNs t) (tk_cnameObservedAtNs t) (tk_generation t) false)
    end.

(** ** Consistency of the evidence within a generation *)

Lemma ntpLess_spec l r : ntpLess l r = true <->
  rn_seconds l < rn_seconds r \/ (rn_seconds l = rn_seconds r /\ rn_fraction l < rn_fraction r).
Proof. unfold ntpLess. rewrite orb_true_iff, andb_true_iff, !Z.ltb_lt, Z.eqb_eq. done. Qed.

Lemma ntp_eta n : n = mkRtcpNtp (rn_seconds n) (rn_fraction n).
Proof. by destruct n. Qed.

(** A later report of the same source. *)
Definition reportFollows (r r' : MediaRtcpSenderReport) : Prop :=
  rr_ssrc r' = rr_ssrc r /\ ntpLess (rr_ntp r') (rr_ntp r) = false /\
  (rr_ntp r' = rr_ntp r -> rr_rtpTimestamp r' = rr_rtpTimestamp r).

#[export] Instance reportFollows_preorder : PreOrder reportFollows.
Proof.
  split.
  - intros r. split_and!; [done | | done]. apply not_true_iff_false. rewrite ntpLess_spec. lia.
  - intros r1 r2 r3 (E1 & L1 & R1) (E2 & L2 & R2). apply not_true_iff_false in L1, L2. rewrite ntpLess_spec in L1, L2.
    split_and!; [congruence | apply not_true_iff_false; rewrite ntpLess_spec; lia |]. intros E.
    assert (E' : rr_ntp r2 = rr_ntp r1).
    { rewrite E in L2. rewrite (ntp_eta (rr_ntp r2)), (ntp_eta (rr_ntp r1)). f_equal; lia. }
    rewrite R2, R1 by congruence. done.
Qed.

(** What stays while the generation does. *)
Record follows (t t' : Tracker) : Prop := {
  fl_media : forall ssrc, tk_mediaSsrc t = Some ssrc -> tk_mediaSsrc t' = Some ssrc;
  fl_report : forall r, tk_senderReport t = Some r -> exists r', tk_senderReport t' = Some r' /\ reportFollows r r';
  fl_cname : tk_cname t <> [] -> tk_cname t' = tk_cname t;
}.

#[export] Instance follows_preorder : PreOrder follows.
Proof.
  split.
  - intros t. split; [done | | done]. intros r Hr. exists r. by split.
  - intros t1 t2 t3 [M1 R1 C1] [M2 R2 C2]. split; [by auto | |].
    + intros r (r' & Hr' & F)%R1. apply R2 in Hr' as (r'' & ? & ?). exists r''. split; [done | by etransitivity].
    + intros H. rewrite <- C1 by done. apply C2. by rewrite C1.
Qed.

(** Invariant of the tracker. *)
Record trackerOk (t : Tracker) : Prop := {
  ok_unobserved : tk_mediaSsrc t = None -> tk_senderReport t = None /\ tk_cname t = [];
  ok_report : forall r, tk_senderReport t = Some r -> tk_mediaSsrc t = Some (rr_ssrc r);
  ok_lastNtp : tk_lastAcceptedNtp t = rr_ntp <$> tk_senderReport t;
  ok_generation : is_u 64 (tk_generation t);
  ok_pending : is_Some (tk_pendingSource t) -> tk_mediaSsrc t = None;
}.

(** A call either keeps the generation and follows, or starts the next one. *)
Definition stepOk (t t' : Tracker) : Prop :=
  trackerOk t' /\ tk_config t' = tk_config t /\
  ((tk_generation t' = tk_generation t /\ follows t t') \/ tk_generation t' = u64 (tk_generation t + 1)).

Lemma invalidate_ok t : trackerOk t -> stepOk t (invalidate t).
Proof.
  intros Hok. split_and!; [| done | by right]. split; cbn; [done.. | | by intros []]. unfold u64, is_u. apply Z.mod_pos_bound. lia.
Qed.

Lemma same_ok t : trackerOk t -> stepOk t t.
Proof. intros. split_and!; [done | done |]. by left. Qed.

(** A call that reports a status: where it succeeds it stays in the generation. *)
Definition callOk (t : Tracker) (r : Status * Tracker) : Prop :=
  stepOk t r.2 /\ (resultOk r.1 = true -> tk_generation r.2 = tk_generation t /\ follows t r.2).

Lemma invalidated_ok t e : trackerOk t -> callOk t (failure e, invalidate t).
Proof. intros. split; [by apply invalidate_ok |]. cbn. unfold failure. by destruct (ErrorInfo_ok e). Qed.

Lemma kept_ok t t' r : trackerOk t' -> tk_config t' = tk_config t -> tk_generation t' = tk_generation t -> follows t t' ->
  callOk t (r, t').
Proof. intros. split; [split_and!; [done | done | by left] | done]. Qed.

Lemma tracker_unchanged_ok t r : trackerOk t -> callOk t (r, t).
Proof. intros. by apply kept_ok. Qed.

Lemma observeSenderReport_ok report observedAtNs t : trackerOk t -> is_Some (tk_mediaSsrc t) ->
  callOk t (observeSenderReport report observedAtNs t).
Proof.
  intros Hok [media Em]. unfold observeSenderReport. rewrite Em.
  destruct (Z.eqb_spec (rr_ssrc report) media) as [E | E]; cbn [negb]; [| by apply tracker_unchanged_ok].
  destruct (match tk_lastAcceptedNtp t with Some _ => _ | None => _ end) eqn:Er; [by apply invalidated_ok |].
  destruct (match tk_senderReport t with Some _ => _ | None => _ end) eqn:Ec; [by apply invalidated_ok |].
  destruct Hok as [H1 H2 H3 H4 H5]. apply kept_ok; [| done | done |].
  - split; cbn; [done | by intros r [= <-]; rewrite E | done | done | by rewrite <- Em].
  - split; cbn; [by rewrite Em | | done]. intros r Hr. exists report. split; [done |].
    rewrite H3, Hr in Er. cbn in Er. rewrite Hr in Ec. pose proof (H2 _ Hr) as Hm. rewrite Em in Hm. injection Hm as ->.
    split_and!; [done | done |]. intros En. rewrite E, Z.eqb_refl, bool_decide_eq_true_2 in Ec by done. cbn in Ec.
    apply negb_false_iff, Z.eqb_eq in Ec. done.
Qed.

Lemma observeSdes_ok chunk observedAtNs t : trackerOk t -> callOk t (observeSdes chunk observedAtNs t).
Proof.
  intros Hok. unfold observeSdes. destruct (cnameItem chunk) as [item |]; [| by apply tracker_unchanged_ok].
  case_bool_decide as Em; cbn [negb]; [| by apply tracker_unchanged_ok].
  case_bool_decide; [by apply invalidated_ok |].
  destruct (_ && _) eqn:Ec; [by apply invalidated_ok |]. destruct Hok as [H1 H2 H3 H4 H5]. apply kept_ok; [| done | done |].
  - split; cbn; [by rewrite Em | done..].
  - split; cbn; [done | by intros r Hr; exists r |]. intros Hne. rewrite bool_decide_eq_false_2 in Ec by done. cbn in Ec.
    apply negb_false_iff, bool_decide_eq_true in Ec. done.
Qed.

Lemma followed_media t t' : follows t t' -> is_Some (tk_mediaSsrc t) -> is_Some (tk_mediaSsrc t').
Proof. intros [M _ _] [m Hm]. exists m. by apply M. Qed.

Lemma statusLoop_ok {A} (f : A -> Tracker -> Status * Tracker) l t :
  (forall x t, trackerOk t -> is_Some (tk_mediaSsrc t) -> callOk t (f x t)) ->
  trackerOk t -> is_Some (tk_mediaSsrc t) -> callOk t (statusLoop f l t).
Proof.
  intros Hf. revert t. induction l as [| x l IH]; intros t Hok Hm; cbn [statusLoop]; [by apply tracker_unchanged_ok |].
  pose proof (Hf x t Hok Hm) as [Hs Hsucc]. destruct (f x t) as [[u | e] t1]; cbn in *.
  - destruct (Hsucc eq_refl) as [Eg Hfl]. destruct Hs as (Hok1 & Econf & _).
    destruct (IH t1 Hok1 (followed_media _ _ Hfl Hm)) as [(Hok2 & Econf2 & Hg) Hs2]. split.
    + split_and!; [done | congruence |]. rewrite <- Eg. destruct Hg as [[? ?] | ?]; [left; split; [done | by etransitivity] | by right].
    + intros [? ?]%Hs2. split; [congruence | by etransitivity].
  - by split.
Qed.

Lemma observePacket_ok observedAtNs packet t : trackerOk t -> is_Some (tk_mediaSsrc t) ->
  callOk t (observePacket observedAtNs packet t).
Proof.
  intros Hok Hm. unfold observePacket. destruct (rp_kind packet).
  - destruct (rp_senderReport packet); [by apply observeSenderReport_ok | by apply tracker_unchanged_ok].
  - by apply tracker_unchanged_ok.
  - assert (callOk t (statusLoop (fun chunk => observeSdes chunk observedAtNs) (rp_sdesChunks packet) t)).
    { apply statusLoop_ok; [| done | done]. intros. by apply observeSdes_ok. }
    by destruct (rp_senderReport packet).
  - destruct Hm as [m ->]. case_bool_decide; destruct (rp_senderReport packet);
      first [by apply invalidated_ok | by apply tracker_unchanged_ok].
  - by apply tracker_unchanged_ok.
Qed.

Lemma observePendingSource_ok packets observedAtNs t : trackerOk t -> tk_mediaSsrc t = None ->
  callOk t (observePendingSource packets observedAtNs t).
Proof.
  intros Hok Hm. unfold observePendingSource. destruct (firstReport packets); [| by apply tracker_unchanged_ok].
  destruct (packetsCname _ packets) as [cname | e] eqn:Ee.
  2: { split; [by apply invalidate_ok | done]. }
  destruct (_ && _); [by apply tracker_unchanged_ok |]. cbv zeta.
  destruct (match _ with Some p => ntpLess _ _ | None => _ end); [by apply invalidated_ok |].
  destruct (match _ with Some p => _ && _ | None => _ end); [by apply invalidated_ok |].
  destruct Hok as [H1 H2 H3 H4 H5]. apply kept_ok; [by split | done | done |]. split; cbn; [done | by intros r Hr; exists r | done].
Qed.

Lemma tracker_observe_ok packets observedAtNs t : trackerOk t -> callOk t (observe packets observedAtNs t).
Proof.
  intros Hok. unfold observe. destruct (tk_mediaSsrc t) as [m |] eqn:Em; [| by apply observePendingSource_ok].
  apply statusLoop_ok; [| done | by rewrite Em]. intros. by apply observePacket_ok.
Qed.

Lemma observeMedia_ok ssrc observedAtNs t : trackerOk t -> stepOk t (observeMedia ssrc observedAtNs t).
Proof.
  intros Hok. pose proof (invalidate_ok t Hok) as [Hinv _]. unfold observeMedia.
  destruct (tk_mediaSsrc t) as [m |] eqn:Em; [destruct (Z.eqb_spec m ssrc) as [-> | Hne]; cbn [negb] |].
  - assert (Ep : tk_pendingSource t = None).
    { destruct (tk_pendingSource t) as [p |] eqn:Ep; [| done]. pose proof (ok_pending _ Hok) as H. rewrite Ep, Em in H.
      discriminate (H (mk_is_Some _ _ eq_refl)). }
    cbn. rewrite Ep. destruct Hok as [H1 H2 H3 H4 H5]. split_and!; [| done | left; split; [done |]].
    + split; cbn; [done | by rewrite Em in H2 | done | done | by rewrite Ep; intros []].
    + split; cbn; [by rewrite Em | by intros r Hr; exists r | done].
  - cbn. split_and!; [| done | by right]. destruct Hinv as [H1 H2 H3 H4 H5]. split; cbn; [done.. | by intros []].
  - destruct Hok as [H1 H2 H3 H4 H5]. destruct (H1 Em) as [Er Ec]. cbn.
    destruct (tk_pendingSource t) as [p |] eqn:Ep; [destruct (Z.eqb_spec (rr_ssrc (ps_senderReport p)) ssrc) as [E | E]; cbn |].
    all: split_and!; [| done | left; split; [done |]].
    all: split; cbn; rewrite ?Em, ?Er, ?Ec, ?Ep, ?H3, ?Er; try done.
    all: first [by intros [] | intros r [= <-]; by rewrite E].
Qed.

Inductive TrackerCall :=
  | Call_Media (ssrc observedAtNs : Z)
  | Call_Packets (packets : list MediaRtcpPacket) (observedAtNs : Z)
  | Call_TakeUpdate (observedAtNs : Z)
  | Call_ContinuityLoss
  | Call_Reset.

Definition call (t : Tracker) (c : TrackerCall) : Tracker :=
  match c with
  | Call_Media ssrc observedAtNs => observeMedia ssrc observedAtNs t
  | Call_Packets packets observedAtNs => (observe packets observedAtNs t).2
  | Call_TakeUpdate observedAtNs => (takeEvidenceUpdate observedAtNs t).2
  | Call_ContinuityLoss => observeContinuityLoss t
  | Call_Reset => reset t
  end.

Definition run (calls : list TrackerCall) (t : Tracker) : Tracker := fold_left call calls t.

Lemma tracker_call_ok t c : trackerOk t -> stepOk t (call t c).
Proof.
  intros Hok. destruct c as [ssrc at_ | packets at_ | at_ | |]; cbn [call]; [by apply observeMedia_ok | by apply tracker_observe_ok | |
    by apply invalidate_ok..].
  unfold takeEvidenceUpdate. destruct (negb _); [by apply same_ok |].
  destruct (evidence at_ t); [| by apply same_ok]. destruct Hok as [H1 H2 H3 H4 H5].
  split_and!; [by split | done | left; split; [done |]]. split; cbn; [done | by intros r Hr; exists r | done].
Qed.

Lemma tracker_run_ok calls t : trackerOk t ->
  trackerOk (run calls t) /\ tk_config (run calls t) = tk_config t /\
  exists k, (k <= length calls)%nat /\ tk_generation (run calls t) = u64 (tk_generation t + Z.of_nat k) /\
    (k = 0%nat -> follows t (run calls t)).
Proof.
  revert t. induction calls as [| c calls IH]; intros t Hok; cbn [run fold_left].
  { split_and!; [done | done |]. exists 0%nat. split_and!; [done | | done]. pose proof (ok_generation _ Hok).
    unfold u64. by rewrite Z.add_0_r, Z.mod_small. }
  destruct (tracker_call_ok t c Hok) as (Hok1 & Ec1 & Hstep). destruct (IH (call t c) Hok1) as (Hok2 & Ec2 & k & Hk & Eg & Hf).
  split_and!; [done | by etransitivity |]. destruct Hstep as [[Eg1 Hf1] | Eg1].
  - exists k. rewrite Eg1 in Eg. split_and!; [cbn; lia | done |]. intros ->. etransitivity; [done | by apply Hf].
  - exists (S k). split_and!; [cbn; lia | | done]. fold (run calls (call t c)). rewrite Eg, Eg1. unfold u64.
    rewrite Zplus_mod_idemp_l. f_equal. lia.
Qed.

Lemma tracker_create_ok config : trackerOk (createTracker config).
Proof. split; cbn; [done.. | | by intros []]. unfold is_u. lia. Qed.

(** Evidence is coherent: one source, and as fresh as the plan asks. *)
Record coherent (config : MediaRtcpSenderReportTrackerConfig) (observedAtNs : Z) (e : MediaRtcpClockEvidence) : Prop := {
  co_sender : ev_senderReportSsrc e = ev_observedMediaSsrc e;
  co_cnameSource : ev_cnameSsrc e = ev_observedMediaSsrc e;
  co_reportFresh : tc_requireSenderReports config = true ->
    0 <= observedAtNs - ev_senderReportObservedAtNs e <= tc_senderReportTimeoutNs config;
  co_cnameFresh : tc_requireCname config = true ->
    ev_cname e <> [] /\ 0 <= observedAtNs - ev_cnameObservedAtNs e <= tc_cnameTimeoutNs config;
}.

Lemma evidence_success observedAtNs t e : trackerOk t -> evidence observedAtNs t = Success e ->
  coherent (tk_config t) observedAtNs e /\
  exists r, tk_senderReport t = Some r /\
    e = mkEvidence (rr_ssrc r) (rr_ssrc r) (rr_ssrc r) (rr_ntp r) (rr_rtpTimestamp r) (tk_cname t)
          (tk_senderReportObservedAtNs t) (tk_cnameObservedAtNs t) (tk_generation t).
Proof.
  intros Hok. unfold evidence. destruct (_ || _) eqn:Et; [by intros ?%failure_not |].
  destruct (tk_mediaSsrc t) as [m |] eqn:Em; [| by intros ?%failure_not].
  destruct (_ && _) eqn:E1; [by intros ?%failure_not |]. destruct (_ && _) eqn:E2 in |- *; [by intros ?%failure_not |].
  destruct (_ && _) eqn:E3 in |- *; [by intros ?%failure_not |]. destruct (_ && _) eqn:E4 in |- *; [by intros ?%failure_not |].
  destruct (tk_senderReport t) as [r |] eqn:Er; [| by intros ?%failure_not]. intros [= <-].
  pose proof (ok_report _ Hok _ Er) as Hm. rewrite Em in Hm. injection Hm as ->. split; [| by exists r].
  split; cbn; [done | done | |].
  - intros H. rewrite H in E2. cbn in E2. lia.
  - intros H. rewrite H in E3, E4. cbn in E3, E4. apply bool_decide_eq_false in E3. split; [done | lia].
Qed.

(** C18: Whatever the tracker has observed, evidence it hands out is about one
    source and no older than planned; and two pieces of evidence of the same
    generation are about the same source, their NTP times do not run backwards,
    the same NTP time has the same RTP timestamp, and a known CNAME stays. *)
Theorem evidence_consistent config before calls at1 at2 e1 e2 :
  let t1 := run before (createTracker config) in
  let t2 := run calls t1 in
  evidence at1 t1 = Success e1 -> evidence at2 t2 = Success e2 -> ev_generation e1 = ev_generation e2 ->
  Z.of_nat (length calls) < 2 ^ 64 ->
  coherent config at1 e1 /\ coherent config at2 e2 /\
  ev_observedMediaSsrc e1 = ev_observedMediaSsrc e2 /\ ntpLess (ev_ntp e2) (ev_ntp e1) = false /\
  (ev_ntp e2 = ev_ntp e1 -> ev_rtpTimestamp e2 = ev_rtpTimestamp e1) /\
  (ev_cname e1 <> [] -> ev_cname e2 = ev_cname e1).
Proof.
  intros t1 t2 H1 H2 Hg Hn. destruct (tracker_run_ok before _ (tracker_create_ok config)) as (Hok1 & Ec1 & _). fold t1 in Hok1, Ec1.
  destruct (tracker_run_ok calls t1 Hok1) as (Hok2 & Ec2 & k & Hk & Egen & Hf). fold t2 in Hok2, Ec2, Egen, Hf.
  apply evidence_success in H1 as (Hc1 & r1 & Er1 & ->); [| done]. apply evidence_success in H2 as (Hc2 & r2 & Er2 & ->); [| done].
  cbn in Hg. rewrite Ec1 in Hc1. rewrite Ec2, Ec1 in Hc2. split; [done |]. split; [done |].
  assert (k = 0%nat) as ->.
  { pose proof (ok_generation _ Hok1) as Hr. rewrite <- Hg in Egen. unfold u64 in Egen. ranges.
    destruct (decide (k = 0%nat)); [done |]. Z.to_euclidean_division_equations; lia. }
  destruct (Hf eq_refl) as [_ Hreport Hcname]. apply Hreport in Er1 as (r & Er & (Es & En & Ert)). rewrite Er2 in Er.
  injection Er as <-. cbn. split_and!; done.
Qed.

(** *** Example *)

Definition exampleConfig : MediaRtcpSenderReportTrackerConfig := mkConfig true true 10000000000 20000000000.

Definition exampleReport (seconds rtp : Z) : list MediaRtcpPacket :=
  [mkRtcpPacket SenderReport 200 0 0 (Some (mkSenderReport 7 (mkRtcpNtp seconds 0) rtp 1 100)) None [] [] [];
   mkRtcpPacket SourceDescription 202 1 0 None None [mkChunk 7 [mkItem 1 [97]]] [] []].

(** The first report comes before the media, the second one after it. *)
Definition exampleBefore : list TrackerCall := [Call_Packets (exampleReport 100 0) 1000; Call_Media 7 2000].
Definition exampleCalls : list TrackerCall := [Call_TakeUpdate 2500; Call_Packets (exampleReport 105 450000) 3000].

Lemma evidence_consistent_witness :
  coherent exampleConfig 2500 (mkEvidence 7 7 7 (mkRtcpNtp 100 0) 0 [97] 1000 1000 0) /\
  450000 <> 0 /\ ntpLess (mkRtcpNtp 105 0) (mkRtcpNtp 100 0) = false.
Proof.
  destruct (evidence_consistent exampleConfig exampleBefore exampleCalls 2500 3500
    (mkEvidence 7 7 7 (mkRtcpNtp 100 0) 0 [97] 1000 1000 0) (mkEvidence 7 7 7 (mkRtcpNtp 105 0) 450000 [97] 3000 3000 0))
    as (H & _ & _ & H2 & _); [reflexivity | reflexivity | reflexivity | reflexivity |].
  split; [exact H | split; [discriminate | exact H2]].
Defined.

End MediaRtcpSenderReportTracker.
