(* ===== verification/RtcpSchedule.v ===== *)
(** * When reports are sent

    Models [protocol/rtp/MediaRtcpReportingPolicy.{h,cpp}] and
    [MediaRtcpSenderReportSchedule.{h,cpp}]: deadlines randomised as RFC 3550
    asks (half to one and a half of the base interval, divided by e - 3/2), and
    prepared decisions that take effect when they are committed.

    A running time is its nanoseconds.  [std::uint64_t] arithmetic is written
    out; the random state is Marsaglia's 64-bit xorshift. *)

From S2P Require Import Prelude MediaResult TimeBase.
Import MediaRunningTime.

Local Open Scope Z_scope.

(** ** The reporting policy *)

Module MediaRtcpReportingPolicy.

Record MediaRtcpReportingFacts := mkFacts {
  rf_maximumSessionMembers : Z;
  rf_activeSenders : Z;
  rf_sessionBandwidthBytesPerSecond : Z;
  rf_compoundPacketBytes : Z;
  rf_membershipAuthority : string;
  rf_bandwidthAuthority : string;
}.

Record Policy := mkReportingPolicy {
  rp_facts : MediaRtcpReportingFacts;
  rp_initialBaseInterval : Z;
  rp_steadyBaseInterval : Z;
  rp_minimumAdmissionInterval : Z;
  rp_standardsAuthority : string;
}.

Definition createPolicy (facts : MediaRtcpReportingFacts) (initialBaseInterval steadyBaseInterval minimumAdmissionInterval : Z)
  (standardsAuthority : string) : Result Policy :=
  if (rf_maximumSessionMembers facts <? 2) || (rf_activeSenders facts =? 0) ||
     (rf_maximumSessionMembers facts <? rf_activeSenders facts) ||
     (rf_sessionBandwidthBytesPerSecond facts =? 0) ||
     (rf_compoundPacketBytes facts =? 0) || bool_decide (rf_membershipAuthority facts = EmptyString) ||
     bool_decide (rf_bandwidthAuthority facts = EmptyString) || bool_decide (standardsAuthority = EmptyString) ||
     (initialBaseInterval <=? 0) || (steadyBaseInterval <? initialBaseInterval) ||
     (minimumAdmissionInterval <=? 0) || (initialBaseInterval <? minimumAdmissionInterval)
  then failure (invalidArgument
    "RTCP reporting policy requires authoritative membership, bandwidth, compound-size, and RFC interval facts")
  else Success (mkReportingPolicy facts initialBaseInterval steadyBaseInterval minimumAdmissionInterval standardsAuthority).

End MediaRtcpReportingPolicy.

(** ** The schedule *)

Module MediaRtcpSenderReportSchedule.
Import MediaRtcpReportingPolicy.

Definition RandomFactorMinimum : Z := 500000.
Definition RandomFactorRange : Z := 1000001.
Definition CompensationDivisor : Z := 1218280.

Definition invalidSchedule (message : string) : ErrorInfo := invalidArgument message.

Definition validInstant (value : Z) : bool := 0 <=? value.

Definition nextRandomState (state : Z) : Z :=
  let state := Z.lxor state (u64 (Z.shiftl state 13)) in
  let state := Z.lxor state (Z.shiftr state 7) in
  Z.lxor state (u64 (Z.shiftl state 17)).

Definition randomizedInterval (base randomState : Z) : Result Z :=
  if (base <=? 0) || (randomState =? 0)
  then failure (invalidSchedule "RTCP random interval requires a positive base and non-zero state")
  else
    let baseNs := base in
    let factor := RandomFactorMinimum + randomState mod RandomFactorRange in
    let quotient := baseNs / CompensationDivisor in
    let remainder := baseNs mod CompensationDivisor in
    if int64_max / factor <? quotient
    then failure (invalidSchedule "RTCP randomized interval overflow")
    else
      let whole := u64 (quotient * factor) in
      let fractional := u64 (remainder * factor) / CompensationDivisor in
      if u64 (int64_max - fractional) <? whole
      then failure (invalidSchedule "RTCP randomized interval overflow")
      else
        let intervalNs := u64 (whole + fractional) in
        if intervalNs =? 0
        then failure (invalidSchedule "RTCP randomized interval rounded to zero")
        else Success intervalNs.

Record MediaRtcpSenderReportCommitToken := mkToken {
  ct_generation : Z;
  ct_revision : Z;
  ct_expectedDeadline : Z;
  ct_nextDeadline : Z;
  ct_nextRandomState : Z;
}.

Record MediaRtcpSenderReportScheduleDecision := mkDecision {
  de_scheduledDeadline : Z;
  de_reportInstant : Z;
  de_nextDeadline : Z;
  de_lateness : Z;
  de_skippedIntervals : Z;
  de_commitToken : MediaRtcpSenderReportCommitToken;
}.

Record Schedule := mkSchedule {
  ss_nextDeadline : Z;
  ss_reportingPolicy : Policy;
  ss_maximumLateness : Z;
  ss_generation : Z;
  ss_revision : Z;
  ss_randomState : Z;
}.

Definition createSchedule (activation : Z) (reportingPolicy : Policy) (maximumLateness generation randomSeed : Z) :
  Result Schedule :=
  if negb (validInstant activation) || (maximumLateness <? 0) || (generation =? 0) || (randomSeed =? 0)
  then failure (invalidSchedule "RTCP sender report schedule parameters are incomplete")
  else
    let state := nextRandomState randomSeed in
    match randomizedInterval (rp_initialBaseInterval reportingPolicy) state with
    | Failure e => failure e
    | Success interval =>
        match checkedAdd activation interval with
        | Failure e => failure e
        | Success deadline => Success (mkSchedule deadline reportingPolicy maximumLateness generation 1 state)
        end
    end.

Definition prepare (now generation : Z) (s : Schedule) : Result (option MediaRtcpSenderReportScheduleDecision) :=
  if negb (validInstant now)
  then failure (invalidSchedule "RTCP sender report time must be non-negative")
  else if (generation =? 0) || negb (generation =? ss_generation s)
  then failure (invalidSchedule "RTCP sender report generation does not match")
  else if ss_revision s =? uint64_max
  then failure (invalidSchedule "RTCP sender report schedule revision exhausted")
  else if now <? ss_nextDeadline s then Success None
  else
    match checkedSubtract now (ss_nextDeadline s) with
    | Failure e => failure e
    | Success lateness =>
        if ss_maximumLateness s <? lateness
        then failure (invalidSchedule "RTCP sender report exceeded maximum lateness")
        else
          let nextState := nextRandomState (ss_randomState s) in
          match randomizedInterval (rp_steadyBaseInterval (ss_reportingPolicy s)) nextState with
          | Failure e => failure e
          | Success interval =>
              match checkedAdd now interval with
              | Failure e => failure e
              | Success nextDeadline =>
                  Success (Some (mkDecision (ss_nextDeadline s) now nextDeadline lateness 0
                    (mkToken (ss_generation s) (ss_revision s) (ss_nextDeadline s) nextDeadline nextState)))
              end
          end
    end.

Definition commit (token : MediaRtcpSenderReportCommitToken) (s : Schedule) : Status * Schedule :=
  if negb (ct_generation token =? ss_generation s) || negb (ct_revision token =? ss_revision s) ||
     negb (ct_expectedDeadline token =? ss_nextDeadline s) || (ct_nextDeadline token <=? ss_nextDeadline s) ||
     (ct_nextRandomState token =? 0) || (ss_revision s =? uint64_max)
  then (failure (invalidSchedule "RTCP sender report commit token is stale or invalid"), s)
  else
    (Success tt,
     mkSchedule (ct_nextDeadline token) (ss_reportingPolicy s) (ss_maximumLateness s) (ss_generation s)
       (u64 (ss_revision s + 1)) (ct_nextRandomState token)).

Definition resetSchedule (activation generation randomSeed : Z) (s : Schedule) : Status * Schedule :=
  if negb (validInstant activation) || (generation <=? ss_generation s) || (randomSeed =? 0) || (ss_revision s =? uint64_max)
  then (failure (invalidSchedule "RTCP sender report reset requires a newer generation, activation, and seed"), s)
  else
    let state := nextRandomState randomSeed in
    match randomizedInterval (rp_initialBaseInterval (ss_reportingPolicy s)) state with
    | Failure e => (failure e, s)
    | Success interval =>
        match checkedAdd activation interval with
        | Failure e => (failure e, s)
        | Success deadline =>
            (Success tt, mkSchedule deadline (ss_reportingPolicy s) (ss_maximumLateness s) generation (u64 (ss_revision s + 1)) state)
        end
    end.

(** ** The random state is never zero *)

Lemma lxor_zero a b : Z.lxor a b = 0 -> a = b.
Proof. apply Z.lxor_eq. Qed.

(** A word that equals itself shifted up is zero. *)
Lemma shiftl_fixed x k : 0 < k -> is_u 64 x -> x = u64 (Z.shiftl x k) -> x = 0.
Proof.
  intros Hk Hx E. apply Z.bits_inj_0. intros i. destruct (Z.lt_ge_cases i 0) as [Hneg | Hi]; [by apply Z.testbit_neg_r |].
  revert i Hi. apply (Z_lt_induction (fun i => Z.testbit x i = false)). intros i IH.
  destruct (Z.lt_ge_cases i 0) as [Hneg | Hi]; [by apply Z.testbit_neg_r |].
  rewrite E. unfold u64. destruct (Z.lt_ge_cases i 64).
  - rewrite Z.mod_pow2_bits_low by lia. rewrite Z.shiftl_spec by lia.
    destruct (Z.lt_ge_cases (i - k) 0); [by apply Z.testbit_neg_r | apply IH; lia].
  - apply Z.mod_pow2_bits_high. lia.
Qed.

Lemma lxor_u64 a b : is_u 64 a -> is_u 64 b -> is_u 64 (Z.lxor a b).
Proof.
  intros Ha Hb. unfold is_u in *. assert (Hn : 0 <= Z.lxor a b) by (apply Z.lxor_nonneg; lia).
  split; [done |]. destruct (Z.eq_dec (Z.lxor a b) 0) as [-> | Hz]; [done |].
  apply Z.log2_lt_pow2; [lia |]. pose proof (Z.log2_lxor a b ltac:(lia) ltac:(lia)).
  assert (forall x, 0 <= x < 2 ^ 64 -> Z.log2 x < 64) as Hlog.
  { intros x Hx. destruct (Z.eq_dec x 0) as [-> | ?]; [done |]. apply Z.log2_lt_pow2; lia. }
  pose proof (Hlog a Ha). pose proof (Hlog b Hb). lia.
Qed.

Lemma u64_range z : is_u 64 (u64 z).
Proof. unfold u64, is_u. apply Z.mod_pos_bound. lia. Qed.

Lemma xorshift_left x k : 0 < k -> is_u 64 x -> x <> 0 ->
  is_u 64 (Z.lxor x (u64 (Z.shiftl x k))) /\ Z.lxor x (u64 (Z.shiftl x k)) <> 0.
Proof.
  intros Hk Hx Hne. split; [apply lxor_u64; [done | apply u64_range] |]. intros E%lxor_zero. by apply Hne, (shiftl_fixed x k).
Qed.

Lemma xorshift_right x k : 0 < k -> is_u 64 x -> x <> 0 ->
  is_u 64 (Z.lxor x (Z.shiftr x k)) /\ Z.lxor x (Z.shiftr x k) <> 0.
Proof.
  intros Hk Hx Hne. rewrite shiftr_div by lia. assert (2 <= 2 ^ k) by (apply (Z.pow_le_mono_r 2 1 k); lia).
  assert (0 <= x / 2 ^ k < x) by (ranges; split; [apply Z.div_pos; lia | apply Z.div_lt; lia]).
  split; [apply lxor_u64; [done | ranges; lia] |]. intros E%lxor_zero. lia.
Qed.

Lemma nextRandomState_nonzero x : is_u 64 x -> x <> 0 -> is_u 64 (nextRandomState x) /\ nextRandomState x <> 0.
Proof.
  intros Hx Hne. unfold nextRandomState. cbv zeta.
  destruct (xorshift_left x 13) as [H1 N1]; [done.. |]. destruct (xorshift_right _ 7 ltac:(done) H1 N1) as [H2 N2].
  by apply xorshift_left.
Qed.

(** ** The interval is exact *)

Definition factorOf (randomState : Z) : Z := RandomFactorMinimum + randomState mod RandomFactorRange.

Lemma factor_bounds state : 500000 <= factorOf state <= 1500000.
Proof. unfold factorOf, RandomFactorMinimum, RandomFactorRange. pose proof (Z.mod_pos_bound state 1000001). lia. Qed.

Lemma randomizedInterval_exact base state : 0 < base -> is_i 64 base -> state <> 0 ->
  let exact := base * factorOf state / CompensationDivisor in
  match randomizedInterval base state with
  | Success interval => interval = exact /\ 0 < interval /\ is_i 64 interval
  | Failure _ => exact = 0 \/ int64_max < exact
  end.
Proof.
  intros Hb Hi Hs exact. unfold randomizedInterval. destruct (Z.leb_spec base 0); [lia |].
  destruct (Z.eqb_spec state 0); [done |]. cbn [orb]. cbv zeta. fold (factorOf state).
  pose proof (factor_bounds state) as Hf. set (f := factorOf state) in *. clearbody f.
  pose proof (Z.div_mod base CompensationDivisor ltac:(done)) as E.
  pose proof (Z.mod_pos_bound base CompensationDivisor ltac:(done)) as Hr.
  assert (Hq : 0 <= base / CompensationDivisor) by (apply Z.div_pos; [lia | done]).
  set (q := base / CompensationDivisor) in *. set (r := base mod CompensationDivisor) in *. clearbody q r.
  assert (Eexact : exact = q * f + r * f / CompensationDivisor).
  { unfold exact. rewrite E. replace ((CompensationDivisor * q + r) * f) with (r * f + q * f * CompensationDivisor) by ring.
    rewrite Z.div_add by done. ring. }
  unfold CompensationDivisor in *.
  assert (Hrf : 0 <= r * f < 1218280 * 1500001) by nia.
  assert (Hfrac : 0 <= r * f / 1218280 < 1500001) by divmod. set (frac := r * f / 1218280) in *.
  destruct (Z.ltb_spec (int64_max / f) q) as [Hov | Hov].
  { right. rewrite Eexact. assert (int64_max < q * f); [| lia].
    apply Z.nle_gt. intros Hle. assert (q <= int64_max / f) by (apply Z.div_le_lower_bound; lia). lia. }
  assert (Hw : 0 <= q * f <= int64_max).
  { split; [nia |]. pose proof (Z.mul_div_le int64_max f ltac:(lia)). nia. }
  unfold u64. rewrite (Z.mod_small (q * f)) by (ranges; lia). rewrite (Z.mod_small (r * f)) by (ranges; lia). fold frac.
  rewrite (Z.mod_small (int64_max - frac)) by (ranges; lia).
  destruct (Z.ltb_spec (int64_max - frac) (q * f)); [right; lia |].
  rewrite Z.mod_small by (ranges; lia). destruct (Z.eqb_spec (q * f + frac) 0); [left; lia |]. ranges. lia.
Qed.

(** ** Sending reports

    The owner of a schedule prepares decisions, commits decisions it has
    prepared (a token has no other source), possibly late or twice, and resets
    the schedule for a new generation.  The reports sent are the decisions
    whose commit succeeded. *)

Inductive ScheduleCall :=
  | Call_Prepare (now generation : Z)
  | Call_Commit (decision : nat)
  | Call_Reset (activation generation randomSeed : Z).

Record Session := mkSession {
  sn_schedule : Schedule;
  sn_prepared : list MediaRtcpSenderReportScheduleDecision;
  sn_sent : list MediaRtcpSenderReportScheduleDecision;
}.

Definition callTyped (c : ScheduleCall) : Prop :=
  match c with
  | Call_Prepare now generation => is_i 64 now /\ is_u 64 generation
  | Call_Commit _ => True
  | Call_Reset activation generation randomSeed => is_i 64 activation /\ is_u 64 generation /\ is_u 64 randomSeed
  end.

Definition call (n : Session) (c : ScheduleCall) : Session :=
  match c with
  | Call_Prepare now generation =>
      match prepare now generation (sn_schedule n) with
      | Success (Some decision) => mkSession (sn_schedule n) (sn_prepared n ++ [decision]) (sn_sent n)
      | _ => n
      end
  | Call_Commit i =>
      match sn_prepared n !! i with
      | Some decision =>
          let '(status, schedule) := commit (de_commitToken decision) (sn_schedule n) in
          mkSession schedule (sn_prepared n) (if resultOk status then sn_sent n ++ [decision] else sn_sent n)
      | None => n
      end
  | Call_Reset activation generation randomSeed =>
      mkSession (resetSchedule activation generation randomSeed (sn_schedule n)).2 (sn_prepared n) (sn_sent n)
  end.

Definition run (calls : list ScheduleCall) (n : Session) : Session := fold_left call calls n.

Record scheduleOk (s : Schedule) : Prop := {
  so_deadline : 0 <= ss_nextDeadline s /\ is_i 64 (ss_nextDeadline s);
  so_policy : 0 < rp_steadyBaseInterval (ss_reportingPolicy s) /\ is_i 64 (rp_steadyBaseInterval (ss_reportingPolicy s));
  so_initial : 0 < rp_initialBaseInterval (ss_reportingPolicy s) /\ is_i 64 (rp_initialBaseInterval (ss_reportingPolicy s));
  so_generation : is_u 64 (ss_generation s);
  so_revision : 0 < ss_revision s <= uint64_max;
  so_random : is_u 64 (ss_randomState s) /\ ss_randomState s <> 0;
}.

(** The shortest steady interval. *)
Definition shortestInterval (policy : Policy) : Z := rp_steadyBaseInterval policy * 500000 / CompensationDivisor.

Definition longestInterval (policy : Policy) : Z := rp_steadyBaseInterval policy * 1500000 / CompensationDivisor.

(** A decision as [prepare] makes it for the state with its revision. *)
Record decisionOk (policy : Policy) (maximumLateness : Z) (d : MediaRtcpSenderReportScheduleDecision) : Prop := {
  dk_late : 0 <= de_reportInstant d - de_scheduledDeadline d <= maximumLateness;
  dk_token : ct_expectedDeadline (de_commitToken d) = de_scheduledDeadline d /\
    ct_nextDeadline (de_commitToken d) = de_nextDeadline d;
  dk_next : shortestInterval policy <= de_nextDeadline d - de_reportInstant d <= longestInterval policy /\
    de_reportInstant d < de_nextDeadline d;
  dk_deadline : 0 <= de_nextDeadline d /\ is_i 64 (de_nextDeadline d);
  dk_random : is_u 64 (ct_nextRandomState (de_commitToken d)) /\ ct_nextRandomState (de_commitToken d) <> 0;
}.

Lemma prepare_ok now generation s d : scheduleOk s -> is_i 64 now ->
  prepare now generation s = Success (Some d) ->
  decisionOk (ss_reportingPolicy s) (ss_maximumLateness s) d /\ de_reportInstant d = now /\
  de_scheduledDeadline d = ss_nextDeadline s /\ ct_generation (de_commitToken d) = ss_generation s /\
  ct_revision (de_commitToken d) = ss_revision s /\ ss_revision s <> uint64_max.
Proof.
  intros [[Hd0 Hd] [Hp0 Hp] _ Hg Hr [Hx Hx0]] Hnow. unfold prepare, validInstant.
  destruct (Z.leb_spec 0 now); cbn [negb]; [| by intros ?%failure_not].
  destruct (_ || _); [by intros ?%failure_not |]. destruct (Z.eqb_spec (ss_revision s) uint64_max); [by intros ?%failure_not |].
  destruct (Z.ltb_spec now (ss_nextDeadline s)); [done |]. rewrite checkedSubtract_exact by done.
  destruct (isInt64 (now - ss_nextDeadline s)); [| by intros ?%failure_not].
  destruct (Z.ltb_spec (ss_maximumLateness s) (now - ss_nextDeadline s)); [by intros ?%failure_not |]. cbv zeta.
  destruct (nextRandomState_nonzero _ Hx Hx0) as [Hy Hy0]. set (state := nextRandomState (ss_randomState s)) in *.
  pose proof (randomizedInterval_exact _ state Hp0 Hp Hy0) as Hi. cbv zeta in Hi.
  destruct (randomizedInterval _ state) as [interval | e]; [| by intros ?%failure_not]. destruct Hi as (Ei & Hpos & Hint).
  rewrite checkedAdd_exact by done. destruct (isInt64 (now + interval)) eqn:E; [| by intros ?%failure_not].
  apply isInt64_spec in E. intros [= <-]. cbn. split_and!; [| done..].
  pose proof (factor_bounds state). split; cbn; [lia | done | | split; [lia | done] | done].
  replace (now + interval - now) with interval by ring. split; [| lia]. rewrite Ei. unfold shortestInterval, longestInterval.
  split; apply Z.div_le_mono; (done || nia).
Qed.

Lemma commit_ok policy maximumLateness d s : scheduleOk s -> ss_reportingPolicy s = policy -> decisionOk policy maximumLateness d ->
  match commit (de_commitToken d) s with
  | (Success _, s') =>
      scheduleOk s' /\ ss_reportingPolicy s' = policy /\ ss_maximumLateness s' = ss_maximumLateness s /\
      ss_generation s' = ss_generation s /\ ss_nextDeadline s' = de_nextDeadline d /\
      ss_revision s' = ss_revision s + 1 /\ ct_generation (de_commitToken d) = ss_generation s /\
      de_scheduledDeadline d = ss_nextDeadline s
  | (Failure _, s') => s' = s
  end.
Proof.
  intros Hs Hpol [_ [Ed En] [_ Hlt] Hnd Hx]. unfold commit.
  destruct (_ || _) eqn:E; [by unfold failure; destruct (ErrorInfo_ok _) |].
  rewrite !orb_false_iff, !negb_false_iff, !Z.eqb_eq in E. destruct E as [[[[[Eg Er] Ex] _] _] Em].
  apply Z.eqb_neq in Em. destruct Hs as [H1 H2 H3 H4 H5 H6].
  assert (Erev : u64 (ss_revision s + 1) = ss_revision s + 1) by (unfold u64; apply Z.mod_small; ranges; lia).
  rewrite Erev. cbn. split_and!; [| done.. | congruence]. split; cbn; [by rewrite En | done.. | lia | done].
Qed.

(** Two reports of a generation, one after the other. *)
Definition spaced (policy : Policy) (sent : list MediaRtcpSenderReportScheduleDecision) : Prop :=
  forall i d1 d2, sent !! i = Some d1 -> sent !! S i = Some d2 ->
    ct_generation (de_commitToken d1) = ct_generation (de_commitToken d2) ->
    de_scheduledDeadline d2 = de_nextDeadline d1.

Record sessionOk (policy : Policy) (maximumLateness : Z) (n : Session) : Prop := {
  sk_schedule : scheduleOk (sn_schedule n);
  sk_policy : ss_reportingPolicy (sn_schedule n) = policy;
  sk_lateness : ss_maximumLateness (sn_schedule n) = maximumLateness;
  sk_prepared : Forall (decisionOk policy maximumLateness) (sn_prepared n);
  sk_sent : Forall (decisionOk policy maximumLateness) (sn_sent n);
  sk_last : forall d, last (sn_sent n) = Some d ->
    ct_generation (de_commitToken d) <= ss_generation (sn_schedule n) /\
    (ct_generation (de_commitToken d) = ss_generation (sn_schedule n) -> ss_nextDeadline (sn_schedule n) = de_nextDeadline d);
  sk_spaced : spaced policy (sn_sent n);
}.

Lemma spaced_snoc policy sent d : spaced policy sent ->
  (forall d', last sent = Some d' -> ct_generation (de_commitToken d') = ct_generation (de_commitToken d) ->
    de_scheduledDeadline d = de_nextDeadline d') ->
  spaced policy (sent ++ [d]).
Proof.
  intros Hs Hlast i d1 d2 E1 E2 Eg. apply lookup_app_Some in E2 as [E2 | [Hi E2]].
  - apply (Hs i); [| done..]. apply lookup_lt_Some in E2. rewrite lookup_app_l in E1 by lia. done.
  - destruct (S i - length sent)%nat eqn:En; [| done]. injection E2 as <-. apply Hlast; [| done].
    rewrite last_lookup. replace (pred (length sent)) with i by lia. by rewrite lookup_app_l in E1 by lia.
Qed.

Lemma schedule_reset_ok activation generation seed s : scheduleOk s -> is_i 64 activation -> is_u 64 generation -> is_u 64 seed ->
  match resetSchedule activation generation seed s with
  | (Success _, s') => scheduleOk s' /\ ss_reportingPolicy s' = ss_reportingPolicy s /\
      ss_maximumLateness s' = ss_maximumLateness s /\ ss_generation s < ss_generation s'
  | (Failure _, s') => s' = s
  end.
Proof.
  intros [H1 H2 [H3 H3'] H4 H5 H6] Ha Hg Hseed. unfold resetSchedule, validInstant.
  destruct (_ || _) eqn:E; [by unfold failure; destruct (ErrorInfo_ok _) |].
  rewrite !orb_false_iff, negb_false_iff, !Z.eqb_neq in E. destruct E as [[[E1 E2] E3] E4]. cbv zeta.
  destruct (nextRandomState_nonzero seed Hseed E3) as [Hy Hy0].
  pose proof (randomizedInterval_exact _ _ H3 H3' Hy0) as Hi. cbv zeta in Hi.
  destruct (randomizedInterval _ _) as [interval | e]; [| by unfold failure; destruct (ErrorInfo_ok _)].
  destruct Hi as (_ & Hpos & Hint). rewrite checkedAdd_exact by done.
  destruct (isInt64 (activation + interval)) eqn:Ei; [| by unfold overflowFailure, failure; repeat destruct (ErrorInfo_ok _)].
  apply isInt64_spec in Ei. cbn. split_and!; [| done | done | lia].
  split; cbn; [split; [lia | done] | done | done | done | | done]. unfold u64. rewrite Z.mod_small by (ranges; lia). ranges. lia.
Qed.

Lemma schedule_call_ok policy maximumLateness n c : callTyped c -> sessionOk policy maximumLateness n ->
  sessionOk policy maximumLateness (call n c).
Proof.
  intros Hc [H1 H2 H3 H4 H5 H6 H7]. destruct c as [now generation | i | activation generation seed]; cbn [call].
  - destruct (prepare _ _ _) as [[d |] |] eqn:Ep; [| by split..]. destruct Hc as [Hnow _].
    destruct (prepare_ok _ _ _ _ H1 Hnow Ep) as (Hd & _). rewrite H2, H3 in Hd.
    split; cbn; [done.. | | done | done | done]. apply Forall_app_2; [done | by constructor].
  - destruct (sn_prepared n !! i) as [d |] eqn:Ed; [| by split]. pose proof (Forall_lookup_1 _ _ _ _ H4 Ed) as Hd.
    pose proof (commit_ok policy maximumLateness d _ H1 H2 Hd) as Hcommit.
    destruct (commit _ _) as [[u | e] s']; cbn [resultOk]; [| by subst; split].
    destruct Hcommit as (Hs & Epol & Elate & Egen & Enext & _ & Etok & Esched).
    split; cbn; [done | done | congruence | done | by apply Forall_app_2; [| constructor] | |].
    + intros d'. rewrite last_snoc. intros [= <-]. split; [lia | done].
    + apply spaced_snoc; [done |]. intros d' Hl Eg. destruct (H6 d' Hl) as [_ Heq]. rewrite <- Heq by congruence. done.
  - destruct Hc as (Ha & Hg & Hseed). pose proof (schedule_reset_ok _ _ _ _ H1 Ha Hg Hseed) as Hr.
    destruct (resetSchedule _ _ _ _) as [[u | e] s']; cbn [snd]; [| by subst; split].
    destruct Hr as (Hs & Epol & Elate & Hgen). split; cbn; [done | congruence | congruence | done | done | | done].
    intros d Hl. destruct (H6 d Hl). lia.
Qed.

Lemma schedule_create_ok policy activation maximumLateness generation seed s :
  0 < rp_steadyBaseInterval policy -> is_i 64 (rp_steadyBaseInterval policy) ->
  0 < rp_initialBaseInterval policy -> is_i 64 (rp_initialBaseInterval policy) ->
  is_i 64 activation -> is_u 64 generation -> is_u 64 seed ->
  createSchedule activation policy maximumLateness generation seed = Success s ->
  sessionOk policy maximumLateness (mkSession s [] []).
Proof.
  intros Hs Hs' Hi Hi' Ha Hg Hseed. unfold createSchedule, validInstant.
  destruct (_ || _) eqn:E; [by intros ?%failure_not |].
  rewrite !orb_false_iff, negb_false_iff, !Z.eqb_neq in E. destruct E as [[[E1 E2] E3] E4]. cbv zeta.
  destruct (nextRandomState_nonzero seed Hseed E4) as [Hy Hy0].
  pose proof (randomizedInterval_exact _ _ Hi Hi' Hy0) as Hr. cbv zeta in Hr.
  destruct (randomizedInterval _ _) as [interval | e]; [| by intros ?%failure_not]. destruct Hr as (_ & Hpos & Hint).
  rewrite checkedAdd_exact by done. destruct (isInt64 (activation + interval)) eqn:Ei; [| by intros ?%failure_not].
  apply isInt64_spec in Ei. intros [= <-]. split; cbn; [| done | done | constructor | constructor | done | done].
  split; cbn; [split; [lia | done] | done | done | done | | done]. ranges. lia.
Qed.

(** C20: However decisions are prepared, committed late or twice, and the schedule
    reset: every report, the first of a generation included, is sent at or after
    its deadline and no later than the planned lateness; of two adjacent reports
    of a generation the second is due an interval after the first one that lies
    between a half and one and a half of the steady base interval over e - 3/2,
    and it is sent no earlier than the shortest such interval after it, so no decision counts twice. *)
Theorem report_spacing facts initial steady minimum authority policy activation maximumLateness generation seed s calls :
  createPolicy facts initial steady minimum authority = Success policy ->
  is_i 64 steady -> is_i 64 activation -> is_u 64 generation -> is_u 64 seed ->
  createSchedule activation policy maximumLateness generation seed = Success s ->
  Forall callTyped calls ->
  let sent := sn_sent (run calls (mkSession s [] [])) in
  Forall (fun d => 0 <= de_reportInstant d - de_scheduledDeadline d <= maximumLateness) sent /\
  forall i d1 d2, sent !! i = Some d1 -> sent !! S i = Some d2 ->
    ct_generation (de_commitToken d1) = ct_generation (de_commitToken d2) ->
    steady * 500000 / 1218280 <= de_scheduledDeadline d2 - de_reportInstant d1 <= steady * 1500000 / 1218280 /\
    de_reportInstant d1 < de_reportInstant d2 /\ steady * 500000 / 1218280 <= de_reportInstant d2 - de_reportInstant d1.
Proof.
  intros Hpolicy Hsteady Ha Hg Hseed Hs Hcalls sent.
  assert (Hp : rp_steadyBaseInterval policy = steady /\ 0 < steady /\ 0 < rp_initialBaseInterval policy /\ is_i 64 (rp_initialBaseInterval policy)).
  { unfold createPolicy in Hpolicy. destruct (_ || _) eqn:E in Hpolicy; [by apply failure_not in Hpolicy |].
    injection Hpolicy as <-. cbn. rewrite !orb_false_iff in E. destruct E as [[[[_ ?] ?] ?] ?]. ranges. lia. }
  destruct Hp as (Esteady & Hpos & Hi & Hi'). rewrite <- Esteady in Hsteady, Hpos.
  assert (Hok : sessionOk policy maximumLateness (run calls (mkSession s [] []))).
  { pose proof (schedule_create_ok _ _ _ _ _ _ Hpos Hsteady Hi Hi' Ha Hg Hseed Hs) as H0. revert H0. generalize (mkSession s [] []).
    clear - Hcalls. induction Hcalls as [| c calls Hc _ IH]; intros n Hn; [done |]. cbn. apply IH. by apply schedule_call_ok. }
  destruct Hok as [_ _ _ _ Hsent _ Hspaced]. fold sent in Hsent, Hspaced. split.
  { eapply Forall_impl; [exact Hsent |]. by intros d []. }
  intros i d1 d2 E1 E2 Eg. pose proof (Hspaced i d1 d2 E1 E2 Eg) as Enext.
  pose proof (Forall_lookup_1 _ _ _ _ Hsent E1) as [_ _ [Hn1 Hn2] _ _]. pose proof (Forall_lookup_1 _ _ _ _ Hsent E2) as [Hl _ _ _ _].
  unfold shortestInterval, longestInterval, CompensationDivisor in Hn1. rewrite Esteady in Hn1. rewrite Enext in *. lia.
Qed.

(** *** Example *)

Definition exampleFacts : MediaRtcpReportingFacts := mkFacts 2 1 1000 100 "members" "bandwidth".
Definition examplePolicy : Policy := mkReportingPolicy exampleFacts 2500000000 5000000000 1000000000 "RFC 3550".
Definition exampleSchedule : Schedule :=
  match createSchedule 0 examplePolicy 1000000000 1 42 with Success s => s | Failure _ => mkSchedule 0 examplePolicy 0 0 0 0 end.

(** The second commit of the first decision is refused. *)
Definition exampleCalls : list ScheduleCall :=
  [Call_Prepare 2600000000 1; Call_Commit 0; Call_Commit 0; Call_Prepare 7500000000 1; Call_Commit 1].

Definition exampleSent (i : nat) : MediaRtcpSenderReportScheduleDecision :=
  default (mkDecision 0 0 0 0 0 (mkToken 0 0 0 0 0)) (sn_sent (run exampleCalls (mkSession exampleSchedule [] [])) !! i).

Lemma report_spacing_witness :
  length (sn_sent (run exampleCalls (mkSession exampleSchedule [] []))) = 2%nat /\
  de_scheduledDeadline (exampleSent 1) - de_reportInstant (exampleSent 0) = 4654422628 /\
  0 <= de_reportInstant (exampleSent 1) - de_scheduledDeadline (exampleSent 1) <= 1000000000.
Proof.
  split; [vm_compute; reflexivity |]. split; [vm_compute; reflexivity |].
  pose proof (report_spacing exampleFacts 2500000000 5000000000 1000000000 "RFC 3550" examplePolicy 0 1000000000 1 42
    exampleSchedule exampleCalls) as H.
  destruct H as [H _]; [vm_compute; reflexivity | vm_compute; split; [discriminate | reflexivity].. | vm_compute; reflexivity | |].
  { repeat constructor; vm_compute; discriminate. }
  apply (Forall_lookup_1 _ _ 1%nat _ H). vm_compute. reflexivity.
Defined.

End MediaRtcpSenderReportSchedule.
