(* ===== verification/RtpClock.v ===== *)
(** * Clocks of an RTP source

    Models the calibration record of [protocol/rtp/MediaRtpSourceClockMapper.h],
    [MediaRtpPacketTimestampAligner.{h,cpp}], [MediaRtpClockObservationSchedule.{h,cpp}],
    [MediaRtpClockGroupPolicy.{h,cpp}] and [MediaRtpClockGroupValidator.{h,cpp}].

    Times are nanoseconds.  Ages are differences taken after a comparison, as
    the code takes them.  The estimator itself ([MediaRtpSourceClockMapper.cpp])
    computes with [long double] and is not modelled: the validator receives its
    calibrations as arguments. *)

From S2P Require Import Prelude MediaResult Model Rtcp RtcpTracker.
Import MediaRtcpCompoundParser (MediaRtcpNtpTimestamp, mkRtcpNtp).
Import MediaRtcpSenderReportTracker (MediaRtcpClockEvidence, mkEvidence, ev_observedMediaSsrc, ev_senderReportSsrc, ev_cnameSsrc,
  ev_rtpTimestamp, ev_cname, ev_senderReportObservedAtNs, ev_cnameObservedAtNs, ev_generation).

Local Open Scope Z_scope.

(** ** Calibrations *)

Module MediaRtpSourceClock.

Inductive MediaRtpSourceClockConfidence := Confidence_Locked | Confidence_Degraded.

#[global] Instance MediaRtpSourceClockConfidence_eq_dec : EqDecision MediaRtpSourceClockConfidence.
Proof. solve_decision. Defined.

Record MediaRtpSourceClockCalibration := mkCalibration {
  cb_ssrc : Z;
  cb_cname : list Z;
  cb_generation : Z;
  cb_rtpAnchor : Z;
  cb_extendedRtpAnchor : Z;
  cb_actualSenderReportSourceTime : Z;
  cb_continuousSourceAnchor : Z;
  cb_rateNumeratorNs : Z;
  cb_rateDenominatorTicks : Z;
  cb_senderReportObservedAtNs : Z;
  cb_confidence : MediaRtpSourceClockConfidence;
}.

Definition withConfidence (confidence : MediaRtpSourceClockConfidence) (c : MediaRtpSourceClockCalibration) :
  MediaRtpSourceClockCalibration :=
  mkCalibration (cb_ssrc c) (cb_cname c) (cb_generation c) (cb_rtpAnchor c) (cb_extendedRtpAnchor c)
    (cb_actualSenderReportSourceTime c) (cb_continuousSourceAnchor c) (cb_rateNumeratorNs c) (cb_rateDenominatorTicks c)
    (cb_senderReportObservedAtNs c) confidence.

End MediaRtpSourceClock.

(** ** Aligning a packet's timestamp *)

Module MediaRtpPacketTimestampAligner.
Import MediaRtpSourceClock.

Definition align (calibration : MediaRtpSourceClockCalibration) (rawRtpTimestamp : Z) : Result Z :=
  let HalfRange := 0x80000000 in
  let FullRange := 0x100000000 in
  let anchor := cb_extendedRtpAnchor calibration in
  if negb (bool_decide (cb_confidence calibration = Confidence_Locked)) || (anchor <? 0) ||
     negb (u32 anchor =? cb_rtpAnchor calibration)
  then failure (invalidArgument "RTP packet timestamp alignment requires a coherent locked anchor")
  else
    let modularDelta := u32 (rawRtpTimestamp - cb_rtpAnchor calibration) in
    if modularDelta =? HalfRange
    then failure (invalidArgument "RTP packet timestamp is half-range ambiguous")
    else
      let signedDelta := if modularDelta <? HalfRange then modularDelta else modularDelta - FullRange in
      if ((0 <? signedDelta) && (int64_max - signedDelta <? anchor)) || ((signedDelta <? 0) && (anchor <? - signedDelta))
      then failure (invalidArgument "RTP packet timestamp alignment overflows the locked cycle")
      else Success (u64 (anchor + signedDelta)).

(** An aligned timestamp is the one extended timestamp with the packet's 32
    bits that lies less than half a cycle from the locked anchor; alignment
    fails only without a coherent locked anchor, when the packet is exactly half
    a cycle away, or when that timestamp leaves the 63-bit range. *)
Theorem align_nearest calibration raw :
  is_u 32 raw -> is_i 64 (cb_extendedRtpAnchor calibration) -> is_u 32 (cb_rtpAnchor calibration) ->
  let anchor := cb_extendedRtpAnchor calibration in
  match align calibration raw with
  | Success aligned =>
      forall t, (t mod 2 ^ 32 = raw /\ Z.abs (t - anchor) < 2 ^ 31) <-> t = aligned
  | Failure _ =>
      cb_confidence calibration <> Confidence_Locked \/ anchor < 0 \/ anchor mod 2 ^ 32 <> cb_rtpAnchor calibration \/
      (anchor + 2 ^ 31) mod 2 ^ 32 = raw \/
      exists t, t mod 2 ^ 32 = raw /\ Z.abs (t - anchor) < 2 ^ 31 /\ (t < 0 \/ int64_max < t)
  end.
Proof.
  intros Hraw Hanchor Hr anchor. unfold align. cbv zeta. fold anchor. case_bool_decide as Hc; cbn [negb orb].
  2: { rewrite failure_id by done. by left. }
  destruct (Z.ltb_spec anchor 0); cbn [orb]; [rewrite failure_id by done; tauto |].
  destruct (Z.eqb_spec (u32 anchor) (cb_rtpAnchor calibration)) as [E | E]; cbn [negb]; [| rewrite failure_id by done; tauto].
  rewrite <- E. unfold u32 in *. set (delta := (raw - anchor mod 2 ^ 32) mod 2 ^ 32).
  assert (Hd : exists k, raw - anchor = delta + k * 2 ^ 32 /\ 0 <= delta < 2 ^ 32).
  { unfold delta. exists ((raw - anchor) / 2 ^ 32). rewrite Zminus_mod_idemp_r. pose proof (Z.div_mod (raw - anchor) (2 ^ 32)).
    pose proof (Z.mod_pos_bound (raw - anchor) (2 ^ 32)). lia. }
  clearbody delta. destruct Hd as (k & Ek & Hdelta).
  destruct (Z.eqb_spec delta 0x80000000) as [-> | Hhalf].
  { rewrite failure_id by done. do 3 right. left. replace (anchor + 2 ^ 31) with (raw + (- k) * 2 ^ 32) by lia.
    rewrite Z.mod_add by done. apply Z.mod_small. ranges. lia. }
  set (signed := if delta <? 0x80000000 then delta else delta - 0x100000000).
  assert (Hs : Z.abs signed < 2 ^ 31 /\ exists j, raw = anchor + signed + j * 2 ^ 32).
  { unfold signed. destruct (Z.ltb_spec delta 0x80000000); (split; [ranges; lia |]); [exists k | exists (k + 1)]; lia. }
  clearbody signed. destruct Hs as [Hs (j & Ej)].
  assert (Hmod : (anchor + signed) mod 2 ^ 32 = raw).
  { replace (anchor + signed) with (raw + (- j) * 2 ^ 32) by lia. rewrite Z.mod_add by done. apply Z.mod_small. ranges. lia. }
  destruct (_ || _) eqn:Eov.
  { rewrite failure_id by done. do 4 right. exists (anchor + signed). split; [done |]. ranges. lia. }
  unfold u64. rewrite Z.mod_small by (ranges; lia). intros t. split; [| intros ->; split; [done | lia]].
  intros [Hm Ht]. rewrite <- Hmod in Hm. pose proof (Z.div_mod t (2 ^ 32)). pose proof (Z.div_mod (anchor + signed) (2 ^ 32)).
  ranges. lia.
Qed.

Definition exampleCalibration : MediaRtpSourceClockCalibration :=
  mkCalibration 7 [] 0 0xFFFFFFF0 0x1FFFFFFF0 0 0 1 1 0 Confidence_Locked.

Lemma align_nearest_witness :
  align exampleCalibration 16 = Success 0x200000010 /\
  forall t, (t mod 2 ^ 32 = 16 /\ Z.abs (t - 0x1FFFFFFF0) < 2 ^ 31) <-> t = 0x200000010.
Proof.
  assert (E : align exampleCalibration 16 = Success 0x200000010) by reflexivity. split; [exact E |].
  assert (H1 : is_u 32 16) by (split; (discriminate || reflexivity)).
  assert (H2 : is_i 64 (cb_extendedRtpAnchor exampleCalibration)) by (split; (discriminate || reflexivity)).
  assert (H3 : is_u 32 (cb_rtpAnchor exampleCalibration)) by (split; (discriminate || reflexivity)).
  pose proof (align_nearest exampleCalibration 16 H1 H2 H3) as H. cbv zeta in H. rewrite E in H. exact H.
Defined.

End MediaRtpPacketTimestampAligner.

(** ** When evidence ages *)

Module MediaRtpClockObservationSchedule.

Inductive MediaRtpClockAgeTransition := Degraded | Expired.

Inductive MediaRtpClockLossPolicy := FailOnDegraded | FailOnExpired | WaitForEvidence.

#[global] Instance MediaRtpClockLossPolicy_eq_dec : EqDecision MediaRtpClockLossPolicy.
Proof. solve_decision. Defined.

Record ObservationSchedule := mkObservation {
  os_senderReportTimeoutNs : Z;
  os_maximumExtrapolationNs : Z;
  os_cnameTimeoutNs : Z;
  os_lossPolicy : MediaRtpClockLossPolicy;
  os_senderReportObservedAtNs : option Z;
  os_cnameObservedAtNs : option Z;
  os_degradedPublished : bool;
  os_expiredPublished : bool;
}.

Definition calculateDeadline (observedAtNs intervalNs : Z) : Z :=
  if int64_max - intervalNs <? observedAtNs then int64_max else observedAtNs + intervalNs.

Definition createObservation (senderReportTimeoutNs maximumExtrapolationNs cnameTimeoutNs : Z)
  (lossPolicy : MediaRtpClockLossPolicy) : Result ObservationSchedule :=
  if (senderReportTimeoutNs <=? 0) || (maximumExtrapolationNs <=? senderReportTimeoutNs) || (cnameTimeoutNs <=? 0)
  then failure (invalidArgument "RTP clock observation deadlines must be positive and ordered")
  else Success (mkObservation senderReportTimeoutNs maximumExtrapolationNs cnameTimeoutNs lossPolicy None None false false).

Definition withEvidence (senderReport cname : option Z) (degraded expired : bool) (o : ObservationSchedule) : ObservationSchedule :=
  mkObservation (os_senderReportTimeoutNs o) (os_maximumExtrapolationNs o) (os_cnameTimeoutNs o) (os_lossPolicy o)
    senderReport cname degraded expired.

Definition observeEvidence (senderReportObservedAtNs cnameObservedAtNs : Z) (o : ObservationSchedule) :
  Status * ObservationSchedule :=
  if (senderReportObservedAtNs <? 0) || (cnameObservedAtNs <? 0)
  then (failure (invalidArgument "RTP clock evidence observation times must be non-negative"), o)
  else (Success tt, withEvidence (Some senderReportObservedAtNs) (Some cnameObservedAtNs) false false o).

Definition nextDeadlineNs (o : ObservationSchedule) : option Z :=
  match os_senderReportObservedAtNs o, os_cnameObservedAtNs o with
  | Some senderReportObservedAtNs, Some cnameObservedAtNs =>
      if os_expiredPublished o then None
      else
        let srDeadline := calculateDeadline senderReportObservedAtNs
          (if os_degradedPublished o then os_maximumExtrapolationNs o else os_senderReportTimeoutNs o) in
        let cnameDeadline := calculateDeadline cnameObservedAtNs (os_cnameTimeoutNs o) in
        Some (Z.min srDeadline cnameDeadline)
  | _, _ => None
  end.

Definition receiveTimeoutMs (observedAtNs plannedMaximumMs : Z) (o : ObservationSchedule) : Result Z :=
  if (observedAtNs <? 0) || (plannedMaximumMs <=? 0)
  then failure (invalidArgument
    "RTP clock receive timeout requires non-negative observation time and positive maximum")
  else
    match nextDeadlineNs o with
    | None => Success plannedMaximumMs
    | Some deadline =>
        if deadline <=? observedAtNs then Success 1
        else
          let remainingNs := deadline - observedAtNs in
          let ceilingMs := 1 + Z.quot (remainingNs - 1) 1000000 in
          Success (Z.min plannedMaximumMs ceilingMs)
    end.

Definition publish (degraded expired : bool) (o : ObservationSchedule) : ObservationSchedule :=
  withEvidence (os_senderReportObservedAtNs o) (os_cnameObservedAtNs o) degraded expired o.

Definition transition (observedAtNs : Z) (o : ObservationSchedule) :
  Result (option MediaRtpClockAgeTransition) * ObservationSchedule :=
  if observedAtNs <? 0
  then (failure (invalidArgument "RTP clock transition observation time must be non-negative"), o)
  else
    match nextDeadlineNs o with
    | None => (Success None, o)
    | Some deadline =>
        if observedAtNs <=? deadline then (Success None, o)
        else
          let cnameDeadline := calculateDeadline (default 0 (os_cnameObservedAtNs o)) (os_cnameTimeoutNs o) in
          if cnameDeadline <=? observedAtNs
          then (Success (Some Expired), publish (os_degradedPublished o) true o)
          else if negb (os_degradedPublished o) then
            let o := publish true (os_expiredPublished o) o in
            if negb (bool_decide (os_lossPolicy o = FailOnDegraded)) then (Success None, o)
            else (Success (Some Degraded), o)
          else (Success (Some Expired), publish (os_degradedPublished o) true o)
    end.

Definition resetObservation (o : ObservationSchedule) : ObservationSchedule := withEvidence None None false false o.

(** *** The receiver wakes in time, and each step of ageing is published once *)

Lemma calculateDeadline_min observedAtNs intervalNs : is_i 64 observedAtNs -> 0 < intervalNs -> is_i 64 intervalNs ->
  calculateDeadline observedAtNs intervalNs = Z.min int64_max (observedAtNs + intervalNs).
Proof. intros. unfold calculateDeadline. destruct (Z.ltb_spec (int64_max - intervalNs) observedAtNs); ranges; lia. Qed.

(** The planned intervals and the observation times. *)
Record observationOk (o : ObservationSchedule) : Prop := {
  oo_ordered : 0 < os_senderReportTimeoutNs o < os_maximumExtrapolationNs o /\ is_i 64 (os_maximumExtrapolationNs o);
  oo_cname : 0 < os_cnameTimeoutNs o /\ is_i 64 (os_cnameTimeoutNs o);
  oo_reportTime : forall t, os_senderReportObservedAtNs o = Some t -> 0 <= t /\ is_i 64 t;
  oo_cnameTime : forall t, os_cnameObservedAtNs o = Some t -> 0 <= t /\ is_i 64 t;
}.

(** The ages of the evidence at a time. *)
Definition reportAge (o : ObservationSchedule) (now : Z) : Z := now - default now (os_senderReportObservedAtNs o).
Definition cnameAge (o : ObservationSchedule) (now : Z) : Z := now - default now (os_cnameObservedAtNs o).

Lemma nextDeadline_spec o : observationOk o ->
  match nextDeadlineNs o with
  | None => os_expiredPublished o = true \/ os_senderReportObservedAtNs o = None \/ os_cnameObservedAtNs o = None
  | Some deadline => os_expiredPublished o = false /\ exists sr cn,
      os_senderReportObservedAtNs o = Some sr /\ os_cnameObservedAtNs o = Some cn /\
      deadline = Z.min (Z.min int64_max
        (sr + (if os_degradedPublished o then os_maximumExtrapolationNs o else os_senderReportTimeoutNs o)))
        (Z.min int64_max (cn + os_cnameTimeoutNs o))
  end.
Proof.
  intros [[Ho Ho'] [Hc Hc'] Hr Hn]. unfold nextDeadlineNs. destruct (os_senderReportObservedAtNs o) as [sr |]; [| tauto].
  destruct (os_cnameObservedAtNs o) as [cn |]; [| tauto]. destruct (os_expiredPublished o); [tauto |].
  split; [done |]. exists sr, cn. split_and!; [done.. |]. destruct (Hr sr eq_refl), (Hn cn eq_refl).
  rewrite !calculateDeadline_min; [done | done.. | |]; destruct (os_degradedPublished o); ranges; lia.
Qed.

(** The receiver sleeps at most until just past the next deadline, and as long
    as that and the plan allow. *)
Lemma receiveTimeout_spec o now maximum : observationOk o -> 0 <= now -> is_i 64 now -> 0 < maximum ->
  exists ms, receiveTimeoutMs now maximum o = Success ms /\ 1 <= ms <= maximum /\
    forall deadline, nextDeadlineNs o = Some deadline ->
      (now < deadline -> now + (ms - 1) * 1000000 < deadline /\ (ms = maximum \/ deadline <= now + ms * 1000000)) /\
      (deadline <= now -> ms = 1).
Proof.
  intros Ho Hnow Hn Hm. unfold receiveTimeoutMs. destruct (Z.ltb_spec now 0); [lia |].
  destruct (Z.leb_spec maximum 0); [lia |]. cbn [orb]. destruct (nextDeadlineNs o) as [deadline |].
  2: { exists maximum. split_and!; [done | lia | lia | done]. }
  destruct (Z.leb_spec deadline now).
  { exists 1. split_and!; [done | lia | lia |]. intros d [= <-]. split; [lia | done]. }
  cbv zeta. rewrite Z.quot_div_nonneg by lia. set (q := (deadline - now - 1) / 1000000).
  assert (Hq : 0 <= q /\ q * 1000000 <= deadline - now - 1 < (q + 1) * 1000000) by (unfold q; divmod). clearbody q.
  exists (Z.min maximum (1 + q)). split_and!; [done | lia | lia |]. intros d [= <-]. split; [|lia]. intros _. lia.
Qed.

(** A transition, with the deadlines resolved. *)
Lemma transition_spec o now sr cn : observationOk o -> 0 <= now < int64_max ->
  os_senderReportObservedAtNs o = Some sr -> os_cnameObservedAtNs o = Some cn -> os_expiredPublished o = false ->
  let reportDeadline := sr + (if os_degradedPublished o then os_maximumExtrapolationNs o else os_senderReportTimeoutNs o) in
  let cnameDeadline := cn + os_cnameTimeoutNs o in
  transition now o =
  if (now <=? reportDeadline) && (now <=? cnameDeadline) then (Success None, o)
  else if (cnameDeadline <=? now) || os_degradedPublished o then (Success (Some Expired), publish (os_degradedPublished o) true o)
  else (Success (if bool_decide (os_lossPolicy o = FailOnDegraded) then Some Degraded else None), publish true false o).
Proof.
  intros Hok Hnow Esr Ecn Eexp. cbv zeta. pose proof (nextDeadline_spec o Hok) as Hd. unfold transition.
  destruct (Z.ltb_spec now 0); [lia |].
  destruct (nextDeadlineNs o) as [deadline |]; [| destruct Hd as [? | [? | ?]]; congruence].
  destruct Hd as (_ & sr' & cn' & E1 & E2 & ->). rewrite Esr in E1. rewrite Ecn in E2. injection E1 as <-. injection E2 as <-.
  rewrite Ecn. cbn [default from_option]. destruct Hok as [_ [Hc Hc'] _ Hn]. destruct (Hn cn Ecn) as [Hcn Hcn'].
  unfold id. rewrite calculateDeadline_min by done. set (rd := sr + _) in *. set (cd := cn + _) in *. clearbody rd cd.
  repeat match goal with
  | |- context [?x <=? ?y] => destruct (Z.leb_spec x y)
  end; cbn [andb orb]; try lia; try done.
  rewrite Eexp. destruct (os_degradedPublished o); cbn [negb]; [done |]. change (os_lossPolicy (publish true false o)) with (os_lossPolicy o).
  by case_bool_decide.
Qed.

Lemma ageing_publish_ok degraded expired o : observationOk o -> observationOk (publish degraded expired o).
Proof. by intros []. Qed.

Lemma expired_silent o now : os_expiredPublished o = true -> 0 <= now -> transition now o = (Success None, o).
Proof.
  intros E Hn. unfold transition, nextDeadlineNs. destruct (Z.ltb_spec now 0); [lia |]. rewrite E.
  by destruct (os_senderReportObservedAtNs o), (os_cnameObservedAtNs o).
Qed.

(** What the receiver publishes is what the age of the evidence calls for.
    Fresh evidence publishes nothing.  When the report alone has timed out the
    degradation is published once, to a receiver whose policy asks for it, and
    not again.  When the CNAME has timed out or the report is too old to
    extrapolate from, the expiry is published by the first call or the next one,
    and from then on nothing. *)
Theorem ageing_published o now sr cn :
  observationOk o -> 0 <= now < int64_max ->
  os_senderReportObservedAtNs o = Some sr -> os_cnameObservedAtNs o = Some cn -> os_expiredPublished o = false ->
  let '(r1, o1) := transition now o in
  let '(r2, o2) := transition now o1 in
  (now - sr <= os_senderReportTimeoutNs o -> now - cn <= os_cnameTimeoutNs o -> r1 = Success None /\ o1 = o) /\
  (os_senderReportTimeoutNs o < now - sr <= os_maximumExtrapolationNs o -> now - cn < os_cnameTimeoutNs o ->
     os_degradedPublished o = false ->
     r1 = Success (if bool_decide (os_lossPolicy o = FailOnDegraded) then Some Degraded else None) /\
     r2 = Success None /\ o2 = o1) /\
  (os_cnameTimeoutNs o < now - cn \/ os_maximumExtrapolationNs o < now - sr ->
     (r1 = Success (Some Expired) \/ r2 = Success (Some Expired)) /\
     forall later, 0 <= later -> transition later o2 = (Success None, o2)).
Proof.
  intros Hok Hnow Esr Ecn Eexp. pose proof (transition_spec o now sr cn Hok Hnow Esr Ecn Eexp) as E1. cbv zeta in E1.
  pose proof (oo_ordered _ Hok) as [Hord _]. destruct (transition now o) as [r1 o1].
  destruct (_ && _) eqn:Efresh in E1.
  { injection E1 as -> ->. pose proof (transition_spec o now sr cn Hok Hnow Esr Ecn Eexp) as E2. cbv zeta in E2.
    rewrite Efresh in E2. rewrite E2. split; [done |]. split; [intros; exfalso | intros [?|?]; exfalso].
    all: destruct (os_degradedPublished o); (done || lia). }
  destruct (_ || _) eqn:Eexpired in E1.
  { injection E1 as -> ->. rewrite expired_silent by (done || lia). split; [intros; exfalso | split; [intros; exfalso |]].
    1, 2: destruct (os_degradedPublished o); (done || lia).
    intros _. split; [by left |]. intros later ?. by apply expired_silent. }
  injection E1 as -> ->. apply orb_false_iff in Eexpired as [Ec Ed]. rewrite Ed in Efresh.
  pose proof (transition_spec (publish true false o) now sr cn (ageing_publish_ok _ _ _ Hok) Hnow Esr Ecn eq_refl) as E2. cbv zeta in E2.
  cbn [publish withEvidence os_degradedPublished os_maximumExtrapolationNs os_cnameTimeoutNs] in E2.
  destruct (_ && _) eqn:Elate in E2; rewrite E2.
  - split; [intros; lia |]. split; [intros; by split_and! |]. intros [?|?]; lia.
  - rewrite orb_true_r. split; [intros; lia |]. split; [intros; lia |]. intros _. split; [by right |].
    intros later ?. by apply expired_silent.
Qed.

Definition exampleObservation : ObservationSchedule := mkObservation 10 20 100 FailOnDegraded (Some 1000) (Some 1000) false false.

Lemma ageing_published_witness :
  transition 1015 exampleObservation = (Success (Some Degraded), publish true false exampleObservation) /\
  transition 1015 (publish true false exampleObservation) = (Success None, publish true false exampleObservation).
Proof.
  assert (Hok : observationOk exampleObservation).
  { split; cbn; [ranges; lia | ranges; lia | intros t [= <-]; ranges; lia | intros t [= <-]; ranges; lia]. }
  pose proof (ageing_published exampleObservation 1015 1000 1000 Hok ltac:(ranges; lia) eq_refl eq_refl eq_refl) as H.
  destruct (transition 1015 exampleObservation) as [r1 o1] eqn:E1. vm_compute in E1. injection E1 as <- <-.
  change (mkObservation 10 20 100 FailOnDegraded (Some 1000) (Some 1000) true false) with (publish true false exampleObservation) in *.
  destruct (transition 1015 (publish true false exampleObservation)) as [r2 o2].
  destruct H as (_ & H & _). destruct H as (-> & -> & ->); [cbn; lia | cbn; lia | reflexivity |]. split; reflexivity.
Defined.

End MediaRtpClockObservationSchedule.
