(* ===== verification/RtpClockGroup.v ===== *)
(** * One clock for the streams of an RTP source

    Models [protocol/rtp/MediaRtpClockGroupPolicy.{h,cpp}] and
    [MediaRtpClockGroupValidator.{h,cpp}]: video and audio are locked together
    when their evidence names the same source clock, and the common epoch of a
    group generation does not change. *)

From S2P Require Import Prelude MediaResult Model RtcpTracker RtpClock.
Import MediaRtcpSenderReportTracker (MediaRtcpClockEvidence, mkEvidence, ev_observedMediaSsrc, ev_senderReportSsrc, ev_cnameSsrc,
  ev_rtpTimestamp, ev_cname, ev_senderReportObservedAtNs, ev_cnameObservedAtNs, ev_generation).
Import MediaRtpSourceClock.

Local Open Scope Z_scope.

(** ** The epoch policy *)

Module MediaRtpClockGroupPolicy.

Inductive MediaRtpCommonEpochPolicy := EarliestLockedSenderReportSourceTime | UnknownEpochPolicy.

#[global] Instance MediaRtpCommonEpochPolicy_eq_dec : EqDecision MediaRtpCommonEpochPolicy.
Proof. solve_decision. Defined.

(** [None] is the null pointer. *)
Definition mediaRtpCommonEpochPolicyOptionValue (policy : MediaRtpCommonEpochPolicy) : option string :=
  match policy with
  | EarliestLockedSenderReportSourceTime => Some "earliest_locked_sender_report_source_time"%string
  | UnknownEpochPolicy => None
  end.

Definition parseMediaRtpCommonEpochPolicy (value : string) : Result MediaRtpCommonEpochPolicy :=
  if bool_decide (value = "earliest_locked_sender_report_source_time"%string)
  then Success EarliestLockedSenderReportSourceTime
  else failure (invalidArgument "RTP common epoch policy is missing or unsupported").

End MediaRtpClockGroupPolicy.

(** ** The validator *)

Module MediaRtpClockGroupValidator.
Import MediaRtpClockGroupPolicy.

Inductive MediaRtpClockGroupState := Acquiring | Locked | Degraded | ReacquireRequired.

#[global] Instance MediaRtpClockGroupState_eq_dec : EqDecision MediaRtpClockGroupState.
Proof. solve_decision. Defined.

Record MediaRtpClockGroupValidatorConfig := mkConfig {
  gc_senderReportTimeoutNs : Z;
  gc_maximumExtrapolationNs : Z;
  gc_maximumInterStreamClockOffsetSkewNs : Z;
  gc_videoCnameTimeoutNs : Z;
  gc_audioCnameTimeoutNs : Z;
  gc_requireMatchingCname : bool;
  gc_commonEpochPolicy : MediaRtpCommonEpochPolicy;
}.

Record MediaRtpLockedClockGroup := mkLockedGroup {
  lg_commonSourceEpoch : Z;
  lg_cname : list Z;
  lg_video : MediaRtpSourceClockCalibration;
  lg_audio : MediaRtpSourceClockCalibration;
}.

Record MediaRtpClockGroupSnapshot := mkSnapshot {
  sp_state : MediaRtpClockGroupState;
  sp_groupGeneration : Z;
  sp_locked : option MediaRtpLockedClockGroup;
}.

Inductive Phase := InitialAcquisition | ActiveGeneration.

#[global] Instance Phase_eq_dec : EqDecision Phase.
Proof. solve_decision. Defined.

Record StreamState := mkStream {
  st_evidence : MediaRtcpClockEvidence;
  st_calibration : MediaRtpSourceClockCalibration;
}.

Record Validator := mkValidator {
  gv_config : MediaRtpClockGroupValidatorConfig;
  gv_video : option StreamState;
  gv_audio : option StreamState;
  gv_commonSourceEpoch : option Z;
  gv_groupGeneration : Z;
  gv_reacquireRequired : bool;
  gv_phase : Phase;
}.

Definition invalid (message : string) : Status := failure (invalidArgument message).

Definition matchingCalibration (evidence : MediaRtcpClockEvidence) (calibration : MediaRtpSourceClockCalibration) : bool :=
  (ev_observedMediaSsrc evidence =? ev_senderReportSsrc evidence) &&
  (ev_observedMediaSsrc evidence =? ev_cnameSsrc evidence) &&
  (ev_observedMediaSsrc evidence =? cb_ssrc calibration) &&
  bool_decide (ev_cname evidence = cb_cname calibration) &&
  (ev_generation evidence =? cb_generation calibration) &&
  (ev_rtpTimestamp evidence =? cb_rtpAnchor calibration) &&
  (ev_senderReportObservedAtNs evidence =? cb_senderReportObservedAtNs calibration).

Definition checkedSubtract (lhs rhs : Z) : option Z :=
  if ((0 <? rhs) && (lhs <? int64_min + rhs)) || ((rhs <? 0) && (int64_max + rhs <? lhs)) then None
  else Some (lhs - rhs).

Definition initialAcquisitionClockOffsetSkew (videoEvidence : MediaRtcpClockEvidence)
  (videoCalibration : MediaRtpSourceClockCalibration) (audioEvidence : MediaRtcpClockEvidence)
  (audioCalibration : MediaRtpSourceClockCalibration) : option Z :=
  let videoOffset :=
    checkedSubtract (cb_actualSenderReportSourceTime videoCalibration) (ev_senderReportObservedAtNs videoEvidence) in
  let audioOffset :=
    checkedSubtract (cb_actualSenderReportSourceTime audioCalibration) (ev_senderReportObservedAtNs audioEvidence) in
  match videoOffset, audioOffset with
  | Some videoOffset, Some audioOffset =>
      if audioOffset <=? videoOffset then checkedSubtract videoOffset audioOffset else checkedSubtract audioOffset videoOffset
  | _, _ => None
  end.

Definition createValidator (config : MediaRtpClockGroupValidatorConfig) : Result Validator :=
  if (gc_senderReportTimeoutNs config <=? 0) || (gc_maximumExtrapolationNs config <=? gc_senderReportTimeoutNs config) ||
     (gc_maximumInterStreamClockOffsetSkewNs config <=? 0) || (gc_videoCnameTimeoutNs config <=? 0) ||
     (gc_audioCnameTimeoutNs config <=? 0) ||
     negb (bool_decide (gc_commonEpochPolicy config = EarliestLockedSenderReportSourceTime))
  then failure (invalidArgument "RTP clock group validator requires complete ordered planner thresholds")
  else Success (mkValidator config None None None 0 false InitialAcquisition).

Definition clear (requireReacquisition : bool) (v : Validator) : Validator :=
  mkValidator (gv_config v) None None None
    (if bool_decide (gv_phase v = ActiveGeneration) then u64 (gv_groupGeneration v + 1) else gv_groupGeneration v)
    requireReacquisition (gv_phase v).

Definition invalidate (v : Validator) : Validator := clear (bool_decide (gv_phase v = ActiveGeneration)) v.

Definition stream (streamKind : MediaStreamKind) (v : Validator) : option StreamState :=
  if bool_decide (streamKind = Stream_Video) then gv_video v else gv_audio v.

Definition setStream (streamKind : MediaStreamKind) (target : option StreamState) (v : Validator) : Validator :=
  if bool_decide (streamKind = Stream_Video)
  then mkValidator (gv_config v) target (gv_audio v) (gv_commonSourceEpoch v) (gv_groupGeneration v) (gv_reacquireRequired v) (gv_phase v)
  else mkValidator (gv_config v) (gv_video v) target (gv_commonSourceEpoch v) (gv_groupGeneration v) (gv_reacquireRequired v) (gv_phase v).

Definition setReacquire (required : bool) (v : Validator) : Validator :=
  mkValidator (gv_config v) (gv_video v) (gv_audio v) (gv_commonSourceEpoch v) (gv_groupGeneration v) required (gv_phase v).

(** The end of [observe], from the test that both streams are there. *)
Definition acquire (v : Validator) : Status * Validator :=
  match gv_video v, gv_audio v with
  | Some video, Some audio =>
      if gc_requireMatchingCname (gv_config v) && negb (bool_decide (ev_cname (st_evidence video) = ev_cname (st_evidence audio)))
      then (invalid "RTP clock group CNAME values do not match exactly", clear true v)
      else
        match initialAcquisitionClockOffsetSkew (st_evidence video) (st_calibration video)
                (st_evidence audio) (st_calibration audio) with
        | None => (invalid "RTP clock group sender report clock-offset arithmetic is not representable", clear true v)
        | Some skew =>
            if gc_maximumInterStreamClockOffsetSkewNs (gv_config v) <? skew
            then (invalid "RTP clock group sender report clock-offset skew exceeds planner threshold", clear true v)
            else (Success tt, setReacquire false v)
        end
  | _, _ => (Success tt, setReacquire false v)
  end.

Definition observe (streamKind : MediaStreamKind) (evidence : MediaRtcpClockEvidence)
  (calibration : MediaRtpSourceClockCalibration) (v : Validator) : Status * Validator :=
  let config := gv_config v in
  if negb (bool_decide (streamKind = Stream_Video) || bool_decide (streamKind = Stream_Audio)) ||
     (gc_requireMatchingCname config && bool_decide (ev_cname evidence = [])) ||
     (ev_senderReportObservedAtNs evidence <? 0) || (ev_cnameObservedAtNs evidence <? 0) ||
     negb (matchingCalibration evidence calibration)
  then (invalid "RTP clock group evidence identity is invalid", clear true v)
  else
    let observed := mkStream evidence calibration in
    match gv_phase v, gv_video v, gv_audio v, gv_reacquireRequired v with
    | ActiveGeneration, Some video, Some audio, false =>
        let committed := if bool_decide (streamKind = Stream_Video) then video else audio in
        if negb (ev_observedMediaSsrc evidence =? ev_observedMediaSsrc (st_evidence committed)) ||
           (gc_requireMatchingCname config && negb (bool_decide (ev_cname evidence = ev_cname (st_evidence committed)))) ||
           negb (ev_generation evidence =? ev_generation (st_evidence committed))
        then (invalid "RTP clock group active stream identity or generation changed", clear true v)
        else (Success tt, setStream streamKind (Some observed) v)
    | _, _, _, _ =>
        let v :=
          match stream streamKind v with
          | Some target => if negb (ev_generation (st_evidence target) =? ev_generation evidence) then clear false v else v
          | None => v
          end in
        acquire (setStream streamKind (Some observed) v)
    end.

Definition initialCandidateIsFresh (s : StreamState) (observedAtNs cnameTimeoutNs : Z) (v : Validator) : bool :=
  if (observedAtNs <? ev_senderReportObservedAtNs (st_evidence s)) || (observedAtNs <? ev_cnameObservedAtNs (st_evidence s))
  then false
  else
    (observedAtNs - ev_senderReportObservedAtNs (st_evidence s) <=? gc_senderReportTimeoutNs (gv_config v)) &&
    (negb (gc_requireMatchingCname (gv_config v)) ||
     (observedAtNs - ev_cnameObservedAtNs (st_evidence s) <=? cnameTimeoutNs)).

Definition discardExpiredInitialCandidates (observedAtNs : Z) (v : Validator) : Validator :=
  let keep s cnameTimeoutNs :=
    match s with
    | Some candidate => if negb (initialCandidateIsFresh candidate observedAtNs cnameTimeoutNs v) then None else s
    | None => None
    end in
  mkValidator (gv_config v) (keep (gv_video v) (gc_videoCnameTimeoutNs (gv_config v)))
    (keep (gv_audio v) (gc_audioCnameTimeoutNs (gv_config v)))
    (gv_commonSourceEpoch v) (gv_groupGeneration v) (gv_reacquireRequired v) (gv_phase v).

(** The two [age] lambdas of [snapshot]. *)
Definition ageOf (observedAtNs evidenceAtNs : Z) : option Z :=
  if observedAtNs <? evidenceAtNs then None else Some (observedAtNs - evidenceAtNs).

(** An age that is missing or beyond the limit. *)
Definition tooOld (age : option Z) (limit : Z) : bool :=
  match age with Some a => limit <? a | None => true end.

Definition snapshot (observedAtNs : Z) (v : Validator) : MediaRtpClockGroupSnapshot * Validator :=
  let config := gv_config v in
  let state := if gv_reacquireRequired v then ReacquireRequired else Acquiring in
  let '(groupGeneration, v) :=
    if bool_decide (gv_phase v = InitialAcquisition) && negb (gv_reacquireRequired v)
    then (0, discardExpiredInitialCandidates observedAtNs v)
    else (gv_groupGeneration v, v) in
  match gv_reacquireRequired v, gv_video v, gv_audio v with
  | false, Some video, Some audio =>
      let videoAge := ageOf observedAtNs (ev_senderReportObservedAtNs (st_evidence video)) in
      let audioAge := ageOf observedAtNs (ev_senderReportObservedAtNs (st_evidence audio)) in
      let videoCnameAge :=
        if gc_requireMatchingCname config then ageOf observedAtNs (ev_cnameObservedAtNs (st_evidence video)) else Some 0 in
      let audioCnameAge :=
        if gc_requireMatchingCname config then ageOf observedAtNs (ev_cnameObservedAtNs (st_evidence audio)) else Some 0 in
      if tooOld videoAge (gc_maximumExtrapolationNs config) || tooOld audioAge (gc_maximumExtrapolationNs config) ||
         tooOld videoCnameAge (gc_videoCnameTimeoutNs config) || tooOld audioCnameAge (gc_audioCnameTimeoutNs config)
      then
        let v := clear true v in
        (mkSnapshot ReacquireRequired (gv_groupGeneration v) None, v)
      else if tooOld videoAge (gc_senderReportTimeoutNs config) || tooOld audioAge (gc_senderReportTimeoutNs config)
      then (mkSnapshot Degraded groupGeneration None, v)
      else
        let generation :=
          if bool_decide (gv_phase v = InitialAcquisition) then u64 (gv_groupGeneration v + 1) else gv_groupGeneration v in
        let videoCalibration := withConfidence Confidence_Locked (st_calibration video) in
        let audioCalibration := withConfidence Confidence_Locked (st_calibration audio) in
        let epoch :=
          match gv_commonSourceEpoch v with
          | Some epoch => epoch
          | None => Z.min (cb_actualSenderReportSourceTime videoCalibration) (cb_actualSenderReportSourceTime audioCalibration)
          end in
        (mkSnapshot Locked generation
           (Some (mkLockedGroup epoch (ev_cname (st_evidence video)) videoCalibration audioCalibration)),
         mkValidator config (Some video) (Some audio) (Some epoch) generation (gv_reacquireRequired v) ActiveGeneration)
  | _, _, _ => (mkSnapshot state groupGeneration None, v)
  end.

(** ** One epoch per generation *)

(** The identity of a stream that a locked generation is committed to. *)
Definition sameStream (config : MediaRtpClockGroupValidatorConfig) (s s' : StreamState) : Prop :=
  ev_observedMediaSsrc (st_evidence s') = ev_observedMediaSsrc (st_evidence s) /\
  ev_generation (st_evidence s') = ev_generation (st_evidence s) /\
  (gc_requireMatchingCname config = true -> ev_cname (st_evidence s') = ev_cname (st_evidence s)).

#[export] Instance sameStream_preorder config : PreOrder (sameStream config).
Proof.
  split; [done |]. intros x y z (? & ? & H1) (? & ? & H2). split_and!; [congruence | congruence |].
  intros Hr. by rewrite H2, H1.
Qed.

(** A locked state and what it locks. *)
Definition lockedOn (v : Validator) (epoch : Z) (video audio : StreamState) : Prop :=
  gv_commonSourceEpoch v = Some epoch /\ gv_video v = Some video /\ gv_audio v = Some audio.

Record groupOk (v : Validator) : Prop := {
  go_generation : is_u 64 (gv_groupGeneration v);
  go_epoch : forall e, gv_commonSourceEpoch v = Some e ->
    is_Some (gv_video v) /\ is_Some (gv_audio v) /\ gv_phase v = ActiveGeneration /\ gv_reacquireRequired v = false;
  go_cname : forall video audio, gv_video v = Some video -> gv_audio v = Some audio ->
    gc_requireMatchingCname (gv_config v) = true -> ev_cname (st_evidence video) = ev_cname (st_evidence audio);
}.

Definition kept (v v' : Validator) : Prop :=
  forall epoch video audio, lockedOn v epoch video audio ->
    exists video' audio', lockedOn v' epoch video' audio' /\
      sameStream (gv_config v) video video' /\ sameStream (gv_config v) audio audio'.

Definition stepOk (v v' : Validator) : Prop :=
  groupOk v' /\ gv_config v' = gv_config v /\
  ((gv_groupGeneration v' = gv_groupGeneration v /\ kept v v') \/ gv_groupGeneration v' = u64 (gv_groupGeneration v + 1)).

Lemma kept_refl v : kept v v.
Proof. intros e video audio H. by exists video, audio. Qed.

Lemma kept_trans v1 v2 v3 : gv_config v2 = gv_config v1 -> kept v1 v2 -> kept v2 v3 -> kept v1 v3.
Proof.
  intros Ec H1 H2 e video audio (video' & audio' & (video'' & audio'' & H & ? & ?)%H2 & ? & ?)%H1.
  rewrite Ec in *. exists video'', audio''. split_and!; [done | by etransitivity | by etransitivity].
Qed.

Lemma kept_unlocked v v' : gv_commonSourceEpoch v = None -> kept v v'.
Proof. intros E e video audio [H _]. congruence. Qed.

Lemma clear_ok required v : groupOk v -> stepOk v (clear required v).
Proof.
  intros [H1 H2 H3]. split_and!; [| done |].
  - split; cbn; [| done..]. case_bool_decide; [apply Z.mod_pos_bound; lia | done].
  - cbn. case_bool_decide as Hp; [by right | left]. split; [done |]. apply kept_unlocked.
    destruct (gv_commonSourceEpoch v) as [e |] eqn:E; [| done]. by destruct (H2 e eq_refl) as (_ & _ & ? & _).
Qed.

(** A step from a state with no epoch that keeps the generation. *)
Lemma unlocked_ok v v' : groupOk v' -> gv_config v' = gv_config v -> gv_groupGeneration v' = gv_groupGeneration v ->
  gv_commonSourceEpoch v = None -> stepOk v v'.
Proof. intros. split_and!; [done | done | left]. split; [done | by apply kept_unlocked]. Qed.

(** Clearing a state that differs from [v] in its streams only. *)
Lemma clear_after v v1 required : is_u 64 (gv_groupGeneration v) -> gv_config v1 = gv_config v ->
  gv_groupGeneration v1 = gv_groupGeneration v -> gv_commonSourceEpoch v = None -> stepOk v (clear required v1).
Proof.
  intros Hg Ec Eg Ee. split_and!; [| done |].
  - split; cbn; [| done..]. rewrite Eg. case_bool_decide; [apply Z.mod_pos_bound; lia | done].
  - cbn. rewrite Eg. case_bool_decide; [by right | left]. split; [done | by apply kept_unlocked].
Qed.

Lemma stream_cases kind (observed : StreamState) v : kind = Stream_Video \/ kind = Stream_Audio ->
  (stream kind v = gv_video v /\ gv_video (setStream kind (Some observed) v) = Some observed /\
     gv_audio (setStream kind (Some observed) v) = gv_audio v /\ kind = Stream_Video) \/
  (stream kind v = gv_audio v /\ gv_video (setStream kind (Some observed) v) = gv_video v /\
     gv_audio (setStream kind (Some observed) v) = Some observed /\ kind = Stream_Audio).
Proof. intros [-> | ->]; [by left | by right]. Qed.

Lemma setStream_fields kind target v :
  gv_config (setStream kind target v) = gv_config v /\ gv_commonSourceEpoch (setStream kind target v) = gv_commonSourceEpoch v /\
  gv_groupGeneration (setStream kind target v) = gv_groupGeneration v /\
  gv_reacquireRequired (setStream kind target v) = gv_reacquireRequired v /\ gv_phase (setStream kind target v) = gv_phase v.
Proof. unfold setStream. by case_bool_decide. Qed.

(** Evidence for a stream of a committed generation. *)
Lemma observe_committed kind evidence calibration v video audio :
  groupOk v -> kind = Stream_Video \/ kind = Stream_Audio -> gv_video v = Some video -> gv_audio v = Some audio ->
  gv_phase v = ActiveGeneration -> gv_reacquireRequired v = false ->
  let committed := if bool_decide (kind = Stream_Video) then video else audio in
  sameStream (gv_config v) committed (mkStream evidence calibration) ->
  stepOk v (setStream kind (Some (mkStream evidence calibration)) v).
Proof.
  intros [H1 H2 H3] Hkind Ev Ea Ep Er committed Hsame. set (observed := mkStream evidence calibration) in *.
  destruct (setStream_fields kind (Some observed) v) as (F1 & F2 & F3 & F4 & F5).
  destruct Hsame as (S1 & S2 & S3).
  destruct (stream_cases kind observed v Hkind) as [(_ & G1 & G2 & ->) | (_ & G1 & G2 & ->)]; cbn in committed; subst committed.
  all: split_and!; [split | done | left; split; [done |]].
  all: rewrite ?F1, ?F2, ?F3, ?F4, ?F5, ?G1, ?G2, ?Ev, ?Ea, ?Ep, ?Er; try done.
  - intros v0 a0 [= <-] [= <-] Hr. rewrite S3 by done. by apply H3.
  - intros e v0 a0 (E1 & E2 & E3). rewrite Ev in E2. rewrite Ea in E3. simplify_eq. exists observed, a0.
    split_and!; [by split_and!; rewrite ?F2, ?G1, ?G2 | by split_and! | done].
  - intros v0 a0 [= <-] [= <-] Hr. rewrite S3 by done. by apply H3.
  - intros e v0 a0 (E1 & E2 & E3). rewrite Ev in E2. rewrite Ea in E3. simplify_eq. exists v0, observed.
    split_and!; [by split_and!; rewrite ?F2, ?G1, ?G2 | done | by split_and!].
Qed.

Lemma acquire_ok v v1 : is_u 64 (gv_groupGeneration v) -> gv_config v1 = gv_config v ->
  gv_groupGeneration v1 = gv_groupGeneration v -> gv_commonSourceEpoch v = None -> gv_commonSourceEpoch v1 = None ->
  stepOk v (acquire v1).2.
Proof.
  intros Hg Ec Eg Ee Ee1. unfold acquire.
  assert (Hset : (forall video audio, gv_video v1 = Some video -> gv_audio v1 = Some audio ->
      gc_requireMatchingCname (gv_config v1) = true -> ev_cname (st_evidence video) = ev_cname (st_evidence audio)) ->
    stepOk v (setReacquire false v1)).
  { intros Hc. apply unlocked_ok; [| done..]. split; cbn; [by rewrite Eg | by rewrite Ee1 | done]. }
  destruct (gv_video v1) as [video |]; [| by apply Hset]. destruct (gv_audio v1) as [audio |]; [| by apply Hset].
  destruct (_ && _) eqn:Ecname; [by apply clear_after |].
  destruct (initialAcquisitionClockOffsetSkew _ _ _ _) as [skew |]; [| by apply clear_after].
  destruct (_ <? skew); [by apply clear_after |]. apply Hset. intros v0 a0 [= <-] [= <-] Hr. rewrite Hr in Ecname.
  cbn in Ecname. by apply negb_false_iff, bool_decide_eq_true in Ecname.
Qed.

(** Fresh evidence of another RTCP generation starts over with one stream. *)
Lemma restart_ok kind observed v : groupOk v -> kind = Stream_Video \/ kind = Stream_Audio ->
  stepOk v (acquire (setStream kind (Some observed) (clear false v))).2.
Proof.
  intros Hok Hkind. destruct (clear_ok false v Hok) as (Hok1 & _ & Hgen).
  destruct (setStream_fields kind (Some observed) (clear false v)) as (F1 & F2 & F3 & F4 & F5).
  assert (E : (acquire (setStream kind (Some observed) (clear false v))).2 = setReacquire false (setStream kind (Some observed) (clear false v))).
  { unfold acquire. destruct (stream_cases kind observed (clear false v) Hkind) as [(_ & -> & -> & _) | (_ & -> & -> & _)]; done. }
  rewrite E. split_and!; [split | done |]; cbn; rewrite ?F1, ?F2, ?F3, ?F4, ?F5; [apply Hok1 | done | | ].
  - destruct (stream_cases kind observed (clear false v) Hkind) as [(_ & -> & -> & _) | (_ & -> & -> & _)]; done.
  - destruct Hgen as [[Hgen _] | Hgen]; [left | by right]. split; [done |]. apply kept_unlocked.
    destruct (gv_commonSourceEpoch v) as [e |] eqn:Ee; [| done]. destruct (go_epoch _ Hok e Ee) as (_ & _ & Hp & _).
    cbn in Hgen. rewrite bool_decide_eq_true_2 in Hgen by done. pose proof (go_generation _ Hok). unfold u64 in Hgen.
    exfalso. revert Hgen. ranges. Z.to_euclidean_division_equations. lia.
Qed.

Lemma group_observe_ok kind evidence calibration v : groupOk v -> stepOk v (observe kind evidence calibration v).2.
Proof.
  intros Hok. unfold observe. cbv zeta. destruct (_ || _) eqn:Einvalid; [by apply clear_ok |].
  rewrite !orb_false_iff, negb_false_iff, orb_true_iff, !bool_decide_eq_true in Einvalid. destruct Einvalid as [[[[Hkind _] _] _] _].
  set (observed := mkStream evidence calibration).
  assert (Hacquire : gv_commonSourceEpoch v = None ->
    stepOk v (acquire (setStream kind (Some observed)
      match stream kind v with
      | Some target => if negb (ev_generation (st_evidence target) =? ev_generation evidence) then clear false v else v
      | None => v
      end)).2).
  { intros Ee. assert (Hkeep : stepOk v (acquire (setStream kind (Some observed) v)).2).
    { destruct (setStream_fields kind (Some observed) v) as (F1 & F2 & F3 & _).
      apply acquire_ok; [apply Hok | done | done | done | by rewrite F2]. }
    destruct (stream kind v) as [target |]; [| done]. destruct (negb _); [by apply restart_ok | done]. }
  assert (Hepoch : ~ (gv_phase v = ActiveGeneration /\ is_Some (gv_video v) /\ is_Some (gv_audio v) /\ gv_reacquireRequired v = false) ->
    gv_commonSourceEpoch v = None).
  { intros Hno. destruct (gv_commonSourceEpoch v) as [e |] eqn:Ee; [| done]. destruct Hno.
    destruct (go_epoch _ Hok e Ee) as (? & ? & ? & ?). done. }
  destruct (gv_phase v) eqn:Ep, (gv_video v) as [video |] eqn:Ev, (gv_audio v) as [audio |] eqn:Ea, (gv_reacquireRequired v) eqn:Er;
    try (apply Hacquire, Hepoch; intros (? & [? ?] & [? ?] & ?); done).
  destruct (_ || _) eqn:Esame; [by apply clear_ok |].
  rewrite !orb_false_iff, !negb_false_iff, !Z.eqb_eq in Esame. destruct Esame as [[E1 E2] E3].
  apply observe_committed with video audio; [done.. |]. split_and!; [by case_bool_decide | by case_bool_decide |].
  intros Hr. rewrite Hr in E2. cbn in E2. apply negb_false_iff, bool_decide_eq_true in E2. by case_bool_decide.
Qed.

(** A step that stays in the generation, before another one. *)
Lemma step_after v v1 v2 : gv_config v1 = gv_config v -> gv_groupGeneration v1 = gv_groupGeneration v -> kept v v1 ->
  stepOk v1 v2 -> stepOk v v2.
Proof.
  intros Ec Eg Hk (? & ? & Hs). split_and!; [done | by etransitivity |]. rewrite <- Eg.
  destruct Hs as [[? ?] | ?]; [left | by right]. split; [done | by eapply kept_trans].
Qed.

Lemma discard_ok now v : groupOk v -> gv_phase v = InitialAcquisition ->
  groupOk (discardExpiredInitialCandidates now v) /\ kept v (discardExpiredInitialCandidates now v).
Proof.
  intros Hok Hp. assert (Ee : gv_commonSourceEpoch v = None).
  { destruct (gv_commonSourceEpoch v) as [e |] eqn:Ee; [| done]. destruct (go_epoch _ Hok e Ee) as (_ & _ & ? & _). congruence. }
  split; [| by apply kept_unlocked]. destruct Hok as [H1 H2 H3]. split; cbn; [done | by rewrite Ee |].
  intros video audio Hv Ha. apply H3.
  - destruct (gv_video v) as [s |]; [| done]. by destruct (negb _).
  - destruct (gv_audio v) as [s |]; [| done]. by destruct (negb _).
Qed.

Lemma age_within now at_ limit : tooOld (ageOf now at_) limit = false -> 0 <= now - at_ <= limit.
Proof. unfold tooOld, ageOf. destruct (Z.ltb_spec now at_); [done |]. intros ?%Z.ltb_ge. lia. Qed.

Lemma snapshot_ok now v : groupOk v ->
  let '(s, v') := snapshot now v in
  stepOk v v' /\
  match sp_locked s with
  | None => True
  | Some g => sp_groupGeneration s = gv_groupGeneration v' /\ exists video audio,
      lockedOn v' (lg_commonSourceEpoch g) video audio /\
      lg_cname g = ev_cname (st_evidence video) /\
      lg_video g = withConfidence Confidence_Locked (st_calibration video) /\
      lg_audio g = withConfidence Confidence_Locked (st_calibration audio) /\
      0 <= now - ev_senderReportObservedAtNs (st_evidence video) <= gc_senderReportTimeoutNs (gv_config v) /\
      0 <= now - ev_senderReportObservedAtNs (st_evidence audio) <= gc_senderReportTimeoutNs (gv_config v) /\
      (gc_requireMatchingCname (gv_config v) = true ->
        0 <= now - ev_cnameObservedAtNs (st_evidence video) <= gc_videoCnameTimeoutNs (gv_config v) /\
        0 <= now - ev_cnameObservedAtNs (st_evidence audio) <= gc_audioCnameTimeoutNs (gv_config v))
  end.
Proof.
  intros Hok. unfold snapshot. cbv zeta.
  assert (Hstart : exists g1 v1, (if bool_decide (gv_phase v = InitialAcquisition) && negb (gv_reacquireRequired v)
      then (0, discardExpiredInitialCandidates now v) else (gv_groupGeneration v, v)) = (g1, v1) /\
    groupOk v1 /\ kept v v1 /\ gv_config v1 = gv_config v /\ gv_groupGeneration v1 = gv_groupGeneration v).
  { case_bool_decide as Hp; cbn [andb]; [destruct (gv_reacquireRequired v); cbn [negb] |].
    - exists (gv_groupGeneration v), v. by split_and!; [| | apply kept_refl | |].
    - exists 0, (discardExpiredInitialCandidates now v). by destruct (discard_ok now v Hok Hp).
    - exists (gv_groupGeneration v), v. by split_and!; [| | apply kept_refl | |]. }
  destruct Hstart as (g1 & v1 & -> & Hok1 & Hkept & Ec & Eg). rewrite <- Ec. clear Hok.
  assert (Hsame : stepOk v v1) by (split_and!; [done | done | by left]).
  destruct (gv_reacquireRequired v1) eqn:Er; [by split |].
  destruct (gv_video v1) as [video |] eqn:Ev; [| by split]. destruct (gv_audio v1) as [audio |] eqn:Ea; [| by split].
  destruct (_ || _) eqn:Eold; [split; [| done]; by eapply step_after, clear_ok |].
  destruct (_ || _) eqn:Edegraded in |- *; [by split |].
  apply orb_false_iff in Eold as [[_ Hcv]%orb_false_iff Hca], Edegraded as [Hv Ha]. cbn [sp_locked sp_groupGeneration gv_groupGeneration].
  split; [apply (step_after v v1); [done.. |] | split; [done |]].
  - split_and!; [split; cbn; [| done |] | done |].
    + destruct Hok1 as [Hg _ _]. case_bool_decide; [apply Z.mod_pos_bound; lia | done].
    + intros v0 a0 [= <-] [= <-]. by apply (go_cname _ Hok1).
    + cbn. case_bool_decide; [by right | left]. split; [done |]. intros e v0 a0 (E1 & E2 & E3). rewrite Ev in E2. rewrite Ea in E3.
      simplify_eq. exists v0, a0. rewrite E1. by split_and!.
  - apply age_within in Hv, Ha. exists video, audio. split_and!; try done; try lia.
    intros Hr. rewrite Hr in Hcv, Hca. split; by apply age_within.
Qed.

(** *** All calls *)

Inductive GroupCall :=
  | Call_Observe (kind : MediaStreamKind) (evidence : MediaRtcpClockEvidence) (calibration : MediaRtpSourceClockCalibration)
  | Call_Snapshot (observedAtNs : Z)
  | Call_Invalidate.

Definition call (v : Validator) (c : GroupCall) : Validator :=
  match c with
  | Call_Observe kind evidence calibration => (observe kind evidence calibration v).2
  | Call_Snapshot observedAtNs => (snapshot observedAtNs v).2
  | Call_Invalidate => invalidate v
  end.

Definition run (calls : list GroupCall) (v : Validator) : Validator := fold_left call calls v.

Lemma group_call_ok v c : groupOk v -> stepOk v (call v c).
Proof.
  intros Hok. destruct c as [kind evidence calibration | now |]; cbn [call]; [by apply group_observe_ok | | by apply clear_ok].
  pose proof (snapshot_ok now v Hok) as H. by destruct (snapshot now v) as [s v'], H.
Qed.

Lemma group_run_ok calls v : groupOk v ->
  groupOk (run calls v) /\ gv_config (run calls v) = gv_config v /\
  exists k, (k <= length calls)%nat /\ gv_groupGeneration (run calls v) = u64 (gv_groupGeneration v + Z.of_nat k) /\
    (k = 0%nat -> kept v (run calls v)).
Proof.
  revert v. induction calls as [| c calls IH]; intros v Hok; cbn [run fold_left].
  { split_and!; [done | done |]. exists 0%nat. split_and!; [done | | intros; apply kept_refl]. pose proof (go_generation _ Hok).
    unfold u64. by rewrite Z.add_0_r, Z.mod_small. }
  destruct (group_call_ok v c Hok) as (Hok1 & Ec1 & Hstep). destruct (IH (call v c) Hok1) as (Hok2 & Ec2 & k & Hk & Eg & Hf).
  split_and!; [done | by etransitivity |]. destruct Hstep as [[Eg1 Hf1] | Eg1].
  - exists k. rewrite Eg1 in Eg. split_and!; [cbn; lia | done |]. intros ->. by eapply kept_trans, Hf.
  - exists (S k). split_and!; [cbn; lia | | done]. fold (run calls (call v c)). rewrite Eg, Eg1. unfold u64.
    rewrite Zplus_mod_idemp_l. f_equal. lia.
Qed.

Lemma group_create_ok config v : createValidator config = Success v -> groupOk v /\ gv_config v = config.
Proof.
  unfold createValidator. destruct (_ || _); [by intros ?%failure_not |]. intros [= <-].
  by split.
Qed.

(** *** Where the streams come from

    A stream of a validator was observed by a call, with evidence that matches
    its calibration. *)

Definition heard (calls : list GroupCall) (v : Validator) : Prop :=
  forall kind s, kind = Stream_Video \/ kind = Stream_Audio -> stream kind v = Some s ->
    matchingCalibration (st_evidence s) (st_calibration s) = true /\
    Call_Observe kind (st_evidence s) (st_calibration s) ∈ calls.

(** [v'] has no other streams than [v]. *)
Definition fewerStreams (v v' : Validator) : Prop :=
  forall kind s, kind = Stream_Video \/ kind = Stream_Audio -> stream kind v' = Some s -> stream kind v = Some s.

Lemma fewer_streams v v' : (gv_video v' = None \/ gv_video v' = gv_video v) -> (gv_audio v' = None \/ gv_audio v' = gv_audio v) ->
  fewerStreams v v'.
Proof.
  intros Hv Ha kind s [-> | ->].
  - change (gv_video v' = Some s -> gv_video v = Some s). destruct Hv as [-> | ->]; done.
  - change (gv_audio v' = Some s -> gv_audio v = Some s). destruct Ha as [-> | ->]; done.
Qed.

Lemma acquire_fewer v : fewerStreams v (acquire v).2.
Proof.
  unfold acquire.
  destruct (gv_video v) eqn:Ev; [destruct (gv_audio v) eqn:Ea |].
  1: destruct (_ && _); [| destruct (initialAcquisitionClockOffsetSkew _ _ _ _); [destruct (_ <? _) |]].
  all: apply fewer_streams; cbn; rewrite ?Ev, ?Ea; auto.
Qed.

Lemma observe_streams kind evidence calibration v kind' s : kind' = Stream_Video \/ kind' = Stream_Audio ->
  stream kind' (observe kind evidence calibration v).2 = Some s ->
  stream kind' v = Some s \/
  (kind' = kind /\ s = mkStream evidence calibration /\ matchingCalibration evidence calibration = true).
Proof.
  intros Hk'. unfold observe. cbv zeta. destruct (_ || _) eqn:Einvalid; [by destruct Hk' as [-> | ->] |].
  rewrite !orb_false_iff, negb_false_iff, orb_true_iff, !bool_decide_eq_true, negb_false_iff in Einvalid.
  destruct Einvalid as [[[[Hkind _] _] _] Hm]. set (observed := mkStream evidence calibration).
  assert (Hset : forall v1, fewerStreams v v1 -> stream kind' (setStream kind (Some observed) v1) = Some s ->
    stream kind' v = Some s \/ (kind' = kind /\ s = observed /\ matchingCalibration evidence calibration = true)).
  { intros v1 Hless H. destruct (decide (kind' = kind)) as [-> | Hne].
    - right. destruct Hkind as [-> | ->]; cbn in H; by injection H as <-.
    - left. apply Hless; [done |]. destruct Hk' as [-> | ->], Hkind as [-> | ->]; done. }
  assert (Hacquire : forall v1, fewerStreams v v1 -> stream kind' (acquire (setStream kind (Some observed) v1)).2 = Some s ->
    stream kind' v = Some s \/ (kind' = kind /\ s = observed /\ matchingCalibration evidence calibration = true)).
  { intros v1 Hless H. apply (Hset v1 Hless). by apply acquire_fewer. }
  assert (Hstart : fewerStreams v match stream kind v with
    | Some target => if negb (ev_generation (st_evidence target) =? ev_generation evidence) then clear false v else v
    | None => v end).
  { destruct (stream kind v); [destruct (negb _) |]; apply fewer_streams; auto. }
  destruct (gv_phase v), (gv_video v), (gv_audio v), (gv_reacquireRequired v); try by apply Hacquire.
  destruct (_ || _); [by destruct Hk' as [-> | ->] |]. apply Hset. by apply fewer_streams; right.
Qed.

Lemma discard_fewer now v : fewerStreams v (discardExpiredInitialCandidates now v).
Proof.
  apply fewer_streams; cbn; [destruct (gv_video v) | destruct (gv_audio v)]; try destruct (negb _); auto.
Qed.

Lemma snapshot_fewer now v : fewerStreams v (snapshot now v).2.
Proof.
  unfold snapshot. cbv zeta.
  assert (Hstart : exists g1 v1, (if bool_decide (gv_phase v = InitialAcquisition) && negb (gv_reacquireRequired v)
      then (0, discardExpiredInitialCandidates now v) else (gv_groupGeneration v, v)) = (g1, v1) /\ fewerStreams v v1).
  { destruct (_ && _); eexists _, _; split; [done | apply discard_fewer | done | by intros k s]. }
  destruct Hstart as (g1 & v1 & -> & H1). intros kind s Hk Hs. apply (H1 kind s Hk). revert Hs.
  assert (Hless : forall v2, fewerStreams v1 v2 -> stream kind v2 = Some s -> stream kind v1 = Some s) by auto.
  destruct (gv_reacquireRequired v1); [done |].
  destruct (gv_video v1) eqn:Ev; [| done]. destruct (gv_audio v1) eqn:Ea; [| done].
  destruct (_ || _); [by destruct Hk as [-> | ->] |]. destruct (_ || _); [done |].
  apply Hless, fewer_streams; cbn; rewrite ?Ev, ?Ea; by right.
Qed.

Lemma heard_fewer calls more v v' : heard calls v -> fewerStreams v v' -> heard (calls ++ more) v'.
Proof.
  intros H Hless kind s Hk Hs. destruct (H kind s Hk (Hless kind s Hk Hs)) as [H1 H2]. split; [done |].
  apply elem_of_app. by left.
Qed.

Lemma heard_call calls v c : heard calls v -> heard (calls ++ [c]) (call v c).
Proof.
  intros H. destruct c as [kind evidence calibration | now |]; cbn [call].
  - intros kind' s Hk Hs. destruct (observe_streams _ _ _ _ _ _ Hk Hs) as [Hs' | (-> & -> & Hm)].
    + destruct (H kind' s Hk Hs') as [H1 H2]. split; [done |]. apply elem_of_app. by left.
    + split; [done |]. apply elem_of_app. right. by left.
  - eapply heard_fewer; [done | apply snapshot_fewer].
  - eapply heard_fewer; [done |]. by apply fewer_streams; left.
Qed.

Lemma heard_run calls : forall before v, heard before v -> heard (before ++ calls) (run calls v).
Proof.
  induction calls as [| c calls IH]; intros before v H; cbn [run fold_left]; [by rewrite app_nil_r |].
  rewrite (cons_middle c before calls), app_assoc. apply (IH (before ++ [c])), heard_call, H.
Qed.

Lemma matching_spec evidence calibration : matchingCalibration evidence calibration = true ->
  ev_observedMediaSsrc evidence = cb_ssrc calibration /\ ev_cname evidence = cb_cname calibration /\
  ev_generation evidence = cb_generation calibration /\
  ev_senderReportObservedAtNs evidence = cb_senderReportObservedAtNs calibration.
Proof. unfold matchingCalibration. rewrite !andb_true_iff, !Z.eqb_eq, bool_decide_eq_true. tauto. Qed.

(** What a locked snapshot reports of a stream, and that an observed evidence
    whose CNAME is fresh stands behind it. *)
Definition restsOn (calls : list GroupCall) (kind : MediaStreamKind) (config : MediaRtpClockGroupValidatorConfig)
    (cnameTimeoutNs now : Z) (c : MediaRtpSourceClockCalibration) : Prop :=
  0 <= now - cb_senderReportObservedAtNs c <= gc_senderReportTimeoutNs config /\
  exists evidence calibration, Call_Observe kind evidence calibration ∈ calls /\
    matchingCalibration evidence calibration = true /\ c = withConfidence Confidence_Locked calibration /\
    (gc_requireMatchingCname config = true -> 0 <= now - ev_cnameObservedAtNs evidence <= cnameTimeoutNs).

Definition sameSource (config : MediaRtpClockGroupValidatorConfig) (c c' : MediaRtpSourceClockCalibration) : Prop :=
  cb_ssrc c' = cb_ssrc c /\ cb_generation c' = cb_generation c /\
  (gc_requireMatchingCname config = true -> cb_cname c' = cb_cname c).

Lemma locked_rests calls now v : groupOk v -> heard calls v ->
  forall g, sp_locked (snapshot now v).1 = Some g ->
  exists video audio, lockedOn (snapshot now v).2 (lg_commonSourceEpoch g) video audio /\
    restsOn calls Stream_Video (gv_config v) (gc_videoCnameTimeoutNs (gv_config v)) now (lg_video g) /\
    restsOn calls Stream_Audio (gv_config v) (gc_audioCnameTimeoutNs (gv_config v)) now (lg_audio g) /\
    sameSource (gv_config v) (st_calibration video) (lg_video g) /\ sameSource (gv_config v) (st_calibration audio) (lg_audio g) /\
    matchingCalibration (st_evidence video) (st_calibration video) = true /\
    matchingCalibration (st_evidence audio) (st_calibration audio) = true /\
    lg_cname g = cb_cname (lg_video g) /\
    (gc_requireMatchingCname (gv_config v) = true -> cb_cname (lg_video g) = cb_cname (lg_audio g)).
Proof.
  intros Hok Hheard g Eg. pose proof (snapshot_ok now v Hok) as H. pose proof (heard_fewer calls [] _ _ Hheard (snapshot_fewer now v)) as Hh.
  rewrite app_nil_r in Hh. destruct (snapshot now v) as [s v']. cbn [fst snd] in *. rewrite Eg in H.
  destruct H as ((Hok' & Ec & _) & _ & video & audio & Hl & Ename & Ev & Ea & Hv & Ha & Hc). pose proof Hl as (_ & E2 & E3).
  destruct (Hh Stream_Video video (or_introl eq_refl) E2) as [Mv Cv]. destruct (Hh Stream_Audio audio (or_intror eq_refl) E3) as [Ma Ca].
  destruct (matching_spec _ _ Mv) as (V1 & V2 & V3 & V4). destruct (matching_spec _ _ Ma) as (A1 & A2 & A3 & A4).
  exists video, audio. rewrite Ev, Ea, Ename, V2. rewrite V4 in Hv. rewrite A4 in Ha.
  split; [done |]. split; [split; [done | by exists (st_evidence video), (st_calibration video); split_and!; [.. | apply Hc]] |].
  split; [split; [done | by exists (st_evidence audio), (st_calibration audio); split_and!; [.. | apply Hc]] |].
  split_and!; try done. intros Hr. cbn. rewrite <- V2, <- A2. apply (go_cname v'); [done.. |]. by rewrite Ec.
Qed.

Lemma heard_created config v : createValidator config = Success v -> heard [] v.
Proof.
  unfold createValidator. destruct (_ || _); [by intros ?%failure_not |]. intros [= <-]. by intros kind s [-> | ->].
Qed.

Lemma source_kept config s s' c c' :
  matchingCalibration (st_evidence s) (st_calibration s) = true -> matchingCalibration (st_evidence s') (st_calibration s') = true ->
  sameStream config s s' -> sameSource config (st_calibration s) c -> sameSource config (st_calibration s') c' -> sameSource config c c'.
Proof.
  intros (M1 & M2 & M3 & _)%matching_spec (N1 & N2 & N3 & _)%matching_spec (S1 & S2 & S3) (C1 & C2 & C3) (D1 & D2 & D3).
  split_and!; [congruence | congruence |]. intros Hr. specialize (S3 Hr). specialize (C3 Hr). specialize (D3 Hr). congruence.
Qed.

(** Fewer calls than generations cannot come back to a generation. *)
Lemma generation_kept v1 v2 calls k :
  groupOk v1 -> (k <= length calls)%nat -> Z.of_nat (length calls) + 1 < 2 ^ 64 ->
  gv_groupGeneration (run calls v1) = u64 (gv_groupGeneration v1 + Z.of_nat k) -> (k = 0%nat -> kept v1 (run calls v1)) ->
  gv_config (run calls v1) = gv_config v1 -> stepOk (run calls v1) v2 -> gv_groupGeneration v2 = gv_groupGeneration v1 ->
  kept v1 v2.
Proof.
  intros Hok Hk Hn Egen Hkept Ec (_ & _ & Hstep) Eg. pose proof (go_generation _ Hok) as Hr1.
  destruct Hstep as [[Egen2 Hkept2] | Egen2]; rewrite Egen in Egen2; rewrite Eg in Egen2.
  - assert (k = 0%nat) as ->.
    { clear - Egen2 Hr1 Hn Hk. revert Egen2. unfold u64. ranges. Z.to_euclidean_division_equations. lia. }
    by apply (kept_trans v1 (run calls v1)); auto.
  - exfalso. clear - Egen2 Hr1 Hn Hk. revert Egen2. unfold u64. rewrite Zplus_mod_idemp_l. ranges.
    Z.to_euclidean_division_equations. lia.
Qed.


(** *** Example *)

Definition exampleConfig : MediaRtpClockGroupValidatorConfig :=
  mkConfig 1000 2000 50 5000 5000 true EarliestLockedSenderReportSourceTime.

Definition exampleEvidence (ssrc at_ : Z) : MediaRtcpClockEvidence :=
  mkEvidence ssrc ssrc ssrc (Rtcp.MediaRtcpCompoundParser.mkRtcpNtp 1 0) 90000 [97] at_ at_ 0.

Definition exampleCalibration (ssrc at_ : Z) : MediaRtpSourceClockCalibration :=
  mkCalibration ssrc [97] 0 90000 90000 (at_ + 500) (at_ + 500) 1000000000 90000 at_ Confidence_Locked.

Definition exampleObserve (kind : MediaStreamKind) (ssrc at_ : Z) : GroupCall :=
  Call_Observe kind (exampleEvidence ssrc at_) (exampleCalibration ssrc at_).

Definition exampleBefore : list GroupCall := [exampleObserve Stream_Video 1 100; exampleObserve Stream_Audio 2 120].
Definition exampleCalls : list GroupCall := [exampleObserve Stream_Video 1 900].

Definition exampleValidator : Validator := mkValidator exampleConfig None None None 0 false InitialAcquisition.

Definition exampleGroup (videoAt : Z) : MediaRtpLockedClockGroup :=
  mkLockedGroup 600 [97] (exampleCalibration 1 videoAt) (exampleCalibration 2 120).


End MediaRtpClockGroupValidator.
