(* ===== verification/AudioGrid.v ===== *)
(** * Audio sample positions

    Models [sync/MediaAudioDriftServoLimits.h], [sync/MediaAudioSampleGrid.h]
    (times quantised to samples, and the samples to trim before an epoch) and
    [sync/MediaAudioDriftServoPolicyValidator] (a lead time that covers the
    longest gap between two measurements).  The theorems compare the 64-bit
    arithmetic of the code with the exact rational values.

    [/] and [%] of C++ truncate: [Z.quot] and [Z.rem]. *)

From S2P Require Import Prelude MediaResult CheckedArithmetic TimeBase.
Import MediaCheckedArithmetic MediaRunningTime.

Local Open Scope Z_scope.
Local Open Scope result_scope.

(** ** Rounding *)

(** The integer nearest to [n / d], halves away from zero. *)
Definition roundNearest (n d : Z) : Z := Z.sgn n * ((2 * Z.abs n + d) / (2 * d)).

(** What the code computes for it. *)
Lemma roundNearest_quot n d : 0 < d ->
  roundNearest n d =
    Z.quot n d + (if (d + 1) / 2 <=? Z.rem n d then 1 else if Z.rem n d <=? - ((d + 1) / 2) then -1 else 0).
Proof.
  intros Hd. unfold roundNearest.
  assert (Hh : d <= 2 * ((d + 1) / 2) <= d + 1) by (Z.to_euclidean_division_equations; lia).
  set (h := (d + 1) / 2) in *. clearbody h.
  assert (Hq : n = d * Z.quot n d + Z.rem n d) by (apply Z.quot_rem'; lia).
  pose proof (Z.rem_bound_abs n d ltac:(lia)) as Hr.
  pose proof (Z.rem_sign_nz n d ltac:(lia)) as Hs.
  destruct (Z.lt_trichotomy n 0) as [Hn | [-> | Hn]]; cycle 1.
  { rewrite Z.quot_0_l, Z.rem_0_l by lia. simpl.
    destruct (Z.leb_spec h 0), (Z.leb_spec 0 (- h)); lia. }
  - rewrite Z.sgn_pos, Z.mul_1_l, Z.abs_eq by lia.
    assert (0 <= Z.rem n d) by (apply Z.rem_nonneg; lia).
    symmetry. apply Z.div_unique_pos with (r := 2 * n + d - 2 * d * (Z.quot n d +
      (if h <=? Z.rem n d then 1 else if Z.rem n d <=? - h then -1 else 0))); [| lia].
    destruct (Z.leb_spec h (Z.rem n d)), (Z.leb_spec (Z.rem n d) (- h)); lia.
  - rewrite Z.sgn_neg, Z.abs_neq by lia.
    assert (Z.rem n d <= 0) by (apply Z.rem_nonpos; lia).
    cut ((2 * - n + d) / (2 * d) = - (Z.quot n d +
      (if h <=? Z.rem n d then 1 else if Z.rem n d <=? - h then -1 else 0))); [lia |].
    symmetry. apply Z.div_unique_pos with (r := 2 * - n + d + 2 * d * (Z.quot n d +
      (if h <=? Z.rem n d then 1 else if Z.rem n d <=? - h then -1 else 0))); [| lia].
    destruct (Z.leb_spec h (Z.rem n d)), (Z.leb_spec (Z.rem n d) (- h)); lia.
Qed.

(** It is at most half a unit away. *)
Lemma roundNearest_close n d : 0 < d -> - d <= 2 * (n - roundNearest n d * d) <= d.
Proof.
  intros Hd. unfold roundNearest.
  pose proof (Z.div_mod (2 * Z.abs n + d) (2 * d) ltac:(lia)) as E.
  pose proof (Z.mod_pos_bound (2 * Z.abs n + d) (2 * d) ltac:(lia)) as B.
  set (q := (2 * Z.abs n + d) / (2 * d)) in *. clearbody q.
  destruct (Z.lt_trichotomy n 0) as [Hn | [-> | Hn]].
  - rewrite Z.sgn_neg, Z.abs_neq in * by lia. lia.
  - simpl in *. lia.
  - rewrite Z.sgn_pos, Z.abs_eq in * by lia. lia.
Qed.

Lemma roundNearest_abs n d b : 0 < d -> Z.abs n <= b * d -> Z.abs (roundNearest n d) <= b.
Proof.
  intros Hd Hn. unfold roundNearest. rewrite Z.abs_mul.
  assert (0 <= (2 * Z.abs n + d) / (2 * d)) by (apply Z.div_pos; lia).
  assert ((2 * Z.abs n + d) / (2 * d) < b + 1) by (apply Z.div_lt_upper_bound; lia).
  destruct (Z.lt_trichotomy n 0) as [Hs | [-> | Hs]].
  - rewrite Z.sgn_neg by lia. lia.
  - simpl. lia.
  - rewrite Z.sgn_pos by lia. lia.
Qed.

Lemma roundNearest_nonneg n d : 0 < d -> 0 <= n -> 0 <= roundNearest n d.
Proof.
  intros Hd Hn. unfold roundNearest.
  assert (0 <= (2 * Z.abs n + d) / (2 * d)) by (apply Z.div_pos; lia).
  pose proof (Z.sgn_nonneg n). apply Z.mul_nonneg_nonneg; lia.
Qed.

Lemma roundNearest_nonpos n d : 0 < d -> n <= 0 -> roundNearest n d <= 0.
Proof.
  intros Hd Hn. unfold roundNearest.
  assert (0 <= (2 * Z.abs n + d) / (2 * d)) by (apply Z.div_pos; lia).
  destruct (decide (n = 0)) as [-> |]; [done |]. rewrite Z.sgn_neg by lia. lia.
Qed.

Lemma roundNearest_pos n d : 0 < d -> 0 <= n -> roundNearest n d = (2 * n + d) / (2 * d).
Proof.
  intros Hd Hn. unfold roundNearest. destruct (decide (n = 0)) as [-> |].
  - simpl. symmetry. apply Z.div_small. lia.
  - rewrite Z.sgn_pos, Z.abs_eq; lia.
Qed.

Lemma roundNearest_opp n d : roundNearest (- n) d = - roundNearest n d.
Proof. unfold roundNearest. rewrite Z.sgn_opp, Z.abs_opp. lia. Qed.

(** Whole units and a rest of the same sign are rounded separately. *)
Lemma roundNearest_split k m d : 0 < d -> (0 <= k /\ 0 <= m) \/ (k <= 0 /\ m <= 0) ->
  roundNearest (d * k + m) d = k + roundNearest m d.
Proof.
  intros Hd.
  assert (Hpos : forall k m, 0 <= k -> 0 <= m -> roundNearest (d * k + m) d = k + roundNearest m d).
  { clear k m. intros k m Hk Hm. rewrite !roundNearest_pos by lia.
    replace (2 * (d * k + m) + d) with (2 * m + d + k * (2 * d)) by lia. rewrite Z.div_add; lia. }
  intros [[Hk Hm] | [Hk Hm]]; [by apply Hpos |].
  replace (d * k + m) with (- (d * - k + - m)) by lia.
  rewrite roundNearest_opp, Hpos, roundNearest_opp; lia.
Qed.

(** ** Limits *)

Module MediaAudioDriftServoLimits.

Definition MaximumCorrectionLookaheadWindows : Z := 8.
Definition MaximumOutputSampleRate : Z := 384000.
Definition MaximumMeasurementGapNs : Z := 1000000000.
Definition MaximumPolicyDurationNs : Z := 60000000000.
Definition MaximumHardDiscontinuityNs : Z := 500000000.
Definition MaximumProportionalGainPpmPerSecond : Z := 100000.
Definition MaximumIntegralGainPpmPerSecondSquared : Z := 100000.
Definition MaximumMeasuredFrequencyPpm : Z := 1000000.
Definition MaximumNormalCorrectionPpm : Z := 1000.
Definition MaximumRecoveryCorrectionPpm : Z := 5000.
Definition NanosecondsPerSecond : Z := 1000000000.
Definition PartsPerMillion : Z := 1000000.

End MediaAudioDriftServoLimits.

(** ** The sample grid *)

Module MediaAudioSampleGrid.

(** A grid is its sample rate. *)
Definition createGrid (sampleRate : Z) : Result Z :=
  if sampleRate <=? 0
  then failure (invalidArgument "Audio sample grid requires a positive sample rate")
  else Success sampleRate.

Inductive Quantization := Nearest | Ceiling.

Definition overflow : Result Z :=
  failure (invalidArgument "Audio sample grid quantization is not representable").

Definition fractionalSamplesOf (fractionalProduct : Z) (quantization : Quantization) : Z :=
  let NanosecondsPerSecond := 1000000000 in
  let HalfSecondInNanoseconds := Z.quot NanosecondsPerSecond 2 in
  match quantization with
  | Nearest =>
      if 0 <=? fractionalProduct
      then Z.quot (i64 (fractionalProduct + HalfSecondInNanoseconds)) NanosecondsPerSecond
      else Z.quot (i64 (fractionalProduct - HalfSecondInNanoseconds)) NanosecondsPerSecond
  | Ceiling =>
      let fractionalSamples := Z.quot fractionalProduct NanosecondsPerSecond in
      if (0 <? fractionalProduct) && negb (Z.rem fractionalProduct NanosecondsPerSecond =? 0)
      then i64 (fractionalSamples + 1) else fractionalSamples
  end.

Definition quantize (sampleRate time : Z) (quantization : Quantization) : Result Z :=
  let NanosecondsPerSecond := 1000000000 in
  let wholeSeconds := Z.quot time NanosecondsPerSecond in
  let remainder := Z.rem time NanosecondsPerSecond in
  if ((0 <? wholeSeconds) && (Z.quot int64_max sampleRate <? wholeSeconds)) ||
     ((wholeSeconds <? 0) && (wholeSeconds <? Z.quot int64_min sampleRate))
  then overflow
  else
    let wholeSamples := i64 (wholeSeconds * sampleRate) in
    let fractionalProduct := i64 (remainder * sampleRate) in
    let fractionalSamples := fractionalSamplesOf fractionalProduct quantization in
    if ((0 <? fractionalSamples) && (i64 (int64_max - fractionalSamples) <? wholeSamples)) ||
       ((fractionalSamples <? 0) && (wholeSamples <? i64 (int64_min - fractionalSamples)))
    then overflow
    else Success (i64 (wholeSamples + fractionalSamples)).

Definition nearestSample (sampleRate time : Z) : Result Z := quantize sampleRate time Nearest.

Definition firstSampleAtOrAfter (sampleRate time : Z) : Result Z := quantize sampleRate time Ceiling.

Definition trimLeadingSamples (sampleRate packetStart epochSourceStart availableSamples : Z) : Result Z :=
  let* packetSample := nearestSample sampleRate packetStart in
  let* epochSample := firstSampleAtOrAfter sampleRate epochSourceStart in
  if epochSample <? packetSample
  then failure (invalidArgument "Audio epoch precedes the selected packet sample grid")
  else
    let distance := u64 (u64 epochSample - u64 packetSample) in
    if availableSamples <? distance
    then failure (invalidArgument "Audio epoch trim exceeds the selected packet span")
    else Success (u32 distance).

(** *** Exactness *)

(** The sample position of a time, before rounding, is [time * sampleRate]
    billionths. *)
Definition exactSamples (quantization : Quantization) (n : Z) : Z :=
  match quantization with
  | Nearest => roundNearest n 1000000000
  | Ceiling => ceilDiv n 1000000000
  end.

Lemma exactSamples_split q k m : (0 <= k /\ 0 <= m) \/ (k <= 0 /\ m <= 0) ->
  exactSamples q (1000000000 * k + m) = k + exactSamples q m.
Proof.
  intros Hs. destruct q; cbn [exactSamples]; [by apply roundNearest_split |].
  unfold ceilDiv. replace (1000000000 * k + m + 1000000000 - 1) with (m + 1000000000 - 1 + k * 1000000000) by lia.
  rewrite Z.div_add by lia. lia.
Qed.

Lemma exactSamples_sign q m : (0 <= m -> 0 <= exactSamples q m) /\ (m <= 0 -> exactSamples q m <= 0).
Proof.
  destruct q; cbn [exactSamples].
  - split; [apply roundNearest_nonneg | apply roundNearest_nonpos]; lia.
  - unfold ceilDiv. split; intros; Z.to_euclidean_division_equations; lia.
Qed.

Lemma exactSamples_abs q m b : Z.abs m <= b * 1000000000 -> Z.abs (exactSamples q m) <= b.
Proof.
  intros H. destruct q; cbn [exactSamples]; [by apply roundNearest_abs |].
  unfold ceilDiv. Z.to_euclidean_division_equations. lia.
Qed.

Lemma fractionalSamplesOf_exact q p : Z.abs p <= 2 ^ 31 * 1000000000 -> fractionalSamplesOf p q = exactSamples q p.
Proof.
  intros Hp. destruct q; cbn [fractionalSamplesOf exactSamples].
  - change (Z.quot 1000000000 2) with 500000000. rewrite roundNearest_quot by lia. change ((1000000000 + 1) / 2) with 500000000.
    destruct (Z.leb_spec 0 p); rewrite i64_small by (ranges; lia);
      repeat match goal with |- context [?x <=? ?y] => destruct (Z.leb_spec x y) end;
      Z.to_euclidean_division_equations; lia.
  - unfold ceilDiv. destruct (Z.ltb_spec 0 p), (Z.eqb_spec (Z.rem p 1000000000) 0); cbn [andb negb];
      rewrite ?i64_small; ranges; Z.to_euclidean_division_equations; lia.
Qed.

(** A whole number of seconds outside the guards is outside the range. *)
Lemma seconds_guard rate w : 0 < rate < 2 ^ 31 ->
  ((0 <? w) && (Z.quot int64_max rate <? w)) || ((w <? 0) && (w <? Z.quot int64_min rate)) = negb (isInt64 (w * rate)).
Proof.
  intros Hr. apply eq_true_iff_eq. rewrite orb_true_iff, !andb_true_iff, !Z.ltb_lt, negb_true_iff, <- not_true_iff_false, isInt64_spec.
  assert (E1 : Z.quot int64_max rate < w <-> int64_max < w * rate).
  { rewrite Z.quot_div_nonneg by (ranges; lia). split; intros H.
    - pose proof (Z.mul_div_le int64_max rate ltac:(lia)). pose proof (Z.mul_succ_div_gt int64_max rate ltac:(lia)). nia.
    - apply Z.div_lt_upper_bound; lia. }
  assert (E2 : w < Z.quot int64_min rate <-> w * rate < int64_min).
  { unfold int64_min. rewrite Z.quot_opp_l by lia. rewrite Z.quot_div_nonneg by lia. split; intros H.
    - pose proof (Z.mul_succ_div_gt (2 ^ 63) rate ltac:(lia)). nia.
    - assert (2 ^ 63 / rate < - w); [| lia]. apply Z.div_lt_upper_bound; lia. }
  rewrite E1, E2. ranges. nia.
Qed.

(** Quantising gives exactly the nearest (or the next) sample position, and
    reports an overflow exactly when that position has no 64-bit value. *)
Lemma quantize_exact rate time q : 0 < rate < 2 ^ 31 -> is_i 64 time ->
  quantize rate time q =
    let samples := exactSamples q (time * rate) in if isInt64 samples then Success samples else overflow.
Proof.
  intros Hr Ht. cbv zeta. unfold quantize. cbv zeta. rewrite seconds_guard by done.
  set (w := Z.quot time 1000000000). set (m := Z.rem time 1000000000).
  assert (E : time = 1000000000 * w + m) by (apply Z.quot_rem'; lia).
  assert (Hm : Z.abs m < 1000000000) by (apply (Z.rem_bound_abs time 1000000000); lia).
  assert (Hs : (0 <= w /\ 0 <= m) \/ (w <= 0 /\ m <= 0)).
  { subst w m. destruct (decide (0 <= time)).
    - left. split; [apply Z.quot_pos | apply Z.rem_nonneg]; lia.
    - right. split; [| apply Z.rem_nonpos; lia]. Z.to_euclidean_division_equations. lia. }
  clearbody w m.
  assert (Hp : Z.abs (m * rate) <= rate * 1000000000) by (rewrite Z.abs_mul, (Z.abs_eq rate) by lia; nia).
  rewrite (i64_small (m * rate)) by (ranges; nia). rewrite fractionalSamplesOf_exact by nia.
  pose proof (exactSamples_sign q (m * rate)) as [Hpos Hneg].
  pose proof (exactSamples_abs q (m * rate) rate ltac:(lia)) as Habs.
  replace (time * rate) with (1000000000 * (w * rate) + m * rate) by lia.
  rewrite exactSamples_split by nia. set (f := exactSamples q (m * rate)) in *. clearbody f.
  assert (Hf : (0 <= w * rate /\ 0 <= f) \/ (w * rate <= 0 /\ f <= 0)) by nia.
  set (k := w * rate) in *. clearbody k.
  destruct (isInt64 k) eqn:Hk; cbn [negb].
  - apply isInt64_spec in Hk. rewrite (i64_small k) by done.
    assert (Hg : ((0 <? f) && (i64 (int64_max - f) <? k)) || ((f <? 0) && (k <? i64 (int64_min - f))) = negb (isInt64 (k + f))).
    { apply eq_true_iff_eq. rewrite orb_true_iff, !andb_true_iff, !Z.ltb_lt, negb_true_iff, <- not_true_iff_false, isInt64_spec.
      destruct (decide (0 < f)); [rewrite (i64_small (int64_max - f)) by (ranges; lia); ranges; lia |].
      destruct (decide (f < 0)); [rewrite (i64_small (int64_min - f)) by (ranges; lia); ranges; lia |].
      ranges. lia. }
    rewrite Hg. destruct (isInt64 (k + f)) eqn:Hkf; cbn [negb]; [| done].
    apply isInt64_spec in Hkf. by rewrite i64_small.
  - apply not_true_iff_false in Hk. rewrite isInt64_spec in Hk.
    destruct (isInt64 (k + f)) eqn:Hkf; [| done]. apply isInt64_spec in Hkf. ranges. lia.
Qed.

(** The trim is the exact distance from the sample nearest to the packet to the
    first sample of the epoch; it fails exactly when one of the two positions
    has no 64-bit value, the epoch lies before the packet, or the packet has
    fewer samples. *)
Theorem trim_exact rate packetStart epochStart available n :
  0 < rate < 2 ^ 31 -> is_i 64 packetStart -> is_i 64 epochStart -> is_u 32 available ->
  trimLeadingSamples rate packetStart epochStart available = Success n <->
  is_i 64 (roundNearest (packetStart * rate) 1000000000) /\ is_i 64 (ceilDiv (epochStart * rate) 1000000000) /\
  ceilDiv (epochStart * rate) 1000000000 = roundNearest (packetStart * rate) 1000000000 + n /\ 0 <= n <= available.
Proof.
  intros Hr Hp He Ha. unfold trimLeadingSamples, nearestSample, firstSampleAtOrAfter.
  rewrite !quantize_exact by done. cbv zeta. cbn [exactSamples].
  set (ps := roundNearest _ _). set (es := ceilDiv _ _). clearbody ps es.
  assert (Hno : forall z, isInt64 z = false -> is_i 64 z -> False).
  { intros z Hz Hi. apply isInt64_spec in Hi. congruence. }
  destruct (isInt64 ps) eqn:E1; cbn [bindResult overflow].
  2: { split; [intros []%failure_not |]. intros (H & _). by destruct (Hno ps). }
  destruct (isInt64 es) eqn:E2; cbn [bindResult overflow].
  2: { split; [intros []%failure_not |]. intros (_ & H & _). by destruct (Hno es). }
  apply isInt64_spec in E1, E2.
  destruct (Z.ltb_spec es ps); [split; [intros []%failure_not | lia] |].
  assert (Hd : u64 (u64 es - u64 ps) = es - ps) by (ranges; Z.to_euclidean_division_equations; lia).
  rewrite Hd. destruct (Z.ltb_spec available (es - ps)); [split; [intros []%failure_not | lia] |].
  unfold u32. rewrite Z.mod_small by (ranges; lia). split.
  - intros [= <-]. split_and!; try done; lia.
  - intros (_ & _ & -> & _). f_equal. lia.
Qed.

Lemma trim_exact_witness : trimLeadingSamples 48000 1000000000 1001000000 1024 = Success 48.
Proof. apply (trim_exact 48000 1000000000 1001000000 1024 48); vm_compute; intuition discriminate. Defined.

End MediaAudioSampleGrid.

(** ** The lead of the correction commands *)

Module MediaAudioDriftServoPolicyValidator.
Import MediaAudioDriftServoLimits.

Definition leadCoversWorstPositiveGap (leadNs gapNs outputSampleRate maximumPositiveCorrectionPpm : Z) : bool :=
  if (leadNs <=? 0) || (gapNs <=? 0) || (outputSampleRate <=? 0) || (maximumPositiveCorrectionPpm <? 0) ||
     (MaximumOutputSampleRate <? outputSampleRate) || (MaximumMeasurementGapNs <? gapNs) ||
     (MaximumPolicyDurationNs <? leadNs)
  then false
  else
    let rate := outputSampleRate in
    let correctionScale := i64 (PartsPerMillion + maximumPositiveCorrectionPpm) in
    let leadLower := Z.quot (i64 (leadNs * rate)) NanosecondsPerSecond in
    let gapRateProduct := i64 (gapNs * rate) in
    let wholeNominalSamples := Z.quot gapRateProduct NanosecondsPerSecond in
    let nominalRemainder := Z.rem gapRateProduct NanosecondsPerSecond in
    let scaledWhole := i64 (wholeNominalSamples * correctionScale) in
    let wholeOutputSamples := Z.quot scaledWhole PartsPerMillion in
    let scaledWholeRemainder := Z.rem scaledWhole PartsPerMillion in
    let fractionalNumerator :=
      i64 (i64 (scaledWholeRemainder * NanosecondsPerSecond) + i64 (nominalRemainder * correctionScale)) in
    let FractionalDenominator := i64 (NanosecondsPerSecond * PartsPerMillion) in
    let gapUpper :=
      i64 (wholeOutputSamples + Z.quot (i64 (i64 (fractionalNumerator + FractionalDenominator) - 1)) FractionalDenominator) in
    i64 (gapUpper + 1) <=? leadLower.

(** The samples of the longest gap, played with the largest correction, in
    exact arithmetic. *)
Definition gapSamples (gapNs rate ppm : Z) : Z := ceilDiv (gapNs * rate * (1000000 + ppm)) (1000000000 * 1000000).

(** The whole computation stays in 64 bits and is exact: a policy is accepted
    exactly when it is within the limits and the samples of its lead, rounded
    down, exceed those of the worst gap, rounded up. *)
Theorem lead_covers_exact leadNs gapNs rate ppm :
  is_i 64 leadNs -> is_i 64 gapNs -> is_i 32 rate -> is_i 32 ppm ->
  leadCoversWorstPositiveGap leadNs gapNs rate ppm = true <->
  0 < leadNs <= MaximumPolicyDurationNs /\ 0 < gapNs <= MaximumMeasurementGapNs /\
  0 < rate <= MaximumOutputSampleRate /\ 0 <= ppm /\
  gapSamples gapNs rate ppm < leadNs * rate / 1000000000.
Proof.
  intros _ _ _ Hppm. unfold leadCoversWorstPositiveGap.
  destruct (Z.leb_spec leadNs 0); [split; [done | lia] |].
  destruct (Z.leb_spec gapNs 0); [split; [done | lia] |].
  destruct (Z.leb_spec rate 0); [split; [done | lia] |].
  destruct (Z.ltb_spec ppm 0); [split; [done | lia] |].
  destruct (Z.ltb_spec MaximumOutputSampleRate rate); [split; [done | lia] |].
  destruct (Z.ltb_spec MaximumMeasurementGapNs gapNs); [split; [done | lia] |].
  destruct (Z.ltb_spec MaximumPolicyDurationNs leadNs); [split; [done | lia] |].
  cbn [orb]. cbv zeta. unfold MaximumOutputSampleRate, MaximumMeasurementGapNs, MaximumPolicyDurationNs, PartsPerMillion, NanosecondsPerSecond in *.
  rewrite (i64_small (1000000 + ppm)) by (ranges; lia). set (s := 1000000 + ppm).
  assert (Hs : 1000000 <= s <= 1000000 + 2 ^ 31) by (subst s; ranges; lia).
  assert (Hl : 0 <= leadNs * rate <= 60000000000 * 384000) by nia.
  assert (Hg : 0 <= gapNs * rate <= 1000000000 * 384000) by nia.
  rewrite (i64_small (leadNs * rate)), (i64_small (gapNs * rate)), (i64_small (1000000000 * 1000000)) by (ranges; lia).
  unfold gapSamples. fold s. set (g := gapNs * rate) in *. set (l := leadNs * rate) in *. clearbody g l s.
  rewrite (Z.quot_div_nonneg g), (Z.quot_div_nonneg l), (Z.rem_mod_nonneg g) by lia.
  pose proof (Z.div_mod g 1000000000 ltac:(lia)) as E1. pose proof (Z.mod_pos_bound g 1000000000 ltac:(lia)) as B1.
  assert (B2 : 0 <= g / 1000000000 <= 384000) by (split; [apply Z.div_pos | apply Z.div_le_upper_bound]; lia).
  set (whole := g / 1000000000) in *. set (nr := g mod 1000000000) in *. clearbody whole nr.
  assert (B3 : 0 <= whole * s <= 384000 * (1000000 + 2 ^ 31)) by nia.
  rewrite (i64_small (whole * s)) by (ranges; lia).
  rewrite (Z.quot_div_nonneg (whole * s)), (Z.rem_mod_nonneg (whole * s)) by lia.
  pose proof (Z.div_mod (whole * s) 1000000 ltac:(lia)) as E2. pose proof (Z.mod_pos_bound (whole * s) 1000000 ltac:(lia)) as B4.
  assert (B5 : 0 <= whole * s / 1000000 <= 384000 * (1000000 + 2 ^ 31)).
  { split; [apply Z.div_pos | apply Z.div_le_upper_bound]; lia. }
  set (wo := whole * s / 1000000) in *. set (sr := (whole * s) mod 1000000) in *. clearbody wo sr.
  assert (B6 : 0 <= nr * s <= 1000000000 * (1000000 + 2 ^ 31)) by nia.
  rewrite (i64_small (sr * 1000000000)), (i64_small (nr * s)) by (ranges; lia).
  rewrite (i64_small (sr * 1000000000 + nr * s)) by (ranges; lia).
  rewrite (i64_small (_ + 1000000000 * 1000000)) by (ranges; lia).
  rewrite (i64_small (_ + _ - 1)) by (ranges; lia).
  rewrite Z.quot_div_nonneg by lia.
  assert (E : ceilDiv (g * s) (1000000000 * 1000000) =
    wo + (sr * 1000000000 + nr * s + 1000000000 * 1000000 - 1) / (1000000000 * 1000000)).
  { unfold ceilDiv. rewrite <- Z.div_add_l by lia. f_equal. nia. }
  rewrite E. set (c := (_ + 1000000000 * 1000000 - 1) / _).
  assert (B7 : 0 <= c <= 10000) by (subst c; split; [apply Z.div_pos | apply Z.div_le_upper_bound]; lia).
  clearbody c. rewrite (i64_small (wo + c)), (i64_small (wo + c + 1)) by (ranges; lia).
  rewrite Z.leb_le. intuition lia.
Qed.

(** The planned policy: a second of gap at 48 kHz and five per mille. *)
Lemma lead_covers_exact_witness : gapSamples 1000000000 48000 5000 < 1006000000 * 48000 / 1000000000.
Proof.
  apply (lead_covers_exact 1006000000 1000000000 48000 5000);
    [ranges; lia.. | vm_compute; reflexivity].
Defined.

End MediaAudioDriftServoPolicyValidator.
