(* ===== verification/AvSyncPlan.v ===== *)
(** * The synchronisation plan and its validator

    Models [planner/avsync/MediaAvSyncPlan.h] (the policies of a session, every
    field optional until it is planned), [planner/realtime/
    MediaPreparedGenericInputPlan.{h,cpp}], [sync/startup/MediaAvStartupLimits.h]
    and [planner/avsync/MediaAvSyncPlanValidator.{h,cpp}].

    The conditions of the code dereference an optional only after an earlier
    operand of the same chain has tested it; [holds] and [both] are such tests
    on the values, false where one is missing. *)

From S2P Require Import Prelude MediaResult Model TimeBase CanonicalTime TsPsi Rtcp RtpClock RtpClockGroup AudioGrid.
Import MediaAvSyncError.
Import MediaAudioDriftServoLimits MediaAudioDriftServoPolicyValidator.

Local Open Scope Z_scope.

(** ** Prepared inputs *)

Module MediaPreparedGenericInput.

Inductive MediaPreparedLeadingVideoDisposition := RejectUntimed | DiscardUntimedNonKeyBeforeFirstTimedVideo.
Inductive MediaPreparedTimedStartupPrefixDisposition :=
  RejectUnpairedFirstPackets | DiscardEarlierCompleteTimedUntilCommonWindow.

#[global] Instance leading_eq_dec : EqDecision MediaPreparedLeadingVideoDisposition.
Proof. solve_decision. Defined.
#[global] Instance prefix_eq_dec : EqDecision MediaPreparedTimedStartupPrefixDisposition.
Proof. solve_decision. Defined.

Record MediaPreparedDemuxFirstPacketEvidence := mkFirstPacket {
  fp_streamIndex : Z;
  fp_timeBase : MediaRational;
  fp_pts : Z;
  fp_dts : Z;
  fp_duration : Z;
  fp_preparedReadOrdinal : Z;
}.

Record MediaPreparedGenericInputPlan := mkPrepared {
  gi_videoStreamIndex : Z;
  gi_audioStreamIndex : Z;
  gi_videoTimeBase : MediaRational;
  gi_audioTimeBase : MediaRational;
  gi_leadingVideoDisposition : MediaPreparedLeadingVideoDisposition;
  gi_timedStartupPrefixDisposition : MediaPreparedTimedStartupPrefixDisposition;
  gi_videoPacketCapacity : Z;
  gi_audioPacketCapacity : Z;
  gi_videoByteCapacity : Z;
  gi_audioByteCapacity : Z;
  gi_maximumVideoPacketBytes : Z;
  gi_maximumAudioPacketBytes : Z;
  gi_handoffVideoPacketCapacity : Z;
  gi_handoffAudioPacketCapacity : Z;
  gi_handoffVideoByteCapacity : Z;
  gi_handoffAudioByteCapacity : Z;
  gi_maximumPreparedReadDuration : Z;
  gi_maximumPreparedHandoffDuration : Z;
  gi_firstWindowMaximumSkew : Z;
}.

Record MediaPreparedGenericInputEvidence := mkPreparedEvidence {
  pe_firstVideo : MediaPreparedDemuxFirstPacketEvidence;
  pe_firstAudio : MediaPreparedDemuxFirstPacketEvidence;
  pe_discardedLeadingVideoPackets : Z;
  pe_discardedLeadingVideoBytes : Z;
  pe_discardedTimedVideoPrefixPackets : Z;
  pe_discardedTimedVideoPrefixBytes : Z;
  pe_discardedTimedAudioPrefixPackets : Z;
  pe_discardedTimedAudioPrefixBytes : Z;
}.

Definition validatePrepared (p : MediaPreparedGenericInputPlan) : Status :=
  if (gi_videoStreamIndex p <? 0) || (gi_audioStreamIndex p <? 0) || (gi_videoStreamIndex p =? gi_audioStreamIndex p) ||
     (num (gi_videoTimeBase p) <=? 0) || (den (gi_videoTimeBase p) <=? 0) ||
     (num (gi_audioTimeBase p) <=? 0) || (den (gi_audioTimeBase p) <=? 0) ||
     negb (bool_decide (gi_timedStartupPrefixDisposition p = DiscardEarlierCompleteTimedUntilCommonWindow)) ||
     (gi_videoPacketCapacity p =? 0) || (gi_audioPacketCapacity p =? 0) ||
     (gi_videoByteCapacity p =? 0) || (gi_audioByteCapacity p =? 0) ||
     (gi_maximumVideoPacketBytes p =? 0) || (gi_maximumAudioPacketBytes p =? 0) ||
     (gi_videoByteCapacity p <? gi_maximumVideoPacketBytes p) || (gi_audioByteCapacity p <? gi_maximumAudioPacketBytes p) ||
     (gi_handoffVideoPacketCapacity p =? 0) || (gi_handoffAudioPacketCapacity p =? 0) ||
     (gi_handoffVideoByteCapacity p =? 0) || (gi_handoffAudioByteCapacity p =? 0) ||
     (gi_handoffVideoByteCapacity p <? gi_maximumVideoPacketBytes p) ||
     (gi_handoffAudioByteCapacity p <? gi_maximumAudioPacketBytes p) ||
     (uint64_max - gi_videoPacketCapacity p <? gi_handoffVideoPacketCapacity p) ||
     (uint64_max - gi_audioPacketCapacity p <? gi_handoffAudioPacketCapacity p) ||
     (uint64_max - gi_videoByteCapacity p <? gi_handoffVideoByteCapacity p) ||
     (uint64_max - gi_audioByteCapacity p <? gi_handoffAudioByteCapacity p) ||
     (gi_maximumPreparedReadDuration p <=? 0) || (gi_maximumPreparedHandoffDuration p <=? 0) ||
     (gi_firstWindowMaximumSkew p <=? 0)
  then failure (invalidArgument "prepared generic input requires a complete positive planner product")
  else Success tt.

End MediaPreparedGenericInput.

(** ** The plan *)

Module MediaAvSyncPlan.
Import MediaPreparedGenericInput MediaRtcpCompoundParser MediaRtpClockGroupPolicy MediaRtpClockObservationSchedule MediaTsMuxPlan.

Inductive MediaControlGenerationPolicy := OptionalExactWhenPresent | RequiredExact.
Inductive MediaAvSyncMasterClockMode := SteadyMonotonic.
Inductive MediaAudioServoAntiWindupMode := ConditionalIntegration.
Inductive MediaAvSyncRtpStreamAssociationMode := UnknownAssociation | PlannedStreamPair.

#[global] Instance generationPolicy_eq_dec : EqDecision MediaControlGenerationPolicy.
Proof. solve_decision. Defined.
#[global] Instance masterMode_eq_dec : EqDecision MediaAvSyncMasterClockMode.
Proof. solve_decision. Defined.
#[global] Instance antiWindup_eq_dec : EqDecision MediaAudioServoAntiWindupMode.
Proof. solve_decision. Defined.
#[global] Instance association_eq_dec : EqDecision MediaAvSyncRtpStreamAssociationMode.
Proof. solve_decision. Defined.

Record MediaAvSyncStartupPolicy := mkStartupPolicy {
  su_requireVideoKeyFrame : option bool;
  su_trimAudioToCommonStart : option bool;
  su_maximumWaitNs : option Z;
  su_prerollNs : option Z;
  su_keyFrameWaitNs : option Z;
  su_maximumAudioTrimNs : option Z;
  su_maximumInitialSkewNs : option Z;
  su_maximumGapNs : option Z;
  su_outputLeadNs : option Z;
  su_videoCapacity : option Z;
  su_audioCapacity : option Z;
  su_videoByteCapacity : option Z;
  su_audioByteCapacity : option Z;
  su_maximumVideoUnitBytes : option Z;
  su_maximumAudioUnitBytes : option Z;
  su_videoIdentity : option string;
  su_audioIdentity : option string;
  su_allowDegradedClock : option bool;
}.

Record MediaAvSyncAudioServoPolicy := mkServoPolicy {
  sp_deadbandNs : option Z;
  sp_phaseFilterTimeConstantNs : option Z;
  sp_frequencyFilterTimeConstantNs : option Z;
  sp_proportionalGainPpmPerSecond : option Z;
  sp_integralGainPpmPerSecondSquared : option Z;
  sp_integratorLimitPpm : option Z;
  sp_frequencyFeedForwardNumerator : option Z;
  sp_frequencyFeedForwardDenominator : option Z;
  sp_frequencyDeadbandPpm : option Z;
  sp_maximumMeasuredFrequencyPpm : option Z;
  sp_recoveryExitFrequencyPpm : option Z;
  sp_antiWindupMode : option MediaAudioServoAntiWindupMode;
  sp_minimumUpdateIntervalNs : option Z;
  sp_maximumMeasurementGapNs : option Z;
  sp_maximumSlewPpmPerSecond : option Z;
  sp_normalCorrectionLimitPpm : option Z;
  sp_recoveryCorrectionLimitPpm : option Z;
  sp_recoveryEnterThresholdNs : option Z;
  sp_recoveryExitThresholdNs : option Z;
  sp_recoveryExitHoldNs : option Z;
  sp_compensationWindowNs : option Z;
  sp_commandLeadNs : option Z;
  sp_outputSampleRate : option Z;
  sp_correctionLookaheadWindows : option Z;
}.

Record MediaAvSyncVideoPolicy := mkVideoPolicy {
  vp_earlyHoldThresholdNs : option Z;
  vp_lateDisplayThresholdNs : option Z;
  vp_dropThresholdNs : option Z;
  vp_allowRecoveryRepeat : option bool;
  vp_maximumConsecutiveRecoveryActions : option Z;
}.

Record MediaAvSyncRecoveryPolicy := mkRecoveryPolicy {
  rc_suspectThresholdNs : option Z;
  rc_hardDiscontinuityThresholdNs : option Z;
  rc_reacquisitionTimeoutNs : option Z;
}.

Record MediaAvSyncRtpInputStreamPlan := mkInputStream {
  is_identity : option string;
  is_payloadType : option Z;
  is_clockRate : option Z;
}.

Record MediaAvSyncRtpInputPolicy := mkInputPolicy {
  ip_commonEpochPolicy : MediaRtpCommonEpochPolicy;
  ip_streamAssociationMode : MediaAvSyncRtpStreamAssociationMode;
  ip_rtcpCompositionMode : option MediaRtcpCompositionMode;
  ip_identityEvidenceTimeoutNs : option Z;
  ip_requireSenderReports : option bool;
  ip_senderReportTimeoutNs : option Z;
  ip_maximumExtrapolationNs : option Z;
  ip_clockLossPolicy : option MediaRtpClockLossPolicy;
  ip_secondaryClockLossPolicy : option MediaRtpClockLossPolicy;
  ip_maximumInterStreamClockOffsetSkewNs : option Z;
  ip_maximumSenderClockRateErrorPpm : option Z;
  ip_maximumSenderClockResidualNs : option Z;
}.

Record MediaAvSyncRtpOutputStreamPlan := mkOutputStream {
  ot_identity : option string;
  ot_payloadType : option Z;
  ot_clockRate : option Z;
  ot_ssrc : option Z;
  ot_baseTimestamp : option Z;
  ot_cname : option string;
}.

Record MediaAvSyncRtpInputPlan := mkRtpInput {
  ri_videoInput : MediaAvSyncRtpInputStreamPlan;
  ri_audioInput : MediaAvSyncRtpInputStreamPlan;
  ri_input : MediaAvSyncRtpInputPolicy;
}.

(** The policy of the output is its one member [useSharedNtpEpoch]. *)
Record MediaAvSyncRtpOutputPlan := mkRtpOutput {
  ro_videoOutput : MediaAvSyncRtpOutputStreamPlan;
  ro_audioOutput : MediaAvSyncRtpOutputStreamPlan;
  ro_useSharedNtpEpoch : option bool;
}.

Record MediaAvSyncMpegTsInputPlan := mkTsInput {
  ti_programNumber : option Z;
  ti_programMapPid : option Z;
  ti_videoPid : option Z;
  ti_audioPid : option Z;
  ti_pcrPid : option Z;
}.

Record MediaAvSyncDemuxTimestampInputPlan := mkDemuxInput {
  di_videoTimeBase : MediaRational;
  di_audioTimeBase : MediaRational;
  di_firstWindowMaximumSkewNs : option Z;
  di_discontinuityThresholdNs : option Z;
  di_initialGeneration : option Z;
  di_canonicalTargetEpochNs : option Z;
  di_preparedInput : option MediaPreparedGenericInputPlan;
  di_preparedEvidence : option MediaPreparedGenericInputEvidence;
}.

Record MediaAvSyncProjectMpegTsOutputPlan := mkTsOutput {
  to_outputMux : option MediaTsMuxPlanParameters;
  to_useSharedNtpEpoch : option bool;
}.

Record MediaAvSyncMetricsPolicy := mkMetrics {
  mt_collectStateAndGeneration : option bool;
  mt_collectClockEvidence : option bool;
  mt_collectQueueDurations : option bool;
  mt_collectPhaseErrors : option bool;
  mt_collectAudioCorrection : option bool;
  mt_collectVideoRecoveryCounts : option bool;
  mt_collectDiscontinuityCounts : option bool;
  mt_collectProtocolClockHealth : option bool;
  mt_maximumStartupSkewNs : option Z;
  mt_maximumSteadyP95SkewNs : option Z;
  mt_maximumSteadyP99SkewNs : option Z;
  mt_maximumDriftNsPerHour : option Z;
}.

Record Plan := mkPlan {
  pl_sourceClockMode : option MediaAvSyncSourceClockMode;
  pl_controlGenerationPolicy : option MediaControlGenerationPolicy;
  pl_masterClockMode : option MediaAvSyncMasterClockMode;
  pl_canonicalTimeBaseNumerator : option Z;
  pl_canonicalTimeBaseDenominator : option Z;
  pl_startup : MediaAvSyncStartupPolicy;
  pl_audioServo : MediaAvSyncAudioServoPolicy;
  pl_video : MediaAvSyncVideoPolicy;
  pl_recovery : MediaAvSyncRecoveryPolicy;
  pl_rtpInput : option MediaAvSyncRtpInputPlan;
  pl_mpegTsInput : option MediaAvSyncMpegTsInputPlan;
  pl_demuxTimestampInput : option MediaAvSyncDemuxTimestampInputPlan;
  pl_rtpOutput : option MediaAvSyncRtpOutputPlan;
  pl_projectMpegTsOutput : option MediaAvSyncProjectMpegTsOutputPlan;
  pl_metrics : MediaAvSyncMetricsPolicy;
}.

End MediaAvSyncPlan.

(** ** The validator *)

Module MediaAvSyncPlanValidator.
Import MediaRunningTime MediaPreparedGenericInput MediaAvSyncPlan.
Import MediaRtcpCompoundParser MediaRtpClockGroupPolicy MediaTsMuxPlan.

Definition MediaAvStartupMaximumUnitCapacity : Z := 256.

Definition invalid (field : string) : Status :=
  failure (invalidArgument ("Incomplete or inconsistent A/V synchronization plan: " +:+ field)).

Definition present {A} (value : option A) : bool := match value with Some _ => true | None => false end.

Definition holds {A} (p : A -> bool) (value : option A) : bool :=
  match value with Some x => p x | None => false end.

Definition both {A} (r : A -> A -> bool) (left right : option A) : bool :=
  match left, right with Some x, Some y => r x y | _, _ => false end.

Definition positive (value : option Z) : bool := holds (Z.ltb 0) value.

Definition presentText (value : option string) : bool := holds (fun s => negb (String.eqb s EmptyString)) value.

Definition validByteCapacity (units maximumUnitBytes bytes : option Z) : bool :=
  let MaximumSerialized := int64_max in
  positive units && positive maximumUnitBytes && positive bytes &&
  holds (fun b => b <=? MaximumSerialized) maximumUnitBytes && holds (fun b => b <=? MaximumSerialized) bytes &&
  both Z.leb maximumUnitBytes bytes.

(** The condition of each [if] of [validateShared]. *)
Definition startupInvalid (startup : MediaAvSyncStartupPolicy) : bool :=
  negb (holds id (su_requireVideoKeyFrame startup)) ||
  negb (present (su_trimAudioToCommonStart startup)) ||
  negb (positive (su_maximumWaitNs startup)) || negb (positive (su_prerollNs startup)) ||
  negb (positive (su_keyFrameWaitNs startup)) || negb (positive (su_maximumAudioTrimNs startup)) ||
  negb (positive (su_maximumInitialSkewNs startup)) || negb (positive (su_outputLeadNs startup)) ||
  negb (positive (su_maximumGapNs startup)) ||
  both Z.gtb (su_maximumAudioTrimNs startup) (su_prerollNs startup) ||
  both Z.geb (su_maximumGapNs startup) (su_prerollNs startup) ||
  both Z.geb (su_maximumInitialSkewNs startup) (su_outputLeadNs startup) ||
  both Z.geb (su_prerollNs startup) (su_keyFrameWaitNs startup) ||
  both Z.gtb (su_keyFrameWaitNs startup) (su_maximumWaitNs startup) ||
  negb (positive (su_videoCapacity startup)) || negb (positive (su_audioCapacity startup)) ||
  negb (validByteCapacity (su_videoCapacity startup) (su_maximumVideoUnitBytes startup) (su_videoByteCapacity startup)) ||
  negb (validByteCapacity (su_audioCapacity startup) (su_maximumAudioUnitBytes startup) (su_audioByteCapacity startup)) ||
  holds (fun c => c >? MediaAvStartupMaximumUnitCapacity) (su_videoCapacity startup) ||
  holds (fun c => c >? MediaAvStartupMaximumUnitCapacity) (su_audioCapacity startup) ||
  negb (presentText (su_videoIdentity startup)) || negb (presentText (su_audioIdentity startup)) ||
  both String.eqb (su_videoIdentity startup) (su_audioIdentity startup) ||
  negb (holds negb (su_allowDegradedClock startup)).

Definition servoInvalid (servo : MediaAvSyncAudioServoPolicy) (recovery : MediaAvSyncRecoveryPolicy) : bool :=
  negb (positive (sp_deadbandNs servo)) ||
  negb (positive (sp_phaseFilterTimeConstantNs servo)) ||
  negb (positive (sp_proportionalGainPpmPerSecond servo)) ||
  negb (positive (sp_integralGainPpmPerSecondSquared servo)) ||
  negb (positive (sp_integratorLimitPpm servo)) ||
  negb (holds (Z.leb 0) (sp_frequencyFeedForwardNumerator servo)) ||
  negb (positive (sp_frequencyFeedForwardDenominator servo)) ||
  both Z.gtb (sp_frequencyFeedForwardNumerator servo) (sp_frequencyFeedForwardDenominator servo) ||
  negb (holds (Z.leb 0) (sp_frequencyDeadbandPpm servo)) ||
  negb (positive (sp_maximumMeasuredFrequencyPpm servo)) ||
  negb (positive (sp_recoveryExitFrequencyPpm servo)) ||
  both Z.geb (sp_frequencyDeadbandPpm servo) (sp_recoveryExitFrequencyPpm servo) ||
  both Z.geb (sp_recoveryExitFrequencyPpm servo) (sp_maximumMeasuredFrequencyPpm servo) ||
  negb (holds (fun m => bool_decide (m = ConditionalIntegration)) (sp_antiWindupMode servo)) ||
  negb (positive (sp_minimumUpdateIntervalNs servo)) ||
  negb (positive (sp_maximumMeasurementGapNs servo)) ||
  negb (positive (sp_maximumSlewPpmPerSecond servo)) ||
  negb (positive (sp_normalCorrectionLimitPpm servo)) ||
  negb (positive (sp_recoveryCorrectionLimitPpm servo)) ||
  negb (positive (sp_recoveryEnterThresholdNs servo)) ||
  negb (positive (sp_recoveryExitThresholdNs servo)) ||
  negb (positive (sp_recoveryExitHoldNs servo)) ||
  negb (positive (sp_outputSampleRate servo)) ||
  negb (positive (sp_correctionLookaheadWindows servo)) ||
  both Z.geb (sp_minimumUpdateIntervalNs servo) (sp_phaseFilterTimeConstantNs servo) ||
  both Z.geb (sp_phaseFilterTimeConstantNs servo) (sp_maximumMeasurementGapNs servo) ||
  both Z.geb (sp_deadbandNs servo) (sp_recoveryExitThresholdNs servo) ||
  both Z.geb (sp_recoveryExitThresholdNs servo) (sp_recoveryEnterThresholdNs servo) ||
  negb (positive (rc_hardDiscontinuityThresholdNs recovery)) ||
  both Z.geb (sp_recoveryEnterThresholdNs servo) (rc_hardDiscontinuityThresholdNs recovery) ||
  both Z.ltb (sp_recoveryExitHoldNs servo) (sp_minimumUpdateIntervalNs servo) ||
  holds (fun x => x >? MaximumCorrectionLookaheadWindows) (sp_correctionLookaheadWindows servo) ||
  holds (fun x => x >? MaximumOutputSampleRate) (sp_outputSampleRate servo) ||
  holds (fun x => x >? MaximumMeasurementGapNs) (sp_maximumMeasurementGapNs servo) ||
  holds (fun x => x >? MaximumPolicyDurationNs) (sp_recoveryExitHoldNs servo) ||
  holds (fun x => x >? MaximumProportionalGainPpmPerSecond) (sp_proportionalGainPpmPerSecond servo) ||
  holds (fun x => x >? MaximumIntegralGainPpmPerSecondSquared) (sp_integralGainPpmPerSecondSquared servo) ||
  holds (fun x => x >? MaximumMeasuredFrequencyPpm) (sp_maximumMeasuredFrequencyPpm servo) ||
  holds (fun x => x >? MaximumHardDiscontinuityNs) (rc_hardDiscontinuityThresholdNs recovery) ||
  holds (fun x => x >? MaximumNormalCorrectionPpm) (sp_normalCorrectionLimitPpm servo) ||
  holds (fun x => x >? MaximumRecoveryCorrectionPpm) (sp_recoveryCorrectionLimitPpm servo) ||
  both Z.gtb (sp_integratorLimitPpm servo) (sp_recoveryCorrectionLimitPpm servo) ||
  both Z.gtb (sp_maximumSlewPpmPerSecond servo) (sp_normalCorrectionLimitPpm servo) ||
  both Z.gtb (sp_normalCorrectionLimitPpm servo) (sp_recoveryCorrectionLimitPpm servo).

(** The samples of a compensation window, times a billion. *)
Definition windowProduct (window rate : Z) : Z := i64 (window * rate).

Definition timingInvalid (servo : MediaAvSyncAudioServoPolicy) : bool :=
  negb (positive (sp_frequencyFilterTimeConstantNs servo)) ||
  negb (positive (sp_compensationWindowNs servo)) || negb (positive (sp_commandLeadNs servo)) ||
  negb (match sp_commandLeadNs servo, sp_maximumMeasurementGapNs servo, sp_outputSampleRate servo, sp_recoveryCorrectionLimitPpm servo with
        | Some lead, Some gap, Some rate, Some limit => leadCoversWorstPositiveGap lead gap rate limit
        | _, _, _, _ => false
        end) ||
  both Z.geb (sp_maximumMeasurementGapNs servo) (sp_commandLeadNs servo) ||
  both Z.geb (sp_commandLeadNs servo) (sp_compensationWindowNs servo) ||
  both Z.geb (sp_compensationWindowNs servo) (sp_frequencyFilterTimeConstantNs servo) ||
  both (fun window rate => window >? Z.quot (int64_max - NanosecondsPerSecond) rate)
    (sp_compensationWindowNs servo) (sp_outputSampleRate servo) ||
  both (fun window rate => windowProduct window rate <? NanosecondsPerSecond)
    (sp_compensationWindowNs servo) (sp_outputSampleRate servo) ||
  both (fun window rate => Z.quot (windowProduct window rate) NanosecondsPerSecond >? int32_max)
    (sp_compensationWindowNs servo) (sp_outputSampleRate servo) ||
  holds (fun x => x >? MaximumPolicyDurationNs) (sp_frequencyFilterTimeConstantNs servo) ||
  holds (fun x => x >? MaximumPolicyDurationNs) (sp_compensationWindowNs servo).

Definition videoInvalid (video : MediaAvSyncVideoPolicy) : bool :=
  negb (positive (vp_earlyHoldThresholdNs video)) ||
  negb (positive (vp_lateDisplayThresholdNs video)) ||
  negb (positive (vp_dropThresholdNs video)) || negb (present (vp_allowRecoveryRepeat video)) ||
  negb (positive (vp_maximumConsecutiveRecoveryActions video)) ||
  both Z.geb (vp_earlyHoldThresholdNs video) (vp_lateDisplayThresholdNs video) ||
  both Z.geb (vp_lateDisplayThresholdNs video) (vp_dropThresholdNs video).

Definition recoveryInvalid (video : MediaAvSyncVideoPolicy) (recovery : MediaAvSyncRecoveryPolicy) : bool :=
  negb (positive (rc_suspectThresholdNs recovery)) ||
  negb (positive (rc_hardDiscontinuityThresholdNs recovery)) ||
  negb (positive (rc_reacquisitionTimeoutNs recovery)) ||
  both Z.geb (vp_dropThresholdNs video) (rc_suspectThresholdNs recovery) ||
  both Z.geb (rc_suspectThresholdNs recovery) (rc_hardDiscontinuityThresholdNs recovery) ||
  both Z.geb (rc_hardDiscontinuityThresholdNs recovery) (rc_reacquisitionTimeoutNs recovery).

Definition metricsInvalid (metrics : MediaAvSyncMetricsPolicy) : bool :=
  negb (holds id (mt_collectStateAndGeneration metrics)) ||
  negb (holds id (mt_collectClockEvidence metrics)) ||
  negb (holds id (mt_collectQueueDurations metrics)) ||
  negb (holds id (mt_collectPhaseErrors metrics)) ||
  negb (holds id (mt_collectAudioCorrection metrics)) ||
  negb (holds id (mt_collectVideoRecoveryCounts metrics)) ||
  negb (holds id (mt_collectDiscontinuityCounts metrics)) ||
  negb (holds id (mt_collectProtocolClockHealth metrics)) ||
  negb (positive (mt_maximumStartupSkewNs metrics)) ||
  negb (positive (mt_maximumSteadyP95SkewNs metrics)) ||
  negb (positive (mt_maximumSteadyP99SkewNs metrics)) ||
  negb (positive (mt_maximumDriftNsPerHour metrics)) ||
  both Z.gtb (mt_maximumSteadyP95SkewNs metrics) (mt_maximumSteadyP99SkewNs metrics) ||
  both Z.gtb (mt_maximumSteadyP99SkewNs metrics) (mt_maximumStartupSkewNs metrics).

Definition validateShared (plan : Plan) (finalized : bool) : Status :=
  let servo := pl_audioServo plan in
  if negb (present (pl_sourceClockMode plan)) then invalid "sourceClockMode"
  else if negb (present (pl_controlGenerationPolicy plan)) then invalid "controlGenerationPolicy"
  else if negb (holds (fun m => bool_decide (m = SteadyMonotonic)) (pl_masterClockMode plan)) then invalid "masterClockMode"
  else if negb (positive (pl_canonicalTimeBaseNumerator plan)) || negb (positive (pl_canonicalTimeBaseDenominator plan))
  then invalid "canonicalTimeBase"
  else if startupInvalid (pl_startup plan) then invalid "ordered startup thresholds"
  else if servoInvalid servo (pl_recovery plan) then invalid "audio servo policy"
  else if negb finalized &&
          (present (sp_commandLeadNs servo) || present (sp_compensationWindowNs servo) ||
           present (sp_frequencyFilterTimeConstantNs servo))
  then invalid "incomplete policy contains finalized correction timing"
  else if finalized && timingInvalid servo then invalid "finalized audio correction timing"
  else if videoInvalid (pl_video plan) then invalid "ordered video thresholds"
  else if recoveryInvalid (pl_video plan) (pl_recovery plan) then invalid "ordered recovery thresholds"
  else if metricsInvalid (pl_metrics plan) then invalid "metrics and acceptance thresholds"
  else Success tt.

Definition validPayloadType (payloadType : option Z) : bool :=
  present payloadType && holds (fun p => p >=? 0) payloadType && holds (fun p => p <=? 127) payloadType.

Definition validRtpInputStream (stream : MediaAvSyncRtpInputStreamPlan) : bool :=
  presentText (is_identity stream) && validPayloadType (is_payloadType stream) && positive (is_clockRate stream).

Definition validRtpOutputStream (stream : MediaAvSyncRtpOutputStreamPlan) : bool :=
  presentText (ot_identity stream) && validPayloadType (ot_payloadType stream) &&
  positive (ot_clockRate stream) && positive (ot_ssrc stream) &&
  present (ot_baseTimestamp stream) && presentText (ot_cname stream).

Definition validateRtpInput (plan : Plan) : Status :=
  match pl_rtpInput plan with
  | Some rtp =>
      if present (pl_mpegTsInput plan) || present (pl_demuxTimestampInput plan) ||
         negb (holds (fun m => bool_decide (m = RtpSenderReports)) (pl_sourceClockMode plan)) ||
         negb (holds (fun p => bool_decide (p = OptionalExactWhenPresent)) (pl_controlGenerationPolicy plan))
      then invalid "RTP input clock contract"
      else
        let input := ri_input rtp in
        if negb (validRtpInputStream (ri_videoInput rtp)) || negb (validRtpInputStream (ri_audioInput rtp)) ||
           negb (bool_decide (ip_commonEpochPolicy input = EarliestLockedSenderReportSourceTime)) ||
           negb (bool_decide (ip_streamAssociationMode input = PlannedStreamPair)) ||
           negb (holds (fun m => bool_decide (m = ReducedSizeRfc5506)) (ip_rtcpCompositionMode input)) ||
           negb (positive (ip_identityEvidenceTimeoutNs input)) ||
           negb (holds id (ip_requireSenderReports input)) ||
           negb (positive (ip_senderReportTimeoutNs input)) ||
           negb (positive (ip_maximumExtrapolationNs input)) ||
           negb (present (ip_clockLossPolicy input)) ||
           negb (present (ip_secondaryClockLossPolicy input)) ||
           both (fun x y => negb (x =? y)) (ip_identityEvidenceTimeoutNs input) (ip_maximumExtrapolationNs input) ||
           negb (positive (ip_maximumInterStreamClockOffsetSkewNs input)) ||
           negb (present (ip_maximumSenderClockRateErrorPpm input)) ||
           holds (fun x => x <=? 0) (ip_maximumSenderClockRateErrorPpm input) ||
           holds (fun x => x >=? 1000000) (ip_maximumSenderClockRateErrorPpm input) ||
           negb (positive (ip_maximumSenderClockResidualNs input)) ||
           both Z.geb (ip_senderReportTimeoutNs input) (ip_maximumExtrapolationNs input) ||
           both Z.geb (ip_maximumExtrapolationNs input) (rc_reacquisitionTimeoutNs (pl_recovery plan)) ||
           both Z.geb (ip_maximumInterStreamClockOffsetSkewNs input) (rc_hardDiscontinuityThresholdNs (pl_recovery plan))
        then invalid "RTP input association, RTCP, or sender report policy"
        else Success tt
  | None => invalid "RTP input clock contract"
  end.

Definition validPid (pid : option Z) : bool :=
  let MinimumAssignablePid := 0x0020 in
  let NullPid := 0x1FFF in
  present pid && negb (holds (fun p => p <? MinimumAssignablePid) pid) && negb (holds (fun p => p >=? NullPid) pid).

Definition validateTsInput (plan : Plan) : Status :=
  match pl_mpegTsInput plan with
  | Some ts =>
      if present (pl_rtpInput plan) || present (pl_demuxTimestampInput plan) ||
         negb (holds (fun m => bool_decide (m = MpegTsPcr)) (pl_sourceClockMode plan)) ||
         negb (holds (fun p => bool_decide (p = OptionalExactWhenPresent)) (pl_controlGenerationPolicy plan))
      then invalid "MPEG-TS input clock contract"
      else if
        negb (positive (ti_programNumber ts)) || holds (fun p => p >? 0xFFFF) (ti_programNumber ts) ||
        negb (validPid (ti_programMapPid ts)) || negb (validPid (ti_videoPid ts)) ||
        negb (validPid (ti_audioPid ts)) || negb (validPid (ti_pcrPid ts)) ||
        both Z.eqb (ti_programMapPid ts) (ti_videoPid ts) || both Z.eqb (ti_programMapPid ts) (ti_audioPid ts) ||
        both Z.eqb (ti_programMapPid ts) (ti_pcrPid ts) || both Z.eqb (ti_videoPid ts) (ti_audioPid ts)
      then invalid "MPEG-TS input selection"
      else Success tt
  | None => invalid "MPEG-TS input clock contract"
  end.

Definition sameRational (a b : MediaRational) : bool := (num a =? num b) && (den a =? den b).

Definition evidenceInvalid (prepared : MediaPreparedGenericInputPlan) (evidence : MediaPreparedGenericInputEvidence) : bool :=
  let video := pe_firstVideo evidence in
  let audio := pe_firstAudio evidence in
  let noTimestamp := int64_min in
  let leadingCountMatchesBytes :=
    Bool.eqb (pe_discardedLeadingVideoPackets evidence =? 0) (pe_discardedLeadingVideoBytes evidence =? 0) in
  let timedVideoCountMatchesBytes :=
    Bool.eqb (pe_discardedTimedVideoPrefixPackets evidence =? 0) (pe_discardedTimedVideoPrefixBytes evidence =? 0) in
  let timedAudioCountMatchesBytes :=
    Bool.eqb (pe_discardedTimedAudioPrefixPackets evidence =? 0) (pe_discardedTimedAudioPrefixBytes evidence =? 0) in
  negb (fp_streamIndex video =? gi_videoStreamIndex prepared) || negb (fp_streamIndex audio =? gi_audioStreamIndex prepared) ||
  negb (sameRational (fp_timeBase video) (gi_videoTimeBase prepared)) ||
  negb (sameRational (fp_timeBase audio) (gi_audioTimeBase prepared)) ||
  (fp_pts video =? noTimestamp) || (fp_dts video =? noTimestamp) || (fp_pts audio =? noTimestamp) || (fp_dts audio =? noTimestamp) ||
  (fp_duration video <=? 0) || (fp_duration audio <=? 0) ||
  negb leadingCountMatchesBytes || negb timedVideoCountMatchesBytes || negb timedAudioCountMatchesBytes ||
  (gi_videoPacketCapacity prepared <? pe_discardedLeadingVideoPackets evidence) ||
  (u64 (gi_videoPacketCapacity prepared - pe_discardedLeadingVideoPackets evidence) <? pe_discardedTimedVideoPrefixPackets evidence) ||
  (gi_audioPacketCapacity prepared <? pe_discardedTimedAudioPrefixPackets evidence) ||
  (gi_videoByteCapacity prepared <? pe_discardedLeadingVideoBytes evidence) ||
  (u64 (gi_videoByteCapacity prepared - pe_discardedLeadingVideoBytes evidence) <? pe_discardedTimedVideoPrefixBytes evidence) ||
  (gi_audioByteCapacity prepared <? pe_discardedTimedAudioPrefixBytes evidence) ||
  (fp_preparedReadOrdinal video <?
     u64 (pe_discardedLeadingVideoPackets evidence + pe_discardedTimedVideoPrefixPackets evidence)) ||
  (fp_preparedReadOrdinal audio <? pe_discardedTimedAudioPrefixPackets evidence).

Definition validatePreparedDemuxEvidence (prepared : MediaPreparedGenericInputPlan)
  (evidence : MediaPreparedGenericInputEvidence) : Status :=
  let video := pe_firstVideo evidence in
  let audio := pe_firstAudio evidence in
  if evidenceInvalid prepared evidence then invalid "prepared demux timestamp evidence"
  else
    match checkedFromTicks (fp_pts video) (num (fp_timeBase video)) (den (fp_timeBase video)),
          checkedFromTicks (fp_pts audio) (num (fp_timeBase audio)) (den (fp_timeBase audio)) with
    | Success videoPresentation, Success audioPresentation =>
        let skew := if audioPresentation <=? videoPresentation
                    then checkedSubtract videoPresentation audioPresentation
                    else checkedSubtract audioPresentation videoPresentation in
        match skew with
        | Success skew =>
            if gi_firstWindowMaximumSkew prepared <? skew then invalid "prepared demux timestamp common window"
            else Success tt
        | Failure _ => invalid "prepared demux timestamp common window"
        end
    | _, _ => invalid "prepared demux timestamp evidence"
    end.

Definition demuxInvalid (plan : Plan) (demux : MediaAvSyncDemuxTimestampInputPlan)
  (prepared : MediaPreparedGenericInputPlan) : bool :=
  negb (Rational_isKnown (di_videoTimeBase demux)) || (num (di_videoTimeBase demux) <=? 0) ||
  (den (di_videoTimeBase demux) <=? 0) || negb (Rational_isKnown (di_audioTimeBase demux)) ||
  (num (di_audioTimeBase demux) <=? 0) || (den (di_audioTimeBase demux) <=? 0) ||
  negb (positive (di_firstWindowMaximumSkewNs demux)) ||
  negb (positive (di_discontinuityThresholdNs demux)) ||
  negb (positive (di_initialGeneration demux)) ||
  negb (present (di_canonicalTargetEpochNs demux)) ||
  negb (resultOk (validatePrepared prepared)) ||
  negb (bool_decide (su_requireVideoKeyFrame (pl_startup plan) = Some true)) ||
  negb (bool_decide (gi_leadingVideoDisposition prepared = DiscardUntimedNonKeyBeforeFirstTimedVideo)) ||
  negb (bool_decide (gi_timedStartupPrefixDisposition prepared = DiscardEarlierCompleteTimedUntilCommonWindow)) ||
  negb (sameRational (gi_videoTimeBase prepared) (di_videoTimeBase demux)) ||
  negb (sameRational (gi_audioTimeBase prepared) (di_audioTimeBase demux)) ||
  negb (bool_decide (di_firstWindowMaximumSkewNs demux = su_maximumInitialSkewNs (pl_startup plan))) ||
  negb (bool_decide (di_discontinuityThresholdNs demux = rc_hardDiscontinuityThresholdNs (pl_recovery plan))).

Definition validateDemuxInput (plan : Plan) : Status :=
  match pl_demuxTimestampInput plan with
  | Some demux =>
      if present (pl_rtpInput plan) || present (pl_mpegTsInput plan) ||
         negb (holds (fun m => bool_decide (m = DemuxTimestamps)) (pl_sourceClockMode plan)) ||
         negb (holds (fun p => bool_decide (p = RequiredExact)) (pl_controlGenerationPolicy plan))
      then invalid "demux timestamp input clock contract"
      else
        match di_preparedInput demux, di_preparedEvidence demux with
        | Some prepared, Some evidence =>
            if demuxInvalid plan demux prepared then invalid "demux timestamp policy"
            else validatePreparedDemuxEvidence prepared evidence
        | _, _ => invalid "demux timestamp policy"
        end
  | None => invalid "demux timestamp input clock contract"
  end.

Definition validateRtpOutput (plan : Plan) : Status :=
  match pl_rtpOutput plan, pl_projectMpegTsOutput plan with
  | Some rtp, None =>
      if negb (validRtpOutputStream (ro_videoOutput rtp)) || negb (validRtpOutputStream (ro_audioOutput rtp)) ||
         both Z.eqb (ot_ssrc (ro_videoOutput rtp)) (ot_ssrc (ro_audioOutput rtp)) ||
         both (fun a b => negb (String.eqb a b)) (ot_cname (ro_videoOutput rtp)) (ot_cname (ro_audioOutput rtp)) ||
         negb (holds id (ro_useSharedNtpEpoch rtp))
      then invalid "RTP output identities, CNAME, or sender report policy"
      else Success tt
  | _, _ => invalid "separate RTP output authority"
  end.

Definition validateProjectMpegTsOutput (plan : Plan) : Status :=
  match pl_rtpOutput plan, pl_projectMpegTsOutput plan with
  | None, Some (mkTsOutput (Some outputMux) (Some useSharedNtpEpoch)) =>
      let transport := mp_transportKind outputMux in
      let requiresSharedNtpEpoch := bool_decide (transport = RtpAvp) in
      if (negb (bool_decide (transport = UdpDatagrams)) && negb (bool_decide (transport = RtpAvp))) ||
         negb (Bool.eqb useSharedNtpEpoch requiresSharedNtpEpoch)
      then invalid "Project MPEG-TS shared NTP epoch policy"
      else Success tt
  | _, _ => invalid "Project MPEG-TS output authority"
  end.

Definition validateInputClock (plan : Plan) : Status :=
  match pl_sourceClockMode plan with
  | Some RtpSenderReports => validateRtpInput plan
  | Some MpegTsPcr => validateTsInput plan
  | Some DemuxTimestamps => validateDemuxInput plan
  | None => invalid "sourceClockMode"
  end.

Definition validateOutput (plan : Plan) : Status :=
  if Bool.eqb (present (pl_rtpOutput plan)) (present (pl_projectMpegTsOutput plan))
  then invalid "exactly one output authority"
  else if present (pl_rtpOutput plan) then validateRtpOutput plan
  else validateProjectMpegTsOutput plan.

Definition validateInOrder (checks : list Status) : Status :=
  foldr (fun check rest => match check with Failure e => Failure e | Success _ => rest end) (Success tt) checks.

Definition validate (plan : Plan) : Status :=
  validateInOrder [validateShared plan true; validateInputClock plan; validateOutput plan].

Definition validatePolicy (plan : Plan) : Status :=
  validateInOrder [validateShared plan false; validateInputClock plan; validateOutput plan].

Definition validateRuntime (plan : Plan) : Status :=
  let commandLead := present (sp_commandLeadNs (pl_audioServo plan)) in
  let compensation := present (sp_compensationWindowNs (pl_audioServo plan)) in
  let frequency := present (sp_frequencyFilterTimeConstantNs (pl_audioServo plan)) in
  if negb (Bool.eqb commandLead compensation) || negb (Bool.eqb commandLead frequency)
  then invalid "runtime audio correction timing product"
  else if commandLead then validate plan else validatePolicy plan.

End MediaAvSyncPlanValidator.
