(* ===== verification/AudioDrift.v ===== *)
(** * The audio drift servo

    Models [sync/MediaAudioCorrection.{h,cpp}] (decisions and commands),
    [sync/MediaAudioCorrectionQuantizer.{h,cpp}] (whole samples per correction
    window, the rests carried over) and [sync/MediaAudioDriftServo.{h,cpp}] (a
    filtered proportional-integral controller of the stretch of the audio).
    The theorems are in [AudioDriftSafety].

    All arithmetic is written at the width of the code, [i64] and [i32] around
    the operations that could leave it. *)

From S2P Require Import Prelude MediaResult TimeBase CanonicalTime AudioGrid AvSyncPlan.
Import MediaAvSyncError MediaAudioDriftServoLimits.

Local Open Scope Z_scope.

(** ** Decisions *)

Module MediaAudioCorrection.

Inductive MediaAudioServoDecisionKind := DecisionNone | Apply | Reacquire | DropOldGeneration.

#[global] Instance decisionKind_eq_dec : EqDecision MediaAudioServoDecisionKind.
Proof. solve_decision. Defined.

Inductive MediaAudioCorrectionExecutionMode := Disabled | ExternalCorrectionRequired.

Definition mediaAudioCorrectionExecutionModeName (mode : MediaAudioCorrectionExecutionMode) : string :=
  match mode with Disabled => "disabled" | ExternalCorrectionRequired => "external_required" end.

Definition parseMediaAudioCorrectionExecutionMode (value : string) : Result MediaAudioCorrectionExecutionMode :=
  if String.eqb value (mediaAudioCorrectionExecutionModeName Disabled) then Success Disabled
  else if String.eqb value (mediaAudioCorrectionExecutionModeName ExternalCorrectionRequired) then Success ExternalCorrectionRequired
  else failure (invalidArgument "unknown audio correction execution mode").

Record MediaAudioCompensationCommand := mkCommand {
  cm_generation : Z;
  cm_sequence : Z;
  cm_effectiveOutputSampleIndex : Z;
  cm_stretchPpm : Z;
  cm_sampleDelta : Z;
  cm_compensationDistance : Z;
  cm_filteredPhaseError : Z;
  cm_filteredFrequencyPpm : Z;
  cm_integralPpm : Z;
  cm_recovering : bool;
}.

Record MediaAudioServoDecision := mkDecision {
  dn_kind : MediaAudioServoDecisionKind;
  dn_generation : Z;
  dn_sequence : Z;
  dn_effectiveOutputSampleIndex : Z;
  dn_filteredPhaseError : Z;
  dn_filteredFrequencyPpm : Z;
  dn_integralPpm : Z;
  dn_recovering : bool;
  dn_command : option MediaAudioCompensationCommand;
}.

Definition decisionNone (generation sequence effectiveOutputSampleIndex filteredPhaseError filteredFrequencyPpm
  integralPpm : Z) (recovering : bool) : MediaAudioServoDecision :=
  mkDecision DecisionNone generation sequence effectiveOutputSampleIndex filteredPhaseError filteredFrequencyPpm
    integralPpm recovering None.

Definition decisionApply (command : MediaAudioCompensationCommand) : MediaAudioServoDecision :=
  mkDecision Apply (cm_generation command) (cm_sequence command) (cm_effectiveOutputSampleIndex command)
    (cm_filteredPhaseError command) (cm_filteredFrequencyPpm command) (cm_integralPpm command) (cm_recovering command)
    (Some command).

Definition decisionReacquire (generation sequence effectiveOutputSampleIndex filteredPhaseError filteredFrequencyPpm : Z) :
  MediaAudioServoDecision :=
  mkDecision Reacquire generation sequence effectiveOutputSampleIndex filteredPhaseError filteredFrequencyPpm 0 false None.

Definition decisionDropOldGeneration (generation sequence effectiveOutputSampleIndex : Z) : MediaAudioServoDecision :=
  mkDecision DropOldGeneration generation sequence effectiveOutputSampleIndex 0 0 0 false None.

End MediaAudioCorrection.

(** ** Whole samples *)

Module MediaAudioCorrectionQuantizer.
Import MediaAudioCorrection.

Record MediaAudioCorrectionTelemetry := mkTelemetry {
  te_filteredPhaseError : Z;
  te_filteredFrequencyPpm : Z;
  te_integralPpm : Z;
  te_recovering : bool;
}.

Record Quantizer := mkQuantizer {
  qz_windowNs : Z;
  qz_outputSampleRate : Z;
  qz_leadSamples : Z;
  qz_nextPlannedEnd : option Z;
  qz_epochHasPublishedWindow : bool;
  qz_windowRemainder : Z;
  qz_deltaRemainder : Z;
}.

Definition quantizerRoundSignedRatio (numerator denominator : Z) : Z :=
  if 0 <=? numerator
  then i64 (Z.quot numerator denominator +
            (if Z.quot (i64 (denominator + 1)) 2 <=? Z.rem numerator denominator then 1 else 0))
  else
    let quotient := Z.quot numerator denominator in
    let remainder := Z.rem numerator denominator in
    i64 (quotient - (if Z.quot (i64 (denominator + 1)) 2 <=? i64 (- remainder) then 1 else 0)).

Definition createQuantizer (compensationWindow commandLead outputSampleRate : Z) : Result Quantizer :=
  let windowNs := compensationWindow in
  let leadNs := commandLead in
  if (windowNs <=? 0) || (leadNs <=? 0) || (windowNs <=? leadNs) || (outputSampleRate <=? 0) ||
     (Z.quot (int64_max - NanosecondsPerSecond) outputSampleRate <? windowNs)
  then failure (invalidArgument "audio correction window product is not representable")
  else
    let product := i64 (windowNs * outputSampleRate) in
    let leadProduct := i64 (leadNs * outputSampleRate) in
    if (product <? NanosecondsPerSecond) || (int32_max <? Z.quot product NanosecondsPerSecond)
    then failure (invalidArgument "audio correction window must represent 1..INT_MAX samples")
    else
      let leadSamples := Z.quot (i64 (i64 (leadProduct + NanosecondsPerSecond) - 1)) NanosecondsPerSecond in
      if (leadSamples <=? 0) || (Z.quot product NanosecondsPerSecond <=? leadSamples)
      then failure (invalidArgument "audio correction lead must be inside the planned window")
      else Success (mkQuantizer windowNs outputSampleRate leadSamples None false 0 0).

Definition schedule (generation sequence observedOutputSampleIndex stretchPpm : Z)
  (telemetry : MediaAudioCorrectionTelemetry) (q : Quantizer) : Result (option MediaAudioCompensationCommand) * Quantizer :=
  if (generation =? 0) || (sequence =? 0) || (observedOutputSampleIndex <? 0) || (stretchPpm <=? - PartsPerMillion)
  then (failure (invalidArgument "audio correction schedule inputs are invalid"), q)
  else if qz_epochHasPublishedWindow q &&
          match qz_nextPlannedEnd q with
          | Some nextPlannedEnd => observedOutputSampleIndex <? i64 (nextPlannedEnd - qz_leadSamples q)
          | None => false
          end
  then (Success None, q)
  else
    let effective := default observedOutputSampleIndex (qz_nextPlannedEnd q) in
    let windowNumerator := i64 (i64 (qz_windowNs q * qz_outputSampleRate q) + qz_windowRemainder q) in
    let nominal := quantizerRoundSignedRatio windowNumerator NanosecondsPerSecond in
    let nextWindowRemainder := i64 (windowNumerator - i64 (nominal * NanosecondsPerSecond)) in
    if (nominal <=? 0) || (int32_max <? nominal) ||
       (Z.quot (int64_max - PartsPerMillion) (Z.max 1 (i32 (Z.abs stretchPpm))) <? nominal)
    then (failure (invalidArgument "audio correction nominal window is not representable"), q)
    else
      let deltaNumerator := i64 (i64 (nominal * stretchPpm) + qz_deltaRemainder q) in
      let delta := quantizerRoundSignedRatio deltaNumerator PartsPerMillion in
      let nextDeltaRemainder := i64 (deltaNumerator - i64 (delta * PartsPerMillion)) in
      let distance := i64 (nominal + delta) in
      if (delta <? int32_min) || (int32_max <? delta) || (distance <=? 0) || (int32_max <? distance) ||
         (i64 (int64_max - distance) <? effective)
      then (failure (invalidArgument "audio correction command or sample index is not representable"), q)
      else
        let correction :=
          mkCommand generation sequence effective stretchPpm (i32 delta) (i32 distance)
            (te_filteredPhaseError telemetry) (te_filteredFrequencyPpm telemetry) (te_integralPpm telemetry)
            (te_recovering telemetry) in
        (Success (Some correction),
         mkQuantizer (qz_windowNs q) (qz_outputSampleRate q) (qz_leadSamples q) (Some (i64 (effective + distance))) true
           nextWindowRemainder nextDeltaRemainder).

Definition resetEpoch (epochOutputSampleIndex : Z) (q : Quantizer) : Status * Quantizer :=
  if epochOutputSampleIndex <? 0
  then (failure (invalidArgument "audio correction epoch sample index is negative"), q)
  else
    (Success tt,
     mkQuantizer (qz_windowNs q) (qz_outputSampleRate q) (qz_leadSamples q) (Some epochOutputSampleIndex) false 0 0).

End MediaAudioCorrectionQuantizer.

(** ** The servo *)

Module MediaAudioDriftServo.
Import MediaRunningTime MediaAudioDriftServoPolicyValidator MediaAudioCorrection MediaAvSyncPlan.
Import MediaAudioCorrectionQuantizer (Quantizer, createQuantizer, resetEpoch, schedule, mkTelemetry).

Record MediaAudioDriftMeasurement := mkMeasurement {
  ms_phaseError : Z;
  ms_sourceEndOnMaster : Z;
  ms_generation : Z;
  ms_sequence : Z;
  ms_effectiveOutputSampleIndex : Z;
  ms_outputSampleRate : Z;
}.

Definition magnitude (value : Z) : Z := if 0 <=? value then value else u64 (i64 (- i64 (value + 1)) + 1).

Definition roundSignedRatio (numerator denominator : Z) : Z :=
  let quotient := Z.quot numerator denominator in
  let remainder := Z.rem numerator denominator in
  let half := Z.quot (i64 (denominator + 1)) 2 in
  if half <=? remainder then i64 (quotient + 1)
  else if remainder <=? i64 (- half) then i64 (quotient - 1)
  else quotient.

Definition lowPass (previous sample elapsedNs timeConstantNs : Z) : Z :=
  let difference := i64 (sample - previous) in
  i64 (previous + roundSignedRatio (i64 (difference * elapsedNs)) (i64 (timeConstantNs + elapsedNs))).

(** [std::clamp]. *)
Definition clamp (value low high : Z) : Z := if value <? low then low else if high <? value then high else value.

Definition clampInt64ToInt (value : Z) : Z := i32 (clamp value int32_min int32_max).

Record Policy := mkPolicy {
  po_deadbandNs : Z;
  po_phaseFilterTimeConstantNs : Z;
  po_frequencyFilterTimeConstantNs : Z;
  po_proportionalGainPpmPerSecond : Z;
  po_integralGainPpmPerSecondSquared : Z;
  po_integratorLimitPpm : Z;
  po_frequencyFeedForwardNumerator : Z;
  po_frequencyFeedForwardDenominator : Z;
  po_frequencyDeadbandPpm : Z;
  po_maximumMeasuredFrequencyPpm : Z;
  po_recoveryExitFrequencyPpm : Z;
  po_minimumUpdateIntervalNs : Z;
  po_maximumMeasurementGapNs : Z;
  po_maximumSlewPpmPerSecond : Z;
  po_normalCorrectionLimitPpm : Z;
  po_recoveryCorrectionLimitPpm : Z;
  po_recoveryEnterThresholdNs : Z;
  po_recoveryExitThresholdNs : Z;
  po_recoveryExitHoldNs : Z;
  po_compensationWindowNs : Z;
  po_commandLeadNs : Z;
  po_outputSampleRate : Z;
  po_correctionLookaheadWindows : Z;
  po_hardDiscontinuityThresholdNs : Z;
}.

(** The dereferenced policy; [None] where a member is missing. *)
Definition resolve (p : MediaAvSyncAudioServoPolicy) (hardDiscontinuityThreshold : Z) : option Policy :=
  match p with
  | mkServoPolicy (Some deadband) (Some phaseFilter) (Some frequencyFilter) (Some proportional) (Some integral)
      (Some integratorLimit) (Some numerator) (Some denominator) (Some frequencyDeadband) (Some maximumFrequency)
      (Some exitFrequency) _ (Some minimumInterval) (Some maximumGap) (Some maximumSlew) (Some normalLimit)
      (Some recoveryLimit) (Some enterThreshold) (Some exitThreshold) (Some exitHold) (Some window) (Some lead)
      (Some rate) (Some lookahead) =>
      Some (mkPolicy deadband phaseFilter frequencyFilter proportional integral integratorLimit numerator denominator
        frequencyDeadband maximumFrequency exitFrequency minimumInterval maximumGap maximumSlew normalLimit recoveryLimit
        enterThreshold exitThreshold exitHold window lead rate lookahead hardDiscontinuityThreshold)
  | _ => None
  end.

(** [validPolicy]: every member present, positive where the code asks for it,
    and the comparisons between the members. *)
Definition validPolicy (policy : MediaAvSyncAudioServoPolicy) (hardDiscontinuityThreshold generation : Z) : bool :=
  (0 <? generation) &&
  match resolve policy hardDiscontinuityThreshold with
  | None => false
  | Some p =>
      (0 <? po_outputSampleRate p) && (0 <? po_correctionLookaheadWindows p) && (0 <? po_deadbandNs p) &&
      (0 <? po_phaseFilterTimeConstantNs p) && (0 <? po_frequencyFilterTimeConstantNs p) &&
      (0 <? po_proportionalGainPpmPerSecond p) && (0 <? po_integralGainPpmPerSecondSquared p) &&
      (0 <? po_integratorLimitPpm p) && (0 <=? po_frequencyFeedForwardNumerator p) &&
      (0 <? po_frequencyFeedForwardDenominator p) &&
      (po_frequencyFeedForwardNumerator p <=? po_frequencyFeedForwardDenominator p) &&
      (0 <=? po_frequencyDeadbandPpm p) && (0 <? po_maximumMeasuredFrequencyPpm p) && (0 <? po_recoveryExitFrequencyPpm p) &&
      (po_frequencyDeadbandPpm p <? po_recoveryExitFrequencyPpm p) &&
      (po_recoveryExitFrequencyPpm p <? po_maximumMeasuredFrequencyPpm p) &&
      bool_decide (sp_antiWindupMode policy = Some ConditionalIntegration) &&
      (0 <? po_minimumUpdateIntervalNs p) && (0 <? po_maximumMeasurementGapNs p) && (0 <? po_maximumSlewPpmPerSecond p) &&
      (0 <? po_normalCorrectionLimitPpm p) && (0 <? po_recoveryCorrectionLimitPpm p) &&
      (0 <? po_recoveryEnterThresholdNs p) && (0 <? po_recoveryExitThresholdNs p) && (0 <? po_recoveryExitHoldNs p) &&
      (0 <? po_compensationWindowNs p) && (0 <? po_commandLeadNs p) && (0 <? hardDiscontinuityThreshold) &&
      (po_minimumUpdateIntervalNs p <? po_phaseFilterTimeConstantNs p) &&
      (po_phaseFilterTimeConstantNs p <? po_maximumMeasurementGapNs p) &&
      (po_maximumMeasurementGapNs p <? po_frequencyFilterTimeConstantNs p) &&
      (po_deadbandNs p <? po_recoveryExitThresholdNs p) &&
      (po_recoveryExitThresholdNs p <? po_recoveryEnterThresholdNs p) &&
      (po_recoveryEnterThresholdNs p <? hardDiscontinuityThreshold) &&
      (po_minimumUpdateIntervalNs p <=? po_recoveryExitHoldNs p) &&
      (po_maximumMeasurementGapNs p <? po_commandLeadNs p) &&
      (po_commandLeadNs p <? po_compensationWindowNs p) &&
      (po_compensationWindowNs p <? po_frequencyFilterTimeConstantNs p) &&
      (po_normalCorrectionLimitPpm p <=? MaximumNormalCorrectionPpm) &&
      (po_recoveryCorrectionLimitPpm p <=? MaximumRecoveryCorrectionPpm) &&
      (po_integratorLimitPpm p <=? po_recoveryCorrectionLimitPpm p) &&
      (po_maximumSlewPpmPerSecond p <=? po_normalCorrectionLimitPpm p) &&
      (po_normalCorrectionLimitPpm p <=? po_recoveryCorrectionLimitPpm p) &&
      (po_outputSampleRate p <=? MaximumOutputSampleRate) &&
      (po_correctionLookaheadWindows p <=? MaximumCorrectionLookaheadWindows) &&
      leadCoversWorstPositiveGap (po_commandLeadNs p) (po_maximumMeasurementGapNs p) (po_outputSampleRate p)
        (po_recoveryCorrectionLimitPpm p) &&
      (hardDiscontinuityThreshold <=? MaximumHardDiscontinuityNs) &&
      (po_maximumMeasurementGapNs p <=? MaximumMeasurementGapNs) &&
      (po_frequencyFilterTimeConstantNs p <=? MaximumPolicyDurationNs) &&
      (po_compensationWindowNs p <=? MaximumPolicyDurationNs) &&
      (po_recoveryExitHoldNs p <=? MaximumPolicyDurationNs) &&
      (po_proportionalGainPpmPerSecond p <=? MaximumProportionalGainPpmPerSecond) &&
      (po_integralGainPpmPerSecondSquared p <=? MaximumIntegralGainPpmPerSecondSquared) &&
      (po_maximumMeasuredFrequencyPpm p <=? MaximumMeasuredFrequencyPpm)
  end.

(** The members [clearControlState] resets. *)
Record Control := mkControl {
  co_initialized : bool;
  co_recovering : bool;
  co_lastSourceEndOnMasterNs : Z;
  co_lastRawPhaseNs : Z;
  co_filteredPhaseNs : Z;
  co_filteredFrequencyPpm : Z;
  co_integralPpm : Z;
  co_lastStretchPpm : Z;
  co_recoveryExitHeldNs : Z;
  co_lastSequence : Z;
  co_lastEffectiveOutputSampleIndex : Z;
}.

Record Servo := mkServo {
  sv_sourceClockMode : MediaAvSyncSourceClockMode;
  sv_policy : Policy;
  sv_quantizer : Quantizer;
  sv_outputSampleRate : Z;
  sv_generation : Z;
  sv_control : Control;
}.

Definition clearedControl : Control := mkControl false false 0 0 0 0 0 0 0 0 0.

Definition setControl (c : Control) (s : Servo) : Servo :=
  mkServo (sv_sourceClockMode s) (sv_policy s) (sv_quantizer s) (sv_outputSampleRate s) (sv_generation s) c.

Definition setQuantizer (q : Quantizer) (s : Servo) : Servo :=
  mkServo (sv_sourceClockMode s) (sv_policy s) q (sv_outputSampleRate s) (sv_generation s) (sv_control s).

Definition setGeneration (generation : Z) (s : Servo) : Servo :=
  mkServo (sv_sourceClockMode s) (sv_policy s) (sv_quantizer s) (sv_outputSampleRate s) generation (sv_control s).

(** The last two assignments of every accepted measurement. *)
Definition observed (m : MediaAudioDriftMeasurement) (c : Control) : Control :=
  mkControl (co_initialized c) (co_recovering c) (co_lastSourceEndOnMasterNs c) (co_lastRawPhaseNs c) (co_filteredPhaseNs c)
    (co_filteredFrequencyPpm c) (co_integralPpm c) (co_lastStretchPpm c) (co_recoveryExitHeldNs c)
    (ms_sequence m) (ms_effectiveOutputSampleIndex m).

Definition createError (sourceClockMode : MediaAvSyncSourceClockMode) (generation : Z) (detail : string) : SyncError :=
  mkSyncError InvalidAudioServoPolicy (Some sourceClockMode) AudioServo "create" "audio" "audio" (Some generation) None None
    0 0 int64_min int64_max detail.

Definition create (sourceClockMode : MediaAvSyncSourceClockMode) (policy : MediaAvSyncAudioServoPolicy)
  (hardDiscontinuityThreshold generation : Z) : AvSyncResult Servo :=
  match validPolicy policy hardDiscontinuityThreshold generation, resolve policy hardDiscontinuityThreshold with
  | true, Some resolved =>
      match createQuantizer (po_compensationWindowNs resolved) (po_commandLeadNs resolved) (po_outputSampleRate resolved) with
      | Failure _ =>
          inr (createError sourceClockMode generation
            "audio servo window and output sample rate are not jointly representable")
      | Success quantizer =>
          inl (mkServo sourceClockMode resolved quantizer (po_outputSampleRate resolved) generation clearedControl)
      end
  | _, _ =>
      inr (createError sourceClockMode generation "incomplete or inconsistent planner-owned audio servo policy")
  end.

Definition error (code : MediaAvSyncErrorCode) (operation : string) (measurement : option MediaAudioDriftMeasurement)
  (detail : string) (s : Servo) : SyncError :=
  mkSyncError code (Some (sv_sourceClockMode s)) AudioServo operation "audio" "audio" (Some (sv_generation s))
    (ms_generation <$> measurement) (ms_phaseError <$> measurement) 0 0 int64_min int64_max detail.

Definition clearControlState (s : Servo) : Servo := setControl clearedControl s.

Definition clearCorrectionEpoch (epochOutputSampleIndex : Z) (s : Servo) : AvSyncResult unit * Servo :=
  match resetEpoch epochOutputSampleIndex (sv_quantizer s) with
  | (Failure _, q) =>
      (inr (error AudioCorrectionQuantizationFailed "reset_epoch" None
         "audio correction epoch sample index is invalid" (setQuantizer q s)), setQuantizer q s)
  | (Success _, q) => (inl tt, setQuantizer q s)
  end.

(** The three branches that drop the epoch: clear, restart the epoch at the
    measured sample, remember the measurement, ask for a reacquisition. *)
Definition discontinuity (m : MediaAudioDriftMeasurement) (generation frequency : Z) (s : Servo) :
  AvSyncResult MediaAudioServoDecision * Servo :=
  match clearCorrectionEpoch (ms_effectiveOutputSampleIndex m) (clearControlState s) with
  | (inr e, s) => (inr e, s)
  | (inl _, s) =>
      (inl (decisionReacquire generation (ms_sequence m) (ms_effectiveOutputSampleIndex m) (ms_phaseError m) frequency),
       setControl (observed m (sv_control s)) s)
  end.

Definition publishWindowIfDue (m : MediaAudioDriftMeasurement) (stretchPpm : Z) (s : Servo) :
  AvSyncResult MediaAudioServoDecision * Servo :=
  let c := sv_control s in
  match schedule (sv_generation s) (ms_sequence m) (ms_effectiveOutputSampleIndex m) stretchPpm
          (mkTelemetry (co_filteredPhaseNs c) (co_filteredFrequencyPpm c) (co_integralPpm c) (co_recovering c))
          (sv_quantizer s) with
  | (Failure _, q) =>
      (inr (error AudioCorrectionQuantizationFailed "schedule" (Some m) "quantized correction contract failed" s),
       setQuantizer q s)
  | (Success None, q) =>
      (inl (decisionNone (sv_generation s) (ms_sequence m) (ms_effectiveOutputSampleIndex m) (co_filteredPhaseNs c)
         (co_filteredFrequencyPpm c) (co_integralPpm c) (co_recovering c)), setQuantizer q s)
  | (Success (Some command), q) => (inl (decisionApply command), setQuantizer q s)
  end.

(** The recovery mode and the time held below the exit thresholds, from the
    measured phase and the new filter values. *)
Definition recoveryOf (p : Policy) (phaseError filteredPhaseNs filteredFrequencyPpm elapsedNs : Z) (c : Control) : bool * Z :=
  if negb (co_recovering c) && (po_recoveryEnterThresholdNs p <=? magnitude phaseError) then (true, 0)
  else if co_recovering c then
    let belowExit := (magnitude filteredPhaseNs <=? po_recoveryExitThresholdNs p) &&
                     (magnitude filteredFrequencyPpm <=? po_recoveryExitFrequencyPpm p) in
    let held := if belowExit then Z.min (po_recoveryExitHoldNs p) (i64 (co_recoveryExitHeldNs c + elapsedNs)) else 0 in
    if po_recoveryExitHoldNs p <=? held then (false, 0) else (true, held)
  else (false, co_recoveryExitHeldNs c).

(** The controller: the new integral and the stretch, from the filter values
    and the recovery mode. *)
Definition controlOf (p : Policy) (filteredPhaseNs filteredFrequencyPpm elapsedNs : Z) (recovering : bool)
  (integralPpm lastStretchPpm : Z) : Z * Z :=
  let phaseForControl := if magnitude filteredPhaseNs <=? po_deadbandNs p then 0 else filteredPhaseNs in
  let frequencyForControl := if magnitude filteredFrequencyPpm <=? po_frequencyDeadbandPpm p then 0 else filteredFrequencyPpm in
  let proportional := roundSignedRatio (i64 (phaseForControl * po_proportionalGainPpmPerSecond p)) NanosecondsPerSecond in
  let frequency := roundSignedRatio (i64 (frequencyForControl * po_frequencyFeedForwardNumerator p))
                     (po_frequencyFeedForwardDenominator p) in
  let integralRate := roundSignedRatio (i64 (phaseForControl * po_integralGainPpmPerSecondSquared p)) NanosecondsPerSecond in
  let integralIncrement := roundSignedRatio (i64 (integralRate * elapsedNs)) NanosecondsPerSecond in
  let activeLimit := if recovering then po_recoveryCorrectionLimitPpm p else po_normalCorrectionLimitPpm p in
  let candidateIntegral := clamp (i64 (integralPpm + integralIncrement)) (- po_integratorLimitPpm p) (po_integratorLimitPpm p) in
  let candidateTarget := i64 (i64 (proportional + frequency) + candidateIntegral) in
  let windsFurther := ((activeLimit <? candidateTarget) && (0 <? integralIncrement)) ||
                      ((candidateTarget <? i32 (- activeLimit)) && (integralIncrement <? 0)) in
  let integralPpm := if windsFurther then integralPpm else i32 candidateIntegral in
  let unclamped := i64 (i64 (proportional + frequency) + integralPpm) in
  let target := i32 (clamp unclamped (- activeLimit) activeLimit) in
  let slew := Z.max 1 (roundSignedRatio (i64 (po_maximumSlewPpmPerSecond p * elapsedNs)) NanosecondsPerSecond) in
  let stretchPpm := i32 (clamp target (i64 (lastStretchPpm - slew)) (i64 (lastStretchPpm + slew))) in
  (integralPpm, stretchPpm).

Definition processCurrent (m : MediaAudioDriftMeasurement) (elapsedNs : Z) (s : Servo) :
  AvSyncResult MediaAudioServoDecision * Servo :=
  let p := sv_policy s in
  let c := sv_control s in
  let rawFrequencyPpm := roundSignedRatio (i64 (i64 (ms_phaseError m - co_lastRawPhaseNs c) * PartsPerMillion)) elapsedNs in
  if po_maximumMeasuredFrequencyPpm p <? magnitude rawFrequencyPpm
  then discontinuity m (sv_generation s) (clampInt64ToInt rawFrequencyPpm) s
  else
    let filteredPhaseNs := lowPass (co_filteredPhaseNs c) (ms_phaseError m) elapsedNs (po_phaseFilterTimeConstantNs p) in
    let filteredFrequencyPpm :=
      clampInt64ToInt (lowPass (co_filteredFrequencyPpm c) rawFrequencyPpm elapsedNs (po_frequencyFilterTimeConstantNs p)) in
    let '(recovering, recoveryExitHeldNs) := recoveryOf p (ms_phaseError m) filteredPhaseNs filteredFrequencyPpm elapsedNs c in
    let '(integralPpm, stretchPpm) :=
      controlOf p filteredPhaseNs filteredFrequencyPpm elapsedNs recovering (co_integralPpm c) (co_lastStretchPpm c) in
    let c := mkControl (co_initialized c) recovering (ms_sourceEndOnMaster m) (ms_phaseError m) filteredPhaseNs
               filteredFrequencyPpm integralPpm stretchPpm recoveryExitHeldNs (ms_sequence m)
               (ms_effectiveOutputSampleIndex m) in
    publishWindowIfDue m stretchPpm (setControl c s).

Definition maximumAdvanceOf (p : Policy) (outputSampleRate elapsedNs : Z) : Z :=
  let nominalSamples :=
    i64 (i64 (Z.quot elapsedNs NanosecondsPerSecond * outputSampleRate) +
         Z.quot (i64 (i64 (i64 (Z.rem elapsedNs NanosecondsPerSecond * outputSampleRate) + NanosecondsPerSecond) - 1))
           NanosecondsPerSecond) in
  i64 (i64 (nominalSamples +
            Z.quot (i64 (i64 (i64 (nominalSamples * po_recoveryCorrectionLimitPpm p) + PartsPerMillion) - 1)) PartsPerMillion) + 2).

(** The first measurement of an epoch. *)
Definition initialize (m : MediaAudioDriftMeasurement) (s : Servo) : Servo :=
  let c := sv_control s in
  setControl
    (mkControl true (po_recoveryEnterThresholdNs (sv_policy s) <=? magnitude (ms_phaseError m)) (ms_sourceEndOnMaster m)
       (ms_phaseError m) (ms_phaseError m) (co_filteredFrequencyPpm c) (co_integralPpm c) (co_lastStretchPpm c)
       (co_recoveryExitHeldNs c) (ms_sequence m) (ms_effectiveOutputSampleIndex m)) s.

Definition update (m : MediaAudioDriftMeasurement) (s : Servo) : AvSyncResult MediaAudioServoDecision * Servo :=
  let p := sv_policy s in
  let c := sv_control s in
  let invalidMeasurement detail := (inr (error InvalidAudioServoMeasurement "update" (Some m) detail s), s) in
  if ms_generation m <? sv_generation s
  then (inl (decisionDropOldGeneration (ms_generation m) (ms_sequence m) (ms_effectiveOutputSampleIndex m)), s)
  else if sv_generation s <? ms_generation m
  then (inl (decisionReacquire (ms_generation m) (ms_sequence m) (ms_effectiveOutputSampleIndex m) (ms_phaseError m) 0), s)
  else if (ms_sequence m =? 0) || (ms_sequence m <=? co_lastSequence c) || (ms_effectiveOutputSampleIndex m <? 0) ||
          (co_initialized c && (ms_effectiveOutputSampleIndex m <? co_lastEffectiveOutputSampleIndex c)) ||
          negb (ms_outputSampleRate m =? sv_outputSampleRate s)
  then invalidMeasurement "sequence, sample index, or output sample rate contract failed"
  else if po_hardDiscontinuityThresholdNs p <=? magnitude (ms_phaseError m)
  then discontinuity m (ms_generation m) 0 s
  else if negb (co_initialized c) then publishWindowIfDue m 0 (initialize m s)
  else
    match checkedSubtract (ms_sourceEndOnMaster m) (co_lastSourceEndOnMasterNs c) with
    | Failure _ => invalidMeasurement "canonical source end must increase monotonically"
    | Success elapsedNs =>
        if elapsedNs <=? 0 then invalidMeasurement "canonical source end must increase monotonically"
        else if elapsedNs <? po_minimumUpdateIntervalNs p then
          (inl (decisionNone (sv_generation s) (ms_sequence m) (ms_effectiveOutputSampleIndex m) (co_filteredPhaseNs c)
             (co_filteredFrequencyPpm c) (co_integralPpm c) (co_recovering c)),
           setControl (observed m c) s)
        else if po_maximumMeasurementGapNs p <? elapsedNs then discontinuity m (sv_generation s) 0 s
        else if maximumAdvanceOf p (sv_outputSampleRate s) elapsedNs <?
                i64 (ms_effectiveOutputSampleIndex m - co_lastEffectiveOutputSampleIndex c)
        then invalidMeasurement "output sample index advanced beyond canonical source elapsed-time bound"
        else processCurrent m elapsedNs s
    end.

Definition reset (generation epochOutputSampleIndex : Z) (s : Servo) : AvSyncResult unit * Servo :=
  if (generation =? 0) || (epochOutputSampleIndex <? 0)
  then (inr (error InvalidGenerationTransition "reset" None
          "audio servo reset requires positive generation and non-negative epoch" s), s)
  else clearCorrectionEpoch epochOutputSampleIndex (clearControlState (setGeneration generation s)).

End MediaAudioDriftServo.
