(* ===== verification/AudioDriftSafety.v ===== *)
(** * The drift servo is exact, bounded and does not drift

    Theorems about [AudioDrift].  [exactStep] is the control law over the
    integers, with rounding to the nearest and no machine width; on every
    reachable state the servo computes it, so no operation of the code leaves
    its width, and its outputs stay within the planned limits.  The quantizer
    hands out windows without gaps whose lengths add up to the exact duration
    within half a sample. *)

From S2P Require Import Prelude MediaResult CheckedArithmetic TimeBase CanonicalTime AudioGrid AvSyncPlan AudioDrift.
Import MediaRunningTime MediaAvSyncError MediaAudioDriftServoLimits MediaAudioCorrection.

Local Open Scope Z_scope.

(** ** Rounding at machine width *)

Module MediaAudioQuantizerSafety.
Import MediaAudioCorrectionQuantizer.

Lemma abs_mul_bound a b m : 0 <= a -> Z.abs b <= m -> Z.abs (a * b) <= a * m.
Proof. intros. rewrite Z.abs_mul, (Z.abs_eq a) by done. by apply Z.mul_le_mono_nonneg_l. Qed.

Lemma half_quot d : 0 < d -> Z.quot (d + 1) 2 = (d + 1) / 2.
Proof. intros. rewrite Z.quot_div_nonneg; lia. Qed.

Lemma quot_small n d : 0 < d -> is_i 64 n -> is_i 64 (Z.quot n d) /\ (1 < d -> Z.abs (Z.quot n d) <= 2 ^ 62).
Proof. intros Hd Hn. ranges. split; Z.to_euclidean_division_equations; nia. Qed.

(** The two roundings of the code are rounding to the nearest. *)
Lemma roundSignedRatio_exact n d : is_i 64 n -> 0 < d < 2 ^ 62 -> quantizerRoundSignedRatio n d = roundNearest n d.
Proof.
  intros Hn Hd. unfold quantizerRoundSignedRatio. rewrite roundNearest_quot by lia.
  rewrite (i64_small (d + 1)) by (ranges; lia). rewrite half_quot by lia.
  pose proof (quot_small n d ltac:(lia) Hn) as [Hq Hq'].
  pose proof (Z.rem_bound_abs n d ltac:(lia)) as Hr.
  assert (Hh : 1 <= (d + 1) / 2 <= d) by (Z.to_euclidean_division_equations; lia).
  assert (Hone : d = 1 -> Z.rem n d = 0) by (intros ->; apply Z.rem_1_r).
  set (h := (d + 1) / 2) in *. clearbody h.
  destruct (Z.leb_spec 0 n).
  - assert (0 <= Z.rem n d) by (apply Z.rem_nonneg; lia).
    destruct (Z.leb_spec h (Z.rem n d)), (Z.leb_spec (Z.rem n d) (- h)); try lia; rewrite i64_small; ranges; lia.
  - assert (Z.rem n d <= 0) by (apply Z.rem_nonpos; lia).
    rewrite (i64_small (- Z.rem n d)) by (ranges; lia).
    destruct (Z.leb_spec h (- Z.rem n d)), (Z.leb_spec h (Z.rem n d)), (Z.leb_spec (Z.rem n d) (- h)); try lia;
      rewrite i64_small; ranges; lia.
Qed.

Lemma servo_round_exact n d : is_i 64 n -> 0 < d < 2 ^ 62 -> MediaAudioDriftServo.roundSignedRatio n d = roundNearest n d.
Proof.
  intros Hn Hd. unfold MediaAudioDriftServo.roundSignedRatio. rewrite roundNearest_quot by lia.
  rewrite (i64_small (d + 1)) by (ranges; lia). rewrite half_quot by lia.
  pose proof (quot_small n d ltac:(lia) Hn) as [Hq Hq'].
  pose proof (Z.rem_bound_abs n d ltac:(lia)) as Hr.
  assert (Hh : 1 <= (d + 1) / 2 <= d) by (Z.to_euclidean_division_equations; lia).
  assert (Hone : d = 1 -> Z.rem n d = 0) by (intros ->; apply Z.rem_1_r).
  set (h := (d + 1) / 2) in *. clearbody h. rewrite (i64_small (- h)) by (ranges; lia).
  destruct (Z.leb_spec h (Z.rem n d)), (Z.leb_spec (Z.rem n d) (- h)); try lia; rewrite ?i64_small; ranges; lia.
Qed.

(** ** The quantizer *)

(** What a planned quantizer keeps true: the window and its lead, and rests of
    at most half a sample. *)
Record quantizerOk (q : Quantizer) : Prop := {
  qok_rate : 0 < qz_outputSampleRate q < 2 ^ 31;
  qok_window : 0 < qz_windowNs q;
  qok_product : 1000000000 <= qz_windowNs q * qz_outputSampleRate q <= int64_max - 1000000000;
  qok_samples : qz_windowNs q * qz_outputSampleRate q / 1000000000 <= int32_max;
  qok_lead : 0 < qz_leadSamples q < qz_windowNs q * qz_outputSampleRate q / 1000000000;
  qok_end : forall e, qz_nextPlannedEnd q = Some e -> 0 <= e <= int64_max;
  qok_windowRest : Z.abs (qz_windowRemainder q) <= 500000000;
  qok_deltaRest : Z.abs (qz_deltaRemainder q) <= 500000;
}.

(** The samples of a window lead, rounded up, and of the window, rounded down. *)
Definition leadSamplesOf (lead rate : Z) : Z := (lead * rate + 1000000000 - 1) / 1000000000.

(** A quantizer is created exactly when the window has at least one sample and
    at most [INT_MAX], and the lead, rounded up, is less. *)
Lemma createQuantizer_iff window lead rate q :
  is_i 64 window -> is_i 64 lead -> is_i 32 rate ->
  createQuantizer window lead rate = Success q <->
  0 < lead < window /\ 0 < rate /\ window <= (int64_max - 1000000000) / rate /\
  1 <= window * rate / 1000000000 <= int32_max /\
  leadSamplesOf lead rate < window * rate / 1000000000 /\
  q = mkQuantizer window rate (leadSamplesOf lead rate) None false 0 0.
Proof.
  intros Hw Hl Hr. unfold createQuantizer.
  destruct (Z.leb_spec window 0); [split; [intros []%failure_not | lia] |].
  destruct (Z.leb_spec lead 0); [split; [intros []%failure_not | lia] |].
  destruct (Z.leb_spec window lead); [split; [intros []%failure_not | lia] |].
  destruct (Z.leb_spec rate 0); [split; [intros []%failure_not | lia] |].
  cbn [orb]. unfold NanosecondsPerSecond. rewrite (Z.quot_div_nonneg (int64_max - 1000000000)) by (ranges; lia).
  destruct (Z.ltb_spec ((int64_max - 1000000000) / rate) window); [split; [intros []%failure_not | lia] |].
  assert (Hp : 0 < window * rate <= int64_max - 1000000000).
  { pose proof (Z.mul_div_le (int64_max - 1000000000) rate ltac:(lia)). nia. }
  assert (Hlp : 0 < lead * rate < window * rate) by nia. cbv zeta.
  rewrite (i64_small (window * rate)), (i64_small (lead * rate)) by (ranges; lia).
  rewrite (i64_small (lead * rate + 1000000000)) by (ranges; lia).
  rewrite (i64_small (lead * rate + 1000000000 - 1)) by (ranges; lia).
  rewrite !Z.quot_div_nonneg by lia. fold (leadSamplesOf lead rate).
  assert (E : (window * rate <? 1000000000) = negb (1 <=? window * rate / 1000000000)).
  { apply eq_true_iff_eq. rewrite Z.ltb_lt, negb_true_iff, Z.leb_gt.
    pose proof (Z.div_mod (window * rate) 1000000000 ltac:(lia)).
    pose proof (Z.mod_pos_bound (window * rate) 1000000000 ltac:(lia)). lia. }
  rewrite E. destruct (Z.leb_spec 1 (window * rate / 1000000000)); cbn [negb orb]; [| split; [intros []%failure_not | lia]].
  destruct (Z.ltb_spec int32_max (window * rate / 1000000000)); cbn [negb orb]; [split; [intros []%failure_not | lia] |].
  destruct (Z.leb_spec (leadSamplesOf lead rate) 0) as [Hbad | _].
  { unfold leadSamplesOf in Hbad. assert (1 <= (lead * rate + 1000000000 - 1) / 1000000000) by (apply Z.div_le_lower_bound; lia). lia. }
  cbn [orb]. destruct (Z.leb_spec (window * rate / 1000000000) (leadSamplesOf lead rate)); [split; [intros []%failure_not | lia] |].
  split; [intros [= <-]; split_and!; try done; lia | intros (_ & _ & _ & _ & _ & ->); done].
Qed.

Lemma created_ok window lead rate q : is_i 64 window -> is_i 64 lead -> is_i 32 rate ->
  createQuantizer window lead rate = Success q -> quantizerOk q.
Proof.
  intros Hw Hl Hr (Hlw & Hr0 & Hwr & Hs & Hls & ->)%createQuantizer_iff; [| done..].
  pose proof (Z.mul_div_le (int64_max - 1000000000) rate ltac:(lia)).
  pose proof (Z.mul_div_le (window * rate) 1000000000 ltac:(lia)).
  assert (0 < leadSamplesOf lead rate).
  { unfold leadSamplesOf. assert (1 <= (lead * rate + 1000000000 - 1) / 1000000000); [| lia]. apply Z.div_le_lower_bound; nia. }
  constructor; cbn; try lia; [ranges; lia | nia | done].
Qed.

(** The exact lengths of the next window at a stretch. *)
Definition nominalOf (q : Quantizer) : Z :=
  roundNearest (qz_windowNs q * qz_outputSampleRate q + qz_windowRemainder q) 1000000000.

Definition deltaOf (stretch : Z) (q : Quantizer) : Z :=
  roundNearest (nominalOf q * stretch + qz_deltaRemainder q) 1000000.

Definition effectiveOf (index : Z) (q : Quantizer) : Z := default index (qz_nextPlannedEnd q).

(** A window is due unless the observed sample is still ahead of the lead. *)
Definition due (index : Z) (q : Quantizer) : bool :=
  negb (qz_epochHasPublishedWindow q &&
        match qz_nextPlannedEnd q with Some e => index <? e - qz_leadSamples q | None => false end).

Definition fits (index stretch : Z) (q : Quantizer) : bool :=
  (nominalOf q <=? int32_max) && (0 <? nominalOf q + deltaOf stretch q) && (nominalOf q + deltaOf stretch q <=? int32_max) &&
  (effectiveOf index q + (nominalOf q + deltaOf stretch q) <=? int64_max).

Definition nextCommand (generation sequence index stretch : Z) (telemetry : MediaAudioCorrectionTelemetry) (q : Quantizer) :
  MediaAudioCompensationCommand :=
  mkCommand generation sequence (effectiveOf index q) stretch (deltaOf stretch q) (nominalOf q + deltaOf stretch q)
    (te_filteredPhaseError telemetry) (te_filteredFrequencyPpm telemetry) (te_integralPpm telemetry) (te_recovering telemetry).

Definition nextQuantizer (index stretch : Z) (q : Quantizer) : Quantizer :=
  mkQuantizer (qz_windowNs q) (qz_outputSampleRate q) (qz_leadSamples q)
    (Some (effectiveOf index q + (nominalOf q + deltaOf stretch q))) true
    (qz_windowNs q * qz_outputSampleRate q + qz_windowRemainder q - nominalOf q * 1000000000)
    (nominalOf q * stretch + qz_deltaRemainder q - deltaOf stretch q * 1000000).

Lemma nominal_bounds q : quantizerOk q -> 1 <= nominalOf q <= 2 ^ 31 /\
  Z.abs (qz_windowNs q * qz_outputSampleRate q + qz_windowRemainder q - nominalOf q * 1000000000) <= 500000000.
Proof.
  intros H. destruct H as [_ _ [Hp1 Hp2] Hs _ _ Hr _].
  pose proof (roundNearest_close (qz_windowNs q * qz_outputSampleRate q + qz_windowRemainder q) 1000000000 ltac:(lia)) as Hc.
  assert (H1 : 1 <= nominalOf q).
  { unfold nominalOf. rewrite roundNearest_pos by lia. apply Z.div_le_lower_bound; lia. }
  unfold nominalOf in *. set (n := roundNearest _ _) in *. clearbody n.
  pose proof (Z.div_mod (qz_windowNs q * qz_outputSampleRate q) 1000000000 ltac:(lia)) as E.
  pose proof (Z.mod_pos_bound (qz_windowNs q * qz_outputSampleRate q) 1000000000 ltac:(lia)) as B.
  split; [split; [done | ranges; lia] | lia].
Qed.

Lemma delta_bounds stretch q : quantizerOk q -> Z.abs stretch < 1000000 -> Z.abs (deltaOf stretch q) <= 2 ^ 31 /\
  Z.abs (nominalOf q * stretch + qz_deltaRemainder q - deltaOf stretch q * 1000000) <= 500000.
Proof.
  intros H Hs. pose proof (nominal_bounds q H) as [Hn _]. pose proof (qok_deltaRest q H) as Hr.
  pose proof (roundNearest_close (nominalOf q * stretch + qz_deltaRemainder q) 1000000 ltac:(lia)) as Hc.
  split; [| unfold deltaOf; lia]. apply roundNearest_abs; [lia |].
  assert (Z.abs (nominalOf q * stretch) <= nominalOf q * 999999) by (apply abs_mul_bound; lia). ranges. lia.
Qed.

Lemma due_width index q : quantizerOk q ->
  (qz_epochHasPublishedWindow q &&
   match qz_nextPlannedEnd q with Some e => index <? i64 (e - qz_leadSamples q) | None => false end) = negb (due index q).
Proof.
  intros Hq. unfold due. rewrite negb_involutive. destruct (qz_nextPlannedEnd q) as [e |] eqn:Ee; [| done].
  pose proof (qok_end q Hq e Ee). pose proof (qok_lead q Hq). pose proof (qok_samples q Hq).
  rewrite i64_small; [done |]. ranges. lia.
Qed.

(** [schedule] in exact arithmetic: nothing when no window is due, else the next
    command when it can be represented, else an error. *)
Lemma schedule_exact generation sequence index stretch telemetry q :
  quantizerOk q -> 0 < generation -> 0 < sequence -> 0 <= index <= int64_max -> Z.abs stretch < 1000000 ->
  exists e, schedule generation sequence index stretch telemetry q =
    if due index q then
      if fits index stretch q
      then (Success (Some (nextCommand generation sequence index stretch telemetry q)), nextQuantizer index stretch q)
      else (Failure e, q)
    else (Success None, q).
Proof.
  intros Hq Hg Hsq Hi Hst. unfold schedule. cbv zeta. rewrite due_width by done. unfold PartsPerMillion, NanosecondsPerSecond.
  destruct (Z.eqb_spec generation 0); [lia |]. destruct (Z.eqb_spec sequence 0); [lia |].
  destruct (Z.ltb_spec index 0); [lia |]. destruct (Z.leb_spec stretch (Z.opp 1000000)); [lia |]. cbn [orb].
  destruct (due index q); cbn [negb]; [| by exists (invalidArgument EmptyString)].
  pose proof (nominal_bounds q Hq) as [Hn Hwr]. pose proof (delta_bounds stretch q Hq Hst) as [Hd Hdr].
  pose proof (qok_product q Hq) as Hp. pose proof (qok_windowRest q Hq) as Hr. pose proof (qok_deltaRest q Hq) as Hr'.
  rewrite (i64_small (qz_windowNs q * qz_outputSampleRate q)) by (ranges; lia).
  rewrite (i64_small (qz_windowNs q * qz_outputSampleRate q + qz_windowRemainder q)) by (ranges; lia).
  rewrite roundSignedRatio_exact by (ranges; lia). fold (nominalOf q).
  rewrite (i32_small (Z.abs stretch)) by (ranges; lia).
  assert (Hq1 : 2 ^ 31 < Z.quot (int64_max - 1000000) (Z.max 1 (Z.abs stretch))).
  { rewrite Z.quot_div_nonneg by (ranges; lia). apply Z.lt_le_trans with ((int64_max - 1000000) / 1000000); [by vm_compute |].
    apply Z.div_le_compat_l; ranges; lia. }
  destruct (Z.ltb_spec (Z.quot (int64_max - 1000000) (Z.max 1 (Z.abs stretch))) (nominalOf q)); [lia |].
  destruct (Z.leb_spec (nominalOf q) 0); [lia |]. unfold fits.
  destruct (Z.ltb_spec int32_max (nominalOf q)), (Z.leb_spec (nominalOf q) int32_max); try lia;
    cbn [orb andb]; [by eexists |].
  assert (Hns : Z.abs (nominalOf q * stretch) <= nominalOf q * 999999) by (apply abs_mul_bound; lia).
  rewrite (i64_small (nominalOf q * stretch)) by (ranges; lia).
  rewrite (i64_small (nominalOf q * stretch + qz_deltaRemainder q)) by (ranges; lia).
  rewrite roundSignedRatio_exact by (ranges; lia). fold (deltaOf stretch q).
  rewrite (i64_small (nominalOf q + deltaOf stretch q)) by (ranges; lia).
  fold (effectiveOf index q).
  destruct (Z.leb_spec (nominalOf q + deltaOf stretch q) 0), (Z.ltb_spec 0 (nominalOf q + deltaOf stretch q)); try lia;
    cbn [orb andb]; [rewrite !orb_true_r; by eexists |].
  destruct (Z.ltb_spec int32_max (nominalOf q + deltaOf stretch q)), (Z.leb_spec (nominalOf q + deltaOf stretch q) int32_max);
    try lia; cbn [orb andb]; [rewrite !orb_true_r; by eexists |].
  destruct (Z.ltb_spec (deltaOf stretch q) int32_min); [ranges; lia |].
  destruct (Z.ltb_spec int32_max (deltaOf stretch q)); [ranges; lia |]. cbn [orb].
  rewrite (i64_small (int64_max - _)) by (ranges; lia).
  destruct (Z.ltb_spec (int64_max - (nominalOf q + deltaOf stretch q)) (effectiveOf index q)),
    (Z.leb_spec (effectiveOf index q + (nominalOf q + deltaOf stretch q)) int64_max); try lia; [by eexists |].
  exists (invalidArgument EmptyString).
  assert (He : 0 <= effectiveOf index q).
  { unfold effectiveOf. destruct (qz_nextPlannedEnd q) as [e |] eqn:Ee; cbn; [by apply (qok_end q Hq) | lia]. }
  rewrite (i32_small (deltaOf stretch q)), (i32_small (nominalOf q + deltaOf stretch q)) by (ranges; lia).
  rewrite (i64_small (effectiveOf index q + _)) by (ranges; lia).
  rewrite (i64_small (nominalOf q * 1000000000)), (i64_small (deltaOf stretch q * 1000000)) by (ranges; lia).
  rewrite !i64_small by (ranges; lia). done.
Qed.

Lemma next_ok index stretch q : quantizerOk q -> 0 <= index <= int64_max -> Z.abs stretch < 1000000 ->
  fits index stretch q = true -> quantizerOk (nextQuantizer index stretch q).
Proof.
  intros Hq Hi Hst. unfold fits. rewrite !andb_true_iff, !Z.leb_le, Z.ltb_lt. intros [[[_ Hf1] Hf2] Hf3].
  assert (He : 0 <= effectiveOf index q).
  { unfold effectiveOf. destruct (qz_nextPlannedEnd q) as [e |] eqn:Ee; cbn; [by apply (qok_end q Hq) | lia]. }
  constructor; cbn; try apply Hq; [intros e [= <-]; lia | by apply nominal_bounds | by apply delta_bounds].
Qed.

Lemma reset_epoch_ok index q : quantizerOk q -> 0 <= index <= int64_max -> quantizerOk (resetEpoch index q).2.
Proof.
  intros Hq Hi. unfold resetEpoch. destruct (Z.ltb_spec index 0); [done |].
  destruct Hq. constructor; cbn; try done. by intros e [= <-].
Qed.

(** *** Schedules *)

Inductive QuantizerCall :=
  | Call_Schedule (generation sequence index stretch : Z) (telemetry : MediaAudioCorrectionTelemetry).

Definition quantizerCallOk (c : QuantizerCall) : Prop :=
  match c with
  | Call_Schedule generation sequence index stretch _ =>
      0 < generation /\ 0 < sequence /\ 0 <= index <= int64_max /\ Z.abs stretch < 1000000
  end.

(** The commands of a schedule of calls, in order. *)
Fixpoint commandsOf (calls : list QuantizerCall) (q : Quantizer) : list MediaAudioCompensationCommand * Quantizer :=
  match calls with
  | [] => ([], q)
  | Call_Schedule generation sequence index stretch telemetry :: calls =>
      let '(r, q) := schedule generation sequence index stretch telemetry q in
      let '(commands, q) := commandsOf calls q in
      (match r with Success (Some command) => command :: commands | _ => commands end, q)
  end.

(** Every command starts where the one before it ends. *)
Fixpoint gapless (start : option Z) (commands : list MediaAudioCompensationCommand) : Prop :=
  match commands with
  | [] => True
  | c :: commands =>
      match start with Some e => cm_effectiveOutputSampleIndex c = e | None => True end /\
      gapless (Some (cm_effectiveOutputSampleIndex c + cm_compensationDistance c)) commands
  end.

Definition total (f : MediaAudioCompensationCommand -> Z) (commands : list MediaAudioCompensationCommand) : Z :=
  foldr (fun c sum => f c + sum) 0 commands.

(** The samples a window has before the correction. *)
Definition uncorrected (c : MediaAudioCompensationCommand) : Z := cm_compensationDistance c - cm_sampleDelta c.

Lemma commands_exact calls q : quantizerOk q -> Forall quantizerCallOk calls ->
  let '(commands, q') := commandsOf calls q in
  quantizerOk q' /\ gapless (qz_nextPlannedEnd q) commands /\
  qz_windowNs q' = qz_windowNs q /\ qz_outputSampleRate q' = qz_outputSampleRate q /\
  total uncorrected commands * 1000000000 =
    Z.of_nat (length commands) * (qz_windowNs q * qz_outputSampleRate q) + qz_windowRemainder q - qz_windowRemainder q' /\
  total cm_sampleDelta commands * 1000000 =
    total (fun c => uncorrected c * cm_stretchPpm c) commands + qz_deltaRemainder q - qz_deltaRemainder q'.
Proof.
  intros Hq Hcalls. revert q Hq. induction Hcalls as [| [g sq i st te] calls (Hg & Hsq & Hi & Hst) _ IH]; intros q Hq.
  { cbn. split_and!; try done; lia. }
  cbn [commandsOf]. destruct (schedule_exact g sq i st te q Hq Hg Hsq Hi Hst) as [e ->].
  destruct (due i q); [| specialize (IH q Hq); by destruct (commandsOf calls q)]. destruct (fits i st q) eqn:Ef; [| specialize (IH q Hq); by destruct (commandsOf calls q)].
  specialize (IH _ (next_ok i st q Hq Hi Hst Ef)).
  destruct (commandsOf calls (nextQuantizer i st q)) as [commands q'].
  destruct IH as (Hq' & Hgap & Hw & Hr & Hwin & Hdel). cbn in Hw, Hr, Hgap.
  split_and!; [done | | done | done | |].
  - cbn. split; [unfold effectiveOf; by destruct (qz_nextPlannedEnd q) | done].
  - cbn [total foldr length]. fold (total uncorrected commands). rewrite Nat2Z.inj_succ.
    unfold uncorrected at 1. cbn in *. lia.
  - cbn [total foldr]. fold (total cm_sampleDelta commands). fold (total (fun c => uncorrected c * cm_stretchPpm c) commands).
    unfold uncorrected at 1. cbn in *. lia.
Qed.

(** C27: Whatever the measurements, the correction windows handed out since an
    epoch follow each other without gap or overlap, their uncorrected lengths
    add up to the exact duration within half a sample, and the samples added or
    removed add up to the exact stretch within half a sample: rounding never
    accumulates. *)
Theorem windows_exact window lead rate q epoch calls :
  is_i 64 window -> is_i 64 lead -> is_i 32 rate -> createQuantizer window lead rate = Success q ->
  0 <= epoch <= int64_max -> Forall quantizerCallOk calls ->
  let commands := (commandsOf calls (resetEpoch epoch q).2).1 in
  gapless (Some epoch) commands /\
  2 * Z.abs (total uncorrected commands * 1000000000 - Z.of_nat (length commands) * (window * rate)) <= 1000000000 /\
  2 * Z.abs (total cm_sampleDelta commands * 1000000 - total (fun c => uncorrected c * cm_stretchPpm c) commands) <= 1000000.
Proof.
  intros Hw Hl Hr Hc He Hcalls commands. subst commands.
  pose proof (reset_epoch_ok epoch q (created_ok _ _ _ _ Hw Hl Hr Hc) He) as Hq.
  pose proof (commands_exact calls _ Hq Hcalls) as H.
  apply createQuantizer_iff in Hc as (_ & _ & _ & _ & _ & ->); [| done..].
  unfold resetEpoch in *. destruct (Z.ltb_spec epoch 0); [lia |]. cbn [snd] in *.
  destruct (commandsOf calls _) as [commands q']. cbn [fst] in *.
  destruct H as ([_ _ _ _ _ _ Hwr Hdr] & Hgap & _ & _ & Hwin & Hdel). cbn in Hgap, Hwin, Hdel.
  split_and!; [done | lia | lia].
Qed.

Definition exampleCalls : list QuantizerCall :=
  (fun i => Call_Schedule 1 i (i * 20000) 700 (mkTelemetry 0 0 0 false)) <$> [1; 2; 3; 4; 5].

Lemma windows_exact_witness :
  exists q, createQuantizer 1200000001 1100000000 44100 = Success q /\
    length (commandsOf exampleCalls (resetEpoch 20000 q).2).1 = 3%nat /\
    gapless (Some 20000) (commandsOf exampleCalls (resetEpoch 20000 q).2).1.
Proof.
  eexists. split; [reflexivity |]. split; [vm_compute; reflexivity |].
  refine (proj1 (windows_exact 1200000001 1100000000 44100 _ 20000 exampleCalls _ _ _ eq_refl _ _)).
  1-3: split; (discriminate || reflexivity).
  - split; discriminate.
  - repeat (apply Forall_cons; split; [split_and!; (discriminate || reflexivity) |]). by apply Forall_nil.
Defined.

End MediaAudioQuantizerSafety.

(** ** The servo *)

Module MediaAudioServoSafety.
Import MediaAudioCorrectionQuantizer (Quantizer).
Import MediaAudioQuantizerSafety MediaAvSyncPlan MediaAudioDriftServo.

(** What [validPolicy] establishes of a policy of 32-bit and 64-bit values. *)
Record policyOk (p : Policy) : Prop := {
  pok_deadband : 0 < po_deadbandNs p;
  pok_phaseFilter : 0 < po_phaseFilterTimeConstantNs p < po_maximumMeasurementGapNs p;
  pok_gap : po_maximumMeasurementGapNs p <= 1000000000;
  pok_frequencyFilter : po_maximumMeasurementGapNs p < po_frequencyFilterTimeConstantNs p <= 60000000000;
  pok_proportional : 0 < po_proportionalGainPpmPerSecond p <= 100000;
  pok_integral : 0 < po_integralGainPpmPerSecondSquared p <= 100000;
  pok_integrator : 0 < po_integratorLimitPpm p <= po_recoveryCorrectionLimitPpm p;
  pok_feedForward : 0 <= po_frequencyFeedForwardNumerator p <= po_frequencyFeedForwardDenominator p;
  pok_denominator : 0 < po_frequencyFeedForwardDenominator p < 2 ^ 31;
  pok_frequencyDeadband : 0 <= po_frequencyDeadbandPpm p;
  pok_maximumFrequency : 0 < po_maximumMeasuredFrequencyPpm p <= 1000000;
  pok_minimumInterval : 0 < po_minimumUpdateIntervalNs p;
  pok_slew : 0 < po_maximumSlewPpmPerSecond p <= po_normalCorrectionLimitPpm p;
  pok_normal : po_normalCorrectionLimitPpm p <= po_recoveryCorrectionLimitPpm p;
  pok_recovery : po_recoveryCorrectionLimitPpm p <= 5000;
  pok_exitHold : 0 < po_recoveryExitHoldNs p <= 60000000000;
  pok_rate : 0 < po_outputSampleRate p <= 384000;
  pok_lead : 0 < po_commandLeadNs p < po_compensationWindowNs p;
  pok_window : po_compensationWindowNs p <= 60000000000;
  pok_hard : 0 < po_hardDiscontinuityThresholdNs p <= 500000000;
}.

(** ** The control law over the integers *)

Definition exactLowPass (previous sample elapsed timeConstant : Z) : Z :=
  previous + roundNearest ((sample - previous) * elapsed) (timeConstant + elapsed).

Definition exactRecovery (p : Policy) (phase filteredPhase filteredFrequency elapsed : Z) (c : Control) : bool * Z :=
  if co_recovering c then
    let held := if (Z.abs filteredPhase <=? po_recoveryExitThresholdNs p) && (Z.abs filteredFrequency <=? po_recoveryExitFrequencyPpm p)
                then co_recoveryExitHeldNs c + elapsed else 0 in
    if po_recoveryExitHoldNs p <=? held then (false, 0) else (true, held)
  else if po_recoveryEnterThresholdNs p <=? Z.abs phase then (true, 0)
  else (false, co_recoveryExitHeldNs c).

(** Values within a dead band count as zero. *)
Definition outside (band value : Z) : Z := if Z.abs value <=? band then 0 else value.

Definition limited (limit value : Z) : Z := Z.max (- limit) (Z.min limit value).

Definition slewOf (p : Policy) (elapsed : Z) : Z := Z.max 1 (roundNearest (po_maximumSlewPpmPerSecond p * elapsed) 1000000000).

Definition activeLimitOf (p : Policy) (recovering : bool) : Z :=
  if recovering then po_recoveryCorrectionLimitPpm p else po_normalCorrectionLimitPpm p.

(** Proportional and frequency terms plus a conditionally integrated phase,
    limited and slewed. *)
Definition exactControl (p : Policy) (filteredPhase filteredFrequency elapsed : Z) (recovering : bool)
  (integral lastStretch : Z) : Z * Z :=
  let phase := outside (po_deadbandNs p) filteredPhase in
  let frequency := outside (po_frequencyDeadbandPpm p) filteredFrequency in
  let direct := roundNearest (phase * po_proportionalGainPpmPerSecond p) 1000000000 +
                roundNearest (frequency * po_frequencyFeedForwardNumerator p) (po_frequencyFeedForwardDenominator p) in
  let increment := roundNearest (roundNearest (phase * po_integralGainPpmPerSecondSquared p) 1000000000 * elapsed) 1000000000 in
  let limit := activeLimitOf p recovering in
  let candidate := limited (po_integratorLimitPpm p) (integral + increment) in
  let winds := ((limit <? direct + candidate) && (0 <? increment)) || ((direct + candidate <? - limit) && (increment <? 0)) in
  let integral := if winds then integral else candidate in
  let target := limited limit (direct + integral) in
  (integral, Z.max (lastStretch - slewOf p elapsed) (Z.min (lastStretch + slewOf p elapsed) target)).

(** The state the servo keeps inside the planned bounds. *)
Record controlOk (p : Policy) (c : Control) : Prop := {
  cok_rawPhase : Z.abs (co_lastRawPhaseNs c) < po_hardDiscontinuityThresholdNs p;
  cok_phase : Z.abs (co_filteredPhaseNs c) < po_hardDiscontinuityThresholdNs p;
  cok_frequency : Z.abs (co_filteredFrequencyPpm c) <= po_maximumMeasuredFrequencyPpm p;
  cok_integral : Z.abs (co_integralPpm c) <= po_integratorLimitPpm p;
  cok_stretch : Z.abs (co_lastStretchPpm c) <= po_recoveryCorrectionLimitPpm p;
  cok_held : 0 <= co_recoveryExitHeldNs c < po_recoveryExitHoldNs p;
  cok_index : 0 <= co_lastEffectiveOutputSampleIndex c <= int64_max;
  cok_source : is_i 64 (co_lastSourceEndOnMasterNs c);
}.

Lemma magnitude_abs z : is_i 64 z -> magnitude z = Z.abs z.
Proof.
  intros Hz. unfold magnitude. destruct (Z.leb_spec 0 z); [lia |].
  rewrite (i64_small (z + 1)) by (ranges; lia). rewrite (i64_small (- (z + 1))) by (ranges; lia).
  unfold u64. rewrite Z.mod_small; ranges; lia.
Qed.

(** A low pass with a positive time constant stays between its inputs. *)
Lemma exactLowPass_between previous sample elapsed timeConstant : 0 < elapsed -> 0 < timeConstant ->
  Z.min previous sample <= exactLowPass previous sample elapsed timeConstant <= Z.max previous sample.
Proof.
  intros He Ht. unfold exactLowPass.
  set (a := sample - previous).
  assert (Ha : Z.abs (roundNearest (a * elapsed) (timeConstant + elapsed)) <= Z.abs a).
  { apply roundNearest_abs; [lia |]. rewrite Z.abs_mul, (Z.abs_eq elapsed) by lia. nia. }
  destruct (Z.le_ge_cases 0 a).
  - pose proof (roundNearest_nonneg (a * elapsed) (timeConstant + elapsed) ltac:(lia) ltac:(nia)). subst a. lia.
  - pose proof (roundNearest_nonpos (a * elapsed) (timeConstant + elapsed) ltac:(lia) ltac:(nia)). subst a. lia.
Qed.

Lemma lowPass_exact previous sample elapsed timeConstant bound :
  Z.abs previous <= bound -> Z.abs sample <= bound -> bound <= 1000000000 ->
  0 < elapsed <= 1000000000 -> 0 < timeConstant <= 60000000000 ->
  lowPass previous sample elapsed timeConstant = exactLowPass previous sample elapsed timeConstant /\
  Z.abs (exactLowPass previous sample elapsed timeConstant) <= bound.
Proof.
  intros Hp Hs Hb He Ht.
  pose proof (exactLowPass_between previous sample elapsed timeConstant ltac:(lia) ltac:(lia)) as Hbt.
  split; [| lia]. unfold lowPass. cbv zeta.
  rewrite (i64_small (sample - previous)) by (ranges; lia).
  assert (Hm : Z.abs ((sample - previous) * elapsed) <= 2 * bound * 1000000000).
  { rewrite Z.abs_mul, (Z.abs_eq elapsed) by lia. apply Z.mul_le_mono_nonneg; lia. }
  rewrite (i64_small ((sample - previous) * elapsed)) by (ranges; lia).
  rewrite (i64_small (timeConstant + elapsed)) by (ranges; lia).
  rewrite servo_round_exact by (ranges; lia).
  change (previous + _) with (exactLowPass previous sample elapsed timeConstant). apply i64_small. ranges. lia.
Qed.

Lemma clamp_limited value limit : 0 <= limit -> clamp value (- limit) limit = limited limit value.
Proof. intros. unfold clamp, limited. destruct (Z.ltb_spec value (- limit)), (Z.ltb_spec limit value); lia. Qed.

Lemma clamp_between value low high : low <= high -> clamp value low high = Z.max low (Z.min high value).
Proof. intros. unfold clamp. destruct (Z.ltb_spec value low), (Z.ltb_spec high value); lia. Qed.

(** A value limited to a bound and slewed towards it from within the bound. *)
Lemma slewed_bounds target last slew bound : Z.abs target <= bound -> Z.abs last <= bound -> 1 <= slew ->
  Z.abs (Z.max (last - slew) (Z.min (last + slew) target)) <= bound /\
  Z.abs (Z.max (last - slew) (Z.min (last + slew) target) - last) <= slew.
Proof. lia. Qed.

Lemma limited_abs limit value : 0 <= limit -> Z.abs (limited limit value) <= limit.
Proof. unfold limited. lia. Qed.

Lemma outside_abs band value : Z.abs (outside band value) <= Z.abs value.
Proof. unfold outside. destruct (Z.leb_spec (Z.abs value) band); lia. Qed.

Lemma slewOf_bounds p elapsed : policyOk p -> 0 < elapsed <= 1000000000 ->
  Z.max 1 (roundSignedRatio (i64 (po_maximumSlewPpmPerSecond p * elapsed)) NanosecondsPerSecond) = slewOf p elapsed /\
  1 <= slewOf p elapsed <= 5000.
Proof.
  intros Hp He. pose proof (pok_slew p Hp). pose proof (pok_normal p Hp). pose proof (pok_recovery p Hp).
  assert (Hm : 0 <= po_maximumSlewPpmPerSecond p * elapsed <= 5000 * 1000000000) by nia.
  unfold NanosecondsPerSecond. rewrite i64_small by (ranges; lia). rewrite servo_round_exact by (ranges; lia).
  fold (slewOf p elapsed). split; [done |]. unfold slewOf.
  pose proof (roundNearest_abs (po_maximumSlewPpmPerSecond p * elapsed) 1000000000 5000 ltac:(lia) ltac:(lia)). lia.
Qed.

(** The direct terms and the integral increment, each within its width. *)
Lemma terms_exact p phase frequency elapsed : policyOk p -> Z.abs phase <= 500000000 -> Z.abs frequency <= 1000000 ->
  0 < elapsed <= 1000000000 ->
  roundSignedRatio (i64 (phase * po_proportionalGainPpmPerSecond p)) NanosecondsPerSecond =
    roundNearest (phase * po_proportionalGainPpmPerSecond p) 1000000000 /\
  roundSignedRatio (i64 (frequency * po_frequencyFeedForwardNumerator p)) (po_frequencyFeedForwardDenominator p) =
    roundNearest (frequency * po_frequencyFeedForwardNumerator p) (po_frequencyFeedForwardDenominator p) /\
  roundSignedRatio (i64 (roundSignedRatio (i64 (phase * po_integralGainPpmPerSecondSquared p)) NanosecondsPerSecond * elapsed))
    NanosecondsPerSecond =
    roundNearest (roundNearest (phase * po_integralGainPpmPerSecondSquared p) 1000000000 * elapsed) 1000000000 /\
  Z.abs (roundNearest (phase * po_proportionalGainPpmPerSecond p) 1000000000) <= 50000 /\
  Z.abs (roundNearest (frequency * po_frequencyFeedForwardNumerator p) (po_frequencyFeedForwardDenominator p)) <= 1000000 /\
  Z.abs (roundNearest (roundNearest (phase * po_integralGainPpmPerSecondSquared p) 1000000000 * elapsed) 1000000000) <= 50000.
Proof.
  intros Hp Hph Hfr He. unfold NanosecondsPerSecond.
  pose proof (pok_proportional p Hp). pose proof (pok_integral p Hp). pose proof (pok_feedForward p Hp).
  pose proof (pok_denominator p Hp).
  assert (Q1 : Z.abs (phase * po_proportionalGainPpmPerSecond p) <= 500000000 * 100000).
  { rewrite Z.abs_mul. apply Z.mul_le_mono_nonneg; lia. }
  assert (Q2 : Z.abs (frequency * po_frequencyFeedForwardNumerator p) <= 1000000 * po_frequencyFeedForwardDenominator p).
  { rewrite Z.abs_mul. apply Z.mul_le_mono_nonneg; lia. }
  assert (Q3 : Z.abs (phase * po_integralGainPpmPerSecondSquared p) <= 500000000 * 100000).
  { rewrite Z.abs_mul. apply Z.mul_le_mono_nonneg; lia. }
  rewrite (i64_small (phase * po_proportionalGainPpmPerSecond p)), (i64_small (frequency * _)),
    (i64_small (phase * po_integralGainPpmPerSecondSquared p)) by (ranges; lia).
  rewrite (servo_round_exact (phase * po_proportionalGainPpmPerSecond p)), (servo_round_exact (frequency * _)),
    (servo_round_exact (phase * po_integralGainPpmPerSecondSquared p)) by (ranges; lia).
  pose proof (roundNearest_abs (phase * po_integralGainPpmPerSecondSquared p) 1000000000 50000 ltac:(lia) ltac:(lia)) as Q4.
  set (rate := roundNearest (phase * po_integralGainPpmPerSecondSquared p) 1000000000) in *.
  assert (Q5 : Z.abs (rate * elapsed) <= 50000 * 1000000000) by (rewrite Z.abs_mul; apply Z.mul_le_mono_nonneg; lia).
  rewrite i64_small by (ranges; lia). rewrite servo_round_exact by (ranges; lia).
  split_and!; try done; apply roundNearest_abs; lia.
Qed.

Lemma controlOf_exact p filteredPhase filteredFrequency elapsed recovering integral lastStretch :
  policyOk p -> Z.abs filteredPhase <= 500000000 -> Z.abs filteredFrequency <= 1000000 -> 0 < elapsed <= 1000000000 ->
  Z.abs integral <= po_integratorLimitPpm p -> Z.abs lastStretch <= po_recoveryCorrectionLimitPpm p ->
  controlOf p filteredPhase filteredFrequency elapsed recovering integral lastStretch =
    exactControl p filteredPhase filteredFrequency elapsed recovering integral lastStretch /\
  let '(integral', stretch) := exactControl p filteredPhase filteredFrequency elapsed recovering integral lastStretch in
  Z.abs integral' <= po_integratorLimitPpm p /\ Z.abs stretch <= po_recoveryCorrectionLimitPpm p /\
  Z.abs (stretch - lastStretch) <= slewOf p elapsed.
Proof.
  intros Hp Hph Hfr He Hi Hst.
  pose proof (pok_integrator p Hp). pose proof (pok_normal p Hp). pose proof (pok_recovery p Hp). pose proof (pok_slew p Hp).
  pose proof (magnitude_abs filteredPhase ltac:(ranges; lia)) as Em1. pose proof (magnitude_abs filteredFrequency ltac:(ranges; lia)) as Em2.
  pose proof (outside_abs (po_deadbandNs p) filteredPhase) as Ho1.
  pose proof (outside_abs (po_frequencyDeadbandPpm p) filteredFrequency) as Ho2.
  pose proof (slewOf_bounds p elapsed Hp He) as [Es Hs].
  unfold controlOf, exactControl. cbv zeta. rewrite Em1, Em2, Es.
  fold (outside (po_deadbandNs p) filteredPhase). fold (outside (po_frequencyDeadbandPpm p) filteredFrequency).
  pose proof (terms_exact p _ _ elapsed Hp (Z.le_trans _ _ _ Ho1 Hph) (Z.le_trans _ _ _ Ho2 Hfr) He) as (-> & -> & -> & B1 & B2 & B3).
  set (prop := roundNearest (_ * po_proportionalGainPpmPerSecond p) _) in *.
  set (freq := roundNearest (_ * po_frequencyFeedForwardNumerator p) _) in *.
  set (inc := roundNearest (_ * elapsed) _) in *. clearbody prop freq inc.
  rewrite (i64_small (integral + inc)) by (ranges; lia). rewrite !clamp_limited by lia.
  fold (activeLimitOf p recovering).
  assert (Hl : 0 <= activeLimitOf p recovering <= po_recoveryCorrectionLimitPpm p) by (unfold activeLimitOf; destruct recovering; lia).
  set (limit := activeLimitOf p recovering) in *. clearbody limit.
  pose proof (limited_abs (po_integratorLimitPpm p) (integral + inc) ltac:(lia)) as Hc.
  set (candidate := limited (po_integratorLimitPpm p) (integral + inc)) in *. clearbody candidate.
  rewrite (i64_small (prop + freq)) by (ranges; lia). rewrite (i64_small (prop + freq + candidate)) by (ranges; lia).
  rewrite (i32_small (- limit)), (i32_small candidate) by (ranges; lia).
  set (winds := _ || _). set (integral' := if winds then integral else candidate).
  assert (Hi' : Z.abs integral' <= po_integratorLimitPpm p) by (subst integral'; destruct winds; lia).
  clearbody winds integral'. rewrite (i64_small (prop + freq + integral')) by (ranges; lia). rewrite clamp_limited by lia.
  pose proof (limited_abs limit (prop + freq + integral') ltac:(lia)) as Ht.
  set (target := limited limit _) in *. clearbody target.
  rewrite (i32_small target), (i64_small (lastStretch - _)), (i64_small (lastStretch + _)) by (ranges; lia).
  set (slew := slewOf p elapsed) in *. clearbody slew.
  rewrite clamp_between by (clear - Hs; lia).
  destruct (slewed_bounds target lastStretch slew (po_recoveryCorrectionLimitPpm p)) as [B4 B5]; [clear - Ht Hl; lia | done | apply Hs |].
  rewrite i32_small by (clear - B4 H1; ranges; lia). done.
Qed.

Lemma recoveryOf_exact p phase filteredPhase filteredFrequency elapsed c :
  policyOk p -> is_i 64 phase -> Z.abs filteredPhase <= 500000000 -> Z.abs filteredFrequency <= 1000000 ->
  0 < elapsed <= 1000000000 -> 0 <= co_recoveryExitHeldNs c < po_recoveryExitHoldNs p ->
  recoveryOf p phase filteredPhase filteredFrequency elapsed c = exactRecovery p phase filteredPhase filteredFrequency elapsed c /\
  0 <= (exactRecovery p phase filteredPhase filteredFrequency elapsed c).2 < po_recoveryExitHoldNs p.
Proof.
  intros Hp Hph Hfp Hff He Hh. pose proof (pok_exitHold p Hp). unfold recoveryOf, exactRecovery. cbv zeta.
  rewrite !magnitude_abs by (first [done | ranges; lia]).
  destruct (co_recovering c); cbn [negb andb].
  - destruct ((Z.abs filteredPhase <=? _) && _).
    + rewrite i64_small by (ranges; lia).
      destruct (Z.leb_spec (po_recoveryExitHoldNs p) (co_recoveryExitHeldNs c + elapsed)),
        (Z.leb_spec (po_recoveryExitHoldNs p) (Z.min (po_recoveryExitHoldNs p) (co_recoveryExitHeldNs c + elapsed)));
        try lia; cbn [snd]; split; try done; try lia. f_equal. lia.
    + destruct (Z.leb_spec (po_recoveryExitHoldNs p) 0); [lia |]. cbn [snd]. split; [done | lia].
  - destruct (Z.leb_spec (po_recoveryEnterThresholdNs p) (Z.abs phase)); cbn [snd]; split; try done; lia.
Qed.

(** One accepted measurement, [elapsed] after the one before it; [None] when the
    phase moves faster than the planned frequency. *)
Definition exactStep (p : Policy) (m : MediaAudioDriftMeasurement) (elapsed : Z) (c : Control) : option Control :=
  let raw := roundNearest ((ms_phaseError m - co_lastRawPhaseNs c) * 1000000) elapsed in
  if po_maximumMeasuredFrequencyPpm p <? Z.abs raw then None
  else
    let phase := exactLowPass (co_filteredPhaseNs c) (ms_phaseError m) elapsed (po_phaseFilterTimeConstantNs p) in
    let frequency := exactLowPass (co_filteredFrequencyPpm c) raw elapsed (po_frequencyFilterTimeConstantNs p) in
    let recovery := exactRecovery p (ms_phaseError m) phase frequency elapsed c in
    let control := exactControl p phase frequency elapsed recovery.1 (co_integralPpm c) (co_lastStretchPpm c) in
    Some (mkControl (co_initialized c) recovery.1 (ms_sourceEndOnMaster m) (ms_phaseError m) phase frequency control.1 control.2
            recovery.2 (ms_sequence m) (ms_effectiveOutputSampleIndex m)).

Lemma processCurrent_exact m elapsed s : policyOk (sv_policy s) -> controlOk (sv_policy s) (sv_control s) ->
  Z.abs (ms_phaseError m) < po_hardDiscontinuityThresholdNs (sv_policy s) ->
  0 <= ms_effectiveOutputSampleIndex m <= int64_max -> is_i 64 (ms_sourceEndOnMaster m) ->
  0 < elapsed <= po_maximumMeasurementGapNs (sv_policy s) ->
  match exactStep (sv_policy s) m elapsed (sv_control s) with
  | None => exists frequency, processCurrent m elapsed s = discontinuity m (sv_generation s) frequency s
  | Some c =>
      processCurrent m elapsed s = publishWindowIfDue m (co_lastStretchPpm c) (setControl c s) /\
      controlOk (sv_policy s) c /\ Z.abs (co_lastStretchPpm c - co_lastStretchPpm (sv_control s)) <= slewOf (sv_policy s) elapsed
  end.
Proof.
  intros Hp Hc Hph Hix Hse He. set (p := sv_policy s) in *. set (c := sv_control s) in *.
  pose proof (pok_gap p Hp). pose proof (pok_hard p Hp). pose proof (pok_maximumFrequency p Hp).
  pose proof (pok_phaseFilter p Hp). pose proof (pok_frequencyFilter p Hp). destruct Hc as [C1 C2 C3 C4 C5 C6 _ _].
  unfold exactStep, processCurrent. fold p c. cbv zeta. unfold PartsPerMillion.
  rewrite (i64_small (ms_phaseError m - co_lastRawPhaseNs c)) by (ranges; lia).
  assert (Hm : Z.abs ((ms_phaseError m - co_lastRawPhaseNs c) * 1000000) <= 1000000000 * 1000000) by lia.
  rewrite (i64_small (_ * 1000000)) by (ranges; lia). rewrite servo_round_exact by (ranges; lia).
  assert (Hraw : Z.abs (roundNearest ((ms_phaseError m - co_lastRawPhaseNs c) * 1000000) elapsed) <= 1000000000 * 1000000).
  { apply roundNearest_abs; [lia |]. nia. }
  set (raw := roundNearest _ elapsed) in *. clearbody raw. rewrite magnitude_abs by (ranges; lia).
  destruct (Z.ltb_spec (po_maximumMeasuredFrequencyPpm p) (Z.abs raw)); [by eexists |].
  destruct (lowPass_exact (co_filteredPhaseNs c) (ms_phaseError m) elapsed (po_phaseFilterTimeConstantNs p)
    (po_hardDiscontinuityThresholdNs p - 1)) as [-> Bp]; [lia.. |].
  destruct (lowPass_exact (co_filteredFrequencyPpm c) raw elapsed (po_frequencyFilterTimeConstantNs p)
    (po_maximumMeasuredFrequencyPpm p)) as [-> Bf]; [lia.. |].
  set (fp := exactLowPass _ _ _ _) in *. set (ff := exactLowPass _ raw _ _) in *. clearbody fp ff.
  assert (Ei : clampInt64ToInt ff = ff).
  { unfold clampInt64ToInt, clamp. destruct (Z.ltb_spec ff int32_min); [ranges; lia |].
    destruct (Z.ltb_spec int32_max ff); [ranges; lia |]. apply i32_small. ranges. lia. }
  rewrite Ei.
  destruct (recoveryOf_exact p (ms_phaseError m) fp ff elapsed c Hp ltac:(ranges; lia) ltac:(lia) ltac:(lia) ltac:(lia) C6) as [-> Br].
  destruct (exactRecovery p (ms_phaseError m) fp ff elapsed c) as [recovering held]. cbn [fst snd] in *.
  destruct (controlOf_exact p fp ff elapsed recovering (co_integralPpm c) (co_lastStretchPpm c) Hp
    ltac:(lia) ltac:(lia) ltac:(lia) C4 C5) as [-> Bc].
  destruct (exactControl p fp ff elapsed recovering (co_integralPpm c) (co_lastStretchPpm c)) as [integral stretch]. cbn [fst snd] in *.
  destruct Bc as (B1 & B2 & B3). split; [done |]. split; [| done]. constructor; cbn; first [done | lia].
Qed.

(** *** Reachable servos *)

Record servoOk (s : Servo) : Prop := {
  sok_policy : policyOk (sv_policy s);
  sok_control : controlOk (sv_policy s) (sv_control s);
  sok_quantizer : quantizerOk (sv_quantizer s);
  sok_rate : sv_outputSampleRate s = po_outputSampleRate (sv_policy s);
  sok_quantizerRate : MediaAudioCorrectionQuantizer.qz_outputSampleRate (sv_quantizer s) = po_outputSampleRate (sv_policy s);
  sok_quantizerWindow : MediaAudioCorrectionQuantizer.qz_windowNs (sv_quantizer s) = po_compensationWindowNs (sv_policy s);
  sok_generation : 0 < sv_generation s;
}.

(** The members of a policy have their C++ types. *)
Definition policyTyped (p : Policy) : Prop :=
  is_i 64 (po_compensationWindowNs p) /\ is_i 64 (po_commandLeadNs p) /\ is_i 32 (po_outputSampleRate p) /\
  is_i 32 (po_frequencyFeedForwardDenominator p).

Definition measurementTyped (m : MediaAudioDriftMeasurement) : Prop :=
  is_i 64 (ms_phaseError m) /\ is_i 64 (ms_sourceEndOnMaster m) /\ is_u 64 (ms_generation m) /\ is_u 64 (ms_sequence m) /\
  is_i 64 (ms_effectiveOutputSampleIndex m).

Lemma clearedControl_ok p : policyOk p -> controlOk p clearedControl.
Proof. intros []. constructor; cbn; try (ranges; lia). Qed.

Lemma validPolicy_ok policy hard generation p : validPolicy policy hard generation = true -> resolve policy hard = Some p ->
  policyTyped p -> policyOk p /\ 0 < generation.
Proof.
  unfold validPolicy. intros Hv Hr (_ & _ & _ & Hd). rewrite Hr in Hv.
  assert (Hh : po_hardDiscontinuityThresholdNs p = hard).
  { clear - Hr. destruct policy. cbn in Hr. repeat case_match; simplify_eq. done. }
  rewrite <- Hh in Hv. clear Hr Hh.
  unfold MaximumNormalCorrectionPpm, MaximumRecoveryCorrectionPpm, MaximumOutputSampleRate, MaximumHardDiscontinuityNs,
    MaximumMeasurementGapNs, MaximumPolicyDurationNs, MaximumProportionalGainPpmPerSecond,
    MaximumIntegralGainPpmPerSecondSquared, MaximumMeasuredFrequencyPpm in Hv.
  rewrite !andb_true_iff, !Z.ltb_lt, !Z.leb_le in Hv. destruct_and! Hv.
  split; [| done]. constructor; first [split; first [assumption | ranges; lia] | assumption].
Qed.

Lemma created_servo_ok mode policy hard generation s : (forall p, resolve policy hard = Some p -> policyTyped p) ->
  create mode policy hard generation = inl s -> servoOk s.
Proof.
  intros Ht. unfold create. destruct (validPolicy policy hard generation) eqn:Hv; [| done].
  destruct (resolve policy hard) as [p |] eqn:Hr; [| done].
  destruct (MediaAudioCorrectionQuantizer.createQuantizer _ _ _) as [q |] eqn:Hq; [| done]. intros [= <-].
  pose proof (Ht p eq_refl) as Hpt. destruct (validPolicy_ok _ _ _ _ Hv Hr Hpt) as [Hp Hg].
  destruct Hpt as (T1 & T2 & T3 & _). constructor; cbn; try done.
  - by apply clearedControl_ok.
  - exact (created_ok _ _ _ _ T1 T2 T3 Hq).
  - by apply (createQuantizer_iff _ _ _ _ T1 T2 T3) in Hq as (_ & _ & _ & _ & _ & ->).
  - by apply (createQuantizer_iff _ _ _ _ T1 T2 T3) in Hq as (_ & _ & _ & _ & _ & ->).
Qed.

Lemma epoch_servo_ok index s : servoOk s -> 0 <= index <= int64_max ->
  exists q, clearCorrectionEpoch index s = (inl tt, setQuantizer q s) /\ servoOk (setQuantizer q s).
Proof.
  intros [H1 H2 H3 H4 H5 H6 H7] Hi. pose proof (reset_epoch_ok index (sv_quantizer s) H3 Hi) as Hq.
  unfold clearCorrectionEpoch, MediaAudioCorrectionQuantizer.resetEpoch in *.
  destruct (Z.ltb_spec index 0); [lia |]. eexists. split; [reflexivity |]. by constructor.
Qed.

Lemma control_servo_ok c s : servoOk s -> controlOk (sv_policy s) c -> servoOk (setControl c s).
Proof. intros [] Hc. by constructor. Qed.

Lemma observed_ok m p c : controlOk p c -> 0 <= ms_effectiveOutputSampleIndex m <= int64_max -> controlOk p (observed m c).
Proof. intros [] Hi. by constructor. Qed.

Lemma discontinuity_ok m generation frequency s : servoOk s -> 0 <= ms_effectiveOutputSampleIndex m <= int64_max ->
  exists s', discontinuity m generation frequency s =
    (inl (decisionReacquire generation (ms_sequence m) (ms_effectiveOutputSampleIndex m) (ms_phaseError m) frequency), s') /\
    servoOk s' /\ sv_control s' = observed m clearedControl.
Proof.
  intros Hs Hi. unfold discontinuity, clearControlState.
  pose proof (control_servo_ok clearedControl s Hs (clearedControl_ok _ (sok_policy s Hs))) as Hc.
  destruct (epoch_servo_ok (ms_effectiveOutputSampleIndex m) _ Hc Hi) as (q & -> & Hq).
  eexists. split; [reflexivity |]. split; [| done]. apply control_servo_ok; [done |].
  apply observed_ok; [apply (sok_control _ Hq) | done].
Qed.

(** What holds of every published command. *)
Record commandOk (p : Policy) (m : MediaAudioDriftMeasurement) (command : MediaAudioCompensationCommand) : Prop := {
  mok_generation : cm_generation command = ms_generation m;
  mok_sequence : cm_sequence command = ms_sequence m;
  mok_stretch : Z.abs (cm_stretchPpm command) <= po_recoveryCorrectionLimitPpm p;
  mok_distance : 0 < cm_compensationDistance command <= int32_max;
  mok_delta : Z.abs (cm_sampleDelta command * 1000000 - uncorrected command * cm_stretchPpm command) <= 1000000;
  mok_end : cm_effectiveOutputSampleIndex command + cm_compensationDistance command <= int64_max;
}.

(** Publishing keeps the control state, and a published command is within the
    bounds and carries the telemetry of that state. *)
Lemma publish_servo_ok m stretch s : servoOk s -> ms_generation m = sv_generation s -> 0 < ms_sequence m ->
  0 <= ms_effectiveOutputSampleIndex m <= int64_max -> Z.abs stretch <= po_recoveryCorrectionLimitPpm (sv_policy s) ->
  let '(r, s') := publishWindowIfDue m stretch s in
  servoOk s' /\ sv_policy s' = sv_policy s /\ sv_control s' = sv_control s /\ sv_generation s' = sv_generation s /\
  match r with
  | inl d =>
      dn_filteredPhaseError d = co_filteredPhaseNs (sv_control s) /\
      dn_filteredFrequencyPpm d = co_filteredFrequencyPpm (sv_control s) /\
      dn_integralPpm d = co_integralPpm (sv_control s) /\ dn_recovering d = co_recovering (sv_control s) /\
      forall command, dn_command d = Some command -> commandOk (sv_policy s) m command /\ cm_stretchPpm command = stretch
  | inr e => se_code e = AudioCorrectionQuantizationFailed
  end.
Proof.
  intros Hs Hg Hsq Hi Hst. pose proof (pok_recovery _ (sok_policy _ Hs)) as Hrec.
  unfold publishWindowIfDue. cbv zeta.
  destruct (schedule_exact (sv_generation s) (ms_sequence m) (ms_effectiveOutputSampleIndex m) stretch
    (MediaAudioCorrectionQuantizer.mkTelemetry (co_filteredPhaseNs (sv_control s)) (co_filteredFrequencyPpm (sv_control s))
       (co_integralPpm (sv_control s)) (co_recovering (sv_control s))) (sv_quantizer s) (sok_quantizer s Hs)
    (sok_generation s Hs) Hsq Hi ltac:(lia)) as [e ->].
  assert (Hsame : setQuantizer (sv_quantizer s) s = s) by by destruct s.
  destruct (due _ _); [| rewrite Hsame; split_and!; done].
  destruct (fits _ _ _) eqn:Ef; [| rewrite Hsame; split_and!; done].
  pose proof (next_ok _ stretch _ (sok_quantizer s Hs) Hi ltac:(lia) Ef) as Hn.
  pose proof (delta_bounds stretch _ (sok_quantizer s Hs) ltac:(lia)) as [_ Hd].
  pose proof (qok_deltaRest _ (sok_quantizer s Hs)) as Hr.
  unfold fits in Ef. rewrite !andb_true_iff, !Z.leb_le, Z.ltb_lt in Ef. destruct Ef as [[[_ Ef1] Ef2] Ef3].
  destruct Hs. split; [by constructor |]. cbn. split_and!; try done. intros command [= <-]. split; [| done].
  constructor; cbn; try done. unfold uncorrected. cbn. lia.
Qed.

(** The samples the output may advance by, in exact arithmetic: those of the
    elapsed time with the largest correction, each rounded up, and two. *)
Definition exactAdvance (p : Policy) (rate elapsed : Z) : Z :=
  let nominal := MediaCheckedArithmetic.ceilDiv (elapsed * rate) 1000000000 in
  nominal + MediaCheckedArithmetic.ceilDiv (nominal * po_recoveryCorrectionLimitPpm p) 1000000 + 2.

Lemma maximumAdvance_exact p rate elapsed : policyOk p -> rate = po_outputSampleRate p -> 0 < elapsed <= 1000000000 ->
  maximumAdvanceOf p rate elapsed = exactAdvance p rate elapsed.
Proof.
  intros Hp -> He. pose proof (pok_rate p Hp) as Hr. pose proof (pok_recovery p Hp) as Hl. pose proof (pok_integrator p Hp) as Hi.
  unfold maximumAdvanceOf, exactAdvance, MediaCheckedArithmetic.ceilDiv, NanosecondsPerSecond, PartsPerMillion. cbv zeta.
  rewrite (Z.quot_div_nonneg elapsed), (Z.rem_mod_nonneg elapsed) by lia.
  pose proof (Z.div_mod elapsed 1000000000 ltac:(lia)) as E. pose proof (Z.mod_pos_bound elapsed 1000000000 ltac:(lia)) as B.
  assert (Hw : 0 <= elapsed / 1000000000 <= 1) by (split; [apply Z.div_pos | apply Z.div_le_upper_bound]; lia).
  set (w := elapsed / 1000000000) in *. set (r := elapsed mod 1000000000) in *. clearbody w r.
  set (rate := po_outputSampleRate p) in *. clearbody rate.
  assert (Q1 : 0 <= w * rate <= 384000) by nia. assert (Q2 : 0 <= r * rate <= 1000000000 * 384000) by nia.
  rewrite (i64_small (w * rate)), (i64_small (r * rate)) by (ranges; lia).
  rewrite (i64_small (r * rate + 1000000000)), (i64_small (r * rate + 1000000000 - 1)) by (ranges; lia).
  rewrite (Z.quot_div_nonneg (r * rate + 1000000000 - 1)) by lia.
  assert (E2 : (elapsed * rate + 1000000000 - 1) / 1000000000 = w * rate + (r * rate + 1000000000 - 1) / 1000000000).
  { rewrite E. rewrite <- Z.div_add_l by lia. f_equal. lia. }
  rewrite E2. assert (Q3 : 0 <= (r * rate + 1000000000 - 1) / 1000000000 <= 384001).
  { split; [apply Z.div_pos | apply Z.div_le_upper_bound]; lia. }
  set (n := w * rate + _) in *. assert (Q4 : 0 <= n <= 768001) by (subst n; lia). clearbody n.
  set (limit := po_recoveryCorrectionLimitPpm p) in *. assert (Hl' : 0 <= limit <= 5000) by lia. clearbody limit.
  assert (Q5 : 0 <= n * limit <= 768001 * 5000) by nia.
  rewrite (i64_small n) by (ranges; lia).
  rewrite (i64_small (n * limit)), (i64_small (n * limit + 1000000)), (i64_small (n * limit + 1000000 - 1)) by (ranges; lia).
  rewrite (Z.quot_div_nonneg (n * limit + 1000000 - 1)) by lia.
  assert (Q6 : 0 <= (n * limit + 1000000 - 1) / 1000000 <= 5000) by (split; [apply Z.div_pos | apply Z.div_le_upper_bound]; lia).
  rewrite (i64_small (n + _)) by (ranges; lia). by rewrite i64_small by (ranges; lia).
Qed.

(** A measurement of the current epoch, [elapsed] nanoseconds after the last
    one the controller used. *)
Record accepted (m : MediaAudioDriftMeasurement) (elapsed : Z) (s : Servo) : Prop := {
  acc_generation : ms_generation m = sv_generation s;
  acc_initialized : co_initialized (sv_control s) = true;
  acc_sequence : 0 < ms_sequence m /\ co_lastSequence (sv_control s) < ms_sequence m;
  acc_rate : ms_outputSampleRate m = sv_outputSampleRate s;
  acc_phase : Z.abs (ms_phaseError m) < po_hardDiscontinuityThresholdNs (sv_policy s);
  acc_elapsed : elapsed = ms_sourceEndOnMaster m - co_lastSourceEndOnMasterNs (sv_control s);
  acc_interval : po_minimumUpdateIntervalNs (sv_policy s) <= elapsed <= po_maximumMeasurementGapNs (sv_policy s);
  acc_index : co_lastEffectiveOutputSampleIndex (sv_control s) <= ms_effectiveOutputSampleIndex m;
  acc_advance : ms_effectiveOutputSampleIndex m - co_lastEffectiveOutputSampleIndex (sv_control s) <=
    exactAdvance (sv_policy s) (sv_outputSampleRate s) elapsed;
}.

Lemma update_accepted m elapsed s : servoOk s -> measurementTyped m -> accepted m elapsed s ->
  update m s = processCurrent m elapsed s.
Proof.
  intros Hs (T1 & T2 & _ & _ & T5) [A1 A2 [A3 A3'] A4 A5 A6 A7 A8 A9].
  pose proof (sok_policy s Hs) as Hp. pose proof (pok_gap _ Hp) as Hgap. pose proof (pok_minimumInterval _ Hp) as Hmin.
  pose proof (cok_index _ _ (sok_control s Hs)) as Hix. pose proof (cok_source _ _ (sok_control s Hs)) as Hsr.
  unfold update. cbv zeta. rewrite A1, A2, A4, Z.ltb_irrefl, Z.eqb_refl.
  destruct (Z.eqb_spec (ms_sequence m) 0); [lia |]. destruct (Z.leb_spec (ms_sequence m) (co_lastSequence (sv_control s))); [lia |].
  destruct (Z.ltb_spec (ms_effectiveOutputSampleIndex m) 0); [lia |].
  destruct (Z.ltb_spec (ms_effectiveOutputSampleIndex m) (co_lastEffectiveOutputSampleIndex (sv_control s))); [lia |].
  cbn [orb andb negb]. rewrite magnitude_abs by done.
  destruct (Z.leb_spec (po_hardDiscontinuityThresholdNs (sv_policy s)) (Z.abs (ms_phaseError m))); [lia |].
  rewrite checkedSubtract_exact by done. rewrite <- A6.
  assert (Hi : isInt64 elapsed = true) by (apply isInt64_spec; ranges; lia). rewrite Hi.
  destruct (Z.leb_spec elapsed 0); [lia |].
  destruct (Z.ltb_spec elapsed (po_minimumUpdateIntervalNs (sv_policy s))); [lia |].
  destruct (Z.ltb_spec (po_maximumMeasurementGapNs (sv_policy s)) elapsed); [lia |].
  rewrite maximumAdvance_exact by (try done; try lia; apply (sok_rate s Hs)).
  rewrite i64_small by (ranges; lia).
  by destruct (Z.ltb_spec (exactAdvance (sv_policy s) (sv_outputSampleRate s) elapsed)
    (ms_effectiveOutputSampleIndex m - co_lastEffectiveOutputSampleIndex (sv_control s))); [lia |].
Qed.

(** What every update keeps, and what a published command satisfies. *)
Definition updateOk (m : MediaAudioDriftMeasurement) (s : Servo) (r : AvSyncResult MediaAudioServoDecision * Servo) : Prop :=
  servoOk r.2 /\ sv_policy r.2 = sv_policy s /\ sv_generation r.2 = sv_generation s /\
  forall d command, r.1 = inl d -> dn_command d = Some command -> commandOk (sv_policy s) m command.

Lemma publish_update_ok m c s : servoOk s -> controlOk (sv_policy s) c -> ms_generation m = sv_generation s ->
  0 < ms_sequence m -> 0 <= ms_effectiveOutputSampleIndex m <= int64_max -> forall stretch,
  Z.abs stretch <= po_recoveryCorrectionLimitPpm (sv_policy s) ->
  updateOk m s (publishWindowIfDue m stretch (setControl c s)).
Proof.
  intros Hs Hc Hg Hsq Hi stretch Hst.
  pose proof (publish_servo_ok m stretch (setControl c s) (control_servo_ok c s Hs Hc) Hg Hsq Hi Hst) as H.
  destruct (publishWindowIfDue m stretch (setControl c s)) as [r s']. destruct H as (H1 & H2 & _ & H3 & H4).
  split_and!; [done.. |]. intros d command E Ec. cbn in E. subst r. by apply H4.
Qed.

Lemma discontinuity_update_ok m generation frequency s : servoOk s -> 0 <= ms_effectiveOutputSampleIndex m <= int64_max ->
  updateOk m s (discontinuity m generation frequency s).
Proof.
  intros Hs Hi. assert (Hkeep : sv_policy (discontinuity m generation frequency s).2 = sv_policy s /\
    sv_generation (discontinuity m generation frequency s).2 = sv_generation s).
  { unfold discontinuity, clearCorrectionEpoch. destruct (MediaAudioCorrectionQuantizer.resetEpoch _ _) as [[] ?]; done. }
  destruct Hkeep as [K1 K2]. destruct (discontinuity_ok m generation frequency s Hs Hi) as (s' & E & Hs' & _).
  rewrite E in *. split_and!; [done.. |]. intros d command [= <-]. done.
Qed.

Lemma update_ok m s : servoOk s -> measurementTyped m -> updateOk m s (update m s).
Proof.
  intros Hs Ht. pose proof Ht as (T1 & T2 & T3 & T4 & T5). pose proof (sok_policy s Hs) as Hp.
  assert (Hkeep : forall r, (forall d, r = inl d -> dn_command d = None) -> updateOk m s (r, s)).
  { intros r Hr. split_and!; [done.. |]. intros d command E0 E. by rewrite (Hr d E0) in E. }
  unfold update. cbv zeta.
  destruct (Z.ltb_spec (ms_generation m) (sv_generation s)); [apply Hkeep; by intros d [= <-] |].
  destruct (Z.ltb_spec (sv_generation s) (ms_generation m)); [apply Hkeep; by intros d [= <-] |].
  assert (Hg : ms_generation m = sv_generation s) by lia.
  destruct (_ || _) eqn:Hpre; [by apply Hkeep |].
  rewrite !orb_false_iff, Z.eqb_neq, Z.leb_gt, Z.ltb_ge in Hpre. destruct Hpre as [[[[P1 P2] P3] P4] _].
  assert (Hsq : 0 < ms_sequence m) by (ranges; lia).
  assert (Hi : 0 <= ms_effectiveOutputSampleIndex m <= int64_max) by (ranges; lia).
  rewrite magnitude_abs by done.
  destruct (Z.leb_spec (po_hardDiscontinuityThresholdNs (sv_policy s)) (Z.abs (ms_phaseError m)));
    [by apply discontinuity_update_ok |].
  pose proof (sok_control s Hs) as Hc.
  destruct (co_initialized (sv_control s)) eqn:Hinit; cbn [negb andb] in *.
  2: { apply publish_update_ok; try done.
    - destruct Hc. constructor; cbn; try done; lia.
    - pose proof (pok_integrator _ Hp). lia. }
  rewrite checkedSubtract_exact by (first [done | apply Hc]).
  destruct (isInt64 _); [| by apply Hkeep].
  set (elapsed := ms_sourceEndOnMaster m - _).
  destruct (Z.leb_spec elapsed 0); [by apply Hkeep |].
  destruct (Z.ltb_spec elapsed (po_minimumUpdateIntervalNs (sv_policy s))).
  { split_and!; cbn; try done; [| by intros d command [= <-]]. apply control_servo_ok; [done |]. by apply observed_ok. }
  destruct (Z.ltb_spec (po_maximumMeasurementGapNs (sv_policy s)) elapsed); [by apply discontinuity_update_ok |].
  destruct (maximumAdvanceOf _ _ _ <? _); [by apply Hkeep |].
  pose proof (processCurrent_exact m elapsed s Hp Hc ltac:(lia) Hi T2 ltac:(lia)) as H'.
  destruct (exactStep _ m elapsed _) as [c |]; [| destruct H' as [f ->]; by apply discontinuity_update_ok].
  destruct H' as (-> & Hc' & _). apply publish_update_ok; try done. apply Hc'.
Qed.

(** *** Schedules of calls *)

Inductive ServoCall :=
  | Call_Update (m : MediaAudioDriftMeasurement)
  | Call_Reset (generation epochOutputSampleIndex : Z).

Definition servoCallTyped (c : ServoCall) : Prop :=
  match c with
  | Call_Update m => measurementTyped m
  | Call_Reset generation index => is_u 64 generation /\ is_i 64 index
  end.

Definition servoCall (s : Servo) (c : ServoCall) : Servo :=
  match c with
  | Call_Update m => (update m s).2
  | Call_Reset generation index => (reset generation index s).2
  end.

Definition servoRun (calls : list ServoCall) (s : Servo) : Servo := fold_left servoCall calls s.

Lemma servo_call_ok s c : servoOk s -> servoCallTyped c -> servoOk (servoCall s c).
Proof.
  intros Hs Ht. destruct c as [m | generation index]; cbn [servoCall]; [by apply update_ok |]. destruct Ht as [Tg Ti].
  unfold reset. destruct (Z.eqb_spec generation 0), (Z.ltb_spec index 0); cbn [orb]; [done.. |].
  assert (Hg : servoOk (clearControlState (setGeneration generation s))).
  { destruct Hs. constructor; cbn; try done; [by apply clearedControl_ok | ranges; lia]. }
  destruct (epoch_servo_ok index _ Hg ltac:(ranges; lia)) as (q & -> & Hq). exact Hq.
Qed.

Lemma servo_run_ok calls s : servoOk s -> Forall servoCallTyped calls -> servoOk (servoRun calls s).
Proof.
  intros Hs Hc. revert s Hs. induction Hc as [| c calls Hc _ IH]; intros s Hs; [done |].
  apply IH. by apply servo_call_ok.
Qed.

(** A servo of the planner's policy, after any calls. *)
Definition reachable (policy : MediaAvSyncAudioServoPolicy) (s : Servo) : Prop :=
  exists mode hard generation s0 calls,
    (forall p, resolve policy hard = Some p -> policyTyped p) /\
    create mode policy hard generation = inl s0 /\ Forall servoCallTyped calls /\ s = servoRun calls s0.

Lemma reachable_ok policy s : reachable policy s -> servoOk s.
Proof. intros (mode & hard & generation & s0 & calls & Ht & Hc & Hcalls & ->). eauto using servo_run_ok, created_servo_ok. Qed.

(** C15: On every reachable state an accepted measurement moves the servo exactly
    by the control law over the integers: no operation of the code overflows
    its width.  Too fast a phase asks for a reacquisition from a cleared state;
    otherwise the correction changes by at most the planned slew and every
    decision reports the new state. *)
Theorem servo_control_law policy s m elapsed :
  reachable policy s -> measurementTyped m -> accepted m elapsed s ->
  let '(r, s') := update m s in
  match exactStep (sv_policy s) m elapsed (sv_control s) with
  | None =>
      sv_control s' = observed m clearedControl /\ exists d, r = inl d /\ dn_kind d = Reacquire /\ dn_command d = None
  | Some c =>
      sv_control s' = c /\ Z.abs (co_lastStretchPpm c - co_lastStretchPpm (sv_control s)) <= slewOf (sv_policy s) elapsed /\
      match r with
      | inl d =>
          dn_filteredPhaseError d = co_filteredPhaseNs c /\ dn_filteredFrequencyPpm d = co_filteredFrequencyPpm c /\
          dn_integralPpm d = co_integralPpm c /\ dn_recovering d = co_recovering c /\
          forall command, dn_command d = Some command -> cm_stretchPpm command = co_lastStretchPpm c
      | inr e => se_code e = AudioCorrectionQuantizationFailed
      end
  end.
Proof.
  intros Hs%reachable_ok Ht Ha. rewrite (update_accepted m elapsed s Hs Ht Ha).
  pose proof (sok_policy s Hs) as Hp. pose proof (sok_control s Hs) as Hc. pose proof (pok_minimumInterval _ Hp) as Hmin.
  destruct Ht as (_ & T2 & _ & _ & T5). destruct Ha as [A1 _ [A3 _] _ A5 _ A7 A8 _].
  assert (Hi : 0 <= ms_effectiveOutputSampleIndex m <= int64_max) by (pose proof (cok_index _ _ Hc); ranges; lia).
  pose proof (processCurrent_exact m elapsed s Hp Hc A5 Hi T2 ltac:(lia)) as H.
  destruct (exactStep _ m elapsed _) as [c |].
  - destruct H as (-> & Hc' & Hslew).
    pose proof (publish_servo_ok m (co_lastStretchPpm c) (setControl c s) (control_servo_ok c s Hs Hc') A1 A3 Hi (cok_stretch _ _ Hc')) as H.
    destruct (publishWindowIfDue _ _ _) as [r s']. destruct H as (_ & _ & H2 & _ & H3). split; [done |]. split; [done |].
    destruct r as [d |]; [| done]. destruct H3 as (? & ? & ? & ? & H3). split_and!; try done. intros command E. by apply H3.
  - destruct H as [f ->]. destruct (discontinuity_ok m (sv_generation s) f s Hs Hi) as (s' & -> & _ & H). split; [done |].
    by eexists.
Qed.

(** In every reachable state the filtered phase stays below the hard
    threshold and the integral and the correction within their limits, and every
    published command is a representable window of the measured generation whose
    stretch is within the recovery limit and whose sample count is that stretch
    to the nearest sample. *)
Theorem servo_bounded policy s : reachable policy s ->
  controlOk (sv_policy s) (sv_control s) /\
  forall m d command, measurementTyped m -> (update m s).1 = inl d -> dn_command d = Some command -> commandOk (sv_policy s) m command.
Proof.
  intros Hs%reachable_ok. split; [apply (sok_control s Hs) |]. intros m d command Ht E Ec.
  by apply (update_ok m s Hs Ht) with d.
Qed.

(** *** An example *)

(** The planner's policy at 48 kHz, with a lead of 1.1 and a window of 2 seconds. *)
Definition examplePolicy : MediaAvSyncAudioServoPolicy :=
  mkServoPolicy (Some 1000000) (Some 250000000) (Some 4000000000) (Some 20000) (Some 1000) (Some 2000) (Some 1) (Some 1)
    (Some 10) (Some 10000) (Some 500) (Some ConditionalIntegration) (Some 10000000) (Some 1000000000) (Some 100) (Some 1000)
    (Some 5000) (Some 100000000) (Some 50000000) (Some 500000000) (Some 2000000000) (Some 1100000000) (Some 48000) (Some 2).

Definition exampleMeasurement (i phase : Z) : MediaAudioDriftMeasurement := mkMeasurement phase (i * 500000000) 1 i (i * 24000) 48000.

Definition exampleServoCalls : list ServoCall :=
  [Call_Update (exampleMeasurement 1 2000000); Call_Update (exampleMeasurement 2 2100000); Call_Update (exampleMeasurement 3 2200000)].

Definition exampleServo : option Servo :=
  match create MpegTsPcr examplePolicy 250000000 1 with inl s => Some (servoRun exampleServoCalls s) | inr _ => None end.

(** The servo these calls lead to. *)
Definition exampleState : Servo :=
  Eval vm_compute in
    match exampleServo with
    | Some s => s
    | None => mkServo MpegTsPcr (mkPolicy 0 0 0 0 0 0 0 0 0 0 0 0 0 0 0 0 0 0 0 0 0 0 0 0)
                (MediaAudioCorrectionQuantizer.mkQuantizer 0 0 0 None false 0 0) 0 0 clearedControl
    end.

Lemma example_run : exampleServo = Some exampleState.
Proof. vm_compute. reflexivity. Qed.

Lemma example_reachable : reachable examplePolicy exampleState.
Proof.
  pose proof example_run as E. unfold exampleServo in E. destruct (create _ _ _ _) as [s0 |] eqn:Ec; [| discriminate E].
  assert (Es : exampleState = servoRun exampleServoCalls s0) by congruence.
  exists MpegTsPcr, 250000000, 1, s0, exampleServoCalls. split_and!; [| exact Ec | | exact Es].
  - intros p [= <-]. unfold policyTyped. cbn. ranges. lia.
  - repeat (apply Forall_cons; split; [cbn; unfold measurementTyped; cbn; ranges; lia |]). by apply Forall_nil.
Qed.

Lemma servo_control_law_witness :
  sv_control (update (exampleMeasurement 4 2300000) exampleState).2 =
    mkControl true false 2000000000 2300000 2251852 60 3 108 0 4 96000.
Proof.
  assert (Ht : measurementTyped (exampleMeasurement 4 2300000)) by (unfold measurementTyped; cbn; ranges; lia).
  assert (Ha : accepted (exampleMeasurement 4 2300000) 500000000 exampleState).
  { constructor; vm_compute; intuition discriminate. }
  pose proof (servo_control_law examplePolicy exampleState _ 500000000 example_reachable Ht Ha) as H.
  destruct (update (exampleMeasurement 4 2300000) exampleState) as [r s']. cbn [snd].
  assert (E : exactStep (sv_policy exampleState) (exampleMeasurement 4 2300000) 500000000 (sv_control exampleState) =
              Some (mkControl true false 2000000000 2300000 2251852 60 3 108 0 4 96000)) by (vm_compute; reflexivity).
  rewrite E in H. apply H.
Defined.

Lemma servo_bounded_witness : controlOk (sv_policy exampleState) (sv_control exampleState).
Proof. apply (servo_bounded examplePolicy exampleState example_reachable). Defined.

End MediaAudioServoSafety.
