(* ===== verification/VideoSync.v ===== *)
(** * The video synchronisation controller

    Models [sync/MediaVideoSyncDecision.h] and
    [sync/MediaVideoSyncController.{h,cpp}]: what to do with a video frame, or
    with a request to repeat one, given its times on the master clock.

    The theorems are about traces of calls: order of the decisions, the fate of
    a held frame, the recovery budget. *)

From S2P Require Import Prelude MediaResult TimeBase CanonicalTime AvSyncPlan.
Import MediaRunningTime MediaAvSyncError MediaAvSyncPlan MediaAvSyncPlanValidator.

Local Open Scope Z_scope.

Module MediaVideoSyncController.

Inductive MediaVideoSyncDecisionKind :=
  | NoAction | Hold | Display | DisplayLate | DisplayPreservedKeyFrame | Drop | RepeatPreviousFrame | Reacquire
  | DropOldGeneration.

Inductive MediaVideoReacquisitionCause := HardPhaseError | RecoveryBudgetExhausted | CauseGenerationMismatch.

#[global] Instance videoKind_eq_dec : EqDecision MediaVideoSyncDecisionKind.
Proof. solve_decision. Defined.

Record MediaVideoSyncDecision := mkVideoDecision {
  vd_kind : MediaVideoSyncDecisionKind;
  vd_presentationOnMaster : Z;
  vd_phaseError : Z;
  vd_generation : Z;
  vd_sequence : Z;
  vd_consecutiveRecoveryActions : Z;
  vd_recheckAtMasterTime : option Z;
  vd_reacquisitionCause : option MediaVideoReacquisitionCause;
}.

Record MediaVideoFrameMeasurement := mkFrame {
  fr_dispatchOnMaster : Z;
  fr_targetPresentationOnMaster : Z;
  fr_decisionHorizonOnMaster : Z;
  fr_generation : Z;
  fr_sequence : Z;
  fr_keyFrame : bool;
  fr_observedAtMaster : Z;
}.

Record MediaVideoRepeatRequest := mkRepeat {
  rp_repeatDispatchOnMaster : Z;
  rp_repeatPresentationOnMaster : Z;
  rp_lastEmittedPresentationOnMaster : Z;
  rp_decisionHorizonOnMaster : Z;
  rp_generation : Z;
  rp_sequence : Z;
  rp_observedAtMaster : Z;
}.

Inductive MediaVideoSyncMeasurement :=
  | FrameMeasurement (m : MediaVideoFrameMeasurement)
  | RepeatMeasurement (r : MediaVideoRepeatRequest).

Record VideoPolicy := mkControllerPolicy {
  cp_earlyHoldThresholdNs : Z;
  cp_lateDisplayThresholdNs : Z;
  cp_dropThresholdNs : Z;
  cp_allowRecoveryRepeat : bool;
  cp_maximumConsecutiveRecoveryActions : Z;
  cp_hardDiscontinuityThresholdNs : Z;
}.

Record HeldFrameIdentity := mkHeld {
  hf_sequence : Z;
  hf_dispatchOnMaster : Z;
  hf_targetPresentationOnMaster : Z;
  hf_keyFrame : bool;
}.

#[global] Instance held_eq_dec : EqDecision HeldFrameIdentity.
Proof. solve_decision. Defined.

Record Controller := mkController {
  vc_sourceClockMode : MediaAvSyncSourceClockMode;
  vc_policy : VideoPolicy;
  vc_generation : Z;
  vc_lastSequence : Z;
  vc_heldFrame : option HeldFrameIdentity;
  vc_consecutiveRecoveryActions : Z;
}.

Definition setState (lastSequence : Z) (held : option HeldFrameIdentity) (recovery : Z) (c : Controller) : Controller :=
  mkController (vc_sourceClockMode c) (vc_policy c) (vc_generation c) lastSequence held recovery.

(** The dereferenced policies; [None] where the validator leaves one missing. *)
Definition resolveVideo (plan : Plan) : option (MediaAvSyncSourceClockMode * VideoPolicy) :=
  match pl_sourceClockMode plan, pl_video plan, rc_hardDiscontinuityThresholdNs (pl_recovery plan) with
  | Some mode, mkVideoPolicy (Some early) (Some late) (Some drop) (Some repeats) (Some maximum), Some hard =>
      Some (mode, mkControllerPolicy early late drop repeats maximum hard)
  | _, _, _ => None
  end.

Definition policyError (plan : Plan) (generation : Z) : SyncError :=
  mkSyncError InvalidVideoSyncPolicy (pl_sourceClockMode plan) VideoSync "create" "video" "video" (Some generation) None None
    0 0 int64_min int64_max "incomplete or inconsistent planner-owned video sync policy".

Definition createController (plan : Plan) (generation : Z) : AvSyncResult Controller :=
  if negb (resultOk (validateRuntime plan)) || (generation =? 0) then inr (policyError plan generation)
  else
    match resolveVideo plan with
    | Some (mode, policy) => inl (mkController mode policy generation 0 None 0)
    | None => inr (policyError plan generation)
    end.

Definition error (code : MediaAvSyncErrorCode) (operation : string) (observedGeneration presentationOnMaster : Z)
  (detail : string) (c : Controller) : SyncError :=
  mkSyncError code (Some (vc_sourceClockMode c)) VideoSync operation "video" "video" (Some (vc_generation c))
    (Some observedGeneration) (Some presentationOnMaster) 0 0 int64_min int64_max detail.

Definition decision (kind : MediaVideoSyncDecisionKind) (presentationOnMaster phaseError sequence : Z)
  (cause : option MediaVideoReacquisitionCause) (c : Controller) : MediaVideoSyncDecision :=
  mkVideoDecision kind presentationOnMaster phaseError (vc_generation c) sequence (vc_consecutiveRecoveryActions c) None cause.

Definition isolatedGenerationDecision (presentationOnMaster phaseError observedGeneration sequence : Z) (c : Controller) :
  MediaVideoSyncDecision :=
  let kind := if observedGeneration <? vc_generation c then DropOldGeneration else Reacquire in
  mkVideoDecision kind presentationOnMaster phaseError observedGeneration sequence (vc_consecutiveRecoveryActions c) None
    (if bool_decide (kind = Reacquire) then Some CauseGenerationMismatch else None).

Definition validateSequence (sequence : Z) (c : Controller) : AvSyncResult unit :=
  if (sequence =? 0) || (sequence <=? vc_lastSequence c)
  then inr (error InvalidVideoSyncMeasurement "validate_sequence" (vc_generation c) 0
              "video sync sequence must be positive and strictly increasing" c)
  else inl tt.

Definition validateFrameIdentity (m : MediaVideoFrameMeasurement) (c : Controller) : AvSyncResult unit :=
  match vc_heldFrame c with
  | None => validateSequence (fr_sequence m) c
  | Some held =>
      if negb (fr_sequence m =? hf_sequence held) || negb (fr_dispatchOnMaster m =? hf_dispatchOnMaster held) ||
         negb (fr_targetPresentationOnMaster m =? hf_targetPresentationOnMaster held) ||
         negb (Bool.eqb (fr_keyFrame m) (hf_keyFrame held))
      then inr (error InvalidVideoSyncMeasurement "validate_held_frame" (fr_generation m) (fr_targetPresentationOnMaster m)
                  "held video identity is immutable until a terminal decision" c)
      else inl tt
  end.

(** A terminal decision without recovery action: the frame is released, its
    sequence remembered and the recovery counter cleared. *)
Definition terminal (kind : MediaVideoSyncDecisionKind) (presentation phase sequence : Z)
  (cause : option MediaVideoReacquisitionCause) (c : Controller) : AvSyncResult MediaVideoSyncDecision * Controller :=
  let c := setState sequence None 0 c in (inl (decision kind presentation phase sequence cause c), c).

Definition recoveryDecision (kind : MediaVideoSyncDecisionKind) (presentation phase sequence : Z) (c : Controller) :
  AvSyncResult MediaVideoSyncDecision * Controller :=
  let recovery := vc_consecutiveRecoveryActions c in
  if cp_maximumConsecutiveRecoveryActions (vc_policy c) <=? recovery
  then terminal Reacquire presentation phase sequence (Some RecoveryBudgetExhausted) c
  else
    let c := setState sequence None (recovery + 1) c in
    (inl (decision kind presentation phase sequence None c), c).

Definition updateFrame (m : MediaVideoFrameMeasurement) (c : Controller) : AvSyncResult MediaVideoSyncDecision * Controller :=
  let p := vc_policy c in
  let target := fr_targetPresentationOnMaster m in
  let fail code operation detail := (inr (error code operation (fr_generation m) target detail c), c) in
  if negb (fr_generation m =? vc_generation c)
  then (inl (isolatedGenerationDecision target 0 (fr_generation m) (fr_sequence m) c), c)
  else if fr_sequence m =? 0
  then fail InvalidVideoSyncMeasurement "measure_frame" "video sync sequence must be positive"
  else
    match validateFrameIdentity m c with
    | inr e => (inr e, c)
    | inl _ =>
        if fr_decisionHorizonOnMaster m <? fr_observedAtMaster m
        then fail InvalidVideoSyncMeasurement "measure_frame" "video observation exceeds its decision horizon"
        else
          match checkedSubtract target (fr_observedAtMaster m) with
          | Failure e => fail TimeOverflow "measure_frame" (message e)
          | Success errorNs =>
              match checkedSubtract (fr_dispatchOnMaster m) (fr_decisionHorizonOnMaster m) with
              | Failure e => fail TimeOverflow "dispatch_deadline" (message e)
              | Success dispatchPhase =>
                  if errorNs <=? - cp_hardDiscontinuityThresholdNs p
                  then terminal Reacquire target errorNs (fr_sequence m) (Some HardPhaseError) c
                  else if cp_earlyHoldThresholdNs p <? dispatchPhase then
                    match checkedSubtract (fr_dispatchOnMaster m) (cp_earlyHoldThresholdNs p) with
                    | Failure e => fail TimeOverflow "hold_deadline" (message e)
                    | Success recheckAt =>
                        let c := setState (vc_lastSequence c)
                                   (Some (mkHeld (fr_sequence m) (fr_dispatchOnMaster m) target (fr_keyFrame m)))
                                   (vc_consecutiveRecoveryActions c) c in
                        (inl (mkVideoDecision Hold target errorNs (vc_generation c) (fr_sequence m)
                                (vc_consecutiveRecoveryActions c) (Some recheckAt) None), c)
                    end
                  else if - cp_lateDisplayThresholdNs p <=? errorNs then terminal Display target errorNs (fr_sequence m) None c
                  else if - cp_dropThresholdNs p <? errorNs then terminal DisplayLate target errorNs (fr_sequence m) None c
                  else if fr_keyFrame m then terminal DisplayPreservedKeyFrame target errorNs (fr_sequence m) None c
                  else recoveryDecision Drop target errorNs (fr_sequence m) c
              end
          end
    end.

Definition updateRepeat (r : MediaVideoRepeatRequest) (c : Controller) : AvSyncResult MediaVideoSyncDecision * Controller :=
  let p := vc_policy c in
  let target := rp_repeatPresentationOnMaster r in
  let fail code operation detail := (inr (error code operation (rp_generation r) target detail c), c) in
  if match vc_heldFrame c with Some _ => rp_generation r =? vc_generation c | None => false end
  then fail InvalidVideoSyncMeasurement "measure_repeat" "repeat cannot overtake a held video frame"
  else if negb (rp_generation r =? vc_generation c)
  then (inl (isolatedGenerationDecision target 0 (rp_generation r) (rp_sequence r) c), c)
  else if rp_sequence r =? 0
  then fail InvalidVideoSyncMeasurement "measure_repeat" "video sync sequence must be positive"
  else if rp_decisionHorizonOnMaster r <? rp_observedAtMaster r
  then fail InvalidVideoSyncMeasurement "measure_repeat" "video repeat observation exceeds its decision horizon"
  else
    match checkedSubtract target (rp_observedAtMaster r) with
    | Failure e => fail TimeOverflow "measure_repeat" (message e)
    | Success errorNs =>
        match checkedSubtract (rp_repeatDispatchOnMaster r) (rp_decisionHorizonOnMaster r) with
        | Failure e => fail TimeOverflow "repeat_dispatch_deadline" (message e)
        | Success dispatchPhase =>
            match validateSequence (rp_sequence r) c with
            | inr e => (inr e, c)
            | inl _ =>
                if negb (rp_lastEmittedPresentationOnMaster r <? target)
                then fail InvalidVideoSyncMeasurement "measure_repeat"
                       "repeat request requires last emitted presentation < repeat presentation"
                else if errorNs <=? - cp_hardDiscontinuityThresholdNs p
                then
                  let c := setState (rp_sequence r) (vc_heldFrame c) 0 c in
                  (inl (decision Reacquire target errorNs (rp_sequence r) (Some HardPhaseError) c), c)
                else if cp_earlyHoldThresholdNs p <? dispatchPhase then
                  match checkedSubtract (rp_repeatDispatchOnMaster r) (cp_earlyHoldThresholdNs p) with
                  | Failure e => fail TimeOverflow "repeat_hold_deadline" (message e)
                  | Success recheckAt =>
                      (inl (mkVideoDecision Hold target errorNs (vc_generation c) (rp_sequence r)
                              (vc_consecutiveRecoveryActions c) (Some recheckAt) None), c)
                  end
                else if negb (cp_allowRecoveryRepeat p) then
                  let c := setState (rp_sequence r) (vc_heldFrame c) 0 c in
                  (inl (decision NoAction target errorNs (rp_sequence r) None c), c)
                else recoveryDecision RepeatPreviousFrame target errorNs (rp_sequence r) c
            end
        end
    end.

Definition updateController (m : MediaVideoSyncMeasurement) (c : Controller) : AvSyncResult MediaVideoSyncDecision * Controller :=
  match m with
  | FrameMeasurement frame => updateFrame frame c
  | RepeatMeasurement request => updateRepeat request c
  end.

Definition resetController (generation : Z) (c : Controller) : AvSyncResult unit * Controller :=
  if (generation =? 0) || (generation <=? vc_generation c)
  then (inr (error InvalidGenerationTransition "reset" generation 0
               "video sync reset requires a strictly increasing generation" c), c)
  else (inl tt, mkController (vc_sourceClockMode c) (vc_policy c) generation 0 None 0).

(** ** What one call does *)

Definition identityOf (m : MediaVideoSyncMeasurement) : option HeldFrameIdentity :=
  match m with
  | FrameMeasurement f =>
      Some (mkHeld (fr_sequence f) (fr_dispatchOnMaster f) (fr_targetPresentationOnMaster f) (fr_keyFrame f))
  | RepeatMeasurement _ => None
  end.

(** The recovery counter after a decision. *)
Definition nextRecovery (kind : MediaVideoSyncDecisionKind) (recovery : Z) : Z :=
  match kind with Drop | RepeatPreviousFrame => recovery + 1 | Hold => recovery | _ => 0 end.

(** The frame held after a decision on [m]. *)
Definition nextHeld (kind : MediaVideoSyncDecisionKind) (m : MediaVideoSyncMeasurement) : option HeldFrameIdentity :=
  match kind with Hold => identityOf m | _ => None end.

Definition nextLast (d : MediaVideoSyncDecision) (last : Z) : Z :=
  match vd_kind d with Hold => last | _ => vd_sequence d end.

(** A decision of the controller's generation, and the state it leads to. *)
Record decided (m : MediaVideoSyncMeasurement) (c : Controller) (d : MediaVideoSyncDecision) (c' : Controller) : Prop := {
  dd_generation : vd_generation d = vc_generation c;
  dd_sequence : vc_lastSequence c < vd_sequence d;
  dd_held : forall h, vc_heldFrame c = Some h -> identityOf m = Some h;
  dd_identity : forall h, identityOf m = Some h -> vd_sequence d = hf_sequence h;
  dd_state : c' = setState (nextLast d (vc_lastSequence c)) (nextHeld (vd_kind d) m)
                    (nextRecovery (vd_kind d) (vc_consecutiveRecoveryActions c)) c;
  dd_reported : vd_consecutiveRecoveryActions d = nextRecovery (vd_kind d) (vc_consecutiveRecoveryActions c);
  dd_budget : vc_consecutiveRecoveryActions c <= cp_maximumConsecutiveRecoveryActions (vc_policy c) ->
    vd_consecutiveRecoveryActions d <= cp_maximumConsecutiveRecoveryActions (vc_policy c);
  dd_exhausted : vd_reacquisitionCause d = Some RecoveryBudgetExhausted ->
    cp_maximumConsecutiveRecoveryActions (vc_policy c) <= vc_consecutiveRecoveryActions c;
}.

(** Every other call leaves the state alone. *)
Definition callSpec (m : MediaVideoSyncMeasurement) (c : Controller) (r : AvSyncResult MediaVideoSyncDecision * Controller) : Prop :=
  match r.1 with
  | inl d => (r.2 = c /\ vd_generation d <> vc_generation c) \/ decided m c d r.2
  | inr _ => r.2 = c
  end.

(** A held frame is newer than every decided one. *)
Definition heldOk (c : Controller) : Prop := forall h, vc_heldFrame c = Some h -> vc_lastSequence c < hf_sequence h.

Lemma validateSequence_ok sequence c : validateSequence sequence c = inl tt -> vc_lastSequence c < sequence.
Proof.
  unfold validateSequence. destruct (Z.eqb_spec sequence 0); cbn [orb]; [done |].
  destruct (Z.leb_spec sequence (vc_lastSequence c)); [done | lia].
Qed.

Lemma validateFrameIdentity_ok f c : heldOk c -> validateFrameIdentity f c = inl tt ->
  vc_lastSequence c < fr_sequence f /\ forall h, vc_heldFrame c = Some h -> identityOf (FrameMeasurement f) = Some h.
Proof.
  intros Hc. unfold validateFrameIdentity. destruct (vc_heldFrame c) as [h |] eqn:Eh.
  - destruct (_ || _) eqn:E; [done |]. intros _. rewrite !orb_false_iff, !negb_false_iff, !Z.eqb_eq, eqb_true_iff in E.
    destruct E as [[[E1 E2] E3] E4]. split; [rewrite E1; by apply Hc |].
    intros h' [= <-]. cbn. rewrite E1, E2, E3, E4. by destruct h.
  - intros H%validateSequence_ok. by split.
Qed.

Lemma setState_same c : setState (vc_lastSequence c) (vc_heldFrame c) (vc_consecutiveRecoveryActions c) c = c.
Proof. by destruct c. Qed.

Lemma terminal_decided m c kind presentation phase sequence cause :
  vc_lastSequence c < sequence -> (forall h, vc_heldFrame c = Some h -> identityOf m = Some h) ->
  (forall h, identityOf m = Some h -> sequence = hf_sequence h) ->
  kind <> Hold -> kind <> Drop -> kind <> RepeatPreviousFrame -> cause <> Some RecoveryBudgetExhausted ->
  0 <= cp_maximumConsecutiveRecoveryActions (vc_policy c) ->
  callSpec m c (terminal kind presentation phase sequence cause c).
Proof.
  intros Hs Hh Hi H1 H2 H3 Hc Hm. right. constructor; cbn; try done;
    by destruct kind.
Qed.

Lemma recovery_decided m c kind presentation phase sequence :
  vc_lastSequence c < sequence -> (forall h, vc_heldFrame c = Some h -> identityOf m = Some h) ->
  (forall h, identityOf m = Some h -> sequence = hf_sequence h) ->
  kind = Drop \/ kind = RepeatPreviousFrame -> 0 <= cp_maximumConsecutiveRecoveryActions (vc_policy c) ->
  callSpec m c (recoveryDecision kind presentation phase sequence c).
Proof.
  intros Hs Hh Hi Hk Hm. unfold recoveryDecision. cbv zeta.
  destruct (Z.leb_spec (cp_maximumConsecutiveRecoveryActions (vc_policy c)) (vc_consecutiveRecoveryActions c)).
  - right. by constructor.
  - right. destruct Hk as [-> | ->]; constructor; cbn; try done; lia.
Qed.

Lemma isolated_spec m c presentation phase generation sequence : generation <> vc_generation c ->
  callSpec m c (inl (isolatedGenerationDecision presentation phase generation sequence c), c).
Proof. intros H. by left. Qed.

Lemma updateFrame_spec f c : heldOk c -> 0 <= cp_maximumConsecutiveRecoveryActions (vc_policy c) ->
  callSpec (FrameMeasurement f) c (updateFrame f c).
Proof.
  intros Hc Hm. unfold updateFrame. cbv zeta.
  destruct (Z.eqb_spec (fr_generation f) (vc_generation c)); cbn [negb]; [| by apply isolated_spec].
  destruct (fr_sequence f =? 0); [done |].
  destruct (validateFrameIdentity f c) as [[] |] eqn:Ev; [| done].
  apply validateFrameIdentity_ok in Ev as [Hs Hh]; [| done].
  assert (Hi : forall h, identityOf (FrameMeasurement f) = Some h -> fr_sequence f = hf_sequence h) by by intros h [= <-].
  destruct (_ <? _); [done |]. destruct (checkedSubtract _ _) as [errorNs |]; [| done].
  destruct (checkedSubtract _ _) as [dispatchPhase |]; [| done].
  destruct (errorNs <=? _); [by apply terminal_decided |].
  destruct (_ <? dispatchPhase).
  { destruct (checkedSubtract _ _) as [recheckAt |]; [| done]. right. constructor; cbn; try done. }
  destruct (_ <=? errorNs); [by apply terminal_decided |].
  destruct (_ <? errorNs); [by apply terminal_decided |].
  destruct (fr_keyFrame f); [by apply terminal_decided |].
  apply recovery_decided; try done. by left.
Qed.

Lemma updateRepeat_spec r c : 0 <= cp_maximumConsecutiveRecoveryActions (vc_policy c) ->
  callSpec (RepeatMeasurement r) c (updateRepeat r c).
Proof.
  intros Hm. unfold updateRepeat. cbv zeta. destruct (match vc_heldFrame c with Some _ => _ | None => _ end) eqn:Eh; [done |].
  destruct (Z.eqb_spec (rp_generation r) (vc_generation c)) as [Eg |]; cbn [negb]; [| by apply isolated_spec].
  assert (Hnone : vc_heldFrame c = None) by by destruct (vc_heldFrame c).
  assert (Hh : forall h, vc_heldFrame c = Some h -> identityOf (RepeatMeasurement r) = Some h) by (intros h; by rewrite Hnone).
  destruct (rp_sequence r =? 0); [done |]. destruct (_ <? _); [done |].
  destruct (checkedSubtract _ _) as [errorNs |]; [| done]. destruct (checkedSubtract _ _) as [dispatchPhase |]; [| done].
  destruct (validateSequence (rp_sequence r) c) as [[] |] eqn:Ev; [| done]. apply validateSequence_ok in Ev.
  destruct (negb _); [done |].
  destruct (errorNs <=? _); [rewrite Hnone; right; by constructor |].
  destruct (_ <? dispatchPhase).
  { destruct (checkedSubtract _ _) as [recheckAt |]; [| done]. right. constructor; cbn; try done.
    by rewrite <- Hnone, setState_same. }
  destruct (negb _); [rewrite Hnone; right; by constructor |].
  apply recovery_decided; try done. by right.
Qed.

Lemma updateController_spec m c : heldOk c -> 0 <= cp_maximumConsecutiveRecoveryActions (vc_policy c) ->
  callSpec m c (updateController m c).
Proof. intros Hc Hm. destruct m; [by apply updateFrame_spec | by apply updateRepeat_spec]. Qed.

(** ** Traces *)

Definition Trace : Type := list (MediaVideoSyncMeasurement * MediaVideoSyncDecision).

(** The decisions about the controller's own generation, with what they are
    about; the others only tell the caller that a generation is not current. *)
Fixpoint traceOf (ms : list MediaVideoSyncMeasurement) (c : Controller) : Trace :=
  match ms with
  | [] => []
  | m :: ms =>
      let '(r, c') := updateController m c in
      match r with
      | inl d => if vd_generation d =? vc_generation c then (m, d) :: traceOf ms c' else traceOf ms c'
      | inr _ => traceOf ms c'
      end
  end.

Definition finalOf (ms : list MediaVideoSyncMeasurement) (c : Controller) : Controller :=
  fold_left (fun c m => (updateController m c).2) ms c.

(** Sequences increase from one settled frame to the next, and while a frame is
    held every decision is about that very frame. *)
Fixpoint inOrder (last : Z) (held : option HeldFrameIdentity) (t : Trace) : Prop :=
  match t with
  | [] => True
  | (m, d) :: t =>
      last < vd_sequence d /\ (forall h, held = Some h -> identityOf m = Some h) /\
      (forall h, identityOf m = Some h -> vd_sequence d = hf_sequence h) /\
      inOrder (nextLast d last) (nextHeld (vd_kind d) m) t
  end.

(** The drops and repeats since the last other decision, as reported, never
    exceed the budget; it is only called exhausted when it is. *)
Fixpoint withinBudget (maximum recovery : Z) (t : Trace) : Prop :=
  match t with
  | [] => True
  | (m, d) :: t =>
      vd_consecutiveRecoveryActions d = nextRecovery (vd_kind d) recovery /\
      vd_consecutiveRecoveryActions d <= maximum /\
      (vd_reacquisitionCause d = Some RecoveryBudgetExhausted -> recovery = maximum) /\
      withinBudget maximum (nextRecovery (vd_kind d) recovery) t
  end.

Lemma decided_heldOk m c d c' : decided m c d c' -> heldOk c'.
Proof.
  intros [_ D2 _ D4 -> _ _ _] h Hh. cbn in *. unfold nextHeld, nextLast in *. destruct (vd_kind d); try done.
  rewrite <- (D4 h Hh). done.
Qed.

Lemma trace_spec ms c : heldOk c -> 0 <= cp_maximumConsecutiveRecoveryActions (vc_policy c) ->
  vc_consecutiveRecoveryActions c <= cp_maximumConsecutiveRecoveryActions (vc_policy c) ->
  inOrder (vc_lastSequence c) (vc_heldFrame c) (traceOf ms c) /\
  withinBudget (cp_maximumConsecutiveRecoveryActions (vc_policy c)) (vc_consecutiveRecoveryActions c) (traceOf ms c).
Proof.
  revert c. induction ms as [| m ms IH]; intros c Hc Hm Hr; [done |]. cbn [traceOf].
  pose proof (updateController_spec m c Hc Hm) as Hs. destruct (updateController m c) as [r c'].
  unfold callSpec in Hs. cbn [fst snd] in Hs. destruct r as [d | e]; [| subst c'; by apply IH].
  destruct Hs as [[-> Hg] | Hd].
  { apply Z.eqb_neq in Hg. rewrite Hg. by apply IH. }
  pose proof (decided_heldOk _ _ _ _ Hd) as Hc'. destruct Hd as [D1 D2 D3 D4 D5 D6 D7 D8].
  rewrite D1, Z.eqb_refl. cbn [inOrder withinBudget].
  specialize (D7 Hr). assert (Hr' : nextRecovery (vd_kind d) (vc_consecutiveRecoveryActions c) <=
    cp_maximumConsecutiveRecoveryActions (vc_policy c)) by by rewrite <- D6.
  subst c'. destruct (IH _ Hc' Hm Hr') as [I1 I2]. split_and!; try done. intros E. specialize (D8 E). lia.
Qed.

(** A controller just created or just reset. *)
Definition fresh (c : Controller) : Prop :=
  vc_lastSequence c = 0 /\ vc_heldFrame c = None /\ vc_consecutiveRecoveryActions c = 0 /\
  0 < cp_maximumConsecutiveRecoveryActions (vc_policy c).

Lemma fresh_trace ms c : fresh c ->
  inOrder 0 None (traceOf ms c) /\ withinBudget (cp_maximumConsecutiveRecoveryActions (vc_policy c)) 0 (traceOf ms c).
Proof.
  intros (E1 & E2 & E3 & Hm). pose proof (trace_spec ms c) as H. rewrite E1, E2, E3 in H.
  apply H; [intros h; by rewrite E2 | lia | lia].
Qed.

(** C28: In every generation, whatever frames, repeat requests and foreign
    generations arrive, the decisions settle frames in strictly increasing
    sequence, and a frame put on hold is the only one decided until it is
    settled: none is skipped, overtaken or shown twice. *)
Theorem video_in_order ms c : fresh c -> inOrder 0 None (traceOf ms c).
Proof. intros H. by apply fresh_trace. Qed.

(** The controller never drops or repeats more frames in a row than the
    planned budget, reports the exact number each time, and asks for a
    reacquisition on that ground only when the budget is used up. *)
Theorem video_recovery_budget ms c : fresh c ->
  withinBudget (cp_maximumConsecutiveRecoveryActions (vc_policy c)) 0 (traceOf ms c).
Proof. intros H. by apply fresh_trace. Qed.

(** ** Holding ends *)

(** A held frame is settled: measured again, unchanged, with a decision
    horizon at or after the recheck time the hold reported, it gets a decision
    other than [Hold], provided the two differences of times can be
    represented. *)
Theorem hold_resolves f f' c d c' recheck :
  updateFrame f c = (inl d, c') -> vd_kind d = Hold -> vd_recheckAtMasterTime d = Some recheck ->
  is_i 64 (fr_dispatchOnMaster f) -> is_i 64 (fr_targetPresentationOnMaster f) ->
  is_i 64 (fr_observedAtMaster f') -> is_i 64 (fr_decisionHorizonOnMaster f') ->
  is_i 64 (cp_earlyHoldThresholdNs (vc_policy c)) ->
  fr_generation f' = fr_generation f -> identityOf (FrameMeasurement f') = identityOf (FrameMeasurement f) ->
  recheck <= fr_decisionHorizonOnMaster f' -> fr_observedAtMaster f' <= fr_decisionHorizonOnMaster f' ->
  is_i 64 (fr_targetPresentationOnMaster f' - fr_observedAtMaster f') ->
  is_i 64 (fr_dispatchOnMaster f' - fr_decisionHorizonOnMaster f') ->
  exists d', (updateFrame f' c').1 = inl d' /\ vd_kind d' <> Hold /\ vd_sequence d' = fr_sequence f.
Proof.
  intros Hu Hk Hre T1 T2 T3 T4 T5 Hg Hid Hrc Ho R1 R2. injection Hid as I1 I2 I3 I4.
  assert (Hheld : c' = setState (vc_lastSequence c) (identityOf (FrameMeasurement f)) (vc_consecutiveRecoveryActions c) c /\
    fr_generation f = vc_generation c /\ fr_sequence f <> 0 /\
    recheck = fr_dispatchOnMaster f - cp_earlyHoldThresholdNs (vc_policy c)).
  { revert Hu. unfold updateFrame, terminal, recoveryDecision. cbv zeta.
    destruct (Z.eqb_spec (fr_generation f) (vc_generation c)); cbn [negb].
    2: { intros [= <- <-]. revert Hk. unfold isolatedGenerationDecision. cbn. by destruct (_ <? _). }
    destruct (Z.eqb_spec (fr_sequence f) 0); [done |]. destruct (validateFrameIdentity f c); [| done].
    destruct (_ <? _); [done |]. destruct (checkedSubtract _ _); [| done]. destruct (checkedSubtract _ _); [| done].
    destruct (_ <=? _); [by intros [= <- <-] |].
    destruct (_ <? _).
    { rewrite checkedSubtract_exact by done. destruct (isInt64 _); [| done]. intros [= <- <-]. cbn in Hre.
      injection Hre as <-. done. }
    destruct (_ <=? _); [by intros [= <- <-] |]. destruct (_ <? _); [by intros [= <- <-] |].
    destruct (fr_keyFrame f); [by intros [= <- <-] |]. destruct (_ <=? _); by intros [= <- <-]. }
  destruct Hheld as (-> & Hgen & Hseq & ->). unfold updateFrame, terminal, recoveryDecision, validateFrameIdentity. cbv zeta. cbn.
  rewrite Hg, Hgen, I1, I2, I3, I4, !Z.eqb_refl, eqb_reflx. cbn [negb orb].
  destruct (Z.eqb_spec (fr_sequence f) 0); [done |].
  destruct (Z.ltb_spec (fr_decisionHorizonOnMaster f') (fr_observedAtMaster f')); [lia |].
  rewrite I2 in R2. rewrite I3 in R1. apply isInt64_spec in R1, R2.
  rewrite !checkedSubtract_exact by done. rewrite R1, R2.
  destruct (_ <=? _); [by eexists |].
  destruct (Z.ltb_spec (cp_earlyHoldThresholdNs (vc_policy c)) (fr_dispatchOnMaster f - fr_decisionHorizonOnMaster f')); [lia |].
  destruct (_ <=? _); [by eexists |]. destruct (_ <? _); [by eexists |].
  destruct (fr_keyFrame f); [by eexists |]. destruct (_ <=? _); by eexists.
Qed.

(** ** An example *)

Definition exampleController : Controller :=
  mkController MpegTsPcr (mkControllerPolicy 20000000 40000000 80000000 true 2 250000000) 1 0 None 0.

Definition exampleFrame (sequence target observed : Z) : MediaVideoFrameMeasurement :=
  mkFrame (target - 10000000) target observed 1 sequence false observed.

(** Two frames shown, one held and shown late, two dropped, and the budget of
    two is used up. *)
Definition exampleMeasurements : list MediaVideoSyncMeasurement :=
  FrameMeasurement <$>
    [exampleFrame 1 1000000000 990000000; exampleFrame 2 1040000000 1000000000; exampleFrame 2 1040000000 1020000000;
     exampleFrame 3 1080000000 1180000000; exampleFrame 4 1120000000 1220000000; exampleFrame 5 1160000000 1260000000].

Lemma video_in_order_witness :
  (vd_kind <$> (traceOf exampleMeasurements exampleController).*2) = [Display; Hold; Display; Drop; Drop; Reacquire] /\
  inOrder 0 None (traceOf exampleMeasurements exampleController).
Proof.
  split; [vm_compute; reflexivity |]. apply (video_in_order exampleMeasurements exampleController).
  split_and!; reflexivity.
Defined.

Lemma video_recovery_budget_witness : withinBudget 2 0 (traceOf exampleMeasurements exampleController).
Proof. apply (video_recovery_budget exampleMeasurements exampleController). split_and!; reflexivity. Defined.

Lemma hold_resolves_witness :
  exists c', (updateFrame (exampleFrame 2 1040000000 1000000000) exampleController).2 = c' /\
  exists d', (updateFrame (exampleFrame 2 1040000000 1020000000) c').1 = inl d' /\ vd_kind d' <> Hold /\ vd_sequence d' = 2.
Proof.
  eexists. split; [reflexivity |].
  apply (hold_resolves (exampleFrame 2 1040000000 1000000000) (exampleFrame 2 1040000000 1020000000) exampleController
    (mkVideoDecision Hold 1040000000 40000000 1 2 0 (Some 1010000000) None) _ 1010000000);
    first [reflexivity | cbn; ranges; lia].
Defined.

End MediaVideoSyncController.
