(* ===== verification/AvSyncPlanner.v ===== *)
(** * Planning the synchronisation

    Models the parts of [planner/avsync/MediaAvSyncPlanner.cpp] that fill a plan
    (the shared policy and the RTP clocks), [planner/MediaRtpClockLivenessPolicy.h],
    [planner/realtime/MediaRtpOutputIdentityPlanner.cpp] (stable identifiers by
    hashing) and [planner/realtime/MediaAudioCorrectionReachabilityPlanner.cpp]
    (how far ahead a correction must be announced).

    Requests and facts are records of the members these functions read. *)

From stdpp Require Import pretty.
From S2P Require Import Prelude MediaResult Model CanonicalTime Rtcp RtpClock RtpClockGroup AvSyncPlan.
Import MediaAvSyncError MediaAvSyncPlan MediaRtcpCompoundParser MediaRtpClockGroupPolicy MediaRtpClockObservationSchedule.

Local Open Scope Z_scope.
Local Open Scope result_scope.

(** ** Identities *)

Module MediaRtpOutputIdentityPlanner.

Definition stableNumeric (identity : string) : Z :=
  let hash :=
    fold_left (fun hash byte => u32 (Z.lxor hash (Z.of_nat (Ascii.nat_of_ascii byte)) * 16777619))
      (String.list_ascii_of_string identity) 2166136261 in
  if hash =? 0 then 1 else hash.

Definition stableFfmpegMuxSsrc (identity : string) : Z :=
  let constrained := Z.land (stableNumeric identity) 0x7fffffff in
  if constrained =? 0 then 1 else constrained.

Definition stableSequenceNumber (identity : string) : Z := u16 (stableNumeric identity).

Definition outputCname (sessionIdentity : string) : string :=
  "mt-" +:+ pretty (stableNumeric sessionIdentity) +:+ "@media-transcode".

End MediaRtpOutputIdentityPlanner.

Module MediaRtpClockLivenessPolicy.

Definition MaximumExpectedSenderReportIntervalMs : Z := 5500.
Definition SenderReportDeliveryJitterBudgetMs : Z := 1500.
Definition SenderReportTimeoutMs : Z := MaximumExpectedSenderReportIntervalMs + SenderReportDeliveryJitterBudgetMs.
Definition ExtrapolationBudgetMs : Z := 2000.
Definition MaximumExtrapolationMs : Z := SenderReportTimeoutMs + ExtrapolationBudgetMs.
Definition CnameTimeoutMs : Z := MaximumExtrapolationMs.

End MediaRtpClockLivenessPolicy.

(** ** The plan *)

Module MediaAvSyncPlanner.
Import MediaRtpOutputIdentityPlanner MediaRtpClockLivenessPolicy.

Definition Millisecond : Z := 1000000.
Definition Second : Z := 1000000000.

Definition planServo (s : MediaAvSyncAudioServoPolicy) : MediaAvSyncAudioServoPolicy :=
  mkServoPolicy (Some Millisecond) (Some (250 * Millisecond)) (sp_frequencyFilterTimeConstantNs s) (Some 20000) (Some 1000)
    (Some 2000) (Some 1) (Some 1) (Some 10) (Some 10000) (Some 500) (Some ConditionalIntegration) (Some (10 * Millisecond))
    (Some Second) (Some 100) (Some 1000) (Some 5000) (Some (100 * Millisecond)) (Some (50 * Millisecond))
    (Some (500 * Millisecond)) (sp_compensationWindowNs s) (sp_commandLeadNs s) (sp_outputSampleRate s) (Some 2).

Definition plannedVideo : MediaAvSyncVideoPolicy :=
  mkVideoPolicy (Some (20 * Millisecond)) (Some (40 * Millisecond)) (Some (80 * Millisecond)) (Some true) (Some 5).

Definition plannedRecovery : MediaAvSyncRecoveryPolicy :=
  mkRecoveryPolicy (Some (100 * Millisecond)) (Some (250 * Millisecond)) (Some (10 * Second)).

Definition plannedMetrics : MediaAvSyncMetricsPolicy :=
  mkMetrics (Some true) (Some true) (Some true) (Some true) (Some true) (Some true) (Some true) (Some true)
    (Some (40 * Millisecond)) (Some (20 * Millisecond)) (Some (40 * Millisecond)) (Some Millisecond).

Definition planSharedNonStartupPolicy (p : Plan) : Plan :=
  mkPlan (pl_sourceClockMode p) (pl_controlGenerationPolicy p) (Some SteadyMonotonic) (Some 1) (Some 1000000000)
    (pl_startup p) (planServo (pl_audioServo p)) plannedVideo plannedRecovery (pl_rtpInput p) (pl_mpegTsInput p)
    (pl_demuxTimestampInput p) (pl_rtpOutput p) (pl_projectMpegTsOutput p) plannedMetrics.

(** [plan.audioServo.outputSampleRate = ...]. *)
Definition setSampleRate (rate : Z) (s : MediaAvSyncAudioServoPolicy) : MediaAvSyncAudioServoPolicy :=
  mkServoPolicy (sp_deadbandNs s) (sp_phaseFilterTimeConstantNs s) (sp_frequencyFilterTimeConstantNs s)
    (sp_proportionalGainPpmPerSecond s) (sp_integralGainPpmPerSecondSquared s) (sp_integratorLimitPpm s)
    (sp_frequencyFeedForwardNumerator s) (sp_frequencyFeedForwardDenominator s) (sp_frequencyDeadbandPpm s)
    (sp_maximumMeasuredFrequencyPpm s) (sp_recoveryExitFrequencyPpm s) (sp_antiWindupMode s) (sp_minimumUpdateIntervalNs s)
    (sp_maximumMeasurementGapNs s) (sp_maximumSlewPpmPerSecond s) (sp_normalCorrectionLimitPpm s)
    (sp_recoveryCorrectionLimitPpm s) (sp_recoveryEnterThresholdNs s) (sp_recoveryExitThresholdNs s)
    (sp_recoveryExitHoldNs s) (sp_compensationWindowNs s) (sp_commandLeadNs s) (Some rate) (sp_correctionLookaheadWindows s).

Record RtpStreamRequest := mkStreamRequest { rq_payloadType : option Z; rq_clockRate : option Z }.

Inductive RealtimeInputType := Url | Sdp | RtpPort | MpegTsUdp | ExternalMpegTsPacket | ExternalRtpPacket.
Inductive MediaBranchMode := DropBranch | CopyPacket | TranscodeFrame.

#[global] Instance branchMode_eq_dec : EqDecision MediaBranchMode.
Proof. solve_decision. Defined.

Record Request := mkRequest {
  rq_mediaId : string;
  rq_inputType : option RealtimeInputType;
  rq_audioVideo : bool;
  rq_rtpAvpOutput : bool;
  rq_videoRtp : RtpStreamRequest;
  rq_audioRtp : RtpStreamRequest;
}.

Definition planRtpInput (request : Request) : Result MediaAvSyncRtpInputPlan :=
  match rq_videoRtp request, rq_audioRtp request with
  | mkStreamRequest (Some videoType) (Some videoRate), mkStreamRequest (Some audioType) (Some audioRate) =>
      let groupIdentity := rq_mediaId request in
      Success (mkRtpInput
        (mkInputStream (Some (groupIdentity +:+ ".input.video")) (Some videoType) (Some videoRate))
        (mkInputStream (Some (groupIdentity +:+ ".input.audio")) (Some audioType) (Some audioRate))
        (mkInputPolicy EarliestLockedSenderReportSourceTime PlannedStreamPair (Some ReducedSizeRfc5506)
           (Some (CnameTimeoutMs * Millisecond)) (Some true) (Some (SenderReportTimeoutMs * Millisecond))
           (Some (MaximumExtrapolationMs * Millisecond)) (Some FailOnDegraded) (Some FailOnExpired)
           (Some (50 * Millisecond)) (Some 1000) (Some (250 * Millisecond))))
  | _, _ =>
      failure (invalidArgument "Synchronized separate RTP requires explicit audio/video payload types and clock rates")
  end.

Definition planRtpInputClock (request : Request) : Result MediaAvSyncRtpInputPlan :=
  if String.eqb (rq_mediaId request) EmptyString
  then failure (invalidArgument "A/V RTP input clock requires an explicit media identity")
  else planRtpInput request.

Definition planRtpOutput (request : Request) (audioOutputRate : Z) (p : Plan) : Plan :=
  let groupIdentity := rq_mediaId request in
  let cname := outputCname groupIdentity in
  let video := groupIdentity +:+ ".output.video" in
  let audio := groupIdentity +:+ ".output.audio" in
  let output :=
    mkRtpOutput
      (mkOutputStream (Some video) (Some 96) (Some 90000) (Some (stableFfmpegMuxSsrc video))
         (Some (stableNumeric (groupIdentity +:+ ".video.timestamp"))) (Some cname))
      (mkOutputStream (Some audio) (Some 97) (Some audioOutputRate) (Some (stableFfmpegMuxSsrc audio))
         (Some (stableNumeric (groupIdentity +:+ ".audio.timestamp"))) (Some cname))
      (Some true) in
  mkPlan (pl_sourceClockMode p) (pl_controlGenerationPolicy p) (pl_masterClockMode p) (pl_canonicalTimeBaseNumerator p)
    (pl_canonicalTimeBaseDenominator p) (pl_startup p) (pl_audioServo p) (pl_video p) (pl_recovery p) (pl_rtpInput p)
    (pl_mpegTsInput p) (pl_demuxTimestampInput p) (Some output) (pl_projectMpegTsOutput p) (pl_metrics p).

(** [MediaTsAudioVideoProgramSelection], the identifiers of the selected
    program. *)
Record MediaTsAudioVideoProgramSelection := mkSelection {
  sl_programNumber : Z;
  sl_programMapPid : Z;
  sl_videoPid : Z;
  sl_audioPid : Z;
  sl_pcrPid : Z;
}.

Record MediaAvSyncPreparedDemuxTimestampFacts := mkDemuxFacts {
  df_videoStreamIndex : Z;
  df_videoTimeBase : MediaRational;
  df_audioStreamIndex : Z;
  df_audioTimeBase : MediaRational;
  df_preparedInput : MediaPreparedGenericInput.MediaPreparedGenericInputPlan;
  df_preparedEvidence : MediaPreparedGenericInput.MediaPreparedGenericInputEvidence;
  df_startup : MediaAvSyncStartupPolicy;
}.

(** [plan.startup.videoIdentity = ...; plan.startup.audioIdentity = ...]. *)
Definition setIdentities (video audio : option string) (s : MediaAvSyncStartupPolicy) : MediaAvSyncStartupPolicy :=
  mkStartupPolicy (su_requireVideoKeyFrame s) (su_trimAudioToCommonStart s) (su_maximumWaitNs s) (su_prerollNs s)
    (su_keyFrameWaitNs s) (su_maximumAudioTrimNs s) (su_maximumInitialSkewNs s) (su_maximumGapNs s) (su_outputLeadNs s)
    (su_videoCapacity s) (su_audioCapacity s) (su_videoByteCapacity s) (su_audioByteCapacity s)
    (su_maximumVideoUnitBytes s) (su_maximumAudioUnitBytes s) video audio (su_allowDegradedClock s).

(** [plan.startup.trimAudioToCommonStart = ...]. *)
Definition setTrim (trim : bool) (s : MediaAvSyncStartupPolicy) : MediaAvSyncStartupPolicy :=
  mkStartupPolicy (su_requireVideoKeyFrame s) (Some trim) (su_maximumWaitNs s) (su_prerollNs s)
    (su_keyFrameWaitNs s) (su_maximumAudioTrimNs s) (su_maximumInitialSkewNs s) (su_maximumGapNs s) (su_outputLeadNs s)
    (su_videoCapacity s) (su_audioCapacity s) (su_videoByteCapacity s) (su_audioByteCapacity s)
    (su_maximumVideoUnitBytes s) (su_maximumAudioUnitBytes s) (su_videoIdentity s) (su_audioIdentity s) (su_allowDegradedClock s).

Definition setInput (mode : MediaAvSyncSourceClockMode) (policy : MediaControlGenerationPolicy)
  (startup : MediaAvSyncStartupPolicy) (rtp : option MediaAvSyncRtpInputPlan) (ts : option MediaAvSyncMpegTsInputPlan)
  (demux : option MediaAvSyncDemuxTimestampInputPlan) (p : Plan) : Plan :=
  mkPlan (Some mode) (Some policy) (pl_masterClockMode p) (pl_canonicalTimeBaseNumerator p) (pl_canonicalTimeBaseDenominator p)
    startup (pl_audioServo p) (pl_video p) (pl_recovery p) rtp ts demux (pl_rtpOutput p) (pl_projectMpegTsOutput p) (pl_metrics p).

Definition planTsInput (request : Request) (program : MediaTsAudioVideoProgramSelection) (p : Plan) : Plan :=
  let groupIdentity := rq_mediaId request in
  setInput MpegTsPcr OptionalExactWhenPresent
    (setIdentities (Some (groupIdentity +:+ ".pid." +:+ pretty (sl_videoPid program)))
       (Some (groupIdentity +:+ ".pid." +:+ pretty (sl_audioPid program))) (pl_startup p))
    (pl_rtpInput p)
    (Some (mkTsInput (Some (sl_programNumber program)) (Some (sl_programMapPid program)) (Some (sl_videoPid program))
       (Some (sl_audioPid program)) (Some (sl_pcrPid program))))
    (pl_demuxTimestampInput p) p.

Definition planDemuxInput (request : Request) (facts : MediaAvSyncPreparedDemuxTimestampFacts) (p : Plan) : Plan :=
  let groupIdentity := rq_mediaId request in
  setInput DemuxTimestamps RequiredExact
    (setIdentities (Some (groupIdentity +:+ ".stream." +:+ pretty (df_videoStreamIndex facts)))
       (Some (groupIdentity +:+ ".stream." +:+ pretty (df_audioStreamIndex facts))) (pl_startup p))
    (pl_rtpInput p) (pl_mpegTsInput p)
    (Some (mkDemuxInput (df_videoTimeBase facts) (df_audioTimeBase facts) (su_maximumInitialSkewNs (pl_startup p))
       (rc_hardDiscontinuityThresholdNs (pl_recovery p)) (Some 1) (Some 0) (Some (df_preparedInput facts))
       (Some (df_preparedEvidence facts)))) p.

Definition demuxFactsInvalid (facts : MediaAvSyncPreparedDemuxTimestampFacts) : bool :=
  (df_videoStreamIndex facts <? 0) || (df_audioStreamIndex facts <? 0) ||
  (df_videoStreamIndex facts =? df_audioStreamIndex facts) ||
  negb (Rational_isKnown (df_videoTimeBase facts)) || (num (df_videoTimeBase facts) <=? 0) || (den (df_videoTimeBase facts) <=? 0) ||
  negb (Rational_isKnown (df_audioTimeBase facts)) || (num (df_audioTimeBase facts) <=? 0) || (den (df_audioTimeBase facts) <=? 0).

(** The input branch of [plan]. *)
Definition planInput (request : Request) (selectedTsProgram : option MediaTsAudioVideoProgramSelection)
  (preparedDemuxFacts : option MediaAvSyncPreparedDemuxTimestampFacts) (p : Plan) : Result Plan :=
  match rq_inputType request with
  | Some RtpPort =>
      match planRtpInput request with
      | Failure e => failure e
      | Success rtpInput =>
          match selectedTsProgram, preparedDemuxFacts with
          | None, None =>
              Success (setInput RtpSenderReports OptionalExactWhenPresent
                (setIdentities (is_identity (ri_videoInput rtpInput)) (is_identity (ri_audioInput rtpInput)) (pl_startup p))
                (Some rtpInput) (pl_mpegTsInput p) (pl_demuxTimestampInput p) p)
          | _, _ => failure (invalidArgument "RTP input clock rejects MPEG-TS and demux input facts")
          end
      end
  | Some MpegTsUdp =>
      match selectedTsProgram, preparedDemuxFacts with
      | None, _ => failure (notInitialized "MPEG-TS A/V synchronization requires planner-selected program identity")
      | Some _, Some _ => failure (invalidArgument "MPEG-TS input clock rejects demux timestamp facts")
      | Some program, None => Success (planTsInput request program p)
      end
  | Some Url =>
      let incomplete := failure (notInitialized "URL A/V input clock requires prepared stream time bases") in
      match selectedTsProgram, preparedDemuxFacts with
      | None, Some facts => if demuxFactsInvalid facts then incomplete else Success (planDemuxInput request facts p)
      | _, _ => incomplete
      end
  | _ => failure (unsupported "Realtime A/V input clock is not supported")
  end.

(** [MediaRealtimeMediaCapacityPlan], computed by the planner of the resource
    ledger. *)
Record MediaRealtimeMediaCapacityPlan := mkCapacity {
  ca_videoUnits : Z;
  ca_videoUnitBytes : Z;
  ca_videoBytes : Z;
  ca_audioUnits : option Z;
  ca_audioUnitBytes : option Z;
  ca_audioBytes : option Z;
  ca_maximumGap : Z;
}.

Definition makePolicy (capacity : MediaRealtimeMediaCapacityPlan) (outputLead : option Z) : Result MediaAvSyncStartupPolicy :=
  let incomplete := failure (invalidArgument "A/V startup deployment budget is incomplete") in
  match ca_audioUnits capacity, ca_audioUnitBytes capacity, ca_audioBytes capacity with
  | Some audioUnits, Some audioUnitBytes, Some audioBytes =>
      if (ca_videoUnits capacity =? 0) || (ca_videoUnitBytes capacity =? 0) || (ca_videoBytes capacity =? 0) ||
         (MediaAvSyncPlanValidator.MediaAvStartupMaximumUnitCapacity <? ca_videoUnits capacity) ||
         (MediaAvSyncPlanValidator.MediaAvStartupMaximumUnitCapacity <? audioUnits)
      then incomplete
      else if (int64_max <? ca_videoUnitBytes capacity) || (int64_max <? audioUnitBytes) ||
              (int64_max <? ca_videoBytes capacity) || (int64_max <? audioBytes)
      then failure (invalidArgument "A/V startup capacity exceeds the runtime option range")
      else Success (mkStartupPolicy (Some true) (Some true) (Some (10 * Second)) (Some (500 * Millisecond)) (Some (5 * Second))
             (Some (250 * Millisecond)) (Some (40 * Millisecond)) (Some (ca_maximumGap capacity)) outputLead
             (Some (ca_videoUnits capacity)) (Some audioUnits) (Some (ca_videoBytes capacity)) (Some audioBytes)
             (Some (ca_videoUnitBytes capacity)) (Some audioUnitBytes) None None (Some false))
  | _, _, _ => incomplete
  end.

Definition startupPlan (audioVideo : bool) (capacity : Result MediaRealtimeMediaCapacityPlan) (senderTransportLead : Z)
  : Result MediaAvSyncStartupPolicy :=
  if negb audioVideo then failure (notInitialized "A/V startup requires the AudioVideo stream set")
  else let* capacity := capacity in makePolicy capacity (Some senderTransportLead).

Definition finalizePrepared (s : MediaAvSyncStartupPolicy) (capacity : Result MediaRealtimeMediaCapacityPlan)
  (senderTransportLead : Z) : Result MediaAvSyncStartupPolicy :=
  let* capacity := capacity in
  match su_videoCapacity s, su_audioCapacity s, su_videoByteCapacity s, su_audioByteCapacity s,
        su_maximumVideoUnitBytes s, su_maximumAudioUnitBytes s with
  | Some _, Some _, Some _, Some _, Some _, Some _ =>
      Success (mkStartupPolicy (su_requireVideoKeyFrame s) (su_trimAudioToCommonStart s) (su_maximumWaitNs s) (su_prerollNs s)
        (su_keyFrameWaitNs s) (su_maximumAudioTrimNs s) (su_maximumInitialSkewNs s) (Some (ca_maximumGap capacity))
        (Some senderTransportLead) (su_videoCapacity s) (su_audioCapacity s) (su_videoByteCapacity s) (su_audioByteCapacity s)
        (su_maximumVideoUnitBytes s) (su_maximumAudioUnitBytes s) (su_videoIdentity s) (su_audioIdentity s) (su_allowDegradedClock s))
  | _, _, _, _, _, _ => failure (notInitialized "prepared A/V startup is missing its input replay bounds")
  end.

Definition planInputPreflight (audioVideo : bool) (probeSizeBytes readTimeoutMs : option Z) : Result MediaAvSyncStartupPolicy :=
  let incomplete := failure (notInitialized "A/V input observation requires stream-set and positive probe/read limits") in
  match probeSizeBytes, readTimeoutMs with
  | Some probe, Some timeout =>
      if negb audioVideo || (probe <? 2) || (timeout <=? 0) then incomplete
      else
        let perStreamBudget := Z.quot (u64 probe) 2 in
        if perStreamBudget =? 0
        then failure (invalidArgument "A/V input observation graph budget cannot admit both streams")
        else
          let units := MediaAvSyncPlanValidator.MediaAvStartupMaximumUnitCapacity in
          makePolicy (mkCapacity units perStreamBudget perStreamBudget (Some units) (Some perStreamBudget) (Some perStreamBudget)
            (timeout * Millisecond)) None
  | _, _ => incomplete
  end.

(** A default constructed plan with a startup policy. *)
Definition emptyServo : MediaAvSyncAudioServoPolicy :=
  mkServoPolicy None None None None None None None None None None None None None None None None None None None None None None None None.

Definition emptyPlan (startup : MediaAvSyncStartupPolicy) : Plan :=
  mkPlan None None None None None startup emptyServo (mkVideoPolicy None None None None None) (mkRecoveryPolicy None None None)
    None None None None None (mkMetrics None None None None None None None None None None None None).

Definition setServo (servo : MediaAvSyncAudioServoPolicy) (p : Plan) : Plan :=
  mkPlan (pl_sourceClockMode p) (pl_controlGenerationPolicy p) (pl_masterClockMode p) (pl_canonicalTimeBaseNumerator p)
    (pl_canonicalTimeBaseDenominator p) (pl_startup p) servo (pl_video p) (pl_recovery p) (pl_rtpInput p) (pl_mpegTsInput p)
    (pl_demuxTimestampInput p) (pl_rtpOutput p) (pl_projectMpegTsOutput p) (pl_metrics p).

(** [plan] for an output in separate RTP streams, without the facts of an
    MPEG-TS output. *)
Definition planSeparate (request : Request) (selectedTsProgram : option MediaTsAudioVideoProgramSelection)
  (preparedDemuxFacts : option MediaAvSyncPreparedDemuxTimestampFacts) (capacity : Result MediaRealtimeMediaCapacityPlan)
  (senderTransportLead : Z) (audioBranchMode : MediaBranchMode) (resolvedOutputAudioSampleRate : Z) : Result Plan :=
  if String.eqb (rq_mediaId request) EmptyString
  then failure (invalidArgument "A/V synchronization requires an explicit media identity")
  else if negb (rq_audioVideo request) then failure (unsupported "A/V synchronization requires both audio and video")
  else if resolvedOutputAudioSampleRate <=? 0
  then failure (notInitialized "A/V synchronization requires a resolved output audio sample rate")
  else if bool_decide (audioBranchMode <> CopyPacket) && bool_decide (audioBranchMode <> TranscodeFrame)
  then failure (invalidArgument "A/V synchronization requires a planned audio execution branch")
  else
    let* startup :=
      match preparedDemuxFacts with
      | Some facts => finalizePrepared (df_startup facts) capacity senderTransportLead
      | None => startupPlan (rq_audioVideo request) capacity senderTransportLead
      end in
    let startup := setTrim (bool_decide (audioBranchMode = TranscodeFrame)) startup in
    let p := planSharedNonStartupPolicy (emptyPlan startup) in
    let p := setServo (setSampleRate resolvedOutputAudioSampleRate (pl_audioServo p)) p in
    let* p := planInput request selectedTsProgram preparedDemuxFacts p in
    if negb (rq_rtpAvpOutput request) then failure (invalidArgument "Separate RTP output rejects MPEG-TS output facts")
    else
      let p := planRtpOutput request resolvedOutputAudioSampleRate p in
      match MediaAvSyncPlanValidator.validatePolicy p with
      | Failure e => failure e
      | Success _ => Success p
      end.

End MediaAvSyncPlanner.

(** ** The lead of the corrections *)

Module MediaAudioCorrectionReachabilityPlanner.

Record PlanningFacts := mkFacts {
  pf_outputSampleRate : option Z;
  pf_decoderDelaySamples : option Z;
  pf_encoderLookaheadSamples : option Z;
  pf_decodeQueueSamples : option Z;
  pf_resampleQueueSamples : option Z;
  pf_encodeQueueSamples : option Z;
  pf_schedulerQueueSamples : option Z;
  pf_protocolBatchSamples : option Z;
  pf_mailboxDeliveryMarginSamples : option Z;
  pf_maximumResamplerOutputBlockSamples : option Z;
  pf_mailboxCapacity : option Z;
}.

Record MediaAudioCorrectionReachabilityPlan := mkReachability {
  ra_outputSampleRate : Z;
  ra_epochOutputSampleIndex : Z;
  ra_worstCaseInFlightSamples : Z;
  ra_protocolBatchSamples : Z;
  ra_mailboxDeliveryMarginSamples : Z;
  ra_maximumResamplerOutputBlockSamples : Z;
  ra_commandLeadSamples : Z;
  ra_mailboxCapacity : Z;
}.

Record ReachabilityResult := mkReachabilityResult {
  rr_correction : MediaAudioCorrectionReachabilityPlan;
  rr_commandLead : Z;
  rr_compensationWindow : Z;
  rr_frequencyFilterTimeConstant : Z;
}.

Definition checkedAdd (left right : Z) (owner : string) : Result Z :=
  if (left <? 0) || (right <? 0) || (int64_max - right <? left)
  then failure (invalidArgument (owner +:+ " sample bound overflow"))
  else Success (left + right).

Definition runningTimeToSamples (time sampleRate : Z) : Result Z :=
  let NanosecondsPerSecond := 1000000000 in
  if (time <=? 0) || (sampleRate <=? 0) || (Z.quot (int64_max - (NanosecondsPerSecond - 1)) sampleRate <? time)
  then failure (invalidArgument "audio command lead cannot be converted to output samples")
  else Success (Z.quot (i64 (i64 (i64 (time * sampleRate) + NanosecondsPerSecond) - 1)) NanosecondsPerSecond).

Definition samplesToRunningTime (samples sampleRate : Z) : Result Z :=
  let NanosecondsPerSecond := 1000000000 in
  if (samples <=? 0) || (sampleRate <=? 0) || (Z.quot (int64_max - sampleRate + 1) NanosecondsPerSecond <? samples)
  then failure (invalidArgument "audio sample bound cannot be converted to running time")
  else Success (Z.quot (i64 (i64 (i64 (samples * NanosecondsPerSecond) + sampleRate) - 1)) sampleRate).

(** [for (const auto value : ...)] with the running sum. *)
Fixpoint sumLoop (values : list Z) (worst : Z) : Result Z :=
  match values with
  | [] => Success worst
  | value :: values => let* worst := checkedAdd worst value "audio in-flight" in sumLoop values worst
  end.

(** The samples between two measurements with the largest correction. *)
Definition measurementLeadOf (gap correctionPpm outputSampleRate : Z) : Result Z :=
  match runningTimeToSamples gap outputSampleRate with
  | Failure e => failure e
  | Success measurementGapSamples =>
      if (correctionPpm <=? 0) || (measurementGapSamples =? int64_max) ||
         (Z.quot (int64_max - 999999) correctionPpm <? measurementGapSamples)
      then failure (invalidArgument "audio measurement correction headroom overflow")
      else
        let correctionHeadroomSamples := Z.quot (i64 (i64 (measurementGapSamples * correctionPpm) + 999999)) 1000000 in
        match checkedAdd measurementGapSamples correctionHeadroomSamples "audio measurement command lead" with
        | Failure e => failure e
        | Success measurementLead =>
            if measurementLead =? int64_max
            then failure (invalidArgument "audio measurement command lead has no strict margin")
            else Success measurementLead
        end
  end.

(** The times of a lead and of the window a block longer. *)
Definition correctionTimes (commandLeadSamples block outputSampleRate : Z) : Result (Z * Z * Z) :=
  let tooLong := failure (invalidArgument "bounded audio queues exceed the synchronization policy duration") in
  let compensation :=
    let* compensationSamples := checkedAdd commandLeadSamples block "audio compensation window" in
    samplesToRunningTime compensationSamples outputSampleRate in
  let frequency := let* compensation := compensation in checkedAdd compensation 1000000000 "audio frequency filter" in
  match samplesToRunningTime commandLeadSamples outputSampleRate, compensation, frequency with
  | Success commandLead, Success compensation, Success frequency =>
      if 60000000000 <? frequency then tooLong else Success (commandLead, compensation, frequency)
  | _, _, _ => tooLong
  end.

Definition planReachability (servo : MediaAvSyncAudioServoPolicy) (facts : PlanningFacts) : Result ReachabilityResult :=
  match facts with
  | mkFacts (Some outputSampleRate) (Some decoderDelay) (Some encoderLookahead) (Some decodeQueue) (Some resampleQueue)
      (Some encodeQueue) (Some schedulerQueue) (Some protocolBatch) (Some deliveryMargin) (Some block) (Some mailboxCapacity) =>
      let* worst := sumLoop [decoderDelay; encoderLookahead; decodeQueue; resampleQueue; encodeQueue; schedulerQueue; protocolBatch] 0 in
      let* required := checkedAdd worst deliveryMargin "audio command lead" in
      let* required := checkedAdd required block "audio command lead" in
      if required =? int64_max
      then failure (invalidArgument "audio command lead has no strict representable margin")
      else
        match sp_maximumMeasurementGapNs servo, sp_recoveryCorrectionLimitPpm servo with
        | Some gap, Some correctionPpm =>
            let* measurementLead := measurementLeadOf gap correctionPpm outputSampleRate in
            let commandLeadSamples := Z.max (i64 (required + 1)) (i64 (measurementLead + 1)) in
            let* times := correctionTimes commandLeadSamples block outputSampleRate in
            Success (mkReachabilityResult
              (mkReachability outputSampleRate 0 worst protocolBatch deliveryMargin block commandLeadSamples mailboxCapacity)
              times.1.1 times.1.2 times.2)
        | _, _ => failure (notInitialized "audio measurement correction facts are missing")
        end
  | _ => failure (notInitialized "A/V synchronization planning facts are incomplete")
  end.

(** The three assignments of [MediaRealtimeAvSyncRuntimePlanner] that finalise
    the policy. *)
Definition finalizeServo (r : ReachabilityResult) (s : MediaAvSyncAudioServoPolicy) : MediaAvSyncAudioServoPolicy :=
  mkServoPolicy (sp_deadbandNs s) (sp_phaseFilterTimeConstantNs s) (Some (rr_frequencyFilterTimeConstant r))
    (sp_proportionalGainPpmPerSecond s) (sp_integralGainPpmPerSecondSquared s) (sp_integratorLimitPpm s)
    (sp_frequencyFeedForwardNumerator s) (sp_frequencyFeedForwardDenominator s) (sp_frequencyDeadbandPpm s)
    (sp_maximumMeasuredFrequencyPpm s) (sp_recoveryExitFrequencyPpm s) (sp_antiWindupMode s) (sp_minimumUpdateIntervalNs s)
    (sp_maximumMeasurementGapNs s) (sp_maximumSlewPpmPerSecond s) (sp_normalCorrectionLimitPpm s)
    (sp_recoveryCorrectionLimitPpm s) (sp_recoveryEnterThresholdNs s) (sp_recoveryExitThresholdNs s)
    (sp_recoveryExitHoldNs s) (Some (rr_compensationWindow r)) (Some (rr_commandLead r)) (sp_outputSampleRate s)
    (sp_correctionLookaheadWindows s).

End MediaAudioCorrectionReachabilityPlanner.
