(* ===== verification/AvSyncContract.v ===== *)
(** * What a validated plan guarantees its users

    [MediaAvSyncPlanValidator] against the components that are created from a
    plan: the video controller dereferences only members the validator found
    present and ordered, and the audio servo accepts the policy, except where
    the lead of its commands, in whole samples, fills the correction window. *)

From S2P Require Import Prelude MediaResult CheckedArithmetic CanonicalTime AudioGrid AvSyncPlan AudioDrift AudioDriftSafety VideoSync AvSyncPlanner.
Import MediaAvSyncError MediaAudioDriftServoLimits MediaAvSyncPlan MediaAvSyncPlanValidator.
Import MediaAvSyncPlanner MediaAudioCorrectionReachabilityPlanner.

Local Open Scope Z_scope.

Module MediaAvSyncContract.

Lemma positive_inv v : negb (positive v) = false -> exists x, v = Some x /\ 0 < x.
Proof. destruct v as [x |]; cbn; [| done]. rewrite negb_false_iff, Z.ltb_lt. eauto. Qed.

Lemma holds_inv {A} (p : A -> bool) v : negb (holds p v) = false -> exists x, v = Some x /\ p x = true.
Proof. destruct v as [x |]; cbn; [| done]. rewrite negb_false_iff. eauto. Qed.

Lemma present_inv {A} (v : option A) : negb (present v) = false -> exists x, v = Some x.
Proof. destruct v as [x |]; cbn; [eauto | done]. Qed.

(** Reads a rejected condition of the validator: the members it tests are
    there. *)
Ltac read_condition H :=
  rewrite ?orb_false_iff in H; destruct_and? H;
  repeat match goal with
  | E : negb (positive ?v) = false |- _ => apply positive_inv in E as (? & -> & ?)
  | E : negb (holds _ ?v) = false |- _ => apply holds_inv in E as (? & -> & ?)
  | E : negb (present ?v) = false |- _ => apply present_inv in E as [? ->]
  end; cbn [holds both present id] in *;
  repeat match goal with
  | E : (_ >=? _) = false |- _ => rewrite Z.geb_leb, Z.leb_gt in E
  | E : (_ >? _) = false |- _ => rewrite Z.gtb_ltb, Z.ltb_ge in E
  | E : (_ <? _) = false |- _ => rewrite Z.ltb_ge in E
  | E : (_ <=? _) = true |- _ => rewrite Z.leb_le in E
  end.

Lemma shared_steps plan finalized : validateShared plan finalized = Success tt ->
  present (pl_sourceClockMode plan) = true /\
  servoInvalid (pl_audioServo plan) (pl_recovery plan) = false /\
  (finalized = true -> timingInvalid (pl_audioServo plan) = false) /\
  videoInvalid (pl_video plan) = false /\ recoveryInvalid (pl_video plan) (pl_recovery plan) = false.
Proof.
  unfold validateShared. cbv zeta. destruct (present (pl_sourceClockMode plan)); cbn [negb]; [| by intros []%failure_not].
  destruct (negb (present _)); [by intros []%failure_not |].
  destruct (negb (holds _ _)); [by intros []%failure_not |].
  destruct (_ || _); [by intros []%failure_not |].
  destruct (startupInvalid _); [by intros []%failure_not |].
  destruct (servoInvalid _ _); [by intros []%failure_not |].
  destruct (negb finalized && _); [by intros []%failure_not |].
  destruct (finalized && _) eqn:Et; [by intros []%failure_not |].
  destruct (videoInvalid _); [by intros []%failure_not |].
  destruct (recoveryInvalid _ _); [by intros []%failure_not |]. intros _.
  split_and!; try done. by intros ->.
Qed.

Lemma in_order_first check rest : validateInOrder (check :: rest) = Success tt -> check = Success tt.
Proof. cbn. by destruct check as [[] |]. Qed.

Lemma runtime_shared plan : validateRuntime plan = Success tt -> exists finalized, validateShared plan finalized = Success tt.
Proof.
  unfold validateRuntime. cbv zeta. destruct (_ || _); [by intros []%failure_not |].
  destruct (present _); intros H%in_order_first; eauto.
Qed.

(** The thresholds the controller relies on. *)
Definition orderedThresholds (p : MediaVideoSyncController.VideoPolicy) : Prop :=
  0 < MediaVideoSyncController.cp_earlyHoldThresholdNs p < MediaVideoSyncController.cp_lateDisplayThresholdNs p /\
  MediaVideoSyncController.cp_lateDisplayThresholdNs p < MediaVideoSyncController.cp_dropThresholdNs p /\
  MediaVideoSyncController.cp_dropThresholdNs p < MediaVideoSyncController.cp_hardDiscontinuityThresholdNs p <= 500000000.

(** From every plan the runtime validation accepts, a video controller can
    be created for every generation; all its thresholds are present, positive
    and strictly ordered, and its recovery budget is not empty. *)
Theorem validated_plan_video plan generation : validateRuntime plan = Success tt -> 0 < generation ->
  exists c, MediaVideoSyncController.createController plan generation = inl c /\
    MediaVideoSyncController.fresh c /\ MediaVideoSyncController.vc_generation c = generation /\
    orderedThresholds (MediaVideoSyncController.vc_policy c).
Proof.
  intros Hv Hg. unfold MediaVideoSyncController.createController. rewrite Hv. cbn [resultOk negb orb].
  destruct (Z.eqb_spec generation 0); [lia |].
  apply runtime_shared in Hv as [finalized Hv]. apply shared_steps in Hv as (Hm & Hs & _ & Hvi & Hre).
  unfold MediaVideoSyncController.resolveVideo. destruct (pl_sourceClockMode plan) as [mode |]; [| done].
  unfold servoInvalid, videoInvalid, recoveryInvalid in *. destruct (pl_video plan). destruct (pl_recovery plan). cbn in Hs, Hvi, Hre.
  assert (Hhard : forall h, rc_hardDiscontinuityThresholdNs0 = Some h -> h <= 500000000).
  { intros h ->. clear - Hs. rewrite !orb_false_iff in Hs. destruct_and! Hs. cbn in *.
    match goal with E : (h >? MaximumHardDiscontinuityNs) = false |- _ => rewrite Z.gtb_ltb, Z.ltb_ge in E; exact E end. }
  read_condition Hvi. read_condition Hre. specialize (Hhard _ eq_refl).
  eexists. split; [reflexivity |]. unfold MediaVideoSyncController.fresh, orderedThresholds. cbn. clear Hs.
  split_and!; first [done | lia].
Qed.

(** What the servo's own checks see of a validated policy. *)
Lemma finalized_policy servo recovery generation : servoInvalid servo recovery = false -> timingInvalid servo = false ->
  0 < generation -> exists hard p,
  rc_hardDiscontinuityThresholdNs recovery = Some hard /\ MediaAudioDriftServo.resolve servo hard = Some p /\
  MediaAudioDriftServo.validPolicy servo hard generation = true /\
  0 < MediaAudioDriftServo.po_commandLeadNs p < MediaAudioDriftServo.po_compensationWindowNs p /\
  0 < MediaAudioDriftServo.po_outputSampleRate p /\
  MediaAudioDriftServo.po_compensationWindowNs p <=
    Z.quot (int64_max - 1000000000) (MediaAudioDriftServo.po_outputSampleRate p) /\
  1000000000 <= windowProduct (MediaAudioDriftServo.po_compensationWindowNs p) (MediaAudioDriftServo.po_outputSampleRate p) /\
  Z.quot (windowProduct (MediaAudioDriftServo.po_compensationWindowNs p) (MediaAudioDriftServo.po_outputSampleRate p)) 1000000000
    <= int32_max.
Proof.
  intros Hs Ht Hg. unfold servoInvalid, timingInvalid in *. destruct servo. destruct recovery. cbn in Hs, Ht |- *.
  read_condition Hs. read_condition Ht. unfold NanosecondsPerSecond in *.
  match goal with H : negb (MediaAudioDriftServoPolicyValidator.leadCoversWorstPositiveGap _ _ _ _) = false |- _ => rewrite negb_false_iff in H end.
  match goal with H : bool_decide (_ = ConditionalIntegration) = true |- _ => apply bool_decide_eq_true in H as -> end.
  eexists _, _. split; [reflexivity |]. split; [reflexivity |].
  split; [| split_and!; cbn; first [assumption | lia]].
  unfold MediaAudioDriftServo.validPolicy. cbn [MediaAudioDriftServo.resolve sp_antiWindupMode].
  rewrite !andb_true_iff, !Z.ltb_lt, !Z.leb_le.
  split_and!; cbn; first [assumption | reflexivity | lia].
Qed.

(** A valid policy is turned into a servo exactly when its lead, in whole
    samples, is less than the window. *)
Lemma created_iff servo hard generation mode p :
  MediaAudioDriftServo.validPolicy servo hard generation = true -> MediaAudioDriftServo.resolve servo hard = Some p ->
  MediaAudioServoSafety.policyTyped p ->
  0 < MediaAudioDriftServo.po_commandLeadNs p < MediaAudioDriftServo.po_compensationWindowNs p ->
  0 < MediaAudioDriftServo.po_outputSampleRate p ->
  MediaAudioDriftServo.po_compensationWindowNs p <= Z.quot (int64_max - 1000000000) (MediaAudioDriftServo.po_outputSampleRate p) ->
  1000000000 <= windowProduct (MediaAudioDriftServo.po_compensationWindowNs p) (MediaAudioDriftServo.po_outputSampleRate p) ->
  Z.quot (windowProduct (MediaAudioDriftServo.po_compensationWindowNs p) (MediaAudioDriftServo.po_outputSampleRate p)) 1000000000
    <= int32_max ->
  (exists s, MediaAudioDriftServo.create mode servo hard generation = inl s) <->
  MediaAudioQuantizerSafety.leadSamplesOf (MediaAudioDriftServo.po_commandLeadNs p) (MediaAudioDriftServo.po_outputSampleRate p) <
    MediaAudioDriftServo.po_compensationWindowNs p * MediaAudioDriftServo.po_outputSampleRate p / 1000000000.
Proof.
  intros Ev Er (T1 & T2 & T3 & _) Hl Hr Hw Hp1 Hp2.
  unfold MediaAudioDriftServo.create. rewrite Ev, Er. clear Ev Er.
  set (window := MediaAudioDriftServo.po_compensationWindowNs p) in *.
  set (rate := MediaAudioDriftServo.po_outputSampleRate p) in *. set (lead := MediaAudioDriftServo.po_commandLeadNs p) in *.
  rewrite Z.quot_div_nonneg in Hw by (ranges; lia).
  assert (Hwr : 0 < window * rate <= int64_max).
  { pose proof (Z.mul_div_le (int64_max - 1000000000) rate ltac:(lia)). nia. }
  unfold windowProduct in *. rewrite i64_small in * by (ranges; lia). rewrite Z.quot_div_nonneg in Hp2 by lia.
  pose proof (MediaAudioQuantizerSafety.createQuantizer_iff window lead rate) as Hq.
  split.
  - intros [s Hs']. destruct (MediaAudioCorrectionQuantizer.createQuantizer window lead rate) as [q |] eqn:E; [| done].
    destruct (proj1 (Hq q T1 T2 T3) eq_refl) as (_ & _ & _ & _ & H & _). exact H.
  - intros Hlt.
    rewrite (proj2 (Hq (MediaAudioCorrectionQuantizer.mkQuantizer window rate
      (MediaAudioQuantizerSafety.leadSamplesOf lead rate) None false 0 0) T1 T2 T3)); [by eexists |].
    split_and!; try done; try lia. apply Z.div_le_lower_bound; lia.
Qed.

(** A finalised plan is valid for the servo: every member of the policy is
    present and [validPolicy] accepts them.  The servo is created exactly when,
    in whole samples, the lead of its commands is shorter than the correction
    window; the validator compares the two in nanoseconds only. *)
Theorem finalized_plan_servo plan mode generation :
  validate plan = Success tt -> 0 < generation -> exists hard p,
  rc_hardDiscontinuityThresholdNs (pl_recovery plan) = Some hard /\
  MediaAudioDriftServo.resolve (pl_audioServo plan) hard = Some p /\
  MediaAudioDriftServo.validPolicy (pl_audioServo plan) hard generation = true /\
  (MediaAudioServoSafety.policyTyped p ->
   (exists s, MediaAudioDriftServo.create mode (pl_audioServo plan) hard generation = inl s) <->
   MediaAudioQuantizerSafety.leadSamplesOf (MediaAudioDriftServo.po_commandLeadNs p) (MediaAudioDriftServo.po_outputSampleRate p) <
     MediaAudioDriftServo.po_compensationWindowNs p * MediaAudioDriftServo.po_outputSampleRate p / 1000000000).
Proof.
  intros Hv Hg. apply in_order_first in Hv. apply shared_steps in Hv as (_ & Hs & Ht & _ & _). specialize (Ht eq_refl).
  destruct (finalized_policy _ _ generation Hs Ht Hg) as (hard & p & Eh & Er & Ev & Hl & Hr & Hw & Hp1 & Hp2).
  exists hard, p. split_and!; try done. intros Htyped. by apply created_iff.
Qed.

(** ** A planned session *)

Definition exampleRequest : Request :=
  mkRequest "session" (Some RtpPort) true true (mkStreamRequest (Some 96) (Some 90000)) (mkStreamRequest (Some 97) (Some 48000)).

Definition exampleCapacity : MediaRealtimeMediaCapacityPlan := mkCapacity 64 65536 1048576 (Some 64) (Some 4096) (Some 65536) 100000000.

Definition exampleFacts : PlanningFacts :=
  mkFacts (Some 48000) (Some 1024) (Some 2048) (Some 4096) (Some 4096) (Some 4096) (Some 1024) (Some 1024) (Some 1024) (Some 1024) (Some 8).

Definition examplePolicyPlan : Plan :=
  match planSeparate exampleRequest None None (Success exampleCapacity) 200000000 TranscodeFrame 48000 with
  | Success p => p
  | Failure _ =>
      emptyPlan (mkStartupPolicy None None None None None None None None None None None None None None None None None None)
  end.

Definition exampleCorrection : Result ReachabilityResult := planReachability (pl_audioServo examplePolicyPlan) exampleFacts.

Definition examplePlan : Plan :=
  match exampleCorrection with
  | Success r => setServo (finalizeServo r (pl_audioServo examplePolicyPlan)) examplePolicyPlan
  | Failure _ => examplePolicyPlan
  end.

Lemma example_valid : validate examplePlan = Success tt.
Proof. vm_compute. reflexivity. Qed.

Lemma example_runtime : validateRuntime examplePlan = Success tt.
Proof. vm_compute. reflexivity. Qed.

Lemma validated_plan_video_witness : exists c, MediaVideoSyncController.createController examplePlan 1 = inl c /\
  MediaVideoSyncController.cp_dropThresholdNs (MediaVideoSyncController.vc_policy c) = 80000000.
Proof.
  destruct (validated_plan_video examplePlan 1 example_runtime ltac:(lia)) as (c & E & _).
  exists c. split; [exact E |].
  assert (H : match MediaVideoSyncController.createController examplePlan 1 with
    | inl c => MediaVideoSyncController.cp_dropThresholdNs (MediaVideoSyncController.vc_policy c) = 80000000 | inr _ => False end)
    by (vm_compute; reflexivity).
  rewrite E in H. exact H.
Defined.

Lemma finalized_plan_servo_witness : exists hard p s,
  MediaAudioDriftServo.resolve (pl_audioServo examplePlan) hard = Some p /\
  MediaAudioDriftServo.create RtpSenderReports (pl_audioServo examplePlan) hard 1 = inl s.
Proof.
  destruct (finalized_plan_servo examplePlan RtpSenderReports 1 example_valid ltac:(lia)) as (hard & p & Eh & Er & _ & Hc).
  assert (H : rc_hardDiscontinuityThresholdNs (pl_recovery examplePlan) = Some 250000000) by (vm_compute; reflexivity).
  assert (hard = 250000000) as -> by congruence.
  assert (Hp : match MediaAudioDriftServo.resolve (pl_audioServo examplePlan) 250000000 with
    | Some p => MediaAudioServoSafety.policyTyped p /\
        MediaAudioQuantizerSafety.leadSamplesOf (MediaAudioDriftServo.po_commandLeadNs p) (MediaAudioDriftServo.po_outputSampleRate p) <
        MediaAudioDriftServo.po_compensationWindowNs p * MediaAudioDriftServo.po_outputSampleRate p / 1000000000
    | None => False end) by (vm_compute; intuition discriminate).
  rewrite Er in Hp. destruct Hp as [Ht Hlt]. destruct (proj2 (Hc Ht) Hlt) as [s Es].
  exists 250000000, p, s. split; [exact Er | exact Es].
Defined.

End MediaAvSyncContract.
