(* ===== verification/AvSyncPlanned.v ===== *)
(** * The planned synchronisation

    The planner of [AvSyncPlanner] against the validator and against the servo:
    which requests get a plan, and when the correction timing computed from the
    bounds of the queues is one the servo accepts. *)

From S2P Require Import Prelude MediaResult CheckedArithmetic Model CanonicalTime Rtcp RtpClock RtpClockGroup AudioGrid AvSyncPlan AudioDrift.
From S2P Require Import AudioDriftSafety AvSyncPlanner AvSyncContract.
Import MediaAvSyncError MediaAvSyncPlan MediaAvSyncPlanValidator MediaAvSyncPlanner MediaAudioCorrectionReachabilityPlanner.
Import MediaRtcpCompoundParser MediaRtpClockGroupPolicy MediaRtpClockObservationSchedule MediaRtpOutputIdentityPlanner MediaAvSyncContract.

Local Open Scope Z_scope.

Module MediaAvSyncPlanned.

(** Proves that a condition of the validator rejects nothing. *)
Ltac pass_condition :=
  rewrite ?orb_false_iff; split_and!; cbn [positive holds both present presentText id negb fst snd];
  first
    [ reflexivity
    | assumption
    | rewrite ?negb_false_iff, ?Z.ltb_lt, ?Z.leb_le, ?Z.ltb_ge, ?Z.leb_gt, ?Z.geb_leb, ?Z.gtb_ltb, ?Z.ltb_ge, ?Z.leb_gt, ?Z.eqb_neq,
        ?negb_true_iff, ?String.eqb_neq; first [lia | assumption | done] ].

Definition plannedServo (rate : Z) : MediaAvSyncAudioServoPolicy := setSampleRate rate (planServo emptyServo).

Lemma planned_servo_ok rate : 0 < rate <= 384000 -> servoInvalid (plannedServo rate) plannedRecovery = false.
Proof.
  intros Hr. unfold servoInvalid, plannedServo, setSampleRate, planServo, plannedRecovery, emptyServo, Millisecond, Second.
  cbn [sp_deadbandNs sp_phaseFilterTimeConstantNs sp_frequencyFilterTimeConstantNs sp_proportionalGainPpmPerSecond
       sp_integralGainPpmPerSecondSquared sp_integratorLimitPpm sp_frequencyFeedForwardNumerator
       sp_frequencyFeedForwardDenominator sp_frequencyDeadbandPpm sp_maximumMeasuredFrequencyPpm sp_recoveryExitFrequencyPpm
       sp_antiWindupMode sp_minimumUpdateIntervalNs sp_maximumMeasurementGapNs sp_maximumSlewPpmPerSecond
       sp_normalCorrectionLimitPpm sp_recoveryCorrectionLimitPpm sp_recoveryEnterThresholdNs sp_recoveryExitThresholdNs
       sp_recoveryExitHoldNs sp_compensationWindowNs sp_commandLeadNs sp_outputSampleRate sp_correctionLookaheadWindows
       rc_hardDiscontinuityThresholdNs].
  unfold MediaAudioDriftServoLimits.MaximumOutputSampleRate.
  pass_condition.
Qed.

(** What the deployment promises of the sizes of a capacity product, and with a
    gap below the preroll. *)
Record capacitySound (c : MediaRealtimeMediaCapacityPlan) (units unitBytes bytes : Z) : Prop := {
  cs_audio : ca_audioUnits c = Some units /\ ca_audioUnitBytes c = Some unitBytes /\ ca_audioBytes c = Some bytes;
  cs_audioUnits : 0 < units <= 256;
  cs_videoUnits : 0 < ca_videoUnits c <= 256;
  cs_audioBytes : 0 < unitBytes <= bytes;
  cs_videoBytes : 0 < ca_videoUnitBytes c <= ca_videoBytes c;
  cs_serialized : bytes <= int64_max /\ ca_videoBytes c <= int64_max;
}.

Record capacityOk (c : MediaRealtimeMediaCapacityPlan) (units unitBytes bytes : Z) : Prop := {
  cok_sound : capacitySound c units unitBytes bytes;
  cok_gap : 0 < ca_maximumGap c < 500000000;
}.

Definition plannedStartup (c : MediaRealtimeMediaCapacityPlan) (lead : Z) : MediaAvSyncStartupPolicy :=
  mkStartupPolicy (Some true) (Some true) (Some (10 * Second)) (Some (500 * Millisecond)) (Some (5 * Second))
    (Some (250 * Millisecond)) (Some (40 * Millisecond)) (Some (ca_maximumGap c)) (Some lead)
    (Some (ca_videoUnits c)) (ca_audioUnits c) (Some (ca_videoBytes c)) (ca_audioBytes c)
    (Some (ca_videoUnitBytes c)) (ca_audioUnitBytes c) None None (Some false).

Lemma makePolicy_ok c units unitBytes bytes lead : capacitySound c units unitBytes bytes ->
  makePolicy c (Some lead) = Success (plannedStartup c lead).
Proof.
  intros [(E1 & E2 & E3) Ha Hv Hab Hvb [Hs1 Hs2]]. unfold makePolicy, plannedStartup, MediaAvStartupMaximumUnitCapacity.
  rewrite E1, E2, E3. rewrite !(proj2 (Z.eqb_neq _ _)), !(proj2 (Z.ltb_ge _ _)) by lia. done.
Qed.

(** The startup policy with the identities of an input. *)
Lemma planned_startup_ok c units unitBytes bytes lead trim video audio :
  capacityOk c units unitBytes bytes -> 40000000 < lead ->
  video <> EmptyString -> audio <> EmptyString -> video <> audio ->
  startupInvalid (setIdentities (Some video) (Some audio) (setTrim trim (plannedStartup c lead))) = false.
Proof.
  intros [[(E1 & E2 & E3) Ha Hv Hab Hvb [Hs1 Hs2]] Hg] Hl Nv Na Nva.
  unfold startupInvalid, setIdentities, setTrim, plannedStartup, Millisecond, Second, MediaAvStartupMaximumUnitCapacity.
  cbn [su_requireVideoKeyFrame su_trimAudioToCommonStart su_maximumWaitNs su_prerollNs su_keyFrameWaitNs su_maximumAudioTrimNs
       su_maximumInitialSkewNs su_maximumGapNs su_outputLeadNs su_videoCapacity su_audioCapacity su_videoByteCapacity
       su_audioByteCapacity su_maximumVideoUnitBytes su_maximumAudioUnitBytes su_videoIdentity su_audioIdentity su_allowDegradedClock].
  rewrite E1, E2, E3. unfold validByteCapacity.
  pass_condition; rewrite !andb_true_iff; split_and!; first [apply Z.ltb_lt; lia | apply Z.leb_le; lia].
Qed.

(** The validator needs the lead above the initial skew and the gap below the preroll. *)
Lemma planned_startup_needs c lead trim video audio :
  startupInvalid (setIdentities video audio (setTrim trim (plannedStartup c lead))) = false ->
  40000000 < lead /\ 0 < ca_maximumGap c < 500000000.
Proof.
  unfold startupInvalid. intros H. repeat (apply orb_false_iff in H as [H ?]).
  match goal with
  | X : both Z.geb (su_maximumInitialSkewNs _) (su_outputLeadNs _) = false,
    Y : both Z.geb (su_maximumGapNs _) (su_prerollNs _) = false, P : negb (positive (su_maximumGapNs _)) = false |- _ => clear - X Y P;
      cbn in X, Y, P; rewrite Z.geb_leb, Z.leb_gt in X, Y; apply negb_false_iff, Z.ltb_lt in P; unfold Millisecond in *; lia
  end.
Qed.

Lemma planned_servo_needs rate : servoInvalid (plannedServo rate) plannedRecovery = false -> rate <= 384000.
Proof.
  unfold servoInvalid. intros H. repeat (apply orb_false_iff in H as [H ?]).
  match goal with X : holds _ (sp_outputSampleRate _) = false |- _ => clear - X; cbn in X end.
  unfold MediaAudioDriftServoLimits.MaximumOutputSampleRate in *. rewrite Z.gtb_ltb, Z.ltb_ge in *. done.
Qed.

Lemma planned_video_ok : videoInvalid plannedVideo = false.
Proof. reflexivity. Qed.

Lemma planned_recovery_ok : recoveryInvalid plannedVideo plannedRecovery = false.
Proof. reflexivity. Qed.

Lemma planned_metrics_ok : metricsInvalid plannedMetrics = false.
Proof. reflexivity. Qed.

(** A request for separate RTP streams whose payload types and clock rates are
    given. *)
Record rtpRequest (request : Request) (videoType videoRate audioType audioRate : Z) : Prop := {
  rr_identity : rq_mediaId request <> EmptyString;
  rr_input : rq_inputType request = Some RtpPort;
  rr_streams : rq_audioVideo request = true;
  rr_output : rq_rtpAvpOutput request = true;
  rr_video : rq_videoRtp request = mkStreamRequest (Some videoType) (Some videoRate);
  rr_audio : rq_audioRtp request = mkStreamRequest (Some audioType) (Some audioRate);
  rr_types : 0 <= videoType <= 127 /\ 0 <= audioType <= 127;
  rr_rates : 0 < videoRate /\ 0 < audioRate;
}.

Lemma named_text (identity suffix : string) : identity <> EmptyString -> identity +:+ suffix <> EmptyString.
Proof. by destruct identity. Qed.

Lemma presentText_some s : s <> EmptyString -> presentText (Some s) = true.
Proof. intros H. cbn. by rewrite negb_true_iff, String.eqb_neq. Qed.

Lemma stableSsrc_positive identity : 0 < stableFfmpegMuxSsrc identity.
Proof.
  unfold stableFfmpegMuxSsrc. cbv zeta. destruct (Z.eqb_spec (Z.land (stableNumeric identity) 0x7fffffff) 0); [lia |].
  assert (0 <= Z.land (stableNumeric identity) 0x7fffffff); [| lia]. apply Z.land_nonneg. by right.
Qed.

(** The input and the output of the planned RTP session. *)
Definition plannedRtpInput (request : Request) (videoType videoRate audioType audioRate : Z) : MediaAvSyncRtpInputPlan :=
  mkRtpInput
    (mkInputStream (Some (rq_mediaId request +:+ ".input.video")) (Some videoType) (Some videoRate))
    (mkInputStream (Some (rq_mediaId request +:+ ".input.audio")) (Some audioType) (Some audioRate))
    (mkInputPolicy EarliestLockedSenderReportSourceTime PlannedStreamPair (Some ReducedSizeRfc5506)
       (Some 9000000000) (Some true) (Some 7000000000) (Some 9000000000) (Some FailOnDegraded) (Some FailOnExpired)
       (Some 50000000) (Some 1000) (Some 250000000)).

Lemma planRtpInput_ok request vt vr at_ ar : rtpRequest request vt vr at_ ar ->
  planRtpInput request = Success (plannedRtpInput request vt vr at_ ar).
Proof. intros []. unfold planRtpInput. by rewrite rr_video0, rr_audio0. Qed.

Lemma input_stream_ok identity suffix type rate : identity <> EmptyString -> 0 <= type <= 127 -> 0 < rate ->
  validRtpInputStream (mkInputStream (Some (identity +:+ suffix)) (Some type) (Some rate)) = true.
Proof.
  intros Hi Ht Hr. unfold validRtpInputStream, validPayloadType. cbn [is_identity is_payloadType is_clockRate].
  rewrite presentText_some by by apply named_text. cbn [present holds positive andb].
  rewrite !andb_true_iff, Z.geb_leb, !Z.leb_le, Z.ltb_lt. lia.
Qed.

Lemma output_stream_ok identity suffix type rate base cname : identity <> EmptyString -> 0 <= type <= 127 -> 0 < rate ->
  cname <> EmptyString ->
  validRtpOutputStream (mkOutputStream (Some (identity +:+ suffix)) (Some type) (Some rate)
    (Some (stableFfmpegMuxSsrc (identity +:+ suffix))) (Some base) (Some cname)) = true.
Proof.
  intros Hi Ht Hr Hc. unfold validRtpOutputStream, validPayloadType.
  cbn [ot_identity ot_payloadType ot_clockRate ot_ssrc ot_baseTimestamp ot_cname].
  pose proof (stableSsrc_positive (identity +:+ suffix)).
  rewrite !presentText_some by first [by apply named_text | done]. cbn [present holds positive andb].
  rewrite !andb_true_iff, Z.geb_leb, !Z.leb_le, !Z.ltb_lt. lia.
Qed.

(** The plan of such a request. *)
Definition plannedRtp (request : Request) (videoType videoRate audioType audioRate : Z) (c : MediaRealtimeMediaCapacityPlan)
  (lead : Z) (trim : bool) (rate : Z) : Plan :=
  planRtpOutput request rate
    (setInput RtpSenderReports OptionalExactWhenPresent
       (setIdentities (Some (rq_mediaId request +:+ ".input.video")) (Some (rq_mediaId request +:+ ".input.audio"))
          (setTrim trim (plannedStartup c lead)))
       (Some (plannedRtpInput request videoType videoRate audioType audioRate)) None None
       (setServo (plannedServo rate) (planSharedNonStartupPolicy (emptyPlan (setTrim trim (plannedStartup c lead)))))).

(** The hash identities of the two outputs do not collide. *)
Definition distinctSsrcs (request : Request) : Prop :=
  stableFfmpegMuxSsrc (rq_mediaId request +:+ ".output.video") <> stableFfmpegMuxSsrc (rq_mediaId request +:+ ".output.audio").

Section Planned.
Context (request : Request) (videoType videoRate audioType audioRate : Z) (c : MediaRealtimeMediaCapacityPlan).
Context (units unitBytes bytes lead rate : Z) (trim : bool).
Context (Hrequest : rtpRequest request videoType videoRate audioType audioRate) (Hcapacity : capacityOk c units unitBytes bytes).
Context (Hlead : 40000000 < lead) (Hrate : 0 < rate <= 384000).

Notation planned := (plannedRtp request videoType videoRate audioType audioRate c lead trim rate).

Lemma planned_shared_ok : validateShared planned false = Success tt.
Proof.
  unfold validateShared, plannedRtp, planRtpOutput, setInput, setServo, planSharedNonStartupPolicy.
  cbn [pl_sourceClockMode pl_controlGenerationPolicy pl_masterClockMode pl_canonicalTimeBaseNumerator pl_canonicalTimeBaseDenominator
       pl_startup pl_audioServo pl_video pl_recovery pl_metrics present negb holds positive].
  rewrite planned_servo_ok by done. rewrite (planned_startup_ok c units unitBytes bytes); [reflexivity | done | done |..].
  - by apply named_text, Hrequest.
  - by apply named_text, Hrequest.
  - by intros ?%(inj _).
Qed.

Lemma planned_input_ok : validateInputClock planned = Success tt.
Proof.
  change (validateRtpInput planned = Success tt).
  unfold validateRtpInput, plannedRtp, planRtpOutput, setInput.
  cbn [pl_rtpInput pl_mpegTsInput pl_demuxTimestampInput pl_sourceClockMode pl_controlGenerationPolicy pl_recovery present holds].
  unfold plannedRtpInput. cbn [ri_videoInput ri_audioInput ri_input].
  destruct Hrequest. destruct rr_types0, rr_rates0. by rewrite !input_stream_ok.
Qed.

Lemma planned_output_ok : validateOutput planned = Success tt <-> distinctSsrcs request.
Proof.
  change (validateRtpOutput planned = Success tt <-> distinctSsrcs request).
  unfold validateRtpOutput, plannedRtp, planRtpOutput. cbn [pl_rtpOutput pl_projectMpegTsOutput setInput setServo planSharedNonStartupPolicy emptyPlan].
  cbn [ro_videoOutput ro_audioOutput ro_useSharedNtpEpoch ot_ssrc ot_cname both holds id negb].
  rewrite !output_stream_ok by first [done | lia | by destruct Hrequest].
  rewrite String.eqb_refl. cbn [negb orb]. rewrite !orb_false_r. unfold distinctSsrcs.
  destruct (Z.eqb_spec (stableFfmpegMuxSsrc (rq_mediaId request +:+ ".output.video"))
    (stableFfmpegMuxSsrc (rq_mediaId request +:+ ".output.audio"))) as [E | E].
  - split; [by intros []%failure_not | done].
  - done.
Qed.

Lemma planned_policy_iff : validatePolicy planned = Success tt <-> distinctSsrcs request.
Proof.
  unfold validatePolicy. cbn [validateInOrder foldr]. rewrite planned_shared_ok, planned_input_ok, <- planned_output_ok.
  by destruct (validateOutput planned) as [[] | ?].
Qed.

End Planned.

(** What the validation of the plan needs, whatever the request. *)
Lemma planned_policy_needs request videoType videoRate audioType audioRate c lead trim rate :
  validatePolicy (plannedRtp request videoType videoRate audioType audioRate c lead trim rate) = Success tt ->
  40000000 < lead /\ 0 < ca_maximumGap c < 500000000 /\ rate <= 384000.
Proof.
  unfold validatePolicy. cbn [validateInOrder foldr]. destruct (validateShared _ _) as [u | e] eqn:E; [| done].
  intros _. revert E. unfold validateShared, plannedRtp, planRtpOutput, setInput, setServo, planSharedNonStartupPolicy.
  cbn [pl_sourceClockMode pl_controlGenerationPolicy pl_masterClockMode pl_canonicalTimeBaseNumerator pl_canonicalTimeBaseDenominator
       pl_startup pl_audioServo pl_video pl_recovery present negb holds positive].
  change (negb (bool_decide (SteadyMonotonic = SteadyMonotonic))) with false.
  change (negb (0 <? 1) || negb (0 <? 1000000000)) with false. cbn iota.
  destruct (startupInvalid _) eqn:Es; [by intros []%failure_not |].
  destruct (servoInvalid _ _) eqn:Ev; [by intros []%failure_not |]. intros _.
  destruct (planned_startup_needs _ _ _ _ _ Es). split_and!; [lia | lia | lia | by apply planned_servo_needs].
Qed.

Lemma planSeparate_planned request videoType videoRate audioType audioRate c units unitBytes bytes lead rate mode :
  rtpRequest request videoType videoRate audioType audioRate -> capacitySound c units unitBytes bytes ->
  0 < rate -> mode <> DropBranch ->
  planSeparate request None None (Success c) lead mode rate =
  match validatePolicy (plannedRtp request videoType videoRate audioType audioRate c lead (bool_decide (mode = TranscodeFrame)) rate) with
  | Failure e => failure e
  | Success _ => Success (plannedRtp request videoType videoRate audioType audioRate c lead (bool_decide (mode = TranscodeFrame)) rate)
  end.
Proof.
  intros Hq Hc Hr Hm. pose proof (planRtpInput_ok _ _ _ _ _ Hq) as Hi. destruct Hq. unfold planSeparate.
  rewrite (proj2 (String.eqb_neq _ _)) by done. rewrite rr_streams0, rr_output0. cbn [negb].
  rewrite (proj2 (Z.leb_gt _ _)) by lia.
  assert (Hb : bool_decide (mode <> CopyPacket) && bool_decide (mode <> TranscodeFrame) = false) by by destruct mode.
  rewrite Hb. unfold startupPlan. cbn [negb]. cbn. rewrite (makePolicy_ok c units unitBytes bytes) by done. cbn.
  unfold planInput. rewrite rr_input0, Hi. reflexivity.
Qed.

(** A plan has a sample rate and an executed audio branch. *)
Lemma planSeparate_needs request videoType videoRate audioType audioRate c lead rate mode p :
  rtpRequest request videoType videoRate audioType audioRate -> planSeparate request None None c lead mode rate = Success p ->
  0 < rate /\ mode <> DropBranch.
Proof.
  intros Hq. destruct Hq. unfold planSeparate. rewrite (proj2 (String.eqb_neq _ _)) by done. rewrite rr_streams0. cbn [negb].
  destruct (Z.leb_spec rate 0); [by intros []%failure_not |]. destruct mode; cbn; [by intros []%failure_not | by split | by split].
Qed.

(** ** The correction timing *)

Lemma failure_is {A} (e : ErrorInfo) : exists e', failure e = Failure e' :> Result A.
Proof. unfold failure. destruct (ErrorInfo_ok e); eauto. Qed.

(** Closes a branch that fails. *)
Ltac no_success :=
  cbn [bindResult];
  repeat match goal with |- context [@failure ?A ?e] => destruct (failure_is (A := A) e) as [? ->]; cbn [bindResult] end; done.

Lemma checkedAdd_ok left right owner total : checkedAdd left right owner = Success total ->
  0 <= left /\ 0 <= right /\ total = left + right /\ total <= int64_max.
Proof.
  unfold checkedAdd.
  destruct (Z.ltb_spec left 0); [by intros []%failure_not |].
  destruct (Z.ltb_spec right 0); [by intros []%failure_not |].
  destruct (Z.ltb_spec (int64_max - right) left); [by intros []%failure_not |].
  intros [= <-]. lia.
Qed.

(** The least duration that covers a number of samples. *)
Definition durationOf (samples rate : Z) : Z := (samples * 1000000000 + rate - 1) / rate.

Lemma samplesToRunningTime_ok samples rate t : rate <= 384000 -> samplesToRunningTime samples rate = Success t ->
  0 < samples /\ 0 < rate /\ t = durationOf samples rate.
Proof.
  intros Hr. unfold samplesToRunningTime.
  destruct (Z.leb_spec samples 0); [by intros []%failure_not |].
  destruct (Z.leb_spec rate 0); [by intros []%failure_not |].
  destruct (Z.ltb_spec (Z.quot (int64_max - rate + 1) 1000000000) samples) as [| Hs]; [by intros []%failure_not |].
  cbn [orb]. intros [= <-]. rewrite Z.quot_div_nonneg in Hs by (ranges; lia).
  pose proof (Z.mul_div_le (int64_max - rate + 1) 1000000000 ltac:(lia)).
  assert (samples * 1000000000 + rate - 1 <= int64_max) by lia.
  assert (samples <= 9223372036) by (clear -H0 H2; unfold int64_max in *; lia).
  clear Hs H1 H2. rewrite (i64_small (samples * 1000000000)), (i64_small (_ + rate)), i64_small by (ranges; lia).
  rewrite Z.quot_div_nonneg by lia. done.
Qed.

Lemma durationOf_bounds samples rate : 0 < rate ->
  samples * 1000000000 <= durationOf samples rate * rate < samples * 1000000000 + rate.
Proof.
  intros Hr. unfold durationOf.
  pose proof (Z.div_mod (samples * 1000000000 + rate - 1) rate ltac:(lia)).
  pose proof (Z.mod_pos_bound (samples * 1000000000 + rate - 1) rate ltac:(lia)). lia.
Qed.

Lemma correctionTimes_ok samples block rate lead window filter : rate <= 384000 ->
  correctionTimes samples block rate = Success (lead, window, filter) ->
  0 < samples /\ 0 < rate /\ 0 <= block /\ lead = durationOf samples rate /\ window = durationOf (samples + block) rate /\
  filter = window + 1000000000 /\ filter <= 60000000000.
Proof.
  intros Hr. unfold correctionTimes.
  destruct (samplesToRunningTime samples rate) as [lead' |] eqn:E1; [| no_success].
  destruct (checkedAdd samples block _) as [total |] eqn:E2; cbn [bindResult]; [| no_success].
  destruct (samplesToRunningTime total rate) as [window' |] eqn:E3; cbn [bindResult]; [| no_success].
  destruct (checkedAdd window' 1000000000 _) as [filter' |] eqn:E4; cbn [bindResult]; [| no_success].
  destruct (Z.ltb_spec 60000000000 filter'); [no_success |].
  intros [= <- <- <-].
  apply samplesToRunningTime_ok in E1 as (? & ? & ->); [| done]. apply checkedAdd_ok in E2 as (? & ? & -> & ?).
  apply samplesToRunningTime_ok in E3 as (? & ? & ->); [| done]. apply checkedAdd_ok in E4 as (? & ? & -> & ?).
  done.
Qed.

(** A gap of one second is exactly one rate of samples. *)
Lemma second_samples rate : 0 < rate <= 384000 -> runningTimeToSamples 1000000000 rate = Success rate.
Proof.
  intros Hr. unfold runningTimeToSamples. rewrite (proj2 (Z.leb_gt rate 0)) by lia.
  change (1000000000 <=? 0) with false. cbn [orb].
  rewrite (proj2 (Z.ltb_ge _ _)).
  - rewrite (i64_small (1000000000 * rate)), (i64_small (_ + 1000000000)), i64_small by (ranges; lia).
    rewrite Z.quot_div_nonneg by lia. f_equal.
    symmetry. apply (Z.div_unique _ _ _ 999999999); lia.
  - rewrite Z.quot_div_nonneg by (ranges; lia). apply Z.div_le_lower_bound; ranges; lia.
Qed.

(** The lead of the measurements, for the gap and the limit of the plan. *)
Lemma measurement_lead rate lead : 0 < rate <= 384000 -> measurementLeadOf 1000000000 5000 rate = Success lead ->
  lead = rate + (rate * 5000 + 999999) / 1000000.
Proof.
  intros Hr. unfold measurementLeadOf. rewrite second_samples by done.
  change (5000 <=? 0) with false. rewrite (proj2 (Z.eqb_neq rate int64_max)) by (ranges; lia).
  destruct (_ <? rate); cbn [orb]; [by intros []%failure_not |].
  rewrite (i64_small (rate * 5000)), i64_small by (ranges; lia). rewrite Z.quot_div_nonneg by lia.
  destruct (checkedAdd _ _ _) eqn:E; [| by intros []%failure_not]. destruct (_ =? _); [by intros []%failure_not |].
  intros [= <-]. by apply checkedAdd_ok in E as (_ & _ & -> & _).
Qed.

(** What a successful computation gives. *)
Lemma planReachability_ok rate block facts r : 0 < rate <= 384000 ->
  pf_outputSampleRate facts = Some rate -> pf_maximumResamplerOutputBlockSamples facts = Some block ->
  planReachability (plannedServo rate) facts = Success r ->
  let samples := ra_commandLeadSamples (rr_correction r) in
  rate + (rate * 5000 + 999999) / 1000000 < samples /\ 0 <= block /\
  rr_commandLead r = durationOf samples rate /\ rr_compensationWindow r = durationOf (samples + block) rate /\
  rr_frequencyFilterTimeConstant r = rr_compensationWindow r + 1000000000 /\
  rr_frequencyFilterTimeConstant r <= 60000000000.
Proof.
  intros Hr Er Eb. unfold planReachability.
  destruct facts as [r0 [?|] [?|] [?|] [?|] [?|] [?|] [?|] [?|] b0 [?|]]; cbn in Er, Eb; subst r0 b0; try (by intros []%failure_not).
  destruct (sumLoop _ 0) as [worst |]; cbn; [| no_success].
  destruct (checkedAdd worst _ _) as [q1 |]; cbn; [| no_success].
  destruct (checkedAdd q1 block _) as [q2 |] eqn:E2; cbn; [| no_success].
  destruct (Z.eqb_spec q2 int64_max); [no_success |].
  apply checkedAdd_ok in E2 as (? & ? & -> & ?).
  change (1 * Second) with 1000000000. change Second with 1000000000.
  destruct (measurementLeadOf 1000000000 5000 rate) as [ml |] eqn:Em; cbn; [| no_success].
  apply measurement_lead in Em as ->; [| done].
  assert (Hd : 0 <= (rate * 5000 + 999999) / 1000000 <= 384000).
  { split; [apply Z.div_pos | apply Z.div_le_upper_bound]; lia. }
  destruct (correctionTimes _ block rate) as [[[lead window] filter] |] eqn:Et; cbn; [| no_success].
  apply correctionTimes_ok in Et as (? & ? & ? & -> & -> & -> & ?); [| lia].
  intros [= <-]. cbn. pose proof (i64_small (rate + (rate * 5000 + 999999) / 1000000 + 1) ltac:(ranges; lia)) as E. rewrite E in *.
  split_and!; try done. lia.
Qed.

(** The timing that covers [samples] and a block more. *)
Record timingOf (rate samples block lead window filter : Z) : Prop := {
  tm_samples : rate + (rate * 5000 + 999999) / 1000000 < samples;
  tm_block : 0 <= block;
  tm_lead : lead = durationOf samples rate;
  tm_window : window = durationOf (samples + block) rate;
  tm_filter : filter = window + 1000000000;
  tm_limit : filter <= 60000000000;
}.

Definition timedServo (rate lead window filter : Z) : MediaAvSyncAudioServoPolicy :=
  finalizeServo (mkReachabilityResult (mkReachability 0 0 0 0 0 0 0 0) lead window filter) (plannedServo rate).

Lemma finalized_timed r rate : finalizeServo r (plannedServo rate) =
  timedServo rate (rr_commandLead r) (rr_compensationWindow r) (rr_frequencyFilterTimeConstant r).
Proof. reflexivity. Qed.

Lemma timed_servo_ok rate lead window filter : 0 < rate <= 384000 ->
  servoInvalid (timedServo rate lead window filter) plannedRecovery = false.
Proof. apply planned_servo_ok. Qed.

Lemma worst_gap rate : 0 < rate <= 384000 ->
  MediaAudioDriftServoPolicyValidator.gapSamples 1000000000 rate 5000 = rate + (rate * 5000 + 999999) / 1000000.
Proof.
  intros Hr. unfold MediaAudioDriftServoPolicyValidator.gapSamples. symmetry.
  pose proof (Z.div_mod (rate * 5000 + 999999) 1000000 ltac:(lia)).
  pose proof (Z.mod_pos_bound (rate * 5000 + 999999) 1000000 ltac:(lia)).
  eapply (Z.div_unique _ _ _ (1000000000 * rate * 1005000 + 999999999999999 - 1000000000000000 * (rate + (rate * 5000 + 999999) / 1000000))); lia.
Qed.

Section Timing.
Context (rate samples block lead window filter : Z) (Hrate : 0 < rate <= 384000).
Context (Ht : timingOf rate samples block lead window filter).

Lemma timing_bounds : samples * 1000000000 <= lead * rate < samples * 1000000000 + rate /\
  (samples + block) * 1000000000 <= window * rate < (samples + block) * 1000000000 + rate /\
  rate < samples /\ 1000000000 < lead <= window /\ window <= 59000000000.
Proof.
  destruct Ht. subst. pose proof (durationOf_bounds samples rate ltac:(lia)) as B1.
  pose proof (durationOf_bounds (samples + block) rate ltac:(lia)) as B2.
  assert (0 <= (rate * 5000 + 999999) / 1000000) by (apply Z.div_pos; lia).
  assert (durationOf samples rate <= durationOf (samples + block) rate).
  { unfold durationOf. apply Z.div_le_mono; lia. }
  split_and!; try lia. nia.
Qed.

Lemma timing_order : lead < window <-> 0 < block.
Proof.
  destruct timing_bounds as (B1 & B2 & _). destruct Ht as [_ Hb El Ew _ _]. split; intros H.
  - destruct (decide (block = 0)) as [-> |]; [| lia]. rewrite Z.add_0_r in Ew. lia.
  - nia.
Qed.

Lemma timing_samples : lead * rate / 1000000000 = samples /\ window * rate / 1000000000 = samples + block.
Proof.
  destruct timing_bounds as (B1 & B2 & _). split; symmetry.
  - apply (Z.div_unique _ _ _ (lead * rate - samples * 1000000000)); lia.
  - apply (Z.div_unique _ _ _ (window * rate - (samples + block) * 1000000000)); lia.
Qed.

(** The lead, rounded up to samples, is the planned one where a nanosecond
    count expresses it, and one more elsewhere. *)
Lemma timing_lead : MediaAudioQuantizerSafety.leadSamplesOf lead rate =
  samples + (if bool_decide ((samples * 1000000000) mod rate = 0) then 0 else 1).
Proof.
  destruct timing_bounds as (B1 & _). destruct Ht as [_ _ El _ _ _].
  unfold MediaAudioQuantizerSafety.leadSamplesOf. symmetry.
  case_bool_decide as Hd.
  - assert (E : lead * rate = samples * 1000000000).
    { apply Z.mod_divide in Hd as [k Hk]; [| lia]. subst lead. unfold durationOf. rewrite Hk.
      f_equal. symmetry. apply (Z.div_unique _ _ _ (rate - 1)); lia. }
    apply (Z.div_unique _ _ _ 999999999); lia.
  - assert (E : lead * rate <> samples * 1000000000).
    { intros E. apply Hd. rewrite <- E. apply Z.mod_mul. lia. }
    apply (Z.div_unique _ _ _ (lead * rate - samples * 1000000000 - 1)); lia.
Qed.

End Timing.

Section Created.
Context (rate samples block lead window filter : Z) (Hrate : 0 < rate <= 384000).
Context (Ht : timingOf rate samples block lead window filter).

Lemma timing_covers : MediaAudioDriftServoPolicyValidator.leadCoversWorstPositiveGap lead 1000000000 rate 5000 = true.
Proof.
  destruct (timing_bounds _ _ _ _ _ _ Hrate Ht) as (_ & _ & _ & ? & ?).
  destruct (timing_samples _ _ _ _ _ _ Hrate Ht) as [E _]. destruct Ht as [? _ _ _ _ _].
  apply MediaAudioDriftServoPolicyValidator.lead_covers_exact; [ranges; lia.. |].
  rewrite worst_gap by done. rewrite E.
  unfold MediaAudioDriftServoLimits.MaximumPolicyDurationNs, MediaAudioDriftServoLimits.MaximumMeasurementGapNs,
    MediaAudioDriftServoLimits.MaximumOutputSampleRate. lia.
Qed.

Lemma timing_product : windowProduct window rate = window * rate /\ 1000000000 <= window * rate <= 22656000000000000.
Proof.
  destruct (timing_bounds _ _ _ _ _ _ Hrate Ht) as (_ & _ & _ & ? & ?).
  assert (1000000000 <= window * rate <= 22656000000000000) by nia. split; [| done].
  unfold windowProduct. apply i64_small. ranges; lia.
Qed.

Lemma timing_servo : timingInvalid (timedServo rate lead window filter) = false <-> 0 < block.
Proof.
  destruct (timing_bounds _ _ _ _ _ _ Hrate Ht) as (_ & _ & Hs & Hl & Hw). pose proof timing_product as [Ep Bp].
  rewrite <- (timing_order _ _ _ _ _ _ Hrate Ht). destruct Ht as [_ _ _ _ Ef Hf].
  unfold timingInvalid, timedServo, finalizeServo, plannedServo, setSampleRate, planServo, Second.
  cbn [sp_frequencyFilterTimeConstantNs sp_compensationWindowNs sp_commandLeadNs sp_maximumMeasurementGapNs sp_outputSampleRate
       sp_recoveryCorrectionLimitPpm rr_commandLead rr_compensationWindow rr_frequencyFilterTimeConstant].
  rewrite timing_covers. unfold MediaAudioDriftServoLimits.NanosecondsPerSecond, MediaAudioDriftServoLimits.MaximumPolicyDurationNs.
  cbn [both]. rewrite Ep. rewrite (Z.quot_div_nonneg (window * rate)) by lia.
  assert (Hq : window * rate / 1000000000 <= int32_max) by (apply Z.div_le_upper_bound; ranges; lia).
  assert (Hm : window <= Z.quot (int64_max - 1000000000) rate).
  { rewrite Z.quot_div_nonneg by (ranges; lia). apply Z.div_le_lower_bound; ranges; lia. }
  split.
  - rewrite !orb_false_iff. intros H. destruct_and! H.
    match goal with E : (lead >=? window) = false |- _ => rewrite Z.geb_leb, Z.leb_gt in E; exact E end.
  - intros Hlw. pass_condition.
Qed.

Lemma timed_resolve : MediaAudioDriftServo.resolve (timedServo rate lead window filter) 250000000 =
  Some (MediaAudioDriftServo.mkPolicy 1000000 250000000 filter 20000 1000 2000 1 1 10 10000 500 10000000 1000000000 100 1000 5000
    100000000 50000000 500000000 window lead rate 2 250000000).
Proof. reflexivity. Qed.

Lemma timing_created mode generation : 0 < generation -> 0 < block ->
  (exists s, MediaAudioDriftServo.create mode (timedServo rate lead window filter) 250000000 generation = inl s) <->
  2 <= block \/ (samples * 1000000000) mod rate = 0.
Proof.
  intros Hg Hb. pose proof (proj2 timing_servo Hb) as Hti.
  destruct (finalized_policy _ plannedRecovery generation (timed_servo_ok rate lead window filter Hrate) Hti Hg)
    as (hard & p & Eh & Er & Ev & Hl & Hr & Hw & Hp1 & Hp2).
  change (Some 250000000 = Some hard) in Eh. injection Eh as <-.
  rewrite timed_resolve in Er. injection Er as <-.
  destruct (timing_bounds _ _ _ _ _ _ Hrate Ht) as (_ & _ & _ & ? & ?).
  rewrite (created_iff _ _ _ _ _ Ev timed_resolve); [| | done | done | done | done | done].
  - cbn. rewrite (timing_lead _ _ _ _ _ _ Hrate Ht). destruct (timing_samples _ _ _ _ _ _ Hrate Ht) as [_ ->].
    case_bool_decide; lia.
  - unfold MediaAudioServoSafety.policyTyped. cbn. ranges. lia.
Qed.

End Created.

Lemma shared_finalized plan mode policy :
  pl_sourceClockMode plan = Some mode -> pl_controlGenerationPolicy plan = Some policy ->
  pl_masterClockMode plan = Some SteadyMonotonic -> pl_canonicalTimeBaseNumerator plan = Some 1 ->
  pl_canonicalTimeBaseDenominator plan = Some 1000000000 -> startupInvalid (pl_startup plan) = false ->
  servoInvalid (pl_audioServo plan) (pl_recovery plan) = false -> videoInvalid (pl_video plan) = false ->
  recoveryInvalid (pl_video plan) (pl_recovery plan) = false -> metricsInvalid (pl_metrics plan) = false ->
  validateShared plan true = Success tt <-> timingInvalid (pl_audioServo plan) = false.
Proof.
  intros E1 E2 E3 E4 E5 E6 E7 E8 E9 E10. unfold validateShared.
  rewrite E1, E2, E3, E4, E5, E6, E7, E8, E9, E10. cbn [present negb holds positive].
  change (bool_decide (SteadyMonotonic = SteadyMonotonic)) with true.
  change (negb (0 <? 1) || negb (0 <? 1000000000)) with false. cbn [negb andb].
  destruct (timingInvalid _); [split; [unfold invalid; no_success | done] | done].
Qed.

(** The validation of the finalised plan. *)
Lemma finalized_valid request vt vr at_ ar c units unitBytes bytes lead rate trim samples block commandLead window filter :
  rtpRequest request vt vr at_ ar -> capacityOk c units unitBytes bytes -> 40000000 < lead -> 0 < rate <= 384000 ->
  distinctSsrcs request -> timingOf rate samples block commandLead window filter ->
  validate (setServo (timedServo rate commandLead window filter) (plannedRtp request vt vr at_ ar c lead trim rate)) = Success tt
  <-> 0 < block.
Proof.
  intros Hq Hc Hl Hr Hd Ht.
  rewrite <- (timing_servo _ _ _ _ _ _ Hr Ht).
  set (p := plannedRtp request vt vr at_ ar c lead trim rate).
  assert (Ei : validateInputClock (setServo (timedServo rate commandLead window filter) p) = Success tt).
  { exact (planned_input_ok request vt vr at_ ar c lead rate trim Hq). }
  assert (Eo : validateOutput (setServo (timedServo rate commandLead window filter) p) = Success tt).
  { exact (proj2 (planned_output_ok request vt vr at_ ar c lead rate trim Hq Hr) Hd). }
  unfold validate. cbn [validateInOrder foldr]. rewrite Ei, Eo. clear Ei Eo.
  rewrite <- (shared_finalized (setServo (timedServo rate commandLead window filter) p) RtpSenderReports OptionalExactWhenPresent);
    [| reflexivity.. | | | reflexivity | reflexivity | reflexivity].
  - destruct (validateShared _ _) as [[] |]; [done | split; done].
  - exact (planned_startup_ok c units unitBytes bytes lead trim _ _ Hc Hl (named_text _ ".input.video" (rr_identity _ _ _ _ _ Hq))
      (named_text _ ".input.audio" (rr_identity _ _ _ _ _ Hq)) ltac:(by intros ?%(inj _))).
  - exact (timed_servo_ok rate commandLead window filter Hr).
Qed.

(** C36: A request for separate RTP streams with its payload types, its clock
    rates and a sound capacity gets a plan, and that plan passes the validation,
    exactly when the identifiers hashed for its two outputs differ, the sender's
    lead is above the initial skew of 40 ms, the maximal gap is positive and
    below the preroll of 500 ms, the output sample rate is between 1 and 384000,
    and the audio branch copies or transcodes. *)
Theorem planned_separate_accepted request videoType videoRate audioType audioRate c units unitBytes bytes lead rate mode :
  rtpRequest request videoType videoRate audioType audioRate -> capacitySound c units unitBytes bytes ->
  (exists p, planSeparate request None None (Success c) lead mode rate = Success p /\ validatePolicy p = Success tt) <->
  distinctSsrcs request /\ 40000000 < lead /\ 0 < ca_maximumGap c < 500000000 /\ 0 < rate <= 384000 /\ mode <> DropBranch.
Proof.
  intros Hq Hc. split.
  - intros (p & Hp & Hv). destruct (planSeparate_needs _ _ _ _ _ _ _ _ _ _ Hq Hp) as [Hr Hm].
    rewrite (planSeparate_planned _ _ _ _ _ _ _ _ _ _ _ _ Hq Hc Hr Hm) in Hp.
    destruct (validatePolicy (plannedRtp _ _ _ _ _ _ _ _ _)) as [[] | e] eqn:E; [| by apply failure_not in Hp].
    destruct (planned_policy_needs _ _ _ _ _ _ _ _ _ E) as (Hl & Hg & Hr').
    split; [| split_and!; (done || lia)].
    by apply (planned_policy_iff request videoType videoRate audioType audioRate c units unitBytes bytes lead rate
      (bool_decide (mode = TranscodeFrame)) Hq (Build_capacityOk _ _ _ _ Hc Hg) Hl (conj Hr Hr')).
  - intros (Hd & Hl & Hg & Hr & Hm). rewrite (planSeparate_planned _ _ _ _ _ _ _ _ _ _ _ _ Hq Hc (proj1 Hr) Hm).
    apply (planned_policy_iff request videoType videoRate audioType audioRate c units unitBytes bytes lead rate
      (bool_decide (mode = TranscodeFrame)) Hq (Build_capacityOk _ _ _ _ Hc Hg) Hl Hr) in Hd. rewrite Hd. eauto.
Qed.

(** C26: The correction timing computed for such a plan finalises it: the plan is
    then valid exactly when the resampler emits at least one sample at a time,
    and of a valid plan the servo is created exactly when it emits at least two,
    or the lead is a whole number of nanoseconds. *)
Theorem planned_correction_creates request videoType videoRate audioType audioRate c units unitBytes bytes lead rate generation
    p facts block r :
  rtpRequest request videoType videoRate audioType audioRate -> capacityOk c units unitBytes bytes -> 40000000 < lead ->
  0 < rate <= 384000 -> 0 < generation ->
  planSeparate request None None (Success c) lead TranscodeFrame rate = Success p ->
  pf_outputSampleRate facts = Some rate -> pf_maximumResamplerOutputBlockSamples facts = Some block ->
  planReachability (pl_audioServo p) facts = Success r ->
  let servo := finalizeServo r (pl_audioServo p) in
  (validate (setServo servo p) = Success tt <-> 0 < block) /\
  (0 < block ->
   (exists s, MediaAudioDriftServo.create RtpSenderReports servo 250000000 generation = inl s) <->
   2 <= block \/ (ra_commandLeadSamples (rr_correction r) * 1000000000) mod rate = 0).
Proof.
  intros Hq Hc Hl Hr Hg Hp Er Eb Hreach.
  rewrite (planSeparate_planned _ _ _ _ _ _ _ _ _ _ _ TranscodeFrame Hq (cok_sound _ _ _ _ Hc) (proj1 Hr) ltac:(discriminate)) in Hp.
  destruct (validatePolicy _) as [[] | e] eqn:Ev; [| by apply failure_not in Hp].
  apply (planned_policy_iff request _ _ _ _ c units unitBytes bytes lead rate _ Hq Hc Hl Hr) in Ev. injection Hp as <-.
  change (pl_audioServo _) with (plannedServo rate) in *.
  destruct (planReachability_ok rate block facts r Hr Er Eb Hreach) as (H1 & H2 & H3 & H4 & H5 & H6).
  assert (Ht : timingOf rate (ra_commandLeadSamples (rr_correction r)) block (rr_commandLead r) (rr_compensationWindow r)
    (rr_frequencyFilterTimeConstant r)) by done.
  cbv zeta. rewrite finalized_timed. split.
  - exact (finalized_valid _ _ _ _ _ _ _ _ _ _ _ _ _ _ _ _ _ Hq Hc Hl Hr Ev Ht).
  - exact (timing_created _ _ _ _ _ _ Hr Ht RtpSenderReports generation Hg).
Qed.

Lemma example_request : rtpRequest exampleRequest 96 90000 97 48000.
Proof. by constructor. Qed.

Lemma example_capacity : capacityOk exampleCapacity 64 4096 65536.
Proof. by constructor; [constructor |]; cbn; ranges; lia || split_and!. Qed.

Lemma example_distinct : distinctSsrcs exampleRequest.
Proof. vm_compute. discriminate. Qed.

Lemma planned_separate_accepted_witness : distinctSsrcs exampleRequest /\
  exists p, planSeparate exampleRequest None None (Success exampleCapacity) 200000000 CopyPacket 44100 = Success p /\
    validatePolicy p = Success tt.
Proof.
  split; [exact example_distinct |].
  apply (planned_separate_accepted exampleRequest 96 90000 97 48000 exampleCapacity 64 4096 65536 200000000 44100 CopyPacket
    example_request (cok_sound _ _ _ _ example_capacity)). split; [exact example_distinct |]. vm_compute; repeat split; discriminate.
Defined.

Lemma planned_correction_creates_witness : exists r servo s,
  planReachability (pl_audioServo examplePolicyPlan) exampleFacts = Success r /\
  servo = finalizeServo r (pl_audioServo examplePolicyPlan) /\
  validate (setServo servo examplePolicyPlan) = Success tt /\
  MediaAudioDriftServo.create RtpSenderReports servo 250000000 7 = inl s.
Proof.
  assert (Hp : planSeparate exampleRequest None None (Success exampleCapacity) 200000000 TranscodeFrame 48000 =
    Success examplePolicyPlan) by (vm_compute; reflexivity).
  assert (Hr : resultOk (planReachability (pl_audioServo examplePolicyPlan) exampleFacts) = true) by (vm_compute; reflexivity).
  destruct (planReachability (pl_audioServo examplePolicyPlan) exampleFacts) as [r |] eqn:E; [| discriminate].
  destruct (planned_correction_creates exampleRequest 96 90000 97 48000 exampleCapacity 64 4096 65536 200000000 48000 7
    examplePolicyPlan exampleFacts 1024 r example_request example_capacity ltac:(lia) ltac:(lia) ltac:(lia) Hp eq_refl eq_refl E)
    as [Hv Hc].
  destruct (proj2 (Hc ltac:(lia)) ltac:(lia)) as [s Es].
  exists r, (finalizeServo r (pl_audioServo examplePolicyPlan)), s. split; [reflexivity |]. split; [reflexivity |]. split; [exact (proj2 Hv ltac:(lia)) | exact Es].
Defined.

End MediaAvSyncPlanned.
