(* ===== verification/TsOutputClock.v ===== *)
(** * The output clock of a transport stream

    Models [protocol/mpegts/MediaTsOutputClockGenerator.{h,cpp}]: decode and
    presentation timestamps of access units and the samples of the programme
    clock, all of one affine map from the master clock, handed out in two-phase
    transactions (prepare, then commit or drop).

    The control state the generator shares with its prepared transactions has an
    address; a transaction remembers the address of its owner.  Moving a
    transaction object away and destroying it are [cancelPacket] and
    [cancelPcr]. *)

From stdpp Require Import sets sorting.
From S2P Require Import Prelude MediaResult CheckedArithmetic TsPes TimeBase CanonicalTime AudioGrid.
Import MediaTsPes MediaCheckedArithmetic MediaRunningTime.

Local Open Scope Z_scope.
Local Open Scope result_scope.

Module MediaTsOutputClockGenerator.

(** ** State *)

#[global] Instance scheduledStream_eq_dec : EqDecision MediaScheduledStream.
Proof. solve_decision. Defined.

Record MediaTsOutputClockPolicy := mkClockPolicy {
  cp_pcrInterval : Z;
  cp_maximumPcrGap : Z;
  cp_maximumPcrJitter : Z;
  cp_timestampTimeBaseNumerator : Z;
  cp_timestampTimeBaseDenominator : Z;
}.

Record MediaProtocolOutputActivation := mkActivation {
  ac_sourceStart : Z;
  ac_masterRelease : Z;
  ac_generation : Z;
  ac_completedTransitionSequence : option Z;
}.

Record MediaTsPcrClock := mkPcrClock {
  pr_generation : Z;
  pr_masterTime : Z;
  pr_extended27Mhz : Z;
  pr_wire27Mhz : Z;
}.

(** [MediaTsOutputClockControlState]. *)
Record Control := mkControl {
  ct_lastVideoExtendedDts : option Z;
  ct_lastAudioExtendedDts : option Z;
  ct_lastPcrMasterTime : option Z;
  ct_nextPacketRevision : Z;
  ct_pendingPacketRevision : Z;
  ct_nextPcrRevision : Z;
  ct_pendingPcrRevision : Z;
}.

Record MediaTsPreparedPacketClock := mkPreparedPacket {
  pp_owner : Z;
  pp_revision : Z;
  pp_stream : MediaScheduledStream;
  pp_clock : MediaTsPacketClock;
  pp_valid : bool;
}.

Record MediaTsPreparedPcrClock := mkPreparedPcr {
  pc_owner : Z;
  pc_revision : Z;
  pc_clock : MediaTsPcrClock;
  pc_valid : bool;
}.

Record Generator := mkGenerator {
  og_policy : MediaTsOutputClockPolicy;
  og_activation : MediaProtocolOutputActivation;
  og_pcrOrigin : Z;
  og_address : Z;
  og_control : Control;
}.

Definition setControl (c : Control) (g : Generator) : Generator :=
  mkGenerator (og_policy g) (og_activation g) (og_pcrOrigin g) (og_address g) c.

Definition setPacket (video audio : option Z) (next pending : Z) (c : Control) : Control :=
  mkControl video audio (ct_lastPcrMasterTime c) next pending (ct_nextPcrRevision c) (ct_pendingPcrRevision c).

Definition setPcr (last : option Z) (next pending : Z) (c : Control) : Control :=
  mkControl (ct_lastVideoExtendedDts c) (ct_lastAudioExtendedDts c) last (ct_nextPacketRevision c) (ct_pendingPacketRevision c)
    next pending.

(** ** Arithmetic *)

Definition NanosecondsPerSecond : Z := 1000000000.
Definition TimestampModulus : Z := Z.shiftl 1 33.
Definition PcrModulus : Z := u64 (TimestampModulus * 300).

Definition checkedScaleNanoseconds (nanoseconds ticksPerSecond : Z) : Result Z :=
  let seconds := Z.quot nanoseconds NanosecondsPerSecond in
  let remainder := Z.rem nanoseconds NanosecondsPerSecond in
  if (Z.quot int64_max ticksPerSecond <? seconds) || (seconds <? Z.quot int64_min ticksPerSecond)
  then failure (invalidArgument "MPEG-TS timestamp scale overflow")
  else
    let whole := i64 (seconds * ticksPerSecond) in
    let scaledRemainder := i64 (remainder * ticksPerSecond) in
    let rounding := if 0 <=? scaledRemainder then Z.quot NanosecondsPerSecond 2 else - Z.quot NanosecondsPerSecond 2 in
    let fraction := Z.quot (i64 (scaledRemainder + rounding)) NanosecondsPerSecond in
    if ((0 <? fraction) && (i64 (int64_max - fraction) <? whole)) || ((fraction <? 0) && (whole <? i64 (int64_min - fraction)))
    then failure (invalidArgument "MPEG-TS timestamp addition overflow")
    else Success (i64 (whole + fraction)).

Definition magnitude (value : Z) : Z := if 0 <=? value then value else u64 (u64 (- (value + 1)) + 1).

Definition positiveModulo (value modulus : Z) : Z :=
  if 0 <=? value then value mod modulus
  else
    let remainder := magnitude value mod modulus in
    if remainder =? 0 then 0 else u64 (modulus - remainder).

Definition absoluteDistance (lhs rhs : Z) : Z :=
  let lhsMagnitude := magnitude lhs in
  let rhsMagnitude := magnitude rhs in
  if Bool.eqb (lhs <? 0) (rhs <? 0)
  then if rhsMagnitude <=? lhsMagnitude then lhsMagnitude - rhsMagnitude else rhsMagnitude - lhsMagnitude
  else u64 (lhsMagnitude + rhsMagnitude).

Definition invalid {A} (reason : string) : Result A := failure (invalidArgument ("MPEG-TS output clock " +:+ reason)).

(** ** Operations *)

Definition emptyControl : Control := mkControl None None None 1 0 1 0.

Definition create (policy : MediaTsOutputClockPolicy) (activation : MediaProtocolOutputActivation) (pcrOrigin address : Z)
  : Result Generator :=
  if (cp_pcrInterval policy <=? 0) || (cp_maximumPcrGap policy <=? cp_pcrInterval policy) ||
     (cp_maximumPcrJitter policy <=? 0) || (cp_pcrInterval policy <=? cp_maximumPcrJitter policy) ||
     negb (cp_timestampTimeBaseNumerator policy =? 1) || negb (cp_timestampTimeBaseDenominator policy =? 90000) ||
     (ac_generation activation =? 0) || (ac_masterRelease activation <? pcrOrigin)
  then invalid "policy is incomplete or unsupported"
  else Success (mkGenerator policy activation pcrOrigin address emptyControl).

Definition validateGeneration (generation : Z) (g : Generator) : Status :=
  if generation =? ac_generation (og_activation g) then Success tt else invalid "generation does not match playback epoch".

Definition outputNanoseconds (masterTime : Z) (g : Generator) : Result Z :=
  let* delta := checkedSubtract masterTime (ac_masterRelease (og_activation g)) in
  checkedAdd (ac_sourceStart (og_activation g)) delta.

Definition timestampTicks (masterTime : Z) (g : Generator) : Result Z :=
  let* nanoseconds := outputNanoseconds masterTime g in checkedScaleNanoseconds nanoseconds 90000.

Definition pcrTicks (masterTime : Z) (g : Generator) : Result Z :=
  let* nanoseconds := outputNanoseconds masterTime g in checkedScaleNanoseconds nanoseconds 27000000.

Definition lastExtendedDts (stream : MediaScheduledStream) (c : Control) : option Z :=
  match stream with Scheduled_Video => ct_lastVideoExtendedDts c | Scheduled_Audio => ct_lastAudioExtendedDts c end.

Definition exhausted (pending next : Z) : bool := negb (pending =? 0) || (next =? 0) || (next =? uint64_max).

Definition preparePacket (generation : Z) (stream : MediaScheduledStream)
  (presentationOnMaster dispatchOnMaster emitOnMaster transportDecodeLead : Z) (g : Generator)
  : Result MediaTsPreparedPacketClock * Generator :=
  let c := og_control g in
  match validateGeneration generation g with
  | Failure e => (failure e, g)
  | Success _ =>
      if match checkedSubtract dispatchOnMaster emitOnMaster with
         | Failure _ => true
         | Success actualLead => (transportDecodeLead <=? 0) || negb (actualLead =? transportDecodeLead)
         end
      then (invalid "dispatch-to-emission lead differs from transport plan", g)
      else
        match timestampTicks presentationOnMaster g, timestampTicks dispatchOnMaster g with
        | Failure e, _ => (failure e, g)
        | _, Failure e => (failure e, g)
        | Success pts, Success dts =>
            if pts <? dts then (invalid "decode timestamp exceeds presentation timestamp", g)
            else if match lastExtendedDts stream c with Some last => dts <? last | None => false end
            then (invalid "decode timeline regressed", g)
            else if exhausted (ct_pendingPacketRevision c) (ct_nextPacketRevision c)
            then (invalid "already has a pending transaction or exhausted revisions", g)
            else
              let revision := ct_nextPacketRevision c in
              (Success (mkPreparedPacket (og_address g) revision stream
                 (mkPacketClock pts dts (positiveModulo pts TimestampModulus) (positiveModulo dts TimestampModulus)) true),
               setControl (setPacket (ct_lastVideoExtendedDts c) (ct_lastAudioExtendedDts c) (u64 (revision + 1)) revision c) g)
        end
  end.

Definition dropPacket (p : MediaTsPreparedPacketClock) : MediaTsPreparedPacketClock :=
  mkPreparedPacket (pp_owner p) (pp_revision p) (pp_stream p) (pp_clock p) false.

(** [cancel], of the destructor and the move assignment. *)
Definition cancelPacket (p : MediaTsPreparedPacketClock) (g : Generator) : MediaTsPreparedPacketClock * Generator :=
  let c := og_control g in
  if negb (pp_valid p) then (p, g)
  else if (pp_owner p =? og_address g) && (ct_pendingPacketRevision c =? pp_revision p)
  then (dropPacket p, setControl (setPacket (ct_lastVideoExtendedDts c) (ct_lastAudioExtendedDts c) (ct_nextPacketRevision c) 0 c) g)
  else (dropPacket p, g).

Definition commitPacket (p : MediaTsPreparedPacketClock) (g : Generator) : Status * (MediaTsPreparedPacketClock * Generator) :=
  let c := og_control g in
  if negb (pp_valid p) || negb (pp_owner p =? og_address g) || negb (ct_pendingPacketRevision c =? pp_revision p)
  then (invalid "packet transaction token is stale or foreign", (p, g))
  else
    let dts := Some (extendedDts (pp_clock p)) in
    let c :=
      match pp_stream p with
      | Scheduled_Video => setPacket dts (ct_lastAudioExtendedDts c) (ct_nextPacketRevision c) 0 c
      | Scheduled_Audio => setPacket (ct_lastVideoExtendedDts c) dts (ct_nextPacketRevision c) 0 c
      end in
    (Success tt, (dropPacket p, setControl c g)).

Definition preparePcr (generation exactDeadline : Z) (g : Generator) : Result MediaTsPreparedPcrClock * Generator :=
  let c := og_control g in
  match validateGeneration generation g with
  | Failure e => (failure e, g)
  | Success _ =>
      if exhausted (ct_pendingPcrRevision c) (ct_nextPcrRevision c)
      then (invalid "already has a pending transaction or exhausted revisions", g)
      else
        let expected :=
          match ct_lastPcrMasterTime c with
          | Some last => checkedAdd last (cp_pcrInterval (og_policy g))
          | None => Success (og_pcrOrigin g)
          end in
        match expected with
        | Failure e => (failure e, g)
        | Success expected =>
            if negb (exactDeadline =? expected) then (invalid "PCR deadline is not the next planned sample", g)
            else
              match pcrTicks exactDeadline g with
              | Failure e => (failure e, g)
              | Success extended =>
                  let revision := ct_nextPcrRevision c in
                  (Success (mkPreparedPcr (og_address g) revision
                     (mkPcrClock generation exactDeadline extended (positiveModulo extended PcrModulus)) true),
                   setControl (setPcr (ct_lastPcrMasterTime c) (u64 (revision + 1)) revision c) g)
              end
        end
  end.

Definition dropPcr (p : MediaTsPreparedPcrClock) : MediaTsPreparedPcrClock :=
  mkPreparedPcr (pc_owner p) (pc_revision p) (pc_clock p) false.

Definition cancelPcr (p : MediaTsPreparedPcrClock) (g : Generator) : MediaTsPreparedPcrClock * Generator :=
  let c := og_control g in
  if negb (pc_valid p) then (p, g)
  else if (pc_owner p =? og_address g) && (ct_pendingPcrRevision c =? pc_revision p)
  then (dropPcr p, setControl (setPcr (ct_lastPcrMasterTime c) (ct_nextPcrRevision c) 0 c) g)
  else (dropPcr p, g).

Definition commitPcr (p : MediaTsPreparedPcrClock) (g : Generator) : Status * (MediaTsPreparedPcrClock * Generator) :=
  let c := og_control g in
  if negb (pc_valid p) || negb (pc_owner p =? og_address g) || negb (ct_pendingPcrRevision c =? pc_revision p)
  then (invalid "PCR transaction token is stale or foreign", (p, g))
  else (Success tt, (dropPcr p, setControl (setPcr (Some (pr_masterTime (pc_clock p))) (ct_nextPcrRevision c) 0 c) g)).

Definition validateSerializedPcr (planned : MediaTsPcrClock) (serializedExtended27Mhz : Z) (g : Generator) : Status :=
  let* _ := validateGeneration (pr_generation planned) g in
  if match checkedSubtract (pr_masterTime planned) (og_pcrOrigin g) with
     | Failure _ => true
     | Success elapsed => (elapsed <? 0) || negb (Z.rem elapsed (cp_pcrInterval (og_policy g)) =? 0)
     end
  then invalid "serialized PCR sample is outside the planned cadence"
  else if match pcrTicks (pr_masterTime planned) g with
          | Failure _ => true
          | Success expected =>
              negb (pr_extended27Mhz planned =? expected) || negb (pr_wire27Mhz planned =? positiveModulo expected PcrModulus)
          end
  then invalid "serialized PCR sample identity is invalid"
  else
    let delta := absoluteDistance serializedExtended27Mhz (pr_extended27Mhz planned) in
    let* tolerance := checkedScaleNanoseconds (cp_maximumPcrJitter (og_policy g)) 27000000 in
    if delta <=? u64 tolerance then Success tt else invalid "serialized PCR exceeds planned jitter".

(** ** Exactness *)

Lemma scale_guard rate w : 0 < rate < 2 ^ 31 ->
  (Z.quot int64_max rate <? w) || (w <? Z.quot int64_min rate) = negb (isInt64 (w * rate)).
Proof.
  intros Hr. rewrite <- MediaAudioSampleGrid.seconds_guard by done.
  assert (0 <= Z.quot int64_max rate) by (apply Z.quot_pos; ranges; lia).
  assert (Z.quot int64_min rate <= 0).
  { unfold int64_min. rewrite Z.quot_opp_l by lia. assert (0 <= Z.quot (2 ^ 63) rate) by (apply Z.quot_pos; lia). lia. }
  destruct (Z.ltb_spec (Z.quot int64_max rate) w), (Z.ltb_spec w (Z.quot int64_min rate)), (Z.ltb_spec 0 w), (Z.ltb_spec w 0);
    cbn [andb orb]; try reflexivity; lia.
Qed.

(** Scaling is rounding to the nearest tick, as in the sample grid. *)
Lemma scale_quantize ns rate : 0 < rate < 2 ^ 31 -> is_i 64 ns ->
  match MediaAudioSampleGrid.quantize rate ns MediaAudioSampleGrid.Nearest with
  | Success t => checkedScaleNanoseconds ns rate = Success t
  | Failure _ => resultOk (checkedScaleNanoseconds ns rate) = false
  end.
Proof.
  intros Hr Hn. unfold checkedScaleNanoseconds, MediaAudioSampleGrid.quantize, NanosecondsPerSecond. cbv zeta.
  rewrite MediaAudioSampleGrid.seconds_guard, scale_guard by done.
  destruct (negb (isInt64 _)); [done |].
  assert (E : MediaAudioSampleGrid.fractionalSamplesOf (i64 (Z.rem ns 1000000000 * rate)) MediaAudioSampleGrid.Nearest =
    Z.quot (i64 (i64 (Z.rem ns 1000000000 * rate) +
      (if 0 <=? i64 (Z.rem ns 1000000000 * rate) then Z.quot 1000000000 2 else - Z.quot 1000000000 2))) 1000000000).
  { unfold MediaAudioSampleGrid.fractionalSamplesOf. cbv zeta. by destruct (0 <=? _). }
  rewrite E. by destruct (_ || _).
Qed.

Lemma scale_exact ns rate t : 0 < rate < 2 ^ 31 -> is_i 64 ns ->
  checkedScaleNanoseconds ns rate = Success t <->
  is_i 64 (roundNearest (ns * rate) 1000000000) /\ t = roundNearest (ns * rate) 1000000000.
Proof.
  intros Hr Hn. pose proof (scale_quantize ns rate Hr Hn) as H.
  rewrite MediaAudioSampleGrid.quantize_exact in H by done. cbv zeta in H. cbn [MediaAudioSampleGrid.exactSamples] in H.
  rewrite <- isInt64_spec. destruct (isInt64 (roundNearest (ns * rate) 1000000000)).
  - rewrite H. split; [by intros [= <-] | by intros [_ ->]].
  - cbn in H. destruct (checkedScaleNanoseconds ns rate); [done |]. split; [done | by intros []].
Qed.

Lemma outputMagnitude_abs z : is_i 64 z -> magnitude z = Z.abs z.
Proof.
  intros Hz. unfold magnitude. destruct (Z.leb_spec 0 z); [lia |].
  unfold u64. rewrite (Z.mod_small (- (z + 1))), Z.mod_small by (ranges; lia). lia.
Qed.

Lemma positiveModulo_exact z m : is_i 64 z -> 0 < m < 2 ^ 63 -> positiveModulo z m = z mod m.
Proof.
  intros Hz Hm. unfold positiveModulo. destruct (Z.leb_spec 0 z); [done |].
  rewrite outputMagnitude_abs, Z.abs_neq by (done || lia).
  destruct (Z.eqb_spec (- z mod m) 0) as [E | E].
  - symmetry. rewrite <- (Z.opp_involutive z). apply Z.mod_opp_l_z; [lia | exact E].
  - pose proof (Z.mod_opp_l_nz (- z) m ltac:(lia) E) as Hn. rewrite Z.opp_involutive in Hn. rewrite Hn.
    pose proof (Z.mod_pos_bound (- z) m ltac:(lia)). unfold u64. apply Z.mod_small. lia.
Qed.

Lemma absoluteDistance_exact x y : is_i 64 x -> is_i 64 y -> absoluteDistance x y = Z.abs (x - y).
Proof.
  intros Hx Hy. unfold absoluteDistance. rewrite !outputMagnitude_abs by done.
  destruct (Z.ltb_spec x 0), (Z.ltb_spec y 0); cbn [Bool.eqb];
    try (destruct (Z.leb_spec (Z.abs y) (Z.abs x)); lia); unfold u64; rewrite Z.mod_small by (ranges; lia); lia.
Qed.

(** The ticks of a master time, for an activation. *)
Definition ticksAt (a : MediaProtocolOutputActivation) (rate masterTime : Z) : Z :=
  roundNearest ((ac_sourceStart a + (masterTime - ac_masterRelease a)) * rate) 1000000000.

Definition activationTyped (a : MediaProtocolOutputActivation) : Prop :=
  is_i 64 (ac_sourceStart a) /\ is_i 64 (ac_masterRelease a).

Lemma outputNanoseconds_ok g t ns : activationTyped (og_activation g) -> is_i 64 t -> outputNanoseconds t g = Success ns ->
  ns = ac_sourceStart (og_activation g) + (t - ac_masterRelease (og_activation g)) /\ is_i 64 ns.
Proof.
  intros [Ha Hb] Ht. unfold outputNanoseconds. rewrite checkedSubtract_exact by done.
  destruct (isInt64 (t - _)) eqn:E1; cbn [bindResult]; [| by intros []%failure_not].
  apply isInt64_spec in E1. rewrite checkedAdd_exact by done.
  destruct (isInt64 (_ + _)) eqn:E2; [| by intros []%failure_not]. apply isInt64_spec in E2. by intros [= <-].
Qed.

Lemma ticks_ok g rate t ticks : 0 < rate < 2 ^ 31 -> activationTyped (og_activation g) -> is_i 64 t ->
  (let* ns := outputNanoseconds t g in checkedScaleNanoseconds ns rate) = Success ticks ->
  ticks = ticksAt (og_activation g) rate t /\ is_i 64 ticks.
Proof.
  intros Hr Ha Ht H. destruct (outputNanoseconds t g) as [ns |] eqn:E; cbn [bindResult] in H; [| by apply failure_not in H].
  apply outputNanoseconds_ok in E as [-> Hn]; [| done..]. by apply scale_exact in H as [Hi ->].
Qed.

(** ** Histories

    The outstanding transactions and what was committed.  A transaction that is
    no longer valid changes nothing ([stale_commit_rejected]), and a second one
    is refused while one is pending, so one place for each kind suffices. *)

Record PacketRequest := mkPacketRequest {
  rq_presentation : Z;
  rq_dispatch : Z;
  rq_emit : Z;
}.

Record World := mkWorld {
  wd_generator : Generator;
  wd_packet : option (MediaTsPreparedPacketClock * PacketRequest);
  wd_pcr : option MediaTsPreparedPcrClock;
  wd_committed : list (MediaScheduledStream * PacketRequest * MediaTsPacketClock);
  wd_samples : list MediaTsPcrClock;
}.

Inductive ClockCall :=
  | Call_PreparePacket (generation : Z) (stream : MediaScheduledStream) (presentation dispatch emit lead : Z)
  | Call_CommitPacket
  | Call_DropPacket
  | Call_PreparePcr (generation deadline : Z)
  | Call_CommitPcr
  | Call_DropPcr.

Definition callTyped (c : ClockCall) : Prop :=
  match c with
  | Call_PreparePacket _ _ presentation dispatch emit _ => is_i 64 presentation /\ is_i 64 dispatch /\ is_i 64 emit
  | Call_PreparePcr _ deadline => is_i 64 deadline
  | _ => True
  end.

Definition step (w : World) (c : ClockCall) : World :=
  match c with
  | Call_PreparePacket generation stream presentation dispatch emit lead =>
      match preparePacket generation stream presentation dispatch emit lead (wd_generator w) with
      | (Success p, g) => mkWorld g (Some (p, mkPacketRequest presentation dispatch emit)) (wd_pcr w) (wd_committed w) (wd_samples w)
      | (Failure _, g) => mkWorld g (wd_packet w) (wd_pcr w) (wd_committed w) (wd_samples w)
      end
  | Call_CommitPacket =>
      match wd_packet w with
      | Some (p, request) =>
          match commitPacket p (wd_generator w) with
          | (Success _, (_, g)) =>
              mkWorld g None (wd_pcr w) (wd_committed w ++ [(pp_stream p, request, pp_clock p)]) (wd_samples w)
          | (Failure _, (p, g)) => mkWorld g (Some (p, request)) (wd_pcr w) (wd_committed w) (wd_samples w)
          end
      | None => w
      end
  | Call_DropPacket =>
      match wd_packet w with
      | Some (p, _) => mkWorld (cancelPacket p (wd_generator w)).2 None (wd_pcr w) (wd_committed w) (wd_samples w)
      | None => w
      end
  | Call_PreparePcr generation deadline =>
      match preparePcr generation deadline (wd_generator w) with
      | (Success p, g) => mkWorld g (wd_packet w) (Some p) (wd_committed w) (wd_samples w)
      | (Failure _, g) => mkWorld g (wd_packet w) (wd_pcr w) (wd_committed w) (wd_samples w)
      end
  | Call_CommitPcr =>
      match wd_pcr w with
      | Some p =>
          match commitPcr p (wd_generator w) with
          | (Success _, (_, g)) => mkWorld g (wd_packet w) None (wd_committed w) (wd_samples w ++ [pc_clock p])
          | (Failure _, (p, g)) => mkWorld g (wd_packet w) (Some p) (wd_committed w) (wd_samples w)
          end
      | None => w
      end
  | Call_DropPcr =>
      match wd_pcr w with
      | Some p => mkWorld (cancelPcr p (wd_generator w)).2 (wd_packet w) None (wd_committed w) (wd_samples w)
      | None => w
      end
  end.

Definition run (calls : list ClockCall) (w : World) : World := foldl step w calls.

Definition started (g : Generator) : World := mkWorld g None None [] [].

Lemma stale_commit_rejected p g :
  pp_valid p = false \/ pp_owner p <> og_address g \/ ct_pendingPacketRevision (og_control g) <> pp_revision p ->
  resultOk (commitPacket p g).1 = false /\ (commitPacket p g).2 = (p, g).
Proof.
  unfold commitPacket. intros H.
  assert (E : negb (pp_valid p) || negb (pp_owner p =? og_address g) ||
    negb (ct_pendingPacketRevision (og_control g) =? pp_revision p) = true).
  { rewrite !orb_true_iff, !negb_true_iff, !Z.eqb_neq. tauto. }
  by rewrite E.
Qed.

(** The clock of an access unit, without rounding of the request. *)
Definition packetExact (a : MediaProtocolOutputActivation) (r : PacketRequest) (k : MediaTsPacketClock) : Prop :=
  extendedPts k = ticksAt a 90000 (rq_presentation r) /\ extendedDts k = ticksAt a 90000 (rq_dispatch r) /\
  wirePts k = extendedPts k mod 2 ^ 33 /\ wireDts k = extendedDts k mod 2 ^ 33 /\
  extendedDts k <= extendedPts k /\ rq_emit r < rq_dispatch r.

Definition pcrExact (g : Generator) (index : nat) (k : MediaTsPcrClock) : Prop :=
  pr_generation k = ac_generation (og_activation g) /\
  pr_masterTime k = og_pcrOrigin g + Z.of_nat index * cp_pcrInterval (og_policy g) /\
  pr_extended27Mhz k = ticksAt (og_activation g) 27000000 (pr_masterTime k) /\
  pr_wire27Mhz k = pr_extended27Mhz k mod (2 ^ 33 * 300) /\
  is_i 64 (pr_masterTime k) /\ is_i 64 (pr_extended27Mhz k) /\ pcrTicks (pr_masterTime k) g = Success (pr_extended27Mhz k).

(** The decode times of a stream, in the order of their commits. *)
Definition decodeTimes (stream : MediaScheduledStream) (committed : list (MediaScheduledStream * PacketRequest * MediaTsPacketClock)) : list Z :=
  (fun e => extendedDts e.2) <$> filter (fun e => e.1.1 = stream) committed.

#[local] Arguments decodeTimes : simpl never.

Record worldOk (w : World) : Prop := {
  wo_activation : activationTyped (og_activation (wd_generator w));
  wo_interval : 0 < cp_pcrInterval (og_policy (wd_generator w));
  wo_origin : is_i 64 (og_pcrOrigin (wd_generator w)) /\ is_i 64 (cp_pcrInterval (og_policy (wd_generator w)));
  wo_packetRevision : 1 <= ct_nextPacketRevision (og_control (wd_generator w)) <= uint64_max;
  wo_pcrRevision : 1 <= ct_nextPcrRevision (og_control (wd_generator w)) <= uint64_max;
  wo_packet : match wd_packet w with
    | Some (p, r) => pp_valid p = true /\ pp_owner p = og_address (wd_generator w) /\
        pp_revision p = ct_pendingPacketRevision (og_control (wd_generator w)) /\ pp_revision p <> 0 /\
        packetExact (og_activation (wd_generator w)) r (pp_clock p) /\
        (forall last, lastExtendedDts (pp_stream p) (og_control (wd_generator w)) = Some last -> last <= extendedDts (pp_clock p))
    | None => ct_pendingPacketRevision (og_control (wd_generator w)) = 0
    end;
  wo_pcr : match wd_pcr w with
    | Some p => pc_valid p = true /\ pc_owner p = og_address (wd_generator w) /\
        pc_revision p = ct_pendingPcrRevision (og_control (wd_generator w)) /\ pc_revision p <> 0 /\
        pcrExact (wd_generator w) (length (wd_samples w)) (pc_clock p)
    | None => ct_pendingPcrRevision (og_control (wd_generator w)) = 0
    end;
  wo_committed : Forall (fun e => packetExact (og_activation (wd_generator w)) e.1.2 e.2) (wd_committed w);
  wo_last : forall stream, lastExtendedDts stream (og_control (wd_generator w)) = last (decodeTimes stream (wd_committed w));
  wo_sorted : forall stream, StronglySorted Z.le (decodeTimes stream (wd_committed w));
  wo_samples : forall i k, wd_samples w !! i = Some k -> pcrExact (wd_generator w) i k;
  wo_lastPcr : ct_lastPcrMasterTime (og_control (wd_generator w)) = pr_masterTime <$> last (wd_samples w);
  wo_lastPcrTyped : forall t, ct_lastPcrMasterTime (og_control (wd_generator w)) = Some t -> is_i 64 t;
}.

Lemma decodeTimes_snoc stream l e :
  decodeTimes stream (l ++ [e]) = decodeTimes stream l ++ (if decide (e.1.1 = stream) then [extendedDts e.2] else []).
Proof. unfold decodeTimes. rewrite filter_app, fmap_app. f_equal. cbn. by destruct (decide _). Qed.

Lemma clockStarted_ok policy activation origin address g :
  create policy activation origin address = Success g -> activationTyped activation -> is_i 64 origin ->
  is_i 64 (cp_pcrInterval policy) -> worldOk (started g).
Proof.
  intros H Ha Ho Hi. unfold create, invalid in H. destruct (Z.leb_spec (cp_pcrInterval policy) 0); [by apply failure_not in H |].
  destruct (_ || _); [by apply failure_not in H |]. injection H as <-.
  constructor; cbn; try done; try (ranges; lia).
  - by intros [].
  - intros []; constructor.
Qed.

(** Each step keeps the invariant.  A refused call leaves everything as it
    was. *)
Ltac refused :=
  unfold invalid; match goal with |- context [failure ?e] => unfold failure; destruct (ErrorInfo_ok e); cbn end; assumption.

Lemma preparePacket_ok w generation stream presentation dispatch emit lead : worldOk w ->
  is_i 64 presentation -> is_i 64 dispatch -> is_i 64 emit ->
  worldOk (step w (Call_PreparePacket generation stream presentation dispatch emit lead)).
Proof.
  intros Hw Hp Hd He. destruct w as [g pk pr cm sm]. pose proof Hw as Hw0. destruct Hw. cbn in *. unfold preparePacket.
  destruct (validateGeneration generation g); [| refused].
  destruct (checkedSubtract dispatch emit) as [actual |] eqn:El; [| refused].
  rewrite checkedSubtract_exact in El by done. destruct (isInt64 (dispatch - emit)); [| by apply failure_not in El]. injection El as <-.
  destruct (Z.leb_spec lead 0); cbn [orb]; [refused |].
  destruct (Z.eqb_spec (dispatch - emit) lead); cbn [negb]; [| refused].
  destruct (timestampTicks presentation g) as [pts |] eqn:Ep; [| refused].
  destruct (timestampTicks dispatch g) as [dts |] eqn:Ed; [| refused].
  apply ticks_ok in Ep as [Ep Hpts]; [| lia | done | done]. apply ticks_ok in Ed as [Ed Hdts]; [| lia | done | done].
  destruct (Z.ltb_spec pts dts); [refused |].
  destruct (match lastExtendedDts stream (og_control g) with Some last => dts <? last | None => false end) eqn:Elast; [refused |].
  unfold exhausted. destruct (Z.eqb_spec (ct_pendingPacketRevision (og_control g)) 0); cbn [negb orb]; [| refused].
  destruct (Z.eqb_spec (ct_nextPacketRevision (og_control g)) 0); cbn [orb]; [lia |].
  destruct (Z.eqb_spec (ct_nextPacketRevision (og_control g)) uint64_max) as [| Hmax]; [refused |].
  constructor; cbn; try done.
  - unfold u64. rewrite Z.mod_small by (ranges; lia). ranges; lia.
  - split_and!; try done.
    + unfold packetExact. cbn. rewrite !positiveModulo_exact by (done || (cbn; lia)).
      split_and!; try done. lia.
    + intros last Hl. assert (E : lastExtendedDts stream (og_control g) = Some last) by by destruct stream.
      rewrite E in Elast. lia.
Qed.

Lemma commitPacket_ok w : worldOk w -> worldOk (step w Call_CommitPacket).
Proof.
  intros Hw. destruct w as [g [[p r] |] pr cm sm]; [| done]. destruct Hw. cbn in *.
  destruct wo_packet0 as (Hv & Ho & Hr & Hz & He & Hl). unfold commitPacket. rewrite Hv, Ho, <- Hr, !Z.eqb_refl. cbn [negb orb].
  constructor; cbn; try done; try by destruct (pp_stream p).
  - apply Forall_app. split; [done |]. by apply Forall_singleton.
  - intros stream. rewrite decodeTimes_snoc. cbn [fst snd]. specialize (wo_last0 stream).
    destruct (decide (pp_stream p = stream)) as [<- |].
    + rewrite last_snoc. by destruct (pp_stream p).
    + rewrite app_nil_r, <- wo_last0. by destruct stream, (pp_stream p).
  - intros stream. rewrite decodeTimes_snoc. cbn [fst snd]. destruct (decide (pp_stream p = stream)) as [<- |].
    + apply sorted_snoc; [done |]. by rewrite <- wo_last0.
    + by rewrite app_nil_r.
Qed.

Lemma dropPacket_ok w : worldOk w -> worldOk (step w Call_DropPacket).
Proof.
  intros Hw. destruct w as [g [[p r] |] pr cm sm]; [| done]. destruct Hw. cbn in *.
  destruct wo_packet0 as (Hv & Ho & Hr & _). unfold cancelPacket. rewrite Hv, Ho, <- Hr, !Z.eqb_refl. cbn.
  by constructor.
Qed.

Lemma preparePcr_ok w generation deadline : worldOk w -> is_i 64 deadline -> worldOk (step w (Call_PreparePcr generation deadline)).
Proof.
  intros Hw Ht. destruct w as [g pk pr cm sm]. pose proof Hw as Hw0. destruct Hw. cbn in *. unfold preparePcr, validateGeneration.
  destruct (Z.eqb_spec generation (ac_generation (og_activation g))) as [-> |]; cbn [invalid]; [| refused].
  unfold exhausted. destruct (Z.eqb_spec (ct_pendingPcrRevision (og_control g)) 0); cbn [negb orb]; [| refused].
  destruct (Z.eqb_spec (ct_nextPcrRevision (og_control g)) 0); cbn [orb]; [lia |].
  destruct (Z.eqb_spec (ct_nextPcrRevision (og_control g)) uint64_max); [refused |].
  destruct (match ct_lastPcrMasterTime (og_control g) with Some last => checkedAdd last (cp_pcrInterval (og_policy g))
    | None => Success (og_pcrOrigin g) end) as [expected |] eqn:Ee; [| refused].
  destruct (Z.eqb_spec deadline expected) as [-> |]; cbn [negb]; [| refused].
  destruct (pcrTicks expected g) as [ticks |] eqn:Et; [| refused]. pose proof Et as Et'. apply ticks_ok in Et as [Et Hti]; [| lia | done | done].
  assert (Hexp : expected = og_pcrOrigin g + Z.of_nat (length sm) * cp_pcrInterval (og_policy g)).
  { rewrite wo_lastPcr0 in Ee. destruct sm as [| k sm _] using rev_ind; [injection Ee as <-; cbn [length]; lia |].
    rewrite last_snoc in Ee, wo_lastPcr0. cbn in Ee, wo_lastPcr0.
    rewrite checkedAdd_exact in Ee by (exact (wo_lastPcrTyped0 _ wo_lastPcr0) || apply wo_origin0).
    destruct (isInt64 _); [| by apply failure_not in Ee]. injection Ee as <-.
    rewrite length_app. cbn [length].
    destruct (wo_samples0 (length sm) k) as (_ & -> & _); [by rewrite lookup_app_r, Nat.sub_diag by lia |]. lia. }
  constructor; cbn; try done.
  - unfold u64. rewrite Z.mod_small by (ranges; lia). ranges; lia.
  - split_and!; try done. unfold pcrExact. cbn. rewrite positiveModulo_exact by (done || (cbn; lia)). done.
Qed.

Lemma commitPcr_ok w : worldOk w -> worldOk (step w Call_CommitPcr).
Proof.
  intros Hw. destruct w as [g pk [p |] cm sm]; [| done]. destruct Hw. cbn in *.
  destruct wo_pcr0 as (Hv & Ho & Hr & Hz & He). unfold commitPcr. rewrite Hv, Ho, <- Hr, !Z.eqb_refl. cbn [negb orb].
  constructor; cbn; try done.
  - intros i k [H | [Hge H]]%lookup_app_Some; [by apply wo_samples0 |].
    apply list_lookup_singleton_Some in H as [Hi <-]. replace i with (length sm) by lia. done.
  - by rewrite last_snoc.
  - intros t [= <-]. by destruct He as (_ & _ & _ & _ & H & _).
Qed.

Lemma dropPcr_ok w : worldOk w -> worldOk (step w Call_DropPcr).
Proof.
  intros Hw. destruct w as [g pk [p |] cm sm]; [| done]. destruct Hw. cbn in *.
  destruct wo_pcr0 as (Hv & Ho & Hr & _). unfold cancelPcr. rewrite Hv, Ho, <- Hr, !Z.eqb_refl. cbn.
  by constructor.
Qed.

Lemma clockStep_ok w c : worldOk w -> callTyped c -> worldOk (step w c).
Proof.
  intros Hw Hc. destruct c.
  - destruct Hc as (? & ? & ?). by apply preparePacket_ok.
  - by apply commitPacket_ok.
  - by apply dropPacket_ok.
  - by apply preparePcr_ok.
  - by apply commitPcr_ok.
  - by apply dropPcr_ok.
Qed.

Lemma clockRun_ok calls w : worldOk w -> Forall callTyped calls -> worldOk (run calls w).
Proof.
  intros Hw Hc. revert w Hw. induction Hc as [| c calls Hc _ IH]; intros w Hw; [done |]. by apply IH, clockStep_ok.
Qed.

Definition createTyped (policy : MediaTsOutputClockPolicy) (activation : MediaProtocolOutputActivation) (origin : Z) : Prop :=
  activationTyped activation /\ is_i 64 origin /\ is_i 64 (cp_pcrInterval policy) /\ is_i 64 (cp_maximumPcrJitter policy).

Lemma same_control g : exists c, g = setControl c g.
Proof. exists (og_control g). by destruct g. Qed.

Lemma preparePacket_control generation stream presentation dispatch emit lead g :
  exists c, (preparePacket generation stream presentation dispatch emit lead g).2 = setControl c g.
Proof. unfold preparePacket. repeat case_match; cbn; first [apply same_control | by eexists]. Qed.

Lemma preparePcr_control generation deadline g : exists c, (preparePcr generation deadline g).2 = setControl c g.
Proof. unfold preparePcr. repeat case_match; cbn; first [apply same_control | by eexists]. Qed.

Lemma clockStep_same w c : og_policy (wd_generator (step w c)) = og_policy (wd_generator w) /\
  og_activation (wd_generator (step w c)) = og_activation (wd_generator w) /\
  og_pcrOrigin (wd_generator (step w c)) = og_pcrOrigin (wd_generator w).
Proof.
  destruct w as [g pk pr cm sm]. destruct c; cbn [step wd_packet wd_pcr wd_generator].
  - destruct (preparePacket_control generation stream presentation dispatch emit lead g) as [c E].
    destruct (preparePacket _ _ _ _ _ _ g) as [[p | e] g']; cbn in E |- *; by subst.
  - destruct pk as [[p r] |]; [| done]. unfold commitPacket. destruct (_ || _); [destruct (invalid _); done | by destruct (pp_stream p)].
  - destruct pk as [[p r] |]; [| done]. unfold cancelPacket. destruct (negb _); [done |]. by destruct (_ && _).
  - destruct (preparePcr_control generation deadline g) as [c E].
    destruct (preparePcr _ _ g) as [[p | e] g']; cbn in E |- *; by subst.
  - destruct pr as [p |]; [| done]. unfold commitPcr. destruct (_ || _); [destruct (invalid _); done | done].
  - destruct pr as [p |]; [| done]. unfold cancelPcr. destruct (negb _); [done |]. by destruct (_ && _).
Qed.

Lemma clockRun_same calls w : og_policy (wd_generator (run calls w)) = og_policy (wd_generator w) /\
  og_activation (wd_generator (run calls w)) = og_activation (wd_generator w) /\
  og_pcrOrigin (wd_generator (run calls w)) = og_pcrOrigin (wd_generator w).
Proof.
  revert w. induction calls as [| c calls IH]; intros w; [done |].
  change (run (c :: calls) w) with (run calls (step w c)). destruct (IH (step w c)) as (-> & -> & ->). apply clockStep_same.
Qed.

Lemma created_policy policy activation origin address g : create policy activation origin address = Success g ->
  og_policy g = policy /\ og_activation g = activation /\ og_pcrOrigin g = origin /\
  0 < cp_pcrInterval policy /\ 0 < cp_maximumPcrJitter policy.
Proof.
  unfold create. destruct (Z.leb_spec (cp_pcrInterval policy) 0); cbn [orb]; [by intros []%failure_not |].
  destruct (_ <=? cp_pcrInterval policy); cbn [orb]; [by intros []%failure_not |].
  destruct (Z.leb_spec (cp_maximumPcrJitter policy) 0); cbn [orb]; [by intros []%failure_not |].
  destruct (_ || _); [by intros []%failure_not |]. by intros [= <-].
Qed.

(** The world of a session, with what its creation fixed. *)
Lemma session_ok policy activation origin address g calls :
  create policy activation origin address = Success g -> createTyped policy activation origin -> Forall callTyped calls ->
  let w := run calls (started g) in
  worldOk w /\ og_policy (wd_generator w) = policy /\ og_activation (wd_generator w) = activation /\ og_pcrOrigin (wd_generator w) = origin.
Proof.
  intros Hc (Ha & Ho & Hi & _) Hcalls w. destruct (clockRun_same calls (started g)) as (Ep & Ea & Eo).
  destruct (created_policy _ _ _ _ _ Hc) as (E1 & E2 & E3 & _). cbn in Ea, Ep, Eo. rewrite E1 in Ep. rewrite E2 in Ea. rewrite E3 in Eo.
  split; [by apply clockRun_ok; [eapply clockStarted_ok |] | done].
Qed.

(** C22: Under every schedule of prepared, committed and dropped transactions the
    committed timestamps are the exact 90 kHz times of their access units on one
    affine map of the master clock, wrapped to 33 bits, decode before
    presentation and never going back within a stream, and the committed
    programme clock samples are the exact 27 MHz times of the origin and of
    every interval after it, without gap or repetition, on the same map. *)
Theorem output_clock_exact policy activation origin address g calls :
  create policy activation origin address = Success g -> createTyped policy activation origin -> Forall callTyped calls ->
  let w := run calls (started g) in
  Forall (fun e => packetExact activation e.1.2 e.2) (wd_committed w) /\
  (forall stream, StronglySorted Z.le (decodeTimes stream (wd_committed w))) /\
  (forall i k, wd_samples w !! i = Some k ->
     pr_masterTime k = origin + Z.of_nat i * cp_pcrInterval policy /\
     pr_extended27Mhz k = ticksAt activation 27000000 (pr_masterTime k) /\
     pr_wire27Mhz k = pr_extended27Mhz k mod (2 ^ 33 * 300)).
Proof.
  intros Hc Ht Hcalls w. destruct (session_ok _ _ _ _ _ calls Hc Ht Hcalls) as (Hw & Ep & Ea & Eo). fold w in Hw, Ep, Ea, Eo.
  destruct Hw. rewrite Ea in wo_committed0. split_and!; [done | done |].
  intros i k Hk. destruct (wo_samples0 i k Hk) as (_ & H1 & H2 & H3 & _). rewrite Eo, Ep in H1. rewrite Ea in H2. done.
Qed.

(** A serialised sample of a committed programme clock sample is accepted
    exactly when it is within the planned jitter of it, in whole ticks. *)
Theorem serialized_pcr_iff policy activation origin address g calls i k serialized :
  create policy activation origin address = Success g -> createTyped policy activation origin -> Forall callTyped calls ->
  wd_samples (run calls (started g)) !! i = Some k -> is_i 64 (pr_masterTime k - origin) -> is_i 64 serialized ->
  validateSerializedPcr k serialized (wd_generator (run calls (started g))) = Success tt <->
  Z.abs (serialized - pr_extended27Mhz k) <= roundNearest (cp_maximumPcrJitter policy * 27000000) 1000000000.
Proof.
  intros Hc (Ha & Ho & Hi & Hj) Hcalls Hk Ht Hs.
  destruct (created_policy _ _ _ _ _ Hc) as (E1 & E2 & E3 & Hint & Hjit).
  pose proof (clockRun_ok calls _ (clockStarted_ok _ _ _ _ _ Hc Ha Ho Hi) Hcalls) as Hw.
  destruct (clockRun_same calls (started g)) as (Ep & Ea & Eo). cbn in Ea, Ep, Eo. rewrite E1 in Ep. rewrite E2 in Ea. rewrite E3 in Eo.
  destruct (wo_samples _ Hw i k Hk) as (Hgen & H1 & H2 & H3 & H4 & H5 & H6). rewrite Eo, Ep in H1.
  set (g' := wd_generator (run calls (started g))) in *. clearbody g'. clear Hw Hk Hcalls.
  unfold validateSerializedPcr, validateGeneration. rewrite Hgen, Z.eqb_refl. cbn [bindResult].
  rewrite Eo, Ep, checkedSubtract_exact by done. rewrite (proj2 (isInt64_spec _) Ht).
  assert (Hrem : Z.rem (pr_masterTime k - origin) (cp_pcrInterval policy) = 0).
  { rewrite H1. replace (_ + _ - _) with (Z.of_nat i * cp_pcrInterval policy) by lia. apply Z.rem_mul. lia. }
  rewrite (proj2 (Z.ltb_ge _ _)) by (rewrite H1; nia). rewrite Hrem. cbn [orb negb Z.eqb].
  rewrite H6, H3, Z.eqb_refl, positiveModulo_exact by (done || (cbn; lia)).
  change PcrModulus with (2 ^ 33 * 300). rewrite Z.eqb_refl. cbn [negb orb].
  rewrite absoluteDistance_exact by done.
  pose proof (roundNearest_nonneg (cp_maximumPcrJitter policy * 27000000) 1000000000 ltac:(lia) ltac:(lia)) as Hn.
  assert (Hb : Z.abs (roundNearest (cp_maximumPcrJitter policy * 27000000) 1000000000) <= 2 ^ 63 - 1).
  { apply roundNearest_abs; [lia |]. clear - Hj Hjit. ranges. lia. }
  assert (Htol : is_i 64 (roundNearest (cp_maximumPcrJitter policy * 27000000) 1000000000)) by (clear - Hb; ranges; lia).
  rewrite (proj2 (scale_exact (cp_maximumPcrJitter policy) 27000000 _ ltac:(lia) Hj) (conj Htol eq_refl)).
  cbn [bindResult]. unfold u64. rewrite Z.mod_small by (ranges; lia).
  destruct (Z.leb_spec (Z.abs (serialized - pr_extended27Mhz k)) (roundNearest (cp_maximumPcrJitter policy * 27000000) 1000000000)).
  - done.
  - split; [by intros []%failure_not | lia].
Qed.

(** ** A session *)

Definition exampleClockPolicy : MediaTsOutputClockPolicy := mkClockPolicy 20000000 40000000 1000000 1 90000.
Definition exampleActivation : MediaProtocolOutputActivation := mkActivation 1000000000 5000000000 3 None.
Definition exampleGenerator : Generator := mkGenerator exampleClockPolicy exampleActivation 4900000000 7 emptyControl.
Definition exampleClockCalls : list ClockCall :=
  [Call_PreparePcr 3 4900000000; Call_CommitPcr; Call_PreparePacket 3 Scheduled_Video 5040000000 5000000000 4900000000 100000000;
   Call_PreparePcr 3 4920000000; Call_CommitPacket; Call_DropPcr; Call_PreparePcr 3 4920000000; Call_CommitPcr;
   Call_PreparePacket 3 Scheduled_Video 4990000000 4990000000 4890000000 100000000].

Lemma example_created : create exampleClockPolicy exampleActivation 4900000000 7 = Success exampleGenerator.
Proof. reflexivity. Qed.

Lemma example_typed : createTyped exampleClockPolicy exampleActivation 4900000000.
Proof. unfold createTyped, activationTyped. cbn. ranges. lia. Qed.

Lemma example_calls_typed : Forall callTyped exampleClockCalls.
Proof. unfold exampleClockCalls. repeat (apply Forall_cons; split); cbn; first [done | ranges; lia | by apply Forall_nil]. Qed.

Lemma output_clock_exact_witness :
  extendedDts <$> (snd <$> wd_committed (run exampleClockCalls (started exampleGenerator))) = [90000] /\
  StronglySorted Z.le (decodeTimes Scheduled_Video (wd_committed (run exampleClockCalls (started exampleGenerator)))) /\
  pr_masterTime <$> wd_samples (run exampleClockCalls (started exampleGenerator)) = [4900000000; 4920000000].
Proof.
  destruct (output_clock_exact _ _ _ _ _ exampleClockCalls example_created example_typed example_calls_typed) as (_ & Hs & _).
  split; [vm_compute; reflexivity |]. split; [apply Hs | vm_compute; reflexivity].
Defined.

Definition exampleSample : MediaTsPcrClock := mkPcrClock 3 4920000000 24840000 24840000.

Lemma serialized_pcr_iff_witness :
  validateSerializedPcr exampleSample 24867000 (wd_generator (run exampleClockCalls (started exampleGenerator))) = Success tt.
Proof.
  assert (Hk : wd_samples (run exampleClockCalls (started exampleGenerator)) !! 1%nat = Some exampleSample)
    by (vm_compute; reflexivity).
  apply (serialized_pcr_iff _ _ _ _ _ exampleClockCalls 1 exampleSample 24867000 example_created example_typed
    example_calls_typed Hk).
  - cbn. ranges. lia.
  - ranges. lia.
  - vm_compute. discriminate.
Defined.

End MediaTsOutputClockGenerator.
