(* ===== verification/TsEmission.v ===== *)
(** * The emission schedule of transport datagrams

    Models [planner/realtime/MediaTsDatagramEmissionPlan] and
    [protocol/mpegts/MediaTsDatagramEmissionSchedule.{h,cpp}]: one continuous
    timeline on which access units, and the maintenance groups (tables, clock
    samples) between or inside them, reserve their datagrams.

    The schedule object and its prepared emissions share a state with an
    address.  Moving from a schedule, after which every call fails, is not
    modelled. *)

From stdpp Require Import sets sorting pretty.
From S2P Require Import Prelude MediaResult CheckedArithmetic TsPes TsPsi TimeBase TsOutputClock.
Import MediaTsPes MediaTsMuxPlan MediaRunningTime.

Local Open Scope Z_scope.
Local Open Scope result_scope.

(** ** The plan *)

Module MediaTsDatagramEmissionPlan.

Record EmissionPlan := mkEmissionPlan {
  ep_accessUnitWindow : Z;
  ep_videoInitialServiceWindow : Z;
  ep_audioInitialServiceWindow : option Z;
  ep_targetServiceResidence : Z;
  ep_packetSizeBytes : Z;
  ep_maximumPayloadBytes : Z;
  ep_perDatagramOverheadBytes : Z;
  ep_maximumQueuedBytes : Z;
}.

Definition RtpHeaderBytes : Z := 12.

Definition createEmissionPlan (mux : MediaTsMuxPlanParameters) (videoAccessUnitCadence : Z)
  (audioAccessUnitCadence : option Z) (maximumQueuedBytes targetServiceResidence : Z) : Result EmissionPlan :=
  let maximumPayloadBytes := u64 (mp_maximumPacketsPerDatagram mux * mp_packetSize mux) in
  let perDatagramOverheadBytes := if bool_decide (mp_transportKind mux = RtpAvp) then RtpHeaderBytes else 0 in
  let hasAudio := match mp_program mux with AudioVideo _ => true | VideoOnly _ => false end in
  let fairServiceWindow := Z.quot targetServiceResidence (if hasAudio then 2 else 1) in
  if (mp_transportDecodeLead mux <=? 0) || (targetServiceResidence <=? 0) ||
     (mp_transportDecodeLead mux <? targetServiceResidence) || (fairServiceWindow <=? 0) || (videoAccessUnitCadence <=? 0) ||
     negb (Bool.eqb hasAudio (match audioAccessUnitCadence with Some _ => true | None => false end)) ||
     match audioAccessUnitCadence with Some cadence => cadence <=? 0 | None => false end ||
     (maximumPayloadBytes =? 0) || (maximumQueuedBytes =? 0) ||
     (uint64_max - perDatagramOverheadBytes <? maximumPayloadBytes)
  then failure (invalidArgument "MPEG-TS datagram emission facts are incomplete or not representable")
  else
    Success (mkEmissionPlan (mp_transportDecodeLead mux) (Z.min videoAccessUnitCadence fairServiceWindow)
      (Z.min fairServiceWindow <$> audioAccessUnitCadence) targetServiceResidence (mp_packetSize mux) maximumPayloadBytes
      perDatagramOverheadBytes maximumQueuedBytes).

Definition maximumWireDatagramBytes (p : EmissionPlan) : Z := u64 (ep_maximumPayloadBytes p + ep_perDatagramOverheadBytes p).

End MediaTsDatagramEmissionPlan.

Module MediaTsDatagramEmissionSchedule.
Import MediaTsDatagramEmissionPlan.

(** ** State *)

Record ActiveAccessUnit := mkAccessUnit {
  au_stream : MediaScheduledStream;
  au_emitOnMaster : Z;
  au_completionDeadline : Z;
  au_reservationStart : Z;
  au_timelineAvailableAt : Z;
  au_totalWireBytes : Z;
  au_committedWireBytes : Z;
}.

Record ActiveMaintenanceGroup := mkGroup {
  mg_notBefore : Z;
  mg_completionDeadline : Z;
  mg_reservationStart : Z;
  mg_timelineAvailableAt : Z;
  mg_totalWireBytes : Z;
  mg_committedWireBytes : Z;
}.

Record EmissionState := mkEmissionState {
  es_address : Z;
  es_plan : EmissionPlan;
  es_origin : Z;
  es_availableAt : Z;
  es_activeAccessUnit : option ActiveAccessUnit;
  es_activeMaintenanceGroup : option ActiveMaintenanceGroup;
  es_pendingRevision : option Z;
  es_nextRevision : Z;
}.

Record MediaTsPreparedDatagramEmission := mkPrepared {
  pe_owner : Z;
  pe_revision : Z;
  pe_deadline : Z;
  pe_latestEmissionTime : Z;
  pe_plannedWait : Z;
  pe_wireBytes : Z;
  pe_nextCommittedWireBytes : Z;
  pe_reservationCompletion : Z;
  pe_maintenanceReservation : bool;
  pe_active : bool;
}.

Definition setTimeline (available : Z) (unit : option ActiveAccessUnit) (group : option ActiveMaintenanceGroup) (s : EmissionState)
  : EmissionState :=
  mkEmissionState (es_address s) (es_plan s) (es_origin s) available unit group (es_pendingRevision s) (es_nextRevision s).

Definition setRevision (pending : option Z) (next : Z) (s : EmissionState) : EmissionState :=
  mkEmissionState (es_address s) (es_plan s) (es_origin s) (es_availableAt s) (es_activeAccessUnit s) (es_activeMaintenanceGroup s)
    pending next.

Definition advanceUnit (available committed : Z) (a : ActiveAccessUnit) : ActiveAccessUnit :=
  mkAccessUnit (au_stream a) (au_emitOnMaster a) (au_completionDeadline a) (au_reservationStart a) available
    (au_totalWireBytes a) committed.

Definition advanceGroup (available committed : Z) (m : ActiveMaintenanceGroup) : ActiveMaintenanceGroup :=
  mkGroup (mg_notBefore m) (mg_completionDeadline m) (mg_reservationStart m) available (mg_totalWireBytes m) committed.

(** ** Sizes *)

Definition wireBytesForPayload (plan : EmissionPlan) (payloadBytes : Z) : Result Z :=
  if (payloadBytes =? 0) || (ep_packetSizeBytes plan =? 0) || (ep_maximumPayloadBytes plan =? 0) ||
     negb (payloadBytes mod ep_packetSizeBytes plan =? 0)
  then failure (invalidArgument "MPEG-TS emission payload is not complete transport packets")
  else
    let payload := payloadBytes in
    let maximumPayload := ep_maximumPayloadBytes plan in
    let datagrams := u64 (payload / maximumPayload + (if negb (payload mod maximumPayload =? 0) then 1 else 0)) in
    if negb (ep_perDatagramOverheadBytes plan =? 0) &&
       ((uint64_max - payload) / ep_perDatagramOverheadBytes plan <? datagrams)
    then failure (invalidArgument "MPEG-TS emission wire bytes are not representable")
    else Success (u64 (payload + u64 (datagrams * ep_perDatagramOverheadBytes plan))).

Definition wireBytesForGroup (plan : EmissionPlan) (payloadBytes datagramCount : Z) : Result Z :=
  if (payloadBytes =? 0) || (datagramCount =? 0) || (ep_packetSizeBytes plan =? 0) || (ep_maximumPayloadBytes plan =? 0) ||
     negb (payloadBytes mod ep_packetSizeBytes plan =? 0) || (uint64_max / ep_packetSizeBytes plan <? datagramCount) ||
     (uint64_max / ep_maximumPayloadBytes plan <? datagramCount) ||
     (payloadBytes <? u64 (datagramCount * ep_packetSizeBytes plan)) ||
     (u64 (datagramCount * ep_maximumPayloadBytes plan) <? payloadBytes)
  then failure (invalidArgument "MPEG-TS maintenance group geometry is invalid")
  else if negb (ep_perDatagramOverheadBytes plan =? 0) &&
          ((uint64_max - payloadBytes) / ep_perDatagramOverheadBytes plan <? datagramCount)
  then failure (invalidArgument "MPEG-TS maintenance group wire bytes are not representable")
  else Success (u64 (payloadBytes + u64 (datagramCount * ep_perDatagramOverheadBytes plan))).

(** ** Operations *)

Record AccessUnitReservation := mkReservation {
  rv_notBefore : Z;
  rv_completion : Z;
  rv_plannedWait : Z;
  rv_wireBytes : Z;
  rv_nextCommittedWireBytes : Z;
}.

Definition currentTimelineAvailableAt (s : EmissionState) : Z :=
  match es_activeMaintenanceGroup s, es_activeAccessUnit s with
  | Some group, _ => mg_timelineAvailableAt group
  | None, Some active => au_timelineAvailableAt active
  | None, None => es_availableAt s
  end.

Definition accessUnitReservation (s : EmissionState) (payloadBytes : Z) : Result AccessUnitReservation :=
  match es_activeAccessUnit s, es_activeMaintenanceGroup s, es_pendingRevision s with
  | Some active, None, None =>
      let* wire := wireBytesForPayload (es_plan s) payloadBytes in
      if (au_totalWireBytes active <? au_committedWireBytes active) ||
         (au_totalWireBytes active - au_committedWireBytes active <? wire)
      then failure (invalidArgument "MPEG-TS access-unit datagram exceeds its materialized wire bytes")
      else
        let nextCommittedWireBytes := u64 (au_committedWireBytes active + wire) in
        match checkedSubtract (au_timelineAvailableAt active) (au_emitOnMaster active) with
        | Failure e => failure e
        | Success plannedWait =>
            if au_completionDeadline active <? au_timelineAvailableAt active
            then failure (invalidArgument "MPEG-TS access-unit datagram reservation is not representable")
            else Success (mkReservation (au_timelineAvailableAt active) (au_timelineAvailableAt active) plannedWait wire
                            nextCommittedWireBytes)
        end
  | _, _, _ => failure (invalidArgument "MPEG-TS access-unit datagram cannot be reserved")
  end.

Definition createSchedule (plan : EmissionPlan) (origin address : Z) : Result EmissionState :=
  Success (mkEmissionState address plan origin origin None None None 1).

Definition isNone {A} (o : option A) : bool := match o with Some _ => false | None => true end.

Definition beginAccessUnit (stream : MediaScheduledStream) (totalPayloadBytes emitOnMaster dispatchOnMaster : Z) (s : EmissionState)
  : Result (Z * Z) * EmissionState :=
  if negb (isNone (es_activeAccessUnit s)) || negb (isNone (es_activeMaintenanceGroup s)) || negb (isNone (es_pendingRevision s))
  then (failure (invalidArgument "MPEG-TS access-unit emission cannot begin in its current state"), s)
  else
    match checkedSubtract dispatchOnMaster emitOnMaster with
    | Failure e => (failure e, s)
    | Success transportWindow =>
        if negb (transportWindow =? ep_accessUnitWindow (es_plan s))
        then (failure (invalidArgument "MPEG-TS access-unit window differs from its plan"), s)
        else
          match wireBytesForPayload (es_plan s) totalPayloadBytes with
          | Failure e => (failure e, s)
          | Success totalWire =>
              if ep_maximumQueuedBytes (es_plan s) <? totalWire
              then (failure (invalidArgument "MPEG-TS access-unit exceeds the planned emission byte bound"), s)
              else
                let serviceStart := Z.max emitOnMaster (es_availableAt s) in
                let plannedServiceWindow :=
                  match stream with
                  | Scheduled_Video => Some (ep_videoInitialServiceWindow (es_plan s))
                  | Scheduled_Audio => ep_audioInitialServiceWindow (es_plan s)
                  end in
                match checkedSubtract dispatchOnMaster serviceStart with
                | Failure e => (failure e, s)
                | Success remainingWindow =>
                    if remainingWindow <=? 0
                    then (failure (invalidArgument "MPEG-TS access unit has no transport service window"), s)
                    else if isNone plannedServiceWindow
                    then (failure (invalidArgument "MPEG-TS access unit has no planned service window"), s)
                    else
                      match checkedSubtract serviceStart emitOnMaster with
                      | Failure e => (failure e, s)
                      | Success debt =>
                          if dispatchOnMaster <? serviceStart
                          then (failure (invalidArgument "MPEG-TS access-unit exceeds its transport dispatch deadline"), s)
                          else
                            (Success (debt, dispatchOnMaster),
                             setTimeline (es_availableAt s)
                               (Some (mkAccessUnit stream emitOnMaster dispatchOnMaster serviceStart serviceStart totalWire 0))
                               (es_activeMaintenanceGroup s) s)
                      end
                end
          end
    end.

Definition prepareAccessUnit (payloadBytes : Z) (s : EmissionState) : Result MediaTsPreparedDatagramEmission * EmissionState :=
  match accessUnitReservation s payloadBytes, es_activeAccessUnit s with
  | Failure e, _ => (failure e, s)
  | Success r, Some active =>
      if (uint64_max <? rv_wireBytes r) || (es_nextRevision s =? uint64_max)
      then (failure (invalidArgument "MPEG-TS access-unit datagram transaction is not representable"), s)
      else
        let revision := es_nextRevision s in
        (Success (mkPrepared (es_address s) revision (rv_notBefore r) (au_completionDeadline active) (rv_plannedWait r)
           (rv_wireBytes r) (rv_nextCommittedWireBytes r) (rv_completion r) false true),
         setRevision (Some revision) (u64 (revision + 1)) s)
  | Success _, None => (failure (invalidArgument "MPEG-TS access-unit datagram cannot be reserved"), s)
  end.

Definition previewAccessUnit (payloadBytes : Z) (s : EmissionState) : Result (Z * Z) :=
  let* r := accessUnitReservation s payloadBytes in Success (rv_notBefore r, rv_completion r).

Definition beginMaintenanceGroup (totalPayloadBytes datagramCount notBefore completionDeadline : Z) (s : EmissionState)
  : Status * EmissionState :=
  if negb (isNone (es_activeMaintenanceGroup s)) || negb (isNone (es_pendingRevision s)) || (notBefore <? es_origin s) ||
     (completionDeadline <=? notBefore)
  then (failure (invalidArgument "MPEG-TS maintenance group cannot begin"), s)
  else
    match wireBytesForGroup (es_plan s) totalPayloadBytes datagramCount with
    | Failure e => (failure e, s)
    | Success totalWire =>
        let parentAvailableAt :=
          match es_activeAccessUnit s with Some active => au_timelineAvailableAt active | None => es_availableAt s end in
        let serviceStart := Z.max notBefore parentAvailableAt in
        if completionDeadline <? serviceStart
        then (failure (invalidArgument "MPEG-TS maintenance exceeds its canonical deadline"), s)
        else (Success tt,
              setTimeline (es_availableAt s) (es_activeAccessUnit s)
                (Some (mkGroup notBefore completionDeadline serviceStart serviceStart totalWire 0)) s)
    end.

Definition serviceWindowError (group : ActiveMaintenanceGroup) (serviceStart wire : Z) : ErrorInfo :=
  invalidArgument ("MPEG-TS maintenance cannot reserve its global service window group_not_before_ns=" +:+ pretty (mg_notBefore group)
    +:+ " group_deadline_ns=" +:+ pretty (mg_completionDeadline group) +:+ " service_start_ns=" +:+ pretty serviceStart
    +:+ " reservation_completion_ns=" +:+ pretty serviceStart +:+ " datagram_wire_bytes=" +:+ pretty wire
    +:+ " committed_wire_bytes=" +:+ pretty (mg_committedWireBytes group)
    +:+ " total_wire_bytes=" +:+ pretty (mg_totalWireBytes group)).

Definition prepareMaintenance (payloadBytes : Z) (s : EmissionState) : Result MediaTsPreparedDatagramEmission * EmissionState :=
  match es_activeMaintenanceGroup s, es_pendingRevision s with
  | Some group, None =>
      match wireBytesForPayload (es_plan s) payloadBytes with
      | Failure e => (failure e, s)
      | Success wire =>
          if (mg_totalWireBytes group <? mg_committedWireBytes group) ||
             (mg_totalWireBytes group - mg_committedWireBytes group <? wire)
          then (failure (invalidArgument "MPEG-TS maintenance datagram exceeds its group geometry"), s)
          else
            let serviceStart := mg_timelineAvailableAt group in
            let nextCommittedWireBytes := u64 (mg_committedWireBytes group + wire) in
            match checkedSubtract serviceStart (mg_notBefore group) with
            | Failure e => (failure e, s)
            | Success plannedWait =>
                if mg_completionDeadline group <? serviceStart then (failure (serviceWindowError group serviceStart wire), s)
                else if (uint64_max <? wire) || (es_nextRevision s =? uint64_max)
                then (failure (invalidArgument "MPEG-TS maintenance cannot reserve its global service window"), s)
                else
                  let revision := es_nextRevision s in
                  (Success (mkPrepared (es_address s) revision serviceStart (mg_completionDeadline group) plannedWait wire
                     nextCommittedWireBytes serviceStart true true),
                   setRevision (Some revision) (u64 (revision + 1)) s)
            end
      end
  | _, _ => (failure (invalidArgument "MPEG-TS maintenance datagram cannot be prepared"), s)
  end.

Definition completeMaintenanceGroup (s : EmissionState) : Status * EmissionState :=
  match es_activeMaintenanceGroup s with
  | Some group =>
      if negb (isNone (es_pendingRevision s)) || negb (mg_committedWireBytes group =? mg_totalWireBytes group)
      then (failure (invalidArgument "MPEG-TS maintenance group cannot complete"), s)
      else
        let available := mg_timelineAvailableAt group in
        (Success tt,
         match es_activeAccessUnit s with
         | Some active =>
             setTimeline (es_availableAt s) (Some (advanceUnit available (au_committedWireBytes active) active)) None s
         | None => setTimeline available None None s
         end)
  | None => (failure (invalidArgument "MPEG-TS maintenance group cannot complete"), s)
  end.

Definition deactivate (p : MediaTsPreparedDatagramEmission) : MediaTsPreparedDatagramEmission :=
  mkPrepared (pe_owner p) (pe_revision p) (pe_deadline p) (pe_latestEmissionTime p) (pe_plannedWait p) (pe_wireBytes p)
    (pe_nextCommittedWireBytes p) (pe_reservationCompletion p) (pe_maintenanceReservation p) false.

Definition cancel (p : MediaTsPreparedDatagramEmission) (s : EmissionState) : MediaTsPreparedDatagramEmission * EmissionState :=
  if pe_active p && (pe_owner p =? es_address s) && bool_decide (es_pendingRevision s = Some (pe_revision p))
  then (deactivate p, setRevision None (es_nextRevision s) s)
  else (deactivate p, s).

Definition commitProgress (p : MediaTsPreparedDatagramEmission) (s : EmissionState) : Result EmissionState :=
  if pe_maintenanceReservation p then
    let conflict := failure (invalidArgument "MPEG-TS maintenance reservation conflicts with the global timeline") in
    match es_activeMaintenanceGroup s with
    | Some group =>
        if (pe_nextCommittedWireBytes p <=? mg_committedWireBytes group) ||
           (mg_totalWireBytes group <? pe_nextCommittedWireBytes p) ||
           (pe_reservationCompletion p <? mg_timelineAvailableAt group)
        then conflict
        else Success (setTimeline (es_availableAt s) (es_activeAccessUnit s)
               (Some (advanceGroup (pe_reservationCompletion p) (pe_nextCommittedWireBytes p) group)) s)
    | None => conflict
    end
  else
    match es_activeAccessUnit s with
    | Some active =>
        if pe_reservationCompletion p <? au_timelineAvailableAt active
        then failure (invalidArgument "MPEG-TS access-unit reservation conflicts with the global timeline")
        else Success (setTimeline (es_availableAt s)
               (Some (advanceUnit (pe_reservationCompletion p) (pe_nextCommittedWireBytes p) active)) (es_activeMaintenanceGroup s) s)
    | None =>
        if negb (pe_nextCommittedWireBytes p =? 0)
        then failure (invalidArgument "MPEG-TS maintenance commit contains access-unit progress")
        else Success s
    end.

Definition commit (p : MediaTsPreparedDatagramEmission) (actualEmissionTime : Z) (s : EmissionState)
  : Status * (MediaTsPreparedDatagramEmission * EmissionState) :=
  if negb (pe_active p) || negb (pe_owner p =? es_address s) || negb (bool_decide (es_pendingRevision s = Some (pe_revision p))) ||
     (actualEmissionTime <? pe_deadline p) || (pe_latestEmissionTime p <? actualEmissionTime)
  then (failure (invalidArgument "MPEG-TS emission commit rejects a stale transaction"), (p, s))
  else if pe_deadline p <? currentTimelineAvailableAt s
  then (failure (invalidArgument "MPEG-TS emission commit would move the continuous timeline backward"), (p, s))
  else
    match commitProgress p s with
    | Failure e => (failure e, (p, s))
    | Success s => (Success tt, (deactivate p, setRevision None (es_nextRevision s) s))
    end.

Definition completeAccessUnit (s : EmissionState) : Status * EmissionState :=
  match es_activeAccessUnit s with
  | Some active =>
      if negb (isNone (es_pendingRevision s)) || negb (au_committedWireBytes active =? au_totalWireBytes active)
      then (failure (invalidArgument "MPEG-TS access-unit emission cannot complete"), s)
      else (Success tt, setTimeline (au_timelineAvailableAt active) None (es_activeMaintenanceGroup s) s)
  | None => (failure (invalidArgument "MPEG-TS access-unit emission cannot complete"), s)
  end.


(** ** Wire sizes *)

Definition planTyped (p : EmissionPlan) : Prop :=
  0 <= ep_packetSizeBytes p <= uint64_max /\ 0 <= ep_maximumPayloadBytes p <= uint64_max /\
  0 <= ep_perDatagramOverheadBytes p <= uint64_max /\ 0 <= ep_maximumQueuedBytes p <= uint64_max.

(** The datagrams a payload needs: the quotient by the largest payload,
    rounded up. *)
Definition datagramsFor (p : EmissionPlan) (payload : Z) : Z :=
  (payload + ep_maximumPayloadBytes p - 1) / ep_maximumPayloadBytes p.

Lemma ceil_split a m : 0 < m -> (a + m - 1) / m = a / m + (if negb (a mod m =? 0) then 1 else 0).
Proof.
  intros Hm. pose proof (Z.div_mod a m ltac:(lia)) as E. pose proof (Z.mod_pos_bound a m Hm) as Hr.
  replace (a + m - 1) with (a mod m + m - 1 + (a / m) * m) by lia. rewrite Z.div_add by lia.
  destruct (Z.eqb_spec (a mod m) 0) as [-> |]; cbn [negb].
  - rewrite Z.div_small by lia. lia.
  - replace (a mod m + m - 1) with (a mod m - 1 + 1 * m) by lia. rewrite Z.div_add by lia. rewrite Z.div_small by lia. lia.
Qed.

Lemma datagrams_bounds p payload : 0 < ep_maximumPayloadBytes p -> 0 < payload -> 0 < datagramsFor p payload <= payload.
Proof.
  intros Hm Hp. unfold datagramsFor. split.
  - apply Z.div_str_pos. lia.
  - apply Z.div_le_upper_bound; [lia |]. nia.
Qed.

(** The product of a count that the guard accepts is representable. *)
Lemma overhead_fits payload count overhead : 0 <= payload -> 0 <= count -> 0 <= overhead ->
  negb (overhead =? 0) && ((uint64_max - payload) / overhead <? count) = false -> payload <= uint64_max ->
  u64 (payload + u64 (count * overhead)) = payload + count * overhead /\ payload + count * overhead <= uint64_max.
Proof.
  intros Hp Hc Ho Hg Hm. assert (Hb : payload + count * overhead <= uint64_max).
  { destruct (Z.eqb_spec overhead 0) as [-> |]; [lia |]. cbn [negb andb] in Hg. apply Z.ltb_ge in Hg.
    pose proof (Z.mul_div_le (uint64_max - payload) overhead ltac:(lia)). nia. }
  split; [| done]. unfold u64. assert (0 <= count * overhead) by nia.
  rewrite (Z.mod_small (count * overhead)) by (ranges; lia). apply Z.mod_small. ranges. lia.
Qed.

Lemma payload_wire plan payload w : planTyped plan -> 0 <= payload <= uint64_max -> wireBytesForPayload plan payload = Success w ->
  w = payload + datagramsFor plan payload * ep_perDatagramOverheadBytes plan /\ 0 < payload <= w /\ w <= uint64_max.
Proof.
  intros (Hs & Hm & Ho & _) Hp. unfold wireBytesForPayload.
  destruct (Z.eqb_spec payload 0); cbn [orb]; [by intros []%failure_not |].
  destruct (Z.eqb_spec (ep_packetSizeBytes plan) 0); cbn [orb]; [by intros []%failure_not |].
  destruct (Z.eqb_spec (ep_maximumPayloadBytes plan) 0); cbn [orb]; [by intros []%failure_not |].
  destruct (negb _); [by intros []%failure_not |].
  pose proof (datagrams_bounds plan payload ltac:(lia) ltac:(lia)) as Hd.
  rewrite <- ceil_split by lia. fold (datagramsFor plan payload).
  assert (Eu : u64 (datagramsFor plan payload) = datagramsFor plan payload) by (unfold u64; apply Z.mod_small; ranges; lia).
  rewrite Eu.
  destruct (negb (_ =? 0) && _) eqn:Eg; [by intros []%failure_not |].
  intros [= <-]. destruct (overhead_fits payload (datagramsFor plan payload) (ep_perDatagramOverheadBytes plan) (proj1 Hp) ltac:(lia) (proj1 Ho) Eg (proj2 Hp)) as [-> Hb].
  split; [done |]. nia.
Qed.

Lemma group_wire plan payload count w : planTyped plan -> 0 <= payload <= uint64_max -> 0 <= count <= uint64_max ->
  wireBytesForGroup plan payload count = Success w ->
  w = payload + count * ep_perDatagramOverheadBytes plan /\ 0 < payload <= w /\ w <= uint64_max.
Proof.
  intros (Hs & Hm & Ho & _) Hp Hc. unfold wireBytesForGroup.
  destruct (Z.eqb_spec payload 0); cbn [orb]; [by intros []%failure_not |].
  destruct (_ || _); [by intros []%failure_not |].
  destruct (negb (_ =? 0) && _) eqn:Eg; [by intros []%failure_not |].
  intros [= <-]. destruct (overhead_fits _ _ _ (proj1 Hp) (proj1 Hc) (proj1 Ho) Eg (proj2 Hp)) as [-> Hb].
  split; [done |]. nia.
Qed.

(** ** Schedules of calls *)

(** A committed emission: when it was due, when it left, how long it could
    have waited, and its size on the wire. *)
Record Emission := mkEmission { em_deadline : Z; em_actual : Z; em_latest : Z; em_wire : Z }.

(** A completed reservation: the wire bytes it was opened for, the time it
    could start, its deadline, and the emissions committed for it. *)
Record Completed := mkCompleted { cr_wire : Z; cr_notBefore : Z; cr_deadline : Z; cr_emissions : list Emission }.

Record World := mkWorld {
  wd_state : EmissionState;
  wd_live : option MediaTsPreparedDatagramEmission;
  wd_log : list Emission;
  wd_unit : Z * list Emission;
  wd_group : Z * list Emission;
  wd_completed : list Completed;
}.

Inductive EmissionCall :=
| Call_BeginUnit (stream : MediaScheduledStream) (payload emit dispatch : Z)
| Call_PrepareUnit (payload : Z)
| Call_CompleteUnit
| Call_BeginGroup (payload count notBefore deadline : Z)
| Call_PrepareGroup (payload : Z)
| Call_CompleteGroup
| Call_Commit (actual : Z)
| Call_Drop.

Definition callTyped (c : EmissionCall) : Prop :=
  match c with
  | Call_BeginUnit _ payload _ _ | Call_PrepareUnit payload | Call_PrepareGroup payload => 0 <= payload <= uint64_max
  | Call_BeginGroup payload count _ _ => 0 <= payload <= uint64_max /\ 0 <= count <= uint64_max
  | _ => True
  end.

Definition withState (s : EmissionState) (w : World) : World :=
  mkWorld s (wd_live w) (wd_log w) (wd_unit w) (wd_group w) (wd_completed w).

Definition withPrepared (r : Result MediaTsPreparedDatagramEmission * EmissionState) (w : World) : World :=
  match r with
  | (Success p, s) => mkWorld s (Some p) (wd_log w) (wd_unit w) (wd_group w) (wd_completed w)
  | (Failure _, s) => withState s w
  end.

Definition emissionOf (p : MediaTsPreparedDatagramEmission) (actual : Z) : Emission :=
  mkEmission (pe_deadline p) actual (pe_latestEmissionTime p) (pe_wireBytes p).

Definition withCommitted (e : Emission) (maintenance : bool) (s : EmissionState) (w : World) : World :=
  mkWorld s None (wd_log w ++ [e])
    (if maintenance then wd_unit w else (fst (wd_unit w), snd (wd_unit w) ++ [e]))
    (if maintenance then (fst (wd_group w), snd (wd_group w) ++ [e]) else wd_group w) (wd_completed w).

Definition unitCompleted (w : World) : list Completed :=
  match es_activeAccessUnit (wd_state w) with
  | Some a => [mkCompleted (fst (wd_unit w)) (au_emitOnMaster a) (au_completionDeadline a) (snd (wd_unit w))]
  | None => []
  end.

Definition groupCompleted (w : World) : list Completed :=
  match es_activeMaintenanceGroup (wd_state w) with
  | Some g => [mkCompleted (fst (wd_group w)) (mg_notBefore g) (mg_completionDeadline g) (snd (wd_group w))]
  | None => []
  end.

Definition step (w : World) (c : EmissionCall) : World :=
  let s := wd_state w in
  let plan := es_plan s in
  match c with
  | Call_BeginUnit stream payload emit dispatch =>
      match beginAccessUnit stream payload emit dispatch s with
      | (Success _, s') =>
          mkWorld s' (wd_live w) (wd_log w) (payload + datagramsFor plan payload * ep_perDatagramOverheadBytes plan, [])
            (wd_group w) (wd_completed w)
      | (Failure _, s') => withState s' w
      end
  | Call_PrepareUnit payload => withPrepared (prepareAccessUnit payload s) w
  | Call_CompleteUnit =>
      match completeAccessUnit s with
      | (Success _, s') =>
          mkWorld s' (wd_live w) (wd_log w) (wd_unit w) (wd_group w) (wd_completed w ++ unitCompleted w)
      | (Failure _, s') => withState s' w
      end
  | Call_BeginGroup payload count notBefore deadline =>
      match beginMaintenanceGroup payload count notBefore deadline s with
      | (Success _, s') =>
          mkWorld s' (wd_live w) (wd_log w) (wd_unit w) (payload + count * ep_perDatagramOverheadBytes plan, []) (wd_completed w)
      | (Failure _, s') => withState s' w
      end
  | Call_PrepareGroup payload => withPrepared (prepareMaintenance payload s) w
  | Call_CompleteGroup =>
      match completeMaintenanceGroup s with
      | (Success _, s') =>
          mkWorld s' (wd_live w) (wd_log w) (wd_unit w) (wd_group w) (wd_completed w ++ groupCompleted w)
      | (Failure _, s') => withState s' w
      end
  | Call_Commit actual =>
      match wd_live w with
      | None => w
      | Some p =>
          match commit p actual s with
          | (Success _, (_, s')) => withCommitted (emissionOf p actual) (pe_maintenanceReservation p) s' w
          | (Failure _, (p', s')) => mkWorld s' (Some p') (wd_log w) (wd_unit w) (wd_group w) (wd_completed w)
          end
      end
  | Call_Drop =>
      match wd_live w with
      | None => w
      | Some p => mkWorld (snd (cancel p s)) None (wd_log w) (wd_unit w) (wd_group w) (wd_completed w)
      end
  end.

Definition run (calls : list EmissionCall) (w : World) : World := foldl step w calls.

Definition started (s : EmissionState) : World := mkWorld s None [] (0, []) (0, []) [].


(** ** The invariant of a schedule *)

Definition wireSum (es : list Emission) : Z := foldr (fun e n => em_wire e + n) 0 es.

Lemma wireSum_snoc es e : wireSum (es ++ [e]) = wireSum es + em_wire e.
Proof. unfold wireSum. induction es as [| x es IH]; cbn; lia. Qed.

(** An emission within a reservation. *)
Definition within (notBefore deadline : Z) (e : Emission) : Prop :=
  notBefore <= em_deadline e <= em_actual e /\ em_actual e <= deadline.

Definition completedOk (c : Completed) : Prop :=
  wireSum (cr_emissions c) = cr_wire c /\ Forall (within (cr_notBefore c) (cr_deadline c)) (cr_emissions c).

Definition unitOk (w : World) (a : ActiveAccessUnit) : Prop :=
  es_availableAt (wd_state w) <= au_timelineAvailableAt a /\ au_emitOnMaster a <= au_timelineAvailableAt a /\
  0 <= au_committedWireBytes a <= au_totalWireBytes a /\ au_totalWireBytes a <= uint64_max /\
  au_totalWireBytes a = (wd_unit w).1 /\ au_committedWireBytes a = wireSum (wd_unit w).2 /\
  Forall (within (au_emitOnMaster a) (au_completionDeadline a)) (wd_unit w).2.

Definition parentAvailableAt (s : EmissionState) : Z :=
  match es_activeAccessUnit s with Some a => au_timelineAvailableAt a | None => es_availableAt s end.

Definition groupOk (w : World) (g : ActiveMaintenanceGroup) : Prop :=
  parentAvailableAt (wd_state w) <= mg_timelineAvailableAt g /\ es_availableAt (wd_state w) <= mg_timelineAvailableAt g /\
  mg_notBefore g <= mg_timelineAvailableAt g /\
  0 <= mg_committedWireBytes g <= mg_totalWireBytes g /\ mg_totalWireBytes g <= uint64_max /\
  mg_totalWireBytes g = (wd_group w).1 /\ mg_committedWireBytes g = wireSum (wd_group w).2 /\
  Forall (within (mg_notBefore g) (mg_completionDeadline g)) (wd_group w).2.

(** A live transaction reserves the next bytes of the innermost reservation,
    at its present time. *)
Definition reserves (p : MediaTsPreparedDatagramEmission) (available deadline committed total : Z) : Prop :=
  pe_deadline p = available /\ pe_reservationCompletion p = available /\ pe_latestEmissionTime p = deadline /\
  pe_nextCommittedWireBytes p = committed + pe_wireBytes p /\ 0 < pe_wireBytes p /\ pe_nextCommittedWireBytes p <= total.

Definition liveOk (s : EmissionState) (p : MediaTsPreparedDatagramEmission) : Prop :=
  pe_active p = true /\ pe_owner p = es_address s /\ es_pendingRevision s = Some (pe_revision p) /\
  if pe_maintenanceReservation p then
    exists g, es_activeMaintenanceGroup s = Some g /\
      reserves p (mg_timelineAvailableAt g) (mg_completionDeadline g) (mg_committedWireBytes g) (mg_totalWireBytes g)
  else
    exists a, es_activeAccessUnit s = Some a /\ es_activeMaintenanceGroup s = None /\
      reserves p (au_timelineAvailableAt a) (au_completionDeadline a) (au_committedWireBytes a) (au_totalWireBytes a).

Record worldOk (w : World) : Prop := {
  wo_plan : planTyped (es_plan (wd_state w));
  wo_origin : es_origin (wd_state w) <= es_availableAt (wd_state w);
  wo_live : match wd_live w with Some p => liveOk (wd_state w) p | None => es_pendingRevision (wd_state w) = None end;
  wo_unit : forall a, es_activeAccessUnit (wd_state w) = Some a -> unitOk w a;
  wo_group : forall g, es_activeMaintenanceGroup (wd_state w) = Some g -> groupOk w g;
  wo_sorted : StronglySorted Z.le (em_deadline <$> wd_log w);
  wo_last : forall e, last (wd_log w) = Some e -> em_deadline e <= currentTimelineAvailableAt (wd_state w);
  wo_log : Forall (fun e => es_origin (wd_state w) <= em_deadline e <= em_actual e /\ em_actual e <= em_latest e) (wd_log w);
  wo_completed : Forall completedOk (wd_completed w);
}.

Lemma origin_current w : worldOk w -> es_origin (wd_state w) <= currentTimelineAvailableAt (wd_state w).
Proof.
  intros []. unfold currentTimelineAvailableAt. destruct (es_activeMaintenanceGroup _) as [g |] eqn:Eg.
  - destruct (wo_group0 g eq_refl) as (_ & ? & _). lia.
  - destruct (es_activeAccessUnit _) as [a |] eqn:Ea; [| done]. destruct (wo_unit0 a eq_refl) as (? & _). lia.
Qed.

Lemma withState_same w : withState (wd_state w) w = w.
Proof. by destruct w. Qed.


(** ** What a call that succeeds did

    A call that fails leaves the state as it was. *)

Ltac accepted := let E := fresh in intros E; injection E; clear E; intros; subst.
Ltac rejected :=
  let E := fresh in
  intros E; injection E; clear E; intros; exfalso; match goal with H : failure _ = Success _ |- _ => exact (failure_not _ _ H) end.

Lemma isNone_true {A} (o : option A) : isNone o = true -> o = None.
Proof. by destruct o. Qed.

Lemma beginAccessUnit_fails stream payload emit dispatch s e s' :
  beginAccessUnit stream payload emit dispatch s = (Failure e, s') -> s' = s.
Proof. unfold beginAccessUnit. repeat case_match; congruence. Qed.

Lemma prepareAccessUnit_fails payload s e s' : prepareAccessUnit payload s = (Failure e, s') -> s' = s.
Proof. unfold prepareAccessUnit. repeat case_match; congruence. Qed.

Lemma beginMaintenanceGroup_fails payload count notBefore deadline s e s' :
  beginMaintenanceGroup payload count notBefore deadline s = (Failure e, s') -> s' = s.
Proof. unfold beginMaintenanceGroup. repeat case_match; congruence. Qed.

Lemma prepareMaintenance_fails payload s e s' : prepareMaintenance payload s = (Failure e, s') -> s' = s.
Proof. unfold prepareMaintenance. repeat case_match; congruence. Qed.

Lemma completeMaintenanceGroup_fails s e s' : completeMaintenanceGroup s = (Failure e, s') -> s' = s.
Proof. unfold completeMaintenanceGroup. repeat case_match; congruence. Qed.

Lemma completeAccessUnit_fails s e s' : completeAccessUnit s = (Failure e, s') -> s' = s.
Proof. unfold completeAccessUnit. repeat case_match; congruence. Qed.

Lemma commit_fails p actual s e p' s' : commit p actual s = (Failure e, (p', s')) -> p' = p /\ s' = s.
Proof. unfold commit. repeat case_match; intros [= ]; by subst. Qed.

Lemma beginAccessUnit_inv stream payload emit dispatch s r s' :
  beginAccessUnit stream payload emit dispatch s = (Success r, s') ->
  es_activeAccessUnit s = None /\ es_activeMaintenanceGroup s = None /\ es_pendingRevision s = None /\
  exists totalWire, wireBytesForPayload (es_plan s) payload = Success totalWire /\ totalWire <= ep_maximumQueuedBytes (es_plan s) /\
    Z.max emit (es_availableAt s) <= dispatch /\
    checkedSubtract (Z.max emit (es_availableAt s)) emit = Success r.1 /\
    s' = setTimeline (es_availableAt s) (Some (mkAccessUnit stream emit dispatch (Z.max emit (es_availableAt s))
           (Z.max emit (es_availableAt s)) totalWire 0)) None s.
Proof.
  unfold beginAccessUnit. destruct (es_activeAccessUnit s); [rejected |]. destruct (es_activeMaintenanceGroup s) eqn:Eg; [rejected |].
  destruct (es_pendingRevision s); [rejected |]. cbn [isNone negb orb].
  destruct (checkedSubtract dispatch emit) as [window |]; [| rejected]. destruct (negb _); [rejected |].
  destruct (wireBytesForPayload _ _) as [totalWire |]; [| rejected].
  destruct (Z.ltb_spec (ep_maximumQueuedBytes (es_plan s)) totalWire); [rejected |].
  destruct (checkedSubtract dispatch _) as [remaining |]; [| rejected]. destruct (remaining <=? 0); [rejected |].
  destruct (isNone _); [rejected |]. destruct (checkedSubtract (Z.max _ _) emit) as [debt |]; [| rejected].
  destruct (Z.ltb_spec dispatch (Z.max emit (es_availableAt s))); [rejected |]. accepted. eauto 10.
Qed.

Lemma prepareAccessUnit_inv payload s p s' : prepareAccessUnit payload s = (Success p, s') ->
  es_activeMaintenanceGroup s = None /\ es_pendingRevision s = None /\
  exists a wire, es_activeAccessUnit s = Some a /\ wireBytesForPayload (es_plan s) payload = Success wire /\
    wire <= au_totalWireBytes a - au_committedWireBytes a /\ au_timelineAvailableAt a <= au_completionDeadline a /\
    s' = setRevision (Some (es_nextRevision s)) (u64 (es_nextRevision s + 1)) s /\
    p = mkPrepared (es_address s) (es_nextRevision s) (au_timelineAvailableAt a) (au_completionDeadline a) (pe_plannedWait p) wire
          (u64 (au_committedWireBytes a + wire)) (au_timelineAvailableAt a) false true.
Proof.
  unfold prepareAccessUnit, accessUnitReservation. destruct (es_activeAccessUnit s) as [a |] eqn:Ea.
  2: { destruct (failure _) eqn:E; [by apply failure_not in E |]. rejected. }
  destruct (es_activeMaintenanceGroup s) eqn:Eg. { destruct (failure _) eqn:E; [by apply failure_not in E |]. rejected. }
  destruct (es_pendingRevision s) eqn:Er. { destruct (failure _) eqn:E; [by apply failure_not in E |]. rejected. }
  destruct (bindResult _ _) as [r |] eqn:E; [| rejected]. apply bindResult_success in E as (wire & Hw & E).
  destruct (Z.ltb_spec (au_totalWireBytes a) (au_committedWireBytes a)); cbn [orb] in E; [by apply failure_not in E |].
  destruct (Z.ltb_spec (au_totalWireBytes a - au_committedWireBytes a) wire); [by apply failure_not in E |].
  destruct (checkedSubtract _ _) as [wait |]; [| by apply failure_not in E].
  destruct (Z.ltb_spec (au_completionDeadline a) (au_timelineAvailableAt a)); [by apply failure_not in E |].
  injection E as <-. cbn [rv_wireBytes rv_notBefore rv_plannedWait rv_nextCommittedWireBytes rv_completion].
  destruct (_ || _); [rejected |]. accepted. cbn. eauto 10.
Qed.

Lemma beginMaintenanceGroup_inv payload count notBefore deadline s r s' :
  beginMaintenanceGroup payload count notBefore deadline s = (Success r, s') ->
  es_activeMaintenanceGroup s = None /\ es_pendingRevision s = None /\
  exists totalWire, wireBytesForGroup (es_plan s) payload count = Success totalWire /\
    Z.max notBefore (parentAvailableAt s) <= deadline /\
    s' = setTimeline (es_availableAt s) (es_activeAccessUnit s) (Some (mkGroup notBefore deadline
           (Z.max notBefore (parentAvailableAt s)) (Z.max notBefore (parentAvailableAt s)) totalWire 0)) s.
Proof.
  unfold beginMaintenanceGroup. destruct (es_activeMaintenanceGroup s); [rejected |]. destruct (es_pendingRevision s); [rejected |].
  cbn [isNone negb orb]. destruct (_ || _); [rejected |]. destruct (wireBytesForGroup _ _ _) as [totalWire |]; [| rejected].
  fold (parentAvailableAt s). destruct (Z.ltb_spec deadline (Z.max notBefore (parentAvailableAt s))); [rejected |].
  accepted. eauto 10.
Qed.

Lemma prepareMaintenance_inv payload s p s' : prepareMaintenance payload s = (Success p, s') ->
  es_pendingRevision s = None /\
  exists g wire, es_activeMaintenanceGroup s = Some g /\ wireBytesForPayload (es_plan s) payload = Success wire /\
    wire <= mg_totalWireBytes g - mg_committedWireBytes g /\ mg_timelineAvailableAt g <= mg_completionDeadline g /\
    s' = setRevision (Some (es_nextRevision s)) (u64 (es_nextRevision s + 1)) s /\
    p = mkPrepared (es_address s) (es_nextRevision s) (mg_timelineAvailableAt g) (mg_completionDeadline g) (pe_plannedWait p) wire
          (u64 (mg_committedWireBytes g + wire)) (mg_timelineAvailableAt g) true true.
Proof.
  unfold prepareMaintenance. destruct (es_activeMaintenanceGroup s) as [g |]; [| rejected].
  destruct (es_pendingRevision s); [rejected |]. destruct (wireBytesForPayload _ _) as [wire |]; [| rejected].
  destruct (Z.ltb_spec (mg_totalWireBytes g) (mg_committedWireBytes g)); cbn [orb]; [rejected |].
  destruct (Z.ltb_spec (mg_totalWireBytes g - mg_committedWireBytes g) wire); [rejected |].
  destruct (checkedSubtract _ _) as [wait |]; [| rejected].
  destruct (Z.ltb_spec (mg_completionDeadline g) (mg_timelineAvailableAt g)); [rejected |].
  destruct (_ || _); [rejected |]. accepted. cbn. eauto 10.
Qed.


(** ** Every call keeps the invariant *)

Lemma no_live w : worldOk w -> es_pendingRevision (wd_state w) = None -> wd_live w = None.
Proof. intros [] Hr. destruct (wd_live w) as [p |]; [| done]. destruct wo_live0 as (_ & _ & ? & _). congruence. Qed.

Ltac unchanged fails E := apply fails in E as ->; cbn [withPrepared]; rewrite withState_same; assumption.

Lemma beginUnit_ok w stream payload emit dispatch : worldOk w -> 0 <= payload <= uint64_max ->
  worldOk (step w (Call_BeginUnit stream payload emit dispatch)).
Proof.
  intros Hw Hp. cbn [step]. destruct (beginAccessUnit _ _ _ _ _) as [[r |] s'] eqn:E; [| unchanged beginAccessUnit_fails E].
  apply beginAccessUnit_inv in E as (Ha & Hg & Hr & total & Ht & _ & Hd & _ & ->). pose proof (no_live w Hw Hr) as Hnone. destruct Hw.
  apply payload_wire in Ht as (-> & Hw & Hm); [| done | done].
  constructor; cbn; try done.
  - by rewrite Hnone.
  - intros a [= <-]. split_and!; cbn; try done; lia.
  - intros e He. specialize (wo_last0 e He). unfold currentTimelineAvailableAt in *. rewrite Ha, Hg in wo_last0. cbn. lia.
Qed.

Lemma beginGroup_ok w payload count notBefore deadline : worldOk w -> 0 <= payload <= uint64_max -> 0 <= count <= uint64_max ->
  worldOk (step w (Call_BeginGroup payload count notBefore deadline)).
Proof.
  intros Hw Hp Hc. cbn [step]. destruct (beginMaintenanceGroup _ _ _ _ _) as [[r |] s'] eqn:E; [| unchanged beginMaintenanceGroup_fails E].
  apply beginMaintenanceGroup_inv in E as (Hg & Hr & total & Ht & Hd & ->). pose proof (no_live w Hw Hr) as Hnone. destruct Hw.
  apply group_wire in Ht as (-> & Hw & Hm); [| done | done | done].
  constructor; cbn; try done.
  - by rewrite Hnone.
  - intros g [= <-]. split_and!; cbn; try done; try lia.
    all: unfold parentAvailableAt; cbn; destruct (es_activeAccessUnit (wd_state w)) as [a |]; [| lia].
    all: destruct (wo_unit0 a eq_refl) as (? & _); lia.
  - intros e He. specialize (wo_last0 e He). unfold currentTimelineAvailableAt, parentAvailableAt in *. rewrite Hg in wo_last0.
    cbn. lia.
Qed.

Lemma prepared_unit_ok w payload : worldOk w -> 0 <= payload <= uint64_max -> worldOk (step w (Call_PrepareUnit payload)).
Proof.
  intros Hw Hp. cbn [step]. destruct (prepareAccessUnit _ _) as [[p |] s'] eqn:E; [| unchanged prepareAccessUnit_fails E].
  apply prepareAccessUnit_inv in E as (Hg & Hr & a & wire & Ha & Ht & Hfit & Hd & -> & E). destruct Hw.
  apply payload_wire in Ht as (_ & Hwire & _); [| done | done]. destruct (wo_unit0 a Ha) as (_ & _ & Hc & Hm & _).
  constructor; try done. cbn [withPrepared wd_live wd_state].
  rewrite E. repeat split. cbn. exists a. unfold reserves. cbn. unfold u64. rewrite Z.mod_small by (ranges; lia).
  split_and!; try done; lia.
Qed.

Lemma prepared_group_ok w payload : worldOk w -> 0 <= payload <= uint64_max -> worldOk (step w (Call_PrepareGroup payload)).
Proof.
  intros Hw Hp. cbn [step]. destruct (prepareMaintenance _ _) as [[p |] s'] eqn:E; [| unchanged prepareMaintenance_fails E].
  apply prepareMaintenance_inv in E as (Hr & g & wire & Hg & Ht & Hfit & Hd & -> & E). destruct Hw.
  apply payload_wire in Ht as (_ & Hwire & _); [| done | done]. destruct (wo_group0 g Hg) as (_ & _ & _ & Hc & Hm & _).
  constructor; try done. cbn [withPrepared wd_live wd_state].
  rewrite E. repeat split. cbn. exists g. unfold reserves. cbn. unfold u64. rewrite Z.mod_small by (ranges; lia).
  split_and!; try done; lia.
Qed.

Lemma completeUnit_ok w : worldOk w -> worldOk (step w Call_CompleteUnit).
Proof.
  intros Hw. cbn [step]. destruct (completeAccessUnit _) as [[r |] s'] eqn:E; [| unchanged completeAccessUnit_fails E].
  unfold completeAccessUnit in E. destruct (es_activeAccessUnit (wd_state w)) as [a |] eqn:Ea; [| revert E; rejected].
  destruct (es_pendingRevision (wd_state w)) eqn:Er; cbn [isNone negb orb] in E; [revert E; rejected |].
  destruct (Z.eqb_spec (au_committedWireBytes a) (au_totalWireBytes a)) as [Hdone |]; [| revert E; rejected].
  injection E as _ <-. pose proof (no_live w Hw Er) as Hnone. destruct Hw. destruct (wo_unit0 a Ea) as (Hav & Hem & Hc & Hm & Ht & Hs & Hall).
  constructor; cbn; try done.
  - lia.
  - by rewrite Hnone.
  - intros g Hg. destruct (wo_group0 g Hg) as (H1 & H2 & H3). unfold parentAvailableAt in H1. rewrite Ea in H1.
    split_and!; cbn; try apply H3; lia.
  - intros e He. specialize (wo_last0 e He). unfold currentTimelineAvailableAt in *. cbn. rewrite Ea in wo_last0.
    by destruct (es_activeMaintenanceGroup _).
  - apply Forall_app. split; [done |]. unfold unitCompleted. rewrite Ea. apply Forall_singleton. split; [cbn [cr_wire cr_emissions]; congruence | done].
Qed.

Lemma completeGroup_ok w : worldOk w -> worldOk (step w Call_CompleteGroup).
Proof.
  intros Hw. cbn [step]. destruct (completeMaintenanceGroup _) as [[r |] s'] eqn:E; [| unchanged completeMaintenanceGroup_fails E].
  unfold completeMaintenanceGroup in E. destruct (es_activeMaintenanceGroup (wd_state w)) as [g |] eqn:Eg; [| revert E; rejected].
  destruct (es_pendingRevision (wd_state w)) eqn:Er; cbn [isNone negb orb] in E; [revert E; rejected |].
  destruct (Z.eqb_spec (mg_committedWireBytes g) (mg_totalWireBytes g)) as [Hdone |]; [| revert E; rejected].
  pose proof (no_live w Hw Er) as Hnone. destruct Hw. destruct (wo_group0 g Eg) as (Hp & Hav & Hnb & Hc & Hm & Ht & Hs & Hall).
  assert (Hcomp : Forall completedOk (wd_completed w ++ groupCompleted w)).
  { apply Forall_app. split; [done |]. unfold groupCompleted. rewrite Eg. apply Forall_singleton. split; [cbn [cr_wire cr_emissions]; congruence | done]. }
  rewrite Hnone in *. unfold parentAvailableAt in Hp.
  assert (Hlast : forall e, last (wd_log w) = Some e -> em_deadline e <= mg_timelineAvailableAt g).
  { intros e He. specialize (wo_last0 e He). unfold currentTimelineAvailableAt in wo_last0. by rewrite Eg in wo_last0. }
  destruct (es_activeAccessUnit (wd_state w)) as [a |] eqn:Ea; injection E as _ <-; constructor; cbn; try done; try lia.
  intros a' [= <-]. destruct (wo_unit0 a eq_refl) as (H1 & H2 & H3). split_and!; cbn; try apply H3; lia.
Qed.


Lemma within_snoc notBefore deadline es e : Forall (within notBefore deadline) es -> within notBefore deadline e ->
  Forall (within notBefore deadline) (es ++ [e]).
Proof. intros. apply Forall_app. split; [done |]. by apply Forall_singleton. Qed.

(** A live transaction commits exactly when its time is within its bounds. *)
Lemma commit_live p actual s : liveOk s p ->
  commit p actual s =
    if (actual <? pe_deadline p) || (pe_latestEmissionTime p <? actual)
    then (failure (invalidArgument "MPEG-TS emission commit rejects a stale transaction"), (p, s))
    else (Success tt, (deactivate p, setRevision None (es_nextRevision s)
      (if pe_maintenanceReservation p then
         setTimeline (es_availableAt s) (es_activeAccessUnit s)
           (advanceGroup (pe_deadline p) (pe_nextCommittedWireBytes p) <$> es_activeMaintenanceGroup s) s
       else setTimeline (es_availableAt s) (advanceUnit (pe_deadline p) (pe_nextCommittedWireBytes p) <$> es_activeAccessUnit s)
              (es_activeMaintenanceGroup s) s))).
Proof.
  intros (Ha & Ho & Hr & Hp). unfold commit. rewrite Ha, Ho, Hr, Z.eqb_refl, bool_decide_eq_true_2 by done. cbn [negb orb].
  destruct (_ || _); [done |]. unfold commitProgress, currentTimelineAvailableAt.
  destruct (pe_maintenanceReservation p).
  - destruct Hp as (g & -> & Hd & Hc & Hl & Hn & Hw & Ht). rewrite Hd, Z.ltb_irrefl, Hc, Z.ltb_irrefl.
    rewrite (proj2 (Z.leb_gt _ _)), (proj2 (Z.ltb_ge _ _)) by lia. done.
  - destruct Hp as (a & -> & -> & Hd & Hc & Hl & Hn & Hw & Ht). by rewrite Hd, Z.ltb_irrefl, Hc, Z.ltb_irrefl.
Qed.

Lemma log_snoc w e : worldOk w -> em_deadline e = currentTimelineAvailableAt (wd_state w) ->
  em_deadline e <= em_actual e <= em_latest e ->
  StronglySorted Z.le (em_deadline <$> (wd_log w ++ [e])) /\
  Forall (fun e => es_origin (wd_state w) <= em_deadline e <= em_actual e /\ em_actual e <= em_latest e) (wd_log w ++ [e]).
Proof.
  intros Hw Hd He. pose proof (origin_current w Hw) as Ho. destruct Hw. split.
  - rewrite fmap_app. apply sorted_snoc; [done |]. intros y Hy. rewrite Hd.
    rewrite fmap_last in Hy. apply fmap_Some in Hy as (e' & He' & ->). by apply wo_last0.
  - apply Forall_app. split; [done |]. apply Forall_singleton. lia.
Qed.

Lemma emissionCommit_ok w actual : worldOk w -> worldOk (step w (Call_Commit actual)).
Proof.
  intros Hw. cbn [step]. destruct (wd_live w) as [p |] eqn:El; [| done].
  assert (Hp : liveOk (wd_state w) p) by (destruct Hw; by rewrite El in wo_live0).
  rewrite (commit_live p actual _ Hp). destruct (Z.ltb_spec actual (pe_deadline p)); cbn [orb].
  { destruct (failure _) eqn:E; [by apply failure_not in E |]. destruct w; cbn in *. by subst. }
  destruct (Z.ltb_spec (pe_latestEmissionTime p) actual).
  { destruct (failure _) eqn:E; [by apply failure_not in E |]. destruct w; cbn in *. by subst. }
  destruct Hp as (_ & _ & _ & Hp). destruct (pe_maintenanceReservation p).
  - destruct Hp as (g & Hg & Hd & Hc & Hl & Hn & Hwire & Ht).
    destruct (log_snoc w (emissionOf p actual) Hw) as [Hs Hall]; [by unfold currentTimelineAvailableAt; rewrite Hg | done |].
    destruct Hw. destruct (wo_group0 g Hg) as (H1 & H2 & H3 & H4 & H5 & H6 & H7 & H8). rewrite Hg.
    constructor; cbn; try done.
    + intros g' [= <-]. unfold groupOk. cbn [withCommitted wd_state wd_group fst snd advanceGroup mg_timelineAvailableAt mg_notBefore
        mg_committedWireBytes mg_totalWireBytes mg_completionDeadline]. rewrite wireSum_snoc. unfold parentAvailableAt in *. cbn in *.
      split_and!; try done; try lia. apply within_snoc; [done |]. unfold within. cbn. lia.
    + intros e. rewrite last_snoc. intros [= <-]. unfold currentTimelineAvailableAt. cbn. done.
  - destruct Hp as (a & Ha & Hg & Hd & Hc & Hl & Hn & Hwire & Ht).
    destruct (log_snoc w (emissionOf p actual) Hw) as [Hs Hall]; [by unfold currentTimelineAvailableAt; rewrite Hg, Ha | done |].
    destruct Hw. destruct (wo_unit0 a Ha) as (H1 & H2 & H4 & H5 & H6 & H7 & H8). rewrite Ha.
    constructor; cbn; try done.
    + intros a' [= <-]. unfold unitOk. cbn [withCommitted wd_state wd_unit fst snd advanceUnit au_timelineAvailableAt au_emitOnMaster
        au_committedWireBytes au_totalWireBytes au_completionDeadline]. rewrite wireSum_snoc. cbn.
      split_and!; try done; try lia. apply within_snoc; [done |]. unfold within. cbn. lia.
    + intros g'. by rewrite Hg.
    + intros e. rewrite last_snoc. intros [= <-]. unfold currentTimelineAvailableAt. cbn. by rewrite Hg.
Qed.

Lemma drop_ok w : worldOk w -> worldOk (step w Call_Drop).
Proof.
  intros Hw. cbn [step]. destruct (wd_live w) as [p |] eqn:El; [| done]. destruct Hw. rewrite El in wo_live0.
  destruct wo_live0 as (Ha & Ho & Hr & _). unfold cancel. rewrite Ha, Ho, Hr, Z.eqb_refl, bool_decide_eq_true_2 by done.
  by constructor.
Qed.

Lemma emissionStep_ok w c : worldOk w -> callTyped c -> worldOk (step w c).
Proof.
  intros Hw Hc. destruct c; cbn in Hc.
  - by apply beginUnit_ok.
  - by apply prepared_unit_ok.
  - by apply completeUnit_ok.
  - destruct Hc. by apply beginGroup_ok.
  - by apply prepared_group_ok.
  - by apply completeGroup_ok.
  - by apply emissionCommit_ok.
  - by apply drop_ok.
Qed.

Lemma emissionRun_ok calls w : worldOk w -> Forall callTyped calls -> worldOk (run calls w).
Proof.
  intros Hw Hc. revert w Hw. induction Hc as [| c calls Hc _ IH]; intros w Hw; [done |]. by apply IH, emissionStep_ok.
Qed.


Lemma emissionStep_same w c : es_plan (wd_state (step w c)) = es_plan (wd_state w) /\ es_origin (wd_state (step w c)) = es_origin (wd_state w).
Proof.
  destruct c; cbn [step].
  - destruct (beginAccessUnit _ _ _ _ _) as [[r |] s'] eqn:E.
    + apply beginAccessUnit_inv in E as (_ & _ & _ & total & _ & _ & _ & _ & ->). done.
    + by apply beginAccessUnit_fails in E as ->.
  - destruct (prepareAccessUnit _ _) as [[p |] s'] eqn:E.
    + apply prepareAccessUnit_inv in E as (_ & _ & a & wire & _ & _ & _ & _ & -> & _). done.
    + by apply prepareAccessUnit_fails in E as ->.
  - unfold completeAccessUnit. destruct (es_activeAccessUnit _) as [a |]; [| by destruct (failure _)].
    destruct (_ || _); [by destruct (failure _) | done].
  - destruct (beginMaintenanceGroup _ _ _ _ _) as [[r |] s'] eqn:E.
    + apply beginMaintenanceGroup_inv in E as (_ & _ & total & _ & _ & ->). done.
    + by apply beginMaintenanceGroup_fails in E as ->.
  - destruct (prepareMaintenance _ _) as [[p |] s'] eqn:E.
    + apply prepareMaintenance_inv in E as (_ & g & wire & _ & _ & _ & _ & -> & _). done.
    + by apply prepareMaintenance_fails in E as ->.
  - unfold completeMaintenanceGroup. destruct (es_activeMaintenanceGroup _) as [g |]; [| by destruct (failure _)].
    destruct (_ || _); [by destruct (failure _) | by destruct (es_activeAccessUnit _)].
  - destruct (wd_live w) as [p |]; [| done]. unfold commit. destruct (_ || _); [by destruct (failure _) |].
    destruct (_ <? _); [by destruct (failure _) |]. unfold commitProgress. repeat case_match; simplify_eq; done.
  - destruct (wd_live w) as [p |]; [| done]. unfold cancel. by destruct (_ && _).
Qed.

Lemma emissionRun_same calls w : es_plan (wd_state (run calls w)) = es_plan (wd_state w) /\
  es_origin (wd_state (run calls w)) = es_origin (wd_state w).
Proof.
  revert w. induction calls as [| c calls IH]; intros w; [done |].
  change (run (c :: calls) w) with (run calls (step w c)). destruct (IH (step w c)) as [-> ->]. apply emissionStep_same.
Qed.

Lemma emissionStarted_ok plan origin address s : createSchedule plan origin address = Success s -> planTyped plan -> worldOk (started s).
Proof. intros [= <-] Hp. constructor; cbn; try done. constructor. Qed.

(** ** A whole access unit *)

(** The payload of an access unit in datagrams as large as the plan allows,
    the remainder last. *)
Definition maximalDatagrams (plan : EmissionPlan) (payload : Z) : list Z :=
  replicate (Z.to_nat (payload / ep_maximumPayloadBytes plan)) (ep_maximumPayloadBytes plan) ++
  (if payload mod ep_maximumPayloadBytes plan =? 0 then [] else [payload mod ep_maximumPayloadBytes plan]).

(** Each datagram is prepared and committed at its deadline. *)
Fixpoint emitDatagrams (payloads : list Z) (s : EmissionState) : Status * EmissionState :=
  match payloads with
  | [] => (Success tt, s)
  | payload :: payloads =>
      match prepareAccessUnit payload s with
      | (Failure e, s) => (failure e, s)
      | (Success p, s) =>
          match commit p (pe_deadline p) s with
          | (Failure e, (_, s)) => (failure e, s)
          | (Success _, (_, s)) => emitDatagrams payloads s
          end
      end
  end.

Definition datagramOk (plan : EmissionPlan) (payload : Z) : Prop :=
  0 < payload <= ep_maximumPayloadBytes plan /\ payload mod ep_packetSizeBytes plan = 0.

Definition geometryOk (plan : EmissionPlan) : Prop :=
  planTyped plan /\ 0 < ep_packetSizeBytes plan /\ 0 < ep_maximumPayloadBytes plan /\
  ep_maximumPayloadBytes plan mod ep_packetSizeBytes plan = 0.

Definition datagramsWire (plan : EmissionPlan) (payloads : list Z) : Z :=
  foldr (fun payload n => payload + ep_perDatagramOverheadBytes plan + n) 0 payloads.

Lemma datagramsWire_nonneg plan payloads : planTyped plan -> Forall (datagramOk plan) payloads -> 0 <= datagramsWire plan payloads.
Proof. intros (_ & _ & Ho & _). induction 1 as [| x l [Hx _] _ IH]; cbn; [done |]. fold (datagramsWire plan l). lia. Qed.

Lemma datagramsWire_app plan a b : datagramsWire plan (a ++ b) = datagramsWire plan a + datagramsWire plan b.
Proof. unfold datagramsWire. induction a; cbn; lia. Qed.

Lemma datagramsWire_replicate plan n m :
  datagramsWire plan (replicate n m) = Z.of_nat n * (m + ep_perDatagramOverheadBytes plan).
Proof. induction n as [| n IH]; [done |]. cbn [replicate datagramsWire foldr]. fold (datagramsWire plan (replicate n m)). rewrite IH. lia. Qed.

Lemma maximalDatagrams_length plan payload : 0 < ep_maximumPayloadBytes plan -> 0 <= payload ->
  Z.of_nat (length (maximalDatagrams plan payload)) = datagramsFor plan payload.
Proof.
  intros Hm Hp. unfold maximalDatagrams, datagramsFor. rewrite ceil_split by lia. rewrite length_app, length_replicate.
  pose proof (Z.div_pos payload (ep_maximumPayloadBytes plan) Hp Hm). destruct (_ =? 0); cbn [length negb]; lia.
Qed.

Lemma maximalDatagrams_wire plan payload : 0 < ep_maximumPayloadBytes plan -> 0 <= payload ->
  datagramsWire plan (maximalDatagrams plan payload) = payload + datagramsFor plan payload * ep_perDatagramOverheadBytes plan.
Proof.
  intros Hm Hp. unfold maximalDatagrams, datagramsFor. rewrite ceil_split by lia.
  rewrite datagramsWire_app, datagramsWire_replicate.
  pose proof (Z.div_pos payload (ep_maximumPayloadBytes plan) Hp Hm).
  pose proof (Z.div_mod payload (ep_maximumPayloadBytes plan) ltac:(lia)).
  rewrite Z2Nat.id by done. destruct (Z.eqb_spec (payload mod ep_maximumPayloadBytes plan) 0); cbn; lia.
Qed.

Lemma maximalDatagrams_ok plan payload : geometryOk plan -> 0 <= payload -> payload mod ep_packetSizeBytes plan = 0 ->
  Forall (datagramOk plan) (maximalDatagrams plan payload).
Proof.
  intros (_ & Hs & Hm & Hd) Hp Hq. unfold maximalDatagrams. apply Forall_app. split.
  - apply Forall_replicate. split; [lia | done].
  - pose proof (Z.mod_pos_bound payload (ep_maximumPayloadBytes plan) Hm).
    destruct (Z.eqb_spec (payload mod ep_maximumPayloadBytes plan) 0); [by constructor |]. apply Forall_singleton. split; [lia |].
    apply Z.mod_divide in Hq, Hd; [| lia | lia]. apply Z.mod_divide; [lia |].
    rewrite Z.mod_eq by lia. apply Z.divide_sub_r; [done |]. by apply Z.divide_mul_l.
Qed.


Lemma datagram_wire plan payload : geometryOk plan -> datagramOk plan payload ->
  payload + ep_perDatagramOverheadBytes plan <= uint64_max ->
  wireBytesForPayload plan payload = Success (payload + ep_perDatagramOverheadBytes plan).
Proof.
  intros ((_ & Hm & Ho & _) & Hs & Hm' & _) [Hp Hq] Hfit. unfold wireBytesForPayload.
  rewrite !(proj2 (Z.eqb_neq _ _)) by lia. rewrite Hq. cbn [negb orb Z.eqb]. rewrite <- ceil_split by lia.
  replace ((payload + ep_maximumPayloadBytes plan - 1) / ep_maximumPayloadBytes plan) with 1.
  2: { apply Z.div_unique with (r := payload - 1); lia. }
  change (u64 1) with 1. rewrite !Z.mul_1_l.
  replace (negb _ && _) with false.
  2: { destruct (Z.eqb_spec (ep_perDatagramOverheadBytes plan) 0); cbn [negb andb]; [done |]. symmetry. apply Z.ltb_ge.
       apply Z.div_le_lower_bound; lia. }
  unfold u64. rewrite (Z.mod_small (ep_perDatagramOverheadBytes plan)) by (ranges; lia).
  rewrite Z.mod_small by (ranges; lia). done.
Qed.

(** What emitting datagrams makes of a schedule with an active access unit. *)
Definition emittedState (a : ActiveAccessUnit) (committed next : Z) (s : EmissionState) : EmissionState :=
  setRevision None next
    (setTimeline (es_availableAt s) (Some (advanceUnit (au_timelineAvailableAt a) committed a)) None s).

Lemma prepare_emitted payload a committed next s wait : geometryOk (es_plan s) -> datagramOk (es_plan s) payload ->
  checkedSubtract (au_timelineAvailableAt a) (au_emitOnMaster a) = Success wait ->
  au_timelineAvailableAt a <= au_completionDeadline a -> 0 <= committed ->
  committed + (payload + ep_perDatagramOverheadBytes (es_plan s)) <= au_totalWireBytes a -> au_totalWireBytes a <= uint64_max ->
  0 <= next < uint64_max ->
  prepareAccessUnit payload (emittedState a committed next s) =
    (Success (mkPrepared (es_address s) next (au_timelineAvailableAt a) (au_completionDeadline a) wait
       (payload + ep_perDatagramOverheadBytes (es_plan s)) (committed + (payload + ep_perDatagramOverheadBytes (es_plan s)))
       (au_timelineAvailableAt a) false true),
     setRevision (Some next) (next + 1) (emittedState a committed next s)).
Proof.
  intros Hg Hd Hw Ht Hc Hfit Hm Hn. pose proof Hg as ((_ & _ & Ho & _) & _). pose proof Hd as [Hp _].
  unfold prepareAccessUnit, accessUnitReservation, emittedState. cbn.
  rewrite datagram_wire by (done || lia). cbn [bindResult]. rewrite !(proj2 (Z.ltb_ge _ _)) by lia. cbn [orb]. rewrite Hw.
  cbn [rv_wireBytes rv_notBefore rv_plannedWait rv_nextCommittedWireBytes rv_completion].
  rewrite (proj2 (Z.ltb_ge _ _)), (proj2 (Z.eqb_neq _ _)) by lia. cbn [orb].
  unfold u64. by rewrite !Z.mod_small by (ranges; lia).
Qed.

Lemma commit_emitted payload a committed next s wait : geometryOk (es_plan s) -> datagramOk (es_plan s) payload ->
  au_timelineAvailableAt a <= au_completionDeadline a ->
  committed + (payload + ep_perDatagramOverheadBytes (es_plan s)) <= au_totalWireBytes a ->
  let p := mkPrepared (es_address s) next (au_timelineAvailableAt a) (au_completionDeadline a) wait
       (payload + ep_perDatagramOverheadBytes (es_plan s)) (committed + (payload + ep_perDatagramOverheadBytes (es_plan s)))
       (au_timelineAvailableAt a) false true in
  commit p (pe_deadline p) (setRevision (Some next) (next + 1) (emittedState a committed next s)) =
    (Success tt, (deactivate p, emittedState a (committed + (payload + ep_perDatagramOverheadBytes (es_plan s))) (next + 1) s)).
Proof.
  intros Hg Hd Ht Hfit p. pose proof Hg as ((_ & _ & Ho & _) & _). pose proof Hd as [Hp _].
  rewrite commit_live.
  - cbn [p pe_deadline pe_latestEmissionTime pe_maintenanceReservation]. rewrite Z.ltb_irrefl, (proj2 (Z.ltb_ge _ _)) by lia. done.
  - unfold liveOk. cbn. split_and!; try done. eexists. split_and!; [done | done |]. unfold reserves. cbn. split_and!; done || lia.
Qed.

Lemma emitDatagrams_ok s payloads : geometryOk (es_plan s) -> Forall (datagramOk (es_plan s)) payloads -> forall a committed next wait,
  checkedSubtract (au_timelineAvailableAt a) (au_emitOnMaster a) = Success wait ->
  au_timelineAvailableAt a <= au_completionDeadline a -> 0 <= committed ->
  committed + datagramsWire (es_plan s) payloads <= au_totalWireBytes a -> au_totalWireBytes a <= uint64_max ->
  0 <= next -> next + Z.of_nat (length payloads) <= uint64_max ->
  emitDatagrams payloads (emittedState a committed next s) =
    (Success tt, emittedState a (committed + datagramsWire (es_plan s) payloads) (next + Z.of_nat (length payloads)) s).
Proof.
  intros Hg Hall. induction Hall as [| payload payloads Hd Hall IH]; intros a committed next wait Hw Ht Hc Hfit Hm Hn Hlen.
  { cbn [emitDatagrams datagramsWire foldr length]. by rewrite !Z.add_0_r. }
  cbn [datagramsWire foldr length] in *. fold (datagramsWire (es_plan s) payloads) in *.
  pose proof (datagramsWire_nonneg _ payloads (proj1 Hg) Hall) as Hrest.
  pose proof Hg as ((_ & _ & Ho & _) & _). pose proof Hd as [Hp _].
  cbn [emitDatagrams]. rewrite (prepare_emitted _ _ _ _ _ wait) by (done || lia). rewrite commit_emitted by (done || lia).
  rewrite (IH a _ _ wait) by (done || lia). do 2 f_equal; lia.
Qed.

Lemma created_geometry mux cadence audio queued residence plan :
  createEmissionPlan mux cadence audio queued residence = Success plan ->
  is_u 16 (mp_maximumPacketsPerDatagram mux) -> is_u 16 (mp_packetSize mux) -> is_u 64 queued -> geometryOk plan.
Proof.
  intros Hc Hn Hp Hq. unfold createEmissionPlan in Hc. cbv zeta in Hc.
  destruct (_ || _) eqn:E; [by apply failure_not in Hc |]. injection Hc as <-.
  apply orb_false_iff in E as [E Ehigh]. apply orb_false_iff in E as [E _]. apply orb_false_iff in E as [_ E].
  apply Z.ltb_ge in Ehigh. apply Z.eqb_neq in E. unfold geometryOk, planTyped. cbn.
  assert (Hu : u64 (mp_maximumPacketsPerDatagram mux * mp_packetSize mux) = mp_maximumPacketsPerDatagram mux * mp_packetSize mux).
  { unfold u64. apply Z.mod_small. ranges. nia. }
  rewrite Hu in *. assert (0 < mp_packetSize mux) by (ranges; nia).
  assert (0 <= (if bool_decide (mp_transportKind mux = RtpAvp) then RtpHeaderBytes else 0) <= RtpHeaderBytes)
    by (unfold RtpHeaderBytes; destruct (bool_decide _); lia).
  unfold RtpHeaderBytes in *. split_and!; try (ranges; nia). apply Z.mod_mul. lia.
Qed.


Lemma payload_whole plan payload w : wireBytesForPayload plan payload = Success w -> payload mod ep_packetSizeBytes plan = 0.
Proof.
  unfold wireBytesForPayload. destruct (Z.eqb_spec (payload mod ep_packetSizeBytes plan) 0); [done |].
  cbn [negb]. rewrite orb_true_r. by intros []%failure_not.
Qed.

(** C24: Under every schedule of access units and maintenance groups, prepared,
    committed and dropped datagrams, the committed datagrams lie on one timeline
    that starts at the origin and never goes back, each leaves between its
    deadline and its latest time, and every completed access unit or maintenance
    group has committed exactly the wire bytes it was opened for (its payload
    and one overhead for each of its datagrams), all of them within its own
    window. *)
Theorem emission_timeline plan origin address s calls :
  createSchedule plan origin address = Success s -> planTyped plan -> Forall callTyped calls ->
  let w := run calls (started s) in
  StronglySorted Z.le (em_deadline <$> wd_log w) /\
  Forall (fun e => origin <= em_deadline e <= em_actual e /\ em_actual e <= em_latest e) (wd_log w) /\
  Forall (fun c => wireSum (cr_emissions c) = cr_wire c /\
    Forall (within (cr_notBefore c) (cr_deadline c)) (cr_emissions c)) (wd_completed w).
Proof.
  intros Hc Hp Hcalls w. destruct (emissionRun_same calls (started s)) as [_ Ho].
  destruct (emissionRun_ok calls _ (emissionStarted_ok _ _ _ _ Hc Hp) Hcalls). fold w in Ho, wo_log0, wo_sorted0, wo_completed0.
  injection Hc as <-. cbn in Ho. rewrite Ho in wo_log0. done.
Qed.

(** C25: An access unit that the schedule accepts can always be emitted: cut into
    the largest datagrams the plan allows, each prepared and committed at its
    deadline, every call succeeds, and so does the completion, after which the
    timeline is available from the later of the access unit's emission time and
    the end of what came before. *)
Theorem emission_completes mux cadence audio queued residence stream payload emit dispatch s r s' :
  createEmissionPlan mux cadence audio queued residence = Success (es_plan s) ->
  is_u 16 (mp_maximumPacketsPerDatagram mux) -> is_u 16 (mp_packetSize mux) -> is_u 64 queued -> is_u 64 payload ->
  0 <= es_nextRevision s -> es_nextRevision s + datagramsFor (es_plan s) payload <= uint64_max ->
  beginAccessUnit stream payload emit dispatch s = (Success r, s') ->
  exists emitted, emitDatagrams (maximalDatagrams (es_plan s) payload) s' = (Success tt, emitted) /\
    completeAccessUnit emitted =
      (Success tt, setRevision None (es_nextRevision s + datagramsFor (es_plan s) payload)
         (setTimeline (Z.max emit (es_availableAt s)) None None s)).
Proof.
  intros Hplan Hn Hps Hq Hp Hnext Hrev Hb. pose proof (created_geometry _ _ _ _ _ _ Hplan Hn Hps Hq) as Hg.
  apply beginAccessUnit_inv in Hb as (Ha & Hgroup & Hr & total & Ht & _ & Hd & Hdebt & ->).
  pose proof (payload_whole _ _ _ Ht) as Hwhole. pose proof Hg as (Hpt & _ & Hm & _).
  apply payload_wire in Ht as (-> & Hw & Hmax); [| done | ranges; lia].
  set (a := mkAccessUnit _ _ _ _ _ _ _).
  assert (E : setTimeline (es_availableAt s) (Some a) None s = emittedState a 0 (es_nextRevision s) s)
    by (unfold emittedState, setRevision, setTimeline; cbn; by rewrite <- Hr).
  rewrite E, (emitDatagrams_ok s _ Hg (maximalDatagrams_ok _ payload Hg ltac:(lia) Hwhole) a 0 (es_nextRevision s) r.1);
    rewrite ?maximalDatagrams_wire, ?maximalDatagrams_length by lia; try (done || (cbn; lia)).
  eexists. split; [done |]. unfold completeAccessUnit. cbn -[Z.add]. rewrite Z.add_0_l, Z.eqb_refl. done.
Qed.


(** ** A schedule *)

Definition exampleMux : MediaTsMuxPlanParameters :=
  let c v := mkConstraint v "iso" ProtocolMaximum in
  mkParameters 1 1 0 0x100 3 (mkTiming (c 40) (c 100) (c 100) (c 5) 1 90000)
    (VideoOnly (mkVideoOnly 0x101 0x101 0x1B (mkVideoSeeds 0 0 0)))
    (mkVideoContract TsH264 AnnexB 0 0x1B) ParameterSetsNever 100000000 500 188 7 RtpAvp.

Definition examplePlan : EmissionPlan := mkEmissionPlan 100000000 40000000 None 80000000 188 1316 12 1000000.

Definition exampleSchedule : EmissionState := mkEmissionState 9 examplePlan 500 500 None None None 1.

Lemma example_plan : createEmissionPlan exampleMux 40000000 None 1000000 80000000 = Success (es_plan exampleSchedule).
Proof. reflexivity. Qed.

(** An access unit of ten packets in two datagrams, with a group of two packets
    between them. *)
Definition exampleCalls : list EmissionCall :=
  [Call_BeginUnit Scheduled_Video 1880 1000 100001000; Call_PrepareUnit 1316; Call_Commit 1000; Call_CompleteUnit;
   Call_BeginGroup 376 1 2000 5000; Call_PrepareGroup 376; Call_Commit 1999; Call_Commit 2500; Call_CompleteGroup;
   Call_PrepareUnit 564; Call_Drop; Call_PrepareUnit 564; Call_Commit 3000; Call_CompleteUnit].

Lemma emission_timeline_witness :
  em_deadline <$> wd_log (run exampleCalls (started exampleSchedule)) = [1000; 2000; 2000] /\
  StronglySorted Z.le (em_deadline <$> wd_log (run exampleCalls (started exampleSchedule))) /\
  cr_wire <$> wd_completed (run exampleCalls (started exampleSchedule)) = [388; 1904].
Proof.
  assert (Hp : planTyped examplePlan) by (unfold planTyped; cbn; ranges; lia).
  assert (Hc : Forall callTyped exampleCalls)
    by (unfold exampleCalls; repeat (apply Forall_cons; split); cbn; first [done | ranges; lia | by apply Forall_nil]).
  destruct (emission_timeline examplePlan 500 9 exampleSchedule exampleCalls eq_refl Hp Hc) as (Hs & _).
  split; [vm_compute; reflexivity |]. split; [exact Hs | vm_compute; reflexivity].
Defined.

Lemma emission_completes_witness :
  exists s' emitted, beginAccessUnit Scheduled_Video 1880 1000 100001000 exampleSchedule = (Success (0, 100001000), s') /\
    emitDatagrams [1316; 564] s' = (Success tt, emitted) /\
    completeAccessUnit emitted =
      (Success tt, setRevision None 3 (setTimeline 1000 None None exampleSchedule)).
Proof.
  destruct (emission_completes exampleMux 40000000 None 1000000 80000000 Scheduled_Video 1880 1000 100001000 exampleSchedule
    (0, 100001000) _ example_plan ltac:(cbn; ranges; lia) ltac:(cbn; ranges; lia) ltac:(ranges; lia) ltac:(ranges; lia)
    ltac:(cbn; lia) ltac:(vm_compute; discriminate) eq_refl) as (emitted & He & Hc).
  eexists; exists emitted. split; [reflexivity |]. split; [exact He | exact Hc].
Defined.

End MediaTsDatagramEmissionSchedule.
