(* ===== verification/TsSourceClock.v ===== *)
(** * The programme clock of a received transport stream

    Models [protocol/mpegts/MediaTsProgramClockTracker.{h,cpp}], which turns the
    programme clock references of a stream into calibrations of a source time
    line, and [protocol/mpegts/MediaTsSourceClockMapper.{h,cpp}], which places
    presentation and decode timestamps on that time line. *)

From stdpp Require Import sets sorting.
From S2P Require Import Prelude MediaResult CheckedArithmetic TimeBase.
Import MediaRunningTime.

Local Open Scope Z_scope.
Local Open Scope result_scope.

(** ** The tracker *)

Module MediaTsProgramClockTracker.
Import MediaTimestampUnwrapper.

Record MediaTsVideoOnlyProgramClockPolicy := mkVideoOnlyPolicy {
  vp_programNumber : Z;
  vp_pmtPid : Z;
  vp_pcrPid : Z;
  vp_videoPid : Z;
  vp_maximumGap27Mhz : Z;
}.

Record MediaTsAudioVideoProgramClockPolicy := mkAudioVideoPolicy {
  ap_programNumber : Z;
  ap_pmtPid : Z;
  ap_pcrPid : Z;
  ap_videoPid : Z;
  ap_audioPid : Z;
  ap_maximumGap27Mhz : Z;
}.

Inductive MediaTsProgramClockPolicy :=
| VideoOnlyClock (p : MediaTsVideoOnlyProgramClockPolicy)
| AudioVideoClock (p : MediaTsAudioVideoProgramClockPolicy).

Record MediaTsPcrObservation := mkObservation {
  po_byteOffset : Z;
  po_pcrPid : Z;
  po_pcr27Mhz : Z;
  po_discontinuity : bool;
}.

Record MediaTsPcrCalibration := mkCalibration {
  pc_generation : Z;
  pc_pcr27Mhz : Z;
  pc_sourceTime : Z;
}.

Record Tracker := mkTracker {
  tr_policy : MediaTsProgramClockPolicy;
  tr_generation : Z;
  tr_unwrapper : Unwrapper;
  tr_previousPcr : option Z;
  tr_previousByteOffset : option Z;
  tr_generationPcrAnchor : option Z;
  tr_generationSourceAnchor : option Z;
  tr_lastPublishedSourceTime : option Z;
  tr_calibration : option MediaTsPcrCalibration;
  tr_ready : bool;
  tr_reacquiring : bool;
}.

Definition validPid (pid : Z) : bool := (0 <? pid) && (pid <? 0x1fff).

Definition maximumGap27Mhz (policy : MediaTsProgramClockPolicy) : Z :=
  match policy with VideoOnlyClock p => vp_maximumGap27Mhz p | AudioVideoClock p => ap_maximumGap27Mhz p end.

Definition requiresReacquisition (delta : Z) (policy : MediaTsProgramClockPolicy) : bool :=
  (delta <=? 0) || (maximumGap27Mhz policy <? delta).

Definition pcrPid (policy : MediaTsProgramClockPolicy) : Z :=
  match policy with VideoOnlyClock p => vp_pcrPid p | AudioVideoClock p => ap_pcrPid p end.

Definition validPolicy (policy : MediaTsProgramClockPolicy) : bool :=
  match policy with
  | VideoOnlyClock p =>
      (0 <? vp_programNumber p) && validPid (vp_pmtPid p) && validPid (vp_pcrPid p) && validPid (vp_videoPid p) &&
      (0 <? vp_maximumGap27Mhz p)
  | AudioVideoClock p =>
      (0 <? ap_programNumber p) && validPid (ap_pmtPid p) && validPid (ap_pcrPid p) && validPid (ap_videoPid p) &&
      (0 <? ap_maximumGap27Mhz p) && validPid (ap_audioPid p) && negb (ap_audioPid p =? ap_videoPid p)
  end.

Definition createTracker (policy : MediaTsProgramClockPolicy) (generation : Z) : Result Tracker :=
  if negb (validPolicy policy) then failure (invalidArgument "Invalid immutable MPEG-TS PCR policy")
  else Success (mkTracker policy generation (create MpegTsPcr27Mhz generation) None None None None None None false false).

Definition reacquire (t : Tracker) : Result Tracker :=
  if negb (tr_reacquiring t) && (tr_generation t =? uint64_max)
  then failure (invalidArgument "MPEG-TS PCR generation exhausted")
  else
    let generation := if tr_reacquiring t then tr_generation t else u64 (tr_generation t + 1) in
    Success (mkTracker (tr_policy t) generation (reset generation (tr_unwrapper t)) None (tr_previousByteOffset t) None None
               (tr_lastPublishedSourceTime t) None false true).

Definition setUnwrapper (u : Unwrapper) (t : Tracker) : Tracker :=
  mkTracker (tr_policy t) (tr_generation t) u (tr_previousPcr t) (tr_previousByteOffset t) (tr_generationPcrAnchor t)
    (tr_generationSourceAnchor t) (tr_lastPublishedSourceTime t) (tr_calibration t) (tr_ready t) (tr_reacquiring t).

(** The value of an unwrapping, when it has one. *)
Definition valueOf (r : MediaTimestampUnwrapResult) : option Z :=
  match ur_status r, ur_timestamp r with UnwrapValue, Some timestamp => Some (pt_ticks timestamp) | _, _ => None end.

(** Reacquires and unwraps the same reading as the first of its generation. *)
Definition restart (raw : MediaProtocolTimestamp) (t : Tracker) : Result (Z * Tracker) :=
  let* t := reacquire t in
  let '(unwrapped, u) := unwrap raw (tr_unwrapper t) in
  match valueOf unwrapped with
  | Some extended => Success (extended, setUnwrapper u t)
  | None => failure (invalidArgument "MPEG-TS PCR failed to establish a new clock generation")
  end.

Definition unwrapOrRestart (raw : MediaProtocolTimestamp) (t : Tracker) : Result (Z * Tracker) :=
  let '(unwrapped, u) := unwrap raw (tr_unwrapper t) in
  match valueOf unwrapped with
  | Some extended => Success (extended, setUnwrapper u t)
  | None => restart raw (setUnwrapper u t)
  end.

Definition restartOnGap (raw : MediaProtocolTimestamp) (extended : Z) (t : Tracker) : Result (Z * Tracker) :=
  match tr_previousPcr t with
  | Some previous => if requiresReacquisition (extended - previous) (tr_policy t) then restart raw t else Success (extended, t)
  | None => Success (extended, t)
  end.

Definition lockOnSecond (t : Tracker) : Tracker :=
  match tr_previousPcr t with
  | Some _ =>
      mkTracker (tr_policy t) (tr_generation t) (tr_unwrapper t) (tr_previousPcr t) (tr_previousByteOffset t)
        (tr_generationPcrAnchor t) (tr_generationSourceAnchor t) (tr_lastPublishedSourceTime t) (tr_calibration t) true false
  | None => t
  end.

(** The anchors of the generation, set by its first reading. *)
Definition anchors (extended : Z) (t : Tracker) : Result (Z * Z) :=
  match tr_generationPcrAnchor t, tr_generationSourceAnchor t with
  | Some pcr, Some source => Success (pcr, source)
  | _, _ =>
      let* natural := checkedFromTicks extended 1 27000000 in
      Success (extended, match tr_lastPublishedSourceTime t with Some last => Z.max last natural | None => natural end)
  end.

Definition publish (observation : MediaTsPcrObservation) (extended : Z) (t : Tracker) : Result Tracker :=
  let* (pcrAnchor, sourceAnchor) := anchors extended t in
  let* elapsed := checkedFromTicks (extended - pcrAnchor) 1 27000000 in
  let* sourceTime := checkedAdd sourceAnchor elapsed in
  Success (mkTracker (tr_policy t) (tr_generation t) (tr_unwrapper t) (Some extended) (Some (po_byteOffset observation))
             (Some pcrAnchor) (Some sourceAnchor)
             (if tr_ready t then Some sourceTime else tr_lastPublishedSourceTime t)
             (Some (mkCalibration (tr_generation t) extended sourceTime)) (tr_ready t) (tr_reacquiring t)).

Definition observeCandidate (observation : MediaTsPcrObservation) (t : Tracker) : Result Tracker :=
  if negb (po_pcrPid observation =? pcrPid (tr_policy t))
  then failure (invalidArgument "MPEG-TS PCR observation conflicts with immutable plan")
  else if match tr_previousByteOffset t with Some previous => po_byteOffset observation <=? previous | None => false end
  then failure (invalidArgument "MPEG-TS PCR byte offsets must increase strictly")
  else if uw_modulus (tr_unwrapper t) <=? po_pcr27Mhz observation
  then failure (invalidArgument "MPEG-TS PCR is outside the 27 MHz counter range")
  else
    let* t := if po_discontinuity observation then reacquire t else Success t in
    let* raw := createTimestamp (po_pcr27Mhz observation) 1 27000000 in
    let* (extended, t) := unwrapOrRestart raw t in
    let* (extended, t) := restartOnGap raw extended t in
    publish observation extended (lockOnSecond t).

(** Both calls work on a copy, which replaces the tracker when they succeed. *)
Definition observe (observation : MediaTsPcrObservation) (t : Tracker) : Status * Tracker :=
  match observeCandidate observation t with
  | Success t => (Success tt, t)
  | Failure e => (failure e, t)
  end.

Definition observePcrContinuityLoss (pid : Z) (t : Tracker) : Status * Tracker :=
  if negb (pid =? pcrPid (tr_policy t)) then (Success tt, t)
  else
    match reacquire t with
    | Success t => (Success tt, t)
    | Failure e => (failure e, t)
    end.

Definition calibration (t : Tracker) : Result MediaTsPcrCalibration :=
  match tr_ready t, tr_calibration t with
  | true, Some c => Success c
  | _, _ => failure (notInitialized "MPEG-TS PCR calibration is not locked")
  end.

(** ** Schedules of observations *)

(** The nanoseconds of a number of 27 MHz ticks, truncated. *)
Definition nanoseconds27 (ticks : Z) : Z := Z.quot (ticks * 1 * 1000000000) 27000000.

Lemma ticks27 ticks : is_i 64 ticks ->
  checkedFromTicks ticks 1 27000000 = if isInt64 (nanoseconds27 ticks) then Success (nanoseconds27 ticks)
    else Failure (invalidArgument "MediaRunningTime tick rescale is not representable").
Proof. intros Ht. apply checkedFromTicks_exact; [done | lia | lia]. Qed.

Lemma nanoseconds27_nonneg t : 0 <= t -> 27 * nanoseconds27 t <= 1000 * t < 27 * nanoseconds27 t + 27 /\ 0 <= nanoseconds27 t.
Proof.
  intros Ht. unfold nanoseconds27. rewrite Z.quot_div_nonneg by lia. replace (t * 1 * 1000000000) with (t * 1000 * 1000000) by lia.
  replace 27000000 with (27 * 1000000) by lia. rewrite Z.div_mul_cancel_r by lia.
  pose proof (Z.div_mod (t * 1000) 27 ltac:(lia)). pose proof (Z.mod_pos_bound (t * 1000) 27 ltac:(lia)).
  pose proof (Z.div_pos (t * 1000) 27 ltac:(lia) ltac:(lia)). lia.
Qed.

(** A reading continues its generation at [p]: the unwrapper stands at [p], the
    anchors are set, and the calibration is on their line. *)
Definition continues (t : Tracker) (p : Z) : Prop :=
  uw_initialized (tr_unwrapper t) = true /\ uw_lastUnwrappedTimestamp (tr_unwrapper t) = p /\
  uw_timeBaseNumerator (tr_unwrapper t) = 1 /\ uw_timeBaseDenominator (tr_unwrapper t) = 27000000 /\
  exists a s, tr_generationPcrAnchor t = Some a /\ tr_generationSourceAnchor t = Some s /\ 0 <= a <= p /\ is_i 64 s /\
    is_i 64 (s + nanoseconds27 (p - a)) /\
    tr_calibration t = Some (mkCalibration (tr_generation t) p (s + nanoseconds27 (p - a))).

(** No reading of the generation yet. *)
Definition fresh (t : Tracker) : Prop :=
  tr_generationPcrAnchor t = None /\ tr_generationSourceAnchor t = None /\ tr_calibration t = None /\ tr_ready t = false /\
  uw_initialized (tr_unwrapper t) = false.

Record trackerOk (t : Tracker) : Prop := {
  to_unwrapper : unwrapperOk (tr_unwrapper t);
  to_kind : uw_counterKind (tr_unwrapper t) = MpegTsPcr27Mhz;
  to_generation : is_u 64 (tr_generation t);
  to_previous : match tr_previousPcr t with Some p => continues t p | None => fresh t end;
  to_published : forall l, tr_lastPublishedSourceTime t = Some l -> is_i 64 l /\
    (forall s, tr_generationSourceAnchor t = Some s -> tr_ready t = false -> l <= s) /\
    (forall c, tr_calibration t = Some c -> tr_ready t = true -> l = pc_sourceTime c);
  to_ready : tr_ready t = true -> tr_reacquiring t = false /\
    exists c, tr_calibration t = Some c /\ tr_lastPublishedSourceTime t = Some (pc_sourceTime c);
}.

Lemma modulus27 t : trackerOk t -> uw_modulus (tr_unwrapper t) = modulusFor MpegTsPcr27Mhz.
Proof. intros []. rewrite (uo_modulus _ to_unwrapper0). by rewrite to_kind0. Qed.

Lemma createTracker_ok policy generation t : createTracker policy generation = Success t -> is_u 64 generation ->
  trackerOk t /\ fresh t /\ tr_lastPublishedSourceTime t = None.
Proof.
  unfold createTracker. destruct (negb _); [by intros []%failure_not |]. intros [= <-] Hg.
  split; [| done]. constructor; cbn; try done.
Qed.

Lemma reacquire_ok t t' : trackerOk t -> reacquire t = Success t' ->
  trackerOk t' /\ fresh t' /\ tr_previousPcr t' = None /\ tr_reacquiring t' = true /\ tr_policy t' = tr_policy t /\
  tr_previousByteOffset t' = tr_previousByteOffset t /\ tr_lastPublishedSourceTime t' = tr_lastPublishedSourceTime t /\
  (tr_reacquiring t = true -> tr_generation t' = tr_generation t) /\ (tr_reacquiring t = false -> tr_generation t' = tr_generation t + 1).
Proof.
  intros Ht. unfold reacquire. destruct (negb (tr_reacquiring t) && (tr_generation t =? uint64_max)) eqn:E; [by intros []%failure_not |].
  intros [= <-]. destruct Ht.
  assert (Hg : tr_reacquiring t = false -> u64 (tr_generation t + 1) = tr_generation t + 1).
  { intros Hr. rewrite Hr in E. cbn in E. apply Z.eqb_neq in E. unfold u64. apply Z.mod_small. ranges. lia. }
  split; [constructor; cbn |].
  - split; cbn; [apply (uo_modulus _ to_unwrapper0) | done].
  - done.
  - destruct (tr_reacquiring t); [done |]. unfold u64. pose proof (Z.mod_pos_bound (tr_generation t + 1) (2 ^ 64)). ranges. lia.
  - done.
  - intros l Hl. destruct (to_published0 l Hl) as (H & _). done.
  - done.
  - repeat split; cbn; try done; destruct (tr_reacquiring t); try done.
Qed.

(** What the steps of an observation may do to a tracker: its published time,
    policy and byte offset stay, and the generation moves at most once. *)
Definition restarted (t t' : Tracker) : Prop :=
  trackerOk t' /\ tr_policy t' = tr_policy t /\ tr_previousByteOffset t' = tr_previousByteOffset t /\
  tr_lastPublishedSourceTime t' = tr_lastPublishedSourceTime t /\ fresh t' /\ tr_previousPcr t' = None /\ tr_reacquiring t' = true /\
  (tr_reacquiring t = true -> tr_generation t' = tr_generation t) /\ (tr_reacquiring t = false -> tr_generation t' = tr_generation t + 1).

Lemma reacquire_restarted t t' : trackerOk t -> reacquire t = Success t' -> restarted t t'.
Proof. intros Ht (H1 & H2 & H3 & H4 & H5 & H6 & H7 & H8 & H9)%reacquire_ok; [| done]. done. Qed.

Lemma restarted_trans t t' t'' : restarted t t' -> restarted t' t'' -> restarted t t''.
Proof.
  intros (H1 & H2 & H3 & H4 & H5 & H6 & H7 & H8 & H9) (G1 & G2 & G3 & G4 & G5 & G6 & G7 & G8 & G9).
  split_and!; try congruence; try done; intros Hr; rewrite (G8 H7); [by apply H8 | by apply H9].
Qed.

(** *** Reading a clock reference *)

(** An unwrapper that has just read [extended]. *)
Definition standsAt (extended : Z) (u : Unwrapper) : Prop :=
  unwrapperOk u /\ uw_counterKind u = MpegTsPcr27Mhz /\ uw_initialized u = true /\ uw_lastUnwrappedTimestamp u = extended /\
  uw_timeBaseNumerator u = 1 /\ uw_timeBaseDenominator u = 27000000 /\ 0 <= extended <= int64_max.

Lemma unwrap_cases raw u r u' : unwrapperOk u -> unwrap raw u = (r, u') ->
  (valueOf r = None \/ exists extended, valueOf r = Some extended /\ extended = uw_lastUnwrappedTimestamp u' /\
     uw_initialized u' = true /\ uw_timeBaseNumerator u' = pt_timeBaseNumerator raw /\
     uw_timeBaseDenominator u' = pt_timeBaseDenominator raw /\ uw_lastRawTimestamp u' = pt_ticks raw) /\
  (valueOf r = None -> u' = u) /\ uw_counterKind u' = uw_counterKind u /\ uw_modulus u' = uw_modulus u /\ uw_generation u' = uw_generation u.
Proof.
  intros Hu. unfold unwrap.
  destruct (_ || _); [intros [= <- <-]; by split_and!; [left | ..] |].
  destruct (_ && _); [intros [= <- <-]; by split_and!; [left | ..] |].
  destruct (negb _); [intros [= <- <-]; split_and!; try done; right; by eexists |].
  destruct (forwardMovement _ _); [| intros [= <- <-]; by split_and!; [left | ..]].
  destruct (_ <? _); [intros [= <- <-]; by split_and!; [left | ..] |].
  intros [= <- <-]; split_and!; try done; right; by eexists.
Qed.

Lemma unwrap_stands pcr u r u' extended : unwrapperOk u -> uw_counterKind u = MpegTsPcr27Mhz ->
  unwrap (mkProtocolTimestamp pcr 1 27000000) u = (r, u') -> valueOf r = Some extended ->
  standsAt extended u' /\ extended mod modulusFor MpegTsPcr27Mhz = pcr /\ uw_modulus u' = uw_modulus u.
Proof.
  intros Hu Hk E Hv. pose proof (unwrap_ok (mkProtocolTimestamp pcr 1 27000000) u Hu) as Hu'. rewrite E in Hu'. cbn in Hu'.
  apply unwrap_cases in E as ([E | (e & He & Hl & Hi & Hn & Hd & Hraw)] & _ & Hk' & Hm & _); [congruence | | done].
  rewrite He in Hv. injection Hv as <-. destruct (uo_last _ Hu' Hi) as [Hb Hlast]. rewrite <- Hl in Hb, Hlast.
  rewrite (uo_modulus _ Hu'), Hk', Hk, Hraw in Hlast. unfold standsAt. rewrite Hk', Hk. cbn in *. done.
Qed.

(** A fresh unwrapper reads any value of its counter as it is. *)
Lemma unwrap_first pcr u : uw_initialized u = false -> 0 <= pcr < uw_modulus u ->
  exists r u', unwrap (mkProtocolTimestamp pcr 1 27000000) u = (r, u') /\ valueOf r = Some pcr.
Proof.
  intros Hi Hp. unfold unwrap. cbn [pt_ticks]. rewrite (proj2 (Z.ltb_ge _ _)), (proj2 (Z.leb_gt _ _)) by lia. rewrite Hi. cbn [orb andb negb].
  eexists _, _. split; [done |]. done.
Qed.

(** The tracker an observation publishes on: the present one, or its restart,
    after reading [extended]. *)
Definition readingOf (t : Tracker) (extended : Z) (t' : Tracker) : Prop :=
  exists t0 u, (t0 = t \/ restarted t t0) /\ trackerOk t0 /\ t' = setUnwrapper u t0 /\ standsAt extended u.

Lemma reacquire_setUnwrapper u t : uw_counterKind u = uw_counterKind (tr_unwrapper t) -> uw_modulus u = uw_modulus (tr_unwrapper t) ->
  reacquire (setUnwrapper u t) = reacquire t.
Proof. intros Hk Hm. unfold reacquire, reset. cbn. by rewrite Hk, Hm. Qed.

Lemma restart_reading pcr u t extended t' : trackerOk t ->
  uw_counterKind u = uw_counterKind (tr_unwrapper t) -> uw_modulus u = uw_modulus (tr_unwrapper t) ->
  restart (mkProtocolTimestamp pcr 1 27000000) (setUnwrapper u t) = Success (extended, t') ->
  readingOf t extended t' /\ extended mod modulusFor MpegTsPcr27Mhz = pcr /\ tr_previousPcr t' = None.
Proof.
  intros Ht Hk Hm. unfold restart. rewrite reacquire_setUnwrapper by done. intros (t0 & Hr & E)%bindResult_success.
  apply reacquire_restarted in Hr; [| done]. pose proof Hr as (Ht0 & _ & _ & _ & _ & Hp & _).
  destruct (unwrap _ _) as [r u0] eqn:Eu. destruct (valueOf r) as [e |] eqn:Ev; [| by apply failure_not in E]. injection E as <- <-.
  destruct (unwrap_stands _ _ _ _ _ (to_unwrapper _ Ht0) (to_kind _ Ht0) Eu Ev) as (Hs & He & _).
  split_and!; [| done | done]. exists t0, u0. split_and!; [by right | done | done | done].
Qed.

Lemma setUnwrapper_same t : setUnwrapper (tr_unwrapper t) t = t.
Proof. by destruct t. Qed.

Lemma unwrapOrRestart_reading pcr t extended t' : trackerOk t ->
  unwrapOrRestart (mkProtocolTimestamp pcr 1 27000000) t = Success (extended, t') ->
  readingOf t extended t' /\ extended mod modulusFor MpegTsPcr27Mhz = pcr.
Proof.
  intros Ht. unfold unwrapOrRestart. destruct (unwrap _ _) as [r u] eqn:Eu.
  destruct (unwrap_cases _ _ _ _ (to_unwrapper _ Ht) Eu) as (_ & Hsame & Hk & Hm & _). destruct (valueOf r) as [e |] eqn:Ev.
  - intros [= <- <-]. destruct (unwrap_stands _ _ _ _ _ (to_unwrapper _ Ht) (to_kind _ Ht) Eu Ev) as (Hs & He & _).
    split; [| done]. exists t, u. split_and!; [by left | done | done | done].
  - intros E. destruct (restart_reading _ _ _ _ _ Ht Hk Hm E) as (H1 & H2 & _). done.
Qed.

Definition within (t : Tracker) (extended : Z) : Prop :=
  forall p, tr_previousPcr t = Some p -> p < extended <= p + maximumGap27Mhz (tr_policy t).

Lemma restartOnGap_reading pcr t t1 extended1 extended t' : trackerOk t -> readingOf t extended1 t1 ->
  extended1 mod modulusFor MpegTsPcr27Mhz = pcr ->
  restartOnGap (mkProtocolTimestamp pcr 1 27000000) extended1 t1 = Success (extended, t') ->
  readingOf t extended t' /\ extended mod modulusFor MpegTsPcr27Mhz = pcr /\ within t' extended.
Proof.
  intros Ht Hread Hpcr. unfold restartOnGap. destruct Hread as (t0 & u & H0 & Ht0 & -> & Hs).
  change (tr_previousPcr (setUnwrapper u t0)) with (tr_previousPcr t0).
  change (tr_policy (setUnwrapper u t0)) with (tr_policy t0). destruct (tr_previousPcr t0) as [p |] eqn:Ep.
  - destruct (requiresReacquisition _ _) eqn:Eg.
    + intros E. pose proof Hs as (Hu & Hk & _).
      apply restart_reading in E as (Hr & He & Hp); [| done | by rewrite Hk, (to_kind _ Ht0) |].
      * split_and!; [| done | intros q; congruence].
        destruct Hr as (t2 & u2 & H2 & Ht2 & -> & Hs2). exists t2, u2. split_and!; [| done | done | done].
        destruct H0 as [-> | H0]; [done |]. right. destruct H2 as [-> | H2]; [done |]. by eapply restarted_trans.
      * rewrite (uo_modulus _ Hu), Hk. symmetry. by apply modulus27.
    + intros [= <- <-]. apply orb_false_iff in Eg as [E1 E2]. apply Z.leb_gt in E1. apply Z.ltb_ge in E2.
      split_and!; [by exists t0, u | done |]. intros q. cbn. rewrite Ep. intros [= <-]. lia.
  - intros [= <- <-]. split_and!; [by exists t0, u | done |]. intros q. cbn. rewrite Ep. done.
Qed.

Lemma observe_reading observation t t' : trackerOk t -> observeCandidate observation t = Success t' ->
  exists extended t1, readingOf t extended t1 /\ extended mod modulusFor MpegTsPcr27Mhz = po_pcr27Mhz observation /\ within t1 extended /\
    publish observation extended (lockOnSecond t1) = Success t'.
Proof.
  intros Ht. unfold observeCandidate. destruct (negb _); [by intros []%failure_not |].
  destruct (match tr_previousByteOffset t with Some _ => _ | None => _ end); [by intros []%failure_not |].
  destruct (_ <=? _); [by intros []%failure_not |].
  intros (t0 & H0 & E)%bindResult_success. apply bindResult_success in E as (raw & Hraw & E). injection Hraw as <-.
  apply bindResult_success in E as ([e1 t1] & H1 & E). apply bindResult_success in E as ([e2 t2] & H2 & E).
  assert (H0' : t0 = t \/ restarted t t0).
  { destruct (po_discontinuity observation); [right; by apply reacquire_restarted | left; by injection H0]. }
  assert (Ht0 : trackerOk t0) by (destruct H0' as [-> | (? & _)]; done).
  apply unwrapOrRestart_reading in H1 as [Hr1 He1]; [| done].
  destruct (restartOnGap_reading _ _ _ _ _ _ Ht0 Hr1 He1 H2) as (Hr2 & He2 & Hw).
  exists e2, t2. split_and!; [| done | done | done].
  destruct Hr2 as (t3 & u & H3 & Ht3 & -> & Hs). exists t3, u. split_and!; [| done | done | done].
  destruct H0' as [-> | H0']; [done |]. right. destruct H3 as [-> | H3]; [done |]. by eapply restarted_trans.
Qed.

Lemma ticks27_ok ticks ns : is_i 64 ticks -> checkedFromTicks ticks 1 27000000 = Success ns -> ns = nanoseconds27 ticks /\ is_i 64 ns.
Proof.
  intros Ht. rewrite ticks27 by done. destruct (isInt64 _) eqn:E; [| done]. intros [= <-]. split; [done |]. by apply isInt64_spec.
Qed.

Lemma sourceAdd_ok a b c : is_i 64 a -> is_i 64 b -> checkedAdd a b = Success c -> c = a + b /\ is_i 64 c.
Proof.
  intros Ha Hb. rewrite checkedAdd_exact by done. destruct (isInt64 _) eqn:E; [| by intros []%failure_not].
  intros [= <-]. split; [done |]. by apply isInt64_spec.
Qed.

(** The first reading of a generation anchors it, not before what was
    published. *)
Lemma publish_first observation extended t u t' : trackerOk t -> tr_previousPcr t = None -> standsAt extended u ->
  publish observation extended (lockOnSecond (setUnwrapper u t)) = Success t' ->
  trackerOk t' /\ tr_ready t' = false /\ tr_generation t' = tr_generation t /\ tr_policy t' = tr_policy t /\
  tr_lastPublishedSourceTime t' = tr_lastPublishedSourceTime t /\ tr_reacquiring t' = tr_reacquiring t /\
  tr_previousByteOffset t' = Some (po_byteOffset observation) /\ tr_previousPcr t' = Some extended.
Proof.
  intros Ht Hp (Hu & Hk & Hi & Hl & Hn & Hd & He). destruct Ht. rewrite Hp in to_previous0.
  destruct to_previous0 as (Ha & Hs & Hc & Hr & _). unfold publish, lockOnSecond. cbn [tr_previousPcr setUnwrapper]. rewrite Hp.
  intros ([a s] & E1 & E)%bindResult_success. unfold anchors in E1. cbn [tr_generationPcrAnchor setUnwrapper] in E1. rewrite Ha in E1.
  apply bindResult_success in E1 as (natural & Hnat & E1). apply ticks27_ok in Hnat as [_ Hnat]; [| ranges; lia].
  cbn [tr_lastPublishedSourceTime setUnwrapper] in E1. injection E1 as <- Es.
  apply bindResult_success in E as (elapsed & Hel & E). rewrite Z.sub_diag in Hel.
  apply ticks27_ok in Hel as [-> _]; [| ranges; lia]. change (nanoseconds27 0) with 0 in E.
  assert (Hsi : is_i 64 s). { rewrite <- Es. destruct (tr_lastPublishedSourceTime t) as [l |]; [| done].
    destruct (to_published0 l eq_refl) as [Hli _]. ranges. lia. }
  apply bindResult_success in E as (st & Hst & E). apply sourceAdd_ok in Hst as [-> _]; [| done | ranges; lia].
  injection E as <-. cbn. rewrite Hr. split_and!; try done. constructor; cbn; try done.
  - split_and!; try done. exists extended, s. split_and!; try done; try lia; rewrite Z.sub_diag; change (nanoseconds27 0) with 0; by rewrite ?Z.add_0_r.
  - intros l Hpub. destruct (to_published0 l Hpub) as (Hli & _). split_and!; [done | | done].
    intros s' [= <-] _. rewrite <- Es, Hpub. lia.
Qed.

(** A later one is published on the line of the anchors. *)
Lemma publish_next observation extended t u t' p : trackerOk t -> tr_previousPcr t = Some p -> standsAt extended u -> p < extended ->
  publish observation extended (lockOnSecond (setUnwrapper u t)) = Success t' ->
  trackerOk t' /\ tr_ready t' = true /\ tr_generation t' = tr_generation t /\ tr_policy t' = tr_policy t /\
  tr_generationPcrAnchor t' = tr_generationPcrAnchor t /\ tr_generationSourceAnchor t' = tr_generationSourceAnchor t /\
  tr_previousByteOffset t' = Some (po_byteOffset observation) /\ tr_previousPcr t' = Some extended /\ continues t' extended.
Proof.
  intros Ht Hp (Hu & Hk & Hi & Hl & Hn & Hd & He) Hlt. destruct Ht. rewrite Hp in to_previous0.
  destruct to_previous0 as (_ & _ & _ & _ & a & s & Ha & Hs & Hap & Hsi & _ & Hc). unfold publish, lockOnSecond.
  cbn [tr_previousPcr setUnwrapper]. rewrite Hp. unfold anchors. cbn [tr_generationPcrAnchor tr_generationSourceAnchor setUnwrapper].
  rewrite Ha, Hs. cbn [bindResult]. intros (elapsed & Hel & E)%bindResult_success. apply ticks27_ok in Hel as [-> Hei]; [| ranges; lia].
  apply bindResult_success in E as (st & Hst & E). apply sourceAdd_ok in Hst as [-> Hsti]; [| done | done].
  injection E as <-. cbn.
  assert (Hcont : continues (mkTracker (tr_policy t) (tr_generation t) u (Some extended) (Some (po_byteOffset observation)) (Some a)
    (Some s) (Some (s + nanoseconds27 (extended - a)))
    (Some (mkCalibration (tr_generation t) extended (s + nanoseconds27 (extended - a)))) true false) extended).
  { split_and!; try done. exists a, s. split_and!; try done; lia. }
  split_and!; try done. constructor; cbn; try done.
  - intros l [= <-]. split_and!; [done | done |]. by intros c [= <-].
  - intros _. split; [done |]. by eexists.
Qed.

(** ** Schedules of calls

    [lg] is what a reader could have been given by [calibration]: the
    calibration after each successful observation of a locked tracker. *)

Record World := mkWorld { wd_tracker : Tracker; wd_log : list MediaTsPcrCalibration }.

Inductive ClockCall := Call_Observe (observation : MediaTsPcrObservation) | Call_ContinuityLoss (pid : Z).

Definition step (w : World) (c : ClockCall) : World :=
  match c with
  | Call_Observe observation =>
      match observe observation (wd_tracker w) with
      | (Success _, t) => mkWorld t (wd_log w ++ match calibration t with Success c => [c] | Failure _ => [] end)
      | (Failure _, t) => mkWorld t (wd_log w)
      end
  | Call_ContinuityLoss pid => mkWorld (snd (observePcrContinuityLoss pid (wd_tracker w))) (wd_log w)
  end.

Definition run (calls : list ClockCall) (w : World) : World := foldl step w calls.

(** Two calibrations, the first published before the second. *)
Definition follows (c1 c2 : MediaTsPcrCalibration) : Prop :=
  pc_generation c1 <= pc_generation c2 /\ pc_sourceTime c1 <= pc_sourceTime c2 /\
  (pc_generation c1 = pc_generation c2 ->
   pc_pcr27Mhz c1 < pc_pcr27Mhz c2 /\
   Z.abs (27 * (pc_sourceTime c2 - pc_sourceTime c1) - 1000 * (pc_pcr27Mhz c2 - pc_pcr27Mhz c1)) < 27).

(** The published calibrations of the present generation are on its line. *)
Definition onLine (t : Tracker) (c : MediaTsPcrCalibration) : Prop :=
  exists a s p, tr_generationPcrAnchor t = Some a /\ tr_generationSourceAnchor t = Some s /\ tr_previousPcr t = Some p /\
    a <= pc_pcr27Mhz c <= p /\ pc_sourceTime c = s + nanoseconds27 (pc_pcr27Mhz c - a).

Record worldOk (w : World) : Prop := {
  wo_tracker : trackerOk (wd_tracker w);
  wo_generation : Forall (fun c => pc_generation c <= tr_generation (wd_tracker w) /\
    (tr_ready (wd_tracker w) = false -> pc_generation c < tr_generation (wd_tracker w))) (wd_log w);
  wo_published : Forall (fun c => exists l, tr_lastPublishedSourceTime (wd_tracker w) = Some l /\ pc_sourceTime c <= l) (wd_log w);
  wo_line : Forall (fun c => pc_generation c = tr_generation (wd_tracker w) -> onLine (wd_tracker w) c) (wd_log w);
  wo_log : StronglySorted follows (wd_log w);
  wo_current : tr_ready (wd_tracker w) = true -> tr_calibration (wd_tracker w) = last (wd_log w);
}.

Lemma nanoseconds27_mono x y : 0 <= x <= y -> nanoseconds27 x <= nanoseconds27 y.
Proof.
  intros [Hx Hy]. unfold nanoseconds27. rewrite !Z.quot_div_nonneg by lia. apply Z.div_le_mono; lia.
Qed.

Lemma restarted_world t' w : worldOk w -> restarted (wd_tracker w) t' -> worldOk (mkWorld t' (wd_log w)).
Proof.
  intros [] (Ht & _ & _ & Hpub & Hfresh & Hp & Hr & Hsame & Hnext).
  assert (Hlt : Forall (fun c => pc_generation c < tr_generation t') (wd_log w)).
  { eapply Forall_impl; [exact wo_generation0 |]. intros c [Hc Hs]. cbn in *. destruct (tr_reacquiring (wd_tracker w)) eqn:E.
    - rewrite Hsame by done. apply Hs. destruct (tr_ready (wd_tracker w)) eqn:E2; [| done].
      destruct (to_ready _ wo_tracker0 E2) as [? _]. congruence.
    - rewrite Hnext by done. lia. }
  constructor; cbn; try done.
  - eapply Forall_impl; [exact Hlt |]. cbn. intros. lia.
  - by rewrite Hpub.
  - eapply Forall_impl; [exact Hlt |]. cbn. intros. lia.
  - destruct Hfresh as (_ & _ & _ & -> & _). done.
Qed.

Lemma reading_world t' w extended : worldOk w -> readingOf (wd_tracker w) extended t' ->
  exists t0 u, t' = setUnwrapper u t0 /\ worldOk (mkWorld t0 (wd_log w)) /\ standsAt extended u.
Proof.
  intros Hw (t0 & u & [-> | H0] & Ht0 & -> & Hs); exists t0 || exists (wd_tracker w).
  - exists u. split_and!; [done | by destruct w | done].
  - exists u. split_and!; [done | by apply restarted_world | done].
Qed.

Lemma first_world observation extended t u t' log : worldOk (mkWorld t log) -> tr_previousPcr t = None -> standsAt extended u ->
  publish observation extended (lockOnSecond (setUnwrapper u t)) = Success t' ->
  worldOk (mkWorld t' log) /\ calibration t' = failure (notInitialized "MPEG-TS PCR calibration is not locked").
Proof.
  intros Hw Hp Hs E. pose proof (wo_tracker _ Hw) as Ht0. cbn in Ht0. pose proof (to_previous _ Ht0) as Hf. rewrite Hp in Hf.
  destruct Hf as (_ & _ & _ & Hr & _).
  destruct (publish_first _ _ _ _ _ Ht0 Hp Hs E) as (Ht & Hr' & Hg & _ & Hpub & _ & _). destruct Hw. cbn in *.
  split; [constructor; cbn; rewrite ?Hg, ?Hpub; try done |].
  - eapply Forall_impl; [exact wo_generation0 |]. cbn. intros c [H1 H2]. split; [done |]. intros _. by apply H2.
  - eapply Forall_impl; [exact wo_generation0 |]. cbn. intros c [H1 H2] Hc. specialize (H2 Hr). lia.
  - by rewrite Hr'.
  - unfold calibration. by rewrite Hr'.
Qed.

Lemma follows_next t p c extended a s : onLine t c -> pc_generation c = tr_generation t ->
  tr_generationPcrAnchor t = Some a -> tr_generationSourceAnchor t = Some s -> tr_previousPcr t = Some p -> p < extended ->
  0 <= a -> follows c (mkCalibration (tr_generation t) extended (s + nanoseconds27 (extended - a))).
Proof.
  intros (a' & s' & p' & Ha & Hs & Hp & Hb & Hl) Hg Ea Es Ep Hlt H0. rewrite Ea in Ha. rewrite Es in Hs. rewrite Ep in Hp.
  injection Ha as <-. injection Hs as <-. injection Hp as <-. unfold follows. cbn. rewrite Hl.
  pose proof (nanoseconds27_nonneg (pc_pcr27Mhz c - a) ltac:(lia)). pose proof (nanoseconds27_nonneg (extended - a) ltac:(lia)).
  pose proof (nanoseconds27_mono (pc_pcr27Mhz c - a) (extended - a) ltac:(lia)). lia.
Qed.

Lemma next_world observation extended t u t' log p : worldOk (mkWorld t log) -> tr_previousPcr t = Some p -> standsAt extended u ->
  p < extended -> publish observation extended (lockOnSecond (setUnwrapper u t)) = Success t' ->
  exists c, calibration t' = Success c /\ worldOk (mkWorld t' (log ++ [c])).
Proof.
  intros Hw Hp Hs Hlt E. pose proof (wo_tracker _ Hw) as Ht0. cbn in Ht0. pose proof (to_previous _ Ht0) as Hf. rewrite Hp in Hf.
  destruct Hf as (_ & _ & _ & _ & a & s & Ha & Hsrc & Hap & Hsi & _ & Hcal).
  destruct (publish_next _ _ _ _ _ _ Ht0 Hp Hs Hlt E) as (Ht & Hr & Hg & _ & Ha' & Hs' & _ & Hp' & Hcont).
  destruct Hcont as (_ & _ & _ & _ & a' & s' & Ea & Es & _ & _ & _ & Hc).
  rewrite Ha', Ha in Ea. rewrite Hs', Hsrc in Es. injection Ea as <-. injection Es as <-.
  exists (mkCalibration (tr_generation t') extended (s + nanoseconds27 (extended - a))).
  split; [unfold calibration; by rewrite Hr, Hc |].
  destruct (to_ready _ Ht Hr) as (_ & c & Hc' & Hpub). rewrite Hc in Hc'. injection Hc' as <-. cbn in Hpub.
  pose proof (nanoseconds27_mono (p - a) (extended - a) ltac:(lia)) as Hmono.
  pose proof (nanoseconds27_nonneg (p - a) ltac:(lia)) as Hnn.
  assert (Hle : forall l, tr_lastPublishedSourceTime t = Some l -> l <= s + nanoseconds27 (extended - a)).
  { intros l Hl. destruct (to_published _ Ht0 l Hl) as (_ & H1 & H2). destruct (tr_ready t).
    - rewrite (H2 _ Hcal eq_refl). cbn. lia.
    - specialize (H1 s Hsrc eq_refl). lia. }
  assert (Hfollows : Forall (fun c => follows c (mkCalibration (tr_generation t') extended (s + nanoseconds27 (extended - a)))) log).
  { apply Forall_forall. intros c Hin. rewrite Hg.
    pose proof (proj1 (Forall_forall _ _) (wo_line _ Hw) c Hin) as H1. pose proof (proj1 (Forall_forall _ _) (wo_generation _ Hw) c Hin) as [H2 _].
    pose proof (proj1 (Forall_forall _ _) (wo_published _ Hw) c Hin) as (l & H3 & H4). cbn in H1, H2, H3. specialize (Hle l H3).
    destruct (Z.eq_dec (pc_generation c) (tr_generation t)) as [Heq | Hne]; [eapply follows_next; eauto; lia |].
    unfold follows. cbn. lia. }
  destruct Hw. cbn in *. constructor; cbn.
  - done.
  - rewrite Hg, Hr. apply Forall_app. split; [| apply Forall_singleton; cbn; split; [lia | done]].
    eapply Forall_impl; [exact wo_generation0 |]. cbn. intros c [H1 _]. done.
  - rewrite Hpub. apply Forall_app. split.
    + eapply Forall_impl; [exact Hfollows |]. cbn. intros c (_ & H1 & _). by eexists.
    + apply Forall_singleton. by eexists.
  - apply Forall_app. split; [| apply Forall_singleton; intros _; exists a, s, extended; cbn; split_and!; try congruence; lia].
    apply Forall_forall. intros c Hin Hgc. rewrite Hg in Hgc.
    destruct (proj1 (Forall_forall _ _) wo_line0 c Hin Hgc) as (a0 & s0 & p0 & E1 & E2 & E3 & E4 & E5).
    exists a0, s0, extended. split_and!; try congruence; rewrite Hp in E3; injection E3 as <-; lia.
  - apply StronglySorted_app. split_and!; [| done | repeat constructor].
    intros c1 c2 Hin ->%list_elem_of_singleton. by apply (proj1 (Forall_forall _ _) Hfollows).
  - by rewrite last_snoc, Hc.
Qed.

Lemma observe_world observation w : worldOk w -> worldOk (step w (Call_Observe observation)).
Proof.
  intros Hw. cbn [step]. unfold observe. destruct (observeCandidate _ _) as [t' |] eqn:E.
  2: { destruct (failure _) eqn:Ef; [by apply failure_not in Ef |]. by destruct w. }
  destruct (observe_reading _ _ _ (wo_tracker _ Hw) E) as (extended & t1 & Hr & _ & Hin & Hpub).
  destruct (reading_world _ _ _ Hw Hr) as (t0 & u & -> & Hw0 & Hs). destruct (tr_previousPcr t0) as [p |] eqn:Ep.
  - assert (Hlt : p < extended) by (specialize (Hin p Ep); lia).
    destruct (next_world _ _ _ _ _ _ _ Hw0 Ep Hs Hlt Hpub) as (c & -> & Hw'). done.
  - destruct (first_world _ _ _ _ _ _ Hw0 Ep Hs Hpub) as [Hw' ->].
    destruct (failure _) eqn:Ef; [by apply failure_not in Ef |]. by rewrite app_nil_r.
Qed.

Lemma loss_world pid w : worldOk w -> worldOk (step w (Call_ContinuityLoss pid)).
Proof.
  intros Hw. cbn [step]. unfold observePcrContinuityLoss. destruct (negb _); [by destruct w |].
  destruct (reacquire _) as [t' |] eqn:E; [| by destruct w]. apply restarted_world; [done |]. by apply reacquire_restarted; [apply Hw |].
Qed.

Lemma clockTracker_run_ok calls w : worldOk w -> worldOk (run calls w).
Proof.
  revert w. induction calls as [| [observation | pid] calls IH]; intros w Hw; [done | |]; apply IH; [by apply observe_world | by apply loss_world].
Qed.

Lemma tracker_started policy generation t : createTracker policy generation = Success t -> is_u 64 generation -> worldOk (mkWorld t []).
Proof.
  intros Hc Hg. destruct (createTracker_ok _ _ _ Hc Hg) as (Ht & (_ & _ & _ & Hr & _) & _). constructor; cbn; try done; [constructor |].
  by rewrite Hr.
Qed.

(** C23: Whatever is observed (clock references with any gaps, wraps, jumps and
    discontinuities, in any order, and continuity losses), the calibrations a
    reader can have been given form one source time line that never goes back:
    generations and source times never decrease, and within a generation the
    clock references increase strictly and the source time advances with them by
    their distance, to within a nanosecond. *)
Theorem tracker_time_line policy generation t calls :
  createTracker policy generation = Success t -> is_u 64 generation ->
  let w := run calls (mkWorld t []) in
  StronglySorted follows (wd_log w) /\
  forall c, calibration (wd_tracker w) = Success c -> last (wd_log w) = Some c.
Proof.
  intros Hc Hg w. pose proof (clockTracker_run_ok calls _ (tracker_started _ _ _ Hc Hg)) as Hw. fold w in Hw. split; [apply Hw |].
  intros c. unfold calibration. destruct (tr_ready (wd_tracker w)) eqn:Er; [| by intros []%failure_not].
  rewrite (wo_current _ Hw Er). by destruct (last (wd_log w)); [intros [= <-] | intros []%failure_not].
Qed.

(** A clock that is read three times, loses its continuity, and comes back with
    an earlier value. *)
Definition exampleClock : MediaTsProgramClockPolicy := VideoOnlyClock (mkVideoOnlyPolicy 1 0x100 0x101 0x101 2700000).
Definition exampleObservations : list ClockCall :=
  [Call_Observe (mkObservation 188 0x101 5400000 false); Call_Observe (mkObservation 376 0x101 6480000 false);
   Call_Observe (mkObservation 564 0x101 7560000 false); Call_ContinuityLoss 0x101; Call_Observe (mkObservation 752 0x101 2700000 false);
   Call_Observe (mkObservation 940 0x101 3780000 false)].
Definition exampleStart : Tracker :=
  mkTracker exampleClock 7 (create MpegTsPcr27Mhz 7) None None None None None None false false.

Lemma tracker_time_line_witness :
  StronglySorted follows (wd_log (run exampleObservations (mkWorld exampleStart []))) /\
  wd_log (run exampleObservations (mkWorld exampleStart [])) =
    [mkCalibration 7 6480000 240000000; mkCalibration 7 7560000 280000000; mkCalibration 8 3780000 320000000].
Proof.
  destruct (tracker_time_line exampleClock 7 exampleStart exampleObservations eq_refl ltac:(ranges; lia)) as [H _].
  split; [exact H | vm_compute; reflexivity].
Defined.

End MediaTsProgramClockTracker.

(** ** The mapper *)

Module MediaTsSourceClockMapper.
Import MediaTimestampUnwrapper MediaTsProgramClockTracker.

Record MediaTsMappedSourceTiming := mkMappedTiming {
  mt_presentationTime : option Z;
  mt_decodeTime : option Z;
  mt_generation : Z;
}.

Record Mapper := mkMapper {
  mp_calibration : MediaTsPcrCalibration;
  mp_ptsUnwrapper : Unwrapper;
  mp_dtsUnwrapper : Unwrapper;
  mp_ptsEpochOffset : option Z;
  mp_dtsEpochOffset : option Z;
}.

Definition ptsModulus : Z := Z.shiftl 1 33.

Definition magnitude (value : Z) : Z := if 0 <=? value then value else u64 (u64 (- (value + 1)) + 1).

Definition distance (lhs rhs : Z) : Z :=
  if negb (Bool.eqb (lhs <? 0) (rhs <? 0)) then u64 (magnitude lhs + magnitude rhs)
  else
    let left := magnitude lhs in
    let right := magnitude rhs in
    if right <=? left then left - right else right - left.

Definition candidate (raw epoch : Z) : list Z :=
  if epoch =? -1 then [raw - ptsModulus]
  else if (epoch <? 0) || (Z.quot (int64_max - raw) ptsModulus <? epoch) then []
  else [epoch * ptsModulus + raw].

(** The first of the nearest candidates, the smaller one of two at the same
    distance. *)
Definition nearer (anchor selected candidate : Z) : Z :=
  if (distance candidate anchor <? distance selected anchor) ||
     ((distance candidate anchor =? distance selected anchor) && (candidate <? selected))
  then candidate else selected.

Definition alignToNearestEpoch (raw anchor : Z) : Result Z :=
  if (anchor <? 0) || (raw <? 0) || (ptsModulus <=? raw)
  then failure (invalidArgument "MPEG-TS epoch alignment input is invalid")
  else
    let anchorEpoch := Z.quot anchor ptsModulus in
    let candidates :=
      candidate raw (anchorEpoch - 1) ++ candidate raw anchorEpoch ++
      (if anchorEpoch <? Z.quot int64_max ptsModulus then candidate raw (anchorEpoch + 1) else []) in
    match candidates with
    | [] => failure (invalidArgument "MPEG-TS epoch has no representable candidate")
    | first :: rest => Success (foldl (nearer anchor) first rest)
    end.

Definition extendedAdd (lhs rhs : Z) : Result Z :=
  if ((0 <? rhs) && (int64_max - rhs <? lhs)) || ((rhs <? 0) && (lhs <? int64_min - rhs))
  then failure (invalidArgument "MPEG-TS extended timestamp overflow")
  else Success (lhs + rhs).

Definition sourceSubtract (lhs rhs : Z) : Result Z :=
  if ((0 <? rhs) && (lhs <? int64_min + rhs)) || ((rhs <? 0) && (int64_max + rhs <? lhs))
  then failure (invalidArgument "MPEG-TS source delta overflow")
  else Success (lhs - rhs).

Definition createMapper (calibration : option MediaTsPcrCalibration) : Result Mapper :=
  match calibration with
  | Some c =>
      if pc_pcr27Mhz c <? 0 then failure (notInitialized "Locked non-negative PCR evidence is required for source mapping")
      else Success (mkMapper c (create MpegTsPtsDts33 (pc_generation c)) (create MpegTsPtsDts33 (pc_generation c)) None None)
  | None => failure (notInitialized "Locked non-negative PCR evidence is required for source mapping")
  end.

(** The time of one timestamp, with its unwrapper and epoch offset after it. *)
Definition mapOne (c : MediaTsPcrCalibration) (raw : option Z) (unwrapper : Unwrapper) (epochOffset : option Z)
  : Result (option Z * (Unwrapper * option Z)) :=
  match raw with
  | None => Success (None, (unwrapper, epochOffset))
  | Some raw =>
      if ptsModulus <=? raw then failure (invalidArgument "MPEG-TS PTS/DTS is outside 33-bit range")
      else
        let* timestamp := createTimestamp raw 1 90000 in
        let '(unwrapped, unwrapper) := unwrap timestamp unwrapper in
        match valueOf unwrapped with
        | None => failure (invalidArgument "MPEG-TS PTS/DTS regression or unwrap failure")
        | Some ticks =>
            let pcrAnchor90Khz := Z.quot (pc_pcr27Mhz c) 300 in
            let* (aligned, epochOffset) :=
              match epochOffset with
              | None => let* aligned := alignToNearestEpoch ticks pcrAnchor90Khz in Success (aligned, aligned - ticks)
              | Some offset => let* aligned := extendedAdd ticks offset in Success (aligned, offset)
              end in
            let* deltaTicks := sourceSubtract aligned pcrAnchor90Khz in
            let* delta := checkedFromTicks deltaTicks 1 90000 in
            let* sourceTime := checkedAdd (pc_sourceTime c) delta in
            Success (Some sourceTime, (unwrapper, Some epochOffset))
        end
  end.

Definition mapTiming (pts33 dts33 : option Z) (m : Mapper) : Result MediaTsMappedSourceTiming * Mapper :=
  match mapOne (mp_calibration m) pts33 (mp_ptsUnwrapper m) (mp_ptsEpochOffset m) with
  | Failure e => (failure e, m)
  | Success (pts, (ptsUnwrapper, ptsOffset)) =>
      match mapOne (mp_calibration m) dts33 (mp_dtsUnwrapper m) (mp_dtsEpochOffset m) with
      | Failure e => (failure e, m)
      | Success (dts, (dtsUnwrapper, dtsOffset)) =>
          (Success (mkMappedTiming pts dts (pc_generation (mp_calibration m))),
           mkMapper (mp_calibration m) ptsUnwrapper dtsUnwrapper ptsOffset dtsOffset)
      end
  end.

End MediaTsSourceClockMapper.
