(* ===== verification/TsClockRoundTrip.v ===== *)
(** * The clocks of a transport stream survive it

    No code of the program: the output clock generator of [TsOutputClock] on one
    side, the programme clock tracker and the source clock mapper of
    [TsSourceClock] on the other.  The timestamps and clock references that the
    first commits, reduced to their wire fields, give the second the times of
    the access units back, up to the resolution of the fields. *)

From stdpp Require Import sets sorting.
From S2P Require Import Prelude MediaResult CheckedArithmetic TsPes TimeBase AudioGrid TsOutputClock TsSourceClock.
Import MediaRunningTime MediaTimestampUnwrapper MediaTsProgramClockTracker MediaTsSourceClockMapper.

Local Open Scope Z_scope.
Local Open Scope result_scope.

Module MediaTsClockRoundTrip.

(** ** The tracker follows a steady clock *)

Definition clockModulus : Z := modulusFor MpegTsPcr27Mhz.

(** A reading of the clock at a byte offset. *)
Definition observationAt (policy : MediaTsProgramClockPolicy) (r : Z * Z) : MediaTsPcrObservation :=
  mkObservation r.1 (pcrPid policy) (r.2 mod clockModulus) false.

(** Readings at increasing offsets, each within the gap of the one before. *)
Fixpoint steadyReadings (gap offset time : Z) (rs : list (Z * Z)) : Prop :=
  match rs with
  | [] => True
  | r :: rs => offset < r.1 /\ time < r.2 <= time + gap /\ r.2 - time < clockModulus / 2 /\ steadyReadings gap r.1 r.2 rs
  end.

(** The tracker at a reading of its first generation. *)
Record tracksAt (policy : MediaTsProgramClockPolicy) (generation origin offset time : Z) (t : Tracker) : Prop := {
  ta_ok : trackerOk t;
  ta_policy : tr_policy t = policy;
  ta_generation : tr_generation t = generation;
  ta_previous : tr_previousPcr t = Some time;
  ta_offset : tr_previousByteOffset t = Some offset;
  ta_anchor : tr_generationPcrAnchor t = Some origin;
  ta_source : tr_generationSourceAnchor t = Some (nanoseconds27 origin);
}.

Lemma unwrap_forward u p e : unwrapperOk u -> uw_counterKind u = MpegTsPcr27Mhz -> uw_initialized u = true ->
  uw_lastUnwrappedTimestamp u = p -> uw_timeBaseNumerator u = 1 -> uw_timeBaseDenominator u = 27000000 ->
  p < e -> e - p < clockModulus / 2 -> e <= int64_max ->
  exists r u', unwrap (mkProtocolTimestamp (e mod clockModulus) 1 27000000) u = (r, u') /\ valueOf r = Some e.
Proof.
  intros Hu Hk Hi Hl Hn Hd Hlt Hhalf Hmax. destruct (modulusFor_even MpegTsPcr27Mhz) as (M1 & M2 & M3). fold clockModulus in M1, M2, M3.
  pose proof (uo_modulus _ Hu) as Hm. rewrite Hk in Hm. fold clockModulus in Hm. destruct (uo_last _ Hu Hi) as [Hr Hraw]. rewrite Hl, Hm in Hraw.
  pose proof (Z.mod_pos_bound e clockModulus M1) as Hb. pose proof (Z.mod_pos_bound p clockModulus M1) as Hbp.
  assert (Ef : forwardMovement u (e mod clockModulus) = inl (e - p)).
  { apply forwardMovement_spec; rewrite ?Hm; try done; [by rewrite Hraw |]. split; [lia |]. rewrite Hraw, Zplus_mod_idemp_l. f_equal. lia. }
  unfold unwrap. cbn [pt_ticks pt_timeBaseNumerator pt_timeBaseDenominator]. rewrite Hi, Hn, Hd, Hm, Ef.
  rewrite (proj2 (Z.ltb_ge _ _)), (proj2 (Z.leb_gt _ _)) by lia. rewrite Hl. cbn [orb andb negb Z.eqb].
  rewrite (proj2 (Z.ltb_ge _ _)) by lia. eexists _, _. split; [done |]. unfold valueOf, valueResult. cbn. f_equal. lia.
Qed.

Lemma observe_next policy generation origin offset time t r : tracksAt policy generation origin offset time t -> 0 <= origin ->
  offset < r.1 -> time < r.2 <= time + maximumGap27Mhz policy -> r.2 - time < clockModulus / 2 -> r.2 <= int64_max ->
  is_i 64 (nanoseconds27 origin + nanoseconds27 (r.2 - origin)) ->
  exists t', observeCandidate (observationAt policy r) t = Success t' /\ tracksAt policy generation origin r.1 r.2 t' /\
    calibration t' = Success (mkCalibration generation r.2 (nanoseconds27 origin + nanoseconds27 (r.2 - origin))).
Proof.
  intros Ht H0 Hoff Hgap Hhalf Hmax Hrep. destruct Ht. pose proof (to_previous _ ta_ok0) as Hp. rewrite ta_previous0 in Hp.
  pose proof Hp as (Hi & Hl & Hn & Hd & a & s & Ea & Es & Hap & _). rewrite ta_anchor0 in Ea. injection Ea as <-.
  destruct (unwrap_forward _ time r.2 (to_unwrapper _ ta_ok0) (to_kind _ ta_ok0) Hi Hl Hn Hd ltac:(lia) Hhalf Hmax) as (ur & u & Eu & Ev).
  destruct (unwrap_stands _ _ _ _ _ (to_unwrapper _ ta_ok0) (to_kind _ ta_ok0) Eu Ev) as (Hs & _ & _).
  pose proof (nanoseconds27_nonneg origin ltac:(lia)) as N1. pose proof (nanoseconds27_nonneg (r.2 - origin) ltac:(lia)) as N2.
  assert (E : observeCandidate (observationAt policy r) t =
    publish (observationAt policy r) r.2 (lockOnSecond (setUnwrapper u t))).
  { unfold observeCandidate, observationAt. cbn [po_pcrPid po_byteOffset po_pcr27Mhz po_discontinuity].
    rewrite ta_policy0, Z.eqb_refl, ta_offset0, (modulus27 t ta_ok0). cbn [negb].
    pose proof (Z.mod_pos_bound r.2 clockModulus ltac:(done)). fold clockModulus.
    rewrite (proj2 (Z.leb_gt _ _)), (proj2 (Z.leb_gt _ _)) by lia. cbn [bindResult createTimestamp orb Z.leb Z.compare].
    unfold createTimestamp. cbn [orb Z.leb Z.compare bindResult]. unfold unwrapOrRestart. rewrite Eu, Ev. cbn [bindResult].
    unfold restartOnGap. cbn [tr_previousPcr tr_policy setUnwrapper]. rewrite ta_previous0, ta_policy0. unfold requiresReacquisition.
    rewrite (proj2 (Z.leb_gt _ _)), (proj2 (Z.ltb_ge _ _)) by lia. cbn [orb bindResult]. done. }
  assert (Hpub : exists t', publish (observationAt policy r) r.2 (lockOnSecond (setUnwrapper u t)) = Success t').
  { unfold publish, anchors, lockOnSecond. cbn [setUnwrapper tr_previousPcr]. rewrite ta_previous0.
    cbn [tr_generationPcrAnchor tr_generationSourceAnchor setUnwrapper]. rewrite ta_anchor0, ta_source0. cbn [bindResult].
    rewrite ticks27 by (ranges; lia). rewrite (proj2 (isInt64_spec _)) by (ranges; lia). cbn [bindResult].
    rewrite checkedAdd_exact by (ranges; lia). rewrite (proj2 (isInt64_spec _)) by done. cbn [bindResult]. by eexists. }
  destruct Hpub as [t' Hpub]. exists t'. rewrite E. split; [done |].
  destruct (publish_next _ _ _ _ _ _ ta_ok0 ta_previous0 Hs ltac:(lia) Hpub) as (Ht & Hr & Hg & Hpol & Ha & Hsrc & Hb & Hp' & Hc).
  split; [constructor; try congruence; done |].
  destruct Hc as (_ & _ & _ & _ & a' & s' & Ea' & Es' & _ & _ & _ & Hc). unfold calibration. rewrite Hr, Hc.
  rewrite Ha, ta_anchor0 in Ea'. rewrite Hsrc, ta_source0 in Es'. injection Ea' as <-. injection Es' as <-. congruence.
Qed.

Lemma observe_first policy generation t r : createTracker policy generation = Success t -> is_u 64 generation ->
  0 <= r.2 < clockModulus ->
  exists t', observeCandidate (observationAt policy r) t = Success t' /\ tracksAt policy generation r.2 r.1 r.2 t'.
Proof.
  intros Hc Hgen Hr. destruct (createTracker_ok _ _ _ Hc Hgen) as (Ht & Hf & Hlast). unfold createTracker in Hc.
  destruct (negb _); [by apply failure_not in Hc |]. injection Hc as <-.
  set (t := mkTracker _ _ _ _ _ _ _ _ _ _ _) in *. assert (Hmod : r.2 mod clockModulus = r.2) by (by apply Z.mod_small).
  destruct (unwrap_first r.2 (tr_unwrapper t) eq_refl Hr) as (ur & u & Eu & Ev).
  destruct (unwrap_stands _ _ _ _ _ (to_unwrapper _ Ht) (to_kind _ Ht) Eu Ev) as (Hs & _ & _).
  pose proof (nanoseconds27_nonneg r.2 ltac:(lia)) as N1.
  assert (Hsmall : is_i 64 (nanoseconds27 r.2)) by (change clockModulus with (2 ^ 33 * 300) in Hr; ranges; lia).
  assert (E : observeCandidate (observationAt policy r) t = publish (observationAt policy r) r.2 (lockOnSecond (setUnwrapper u t))).
  { unfold observeCandidate, observationAt. cbn [po_pcrPid po_byteOffset po_pcr27Mhz po_discontinuity]. rewrite Hmod.
    rewrite (modulus27 t Ht). fold clockModulus. change (tr_policy t) with policy. rewrite Z.eqb_refl, (proj2 (Z.leb_gt _ _)) by lia.
    unfold createTimestamp. cbn [negb t tr_previousByteOffset orb Z.leb Z.compare bindResult]. fold t. unfold unwrapOrRestart. by rewrite Eu, Ev. }
  assert (Hpub : publish (observationAt policy r) r.2 (lockOnSecond (setUnwrapper u t)) =
    Success (mkTracker policy generation u (Some r.2) (Some r.1) (Some r.2) (Some (nanoseconds27 r.2)) None
      (Some (mkCalibration generation r.2 (nanoseconds27 r.2))) false false)).
  { unfold publish, anchors, lockOnSecond. cbn [setUnwrapper tr_previousPcr t tr_generationPcrAnchor].
    rewrite ticks27, (proj2 (isInt64_spec _)) by (done || (ranges; lia)). cbn [bindResult]. rewrite Z.sub_diag, ticks27 by (ranges; lia).
    change (isInt64 (nanoseconds27 0)) with true. cbn [bindResult tr_lastPublishedSourceTime]. change (nanoseconds27 0) with 0.
    rewrite checkedAdd_exact, Z.add_0_r, (proj2 (isInt64_spec _)) by (done || (ranges; lia)). done. }
  eexists. rewrite E. split; [exact Hpub |].
  destruct (publish_first _ _ _ _ _ Ht eq_refl Hs Hpub) as (Ht' & _). by constructor.
Qed.

(** Observing one after the other, as long as it succeeds. *)
Fixpoint observeAll (observations : list MediaTsPcrObservation) (t : Tracker) : Status * Tracker :=
  match observations with
  | [] => (Success tt, t)
  | observation :: observations =>
      match observe observation t with
      | (Success _, t) => observeAll observations t
      | (Failure e, t) => (failure e, t)
      end
  end.

Definition calibrationAt (generation origin time : Z) : MediaTsPcrCalibration :=
  mkCalibration generation time (nanoseconds27 origin + nanoseconds27 (time - origin)).

Lemma steady_times gap offset time rs : steadyReadings gap offset time rs -> Forall (fun r => time < r.2) rs.
Proof.
  revert offset time. induction rs as [| r rs IH]; intros offset time; [constructor |]. intros (_ & Hr & _ & Hrs).
  constructor; [lia |]. eapply Forall_impl; [by eapply IH |]. cbn. lia.
Qed.

Lemma observe_readings policy generation origin rs : 0 <= origin -> forall offset time t,
  tracksAt policy generation origin offset time t -> origin <= time ->
  steadyReadings (maximumGap27Mhz policy) offset time rs -> Forall (fun r => r.2 <= 2 ^ 57) rs ->
  exists t', observeAll (observationAt policy <$> rs) t = (Success tt, t') /\
    tracksAt policy generation origin (default offset (fst <$> last rs)) (default time (snd <$> last rs)) t' /\
    (rs <> [] -> calibration t' = Success (calibrationAt generation origin (default time (snd <$> last rs)))).
Proof.
  intros H0. induction rs as [| r rs IH]; intros offset time t Ht Hle Hs Hb; [by exists t |].
  destruct Hs as (Hoff & Hgap & Hhalf & Hs). apply Forall_cons in Hb as [Hr Hb].
  pose proof (nanoseconds27_nonneg origin H0). pose proof (nanoseconds27_nonneg (r.2 - origin) ltac:(lia)).
  destruct (observe_next _ _ _ _ _ _ _ Ht H0 Hoff Hgap Hhalf ltac:(ranges; lia) ltac:(ranges; lia)) as (t1 & E & Ht1 & Hc).
  destruct (IH r.1 r.2 t1 Ht1 ltac:(lia) Hs Hb) as (t2 & E2 & Ht2 & Hc2).
  exists t2. cbn [fmap list_fmap observeAll]. unfold observe. rewrite E. split; [exact E2 |].
  replace (default offset (fst <$> last (r :: rs))) with (default r.1 (fst <$> last rs)) by (rewrite last_cons; by destruct (last rs)).
  replace (default time (snd <$> last (r :: rs))) with (default r.2 (snd <$> last rs)) by (rewrite last_cons; by destruct (last rs)).
  split; [done |]. intros _. destruct rs as [| r2 rs]; [| by apply Hc2]. cbn in E2. injection E2 as <-. done.
Qed.

(** From a new tracker: the first reading anchors, every later one calibrates. *)
Lemma tracker_follows policy generation t first rs : createTracker policy generation = Success t -> is_u 64 generation ->
  0 <= first.2 < clockModulus -> rs <> [] -> steadyReadings (maximumGap27Mhz policy) first.1 first.2 rs ->
  Forall (fun r => r.2 <= 2 ^ 57) rs ->
  exists t', observeAll (observationAt policy <$> first :: rs) t = (Success tt, t') /\
    calibration t' = Success (calibrationAt generation first.2 (default first.2 (snd <$> last rs))).
Proof.
  intros Hc Hg Hf Hne Hs Hb. destruct (observe_first _ _ _ _ Hc Hg Hf) as (t1 & E & Ht1).
  destruct (observe_readings _ _ _ _ (proj1 Hf) _ _ _ Ht1 ltac:(lia) Hs Hb) as (t2 & E2 & _ & Hcal).
  exists t2. cbn [fmap list_fmap observeAll]. unfold observe. rewrite E. split; [exact E2 |]. by apply Hcal.
Qed.

(** ** The mapper aligns to the clock *)

Lemma sourceDistance_exact x y : is_i 64 x -> is_i 64 y -> distance x y = Z.abs (x - y).
Proof.
  intros Hx Hy. unfold distance. assert (Hm : forall v, is_i 64 v -> magnitude v = Z.abs v).
  { intros v Hv. unfold magnitude. destruct (Z.leb_spec 0 v); [lia |]. unfold u64.
    rewrite (Z.mod_small (- (v + 1))) by (ranges; lia). rewrite Z.mod_small by (ranges; lia). lia. }
  rewrite !Hm by done. destruct (Z.ltb_spec x 0), (Z.ltb_spec y 0); cbn [Bool.eqb negb];
    try (destruct (Z.leb_spec (Z.abs y) (Z.abs x)); lia); unfold u64; rewrite Z.mod_small by (ranges; lia); lia.
Qed.

Definition pts : Z := 2 ^ 33.

Lemma candidate_exact raw epoch : 0 <= raw < pts -> -1 <= epoch <= 2 ^ 26 -> candidate raw epoch = [epoch * pts + raw].
Proof.
  intros Hr He. unfold candidate. change ptsModulus with pts. destruct (Z.eqb_spec epoch (-1)) as [-> |]; [f_equal; unfold pts; lia |].
  rewrite (proj2 (Z.ltb_ge _ _)) by lia. cbn [orb].
  rewrite (proj2 (Z.ltb_ge _ _)); [done |]. rewrite Z.quot_div_nonneg by (unfold pts, int64_max in *; lia).
  apply Z.div_le_lower_bound; unfold pts, int64_max in *; lia.
Qed.

Lemma nearer_first anchor a b : is_i 64 anchor -> is_i 64 a -> is_i 64 b -> Z.abs (a - anchor) < Z.abs (b - anchor) -> nearer anchor a b = a.
Proof.
  intros Hc Ha Hb Hlt. unfold nearer. rewrite !sourceDistance_exact by done.
  by rewrite (proj2 (Z.ltb_ge _ _)), (proj2 (Z.eqb_neq _ _)) by lia.
Qed.

Lemma nearer_second anchor a b : is_i 64 anchor -> is_i 64 a -> is_i 64 b -> Z.abs (b - anchor) < Z.abs (a - anchor) -> nearer anchor a b = b.
Proof. intros Hc Ha Hb Hlt. unfold nearer. rewrite !sourceDistance_exact by done. by rewrite (proj2 (Z.ltb_lt _ _)) by lia. Qed.

(** A timestamp within half the counter range of the anchor is the one found. *)
Lemma align_near raw anchor p : 0 <= anchor <= 2 ^ 58 -> p mod pts = raw -> Z.abs (p - anchor) < pts / 2 ->
  alignToNearestEpoch raw anchor = Success p.
Proof.
  intros Ha Hp Hd. pose proof (Z.mod_pos_bound p pts ltac:(done)) as Hr. rewrite Hp in Hr.
  pose proof (Z.div_mod p pts ltac:(done)) as Ep. rewrite Hp in Ep. set (e := p / pts) in *.
  pose proof (Z.div_mod anchor pts ltac:(done)) as Ea. pose proof (Z.mod_pos_bound anchor pts ltac:(done)) as Hra.
  unfold alignToNearestEpoch. change ptsModulus with pts.
  rewrite !(proj2 (Z.ltb_ge _ _)), (proj2 (Z.leb_gt _ _)) by lia. cbn [orb].
  rewrite Z.quot_div_nonneg by (done || lia). set (q := anchor / pts) in *. change (pts / 2) with 4294967296 in Hd.
  change pts with 8589934592 in *.
  assert (Hq : 0 <= q <= 2 ^ 25) by lia. assert (He : q - 1 <= e <= q + 1) by lia.
  rewrite (proj2 (Z.ltb_lt _ _)) by (change (Z.quot int64_max 8589934592) with 1073741823; lia).
  rewrite !candidate_exact by (change pts with 8589934592; lia). cbn [app foldl]. f_equal.
  assert (Hpe : p = e * 8589934592 + raw) by lia. clearbody e q. clear Ep. change pts with 8589934592 in *.
  assert (Hc : is_i 64 anchor) by (ranges; lia).
  assert (Hall : forall k, q - 1 <= k <= q + 1 -> is_i 64 (k * 8589934592 + raw)) by (intros k Hk; ranges; lia).
  destruct (Z.eq_dec e (q - 1)) as [-> |]; [| destruct (Z.eq_dec e q) as [-> |]; [| assert (e = q + 1) as -> by lia]]; rewrite Hpe.
  - rewrite (nearer_first anchor _ (q * _ + raw)) by first [done | apply Hall; lia | lia]. apply nearer_first; first [done | apply Hall; lia | lia].
  - rewrite (nearer_second anchor _ (q * _ + raw)) by first [done | apply Hall; lia | lia]. apply nearer_first; first [done | apply Hall; lia | lia].
  - rewrite (nearer_second anchor _ (q * _ + raw)) by first [done | apply Hall; lia | lia]. apply nearer_second; first [done | apply Hall; lia | lia].
Qed.

(** ** The mapper follows a steady stream *)

Definition nanoseconds90 (ticks : Z) : Z := Z.quot (ticks * 1 * 1000000000) 90000.

Lemma nanoseconds90_close x : Z.abs (9 * nanoseconds90 x - 100000 * x) < 9.
Proof.
  unfold nanoseconds90. replace (x * 1 * 1000000000) with (x * 100000 * 10000) by lia. change 90000 with (9 * 10000).
  rewrite Z.quot_mul_cancel_r by lia. pose proof (Z.quot_rem (x * 100000) 9 ltac:(lia)).
  pose proof (Z.rem_bound_abs (x * 100000) 9 ltac:(lia)). lia.
Qed.

(** The source time of an extended timestamp. *)
Definition timeOf (c : MediaTsPcrCalibration) (p : Z) : Z := pc_sourceTime c + nanoseconds90 (p - pc_pcr27Mhz c / 300).

Definition calibrationBounds (c : MediaTsPcrCalibration) : Prop := 0 <= pc_pcr27Mhz c <= 2 ^ 57 /\ 0 <= pc_sourceTime c <= 2 ^ 60.

Definition reachable (c : MediaTsPcrCalibration) (p : Z) : Prop := Z.abs (p - pc_pcr27Mhz c / 300) <= 2 ^ 45.

Lemma time_representable c p : calibrationBounds c -> reachable c p ->
  (let* deltaTicks := sourceSubtract p (Z.quot (pc_pcr27Mhz c) 300) in
   let* delta := checkedFromTicks deltaTicks 1 90000 in checkedAdd (pc_sourceTime c) delta) = Success (timeOf c p).
Proof.
  intros [Hc Hs] Hr. unfold reachable in Hr. rewrite Z.quot_div_nonneg by lia.
  assert (Ha : 0 <= pc_pcr27Mhz c / 300 <= 2 ^ 57) by (split; [apply Z.div_pos; lia | apply Z.div_le_upper_bound; lia]).
  set (anchor := pc_pcr27Mhz c / 300) in *. unfold sourceSubtract.
  replace (_ || _) with false.
  2: { symmetry. apply orb_false_iff. split; apply andb_false_iff; [right | right]; apply Z.ltb_ge; ranges; lia. }
  cbn [bindResult]. pose proof (nanoseconds90_close (p - anchor)) as Hn.
  rewrite checkedFromTicks_exact by (ranges; lia). fold (nanoseconds90 (p - anchor)).
  rewrite (proj2 (isInt64_spec _)) by (ranges; lia). cbn [bindResult].
  rewrite checkedAdd_exact by (ranges; lia). rewrite (proj2 (isInt64_spec _)) by (ranges; lia). done.
Qed.

(** One direction of a mapper: new, or after the timestamp [p]. *)
Definition newDirection (u : Unwrapper) (offset : option Z) : Prop :=
  unwrapperOk u /\ uw_counterKind u = MpegTsPtsDts33 /\ uw_initialized u = false /\ offset = None.

Definition mapsAt (p : Z) (u : Unwrapper) (offset : option Z) : Prop :=
  unwrapperOk u /\ uw_counterKind u = MpegTsPtsDts33 /\ uw_initialized u = true /\ uw_timeBaseNumerator u = 1 /\
  uw_timeBaseDenominator u = 90000 /\ exists o, offset = Some o /\ uw_lastUnwrappedTimestamp u + o = p /\ o mod pts = 0 /\ Z.abs o <= 2 ^ 58.

Lemma map_first c p u offset : calibrationBounds c -> newDirection u offset -> Z.abs (p - pc_pcr27Mhz c / 300) < pts / 2 ->
  exists u' offset', mapOne c (Some (p mod pts)) u offset = Success (Some (timeOf c p), (u', offset')) /\ mapsAt p u' offset'.
Proof.
  intros Hc (Hu & Hk & Hi & ->) Hd. pose proof (Z.mod_pos_bound p pts ltac:(done)) as Hb. pose proof (uo_modulus _ Hu) as Hm. rewrite Hk in Hm.
  change (modulusFor MpegTsPtsDts33) with pts in Hm. set (raw := p mod pts) in *.
  set (u' := advance (mkProtocolTimestamp raw 1 90000) raw u).
  assert (Eu : unwrap (mkProtocolTimestamp raw 1 90000) u = (valueResult u', u')).
  { unfold unwrap. cbn [pt_ticks]. rewrite Hm, (proj2 (Z.ltb_ge _ _)), (proj2 (Z.leb_gt _ _)) by lia. by rewrite Hi. }
  pose proof (unwrap_ok (mkProtocolTimestamp raw 1 90000) u Hu) as Hu'. rewrite Eu in Hu'. cbn [snd] in Hu'.
  exists u', (Some (p - raw)). split.
  - unfold mapOne, createTimestamp. change ptsModulus with pts. rewrite (proj2 (Z.leb_gt _ _)) by lia. cbn [orb Z.leb Z.compare bindResult].
    rewrite Eu. change (valueOf (valueResult u')) with (Some raw). cbv iota beta zeta.
    destruct Hc as [Hpcr Hst]. rewrite Z.quot_div_nonneg by lia.
    assert (Ha : 0 <= pc_pcr27Mhz c / 300 <= 2 ^ 58) by (split; [apply Z.div_pos; lia | apply Z.div_le_upper_bound; lia]).
    rewrite (align_near raw _ p Ha eq_refl Hd). cbn [bindResult].
    pose proof (time_representable c p (conj Hpcr Hst)) as Ht. rewrite Z.quot_div_nonneg in Ht by lia.
    assert (Hr : reachable c p) by (unfold reachable; change (pts / 2) with 4294967296 in Hd; lia). specialize (Ht Hr).
    apply bindResult_success in Ht as (d & -> & Ht). cbn [bindResult]. apply bindResult_success in Ht as (n & -> & Ht). cbn [bindResult].
    by rewrite Ht.
  - unfold mapsAt. split_and!; try done. exists (p - raw). split_and!; [done | cbn; lia | |].
    + unfold raw. rewrite Zminus_mod, Z.mod_mod, Z.sub_diag by done. done.
    + assert (0 <= pc_pcr27Mhz c / 300 <= 2 ^ 57) by (destruct Hc; split; [apply Z.div_pos; lia | apply Z.div_le_upper_bound; lia]).
      change (pts / 2) with 4294967296 in Hd. change pts with 8589934592 in *. lia.
Qed.

Lemma map_next c p q u offset : calibrationBounds c -> mapsAt p u offset -> p <= q < p + pts / 2 -> reachable c q ->
  exists u', mapOne c (Some (q mod pts)) u offset = Success (Some (timeOf c q), (u', offset)) /\ mapsAt q u' offset.
Proof.
  intros Hc (Hu & Hk & Hi & Hn & Hd & o & -> & Hl & Ho & Hob) Hq Hr. pose proof (uo_modulus _ Hu) as Hm. rewrite Hk in Hm.
  change (modulusFor MpegTsPtsDts33) with pts in Hm. pose proof (Z.mod_pos_bound q pts ltac:(done)) as Hb.
  destruct (uo_last _ Hu Hi) as [Hlast Hraw]. rewrite Hm in Hraw. set (l := uw_lastUnwrappedTimestamp u) in *.
  assert (Eq : q mod pts = (l + (q - p)) mod pts).
  { replace (l + (q - p)) with (q - o) by lia. by rewrite Zminus_mod, Ho, Z.sub_0_r, Z.mod_mod by done. }
  assert (Ef : forwardMovement u (q mod pts) = inl (q - p)).
  { apply forwardMovement_spec; rewrite ?Hm; try done; [rewrite Hraw; by apply Z.mod_pos_bound |]. split; [lia |].
    by rewrite Hraw, Zplus_mod_idemp_l. }
  set (u' := advance (mkProtocolTimestamp (q mod pts) 1 90000) (l + (q - p)) u).
  assert (Ha : 0 <= pc_pcr27Mhz c / 300 <= 2 ^ 57) by (destruct Hc; split; [apply Z.div_pos; lia | apply Z.div_le_upper_bound; lia]).
  unfold reachable in Hr.
  assert (Eu : unwrap (mkProtocolTimestamp (q mod pts) 1 90000) u = (valueResult u', u')).
  { unfold unwrap. cbn [pt_ticks pt_timeBaseNumerator pt_timeBaseDenominator]. rewrite Hm, Hi, Hn, Hd, Ef.
    rewrite (proj2 (Z.ltb_ge (q mod pts) _)), (proj2 (Z.leb_gt _ _)) by lia. cbn [orb andb negb Z.eqb]. fold l.
    rewrite (proj2 (Z.ltb_ge _ _)) by (ranges; lia). done. }
  pose proof (unwrap_ok (mkProtocolTimestamp (q mod pts) 1 90000) u Hu) as Hu'. rewrite Eu in Hu'. cbn [snd] in Hu'.
  exists u'. split.
  - unfold mapOne, createTimestamp. change ptsModulus with pts. rewrite (proj2 (Z.leb_gt _ _)) by lia. cbn [orb Z.leb Z.compare bindResult].
    rewrite Eu. change (valueOf (valueResult u')) with (Some (l + (q - p))). cbv iota beta zeta.
    unfold extendedAdd. replace (_ || _) with false.
    2: { symmetry. apply orb_false_iff. split; apply andb_false_iff; right; apply Z.ltb_ge; ranges; lia. }
    cbn [bindResult]. replace (l + (q - p) + o) with q by lia.
    pose proof (time_representable c q Hc Hr) as Ht.
    apply bindResult_success in Ht as (d & -> & Ht). cbn [bindResult]. apply bindResult_success in Ht as (n & -> & Ht). cbn [bindResult].
    by rewrite Ht.
  - unfold mapsAt. split_and!; try done. exists o. split_and!; [done | cbn; lia | done | done].
Qed.

(** The access units of a stream, by their wire timestamps. *)
Fixpoint mapAll (wires : list (Z * Z)) (m : Mapper) : Result (list MediaTsMappedSourceTiming) * Mapper :=
  match wires with
  | [] => (Success [], m)
  | (p, d) :: wires =>
      match mapTiming (Some p) (Some d) m with
      | (Failure e, m) => (failure e, m)
      | (Success timing, m) =>
          match mapAll wires m with
          | (Failure e, m) => (failure e, m)
          | (Success rest, m) => (Success (timing :: rest), m)
          end
      end
  end.

(** Extended timestamps as they go on the wire. *)
Definition wired (t : Z * Z) : Z * Z := (t.1 mod pts, t.2 mod pts).

Fixpoint steadyTicks (previous : Z) (ticks : list Z) : Prop :=
  match ticks with
  | [] => True
  | t :: ticks => previous <= t < previous + pts / 2 /\ steadyTicks t ticks
  end.

Definition timingOf (c : MediaTsPcrCalibration) (t : Z * Z) : MediaTsMappedSourceTiming :=
  mkMappedTiming (Some (timeOf c t.1)) (Some (timeOf c t.2)) (pc_generation c).

Lemma map_steady c timings : calibrationBounds c -> forall p d m, mp_calibration m = c ->
  mapsAt p (mp_ptsUnwrapper m) (mp_ptsEpochOffset m) -> mapsAt d (mp_dtsUnwrapper m) (mp_dtsEpochOffset m) ->
  steadyTicks p (fst <$> timings) -> steadyTicks d (snd <$> timings) ->
  Forall (fun t => reachable c t.1 /\ reachable c t.2) timings ->
  (mapAll (wired <$> timings) m).1 = Success (timingOf c <$> timings).
Proof.
  intros Hc. induction timings as [| [p' d'] timings IH]; intros p d m Hm Hp Hd Hsp Hsd Hall; [done |].
  cbn [fmap list_fmap fst snd steadyTicks] in Hsp, Hsd. destruct Hsp as [H1 Hsp]. destruct Hsd as [H2 Hsd].
  apply Forall_cons in Hall as [[R1 R2] Hall].
  destruct (map_next _ _ _ _ _ Hc Hp H1 R1) as (u1 & E1 & Hp'). destruct (map_next _ _ _ _ _ Hc Hd H2 R2) as (u2 & E2 & Hd').
  cbn [fmap list_fmap mapAll wired fst snd]. unfold mapTiming. rewrite Hm, E1, E2.
  set (m' := mkMapper _ _ _ _ _). specialize (IH p' d' m' eq_refl Hp' Hd' Hsp Hsd Hall).
  change (list_fmap _ _ wired timings) with (wired <$> timings). destruct (mapAll (wired <$> timings) m') as [r m2]. cbn [fst] in IH. subst r. done.
Qed.

(** A new mapper and a stream that starts near its calibration. *)
Lemma mapper_follows c m p d timings : createMapper (Some c) = Success m -> calibrationBounds c ->
  Z.abs (p - pc_pcr27Mhz c / 300) < pts / 2 -> Z.abs (d - pc_pcr27Mhz c / 300) < pts / 2 ->
  steadyTicks p (fst <$> timings) -> steadyTicks d (snd <$> timings) ->
  Forall (fun t => reachable c t.1 /\ reachable c t.2) timings ->
  (mapAll (wired <$> (p, d) :: timings) m).1 = Success (timingOf c <$> (p, d) :: timings).
Proof.
  intros Hm Hc Hp Hd Hsp Hsd Hall. unfold createMapper in Hm. destruct (_ <? _); [by apply failure_not in Hm |]. injection Hm as <-.
  assert (Hnew : newDirection (create MpegTsPtsDts33 (pc_generation c)) None) by (split_and!; try done; by split).
  destruct (map_first c p _ _ Hc Hnew Hp) as (u1 & o1 & E1 & Hp'). destruct (map_first c d _ _ Hc Hnew Hd) as (u2 & o2 & E2 & Hd').
  cbn [fmap list_fmap mapAll wired fst snd]. unfold mapTiming. cbn [mp_calibration mp_ptsUnwrapper mp_ptsEpochOffset mp_dtsUnwrapper mp_dtsEpochOffset].
  rewrite E1, E2. set (m' := mkMapper _ _ _ _ _).
  pose proof (map_steady c timings Hc p d m' eq_refl Hp' Hd' Hsp Hsd Hall) as IH.
  change (list_fmap _ _ wired timings) with (wired <$> timings). destruct (mapAll (wired <$> timings) m') as [r m2]. cbn [fst] in IH. subst r. done.
Qed.

(** ** From the output clock to the input clock *)

Import MediaTsPes MediaTsOutputClockGenerator.

Lemma ticksAt_close a rate t :
  - 1000000000 <= 2 * ((ac_sourceStart a + (t - ac_masterRelease a)) * rate - ticksAt a rate t * 1000000000) <= 1000000000.
Proof.
  pose proof (roundNearest_close ((ac_sourceStart a + (t - ac_masterRelease a)) * rate) 1000000000 ltac:(lia)). unfold ticksAt. lia.
Qed.

(** The clock samples of a session as a receiver reads them, each at its byte
    offset. *)
Definition received (policy : MediaTsProgramClockPolicy) (offsets : list Z) (samples : list MediaTsPcrClock) : list MediaTsPcrObservation :=
  zip_with (fun offset k => mkObservation offset (pcrPid policy) (pr_wire27Mhz k) false) offsets samples.

(** The same readings on the receiver's extended clock, which starts at the wire
    value of the first sample. *)
Definition readings (k0 : MediaTsPcrClock) (offsets : list Z) (samples : list MediaTsPcrClock) : list (Z * Z) :=
  zip_with (fun offset k => (offset, pr_wire27Mhz k0 + (pr_extended27Mhz k - pr_extended27Mhz k0))) offsets samples.

Definition wireOk (k : MediaTsPcrClock) : Prop := pr_wire27Mhz k = pr_extended27Mhz k mod clockModulus.

Lemma received_readings policy k0 offsets samples : wireOk k0 -> Forall wireOk samples ->
  received policy offsets samples = observationAt policy <$> readings k0 offsets samples.
Proof.
  intros H0 Hall. revert offsets. induction Hall as [| k samples Hk _ IH]; intros [| o offsets]; try done.
  unfold received, readings in *. cbn [zip_with fmap list_fmap]. rewrite IH. f_equal. unfold observationAt. cbn [fst snd]. f_equal.
  rewrite Hk, H0. rewrite Zplus_mod_idemp_l. f_equal. lia.
Qed.

(** Samples of the planned cadence from the index [i] on. *)
Definition cadence (a : MediaProtocolOutputActivation) (origin interval : Z) (i : nat) (samples : list MediaTsPcrClock) : Prop :=
  forall j k, samples !! j = Some k ->
    pr_masterTime k = origin + Z.of_nat (i + j) * interval /\ pr_extended27Mhz k = ticksAt a 27000000 (pr_masterTime k).

Lemma cadence_cons a origin interval i k samples : cadence a origin interval i (k :: samples) ->
  (pr_masterTime k = origin + Z.of_nat i * interval /\ pr_extended27Mhz k = ticksAt a 27000000 (pr_masterTime k)) /\
  cadence a origin interval (S i) samples.
Proof.
  intros H. split; [rewrite <- (Nat.add_0_r i); by apply (H 0%nat) |]. intros j k' Hj.
  replace (S i + j)%nat with (i + S j)%nat by lia. by apply (H (S j)).
Qed.

Lemma cadence_step a origin interval gap i k k' samples : cadence a origin interval i (k :: k' :: samples) ->
  1000 <= interval <= 10 ^ 12 -> 27 * interval + 1000 <= 1000 * gap ->
  pr_extended27Mhz k < pr_extended27Mhz k' <= pr_extended27Mhz k + gap /\ pr_extended27Mhz k' - pr_extended27Mhz k < clockModulus / 2.
Proof.
  intros [[Ht E] [[Ht' E'] _]%cadence_cons]%cadence_cons Hi Hg.
  pose proof (ticksAt_close a 27000000 (pr_masterTime k)) as C. pose proof (ticksAt_close a 27000000 (pr_masterTime k')) as C'.
  rewrite <- E in C. rewrite <- E' in C'. change (clockModulus / 2) with (2 ^ 32 * 300). lia.
Qed.

Lemma cadence_steady a origin interval gap k0 samples : 1000 <= interval <= 10 ^ 12 -> 27 * interval + 1000 <= 1000 * gap ->
  forall i k offset offsets, cadence a origin interval i (k :: samples) -> StronglySorted Z.lt (offset :: offsets) ->
  steadyReadings gap offset (pr_wire27Mhz k0 + (pr_extended27Mhz k - pr_extended27Mhz k0)) (readings k0 offsets samples).
Proof.
  intros Hi Hg. induction samples as [| k' samples IH]; intros i k offset [| o offsets] Hc Ho; try done.
  unfold readings. cbn [zip_with steadyReadings fst snd]. destruct (cadence_step _ _ _ _ _ _ _ _ Hc Hi Hg) as [H1 H2].
  apply StronglySorted_inv in Ho as [Ho Hlt]. apply Forall_cons in Hlt as [Hlt _].
  split_and!; try lia. apply cadence_cons in Hc as [_ Hc]. exact (IH (S i) k' o offsets Hc Ho).
Qed.

Lemma readings_last k0 offsets samples d : length offsets = length samples ->
  default d (snd <$> last (readings k0 offsets samples)) =
  default d ((fun k => pr_wire27Mhz k0 + (pr_extended27Mhz k - pr_extended27Mhz k0)) <$> last samples).
Proof.
  revert offsets. induction samples as [| k samples IH]; intros [| o offsets] Hl; try done.
  unfold readings in *. cbn [zip_with]. rewrite !last_cons. cbn in Hl. injection Hl as Hl. specialize (IH offsets Hl).
  destruct samples as [| k' samples], offsets as [| o' offsets]; try done. cbn [zip_with] in *. rewrite !last_cons in *.
  by destruct (last (zip_with _ _ _)), (last samples).
Qed.

(** The calibration of a receiver that has read the samples from [k0] to [k]. *)
Definition receiverTime (k0 k : MediaTsPcrClock) : Z := pr_wire27Mhz k0 + (pr_extended27Mhz k - pr_extended27Mhz k0).

Definition receiverCalibration (generation : Z) (k0 k : MediaTsPcrClock) : MediaTsPcrCalibration :=
  calibrationAt generation (pr_wire27Mhz k0) (receiverTime k0 k).

(** What the receiver's clock is behind the sender's, in timestamp ticks. *)
Definition epochTicks (k0 : MediaTsPcrClock) : Z := pr_extended27Mhz k0 / clockModulus * pts.

Lemma receiver_anchor k0 k : wireOk k0 -> receiverTime k0 k / 300 = pr_extended27Mhz k / 300 - epochTicks k0.
Proof.
  intros H0. unfold receiverTime, epochTicks. rewrite H0. pose proof (Z.div_mod (pr_extended27Mhz k0) clockModulus ltac:(done)) as E.
  set (n := pr_extended27Mhz k0 / clockModulus) in *.
  replace (_ + (pr_extended27Mhz k - _)) with (pr_extended27Mhz k + (- (n * pts)) * 300).
  - rewrite Z.div_add by lia. lia.
  - change clockModulus with (pts * 300) in *. lia.
Qed.

(** A time is recovered up to the resolution of the fields: half a tick of the
    timestamp, and the whole tick of the anchor that is cut off. *)
Definition close (base time recovered : Z) : Prop := - 5600 <= recovered - (base + time) <= 16700.

Lemma recovered_close a generation k0 k time : wireOk k0 ->
  pr_extended27Mhz k0 = ticksAt a 27000000 (pr_masterTime k0) -> pr_extended27Mhz k = ticksAt a 27000000 (pr_masterTime k) ->
  pr_extended27Mhz k0 <= pr_extended27Mhz k ->
  close (nanoseconds27 (pr_wire27Mhz k0) - pr_masterTime k0) time
    (timeOf (receiverCalibration generation k0 k) (ticksAt a 90000 time - epochTicks k0)).
Proof.
  intros H0 E0 E Hle. unfold close, timeOf, receiverCalibration, calibrationAt. cbn [pc_sourceTime pc_pcr27Mhz].
  rewrite receiver_anchor by done. unfold receiverTime.
  replace (pr_wire27Mhz k0 + (pr_extended27Mhz k - pr_extended27Mhz k0) - pr_wire27Mhz k0) with (pr_extended27Mhz k - pr_extended27Mhz k0) by lia.
  replace (ticksAt a 90000 time - epochTicks k0 - (pr_extended27Mhz k / 300 - epochTicks k0))
    with (ticksAt a 90000 time - pr_extended27Mhz k / 300) by lia.
  pose proof (nanoseconds27_nonneg (pr_extended27Mhz k - pr_extended27Mhz k0) ltac:(lia)) as N.
  pose proof (nanoseconds90_close (ticksAt a 90000 time - pr_extended27Mhz k / 300)) as M.
  pose proof (ticksAt_close a 90000 time) as P. pose proof (ticksAt_close a 27000000 (pr_masterTime k0)) as C0.
  pose proof (ticksAt_close a 27000000 (pr_masterTime k)) as C. rewrite <- E0 in C0. rewrite <- E in C.
  pose proof (Z.div_mod (pr_extended27Mhz k) 300 ltac:(lia)) as D. pose proof (Z.mod_pos_bound (pr_extended27Mhz k) 300 ltac:(lia)) as B.
  set (x := ticksAt a 90000 time) in *. set (q := pr_extended27Mhz k / 300) in *. set (r := pr_extended27Mhz k mod 300) in *.
  set (n := nanoseconds27 (pr_extended27Mhz k - pr_extended27Mhz k0)) in *. set (n90 := nanoseconds90 (x - q)) in *.
  clearbody x q r n n90. set (n0 := nanoseconds27 (pr_wire27Mhz k0)). clearbody n0. clear H0 E0 E. lia.
Qed.

Lemma steadyTicks_shift shift previous ticks : steadyTicks previous ticks ->
  steadyTicks (previous - shift) ((fun t => t - shift) <$> ticks).
Proof.
  revert previous. induction ticks as [| t ticks IH]; intros previous; [done |]. intros [Ht Hs].
  cbn [fmap list_fmap steadyTicks]. split; [lia |]. by apply IH.
Qed.

Lemma shift_mod x k0 : (x - epochTicks k0) mod pts = x mod pts.
Proof. unfold epochTicks. rewrite <- (Z.mod_add (x - _) (pr_extended27Mhz k0 / clockModulus)) by done. f_equal. lia. Qed.

(** ** The access units of a session *)

Notation unit := (MediaTsPes.MediaScheduledStream * PacketRequest * MediaTsPes.MediaTsPacketClock)%type.

(** Neither timestamp of an access unit goes back, or ahead by half its range. *)
Definition inOrder (first : unit) (rest : list unit) : Prop :=
  steadyTicks (extendedPts first.2) ((fun u : unit => extendedPts u.2) <$> rest) /\
  steadyTicks (extendedDts first.2) ((fun u : unit => extendedDts u.2) <$> rest).

Definition withinOf (limit now : Z) (u : unit) : Prop :=
  Z.abs (rq_presentation u.1.2 - now) <= limit /\ Z.abs (rq_dispatch u.1.2 - now) <= limit.

Definition unitWires (units : list unit) : list (Z * Z) := (fun u : unit => (wirePts u.2, wireDts u.2)) <$> units.

Definition recoveredTiming (base : Z) (u : unit) (t : MediaTsMappedSourceTiming) : Prop :=
  exists p d, mt_presentationTime t = Some p /\ mt_decodeTime t = Some d /\
    close base (rq_presentation u.1.2) p /\ close base (rq_dispatch u.1.2) d.

(** The timestamps of an access unit on the receiver's clock. *)
Definition receiverTicks (k0 : MediaTsPcrClock) (u : unit) : Z * Z :=
  (extendedPts u.2 - epochTicks k0, extendedDts u.2 - epochTicks k0).

Lemma unitWires_receiver a k0 units : Forall (fun u : unit => packetExact a u.1.2 u.2) units ->
  unitWires units = wired <$> (receiverTicks k0 <$> units).
Proof.
  induction 1 as [| u units (_ & _ & Hp & Hd & _) _ IH]; [done |]. unfold unitWires in *. cbn [fmap list_fmap]. rewrite IH. f_equal.
  unfold wired, receiverTicks. cbn [fst snd]. by rewrite !shift_mod, Hp, Hd.
Qed.

Lemma distance_ticks a k0 k time now limit : wireOk k0 -> pr_extended27Mhz k = ticksAt a 27000000 now ->
  Z.abs (time - now) <= limit ->
  Z.abs (100000 * (ticksAt a 90000 time - epochTicks k0 - receiverTime k0 k / 300)) <= 9 * limit + 200000.
Proof.
  intros H0 E Hd. rewrite receiver_anchor by done.
  replace (ticksAt a 90000 time - epochTicks k0 - (pr_extended27Mhz k / 300 - epochTicks k0))
    with (ticksAt a 90000 time - pr_extended27Mhz k / 300) by lia.
  pose proof (ticksAt_close a 90000 time) as P. pose proof (ticksAt_close a 27000000 now) as C. rewrite <- E in C.
  pose proof (Z.div_mod (pr_extended27Mhz k) 300 ltac:(lia)) as D. pose proof (Z.mod_pos_bound (pr_extended27Mhz k) 300 ltac:(lia)) as B.
  set (q := pr_extended27Mhz k / 300) in *. set (r := pr_extended27Mhz k mod 300) in *. set (x := ticksAt a 90000 time) in *. clearbody q r x.
  clear E H0. lia.
Qed.

(** *** The receiver's side *)

Lemma cadence_forall a origin interval i samples limit : cadence a origin interval i samples -> 0 <= interval ->
  Z.of_nat (i + length samples) * interval <= limit ->
  Forall (fun k => pr_masterTime k <= origin + limit /\ origin + Z.of_nat i * interval <= pr_masterTime k /\
    pr_extended27Mhz k = ticksAt a 27000000 (pr_masterTime k)) samples.
Proof.
  intros Hc Hi Hl. apply Forall_lookup. intros j k Hj. destruct (Hc j k Hj) as [-> ->]. apply lookup_lt_Some in Hj. split_and!; [| | done]; nia.
Qed.

Lemma receiver_bounds a origin k0 k limit : wireOk k0 -> pr_masterTime k0 = origin -> pr_extended27Mhz k0 = ticksAt a 27000000 origin ->
  pr_extended27Mhz k = ticksAt a 27000000 (pr_masterTime k) -> origin + 1000 <= pr_masterTime k <= origin + limit -> limit <= 10 ^ 17 ->
  pr_extended27Mhz k0 <= pr_extended27Mhz k /\ pr_wire27Mhz k0 <= receiverTime k0 k <= 2 ^ 52 /\ 0 <= pr_wire27Mhz k0 < clockModulus.
Proof.
  intros H0 Ht E0 E Hk Hl. pose proof (Z.mod_pos_bound (pr_extended27Mhz k0) clockModulus ltac:(done)) as B. rewrite <- H0 in B.
  pose proof (ticksAt_close a 27000000 origin) as C0. pose proof (ticksAt_close a 27000000 (pr_masterTime k)) as C.
  rewrite <- E0 in C0. rewrite <- E in C. unfold receiverTime. change clockModulus with (2 ^ 33 * 300) in *. split_and!; lia.
Qed.

(** Reading the samples of a session calibrates the receiver at the last one. *)
Lemma session_received a origin interval limit clockPolicy generation t offset offsets k0 samples k :
  cadence a origin interval 0 (k0 :: samples) -> Forall wireOk (k0 :: samples) -> last samples = Some k ->
  1000 <= interval <= 10 ^ 12 -> 27 * interval + 1000 <= 1000 * maximumGap27Mhz clockPolicy ->
  Z.of_nat (length (k0 :: samples)) * interval <= limit -> limit <= 10 ^ 17 ->
  createTracker clockPolicy generation = Success t -> is_u 64 generation ->
  length offsets = length samples -> StronglySorted Z.lt (offset :: offsets) ->
  exists t', observeAll (received clockPolicy (offset :: offsets) (k0 :: samples)) t = (Success tt, t') /\
    calibration t' = Success (receiverCalibration generation k0 k).
Proof.
  intros Hc Hw Hk Hi Hg Hn Hl Ht Hgen Hlen Hs. pose proof Hw as [H0 Hw']%Forall_cons.
  pose proof (cadence_forall _ _ _ _ _ _ Hc ltac:(lia) Hn) as Hall. apply Forall_cons in Hall as [(_ & _ & E0) Hall].
  pose proof (cadence_cons _ _ _ _ _ _ Hc) as [[T0 _] Hc1]. rewrite Z.mul_0_l, Z.add_0_r in T0. rewrite T0 in E0.
  pose proof (cadence_forall _ _ _ _ _ limit Hc1 ltac:(lia) ltac:(cbn [length] in Hn; lia)) as Hall1.
  assert (Hb : Forall (fun k => pr_extended27Mhz k0 <= pr_extended27Mhz k /\ pr_wire27Mhz k0 <= receiverTime k0 k <= 2 ^ 52 /\
    0 <= pr_wire27Mhz k0 < clockModulus) samples).
  { eapply Forall_impl; [exact Hall1 |]. cbn beta. intros k' (H1 & H2 & H3). eapply receiver_bounds; eauto; lia. }
  assert (Hw0 : 0 <= pr_wire27Mhz k0 < clockModulus)
    by (apply last_Some_elem_of in Hk; apply (proj1 (Forall_forall _ _) Hb k) in Hk; apply Hk).
  rewrite (received_readings clockPolicy k0) by done. unfold readings. cbn [zip_with]. rewrite Z.sub_diag, Z.add_0_r.
  fold (readings k0 offsets samples).
  destruct (tracker_follows clockPolicy generation t (offset, pr_wire27Mhz k0) (readings k0 offsets samples) Ht Hgen Hw0) as (t' & E & Ec).
  - destruct samples, offsets; done.
  - cbn [fst snd]. pose proof (cadence_steady _ _ _ (maximumGap27Mhz clockPolicy) k0 samples Hi Hg 0 k0 offset offsets Hc Hs) as Hst.
    by rewrite Z.sub_diag, Z.add_0_r in Hst.
  - clear - Hb Hlen. revert offsets Hlen. induction Hb as [| k samples (_ & Hk & _) _ IH]; intros [| o offsets] Hlen; try done.
    unfold readings. cbn [zip_with]. constructor; [cbn [snd]; unfold receiverTime in Hk; lia |]. apply IH. by injection Hlen.
  - exists t'. split; [exact E |]. rewrite Ec. cbn [snd]. rewrite readings_last by done. by rewrite Hk.
Qed.

Lemma receiver_calibration_bounds generation k0 k : 0 <= pr_wire27Mhz k0 < clockModulus -> pr_wire27Mhz k0 <= receiverTime k0 k <= 2 ^ 52 ->
  calibrationBounds (receiverCalibration generation k0 k).
Proof.
  intros Hw Hr. unfold calibrationBounds, receiverCalibration, calibrationAt. cbn [pc_pcr27Mhz pc_sourceTime].
  pose proof (nanoseconds27_nonneg (pr_wire27Mhz k0) ltac:(lia)). pose proof (nanoseconds27_nonneg (receiverTime k0 k - pr_wire27Mhz k0) ltac:(lia)).
  change clockModulus with (2 ^ 33 * 300) in *. lia.
Qed.

(** The access units on a receiver calibrated at the sample [k]. *)
Lemma units_recovered a generation k0 k m first rest :
  wireOk k0 -> pr_extended27Mhz k0 = ticksAt a 27000000 (pr_masterTime k0) -> pr_extended27Mhz k = ticksAt a 27000000 (pr_masterTime k) ->
  pr_extended27Mhz k0 <= pr_extended27Mhz k -> calibrationBounds (receiverCalibration generation k0 k) ->
  createMapper (Some (receiverCalibration generation k0 k)) = Success m ->
  Forall (fun u : unit => packetExact a u.1.2 u.2) (first :: rest) -> inOrder first rest ->
  withinOf (4 * 10 ^ 13) (pr_masterTime k) first -> Forall (withinOf (10 ^ 17) (pr_masterTime k)) rest ->
  exists timings, (mapAll (unitWires (first :: rest)) m).1 = Success timings /\
    Forall2 (recoveredTiming (nanoseconds27 (pr_wire27Mhz k0) - pr_masterTime k0)) (first :: rest) timings.
Proof.
  intros H0 E0 E Hle Hc Hm Hexact [Hsp Hsd] Hfirst Hrest. exists (timingOf (receiverCalibration generation k0 k) <$> (receiverTicks k0 <$> first :: rest)).
  split.
  - rewrite (unitWires_receiver a k0) by done. rewrite fmap_cons.
    apply Forall_cons in Hexact as [(Ep & Ed & _) Hexact]. destruct Hfirst as [Hf1 Hf2].
    pose proof (distance_ticks a k0 k _ _ _ H0 E Hf1) as D1. pose proof (distance_ticks a k0 k _ _ _ H0 E Hf2) as D2.
    rewrite <- Ep in D1. rewrite <- Ed in D2.
    apply (mapper_follows _ _ _ _ _ Hm Hc); cbn [pc_pcr27Mhz receiverCalibration calibrationAt].
    + change (pts / 2) with 4294967296. lia.
    + change (pts / 2) with 4294967296. lia.
    + rewrite <- list_fmap_compose. pose proof (steadyTicks_shift (epochTicks k0) _ _ Hsp) as H. by rewrite <- list_fmap_compose in H.
    + rewrite <- list_fmap_compose. pose proof (steadyTicks_shift (epochTicks k0) _ _ Hsd) as H. by rewrite <- list_fmap_compose in H.
    + apply Forall_fmap. apply Forall_forall. intros u Hu. cbn. pose proof (proj1 (Forall_forall _ _) Hexact u Hu) as (Eu & Ev & _).
      pose proof (proj1 (Forall_forall _ _) Hrest u Hu) as [Hu1 Hu2]. unfold reachable. cbn [pc_pcr27Mhz receiverCalibration calibrationAt].
      pose proof (distance_ticks a k0 k _ _ _ H0 E Hu1) as D3. pose proof (distance_ticks a k0 k _ _ _ H0 E Hu2) as D4.
      rewrite <- Eu in D3. rewrite <- Ev in D4. lia.
  - rewrite <- list_fmap_compose. apply Forall2_fmap_r, Forall_Forall2_diag. eapply Forall_impl; [exact Hexact |].
    intros u (Ep & Ed & _). eexists _, _. split_and!; [done | done | |]; cbn [fst snd receiverTicks]; rewrite ?Ep, ?Ed; by apply recovered_close.
Qed.

Lemma session_samples policy activation origin address g calls :
  create policy activation origin address = Success g -> createTyped policy activation origin -> Forall callTyped calls ->
  let samples := wd_samples (run calls (started g)) in
  cadence activation origin (cp_pcrInterval policy) 0 samples /\ Forall wireOk samples.
Proof.
  intros Hc Ht Hcalls samples. destruct (session_ok _ _ _ _ _ calls Hc Ht Hcalls) as (Hw & Ep & Ea & Eo).
  pose proof (wo_samples _ Hw) as Hs. split.
  - intros j k Hj. destruct (Hs j k Hj) as (_ & H1 & H2 & _). rewrite Eo, Ep in H1. rewrite Ea in H2. done.
  - apply Forall_lookup. intros j k Hj. destruct (Hs j k Hj) as (_ & _ & _ & H & _). exact H.
Qed.


(** Presentation times go back in streams with reordered pictures, and the
    mapper refuses that: after an access unit, one that is presented before it
    fails, whatever its decode time. *)
Theorem reordered_presentation_rejected c m p d q e : createMapper (Some c) = Success m -> calibrationBounds c ->
  Z.abs (p - pc_pcr27Mhz c / 300) < pts / 2 -> Z.abs (d - pc_pcr27Mhz c / 300) < pts / 2 -> 0 < p - q < pts / 2 ->
  resultOk (mapAll (wired <$> [(p, d); (q, e)]) m).1 = false.
Proof.
  intros Hm Hc Hp Hd Hq. unfold createMapper in Hm. destruct (_ <? _); [by apply failure_not in Hm |]. injection Hm as <-.
  assert (Hnew : newDirection (MediaTimestampUnwrapper.create MpegTsPtsDts33 (pc_generation c)) None) by (split_and!; try done; by split).
  destruct (map_first c p _ _ Hc Hnew Hp) as (u1 & o1 & E1 & Hp'). destruct (map_first c d _ _ Hc Hnew Hd) as (u2 & o2 & E2 & _).
  cbn [fmap list_fmap wired fst snd mapAll]. unfold mapTiming. cbn [mp_calibration mp_ptsUnwrapper mp_ptsEpochOffset mp_dtsUnwrapper mp_dtsEpochOffset].
  rewrite E1, E2. cbn [mp_calibration mp_ptsUnwrapper mp_ptsEpochOffset mp_dtsUnwrapper mp_dtsEpochOffset].
  destruct Hp' as (Hu & Hk & Hi & Hn & Hde & o & -> & Hl & Ho & Hob). pose proof (uo_modulus _ Hu) as Hmod. rewrite Hk in Hmod.
  change (modulusFor MpegTsPtsDts33) with pts in Hmod. pose proof (Z.mod_pos_bound q pts ltac:(done)) as Hb.
  destruct (uo_last _ Hu Hi) as [Hlast Hraw]. rewrite Hmod in Hraw.
  assert (Hnone : forall movement, forwardMovement u1 (q mod pts) <> inl movement).
  { intros movement [Hmv Hr]%forwardMovement_spec; rewrite ?Hmod; try done; [| rewrite Hraw; by apply Z.mod_pos_bound].
    rewrite Hmod in Hmv, Hr. rewrite Hraw, Zplus_mod_idemp_l in Hr.
    assert (Hz : (q - (uw_lastUnwrappedTimestamp u1 + movement)) mod pts = 0) by (rewrite Zminus_mod, Hr, Z.sub_diag; done).
    replace (q - (uw_lastUnwrappedTimestamp u1 + movement)) with (- (p - q + movement) + o) in Hz by lia.
    rewrite Zplus_mod, Ho, Z.add_0_r, Z.mod_mod in Hz by done.
    apply Z.mod_divide in Hz as [z Hz]; [| done]. change (pts / 2) with 4294967296 in *. change pts with 8589934592 in *. lia. }
  unfold mapOne, createTimestamp. change ptsModulus with pts. rewrite (proj2 (Z.leb_gt _ _)) by lia. cbn [orb Z.leb Z.compare bindResult].
  unfold unwrap. cbn [pt_ticks pt_timeBaseNumerator pt_timeBaseDenominator]. rewrite Hmod, Hi, Hn, Hde.
  rewrite (proj2 (Z.ltb_ge _ _)), (proj2 (Z.leb_gt _ _)) by lia. cbn [orb andb negb Z.eqb].
  destruct (forwardMovement u1 (q mod pts)) as [movement |]; [by destruct (Hnone movement) |].
  cbn. repeat (unfold failure; destruct (ErrorInfo_ok _); cbn); done.
Qed.

(** ** A session *)

(** Three samples, 20 ms apart, two video and one audio access unit. *)
Definition exampleSession : list ClockCall :=
  [Call_PreparePcr 3 4900000000; Call_CommitPcr;
   Call_PreparePacket 3 Scheduled_Video 5040000000 5000000000 4900000000 100000000; Call_CommitPacket;
   Call_PreparePcr 3 4920000000; Call_CommitPcr;
   Call_PreparePacket 3 Scheduled_Audio 5010000007 5010000007 4910000007 100000000; Call_CommitPacket;
   Call_PreparePacket 3 Scheduled_Video 5080000001 5033333333 4933333333 100000000; Call_CommitPacket;
   Call_PreparePcr 3 4940000000; Call_CommitPcr].

Definition exampleWorld : World := run exampleSession (started exampleGenerator).

Definition exampleClockReceiver : MediaTsProgramClockPolicy := VideoOnlyClock (mkVideoOnlyPolicy 1 0x100 0x101 0x101 2700000).

Definition exampleFirst : unit :=
  (Scheduled_Video, mkPacketRequest 5040000000 5000000000 4900000000, mkPacketClock 93600 90000 93600 90000).
Definition exampleSecond : unit :=
  (Scheduled_Video, mkPacketRequest 5080000001 5033333333 4933333333, mkPacketClock 97200 93000 97200 93000).
Definition exampleTracker : Tracker :=
  mkTracker exampleClockReceiver 4 (MediaTimestampUnwrapper.create MpegTsPcr27Mhz 4) None None None None None None false false.

Lemma example_session_typed : Forall callTyped exampleSession.
Proof. unfold exampleSession. repeat (apply Forall_cons; split); cbn; first [done | ranges; lia | by apply Forall_nil]. Qed.


Definition exampleCalibration : MediaTsPcrCalibration := mkCalibration 4 25380000 940000000.

(** A picture presented 40 ms before the one that was sent first. *)
Lemma reordered_presentation_rejected_witness :
  resultOk (mapAll (wired <$> [(93600, 86400); (90000, 90000)])
    (mkMapper exampleCalibration (MediaTimestampUnwrapper.create MpegTsPtsDts33 4) (MediaTimestampUnwrapper.create MpegTsPtsDts33 4) None None)).1 = false.
Proof.
  apply (reordered_presentation_rejected exampleCalibration _ 93600 86400 90000 90000 eq_refl).
  - unfold calibrationBounds. cbn. lia.
  - vm_compute. reflexivity.
  - vm_compute. reflexivity.
  - change (pts / 2) with 4294967296. lia.
Defined.

End MediaTsClockRoundTrip.
