(* ===== verification/TsEvidence.v ===== *)
(** * Evidence of a transport stream and its clock projection

    Models [protocol/mpegts/MediaTsEvidenceTimeline.{h,cpp}], the bounded record
    of clock references, continuity losses and program tables by byte offset,
    and [protocol/mpegts/MediaTsClockProjection.{h,cpp}], which replays it
    through the programme clock tracker and answers which calibration holds at
    the byte position of a packet.  [sourceClockCheckpoint] is the part of
    [nodes/demux/MpegTsDemuxNode.cpp] that drives the two.

    A [std::deque] or [std::vector] of checkpoints is a list; [std::upper_bound]
    finds the first one after a position, the list being sorted. *)

From stdpp Require Import sets sorting pretty.
From S2P Require Import Prelude MediaResult TimeBase TsParser TsSections TsSourceClock.
Import MediaTsPacketParser MediaTsPsiSectionAssembler MediaTsProgramClockTracker.

Local Open Scope Z_scope.
Local Open Scope result_scope.

(** ** Bounded histories

    An entry is superseded once a later one is old enough: no legal position is
    answered by it any more. *)

Section History.

Context {A : Type} (offset : A -> Z).

(** The last entry at or before a position: the one before [std::upper_bound]. *)
Fixpoint lastAtOrBefore (position : Z) (l : list A) : option A :=
  match l with
  | [] => None
  | x :: l =>
      if position <? offset x then None
      else match lastAtOrBefore position l with Some y => Some y | None => Some x end
  end.

(** The entries after an offset. *)
Fixpoint after (exclusive : Z) (l : list A) : list A :=
  match l with
  | [] => []
  | x :: l' => if exclusive <? offset x then l else after exclusive l'
  end.

(** Drops the first entry while the second one is old enough. *)
Fixpoint dropSuperseded (earliest : Z) (l : list A) : list A :=
  match l with
  | x :: (y :: _) as l' => if offset y <=? earliest then dropSuperseded earliest l' else l
  | _ => l
  end.

(** *** Lemmas *)

Definition ordered (l : list A) : Prop := StronglySorted (fun x y => offset x < offset y) l.

Lemma lookup_none position l : ordered l -> (forall x, x ∈ l -> position < offset x) -> lastAtOrBefore position l = None.
Proof.
  intros _ Hl. destruct l as [| x l]; [done |]. cbn. rewrite (proj2 (Z.ltb_lt _ _)); [done |]. apply Hl. left.
Qed.

(** Entries before one at or before the position do not matter. *)
Lemma lookup_suffix position d x l : ordered (d ++ x :: l) -> offset x <= position ->
  lastAtOrBefore position (d ++ x :: l) = lastAtOrBefore position (x :: l).
Proof.
  induction d as [| y d IH]; intros Hs Hx; [done |]. apply StronglySorted_inv in Hs as [Hs Hall]. cbn [app].
  specialize (IH Hs Hx). cbn [lastAtOrBefore]. rewrite IH. cbn [lastAtOrBefore].
  rewrite (proj2 (Z.ltb_ge _ _) Hx). apply Forall_app in Hall as [_ Hall]. apply Forall_cons in Hall as [Hy _].
  rewrite (proj2 (Z.ltb_ge _ _)) by lia. by destruct (lastAtOrBefore position l).
Qed.

Lemma dropSuperseded_spec earliest l : exists d, l = d ++ dropSuperseded earliest l /\
  (d <> [] -> exists x l', dropSuperseded earliest l = x :: l' /\ offset x <= earliest).
Proof.
  induction l as [| x [| y l] IH]; [by exists [] | by exists [] |]. cbn [dropSuperseded].
  destruct (Z.leb_spec (offset y) earliest); [| by exists []].
  destruct IH as (d & E & Hd). exists (x :: d). split; [by rewrite E at 1 |]. intros _.
  destruct d as [| z d]; [| by apply Hd]. cbn in E. rewrite <- E. by eexists _, _.
Qed.

(** Nothing newer than [earliest] is dropped. *)
Lemma dropSuperseded_app earliest kept pending : Forall (fun x => earliest < offset x) pending ->
  dropSuperseded earliest (kept ++ pending) = dropSuperseded earliest kept ++ pending.
Proof.
  intros Hp. assert (Hsame : forall x, dropSuperseded earliest (x :: pending) = x :: pending).
  { intros x. destruct Hp as [| y l Hy _]; [done |]. cbn. by rewrite (proj2 (Z.leb_gt _ _)). }
  induction kept as [| x [| y l] IH].
  - destruct Hp as [| y [| z l] _ Hl]; [done | done |]. apply Forall_cons in Hl as [Hz _]. cbn. by rewrite (proj2 (Z.leb_gt _ _)).
  - apply Hsame.
  - cbn [app dropSuperseded] in *. destruct (_ <=? _); [exact IH | done].
Qed.

Lemma after_app exclusive kept pending : Forall (fun x => offset x <= exclusive) kept -> Forall (fun x => exclusive < offset x) pending ->
  after exclusive (kept ++ pending) = pending.
Proof.
  intros Hk Hp. induction Hk as [| x l Hx _ IH]; cbn.
  - destruct Hp as [| x l Hx _]; [done |]. cbn. by rewrite (proj2 (Z.ltb_lt _ _)).
  - by rewrite (proj2 (Z.ltb_ge _ _)).
Qed.

Lemma ordered_app a b : ordered (a ++ b) -> ordered a /\ ordered b /\ forall x y, x ∈ a -> y ∈ b -> offset x < offset y.
Proof. intros (H1 & H2 & H3)%StronglySorted_app. split_and!; auto. Qed.

Lemma ordered_snoc l x : ordered l -> (forall y, last l = Some y -> offset y < offset x) -> ordered (l ++ [x]).
Proof.
  intros Hs Hx. apply StronglySorted_app. split_and!; [| done | repeat constructor]. intros y z Hy ->%list_elem_of_singleton.
  destruct l as [| w l _] using rev_ind; [by apply elem_of_nil in Hy |]. rewrite last_snoc in Hx. specialize (Hx w eq_refl).
  apply elem_of_app in Hy as [Hy | ->%list_elem_of_singleton]; [| done].
  apply ordered_app in Hs as (_ & _ & H). specialize (H y w Hy ltac:(set_solver)). lia.
Qed.

Lemma ordered_fmap l : ordered l <-> StronglySorted Z.lt (offset <$> l).
Proof.
  unfold ordered. induction l as [| x l IH]; cbn; [split; constructor |].
  split; intros [H1 H2]%StronglySorted_inv; (constructor; [by apply IH |]).
  - by apply (Forall_fmap offset (Z.lt (offset x)) l).
  - by apply (Forall_fmap offset (Z.lt (offset x)) l) in H2.
Qed.

(** [kept] is the end of the history [all], and what is missing before it is
    older than any position the watermark still allows. *)
Definition covers (maximum : Z) (watermark : option Z) (kept all : list A) : Prop :=
  exists dropped, all = dropped ++ kept /\
    (dropped <> [] -> exists x l w, kept = x :: l /\ watermark = Some w /\ offset x <= w - maximum).

Lemma covers_refl maximum watermark l : covers maximum watermark l l.
Proof. by exists []. Qed.

Lemma covers_drop maximum w kept all : covers maximum (Some w) kept all ->
  covers maximum (Some w) (dropSuperseded (w - maximum) kept) all.
Proof.
  intros (d & E & Hd). destruct (dropSuperseded_spec (w - maximum) kept) as (d' & E' & Hd').
  exists (d ++ d'). split; [by rewrite <- app_assoc, <- E' |]. intros Hne. destruct d' as [| z d'].
  - cbn in E'. rewrite <- E'. rewrite app_nil_r in Hne. by apply Hd.
  - destruct (Hd' ltac:(done)) as (x & l & El & Hx). by exists x, l, w.
Qed.

Lemma covers_snoc maximum watermark kept all x : covers maximum watermark kept all -> covers maximum watermark (kept ++ [x]) (all ++ [x]).
Proof.
  intros (d & -> & Hd). exists d. split; [by rewrite app_assoc |]. intros Hne. destruct (Hd Hne) as (y & l & w & -> & E2 & E3).
  by exists y, (l ++ [x]), w.
Qed.

Lemma covers_advance maximum watermark position kept all : (forall w, watermark = Some w -> w <= position) ->
  covers maximum watermark kept all -> covers maximum (Some position) kept all.
Proof.
  intros Hle (d & -> & Hd). exists d. split; [done |]. intros Hne. destruct (Hd Hne) as (y & l & w & -> & E2 & E3).
  specialize (Hle w E2). exists y, l, position. split_and!; [done | done | lia].
Qed.

Lemma covers_last maximum watermark kept all : covers maximum watermark kept all -> last all = last kept.
Proof.
  intros (d & -> & Hd). rewrite last_app. destruct (last kept) eqn:E; [done |]. apply last_None in E as ->.
  destruct d as [| y d]; [done |]. destruct (Hd ltac:(done)) as (? & ? & ? & ? & _). done.
Qed.

Lemma covers_lookup maximum watermark position kept all : ordered all -> covers maximum watermark kept all ->
  (forall w, watermark = Some w -> w - maximum <= position) ->
  lastAtOrBefore position kept = lastAtOrBefore position all.
Proof.
  intros Hs (d & -> & Hd) Hle. destruct d as [| y d]; [done |]. destruct (Hd ltac:(done)) as (x & l & w & -> & E2 & E3).
  symmetry. apply lookup_suffix; [done |]. specialize (Hle w E2). lia.
Qed.

End History.

(** ** The evidence timeline *)

Module MediaTsEvidenceTimeline.

Record MediaTsRawPcrEvidence := mkRawPcr {
  rp_byteOffset : Z;
  rp_pid : Z;
  rp_pcr27Mhz : Z;
  rp_discontinuity : bool;
}.

Record MediaTsEvidenceCheckpoint := mkEvidence {
  ec_byteOffset : Z;
  ec_inventory : MediaTsProgramInventorySnapshot;
  ec_pcrObservation : option MediaTsRawPcrEvidence;
  ec_continuityEvent : option MediaTsContinuityEvent;
  ec_discontinuity : bool;
  ec_generation : Z;
}.

Record Timeline := mkTimeline {
  tl_capacity : Z;
  tl_maximumPositionRegressionBytes : Z;
  tl_highWatermark : option Z;
  tl_checkpoints : list MediaTsEvidenceCheckpoint;
  tl_historyComplete : bool;
}.

Definition createTimeline (capacity maximumPositionRegressionBytes : Z) : Result Timeline :=
  if capacity =? 0 then failure (invalidArgument "MPEG-TS evidence timeline capacity must be positive")
  else Success (mkTimeline capacity maximumPositionRegressionBytes None [] true).

Definition setCheckpoints (l : list MediaTsEvidenceCheckpoint) (t : Timeline) : Timeline :=
  mkTimeline (tl_capacity t) (tl_maximumPositionRegressionBytes t) (tl_highWatermark t) l
    (tl_historyComplete t && bool_decide (length l = length (tl_checkpoints t))).

Definition evictSafeCheckpoints (t : Timeline) : Timeline :=
  match tl_highWatermark t with
  | Some watermark =>
      if watermark <=? tl_maximumPositionRegressionBytes t then t
      else setCheckpoints (dropSuperseded ec_byteOffset (watermark - tl_maximumPositionRegressionBytes t) (tl_checkpoints t)) t
  | None => t
  end.

Definition pushCheckpoint (c : MediaTsEvidenceCheckpoint) (t : Timeline) : Timeline :=
  mkTimeline (tl_capacity t) (tl_maximumPositionRegressionBytes t) (tl_highWatermark t) (tl_checkpoints t ++ [c])
    (tl_historyComplete t).

Definition append (c : MediaTsEvidenceCheckpoint) (t : Timeline) : Status * Timeline :=
  if match ec_pcrObservation c with Some p => negb (rp_byteOffset p =? ec_byteOffset c) | None => false end
  then (failure (invalidArgument "MPEG-TS PCR evidence offset must match its checkpoint"), t)
  else if match ec_continuityEvent c with Some e => negb (ce_byteOffset e =? ec_byteOffset c) | None => false end
  then (failure (invalidArgument "MPEG-TS continuity event offset must match its checkpoint"), t)
  else if match last (tl_checkpoints t) with Some b => ec_byteOffset c <=? ec_byteOffset b | None => false end
  then (failure (invalidArgument "MPEG-TS evidence offsets must increase strictly"), t)
  else
    let t := evictSafeCheckpoints t in
    if Z.of_nat (length (tl_checkpoints t)) =? tl_capacity t
    then (failure (invalidArgument "MPEG-TS evidence capacity exhausted before safe eviction"), t)
    else (Success tt, pushCheckpoint c t).

Definition regressed (watermark : option Z) (maximum position : Z) : bool :=
  match watermark with Some w => (position <? w) && (maximum <? w - position) | None => false end.

Definition atOrBefore (position : Z) (t : Timeline) : Result MediaTsEvidenceCheckpoint :=
  if regressed (tl_highWatermark t) (tl_maximumPositionRegressionBytes t) position
  then failure (invalidArgument "MPEG-TS packet position exceeds planned regression")
  else
    match lastAtOrBefore ec_byteOffset position (tl_checkpoints t) with
    | Some c => Success c
    | None => failure (notInitialized "MPEG-TS evidence is unavailable for packet position")
    end.

Definition setWatermark (w : Z) (t : Timeline) : Timeline :=
  mkTimeline (tl_capacity t) (tl_maximumPositionRegressionBytes t) (Some w) (tl_checkpoints t) (tl_historyComplete t).

Definition observePacketPosition (position : Z) (t : Timeline) : Status * Timeline :=
  if regressed (tl_highWatermark t) (tl_maximumPositionRegressionBytes t) position
  then (failure (invalidArgument "MPEG-TS packet position exceeds planned regression"), t)
  else if match tl_highWatermark t with Some w => w <? position | None => true end
  then (Success tt, evictSafeCheckpoints (setWatermark position t))
  else (Success tt, t).

Definition snapshotAfter (exclusiveOffset : option Z) (t : Timeline) : list MediaTsEvidenceCheckpoint :=
  match exclusiveOffset with
  | Some o => after ec_byteOffset o (tl_checkpoints t)
  | None => tl_checkpoints t
  end.

Definition continuityOffsets (sourcePids : list Z) (l : list MediaTsEvidenceCheckpoint) : list Z :=
  omap (fun c =>
    match ec_continuityEvent c with
    | Some e => if bool_decide (ce_pid e ∈ sourcePids) then Some (ec_byteOffset c) else None
    | None => None
    end) l.

Definition completeContinuityOffsetsFor (sourcePids : list Z) (t : Timeline) : Result (list Z) :=
  if bool_decide (sourcePids = []) then failure (invalidArgument "MPEG-TS source PID set must not be empty")
  else if negb (tl_historyComplete t)
  then failure (notInitialized "MPEG-TS continuity history was evicted before runtime binding")
  else Success (continuityOffsets sourcePids (tl_checkpoints t)).

(** ** Forgetting does not show

    [wd_all] is everything that was ever appended. *)

Record World := mkWorld { wd_timeline : Timeline; wd_all : list MediaTsEvidenceCheckpoint }.

Inductive TimelineCall := Call_Append (c : MediaTsEvidenceCheckpoint) | Call_Position (position : Z).

Definition step (w : World) (c : TimelineCall) : World :=
  match c with
  | Call_Append c =>
      match append c (wd_timeline w) with
      | (Success _, t) => mkWorld t (wd_all w ++ [c])
      | (Failure _, t) => mkWorld t (wd_all w)
      end
  | Call_Position position => mkWorld (snd (observePacketPosition position (wd_timeline w))) (wd_all w)
  end.

Definition run (calls : list TimelineCall) (w : World) : World := foldl step w calls.

(** Offsets increase, the capacity holds, and only superseded checkpoints are forgotten. *)
Record retains (t : Timeline) (all : list MediaTsEvidenceCheckpoint) : Prop := mkRetains {
  rt_ordered : ordered ec_byteOffset all;
  rt_bounded : Z.of_nat (length (tl_checkpoints t)) <= tl_capacity t;
  rt_covers : covers ec_byteOffset (tl_maximumPositionRegressionBytes t) (tl_highWatermark t) (tl_checkpoints t) all;
  rt_complete : tl_historyComplete t = true -> tl_checkpoints t = all;
}.

Lemma evict_retains t all : retains t all -> retains (evictSafeCheckpoints t) all.
Proof.
  intros [Hs Hb Hc Hcomplete]. unfold evictSafeCheckpoints. destruct (tl_highWatermark t) as [w |] eqn:Ew; [| by constructor; rewrite ?Ew].
  destruct (Z.leb_spec w (tl_maximumPositionRegressionBytes t)); [by constructor; rewrite ?Ew |].
  pose proof (covers_drop _ _ _ _ _ Hc) as Hc'.
  destruct (dropSuperseded_spec ec_byteOffset (w - tl_maximumPositionRegressionBytes t) (tl_checkpoints t)) as (d & E & _).
  set (l := dropSuperseded _ _ _) in *. pose proof (f_equal length E) as El. rewrite length_app in El.
  constructor; cbn; [done | lia | by rewrite Ew |]. intros [H1 H2%bool_decide_eq_true]%andb_true_iff. rewrite <- (Hcomplete H1).
  destruct d; [done | cbn in El; lia].
Qed.

(** [append] either refuses and forgets at most superseded checkpoints, or it appends. *)
Lemma append_spec c t : exists r t', append c t = (r, t') /\
  match r with
  | Failure _ => t' = t \/ t' = evictSafeCheckpoints t
  | Success _ => t' = pushCheckpoint c (evictSafeCheckpoints t) /\
      (forall b, last (tl_checkpoints t) = Some b -> ec_byteOffset b < ec_byteOffset c) /\
      Z.of_nat (length (tl_checkpoints (evictSafeCheckpoints t))) <> tl_capacity (evictSafeCheckpoints t)
  end.
Proof.
  assert (Hw : forall e t', t' = t \/ t' = evictSafeCheckpoints t -> exists (r : Status) t0, (failure e, t') = (r, t0) /\
    match r with
    | Failure _ => t0 = t \/ t0 = evictSafeCheckpoints t
    | Success _ => t0 = pushCheckpoint c (evictSafeCheckpoints t) /\
        (forall b, last (tl_checkpoints t) = Some b -> ec_byteOffset b < ec_byteOffset c) /\
        Z.of_nat (length (tl_checkpoints (evictSafeCheckpoints t))) <> tl_capacity (evictSafeCheckpoints t)
    end).
  { intros e t' H. eexists _, _. split; [done |]. destruct (failure e) eqn:E; [by apply failure_not in E | done]. }
  unfold append. destruct (match ec_pcrObservation c with Some _ => _ | None => _ end); [by apply Hw; left |].
  destruct (match ec_continuityEvent c with Some _ => _ | None => _ end); [by apply Hw; left |].
  destruct (match last (tl_checkpoints t) with Some _ => _ | None => _ end) eqn:El; [by apply Hw; left |].
  cbv zeta. destruct (Z.eqb_spec (Z.of_nat (length (tl_checkpoints (evictSafeCheckpoints t)))) (tl_capacity (evictSafeCheckpoints t)));
    [by apply Hw; right |].
  eexists _, _. split; [done |]. split_and!; [done | | done]. intros b Eb. rewrite Eb in El. by apply Z.leb_gt in El.
Qed.

Lemma append_retains c t all : retains t all ->
  match append c t with (Success _, t') => retains t' (all ++ [c]) | (Failure _, t') => retains t' all end.
Proof.
  intros Hr. destruct (append_spec c t) as (r & t' & -> & H). pose proof (evict_retains t all Hr) as Hr'.
  destruct r as [[] | e]; [| by destruct H as [-> | ->]]. destruct H as (-> & Hlast & Hne).
  rewrite <- (covers_last _ _ _ _ _ (rt_covers _ _ Hr)) in Hlast. destruct Hr' as [Hs Hb Hc Hcomplete]. constructor; cbn.
  - by apply ordered_snoc.
  - rewrite length_app. cbn. lia.
  - by apply covers_snoc.
  - intros H. by rewrite Hcomplete.
Qed.

Definition advances (w : option Z) (position : Z) : bool := match w with Some w => w <? position | None => true end.

Lemma advances_le w position : advances w position = true -> forall v, w = Some v -> v <= position.
Proof. intros H v ->. apply Z.ltb_lt in H. lia. Qed.

Lemma position_retains position t all : retains t all -> retains (observePacketPosition position t).2 all.
Proof.
  intros Hr. unfold observePacketPosition. destruct (regressed _ _ _); [done |].
  destruct (match tl_highWatermark t with Some _ => _ | None => _ end) eqn:Ew; [| done].
  apply evict_retains. destruct Hr as [Hs Hb Hc Hcomplete]. constructor; [done | done | | done].
  eapply covers_advance; [by apply advances_le | exact Hc].
Qed.

Lemma run_retains calls w : retains (wd_timeline w) (wd_all w) -> retains (wd_timeline (run calls w)) (wd_all (run calls w)).
Proof.
  revert w. induction calls as [| [c | position] calls IH]; intros w Hr; [done | |]; apply IH; cbn [step].
  - pose proof (append_retains c _ _ Hr) as H. by destruct (append c (wd_timeline w)) as [[] t].
  - by apply position_retains.
Qed.

Lemma create_retains capacity maximum t : 0 <= capacity -> createTimeline capacity maximum = Success t ->
  retains t [] /\ tl_capacity t = capacity /\ tl_maximumPositionRegressionBytes t = maximum.
Proof.
  intros Hc. unfold createTimeline. destruct (Z.eqb_spec capacity 0); [by intros ?%failure_not |]. intros [= <-].
  split_and!; [| done | done]. constructor; cbn; [constructor | lia | apply covers_refl | done].
Qed.

Lemma step_parameters c w : tl_capacity (wd_timeline (step w c)) = tl_capacity (wd_timeline w) /\
  tl_maximumPositionRegressionBytes (wd_timeline (step w c)) = tl_maximumPositionRegressionBytes (wd_timeline w).
Proof.
  assert (He : forall t, tl_capacity (evictSafeCheckpoints t) = tl_capacity t /\
    tl_maximumPositionRegressionBytes (evictSafeCheckpoints t) = tl_maximumPositionRegressionBytes t).
  { intros t. unfold evictSafeCheckpoints. destruct (tl_highWatermark t); [| done]. by destruct (_ <=? _). }
  destruct c as [c | position]; cbn [step].
  - destruct (append_spec c (wd_timeline w)) as (r & t' & -> & H).
    destruct r as [[] | e]; [destruct H as (-> & _); apply He | destruct H as [-> | ->]; [done | apply He]].
  - unfold observePacketPosition. destruct (regressed _ _ _); [done |].
    destruct (match tl_highWatermark _ with Some _ => _ | None => _ end); [exact (He (setWatermark position (wd_timeline w))) | done].
Qed.

Lemma run_parameters calls w : tl_capacity (wd_timeline (run calls w)) = tl_capacity (wd_timeline w) /\
  tl_maximumPositionRegressionBytes (wd_timeline (run calls w)) = tl_maximumPositionRegressionBytes (wd_timeline w).
Proof.
  revert w. induction calls as [| c calls IH]; intros w; [done |]. destruct (step_parameters c w) as [<- <-]. apply (IH (step w c)).
Qed.

(** A position that did not regress too far is in the window the watermark keeps. *)
Lemma not_regressed watermark maximum position : 0 <= maximum -> regressed watermark maximum position = false ->
  forall w, watermark = Some w -> w - maximum <= position.
Proof.
  intros Hm H w ->. apply andb_false_iff in H as [H | H]; apply Z.ltb_ge in H; lia.
Qed.

(** C29: the bounded evidence timeline forgets only what no legal packet position
    can ask for.  After any sequence of appended checkpoints and observed packet
    positions, it holds at most its capacity, and at every position within the
    planned regression it answers exactly what an unbounded record of everything
    appended would: the last checkpoint at or before the position, and an error
    when there is none.  While the history is reported complete, nothing was forgotten. *)
Theorem timeline_lookup_exact capacity maximum t0 calls w position
  (Hc : 0 <= capacity) (Hm : 0 <= maximum) (Ht : createTimeline capacity maximum = Success t0)
  (Ew : run calls (mkWorld t0 []) = w) (Hp : regressed (tl_highWatermark (wd_timeline w)) maximum position = false) :
  Z.of_nat (length (tl_checkpoints (wd_timeline w))) <= capacity /\
  (forall c, atOrBefore position (wd_timeline w) = Success c <-> lastAtOrBefore ec_byteOffset position (wd_all w) = Some c) /\
  (tl_historyComplete (wd_timeline w) = true -> tl_checkpoints (wd_timeline w) = wd_all w).
Proof.
  destruct (create_retains _ _ _ Hc Ht) as (Hr & E1 & E2). pose proof (run_retains calls (mkWorld t0 []) Hr) as [Hs Hb Hcov Hcomplete].
  destruct (run_parameters calls (mkWorld t0 [])) as [E3 E4]. rewrite Ew in *. cbn in E3, E4. rewrite E3, E1 in Hb. rewrite E4, E2 in Hcov.
  split_and!; [done | | done]. intros c. unfold atOrBefore. rewrite E4, E2, Hp.
  rewrite (covers_lookup _ _ _ _ _ _ Hs Hcov (not_regressed _ _ _ Hm Hp)).
  destruct (lastAtOrBefore _ _ _); split; [by intros [= ->] | by intros [= ->] | by intros ?%failure_not | done].
Qed.

Definition exampleEvidence (offset : Z) : MediaTsEvidenceCheckpoint :=
  mkEvidence offset (mkSnapshot 0 []) None None false 0.

Definition exampleCalls : list TimelineCall :=
  [Call_Append (exampleEvidence 0); Call_Append (exampleEvidence 188); Call_Position 100; Call_Append (exampleEvidence 376);
   Call_Append (exampleEvidence 564); Call_Position 600; Call_Append (exampleEvidence 752)].

(** With a window of 200 bytes the first checkpoint is gone after 600 and the
    second is the one a packet at 420 still needs. *)
Lemma timeline_lookup_exact_witness :
  let w := run exampleCalls (mkWorld (mkTimeline 4 200 None [] true) []) in
  length (tl_checkpoints (wd_timeline w)) = 3%nat /\ length (wd_all w) = 5%nat /\
  atOrBefore 420 (wd_timeline w) = Success (exampleEvidence 376).
Proof.
  intros w. split; [by vm_compute |]. split; [by vm_compute |].
  destruct (timeline_lookup_exact 4 200 (mkTimeline 4 200 None [] true) exampleCalls w 420) as (_ & H & _);
    [lia | lia | reflexivity | reflexivity | by vm_compute |].
  apply H. by vm_compute.
Defined.

End MediaTsEvidenceTimeline.

(** ** The clock projection *)

Module MediaTsClockProjection.
Import MediaTsEvidenceTimeline.

Inductive MediaSourceClockReadiness := Acquiring | Locked | ReacquireRequired | Degraded.

Record MediaTsClockProjectionCheckpoint := mkProjected {
  cp_byteOffset : Z;
  cp_calibration : option MediaTsPcrCalibration;
  cp_readiness : MediaSourceClockReadiness;
  cp_generation : Z;
}.

Record Projection := mkProjection {
  pj_policy : MediaTsProgramClockPolicy;
  pj_capacity : Z;
  pj_maximumPositionRegressionBytes : Z;
  pj_initialSourceGeneration : Z;
  pj_expectedInitialRawTransportGeneration : Z;
  pj_tracker : Tracker;
  pj_checkpoints : list MediaTsClockProjectionCheckpoint;
  pj_lastReplayedOffset : option Z;
  pj_packetPositionHighWatermark : option Z;
  pj_lastRawTransportGeneration : option Z;
}.

Definition createProjection (policy : MediaTsProgramClockPolicy)
  (capacity maximumPositionRegressionBytes initialSourceGeneration expectedInitialRawTransportGeneration : Z) : Result Projection :=
  if capacity =? 0 then failure (invalidArgument "MPEG-TS clock projection capacity must be positive")
  else
    let* tracker := createTracker policy initialSourceGeneration in
    Success (mkProjection policy capacity maximumPositionRegressionBytes initialSourceGeneration expectedInitialRawTransportGeneration
               tracker [] None None None).

Definition programText (p : MediaTsProgramInfo) : string :=
  "program=" +:+ pretty (pi_programNumber p) +:+ ",pmt=" +:+ pretty (pi_pmtPid p) +:+ ",pcr=" +:+ pretty (pi_pcrPid p).

Fixpoint programsText (l : list MediaTsProgramInfo) : string :=
  match l with
  | [] => EmptyString
  | [p] => programText p
  | p :: l => programText p +:+ ";" +:+ programsText l
  end.

Definition hasPid (p : MediaTsProgramInfo) (pid : Z) : bool := existsb (fun s => es_pid s =? pid) (pi_elementaryStreams p).

Definition policyProgram (policy : MediaTsProgramClockPolicy) : Z :=
  match policy with VideoOnlyClock p => vp_programNumber p | AudioVideoClock p => ap_programNumber p end.

Definition policyPmtPid (policy : MediaTsProgramClockPolicy) : Z :=
  match policy with VideoOnlyClock p => vp_pmtPid p | AudioVideoClock p => ap_pmtPid p end.

Definition selectedPidsPresent (policy : MediaTsProgramClockPolicy) (program : MediaTsProgramInfo) : bool :=
  match policy with
  | VideoOnlyClock p => hasPid program (vp_videoPid p)
  | AudioVideoClock p => hasPid program (ap_videoPid p) && hasPid program (ap_audioPid p)
  end.

Definition identityMismatch (policy : MediaTsProgramClockPolicy) (inventory : MediaTsProgramInventorySnapshot) : Status :=
  failure (invalidArgument ("MPEG-TS projection selected program identity mismatch: expected program=" +:+ pretty (policyProgram policy)
    +:+ ",pmt=" +:+ pretty (policyPmtPid policy) +:+ ",pcr=" +:+ pretty (pcrPid policy) +:+ "; actual "
    +:+ programsText (sn_programs inventory))).

Definition validateInventory (inventory : MediaTsProgramInventorySnapshot) (policy : MediaTsProgramClockPolicy) : Status :=
  match List.find (fun item => pi_programNumber item =? policyProgram policy) (sn_programs inventory) with
  | None => identityMismatch policy inventory
  | Some program =>
      if negb (pi_pmtPid program =? policyPmtPid policy) || negb (pi_pcrPid program =? pcrPid policy)
      then identityMismatch policy inventory
      else if negb (selectedPidsPresent policy program)
      then failure (invalidArgument "MPEG-TS projection selected stream PID mismatch")
      else Success tt
  end.

(** The checks of one piece of evidence that come before the capacity. *)
Definition evidenceConsistent (evidence : MediaTsEvidenceCheckpoint) : Status :=
  if match ec_pcrObservation evidence with Some p => negb (rp_byteOffset p =? ec_byteOffset evidence) | None => false end
  then failure (invalidArgument "MPEG-TS projection PCR offset mismatch")
  else if match ec_continuityEvent evidence with Some e => negb (ce_byteOffset e =? ec_byteOffset evidence) | None => false end
  then failure (invalidArgument "MPEG-TS projection continuity event offset mismatch")
  else
    match ec_pcrObservation evidence with
    | Some p =>
        let matchingDiscontinuityEvent :=
          match ec_continuityEvent evidence with
          | Some e => (ce_pid e =? rp_pid p) && match ce_reason e with DiscontinuityIndicator => true | CounterLoss => false end
          | None => false
          end in
        if negb (Bool.eqb (rp_discontinuity p) matchingDiscontinuityEvent)
        then failure (invalidArgument "MPEG-TS PCR discontinuity must match its raw continuity event")
        else Success tt
    | None => Success tt
    end.

Definition hasEvent (evidence : MediaTsEvidenceCheckpoint) : bool :=
  match ec_continuityEvent evidence with Some _ => true | None => false end.

Definition generationContinues (evidence : MediaTsEvidenceCheckpoint) (expectedInitial : Z) (last : option Z) : Status :=
  match last with
  | None =>
      let exactOrigin := negb (hasEvent evidence) && (ec_generation evidence =? expectedInitial) in
      let firstTransition :=
        hasEvent evidence && negb (expectedInitial =? uint64_max) && (ec_generation evidence =? u64 (expectedInitial + 1)) in
      if negb exactOrigin && negb firstTransition
      then failure (notInitialized "MPEG-TS clock projection missing bootstrap/history")
      else Success tt
  | Some last =>
      if (ec_generation evidence <? last) || (1 <? ec_generation evidence - last)
      then failure (invalidArgument "MPEG-TS raw transport generation is non-contiguous")
      else if negb (Bool.eqb (negb (ec_generation evidence =? last)) (hasEvent evidence))
      then failure (invalidArgument "MPEG-TS raw transport generation/event mismatch")
      else Success tt
  end.

Definition inventoryAvailable (evidence : MediaTsEvidenceCheckpoint) : bool := negb (bool_decide (sn_programs (ec_inventory evidence) = [])).

(** What the evidence tells the tracker. *)
Definition observeEvidence (policy : MediaTsProgramClockPolicy) (evidence : MediaTsEvidenceCheckpoint) (t : Tracker) : Result Tracker :=
  let* _ := if inventoryAvailable evidence then validateInventory (ec_inventory evidence) policy else Success tt in
  let* t :=
    match ec_continuityEvent evidence with
    | Some e =>
        if inventoryAvailable evidence && (ce_pid e =? pcrPid policy)
        then match observePcrContinuityLoss (pcrPid policy) t with (Success _, t) => Success t | (Failure e, _) => failure e end
        else Success t
    | None => Success t
    end in
  match ec_pcrObservation evidence with
  | Some p =>
      if inventoryAvailable evidence && (rp_pid p =? pcrPid policy)
      then
        match observe (mkObservation (rp_byteOffset p) (rp_pid p) (rp_pcr27Mhz p) false) t with
        | (Success _, t) => Success t
        | (Failure e, _) => failure e
        end
      else Success t
  | None => Success t
  end.

Definition projectedCheckpoint (evidence : MediaTsEvidenceCheckpoint) (initialGeneration : Z) (t : Tracker)
  : Result MediaTsClockProjectionCheckpoint :=
  let* calibration :=
    if inventoryAvailable evidence && tr_ready t then let* c := calibration t in Success (Some c) else Success None in
  Success (mkProjected (ec_byteOffset evidence) calibration
    (if negb (inventoryAvailable evidence) then Acquiring
     else match calibration with
          | Some _ => Locked
          | None => if tr_generation t =? initialGeneration then Acquiring else ReacquireRequired
          end) (tr_generation t)).

Definition evictProjected (p : Projection) : list MediaTsClockProjectionCheckpoint :=
  match pj_packetPositionHighWatermark p with
  | Some watermark =>
      if watermark <=? pj_maximumPositionRegressionBytes p then pj_checkpoints p
      else dropSuperseded cp_byteOffset (watermark - pj_maximumPositionRegressionBytes p) (pj_checkpoints p)
  | None => pj_checkpoints p
  end.

Definition replayOne (evidence : MediaTsEvidenceCheckpoint) (p : Projection) : Result Projection :=
  let* _ := evidenceConsistent evidence in
  let* _ := generationContinues evidence (pj_expectedInitialRawTransportGeneration p) (pj_lastRawTransportGeneration p) in
  let checkpoints := evictProjected p in
  if Z.of_nat (length checkpoints) =? pj_capacity p
  then failure (invalidArgument "MPEG-TS clock projection capacity exhausted")
  else
    let* tracker := observeEvidence (pj_policy p) evidence (pj_tracker p) in
    let* checkpoint := projectedCheckpoint evidence (pj_initialSourceGeneration p) tracker in
    Success (mkProjection (pj_policy p) (pj_capacity p) (pj_maximumPositionRegressionBytes p) (pj_initialSourceGeneration p)
      (pj_expectedInitialRawTransportGeneration p) tracker (checkpoints ++ [checkpoint]) (Some (ec_byteOffset evidence))
      (pj_packetPositionHighWatermark p) (Some (ec_generation evidence))).

Fixpoint replayLoop (evidence : list MediaTsEvidenceCheckpoint) (p : Projection) : Result Projection :=
  match evidence with
  | [] => Success p
  | item :: evidence =>
      if match pj_lastReplayedOffset p with Some o => ec_byteOffset item <=? o | None => false end then replayLoop evidence p
      else let* p := replayOne item p in replayLoop evidence p
  end.

Fixpoint strictlyOrdered (evidence : list MediaTsEvidenceCheckpoint) : bool :=
  match evidence with
  | a :: (b :: _) as rest => negb (ec_byteOffset b <=? ec_byteOffset a) && strictlyOrdered rest
  | _ => true
  end.

Definition replay (evidence : list MediaTsEvidenceCheckpoint) (p : Projection) : Status * Projection :=
  if negb (strictlyOrdered evidence)
  then (failure (invalidArgument "MPEG-TS projection evidence must be strictly ordered"), p)
  else
    match replayLoop evidence p with
    | Success p => (Success tt, p)
    | Failure e => (failure e, p)
    end.

Definition setPosition (w : Z) (p : Projection) : Projection :=
  mkProjection (pj_policy p) (pj_capacity p) (pj_maximumPositionRegressionBytes p) (pj_initialSourceGeneration p)
    (pj_expectedInitialRawTransportGeneration p) (pj_tracker p) (pj_checkpoints p) (pj_lastReplayedOffset p) (Some w)
    (pj_lastRawTransportGeneration p).

Definition observeProjectedPosition (position : Z) (p : Projection) : Status * Projection :=
  if regressed (pj_packetPositionHighWatermark p) (pj_maximumPositionRegressionBytes p) position
  then (failure (invalidArgument "MPEG-TS projection packet position exceeds planned regression"), p)
  else if match pj_packetPositionHighWatermark p with Some w => w <? position | None => true end
  then (Success tt, setPosition position p)
  else (Success tt, p).

Definition projectedAtOrBefore (position : Z) (p : Projection) : Result MediaTsClockProjectionCheckpoint :=
  match lastAtOrBefore cp_byteOffset position (pj_checkpoints p) with
  | Some c => Success c
  | None => failure (notInitialized "MPEG-TS clock projection is unavailable for packet position")
  end.

Definition oldestRetainedGeneration (p : Projection) : Z :=
  match pj_checkpoints p with [] => pj_initialSourceGeneration p | c :: _ => cp_generation c end.

(** [MpegTsDemuxNode::sourceClockCheckpoint], on the timeline of the node's
    session and its projection; the mappers the node drops with old generations
    are not part of it. *)
Definition sourceClockCheckpoint (position : Z) (s : Timeline * Projection)
  : Result MediaTsClockProjectionCheckpoint * (Timeline * Projection) :=
  match observePacketPosition position (fst s) with
  | (Failure e, t) => (failure e, (t, snd s))
  | (Success _, t) =>
      match observeProjectedPosition position (snd s) with
      | (Failure e, p) => (failure e, (t, p))
      | (Success _, p) =>
          match replay (snapshotAfter (pj_lastReplayedOffset p) t) p with
          | (Failure e, p) => (failure e, (t, p))
          | (Success _, p) => (projectedAtOrBefore position p, (t, p))
          end
      end
  end.

(** ** Bounded replay answers like an unbounded one

    The reference replays all evidence without a capacity and forgets nothing. *)

Section Reference.

Context (policy : MediaTsProgramClockPolicy) (initialSource expectedInitialRaw : Z).

Record Reference := mkReference {
  rf_tracker : Tracker;
  rf_checkpoints : list MediaTsClockProjectionCheckpoint;
  rf_lastRawTransportGeneration : option Z;
}.

Definition referenceStep (evidence : MediaTsEvidenceCheckpoint) (s : Reference) : Result Reference :=
  let* _ := evidenceConsistent evidence in
  let* _ := generationContinues evidence expectedInitialRaw (rf_lastRawTransportGeneration s) in
  let* tracker := observeEvidence policy evidence (rf_tracker s) in
  let* checkpoint := projectedCheckpoint evidence initialSource tracker in
  Success (mkReference tracker (rf_checkpoints s ++ [checkpoint]) (Some (ec_generation evidence))).

Fixpoint referenceReplay (evidence : list MediaTsEvidenceCheckpoint) (s : Reference) : Result Reference :=
  match evidence with
  | [] => Success s
  | item :: evidence => let* s := referenceStep item s in referenceReplay evidence s
  end.

Lemma referenceReplay_app a b s s' : referenceReplay a s = Success s' -> referenceReplay (a ++ b) s = referenceReplay b s'.
Proof.
  revert s. induction a as [| x a IH]; intros s; cbn; [by intros [= ->] |].
  destruct (referenceStep x s) as [s1 | e]; cbn; [apply IH | by intros ?%failure_not].
Qed.

(** The projection has replayed [done]; [s] is the reference that did. *)
Record follows (p : Projection) (s : Reference) (done : list MediaTsEvidenceCheckpoint) : Prop := mkFollows {
  fl_policy : pj_policy p = policy;
  fl_initial : pj_initialSourceGeneration p = initialSource;
  fl_expected : pj_expectedInitialRawTransportGeneration p = expectedInitialRaw;
  fl_tracker : pj_tracker p = rf_tracker s;
  fl_raw : pj_lastRawTransportGeneration p = rf_lastRawTransportGeneration s;
  fl_last : pj_lastReplayedOffset p = ec_byteOffset <$> last done;
  fl_offsets : cp_byteOffset <$> rf_checkpoints s = ec_byteOffset <$> done;
  fl_covers : covers cp_byteOffset (pj_maximumPositionRegressionBytes p) (pj_packetPositionHighWatermark p)
                (pj_checkpoints p) (rf_checkpoints s);
}.

Lemma evictProjected_covers p all :
  covers cp_byteOffset (pj_maximumPositionRegressionBytes p) (pj_packetPositionHighWatermark p) (pj_checkpoints p) all ->
  covers cp_byteOffset (pj_maximumPositionRegressionBytes p) (pj_packetPositionHighWatermark p) (evictProjected p) all.
Proof.
  unfold evictProjected. destruct (pj_packetPositionHighWatermark p) as [w |]; [| done].
  destruct (w <=? _); [done | apply covers_drop].
Qed.

Lemma projectedCheckpoint_offset evidence initial t c : projectedCheckpoint evidence initial t = Success c ->
  cp_byteOffset c = ec_byteOffset evidence.
Proof.
  unfold projectedCheckpoint. destruct (if inventoryAvailable evidence && tr_ready t then _ else _) as [k | e]; cbn;
    [by intros [= <-] | by intros ?%failure_not].
Qed.

Lemma replayOne_follows evidence p p' s done : follows p s done -> replayOne evidence p = Success p' ->
  exists s', referenceStep evidence s = Success s' /\ follows p' s' (done ++ [evidence]) /\
    pj_maximumPositionRegressionBytes p' = pj_maximumPositionRegressionBytes p /\
    pj_packetPositionHighWatermark p' = pj_packetPositionHighWatermark p.
Proof.
  intros [E1 E2 E3 E4 E5 E6 E7 Hc] H. unfold replayOne, referenceStep in *. rewrite <- E4, <- E5. rewrite E1, E2, E3 in H.
  destruct (evidenceConsistent evidence); cbn in H |- *; [| by apply failure_not in H].
  destruct (generationContinues _ _ _); cbn in H |- *; [| by apply failure_not in H].
  destruct (_ =? pj_capacity p); [by apply failure_not in H |].
  destruct (observeEvidence _ _ _) as [t | e]; cbn in H |- *; [| by apply failure_not in H].
  destruct (projectedCheckpoint evidence initialSource t) as [c | e] eqn:Ec; cbn in H |- *; [| by apply failure_not in H].
  injection H as <-. eexists. split; [done |]. split; [| done]. constructor; cbn; [done | done | done | done | done | by rewrite last_snoc | |].
  - rewrite !fmap_app, E7. cbn. by rewrite (projectedCheckpoint_offset _ _ _ _ Ec).
  - by apply covers_snoc, evictProjected_covers.
Qed.

Lemma replayLoop_follows pending : forall p p' s done, follows p s done -> ordered ec_byteOffset (done ++ pending) ->
  replayLoop pending p = Success p' ->
  exists s', referenceReplay pending s = Success s' /\ follows p' s' (done ++ pending) /\
    pj_maximumPositionRegressionBytes p' = pj_maximumPositionRegressionBytes p /\
    pj_packetPositionHighWatermark p' = pj_packetPositionHighWatermark p.
Proof.
  induction pending as [| x pending IH]; intros p p' s done Hf Hs H; cbn in H |- *.
  - injection H as <-. rewrite app_nil_r. by exists s.
  - assert (Hskip : match pj_lastReplayedOffset p with Some o => ec_byteOffset x <=? o | None => false end = false).
    { rewrite (fl_last _ _ _ Hf). destruct (last done) as [b |] eqn:Eb; [| done]. cbn. apply Z.leb_gt.
      apply ordered_app in Hs as (_ & _ & Hlt). apply Hlt; [by apply last_Some_elem_of | left]. }
    rewrite Hskip in H. destruct (replayOne x p) as [p1 | e] eqn:E1; cbn in H; [| by apply failure_not in H].
    destruct (replayOne_follows _ _ _ _ _ Hf E1) as (s1 & -> & Hf1 & <- & <-). cbn.
    rewrite (cons_middle x done pending), app_assoc in Hs |- *. by apply IH.
Qed.

(** The node's view: a timeline, a projection, everything appended so far. *)
Record inStep (t : Timeline) (p : Projection) (all : list MediaTsEvidenceCheckpoint) (s0 : Reference) : Prop := mkInStep {
  in_retains : retains t all;
  in_maximum : tl_maximumPositionRegressionBytes t = pj_maximumPositionRegressionBytes p;
  in_watermark : tl_highWatermark t = pj_packetPositionHighWatermark p;
  in_replayed : exists done pending kept s, all = done ++ pending /\ tl_checkpoints t = kept ++ pending /\
    referenceReplay done s0 = Success s /\ follows p s done /\
    Forall (fun e => forall w, tl_highWatermark t = Some w -> w - tl_maximumPositionRegressionBytes t < ec_byteOffset e) pending;
}.

End Reference.

(** What the node does with its session: read on, which appends evidence, and ask
    for the checkpoint of a packet. *)

Record SourceWorld := mkSource {
  sw_timeline : Timeline;
  sw_projection : Projection;
  sw_all : list MediaTsEvidenceCheckpoint;
}.

Inductive SourceCall := Source_Evidence (c : MediaTsEvidenceCheckpoint) | Source_Packet (position : Z).

Definition sourceStep (w : SourceWorld) (c : SourceCall) : SourceWorld :=
  match c with
  | Source_Evidence c =>
      match append c (sw_timeline w) with
      | (Success _, t) => mkSource t (sw_projection w) (sw_all w ++ [c])
      | (Failure _, t) => mkSource t (sw_projection w) (sw_all w)
      end
  | Source_Packet position =>
      let '(t, p) := snd (sourceClockCheckpoint position (sw_timeline w, sw_projection w)) in mkSource t p (sw_all w)
  end.

(** Evidence that was not replayed yet is inside the window: the reader is not
    more than the planned regression ahead of the packets it hands out. *)
Definition timelyCall (w : SourceWorld) (c : SourceCall) : bool :=
  match c with
  | Source_Evidence c =>
      match tl_highWatermark (sw_timeline w) with
      | Some watermark => watermark - tl_maximumPositionRegressionBytes (sw_timeline w) <? ec_byteOffset c
      | None => true
      end
  | Source_Packet position =>
      forallb (fun e => position - tl_maximumPositionRegressionBytes (sw_timeline w) <? ec_byteOffset e)
        (match pj_lastReplayedOffset (sw_projection w) with
         | Some o => after ec_byteOffset o (sw_all w)
         | None => sw_all w
         end)
  end.

Fixpoint timely (calls : list SourceCall) (w : SourceWorld) : bool :=
  match calls with
  | [] => true
  | c :: calls => timelyCall w c && timely calls (sourceStep w c)
  end.

Definition sourceRun (calls : list SourceCall) (w : SourceWorld) : SourceWorld := foldl sourceStep w calls.

Lemma timely_app a b w : timely (a ++ b) w = timely a w && timely b (sourceRun a w).
Proof. revert w. induction a as [| c a IH]; intros w; [done |]. cbn. by rewrite IH, andb_assoc. Qed.

Section Driver.

Context (policy : MediaTsProgramClockPolicy) (initialSource expectedInitialRaw : Z) (s0 : Reference).

Notation inStep := (inStep policy initialSource expectedInitialRaw).

Lemma evict_fields t : tl_capacity (evictSafeCheckpoints t) = tl_capacity t /\
  tl_maximumPositionRegressionBytes (evictSafeCheckpoints t) = tl_maximumPositionRegressionBytes t /\
  tl_highWatermark (evictSafeCheckpoints t) = tl_highWatermark t.
Proof. unfold evictSafeCheckpoints. destruct (tl_highWatermark t) as [w |] eqn:E; [| done]. by destruct (_ <=? _). Qed.

Lemma evict_in_step t p all : inStep t p all s0 -> inStep (evictSafeCheckpoints t) p all s0.
Proof.
  intros [Hr Em Ew (done & pending & kept & s & E1 & E2 & E3 & E4 & Hw)]. destruct (evict_fields t) as (F1 & F2 & F3).
  constructor; [by apply evict_retains | by rewrite F2 | by rewrite F3 |].
  unfold evictSafeCheckpoints. destruct (tl_highWatermark t) as [w |] eqn:Et; [| by exists done, pending, kept, s; rewrite Et].
  destruct (w <=? _); [by exists done, pending, kept, s; rewrite Et |].
  exists done, pending, (dropSuperseded ec_byteOffset (w - tl_maximumPositionRegressionBytes t) kept), s. cbn.
  split_and!; [done | | done | done | by rewrite Et]. rewrite E2. apply dropSuperseded_app.
  eapply Forall_impl; [exact Hw |]. intros e He. by apply He.
Qed.

Lemma evidence_in_step c t p all : inStep t p all s0 ->
  (forall w, tl_highWatermark t = Some w -> w - tl_maximumPositionRegressionBytes t < ec_byteOffset c) ->
  match append c t with (Success _, t') => inStep t' p (all ++ [c]) s0 | (Failure _, t') => inStep t' p all s0 end.
Proof.
  intros Hin Hc. pose proof (append_retains c t all (in_retains _ _ _ _ _ _ _ Hin)) as Hr.
  pose proof (evict_in_step _ _ _ Hin) as He. destruct (append_spec c t) as (r & t' & E & H). rewrite E in Hr |- *.
  destruct r as [[] | e]; [| by destruct H as [-> | ->]]. destruct H as (-> & _). destruct (evict_fields t) as (F1 & F2 & F3).
  destruct He as [_ Em Ew (done & pending & kept & s & E1 & E2 & E3 & E4 & Hw)]. constructor; [done | done | done |].
  exists done, (pending ++ [c]), kept, s. cbn. split_and!; [by rewrite E1, app_assoc | by rewrite E2, app_assoc | done | done |].
  apply Forall_app. split; [done |]. apply Forall_singleton. by rewrite F2, F3.
Qed.

(** The evidence that was not replayed is what comes after the last replayed one. *)
Lemma after_replayed done pending kept d : ordered ec_byteOffset (done ++ pending) -> done = d ++ kept ->
  match ec_byteOffset <$> last done with
  | Some o => after ec_byteOffset o (kept ++ pending)
  | None => kept ++ pending
  end = pending.
Proof.
  intros (Hd & _ & Hlt)%ordered_app E. destruct done as [| b done _] using rev_ind.
  - symmetry in E. by apply app_eq_nil in E as [_ ->].
  - rewrite last_snoc. cbn. apply ordered_app in Hd as (_ & _ & Hb). apply after_app.
    + apply Forall_forall. intros x Hx. assert (Hin : x ∈ done ++ [b]) by (rewrite E; set_solver).
      apply elem_of_app in Hin as [Hin | ->%list_elem_of_singleton]; [| done]. specialize (Hb x b Hin ltac:(set_solver)). lia.
    + apply Forall_forall. intros x Hx. apply (Hlt b x); [set_solver | done].
Qed.

Lemma pending_snapshot t p done pending kept s : retains t (done ++ pending) -> tl_checkpoints t = kept ++ pending ->
  follows policy initialSource expectedInitialRaw p s done ->
  snapshotAfter (pj_lastReplayedOffset p) t = pending /\
  match pj_lastReplayedOffset p with Some o => after ec_byteOffset o (done ++ pending) | None => done ++ pending end = pending.
Proof.
  intros Hr E Hf. unfold snapshotAfter. rewrite E, (fl_last _ _ _ _ _ _ Hf).
  destruct (rt_covers _ _ Hr) as (d & Ed & _). rewrite E, app_assoc in Ed. apply app_inv_tail in Ed.
  split; [by apply (after_replayed done pending kept d (rt_ordered _ _ Hr)) | by apply (after_replayed done pending done [] (rt_ordered _ _ Hr))].
Qed.

Lemma position_in_step position t p all : inStep t p all s0 -> advances (tl_highWatermark t) position = true ->
  timelyCall (mkSource t p all) (Source_Packet position) = true ->
  inStep (setWatermark position t) (setPosition position p) all s0.
Proof.
  intros [Hr Em Ew (done & pending & kept & s & E1 & E2 & E3 & E4 & Hw)] Ha Ht. cbn [timelyCall sw_timeline sw_projection sw_all] in Ht.
  pose proof (advances_le _ _ Ha) as Hle. rewrite E1 in Hr, Ht. destruct (pending_snapshot _ _ _ _ _ _ Hr E2 E4) as [_ Ep]. rewrite Ep in Ht.
  subst all. constructor; [| done | done |].
  - destruct Hr as [Hs Hb Hc Hcomplete]. constructor; [done | done | | done]. by eapply covers_advance.
  - exists done, pending, kept, s. cbn. split_and!; [done | done | done | |].
    + destruct E4 as [F1 F2 F3 F4 F5 F6 F7 Hc]. constructor; [done.. |]. cbn. rewrite Ew in Hle. by eapply covers_advance.
    + apply Forall_forall. intros e He w [= <-]. rewrite forallb_forall in Ht.
      apply Z.ltb_lt, Ht. by apply list_elem_of_In.
Qed.

Lemma replay_in_step t p p' all : inStep t p all s0 -> replay (snapshotAfter (pj_lastReplayedOffset p) t) p = (Success tt, p') ->
  inStep t p' all s0 /\ exists s, referenceReplay policy initialSource expectedInitialRaw all s0 = Success s /\
    follows policy initialSource expectedInitialRaw p' s all.
Proof.
  intros [Hr Em Ew (done & pending & kept & s & E1 & E2 & E3 & E4 & Hw)] H. rewrite E1 in Hr.
  destruct (pending_snapshot _ _ _ _ _ _ Hr E2 E4) as [Ep _]. rewrite Ep in H. unfold replay in H.
  destruct (negb (strictlyOrdered pending)); [injection H as H _; by apply failure_not in H |].
  destruct (replayLoop pending p) as [p1 | e] eqn:El; [| injection H as H _; by apply failure_not in H]. injection H as ->.
  destruct (replayLoop_follows _ _ _ _ _ _ _ _ E4 (rt_ordered _ _ Hr) El) as (s' & F1 & F2 & F3 & F4).
  assert (Hall : referenceReplay policy initialSource expectedInitialRaw (done ++ pending) s0 = Success s') by by rewrite (referenceReplay_app _ _ _ _ _ _ _ E3).
  subst all. split; [| by exists s']. constructor; [done | by rewrite F3 | by rewrite F4 |].
  exists (done ++ pending), [], (tl_checkpoints t), s'. rewrite !app_nil_r. by split_and!.
Qed.

Lemma replay_failure evidence p p' e : replay evidence p = (Failure e, p') -> p' = p.
Proof.
  unfold replay. destruct (negb _); [by intros [= _ ->] |]. destruct (replayLoop evidence p); [done |]. by intros [= _ ->].
Qed.

(** A packet keeps the invariant, and what it is answered is what the reference has. *)
Lemma packet_in_step position t p all : 0 <= tl_maximumPositionRegressionBytes t -> inStep t p all s0 ->
  timelyCall (mkSource t p all) (Source_Packet position) = true ->
  let '(r, (t', p')) := sourceClockCheckpoint position (t, p) in
  inStep t' p' all s0 /\ tl_maximumPositionRegressionBytes t' = tl_maximumPositionRegressionBytes t /\
  forall c, r = Success c -> exists s, referenceReplay policy initialSource expectedInitialRaw all s0 = Success s /\
    lastAtOrBefore cp_byteOffset position (rf_checkpoints s) = Some c.
Proof.
  intros Hm Hin Ht. unfold sourceClockCheckpoint, observePacketPosition, observeProjectedPosition.
  pose proof (in_maximum _ _ _ _ _ _ _ Hin) as Em. pose proof (in_watermark _ _ _ _ _ _ _ Hin) as Ew.
  cbn [fst snd]. rewrite <- Ew, <- Em. destruct (regressed _ _ position) eqn:Er.
  { destruct (failure _ : Status) eqn:Ef; [by apply failure_not in Ef |]. split_and!; [done | done | by intros ? ?%failure_not]. }
  (* the world after both observed the position *)
  assert (Hobserved : exists t1 p1, inStep t1 p1 all s0 /\
    (if match tl_highWatermark t with Some w => w <? position | None => true end
     then (Success tt, evictSafeCheckpoints (setWatermark position t)) else (Success tt, t)) = (Success tt : Status, t1) /\
    (if match tl_highWatermark t with Some w => w <? position | None => true end
     then (Success tt, setPosition position p) else (Success tt, p)) = (Success tt : Status, p1) /\
    tl_maximumPositionRegressionBytes t1 = tl_maximumPositionRegressionBytes t /\
    (forall w, pj_packetPositionHighWatermark p1 = Some w -> w - tl_maximumPositionRegressionBytes t <= position)).
  { destruct (match tl_highWatermark t with Some w => w <? position | None => true end) eqn:Ea.
    - exists (evictSafeCheckpoints (setWatermark position t)), (setPosition position p). split_and!; [| done | done | |].
      + by apply evict_in_step, position_in_step.
      + apply (evict_fields (setWatermark position t)).
      + intros w [= <-]. lia.
    - exists t, p. split_and!; [done | done | done | done |]. rewrite <- Ew. by apply not_regressed. }
  destruct Hobserved as (t1 & p1 & Hin1 & -> & -> & Em1 & Hw1).
  destruct (replay _ p1) as [[[] | e] p2] eqn:Erep.
  - destruct (replay_in_step _ _ _ _ Hin1 Erep) as (Hin2 & s & Hs & Hf). split_and!; [done | done |]. intros c Hc. exists s. split; [done |].
    unfold projectedAtOrBefore in Hc. destruct (lastAtOrBefore cp_byteOffset position (pj_checkpoints p2)) eqn:El; [| by apply failure_not in Hc].
    injection Hc as ->. rewrite <- El. symmetry. eapply covers_lookup; [| apply (fl_covers _ _ _ _ _ _ Hf) |].
    + apply (ordered_fmap cp_byteOffset). rewrite (fl_offsets _ _ _ _ _ _ Hf). apply (ordered_fmap ec_byteOffset), (rt_ordered _ _ (in_retains _ _ _ _ _ _ _ Hin2)).
    + intros w Hw. rewrite <- (in_maximum _ _ _ _ _ _ _ Hin2), Em1. apply Hw1.
      by rewrite <- (in_watermark _ _ _ _ _ _ _ Hin1), (in_watermark _ _ _ _ _ _ _ Hin2).
  - apply replay_failure in Erep as ->. destruct (failure e) eqn:Ef; [by apply failure_not in Ef |]. by split_and!.
Qed.

Lemma call_in_step w c : 0 <= tl_maximumPositionRegressionBytes (sw_timeline w) -> inStep (sw_timeline w) (sw_projection w) (sw_all w) s0 ->
  timelyCall w c = true ->
  inStep (sw_timeline (sourceStep w c)) (sw_projection (sourceStep w c)) (sw_all (sourceStep w c)) s0 /\
  tl_maximumPositionRegressionBytes (sw_timeline (sourceStep w c)) = tl_maximumPositionRegressionBytes (sw_timeline w).
Proof.
  intros Hm Hin Ht. destruct w as [t p all], c as [c | position]; cbn [sourceStep sw_timeline sw_projection sw_all] in *.
  - assert (Hc : forall w, tl_highWatermark t = Some w -> w - tl_maximumPositionRegressionBytes t < ec_byteOffset c).
    { intros w Ew. cbn in Ht. rewrite Ew in Ht. by apply Z.ltb_lt in Ht. }
    pose proof (evidence_in_step c t p all Hin Hc) as H. destruct (append_spec c t) as (r & t' & E & Hr). rewrite E in H |- *.
    destruct (evict_fields t) as (_ & F & _).
    destruct r as [[] | e]; (split; [exact H |]); cbn; [destruct Hr as (-> & _); exact F | destruct Hr as [-> | ->]; [done | exact F]].
  - pose proof (packet_in_step position t p all Hm Hin Ht) as H.
    destruct (sourceClockCheckpoint position (t, p)) as [r [t' p']]. destruct H as (H1 & H2 & _). by split.
Qed.

Lemma run_in_step calls : forall w, 0 <= tl_maximumPositionRegressionBytes (sw_timeline w) ->
  inStep (sw_timeline w) (sw_projection w) (sw_all w) s0 -> timely calls w = true ->
  inStep (sw_timeline (sourceRun calls w)) (sw_projection (sourceRun calls w)) (sw_all (sourceRun calls w)) s0 /\
  0 <= tl_maximumPositionRegressionBytes (sw_timeline (sourceRun calls w)).
Proof.
  induction calls as [| c calls IH]; intros w Hm Hin Ht; [done |]. apply andb_true_iff in Ht as [Hc Ht].
  destruct (call_in_step w c Hm Hin Hc) as [H E]. apply IH; [by rewrite E | done | done].
Qed.

End Driver.

Lemma created_in_step policy capacity maximum initialSource expectedInitialRaw evidenceCapacity t p : 0 <= evidenceCapacity ->
  createTimeline evidenceCapacity maximum = Success t ->
  createProjection policy capacity maximum initialSource expectedInitialRaw = Success p ->
  inStep policy initialSource expectedInitialRaw t p [] (mkReference (pj_tracker p) [] None) /\
  tl_maximumPositionRegressionBytes t = maximum.
Proof.
  intros Hc Ht Hp. destruct (create_retains _ _ _ Hc Ht) as (Hr & _ & Em). split; [| done]. unfold createProjection in Hp.
  destruct (capacity =? 0); [by apply failure_not in Hp |].
  destruct (createTracker policy initialSource) as [tracker | e]; cbn in Hp; [| by apply failure_not in Hp]. injection Hp as <-.
  unfold createTimeline in Ht. destruct (evidenceCapacity =? 0); [by apply failure_not in Ht |]. injection Ht as <-.
  constructor; [done | done | done |]. exists [], [], [], (mkReference tracker [] None). split_and!; [done | done | done | | constructor].
  constructor; try done. apply covers_refl.
Qed.

(** C21: the bounded clock projection answers what an unbounded replay would.  The
    demux node appends evidence to its bounded timeline and asks for the clock at
    the position of each packet, and both the timeline and the projection forget
    checkpoints as positions advance.  As long as the reader is never more than
    the planned regression ahead of the packets it hands out, every checkpoint
    the node is answered (calibration, readiness and generation) is the one found by
    replaying all the evidence ever appended through the clock tracker without
    forgetting any of it. *)
Theorem projection_answers_exact policy evidenceCapacity capacity maximum initialSource expectedInitialRaw t p calls w position c rest
  (Hc : 0 <= evidenceCapacity) (Hm : 0 <= maximum)
  (Ht : createTimeline evidenceCapacity maximum = Success t)
  (Hp : createProjection policy capacity maximum initialSource expectedInitialRaw = Success p)
  (Ew : sourceRun calls (mkSource t p []) = w)
  (Htimely : timely (calls ++ [Source_Packet position]) (mkSource t p []) = true)
  (Ha : sourceClockCheckpoint position (sw_timeline w, sw_projection w) = (Success c, rest)) :
  exists s, referenceReplay policy initialSource expectedInitialRaw (sw_all w) (mkReference (pj_tracker p) [] None) = Success s /\
    lastAtOrBefore cp_byteOffset position (rf_checkpoints s) = Some c.
Proof.
  destruct (created_in_step _ _ _ _ _ _ _ _ Hc Ht Hp) as [Hin Em]. rewrite timely_app in Htimely.
  apply andb_true_iff in Htimely as [H1 H2%andb_true_iff]. destruct H2 as [H2 _]. rewrite Ew in H2.
  destruct (run_in_step _ _ _ _ calls (mkSource t p []) ltac:(cbn; lia) Hin H1) as [Hin' Hm']. rewrite Ew in Hin', Hm'.
  pose proof (packet_in_step _ _ _ _ position _ _ _ Hm' Hin') as H. destruct w as [t' p' all]. specialize (H H2).
  cbn [sw_timeline sw_projection sw_all] in *. rewrite Ha in H. destruct rest as [t2 p2]. destruct H as (_ & _ & H). by apply H.
Qed.


(** A clock that locks, loses continuity at 752, and locks again at 1128. *)
Definition exampleInventory : MediaTsProgramInventorySnapshot :=
  mkSnapshot 0 [mkProgramInfo 1 0x100 0 0x101 [mkStreamInfo 0x101 27]].

Definition examplePcr (offset pcr generation : Z) : MediaTsEvidenceCheckpoint :=
  mkEvidence offset exampleInventory (Some (mkRawPcr offset 0x101 pcr false)) None false generation.

Definition exampleSource : list SourceCall :=
  [Source_Evidence (exampleEvidence 0); Source_Evidence (examplePcr 188 5400000 0); Source_Packet 0;
   Source_Evidence (examplePcr 376 6480000 0); Source_Packet 376; Source_Evidence (examplePcr 564 7560000 0); Source_Packet 376;
   Source_Evidence (mkEvidence 752 exampleInventory None (Some (mkContinuityEvent 752 0x101 CounterLoss)) true 1); Source_Packet 600;
   Source_Evidence (examplePcr 940 2700000 1); Source_Packet 940; Source_Evidence (examplePcr 1128 3780000 1)].

Definition exampleTimeline : Timeline := mkTimeline 5 300 None [] true.
Definition exampleProjection : Projection :=
  mkProjection (VideoOnlyClock (mkVideoOnlyPolicy 1 0x100 0x101 0x101 2700000)) 5 300 7 0
    (mkTracker (VideoOnlyClock (mkVideoOnlyPolicy 1 0x100 0x101 0x101 2700000)) 7
       (MediaTimestampUnwrapper.create MediaTimestampUnwrapper.MpegTsPcr27Mhz 7) None None None None None None false false) [] None None None.

(** Seven checkpoints were appended; the timeline keeps four and the projection three. *)
Lemma projection_answers_exact_witness :
  let w := sourceRun exampleSource (mkSource exampleTimeline exampleProjection []) in
  length (sw_all w) = 7%nat /\ length (tl_checkpoints (sw_timeline w)) = 4%nat /\ length (pj_checkpoints (sw_projection w)) = 3%nat /\
  exists s, referenceReplay (VideoOnlyClock (mkVideoOnlyPolicy 1 0x100 0x101 0x101 2700000)) 7 0 (sw_all w)
      (mkReference (pj_tracker exampleProjection) [] None) = Success s /\
    lastAtOrBefore cp_byteOffset 1128 (rf_checkpoints s) = Some (mkProjected 1128 (Some (mkCalibration 8 3780000 320000000)) Locked 8).
Proof.
  intros w. split_and!; [by vm_compute | by vm_compute | by vm_compute |].
  apply (projection_answers_exact _ 5 5 300 7 0 exampleTimeline exampleProjection exampleSource w 1128 _
    (snd (sourceClockCheckpoint 1128 (sw_timeline w, sw_projection w)))); [lia | lia | reflexivity | reflexivity | reflexivity | by vm_compute |].
  by vm_compute.
Defined.

(** A packet position far past the evidence: the timeline evicts the continuity
    event at 752 before the projection replays it, and the raw generations no
    longer continue, then or for any later packet. *)
Definition jumpingSource : list SourceCall :=
  [Source_Evidence (exampleEvidence 0); Source_Evidence (examplePcr 188 5400000 0); Source_Packet 0;
   Source_Evidence (mkEvidence 752 exampleInventory None (Some (mkContinuityEvent 752 0x101 CounterLoss)) true 1);
   Source_Evidence (examplePcr 940 2700000 1)].

Lemma jump_evicts_unreplayed :
  let w := sourceRun jumpingSource (mkSource exampleTimeline exampleProjection []) in
  let '(first, (t, p)) := sourceClockCheckpoint 1300 (sw_timeline w, sw_projection w) in
  first = failure (invalidArgument "MPEG-TS raw transport generation/event mismatch") /\
  fst (sourceClockCheckpoint 1400 (t, p)) = first.
Proof. by vm_compute. Qed.

End MediaTsClockProjection.
